(* ===== verification/_CoqProject ===== *)
-Q . S2P
Prelude.v
Wire.v
Text.v
AdbHeader.v
PacketReader.v
ShellV2.v
SyncWire.v
Features.v
FastbootProto.v
SparseImage.v
BootImage.v
VendorBoot.v
IndexPQ.v
MdnsStore.v
ZeroConfig.v
Net.v
FastbootStream.v
FastbootUdp.v
IoVector.v
AdbTransport.v
UsbAdb.v
Registry.v
AuthKey.v
Handshake.v
HostService.v
SmartSocket.v
Relay.v
Verity.v
IncServer.v
IncTrace.v
IncServe.v
Pump.v
Effects.v
SyncClient.v
SyncClientEnds.v
SyncClientSpec.v
SyncClientDirect.v
SyncClientFiles.v
FastbootCli.v
FastbootRun.v
FastbootSpec.v
FastbootUpdate.v
FastbootEnds.v
FastbootMain.v
Install.v
InstallSpec.v
InstallMulti.v
MdnsService.v
MdnsBackend.v
DnsName.v
DnsResponse.v
Discovery.v
Incremental.v
SocketSpec.v
AdbCli.v
Float64.v
AidlLexer.v
AidlParser.v
AidlTotal.v
AidlText.v
AidlSpec.v
AidlGen.v
Fe25519.v
Prime25519.v
PairingWire.v
Spake2.v
Edwards.v
SpakeSpec.v
