(* ===== verification/Prelude.v ===== *)
(** * Verification of the adb and fastboot protocol code

    The repository ([src/]) reimplements the Android [adb] and [fastboot] tools in Rust. The
    workspace has these parts:

    - [src/crates/adb-protocol]: the ADB message header, the shell v2 and file sync protocols,
      feature negotiation, command quoting, authentication, pairing, TLS, transports;
    - [src/crates/fastboot-protocol]: fastboot responses and commands, slots and image lookup,
      sparse images, boot and vendor boot images, transports;
    - [src/crates/adb-fastboot-cli]: the two programs, the ADB client commands and the ADB server,
      among them the packet reassembly of the server and the shell demultiplexer of the client;
    - [src/crates/adb-mdns]: discovery of devices over mDNS: a record store, a queue of records
      that need attention, the engine over them, and a driver;
    - [src/crates/aidl-rs]: a compiler of interface declarations (AIDL) to Rust.

    A byte stream from a device goes through the packet reader (PacketReader), whose packets
    carry headers (AdbHeader); their payloads are shell packets (ShellV2) or sync messages
    (SyncWire), according to the features both sides announced (Features). A fastboot download
    announces a size and reads a response (FastbootProto), and its data is a sparse image, cut to
    the size of the device's buffer (SparseImage), or a boot image (BootImage, VendorBoot); it
    travels over TCP (FastbootStream) or UDP (FastbootUdp).

    A client of the ADB server writes requests with a length (AdbTransport), which a session of the
    server reads (SmartSocket) and answers from the device registry (Registry) through the host
    services (HostService). A device is connected by a handshake (Handshake) that answers tokens
    with the host's keys (AuthKey); after its selection the session opens a service on it and relays
    the two streams (Relay). The client pushes and pulls files over such a service, or over a connection of
    its own (SyncClient), and serves the blocks of a package that is installed while it is read (IncServer over
    Verity, with Pump between the device and the server). It installs packages by the services of the
    package manager (Install), or launches an incremental installation (Incremental). The adb program turns
    command lines into such requests (AdbCli). Wireless devices enter the registry from the zero-config engine
    (MdnsBackend) or from the server's own queries (DnsName, DnsResponse, Discovery); they are paired by a
    password (PairingWire, Spake2). The fastboot program (FastbootCli, FastbootRun) runs its commands over any of
    the fastboot transports. The interface compiler reads a text (AidlLexer, AidlParser) and writes Rust (AidlGen).

    ** Files

    - Prelude: bytes, machine integers, results with panics, slices, little-endian access, the
      tactics and the rewrite database [zlen_db] the other files use.
    - Wire: the classes [WireFormat] and [WireLaws], the contract between a fixed-size structure
      and the messages it is part of; sync and sparse image structures are instances.
    - Text: strings as UTF-8 bytes, and the standard-library functions on them.
    - AdbHeader: [header.rs] and the command words of [constants.rs] of adb-protocol. The header
      record, [Header.new], [encode], [decode] with its checks, the payload check, AUTH messages.
    - PacketReader: [server/apacket_reader.rs]. The cursor [Block], and the reader record with
      [process_block], the recursion of the source, and [add_bytes].
    - ShellV2: [shell_v2.rs] ([ShellV2Packet.parse], [encode]) and [drain_shell_v2_stream] of
      [client/shell.rs], as a state ([ShellStream]) and its transition.
    - SyncWire: [sync.rs] and [compress.rs]. One module per structure; the compression libraries
      are the class [Codecs] with the laws [CodecLaws].
    - Features: [features.rs] and [adb_utils.rs]; the shell's reading of words is [Sh.words].
    - FastbootProto: [response.rs], [command.rs], [slot.rs] and [image.rs] of fastboot-protocol.
    - SparseImage: [sparse.rs], all of it: chunks, encoder, decoder, raw conversion, split.
    - BootImage: [boot_image.rs]: packed OS version, headers of versions 0 to 4, builder, parser.
    - VendorBoot: [vendor_boot.rs]: layout, ramdisk table, parser, accessors, builder.
    - IndexPQ: [index_min_pq.rs] of adb-mdns: the heap with its index of positions, for any item
      type with an identity ([Keyed]) and an urgency ([CompareAttention]).
    - MdnsStore: [rr.rs] and [store.rs] of adb-mdns: records, the store, its snapshot.
    - ZeroConfig: [zero_config.rs] of adb-mdns and the timed part of [rr.rs]: the engine over the
      store and the queue. Its state is the record [ZeroConfig], each method a definition, and
      [zc_step] and [reachable] the state machine of its public methods; the DNS message library
      is the class [Dns].
    - Net: what the transports use of the operating system: I/O errors, datagram sockets (class
      [UdpSocket]) and byte streams ([Conn], a script of segments and errors, and what was written).
    - FastbootStream: [transport.rs] of fastboot-protocol: the response scanner, raw and framed TCP
      modes, the handshake, [Read] and [Write].
    - FastbootUdp: [udp.rs]: packets, acknowledged exchange with retransmissions, handshake, [Read]
      and [Write], over any socket; and a lossy network with a device ([Lossy]) to state reliability.
    - IoVector: [server/types.rs]: the queue of byte blocks.
    - AdbTransport: [transport.rs] of adb-protocol: messages over a stream, the trait [Transport] as a
      class, the client's side of the host protocol.
    - UsbAdb: [usb.rs] of adb-protocol: the search of the ADB interface in USB descriptors, and the
      adapter from bulk transfers to messages, over any back end (class [UsbBackend]).
    - AuthKey: [crypto/rsa_2048_key.rs] and [crypto/key.rs]: the Android form of public keys, AUTH
      messages, [AuthResponder]; the RSA and base64 libraries are classes with laws.
    - Registry: [server/models.rs], the rules of [server/forward.rs] and the lifecycle operations of
      [server/transport.rs]: devices, forward and reverse rules, the manager's events. [registry_op] lists the
      sections of code that run under the registry's lock, renames and the manager's refresh included.
    - Handshake: the CNXN and AUTH exchange of [server/bridge.rs], [server/models.rs] and
      [server/transport.rs], over any [Transport].
    - HostService: [dispatch_host_service] of [server/handler.rs], one definition per service, and
      the rule commands of [server/forward.rs]. Between two sections under the lock the services let the
      operations of other threads in ([others], [meanwhile]).
    - SmartSocket: [server/smart_socket.rs] and [server/services.rs]: requests, sessions, device services.
    - Relay: the two threads of [bridge_smart_remote] as a step relation, failures of reads and writes included.
    - Verity: [client/incremental/incremental_utils.rs]: blocks, the hash tree's layout, signatures.
    - IncServer: [client/incremental/incremental_server.rs]: files, the request parser, blocks and the queue of
      prefetches; IncTrace: the stream it sends as a trace; IncServe: its loops over the two kinds of
      connections, and opening the files.
    - Pump: [client/incremental/pump.rs]: the frames between the device and the block server.
    - Effects: the state and error monad of the commands, and a logic of what a command keeps.
    - SyncClient: [client/protocol.rs] and [client/file_sync.rs]: every operation of the sync client, over any
      transport and file system; SyncClientEnds: they return; SyncClientSpec: a reference device, and pushing to
      and pulling from it; SyncClientDirect: the direct operations against those through the server;
      SyncClientFiles: directories, and the concrete samples.
    - FastbootCli: [main_fastboot.rs], values and texts; FastbootRun: its flows and commands, over the classes
      [FastbootTransport] and [HostFiles]; FastbootSpec: a reference bootloader and disk as their instances;
      FastbootUpdate: updates; FastbootEnds: the transfers end; FastbootMain: commands from end to end.
    - Install: [client/adb_install.rs], every operation, over any transport and the class [ApkFiles];
      InstallSpec: a transport that keeps a log, a logic of what a command says, and the removal of pushed files;
      InstallMulti: a transport that tapes both sides of the conversation, and the transaction over several packages.
    - MdnsService: [mdns.rs] of adb-protocol; MdnsBackend: [server/mdns_backend.rs] with the events of the
      zero-config engine; DnsName, DnsResponse and Discovery: [server/adb_mdns.rs] and [client/mdns.rs], names,
      answers and rounds of discovery. The order in which a [HashMap] is walked is any order.
    - Incremental: [client/incremental.rs], the launcher of an incremental installation.
    - SocketSpec: [server/socket_spec.rs]; the resolver and the sockets are the class [Sockets].
    - AdbCli: the parts of [main_adb.rs] that are requests to the server, with [client/host_command.rs],
      [client/abb.rs] and [client/detach.rs].
    - Float64: parsing and printing of [f64]; AidlLexer and AidlParser: [parser.rs] and [ast.rs] of aidl-rs;
      AidlTotal: every text is decided; AidlText and AidlSpec: a printer, the grammar of constant expressions, and
      reading back; AidlGen: [generator.rs].
    - PairingWire: [pairing.rs] of adb-protocol; Fe25519 and Spake2: [pairing_auth/legacy_spake2.rs], field
      elements in limbs, points and messages; Prime25519: the modulus is prime; Edwards: the affine group of the
      curve; SpakeSpec: the code against it.

    ** What the theorems show

    - Wire formats (AdbHeader, SyncWire, ShellV2, FastbootProto): decoding reads back what
      encoding wrote, with anything after it; decoders do not panic, and for the header, shell
      packets, STAT_V2 and fastboot responses the accepted inputs are characterised exactly.
    - Streams (PacketReader, ShellV2): packets are recovered from a stream cut into blocks in any
      way, the result does not depend on the cut, processing terminates, an oversized header
      resets the reader.
    - Negotiation and quoting (Features): the feature list survives the banner, a feature is used
      when both sides have it, a quoted command line is read by the shell as the given words.
    - Images (SparseImage, BootImage, VendorBoot): encoding and decoding round trips; parsers of
      untrusted files stay in range, but for one family of short boot images, which is exactly
      characterised; a split sparse file terminates with pieces within the limit that
      concatenate to the original.
    - mDNS (IndexPQ, MdnsStore): the queue refines a map with extraction of a minimum (a
      simulation over any sequence of calls); the store refines one map from record slots to
      contents; its snapshot lists exactly the reachable services.
    - The zero-config engine (ZeroConfig): in every reachable state the stored records are
      scheduled; a tick returns exactly when no record is rescheduled into the past, and then
      nothing is overdue; the reported commands keep a listener equal to the snapshot.
    - Fastboot transports (FastbootStream, FastbootUdp): framed responses arrive whole however the
      stream is cut, receiving always ends; over UDP every operation completes with the loss-free
      result while the network loses fewer packets than there are retries.
    - Messages (AdbTransport, UsbAdb): what is sent over a stream or over USB transfers is received
      unchanged; the scan of USB descriptors never panics and finds the first usable interface.
    - Keys and handshake (AuthKey, Handshake): the Android key form is right and read back, the
      offered key is the one that verifies later signatures, the answers to tokens are bounded, and
      the device that connected is registered.
    - The server (Registry, HostService, SmartSocket, Relay): ids and rules stay unique over every order of the
      sections under the lock, and serials too unless a rename or the manager's refresh meets a serial that is
      there already; so do the host services, with other threads between their sections; events and tracking
      tell a listener exactly the devices there are; a selection succeeds exactly for a usable device, from the
      client's request to its answer; sessions end; the relay delivers data in order, up to the first failure
      of a read or a write.
    - Incremental installation (Verity, IncServer, IncTrace, IncServe, Pump): every data block the server sends follows
      the hash blocks that verify it, each is sent once, prefetching completes, requests are recovered from
      a stream cut anyhow, serving ends, the exact requests that make it panic; the pump forwards in order with
      one frame under way.
    - The sync client (SyncClient and its files): a pushed file is on the device, and is pulled back unchanged; a
      pull stores a complete file or nothing; the direct operations do what those through the server do; all
      of them return for every peer, directories included.
    - The fastboot program (FastbootMain, FastbootUpdate, FastbootEnds): the flash command leaves exactly the
      flashed partition changed, a flashed image is fetched back, an update checks the device and flashes the
      archive in order, the vbmeta flags change one byte, transfers end.
    - Installing (InstallMulti, InstallSpec): several packages are installed as a transaction: the parent session
      is committed only when the device has answered every earlier step with success, and is abandoned with its
      children otherwise; files pushed for an installation are removed again on every path.
    - Incremental launches (Incremental): the launcher leaves no process behind on a failure, and the database it
      sends is the one that is served.
    - Wireless devices (MdnsBackend, DnsName, DnsResponse, Discovery): the devices are exactly the announced
      services, from the network's snapshot to the registry; names are decoded as the format says, and exactly when
      their reading ends.
    - The adb program (AdbCli): forward and reverse commands are the operations on a table of rules, from the
      command line through the server to what is printed.
    - The interface compiler (AidlTotal, AidlSpec, AidlGen): every text is decided, printed declarations are read
      back, constant expressions are read by the precedences of AIDL where no factor follows a signed operand, and
      when transaction codes are distinct.
    - Pairing (Fe25519, Edwards, SpakeSpec, PairingWire): field elements compute modulo the prime, points in the
      group of the curve, both sides of SPAKE2 derive one key; peer information is read back.

    Where the code departs from what it means to do, a theorem states what it does:
    [SparseImage.split_pieces_overlap] (pieces of a split carry no position),
    [BootImage.boot_parser_panics_iff] (a slice out of range on short input),
    [ZeroConfig.Sample.tick_hangs] (a tick that does not return, by rounding),
    [FastbootStream.fb_raw_cut] (raw responses cut by TCP), [IoVector.iov_coalesce_iff],
    [Registry.manager_refresh_duplicates], [Registry.forward_rebind_fails],
    [HostService.host_serial_misses_tcp], [HostService.emulator_twice_duplicates],
    [HostService.HostSample.connect_race_duplicates],
    [SmartSocket.tcp_service_never_relayed], [SmartSocket.refused_selection_continues],
    [Relay.relay_race], [Pump.pump_drops_outbox], [SyncClientFiles.SyncSample.list_misreads_entries] (directory
    entries), [FastbootMain.flash_large_image_overlaps], [FastbootMain.zero_chunk_never_ends] (a limit of 0),
    [FastbootMain.second_left_out], [FastbootMain.size_panics], [FastbootUpdate.update_suffixes_all],
    [InstallSpec.listed_packages_lost], [IncTrace.IncFault.data_without_tree], [DnsName.pointer_loop_hangs],
    [DnsResponse.pointed_services_bare], [DnsResponse.client_answer_panics], [Discovery.types_drop_each_other],
    [Discovery.lost_device_stays], [SocketSpec.bracketed_twice], [SocketSpec.port_zero_with_host],
    [AdbCli.cli_unserved_requests], [AdbCli.detach_reports_error], [AdbCli.wait_prefix_unused],
    [AdbCli.remote_server_ignored], [AidlLexer.lexed_badly], [AidlSpec.AidlSample.sign_takes_factors],
    [AidlSpec.AidlSample.nullable_argument], [AidlGen.numbers_collide], [AidlGen.escapes_lost],
    [SpakeSpec.spake2_never_completes] (a fixed point cannot be decoded) and [SpakeSpec.spake2_scalars].

    ** Conventions

    - An unsigned integer of [w] bits is a [Z] with [uint w]; casts and unchecked arithmetic
      reduce modulo [2^w], as in a release build; [usize] has 64 bits.
    - A fallible function returns [res E A]: [Ok], [Err] with the source's error, or [Panic] for a
      slice or index out of range or a failed [unwrap]. Where the model of a loop returns
      [option], [None] is a panic or the end of the fuel, and the theorems prove [Some].
    - A [String] is the list of its UTF-8 bytes; a [HashMap] or [HashSet] is a [gmap] or [gset],
      and where the source iterates over one, the result is shown not to depend on the order.
    - An [f64] is a number of the standard library's [SpecFloat] at 53 bits; instants and durations
      are counts of nanoseconds, and adding a duration to an instant does not overflow.
    - Vectors do not run out of memory; writes to the terminal are recorded and succeed.
    - A connection is a script: reads meet its segments and errors, deadlines included, in order, and
      then the end of the stream; writes succeed, or all fail with one error.
    - The registry's lock makes the sections that hold it atomic: threads are the order of these sections, the
      operations of others between two sections of a service ([meanwhile]), the states a polling service
      observes ([future]), the jobs a service starts, and the interleavings of the relay. Flags shared with listeners are indices into the registry.

    Fuel: the packet reader gets one unit per byte of the block and two more, since each round
    consumes input; the shell loop one per byte and one more, since a packet has at least five;
    [escape_arg] one per byte of the argument and one more; a chunk of a split [split_fuel]; [swim] the position plus one, since it at least halves; [sink] the
    length of the heap, since the position grows; [chunks] the length of the list; the scanner of
    fastboot responses and the loops of a session what is left of the script ([script_size]), since a
    response or a request takes input; the AUTH loop four messages, since it answers two; the loops of the sync
    client, of the install commands and of the block server what is left of their connection; the prefetch queue one more than its
    blocks; directories their depth, and a list of directories the bound of [SyncClientEnds]; the parser of declarations twice
    the number of tokens and one more, since [>>] counts twice; the carries of field elements three rounds; the loops of the fastboot program the bytes to send, or the number of requests. Each bound is
    proved to be enough, but where a device's limit of 0 makes the loop endless: then no fuel is, which is
    shown too. The loop of the zero-config [tick] takes its fuel as an argument: the
    theorem on it says when some fuel is enough, which is the number of due records plus one.

    ** Not modelled

    Opening and accepting sockets, the event loop and the threads around the modelled services, and netlink events;
    USB transfers and the back ends that make them; the operating system's files and the terminal: what these do to
    a command is a class or a parameter. TLS, AES-GCM, the C library of SPAKE2 and the pairing connection over them
    are calls of libraries; the protocol buffers are generated. Argument parsing is a library's; the arms of
    [main_adb.rs] that open a device directly and print, and the console, are input and output. [x25519_ladder] is
    called by nothing. *)
From stdpp Require Export base list gmap strings countable.
From Stdlib Require Export ZArith Lia.
From Stdlib Require Strings.Byte.
From Stdlib Require Export Init.Byte.
#[global] Open Scope Z_scope.

(** * Bytes *)

Abbreviation bytes := (list byte).

#[export] Instance byte_eq_decision : EqDecision byte := Byte.byte_eq_dec.

(** The numeric value of a byte ([b as u32]) and the truncating cast [z as u8]. *)
Definition b2z (b : byte) : Z := Z.of_N (Byte.to_N b).
Definition z2b (z : Z) : byte :=
  match Byte.of_N (Z.to_N (z mod 256)) with Some b => b | None => x00 end.

Lemma b2z_range b : 0 <= b2z b < 256.
Proof. pose proof (Byte.to_N_bounded b). unfold b2z. lia. Qed.

Lemma b2z_z2b z : b2z (z2b z) = z mod 256.
Proof.
  pose proof (Z.mod_pos_bound z 256 ltac:(lia)) as Hz. unfold z2b, b2z.
  destruct (Byte.of_N _) as [b|] eqn:E.
  - apply Byte.to_of_N in E. rewrite E. lia.
  - apply Byte.of_N_None_iff in E. lia.
Qed.

Lemma b2z_inj a b : b2z a = b2z b -> a = b.
Proof.
  unfold b2z. intros H. apply N2Z.inj in H.
  pose proof (Byte.of_to_N a). pose proof (Byte.of_to_N b). congruence.
Qed.

Lemma z2b_b2z b : z2b (b2z b) = b.
Proof.
  apply b2z_inj. rewrite b2z_z2b. pose proof (b2z_range b).
  by rewrite Z.mod_small by lia.
Qed.

#[export] Instance byte_countable : Countable byte.
Proof.
  refine (inj_countable Byte.to_N Byte.of_N _).
  intros b. apply Byte.of_to_N.
Defined.

(** A Rust string literal, as its UTF-8 bytes. *)
Definition B (s : string) : bytes := String.list_byte_of_string s.

(** * Machine integers

    A value of an unsigned type of [w] bits is a [Z] in [0, 2^w); [as] casts
    and unchecked arithmetic reduce modulo [2^w]. *)
Definition uint (w : Z) (z : Z) : Prop := 0 <= z < 2 ^ w.
Definition wrap (w z : Z) : Z := z mod 2 ^ w.

Definition u8 := uint 8.
Definition u16 := uint 16.
Definition u32 := uint 32.
Definition u64 := uint 64.

Definition u32_max : Z := 4294967295.
Definition usize_max : Z := 18446744073709551615.

Lemma uint_wrap w z : 0 <= w -> uint w (wrap w z).
Proof. intros. apply Z.mod_pos_bound. apply Z.pow_pos_nonneg; lia. Qed.

Lemma wrap_small w z : uint w z -> wrap w z = z.
Proof. intros. by apply Z.mod_small. Qed.

(** Signed types: a value of [w] bits is in [[-2^(w-1), 2^(w-1))], and casts reduce into that range. *)
Definition sint (w : Z) (z : Z) : Prop := - 2 ^ (w - 1) <= z < 2 ^ (w - 1).
Definition swrap (w z : Z) : Z := (z + 2 ^ (w - 1)) mod 2 ^ w - 2 ^ (w - 1).

Lemma swrap_small w z : 0 < w -> sint w z -> swrap w z = z.
Proof.
  unfold sint, swrap. intros Hw Hz. assert (2 ^ w = 2 * 2 ^ (w - 1)) as E.
  { rewrite <- Z.pow_succ_r by lia. f_equal. lia. }
  rewrite Z.mod_small by lia. lia.
Qed.

Lemma sint_swrap w z : 0 < w -> sint w (swrap w z).
Proof.
  unfold sint, swrap. intros Hw. assert (2 ^ w = 2 * 2 ^ (w - 1)) as E.
  { rewrite <- Z.pow_succ_r by lia. f_equal. lia. }
  pose proof (Z.pow_pos_nonneg 2 (w - 1) ltac:(lia) ltac:(lia)).
  pose proof (Z.mod_pos_bound (z + 2 ^ (w - 1)) (2 ^ w) ltac:(lia)). lia.
Qed.

Lemma swrap_wrap w z : 0 < w -> swrap w (wrap w z) = swrap w z.
Proof.
  intros Hw. unfold swrap, wrap. f_equal.
  assert (2 ^ w <> 0) by (apply Z.pow_nonzero; lia). by rewrite Z.add_mod_idemp_l.
Qed.

(** * Results

    [Panic] is the outcome of a slice or index out of range, of [unwrap] on
    [None] and of the other run-time checks of the language. *)
Inductive res (E A : Type) : Type :=
| Ok (a : A)
| Err (e : E)
| Panic.
Arguments Ok {E A} a.
Arguments Err {E A} e.
Arguments Panic {E A}.

Definition res_bind {E A C} (m : res E A) (k : A -> res E C) : res E C :=
  match m with Ok a => k a | Err e => Err e | Panic => Panic end.

Definition map_err {E F A} (f : E -> F) (m : res E A) : res F A :=
  match m with Ok a => Ok a | Err e => Err (f e) | Panic => Panic end.

Definition ok_or {E A} (o : option A) (e : E) : res E A :=
  match o with Some a => Ok a | None => Err e end.

Declare Scope rust_scope.
Delimit Scope rust_scope with rust.
Notation "'let!' x := m 'in' k" := (res_bind m (fun x => k))
  (at level 10, x binder, m at level 200, k at level 200) : rust_scope.
Notation "'guard!' b 'else' e 'in' k" := (if b then k else Err e)
  (at level 10, b at level 200, e at level 200, k at level 200) : rust_scope.
#[global] Open Scope rust_scope.

Definition is_ok {E A} (m : res E A) : bool := match m with Ok _ => true | _ => false end.
Definition no_panic {E A} (m : res E A) : Prop := m <> Panic.

Lemma res_bind_ok {E A C} (m : res E A) (k : A -> res E C) c :
  res_bind m k = Ok c <-> exists a, m = Ok a /\ k a = Ok c.
Proof.
  destruct m; simpl; split.
  - eauto.
  - intros (? & [= ->] & ?). done.
  - done.
  - by intros (? & ? & _).
  - done.
  - by intros (? & ? & _).
Qed.

(** * Slices *)

Definition zlen {A} (l : list A) : Z := Z.of_nat (length l).

(** [l[a..b]], where it is in range. *)
Definition slice {A} (a b : Z) (l : list A) : list A :=
  take (Z.to_nat (b - a)) (drop (Z.to_nat a) l).

(** [l[a..b]] with the bounds check of the language. *)
Definition get_slice {E A} (l : list A) (a b : Z) : res E (list A) :=
  if (0 <=? a) && (a <=? b) && (b <=? zlen l) then Ok (slice a b l) else Panic.

(** [l[i]] with the bounds check of the language. *)
Definition get_index {E A} (l : list A) (i : Z) : res E A :=
  if 0 <=? i then match l !! Z.to_nat i with Some x => Ok x | None => Panic end else Panic.

(** [l[off..off + bs.len()].copy_from_slice(bs)] into a buffer of fixed size; used
    where the offsets are literals in range of the buffer's type, so that the
    out-of-range branch (the buffer unchanged) is never taken. *)
Definition write_at {A} (off : Z) (bs l : list A) : list A :=
  if (0 <=? off) && (off + zlen bs <=? zlen l)
  then take (Z.to_nat off) l ++ bs ++ drop (Z.to_nat off + length bs) l
  else l.

(** [vec![x; n]] and [Vec::resize(n, x)]. *)
Definition zrep {A} (n : Z) (x : A) : list A := replicate (Z.to_nat n) x.
Definition resize {A} (n : Z) (x : A) (l : list A) : list A :=
  take (Z.to_nat n) l ++ replicate (Z.to_nat n - length l) x.

Lemma zlen_nil {A} : zlen (@nil A) = 0.
Proof. done. Qed.
Lemma zlen_cons {A} (x : A) l : zlen (x :: l) = 1 + zlen l.
Proof. unfold zlen. simpl. lia. Qed.
Lemma zlen_app {A} (l k : list A) : zlen (l ++ k) = zlen l + zlen k.
Proof. unfold zlen. rewrite length_app. lia. Qed.
Lemma zlen_nonneg {A} (l : list A) : 0 <= zlen l.
Proof. unfold zlen. lia. Qed.
Lemma zlen_zrep {A} n (x : A) : 0 <= n -> zlen (zrep n x) = n.
Proof. intros. unfold zlen, zrep. rewrite length_replicate. lia. Qed.
Lemma zlen_resize {A} n (x : A) l : 0 <= n -> zlen (resize n x l) = n.
Proof.
  intros. unfold zlen, resize.
  rewrite length_app, length_take, length_replicate. lia.
Qed.
Lemma resize_grow {A} n (x : A) l :
  zlen l <= n -> resize n x l = l ++ zrep (n - zlen l) x.
Proof.
  unfold zlen. intros. unfold resize, zrep. rewrite take_ge by lia. do 2 f_equal. lia.
Qed.
Lemma zlen_0_nil {A} (l : list A) : zlen l = 0 -> l = [].
Proof. destruct l; [done|]. rewrite zlen_cons. pose proof (zlen_nonneg l). lia. Qed.

Lemma zlen_slice {A} a b (l : list A) :
  0 <= a -> a <= b -> b <= zlen l -> zlen (slice a b l) = b - a.
Proof. unfold zlen, slice. intros. rewrite length_take, length_drop. lia. Qed.

Lemma write_at_in {A} off (bs l : list A) :
  0 <= off -> off + zlen bs <= zlen l ->
  write_at off bs l = take (Z.to_nat off) l ++ bs ++ drop (Z.to_nat off + length bs) l.
Proof.
  intros. unfold write_at.
  by rewrite (proj2 (Z.leb_le 0 off)), (proj2 (Z.leb_le (off + zlen bs) _)) by lia.
Qed.

Lemma write_at_cases {A} off (bs l : list A) :
  write_at off bs l = l \/
  (0 <= off /\ off + zlen bs <= zlen l /\
   write_at off bs l = take (Z.to_nat off) l ++ bs ++ drop (Z.to_nat off + length bs) l).
Proof.
  unfold write_at. destruct (0 <=? off) eqn:?; simpl; [|by left].
  destruct (off + zlen bs <=? zlen l) eqn:?; [|by left]. right. split_and!; [lia|lia|done].
Qed.

Lemma zlen_write_at {A} off (bs l : list A) : zlen (write_at off bs l) = zlen l.
Proof.
  destruct (write_at_cases off bs l) as [->|(? & ? & ->)]; [done|].
  unfold zlen in *. rewrite !length_app, length_take, length_drop. lia.
Qed.

Lemma slice_lookup {A} a b (l : list A) i :
  0 <= a ->
  slice a b l !! i = if decide (Z.of_nat i < b - a) then l !! (Z.to_nat a + i)%nat else None.
Proof.
  intros. unfold slice. case_decide.
  - rewrite lookup_take_lt by lia. by rewrite lookup_drop.
  - rewrite lookup_take_ge by lia. done.
Qed.

Lemma slice_full {A} n (l : list A) : zlen l <= n -> slice 0 n l = l.
Proof. unfold zlen, slice. intros. rewrite drop_0. apply take_ge. lia. Qed.

Lemma slice_empty {A} a b (l : list A) : b <= a -> slice a b l = [].
Proof. intros. unfold slice. by replace (Z.to_nat (b - a)) with 0%nat by lia. Qed.

Lemma slice_slice {A} a b c d (l : list A) :
  0 <= a -> 0 <= c -> d <= b - a ->
  slice c d (slice a b l) = slice (a + c) (a + d) l.
Proof.
  intros. apply list_eq. intros i. rewrite !slice_lookup by lia.
  destruct (decide (Z.of_nat i < d - c)) as [Hi|Hi].
  - rewrite (decide_True _ _ (P := Z.of_nat i < a + d - (a + c))) by lia.
    rewrite decide_True by lia. f_equal. lia.
  - by rewrite decide_False by lia.
Qed.

Lemma slice_cut {A} a b c (l : list A) :
  0 <= a -> a <= b -> b <= c -> slice a c l = slice a b l ++ slice b c l.
Proof.
  intros. unfold slice.
  replace (drop (Z.to_nat b) l) with (drop (Z.to_nat (b - a)) (drop (Z.to_nat a) l))
    by (rewrite drop_drop; f_equal; lia).
  rewrite take_take_drop. f_equal. lia.
Qed.

Lemma slice_app_l {A} a b (l k : list A) :
  0 <= a -> b <= zlen l -> slice a b (l ++ k) = slice a b l.
Proof.
  unfold zlen. intros. apply list_eq. intros i. rewrite !slice_lookup by lia.
  case_decide; [|done]. by rewrite lookup_app_l by lia.
Qed.

Lemma slice_app_r {A} a b (l k : list A) :
  zlen l <= a -> slice a b (l ++ k) = slice (a - zlen l) (b - zlen l) k.
Proof.
  unfold zlen. intros. apply list_eq. intros i. rewrite !slice_lookup by lia.
  destruct (decide (Z.of_nat i < b - a)).
  - rewrite decide_True by lia. rewrite lookup_app_r by lia. f_equal. lia.
  - by rewrite decide_False by lia.
Qed.

Lemma slice_app_here {A} a b (l m k : list A) :
  a = zlen l -> b = a + zlen m -> slice a b (l ++ m ++ k) = m.
Proof.
  intros -> ->. rewrite slice_app_r by lia. rewrite slice_app_l by lia.
  rewrite Z.sub_diag. apply slice_full. lia.
Qed.

(** Reading over a write: the written range itself, or a disjoint one. *)
Lemma slice_write_same {A} a b off (bs l : list A) :
  a = off -> b = off + zlen bs -> 0 <= off -> off + zlen bs <= zlen l ->
  slice a b (write_at off bs l) = bs.
Proof.
  intros -> -> ??. rewrite write_at_in by done.
  unfold zlen in *. apply slice_app_here; unfold zlen; [|done]. rewrite length_take. lia.
Qed.

Lemma slice_write_before {A} a b off (bs l : list A) :
  0 <= a -> b <= off -> slice a b (write_at off bs l) = slice a b l.
Proof.
  intros. destruct (write_at_cases off bs l) as [->|(? & ? & ->)]; [done|].
  unfold zlen in *. apply list_eq. intros i. rewrite !slice_lookup by lia.
  case_decide; [|done]. rewrite lookup_app_l by (rewrite length_take; lia).
  by rewrite lookup_take_lt by lia.
Qed.

Lemma slice_write_after {A} a b off (bs l : list A) :
  0 <= off -> off + zlen bs <= a -> slice a b (write_at off bs l) = slice a b l.
Proof.
  intros. destruct (write_at_cases off bs l) as [->|(? & ? & ->)]; [done|].
  unfold zlen in *. apply list_eq. intros i. rewrite !slice_lookup by lia.
  case_decide; [|done]. rewrite app_assoc, lookup_app_r by (rewrite length_app, length_take; lia).
  rewrite lookup_drop, length_app, length_take. f_equal. lia.
Qed.

Lemma slice_zrep {A} a b n (x : A) :
  0 <= a -> b <= n -> slice a b (zrep n x) = zrep (b - a) x.
Proof.
  intros. unfold slice, zrep. rewrite drop_replicate, take_replicate. f_equal. lia.
Qed.

(** [l.chunks(n)] for a positive [n]: pieces of [n] elements, the last possibly shorter. Every
    piece takes at least one element, so the length is enough fuel. *)
Fixpoint chunks_go {A} (fuel : nat) (n : nat) (l : list A) : list (list A) :=
  match fuel, l with
  | S fuel, _ :: _ => take n l :: chunks_go fuel n (drop n l)
  | _, _ => []
  end.
Definition chunks {A} (n : Z) (l : list A) : list (list A) := chunks_go (length l) (Z.to_nat n) l.

Lemma concat_chunks {A} n (l : list A) : 0 < n -> concat (chunks n l) = l.
Proof.
  intros Hn. unfold chunks. assert (0 < Z.to_nat n)%nat as Hm by lia. revert Hm.
  generalize (Z.to_nat n) as m. intros m Hm.
  assert (length l <= length l)%nat as Hf by lia. revert Hf. generalize (length l) at 2 3 as fuel.
  intros fuel. revert l. induction fuel as [|fuel IH]; intros [|x l] Hf; cbn [chunks_go]; try done.
  { cbn in Hf. lia. }
  cbn [concat]. rewrite IH, take_drop; [done|]. rewrite length_drop. cbn [length] in *. lia.
Qed.

Lemma chunks_bounds {A} n (l : list A) :
  0 < n -> Forall (fun c => 0 < zlen c <= n) (chunks n l).
Proof.
  intros Hn. unfold chunks. generalize (length l) as fuel. intros fuel. revert l.
  induction fuel as [|fuel IH]; intros [|x l]; cbn [chunks_go]; constructor; [|apply IH].
  unfold zlen. rewrite length_take. cbn [length]. lia.
Qed.

(** * Endianness *)

(** [v.to_le_bytes()] truncated to [n] bytes, and [from_le_bytes]. *)
Fixpoint le_bytes (n : nat) (v : Z) : bytes :=
  match n with
  | O => []
  | S n => z2b v :: le_bytes n (v / 256)
  end.

Fixpoint le_val (bs : bytes) : Z :=
  match bs with
  | [] => 0
  | b :: bs => b2z b + 256 * le_val bs
  end.

(** [v.to_be_bytes()] and [from_be_bytes]. *)
Definition be_bytes (n : nat) (v : Z) : bytes := reverse (le_bytes n v).
Definition be_val (bs : bytes) : Z := le_val (reverse bs).

Lemma length_le_bytes n v : length (le_bytes n v) = n.
Proof. revert v. induction n; intros; simpl; auto. Qed.

Lemma zlen_le_bytes n v : zlen (le_bytes n v) = Z.of_nat n.
Proof. unfold zlen. by rewrite length_le_bytes. Qed.

Lemma le_val_bytes n v : le_val (le_bytes n v) = v mod 2 ^ (8 * Z.of_nat n).
Proof.
  revert v. induction n as [|n IH]; intros v; cbn [le_bytes le_val].
  - by rewrite Z.mod_1_r.
  - rewrite IH, b2z_z2b.
    replace (8 * Z.of_nat (S n)) with (8 + 8 * Z.of_nat n) by lia.
    rewrite Z.pow_add_r by lia. change (2 ^ 8) with 256.
    rewrite Z.rem_mul_r; [done|lia|]. apply Z.pow_pos_nonneg; lia.
Qed.

Lemma le_val_range bs : 0 <= le_val bs < 2 ^ (8 * zlen bs).
Proof.
  induction bs as [|b bs IH]; cbn [le_val]; [done|]. rewrite zlen_cons.
  pose proof (b2z_range b). pose proof (zlen_nonneg bs).
  replace (8 * (1 + zlen bs)) with (8 + 8 * zlen bs) by lia.
  rewrite Z.pow_add_r by lia. change (2 ^ 8) with 256. nia.
Qed.

Lemma le_val_app a c : le_val (a ++ c) = le_val a + 2 ^ (8 * zlen a) * le_val c.
Proof.
  induction a as [|b a IH]; [cbn [app le_val]; change (zlen (@nil byte)) with 0; lia|].
  cbn [app le_val]. rewrite IH, zlen_cons. pose proof (zlen_nonneg a).
  replace (8 * (1 + zlen a)) with (8 + 8 * zlen a) by lia. rewrite Z.pow_add_r by lia. lia.
Qed.

Lemma le_bytes_val bs n : zlen bs = Z.of_nat n -> le_bytes n (le_val bs) = bs.
Proof.
  revert n. induction bs as [|b bs IH]; intros n; cbn [le_val].
  - rewrite zlen_nil. intros. by replace n with 0%nat by lia.
  - rewrite zlen_cons. pose proof (zlen_nonneg bs). destruct n as [|n]; [lia|]. intros Hn.
    cbn [le_bytes]. pose proof (b2z_range b). f_equal.
    + apply b2z_inj. rewrite b2z_z2b, (Z.mul_comm 256), Z.mod_add, Z.mod_small by lia. lia.
    + rewrite (Z.mul_comm 256), Z.div_add, Z.div_small by lia. apply IH. lia.
Qed.

Lemma le_val_inj a b : zlen a = zlen b -> le_val a = le_val b -> a = b.
Proof.
  intros Hl Hv. rewrite <- (le_bytes_val a (length a)) by done.
  rewrite Hv. apply le_bytes_val. unfold zlen in *. lia.
Qed.

Lemma le_val_bytes_id n v : uint (8 * Z.of_nat n) v -> le_val (le_bytes n v) = v.
Proof. intros. rewrite le_val_bytes. by apply Z.mod_small. Qed.

Lemma zlen_reverse {A} (l : list A) : zlen (reverse l) = zlen l.
Proof. unfold zlen. by rewrite length_reverse. Qed.

Lemma zlen_be_bytes n v : zlen (be_bytes n v) = Z.of_nat n.
Proof. unfold be_bytes. by rewrite zlen_reverse, zlen_le_bytes. Qed.

Lemma be_val_bytes_id n v : uint (8 * Z.of_nat n) v -> be_val (be_bytes n v) = v.
Proof. intros. unfold be_val, be_bytes. rewrite reverse_involutive. by apply le_val_bytes_id. Qed.

Lemma be_val_range bs : 0 <= be_val bs < 2 ^ (8 * zlen bs).
Proof. unfold be_val. rewrite <- (zlen_reverse bs). apply le_val_range. Qed.

(** [LittleEndian::read_uN(&buf[off..off + n])], [write_uN(&mut buf[off..off + n], v)]. *)
Definition read_le {E} (n : nat) (buf : bytes) (off : Z) : res E Z :=
  let! s := get_slice buf off (off + Z.of_nat n) in Ok (le_val s).
Definition read_u16 {E} (buf : bytes) (off : Z) : res E Z := read_le 2 buf off.
Definition read_u32 {E} (buf : bytes) (off : Z) : res E Z := read_le 4 buf off.
Definition read_u64 {E} (buf : bytes) (off : Z) : res E Z := read_le 8 buf off.

(** Two's complement reinterpretation of a 64-bit pattern, and back. *)
Definition to_i64 (z : Z) : Z := if z <? 2 ^ 63 then z else z - 2 ^ 64.
Definition of_i64 (z : Z) : Z := z mod 2 ^ 64.
Definition i64 (z : Z) : Prop := - 2 ^ 63 <= z < 2 ^ 63.
Definition read_i64 {E} (buf : bytes) (off : Z) : res E Z :=
  let! v := read_u64 buf off in Ok (to_i64 v).

Definition write_u16 (off v : Z) (buf : bytes) : bytes := write_at off (le_bytes 2 v) buf.
Definition write_u32 (off v : Z) (buf : bytes) : bytes := write_at off (le_bytes 4 v) buf.
Definition write_u64 (off v : Z) (buf : bytes) : bytes := write_at off (le_bytes 8 v) buf.
Definition write_i64 (off v : Z) (buf : bytes) : bytes := write_u64 off (of_i64 v) buf.

Lemma to_of_i64 z : i64 z -> to_i64 (of_i64 z) = z.
Proof.
  unfold i64, to_i64, of_i64. intros.
  assert (z < 0 \/ 0 <= z) as [Hn|Hp] by lia.
  - rewrite <- (Z.mod_add z 1 (2 ^ 64)), Z.mod_small by lia.
    destruct (Z.ltb_spec (z + 1 * 2 ^ 64) (2 ^ 63)); lia.
  - rewrite Z.mod_small by lia. destruct (Z.ltb_spec z (2 ^ 63)); lia.
Qed.

Lemma of_to_i64 z : u64 z -> of_i64 (to_i64 z) = z.
Proof.
  unfold u64, uint, to_i64, of_i64. intros.
  destruct (Z.ltb_spec z (2 ^ 63)).
  - apply Z.mod_small; lia.
  - rewrite <- (Z.mod_add _ 1 (2 ^ 64)), Z.mod_small by lia. lia.
Qed.

Lemma to_i64_range z : u64 z -> i64 (to_i64 z).
Proof. unfold u64, uint, i64, to_i64. intros. destruct (Z.ltb_spec z (2 ^ 63)); lia. Qed.

Lemma read_le_ok {E} n buf off :
  0 <= off -> off + Z.of_nat n <= zlen buf ->
  @read_le E n buf off = Ok (le_val (slice off (off + Z.of_nat n) buf)).
Proof.
  intros. unfold read_le, get_slice.
  rewrite (proj2 (Z.leb_le 0 off)), (proj2 (Z.leb_le off _)), (proj2 (Z.leb_le _ (zlen buf)))
    by lia. done.
Qed.

Lemma get_slice_ok {E A} (l : list A) a b :
  0 <= a -> a <= b -> b <= zlen l -> @get_slice E A l a b = Ok (slice a b l).
Proof.
  intros. unfold get_slice.
  by rewrite (proj2 (Z.leb_le 0 a)), (proj2 (Z.leb_le a b)), (proj2 (Z.leb_le b _)) by lia.
Qed.

Lemma get_slice_inv {E A} (l k : list A) a b :
  @get_slice E A l a b = Ok k -> 0 <= a /\ a <= b /\ b <= zlen l /\ k = slice a b l.
Proof.
  unfold get_slice. destruct (_ && _) eqn:H; [|done]. intros [= <-].
  apply andb_prop in H as [H ?%Z.leb_le]. apply andb_prop in H as [?%Z.leb_le ?%Z.leb_le]. done.
Qed.

Lemma get_slice_not_err {E A} (l : list A) a b (e : E) : get_slice l a b <> Err e.
Proof. unfold get_slice. by destruct (_ && _). Qed.

(** [Iterator::find] on a list extended at its end. *)
Lemma find_snoc {A} (f : A -> bool) l x :
  List.find f (l ++ [x]) = match List.find f l with Some y => Some y | None => if f x then Some x else None end.
Proof. induction l as [|y l IH]; cbn; [done|]. by destruct (f y). Qed.

(** * Automation

    [zlen_db] normalises lengths; [wire] evaluates reads of fixed offsets
    through writes of fixed offsets. *)
Create Rewrite HintDb zlen_db.
#[export] Hint Rewrite @zlen_nil @zlen_cons @zlen_app @zlen_write_at zlen_le_bytes zlen_be_bytes
  @zlen_reverse : zlen_db.
#[export] Hint Rewrite @zlen_zrep @zlen_resize using lia : zlen_db.

Ltac zl := autorewrite with zlen_db in *; try lia.
Ltac zg := autorewrite with zlen_db; lia.

Ltac wire_unfold :=
  unfold write_u16, write_u32, write_u64, write_i64, read_i64, read_u16, read_u32, read_u64 in *.

Ltac wire_slice :=
  repeat first
    [ rewrite slice_write_same by (autorewrite with zlen_db; lia)
    | rewrite slice_write_before by (autorewrite with zlen_db; lia)
    | rewrite slice_write_after by (autorewrite with zlen_db; lia) ].

Ltac wire_read :=
  repeat (rewrite read_le_ok by (autorewrite with zlen_db; lia); cbn [res_bind]).

Ltac wire := wire_unfold; wire_read; wire_slice.

(** Case analysis on an integer test of the goal, or of a hypothesis. *)
Ltac zcase :=
  match goal with
  | |- context [Z.ltb ?a ?b] => destruct (Z.ltb_spec a b)
  | |- context [Z.leb ?a ?b] => destruct (Z.leb_spec a b)
  | |- context [Z.eqb ?a ?b] => destruct (Z.eqb_spec a b)
  end; cbn [negb andb orb].

Ltac zcase_in H := revert H; zcase; intros H.

(** Split a successful bind of hypothesis [H] into its first step and the rest. *)
Ltac res_inv H :=
  let a := fresh "a" in let Ha := fresh "Ha" in
  apply res_bind_ok in H as (a & Ha & H).

Lemma filter_all {A} (p : A -> bool) l : Forall (fun d => p d = true) l -> List.filter p l = l.
Proof. induction 1 as [|d l Hd _ IH]; [done|]. cbn [List.filter]. by rewrite Hd, IH. Qed.
