(* ===== verification/Wire.v ===== *)
(** Fixed-size wire formats: the interface between the modules that define a binary structure
    and the modules that store such structures in larger messages or files.

    An instance of [WireFormat] names the encoder and the decoder of a structure; an instance of
    [WireLaws] states what its clients may rely on. The sync and sparse image structures
    are instances. *)
From S2P Require Import Prelude.

Class WireFormat (E A : Type) := {
  (** The number of bytes of the structure. *)
  wire_size : Z;
  (** The values the structure's field types admit, with what the decoder checks. *)
  wire_typed : A -> Prop;
  to_wire : A -> bytes;
  of_wire : bytes -> res E A;
}.
Arguments wire_size E A {_}.
Arguments to_wire {E A _} a.
Arguments wire_typed {E A _} a.

Class WireLaws (E A : Type) `{WireFormat E A} := {
  wire_length (a : A) : zlen (to_wire (E := E) a) = wire_size E A;
  wire_read (a : A) rest : wire_typed (E := E) a -> of_wire (to_wire (E := E) a ++ rest) = @Ok E A a;
  wire_image (b : bytes) (a : A) :
    of_wire b = @Ok E A a -> wire_typed (E := E) a /\ exists rest, b = to_wire (E := E) a ++ rest;
  wire_total (b : bytes) : of_wire b <> @Panic E A;
}.

Section WireFacts.
Context {E A : Type} `{WireLaws E A}.
Local Abbreviation to_wire := (to_wire (E := E)).
Local Abbreviation of_wire := (of_wire (E := E)).
Local Abbreviation wire_size := (wire_size E A).

(** The decoder accepts exactly the images of the encoder, followed by anything. *)
Lemma wire_iff (b : bytes) (a : A) :
  of_wire b = Ok a <-> wire_typed (E := E) a /\ exists rest, b = to_wire a ++ rest.
Proof.
  split; [apply wire_image|]. intros (Ht & rest & ->). by apply wire_read.
Qed.

Lemma wire_slice_image (b : bytes) (a : A) :
  of_wire b = Ok a -> slice 0 wire_size b = to_wire a /\ wire_size <= zlen b.
Proof.
  intros [_ [rest ->]]%wire_iff. pose proof (zlen_nonneg rest). split.
  - rewrite slice_app_l by (rewrite ?(wire_length (E := E)); lia). apply slice_full. rewrite (wire_length (E := E)). lia.
  - rewrite zlen_app, (wire_length (E := E)). lia.
Qed.

Lemma wire_inj (a a' : A) : wire_typed (E := E) a -> wire_typed (E := E) a' -> to_wire a = to_wire a' -> a = a'.
Proof.
  intros Ha Ha' Heq. pose proof (wire_read (E := E) a [] Ha) as H1.
  rewrite Heq, (wire_read (E := E) a' [] Ha') in H1. by simplify_eq.
Qed.

(** Only the first [wire_size] bytes matter. *)
Lemma wire_prefix (b b' : bytes) (a : A) :
  of_wire b = Ok a -> slice 0 wire_size b' = slice 0 wire_size b -> wire_size <= zlen b' ->
  of_wire b' = Ok a.
Proof.
  intros Hb Hs Hl. destruct (wire_slice_image _ _ Hb) as [Hi _]. rewrite Hi in Hs.
  apply wire_iff. split; [by apply wire_image in Hb as [? _]|].
  exists (slice wire_size (zlen b') b'). rewrite <- Hs.
  pose proof (zlen_nonneg (to_wire a)) as Hn. rewrite (wire_length (E := E)) in Hn.
  rewrite <- slice_cut by lia. symmetry. by apply slice_full.
Qed.
End WireFacts.

(** ** Reading fields out of a concatenation *)
Lemma slice_all {X} a b (l : list X) : a = 0 -> zlen l <= b -> slice a b l = l.
Proof. intros -> ?. by apply slice_full. Qed.

Ltac wire_app :=
  repeat first
    [ rewrite slice_app_l by (autorewrite with zlen_db; lia)
    | rewrite slice_app_r by (autorewrite with zlen_db; lia)
    | rewrite slice_all by (autorewrite with zlen_db; lia) ].

(** Evaluate the end offsets left by [read_le_ok]. *)
Ltac wire_norm :=
  repeat match goal with
  | |- context [slice ?a (?a + Z.of_nat ?n)] =>
      let v := eval vm_compute in (a + Z.of_nat n) in change (slice a (a + Z.of_nat n)) with (slice (A := byte) a v)
  end.

(** The field values of a decoded structure are in range. *)
Lemma le_val_uint (n : nat) buf a b :
  b - a = Z.of_nat n -> 0 <= a -> b <= zlen buf -> uint (8 * Z.of_nat n) (le_val (slice a b buf)).
Proof.
  intros. pose proof (le_val_range (slice a b buf)) as H2. rewrite zlen_slice in H2 by lia.
  by replace (b - a) with (Z.of_nat n) in H2 by lia.
Qed.

Lemma le_bytes_slice (n : nat) buf a b :
  b - a = Z.of_nat n -> 0 <= a -> b <= zlen buf -> le_bytes n (le_val (slice a b buf)) = slice a b buf.
Proof. intros. apply le_bytes_val. rewrite zlen_slice by lia. lia. Qed.

(** Close the range side conditions of [le_val_bytes_id]. *)
Ltac wire_val := repeat rewrite le_val_bytes_id by (unfold u8, u16, u32, u64, uint in *; cbn; lia).
