(* ===== verification/Text.v ===== *)
(** Rust strings as the source uses them: a [String] or [&str] is the list of its UTF-8
    bytes. Models the standard-library functions the components call ([from_utf8],
    [from_utf8_lossy], [split], [trim], [parse], [format!]) with their lemmas. *)
From S2P Require Import Prelude.

(** ** UTF-8 *)
Definition in_rng (lo hi : Z) (b : byte) : bool := (lo <=? b2z b) && (b2z b <=? hi).
Definition cont (b : byte) : bool := in_rng 0x80 0xBF b.

(** The range of the second byte of a three- or four-byte sequence. *)
Definition second3 (b0 b1 : byte) : bool :=
  if b2z b0 =? 0xE0 then in_rng 0xA0 0xBF b1
  else if b2z b0 =? 0xED then in_rng 0x80 0x9F b1
  else cont b1.
Definition second4 (b0 b1 : byte) : bool :=
  if b2z b0 =? 0xF0 then in_rng 0x90 0xBF b1
  else if b2z b0 =? 0xF4 then in_rng 0x80 0x8F b1
  else cont b1.

(** The first character of [l]: [(true, n)] for a well-formed one of [n] bytes,
    [(false, n)] for a maximal ill-formed prefix of [n] bytes. *)
Definition utf8_head (b0 : byte) (t : bytes) : bool * nat :=
  if in_rng 0 0x7F b0 then (true, 1%nat)
  else if in_rng 0xC2 0xDF b0 then
    match t with b1 :: _ => if cont b1 then (true, 2%nat) else (false, 1%nat)
               | _ => (false, 1%nat) end
  else if in_rng 0xE0 0xEF b0 then
    match t with
    | b1 :: t => if second3 b0 b1 then
        match t with b2 :: _ => if cont b2 then (true, 3%nat) else (false, 2%nat)
                   | _ => (false, 2%nat) end
        else (false, 1%nat)
    | _ => (false, 1%nat)
    end
  else if in_rng 0xF0 0xF4 b0 then
    match t with
    | b1 :: t => if second4 b0 b1 then
        match t with
        | b2 :: t => if cont b2 then
            match t with b3 :: _ => if cont b3 then (true, 4%nat) else (false, 3%nat)
                       | _ => (false, 3%nat) end
            else (false, 2%nat)
        | _ => (false, 2%nat)
        end
        else (false, 1%nat)
    | _ => (false, 1%nat)
    end
  else (false, 1%nat).

(** U+FFFD, the replacement character. *)
Definition replacement : bytes := [xef; xbf; xbd].

Fixpoint utf8_go (fuel : nat) (l : bytes) : bool :=
  match l, fuel with
  | [], _ => true
  | _, O => false
  | b :: t, S fuel => let '(ok, n) := utf8_head b t in ok && utf8_go fuel (drop n l)
  end.

Fixpoint lossy_go (fuel : nat) (l : bytes) : bytes :=
  match l, fuel with
  | [], _ => []
  | _, O => []
  | b :: t, S fuel =>
      let '(ok, n) := utf8_head b t in
      (if ok then take n l else replacement) ++ lossy_go fuel (drop n l)
  end.

(** [std::str::from_utf8(l).is_ok()] and [String::from_utf8_lossy(l)]. Every step consumes
    at least one byte, so the length is enough fuel. *)
Definition is_utf8 (l : bytes) : bool := utf8_go (length l) l.
Definition from_utf8_lossy (l : bytes) : bytes := lossy_go (length l) l.
Definition from_utf8 {E} (l : bytes) (e : E) : res E bytes := if is_utf8 l then Ok l else Err e.

Lemma lossy_go_valid fuel l : utf8_go fuel l = true -> lossy_go fuel l = l.
Proof.
  revert l. induction fuel as [|fuel IH]; intros [|b t]; try done.
  cbn [utf8_go lossy_go]. destruct (utf8_head b t) as [[] n]; [|done]. cbn [andb].
  intros H. rewrite IH by done. apply take_drop.
Qed.

Lemma lossy_utf8 l : is_utf8 l = true -> from_utf8_lossy l = l.
Proof. apply lossy_go_valid. Qed.

Definition ascii (l : bytes) : Prop := Forall (fun b => b2z b < 128) l.

Lemma ascii_utf8 l : ascii l -> is_utf8 l = true.
Proof.
  unfold is_utf8. induction 1 as [|b t Hb _ IH]; [done|]. cbn [length utf8_go].
  unfold utf8_head, in_rng at 1. pose proof (b2z_range b).
  rewrite (proj2 (Z.leb_le 0 _)), (proj2 (Z.leb_le _ 0x7F)) by lia. done.
Qed.

(** The first character of a text that goes on. *)
Lemma utf8_head_app b t u n :
  utf8_head b t = (true, n) -> utf8_head b (t ++ u) = (true, n) /\ (1 <= n <= S (length t))%nat.
Proof.
  unfold utf8_head. destruct t as [|b1 [|b2 [|b3 t]]]; cbn [app length];
    repeat case_match; intros; simplify_eq; split; first [done|lia].
Qed.

(** Fuel for every byte is enough. *)
Lemma utf8_go_app fuel : forall a u n,
  utf8_go fuel a = true -> utf8_go n u = true -> utf8_go (fuel + n) (a ++ u) = true.
Proof.
  induction fuel as [|fuel IH]; intros a u n Ha Hu.
  - by destruct a.
  - destruct a as [|b t]; cbn [app].
    + clear Ha IH. revert u Hu. cut (forall k u, utf8_go n u = true -> utf8_go (k + n) u = true); [intros Hk u; apply (Hk (S fuel))|].
      intros k. induction n as [|n IH]; intros u Hu; [by destruct u, k|]. destruct u as [|c u]; [by destruct k|].
      rewrite Nat.add_succ_r. cbn [utf8_go] in *. destruct (utf8_head c u) as [[] m]; [|done]. by apply IH.
    + cbn [Nat.add utf8_go] in *. destruct (utf8_head b t) as [[] m] eqn:Hh; [|done].
      destruct (utf8_head_app b t u m Hh) as [-> Hm]. cbn [andb] in *.
      change (b :: t ++ u) with ((b :: t) ++ u). rewrite drop_app_le by (cbn; lia). by apply IH.
Qed.

Lemma utf8_app a u : is_utf8 a = true -> is_utf8 u = true -> is_utf8 (a ++ u) = true.
Proof. unfold is_utf8. rewrite length_app. apply utf8_go_app. Qed.

(** ** Searching and splitting *)
Definition beqb (a b : byte) : bool := bool_decide (a = b).

Definition contains (c : byte) (s : bytes) : bool := existsb (beqb c) s.

(** [s.split(c)], [s.split_once(c)], [s.rsplit_once(c)] for a one-byte [c]. *)
Fixpoint split_on (c : byte) (s : bytes) : list bytes :=
  match s with
  | [] => [[]]
  | b :: s => if beqb b c then [] :: split_on c s
              else match split_on c s with p :: ps => (b :: p) :: ps | [] => [[b]] end
  end.

Fixpoint split_once (c : byte) (s : bytes) : option (bytes * bytes) :=
  match s with
  | [] => None
  | b :: s => if beqb b c then Some ([], s)
              else match split_once c s with Some (p, q) => Some (b :: p, q) | None => None end
  end.

Definition rsplit_once (c : byte) (s : bytes) : option (bytes * bytes) :=
  match split_once c (reverse s) with Some (p, q) => Some (reverse q, reverse p) | None => None end.

Definition starts_with (p s : bytes) : bool := bool_decide (take (length p) s = p).
Definition strip_prefix (p s : bytes) : option bytes :=
  if starts_with p s then Some (drop (length p) s) else None.
Definition ends_with (p s : bytes) : bool :=
  bool_decide ((length p <= length s)%nat /\ drop (length s - length p) s = p).
Definition strip_suffix (p s : bytes) : option bytes :=
  if ends_with p s then Some (take (length s - length p) s) else None.

(** [s.contains(p)] and [s.find(p)] for a string [p]. *)
Fixpoint contains_str (p s : bytes) : bool :=
  starts_with p s || match s with [] => false | _ :: s => contains_str p s end.
Fixpoint find_str (p s : bytes) : option nat :=
  if starts_with p s then Some O else match s with [] => None | _ :: s => S <$> find_str p s end.

(** [s.trim_end_matches(p)] for a string [p] that is not empty. *)
Fixpoint trim_end_go_str (fuel : nat) (p s : bytes) : bytes :=
  match fuel, strip_suffix p s with
  | S fuel, Some s => trim_end_go_str fuel p s
  | _, _ => s
  end.
Definition trim_end_str (p s : bytes) : bytes := trim_end_go_str (length s) p s.

(** [Ord for str]: bytes in lexicographic order. *)
Fixpoint bytes_cmp (a b : bytes) : comparison :=
  match a, b with
  | [], [] => Eq
  | [], _ :: _ => Lt
  | _ :: _, [] => Gt
  | x :: a, y :: b => match Z.compare (b2z x) (b2z y) with Eq => bytes_cmp a b | c => c end
  end.

(** [parts.join(sep)]. *)
Fixpoint join (sep : bytes) (l : list bytes) : bytes :=
  match l with [] => [] | [x] => x | x :: l => x ++ sep ++ join sep l end.

(** [str::lines]: split after each line feed; a carriage return before it is dropped. *)
Definition strip_cr (l : bytes) : bytes := match strip_suffix [x0d] l with Some l => l | None => l end.
Fixpoint lines_go (l : list bytes) : list bytes :=
  match l with
  | [] => []
  | [last] => if zlen last =? 0 then [] else [last]
  | l :: ls => strip_cr l :: lines_go ls
  end.
Definition lines (s : bytes) : list bytes := lines_go (split_on x0a s).

(** [to_ascii_lowercase]. *)
Definition lower_byte (b : byte) : byte := if in_rng 65 90 b then z2b (b2z b + 32) else b.
Definition to_ascii_lowercase (s : bytes) : bytes := map lower_byte s.

(** The index of the first byte that satisfies [f] ([iter().position(f)]). *)
Fixpoint position (f : byte -> bool) (s : bytes) : option nat :=
  match s with
  | [] => None
  | b :: s => if f b then Some O else option_map S (position f s)
  end.

(** [s.trim_matches(c)] for a one-byte [c]. *)
Fixpoint trim_start_byte (c : byte) (s : bytes) : bytes :=
  match s with b :: t => if beqb b c then trim_start_byte c t else s | [] => [] end.
Definition trim_end_byte (c : byte) (s : bytes) : bytes := reverse (trim_start_byte c (reverse s)).
Definition trim_byte (c : byte) (s : bytes) : bytes := trim_end_byte c (trim_start_byte c s).

(** The length of the white-space character at the front of [s] (0 if there is none), and
    of the one at the end, given [s] reversed. *)
Definition ws_front (s : bytes) : nat :=
  match s with
  | b0 :: t =>
      if in_rng 0x09 0x0D b0 || (b2z b0 =? 0x20) then 1%nat else
      match t with
      | b1 :: t =>
          if (b2z b0 =? 0xC2) && ((b2z b1 =? 0x85) || (b2z b1 =? 0xA0)) then 2%nat else
          match t with
          | b2 :: _ =>
              if ((b2z b0 =? 0xE1) && (b2z b1 =? 0x9A) && (b2z b2 =? 0x80))
                 || ((b2z b0 =? 0xE2) && (b2z b1 =? 0x80)
                     && (in_rng 0x80 0x8A b2 || (b2z b2 =? 0xA8) || (b2z b2 =? 0xA9) || (b2z b2 =? 0xAF)))
                 || ((b2z b0 =? 0xE2) && (b2z b1 =? 0x81) && (b2z b2 =? 0x9F))
                 || ((b2z b0 =? 0xE3) && (b2z b1 =? 0x80) && (b2z b2 =? 0x80))
              then 3%nat else 0%nat
          | [] => 0%nat
          end
      | [] => 0%nat
      end
  | [] => 0%nat
  end.
Definition ws_back (r : bytes) : nat :=
  if Nat.eqb (ws_front (take 1 r)) 1 then 1%nat
  else if Nat.eqb (ws_front (reverse (take 2 r))) 2 then 2%nat
  else if Nat.eqb (ws_front (reverse (take 3 r))) 3 then 3%nat
  else 0%nat.

Fixpoint trim_start_go (fuel : nat) (s : bytes) : bytes :=
  match fuel with
  | O => s
  | S fuel => match ws_front s with O => s | n => trim_start_go fuel (drop n s) end
  end.
Fixpoint trim_end_go (fuel : nat) (r : bytes) : bytes :=
  match fuel with
  | O => r
  | S fuel => match ws_back r with O => r | n => trim_end_go fuel (drop n r) end
  end.

(** [s.trim()]. *)
Definition trim (s : bytes) : bytes :=
  let s := trim_start_go (length s) s in
  reverse (trim_end_go (length s) (reverse s)).

(** ** Numbers *)
Definition digit_char (d : Z) : byte := if d <? 10 then z2b (48 + d) else z2b (87 + d).

(** [char::to_digit(radix)]. *)
Definition digit_val (radix : Z) (b : byte) : option Z :=
  let z := b2z b in
  let d := if (48 <=? z) && (z <=? 57) then z - 48
           else if (97 <=? z) && (z <=? 122) then z - 87
           else if (65 <=? z) && (z <=? 90) then z - 55
           else 36 in
  if d <? radix then Some d else None.

Fixpoint parse_digits (radix acc : Z) (s : bytes) : option Z :=
  match s with
  | [] => Some acc
  | b :: s => match digit_val radix b with
              | Some d => parse_digits radix (acc * radix + d) s
              | None => None
              end
  end.

(** [uN::from_str_radix(s, radix)] with [N]-bit maximum [max]: an optional leading [+],
    then at least one digit. *)
Definition parse_uint (radix max : Z) (s : bytes) : option Z :=
  match s with
  | [] => None
  | b :: t =>
      let s := if beqb b "+"%byte then t else s in
      match s with
      | [] => None
      | _ => match parse_digits radix 0 s with
             | Some v => if v <=? max then Some v else None
             | None => None
             end
      end
  end.

Fixpoint digits_go (fuel : nat) (radix z : Z) (acc : bytes) : bytes :=
  match fuel with
  | O => acc
  | S fuel =>
      let acc := digit_char (z mod radix) :: acc in
      if z <? radix then acc else digits_go fuel radix (z / radix) acc
  end.

(** [format!("{z}")] and [format!("{z:x}")] for unsigned values of at most 64 bits. *)
Definition fmt_dec (z : Z) : bytes := digits_go 20 10 z [].
Definition fmt_int (z : Z) : bytes := if z <? 0 then B "-" ++ fmt_dec (- z) else fmt_dec z.
Definition fmt_hex (z : Z) : bytes := digits_go 16 16 z [].
(** [format!("{z:0nx}")]. *)
Definition fmt_hex_pad (n : nat) (z : Z) : bytes :=
  let s := fmt_hex z in replicate (n - length s) "0"%byte ++ s.
Arguments fmt_dec : simpl never.
Arguments fmt_hex : simpl never.
Arguments fmt_hex_pad : simpl never.
(** [format!("{:?}", l)] for a byte slice. *)
Definition fmt_bytes (l : bytes) : bytes :=
  B "[" ++ join (B ", ") (map (fun b => fmt_dec (b2z b)) l) ++ B "]".

(** ** Lemmas on searching and splitting *)
Lemma beqb_true a b : beqb a b = true <-> a = b.
Proof. unfold beqb. by rewrite bool_decide_eq_true. Qed.
Lemma beqb_refl a : beqb a a = true.
Proof. by apply beqb_true. Qed.
Lemma beqb_false a b : beqb a b = false <-> a <> b.
Proof. unfold beqb. by rewrite bool_decide_eq_false. Qed.

Lemma contains_false c s : contains c s = false <-> c ∉ s.
Proof.
  induction s as [|b s IH]; cbn [contains existsb].
  - split; [|done]. intros _. apply not_elem_of_nil.
  - rewrite orb_false_iff, not_elem_of_cons, beqb_false. unfold contains in IH. by rewrite IH.
Qed.

Lemma split_once_app c p q : c ∉ p -> split_once c (p ++ c :: q) = Some (p, q).
Proof.
  induction p as [|b p IH]; cbn [app split_once]; intros Hc.
  - by rewrite beqb_refl.
  - apply not_elem_of_cons in Hc as [Hb Hp]. rewrite (proj2 (beqb_false b c)) by congruence.
    by rewrite IH.
Qed.

Lemma split_once_none c s : c ∉ s -> split_once c s = None.
Proof.
  induction s as [|b s IH]; cbn [split_once]; intros Hc; [done|].
  apply not_elem_of_cons in Hc as [Hb Hp]. rewrite (proj2 (beqb_false b c)) by congruence.
  by rewrite IH.
Qed.

Lemma split_once_inv c s p q : split_once c s = Some (p, q) -> s = p ++ c :: q /\ c ∉ p.
Proof.
  revert p q. induction s as [|b s IH]; intros p q; cbn [split_once]; [done|].
  destruct (beqb b c) eqn:E.
  - intros [= <- <-]. apply beqb_true in E as ->. split; [done|apply not_elem_of_nil].
  - destruct (split_once c s) as [[p' q']|] eqn:Es; [|done]. intros [= <- <-].
    destruct (IH _ _ eq_refl) as [-> Hc]. apply beqb_false in E. split; [done|].
    apply not_elem_of_cons. split; congruence.
Qed.

Lemma split_on_none c s : c ∉ s -> split_on c s = [s].
Proof.
  induction s as [|b s IH]; cbn [split_on]; intros Hc; [done|].
  apply not_elem_of_cons in Hc as [Hb Hp]. rewrite (proj2 (beqb_false b c)) by congruence.
  by rewrite IH.
Qed.

Lemma split_on_app c p q : c ∉ p -> split_on c (p ++ c :: q) = p :: split_on c q.
Proof.
  induction p as [|b p IH]; cbn [app split_on]; intros Hc.
  - by rewrite beqb_refl.
  - apply not_elem_of_cons in Hc as [Hb Hp]. rewrite (proj2 (beqb_false b c)) by congruence.
    by rewrite IH.
Qed.

(** [split] undoes [join] on pieces without the separator. *)
Lemma split_on_join c l : l <> [] -> Forall (fun p => c ∉ p) l -> split_on c (join [c] l) = l.
Proof.
  intros Hne H. destruct H as [|p l Hp Hl]; [done|]. clear Hne.
  revert p Hp. induction Hl as [|q l Hq Hl IH]; intros p Hp; [by apply split_on_none|].
  cbn [join]. cbn [app]. rewrite split_on_app by done. f_equal. by apply IH.
Qed.

Lemma starts_with_app p s : starts_with p (p ++ s) = true.
Proof. unfold starts_with. rewrite take_app_length. by apply bool_decide_eq_true. Qed.

Lemma strip_prefix_app p s : strip_prefix p (p ++ s) = Some s.
Proof. unfold strip_prefix. by rewrite starts_with_app, drop_app_length. Qed.

Lemma strip_prefix_inv p s t : strip_prefix p s = Some t -> s = p ++ t.
Proof.
  unfold strip_prefix, starts_with. case_bool_decide as Hp; [|done]. intros [= <-].
  rewrite <- (take_drop (length p) s) at 1. by rewrite Hp.
Qed.

Lemma starts_with_inv p s : starts_with p s = true -> exists t, s = p ++ t.
Proof. intros E%bool_decide_eq_true. exists (drop (length p) s). rewrite <- E at 1. by rewrite take_drop. Qed.

Lemma rsplit_once_app c p q : c ∉ q -> rsplit_once c (p ++ c :: q) = Some (p, q).
Proof.
  intros Hq. unfold rsplit_once. rewrite reverse_app, reverse_cons, <- app_assoc. cbn [app]. rewrite split_once_app.
  - by rewrite !reverse_involutive.
  - by rewrite elem_of_reverse.
Qed.
Lemma rsplit_once_inv c s p q : rsplit_once c s = Some (p, q) -> s = p ++ c :: q.
Proof.
  unfold rsplit_once. destruct (split_once _ _) as [[a b]|] eqn:E; [|done]. intros [= <- <-]. apply split_once_inv in E as [E _].
  apply (f_equal reverse) in E. rewrite reverse_involutive in E. rewrite E, reverse_app, reverse_cons, <- app_assoc. done.
Qed.

Lemma ends_with_app p s : ends_with p (s ++ p) = true.
Proof.
  unfold ends_with. apply bool_decide_eq_true. rewrite length_app. split; [lia|].
  replace (length s + length p - length p)%nat with (length s) by lia. apply drop_app_length.
Qed.

Lemma ends_with_inv p s : ends_with p s = true -> exists t, s = t ++ p.
Proof.
  unfold ends_with. intros [_ Hd]%bool_decide_eq_true.
  exists (take (length s - length p) s).
  rewrite <- (take_drop (length s - length p) s) at 1. by rewrite Hd.
Qed.

Lemma position_none f s : position f s = None <-> Forall (fun b => f b = false) s.
Proof.
  induction s as [|b s IH]; cbn [position]; [by split|].
  rewrite Forall_cons_iff. destruct (f b); [by split; [|intros [? _]]|].
  rewrite <- IH. destruct (position f s); cbn; by split; [|intros [_ ?]].
Qed.

Lemma position_app f s b t :
  Forall (fun b => f b = false) s -> f b = true -> position f (s ++ b :: t) = Some (length s).
Proof.
  intros H Hb. induction H as [|x s Hx _ IH]; cbn [app position length]; [by rewrite Hb|].
  by rewrite Hx, IH.
Qed.

(** ** Lemmas on numbers *)
Lemma digit_val_char radix d : 0 <= d < radix -> radix <= 16 -> digit_val radix (digit_char d) = Some d.
Proof.
  intros Hd Hr. unfold digit_val, digit_char.
  destruct (Z.ltb_spec d 10); rewrite b2z_z2b, Z.mod_small by lia; cbv zeta;
    repeat match goal with
    | |- context [Z.leb ?a ?b] => destruct (Z.leb_spec a b); try lia; cbn [andb]
    end; zcase; try lia; f_equal; lia.
Qed.

Lemma digit_char_ascii d : 0 <= d < 16 -> b2z (digit_char d) < 128.
Proof. intros. unfold digit_char. zcase; rewrite b2z_z2b, Z.mod_small; lia. Qed.

Lemma parse_digits_go fuel radix z acc :
  2 <= radix -> radix <= 16 -> 0 <= z < radix ^ Z.of_nat fuel ->
  parse_digits radix 0 (digits_go fuel radix z acc) = parse_digits radix z acc.
Proof.
  intros Hr Hr'. revert z acc. induction fuel as [|fuel IH]; intros z acc Hz; cbn [digits_go].
  - change (radix ^ Z.of_nat 0) with 1 in Hz. by replace z with 0 by lia.
  - pose proof (Z.mod_pos_bound z radix ltac:(lia)).
    destruct (Z.ltb_spec z radix).
    + cbn [parse_digits]. rewrite digit_val_char by lia. by rewrite Z.mod_small by lia.
    + rewrite IH.
      * cbn [parse_digits]. rewrite digit_val_char by lia. f_equal.
        pose proof (Z.div_mod z radix). lia.
      * rewrite Nat2Z.inj_succ, Z.pow_succ_r in Hz by lia. split; [apply Z.div_pos; lia|].
        apply Z.div_lt_upper_bound; lia.
Qed.

Lemma digits_go_nonempty fuel radix z acc : digits_go (S fuel) radix z acc <> [].
Proof.
  revert z acc. induction fuel as [|fuel IH]; intros z acc.
  - cbn. by destruct (z <? radix).
  - cbn [digits_go] in *. destruct (z <? radix); [done|]. apply IH.
Qed.

Lemma digits_go_Forall (P : byte -> Prop) fuel radix z acc :
  0 < radix -> (forall d, 0 <= d < radix -> P (digit_char d)) -> Forall P acc ->
  Forall P (digits_go fuel radix z acc).
Proof.
  intros Hr HP. revert z acc. induction fuel as [|fuel IH]; intros z acc Ha; cbn [digits_go]; [done|].
  assert (Forall P (digit_char (z mod radix) :: acc)).
  { constructor; [apply HP, Z.mod_pos_bound; lia|done]. }
  destruct (z <? radix); [done|by apply IH].
Qed.

(** The number of digits: at most [n] for a value below [radix ^ n]. *)
Lemma length_digits_go fuel radix z acc n :
  2 <= radix -> 0 <= z < radix ^ Z.of_nat n -> (1 <= n)%nat ->
  (length (digits_go fuel radix z acc) <= n + length acc)%nat.
Proof.
  intros Hr. revert z acc n. induction fuel as [|fuel IH]; intros z acc n Hz Hn; cbn [digits_go]; [lia|].
  destruct (Z.ltb_spec z radix); [cbn [length]; lia|].
  destruct n as [|[|n]]; [lia|change (radix ^ Z.of_nat 1) with (radix ^ 1) in Hz; lia|].
  transitivity (S n + length (digit_char (z mod radix) :: acc))%nat; [|cbn [length]; lia].
  apply IH; [|lia]. rewrite (Nat2Z.inj_succ (S n)), Z.pow_succ_r in Hz by lia.
  split; [apply Z.div_pos; lia|]. apply Z.div_lt_upper_bound; lia.
Qed.

Lemma digit_char_not_plus d : 0 <= d < 16 -> digit_char d <> "+"%byte.
Proof.
  intros Hd E. apply (f_equal b2z) in E. revert E. unfold digit_char.
  zcase; rewrite b2z_z2b, Z.mod_small by lia; change (b2z "+"%byte) with 43; lia.
Qed.

(** A nonempty string of digit characters parses as its digits. *)
Lemma parse_uint_digits radix max s v :
  s <> [] -> Forall (fun b => b <> "+"%byte) s -> parse_digits radix 0 s = Some v -> v <= max ->
  parse_uint radix max s = Some v.
Proof.
  intros Hne Hp Hd Hv. unfold parse_uint. destruct s as [|b s]; [done|].
  inversion Hp as [|? ? Hb _]; subst. rewrite (proj2 (beqb_false _ _) Hb), Hd.
  by rewrite (proj2 (Z.leb_le _ _) Hv).
Qed.

Lemma parse_fmt_dec max z : 0 <= z <= max -> z < 10 ^ 20 -> parse_uint 10 max (fmt_dec z) = Some z.
Proof.
  intros. apply parse_uint_digits; [apply digits_go_nonempty| | |lia].
  - apply digits_go_Forall; [lia| |done]. intros. apply digit_char_not_plus. lia.
  - unfold fmt_dec. by rewrite parse_digits_go by lia.
Qed.

Lemma parse_digits_zeros radix n s :
  2 <= radix -> radix <= 16 -> parse_digits radix 0 (replicate n "0"%byte ++ s) = parse_digits radix 0 s.
Proof.
  intros. induction n as [|n IH]; [done|]. cbn [replicate app parse_digits].
  change ("0"%byte) with (digit_char 0) at 1. by rewrite digit_val_char by lia.
Qed.

Lemma parse_fmt_hex_pad n max z :
  0 <= z <= max -> z < 2 ^ 64 -> parse_uint 16 max (fmt_hex_pad n z) = Some z.
Proof.
  intros. apply parse_uint_digits; [| | |lia].
  - unfold fmt_hex_pad. intros [_ E]%app_eq_nil. revert E. apply digits_go_nonempty.
  - apply Forall_app. split; [by apply Forall_replicate|].
    apply digits_go_Forall; [lia| |done]. intros. apply digit_char_not_plus. lia.
  - unfold fmt_hex_pad. rewrite parse_digits_zeros by lia. unfold fmt_hex.
    by rewrite parse_digits_go by lia.
Qed.

Lemma length_fmt_hex_pad n z :
  (1 <= n)%nat -> 0 <= z < 16 ^ Z.of_nat n -> length (fmt_hex_pad n z) = n.
Proof.
  intros. unfold fmt_hex_pad. rewrite length_app, length_replicate.
  pose proof (length_digits_go 16 16 z [] n). unfold fmt_hex in *. cbn [length] in *. lia.
Qed.

Lemma fmt_dec_ascii z : ascii (fmt_dec z).
Proof. apply digits_go_Forall; [lia| |constructor]. intros. apply digit_char_ascii. lia. Qed.

Lemma fmt_hex_pad_ascii n z : ascii (fmt_hex_pad n z).
Proof.
  apply Forall_app. split; [by apply Forall_replicate|].
  apply digits_go_Forall; [lia| |constructor]. intros. apply digit_char_ascii. lia.
Qed.

(** The decimal digits avoid any byte that is not a digit character. *)
Lemma fmt_dec_not c z : (forall d, 0 <= d < 10 -> digit_char d <> c) -> c ∉ fmt_dec z.
Proof.
  intros Hc Hin. assert (Forall (fun b => b <> c) (fmt_dec z)) as HF
    by (apply digits_go_Forall; [lia|done|constructor]).
  rewrite Forall_forall in HF. apply list_elem_of_In in Hin. by apply (HF c Hin).
Qed.

(** ** Trimming *)

(** A printable ASCII byte other than the space. *)
Definition plain (b : byte) : Prop := 32 < b2z b < 128.

Lemma digit_char_plain d : 0 <= d < 16 -> plain (digit_char d).
Proof. intros. unfold plain, digit_char. zcase; rewrite b2z_z2b, Z.mod_small; lia. Qed.

Ltac rng := unfold in_rng in *; repeat
  match goal with
  | |- context [Z.leb ?a ?b] => destruct (Z.leb_spec a b); try lia; cbn [andb orb]
  | |- context [Z.eqb ?a ?b] => destruct (Z.eqb_spec a b); try lia; cbn [andb orb]
  end.

Lemma ws_front_plain b t : plain b -> ws_front (b :: t) = 0%nat.
Proof.
  unfold plain. intros. unfold ws_front. rng; destruct t as [|b1 [|b2 t]]; done.
Qed.

Lemma ws_front_2 b0 b : plain b -> ws_front [b0; b] <> 2%nat.
Proof.
  unfold plain. intros. unfold ws_front. destruct (in_rng 9 13 b0 || _); [done|].
  rewrite (proj2 (Z.eqb_neq (b2z b) 0x85)), (proj2 (Z.eqb_neq (b2z b) 0xA0)) by lia.
  by rewrite andb_false_r.
Qed.

Lemma ws_front_3 b0 b1 b : plain b -> ws_front [b0; b1; b] <> 3%nat.
Proof.
  unfold plain. intros. unfold ws_front. destruct (in_rng 9 13 b0 || _); [done|].
  destruct (_ && _); [done|].
  assert (in_rng 0x80 0x8A b = false) as -> by (unfold in_rng; apply andb_false_iff; left; lia).
  rewrite (proj2 (Z.eqb_neq (b2z b) 0x80)), (proj2 (Z.eqb_neq (b2z b) 0xA8)),
    (proj2 (Z.eqb_neq (b2z b) 0xA9)), (proj2 (Z.eqb_neq (b2z b) 0xAF)),
    (proj2 (Z.eqb_neq (b2z b) 0x9F)) by lia.
  by rewrite !andb_false_r.
Qed.

Lemma ws_back_plain b t : plain b -> ws_back (b :: t) = 0%nat.
Proof.
  intros Hb. unfold ws_back. cbn [take]. rewrite ws_front_plain by done. cbn [Nat.eqb].
  destruct t as [|b1 [|b2 t]]; cbn [take]; rewrite ?take_0.
  - change (reverse [b]) with [b]. by rewrite ws_front_plain by done.
  - change (reverse [b; b1]) with [b1; b].
    destruct (Nat.eqb_spec (ws_front [b1; b]) 2) as [E|]; [by apply ws_front_2 in E|].
    destruct (Nat.eqb_spec (ws_front [b1; b]) 3) as [E|]; [|done].
    exfalso. revert E. unfold ws_front.
    destruct (in_rng 9 13 b1 || _); [discriminate|]. destruct (_ && _); discriminate.
  - change (reverse [b; b1]) with [b1; b]. change (reverse [b; b1; b2]) with [b2; b1; b].
    destruct (Nat.eqb_spec (ws_front [b1; b]) 2) as [E|]; [by apply ws_front_2 in E|].
    destruct (Nat.eqb_spec (ws_front [b2; b1; b]) 3) as [E|]; [by apply ws_front_3 in E|done].
Qed.

(** [trim] leaves a string that starts and ends with plain bytes unchanged. *)
Lemma trim_plain a m z : plain a -> plain z -> trim (a :: m ++ [z]) = a :: m ++ [z].
Proof.
  intros Ha Hz. unfold trim.
  assert (forall n, trim_start_go n (a :: m ++ [z]) = a :: m ++ [z]) as ->.
  { intros [|n]; cbn [trim_start_go]; [done|]. by rewrite ws_front_plain. }
  replace (reverse (a :: m ++ [z])) with (z :: reverse m ++ [a]).
  - assert (forall n, trim_end_go n (z :: reverse m ++ [a]) = z :: reverse m ++ [a]) as ->.
    { intros [|n]; cbn [trim_end_go]; [done|]. by rewrite ws_back_plain. }
    by rewrite reverse_cons, reverse_app, reverse_involutive.
  - by rewrite reverse_cons, reverse_app.
Qed.

Lemma trim_start_byte_ne c b t : b <> c -> trim_start_byte c (b :: t) = b :: t.
Proof. intros. cbn. by rewrite (proj2 (beqb_false b c)). Qed.

(** [trim_matches] removes one trailing [c] after a byte that is not [c]. *)
Lemma trim_byte_one c a m z : a <> c -> z <> c -> trim_byte c (a :: m ++ [z; c]) = a :: m ++ [z].
Proof.
  intros Ha Hz. unfold trim_byte, trim_end_byte. rewrite trim_start_byte_ne by done.
  rewrite reverse_cons, reverse_app. change (reverse [z; c]) with [c; z].
  cbn [app trim_start_byte]. rewrite beqb_refl, (proj2 (beqb_false z c)) by done.
  by rewrite reverse_cons, reverse_app, reverse_involutive.
Qed.

(** A decimal numeral starts and ends with a digit. *)
Lemma fmt_dec_plain z : Forall plain (fmt_dec z).
Proof. apply digits_go_Forall; [lia| |constructor]. intros. apply digit_char_plain. lia. Qed.

Lemma fmt_dec_front z : exists a m, fmt_dec z = a :: m /\ plain a.
Proof.
  pose proof (fmt_dec_plain z) as HF. pose proof (digits_go_nonempty 19 10 z []) as Hn.
  fold (fmt_dec z) in Hn. destruct (fmt_dec z) as [|a m]; [done|].
  exists a, m. split; [done|]. by apply Forall_cons_iff in HF as [? _].
Qed.

Lemma fmt_dec_back z : exists m a, fmt_dec z = m ++ [a] /\ plain a.
Proof.
  pose proof (fmt_dec_plain z) as HF. pose proof (digits_go_nonempty 19 10 z []) as Hn.
  fold (fmt_dec z) in Hn. induction (fmt_dec z) as [|a m _] using rev_ind; [done|].
  exists m, a. split; [done|]. apply Forall_app in HF as [_ HF]. by apply Forall_cons_iff in HF as [? _].
Qed.

Lemma fmt_dec_not_z c z : ~ 48 <= b2z c < 58 -> c ∉ fmt_dec z.
Proof.
  intros Hc. apply fmt_dec_not. intros d Hd <-. apply Hc. unfold digit_char.
  zcase; [|lia]. rewrite b2z_z2b, Z.mod_small; lia.
Qed.

Lemma split_once_some c p q : exists x, split_once c (p ++ c :: q) = Some x.
Proof.
  induction p as [|b p [x IH]]; cbn [app split_once]; [rewrite beqb_refl; eauto|].
  destruct (beqb _ _); [eauto|]. rewrite IH. destruct x. eauto.
Qed.

Lemma parse_digits_nonneg radix acc s v :
  0 <= acc -> 0 <= radix -> parse_digits radix acc s = Some v -> 0 <= v.
Proof.
  intros Ha Hr. revert acc Ha. induction s as [|b s IH]; intros acc Ha; cbn [parse_digits].
  { by intros [= <-]. }
  destruct (digit_val radix b) as [d|] eqn:Hd; [|done]. apply IH.
  assert (0 <= d); [|nia]. revert Hd. unfold digit_val. pose proof (b2z_range b).
  repeat (zcase; cbn [andb]); intros; simplify_eq; lia.
Qed.

(** A parsed number is within the type's range. *)
Lemma parse_uint_range radix max s v :
  0 <= radix -> parse_uint radix max s = Some v -> 0 <= v <= max.
Proof.
  intros Hr. unfold parse_uint. destruct s as [|b t]; [done|]. destruct (if beqb b _ then t else _); [done|].
  destruct (parse_digits _ _ _) as [w|] eqn:Hp; [|done]. zcase; [|done]. intros [= <-].
  apply parse_digits_nonneg in Hp; lia.
Qed.

(** ** Fixed-size, NUL-padded string fields *)

(** The bytes of a fixed-size string field. *)
Definition fixed (s : bytes) (len : Z) : bytes := slice 0 (Z.min (zlen s) len) s ++ zrep (len - Z.min (zlen s) len) x00.

Lemma zlen_fixed s len : 0 <= len -> zlen (fixed s len) = len.
Proof.
  intros. unfold fixed. pose proof (zlen_nonneg s). rewrite zlen_app, zlen_slice, zlen_zrep by lia. lia.
Qed.

(** A string a fixed-size field can hold. *)
Definition field_string (s : bytes) (len : Z) : Prop :=
  zlen s <= len /\ (x00 ∉ s) /\ is_utf8 s = true.

Lemma position_nul (s : bytes) : x00 ∉ s -> position (beqb x00) s = None.
Proof.
  intros Hn. apply position_none. apply Forall_forall. intros b Hb%list_elem_of_In.
  apply beqb_false. by intros <-.
Qed.
#[export] Hint Rewrite zlen_fixed using lia : zlen_db.

(** The part of a field before its first NUL. *)
Definition until_nul (s : bytes) : bytes :=
  match position (beqb x00) s with Some i => take i s | None => s end.

Lemma until_nul_fixed s len : field_string s len -> until_nul (fixed s len) = s.
Proof.
  intros (Hs & Hn & _). unfold until_nul, fixed. rewrite Z.min_l by lia.
  rewrite (slice_full (zlen s) s) by lia. pose proof (zlen_nonneg s).
  destruct (Z.eqb_spec (zlen s) len) as [->|].
  - rewrite Z.sub_diag. change (zrep 0 x00) with (@nil byte). rewrite app_nil_r.
    by rewrite position_nul.
  - unfold zrep. replace (Z.to_nat (len - zlen s)) with (S (Z.to_nat (len - zlen s - 1))) by lia.
    cbn [replicate]. rewrite position_app; [by apply take_app_length| |by rewrite beqb_refl].
    apply Forall_forall. intros b Hb%list_elem_of_In. apply beqb_false. by intros <-.
Qed.

(** ** The order of strings *)
Lemma bytes_cmp_eq a : forall b, bytes_cmp a b = Eq <-> a = b.
Proof.
  induction a as [|x a IH]; intros [|y b]; cbn [bytes_cmp]; [done..|].
  destruct (Z.compare_spec (b2z x) (b2z y)) as [E|E|E].
  - rewrite IH. apply b2z_inj in E as ->. split; [by intros ->|by intros [= ->]].
  - split; [done|]. intros [= -> ->]. lia.
  - split; [done|]. intros [= -> ->]. lia.
Qed.

Lemma bytes_cmp_refl a : bytes_cmp a a = Eq.
Proof. by apply bytes_cmp_eq. Qed.

Lemma bytes_cmp_antisym a : forall b, bytes_cmp b a = CompOpp (bytes_cmp a b).
Proof.
  induction a as [|x a IH]; intros [|y b]; cbn [bytes_cmp]; [done..|].
  rewrite (Z.compare_antisym (b2z x)). destruct (b2z x ?= b2z y); cbn [CompOpp]; [apply IH|done..].
Qed.

Lemma bytes_cmp_trans a : forall b c, bytes_cmp a b = Lt -> bytes_cmp b c = Lt -> bytes_cmp a c = Lt.
Proof.
  induction a as [|x a IH]; intros [|y b] [|z c]; cbn [bytes_cmp]; try done.
  destruct (Z.compare_spec (b2z x) (b2z y)), (Z.compare_spec (b2z y) (b2z z)), (Z.compare_spec (b2z x) (b2z z));
    try done; try lia. apply IH.
Qed.
