(* ===== verification/AdbHeader.v ===== *)
(** The 24-byte ADB message header: [src/crates/adb-protocol/src/header.rs] and the
    command constants of [constants.rs]. *)
From S2P Require Import Prelude.

(** ** Constants ([constants.rs]) *)
Definition A_SYNC : Z := 0x434E5953.
Definition A_CNXN : Z := 0x4E584E43.
Definition A_OPEN : Z := 0x4E45504F.
Definition A_OKAY : Z := 0x59414B4F.
Definition A_CLSE : Z := 0x45534C43.
Definition A_WRTE : Z := 0x45545257.
Definition A_AUTH : Z := 0x48545541.
Definition A_STLS : Z := 0x534C5453.
Definition MAX_PAYLOAD_V2 : Z := 1024 * 1024.
Definition A_AUTH_TOKEN : Z := 1.
Definition A_AUTH_SIGNATURE : Z := 2.
Definition A_AUTH_RSAKEY : Z := 3.

(** ** Errors and data *)
Inductive HeaderError :=
| BufferTooShort (got : Z)
| MagicMismatch (expected got : Z)
| ChecksumMismatch (expected got : Z).

Inductive AuthType := Token | Signature | RsaKey | Unknown (v : Z).

Module AuthType.
Definition from_u32 (val : Z) : AuthType :=
  if val =? A_AUTH_TOKEN then Token
  else if val =? A_AUTH_SIGNATURE then Signature
  else if val =? A_AUTH_RSAKEY then RsaKey
  else Unknown val.

Definition to_u32 (t : AuthType) : Z :=
  match t with
  | Token => A_AUTH_TOKEN
  | Signature => A_AUTH_SIGNATURE
  | RsaKey => A_AUTH_RSAKEY
  | Unknown val => val
  end.
End AuthType.

Record AdbMessageHeader := {
  command : Z;
  arg0 : Z;
  arg1 : Z;
  data_length : Z;
  data_check : Z;
  magic : Z;
}.

Module Header.
Definition SIZE : Z := 24.

(** [command ^ 0xFFFFFFFF]. *)
Definition magic_of (cmd : Z) : Z := Z.lxor cmd 0xFFFFFFFF.

Definition new (cmd a0 a1 : Z) (payload : bytes) : AdbMessageHeader :=
  {| command := cmd; arg0 := a0; arg1 := a1;
     data_length := wrap 32 (zlen payload);
     data_check := 0;
     magic := magic_of cmd |}.

(** [data.iter().fold(0u32, |acc, &b| acc.wrapping_add(b as u32))] *)
Definition calculate_checksum (data : bytes) : Z :=
  foldl (fun acc b => wrap 32 (acc + b2z b)) 0 data.

Definition with_checksum (h : AdbMessageHeader) (payload : bytes) : AdbMessageHeader :=
  {| command := command h; arg0 := arg0 h; arg1 := arg1 h; data_length := data_length h;
     data_check := calculate_checksum payload; magic := magic h |}.

Definition new_v1_legacy (cmd a0 a1 : Z) (payload : bytes) : AdbMessageHeader :=
  let header := new cmd a0 a1 payload in
  {| command := command header; arg0 := arg0 header; arg1 := arg1 header;
     data_length := data_length header;
     data_check := calculate_checksum payload; magic := magic header |}.

Definition new_auth (auth_type : Z) (payload : bytes) : AdbMessageHeader :=
  new A_AUTH auth_type 0 payload.

Definition is_auth (h : AdbMessageHeader) : bool := command h =? A_AUTH.

Definition auth_type (h : AdbMessageHeader) : option AuthType :=
  if is_auth h then Some (AuthType.from_u32 (arg0 h)) else None.

Definition encode (h : AdbMessageHeader) (out : bytes) : bytes :=
  let out := write_u32 0 (command h) out in
  let out := write_u32 4 (arg0 h) out in
  let out := write_u32 8 (arg1 h) out in
  let out := write_u32 12 (data_length h) out in
  let out := write_u32 16 (data_check h) out in
  write_u32 20 (magic h) out.

Definition decode (buf : bytes) : res HeaderError AdbMessageHeader :=
  if zlen buf <? SIZE then Err (BufferTooShort (zlen buf)) else
  let! command := read_u32 buf 0 in
  let! arg0 := read_u32 buf 4 in
  let! arg1 := read_u32 buf 8 in
  let! data_length := read_u32 buf 12 in
  let! data_check := read_u32 buf 16 in
  let! magic := read_u32 buf 20 in
  let expected_magic := magic_of command in
  if negb (magic =? expected_magic) then Err (MagicMismatch expected_magic magic) else
  Ok {| command := command; arg0 := arg0; arg1 := arg1; data_length := data_length;
        data_check := data_check; magic := magic |}.

Definition verify_payload (h : AdbMessageHeader) (payload : bytes) : res HeaderError unit :=
  if negb (zlen payload =? data_length h) then Err (BufferTooShort (zlen payload)) else
  if data_check h =? 0 then Ok tt else
  let calc := calculate_checksum payload in
  if negb (calc =? data_check h) then Err (ChecksumMismatch (data_check h) calc) else
  Ok tt.

(** The sum of the payload's bytes, as an unbounded integer. *)
Fixpoint sum_bytes (data : bytes) : Z :=
  match data with [] => 0 | b :: data => b2z b + sum_bytes data end.

(** Field widths of the struct, and the magic relation [decode] enforces. *)
Definition typed (h : AdbMessageHeader) : Prop :=
  u32 (command h) /\ u32 (arg0 h) /\ u32 (arg1 h) /\ u32 (data_length h) /\
  u32 (data_check h) /\ u32 (magic h).
Definition wf (h : AdbMessageHeader) : Prop := typed h /\ magic h = magic_of (command h).
End Header.

(** [AuthMessage]: an auth sub-type with its payload. *)
Record AuthMessage := { am_auth_type : AuthType; am_data : bytes }.

Module AuthMessage.
Definition to_header (m : AuthMessage) : AdbMessageHeader :=
  Header.new_auth (AuthType.to_u32 (am_auth_type m)) (am_data m).
End AuthMessage.

Section HeaderFacts.
Import Header.

Lemma le_val_u32 buf a b : b - a = 4 -> 0 <= a -> b <= zlen buf -> u32 (le_val (slice a b buf)).
Proof.
  intros. pose proof (le_val_range (slice a b buf)) as H2. rewrite zlen_slice in H2 by lia.
  by replace (8 * (b - a)) with 32 in H2 by lia.
Qed.

(** [decode] past the length check, with every field read. *)
Lemma decode_eq buf :
  SIZE <= zlen buf ->
  decode buf =
    let f a b := le_val (slice a b buf) in
    if negb (f 20 24 =? magic_of (f 0 4))
    then Err (MagicMismatch (magic_of (f 0 4)) (f 20 24))
    else Ok {| command := f 0 4; arg0 := f 4 8; arg1 := f 8 12; data_length := f 12 16;
               data_check := f 16 20; magic := f 20 24 |}.
Proof.
  unfold SIZE. intros. unfold decode, SIZE.
  destruct (Z.ltb_spec (zlen buf) 24); [lia|]. by wire.
Qed.

Lemma zlen_encode h out : zlen (encode h out) = zlen out.
Proof. unfold encode. wire_unfold. zl. Qed.

(** The fields of an encoded header, read back at their offsets. *)
Lemma encode_fields h out :
  zlen out = SIZE ->
  slice 0 4 (encode h out) = le_bytes 4 (command h) /\
  slice 4 8 (encode h out) = le_bytes 4 (arg0 h) /\
  slice 8 12 (encode h out) = le_bytes 4 (arg1 h) /\
  slice 12 16 (encode h out) = le_bytes 4 (data_length h) /\
  slice 16 20 (encode h out) = le_bytes 4 (data_check h) /\
  slice 20 24 (encode h out) = le_bytes 4 (magic h).
Proof. unfold SIZE. intros. unfold encode. wire_unfold. by wire_slice. Qed.

Lemma slice_24 (l : bytes) :
  slice 0 24 l = slice 0 4 l ++ slice 4 8 l ++ slice 8 12 l ++ slice 12 16 l ++
                 slice 16 20 l ++ slice 20 24 l.
Proof. rewrite <- !slice_cut by lia. done. Qed.

Lemma encode_eq h out :
  zlen out = SIZE ->
  encode h out = le_bytes 4 (command h) ++ le_bytes 4 (arg0 h) ++ le_bytes 4 (arg1 h) ++
                 le_bytes 4 (data_length h) ++ le_bytes 4 (data_check h) ++ le_bytes 4 (magic h).
Proof.
  intros Ho. rewrite <- (slice_full 24 (encode h out)) by (rewrite zlen_encode; unfold SIZE in *; lia).
  rewrite slice_24. by destruct (encode_fields h out Ho) as (-> & -> & -> & -> & -> & ->).
Qed.

Lemma checksum_sum_from acc data :
  foldl (fun acc b => wrap 32 (acc + b2z b)) (wrap 32 acc) data
  = wrap 32 (acc + sum_bytes data).
Proof.
  revert acc. induction data as [|b data IH]; intros acc; simpl.
  - f_equal. lia.
  - replace (wrap 32 (wrap 32 acc + b2z b)) with (wrap 32 (acc + b2z b)).
    + rewrite IH. f_equal. lia.
    + unfold wrap. by rewrite Zplus_mod_idemp_l.
Qed.

Lemma checksum_sum data : calculate_checksum data = wrap 32 (sum_bytes data).
Proof. exact (checksum_sum_from 0 data). Qed.

Lemma sum_bytes_app (p q : bytes) :
  sum_bytes (p ++ q) = sum_bytes p + sum_bytes q.
Proof. induction p as [|b p IH]; simpl; [done|]. rewrite IH. lia. Qed.

(** Replacing one byte by a different one changes the checksum. *)
Lemma checksum_one_byte p b b' q :
  b <> b' -> calculate_checksum (p ++ b :: q) <> calculate_checksum (p ++ b' :: q).
Proof.
  intros Hne. rewrite !checksum_sum, !sum_bytes_app. cbn [sum_bytes]. intros Heq.
  apply Hne, b2z_inj. pose proof (b2z_range b). pose proof (b2z_range b').
  set (s := sum_bytes p) in *. set (t := sum_bytes q) in *.
  unfold wrap in Heq. change (2 ^ 32) with 4294967296 in Heq.
  Z.div_mod_to_equations. lia.
Qed.
End HeaderFacts.
#[export] Hint Rewrite zlen_encode : zlen_db.

Section HeaderProperties.
Import Header.

(** [decode] accepts exactly the 24-byte images of [encode]: it succeeds with [h] iff
    the buffer holds at least 24 bytes, [h] has 32-bit fields whose magic is the
    complement of the command, and the first 24 bytes are [h] encoded (into any
    24-byte output buffer). *)
Theorem decode_iff_encode (buf out : bytes) (h : AdbMessageHeader) (Hout : zlen out = SIZE) :
  decode buf = Ok h <-> SIZE <= zlen buf /\ wf h /\ slice 0 SIZE buf = encode h out.
Proof.
  destruct (encode_fields h out Hout) as (F1 & F2 & F3 & F4 & F5 & F6). unfold SIZE in *. split.
  - intros Hd. destruct (Z.lt_ge_cases (zlen buf) 24) as [Hs|Hl].
    { unfold decode, SIZE in Hd. by rewrite (proj2 (Z.ltb_lt _ _) Hs) in Hd. }
    rewrite decode_eq in Hd by done. cbv beta zeta in Hd. zcase_in Hd; [|done].
    injection Hd as <-. rewrite encode_eq by done.
    cbn [command arg0 arg1 data_length data_check magic]. split_and!; [done| |].
    + split; [|done]. repeat split; apply le_val_u32; lia.
    + rewrite slice_24, !le_bytes_val by (rewrite zlen_slice by lia; lia). done.
  - intros (Hl & ((H1 & H2 & H3 & H4 & H5 & H6) & Hm) & Hs).
    assert (forall a b, 0 <= a -> b <= 24 -> slice a b buf = slice a b (encode h out)) as Hsub.
    { intros. rewrite <- Hs, slice_slice by lia. done. }
    rewrite decode_eq by done. cbv beta zeta. rewrite !Hsub by lia.
    rewrite F1, F2, F3, F4, F5, F6, !le_val_bytes_id by done.
    rewrite Hm, Z.eqb_refl. cbn [negb]. rewrite <- Hm. by destruct h.
Qed.

Lemma decode_iff_encode_witness :
  decode (encode (new A_CNXN 0x01000000 4096 (B "host::")) (zrep 24 x00) ++ B "host::")
  = Ok (new A_CNXN 0x01000000 4096 (B "host::")).
Proof.
  apply (decode_iff_encode _ (zrep 24 x00)); [reflexivity|].
  split; [vm_compute; discriminate|]. split; [|reflexivity].
  vm_compute. repeat split; discriminate.
Defined.

(** [verify_payload] accepts a payload iff its length is the header's
    [data_length] and either [data_check] is 0 (the checksum is skipped) or
    [data_check] is the sum of the payload's bytes modulo 2^32; otherwise it
    returns an error, and it never panics. *)
Theorem verify_payload_spec (h : AdbMessageHeader) (p : bytes) :
  (verify_payload h p = Ok tt <->
    zlen p = data_length h /\
    (data_check h = 0 \/ data_check h = sum_bytes p mod 2 ^ 32)) /\
  no_panic (verify_payload h p).
Proof.
  unfold verify_payload, no_panic. cbv zeta. rewrite checksum_sum. fold (wrap 32).
  destruct (Z.eqb_spec (zlen p) (data_length h)); cbn [negb]; [|naive_solver].
  destruct (Z.eqb_spec (data_check h) 0); [naive_solver|].
  unfold wrap. destruct (Z.eqb_spec (sum_bytes p mod 2 ^ 32) (data_check h));
    cbn [negb]; naive_solver.
Qed.

(** With a legacy checksum that is not 0, altering any single byte of the
    payload is detected and reported as a checksum mismatch. *)
Theorem single_byte_corruption_detected cmd a0 a1 (p : bytes) (b b' : byte) (q : bytes)
  (Hne : b <> b') (Hlen : zlen (p ++ b :: q) < 2 ^ 32)
  (Hsum : calculate_checksum (p ++ b :: q) <> 0) :
  verify_payload (new_v1_legacy cmd a0 a1 (p ++ b :: q)) (p ++ b :: q) = Ok tt /\
  verify_payload (new_v1_legacy cmd a0 a1 (p ++ b :: q)) (p ++ b' :: q)
  = Err (ChecksumMismatch (calculate_checksum (p ++ b :: q)) (calculate_checksum (p ++ b' :: q))).
Proof.
  unfold verify_payload, new_v1_legacy, new. cbn [data_length data_check].
  rewrite wrap_small by (pose proof (zlen_nonneg (p ++ b :: q)); unfold uint; lia).
  assert (zlen (p ++ b' :: q) = zlen (p ++ b :: q)) as -> by zl.
  rewrite Z.eqb_refl. cbn [negb].
  rewrite (proj2 (Z.eqb_neq _ 0) Hsum), Z.eqb_refl. split; [done|].
  rewrite (proj2 (Z.eqb_neq _ _)); [done|]. by apply not_eq_sym, checksum_one_byte.
Qed.

Lemma single_byte_corruption_detected_witness :
  verify_payload (new_v1_legacy A_CNXN 0 0 (B "legacy")) (B "legaby")
  = Err (ChecksumMismatch (calculate_checksum (B "legacy")) (calculate_checksum (B "legaby"))).
Proof.
  apply (single_byte_corruption_detected A_CNXN 0 0 (B "lega") "c"%byte "b"%byte (B "y"));
    [discriminate | reflexivity | vm_compute; discriminate].
Defined.
End HeaderProperties.
