(* ===== verification/PacketReader.v ===== *)
(** Reassembly of ADB packets from a byte stream:
    [src/crates/adb-fastboot-cli/src/server/apacket_reader.rs]. *)
From S2P Require Import Prelude AdbHeader.

Definition MAX_PAYLOAD : Z := MAX_PAYLOAD_V2.

(** ** [Block]: a byte buffer with a cursor *)
Record Block := { buf : bytes; pos : Z }.

Module Block.
Definition new (size : Z) : Block := {| buf := zrep size x00; pos := 0 |}.
Definition from_vec (v : bytes) : Block := {| buf := v; pos := 0 |}.
Definition size (b : Block) : Z := zlen (buf b).
Definition remaining (b : Block) : Z := Z.max 0 (zlen (buf b) - pos b).
Definition is_full (b : Block) : bool := zlen (buf b) <=? pos b.
Definition rewind (b : Block) : Block := {| buf := buf b; pos := 0 |}.

(** [dst.fill_from(src)]: both cursors advance; returns the pair. *)
Definition fill_from (self src : Block) : Block * Block :=
  let n := Z.min (remaining self) (remaining src) in
  if n =? 0 then (self, src) else
  ({| buf := write_at (pos self) (slice (pos src) (pos src + n) (buf src)) (buf self);
      pos := pos self + n |},
   {| buf := buf src; pos := pos src + n |}).

Definition advance (b : Block) (n : Z) : Block :=
  {| buf := buf b; pos := Z.min (pos b + n) (zlen (buf b)) |}.

Definition clear (b : Block) : Block := {| buf := zrep (zlen (buf b)) x00; pos := 0 |}.

Definition resize (b : Block) (new_size : Z) : Block :=
  let buf' := resize new_size x00 (buf b) in
  {| buf := buf'; pos := Z.min (pos b) (zlen buf') |}.

(** The cursor stays inside the buffer. *)
Definition wf (b : Block) : Prop := 0 <= pos b <= zlen (buf b).
(** The bytes already behind the cursor, and those still ahead of it. *)
Definition filled (b : Block) : bytes := slice 0 (pos b) (buf b).
Definition ahead (b : Block) : bytes := slice (pos b) (zlen (buf b)) (buf b).
End Block.

(** ** [APacketReader] *)
Record AdbPacket := { header : AdbMessageHeader; payload : bytes }.

Record APacketReader := {
  header_ : Block;
  packet_ : option AdbMessageHeader;
  payload_ : option Block;
  packets_ : list AdbPacket;
}.

Module Reader.
Definition new : APacketReader :=
  {| header_ := Block.new Header.SIZE; packet_ := None; payload_ := None; packets_ := [] |}.

Definition prepare_next (r : APacketReader) : APacketReader :=
  {| header_ := Block.rewind (header_ r); packet_ := None; payload_ := None;
     packets_ := packets_ r |}.

Definition push (r : APacketReader) (p : AdbPacket) : APacketReader :=
  {| header_ := header_ r; packet_ := packet_ r; payload_ := payload_ r;
     packets_ := packets_ r ++ [p] |}.

Definition set_header (r : APacketReader) (h : Block) : APacketReader :=
  {| header_ := h; packet_ := packet_ r; payload_ := payload_ r; packets_ := packets_ r |}.
Definition set_packet (r : APacketReader) (h : AdbMessageHeader) : APacketReader :=
  {| header_ := header_ r; packet_ := Some h; payload_ := payload_ r; packets_ := packets_ r |}.
Definition set_payload (r : APacketReader) (b : Block) : APacketReader :=
  {| header_ := header_ r; packet_ := packet_ r; payload_ := Some b; packets_ := packets_ r |}.

(** The fixed-offset reads of a 24-byte buffer, without the magic check. *)
Definition decode_framing_header (b : bytes) : AdbMessageHeader :=
  {| command := le_val (slice 0 4 b); arg0 := le_val (slice 4 8 b);
     arg1 := le_val (slice 8 12 b); data_length := le_val (slice 12 16 b);
     data_check := le_val (slice 16 20 b); magic := le_val (slice 20 24 b) |}.

(** The tail of [process_block], from the point where [packet_] is [Some h]: start
    the payload block if there is none yet, fill it, and hand a finished packet to
    [next], the recursive call. *)
Definition fill_payload (next : APacketReader -> Block -> option (APacketReader * Block))
  (r : APacketReader) (h : AdbMessageHeader) (block : Block)
  : option (APacketReader * Block) :=
  let r := match payload_ r with
           | None => if 0 <? Block.remaining block
                     then set_payload r (Block.new (data_length h)) else r
           | Some _ => r
           end in
  match payload_ r with
  | None => Some (r, block)
  | Some pb =>
      let '(pb, block) := Block.fill_from pb block in
      let r := set_payload r pb in
      if Block.is_full pb
      then next (prepare_next (push r {| header := h; payload := buf pb |})) block
      else Some (r, block)
  end.

(** [process_block], with fuel for its recursion; [None] is fuel exhaustion. *)
Fixpoint process_block (fuel : nat) (r : APacketReader) (block : Block)
  : option (APacketReader * Block) :=
  match fuel with
  | O => None
  | S fuel =>
      if Block.remaining block =? 0 then Some (r, block) else
      let '(hd, block) := Block.fill_from (header_ r) block in
      let r := set_header r hd in
      if negb (Block.is_full hd) then Some (r, block) else
      let h := decode_framing_header (buf hd) in
      if MAX_PAYLOAD <? data_length h then Some (prepare_next r, block) else
      if data_length h =? 0 then
        process_block fuel (prepare_next (push r {| header := h; payload := [] |})) block else
      match packet_ r with
      | None =>
          if Block.remaining block =? 0 then Some (set_packet r h, block) else
          let r := set_packet r h in
          let plen := data_length h in
          if Block.remaining block =? plen then
            let p := slice (pos block) (pos block + plen) (buf block) in
            let block := Block.advance block plen in
            process_block fuel (prepare_next (push r {| header := h; payload := p |})) block
          else
            fill_payload (process_block fuel) (set_payload r (Block.new plen)) h block
      | Some h0 => fill_payload (process_block fuel) r h0 block
      end
  end.

(** [add_bytes]: the packets completed by this call are taken out of the reader.
    Every recursion of [process_block] consumes input, so [2 + len] levels suffice
    ([add_bytes_total] below). *)
Definition add_bytes (r : APacketReader) (data : bytes) : option (APacketReader * list AdbPacket) :=
  let take r := ({| header_ := header_ r; packet_ := packet_ r; payload_ := payload_ r;
                    packets_ := [] |}, packets_ r) in
  match data with
  | [] => Some (take r)
  | _ =>
      match process_block (2 + length data) r (Block.from_vec data) with
      | Some (r, _) => Some (take r)
      | None => None
      end
  end.

(** A run of [add_bytes] over the chunks of a stream: the final reader and all the
    packets returned, in order. *)
Fixpoint feed (r : APacketReader) (chunks : list bytes) : option (APacketReader * list AdbPacket) :=
  match chunks with
  | [] => Some (r, [])
  | c :: cs =>
      match add_bytes r c with
      | None => None
      | Some (r, ps) =>
          match feed r cs with
          | None => None
          | Some (r, qs) => Some (r, ps ++ qs)
          end
      end
  end.
End Reader.

(** ** The framing a reader is to implement

    [framed b ps r]: the bytes [b] are the packets [ps], each a 24-byte header followed
    by [data_length] payload bytes, and then [r], which does not hold a whole packet. *)
Definition hdr (b : bytes) : AdbMessageHeader := Reader.decode_framing_header (slice 0 24 b).

Definition incomplete (b : bytes) : Prop :=
  zlen b < 24 \/ (0 < data_length (hdr b) <= MAX_PAYLOAD /\ zlen b < 24 + data_length (hdr b)).

Inductive framed : bytes -> list AdbPacket -> bytes -> Prop :=
| framed_rest b : incomplete b -> framed b [] b
| framed_packet b ps r :
    24 <= zlen b ->
    0 <= data_length (hdr b) <= MAX_PAYLOAD ->
    24 + data_length (hdr b) <= zlen b ->
    framed (slice (24 + data_length (hdr b)) (zlen b) b) ps r ->
    framed b ({| header := hdr b;
                 payload := slice 24 (24 + data_length (hdr b)) b |} :: ps) r.

(** The reader state that has absorbed the bytes [p] of an unfinished packet. *)
Definition holds (r : APacketReader) (p : bytes) : Prop :=
  incomplete p /\
  Block.wf (header_ r) /\ zlen (buf (header_ r)) = 24 /\
  ((zlen p < 24 /\ Block.filled (header_ r) = p /\ packet_ r = None /\ payload_ r = None) \/
   (24 <= zlen p /\ buf (header_ r) = slice 0 24 p /\ pos (header_ r) = 24 /\
    packet_ r = Some (hdr p) /\
    match payload_ r with
    | None => zlen p = 24
    | Some pb => Block.wf pb /\ zlen (buf pb) = data_length (hdr p) /\
                 Block.filled pb = slice 24 (zlen p) p
    end)).

(** ** Blocks *)
Section BlockFacts.
Import Block.

Lemma remaining_ahead b : wf b -> remaining b = zlen (ahead b).
Proof. unfold wf, remaining, ahead. intros. rewrite zlen_slice by lia. lia. Qed.

Lemma zlen_filled b : wf b -> zlen (filled b) = pos b.
Proof. unfold wf, filled. intros. rewrite zlen_slice by lia. lia. Qed.

Lemma wf_new n : 0 <= n -> wf (new n).
Proof. intros. unfold wf, new. simpl. rewrite zlen_zrep by lia. lia. Qed.

Lemma filled_full b : wf b -> is_full b = true -> filled b = buf b.
Proof. unfold wf, is_full, filled. intros ? ?%Z.leb_le. apply slice_full. lia. Qed.

(** [fill_from] moves the first [min] bytes ahead of the source cursor behind the
    destination cursor. *)
Lemma fill_from_spec self src self' src' (n := Z.min (remaining self) (remaining src)) :
  wf self -> wf src -> fill_from self src = (self', src') ->
  wf self' /\ wf src' /\ zlen (buf self') = zlen (buf self) /\
  filled self' = filled self ++ slice 0 n (ahead src) /\
  ahead src' = slice n (zlen (ahead src)) (ahead src).
Proof.
  intros Hd Hs. pose proof (remaining_ahead self Hd). pose proof (remaining_ahead src Hs) as Hr.
  unfold fill_from. fold n. unfold wf, filled, ahead, remaining in *.
  destruct (Z.eqb_spec n 0) as [Hn|Hn]; intros [= <- <-]; cbn [buf pos].
  - rewrite Hn, (slice_empty 0 0), app_nil_r by lia. split_and!; try lia; try done.
    by rewrite slice_full by lia.
  - assert (zlen (slice (pos src) (pos src + n) (buf src)) = n) as Hl
      by (rewrite zlen_slice by lia; lia).
    rewrite zlen_write_at. split_and!; try lia.
    + rewrite (slice_cut 0 (pos self)) by lia.
      rewrite slice_write_before, slice_write_same by lia.
      rewrite slice_slice by lia. do 2 f_equal; lia.
    + rewrite zlen_slice by lia. rewrite slice_slice by lia. f_equal; lia.
Qed.
End BlockFacts.

(** ** One round of [process_block] *)
Section Process.
Import Block Reader.

Lemma hdr_app p d : 24 <= zlen p -> hdr (p ++ d) = hdr p.
Proof. intros. unfold hdr. by rewrite slice_app_l by lia. Qed.

Lemma data_length_nonneg b : 0 <= data_length (hdr b).
Proof. apply le_val_range. Qed.

Lemma incomplete_nil : incomplete [].
Proof. left. rewrite zlen_nil. lia. Qed.

Lemma holds_new : holds new [].
Proof.
  split_and!; [apply incomplete_nil | by apply wf_new | done | left].
  by split_and!.
Qed.

Lemma holds_next r : zlen (buf (header_ r)) = 24 -> holds (prepare_next r) [].
Proof.
  intros Hl. split_and!; [apply incomplete_nil | | done | left; by split_and!].
  unfold wf, rewind. cbn. lia.
Qed.

(** The header phase: the header block ends up full iff 24 bytes have arrived. *)
Lemma header_phase r p blk hd blk1 :
  holds r p -> wf blk -> fill_from (header_ r) blk = (hd, blk1) ->
  wf hd /\ wf blk1 /\ zlen (buf hd) = 24 /\
  if is_full hd
  then 24 <= zlen (p ++ ahead blk) /\ buf hd = slice 0 24 (p ++ ahead blk) /\ pos hd = 24 /\
       ahead blk1 = slice (Z.max 24 (zlen p)) (zlen (p ++ ahead blk)) (p ++ ahead blk)
  else zlen (p ++ ahead blk) < 24 /\ filled hd = p ++ ahead blk.
Proof.
  intros (Hi & Hw & Hl & Hc) Hb Hf. pose proof (zlen_nonneg p).
  pose proof (remaining_ahead _ Hb) as Hr. pose proof (zlen_nonneg (ahead blk)).
  destruct (fill_from_spec _ _ _ _ Hw Hb Hf) as (Hw' & Hb' & Hl' & Hfd & Ha).
  pose proof (zlen_filled _ Hw') as Hpos. rewrite Hl in Hl'.
  split_and!; [done..|]. rewrite zlen_app.
  assert (remaining (header_ r) = 24 - zlen (filled (header_ r))) as Hrem.
  { unfold remaining, wf in *. rewrite zlen_filled by done. lia. }
  assert (zlen (filled (header_ r)) = Z.min 24 (zlen p)) as Hpf.
  { rewrite zlen_filled by done.
    destruct Hc as [(? & <- & _)|(? & _ & -> & _)]; [rewrite zlen_filled in * by done|]; lia. }
  assert (filled (header_ r) = slice 0 24 p) as Hpre.
  { destruct Hc as [(? & -> & _)|(? & Hbuf & Hp & _)]; [by rewrite slice_full by lia|].
    unfold filled. rewrite Hp, Hbuf. rewrite slice_slice by lia. done. }
  rewrite Hr, Hrem, Hpf in *.
  assert (zlen (filled hd) = Z.min 24 (zlen p + zlen (ahead blk))) as Hzl.
  { rewrite Hfd, zlen_app, zlen_slice, Hpf by lia. lia. }
  destruct (is_full hd) eqn:Hfull.
  - pose proof Hfull as Hfull'. unfold is_full in Hfull'. apply Z.leb_le in Hfull'.
    unfold wf in Hw'. split_and!; [lia| |lia|].
    + rewrite <- (filled_full hd) by done. rewrite Hfd, Hpre.
      destruct (Z.le_gt_cases 24 (zlen p)).
      * rewrite (slice_empty 0 _ (ahead blk)), app_nil_r, slice_app_l by lia. done.
      * rewrite (slice_cut 0 (zlen p) 24 (p ++ ahead blk)) by lia.
        rewrite (slice_app_l 0), (slice_app_r (zlen p)), !(slice_full _ p) by lia.
        f_equal. f_equal; lia.
    + rewrite Ha. destruct (Z.le_gt_cases 24 (zlen p)).
      * rewrite slice_app_r by lia. f_equal; lia.
      * rewrite slice_app_r by lia. f_equal; lia.
  - unfold is_full in Hfull. apply Z.leb_gt in Hfull. split; [lia|].
    rewrite Hfd, Hpre, !slice_full by lia. done.
Qed.

(** The payload phase, for a reader that has absorbed [p] (header included). *)
Lemma payload_phase next r p blk pb :
  wf blk -> 24 <= zlen p -> zlen p < 24 + data_length (hdr p) ->
  match payload_ r with
  | Some b => b = pb
  | None => 0 < zlen (ahead blk) /\ pb = Block.new (data_length (hdr p))
  end ->
  wf pb -> zlen (buf pb) = data_length (hdr p) -> filled pb = slice 24 (zlen p) p ->
  exists pb' blk',
    wf blk' /\ wf pb' /\ zlen (buf pb') = data_length (hdr p) /\
    if 24 + data_length (hdr p) <=? zlen (p ++ ahead blk)
    then fill_payload next r (hdr p) blk =
           next (prepare_next (push (set_payload r pb')
                   {| header := hdr p;
                      payload := slice 24 (24 + data_length (hdr p)) (p ++ ahead blk) |})) blk' /\
         ahead blk' = slice (24 + data_length (hdr p)) (zlen (p ++ ahead blk)) (p ++ ahead blk)
    else fill_payload next r (hdr p) blk = Some (set_payload r pb', blk') /\
         filled pb' = slice 24 (zlen (p ++ ahead blk)) (p ++ ahead blk).
Proof.
  intros Hb Hp Hlt Hpl Hw Hl Hf.
  destruct (fill_from pb blk) as [pb' blk'] eqn:Efill.
  pose proof (remaining_ahead _ Hb) as Hr. pose proof (zlen_nonneg (ahead blk)).
  destruct (fill_from_spec _ _ _ _ Hw Hb Efill) as (Hw' & Hb' & Hl' & Hfd & Ha).
  exists pb', blk'. split_and!; [done|done|lia|].
  assert (zlen (filled pb) = zlen p - 24) as Hzf by (rewrite Hf, zlen_slice by lia; lia).
  assert (remaining pb = data_length (hdr p) + 24 - zlen p) as Hrem.
  { pose proof (zlen_filled _ Hw). unfold remaining, wf in *. lia. }
  rewrite Hr, Hrem in *.
  assert (filled pb' = slice 24 (Z.min (24 + data_length (hdr p)) (zlen (p ++ ahead blk)))
                         (p ++ ahead blk)) as Hfd'.
  { rewrite Hfd, Hf, zlen_app, (slice_cut 24 (zlen p) _ (p ++ ahead blk)) by lia.
    rewrite slice_app_l, (slice_app_r (zlen p)) by lia. do 2 f_equal; lia. }
  assert (zlen (filled pb') = Z.min (data_length (hdr p)) (zlen (p ++ ahead blk) - 24)) as Hz'.
  { rewrite Hfd', zlen_slice by (rewrite zlen_app in *; lia). lia. }
  assert (fill_payload next r (hdr p) blk =
    if is_full pb'
    then next (prepare_next (push (set_payload r pb') {| header := hdr p; payload := buf pb' |})) blk'
    else Some (set_payload r pb', blk')) as ->.
  { unfold fill_payload. destruct (payload_ r) as [b|] eqn:Ep.
    - subst b. rewrite Ep, Efill. done.
    - destruct Hpl as [Hpos ->]. rewrite Hr, (proj2 (Z.ltb_lt 0 _) Hpos). cbn [payload_ set_payload].
      rewrite Efill. done. }
  rewrite zlen_filled in Hz' by done. unfold is_full. rewrite Hl', Hl, Hz'.
  destruct (Z.leb_spec (24 + data_length (hdr p)) (zlen (p ++ ahead blk))).
  - destruct (Z.leb_spec (data_length (hdr p))
      (Z.min (data_length (hdr p)) (zlen (p ++ ahead blk) - 24))); [|lia].
    split.
    + do 4 f_equal. rewrite <- (filled_full pb'); [|done|unfold is_full; lia].
      rewrite Hfd'. f_equal. lia.
    + rewrite zlen_app in *. rewrite Ha, slice_app_r by lia. f_equal; lia.
  - destruct (Z.leb_spec (data_length (hdr p))
      (Z.min (data_length (hdr p)) (zlen (p ++ ahead blk) - 24))); [lia|].
    split; [done|]. rewrite Hfd'. f_equal. lia.
Qed.
End Process.

Section Refinement.
Import Block Reader.

(** The payload phase ends the round: for a reader whose header block holds the header
    of [b] and whose payload block (if started) holds the bytes of [b] up to [k]. *)
Lemma payload_round next r b k blk pb :
  wf (header_ r) -> buf (header_ r) = slice 0 24 b -> pos (header_ r) = 24 ->
  packet_ r = Some (hdr b) -> wf blk -> 24 <= k <= zlen b -> k < 24 + data_length (hdr b) ->
  data_length (hdr b) <= MAX_PAYLOAD -> ahead blk = slice k (zlen b) b ->
  match payload_ r with
  | Some b0 => b0 = pb
  | None => 0 < zlen (ahead blk) /\ pb = Block.new (data_length (hdr b))
  end ->
  wf pb -> zlen (buf pb) = data_length (hdr b) -> filled pb = slice 24 k b ->
  exists r' blk',
    wf blk' /\
    if 24 + data_length (hdr b) <=? zlen b
    then fill_payload next r (hdr b) blk = next r' blk' /\ holds r' [] /\
         ahead blk' = slice (24 + data_length (hdr b)) (zlen b) b /\
         packets_ r' = packets_ r ++
           [{| header := hdr b; payload := slice 24 (24 + data_length (hdr b)) b |}]
    else fill_payload next r (hdr b) blk = Some (r', blk') /\ holds r' b /\
         packets_ r' = packets_ r.
Proof.
  intros Hw Hbuf Hpos Hpk Hb Hk Hlt Hmax Ha Hpl Hwp Hlp Hfp.
  assert (zlen (slice 0 k b) = k) as Hzk by (rewrite zlen_slice by lia; lia).
  assert (slice 0 k b ++ ahead blk = b) as Hbb
    by (rewrite Ha, <- slice_cut, slice_full by lia; done).
  assert (hdr (slice 0 k b) = hdr b) as Hhd.
  { unfold hdr. rewrite slice_slice by lia. done. }
  pose proof (payload_phase next r (slice 0 k b) blk pb Hb) as Hphase.
  rewrite Hhd, Hzk, Hbb in Hphase.
  destruct Hphase as (pb' & blk' & Hb' & Hw' & Hl' & Hres); [lia|lia|done|done|done| |].
  { rewrite Hfp, slice_slice by lia. done. }
  destruct (Z.leb_spec (24 + data_length (hdr b)) (zlen b)).
  - destruct Hres as [-> Ha']. eexists _, blk'. split_and!; [done|done| |done|done].
    apply holds_next. cbn. rewrite Hbuf, zlen_slice by lia. lia.
  - destruct Hres as [-> Hf']. eexists _, blk'. split_and!; [done|done| |done].
    split_and!; [right; lia|done|cbn; rewrite Hbuf, zlen_slice by lia; lia|right].
    split_and!; [lia|done..|]. cbn. done.
Qed.

(** One round of [process_block]: it either completes the packet at the front of [b]
    (the bytes held, then those of the block) and goes on with the rest, or absorbs
    the whole block. *)
Lemma process_round fuel r p blk (b := p ++ ahead blk) :
  holds r p -> wf blk -> ahead blk <> [] -> 24 <= zlen b ->
  data_length (hdr b) <= MAX_PAYLOAD ->
  exists r' blk',
    wf blk' /\
    if 24 + data_length (hdr b) <=? zlen b
    then process_block (S fuel) r blk = process_block fuel r' blk' /\ holds r' [] /\
         ahead blk' = slice (24 + data_length (hdr b)) (zlen b) b /\
         packets_ r' = packets_ r ++
           [{| header := hdr b; payload := slice 24 (24 + data_length (hdr b)) b |}]
    else process_block (S fuel) r blk = Some (r', blk') /\ holds r' b /\
         packets_ r' = packets_ r.
Proof.
  intros Hh Hb Hne H24 Hmax. pose proof (data_length_nonneg b) as Hdl.
  assert (0 < zlen (ahead blk)) as Hpos.
  { destruct (ahead blk) as [|? l]; [done|]. rewrite zlen_cons. pose proof (zlen_nonneg l). lia. }
  destruct (fill_from (header_ r) blk) as [hd blk1] eqn:Efill.
  destruct (header_phase _ _ _ _ _ Hh Hb Efill) as (Hwh & Hb1 & Hlh & Hfull).
  fold b in Hfull.
  destruct (is_full hd) eqn:Ef; [|lia]. destruct Hfull as (_ & Hbuf & Hph & Ha1).
  cbn [process_block]. rewrite (remaining_ahead blk) by done.
  destruct (Z.eqb_spec (zlen (ahead blk)) 0); [lia|]. rewrite Efill, Ef. cbn [negb].
  assert (decode_framing_header (buf hd) = hdr b) as -> by (unfold hdr; by rewrite Hbuf).
  destruct (Z.ltb_spec MAX_PAYLOAD (data_length (hdr b))); [lia|].
  destruct Hh as (Hi & _ & _ & Hc).
  destruct (Z.eqb_spec (data_length (hdr b)) 0) as [Hz|Hz].
  { (* a packet without payload: its header was not complete before *)
    rewrite Hz in *. destruct (Z.leb_spec (24 + 0) (zlen b)); [|lia].
    destruct Hc as [(? & _ & _ & _)|(Hp & _)].
    - eexists _, blk1. split_and!; [done|done|apply holds_next; done| |cbn].
      + rewrite Ha1. f_equal. lia.
      + by rewrite (slice_empty 24 (24 + 0)) by lia.
    - exfalso. destruct Hi as [?|[Hd _]]; [lia|]. unfold b in Hz. rewrite hdr_app in Hz by done. lia. }
  destruct Hc as [(Hp & _ & Hpk & Hpl)|(Hp & Hb24 & Hp24 & Hpk & Hpl)]; cbn [packet_ set_header];
    rewrite Hpk.
  - rewrite Z.max_l in Ha1 by lia.
    rewrite remaining_ahead, Ha1, zlen_slice by (done || lia).
    destruct (Z.eqb_spec (zlen b - 24) 0) as [Hr0|Hr0].
    { destruct (Z.leb_spec (24 + data_length (hdr b)) (zlen b)); [lia|].
      eexists _, blk1. split_and!; [done|done| |done].
      split_and!; [right; lia|done|done|right]. split_and!; [lia|done..|]. cbn. rewrite Hpl. lia. }
    destruct (Z.eqb_spec (zlen b - 24) (data_length (hdr b))) as [Hr1|Hr1].
    { destruct (Z.leb_spec (24 + data_length (hdr b)) (zlen b)); [|lia].
      assert (zlen (ahead blk1) = data_length (hdr b)) as Hza by (rewrite Ha1, zlen_slice by lia; lia).
      pose proof Hza as Hza'. unfold ahead, wf in Hza', Hb1. rewrite zlen_slice in Hza' by lia.
      eexists _, (advance blk1 (data_length (hdr b))).
      assert (slice (pos blk1) (pos blk1 + data_length (hdr b)) (buf blk1) =
              slice 24 (24 + data_length (hdr b)) b) as Hpay.
      { replace (24 + data_length (hdr b)) with (zlen b) by lia.
        rewrite <- Ha1. unfold ahead. f_equal. lia. }
      split_and!; [|done|apply holds_next; done| |by rewrite <- Hpay].
      + unfold wf, advance. cbn [buf pos]. lia.
      + unfold ahead, advance. cbn [buf pos]. rewrite !slice_empty by lia. done. }
    apply (payload_round (process_block fuel)
      (set_payload (set_packet (set_header r hd) (hdr b)) (Block.new (data_length (hdr b))))
      b 24 blk1 (Block.new (data_length (hdr b)))); try done; try lia; try (by apply wf_new).
    cbn [buf Block.new]. by rewrite zlen_zrep by lia.
  - assert (hdr b = hdr p) as Hhp by (unfold b; by apply hdr_app).
    rewrite Z.max_r in Ha1 by lia. rewrite <- Hhp in *.
    destruct Hi as [?|[_ Hlt]]; [lia|]. rewrite <- Hhp in Hlt.
    assert (zlen b = zlen p + zlen (ahead blk)) as Hzb by apply zlen_app.
    assert (forall x y, 0 <= x -> y <= zlen p -> slice x y p = slice x y b) as Hsub
      by (intros; unfold b; by rewrite slice_app_l by lia).
    destruct (payload_ r) as [pb|] eqn:Epl.
    + destruct Hpl as (Hwp & Hlp & Hfp). rewrite Hsub in Hfp by lia.
      apply (payload_round (process_block fuel) (set_header r hd) b (zlen p) blk1 pb); try done; try lia. cbn. by rewrite Epl.
    + apply (payload_round (process_block fuel) (set_header r hd) b (zlen p) blk1
        (Block.new (data_length (hdr b))));
        try done; try lia; try (by apply wf_new).
      * cbn. rewrite Epl. split; [|done]. rewrite Ha1, zlen_slice by lia. lia.
      * cbn [buf Block.new]. by rewrite zlen_zrep by lia.
      * unfold filled. cbn [pos Block.new]. by rewrite !slice_empty by lia.
Qed.

Lemma process_empty fuel r blk : wf blk -> ahead blk = [] -> process_block (S fuel) r blk = Some (r, blk).
Proof. intros Hb Ha. cbn [process_block]. by rewrite remaining_ahead, Ha by done. Qed.

(** Fewer than 24 bytes of the packet: the header block absorbs them all. *)
Lemma process_short fuel r p blk :
  holds r p -> wf blk -> ahead blk <> [] -> zlen (p ++ ahead blk) < 24 ->
  exists r' blk', process_block (S fuel) r blk = Some (r', blk') /\
    holds r' (p ++ ahead blk) /\ packets_ r' = packets_ r.
Proof.
  intros Hh Hb Hne Hs. destruct (fill_from (header_ r) blk) as [hd blk1] eqn:Efill.
  destruct (header_phase _ _ _ _ _ Hh Hb Efill) as (Hwh & Hb1 & Hlh & Hfull).
  cbn [process_block]. rewrite remaining_ahead by done.
  destruct (Z.eqb_spec (zlen (ahead blk)) 0) as [E|]; [by apply zlen_0_nil in E|].
  rewrite Efill. destruct (is_full hd); [lia|]. destruct Hfull as [_ Hf]. cbn [negb].
  eexists _, blk1. split_and!; [done| |done].
  destruct Hh as (_ & _ & _ & [(_ & _ & ? & ?)|(? & _)]).
  - split_and!; [by left|done|done|left; by split_and!].
  - rewrite zlen_app in Hs. pose proof (zlen_nonneg (ahead blk)). lia.
Qed.

Lemma process_framed b ps rest :
  framed b ps rest -> forall fuel r p blk,
  holds r p -> wf blk -> b = p ++ ahead blk -> (length (ahead blk) < fuel)%nat ->
  exists r' blk', process_block fuel r blk = Some (r', blk') /\
    holds r' rest /\ packets_ r' = packets_ r ++ ps.
Proof.
  induction 1 as [b Hi|b ps rest H24 Hdl Hlen _ IH]; intros fuel r p blk Hh Hb -> Hf;
    (destruct fuel as [|fuel]; [lia|]);
    destruct (decide (ahead blk = [])) as [Ha|Ha].
  - rewrite process_empty, Ha, app_nil_r by done. eexists r, blk. by rewrite app_nil_r.
  - rewrite app_nil_r. destruct Hi as [Hs|[Hd Hs]]; [by apply process_short|].
    destruct (Z.lt_ge_cases (zlen (p ++ ahead blk)) 24); [by apply process_short|].
    destruct (process_round fuel r p blk) as (r' & blk' & Hb' & Hres); [done..|lia|].
    destruct (Z.leb_spec (24 + data_length (hdr (p ++ ahead blk))) (zlen (p ++ ahead blk))); [lia|].
    by exists r', blk'.
  - exfalso. rewrite Ha, app_nil_r in *. destruct Hh as ([?|[_ ?]] & _); lia.
  - destruct (process_round fuel r p blk) as (r' & blk' & Hb' & Hres); [done..|lia|].
    destruct (Z.leb_spec (24 + data_length (hdr (p ++ ahead blk))) (zlen (p ++ ahead blk))); [|lia].
    destruct Hres as (-> & Hh' & Ha' & Hp').
    assert (zlen (ahead blk') < zlen (ahead blk)) as Hdec.
    { rewrite Ha', zlen_slice by lia. pose proof (data_length_nonneg (p ++ ahead blk)).
      rewrite (zlen_app p) in *. destruct (Z.lt_ge_cases (zlen p) 24) as [Hs|Hs]; [lia|].
      destruct Hh as ([?|[? Hlt]] & _); [lia|].
      rewrite <- (hdr_app p (ahead blk)) in Hlt by done. lia. }
    destruct (IH fuel r' [] blk') as (r2 & blk2 & -> & Hh2 & Hp2); [done|done|by rewrite Ha'| |].
    { unfold zlen in Hdec. lia. }
    exists r2, blk2. split_and!; [done..|]. by rewrite Hp2, Hp', <- app_assoc.
Qed.
End Refinement.

(** ** Streams *)
Section Streams.
Import Block Reader.

Lemma add_bytes_framed r p data ps rest :
  holds r p -> packets_ r = [] -> framed (p ++ data) ps rest ->
  exists r', add_bytes r data = Some (r', ps) /\ holds r' rest /\ packets_ r' = [].
Proof.
  intros Hh Hp Hfr. destruct data as [|x data].
  - assert (ps = [] /\ rest = p) as [-> ->].
    { rewrite app_nil_r in Hfr. destruct Hh as (Hi & _).
      inversion Hfr; subst; [done|]. destruct Hi as [?|[_ ?]]; lia. }
    eexists. cbn. rewrite Hp. split_and!; [done| |done]. by destruct r.
  - assert (wf (from_vec (x :: data))) as Hb
      by (unfold wf, from_vec; cbn [buf pos]; pose proof (zlen_nonneg (x :: data)); lia).
    assert (ahead (from_vec (x :: data)) = x :: data) as Ha
      by (unfold ahead, from_vec; cbn [buf pos]; by rewrite slice_full by lia).
    destruct (process_framed _ _ _ Hfr (2 + length (x :: data)) r p (from_vec (x :: data)))
      as (r' & blk' & Hpr & Hh' & Hps); [done|done|by rewrite Ha|rewrite Ha; lia|].
    unfold add_bytes. rewrite Hpr. eexists. rewrite Hps, Hp. split_and!; [done| |done].
    by destruct r'.
Qed.

Lemma framed_app_inv b ps rest :
  framed b ps rest -> forall a c, b = a ++ c ->
  exists ps1 r1 ps2, framed a ps1 r1 /\ framed (r1 ++ c) ps2 rest /\ ps = ps1 ++ ps2.
Proof.
  induction 1 as [b Hi|b ps rest H24 Hdl Hlen Hfr IH]; intros a c ->.
  - exists [], a, []. split_and!; [|by constructor|done]. constructor.
    unfold incomplete in Hi. rewrite zlen_app in Hi. pose proof (zlen_nonneg c).
    destruct (Z.lt_ge_cases (zlen a) 24); [by left|].
    rewrite hdr_app in Hi by done. destruct Hi as [?|[? ?]]; [lia|]. right. split; [done|lia].
  - destruct (Z.lt_ge_cases (zlen a) 24) as [Ha|Ha].
    { eexists [], a, _. split_and!; [by do 2 constructor| |done]. by constructor. }
    destruct (Z.lt_ge_cases (zlen a) (24 + data_length (hdr (a ++ c)))) as [Hs|Hs].
    { eexists [], a, _. split_and!; [|by constructor|done]. constructor. right.
      rewrite <- (hdr_app a c) by done. lia. }
    destruct (IH (slice (24 + data_length (hdr (a ++ c))) (zlen a) a) c)
      as (ps1 & r1 & ps2 & H1 & H2 & ->).
    { rewrite (slice_cut _ (zlen a)) by (rewrite ?zlen_app; pose proof (zlen_nonneg c); lia).
      rewrite slice_app_l, slice_app_r by lia. f_equal. rewrite Z.sub_diag. apply slice_full. rewrite zlen_app. lia. }
    rewrite hdr_app in Hs, Hdl, H1 |- * by done. rewrite slice_app_l by lia.
    eexists (_ :: ps1), r1, ps2. split_and!; [by constructor|done|done].
Qed.

Lemma feed_framed_from chunks r p ps rest :
  holds r p -> packets_ r = [] -> framed (p ++ concat chunks) ps rest ->
  exists r', feed r chunks = Some (r', ps) /\ holds r' rest.
Proof.
  revert r p ps. induction chunks as [|c cs IH]; intros r p ps Hh Hp Hfr; cbn [feed concat] in *.
  - rewrite app_nil_r in Hfr. assert (ps = [] /\ rest = p) as [-> ->]; [|by eexists].
    destruct Hh as (Hi & _). inversion Hfr; subst; [done|]. destruct Hi as [?|[_ ?]]; lia.
  - rewrite app_assoc in Hfr.
    destruct (framed_app_inv _ _ _ Hfr _ _ eq_refl) as (ps1 & r1 & ps2 & H1 & H2 & ->).
    destruct (add_bytes_framed _ _ _ _ _ Hh Hp H1) as (r' & -> & Hh' & Hp').
    destruct (IH r' r1 ps2 Hh' Hp' H2) as (r'' & -> & Hh''). by eexists.
Qed.

(** The wire image of a packet: its 24-byte header followed by its payload. *)
Definition packet_bytes (p : AdbPacket) : bytes :=
  Header.encode (header p) (zrep 24 x00) ++ payload p.

Definition packet_ok (p : AdbPacket) : Prop :=
  Header.typed (header p) /\ zlen (payload p) = data_length (header p) /\
  data_length (header p) <= MAX_PAYLOAD.

Lemma hdr_packet p t : packet_ok p -> hdr (packet_bytes p ++ t) = header p.
Proof.
  intros ((H1 & H2 & H3 & H4 & H5 & H6) & _). unfold hdr, packet_bytes, decode_framing_header.
  rewrite <- app_assoc, slice_app_l by zg.
  rewrite (slice_full 24) by zg.
  destruct (encode_fields (header p) (zrep 24 x00)) as (-> & -> & -> & -> & -> & ->);
    [by rewrite zlen_zrep by lia|].
  rewrite !le_val_bytes_id by done. by destruct (header p).
Qed.

Lemma framed_packets ps : Forall packet_ok ps -> framed (concat (packet_bytes <$> ps)) ps [].
Proof.
  induction 1 as [|p ps Hp _ IH]; cbn [fmap list_fmap concat].
  - constructor. apply incomplete_nil.
  - pose proof (hdr_packet p (concat (packet_bytes <$> ps)) Hp) as Hh.
    destruct Hp as (Ht & Hl & Hm). set (t := concat (packet_bytes <$> ps)) in *.
    assert (zlen (packet_bytes p) = 24 + data_length (header p)) as Hz.
    { unfold packet_bytes. rewrite zlen_app, zlen_encode, zlen_zrep by lia. lia. }
    pose proof (zlen_nonneg t). pose proof (zlen_nonneg (payload p)).
    replace p with {| header := hdr (packet_bytes p ++ t);
      payload := slice 24 (24 + data_length (hdr (packet_bytes p ++ t))) (packet_bytes p ++ t) |} at 2.
    + constructor; rewrite ?Hh, ?zlen_app; try lia. rewrite slice_app_r, Hz by lia.
      replace (24 + data_length (header p) - (24 + data_length (header p))) with 0 by lia.
      by rewrite slice_full by lia.
    + rewrite Hh, slice_app_l by lia. unfold packet_bytes.
      rewrite slice_app_r, zlen_encode, zlen_zrep by zg.
      rewrite slice_full by lia. by destruct p.
Qed.
End Streams.

(** ** Termination on arbitrary input *)
Section Total.
Import Block Reader.

(** The representation invariant of the reader: its blocks are well formed, the header
    block has 24 bytes, and a pending header announces a non-negative length. *)
Definition reader_wf (r : APacketReader) : Prop :=
  wf (header_ r) /\ zlen (buf (header_ r)) = 24 /\
  (forall h, packet_ r = Some h -> 0 <= data_length h) /\
  (forall b, payload_ r = Some b -> wf b).

Lemma reader_wf_next r : zlen (buf (header_ r)) = 24 -> reader_wf (prepare_next r).
Proof. intros Hl. split_and!; [unfold wf, rewind; cbn; lia|done|by intros|by intros]. Qed.

(** The fuel a call needs: the bytes ahead, and one more level when the header block is
    already full. *)
Definition cost (r : APacketReader) (blk : Block) : Z :=
  zlen (ahead blk) + (if is_full (header_ r) then 1 else 0).

Lemma cost_next r blk : zlen (buf (header_ r)) = 24 -> cost (prepare_next r) blk = zlen (ahead blk).
Proof. intros Hl. unfold cost, is_full. cbn. rewrite Hl. cbn. lia. Qed.

Lemma fill_payload_total next r h blk :
  reader_wf r -> 0 <= data_length h -> wf blk ->
  (forall r' blk', reader_wf r' -> wf blk' -> cost r' blk' <= zlen (ahead blk) ->
     exists r'' blk'', next r' blk' = Some (r'', blk'') /\ reader_wf r'') ->
  exists r' blk', fill_payload next r h blk = Some (r', blk') /\ reader_wf r'.
Proof.
  intros (Hw & Hl & Hp & Hpl) Hd Hb Hnext. unfold fill_payload.
  set (r1 := match payload_ r with None => _ | Some _ => r end).
  assert (reader_wf r1) as Hr1.
  { unfold r1. destruct (payload_ r) eqn:Ep; [by split_and!; try done; rewrite Ep|].
    destruct (0 <? _); [|split_and!; try done; by rewrite Ep].
    split_and!; try done. intros b [= <-]. by apply wf_new. }
  clearbody r1. destruct (payload_ r1) as [pb|] eqn:Epl; [|by eexists _, _].
  destruct (fill_from pb blk) as [pb' blk'] eqn:Ef.
  destruct Hr1 as (Hw1 & Hl1 & Hp1 & Hpl1).
  destruct (fill_from_spec _ _ _ _ (Hpl1 _ Epl) Hb Ef) as (Hw' & Hb' & _ & _ & Ha').
  assert (reader_wf (set_payload r1 pb')) as Hr2 by (split_and!; try done; by intros b [= <-]).
  destruct (is_full pb'); [|by eexists _, _].
  apply Hnext; [by apply reader_wf_next|done|].
  rewrite cost_next by done. rewrite Ha'.
  pose proof (remaining_ahead _ Hb). pose proof (zlen_nonneg (ahead blk)).
  pose proof (remaining_ahead _ (Hpl1 _ Epl)). pose proof (zlen_nonneg (ahead pb)).
  rewrite zlen_slice by lia. lia.
Qed.

Lemma process_total fuel : forall r blk,
  reader_wf r -> wf blk -> cost r blk < Z.of_nat fuel ->
  exists r' blk', process_block fuel r blk = Some (r', blk') /\ reader_wf r'.
Proof.
  induction fuel as [|fuel IH]; intros r blk Hr Hb Hf; pose proof (zlen_nonneg (ahead blk)).
  { unfold cost in Hf. destruct (is_full (header_ r)); lia. }
  pose proof Hr as (Hw & Hl & Hp & Hpl). cbn [process_block]. rewrite remaining_ahead by done.
  destruct (Z.eqb_spec (zlen (ahead blk)) 0); [by eexists _, _|].
  destruct (fill_from (header_ r) blk) as [hd blk1] eqn:Ef.
  destruct (fill_from_spec _ _ _ _ Hw Hb Ef) as (Hw' & Hb1 & Hl' & _ & Ha').
  assert (zlen (ahead blk1) < Z.of_nat fuel) as Hf1.
  { rewrite Ha'. pose proof (remaining_ahead _ Hb). unfold cost, is_full, remaining, wf in *.
    rewrite zlen_slice by lia. destruct (Z.leb_spec (zlen (buf (header_ r))) (pos (header_ r))); lia. }
  assert (reader_wf (set_header r hd)) as Hr1 by (split_and!; try done; cbn; lia).
  destruct (is_full hd); cbn [negb]; [|by eexists _, _].
  pose proof Hr1 as (_ & Hl1 & _ & _).
  assert (forall r0, zlen (buf (header_ r0)) = 24 -> forall b0, wf b0 ->
    zlen (ahead b0) <= zlen (ahead blk1) ->
    exists r' blk', process_block fuel (prepare_next r0) b0 = Some (r', blk') /\ reader_wf r') as Hnext.
  { intros. apply IH; [by apply reader_wf_next|done|]. rewrite cost_next by done. lia. }
  assert (0 <= data_length (decode_framing_header (buf hd))) as Hd by apply le_val_range.
  destruct (_ <? _); [by eexists _, _; split; [|apply reader_wf_next]|].
  destruct (_ =? 0); [by apply Hnext|].
  assert (forall r' blk', reader_wf r' -> wf blk' -> cost r' blk' <= zlen (ahead blk1) ->
    exists r'' blk'', process_block fuel r' blk' = Some (r'', blk'') /\ reader_wf r'') as Hrec
    by (intros; apply IH; [done|done|lia]).
  assert (reader_wf (set_packet (set_header r hd) (decode_framing_header (buf hd)))) as Hr2
    by (split_and!; try done; [by intros h [= <-]]).
  destruct (packet_ (set_header r hd)) as [h0|] eqn:Ep.
  - apply fill_payload_total; [done| |done|done]. by apply Hp.
  - destruct (_ =? 0); [by eexists _, _|]. destruct (_ =? _).
    + apply Hnext; [done| |].
      * unfold wf, advance in *. cbn [buf pos]. lia.
      * unfold ahead, advance, wf in *. cbn [buf pos]. rewrite !zlen_slice by lia. lia.
    + apply fill_payload_total; [|done..].
      split_and!; try done; [by intros h [= <-]|]. intros b [= <-]. by apply wf_new.
Qed.

Lemma reader_wf_new : reader_wf new.
Proof. split_and!; [by apply wf_new|done|by intros|by intros]. Qed.
End Total.

Section ReaderProperties.
Import Block Reader.

(** C1: [APacketReader] reassembles a stream independently of how it is cut into reads:
    whatever the chunks, if their concatenation is the framing of packets [ps] followed by
    an unfinished packet [rest] (no header announcing more than [MAX_PAYLOAD] bytes), then
    the successive [add_bytes] calls return exactly [ps] in order and leave the reader
    holding [rest]. *)
Theorem feed_refines_framing (chunks : list bytes) (ps : list AdbPacket) (rest : bytes)
  (Hfr : framed (concat chunks) ps rest) :
  exists r', feed new chunks = Some (r', ps) /\ holds r' rest.
Proof. by apply (feed_framed_from chunks new []); [apply holds_new| |]. Qed.

(** Round trip: any way of cutting the wire images of valid packets into chunks gives
    the packets back, and the reader is then ready for the next packet. *)
Theorem packets_roundtrip (ps : list AdbPacket) (chunks : list bytes)
  (Hok : Forall packet_ok ps) (Hcut : concat chunks = concat (packet_bytes <$> ps)) :
  exists r', feed new chunks = Some (r', ps) /\ holds r' [].
Proof.
  apply (feed_framed_from chunks new []); [apply holds_new|done|].
  rewrite Hcut. by apply framed_packets.
Qed.

(** [add_bytes] terminates on every input, valid or not, from every reader that
    satisfies the representation invariant, and preserves the invariant: the recursion
    of [process_block] never exceeds two levels more than the bytes supplied. *)
Theorem add_bytes_total (r : APacketReader) (data : bytes) (Hr : reader_wf r) :
  exists r' ps, add_bytes r data = Some (r', ps) /\ reader_wf r'.
Proof.
  destruct data as [|x data]; [by eexists _, _; split; [|destruct r]|].
  destruct (process_total (2 + length (x :: data)) r (from_vec (x :: data)))
    as (r' & blk' & Hp & Hr'); [done| | |].
  - unfold wf, from_vec. cbn [buf pos]. pose proof (zlen_nonneg (x :: data)). lia.
  - unfold cost, ahead, from_vec. cbn [buf pos]. rewrite slice_full by lia.
    unfold zlen. destruct (is_full (header_ r)); lia.
  - unfold add_bytes. rewrite Hp. by eexists _, _; split; [|destruct r'].
Qed.

(** A header that announces more than [MAX_PAYLOAD] bytes is dropped together with
    everything that follows it in the same read: no packet is delivered and the reader
    goes back to waiting for a header. *)
Theorem oversized_resets (r : APacketReader) (p data : bytes)
  (Hh : holds r p) (Hp : packets_ r = []) (Hne : data <> [])
  (H24 : 24 <= zlen (p ++ data)) (Hbig : MAX_PAYLOAD < data_length (hdr (p ++ data))) :
  exists r', add_bytes r data = Some (r', []) /\ holds r' [].
Proof.
  assert (wf (from_vec data)) as Hb
    by (unfold wf, from_vec; cbn [buf pos]; pose proof (zlen_nonneg data); lia).
  assert (ahead (from_vec data) = data) as Ha
    by (unfold ahead, from_vec; cbn [buf pos]; by rewrite slice_full by lia).
  destruct (fill_from (header_ r) (from_vec data)) as [hd blk1] eqn:Efill.
  destruct (header_phase _ _ _ _ _ Hh Hb Efill) as (Hwh & Hb1 & Hlh & Hfull).
  rewrite Ha in Hfull. destruct (is_full hd) eqn:Ef; [|lia]. destruct Hfull as (_ & Hbuf & _).
  unfold add_bytes. destruct data as [|x data]; [done|]. cbn [Nat.add process_block].
  rewrite remaining_ahead, Ha by done.
  destruct (Z.eqb_spec (zlen (x :: data)) 0) as [E|]; [by apply zlen_0_nil in E|].
  rewrite Efill, Ef. cbn [negb].
  assert (decode_framing_header (buf hd) = hdr (p ++ x :: data)) as -> by (unfold hdr; by rewrite Hbuf).
  destruct (Z.ltb_spec MAX_PAYLOAD (data_length (hdr (p ++ x :: data)))); [|lia].
  eexists. cbn. rewrite Hp. split; [done|]. by apply (holds_next (set_header r hd)).
Qed.

(** Concrete packets for the witnesses. *)
Definition okay_packet : AdbPacket :=
  {| header := Header.new A_OKAY 1 2 []; payload := [] |}.
Definition write_packet : AdbPacket :=
  {| header := Header.new A_WRTE 1 2 (B "hello"); payload := B "hello" |}.
Definition stream : bytes := packet_bytes write_packet ++ packet_bytes okay_packet.
Definition oversized_header : bytes :=
  packet_bytes {| header := {| command := A_WRTE; arg0 := 0; arg1 := 0;
    data_length := 2097152; data_check := 0; magic := Header.magic_of A_WRTE |}; payload := [] |}.

Lemma sample_packets_ok : Forall packet_ok [write_packet; okay_packet].
Proof. repeat constructor; vm_compute; congruence. Qed.

Lemma feed_refines_framing_witness :
  exists r', feed new [slice 0 10 stream; slice 10 53 stream; B "AB"]
             = Some (r', [write_packet; okay_packet]) /\ holds r' (B "AB").
Proof.
  apply feed_refines_framing.
  replace (concat _) with (packet_bytes write_packet ++ packet_bytes okay_packet ++ B "AB")
    by (vm_compute; reflexivity).
  change [write_packet; okay_packet] with
    [{| header := hdr (packet_bytes write_packet ++ packet_bytes okay_packet ++ B "AB");
        payload := slice 24 29 (packet_bytes write_packet ++ packet_bytes okay_packet ++ B "AB") |};
     {| header := hdr (packet_bytes okay_packet ++ B "AB");
        payload := slice 24 24 (packet_bytes okay_packet ++ B "AB") |}].
  apply framed_packet; [vm_compute; congruence|vm_compute; split; congruence|vm_compute; congruence|].
  apply (framed_packet (packet_bytes okay_packet ++ B "AB"));
    [vm_compute; congruence|vm_compute; split; congruence|vm_compute; congruence|].
  apply (framed_rest (B "AB")). left. reflexivity.
Defined.

Lemma packets_roundtrip_witness :
  exists r', feed new [slice 0 10 stream; slice 10 26 stream; slice 26 53 stream]
             = Some (r', [write_packet; okay_packet]) /\ holds r' [].
Proof. apply packets_roundtrip; [apply sample_packets_ok|vm_compute; reflexivity]. Defined.

Lemma add_bytes_total_witness :
  exists r' ps, add_bytes new oversized_header = Some (r', ps) /\ reader_wf r'.
Proof. apply add_bytes_total. apply reader_wf_new. Defined.

Lemma oversized_resets_witness :
  exists r', add_bytes new (oversized_header ++ stream) = Some (r', []) /\ holds r' [].
Proof.
  apply (oversized_resets new []); [apply holds_new|reflexivity|vm_compute; congruence| |];
    vm_compute; congruence.
Defined.
End ReaderProperties.
