(* ===== verification/ShellV2.v ===== *)
(** The shell v2 packet format ([src/crates/adb-protocol/src/shell_v2.rs]) and the client's
    stream demultiplexer ([drain_shell_v2_stream] of
    [src/crates/adb-fastboot-cli/src/client/shell.rs]). *)
From S2P Require Import Prelude Text.

Definition SHELL_ID_STDIN : byte := x00.
Definition SHELL_ID_STDOUT : byte := x01.
Definition SHELL_ID_STDERR : byte := x02.
Definition SHELL_ID_EXIT : byte := x03.
Definition SHELL_ID_CLOSE_STDIN : byte := x04.
Definition SHELL_ID_WINDOW_SIZE_CHANGE : byte := x05.

Inductive ShellV2Error :=
| HeaderTooShort
| PayloadTooShort (expected got : Z)
| UnknownStreamId (id : byte).

Inductive ShellV2Packet :=
| Stdin (data : bytes)
| Stdout (data : bytes)
| Stderr (data : bytes)
| ExitCode (code : byte)
| CloseStdin
| WindowSizeChange (rows cols : Z).

(** [s.parse::<u16>()] *)
Definition parse_u16 (s : bytes) : option Z := parse_uint 10 65535 s.

Definition parse_window_size (payload : bytes) : Z * Z :=
  if is_utf8 payload then
    let s := trim (trim_byte x00 payload) in
    let main_part := default [] (head (split_on ","%byte s)) in
    let parts := split_on "x"%byte main_part in
    let rows := default 0 (parts !! 0%nat ≫= parse_u16) in
    let cols := default 0 (parts !! 1%nat ≫= parse_u16) in
    (rows, cols)
  else (0, 0).

Module ShellV2Packet.
Definition parse (buf : bytes) : res ShellV2Error (ShellV2Packet * Z) :=
  if zlen buf <? 5 then Err HeaderTooShort else
  let! id := get_index buf 0 in
  let! len := read_u32 buf 1 in
  if zlen buf <? 5 + len then Err (PayloadTooShort (5 + len) (zlen buf)) else
  let! payload := get_slice buf 5 (5 + len) in
  let consumed := 5 + len in
  if beqb id SHELL_ID_STDIN then Ok (Stdin payload, consumed)
  else if beqb id SHELL_ID_STDOUT then Ok (Stdout payload, consumed)
  else if beqb id SHELL_ID_STDERR then Ok (Stderr payload, consumed)
  else if beqb id SHELL_ID_EXIT then Ok (ExitCode (default x00 (head payload)), consumed)
  else if beqb id SHELL_ID_CLOSE_STDIN then Ok (CloseStdin, consumed)
  else if beqb id SHELL_ID_WINDOW_SIZE_CHANGE then
    let '(rows, cols) := parse_window_size payload in Ok (WindowSizeChange rows cols, consumed)
  else Err (UnknownStreamId id).

(** [(n as u32).to_le_bytes()] *)
Definition len_bytes (n : Z) : bytes := le_bytes 4 n.

Definition encode (p : ShellV2Packet) (out : bytes) : bytes :=
  match p with
  | Stdin data => out ++ [SHELL_ID_STDIN] ++ len_bytes (zlen data) ++ data
  | Stdout data => out ++ [SHELL_ID_STDOUT] ++ len_bytes (zlen data) ++ data
  | Stderr data => out ++ [SHELL_ID_STDERR] ++ len_bytes (zlen data) ++ data
  | ExitCode code => out ++ [SHELL_ID_EXIT] ++ len_bytes 1 ++ [code]
  | CloseStdin => out ++ [SHELL_ID_CLOSE_STDIN] ++ len_bytes 0
  | WindowSizeChange rows cols =>
      let data := fmt_dec rows ++ B "x" ++ fmt_dec cols ++ [x00] in
      out ++ [SHELL_ID_WINDOW_SIZE_CHANGE] ++ len_bytes (zlen data) ++ data
  end.

(** The payload lengths fit the 32-bit length field; window sizes are [u16]. *)
Definition ok (p : ShellV2Packet) : Prop :=
  match p with
  | Stdin d | Stdout d | Stderr d => zlen d < 2 ^ 32
  | WindowSizeChange rows cols => u16 rows /\ u16 cols
  | _ => True
  end.
End ShellV2Packet.

(** ** [drain_shell_v2_stream]

    The caller's buffer, capture and exit code, and what has been written to the terminal
    ([true] marks stderr), in order; the terminal accepts every write. *)
Record ShellStream := {
  remainder : bytes;
  captured : option bytes;
  exit_code : option byte;
  terminal : list (bool * bytes);
}.

Module ShellStream.
Definition consume (s : ShellStream) (n : Z) : ShellStream :=
  {| remainder := slice n (zlen (remainder s)) (remainder s); captured := captured s;
     exit_code := exit_code s; terminal := terminal s |}.

(** The arm of the [match] on a parsed packet. *)
Definition dispatch (s : ShellStream) (p : ShellV2Packet) : ShellStream :=
  match p with
  | Stdout data =>
      {| remainder := remainder s; captured := (fun b => b ++ data) <$> captured s;
         exit_code := exit_code s; terminal := terminal s ++ [(false, data)] |}
  | Stderr data =>
      {| remainder := remainder s; captured := (fun b => b ++ data) <$> captured s;
         exit_code := exit_code s; terminal := terminal s ++ [(true, data)] |}
  | ExitCode code =>
      {| remainder := remainder s; captured := captured s; exit_code := Some code;
         terminal := terminal s |}
  | _ => s
  end.

(** The loop; [None] is fuel exhaustion or a panic. Every iteration removes at least five
    bytes, so one level per byte is enough. *)
Fixpoint drain_go (fuel : nat) (s : ShellStream) : option ShellStream :=
  match fuel with
  | O => None
  | S fuel =>
      match ShellV2Packet.parse (remainder s) with
      | Ok (pkt, consumed) => drain_go fuel (consume (dispatch s pkt) consumed)
      | Err HeaderTooShort | Err (PayloadTooShort _ _) => Some s
      | Err (UnknownStreamId _) =>
          match @read_u32 ShellV2Error (remainder s) 1 with
          | Ok len => drain_go fuel (consume s (5 + len))
          | _ => None
          end
      | Panic => None
      end
  end.

Definition drain_shell_v2_stream (s : ShellStream) : option ShellStream :=
  drain_go (S (length (remainder s))) s.

(** A WRTE frame arrives: the buffer is extended, then drained. *)
Definition extend (s : ShellStream) (frame : bytes) : ShellStream :=
  {| remainder := remainder s ++ frame; captured := captured s; exit_code := exit_code s;
     terminal := terminal s |}.

Fixpoint receive (s : ShellStream) (frames : list bytes) : option ShellStream :=
  match frames with
  | [] => Some s
  | f :: fs => match drain_shell_v2_stream (extend s f) with
               | Some s => receive s fs
               | None => None
               end
  end.
End ShellStream.

Section ShellFacts.
Import ShellV2Packet.

(** The packet a complete frame denotes. *)
Definition decode_body (id : byte) (payload : bytes) : option ShellV2Packet :=
  if beqb id SHELL_ID_STDIN then Some (Stdin payload)
  else if beqb id SHELL_ID_STDOUT then Some (Stdout payload)
  else if beqb id SHELL_ID_STDERR then Some (Stderr payload)
  else if beqb id SHELL_ID_EXIT then Some (ExitCode (default x00 (head payload)))
  else if beqb id SHELL_ID_CLOSE_STDIN then Some CloseStdin
  else if beqb id SHELL_ID_WINDOW_SIZE_CHANGE then
    let '(rows, cols) := parse_window_size payload in Some (WindowSizeChange rows cols)
  else None.

Definition frame_len (buf : bytes) : Z := le_val (slice 1 5 buf).

Lemma frame_len_range buf : 0 <= frame_len buf.
Proof. apply le_val_range. Qed.

(** [parse] case by case, with its checked accesses discharged. *)
Lemma parse_eq buf :
  parse buf =
    match buf with
    | id :: _ =>
        if zlen buf <? 5 then Err HeaderTooShort
        else if zlen buf <? 5 + frame_len buf then Err (PayloadTooShort (5 + frame_len buf) (zlen buf))
        else match decode_body id (slice 5 (5 + frame_len buf) buf) with
             | Some p => Ok (p, 5 + frame_len buf)
             | None => Err (UnknownStreamId id)
             end
    | [] => Err HeaderTooShort
    end.
Proof.
  unfold parse. destruct buf as [|id t]; [done|].
  destruct (Z.ltb_spec (zlen (id :: t)) 5); [done|].
  cbn [get_index res_bind]. change (get_index (id :: t) 0) with (@Ok ShellV2Error byte id).
  cbn [res_bind]. unfold read_u32. rewrite read_le_ok by lia. cbn [res_bind].
  change (le_val (slice 1 (1 + Z.of_nat 4) (id :: t))) with (frame_len (id :: t)).
  pose proof (frame_len_range (id :: t)).
  destruct (Z.ltb_spec (zlen (id :: t)) (5 + frame_len (id :: t))); [done|].
  rewrite get_slice_ok by lia. cbn [res_bind]. unfold decode_body.
  repeat (destruct (beqb id _); [done|]). destruct (beqb id _); [|done].
  by destruct (parse_window_size _).
Qed.

(** Extending a buffer that holds a complete frame does not change the result. *)
Lemma frame_len_app a b : 5 <= zlen a -> frame_len (a ++ b) = frame_len a.
Proof. intros. unfold frame_len. by rewrite slice_app_l by lia. Qed.

Lemma parse_app a b :
  5 <= zlen a -> 5 + frame_len a <= zlen a -> parse (a ++ b) = parse a.
Proof.
  intros H5 Hl. rewrite !parse_eq. destruct a as [|id t]; [by rewrite zlen_nil in H5|].
  pose proof (zlen_nonneg b). pose proof (zlen_app (id :: t) b) as Hz.
  change ((id :: t) ++ b) with (id :: t ++ b) at 1.
  rewrite frame_len_app by done. rewrite Hz.
  repeat (zcase; try lia). by rewrite (slice_app_l _ _ (id :: t)) by lia.
Qed.

(** Reading back a frame made of an id, a length and that many bytes. *)
Lemma parse_frame id data rest :
  zlen data < 2 ^ 32 ->
  parse (id :: len_bytes (zlen data) ++ data ++ rest) =
    match decode_body id data with
    | Some p => Ok (p, 5 + zlen data)
    | None => Err (UnknownStreamId id)
    end.
Proof.
  intros Hd. pose proof (zlen_nonneg data). pose proof (zlen_nonneg rest).
  change (id :: _) with ([id] ++ len_bytes (zlen data) ++ data ++ rest).
  set (buf := [id] ++ _).
  assert (zlen buf = 5 + zlen data + zlen rest) as Hz by (unfold buf, len_bytes; zg).
  assert (frame_len buf = zlen data) as Hf.
  { unfold frame_len, buf. rewrite slice_app_here by (unfold len_bytes; zg).
    apply le_val_bytes_id. unfold uint. cbn. lia. }
  rewrite parse_eq. change buf with (id :: len_bytes (zlen data) ++ data ++ rest) at 1.
  rewrite Hf, Hz. repeat (zcase; try lia).
  assert (slice 5 (5 + zlen data) buf = data) as ->; [|done].
  unfold buf. rewrite app_assoc. apply slice_app_here; unfold len_bytes; zg.
Qed.


(** The payload written for a window size is read back. *)
Lemma parse_window_size_encode rows cols :
  u16 rows -> u16 cols ->
  parse_window_size (fmt_dec rows ++ B "x" ++ fmt_dec cols ++ [x00]) = (rows, cols).
Proof.
  unfold u16, uint. intros Hr Hc. unfold parse_window_size.
  rewrite ascii_utf8; cycle 1.
  { unfold ascii. rewrite !Forall_app. repeat split; try apply fmt_dec_ascii; by repeat constructor. }
  destruct (fmt_dec_front rows) as (a & m & Ea & Ha), (fmt_dec_back cols) as (m' & z & Ez & Hz).
  assert (forall c, plain c -> c <> x00) as Hnz by (intros c Hc' ->; unfold plain in Hc'; cbn in Hc'; lia).
  assert (fmt_dec rows ++ B "x" ++ fmt_dec cols = a :: (m ++ B "x" ++ m') ++ [z]) as E
    by (rewrite Ea, Ez; cbn [app]; by rewrite <-!app_assoc).
  replace (fmt_dec rows ++ B "x" ++ fmt_dec cols ++ [x00])
    with (a :: (m ++ B "x" ++ m') ++ [z; x00]); cycle 1.
  { rewrite Ea, Ez. cbn [app]. by rewrite <-!app_assoc. }
  rewrite trim_byte_one by auto. rewrite trim_plain by done. rewrite <-E.
  assert (","%byte ∉ fmt_dec rows ++ B "x" ++ fmt_dec cols) as Hcomma.
  { rewrite !elem_of_app. intros [Hi|[Hi|Hi]]; revert Hi; try (apply fmt_dec_not_z; cbn; lia).
    by intros Hi%list_elem_of_singleton. }
  rewrite (split_on_none ","%byte) by done. cbn [default head].
  change (B "x" ++ fmt_dec cols) with ("x"%byte :: fmt_dec cols). cbv zeta.
  unfold default, id. cbn [head].
  rewrite (split_on_app _ (fmt_dec rows)), split_on_none by (apply fmt_dec_not_z; cbn; lia).
  cbn. unfold parse_u16. by rewrite !parse_fmt_dec by lia.
Qed.

Lemma parse_frame_ok id data rest p :
  zlen data < 2 ^ 32 -> decode_body id data = Some p ->
  parse ((id :: len_bytes (zlen data) ++ data) ++ rest)
    = Ok (p, zlen (id :: len_bytes (zlen data) ++ data)).
Proof.
  intros Hd Hp. rewrite <-app_comm_cons, <-app_assoc, parse_frame, Hp by done.
  do 2 f_equal. unfold len_bytes. zg.
Qed.

Lemma window_payload_short rows cols :
  u16 rows -> u16 cols -> zlen (fmt_dec rows ++ B "x" ++ fmt_dec cols ++ [x00]) < 2 ^ 32.
Proof.
  unfold u16, uint. intros.
  pose proof (length_digits_go 20 10 rows [] 5). pose proof (length_digits_go 20 10 cols [] 5).
  rewrite !zlen_app. change (zlen (B "x")) with 1. change (zlen [x00]) with 1.
  change (length []) with 0%nat in *. fold (fmt_dec rows) (fmt_dec cols) in *. unfold zlen. lia.
Qed.

Lemma parse_encode p rest :
  ok p -> parse (encode p [] ++ rest) = Ok (p, zlen (encode p [])).
Proof.
  destruct p as [d|d|d|c| |rows cols]; cbn [ok].
  1-3: intros Hd; by apply (parse_frame_ok _ d).
  - intros _. by apply (parse_frame_ok SHELL_ID_EXIT [c]).
  - intros _. by apply (parse_frame_ok SHELL_ID_CLOSE_STDIN []).
  - intros [Hr Hc]. apply parse_frame_ok; [by apply window_payload_short|].
    unfold decode_body. cbn -[parse_window_size app B]. by rewrite parse_window_size_encode.
Qed.

(** ** The demultiplexer *)
Import ShellStream.

Lemma consume_dispatch_extend s p n b :
  0 <= n <= zlen (remainder s) ->
  consume (dispatch (extend s b) p) n = extend (consume (dispatch s p) n) b.
Proof.
  intros Hn. pose proof (zlen_nonneg b).
  assert (slice n (zlen (remainder s ++ b)) (remainder s ++ b)
          = slice n (zlen (remainder s)) (remainder s) ++ b) as E.
  { rewrite zlen_app. rewrite (slice_cut n (zlen (remainder s)) _ (remainder s ++ b)) by zg.
    rewrite slice_app_l by lia. f_equal. rewrite slice_app_r by lia.
    rewrite Z.sub_diag. apply slice_full. lia. }
  by destruct p; unfold consume, extend; cbn [dispatch remainder captured exit_code terminal]; rewrite E.
Qed.

Lemma consume_extend s n b :
  0 <= n <= zlen (remainder s) -> consume (extend s b) n = extend (consume s n) b.
Proof. apply (consume_dispatch_extend s CloseStdin). Qed.

Lemma remainder_dispatch s p : remainder (dispatch s p) = remainder s.
Proof. by destruct p. Qed.

Lemma consume_shorter s n :
  5 <= n <= zlen (remainder s) -> (length (remainder (consume s n)) < length (remainder s))%nat.
Proof. intros Hn. cbn [consume remainder]. pose proof (zlen_slice n (zlen (remainder s)) (remainder s)).
  unfold zlen in *. lia. Qed.

(** What one iteration of the loop does: stop, or consume a whole frame. *)
Inductive round (s : ShellStream) : option ShellStream -> Prop :=
| round_stop e :
    parse (remainder s) = Err e -> (e = HeaderTooShort \/ exists x y, e = PayloadTooShort x y) ->
    round s None
| round_packet p :
    parse (remainder s) = Ok (p, 5 + frame_len (remainder s)) ->
    5 + frame_len (remainder s) <= zlen (remainder s) -> 5 <= zlen (remainder s) ->
    round s (Some (consume (dispatch s p) (5 + frame_len (remainder s))))
| round_skip id :
    parse (remainder s) = Err (UnknownStreamId id) ->
    5 + frame_len (remainder s) <= zlen (remainder s) -> 5 <= zlen (remainder s) ->
    round s (Some (consume s (5 + frame_len (remainder s)))).

Lemma drain_round s :
  exists o, round s o /\
    forall fuel, drain_go (S fuel) s = match o with None => Some s | Some s' => drain_go fuel s' end.
Proof.
  pose proof (parse_eq (remainder s)) as HP. destruct (remainder s) as [|id t] eqn:Er.
  { exists None. split; [by eapply round_stop; [rewrite Er; exact HP|left]|].
    intros. cbn [drain_go]. by rewrite Er, HP. }
  rewrite <-Er in *. destruct (Z.ltb_spec (zlen (remainder s)) 5).
  { exists None. split; [by eapply round_stop; [exact HP|left]|].
    intros. cbn [drain_go]. by rewrite HP. }
  destruct (Z.ltb_spec (zlen (remainder s)) (5 + frame_len (remainder s))).
  { exists None. split; [by eapply round_stop; [exact HP|right; eauto]|].
    intros. cbn [drain_go]. by rewrite HP. }
  destruct (decode_body id _) as [p|].
  - eexists. split; [by apply (round_packet s p)|]. intros. cbn [drain_go]. by rewrite HP.
  - eexists. split; [by apply (round_skip s id)|]. intros. cbn [drain_go]. rewrite HP.
    unfold read_u32. by rewrite read_le_ok by lia.
Qed.

Lemma round_shorter s s' : round s (Some s') -> (length (remainder s') < length (remainder s))%nat.
Proof.
  pose proof (frame_len_range (remainder s)).
  inversion 1; subst.
  - rewrite <-(remainder_dispatch s p) at 2. apply consume_shorter.
    rewrite remainder_dispatch. lia.
  - apply consume_shorter. lia.
Qed.

Lemma drain_total fuel s :
  (length (remainder s) < fuel)%nat -> exists s', drain_go fuel s = Some s'.
Proof.
  revert s. induction fuel as [|fuel IH]; intros s Hf; [lia|].
  destruct (drain_round s) as ([s'|] & Hr & ->); [|eauto].
  apply IH. apply round_shorter in Hr. lia.
Qed.

Lemma drain_mono f f' s s' : drain_go f s = Some s' -> (f <= f')%nat -> drain_go f' s = Some s'.
Proof.
  revert f' s. induction f as [|f IH]; intros f' s Hd Hle; [done|].
  destruct f' as [|f']; [lia|]. destruct (drain_round s) as ([t|] & _ & E); rewrite E in *; [|done].
  apply IH; [done|lia].
Qed.

(** More fuel than bytes gives the result of [drain_shell_v2_stream]. *)
Lemma drain_shell_eq f s s' : drain_go f s = Some s' -> drain_shell_v2_stream s = Some s'.
Proof.
  intros Hd. unfold drain_shell_v2_stream.
  destruct (drain_total (S (length (remainder s))) s) as [t Ht]; [lia|].
  pose proof (drain_mono _ (f + S (length (remainder s))) _ _ Hd ltac:(lia)).
  pose proof (drain_mono _ (f + S (length (remainder s))) _ _ Ht ltac:(lia)). congruence.
Qed.

(** A whole frame at the front is processed the same way whatever follows it. *)
Lemma round_extend s s' b : round s (Some s') ->
  forall fuel, drain_go (S fuel) (extend s b) = drain_go fuel (extend s' b).
Proof.
  intros Hr fuel. pose proof (frame_len_range (remainder s)). pose proof (zlen_nonneg b).
  inversion Hr as [|p HP H1 H2|id HP H1 H2]; subst; cbn [drain_go].
  - cbn [extend remainder]. rewrite parse_app, HP by lia.
    change {| remainder := _ |} with (extend s b). by rewrite consume_dispatch_extend by lia.
  - cbn [extend remainder]. rewrite parse_app, HP by lia.
    change {| remainder := _ |} with (extend s b). unfold read_u32. rewrite read_le_ok by zg.
    change (le_val _) with (frame_len (remainder s ++ b)).
    by rewrite frame_len_app, consume_extend by lia.
Qed.

Lemma drain_then f f' s s1 s2 b :
  drain_go f s = Some s1 -> drain_go f' (extend s1 b) = Some s2 ->
  drain_go (f + f') (extend s b) = Some s2.
Proof.
  revert s. induction f as [|f IH]; intros s Hd Hd'; [done|].
  destruct (drain_round s) as ([t|] & Hr & E); rewrite E in Hd.
  - cbn [Nat.add]. rewrite (round_extend _ _ _ Hr). by apply IH.
  - simplify_eq. apply (drain_mono f'); [done|lia].
Qed.

Lemma extend_nil s : extend s [] = s.
Proof. destruct s. unfold extend. cbn. by rewrite app_nil_r. Qed.

Lemma extend_extend s a b : extend (extend s a) b = extend s (a ++ b).
Proof. unfold extend. cbn. by rewrite app_assoc. Qed.

Lemma drain_drain s s1 b :
  drain_shell_v2_stream s = Some s1 ->
  drain_shell_v2_stream (extend s1 b) = drain_shell_v2_stream (extend s b).
Proof.
  intros Hd. destruct (drain_total (S (length (remainder (extend s1 b)))) (extend s1 b)) as [s2 H2]; [lia|].
  pose proof (drain_then _ _ _ _ _ _ Hd H2) as H3.
  by rewrite (drain_shell_eq _ _ _ H2), (drain_shell_eq _ _ _ H3).
Qed.

Lemma receive_concat s f fs :
  receive s (f :: fs) = drain_shell_v2_stream (extend s (f ++ concat fs)).
Proof.
  revert s f. induction fs as [|g fs IH]; intros s f.
  { cbn [receive concat]. rewrite app_nil_r. by destruct (drain_shell_v2_stream _). }
  cbn [concat]. rewrite <-extend_extend.
  change (receive s (f :: g :: fs)) with
    (match drain_shell_v2_stream (extend s f) with Some s => receive s (g :: fs) | None => None end).
  destruct (drain_total (S (length (remainder (extend s f)))) (extend s f)) as [s1 H1]; [lia|].
  change (drain_go _ (extend s f)) with (drain_shell_v2_stream (extend s f)) in H1.
  rewrite H1, IH. by apply drain_drain.
Qed.

(** ** What a stream of packets shows *)
Definition output (p : ShellV2Packet) : option (bool * bytes) :=
  match p with Stdout d => Some (false, d) | Stderr d => Some (true, d) | _ => None end.
Definition exit_status (p : ShellV2Packet) : option byte :=
  match p with ExitCode c => Some c | _ => None end.

(** The stream state after the packets [ps]: the outputs in order, the last exit code. *)
Definition shown (s : ShellStream) (ps : list ShellV2Packet) : ShellStream :=
  {| remainder := [];
     captured := (fun b => b ++ concat (map snd (omap output ps))) <$> captured s;
     exit_code := match list.last (omap exit_status ps) with Some c => Some c | None => exit_code s end;
     terminal := terminal s ++ omap output ps |}.

Definition encode_all (ps : list ShellV2Packet) : bytes := concat (map (fun p => encode p []) ps).

Lemma shown_cons s p ps : shown (dispatch s p) ps = shown s (p :: ps).
Proof.
  unfold shown. f_equal.
  - destruct p, (captured s) as [c|] eqn:E; cbn; rewrite ?E; cbn; by rewrite <-?app_assoc.
  - destruct p; try done. cbn [omap list_omap exit_status]. rewrite last_cons. by destruct (list.last _).
  - destruct p; cbn; by rewrite <-?app_assoc.
Qed.

Lemma drain_step fuel s p n :
  parse (remainder s) = Ok (p, n) -> drain_go (S fuel) s = drain_go fuel (consume (dispatch s p) n).
Proof. intros E. cbn [drain_go]. by rewrite E. Qed.

Lemma drain_packets ps s :
  Forall ok ps -> remainder s = [] ->
  drain_go (S (length ps)) (extend s (encode_all ps)) = Some (shown s ps).
Proof.
  intros Hok. revert s. induction Hok as [|p ps Hp _ IH]; intros s Hs.
  { unfold shown. rewrite extend_nil. cbn [drain_go]. rewrite Hs.
    change (parse []) with (@Err ShellV2Error (ShellV2Packet * Z) HeaderTooShort).
    cbn. destruct s as [? [c|] ? ?]; cbn in *; by rewrite ?app_nil_r, Hs. }
  change (encode_all (p :: ps)) with (encode p [] ++ encode_all ps).
  change (length (p :: ps)) with (S (length ps)).
  rewrite <-shown_cons, <-(IH (dispatch s p)) by (by rewrite remainder_dispatch).
  rewrite (drain_step _ _ p (zlen (encode p []))); cycle 1.
  { cbn [extend remainder]. rewrite Hs. by apply parse_encode. }
  f_equal. unfold consume, extend. rewrite !remainder_dispatch. cbn [remainder]. rewrite Hs.
  cbn [app]. f_equal; try by destruct p.
  rewrite slice_app_r, zlen_app by lia. rewrite Z.sub_diag. apply slice_full. lia.
Qed.
End ShellFacts.

(** Reading a shell v2 packet back. For every packet whose payload length fits the 32-bit
    field (window sizes being 16-bit), [parse] on the encoding followed by arbitrary further
    bytes returns the packet and exactly the number of bytes [encode] appended. *)
Theorem shell_v2_roundtrip p rest :
  ShellV2Packet.ok p ->
  ShellV2Packet.parse (ShellV2Packet.encode p [] ++ rest) = Ok (p, zlen (ShellV2Packet.encode p [])).
Proof. apply parse_encode. Qed.

Lemma shell_v2_roundtrip_witness :
  ShellV2Packet.ok (WindowSizeChange 24 80) /\
  ShellV2Packet.parse (ShellV2Packet.encode (WindowSizeChange 24 80) [] ++ B "tail")
    = Ok (WindowSizeChange 24 80, 11).
Proof.
  assert (ShellV2Packet.ok (WindowSizeChange 24 80)) as H by (split; unfold u16, uint; lia).
  split; [done|]. exact (shell_v2_roundtrip (WindowSizeChange 24 80) (B "tail") H).
Defined.

(** [parse] never panics, and its three outcomes are exactly: fewer than five bytes; fewer
    bytes than the header announces; a whole frame. A whole frame is accepted precisely when its
    id is known, the bytes consumed are within the buffer, and the result does not depend on the
    bytes after the frame. *)
Theorem shell_v2_parse_total buf :
  match ShellV2Packet.parse buf with
  | Ok (p, n) =>
      5 <= n <= zlen buf /\ n = 5 + frame_len buf /\
      forall rest, ShellV2Packet.parse (slice 0 n buf ++ rest) = Ok (p, n)
  | Err HeaderTooShort => zlen buf < 5
  | Err (PayloadTooShort expected got) =>
      5 <= zlen buf /\ got = zlen buf /\ expected = 5 + frame_len buf /\ got < expected
  | Err (UnknownStreamId id) =>
      5 + frame_len buf <= zlen buf /\ head buf = Some id /\ 5 < b2z id
  | Panic => False
  end.
Proof.
  pose proof (frame_len_range buf) as H0. rewrite parse_eq. destruct buf as [|id t]; [done|].
  destruct (Z.ltb_spec (zlen (id :: t)) 5); [done|].
  destruct (Z.ltb_spec (zlen (id :: t)) (5 + frame_len (id :: t))); [lia|].
  pose proof (parse_eq (id :: t)) as HP.
  rewrite (proj2 (Z.ltb_ge _ _)) in HP by done. rewrite (proj2 (Z.ltb_ge _ _)) in HP by done.
  destruct (decode_body id _) as [p|] eqn:Hd.
  - split; [lia|]. split; [done|]. intros rest. rewrite <-HP.
    set (n := 5 + frame_len (id :: t)) in *. set (buf := id :: t) in *.
    assert (frame_len (slice 0 n buf) = frame_len buf) as Hf
      by (unfold frame_len; rewrite slice_slice by lia; done).
    rewrite parse_app by (rewrite ?Hf, zlen_slice; lia).
    rewrite <-(parse_app (slice 0 n buf) (slice n (zlen buf) buf)) by (rewrite ?Hf, zlen_slice; lia).
    f_equal. rewrite <-(slice_cut 0 n (zlen buf) buf) by lia. apply slice_full. lia.
  - split; [lia|]. split; [done|]. revert Hd. unfold decode_body.
    clear. destruct id; try done; by destruct (parse_window_size _).
Qed.

(** However the device splits the shell stream into WRTE payloads, the client shows the
    same thing: receiving the frames one by one ends in exactly the state of draining their
    concatenation once, and the loop terminates on every input. *)
Theorem shell_receive_chunking s f fs :
  ShellStream.receive s (f :: fs)
    = ShellStream.drain_shell_v2_stream (ShellStream.extend s (f ++ concat fs)) /\
  exists s', ShellStream.receive s (f :: fs) = Some s'.
Proof. split; [apply receive_concat|]. rewrite receive_concat. apply drain_total. lia. Qed.

(** End to end, the packets a device encodes, cut into WRTE payloads in any way, leave the
    client with every stdout and stderr payload written in order to its own stream, all of them
    appended to the capture, the last exit code recorded and no byte left over. *)
Theorem shell_stream_delivery s ps f fs :
  Forall ShellV2Packet.ok ps -> remainder s = [] -> f ++ concat fs = encode_all ps ->
  ShellStream.receive s (f :: fs) = Some (shown s ps).
Proof.
  intros Hok Hs E. rewrite receive_concat, E. eapply drain_shell_eq. by apply drain_packets.
Qed.

Lemma shell_stream_delivery_witness :
  let s := {| remainder := []; captured := Some []; exit_code := None; terminal := [] |} in
  let ps := [Stdout (B "ok"); Stderr (B "bad"); ExitCode x03] in
  ShellStream.receive s [slice 0 3 (encode_all ps); slice 3 16 (encode_all ps); slice 16 30 (encode_all ps)]
    = Some (shown s ps).
Proof.
  apply shell_stream_delivery; [by repeat constructor|done|by vm_compute].
Defined.
