(* ===== verification/SyncWire.v ===== *)
(** The file sync protocol ([src/crates/adb-protocol/src/sync.rs]) and the selection of its
    compression ([compress.rs]): message headers, stat and directory entry structures, request
    builders and the sendrecv_v2 encoder and decoder.

    The compression libraries (brotli, lz4_flex, zstd) are the class [Codecs]; what the round
    trip relies on is the class [CodecLaws]. *)
From S2P Require Import Prelude Text Wire AdbHeader.

Definition SYNC_STAT : Z := 0x54415453.
Definition SYNC_LIST : Z := 0x5453494C.
Definition SYNC_SEND : Z := 0x444E4553.
Definition SYNC_RECV : Z := 0x56434552.
Definition SYNC_DENT : Z := 0x544E4544.
Definition SYNC_DONE : Z := 0x454E4F44.
Definition SYNC_DATA : Z := 0x41544144.
Definition SYNC_FAIL : Z := 0x4C494146.
Definition SYNC_OKAY : Z := 0x59414B4F.
Definition SYNC_SEND_V2 : Z := 0x32444E53.
Definition SYNC_RECV_V2 : Z := 0x32505643.
Definition SYNC_FLAG_NONE : Z := 0.
Definition SYNC_FLAG_BROTLI : Z := 1.
Definition SYNC_FLAG_LZ4 : Z := 2.
Definition SYNC_FLAG_ZSTD : Z := 4.
Definition SYNC_FLAG_DRY_RUN : Z := 0x80000000.
Definition SYNC_DATA_MAX : Z := 64 * 1024.

Inductive SyncProtocolError :=
| HeaderTooShort (expected got : Z)
| SyncFail (msg : bytes)
| InvalidPath (msg : bytes)
| InvalidMessage (msg : bytes)
| UnsupportedCompression (flags : Z).

Abbreviation sync A := (res SyncProtocolError A).

(** [u32::try_from(n)] *)
Definition try_u32 {E} (n : Z) (e : E) : res E Z := if n <=? u32_max then Ok n else Err e.

Definition validate_path (path : bytes) (allow_comma : bool) : sync unit :=
  if zlen path =? 0 then Err (InvalidPath (B "Path cannot be empty"))
  else if contains x00 path then Err (InvalidPath (B "Path cannot contain NUL byte"))
  else if negb allow_comma && contains ","%byte path
  then Err (InvalidPath (B "Path cannot contain ',' in V1 SEND request"))
  else if negb (zlen path <=? u32_max) then Err (InvalidPath (B "Path length exceeds u32::MAX"))
  else Ok tt.

Definition saturating_mtime_u32 (mtime : Z) : Z :=
  if mtime <? 0 then 0 else if mtime <=? u32_max then mtime else u32_max.

(** ** [SyncMessageHeader] *)
Module SyncMessageHeader.
Record t := { id : Z; length : Z }.
Definition SIZE : Z := 8.
Definition new (id length : Z) : t := {| id := id; length := length |}.
Definition encode (h : t) (out : bytes) : bytes :=
  write_u32 4 (length h) (write_u32 0 (id h) out).
Definition decode (buf : bytes) : sync t :=
  if zlen buf <? SIZE then Err (HeaderTooShort SIZE (zlen buf)) else
  let! id := read_u32 buf 0 in
  let! length := read_u32 buf 4 in
  Ok {| id := id; length := length |}.
Definition typed (h : t) : Prop := u32 (id h) /\ u32 (length h).
(** [let mut hdr_buf = [0u8; 8]; hdr.encode(&mut hdr_buf)] *)
Definition hdr_buf (h : t) : bytes := encode h (zrep 8 x00).
End SyncMessageHeader.

(** ** [SyncStatResponse] *)
Module SyncStatResponse.
Record t := { mode : Z; size : Z; mtime : Z }.
Definition SIZE : Z := 12.
Definition WIRE_SIZE : Z := 4 + SIZE.
Definition exists_ (s : t) : bool := negb (mode s =? 0) || negb (size s =? 0) || negb (mtime s =? 0).
Definition decode (buf : bytes) : sync t :=
  if zlen buf <? SIZE then Err (HeaderTooShort SIZE (zlen buf)) else
  let! mode := read_u32 buf 0 in
  let! size := read_u32 buf 4 in
  let! mtime := read_u32 buf 8 in
  Ok {| mode := mode; size := size; mtime := mtime |}.
Definition encode (s : t) (out : bytes) : bytes :=
  let out := write_u32 0 (mode s) out in
  let out := write_u32 4 (size s) out in
  write_u32 8 (mtime s) out.
Definition decode_v1_message (buf : bytes) : sync t :=
  if zlen buf <? WIRE_SIZE then Err (HeaderTooShort WIRE_SIZE (zlen buf)) else
  let! magic := get_slice buf 0 4 in
  if negb (zlen buf =? WIRE_SIZE) || negb (bool_decide (magic = B "STAT"))
  then Err (InvalidMessage (B "V1 STAT must be exactly [STAT, mode, size, mtime] (16 bytes)")) else
  let! fields := get_slice buf 4 (zlen buf) in
  decode fields.
Definition typed (s : t) : Prop := u32 (mode s) /\ u32 (size s) /\ u32 (mtime s).
End SyncStatResponse.

(** ** [SyncStatV2Response] *)
Module SyncStatV2Response.
Record t := {
  id : Z; error : Z; dev : Z; ino : Z; mode : Z; nlink : Z; uid : Z; gid : Z; size : Z;
  atime : Z; mtime : Z; ctime : Z;
}.
Definition SIZE : Z := 72.
Definition is_ok (s : t) : bool := error s =? 0.
Definition mtime_u32 (s : t) : Z := saturating_mtime_u32 (mtime s).
Definition decode (buf : bytes) : sync t :=
  if zlen buf <? SIZE then Err (HeaderTooShort SIZE (zlen buf)) else
  let! id := read_u32 buf 0 in
  let! error := read_u32 buf 4 in
  let! dev := read_u64 buf 8 in
  let! ino := read_u64 buf 16 in
  let! mode := read_u32 buf 24 in
  let! nlink := read_u32 buf 28 in
  let! uid := read_u32 buf 32 in
  let! gid := read_u32 buf 36 in
  let! size := read_u64 buf 40 in
  let! atime := read_i64 buf 48 in
  let! mtime := read_i64 buf 56 in
  let! ctime := read_i64 buf 64 in
  Ok {| id := id; error := error; dev := dev; ino := ino; mode := mode; nlink := nlink;
        uid := uid; gid := gid; size := size; atime := atime; mtime := mtime; ctime := ctime |}.
Definition encode (s : t) (out : bytes) : bytes :=
  let out := write_u32 0 (id s) out in
  let out := write_u32 4 (error s) out in
  let out := write_u64 8 (dev s) out in
  let out := write_u64 16 (ino s) out in
  let out := write_u32 24 (mode s) out in
  let out := write_u32 28 (nlink s) out in
  let out := write_u32 32 (uid s) out in
  let out := write_u32 36 (gid s) out in
  let out := write_u64 40 (size s) out in
  let out := write_i64 48 (atime s) out in
  let out := write_i64 56 (mtime s) out in
  write_i64 64 (ctime s) out.
Definition typed (s : t) : Prop :=
  u32 (id s) /\ u32 (error s) /\ u64 (dev s) /\ u64 (ino s) /\ u32 (mode s) /\ u32 (nlink s) /\
  u32 (uid s) /\ u32 (gid s) /\ u64 (size s) /\ i64 (atime s) /\ i64 (mtime s) /\ i64 (ctime s).
End SyncStatV2Response.

(** ** Directory entries *)
Module SyncDentResponse.
Record t := { id : Z; mode : Z; size : Z; mtime : Z; namelen : Z; name : bytes }.
Definition HEADER_SIZE : Z := 20.
Definition decode (buf : bytes) : sync t :=
  if zlen buf <? HEADER_SIZE then Err (HeaderTooShort HEADER_SIZE (zlen buf)) else
  let! id := read_u32 buf 0 in
  let! mode := read_u32 buf 4 in
  let! size := read_u32 buf 8 in
  let! mtime := read_u32 buf 12 in
  let! namelen := read_u32 buf 16 in
  let total := HEADER_SIZE + namelen in
  if usize_max <? total
  then Err (InvalidMessage (B "Directory entry namelen addition overflowed")) else
  if zlen buf <? total then Err (HeaderTooShort total (zlen buf)) else
  let! raw := get_slice buf 20 total in
  Ok {| id := id; mode := mode; size := size; mtime := mtime; namelen := namelen;
        name := from_utf8_lossy raw |}.
Definition total_size (d : t) : Z := Z.min usize_max (HEADER_SIZE + namelen d).
Definition encode (d : t) (out : bytes) : sync bytes :=
  let! actual_namelen :=
    try_u32 (zlen (name d)) (InvalidMessage (B "Entry name length exceeds u32::MAX")) in
  let hdr := zrep 20 x00 in
  let hdr := write_u32 0 (id d) hdr in
  let hdr := write_u32 4 (mode d) hdr in
  let hdr := write_u32 8 (size d) hdr in
  let hdr := write_u32 12 (mtime d) hdr in
  let hdr := write_u32 16 actual_namelen hdr in
  Ok (out ++ hdr ++ name d).
Definition typed (d : t) : Prop :=
  u32 (id d) /\ u32 (mode d) /\ u32 (size d) /\ u32 (mtime d) /\ u32 (namelen d) /\
  namelen d = zlen (name d) /\ is_utf8 (name d) = true.
End SyncDentResponse.

Module SyncDentV2Response.
Record t := { stat : SyncStatV2Response.t; namelen : Z; name : bytes }.
Definition HEADER_SIZE : Z := 76.
Definition decode (buf : bytes) : sync t :=
  if zlen buf <? HEADER_SIZE then Err (HeaderTooShort HEADER_SIZE (zlen buf)) else
  let! stat_bytes := get_slice buf 0 72 in
  let! stat := SyncStatV2Response.decode stat_bytes in
  let! namelen := read_u32 buf 72 in
  let total := HEADER_SIZE + namelen in
  if usize_max <? total
  then Err (InvalidMessage (B "Directory entry V2 namelen addition overflowed")) else
  if zlen buf <? total then Err (HeaderTooShort total (zlen buf)) else
  let! raw := get_slice buf 76 total in
  Ok {| stat := stat; namelen := namelen; name := from_utf8_lossy raw |}.
Definition total_size (d : t) : Z := Z.min usize_max (HEADER_SIZE + namelen d).
Definition encode (d : t) (out : bytes) : sync bytes :=
  let! actual_namelen :=
    try_u32 (zlen (name d)) (InvalidMessage (B "Entry V2 name length exceeds u32::MAX")) in
  let stat_buf := SyncStatV2Response.encode (stat d) (zrep 72 x00) in
  let len_buf := write_u32 0 actual_namelen (zrep 4 x00) in
  Ok (out ++ stat_buf ++ len_buf ++ name d).
Definition typed (d : t) : Prop :=
  SyncStatV2Response.typed (stat d) /\ u32 (namelen d) /\ namelen d = zlen (name d) /\
  is_utf8 (name d) = true.
End SyncDentV2Response.

(** ** Request builders: each appends one message to [out] *)
Definition build_sync_send_req (remote_path : bytes) (mode : Z) (out : bytes) : sync bytes :=
  let! _ := validate_path remote_path false in
  let req_str := remote_path ++ B "," ++ fmt_dec mode in
  let! len := try_u32 (zlen req_str) (InvalidPath (B "Request payload length exceeds u32::MAX")) in
  let hdr := SyncMessageHeader.new SYNC_SEND len in
  Ok (out ++ SyncMessageHeader.hdr_buf hdr ++ req_str).

Definition build_sync_data_chunk (chunk out : bytes) : sync bytes :=
  let! len := try_u32 (zlen chunk) (InvalidMessage (B "Data chunk size exceeds u32::MAX")) in
  let hdr := SyncMessageHeader.new SYNC_DATA len in
  Ok (out ++ SyncMessageHeader.hdr_buf hdr ++ chunk).

Definition build_sync_done (mtime : Z) (out : bytes) : sync bytes :=
  let hdr := SyncMessageHeader.new SYNC_DONE mtime in
  Ok (out ++ SyncMessageHeader.hdr_buf hdr).

Definition build_sync_done_u64 (mtime : Z) (out : bytes) : sync bytes :=
  let mtime_u32 := if mtime <=? u32_max then mtime else u32_max in
  build_sync_done mtime_u32 out.

(** The body the next three builders share in the source, with their request id. *)
Definition build_path_req (id : Z) (remote_path out : bytes) : sync bytes :=
  let! _ := validate_path remote_path true in
  let! len := try_u32 (zlen remote_path) (InvalidPath (B "Remote path length exceeds u32::MAX")) in
  let hdr := SyncMessageHeader.new id len in
  Ok (out ++ SyncMessageHeader.hdr_buf hdr ++ remote_path).
Definition build_sync_recv_req := build_path_req SYNC_RECV.
Definition build_sync_list_req := build_path_req SYNC_LIST.
Definition build_sync_stat_req := build_path_req SYNC_STAT.

Definition build_send_v2_req (path : bytes) (mode flags : Z) (out : bytes) : sync bytes :=
  let! _ := validate_path path true in
  let! len := try_u32 (zlen path) (InvalidPath (B "Path length exceeds u32::MAX")) in
  let hdr := SyncMessageHeader.new SYNC_SEND_V2 len in
  let extra := zrep 12 x00 in
  let extra := write_u32 0 SYNC_SEND_V2 extra in
  let extra := write_u32 4 mode extra in
  let extra := write_u32 8 flags extra in
  Ok (out ++ SyncMessageHeader.hdr_buf hdr ++ path ++ extra).

Definition build_recv_v2_req (path : bytes) (flags : Z) (out : bytes) : sync bytes :=
  let! _ := validate_path path true in
  let! len := try_u32 (zlen path) (InvalidPath (B "Path length exceeds u32::MAX")) in
  let hdr := SyncMessageHeader.new SYNC_RECV_V2 len in
  let extra := zrep 8 x00 in
  let extra := write_u32 0 SYNC_RECV_V2 extra in
  let extra := write_u32 4 flags extra in
  Ok (out ++ SyncMessageHeader.hdr_buf hdr ++ path ++ extra).

Definition build_sync_data_block (compressed_data out : bytes) : sync bytes :=
  let! len := try_u32 (zlen compressed_data)
                (InvalidMessage (B "Compressed data size exceeds u32::MAX")) in
  let hdr := SyncMessageHeader.new SYNC_DATA len in
  Ok (out ++ SyncMessageHeader.hdr_buf hdr ++ compressed_data).

(** ** Compression *)
Inductive CompressionError :=
| Compress (msg : bytes)
| Decompress (msg : bytes)
| UnknownType (flag : Z).

(** [CompressionError::to_string] *)
Definition display (e : CompressionError) : bytes :=
  match e with
  | Compress m => B "Compression failed: " ++ m
  | Decompress m => B "Decompression failed: " ++ m
  | UnknownType f => B "Unknown compression type: " ++ fmt_dec f
  end.

Inductive CompressionType := CNone | Brotli | LZ4 | Zstd.

Module CompressionType.
Definition to_flag (c : CompressionType) : Z :=
  match c with
  | CNone => SYNC_FLAG_NONE
  | Brotli => SYNC_FLAG_BROTLI
  | LZ4 => SYNC_FLAG_LZ4
  | Zstd => SYNC_FLAG_ZSTD
  end.
Definition from_flag (flag : Z) : res CompressionError CompressionType :=
  if flag =? SYNC_FLAG_NONE then Ok CNone
  else if flag =? SYNC_FLAG_BROTLI then Ok Brotli
  else if flag =? SYNC_FLAG_LZ4 then Ok LZ4
  else if flag =? SYNC_FLAG_ZSTD then Ok Zstd
  else Err (UnknownType flag).
End CompressionType.

(** The three compression libraries; an error is its message. *)
Class Codecs := {
  brotli_compress : bytes -> bytes + bytes;
  brotli_decompress : bytes -> bytes + bytes;
  lz4_compress_prepend_size : bytes -> bytes;
  lz4_decompress_size_prepended : bytes -> bytes + bytes;
  zstd_encode_all : bytes -> bytes + bytes;
  zstd_decode_all : bytes -> bytes + bytes;
}.

(** What they document: decompressing a compressed block gives the block back, and a block of at
    most [SYNC_DATA_MAX] bytes grows by less than the protocol's payload limit. *)
Class CodecLaws `{Codecs} := {
  brotli_inverse d : exists c, brotli_compress d = inr c /\ brotli_decompress c = inr d /\
    (zlen d <= SYNC_DATA_MAX -> zlen c <= MAX_PAYLOAD_V2);
  lz4_inverse d : lz4_decompress_size_prepended (lz4_compress_prepend_size d) = inr d /\
    (zlen d <= SYNC_DATA_MAX -> zlen (lz4_compress_prepend_size d) <= MAX_PAYLOAD_V2);
  zstd_inverse d : exists c, zstd_encode_all d = inr c /\ zstd_decode_all c = inr d /\
    (zlen d <= SYNC_DATA_MAX -> zlen c <= MAX_PAYLOAD_V2);
}.

Definition of_sum {E A} (f : bytes -> E) (s : bytes + A) : res E A :=
  match s with inl m => Err (f m) | inr a => Ok a end.

Definition compress `{Codecs} (ctype : CompressionType) (data : bytes) : res CompressionError bytes :=
  match ctype with
  | CNone => Ok data
  | Brotli => of_sum Compress (brotli_compress data)
  | LZ4 => Ok (lz4_compress_prepend_size data)
  | Zstd => of_sum Compress (zstd_encode_all data)
  end.

Definition decompress `{Codecs} (ctype : CompressionType) (data : bytes) : res CompressionError bytes :=
  match ctype with
  | CNone => Ok data
  | Brotli => of_sum Decompress (brotli_decompress data)
  | LZ4 => of_sum Decompress (lz4_decompress_size_prepended data)
  | Zstd => of_sum Decompress (zstd_decode_all data)
  end.

(** [u32::count_ones] *)
Definition count_ones (z : Z) : Z :=
  foldr Z.add 0 (map (fun i => Z.b2z (Z.testbit z (Z.of_nat i))) (seq 0 32)).

Definition compression_from_v2_flags (flags : Z) : sync CompressionType :=
  let codec_flags := Z.lor (Z.lor SYNC_FLAG_BROTLI SYNC_FLAG_LZ4) SYNC_FLAG_ZSTD in
  let unknown := Z.land flags (Z.lxor (Z.lor codec_flags SYNC_FLAG_DRY_RUN) 0xFFFFFFFF) in
  let selected := Z.land flags codec_flags in
  if negb (unknown =? 0) || (1 <? count_ones selected) then Err (UnsupportedCompression flags) else
  map_err (fun _ => UnsupportedCompression flags) (CompressionType.from_flag selected).

(** ** sendrecv_v2 *)
Module SyncV2Encoder.
Record t := { compression : CompressionType; setup : bytes }.
Definition new_send (path : bytes) (mode flags : Z) : sync t :=
  let! compression := compression_from_v2_flags flags in
  let! setup := build_send_v2_req path mode flags [] in
  Ok {| compression := compression; setup := setup |}.
Definition new_recv (path : bytes) (flags : Z) : sync t :=
  let! compression := compression_from_v2_flags flags in
  let! setup := build_recv_v2_req path flags [] in
  Ok {| compression := compression; setup := setup |}.
Definition encode_setup (e : t) (out : bytes) : sync bytes := Ok (out ++ setup e).
Fixpoint encode_chunks `{Codecs} (c : CompressionType) (cs : list bytes) (out : bytes) : sync bytes :=
  match cs with
  | [] => Ok out
  | chunk :: cs =>
      let! compressed := map_err (fun e => InvalidMessage (display e)) (compress c chunk) in
      let! out := build_sync_data_block compressed out in
      encode_chunks c cs out
  end.
Definition encode_data `{Codecs} (e : t) (data out : bytes) : sync bytes :=
  encode_chunks (compression e) (chunks SYNC_DATA_MAX data) out.
End SyncV2Encoder.

Module SyncV2Decoder.
Record t := { compression : CompressionType }.
Definition new (flags : Z) : sync t :=
  let! compression := compression_from_v2_flags flags in Ok {| compression := compression |}.
Definition decode_data_frame `{Codecs} (d : t) (frame : bytes) : sync bytes :=
  let! header := SyncMessageHeader.decode frame in
  if negb (SyncMessageHeader.id header =? SYNC_DATA)
  then Err (InvalidMessage (B "sendrecv_v2 frame is not SYNC_DATA")) else
  let length := SyncMessageHeader.length header in
  if (MAX_PAYLOAD_V2 <? length) || negb (zlen frame =? 8 + length)
  then Err (InvalidMessage (B "DATA frame length does not match its payload")) else
  let! body := get_slice frame 8 (zlen frame) in
  let! decoded := map_err (fun e => InvalidMessage (display e)) (decompress (compression d) body) in
  if SYNC_DATA_MAX <? zlen decoded
  then Err (InvalidMessage (B "decompressed DATA exceeds SYNC_DATA_MAX")) else
  Ok decoded.
End SyncV2Decoder.

(** ** The fixed-size structures are wire formats *)
Section SyncFormats.

Lemma hdr_buf_eq h :
  SyncMessageHeader.hdr_buf h
  = le_bytes 4 (SyncMessageHeader.id h) ++ le_bytes 4 (SyncMessageHeader.length h).
Proof. reflexivity. Qed.

Lemma stat_buf_eq s :
  SyncStatResponse.encode s (zrep 12 x00)
  = le_bytes 4 (SyncStatResponse.mode s) ++ le_bytes 4 (SyncStatResponse.size s)
    ++ le_bytes 4 (SyncStatResponse.mtime s).
Proof. reflexivity. Qed.

Import SyncStatV2Response.
Lemma stat_v2_buf_eq s :
  encode s (zrep 72 x00)
  = le_bytes 4 (id s) ++ le_bytes 4 (error s) ++ le_bytes 8 (dev s) ++ le_bytes 8 (ino s)
    ++ le_bytes 4 (mode s) ++ le_bytes 4 (nlink s) ++ le_bytes 4 (uid s) ++ le_bytes 4 (gid s)
    ++ le_bytes 8 (size s) ++ le_bytes 8 (of_i64 (atime s)) ++ le_bytes 8 (of_i64 (mtime s))
    ++ le_bytes 8 (of_i64 (ctime s)).
Proof. reflexivity. Qed.

(** Reading every field of a buffer that is long enough. *)
Lemma header_decode_eq buf :
  SyncMessageHeader.decode buf =
    if zlen buf <? 8 then Err (HeaderTooShort 8 (zlen buf))
    else Ok {| SyncMessageHeader.id := le_val (slice 0 4 buf);
               SyncMessageHeader.length := le_val (slice 4 8 buf) |}.
Proof.
  unfold SyncMessageHeader.decode, SyncMessageHeader.SIZE. zcase; [done|]. by wire.
Qed.

Lemma stat_decode_eq buf :
  SyncStatResponse.decode buf =
    if zlen buf <? 12 then Err (HeaderTooShort 12 (zlen buf))
    else Ok {| SyncStatResponse.mode := le_val (slice 0 4 buf);
               SyncStatResponse.size := le_val (slice 4 8 buf);
               SyncStatResponse.mtime := le_val (slice 8 12 buf) |}.
Proof.
  unfold SyncStatResponse.decode, SyncStatResponse.SIZE. zcase; [done|]. by wire.
Qed.

Lemma stat_v2_decode_eq buf :
  decode buf =
    if zlen buf <? 72 then Err (HeaderTooShort 72 (zlen buf))
    else let f a b := le_val (slice a b buf) in
         Ok {| id := f 0 4; error := f 4 8; dev := f 8 16; ino := f 16 24; mode := f 24 28;
               nlink := f 28 32; uid := f 32 36; gid := f 36 40; size := f 40 48;
               atime := to_i64 (f 48 56); mtime := to_i64 (f 56 64); ctime := to_i64 (f 64 72) |}.
Proof. unfold decode, SIZE. zcase; [done|]. by wire. Qed.

Lemma of_i64_u64 z : u64 (of_i64 z).
Proof. apply Z.mod_pos_bound. lia. Qed.

#[export] Instance header_wire : WireFormat SyncProtocolError SyncMessageHeader.t := {|
  wire_size := 8;
  wire_typed := SyncMessageHeader.typed;
  to_wire := SyncMessageHeader.hdr_buf;
  of_wire := SyncMessageHeader.decode;
|}.

#[export] Instance stat_wire : WireFormat SyncProtocolError SyncStatResponse.t := {|
  wire_size := 12;
  wire_typed := SyncStatResponse.typed;
  to_wire s := SyncStatResponse.encode s (zrep 12 x00);
  of_wire := SyncStatResponse.decode;
|}.

#[export] Instance stat_v2_wire : WireFormat SyncProtocolError t := {|
  wire_size := 72;
  wire_typed := typed;
  to_wire s := encode s (zrep 72 x00);
  of_wire := decode;
|}.

#[export] Instance header_wire_laws : WireLaws SyncProtocolError SyncMessageHeader.t.
Proof.
  split; cbn [wire_size wire_typed to_wire of_wire header_wire].
  - intros a. rewrite hdr_buf_eq. zg.
  - intros [i l] rest [Hi Hl]. cbn in *. rewrite header_decode_eq, hdr_buf_eq.
    pose proof (zlen_nonneg rest). zcase; [zl|]. cbn [SyncMessageHeader.id SyncMessageHeader.length].
    rewrite <- !app_assoc. wire_app. by wire_val.
  - intros b a. rewrite header_decode_eq. zcase; [done|]. intros [= <-].
    split; [split; apply (le_val_uint 4); cbn; lia|].
    exists (slice 8 (zlen b) b). rewrite hdr_buf_eq. cbn [SyncMessageHeader.id SyncMessageHeader.length].
    rewrite !(le_bytes_slice 4) by lia. rewrite <- !slice_cut by lia. by rewrite slice_full.
  - intros b. rewrite header_decode_eq. by zcase.
Qed.

#[export] Instance stat_wire_laws : WireLaws SyncProtocolError SyncStatResponse.t.
Proof.
  split; cbn [wire_size wire_typed to_wire of_wire stat_wire].
  - intros a. rewrite stat_buf_eq. zg.
  - intros [m z mt] rest (Hm & Hz & Ht). cbn in *. rewrite stat_decode_eq, stat_buf_eq.
    pose proof (zlen_nonneg rest). zcase; [zl|].
    cbn [SyncStatResponse.mode SyncStatResponse.size SyncStatResponse.mtime].
    rewrite <- !app_assoc. wire_app. by wire_val.
  - intros b a. rewrite stat_decode_eq. zcase; [done|]. intros [= <-].
    split; [repeat split; apply (le_val_uint 4); cbn; lia|].
    exists (slice 12 (zlen b) b). rewrite stat_buf_eq.
    cbn [SyncStatResponse.mode SyncStatResponse.size SyncStatResponse.mtime].
    rewrite !(le_bytes_slice 4) by lia. rewrite <- !app_assoc, <- !slice_cut by lia. by rewrite slice_full.
  - intros b. rewrite stat_decode_eq. by zcase.
Qed.

#[export] Instance stat_v2_wire_laws : WireLaws SyncProtocolError t.
Proof.
  split; cbn [wire_size wire_typed to_wire of_wire stat_v2_wire].
  - intros a. rewrite stat_v2_buf_eq. zg.
  - intros a rest Ht. rewrite stat_v2_decode_eq, stat_v2_buf_eq.
    pose proof (zlen_nonneg rest). zcase; [zl|]. cbv zeta. rewrite <- !app_assoc. wire_app.
    destruct Ht as (?&?&?&?&?&?&?&?&?&?&?&?).
    pose proof (of_i64_u64 (atime a)). pose proof (of_i64_u64 (mtime a)). pose proof (of_i64_u64 (ctime a)).
    wire_val. rewrite !to_of_i64 by done. by destruct a.
  - intros b a. rewrite stat_v2_decode_eq. zcase; [done|]. cbv zeta. intros [= <-]. split.
    + repeat split; try (apply (le_val_uint 4); cbn; lia); try (apply (le_val_uint 8); cbn; lia);
        apply to_i64_range, (le_val_uint 8); cbn; lia.
    + exists (slice 72 (zlen b) b). rewrite stat_v2_buf_eq. cbn [id error dev ino mode nlink uid gid size atime mtime ctime].
      rewrite !of_to_i64 by (apply (le_val_uint 8); cbn; lia).
      rewrite !(le_bytes_slice 4), !(le_bytes_slice 8) by lia.
      rewrite <- !app_assoc, <- !slice_cut by lia. by rewrite slice_full.
  - intros b. rewrite stat_v2_decode_eq. by zcase.
Qed.

Lemma header_read h rest :
  SyncMessageHeader.typed h ->
  SyncMessageHeader.decode (SyncMessageHeader.hdr_buf h ++ rest) = Ok h.
Proof. exact (wire_read (E := SyncProtocolError) h rest). Qed.
End SyncFormats.

Section DirectoryEntries.

Lemma try_u32_ok {E} n (e : E) : n <= u32_max -> try_u32 n e = Ok n.
Proof. intros. unfold try_u32. by rewrite (proj2 (Z.leb_le _ _)). Qed.

Lemma dent_hdr_eq (a b c d e : Z) :
  write_u32 16 e (write_u32 12 d (write_u32 8 c (write_u32 4 b (write_u32 0 a (zrep 20 x00)))))
  = le_bytes 4 a ++ le_bytes 4 b ++ le_bytes 4 c ++ le_bytes 4 d ++ le_bytes 4 e.
Proof. reflexivity. Qed.

Lemma dent_decode_encode d out rest :
  SyncDentResponse.typed d ->
  exists raw, SyncDentResponse.encode d out = Ok (out ++ raw) /\
    zlen raw = SyncDentResponse.total_size d /\ SyncDentResponse.decode (raw ++ rest) = Ok d.
Proof.
  intros (Hi & Hm & Hs & Ht & Hn & Hl & Hu). pose proof (zlen_nonneg rest).
  unfold u32, uint in *. unfold SyncDentResponse.encode, SyncDentResponse.total_size.
  rewrite try_u32_ok by (rewrite <- Hl; unfold u32_max; lia). cbn [res_bind].
  rewrite dent_hdr_eq, <- Hl. set (nm := SyncDentResponse.name d) in *.
  eexists. split; [done|]. split.
  { unfold SyncDentResponse.HEADER_SIZE, usize_max. zl. }
  unfold SyncDentResponse.decode, SyncDentResponse.HEADER_SIZE, usize_max.
  zcase; [zl|]. rewrite <- !app_assoc. wire_unfold. wire_read. wire_app. wire_val.
  repeat (zcase; [zl|]). rewrite get_slice_ok by zg. cbn [res_bind].
  wire_app. rewrite lossy_utf8 by done. by destruct d.
Qed.

Lemma dent_v2_decode_encode d out rest :
  SyncDentV2Response.typed d ->
  exists raw, SyncDentV2Response.encode d out = Ok (out ++ raw) /\
    zlen raw = SyncDentV2Response.total_size d /\ SyncDentV2Response.decode (raw ++ rest) = Ok d.
Proof.
  intros (Hs & Hn & Hl & Hu). pose proof (zlen_nonneg rest).
  unfold u32, uint in *. unfold SyncDentV2Response.encode, SyncDentV2Response.total_size.
  rewrite try_u32_ok by (rewrite <- Hl; unfold u32_max; lia). cbn [res_bind].
  change (write_u32 0 ?v (zrep 4 x00)) with (le_bytes 4 v).
  pose proof (wire_length (E := SyncProtocolError) (SyncDentV2Response.stat d)) as Hw.
  cbn [to_wire stat_v2_wire wire_size] in Hw.
  pose proof (wire_read (E := SyncProtocolError) (SyncDentV2Response.stat d) [] Hs) as Hr.
  cbn [to_wire of_wire stat_v2_wire] in Hr. rewrite app_nil_r in Hr.
  set (st := SyncStatV2Response.encode _ _) in *. rewrite <- Hl.
  set (nm := SyncDentV2Response.name d) in *.
  eexists. split; [done|]. split.
  { unfold SyncDentV2Response.HEADER_SIZE, usize_max. zl. }
  unfold SyncDentV2Response.decode, SyncDentV2Response.HEADER_SIZE, usize_max.
  zcase; [zl|]. rewrite <- !app_assoc, get_slice_ok by zg. cbn [res_bind]. wire_app.
  rewrite Hr. cbn [res_bind]. wire_unfold. wire_read. wire_app. wire_val.
  repeat (zcase; [zl|]). rewrite get_slice_ok by zg. cbn [res_bind].
  wire_app. rewrite lossy_utf8 by done. by destruct d.
Qed.
End DirectoryEntries.

Section SyncFlags.

Lemma land_bit z n : 0 <= n -> Z.land z (2 ^ n) = if Z.testbit z n then 2 ^ n else 0.
Proof.
  intros Hn. apply Z.bits_inj'. intros m Hm. rewrite Z.land_spec, Z.pow2_bits_eqb by done.
  destruct (Z.eqb_spec n m) as [->|Hne].
  - destruct (Z.testbit z m); [by rewrite Z.pow2_bits_true|by rewrite Z.bits_0].
  - rewrite andb_false_r. destruct (Z.testbit z n); [|by rewrite Z.bits_0].
    by rewrite Z.pow2_bits_false by congruence.
Qed.

(** A 32-bit flag word is its unknown bits, its codec bits and the dry-run bit. *)
Lemma flag_parts flags :
  u32 flags ->
  flags = Z.lor (Z.land flags 0x7FFFFFF8) (Z.lor (flags mod 8) (if Z.testbit flags 31 then 2 ^ 31 else 0)).
Proof.
  intros Hf. change 8 with (2 ^ 3). rewrite <- (Z.land_ones flags 3), <- land_bit by lia.
  rewrite <- !Z.land_lor_distr_r.
  change (Z.lor _ _) with (Z.ones 32). rewrite Z.land_ones by lia. symmetry. by apply Z.mod_small.
Qed.

Lemma flags_complete c (dry : bool) :
  compression_from_v2_flags
    (Z.lor (CompressionType.to_flag c) (if dry then SYNC_FLAG_DRY_RUN else 0)) = Ok c.
Proof. by destruct c, dry. Qed.

Lemma flags_sound flags c :
  u32 flags -> compression_from_v2_flags flags = Ok c ->
  exists dry : bool, flags = Z.lor (CompressionType.to_flag c) (if dry then SYNC_FLAG_DRY_RUN else 0).
Proof.
  intros Hf. unfold compression_from_v2_flags.
  change (Z.lxor _ _) with 0x7FFFFFF8. change (Z.lor (Z.lor _ _) _) with (Z.ones 3).
  destruct (Z.eqb_spec (Z.land flags 0x7FFFFFF8) 0) as [Hu|]; [|done].
  rewrite (Z.land_ones flags 3) by lia. pose proof (flag_parts flags Hf) as Hp.
  rewrite Hu in Hp. change (2 ^ 3) with 8. pose proof (Z.mod_pos_bound flags 8).
  exists (Z.testbit flags 31). rewrite Hp at 1.
  assert (flags mod 8 = 0 \/ flags mod 8 = 1 \/ flags mod 8 = 2 \/ flags mod 8 = 3 \/ flags mod 8 = 4 \/
          flags mod 8 = 5 \/ flags mod 8 = 6 \/ flags mod 8 = 7) as Hc by lia.
  destruct Hc as [E|[E|[E|[E|[E|[E|[E|E]]]]]]]; rewrite E in *; try done;
    revert H0; cbn; intros [= <-]; done.
Qed.
End SyncFlags.

Section DataFrames.
Context `{CodecLaws}.

Lemma compress_decompress c d :
  exists z, compress c d = Ok z /\ decompress c z = Ok d /\
    (zlen d <= SYNC_DATA_MAX -> zlen z <= MAX_PAYLOAD_V2).
Proof.
  destruct c; cbn [compress decompress].
  - exists d. unfold SYNC_DATA_MAX, MAX_PAYLOAD_V2. repeat split; lia.
  - destruct (brotli_inverse d) as (z & -> & Hd & ?). exists z. by rewrite Hd.
  - destruct (lz4_inverse d) as (Hd & ?). exists (lz4_compress_prepend_size d). by rewrite Hd.
  - destruct (zstd_inverse d) as (z & -> & Hd & ?). exists z. by rewrite Hd.
Qed.

(** The DATA message around a compressed block. *)
Definition data_frame (z : bytes) : bytes :=
  SyncMessageHeader.hdr_buf (SyncMessageHeader.new SYNC_DATA (zlen z)) ++ z.

Lemma data_frame_header z rest :
  zlen z <= u32_max ->
  SyncMessageHeader.decode (data_frame z ++ rest) = Ok (SyncMessageHeader.new SYNC_DATA (zlen z)).
Proof.
  intros Hz. unfold data_frame. rewrite <- app_assoc.
  apply header_read.
  pose proof (zlen_nonneg z). unfold u32_max in *.
  split; unfold u32, uint, SYNC_DATA; cbn; lia.
Qed.

Lemma zlen_data_frame z : zlen (data_frame z) = 8 + zlen z.
Proof. unfold data_frame. rewrite hdr_buf_eq. zg. Qed.

Lemma decode_data_frame_ok d z chunk :
  decompress (SyncV2Decoder.compression d) z = Ok chunk ->
  zlen z <= MAX_PAYLOAD_V2 -> zlen chunk <= SYNC_DATA_MAX ->
  SyncV2Decoder.decode_data_frame d (data_frame z) = Ok chunk.
Proof.
  intros Hd Hz Hc. unfold SyncV2Decoder.decode_data_frame, MAX_PAYLOAD_V2, SYNC_DATA_MAX in *.
  pose proof (zlen_nonneg z).
  pose proof (data_frame_header z []) as Hh. rewrite app_nil_r in Hh. rewrite Hh by (unfold u32_max; lia).
  cbn [res_bind SyncMessageHeader.id SyncMessageHeader.length SyncMessageHeader.new].
  rewrite zlen_data_frame, !Z.eqb_refl. cbn [negb orb]. rewrite (proj2 (Z.ltb_ge _ _)) by lia. cbn [orb].
  rewrite get_slice_ok by (rewrite ?zlen_data_frame; lia). cbn [res_bind].
  assert (slice 8 (8 + zlen z) (data_frame z) = z) as ->
    by (unfold data_frame; rewrite hdr_buf_eq; wire_app; done).
  rewrite Hd. cbn [map_err res_bind]. by rewrite (proj2 (Z.ltb_ge _ _)) by lia.
Qed.

Lemma encode_chunks_frames c cs out :
  Forall (fun x => zlen x <= SYNC_DATA_MAX) cs ->
  exists zs, SyncV2Encoder.encode_chunks c cs out = Ok (out ++ concat (map data_frame zs)) /\
    Forall2 (fun x z => decompress c z = Ok x /\ zlen z <= MAX_PAYLOAD_V2) cs zs.
Proof.
  intros Hcs. revert out. induction Hcs as [|x cs Hx _ IH]; intros out.
  { exists []. split; [cbn; by rewrite app_nil_r|constructor]. }
  destruct (compress_decompress c x) as (z & Hz & Hd & Hl). specialize (Hl Hx).
  destruct (IH (out ++ data_frame z)) as (zs & Ho & HF). exists (z :: zs). split.
  - cbn [SyncV2Encoder.encode_chunks]. rewrite Hz. cbn [map_err res_bind].
    unfold build_sync_data_block. rewrite try_u32_ok by (unfold u32_max, MAX_PAYLOAD_V2 in *; lia).
    cbn [res_bind]. fold (data_frame z). rewrite Ho. cbn [map concat]. by rewrite app_assoc.
  - by constructor.
Qed.
End DataFrames.

(** ** Properties *)

(** A path the V1 SEND request can carry. *)
Definition sendable (path : bytes) : Prop :=
  path <> [] /\ (x00 ∉ path) /\ (","%byte ∉ path) /\ zlen path <= u32_max.

Lemma validate_path_ok path : validate_path path false = Ok tt <-> sendable path.
Proof.
  unfold validate_path, sendable. pose proof (zlen_0_nil path).
  destruct (Z.eqb_spec (zlen path) 0) as [E|E].
  { split; [done|]. intros (Hn & _). by destruct Hn; auto. }
  assert (path <> []) by (intros ->; by rewrite zlen_nil in E).
  destruct (contains x00 path) eqn:Hc.
  { split; [done|]. intros (_ & Hn & _). apply contains_false in Hn. congruence. }
  apply contains_false in Hc. cbn [negb andb]. destruct (contains ","%byte path) eqn:Hk.
  { split; [done|]. intros (_ & _ & Hn & _). apply contains_false in Hn. congruence. }
  apply contains_false in Hk. destruct (Z.leb_spec (zlen path) u32_max); cbn [negb].
  - by split.
  - split; [done|]. intros (_ & _ & _ & ?). lia.
Qed.

(** The sync structures that carry a name. A directory entry (V1 and V2) whose fields are in
    range and whose [namelen] is the length of its UTF-8 name is encoded in exactly
    [total_size] bytes, and decoding those bytes, whatever follows them, gives the entry back. *)
Theorem directory_entry_roundtrip (d : SyncDentResponse.t) (d2 : SyncDentV2Response.t) out rest :
  SyncDentResponse.typed d -> SyncDentV2Response.typed d2 ->
  (exists raw, SyncDentResponse.encode d out = Ok (out ++ raw) /\
     zlen raw = SyncDentResponse.total_size d /\ SyncDentResponse.decode (raw ++ rest) = Ok d) /\
  (exists raw, SyncDentV2Response.encode d2 out = Ok (out ++ raw) /\
     zlen raw = SyncDentV2Response.total_size d2 /\ SyncDentV2Response.decode (raw ++ rest) = Ok d2).
Proof. intros. split; [by apply dent_decode_encode|by apply dent_v2_decode_encode]. Qed.

Definition sample_stat : SyncStatV2Response.t :=
  {| SyncStatV2Response.id := 0x32544E44; SyncStatV2Response.error := 0; SyncStatV2Response.dev := 7;
     SyncStatV2Response.ino := 2 ^ 40; SyncStatV2Response.mode := 33188;
     SyncStatV2Response.nlink := 1; SyncStatV2Response.uid := 0; SyncStatV2Response.gid := 0;
     SyncStatV2Response.size := 5 * 2 ^ 32; SyncStatV2Response.atime := -1;
     SyncStatV2Response.mtime := 1700000000; SyncStatV2Response.ctime := 0 |}.

Lemma directory_entry_roundtrip_witness :
  let d := {| SyncDentResponse.id := 0x544E4544; SyncDentResponse.mode := 33188;
              SyncDentResponse.size := 3; SyncDentResponse.mtime := 9;
              SyncDentResponse.namelen := 4; SyncDentResponse.name := B "boot" |} in
  let d2 := {| SyncDentV2Response.stat := sample_stat; SyncDentV2Response.namelen := 4;
               SyncDentV2Response.name := B "boot" |} in
  (exists raw, SyncDentResponse.encode d [] = Ok ([] ++ raw) /\
     zlen raw = SyncDentResponse.total_size d /\ SyncDentResponse.decode (raw ++ B "x") = Ok d) /\
  (exists raw, SyncDentV2Response.encode d2 [] = Ok ([] ++ raw) /\
     zlen raw = SyncDentV2Response.total_size d2 /\ SyncDentV2Response.decode (raw ++ B "x") = Ok d2).
Proof.
  intros d d2. apply directory_entry_roundtrip.
  - repeat split; cbn; done.
  - repeat split; cbn; done.
Defined.

(** The 72-byte STAT_V2 structure. [decode] succeeds on a buffer exactly when the buffer
    starts with the encoding of a value whose fields are in range of their types (signed
    timestamps included), and returns that value. *)
Theorem stat_v2_decode_iff buf s :
  SyncStatV2Response.decode buf = Ok s <->
  SyncStatV2Response.typed s /\ exists rest, buf = SyncStatV2Response.encode s (zrep 72 x00) ++ rest.
Proof. exact (wire_iff (E := SyncProtocolError) buf s). Qed.

(** No input makes a sync decoder panic: every slice they take is within the buffer, for the
    message header, the three stat forms, both directory entry forms and the DATA frame. *)
Theorem sync_decoders_no_panic `{Codecs} (buf : bytes) (d : SyncV2Decoder.t) :
  no_panic (SyncMessageHeader.decode buf) /\ no_panic (SyncStatResponse.decode buf) /\
  no_panic (SyncStatResponse.decode_v1_message buf) /\ no_panic (SyncStatV2Response.decode buf) /\
  no_panic (SyncDentResponse.decode buf) /\ no_panic (SyncDentV2Response.decode buf) /\
  no_panic (SyncV2Decoder.decode_data_frame d buf).
Proof.
  unfold no_panic. split; [exact (wire_total (E := SyncProtocolError) (A := SyncMessageHeader.t) buf)|].
  split; [exact (wire_total (E := SyncProtocolError) (A := SyncStatResponse.t) buf)|].
  split.
  { unfold SyncStatResponse.decode_v1_message, SyncStatResponse.WIRE_SIZE, SyncStatResponse.SIZE.
    zcase; [done|]. rewrite get_slice_ok by lia. cbn [res_bind]. destruct (_ || _); [done|].
    rewrite get_slice_ok by lia. cbn [res_bind]. exact (wire_total (E := SyncProtocolError) (A := SyncStatResponse.t) _). }
  split; [exact (wire_total (E := SyncProtocolError) (A := SyncStatV2Response.t) buf)|].
  split.
  { unfold SyncDentResponse.decode, SyncDentResponse.HEADER_SIZE. zcase; [done|]. wire_unfold. wire_read.
    pose proof (le_val_range (slice 16 (16 + Z.of_nat 4) buf)). repeat (zcase; [done|]).
    by rewrite get_slice_ok by lia. }
  split.
  { unfold SyncDentV2Response.decode, SyncDentV2Response.HEADER_SIZE. zcase; [done|].
    rewrite get_slice_ok by lia. cbn [res_bind]. rewrite stat_v2_decode_eq, zlen_slice by lia.
    cbn -[slice]. wire_unfold. wire_read.
    pose proof (le_val_range (slice 72 (72 + Z.of_nat 4) buf)). repeat (zcase; [done|]).
    by rewrite get_slice_ok by lia. }
  unfold SyncV2Decoder.decode_data_frame. rewrite header_decode_eq. zcase; [done|]. cbn [res_bind].
  destruct (negb _); [done|]. destruct (_ || _); [done|]. rewrite get_slice_ok by lia. cbn [res_bind].
  destruct (SyncV2Decoder.compression d); cbn -[slice];
    unfold of_sum; repeat (case_match; cbn [map_err res_bind] in *; simplify_eq; try done).
Qed.

(** The V1 SEND request is unambiguous. It is built exactly for non-empty paths without NUL
    or comma that fit the length field; the message then starts with a SEND header announcing
    the rest of it, and cutting the payload at its first comma gives back the path and a decimal
    numeral that reads back as the mode. *)
Theorem send_request_unambiguous path mode out :
  u32 mode -> zlen path + 11 <= u32_max ->
  (is_ok (build_sync_send_req path mode out) = true <-> sendable path) /\
  forall out', build_sync_send_req path mode out = Ok out' ->
    exists msg, out' = out ++ msg /\
      SyncMessageHeader.decode msg = Ok (SyncMessageHeader.new SYNC_SEND (zlen msg - 8)) /\
      split_once ","%byte (slice 8 (zlen msg) msg) = Some (path, fmt_dec mode) /\
      parse_uint 10 u32_max (fmt_dec mode) = Some mode.
Proof.
  unfold u32, uint. intros Hm Hlen. unfold build_sync_send_req.
  assert (zlen (fmt_dec mode) <= 10) as Hd.
  { pose proof (length_digits_go 20 10 mode [] 10). change (length []) with 0%nat in *.
    unfold zlen, fmt_dec. lia. }
  assert (zlen (path ++ B "," ++ fmt_dec mode) = zlen path + 1 + zlen (fmt_dec mode)) as Hz
    by (rewrite !zlen_app; change (zlen (B ",")) with 1; lia).
  rewrite try_u32_ok by lia. cbn [res_bind].
  destruct (validate_path path false) as [[]| |] eqn:Hv; cbn [res_bind is_ok].
  2-3: split; [split; [done|]; intros Hs; apply validate_path_ok in Hs; congruence|done].
  split; [split; [intros _; by apply validate_path_ok|done]|].
  apply validate_path_ok in Hv as (Hne & H0 & Hc & Hl). intros out' [= <-].
  set (req := path ++ B "," ++ fmt_dec mode) in *. pose proof (zlen_nonneg req).
  exists (SyncMessageHeader.hdr_buf (SyncMessageHeader.new SYNC_SEND (zlen req)) ++ req). split; [done|].
  assert (zlen (SyncMessageHeader.hdr_buf (SyncMessageHeader.new SYNC_SEND (zlen req)) ++ req) = 8 + zlen req)
    as Hh by (rewrite hdr_buf_eq; zg).
  rewrite Hh. split; [|split].
  - replace (8 + zlen req - 8) with (zlen req) by lia. apply header_read.
    unfold u32_max in *. split; unfold u32, uint, SYNC_SEND; cbn; lia.
  - rewrite hdr_buf_eq. wire_app. by apply split_once_app.
  - apply parse_fmt_dec; unfold u32_max; lia.
Qed.

Lemma send_request_unambiguous_witness :
  exists msg, build_sync_send_req (B "/data/a") 33206 [] = Ok msg /\
    split_once ","%byte (slice 8 (zlen msg) msg) = Some (B "/data/a", fmt_dec 33206).
Proof.
  destruct (send_request_unambiguous (B "/data/a") 33206 []) as [_ H];
    [unfold u32, uint; lia|vm_compute; discriminate|].
  destruct (H _ eq_refl) as (msg & Hmsg & _ & Hs & _).
  exists msg. split; [by vm_compute in Hmsg |- *; rewrite Hmsg|done].
Defined.

(** The sendrecv_v2 flag word is accepted exactly when it selects one codec, or none, with or
    without the dry-run bit, and the codec is the one whose flag it carries. *)
Theorem v2_flags_accepted flags c :
  u32 flags ->
  compression_from_v2_flags flags = Ok c <->
  exists dry : bool, flags = Z.lor (CompressionType.to_flag c) (if dry then SYNC_FLAG_DRY_RUN else 0).
Proof.
  intros Hf. split; [by apply flags_sound|]. intros [dry ->]. apply flags_complete.
Qed.

Lemma v2_flags_accepted_witness :
  compression_from_v2_flags 0x80000004 = Ok Zstd <->
  exists dry : bool, 0x80000004 = Z.lor (CompressionType.to_flag Zstd) (if dry then SYNC_FLAG_DRY_RUN else 0).
Proof. apply v2_flags_accepted. unfold u32, uint. lia. Defined.

(** File content survives sendrecv_v2. With libraries whose decompression inverts their
    compression, an encoder and a decoder created from the same flags: the data is cut into
    blocks of at most [SYNC_DATA_MAX] bytes, each becomes one DATA frame announcing exactly its
    own payload, and decoding the frames one by one yields the blocks, whose concatenation is
    the data. *)
Theorem sync_v2_data_roundtrip `{CodecLaws} path mode flags e d data out :
  SyncV2Encoder.new_send path mode flags = Ok e -> SyncV2Decoder.new flags = Ok d ->
  exists frames blocks,
    SyncV2Encoder.encode_data e data out = Ok (out ++ concat frames) /\
    Forall2 (fun f b => SyncV2Decoder.decode_data_frame d f = Ok b /\ 0 < zlen b <= SYNC_DATA_MAX /\
      SyncMessageHeader.decode f = Ok (SyncMessageHeader.new SYNC_DATA (zlen f - 8))) frames blocks /\
    concat blocks = data.
Proof.
  intros He Hd. assert (SyncV2Encoder.compression e = SyncV2Decoder.compression d) as Hc.
  { unfold SyncV2Encoder.new_send, SyncV2Decoder.new in *. res_inv He. rewrite Ha in Hd. res_inv He.
    by simplify_eq/=. }
  pose proof (chunks_bounds SYNC_DATA_MAX data ltac:(done)) as Hb.
  destruct (encode_chunks_frames (SyncV2Encoder.compression e) (chunks SYNC_DATA_MAX data) out)
    as (zs & Ho & HF); [eapply Forall_impl; [|exact Hb]; cbn; lia|].
  exists (map data_frame zs), (chunks SYNC_DATA_MAX data).
  split; [exact Ho|]. split; [|by apply concat_chunks].
  rewrite Hc in HF. clear Ho. induction HF as [|b z bs zs [Hz Hl] _ IH]; [constructor|].
  apply Forall_cons_iff in Hb as [Hb1 Hb]. cbn [map]. constructor; [|by apply IH].
  split; [by apply decode_data_frame_ok; try lia|]. split; [done|].
  rewrite zlen_data_frame. replace (8 + zlen z - 8) with (zlen z) by lia.
  pose proof (data_frame_header z []) as Hh. rewrite app_nil_r in Hh. apply Hh.
  unfold MAX_PAYLOAD_V2, u32_max in *. lia.
Qed.

(** Stored blocks: every library copies its input. *)
Definition stored : Codecs := {|
  brotli_compress := inr; brotli_decompress := inr;
  lz4_compress_prepend_size := fun d => d; lz4_decompress_size_prepended := inr;
  zstd_encode_all := inr; zstd_decode_all := inr;
|}.

Lemma stored_laws : @CodecLaws stored.
Proof.
  split; cbn; unfold SYNC_DATA_MAX, MAX_PAYLOAD_V2; intros d.
  - exists d. repeat split; lia.
  - split; [done|lia].
  - exists d. repeat split; lia.
Qed.

Lemma sync_v2_data_roundtrip_witness :
  exists e d frames blocks,
    SyncV2Encoder.new_send (B "/a") 420 SYNC_FLAG_ZSTD = Ok e /\
    SyncV2Decoder.new SYNC_FLAG_ZSTD = Ok d /\
    @SyncV2Encoder.encode_data stored e (B "content") [] = Ok ([] ++ concat frames) /\
    concat blocks = B "content".
Proof.
  destruct (SyncV2Encoder.new_send (B "/a") 420 SYNC_FLAG_ZSTD) as [e| |] eqn:He; [|by vm_compute in He..].
  destruct (SyncV2Decoder.new SYNC_FLAG_ZSTD) as [d| |] eqn:Hd; [|by vm_compute in Hd..].
  destruct (@sync_v2_data_roundtrip stored stored_laws _ _ _ e d (B "content") [] He Hd)
    as (frames & blocks & Ho & _ & Hb).
  by exists e, d, frames, blocks.
Defined.
