(* ===== verification/Features.v ===== *)
(** Feature negotiation ([src/crates/adb-protocol/src/features.rs]) and the quoting of remote
    command lines ([adb_utils.rs]).

    The contract of [escape_arg] is stated against [Sh.words], a reader of POSIX shell words
    restricted to literal characters, blanks, backslashes and single quotes; it gives up
    ([None]) on any other unquoted character the shell treats specially. *)
From S2P Require Import Prelude Text.

(** ** [features.rs] *)
Definition nonempty (f : bytes) : bool := negb (zlen f =? 0).

(** The body of the [features] property. *)
Definition feature_values (value : bytes) : list bytes :=
  List.filter nonempty (map (trim_byte x00) (split_on ","%byte value)).

(** The loop over the properties. *)
Fixpoint find_features (props : list bytes) : list bytes :=
  match props with
  | [] => []
  | prop :: props =>
      if zlen prop =? 0 then find_features props else
      match split_once "="%byte prop with
      | None => find_features props
      | Some (key, value) =>
          if contains "="%byte value then find_features props
          else if bool_decide (key = B "features") then feature_values value
          else find_features props
      end
  end.

Definition parse_banner_features (banner : bytes) : list bytes :=
  let pieces := split_on ":"%byte banner in
  if zlen pieces <? 3 then [] else find_features (split_on ";"%byte (default [] (pieces !! 2%nat))).

Definition host_supported_features : list bytes :=
  [B "shell_v2"; B "cmd"; B "apex"; B "abb_exec"].

Definition can_use_feature (device_features : list bytes) (feature : bytes) : bool :=
  existsb (fun f => bool_decide (f = feature)) device_features &&
  existsb (fun f => bool_decide (f = feature)) host_supported_features.

Definition features_to_string (features : list bytes) : bytes := join (B ",") features.

Definition host_cnxn_payload : bytes :=
  B "host::features=" ++ features_to_string host_supported_features.

(** ** [adb_utils.rs] *)

(** The loop of [escape_arg]; [base] moves past one quote per iteration, so the length plus one
    is enough fuel. *)
Fixpoint escape_go (fuel : nat) (s : bytes) (base : Z) (result : bytes) : option bytes :=
  match fuel with
  | O => None
  | S fuel =>
      match position (beqb "'"%byte) (slice base (zlen s) s) with
      | Some rel =>
          let found := base + Z.of_nat rel in
          let result := result ++ slice base found s in
          let result := result ++ B "'\''" in
          escape_go fuel s (found + 1) result
      | None => Some (result ++ slice base (zlen s) s)
      end
  end.

Definition escape_arg (s : bytes) : option bytes :=
  match escape_go (S (length s)) s 0 (B "'") with
  | Some result => Some (result ++ B "'")
  | None => None
  end.

Fixpoint push_args (cmd : bytes) (it : list bytes) : option bytes :=
  match it with
  | [] => Some cmd
  | arg :: it => match escape_arg arg with
                 | Some e => push_args ((cmd ++ B " ") ++ e) it
                 | None => None
                 end
  end.

Definition exec_service_string (args : list bytes) : option bytes :=
  let cmd := B "exec:" in
  match args with
  | [] => Some cmd
  | prog :: it => push_args (cmd ++ prog) it
  end.

(** ** Shell words *)
Module Sh.
Definition blank (c : byte) : bool := existsb (beqb c) [" "%byte; x09; x0a].
(** The unquoted characters that are not literal for the shell. *)
Definition special (c : byte) : bool :=
  existsb (beqb c) (B "|&;<>()$`*?[]#~=%!{}" ++ [x22]).
Definition literal (c : byte) : bool :=
  negb (beqb c "'"%byte) && negb (beqb c "\"%byte) && negb (blank c) && negb (special c).

(** [quoted]: inside single quotes; [word]: the word being read, if any. *)
Fixpoint read (s : bytes) (quoted : bool) (word : option bytes) : option (list bytes) :=
  match s with
  | [] => if quoted then None else Some (match word with Some w => [w] | None => [] end)
  | c :: s =>
      if quoted then
        if beqb c "'"%byte then read s false word
        else read s true (Some (default [] word ++ [c]))
      else if beqb c "'"%byte then read s true (Some (default [] word))
      else if beqb c "\"%byte then
        match s with
        | d :: s => if beqb d x0a then None else read s false (Some (default [] word ++ [d]))
        | [] => None
        end
      else if blank c then
        match word with
        | Some w => cons w <$> read s false None
        | None => read s false None
        end
      else if special c then None
      else read s false (Some (default [] word ++ [c]))
  end.
Definition words (s : bytes) : option (list bytes) := read s false None.
End Sh.

(** ** Facts *)
Section EscapeFacts.

(** What quoting does to each byte. *)
Definition quote_byte (c : byte) : bytes := if beqb "'"%byte c then B "'\''" else [c].

Lemma quote_plain s : Forall (fun b => beqb "'"%byte b = false) s -> concat (map quote_byte s) = s.
Proof.
  induction 1 as [|b s Hb _ IH]; [done|]. cbn [map concat]. unfold quote_byte at 1. by rewrite Hb, IH.
Qed.

Lemma position_split f (s : bytes) n :
  position f s = Some n ->
  exists b, s = take n s ++ b :: drop (S n) s /\ f b = true /\ Forall (fun b => f b = false) (take n s).
Proof.
  revert n. induction s as [|c s IH]; intros n; [done|]. cbn [position].
  destruct (f c) eqn:Hc; [intros [= <-]; exists c; by repeat split; try constructor|].
  destruct (position f s) as [m|]; [|done]. intros [= <-].
  destruct (IH m eq_refl) as (b & Hs & Hb & HF). exists b. cbn. rewrite <- Hs. split; [done|]. split; [done|].
  by constructor.
Qed.

Lemma escape_go_spec fuel s base result :
  0 <= base <= zlen s -> zlen s - base < Z.of_nat fuel ->
  escape_go fuel s base result = Some (result ++ concat (map quote_byte (slice base (zlen s) s))).
Proof.
  revert base result. induction fuel as [|fuel IH]; intros base result Hb Hf; [lia|].
  cbn [escape_go]. destruct (position _ _) as [n|] eqn:Hp.
  - destruct (position_split _ _ _ Hp) as (b & Hs & Hq & HF). apply beqb_true in Hq. subst b.
    set (rest := slice base (zlen s) s) in *.
    assert (zlen rest = zlen s - base) as Hl by (unfold rest; rewrite zlen_slice; lia).
    assert (Z.of_nat n + 1 <= zlen s - base) as Hn.
    { rewrite <- Hl, Hs. rewrite zlen_app, zlen_cons. pose proof (zlen_nonneg (drop (S n) rest)).
      apply (f_equal (@length byte)) in Hs. rewrite length_app, length_take in Hs. cbn [length] in Hs.
      unfold zlen. rewrite length_take. rewrite length_drop in *. lia. }
    assert (slice base (base + Z.of_nat n) s = take n rest) as ->.
    { unfold rest, slice. rewrite take_take. f_equal. lia. }
    assert (slice (base + Z.of_nat n + 1) (zlen s) s = drop (S n) rest) as Hd.
    { unfold rest, slice. rewrite skipn_firstn_comm, drop_drop. f_equal; [lia|f_equal; lia]. }
    rewrite IH by lia. rewrite Hd.
    assert (concat (map quote_byte rest) = take n rest ++ B "'\''" ++ concat (map quote_byte (drop (S n) rest)))
      as ->; [|by rewrite <- !app_assoc].
    rewrite Hs at 1. rewrite map_app, concat_app, (quote_plain (take n rest)) by done. done.
  - apply position_none in Hp. by rewrite quote_plain.
Qed.

Lemma escape_arg_eq s : escape_arg s = Some (B "'" ++ concat (map quote_byte s) ++ B "'").
Proof.
  unfold escape_arg. rewrite escape_go_spec by (unfold zlen; lia).
  rewrite slice_full by lia. by rewrite <- app_assoc.
Qed.

(** Reading the quoted bytes inside quotes appends the original bytes. *)
Lemma read_quoted s w rest :
  Sh.read (concat (map quote_byte s) ++ rest) true (Some w) = Sh.read rest true (Some (w ++ s)).
Proof.
  revert w. induction s as [|c s IH]; intros w; [cbn; by rewrite app_nil_r|].
  cbn [map concat]. unfold quote_byte at 1. destruct (beqb "'"%byte c) eqn:Hc.
  - apply beqb_true in Hc. subst c. rewrite <- app_assoc.
    change (Sh.read (B "'\''" ++ ?t) true (Some w)) with (Sh.read t true (Some (w ++ ["'"%byte]))).
    rewrite IH. by rewrite <- app_assoc.
  - rewrite <- app_assoc. cbn [app Sh.read].
    assert (beqb c "'"%byte = false) as -> by (apply beqb_false; apply beqb_false in Hc; congruence).
    cbn [default]. rewrite IH. by rewrite <- app_assoc.
Qed.

Lemma read_escaped s rest :
  Sh.read (B "'" ++ concat (map quote_byte s) ++ B "'" ++ rest) false None = Sh.read rest false (Some s).
Proof.
  change (B "'" ++ concat (map quote_byte s) ++ B "'" ++ rest)
    with ("'"%byte :: (concat (map quote_byte s) ++ "'"%byte :: rest)).
  cbn [Sh.read]. rewrite beqb_refl. cbn [default]. by rewrite read_quoted.
Qed.

(** The arguments after the program, each preceded by a blank. *)
Definition escaped (s : bytes) : bytes := B "'" ++ concat (map quote_byte s) ++ B "'".

Lemma push_args_eq cmd it :
  push_args cmd it = Some (cmd ++ concat (map (fun a => B " " ++ escaped a) it)).
Proof.
  revert cmd. induction it as [|a it IH]; intros cmd; cbn [push_args map concat].
  - by rewrite app_nil_r.
  - rewrite escape_arg_eq, IH. f_equal. unfold escaped. by rewrite <- !app_assoc.
Qed.

Lemma read_args w it :
  Sh.read (concat (map (fun a => B " " ++ escaped a) it)) false (Some w) = Some (w :: it).
Proof.
  revert w. induction it as [|a it IH]; intros w; [done|]. cbn [map concat].
  unfold escaped at 1. rewrite <- !app_assoc.
  change (Sh.read (B " " ++ ?t) false (Some w)) with (cons w <$> Sh.read t false None).
  by rewrite read_escaped, IH.
Qed.

Lemma read_literal p w rest :
  Forall (fun c => Sh.literal c = true) p ->
  Sh.read (p ++ rest) false (Some w) = Sh.read rest false (Some (w ++ p)).
Proof.
  intros Hp. revert w. induction Hp as [|c p Hc _ IH]; intros w; [cbn; by rewrite app_nil_r|].
  cbn [app Sh.read]. unfold Sh.literal in Hc. rewrite !andb_true_iff, !negb_true_iff in Hc.
  destruct Hc as [[[-> ->] ->] ->]. cbn [default]. rewrite IH. by rewrite <- app_assoc.
Qed.

Lemma read_word p rest :
  p <> [] -> Forall (fun c => Sh.literal c = true) p ->
  Sh.read (p ++ rest) false None = Sh.read rest false (Some p).
Proof.
  intros Hn Hp. destruct p as [|c p]; [done|]. apply Forall_cons_iff in Hp as [Hc Hp].
  cbn [app Sh.read]. unfold Sh.literal in Hc. rewrite !andb_true_iff, !negb_true_iff in Hc.
  destruct Hc as [[[-> ->] ->] ->]. cbn [default]. by rewrite read_literal.
Qed.
End EscapeFacts.

Section BannerFacts.

Lemma trim_start_byte_id c (s : bytes) : c ∉ s -> trim_start_byte c s = s.
Proof.
  destruct s as [|b s]; [done|]. intros Hn. apply trim_start_byte_ne. intros ->. apply Hn. by left.
Qed.

Lemma trim_byte_id c (s : bytes) : c ∉ s -> trim_byte c s = s.
Proof.
  intros Hn. unfold trim_byte, trim_end_byte. rewrite (trim_start_byte_id c s) by done.
  rewrite trim_start_byte_id by (by rewrite elem_of_reverse). apply reverse_involutive.
Qed.

(** A feature name that survives the banner's separators. *)
Definition feature_ok (f : bytes) : Prop :=
  f <> [] /\ Forall (fun c => c ∉ f) [x00; ","%byte; ";"%byte; ":"%byte; "="%byte].

(** A property other than [features]. *)
Definition other_prop (p : bytes) : Prop := strip_prefix (B "features=") p = None.

Lemma join_not_in c sep (l : list bytes) :
  c <> sep -> Forall (fun p => c ∉ p) l -> c ∉ join [sep] l.
Proof.
  intros Hs. induction 1 as [|p l Hp HF IH]; [apply not_elem_of_nil|].
  cbn [join]. destruct l; [done|]. rewrite !elem_of_app, list_elem_of_singleton. tauto.
Qed.

Lemma feature_values_join fs :
  Forall feature_ok fs -> feature_values (join (B ",") fs) = fs.
Proof.
  intros HF. unfold feature_values. destruct fs as [|f fs]; [done|].
  rewrite (split_on_join ","%byte); [|done|].
  - induction HF as [|g gs (Hn & Hg) _ IH]; [done|]. cbn [map List.filter].
    apply Forall_cons_iff in Hg as [Hz _]. rewrite trim_byte_id by done. rewrite IH.
    unfold nonempty. destruct (Z.eqb_spec (zlen g) 0) as [E|]; [|done]. by apply zlen_0_nil in E.
  - eapply Forall_impl; [|exact HF]. intros g (_ & Hg). by repeat (apply Forall_cons_iff in Hg as [? Hg]).
Qed.

Lemma find_features_skip props rest :
  Forall other_prop props -> find_features (props ++ rest) = find_features rest.
Proof.
  induction 1 as [|p props Hp _ IH]; [done|]. cbn [app find_features]. rewrite IH.
  destruct (zlen p =? 0); [done|]. destruct (split_once _ p) as [[k v]|] eqn:Hs; [|done].
  destruct (contains _ v); [done|]. case_bool_decide as Hk; [|done].
  apply split_once_inv in Hs as [-> _]. subst k. unfold other_prop in Hp.
  change (B "features" ++ "="%byte :: v) with (B "features=" ++ v) in Hp.
  by rewrite strip_prefix_app in Hp.
Qed.

Lemma find_features_here fs rest :
  Forall feature_ok fs ->
  find_features ((B "features=" ++ join (B ",") fs) :: rest) = fs.
Proof.
  intros HF. cbn [find_features]. rewrite zlen_app. pose proof (zlen_nonneg (join (B ",") fs)).
  change (zlen (B "features=")) with 9. zcase; [lia|].
  change (B "features=" ++ ?t) with (B "features" ++ "="%byte :: t).
  assert ("="%byte ∉ join (B ",") fs) as Hn.
  { apply join_not_in; [done|]. eapply Forall_impl; [|exact HF].
    intros g (_ & Hg). by repeat (apply Forall_cons_iff in Hg as [? Hg]). }
  rewrite split_once_app by (by apply contains_false).
  rewrite (proj2 (contains_false _ _) Hn), bool_decide_true by done. by apply feature_values_join.
Qed.
End BannerFacts.

(** ** Properties *)

(** A remote command line survives the device's shell. For a program name made of literal
    characters and arbitrary arguments (quotes, blanks, newlines and shell metacharacters
    included), [exec_service_string] terminates and the command after [exec:] reads, as shell
    words, as exactly the program followed by the arguments. *)
Theorem exec_service_words prog args :
  prog <> [] -> Forall (fun c => Sh.literal c = true) prog ->
  exists cmd, exec_service_string (prog :: args) = Some (B "exec:" ++ cmd) /\
    Sh.words cmd = Some (prog :: args).
Proof.
  intros Hn Hp. exists (prog ++ concat (map (fun a => B " " ++ escaped a) args)).
  unfold exec_service_string, Sh.words. rewrite push_args_eq, <- app_assoc. split; [done|].
  by rewrite read_word, read_args.
Qed.

Lemma exec_service_words_witness :
  exists cmd, exec_service_string [B "echo"; B "it's $HOME; rm -rf *"; []] = Some (B "exec:" ++ cmd) /\
    Sh.words cmd = Some [B "echo"; B "it's $HOME; rm -rf *"; []].
Proof. apply exec_service_words; [done|by repeat constructor]. Defined.

(** The features a peer announces are the features parsed. For a banner of the form
    [kind:serial:properties], whatever other properties surround it, the [features] property
    listing separator-free names is read back as that list, in order. *)
Theorem banner_features_roundtrip kind serial before fs after :
  (":"%byte ∉ kind) -> (":"%byte ∉ serial) ->
  Forall (fun p => (";"%byte ∉ p) /\ (":"%byte ∉ p)) (before ++ after) -> Forall other_prop before ->
  Forall feature_ok fs ->
  parse_banner_features
    (kind ++ B ":" ++ serial ++ B ":"
     ++ join (B ";") (before ++ (B "features=" ++ features_to_string fs) :: after)) = fs.
Proof.
  intros Hk Hs Hsep Hb Hf. unfold parse_banner_features, features_to_string.
  set (here := B "features=" ++ join (B ",") fs).
  assert (forall c, c <> ","%byte -> (c ∉ B "features=") -> Forall (fun f => c ∉ f) fs -> c ∉ here) as Hhere.
  { intros c Hc H1 H2. unfold here. rewrite elem_of_app. pose proof (join_not_in c ","%byte fs Hc H2). tauto. }
  assert (Forall (fun p => (";"%byte ∉ p) /\ (":"%byte ∉ p)) (before ++ here :: after)) as Hall.
  { apply Forall_app in Hsep as [? ?]. apply Forall_app. split; [done|]. constructor; [|done].
    split; apply Hhere; try done; try (by apply contains_false); (eapply Forall_impl; [|exact Hf]);
      intros g (_ & Hg); by repeat (apply Forall_cons_iff in Hg as [? Hg]). }
  assert (":"%byte ∉ join (B ";") (before ++ here :: after)) as Hj.
  { apply join_not_in; [done|]. eapply Forall_impl; [|exact Hall]. by intros ? []. }
  assert (forall t, B ":" ++ t = ":"%byte :: t) as E by done. rewrite !E.
  rewrite !split_on_app, (split_on_none ":"%byte) by done.
  change (zlen [_; _; _] <? 3) with false. cbn [lookup list_lookup default].
  change (id _) with (join [";"%byte] (before ++ here :: after)).
  rewrite split_on_join; [|by destruct before|].
  - rewrite find_features_skip by done. by apply find_features_here.
  - eapply Forall_impl; [|exact Hall]. by intros ? [].
Qed.

Lemma banner_features_roundtrip_witness :
  parse_banner_features
    (B "device" ++ B ":" ++ [] ++ B ":"
     ++ join (B ";") ([B "ro.product.name=x"] ++ (B "features=" ++ features_to_string [B "shell_v2"; B "cmd"]) :: []))
  = [B "shell_v2"; B "cmd"].
Proof.
  apply banner_features_roundtrip; try (by apply contains_false).
  - repeat constructor; by apply contains_false.
  - by repeat constructor.
  - repeat constructor; try done; by apply contains_false.
Defined.

(** The negotiated set. The host's own CNXN payload parses back to exactly the features the
    host implements, and a feature may be used with a peer iff the peer's banner lists it and
    the host implements it. *)
Theorem negotiated_features banner f :
  parse_banner_features host_cnxn_payload = host_supported_features /\
  (can_use_feature (parse_banner_features banner) f = true <->
   f ∈ parse_banner_features banner /\ f ∈ host_supported_features).
Proof.
  split; [by vm_compute|]. unfold can_use_feature. rewrite andb_true_iff.
  assert (forall l, existsb (fun g => bool_decide (g = f)) l = true <-> f ∈ l) as E.
  { intros l. rewrite existsb_exists. setoid_rewrite bool_decide_eq_true.
    rewrite list_elem_of_In. split; [by intros (? & ? & ->)|by exists f]. }
  by rewrite !E.
Qed.
