(* ===== verification/FastbootProto.v ===== *)
(** The fastboot command language ([src/crates/fastboot-protocol/src]): responses
    ([response.rs]), command strings ([command.rs]), slot selection ([slot.rs]) and image
    lookup ([image.rs]). *)
From S2P Require Import Prelude Text.

(** ** [response.rs] *)
Inductive FastbootResponseError :=
| TooShort
| UnknownPrefix (s : bytes)
| InvalidDataSize (s : bytes).

Inductive FastbootResponse :=
| Okay (s : bytes)
| Fail_ (s : bytes)
| Data (size : Z)
| Info_ (s : bytes)
| Text_ (s : bytes).

Definition parse_data (payload : bytes) : res FastbootResponseError FastbootResponse :=
  if negb (zlen payload =? 8) then Err (InvalidDataSize (from_utf8_lossy payload))
  else if negb (is_utf8 payload) then Err (InvalidDataSize (from_utf8_lossy payload))
  else match parse_uint 16 u32_max payload with
       | Some size => Ok (Data size)
       | None => Err (InvalidDataSize payload)
       end.

Definition parse (buf : bytes) : res FastbootResponseError FastbootResponse :=
  if zlen buf <? 4 then Err TooShort else
  let! head := get_slice buf 0 4 in
  if negb (is_utf8 head) then Err (UnknownPrefix (fmt_bytes head)) else
  let! payload := get_slice buf 4 (zlen buf) in
  if bool_decide (head = B "OKAY") then Ok (Okay (from_utf8_lossy payload))
  else if bool_decide (head = B "FAIL") then Ok (Fail_ (from_utf8_lossy payload))
  else if bool_decide (head = B "INFO") then Ok (Info_ (from_utf8_lossy payload))
  else if bool_decide (head = B "TEXT") then Ok (Text_ (from_utf8_lossy payload))
  else if bool_decide (head = B "DATA") then parse_data payload
  else Err (UnknownPrefix head).

(** ** [command.rs] *)
Module Command.
Definition getvar (variable : bytes) : bytes := B "getvar:" ++ variable.
Definition flash (partition : bytes) : bytes := B "flash:" ++ partition.
Definition erase (partition : bytes) : bytes := B "erase:" ++ partition.
Definition reboot (target : option bytes) : bytes :=
  match target with
  | Some t =>
      if negb (zlen (trim t) =? 0) then
        let trimmed := trim t in
        if starts_with (B "reboot-") trimmed then trimmed else B "reboot-" ++ trimmed
      else B "reboot"
  | None => B "reboot"
  end.
Definition download (size : Z) : bytes := B "download:" ++ fmt_hex_pad 8 size.
Definition create_logical_partition (partition : bytes) (size : Z) : bytes :=
  B "create-logical-partition:" ++ partition ++ B ":" ++ fmt_dec size.
Definition delete_logical_partition (partition : bytes) : bytes :=
  B "delete-logical-partition:" ++ partition.
Definition resize_logical_partition (partition : bytes) (size : Z) : bytes :=
  B "resize-logical-partition:" ++ partition ++ B ":" ++ fmt_dec size.
Definition signature : bytes := B "signature".
Definition snapshot_update (command : option bytes) : bytes :=
  B "snapshot-update:" ++ default [] command.
Definition boot : bytes := B "boot".
Definition fetch (partition : bytes) (offset size : option Z) : bytes :=
  let command := B "fetch:" ++ partition in
  match offset with
  | Some offset =>
      let command := command ++ B ":0x" ++ fmt_hex_pad 8 offset in
      match size with
      | Some size => command ++ B ":0x" ++ fmt_hex_pad 8 size
      | None => command
      end
  | None => command
  end.
End Command.

(** ** [slot.rs] *)
Inductive SlotSelection := Current | Named (slot : bytes) | All | Other.
Inductive SlotError := Invalid (slot : bytes) | RequiresDeviceResolution (slot : bytes).

Module SlotSelection.
(** [u8::is_ascii_lowercase] *)
Definition is_ascii_lowercase (b : byte) : bool := (97 <=? b2z b) && (b2z b <=? 122).

Definition parse (value : option bytes) : res SlotError SlotSelection :=
  match value with
  | None => Ok Current
  | Some value =>
      if bool_decide (value = B "all") then Ok All
      else if bool_decide (value = B "other") then Ok Other
      else match value with
           | [c] => if is_ascii_lowercase c then Ok (Named value) else Err (Invalid value)
           | _ => Err (Invalid value)
           end
  end.

Definition partition_base_name (self : SlotSelection) (partition : bytes) : res SlotError bytes :=
  match self with
  | Current => Ok partition
  | Named slot =>
      let suffix := B "_" ++ slot in
      if ends_with suffix partition then Ok partition else Ok (partition ++ suffix)
  | All => Err (RequiresDeviceResolution (B "all"))
  | Other => Err (RequiresDeviceResolution (B "other"))
  end.

Definition partition_name (self : SlotSelection) (partition : bytes) : res SlotError bytes :=
  match split_once ":"%byte partition with
  | None => partition_base_name self partition
  | Some (base, rest) =>
      let! name := partition_base_name self base in
      Ok (name ++ B ":" ++ rest)
  end.
End SlotSelection.

(** ** [image.rs] *)
Definition AOSP_IMAGE_MAPPINGS : list (bytes * bytes) := [
  (B "boot", B "boot.img");
  (B "bootloader", B "bootloader.img");
  (B "init_boot", B "init_boot.img");
  (B "dtbo", B "dtbo.img");
  (B "dts", B "dt.img");
  (B "odm", B "odm.img");
  (B "odm_dlkm", B "odm_dlkm.img");
  (B "product", B "product.img");
  (B "pvmfw", B "pvmfw.img");
  (B "radio", B "radio.img");
  (B "recovery", B "recovery.img");
  (B "super", B "super.img");
  (B "system", B "system.img");
  (B "system_dlkm", B "system_dlkm.img");
  (B "system_ext", B "system_ext.img");
  (B "userdata", B "userdata.img");
  (B "vbmeta", B "vbmeta.img");
  (B "vbmeta_system", B "vbmeta_system.img");
  (B "vbmeta_vendor", B "vbmeta_vendor.img");
  (B "vendor", B "vendor.img");
  (B "vendor_boot", B "vendor_boot.img");
  (B "vendor_dlkm", B "vendor_dlkm.img");
  (B "vendor_kernel_boot", B "vendor_kernel_boot.img");
  (B "cache", B "cache.img")].

(** [PathBuf::push] on a Unix path: an absolute path replaces, a separator is added when
    the path is not empty and does not end with one. *)
Definition path_push (path name : bytes) : bytes :=
  if starts_with (B "/") name then name
  else if (zlen path =? 0) || ends_with (B "/") path then path ++ name
  else path ++ B "/" ++ name.

(** [opt.filter(|s| !s.trim().is_empty()).map(str::trim)], the test both functions start with. *)
Definition given (s : option bytes) : option bytes :=
  match s with
  | Some f => let trimmed := trim f in if zlen trimmed =? 0 then None else Some trimmed
  | None => None
  end.

Definition image_name (partition : bytes) : bytes :=
  let base_partition :=
    match strip_suffix (B "_a") partition with
    | Some p => p
    | None => default partition (strip_suffix (B "_b") partition)
    end in
  match List.find (fun '(nickname, _) =>
                bool_decide (nickname = partition) || bool_decide (nickname = base_partition))
             AOSP_IMAGE_MAPPINGS with
  | Some (_, filename) => filename
  | None => partition ++ B ".img"
  end.

Definition resolve_image_path (partition : bytes) (file product_out : option bytes) : res bytes bytes :=
  match given file with
  | Some f => Ok f
  | None =>
      match given product_out with
      | Some out_dir => Ok (path_push out_dir (image_name partition))
      | None =>
          Err (B "cannot determine image filename for '" ++ partition ++
               B "': ANDROID_PRODUCT_OUT is not set and no file was specified")
      end
  end.

Definition resolve_super_empty_path (image product_out : option bytes) : res bytes bytes :=
  match given image with
  | Some f => Ok f
  | None =>
      match given product_out with
      | Some out_dir => Ok (path_push out_dir (B "super_empty.img"))
      | None =>
          Err (B "cannot determine super_empty image filename: ANDROID_PRODUCT_OUT is not set and no image was specified")
      end
  end.

(** ** Facts *)
Section ResponseFacts.

(** The wire form of a response. *)
Definition render (r : FastbootResponse) : bytes :=
  match r with
  | Okay s => B "OKAY" ++ s
  | Fail_ s => B "FAIL" ++ s
  | Info_ s => B "INFO" ++ s
  | Text_ s => B "TEXT" ++ s
  | Data n => B "DATA" ++ fmt_hex_pad 8 n
  end.

Definition response_ok (r : FastbootResponse) : Prop :=
  match r with
  | Okay s | Fail_ s | Info_ s | Text_ s => is_utf8 s = true
  | Data n => u32 n
  end.

Lemma parse_head h payload :
  zlen h = 4 ->
  parse (h ++ payload) =
    if negb (is_utf8 h) then Err (UnknownPrefix (fmt_bytes h))
    else if bool_decide (h = B "OKAY") then Ok (Okay (from_utf8_lossy payload))
    else if bool_decide (h = B "FAIL") then Ok (Fail_ (from_utf8_lossy payload))
    else if bool_decide (h = B "INFO") then Ok (Info_ (from_utf8_lossy payload))
    else if bool_decide (h = B "TEXT") then Ok (Text_ (from_utf8_lossy payload))
    else if bool_decide (h = B "DATA") then parse_data payload
    else Err (UnknownPrefix h).
Proof.
  intros Hh. unfold parse. pose proof (zlen_nonneg payload). rewrite zlen_app, Hh. zcase; [lia|].
  rewrite !get_slice_ok by zg. cbn [res_bind].
  rewrite slice_app_l, slice_full by lia. destruct (negb _); [done|].
  rewrite slice_app_r by lia. rewrite Hh. change (4 - 4) with 0. by rewrite slice_full by lia.
Qed.

Lemma parse_data_hex n : u32 n -> parse_data (fmt_hex_pad 8 n) = Ok (Data n).
Proof.
  unfold u32, uint. intros Hn. unfold parse_data.
  assert (zlen (fmt_hex_pad 8 n) = 8) as ->.
  { unfold zlen. rewrite length_fmt_hex_pad; [done|lia|]. change (16 ^ Z.of_nat 8) with (2 ^ 32). lia. }
  rewrite ascii_utf8 by apply fmt_hex_pad_ascii. cbn [negb Z.eqb].
  change (negb (8 =? 8)) with false. cbn [negb]. by rewrite parse_fmt_hex_pad by (unfold u32_max; lia).
Qed.

Lemma parse_render r : response_ok r -> parse (render r) = Ok r.
Proof.
  destruct r as [s|s|n|s|s]; cbn [response_ok render]; intros Hr; rewrite parse_head by done.
  1,2,4,5: cbn; by rewrite lossy_utf8.
  cbn -[parse_data fmt_hex_pad]. by apply parse_data_hex.
Qed.
End ResponseFacts.

Section SlotFacts.
Import SlotSelection.

Lemma ends_with_colon_free slot p :
  (":"%byte ∉ slot) -> (":"%byte ∉ p) -> ":"%byte ∉ p ++ B "_" ++ slot.
Proof. intros Hs Hp. change (B "_") with ["_"%byte]. rewrite !elem_of_app, list_elem_of_singleton. by intros [?|[?|?]]. Qed.

Lemma base_name_colon_free self p q :
  match self with Named s => ":"%byte ∉ s | _ => True end ->
  (":"%byte ∉ p) -> partition_base_name self p = Ok q -> ":"%byte ∉ q.
Proof.
  intros Hs Hp. destruct self as [|slot| |]; cbn [partition_base_name]; try done.
  - by intros [= <-].
  - destruct (ends_with _ p); intros [= <-]; [done|]. by apply ends_with_colon_free.
Qed.

Lemma base_name_idem self p q :
  partition_base_name self p = Ok q -> partition_base_name self q = Ok q.
Proof.
  destruct self as [|slot| |]; cbn [partition_base_name]; try done.
  destruct (ends_with (B "_" ++ slot) p) eqn:He; intros [= <-]; [by rewrite He|].
  change (p ++ "_"%byte :: slot) with (p ++ B "_" ++ slot).
  by rewrite (ends_with_app (B "_" ++ slot) p).
Qed.

(** What [parse] accepts names no partition separator. *)
Lemma parse_slot_colon_free v self :
  parse v = Ok self -> match self with Named s => ":"%byte ∉ s | _ => True end.
Proof.
  unfold parse. destruct v as [v|]; [|by intros [= <-]].
  repeat (case_bool_decide; [by intros [= <-]|]).
  destruct v as [|c [|]]; try done. destruct (is_ascii_lowercase c) eqn:Hc; [|done].
  intros [= <-]. rewrite list_elem_of_singleton. intros <-. by vm_compute in Hc.
Qed.
End SlotFacts.

(** ** Properties *)

(** Every response a bootloader can send is read back: [parse] on the wire form of an OKAY,
    FAIL, INFO or TEXT message with a UTF-8 body, or of a DATA message with a 32-bit size in
    eight hexadecimal digits, returns that response. *)
Theorem response_roundtrip r : response_ok r -> parse (render r) = Ok r.
Proof. apply parse_render. Qed.

Lemma response_roundtrip_witness :
  u32 0x8000 /\ parse (B "DATA00008000") = Ok (Data 0x8000).
Proof.
  assert (u32 0x8000) as H by (unfold u32, uint; lia). split; [done|].
  exact (response_roundtrip (Data 0x8000) H).
Defined.

(** [parse] is total and its errors are exactly these: fewer than four bytes; a prefix that
    is none of the five keywords (shown as a byte list when it is not UTF-8); a DATA body that
    is not eight bytes of a hexadecimal number. *)
Theorem response_parse_total buf :
  match parse buf with
  | Panic => False
  | Err TooShort => zlen buf < 4
  | Err (UnknownPrefix s) =>
      4 <= zlen buf /\ (slice 0 4 buf ∉ [B "OKAY"; B "FAIL"; B "INFO"; B "TEXT"; B "DATA"]) /\
      s = (if is_utf8 (slice 0 4 buf) then slice 0 4 buf else fmt_bytes (slice 0 4 buf))
  | Err (InvalidDataSize s) =>
      slice 0 4 buf = B "DATA" /\
      (zlen buf <> 12 \/ is_utf8 (slice 4 12 buf) = false \/
       parse_uint 16 u32_max (slice 4 12 buf) = None)
  | Ok (Data n) => zlen buf = 12 /\ slice 0 4 buf = B "DATA" /\ u32 n /\
      parse_uint 16 u32_max (slice 4 12 buf) = Some n
  | Ok r => slice 0 4 buf ++ from_utf8_lossy (slice 4 (zlen buf) buf) = render r
  end.
Proof.
  destruct (Z.ltb_spec (zlen buf) 4) as [|Hl].
  { unfold parse. by rewrite (proj2 (Z.ltb_lt _ _)). }
  pose proof (slice_cut 0 4 (zlen buf) buf ltac:(lia) ltac:(lia) Hl) as Hc.
  rewrite slice_full in Hc by lia. set (h := slice 0 4 buf) in *. set (p := slice 4 (zlen buf) buf) in *.
  assert (zlen h = 4) as Hh by (unfold h; rewrite zlen_slice; lia).
  assert (zlen p = zlen buf - 4) as Hp by (unfold p; rewrite zlen_slice; lia).
  pose proof (parse_head h p Hh) as HP. rewrite <- Hc in HP. rewrite HP. clear HP. destruct (is_utf8 h) eqn:Hu; cbn [negb]; cycle 1.
  { split; [done|]. split; [|done]. rewrite !not_elem_of_cons.
    repeat split; try apply not_elem_of_nil; intros E; by rewrite E in Hu. }
  case_bool_decide as E1; [by rewrite E1|]. case_bool_decide as E2; [by rewrite E2|].
  case_bool_decide as E3; [by rewrite E3|]. case_bool_decide as E4; [by rewrite E4|].
  case_bool_decide as E5.
  - unfold parse_data. destruct (Z.eqb_spec (zlen p) 8) as [E8|]; cbn [negb]; [|by split; [|left; lia]].
    assert (slice 4 12 buf = p) as -> by (unfold p; f_equal; lia).
    destruct (is_utf8 p) eqn:Hup; cbn [negb]; [|by split; [|right; left]].
    destruct (parse_uint 16 u32_max p) as [n|] eqn:Hn; [|by split; [|right; right]].
    split; [lia|]. split; [done|]. split; [|done].
    apply parse_uint_range in Hn; [|lia]. unfold u32, uint, u32_max in *. lia.
  - split; [done|]. split; [|done]. rewrite !not_elem_of_cons. repeat split; try done.
    apply not_elem_of_nil.
Qed.

(** The two sides of a download agree on the size. For every 32-bit size the command is
    [download:] and exactly eight hexadecimal digits, and a device that answers DATA with the
    digits it received announces that same size. *)
Theorem download_data_agree n :
  u32 n ->
  zlen (Command.download n) = 17 /\
  exists digits, Command.download n = B "download:" ++ digits /\ parse (B "DATA" ++ digits) = Ok (Data n).
Proof.
  intros Hn. split.
  - unfold Command.download. rewrite zlen_app. unfold zlen at 2. unfold u32, uint in Hn.
    rewrite length_fmt_hex_pad; [done|lia|]. change (16 ^ Z.of_nat 8) with (2 ^ 32). lia.
  - eexists. split; [done|]. rewrite parse_head by done. by apply parse_data_hex.
Qed.

Lemma download_data_agree_witness :
  zlen (Command.download 0x100000) = 17 /\
  exists digits, Command.download 0x100000 = B "download:" ++ digits /\
    parse (B "DATA" ++ digits) = Ok (Data 0x100000).
Proof. apply download_data_agree. unfold u32, uint. lia. Defined.

(** Slot suffixes are applied once. For a selection accepted by [SlotSelection::parse],
    naming an already named partition changes nothing, and a partition modifier after the first
    colon is kept as it is. *)
Theorem partition_name_stable v self p q :
  SlotSelection.parse v = Ok self -> SlotSelection.partition_name self p = Ok q ->
  SlotSelection.partition_name self q = Ok q /\
  option_map snd (split_once ":"%byte q) = option_map snd (split_once ":"%byte p).
Proof.
  intros Hv. apply parse_slot_colon_free in Hv. unfold SlotSelection.partition_name at 1.
  destruct (split_once ":"%byte p) as [[base rest]|] eqn:Hs.
  - intros H. res_inv H. simplify_eq. apply split_once_inv in Hs as [-> Hb].
    pose proof (base_name_colon_free _ _ _ Hv Hb Ha) as Hc. apply base_name_idem in Ha.
    unfold SlotSelection.partition_name. change (a ++ B ":" ++ rest) with (a ++ ":"%byte :: rest).
    rewrite split_once_app by done. rewrite Ha. by split.
  - intros Ha. assert (":"%byte ∉ p) as Hp.
    { intros Hin. apply list_elem_of_split in Hin as (l1 & l2 & ->).
      destruct (split_once_some ":"%byte l1 l2) as (x & Hx). congruence. }
    pose proof (base_name_colon_free _ _ _ Hv Hp Ha) as Hc. apply base_name_idem in Ha.
    unfold SlotSelection.partition_name. rewrite split_once_none by done. by split.
Qed.

Lemma partition_name_stable_witness :
  SlotSelection.partition_name (Named (B "a")) (B "vendor_boot_a:default") = Ok (B "vendor_boot_a:default") /\
  option_map snd (split_once ":"%byte (B "vendor_boot_a:default"))
    = option_map snd (split_once ":"%byte (B "vendor_boot:default")).
Proof. apply (partition_name_stable (Some (B "a"))); by vm_compute. Defined.
