(* ===== verification/SparseImage.v ===== *)
(** Android sparse images ([src/crates/fastboot-protocol/src/sparse.rs]): headers, chunks, the
    file encoder and decoder, conversion from and to raw images, and splitting into pieces that
    fit the device's download buffer. *)
From S2P Require Import Prelude Wire.

Definition SPARSE_HEADER_MAGIC : Z := 0xED26FF3A.
Definition CHUNK_TYPE_RAW : Z := 0xCAC1.
Definition CHUNK_TYPE_FILL : Z := 0xCAC2.
Definition CHUNK_TYPE_DONT_CARE : Z := 0xCAC3.
Definition CHUNK_TYPE_CRC32 : Z := 0xCAC4.

Inductive SparseError :=
| HeaderTooShort (got : Z)
| InvalidMagic (magic : Z)
| UnsupportedVersion (major minor : Z)
| InvalidFileHeaderSize (sz : Z)
| InvalidChunkHeaderSize (sz : Z)
| MaxDownloadSizeTooSmall (max_size min_required : Z)
| UnalignedChunkData (len blk_sz : Z)
| InvalidBlockSize (sz : Z)
| InvalidChunkSize (sz : Z)
| ChunkPayloadTooShort (expected got : Z)
| UnknownChunkType (ty : Z).

Abbreviation sparse A := (res SparseError A).

Record SparseChunkHeader := { ch_type : Z; reserved1 : Z; chunk_sz : Z; total_sz : Z }.

Module SparseChunkHeader.
Definition SIZE : Z := 12.
Definition new (chunk_type chunk_sz total_sz : Z) : SparseChunkHeader :=
  {| ch_type := chunk_type; reserved1 := 0; chunk_sz := chunk_sz; total_sz := total_sz |}.
Definition encode (h : SparseChunkHeader) : bytes :=
  let buf := zrep 12 x00 in
  let buf := write_u16 0 (ch_type h) buf in
  let buf := write_u16 2 (reserved1 h) buf in
  let buf := write_u32 4 (chunk_sz h) buf in
  write_u32 8 (total_sz h) buf.
Definition decode (buf : bytes) : sparse SparseChunkHeader :=
  if zlen buf <? SIZE then Err (HeaderTooShort (zlen buf)) else
  let! chunk_type := read_u16 buf 0 in
  let! reserved1 := read_u16 buf 2 in
  let! chunk_sz := read_u32 buf 4 in
  let! total_sz := read_u32 buf 8 in
  Ok {| ch_type := chunk_type; reserved1 := reserved1; chunk_sz := chunk_sz; total_sz := total_sz |}.
Definition typed (h : SparseChunkHeader) : Prop :=
  u16 (ch_type h) /\ u16 (reserved1 h) /\ u32 (chunk_sz h) /\ u32 (total_sz h).
End SparseChunkHeader.

Record SparseHeader := {
  magic : Z; major_version : Z; minor_version : Z; file_hdr_sz : Z; chunk_hdr_sz : Z;
  blk_sz : Z; total_blks : Z; total_chunks : Z; image_checksum : Z;
}.

Module SparseHeader.
Definition SIZE : Z := 28.
Definition new (blk_sz total_blks total_chunks : Z) : SparseHeader :=
  {| magic := SPARSE_HEADER_MAGIC; major_version := 1; minor_version := 0; file_hdr_sz := SIZE;
     chunk_hdr_sz := SparseChunkHeader.SIZE; blk_sz := blk_sz; total_blks := total_blks;
     total_chunks := total_chunks; image_checksum := 0 |}.
Definition encode (h : SparseHeader) : bytes :=
  let buf := zrep 28 x00 in
  let buf := write_u32 0 (magic h) buf in
  let buf := write_u16 4 (major_version h) buf in
  let buf := write_u16 6 (minor_version h) buf in
  let buf := write_u16 8 (file_hdr_sz h) buf in
  let buf := write_u16 10 (chunk_hdr_sz h) buf in
  let buf := write_u32 12 (blk_sz h) buf in
  let buf := write_u32 16 (total_blks h) buf in
  let buf := write_u32 20 (total_chunks h) buf in
  write_u32 24 (image_checksum h) buf.
Definition decode (buf : bytes) : sparse SparseHeader :=
  if zlen buf <? SIZE then Err (HeaderTooShort (zlen buf)) else
  let! magic := read_u32 buf 0 in
  if negb (magic =? SPARSE_HEADER_MAGIC) then Err (InvalidMagic magic) else
  let! major_version := read_u16 buf 4 in
  let! minor_version := read_u16 buf 6 in
  if negb (major_version =? 1) then Err (UnsupportedVersion major_version minor_version) else
  let! file_hdr_sz := read_u16 buf 8 in
  if file_hdr_sz <? SIZE then Err (InvalidFileHeaderSize file_hdr_sz) else
  let! chunk_hdr_sz := read_u16 buf 10 in
  if chunk_hdr_sz <? SparseChunkHeader.SIZE then Err (InvalidChunkHeaderSize chunk_hdr_sz) else
  let! blk_sz := read_u32 buf 12 in
  let! total_blks := read_u32 buf 16 in
  let! total_chunks := read_u32 buf 20 in
  let! image_checksum := read_u32 buf 24 in
  Ok {| magic := magic; major_version := major_version; minor_version := minor_version;
        file_hdr_sz := file_hdr_sz; chunk_hdr_sz := chunk_hdr_sz; blk_sz := blk_sz;
        total_blks := total_blks; total_chunks := total_chunks; image_checksum := image_checksum |}.
Definition typed (h : SparseHeader) : Prop :=
  magic h = SPARSE_HEADER_MAGIC /\ major_version h = 1 /\ u16 (minor_version h) /\
  u16 (file_hdr_sz h) /\ SIZE <= file_hdr_sz h /\ u16 (chunk_hdr_sz h) /\
  SparseChunkHeader.SIZE <= chunk_hdr_sz h /\ u32 (blk_sz h) /\ u32 (total_blks h) /\
  u32 (total_chunks h) /\ u32 (image_checksum h).
End SparseHeader.

Record SparseChunk := { chunk_type : Z; chunk_blocks : Z; payload : bytes }.

Module SparseChunk.
Definition total_size (c : SparseChunk) : Z := SparseChunkHeader.SIZE + zlen (payload c).
Definition raw (data : bytes) (blk_sz : Z) : sparse SparseChunk :=
  if blk_sz =? 0 then Err (InvalidBlockSize 0)
  else if zlen data =? 0 then Err (InvalidChunkSize 0)
  else if negb (zlen data mod blk_sz =? 0) then Err (UnalignedChunkData (zlen data) blk_sz)
  else Ok {| chunk_type := CHUNK_TYPE_RAW; chunk_blocks := wrap 32 (zlen data / blk_sz); payload := data |}.
Definition fill (fill_val blocks : Z) : sparse SparseChunk :=
  if blocks =? 0 then Err (InvalidChunkSize 0)
  else Ok {| chunk_type := CHUNK_TYPE_FILL; chunk_blocks := blocks;
             payload := write_u32 0 fill_val (zrep 4 x00) |}.
Definition dont_care (blocks : Z) : sparse SparseChunk :=
  if blocks =? 0 then Err (InvalidChunkSize 0)
  else Ok {| chunk_type := CHUNK_TYPE_DONT_CARE; chunk_blocks := blocks; payload := [] |}.
Definition crc32 (crc : Z) : sparse SparseChunk :=
  Ok {| chunk_type := CHUNK_TYPE_CRC32; chunk_blocks := 0; payload := write_u32 0 crc (zrep 4 x00) |}.
Definition fill_value (c : SparseChunk) : option Z :=
  if (chunk_type c =? CHUNK_TYPE_FILL) && (zlen (payload c) =? 4)
  then Some (le_val (payload c)) else None.
Definition encode (c : SparseChunk) : bytes :=
  let hdr := SparseChunkHeader.new (chunk_type c) (chunk_blocks c) (wrap 32 (total_size c)) in
  SparseChunkHeader.encode hdr ++ payload c.
End SparseChunk.

Record SparseFile := { header : SparseHeader; chunks : list SparseChunk }.

Module SparseFile.
Definition new (blk_sz : Z) : SparseFile := {| header := SparseHeader.new blk_sz 0 0; chunks := [] |}.

Definition with_totals (h : SparseHeader) (blks cnt : Z) : SparseHeader :=
  {| magic := magic h; major_version := major_version h; minor_version := minor_version h;
     file_hdr_sz := file_hdr_sz h; chunk_hdr_sz := chunk_hdr_sz h; blk_sz := blk_sz h;
     total_blks := blks; total_chunks := cnt; image_checksum := image_checksum h |}.

Definition add_chunk (f : SparseFile) (c : SparseChunk) : SparseFile :=
  let cs := chunks f ++ [c] in
  {| header := with_totals (header f) (wrap 32 (total_blks (header f) + chunk_blocks c)) (wrap 32 (zlen cs));
     chunks := cs |}.

Definition total_blocks (f : SparseFile) : Z :=
  foldl (fun s c => wrap 32 (s + chunk_blocks c)) 0 (chunks f).

Definition sum_sizes (cs : list SparseChunk) : Z := foldr (fun c s => SparseChunk.total_size c + s) 0 cs.
Definition total_size (f : SparseFile) : Z := SparseHeader.SIZE + sum_sizes (chunks f).

Definition encode (f : SparseFile) : bytes :=
  let header := with_totals (header f) (total_blocks f) (wrap 32 (zlen (chunks f))) in
  SparseHeader.encode header ++ concat (map SparseChunk.encode (chunks f)).

Definition from_raw (raw_data : bytes) (blk_sz : Z) : SparseFile :=
  let blk_sz := if blk_sz =? 0 then 4096 else blk_sz in
  let file := new blk_sz in
  if zlen raw_data =? 0 then file else
  let rem := zlen raw_data mod blk_sz in
  let padded_len := if rem =? 0 then zlen raw_data else zlen raw_data + (blk_sz - rem) in
  let data := if negb (rem =? 0) then resize padded_len x00 raw_data else raw_data in
  match SparseChunk.raw data blk_sz with
  | Ok chunk => add_chunk file chunk
  | _ => file
  end.

(** One chunk's contribution to [to_raw]. *)
Definition chunk_raw (bs : Z) (c : SparseChunk) : bytes :=
  if chunk_type c =? CHUNK_TYPE_RAW then payload c
  else if chunk_type c =? CHUNK_TYPE_FILL then
    let fill_bytes := chunk_blocks c * bs in
    if zlen (payload c) =? 4
    then concat (replicate (Z.to_nat (fill_bytes / 4)) (le_bytes 4 (le_val (payload c))))
    else zrep fill_bytes x00
  else if chunk_type c =? CHUNK_TYPE_DONT_CARE then zrep (chunk_blocks c * bs) x00
  else [].

Definition to_raw (f : SparseFile) : bytes :=
  foldl (fun raw c => raw ++ chunk_raw (blk_sz (header f)) c) [] (chunks f).

(** The [match] on the chunk type in [from_bytes]: the payload length each type requires. *)
Definition check_payload (h : SparseHeader) (ch : SparseChunkHeader) (payload_len : Z) : sparse unit :=
  if ch_type ch =? CHUNK_TYPE_RAW then
    let expected_len := chunk_sz ch * blk_sz h in
    if negb (payload_len =? expected_len) then Err (ChunkPayloadTooShort expected_len payload_len) else Ok tt
  else if ch_type ch =? CHUNK_TYPE_FILL then
    if negb (payload_len =? 4) then Err (ChunkPayloadTooShort 4 payload_len) else Ok tt
  else if ch_type ch =? CHUNK_TYPE_DONT_CARE then
    if negb (payload_len =? 0) then Err (ChunkPayloadTooShort 0 payload_len) else Ok tt
  else if ch_type ch =? CHUNK_TYPE_CRC32 then
    if negb (payload_len =? 4) then Err (ChunkPayloadTooShort 4 payload_len) else Ok tt
  else Err (UnknownChunkType (ch_type ch)).

(** One iteration of the loop of [from_bytes]: a chunk and the offset after it. *)
Definition read_chunk (buf : bytes) (h : SparseHeader) (offset : Z) : sparse (SparseChunk * Z) :=
  if zlen buf <? offset + chunk_hdr_sz h then Err (HeaderTooShort (zlen buf)) else
  let! tail := get_slice buf offset (zlen buf) in
  let! ch := SparseChunkHeader.decode tail in
  let payload_offset := offset + chunk_hdr_sz h in
  if total_sz ch <? chunk_hdr_sz h then Err (InvalidChunkHeaderSize (wrap 16 (total_sz ch))) else
  let payload_len := total_sz ch - chunk_hdr_sz h in
  if zlen buf <? payload_offset + payload_len
  then Err (ChunkPayloadTooShort (payload_offset + payload_len) (zlen buf)) else
  let! _ := check_payload h ch payload_len in
  let! p := get_slice buf payload_offset (payload_offset + payload_len) in
  Ok ({| chunk_type := ch_type ch; chunk_blocks := chunk_sz ch; payload := p |}, offset + total_sz ch).

Fixpoint read_chunks (n : nat) (buf : bytes) (h : SparseHeader) (offset : Z) : sparse (list SparseChunk) :=
  match n with
  | O => Ok []
  | S n =>
      let! r := read_chunk buf h offset in
      let! cs := read_chunks n buf h (snd r) in
      Ok (fst r :: cs)
  end.

Definition from_bytes (buf : bytes) : sparse SparseFile :=
  let! h := SparseHeader.decode buf in
  let! cs := read_chunks (Z.to_nat (total_chunks h)) buf h (file_hdr_sz h) in
  Ok {| header := h; chunks := cs |}.

Definition is_nil {A} (l : list A) : bool := match l with [] => true | _ => false end.

(** The [while] loop of [split] over one chunk. [None] is fuel exhaustion; an iteration that
    only flushes the current piece is followed by one that consumes blocks or fails, so twice
    the number of blocks and two more iterations suffice. *)
Fixpoint split_chunk (fuel : nat) (bs max_size min_required : Z) (c : SparseChunk)
    (remaining raw_offset : Z) (splits : list SparseFile) (cur : SparseFile)
    : option (sparse (list SparseFile * SparseFile)) :=
  match fuel with
  | O => None
  | S fuel =>
      if negb ((0 <? remaining) || (chunk_type c =? CHUNK_TYPE_CRC32)) then Some (Ok (splits, cur)) else
      let avail := Z.max 0 (max_size - total_size cur) in
      (* push the current piece and continue, or fail on an empty one *)
      let flush :=
        if negb (is_nil (chunks cur))
        then split_chunk fuel bs max_size min_required c remaining raw_offset (splits ++ [cur]) (new bs)
        else Some (Err (MaxDownloadSizeTooSmall max_size min_required)) in
      if chunk_type c =? CHUNK_TYPE_RAW then
        let avail_payload := Z.max 0 (avail - SparseChunkHeader.SIZE) in
        let blocks_that_fit := avail_payload / bs in
        if blocks_that_fit =? 0 then flush else
        let take_blocks := Z.min remaining (wrap 32 blocks_that_fit) in
        let take_bytes := take_blocks * bs in
        match @get_slice SparseError _ (payload c) raw_offset (raw_offset + take_bytes) with
        | Ok slice_payload =>
            let cur := add_chunk cur {| chunk_type := CHUNK_TYPE_RAW; chunk_blocks := take_blocks;
                                        payload := slice_payload |} in
            split_chunk fuel bs max_size min_required c (remaining - take_blocks)
              (raw_offset + take_bytes) splits cur
        | Err e => Some (Err e)
        | Panic => Some Panic
        end
      else if chunk_type c =? CHUNK_TYPE_FILL then
        if avail <? SparseChunkHeader.SIZE + 4 then flush else
        let cur := add_chunk cur {| chunk_type := CHUNK_TYPE_FILL; chunk_blocks := remaining;
                                    payload := payload c |} in
        split_chunk fuel bs max_size min_required c 0 raw_offset splits cur
      else if chunk_type c =? CHUNK_TYPE_DONT_CARE then
        if avail <? SparseChunkHeader.SIZE then flush else
        let cur := add_chunk cur {| chunk_type := CHUNK_TYPE_DONT_CARE; chunk_blocks := remaining;
                                    payload := [] |} in
        split_chunk fuel bs max_size min_required c 0 raw_offset splits cur
      else if chunk_type c =? CHUNK_TYPE_CRC32 then
        if avail <? SparseChunkHeader.SIZE + 4 then flush else
        let cur := add_chunk cur {| chunk_type := CHUNK_TYPE_CRC32; chunk_blocks := 0;
                                    payload := payload c |} in
        Some (Ok (splits, cur))
      else Some (Err (UnknownChunkType (chunk_type c)))
  end.

Definition split_fuel (c : SparseChunk) : nat := Z.to_nat (2 * chunk_blocks c + 3).

Fixpoint split_chunks (bs max_size min_required : Z) (cs : list SparseChunk)
    (splits : list SparseFile) (cur : SparseFile) : option (sparse (list SparseFile * SparseFile)) :=
  match cs with
  | [] => Some (Ok (splits, cur))
  | c :: cs =>
      match split_chunk (split_fuel c) bs max_size min_required c (chunk_blocks c) 0 splits cur with
      | Some (Ok (splits, cur)) => split_chunks bs max_size min_required cs splits cur
      | Some (Err e) => Some (Err e)
      | Some Panic => Some Panic
      | None => None
      end
  end.

Definition split (f : SparseFile) (max_size : Z) : option (sparse (list SparseFile)) :=
  let bs := blk_sz (header f) in
  if bs =? 0 then Some (Err (InvalidBlockSize 0)) else
  let min_required := SparseHeader.SIZE + SparseChunkHeader.SIZE + bs in
  if max_size <? min_required then Some (Err (MaxDownloadSizeTooSmall max_size min_required)) else
  match split_chunks bs max_size min_required (chunks f) [] (new bs) with
  | Some (Ok (splits, cur)) => Some (Ok (if negb (is_nil (chunks cur)) then splits ++ [cur] else splits))
  | Some (Err e) => Some (Err e)
  | Some Panic => Some Panic
  | None => None
  end.

(** The chunk's size fits its header field. *)
Definition total_fits (c : SparseChunk) : Prop := u32 (SparseChunk.total_size c).

(** A chunk whose payload has the length its type calls for, in a file of block size [bs]. *)
Definition chunk_wf (bs : Z) (c : SparseChunk) : Prop :=
  u32 (chunk_blocks c) /\ total_fits c /\
  ((chunk_type c = CHUNK_TYPE_RAW /\ zlen (payload c) = chunk_blocks c * bs) \/
   (chunk_type c = CHUNK_TYPE_FILL /\ zlen (payload c) = 4) \/
   (chunk_type c = CHUNK_TYPE_DONT_CARE /\ payload c = []) \/
   (chunk_type c = CHUNK_TYPE_CRC32 /\ zlen (payload c) = 4)).

(** A file the format can carry: known chunks, a usable block size and counts that fit. *)
Definition wf (f : SparseFile) : Prop :=
  Forall (chunk_wf (blk_sz (header f))) (chunks f) /\ 4 <= blk_sz (header f) < 2 ^ 32.

(** The header [SparseFile::new] and [add_chunk] maintain. *)
Definition canonical (f : SparseFile) : Prop :=
  header f = SparseHeader.new (blk_sz (header f)) (total_blocks f) (zlen (chunks f)) /\
  u32 (zlen (chunks f)).
End SparseFile.

Section SparseFormats.

Lemma chunk_header_eq h :
  SparseChunkHeader.encode h
  = le_bytes 2 (ch_type h) ++ le_bytes 2 (reserved1 h) ++ le_bytes 4 (chunk_sz h) ++ le_bytes 4 (total_sz h).
Proof. reflexivity. Qed.

Lemma sparse_header_eq h :
  SparseHeader.encode h
  = le_bytes 4 (magic h) ++ le_bytes 2 (major_version h) ++ le_bytes 2 (minor_version h)
    ++ le_bytes 2 (file_hdr_sz h) ++ le_bytes 2 (chunk_hdr_sz h) ++ le_bytes 4 (blk_sz h)
    ++ le_bytes 4 (total_blks h) ++ le_bytes 4 (total_chunks h) ++ le_bytes 4 (image_checksum h).
Proof. reflexivity. Qed.

Lemma chunk_decode_eq buf :
  SparseChunkHeader.decode buf =
    if zlen buf <? 12 then Err (HeaderTooShort (zlen buf))
    else Ok {| ch_type := le_val (slice 0 2 buf); reserved1 := le_val (slice 2 4 buf);
               chunk_sz := le_val (slice 4 8 buf); total_sz := le_val (slice 8 12 buf) |}.
Proof. unfold SparseChunkHeader.decode, SparseChunkHeader.SIZE. zcase; [done|]. by wire. Qed.

Lemma sparse_decode_eq buf :
  SparseHeader.decode buf =
    if zlen buf <? 28 then Err (HeaderTooShort (zlen buf)) else
    let f a b := le_val (slice a b buf) in
    if negb (f 0 4 =? SPARSE_HEADER_MAGIC) then Err (InvalidMagic (f 0 4)) else
    if negb (f 4 6 =? 1) then Err (UnsupportedVersion (f 4 6) (f 6 8)) else
    if f 8 10 <? 28 then Err (InvalidFileHeaderSize (f 8 10)) else
    if f 10 12 <? 12 then Err (InvalidChunkHeaderSize (f 10 12)) else
    Ok {| magic := f 0 4; major_version := f 4 6; minor_version := f 6 8; file_hdr_sz := f 8 10;
          chunk_hdr_sz := f 10 12; blk_sz := f 12 16; total_blks := f 16 20; total_chunks := f 20 24;
          image_checksum := f 24 28 |}.
Proof.
  unfold SparseHeader.decode, SparseHeader.SIZE, SparseChunkHeader.SIZE. zcase; [done|].
  wire_unfold. cbv zeta. repeat (wire_read; wire_norm; zcase; try done).
Qed.

#[export] Instance chunk_header_wire : WireFormat SparseError SparseChunkHeader := {|
  wire_size := 12;
  wire_typed := SparseChunkHeader.typed;
  to_wire := SparseChunkHeader.encode;
  of_wire := SparseChunkHeader.decode;
|}.

#[export] Instance sparse_header_wire : WireFormat SparseError SparseHeader := {|
  wire_size := 28;
  wire_typed := SparseHeader.typed;
  to_wire := SparseHeader.encode;
  of_wire := SparseHeader.decode;
|}.

#[export] Instance chunk_header_laws : WireLaws SparseError SparseChunkHeader.
Proof.
  split; cbn [wire_size wire_typed to_wire of_wire chunk_header_wire].
  - intros a. rewrite chunk_header_eq. zg.
  - intros a rest (H1 & H2 & H3 & H4). rewrite chunk_decode_eq, chunk_header_eq.
    pose proof (zlen_nonneg rest). zcase; [zl|]. rewrite <- !app_assoc. wire_app. wire_val. by destruct a.
  - intros b a. rewrite chunk_decode_eq. zcase; [done|]. intros [= <-]. split.
    + repeat split; try (apply (le_val_uint 2); cbn; lia); apply (le_val_uint 4); cbn; lia.
    + exists (slice 12 (zlen b) b). rewrite chunk_header_eq. cbn [ch_type reserved1 chunk_sz total_sz].
      rewrite !(le_bytes_slice 2), !(le_bytes_slice 4) by lia.
      rewrite <- !app_assoc, <- !slice_cut by lia. by rewrite slice_full.
  - intros b. rewrite chunk_decode_eq. by zcase.
Qed.

#[export] Instance sparse_header_laws : WireLaws SparseError SparseHeader.
Proof.
  split; cbn [wire_size wire_typed to_wire of_wire sparse_header_wire].
  - intros a. rewrite sparse_header_eq. zg.
  - intros a rest (H1 & H2 & H3 & H4 & H5 & H6 & H7 & H8 & H9 & H10 & H11).
    rewrite sparse_decode_eq, sparse_header_eq, H1, H2. unfold SparseHeader.SIZE, SparseChunkHeader.SIZE in *.
    pose proof (zlen_nonneg rest). zcase; [zl|]. cbv zeta. rewrite <- !app_assoc. wire_app.
    rewrite (le_val_bytes_id 4 SPARSE_HEADER_MAGIC) by done. rewrite (le_val_bytes_id 2 1) by done.
    wire_val. rewrite !Z.eqb_refl. cbn [negb]. repeat (zcase; [lia|]). destruct a. cbn in *. by subst.
  - intros b a. rewrite sparse_decode_eq. zcase; [done|]. cbv zeta.
    destruct (Z.eqb_spec (le_val (slice 0 4 b)) SPARSE_HEADER_MAGIC) as [E1|]; [|done].
    destruct (Z.eqb_spec (le_val (slice 4 6 b)) 1) as [E2|]; [|done]. cbn [negb].
    zcase; [done|]. zcase; [done|]. intros [= <-]. split.
    + repeat split; cbn [magic major_version minor_version file_hdr_sz chunk_hdr_sz blk_sz total_blks total_chunks image_checksum]; try done;
        try (apply (le_val_uint 2); cbn; lia); apply (le_val_uint 4); cbn; lia.
    + exists (slice 28 (zlen b) b). rewrite sparse_header_eq.
      cbn [magic major_version minor_version file_hdr_sz chunk_hdr_sz blk_sz total_blks total_chunks image_checksum].
      rewrite !(le_bytes_slice 2), !(le_bytes_slice 4) by lia.
      rewrite <- !app_assoc, <- !slice_cut by lia. by rewrite slice_full.
  - intros b. rewrite sparse_decode_eq. zcase; [done|]. cbv zeta. by repeat case_match.
Qed.

Lemma chunk_header_read h rest :
  SparseChunkHeader.typed h -> SparseChunkHeader.decode (SparseChunkHeader.encode h ++ rest) = Ok h.
Proof. exact (wire_read (E := SparseError) h rest). Qed.

Lemma sparse_header_read h rest :
  SparseHeader.typed h -> SparseHeader.decode (SparseHeader.encode h ++ rest) = Ok h.
Proof. exact (wire_read (E := SparseError) h rest). Qed.
End SparseFormats.

Section SparseFiles.
Import SparseFile.

Lemma to_raw_eq f : to_raw f = concat (map (chunk_raw (blk_sz (header f))) (chunks f)).
Proof.
  unfold to_raw. generalize (blk_sz (header f)) as bs. intros bs.
  assert (forall cs acc, foldl (fun raw c => raw ++ chunk_raw bs c) acc cs
                         = acc ++ concat (map (chunk_raw bs) cs)) as E.
  { induction cs as [|c cs IH]; intros acc; cbn; [by rewrite app_nil_r|]. by rewrite IH, <- app_assoc. }
  apply (E (chunks f) []).
Qed.

Lemma zlen_chunk_encode c : zlen (SparseChunk.encode c) = SparseChunk.total_size c.
Proof.
  unfold SparseChunk.encode, SparseChunk.total_size, SparseChunkHeader.SIZE.
  rewrite zlen_app, chunk_header_eq. zg.
Qed.

Lemma sum_sizes_app a b : sum_sizes (a ++ b) = sum_sizes a + sum_sizes b.
Proof. unfold sum_sizes. induction a as [|c a IH]; cbn; [done|]. rewrite IH. lia. Qed.

Lemma zlen_encode_chunks cs : zlen (concat (map SparseChunk.encode cs)) = sum_sizes cs.
Proof.
  induction cs as [|c cs IH]; [done|]. cbn [map concat]. rewrite zlen_app, zlen_chunk_encode, IH. done.
Qed.

Lemma zlen_sparse_encode f : zlen (encode f) = total_size f.
Proof.
  unfold encode, total_size. rewrite zlen_app, sparse_header_eq, zlen_encode_chunks.
  unfold SparseHeader.SIZE. zg.
Qed.

Lemma sum_sizes_count cs : 12 * zlen cs <= sum_sizes cs.
Proof.
  induction cs as [|c cs IH]; [done|]. rewrite zlen_cons. cbn [sum_sizes]. unfold sum_sizes. cbn [fold_right].
  fold (sum_sizes cs). unfold SparseChunk.total_size, SparseChunkHeader.SIZE.
  pose proof (zlen_nonneg (payload c)). lia.
Qed.

(** ** Decoding an encoded file *)
Lemma check_payload_ok h ch c :
  chunk_wf (blk_sz h) c -> ch_type ch = chunk_type c -> chunk_sz ch = chunk_blocks c ->
  check_payload h ch (zlen (payload c)) = Ok tt.
Proof.
  intros (_ & _ & Hc) Ht Hs. unfold check_payload. rewrite Ht, Hs.
  destruct Hc as [[-> ->]|[[-> ->]|[[-> ->]|[-> ->]]]].
  - rewrite !Z.eqb_refl. done.
  - done.
  - done.
  - done.
Qed.

Lemma read_chunk_encode pre c post h :
  chunk_wf (blk_sz h) c -> chunk_hdr_sz h = 12 ->
  read_chunk (pre ++ SparseChunk.encode c ++ post) h (zlen pre)
  = Ok (c, zlen pre + SparseChunk.total_size c).
Proof.
  intros Hc Hh. pose proof Hc as (Hb & Hf & Hk). unfold total_fits in Hf.
  assert (u16 (chunk_type c)) as Ht.
  { destruct Hk as [[-> _]|[[-> _]|[[-> _]|[-> _]]]]; by vm_compute. }
  unfold read_chunk. rewrite Hh. set (buf := pre ++ SparseChunk.encode c ++ post).
  pose proof (zlen_nonneg pre). pose proof (zlen_nonneg post). pose proof (zlen_nonneg (payload c)).
  assert (zlen buf = zlen pre + SparseChunk.total_size c + zlen post) as Hz
    by (unfold buf; rewrite !zlen_app, zlen_chunk_encode; lia).
  assert (SparseChunk.total_size c = 12 + zlen (payload c)) as Hts by done.
  rewrite Hz. zcase; [lia|]. rewrite get_slice_ok by lia. cbn [res_bind].
  set (hdr := SparseChunkHeader.new (chunk_type c) (chunk_blocks c) (SparseChunk.total_size c)).
  assert (slice (zlen pre) (zlen pre + SparseChunk.total_size c + zlen post) buf
          = SparseChunkHeader.encode hdr ++ payload c ++ post) as ->.
  { unfold buf. rewrite slice_app_r by lia.
    rewrite slice_all by (rewrite ?zlen_app, ?zlen_chunk_encode; lia).
    unfold SparseChunk.encode. rewrite wrap_small by done. by rewrite <- app_assoc. }
  assert (SparseChunkHeader.decode (SparseChunkHeader.encode hdr ++ payload c ++ post) = Ok hdr) as ->.
  { apply chunk_header_read. split; [exact Ht|]. split; [by vm_compute|]. by split. }
  cbn [res_bind]. change (total_sz hdr) with (SparseChunk.total_size c).
  rewrite Hts. repeat (zcase; [lia|]). replace (12 + zlen (payload c) - 12) with (zlen (payload c)) by lia.
  rewrite check_payload_ok by done. cbn [res_bind]. rewrite get_slice_ok by lia. cbn [res_bind].
  assert (slice (zlen pre + 12) (zlen pre + 12 + zlen (payload c)) buf = payload c) as ->; [|by destruct c].
  unfold buf, SparseChunk.encode. rewrite chunk_header_eq, <- !app_assoc. by wire_app.
Qed.

Lemma read_chunks_encode cs pre post h :
  Forall (chunk_wf (blk_sz h)) cs -> chunk_hdr_sz h = 12 ->
  read_chunks (length cs) (pre ++ concat (map SparseChunk.encode cs) ++ post) h (zlen pre) = Ok cs.
Proof.
  intros Hcs Hh. revert pre. induction Hcs as [|c cs Hc _ IH]; intros pre; [done|].
  cbn [length read_chunks map concat]. rewrite <- app_assoc, read_chunk_encode by done.
  cbn [res_bind snd fst]. specialize (IH (pre ++ SparseChunk.encode c)).
  rewrite zlen_app, zlen_chunk_encode, <- app_assoc in IH. by rewrite IH.
Qed.

Lemma total_blocks_range f : u32 (total_blocks f).
Proof.
  unfold total_blocks. assert (forall cs s, u32 s -> u32 (foldl (fun s c => wrap 32 (s + chunk_blocks c)) s cs)) as E.
  { induction cs as [|c cs IH]; intros s Hs; [done|]. apply IH, uint_wrap. lia. }
  apply E. unfold u32, uint. lia.
Qed.

Lemma from_bytes_encode f rest :
  wf f -> canonical f -> from_bytes (encode f ++ rest) = Ok f.
Proof.
  intros [Hcs Hb] [Hh Hn]. unfold from_bytes, encode. pose proof (total_blocks_range f) as Ht.
  assert (with_totals (header f) (total_blocks f) (wrap 32 (zlen (chunks f))) = header f) as ->
    by (by rewrite (wrap_small _ _ Hn), Hh).
  rewrite <- app_assoc.
  assert (SparseHeader.decode (SparseHeader.encode (header f) ++ concat (map SparseChunk.encode (chunks f)) ++ rest)
          = Ok (header f)) as ->.
  { apply sparse_header_read. rewrite Hh.
    repeat split; cbn; try done; try lia; unfold u32, uint in *; try lia. }
  cbn [res_bind]. assert (total_chunks (header f) = zlen (chunks f)) as -> by (by rewrite Hh).
  assert (file_hdr_sz (header f) = zlen (SparseHeader.encode (header f))) as ->
    by (rewrite sparse_header_eq, Hh; done).
  unfold zlen at 1. rewrite Nat2Z.id.
  rewrite read_chunks_encode; [by destruct f|done|by rewrite Hh].
Qed.
End SparseFiles.

Section SparseTotal.
Import SparseFile.

Lemma read_chunk_total buf h offset :
  0 <= offset -> 12 <= chunk_hdr_sz h ->
  match read_chunk buf h offset with
  | Ok (c, offset') => offset + 12 <= offset' <= zlen buf
  | Err _ => True
  | Panic => False
  end.
Proof.
  intros Ho Hh. unfold read_chunk. zcase; [done|]. rewrite get_slice_ok by lia. cbn [res_bind].
  rewrite chunk_decode_eq. zcase; [done|]. cbn [res_bind total_sz ch_type]. repeat (zcase; [done|]).
  destruct (check_payload _ _ _) eqn:Hc; cbn [res_bind]; [|done|].
  - rewrite get_slice_ok by lia. cbn [res_bind]. lia.
  - revert Hc. unfold check_payload. by repeat case_match.
Qed.

Lemma read_chunks_total n buf h offset :
  0 <= offset -> 12 <= chunk_hdr_sz h -> read_chunks n buf h offset <> Panic.
Proof.
  intros Ho Hh. revert offset Ho. induction n as [|n IH]; intros offset Ho; [done|].
  cbn [read_chunks]. pose proof (read_chunk_total buf h offset Ho Hh) as Hr.
  destruct (read_chunk buf h offset) as [[c o]| |]; [|done..]. cbn [res_bind fst snd].
  specialize (IH o ltac:(lia)). by destruct (read_chunks n buf h o).
Qed.

Lemma from_bytes_total buf : from_bytes buf <> Panic.
Proof.
  unfold from_bytes. pose proof (wire_total (E := SparseError) (A := SparseHeader) buf) as Ht.
  pose proof (wire_image (E := SparseError) (A := SparseHeader) buf) as Hi.
  cbn [of_wire sparse_header_wire wire_typed] in *.
  destruct (SparseHeader.decode buf) as [h| |]; cbn [res_bind]; [|done..].
  destruct (Hi h eq_refl) as [(_ & _ & _ & _ & Hf & _ & Hc & _) _].
  unfold SparseHeader.SIZE, SparseChunkHeader.SIZE in *.
  pose proof (read_chunks_total (Z.to_nat (total_chunks h)) buf h (file_hdr_sz h) ltac:(lia) ltac:(lia)).
  by destruct (read_chunks _ _ _ _).
Qed.
End SparseTotal.

Section Splitting.
Import SparseFile.
Variables (bs max_size : Z).
Hypothesis (Hbs : 4 <= bs < 2 ^ 32) (Hmax : 40 + bs <= max_size <= u32_max).
Let min_required := SparseHeader.SIZE + SparseChunkHeader.SIZE + bs.

(** What every piece satisfies while it is being filled. *)
Definition piece_ok (p : SparseFile) : Prop :=
  header p = SparseHeader.new bs (total_blocks p) (zlen (chunks p)) /\
  Forall (chunk_wf bs) (chunks p) /\ total_size p <= max_size.

Lemma piece_new : piece_ok (new bs).
Proof. repeat split; [constructor|]. unfold total_size, SparseHeader.SIZE. cbn. lia. Qed.

Lemma total_blocks_add p c :
  total_blocks (add_chunk p c) = wrap 32 (total_blocks p + chunk_blocks c).
Proof. unfold total_blocks. cbn [chunks add_chunk]. by rewrite foldl_snoc. Qed.

Lemma total_size_add p c : total_size (add_chunk p c) = total_size p + SparseChunk.total_size c.
Proof. unfold total_size. cbn [chunks add_chunk]. rewrite sum_sizes_app. unfold sum_sizes at 2. cbn. lia. Qed.

Lemma to_raw_add p c :
  to_raw (add_chunk p c) = to_raw p ++ chunk_raw (blk_sz (header p)) c.
Proof.
  rewrite !to_raw_eq. cbn [chunks add_chunk header with_totals blk_sz].
  rewrite map_app, concat_app. cbn. by rewrite app_nil_r.
Qed.

Lemma piece_add p c :
  piece_ok p -> chunk_wf bs c -> total_size p + SparseChunk.total_size c <= max_size ->
  piece_ok (add_chunk p c).
Proof.
  intros (Hh & Hcs & Hs) Hc Hfit. split; [|split].
  - assert (wrap 32 (zlen (chunks p ++ [c])) = zlen (chunks p ++ [c])) as Hw.
    { apply wrap_small. pose proof (sum_sizes_count (chunks p ++ [c])) as Hn.
      pose proof (total_size_add p c) as Ha. pose proof (zlen_nonneg (chunks p ++ [c])).
      unfold total_size in *. cbn [add_chunk chunks] in Ha.
      unfold SparseHeader.SIZE, uint, u32_max in *. lia. }
    rewrite total_blocks_add. cbn [add_chunk header chunks]. by rewrite Hw, Hh.
  - cbn [add_chunk chunks]. apply Forall_app. by split; [|constructor].
  - by rewrite total_size_add.
Qed.

Lemma piece_blk p : piece_ok p -> blk_sz (header p) = bs.
Proof. intros [Hh _]. by rewrite Hh. Qed.

(** The content of the pieces finished so far and of the current one. *)
Definition content (splits : list SparseFile) (cur : SparseFile) : bytes :=
  concat (map to_raw splits) ++ to_raw cur.

Definition pieces_ok (splits : list SparseFile) : Prop :=
  Forall (fun p => piece_ok p /\ chunks p <> []) splits.

Lemma content_flush splits cur : content (splits ++ [cur]) (new bs) = content splits cur.
Proof.
  unfold content. rewrite map_app, concat_app. cbn. by rewrite !app_nil_r.
Qed.

Lemma content_add splits cur c :
  piece_ok cur -> content splits (add_chunk cur c) = content splits cur ++ chunk_raw bs c.
Proof.
  intros Hp. unfold content. rewrite to_raw_add, (piece_blk _ Hp). by rewrite app_assoc.
Qed.

(** What of a chunk is still to be emitted. *)
Definition rest_raw (c : SparseChunk) (remaining raw_offset : Z) : bytes :=
  if chunk_type c =? CHUNK_TYPE_RAW then slice raw_offset (zlen (payload c)) (payload c)
  else chunk_raw bs {| chunk_type := chunk_type c; chunk_blocks := remaining; payload := payload c |}.

(** The loop invariant of one chunk's [while]. *)
Definition remaining_ok (c : SparseChunk) (remaining raw_offset : Z) : Prop :=
  0 <= remaining <= chunk_blocks c /\
  (chunk_type c = CHUNK_TYPE_RAW -> raw_offset = (chunk_blocks c - remaining) * bs).

Lemma rest_raw_done c raw_offset :
  chunk_wf bs c -> remaining_ok c 0 raw_offset -> rest_raw c 0 raw_offset = [].
Proof.
  intros (_ & _ & Hk) [_ Hr]. unfold rest_raw, chunk_raw.
  destruct Hk as [[E Hl]|[[E Hl]|[[E Hl]|[E Hl]]]]; cbn [chunk_type chunk_blocks payload]; rewrite E in *.
  - rewrite Z.eqb_refl. apply slice_empty. rewrite Hr by done. lia.
  - change (CHUNK_TYPE_FILL =? CHUNK_TYPE_RAW) with false. rewrite Z.eqb_refl, Hl. cbn. done.
  - done.
  - done.
Qed.

Definition split_result (splits : list SparseFile) (cur : SparseFile) (emitted : bytes)
    (o : option (sparse (list SparseFile * SparseFile))) : Prop :=
  exists splits' cur', o = Some (Ok (splits', cur')) /\ pieces_ok splits' /\ piece_ok cur' /\
    content splits' cur' = content splits cur ++ emitted.

Lemma split_result_flush splits cur emitted o :
  split_result (splits ++ [cur]) (new bs) emitted o -> split_result splits cur emitted o.
Proof.
  intros (s' & c' & E & Hs & Hc & Hx). exists s', c'. rewrite content_flush in Hx. done.
Qed.

Lemma split_result_add splits cur c emitted o :
  piece_ok cur -> split_result splits (add_chunk cur c) emitted o ->
  split_result splits cur (chunk_raw bs c ++ emitted) o.
Proof.
  intros Hp (s' & c' & E & Hs & Hc & Hx). exists s', c'.
  rewrite (content_add _ _ _ Hp), <- app_assoc in Hx. done.
Qed.

(** On an empty piece there is room for any chunk, or for one block of it. *)
Lemma room_when_empty cur : is_nil (chunks cur) = true -> max_size - total_size cur >= 12 + bs.
Proof.
  destruct (chunks cur) eqn:E; [|done]. unfold total_size. rewrite E. intros _.
  unfold SparseHeader.SIZE. cbn. lia.
Qed.

Definition level (cur : SparseFile) : Z := if is_nil (chunks cur) then 1 else 2.

Lemma level_add cur c : level (add_chunk cur c) = 2.
Proof. unfold level. cbn [add_chunk chunks]. by destruct (chunks cur). Qed.

(** The chunk that takes what is left of a FILL, DONT_CARE or CRC32 chunk. *)
Lemma chunk_wf_rest c remaining :
  chunk_wf bs c -> 0 <= remaining <= chunk_blocks c -> chunk_type c <> CHUNK_TYPE_RAW ->
  chunk_wf bs {| chunk_type := chunk_type c; chunk_blocks := remaining; payload := payload c |}.
Proof.
  intros (Hb & Hf & Hk) Hr Hn. unfold chunk_wf, total_fits, u32, uint in *. cbn in *. split; [lia|].
  split; [done|]. destruct Hk as [[? _]|Hk]; [done|]. by right.
Qed.

(** One block run of a RAW chunk, cut to what fits. *)
Lemma raw_step c cur remaining raw_offset :
  chunk_wf bs c -> chunk_type c = CHUNK_TYPE_RAW -> remaining_ok c remaining raw_offset -> 0 < remaining ->
  piece_ok cur ->
  let fit := Z.max 0 (Z.max 0 (max_size - total_size cur) - SparseChunkHeader.SIZE) / bs in
  fit <> 0 ->
  let take_blocks := Z.min remaining (wrap 32 fit) in
  let piece := {| chunk_type := CHUNK_TYPE_RAW; chunk_blocks := take_blocks;
                  payload := slice raw_offset (raw_offset + take_blocks * bs) (payload c) |} in
  0 < take_blocks <= remaining /\
  @get_slice SparseError _ (payload c) raw_offset (raw_offset + take_blocks * bs) = Ok (payload piece) /\
  piece_ok (add_chunk cur piece) /\
  remaining_ok c (remaining - take_blocks) (raw_offset + take_blocks * bs) /\
  rest_raw c remaining raw_offset
    = chunk_raw bs piece ++ rest_raw c (remaining - take_blocks) (raw_offset + take_blocks * bs).
Proof.
  intros (Hb & Hf & Hk) Ht [Hr Ho] Hpos Hp fit Hfit.
  assert (zlen (payload c) = chunk_blocks c * bs) as Hl.
  { destruct Hk as [[_ ?]|[[E _]|[[E _]|[E _]]]]; [done|rewrite Ht in E; discriminate..]. }
  specialize (Ho Ht). unfold SparseChunkHeader.SIZE in fit. unfold u32, uint in Hb.
  assert (0 < fit) as Hf0 by (pose proof (Z.div_pos (Z.max 0 (Z.max 0 (max_size - total_size cur) - 12)) bs); lia).
  assert (fit * bs <= max_size - total_size cur - 12) as Hfb.
  { assert (fit * bs <= Z.max 0 (Z.max 0 (max_size - total_size cur) - 12)) by (rewrite Z.mul_comm; apply Z.mul_div_le; lia). nia. }
  pose proof (sum_sizes_count (chunks cur)). pose proof (zlen_nonneg (chunks cur)).
  unfold total_size, SparseHeader.SIZE in Hfb. rewrite wrap_small; cycle 1.
  { unfold uint, u32_max in *. nia. }
  intros take_blocks piece. assert (0 < take_blocks <= remaining /\ take_blocks <= fit) as Htk by lia.
  assert (0 <= raw_offset /\ raw_offset + take_blocks * bs <= zlen (payload c)) as Hrng by nia.
  split; [lia|]. split; [rewrite get_slice_ok by nia; done|].
  assert (zlen (payload piece) = take_blocks * bs) as Hpl.
  { cbn [payload piece]. rewrite zlen_slice by nia. lia. }
  assert (SparseChunk.total_size piece = 12 + take_blocks * bs) as Hts.
  { unfold SparseChunk.total_size, SparseChunkHeader.SIZE. lia. }
  assert (total_size cur + SparseChunk.total_size piece <= max_size) as Hroom.
  { rewrite Hts. unfold total_size, SparseHeader.SIZE. nia. }
  split; [|split].
  - apply piece_add; [done| |done]. split; [unfold u32, uint; cbn; lia|]. split; [|by left].
    unfold total_fits, u32, uint, total_size, SparseHeader.SIZE, u32_max in *. rewrite Hts in *. nia.
  - split; [lia|]. intros _. rewrite Ho. lia.
  - unfold rest_raw, chunk_raw. rewrite Ht, Z.eqb_refl. cbn [chunk_type payload piece]. rewrite Z.eqb_refl.
    by rewrite <- slice_cut by nia.
Qed.

(** The four chunk types are distinct. *)
Lemma type_cases c :
  chunk_wf bs c ->
  chunk_type c = CHUNK_TYPE_RAW \/ chunk_type c = CHUNK_TYPE_FILL \/
  chunk_type c = CHUNK_TYPE_DONT_CARE \/ chunk_type c = CHUNK_TYPE_CRC32.
Proof. intros (_ & _ & Hk). tauto. Qed.

(** A chunk emitted whole, of payload at most four bytes, fits wherever the code tests it does. *)
Lemma whole_step c cur remaining :
  chunk_wf bs c -> 0 <= remaining <= chunk_blocks c -> chunk_type c <> CHUNK_TYPE_RAW ->
  piece_ok cur -> SparseChunk.total_size c <= Z.max 0 (max_size - total_size cur) ->
  piece_ok (add_chunk cur {| chunk_type := chunk_type c; chunk_blocks := remaining; payload := payload c |}).
Proof.
  intros Hc Hr Ht Hp Hfit. apply piece_add; [done|by apply chunk_wf_rest|].
  unfold SparseChunk.total_size, SparseChunkHeader.SIZE in *. cbn [payload].
  pose proof (zlen_nonneg (payload c)). lia.
Qed.

Lemma emit_whole c cur splits remaining raw_offset o :
  chunk_wf bs c -> remaining_ok c 0 raw_offset -> chunk_type c <> CHUNK_TYPE_RAW -> piece_ok cur ->
  split_result splits (add_chunk cur {| chunk_type := chunk_type c; chunk_blocks := remaining; payload := payload c |})
    (rest_raw c 0 raw_offset) o ->
  split_result splits cur (rest_raw c remaining raw_offset) o.
Proof.
  intros Hc Hr Ht Hp. rewrite rest_raw_done by done. intros Ho. apply split_result_add in Ho; [|done].
  rewrite app_nil_r in Ho. unfold rest_raw. by rewrite (proj2 (Z.eqb_neq _ _) Ht).
Qed.

Lemma split_chunk_ok fuel c remaining raw_offset splits cur :
  chunk_wf bs c -> remaining_ok c remaining raw_offset -> pieces_ok splits -> piece_ok cur ->
  2 * remaining + level cur <= Z.of_nat fuel ->
  split_result splits cur (rest_raw c remaining raw_offset)
    (split_chunk fuel bs max_size min_required c remaining raw_offset splits cur).
Proof.
  intros Hc. revert remaining raw_offset splits cur.
  induction fuel as [|fuel IH]; intros remaining raw_offset splits cur Hr Hs Hp Hf.
  { unfold level in Hf. destruct Hr, (is_nil _); lia. }
  assert (forall splits, pieces_ok splits -> piece_ok cur -> is_nil (chunks cur) = false ->
    split_result splits cur (rest_raw c remaining raw_offset)
      (split_chunk fuel bs max_size min_required c remaining raw_offset (splits ++ [cur]) (new bs))) as Hflush.
  { intros spl Hspl _ Hn. apply split_result_flush. apply IH; [done| |apply piece_new|].
    - apply Forall_app. split; [done|]. constructor; [|done]. split; [done|]. by destruct (chunks cur).
    - unfold level in *. rewrite Hn in Hf. cbn. lia. }
  pose proof (room_when_empty cur) as Hroom. cbn [split_chunk].
  destruct (negb _) eqn:Hstop.
  { apply negb_true_iff, orb_false_iff in Hstop as [H0%Z.ltb_ge _].
    assert (remaining = 0) as -> by (destruct Hr; lia). rewrite rest_raw_done by done.
    exists splits, cur. by rewrite app_nil_r. }
  apply negb_false_iff, orb_true_iff in Hstop.
  destruct (Z.eqb_spec (chunk_type c) CHUNK_TYPE_RAW) as [Ht|Ht].
  { destruct (Z.eqb_spec (Z.max 0 (Z.max 0 (max_size - total_size cur) - SparseChunkHeader.SIZE) / bs) 0) as [E|E].
    - destruct (is_nil (chunks cur)) eqn:Hn; cbn [negb]; [|by apply Hflush].
      exfalso. specialize (Hroom eq_refl). unfold SparseChunkHeader.SIZE in E.
      apply Z.div_small_iff in E; lia.
    - assert (0 < remaining) as Hpos by (destruct Hstop as [?%Z.ltb_lt|H1%Z.eqb_eq]; [done|rewrite Ht in H1; discriminate]).
      destruct (raw_step c cur remaining raw_offset Hc Ht Hr Hpos Hp E) as (Htk & Hsl & Hadd & Hrem & Hrest).
      rewrite Hsl, Hrest. apply split_result_add; [done|]. apply IH; [done..|]. rewrite level_add.
      unfold level in Hf. destruct (is_nil _); lia. }
  assert (remaining_ok c 0 raw_offset) as Hr0 by (destruct Hr; split; [lia|done]).
  assert (0 <= remaining <= chunk_blocks c) as Hrem by (by destruct Hr).
  (* a chunk that does not fit is retried on a fresh piece, where it does *)
  assert (forall o need, need <= 12 + bs ->
    (need <= Z.max 0 (max_size - total_size cur) -> split_result splits cur (rest_raw c remaining raw_offset) o) ->
    split_result splits cur (rest_raw c remaining raw_offset)
      (if Z.max 0 (max_size - total_size cur) <? need then
         if negb (is_nil (chunks cur))
         then split_chunk fuel bs max_size min_required c remaining raw_offset (splits ++ [cur]) (new bs)
         else Some (Err (MaxDownloadSizeTooSmall max_size min_required))
       else o)) as Hretry.
  { intros o need Hneed Ho. zcase; [|by apply Ho]. destruct (is_nil (chunks cur)) eqn:Hn; cbn [negb];
      [specialize (Hroom eq_refl); lia|by apply Hflush]. }
  pose proof Hc as (_ & _ & Hk). unfold SparseChunkHeader.SIZE.
  assert (forall piece, 0 < remaining -> 2 * 0 + level (add_chunk cur piece) <= Z.of_nat fuel) as Hfuel.
  { intros piece Hpos. rewrite level_add. unfold level in Hf. destruct (is_nil _); lia. }
  assert (forall sz, SparseChunk.total_size c = sz -> sz <= Z.max 0 (max_size - total_size cur) ->
    piece_ok (add_chunk cur {| chunk_type := chunk_type c; chunk_blocks := remaining; payload := payload c |})) as Hwhole
    by (intros sz <-; by apply whole_step).
  unfold SparseChunk.total_size, SparseChunkHeader.SIZE in Hwhole.
  destruct Hk as [[? _]|[[Ht' Hl]|[[Ht' Hl]|[Ht' Hl]]]]; [done| | |]; rewrite Ht' in Hwhole, Hstop |- *.
  - change (CHUNK_TYPE_FILL =? CHUNK_TYPE_FILL) with true. cbv iota. apply Hretry; [lia|]. intros Hfit.
    apply emit_whole; [done..|]. rewrite Ht'. apply IH; [done..|apply (Hwhole 16); lia|].
    apply Hfuel. destruct Hstop as [?%Z.ltb_lt|?]; [done|discriminate].
  - change (CHUNK_TYPE_DONT_CARE =? CHUNK_TYPE_FILL) with false.
    change (CHUNK_TYPE_DONT_CARE =? CHUNK_TYPE_DONT_CARE) with true. cbv iota. apply Hretry; [lia|]. intros Hfit.
    apply emit_whole; [done..|]. rewrite Ht'. rewrite Hl in Hwhole |- *. apply IH; [done..|apply (Hwhole 12); [done|lia]|].
    apply Hfuel. destruct Hstop as [?%Z.ltb_lt|?]; [done|discriminate].
  - change (CHUNK_TYPE_CRC32 =? CHUNK_TYPE_FILL) with false.
    change (CHUNK_TYPE_CRC32 =? CHUNK_TYPE_DONT_CARE) with false.
    change (CHUNK_TYPE_CRC32 =? CHUNK_TYPE_CRC32) with true. cbv iota. apply Hretry; [lia|]. intros Hfit.
    apply emit_whole; [done..|]. rewrite rest_raw_done by done.
    assert (piece_ok (add_chunk cur {| chunk_type := CHUNK_TYPE_CRC32; chunk_blocks := 0; payload := payload c |})) as Hz.
    { rewrite <- Ht'. apply whole_step; [done|lia|done..|]. unfold SparseChunk.total_size, SparseChunkHeader.SIZE. lia. }
    exists splits, (add_chunk cur {| chunk_type := CHUNK_TYPE_CRC32; chunk_blocks := 0; payload := payload c |}).
    rewrite app_nil_r, !content_add, Ht' by done. done.
Qed.
End Splitting.

Section SplitFile.
Import SparseFile.
Variables (bs max_size : Z).
Hypothesis (Hbs : 4 <= bs < 2 ^ 32) (Hmax : 40 + bs <= max_size <= u32_max).

Lemma rest_raw_all c : chunk_wf bs c -> rest_raw bs c (chunk_blocks c) 0 = chunk_raw bs c.
Proof.
  intros _. unfold rest_raw, chunk_raw. destruct (_ =? CHUNK_TYPE_RAW); [by apply slice_full|]. by destruct c.
Qed.

Lemma split_chunks_ok cs splits cur :
  Forall (chunk_wf bs) cs -> pieces_ok bs max_size splits -> piece_ok bs max_size cur ->
  split_result bs max_size splits cur (concat (map (chunk_raw bs) cs))
    (split_chunks bs max_size (SparseHeader.SIZE + SparseChunkHeader.SIZE + bs) cs splits cur).
Proof.
  intros Hcs. revert splits cur. induction Hcs as [|c cs Hc _ IH]; intros splits cur Hs Hp.
  { exists splits, cur. cbn. by rewrite app_nil_r. }
  cbn [split_chunks]. pose proof Hc as (Hb & _). unfold u32, uint in Hb.
  destruct (split_chunk_ok bs max_size Hbs Hmax (split_fuel c) c (chunk_blocks c) 0 splits cur)
    as (s1 & c1 & -> & Hs1 & Hc1 & Hx1); [done|split; [lia|intros; lia]|done..| |].
  { unfold split_fuel, level. destruct (is_nil _); lia. }
  destruct (IH s1 c1 Hs1 Hc1) as (s2 & c2 & E & Hs2 & Hc2 & Hx2).
  exists s2, c2. split; [done|]. split; [done|]. split; [done|].
  rewrite Hx2, Hx1, rest_raw_all by done. cbn [map concat]. by rewrite app_assoc.
Qed.

Lemma piece_canonical p : piece_ok bs max_size p -> wf p /\ canonical p /\ zlen (encode p) <= max_size.
Proof.
  intros (Hh & Hcs & Hs). rewrite zlen_sparse_encode. split; [|split; [|done]].
  - split; rewrite Hh; cbn; [done|lia].
  - split; [by rewrite Hh at 1; rewrite Hh|].
    pose proof (sum_sizes_count (chunks p)). pose proof (zlen_nonneg (chunks p)).
    unfold total_size, SparseHeader.SIZE, u32, uint, u32_max in *. lia.
Qed.
End SplitFile.

Section SplitProperties.
Import SparseFile.

Lemma split_ok f max_size :
  wf f -> 40 + blk_sz (header f) <= max_size <= u32_max ->
  exists pieces, split f max_size = Some (Ok pieces) /\
    pieces_ok (blk_sz (header f)) max_size pieces /\ concat (map to_raw pieces) = to_raw f.
Proof.
  intros [Hcs Hb] Hm. unfold split, SparseHeader.SIZE, SparseChunkHeader.SIZE.
  set (bs := blk_sz (header f)) in *. zcase; [lia|]. zcase; [lia|].
  destruct (split_chunks_ok bs max_size Hb Hm (chunks f) [] (new bs)) as (s & c & E & Hs & Hc & Hx);
    [done|constructor|by apply piece_new|].
  unfold SparseHeader.SIZE, SparseChunkHeader.SIZE in E. rewrite E.
  pose proof (to_raw_eq f) as Hraw. fold bs in Hraw. rewrite <- Hraw in Hx. unfold content in Hx. cbn [map concat app] in Hx.
  change (to_raw (new bs)) with (@nil byte) in Hx. cbn [app] in Hx.
  destruct (chunks c) as [|x xs] eqn:Ec; cbn [is_nil negb]; eexists; split; try done.
  - split; [done|]. rewrite <- Hx. assert (to_raw c = []) as -> by (rewrite to_raw_eq, Ec; done).
    by rewrite app_nil_r.
  - split; [apply Forall_app; split; [done|]; constructor; [split; [done|by rewrite Ec]|constructor]|].
    rewrite map_app, concat_app. cbn. by rewrite app_nil_r.
Qed.

(** The padding [from_raw] adds to reach a whole number of blocks. *)
Definition padding (bs n : Z) : Z := (- n) mod bs.
Definition effective_blk (blk_sz : Z) : Z := if blk_sz =? 0 then 4096 else blk_sz.
Definition padded (raw_data : bytes) (bs : Z) : bytes := raw_data ++ zrep (padding bs (zlen raw_data)) x00.

Lemma padding_cases bs n :
  0 < bs -> padding bs n = if n mod bs =? 0 then 0 else bs - n mod bs.
Proof.
  intros Hb. unfold padding. zcase; [by apply Z.mod_opp_l_z; lia|by apply Z.mod_opp_l_nz; lia].
Qed.

Lemma padded_aligned raw bs : 0 < bs -> zlen (padded raw bs) mod bs = 0.
Proof.
  intros Hb. unfold padded. pose proof (Z.mod_pos_bound (- zlen raw) bs Hb).
  rewrite zlen_app, zlen_zrep by (unfold padding; lia). unfold padding.
  rewrite Zplus_mod_idemp_r, Z.add_opp_diag_r. done.
Qed.

Lemma from_raw_eq raw blk :
  0 <= blk -> raw <> [] ->
  let bs := effective_blk blk in
  from_raw raw blk = add_chunk (new bs)
    {| chunk_type := CHUNK_TYPE_RAW; chunk_blocks := wrap 32 (zlen (padded raw bs) / bs);
       payload := padded raw bs |}.
Proof.
  intros Hblk Hne bs. unfold from_raw. fold (effective_blk blk). fold bs.
  assert (0 < bs) as Hb by (unfold bs, effective_blk; zcase; lia).
  assert (0 < zlen raw) as Hl by (destruct raw; [done|rewrite zlen_cons; pose proof (zlen_nonneg raw); lia]).
  rewrite (proj2 (Z.eqb_neq (zlen raw) 0)) by lia.
  assert ((if negb (zlen raw mod bs =? 0)
           then resize (if zlen raw mod bs =? 0 then zlen raw else zlen raw + (bs - zlen raw mod bs)) x00 raw
           else raw) = padded raw bs) as ->.
  { unfold padded. rewrite padding_cases by done. pose proof (Z.mod_pos_bound (zlen raw) bs Hb).
    zcase; [by rewrite app_nil_r|]. rewrite resize_grow by lia. do 2 f_equal. lia. }
  unfold SparseChunk.raw. rewrite (proj2 (Z.eqb_neq bs 0)) by lia.
  assert (0 < zlen (padded raw bs)) as Hpl by (unfold padded; rewrite zlen_app; pose proof (zlen_nonneg (zrep (padding bs (zlen raw)) x00)); lia).
  rewrite (proj2 (Z.eqb_neq (zlen (padded raw bs)) 0)) by lia.
  by rewrite padded_aligned, Z.eqb_refl.
Qed.

Lemma to_raw_from_raw raw blk :
  0 <= blk -> to_raw (from_raw raw blk) = padded raw (effective_blk blk).
Proof.
  intros Hb. destruct raw as [|b t] eqn:E.
  { assert (padded [] (effective_blk blk) = []) as ->; [|done].
    unfold padded, padding. change (- zlen []) with 0. by rewrite Z.mod_0_l by (unfold effective_blk; zcase; lia). }
  rewrite from_raw_eq by done. rewrite to_raw_add. done.
Qed.

Lemma from_raw_wf raw blk :
  4 <= effective_blk blk < 2 ^ 32 -> 0 <= blk -> 12 + zlen (padded raw (effective_blk blk)) <= u32_max ->
  wf (from_raw raw blk) /\ blk_sz (header (from_raw raw blk)) = effective_blk blk.
Proof.
  intros Hbs Hb Hl. destruct raw as [|b t] eqn:E.
  { change (from_raw [] blk) with (new (effective_blk blk)). split; [split; [constructor|done]|done]. }
  rewrite from_raw_eq by done. set (bs := effective_blk blk) in *. set (d := padded (b :: t) bs) in *.
  pose proof (zlen_nonneg d) as Hd. assert (zlen d mod bs = 0) as Ha by (apply padded_aligned; lia).
  assert (0 <= zlen d / bs <= zlen d) as Hq.
  { split; [apply Z.div_pos; lia|]. apply Z.div_le_upper_bound; nia. }
  split; [|done]. split; [|done]. cbn [chunks add_chunk new app header with_totals blk_sz SparseHeader.new].
  constructor; [|constructor]. split; [apply uint_wrap; lia|]. split.
  - unfold total_fits, SparseChunk.total_size, SparseChunkHeader.SIZE, u32, uint, u32_max in *. cbn [payload]. lia.
  - left. split; [done|]. cbn [payload chunk_blocks]. rewrite wrap_small by (unfold uint, u32_max in *; lia).
    pose proof (Z.div_mod (zlen d) bs). lia.
Qed.
End SplitProperties.

(** ** Writing an image to a partition

    How a device applies a sparse image: blocks are counted from the start of the partition, RAW
    and FILL chunks write, DONT_CARE chunks skip. *)
Module Flash.
Fixpoint write_chunks (bs : Z) (cs : list SparseChunk) (block : Z) (partition : bytes) : bytes :=
  match cs with
  | [] => partition
  | c :: cs =>
      let partition :=
        if chunk_type c =? CHUNK_TYPE_DONT_CARE then partition
        else write_at (block * bs) (SparseFile.chunk_raw bs c) partition in
      write_chunks bs cs (block + chunk_blocks c) partition
  end.
Definition write_image (partition : bytes) (f : SparseFile) : bytes :=
  write_chunks (blk_sz (header f)) (chunks f) 0 partition.
End Flash.

(** ** Properties *)

(** The sparse file format round trip. A file whose chunks have the payloads their types
    call for and whose header is the one [new] and [add_chunk] maintain is decoded back, whatever
    follows it, and [total_size] is the exact length of the encoding. *)
Theorem sparse_file_roundtrip f rest :
  SparseFile.wf f -> SparseFile.canonical f ->
  SparseFile.from_bytes (SparseFile.encode f ++ rest) = Ok f /\
  zlen (SparseFile.encode f) = SparseFile.total_size f.
Proof. intros. split; [by apply from_bytes_encode|apply zlen_sparse_encode]. Qed.

Definition sample_file : SparseFile :=
  foldl SparseFile.add_chunk (SparseFile.new 4)
    [{| chunk_type := CHUNK_TYPE_RAW; chunk_blocks := 2; payload := B "bootload" |};
     {| chunk_type := CHUNK_TYPE_DONT_CARE; chunk_blocks := 3; payload := [] |};
     {| chunk_type := CHUNK_TYPE_FILL; chunk_blocks := 1; payload := B "fill" |};
     {| chunk_type := CHUNK_TYPE_CRC32; chunk_blocks := 0; payload := B "crc!" |}].

Lemma sample_file_wf : SparseFile.wf sample_file /\ SparseFile.canonical sample_file.
Proof.
  split; [split|split]; [|by vm_compute|by vm_compute|by vm_compute].
  repeat (constructor; [split; [by vm_compute|split; [by vm_compute|]]|]).
  - by left.
  - by right; right; left.
  - by right; left.
  - by right; right; right.
  - constructor.
Qed.

Lemma sparse_file_roundtrip_witness :
  SparseFile.from_bytes (SparseFile.encode sample_file ++ B "tail") = Ok sample_file /\
  zlen (SparseFile.encode sample_file) = SparseFile.total_size sample_file.
Proof. apply sparse_file_roundtrip; apply sample_file_wf. Defined.

(** C32: Decoding untrusted bytes is safe: [from_bytes] never slices outside its input, whatever
    the header and chunk fields claim, and every chunk it returns satisfies the length its type
    calls for. *)
Theorem from_bytes_safe buf :
  no_panic (SparseFile.from_bytes buf) /\
  forall f, SparseFile.from_bytes buf = Ok f ->
    SparseHeader.typed (header f) /\ zlen (chunks f) = total_chunks (header f) /\
    Forall (fun c => chunk_type c = CHUNK_TYPE_RAW -> zlen (payload c) = chunk_blocks c * blk_sz (header f))
      (chunks f).
Proof.
  split; [apply from_bytes_total|]. intros f. unfold SparseFile.from_bytes. intros H.
  res_inv H. res_inv H. simplify_eq. cbn [header chunks]. rename a into h, a0 into cs.
  pose proof (wire_image (E := SparseError) buf h Ha) as [Ht _]. cbn in Ht. split; [done|].
  assert (0 <= total_chunks h) as Hn by apply Ht.
  assert (forall n off cs, SparseFile.read_chunks n buf h off = Ok cs ->
    length cs = n /\ Forall (fun c => chunk_type c = CHUNK_TYPE_RAW -> zlen (payload c) = chunk_blocks c * blk_sz h) cs) as E.
  { clear. intros n. induction n as [|n IH]; intros off cs; cbn [SparseFile.read_chunks].
    { intros [= <-]. by split. }
    intros H. res_inv H. res_inv H. simplify_eq. destruct (IH _ _ Ha0) as [<- HF]. split; [done|].
    constructor; [|done]. clear -Ha. unfold SparseFile.read_chunk in Ha.
    zcase_in Ha; [done|]. res_inv Ha. res_inv Ha. zcase_in Ha; [done|]. zcase_in Ha; [done|].
    res_inv Ha. res_inv Ha. simplify_eq. cbn. intros Hraw. apply get_slice_inv in Ha3 as (? & ? & ? & ->).
    rewrite zlen_slice by lia. revert Ha2. unfold SparseFile.check_payload. rewrite Hraw, Z.eqb_refl.
    zcase; [lia|done]. }
  destruct (E _ _ _ Ha0) as [Hl HF]. split; [|done]. unfold zlen. lia.
Qed.

(** C20: splitting for the download buffer. For a well-formed file of block size at least four and
    any limit that leaves room for one block ([28 + 12 + blk_sz]) and fits the 32-bit download
    size, [split] terminates with pieces that each encode within the limit, are decoded back by
    [from_bytes], and whose raw contents concatenate to the raw content of the file. *)
Theorem sparse_split_correct f max_size :
  SparseFile.wf f -> 40 + blk_sz (header f) <= max_size <= u32_max ->
  exists pieces, SparseFile.split f max_size = Some (Ok pieces) /\
    Forall (fun p => zlen (SparseFile.encode p) <= max_size /\ chunks p <> [] /\
                     SparseFile.from_bytes (SparseFile.encode p) = Ok p) pieces /\
    concat (map SparseFile.to_raw pieces) = SparseFile.to_raw f.
Proof.
  intros Hw Hm. destruct (split_ok f max_size Hw Hm) as (ps & Hs & Hp & Hx).
  exists ps. split; [done|]. split; [|done]. eapply Forall_impl; [|exact Hp].
  intros p [Hok Hne]. destruct Hw as [_ Hb].
  destruct (piece_canonical _ max_size Hb Hm p Hok) as (Hwf & Hc & Hl). split; [done|]. split; [done|].
  rewrite <- (app_nil_r (SparseFile.encode p)). by apply from_bytes_encode.
Qed.

Lemma sparse_split_correct_witness :
  exists pieces, SparseFile.split sample_file 44 = Some (Ok pieces) /\
    Forall (fun p => zlen (SparseFile.encode p) <= 44 /\ chunks p <> [] /\
                     SparseFile.from_bytes (SparseFile.encode p) = Ok p) pieces /\
    concat (map SparseFile.to_raw pieces) = SparseFile.to_raw sample_file.
Proof. apply sparse_split_correct; [apply sample_file_wf|by vm_compute]. Defined.

(** The whole path of a raw image that exceeds the download limit: wrapped by [from_raw], cut
    by [split], sent piece by piece, and decoded on the other side, the pieces' contents
    concatenate to the image padded with zeros to a whole number of blocks. *)
Theorem raw_image_pieces raw blk max_size :
  0 <= blk -> 4 <= effective_blk blk < 2 ^ 32 ->
  12 + zlen (padded raw (effective_blk blk)) <= u32_max ->
  40 + effective_blk blk <= max_size <= u32_max ->
  SparseFile.to_raw (SparseFile.from_raw raw blk) = padded raw (effective_blk blk) /\
  exists pieces, SparseFile.split (SparseFile.from_raw raw blk) max_size = Some (Ok pieces) /\
    Forall (fun p => SparseFile.from_bytes (SparseFile.encode p) = Ok p) pieces /\
    concat (map SparseFile.to_raw pieces) = padded raw (effective_blk blk).
Proof.
  intros Hb Hbs Hl Hm. rewrite (to_raw_from_raw raw blk Hb). split; [done|].
  destruct (from_raw_wf raw blk Hbs Hb Hl) as [Hw Hblk].
  destruct (split_ok (SparseFile.from_raw raw blk) max_size Hw) as (ps & Hs & Hp & Hx); [by rewrite Hblk|].
  exists ps. split; [done|]. rewrite (to_raw_from_raw raw blk Hb) in Hx. split; [|done].
  eapply Forall_impl; [|exact Hp]. rewrite Hblk. intros p [Hok _].
  destruct (piece_canonical _ max_size Hbs Hm p Hok) as (Hwf & Hc & _).
  rewrite <- (app_nil_r (SparseFile.encode p)). by apply from_bytes_encode.
Qed.

Lemma raw_image_pieces_witness :
  SparseFile.to_raw (SparseFile.from_raw (B "ABCDEFGHIJ") 4) = padded (B "ABCDEFGHIJ") 4 /\
  exists pieces, SparseFile.split (SparseFile.from_raw (B "ABCDEFGHIJ") 4) 44 = Some (Ok pieces) /\
    Forall (fun p => SparseFile.from_bytes (SparseFile.encode p) = Ok p) pieces /\
    concat (map SparseFile.to_raw pieces) = padded (B "ABCDEFGHIJ") 4.
Proof. apply (raw_image_pieces (B "ABCDEFGHIJ") 4 44); by vm_compute. Defined.

(** The pieces of a split do not say where they belong. Each piece starts at block 0 of the
    partition, with no leading DONT_CARE run for the blocks of the pieces before it: writing the
    two pieces of an eight-byte image one after the other leaves the second half at the start of
    the partition, whereas writing the image in one go stores it correctly. *)
Theorem split_pieces_overlap :
  let f := SparseFile.from_raw (B "AAAABBBB") 4 in
  exists p1 p2, SparseFile.split f 44 = Some (Ok [p1; p2]) /\
    Flash.write_image (zrep 8 x00) f = B "AAAABBBB" /\
    Flash.write_image (Flash.write_image (zrep 8 x00) p1) p2 = B "BBBB" ++ zrep 4 x00.
Proof. eexists _, _. split; [by vm_compute|]. split; by vm_compute. Qed.
