(* ===== verification/BootImage.v ===== *)
(** Android boot images ([src/crates/fastboot-protocol/src/boot_image.rs]): the packed OS version,
    the headers of versions 0 to 4, and the builder and parser of whole images. *)
From S2P Require Import Prelude Text Wire.

Definition BOOT_MAGIC : bytes := B "ANDROID!".
Definition BOOT_NAME_SIZE : Z := 16.
Definition BOOT_ARGS_SIZE : Z := 512.
Definition BOOT_EXTRA_ARGS_SIZE : Z := 1024.
Definition BOOT_ID_SIZE : Z := 32.
Definition BOOT_IMAGE_HEADER_V0_SIZE : Z := 1632.
Definition BOOT_IMAGE_HEADER_V1_SIZE : Z := 1648.
Definition BOOT_IMAGE_HEADER_V2_SIZE : Z := 1664.
Definition BOOT_IMAGE_HEADER_V3_SIZE : Z := 4096.
Definition BOOT_IMAGE_HEADER_V4_SIZE : Z := 4096.
Definition DEFAULT_KERNEL_ADDR : Z := 0x00008000.
Definition DEFAULT_RAMDISK_ADDR : Z := 0x01000000.
Definition DEFAULT_SECOND_ADDR : Z := 0x00F00000.
Definition DEFAULT_TAGS_ADDR : Z := 0x00000100.
Definition DEFAULT_PAGE_SIZE : Z := 2048.

Inductive BootImageError :=
| BufferTooShort (expected got : Z)
| InvalidMagic (got : bytes)
| UnsupportedVersion (v : Z)
| InvalidPageSize (ps : Z)
| InvalidOsVersion (year : Z)
| SectionBounds (section : bytes) (offset size len : Z)
| InvalidSectionOffset (section : bytes) (offset minimum : Z)
| CmdlineTooLong (len max : Z)
| NameTooLong (name_len max : Z).

Abbreviation boot A := (res BootImageError A).

(** ** Packed OS version *)
Module OsVersion.
Record t := { major : Z; minor : Z; patch : Z; year_since_2000 : Z; month : Z; day : Z }.
(** Shifts of [u32] values drop the bits above 31. *)
Definition encode (v : t) : Z :=
  let shl x n := wrap 32 (Z.shiftl x n) in
  Z.lor (Z.lor (Z.lor (Z.lor (Z.lor (shl (major v) 16) (shl (minor v) 24)) (shl (patch v) 28))
    (year_since_2000 v)) (shl (month v) 8)) (shl (day v) 12).
Definition decode (raw : Z) : t :=
  {| year_since_2000 := Z.land raw 0xFF;
     month := Z.land (Z.shiftr raw 8) 0x0F;
     day := Z.land (Z.shiftr raw 12) 0x0F;
     major := Z.land (Z.shiftr raw 16) 0xFF;
     minor := Z.land (Z.shiftr raw 24) 0x0F;
     patch := Z.land (Z.shiftr raw 28) 0x0F |}.
(** The values that fit the bit fields of the format. *)
Definition fits (v : t) : Prop :=
  uint 8 (major v) /\ uint 4 (minor v) /\ uint 4 (patch v) /\ uint 8 (year_since_2000 v) /\
  uint 4 (month v) /\ uint 4 (day v).
End OsVersion.

(** ** Versions *)
Inductive BootImageVersion := V0 | V1 | V2 | V3 | V4.

Module BootImageVersion.
Definition from_u32 (v : Z) : boot BootImageVersion :=
  if v =? 0 then Ok V0 else if v =? 1 then Ok V1 else if v =? 2 then Ok V2
  else if v =? 3 then Ok V3 else if v =? 4 then Ok V4 else Err (UnsupportedVersion v).
Definition as_u32 (v : BootImageVersion) : Z :=
  match v with V0 => 0 | V1 => 1 | V2 => 2 | V3 => 3 | V4 => 4 end.
Definition header_size (v : BootImageVersion) : Z :=
  match v with
  | V0 => BOOT_IMAGE_HEADER_V0_SIZE
  | V1 => BOOT_IMAGE_HEADER_V1_SIZE
  | V2 => BOOT_IMAGE_HEADER_V2_SIZE
  | V3 | V4 => BOOT_IMAGE_HEADER_V4_SIZE
  end.
(** [BootImageVersion::from_u32(v).map(|v| v.header_size()).unwrap_or(0)] *)
Definition header_size_or_0 (v : Z) : Z :=
  match from_u32 v with Ok v => header_size v | _ => 0 end.
End BootImageVersion.

(** ** Helpers *)

(** [(n + align - 1) & !(align - 1)] *)
Definition align_up (n align : Z) : Z := Z.land (wrap 64 (n + align - 1)) (Z.lnot (align - 1)).

Definition is_power_of_two (n : Z) : bool := (0 <? n) && (2 ^ Z.log2 n =? n).

Definition write_fixed_string (buf : bytes) (s : bytes) (len : Z) : bytes :=
  let copy_len := Z.min (zlen s) len in
  let buf := buf ++ slice 0 copy_len s in
  if copy_len <? len then buf ++ zrep (len - copy_len) x00 else buf.

Definition read_fixed_string {E} (data : bytes) (off len : Z) : res E bytes :=
  let! field := get_slice data off (off + len) in
  let end_ := match position (beqb x00) field with Some i => Z.of_nat i | None => len end in
  let! s := get_slice data off (off + end_) in
  Ok (from_utf8_lossy s).

(** ** Header *)
Record BootImageHeader := {
  header_version : Z; kernel_size : Z; kernel_addr : Z; ramdisk_size : Z; ramdisk_addr : Z;
  os_version : Z; second_size : Z; second_addr : Z; tags_addr : Z; page_size : Z;
  name : bytes; cmdline : bytes; id : bytes; extra_cmdline : bytes;
  recovery_dtbo_size : Z; recovery_dtbo_offset : Z; boot_header_size : Z;
  dtb_size : Z; dtb_addr : Z;
}.

Module BootImageHeader.
Definition new_v0 : BootImageHeader :=
  {| header_version := 0; kernel_size := 0; kernel_addr := DEFAULT_KERNEL_ADDR; ramdisk_size := 0;
     ramdisk_addr := DEFAULT_RAMDISK_ADDR; os_version := 0; second_size := 0;
     second_addr := DEFAULT_SECOND_ADDR; tags_addr := DEFAULT_TAGS_ADDR;
     page_size := DEFAULT_PAGE_SIZE; name := []; cmdline := []; id := zrep BOOT_ID_SIZE x00;
     extra_cmdline := []; recovery_dtbo_size := 0; recovery_dtbo_offset := 0; boot_header_size := 0;
     dtb_size := 0; dtb_addr := 0 |}.

Definition new_v3 : BootImageHeader :=
  {| header_version := 3; kernel_size := 0; kernel_addr := 0; ramdisk_size := 0;
     ramdisk_addr := 0; os_version := 0; second_size := 0; second_addr := 0; tags_addr := 0;
     page_size := 4096; name := []; cmdline := []; id := zrep BOOT_ID_SIZE x00;
     extra_cmdline := []; recovery_dtbo_size := 0; recovery_dtbo_offset := 0;
     boot_header_size := BOOT_IMAGE_HEADER_V3_SIZE; dtb_size := 0; dtb_addr := 0 |}.

(** [while buf.len() < n { buf.push(0) }] *)
Definition pad_to (n : Z) (buf : bytes) : bytes := buf ++ zrep (n - zlen buf) x00.

Definition encode_v0_v1_v2 (h : BootImageHeader) (buf : bytes) : bytes :=
  let version := header_version h in
  let hdr_sz := BootImageVersion.header_size_or_0 version in
  let buf := buf ++ le_bytes 4 (kernel_size h) in
  let buf := buf ++ le_bytes 4 (kernel_addr h) in
  let buf := buf ++ le_bytes 4 (ramdisk_size h) in
  let buf := buf ++ le_bytes 4 (ramdisk_addr h) in
  let buf := buf ++ le_bytes 4 (second_size h) in
  let buf := buf ++ le_bytes 4 (second_addr h) in
  let buf := buf ++ le_bytes 4 (tags_addr h) in
  let buf := buf ++ le_bytes 4 (page_size h) in
  let buf := buf ++ le_bytes 4 (header_version h) in
  let buf := buf ++ le_bytes 4 (os_version h) in
  let buf := write_fixed_string buf (name h) BOOT_NAME_SIZE in
  let buf := write_fixed_string buf (cmdline h) BOOT_ARGS_SIZE in
  let buf := buf ++ id h in
  let buf := write_fixed_string buf (extra_cmdline h) BOOT_EXTRA_ARGS_SIZE in
  let buf := if 1 <=? version
             then ((buf ++ le_bytes 4 (recovery_dtbo_size h)) ++ le_bytes 8 (recovery_dtbo_offset h))
                  ++ le_bytes 4 (boot_header_size h)
             else buf in
  let buf := if 2 <=? version
             then (buf ++ le_bytes 4 (dtb_size h)) ++ le_bytes 8 (dtb_addr h)
             else buf in
  pad_to hdr_sz buf.

Definition encode_v3_v4 (h : BootImageHeader) (buf : bytes) : bytes :=
  let buf := buf ++ le_bytes 4 (header_version h) in
  let buf := buf ++ le_bytes 4 (kernel_size h) in
  let buf := buf ++ le_bytes 4 (ramdisk_size h) in
  let buf := buf ++ le_bytes 4 (os_version h) in
  let buf := buf ++ le_bytes 4 BOOT_IMAGE_HEADER_V3_SIZE in
  let buf := (((buf ++ le_bytes 4 0) ++ le_bytes 4 0) ++ le_bytes 4 0) ++ le_bytes 4 0 in
  pad_to BOOT_IMAGE_HEADER_V3_SIZE buf.

Definition encode (h : BootImageHeader) : bytes :=
  let version := header_version h in
  let buf := BOOT_MAGIC in
  if (version =? 0) || (version =? 1) || (version =? 2) then encode_v0_v1_v2 h buf
  else if (version =? 3) || (version =? 4) then encode_v3_v4 h buf
  else buf.

Definition decode_v0_v1_v2 (data : bytes) (version : Z) : boot BootImageHeader :=
  let! hdr_sz := match BootImageVersion.from_u32 version with
                 | Ok v => Ok (BootImageVersion.header_size v)
                 | _ => Panic
                 end in
  if zlen data <? hdr_sz then Err (BufferTooShort hdr_sz (zlen data)) else
  let! kernel_size := read_u32 data 8 in
  let! kernel_addr := read_u32 data 12 in
  let! ramdisk_size := read_u32 data 16 in
  let! ramdisk_addr := read_u32 data 20 in
  let! second_size := read_u32 data 24 in
  let! second_addr := read_u32 data 28 in
  let! tags_addr := read_u32 data 32 in
  let! page_size := read_u32 data 36 in
  let! header_version := read_u32 data 40 in
  let! os_version := read_u32 data 44 in
  let! name := read_fixed_string data 48 BOOT_NAME_SIZE in
  let! cmdline := read_fixed_string data 64 BOOT_ARGS_SIZE in
  let! id := get_slice data 576 (576 + BOOT_ID_SIZE) in
  let! extra_cmdline := read_fixed_string data 608 BOOT_EXTRA_ARGS_SIZE in
  let! v1 := (if 1 <=? version then
                let! a := read_u32 data 1632 in
                let! b := read_u64 data 1636 in
                let! c := read_u32 data 1644 in Ok (a, b, c)
              else Ok (0, 0, 0)) in
  let! v2 := (if 2 <=? version then
                let! a := read_u32 data 1648 in
                let! b := read_u64 data 1652 in Ok (a, b)
              else Ok (0, 0)) in
  Ok {| header_version := header_version; kernel_size := kernel_size; kernel_addr := kernel_addr;
        ramdisk_size := ramdisk_size; ramdisk_addr := ramdisk_addr; os_version := os_version;
        second_size := second_size; second_addr := second_addr; tags_addr := tags_addr;
        page_size := page_size; name := name; cmdline := cmdline; id := id;
        extra_cmdline := extra_cmdline; recovery_dtbo_size := v1.1.1; recovery_dtbo_offset := v1.1.2;
        boot_header_size := v1.2; dtb_size := v2.1; dtb_addr := v2.2 |}.

Definition decode_v3_v4 (data : bytes) (version : Z) : boot BootImageHeader :=
  if zlen data <? BOOT_IMAGE_HEADER_V3_SIZE
  then Err (BufferTooShort BOOT_IMAGE_HEADER_V3_SIZE (zlen data)) else
  let! kernel_size := read_u32 data 12 in
  let! ramdisk_size := read_u32 data 16 in
  let! os_version := read_u32 data 20 in
  Ok {| header_version := version; kernel_size := kernel_size; kernel_addr := 0;
        ramdisk_size := ramdisk_size; ramdisk_addr := 0; os_version := os_version;
        second_size := 0; second_addr := 0; tags_addr := 0; page_size := 4096; name := [];
        cmdline := []; id := zrep BOOT_ID_SIZE x00; extra_cmdline := []; recovery_dtbo_size := 0;
        recovery_dtbo_offset := 0; boot_header_size := BOOT_IMAGE_HEADER_V3_SIZE; dtb_size := 0;
        dtb_addr := 0 |}.

(** The bytes as the characters U+0000 to U+00FF, in UTF-8 ([b as char], collected). *)
Definition latin1 (s : bytes) : bytes :=
  concat (map (fun b => if b2z b <? 128 then [b]
                        else [z2b (0xC0 + b2z b / 64); z2b (0x80 + b2z b mod 64)]) s).

Definition decode (data : bytes) : boot BootImageHeader :=
  if zlen data <? 8 then Err (BufferTooShort 8 (zlen data)) else
  let! magic := get_slice data 0 8 in
  if negb (bool_decide (magic = BOOT_MAGIC)) then Err (InvalidMagic (latin1 magic)) else
  if zlen data <? 12 then Err (BufferTooShort 12 (zlen data)) else
  let! ver_at_8 := read_u32 data 8 in
  let! version :=
    (if (ver_at_8 =? 3) || (ver_at_8 =? 4) then Ok ver_at_8
     else let! ver_at_40 := read_u32 data 40 in
          if ver_at_40 <=? 2 then Ok ver_at_40 else Err (UnsupportedVersion ver_at_40)) in
  if (version =? 0) || (version =? 1) || (version =? 2) then decode_v0_v1_v2 data version
  else if (version =? 3) || (version =? 4) then decode_v3_v4 data version
  else Err (UnsupportedVersion version).
End BootImageHeader.

(** ** Images *)
Record BootImage := {
  header : BootImageHeader; kernel : bytes; ramdisk : bytes; second : bytes;
  recovery_dtbo : bytes; dtb : bytes;
}.

(** A section padded to the page size; empty sections take no space. *)
Definition padded_section (s : bytes) (ps : Z) : bytes :=
  if negb (zlen s =? 0) then resize (align_up (zlen s) ps) x00 s else [].

Definition image_page_size (page_size header_version : Z) : Z :=
  if (header_version =? 0) || (header_version =? 1) || (header_version =? 2) then
    if negb (is_power_of_two page_size) || (page_size =? 0) then DEFAULT_PAGE_SIZE else page_size
  else 4096.

(** The header [build_boot_image] writes. *)
Definition built_header (kernel_len ramdisk_len second_len dtb_len ps header_version_ : Z) : BootImageHeader :=
  let h := if (header_version_ =? 0) || (header_version_ =? 1) || (header_version_ =? 2)
           then BootImageHeader.new_v0 else BootImageHeader.new_v3 in
  {| header_version := header_version_; kernel_size := wrap 32 kernel_len; kernel_addr := kernel_addr h;
     ramdisk_size := wrap 32 ramdisk_len; ramdisk_addr := ramdisk_addr h; os_version := os_version h;
     second_size := wrap 32 second_len; second_addr := second_addr h; tags_addr := tags_addr h;
     page_size := ps; name := name h; cmdline := cmdline h; id := id h;
     extra_cmdline := extra_cmdline h;
     recovery_dtbo_size := if 1 <=? header_version_ then 0 else recovery_dtbo_size h;
     recovery_dtbo_offset := if 1 <=? header_version_ then 0 else recovery_dtbo_offset h;
     boot_header_size := if 1 <=? header_version_
                         then BootImageVersion.header_size_or_0 header_version_ else boot_header_size h;
     dtb_size := if 2 <=? header_version_ then wrap 32 dtb_len else dtb_size h;
     dtb_addr := if 2 <=? header_version_ then 0 else dtb_addr h |}.

Definition build_boot_image (kernel ramdisk second dtb : bytes) (page_size header_version : Z) : bytes :=
  let ps := image_page_size page_size header_version in
  let hdr := built_header (zlen kernel) (zlen ramdisk) (zlen second) (zlen dtb) ps header_version in
  let raw_hdr := BootImageHeader.encode hdr in
  let hdr_page := align_up (zlen raw_hdr) ps in
  let image := resize hdr_page x00 raw_hdr in
  let image := image ++ padded_section kernel ps in
  let image := image ++ padded_section ramdisk ps in
  let image := if header_version <=? 2 then image ++ padded_section second ps else image in
  if 2 <=? header_version then image ++ padded_section dtb ps else image.

(** One sequential section of [parse_boot_image]: its bytes and the offset after it. *)
Definition read_section (data : bytes) (section : bytes) (size offset ps : Z) : boot (bytes * Z) :=
  if 0 <? size then
    let padded := align_up size ps in
    if zlen data <? offset + padded then Err (SectionBounds section offset padded (zlen data)) else
    let! s := get_slice data offset (offset + size) in
    Ok (s, offset + padded)
  else Ok ([], offset).

(** The recovery DTBO of a version 1 image, at its own absolute offset. *)
Definition read_recovery_dtbo (data : bytes) (h : BootImageHeader) (offset ps : Z) : boot bytes :=
  if (header_version h =? 1) && (0 <? recovery_dtbo_size h) then
    let sz := recovery_dtbo_size h in
    let padded := align_up sz ps in
    let recovery_offset := recovery_dtbo_offset h in
    if recovery_offset <? offset
    then Err (InvalidSectionOffset (B "recovery_dtbo") recovery_offset offset) else
    if (usize_max <? recovery_offset + padded) || (zlen data <? recovery_offset + padded)
    then Err (SectionBounds (B "recovery_dtbo") recovery_offset padded (zlen data)) else
    get_slice data recovery_offset (recovery_offset + sz)
  else Ok [].

Definition parse_boot_image (data : bytes) : boot BootImage :=
  if zlen data <? 8 then Err (BufferTooShort 8 (zlen data)) else
  let! header := BootImageHeader.decode data in
  let version := header_version header in
  let old := (version =? 0) || (version =? 1) || (version =? 2) in
  let ps := if old then page_size header else 4096 in
  if (ps =? 0) || negb (is_power_of_two ps) then Err (InvalidPageSize (page_size header)) else
  let! hdr_bytes :=
    (if old then match BootImageVersion.from_u32 version with
                 | Ok v => Ok (align_up (BootImageVersion.header_size v) ps)
                 | _ => Panic
                 end
     else Ok BOOT_IMAGE_HEADER_V3_SIZE) in
  if zlen data <? hdr_bytes then Err (BufferTooShort hdr_bytes (zlen data)) else
  let! k := read_section data (B "kernel") (kernel_size header) hdr_bytes ps in
  let! r := read_section data (B "ramdisk") (ramdisk_size header) k.2 ps in
  let! s := read_section data (B "second") (if version <=? 2 then second_size header else 0) r.2 ps in
  let! rd := read_recovery_dtbo data header s.2 ps in
  let! d := read_section data (B "dtb") (if 2 <=? version then dtb_size header else 0) s.2 ps in
  Ok {| header := header; kernel := k.1; ramdisk := r.1; second := s.1; recovery_dtbo := rd; dtb := d.1 |}.

(** [BootImageBuilder] collects the arguments of [build_boot_image]. *)
Module BootImageBuilder.
Record t := {
  b_kernel : bytes; b_ramdisk : bytes; b_second : bytes; b_dtb : bytes;
  b_page_size : Z; b_header_version : Z;
}.
Definition new : t :=
  {| b_kernel := []; b_ramdisk := []; b_second := []; b_dtb := []; b_page_size := DEFAULT_PAGE_SIZE;
     b_header_version := 4 |}.
Definition kernel (b : t) (kernel : bytes) : t :=
  {| b_kernel := kernel; b_ramdisk := b_ramdisk b; b_second := b_second b; b_dtb := b_dtb b;
     b_page_size := b_page_size b; b_header_version := b_header_version b |}.
Definition ramdisk (b : t) (ramdisk : bytes) : t :=
  {| b_kernel := b_kernel b; b_ramdisk := ramdisk; b_second := b_second b; b_dtb := b_dtb b;
     b_page_size := b_page_size b; b_header_version := b_header_version b |}.
Definition second (b : t) (second : bytes) : t :=
  {| b_kernel := b_kernel b; b_ramdisk := b_ramdisk b; b_second := second; b_dtb := b_dtb b;
     b_page_size := b_page_size b; b_header_version := b_header_version b |}.
Definition dtb (b : t) (dtb : bytes) : t :=
  {| b_kernel := b_kernel b; b_ramdisk := b_ramdisk b; b_second := b_second b; b_dtb := dtb;
     b_page_size := b_page_size b; b_header_version := b_header_version b |}.
Definition page_size (b : t) (page_size : Z) : t :=
  {| b_kernel := b_kernel b; b_ramdisk := b_ramdisk b; b_second := b_second b; b_dtb := b_dtb b;
     b_page_size := page_size; b_header_version := b_header_version b |}.
Definition header_version (b : t) (version : Z) : t :=
  {| b_kernel := b_kernel b; b_ramdisk := b_ramdisk b; b_second := b_second b; b_dtb := b_dtb b;
     b_page_size := b_page_size b; b_header_version := version |}.
Definition build (b : t) : bytes :=
  build_boot_image (b_kernel b) (b_ramdisk b) (b_second b) (b_dtb b) (b_page_size b) (b_header_version b).
End BootImageBuilder.

(** ** Facts *)
Section AlignFacts.

Lemma power_of_two_inv a : is_power_of_two a = true -> exists k, 0 <= k /\ a = 2 ^ k.
Proof.
  unfold is_power_of_two. rewrite andb_true_iff, Z.ltb_lt, Z.eqb_eq. intros [Hp E].
  exists (Z.log2 a). split; [apply Z.log2_nonneg|done].
Qed.

Lemma align_up_pow2 n k :
  0 <= n -> 0 <= k -> n + 2 ^ k <= 2 ^ 64 -> align_up n (2 ^ k) = (n + 2 ^ k - 1) / 2 ^ k * 2 ^ k.
Proof.
  intros Hn Hk Hw. pose proof (Z.pow_pos_nonneg 2 k ltac:(lia) Hk).
  unfold align_up. rewrite wrap_small by (unfold uint; lia).
  rewrite <- Z.ldiff_land. replace (2 ^ k - 1) with (Z.ones k) by (rewrite Z.ones_equiv; lia).
  by rewrite Z.ldiff_ones_r, Z.shiftl_mul_pow2, Z.shiftr_div_pow2.
Qed.

Lemma align_up_spec n a :
  0 <= n -> is_power_of_two a = true -> n + a <= 2 ^ 64 ->
  n <= align_up n a < n + a /\ align_up n a mod a = 0.
Proof.
  intros Hn Ha Hw. apply power_of_two_inv in Ha as (k & Hk & ->).
  pose proof (Z.pow_pos_nonneg 2 k ltac:(lia) Hk). rewrite align_up_pow2 by lia.
  split; [|apply Z.mod_mul; lia]. pose proof (Z.div_mod (n + 2 ^ k - 1) (2 ^ k)).
  pose proof (Z.mod_pos_bound (n + 2 ^ k - 1) (2 ^ k)). lia.
Qed.

Lemma power_of_two_u32 a : is_power_of_two a = true -> a < 2 ^ 32 -> 1 <= a <= 2 ^ 31.
Proof.
  intros Ha Hl. apply power_of_two_inv in Ha as (k & Hk & ->).
  pose proof (Z.pow_pos_nonneg 2 k ltac:(lia) Hk). split; [lia|].
  apply Z.pow_lt_mono_r_iff in Hl; [|lia..]. apply Z.pow_le_mono_r; lia.
Qed.
End AlignFacts.

Section StringFacts.

Lemma write_fixed_eq buf s len : write_fixed_string buf s len = buf ++ fixed s len.
Proof.
  unfold write_fixed_string, fixed. zcase; [by rewrite app_assoc|].
  assert (zrep (len - Z.min (zlen s) len) x00 = []) as ->; [|by rewrite app_nil_r].
  unfold zrep. by replace (Z.to_nat _) with 0%nat by lia.
Qed.

Lemma read_fixed_ok {E} data off len s :
  0 <= off -> off + len <= zlen data -> 0 <= len -> field_string s len ->
  slice off (off + len) data = fixed s len -> @read_fixed_string E data off len = Ok s.
Proof.
  intros Ho Hl Hlen (Hs & Hn & Hu) Hd. unfold read_fixed_string. pose proof (zlen_nonneg s).
  rewrite get_slice_ok by lia. cbn [res_bind]. rewrite Hd. unfold fixed.
  rewrite (Z.min_l (zlen s) len) by lia. rewrite slice_full by lia.
  assert (slice off (off + zlen s) data = s) as Hpre.
  { replace (slice off (off + zlen s) data) with (slice 0 (zlen s) (slice off (off + len) data))
      by (rewrite slice_slice by lia; f_equal; lia).
    rewrite Hd. unfold fixed. rewrite (Z.min_l (zlen s) len), (slice_full (zlen s) s) by lia.
    rewrite slice_app_l by lia. apply slice_full. lia. }
  assert (match position (beqb x00) (s ++ zrep (len - zlen s) x00) with Some i => Z.of_nat i | None => len end
          = zlen s) as ->.
  { destruct (Z.eqb_spec (zlen s) len) as [->|].
    - rewrite Z.sub_diag. change (zrep 0 x00) with (@nil byte). rewrite app_nil_r. by rewrite position_nul.
    - unfold zrep. replace (Z.to_nat (len - zlen s)) with (S (Z.to_nat (len - zlen s - 1))) by lia.
      cbn [replicate]. rewrite position_app; [done| |by rewrite beqb_refl].
      apply Forall_forall. intros b Hb%list_elem_of_In. apply beqb_false. by intros <-. }
  rewrite get_slice_ok by lia. cbn [res_bind]. rewrite Hpre. by rewrite lossy_utf8.
Qed.

Lemma read_fixed_no_panic {E} data off len :
  0 <= off -> 0 <= len -> off + len <= zlen data -> exists s, @read_fixed_string E data off len = Ok s.
Proof.
  intros Ho Hlen Hl. unfold read_fixed_string. rewrite get_slice_ok by lia. cbn [res_bind].
  set (n := match position _ _ with Some i => _ | None => _ end).
  assert (0 <= n <= len) as Hn.
  { unfold n. destruct (position _ _) as [i|] eqn:Hp; [|lia].
    assert (i < length (slice off (off + len) data))%nat as Hi.
    { clear -Hp. revert i Hp. induction (slice off (off + len) data) as [|b l IH]; intros i; [done|].
      cbn [position]. destruct (beqb x00 b); [intros [= <-]; cbn; lia|].
      destruct (position _ l) as [j|]; [|done]. intros [= <-]. specialize (IH j eq_refl). cbn. lia. }
    pose proof (zlen_slice off (off + len) data). unfold zlen in *. lia. }
  rewrite get_slice_ok by lia. cbn [res_bind]. eauto.
Qed.
End StringFacts.

Section HeaderFacts.
Import BootImageHeader.

(** What a header of each version can record: fields in range, strings that fit, and nothing in
    the fields the version does not have. A version 0 to 2 header whose kernel size is 3 or 4
    is taken for a later version by [decode]. *)
Definition old_header_ok (h : BootImageHeader) : Prop :=
  0 <= header_version h <= 2 /\
  u32 (kernel_size h) /\ (kernel_size h <> 3 /\ kernel_size h <> 4) /\ u32 (kernel_addr h) /\
  u32 (ramdisk_size h) /\ u32 (ramdisk_addr h) /\ u32 (os_version h) /\ u32 (second_size h) /\
  u32 (second_addr h) /\ u32 (tags_addr h) /\ u32 (page_size h) /\
  field_string (name h) 16 /\ field_string (cmdline h) 512 /\ field_string (extra_cmdline h) 1024 /\
  zlen (id h) = 32 /\
  (if 1 <=? header_version h
   then u32 (recovery_dtbo_size h) /\ u64 (recovery_dtbo_offset h) /\ u32 (boot_header_size h)
   else recovery_dtbo_size h = 0 /\ recovery_dtbo_offset h = 0 /\ boot_header_size h = 0) /\
  (if 2 <=? header_version h then u32 (dtb_size h) /\ u64 (dtb_addr h)
   else dtb_size h = 0 /\ dtb_addr h = 0).

(** What of a header versions 3 and 4 record. *)
Definition new_canon (h : BootImageHeader) : BootImageHeader :=
  {| header_version := header_version h; kernel_size := kernel_size h; kernel_addr := 0;
     ramdisk_size := ramdisk_size h; ramdisk_addr := 0; os_version := os_version h;
     second_size := 0; second_addr := 0; tags_addr := 0; page_size := 4096; name := [];
     cmdline := []; id := zrep BOOT_ID_SIZE x00; extra_cmdline := []; recovery_dtbo_size := 0;
     recovery_dtbo_offset := 0; boot_header_size := BOOT_IMAGE_HEADER_V3_SIZE; dtb_size := 0;
     dtb_addr := 0 |}.

Definition new_header_typed (h : BootImageHeader) : Prop :=
  (header_version h = 3 \/ header_version h = 4) /\ u32 (kernel_size h) /\ u32 (ramdisk_size h) /\
  u32 (os_version h).
Definition new_header_ok (h : BootImageHeader) : Prop := new_header_typed h /\ h = new_canon h.

Definition header_ok (h : BootImageHeader) : Prop := old_header_ok h \/ new_header_ok h.

(** The bytes of an old header up to the version extensions. *)
Definition old_base (h : BootImageHeader) : bytes :=
  BOOT_MAGIC ++ le_bytes 4 (kernel_size h) ++ le_bytes 4 (kernel_addr h) ++ le_bytes 4 (ramdisk_size h)
  ++ le_bytes 4 (ramdisk_addr h) ++ le_bytes 4 (second_size h) ++ le_bytes 4 (second_addr h)
  ++ le_bytes 4 (tags_addr h) ++ le_bytes 4 (page_size h) ++ le_bytes 4 (header_version h)
  ++ le_bytes 4 (os_version h) ++ fixed (name h) 16 ++ fixed (cmdline h) 512 ++ id h
  ++ fixed (extra_cmdline h) 1024.
Definition v1_fields (h : BootImageHeader) : bytes :=
  le_bytes 4 (recovery_dtbo_size h) ++ le_bytes 8 (recovery_dtbo_offset h) ++ le_bytes 4 (boot_header_size h).
Definition v2_fields (h : BootImageHeader) : bytes :=
  le_bytes 4 (dtb_size h) ++ le_bytes 8 (dtb_addr h) ++ zrep 4 x00.

Lemma zlen_magic : zlen BOOT_MAGIC = 8.
Proof. done. Qed.

Lemma zlen_old_base h : zlen (id h) = 32 -> zlen (old_base h) = 1632.
Proof. intros Hi. unfold old_base. autorewrite with zlen_db. rewrite Hi, zlen_magic. lia. Qed.

Lemma pad_exact n buf : zlen buf = n -> pad_to n buf = buf.
Proof. intros <-. unfold pad_to. rewrite Z.sub_diag. apply app_nil_r. Qed.

Lemma encode_old h :
  zlen (id h) = 32 -> 0 <= header_version h <= 2 ->
  encode h = old_base h ++ (if 1 <=? header_version h then v1_fields h else [])
                        ++ (if 2 <=? header_version h then v2_fields h else []).
Proof.
  intros Hi Hv. unfold encode.
  assert ((header_version h =? 0) || (header_version h =? 1) || (header_version h =? 2) = true) as ->
    by (repeat zcase; lia || done).
  unfold encode_v0_v1_v2. rewrite !write_fixed_eq.
  pose proof (zlen_old_base h Hi) as Hz.
  assert (header_version h = 0 \/ header_version h = 1 \/ header_version h = 2) as [E|[E|E]] by lia;
    rewrite E; cbn [Z.leb Z.compare Pos.compare Pos.compare_cont].
  - rewrite app_nil_r. change (BootImageVersion.header_size_or_0 0) with 1632.
    rewrite <- Hz. unfold old_base. rewrite E, <- !app_assoc. by rewrite pad_exact.
  - rewrite app_nil_r. change (BootImageVersion.header_size_or_0 1) with 1648.
    assert (zlen (old_base h ++ v1_fields h) = 1648) as Hz1 by (unfold v1_fields; zl).
    rewrite <- Hz1. unfold old_base, v1_fields. rewrite E, <- !app_assoc. by rewrite pad_exact.
  - change (BootImageVersion.header_size_or_0 2) with 1664.
    unfold pad_to. rewrite <- !app_assoc. unfold old_base, v1_fields, v2_fields. rewrite E, <- !app_assoc.
    repeat f_equal. unfold BOOT_NAME_SIZE, BOOT_ARGS_SIZE, BOOT_EXTRA_ARGS_SIZE.
    autorewrite with zlen_db. rewrite Hi, zlen_magic. lia.
Qed.

(** [decode] on a buffer that starts with the magic and an old header's base. *)
Lemma decode_old_fields h rest version :
  old_header_ok h -> version = header_version h ->
  BootImageVersion.header_size_or_0 version <= zlen (old_base h ++ rest) ->
  (if 1 <=? version then exists t, rest = v1_fields h ++ t else True) ->
  (if 2 <=? version then exists t, rest = v1_fields h ++ v2_fields h ++ t else True) ->
  decode_v0_v1_v2 (old_base h ++ rest) version = Ok h.
Proof.
  intros Hok -> Hlen H1 H2. pose proof Hok as
    (Hv & Hk & _ & Hka & Hr & Hra & Hos & Hs & Hsa & Hta & Hps & Hn & Hc & Hx & Hi & Hv1 & Hv2).
  pose proof (zlen_old_base h Hi) as Hz. pose proof (zlen_nonneg rest).
  unfold decode_v0_v1_v2, BootImageVersion.header_size_or_0 in *.
  set (data := old_base h ++ rest) in *.
  assert (zlen data = 1632 + zlen rest) as Hd by (unfold data; rewrite zlen_app; lia).
  assert (exists v, BootImageVersion.from_u32 (header_version h) = Ok v) as [v Hver].
  { assert (header_version h = 0 \/ header_version h = 1 \/ header_version h = 2) as [-> | [-> | ->]] by lia;
      eexists; done. }
  rewrite Hver in *. cbn [res_bind]. zcase; [lia|]. wire_unfold. wire_read.
  rewrite (read_fixed_ok data 48 16 (name h)), (read_fixed_ok data 64 512 (cmdline h)),
    (read_fixed_ok data 608 1024 (extra_cmdline h)); try done; try lia.
  all: try (unfold data, old_base; rewrite <- !app_assoc; pose proof zlen_magic; wire_app; done).
  cbn [res_bind]. rewrite get_slice_ok by (unfold BOOT_ID_SIZE; lia). cbn [res_bind].
  match goal with |- res_bind ?m _ = _ => assert (m
    = Ok (recovery_dtbo_size h, recovery_dtbo_offset h, boot_header_size h)) as -> end.
  { destruct (1 <=? header_version h); [|by destruct Hv1 as (-> & -> & ->)].
    destruct H1 as [t ->], Hv1 as (? & ? & ?). unfold v1_fields in *. autorewrite with zlen_db in Hd.
    pose proof (zlen_nonneg t). wire_read. unfold data. rewrite <- !app_assoc. wire_app. by wire_val. }
  cbn [res_bind]. match goal with |- res_bind ?m _ = _ => assert (m = Ok (dtb_size h, dtb_addr h)) as -> end.
  { destruct (2 <=? header_version h); [|by destruct Hv2 as (-> & ->)].
    destruct H2 as [t ->], Hv2 as (? & ?). unfold v1_fields, v2_fields in *. autorewrite with zlen_db in Hd.
    pose proof (zlen_nonneg t). wire_read. unfold data. rewrite <- !app_assoc. wire_app. by wire_val. }
  cbn [res_bind fst snd]. pose proof zlen_magic. unfold BOOT_ID_SIZE, data, old_base. rewrite <- !app_assoc.
  wire_app. assert (u32 (header_version h)) by (unfold u32, uint; lia). wire_val. by destruct h.
Qed.

(** The magic check and the choice of the version in [decode]. *)
Lemma decode_magic t :
  4 <= zlen t ->
  decode (BOOT_MAGIC ++ t) =
    let ver_at_8 := le_val (slice 0 4 t) in
    let data := BOOT_MAGIC ++ t in
    if (ver_at_8 =? 3) || (ver_at_8 =? 4) then decode_v3_v4 data ver_at_8
    else if zlen t <? 36 then Panic
    else let ver_at_40 := le_val (slice 32 36 t) in
         if ver_at_40 <=? 2 then decode_v0_v1_v2 data ver_at_40 else Err (UnsupportedVersion ver_at_40).
Proof.
  intros Ht. unfold decode. rewrite zlen_app, zlen_magic. zcase; [lia|].
  rewrite get_slice_ok by (rewrite ?zlen_app, ?zlen_magic; lia). cbn [res_bind]. pose proof zlen_magic.
  wire_app. rewrite bool_decide_true by done. cbn [negb]. zcase; [lia|]. wire_unfold.
  rewrite read_le_ok by (rewrite ?zlen_app, ?zlen_magic; lia). cbn [res_bind]. wire_norm.
  rewrite (slice_app_r 8 12) by lia. change (8 - zlen BOOT_MAGIC) with 0. change (12 - zlen BOOT_MAGIC) with 4.
  cbv zeta. set (v8 := le_val (slice 0 4 t)).
  destruct ((v8 =? 3) || (v8 =? 4)) eqn:E; cbn [res_bind].
  - rewrite E. apply orb_true_iff in E as [->%Z.eqb_eq | ->%Z.eqb_eq]; done.
  - zcase; [unfold read_le, get_slice; by rewrite (proj2 (Z.leb_gt (40 + Z.of_nat 4) _)) by (rewrite zlen_app, zlen_magic; lia)|].
    rewrite read_le_ok by (rewrite ?zlen_app, ?zlen_magic; lia). cbn [res_bind]. wire_norm.
    rewrite (slice_app_r 40 44) by lia. change (40 - zlen BOOT_MAGIC) with 32. change (44 - zlen BOOT_MAGIC) with 36.
    pose proof (le_val_range (slice 32 36 t)). set (v40 := le_val (slice 32 36 t)) in *.
    destruct (Z.leb_spec v40 2); cbn [res_bind]; [|done].
    assert ((v40 =? 0) || (v40 =? 1) || (v40 =? 2) = true) as -> by (repeat zcase; lia || done). done.
Qed.

Lemma old_base_magic h : exists t, old_base h = BOOT_MAGIC ++ t /\
  (zlen (id h) = 32 -> u32 (kernel_size h) -> u32 (header_version h) ->
   zlen t = 1624 /\ le_val (slice 0 4 t) = kernel_size h /\ le_val (slice 32 36 t) = header_version h).
Proof.
  eexists. split; [done|]. intros Hi Hk Hv. split; [|split].
  - autorewrite with zlen_db. rewrite Hi. lia.
  - wire_app. by wire_val.
  - wire_app. by wire_val.
Qed.

Lemma decode_encode_old h rest : old_header_ok h -> decode (encode h ++ rest) = Ok h.
Proof.
  intros Hok. pose proof Hok as (Hv & Hk & [Hk3 Hk4] & _ & _ & _ & _ & _ & _ & _ & _ & _ & _ & _ & Hi & _).
  assert (u32 (header_version h)) as Hvu by (unfold u32, uint; lia).
  pose proof (encode_old h Hi Hv) as He. rewrite He, <- app_assoc.
  destruct (old_base_magic h) as (t & Hb & Hf). destruct (Hf Hi Hk Hvu) as (Ht & H8 & H40). clear Hf.
  set (ext := _ ++ rest). pose proof (zlen_nonneg ext).
  pose proof (decode_magic (t ++ ext)) as Hd. rewrite zlen_app, !slice_app_l, H8, H40 in Hd by lia.
  rewrite app_assoc, <- Hb in Hd. rewrite Hd by lia. clear Hd. cbv zeta.
  rewrite (proj2 (Z.eqb_neq _ 3)), (proj2 (Z.eqb_neq _ 4)) by done. cbn [orb].
  rewrite (proj2 (Z.ltb_ge _ _)) by lia. rewrite (proj2 (Z.leb_le _ 2)) by lia.
  pose proof (zlen_old_base h Hi). pose proof (zlen_nonneg rest).
  apply decode_old_fields; [done|done| | |]; unfold ext.
  - rewrite zlen_app.
    assert (header_version h = 0 \/ header_version h = 1 \/ header_version h = 2) as [E|[E|E]] by lia; rewrite E.
    + change (BootImageVersion.header_size_or_0 0) with 1632. cbn [Z.leb Z.compare Pos.compare Pos.compare_cont app]. lia.
    + change (BootImageVersion.header_size_or_0 1) with 1648. cbn [Z.leb Z.compare Pos.compare Pos.compare_cont app]. unfold v1_fields. zl.
    + change (BootImageVersion.header_size_or_0 2) with 1664. cbn [Z.leb Z.compare Pos.compare Pos.compare_cont app]. unfold v1_fields, v2_fields. zl.
  - destruct (1 <=? header_version h); [|done]. rewrite <- app_assoc. eauto.
  - destruct (Z.leb_spec 2 (header_version h)); [|done].
    rewrite (proj2 (Z.leb_le 1 _)) by lia. rewrite <- app_assoc. eauto.
Qed.

Lemma encode_new h :
  header_version h = 3 \/ header_version h = 4 ->
  exists t, encode h = BOOT_MAGIC ++ le_bytes 4 (header_version h) ++ le_bytes 4 (kernel_size h)
                    ++ le_bytes 4 (ramdisk_size h) ++ le_bytes 4 (os_version h) ++ t /\ zlen t = 4072.
Proof.
  intros Hv. eexists. split.
  - unfold encode. assert ((header_version h =? 0) || (header_version h =? 1) || (header_version h =? 2) = false) as ->
      by (destruct Hv as [-> | ->]; done).
    assert ((header_version h =? 3) || (header_version h =? 4) = true) as -> by (destruct Hv as [-> | ->]; done).
    unfold encode_v3_v4, pad_to. rewrite <- !app_assoc. done.
  - unfold BOOT_IMAGE_HEADER_V3_SIZE. autorewrite with zlen_db. rewrite zlen_magic. rewrite zlen_zrep; lia.
Qed.

Lemma decode_encode_new h rest : new_header_typed h -> decode (encode h ++ rest) = Ok (new_canon h).
Proof.
  intros (Hv & Hk & Hr & Ho). destruct (encode_new h Hv) as (t & -> & Ht).
  assert (u32 (header_version h)) as Hvu by (destruct Hv as [-> | ->]; unfold u32, uint; lia).
  pose proof (zlen_nonneg rest). rewrite <- !app_assoc, decode_magic by zg. cbv zeta.
  rewrite (slice_app_l 0 4), slice_all, le_val_bytes_id by (zg || done).
  assert ((header_version h =? 3) || (header_version h =? 4) = true) as -> by (destruct Hv as [-> | ->]; done).
  unfold decode_v3_v4, BOOT_IMAGE_HEADER_V3_SIZE. pose proof zlen_magic.
  zcase; [zl|]. wire_unfold. wire_read. wire_app. by wire_val.
Qed.
End HeaderFacts.

Section ImageFacts.

Lemma align_up_same a : is_power_of_two a = true -> a <= 2 ^ 63 -> align_up a a = a.
Proof.
  intros Ha Hl. destruct (align_up_spec a a) as [Hr Hm]; [|done|lia|].
  { apply power_of_two_inv in Ha as (k & ? & ->). apply Z.pow_nonneg. lia. }
  assert (0 < a) by (apply power_of_two_inv in Ha as (k & ? & ->); apply Z.pow_pos_nonneg; lia).
  apply Z.mod_divide in Hm as [q Hq]; [|lia]. rewrite Hq in *. assert (0 < q) by nia. assert (q < 2) by nia. nia.
Qed.

Lemma zlen_padded s ps :
  is_power_of_two ps = true -> ps <= 2 ^ 32 -> zlen s < 2 ^ 32 ->
  zlen s <= zlen (padded_section s ps) /\
  (0 < zlen s -> zlen (padded_section s ps) = align_up (zlen s) ps) /\
  exists t, padded_section s ps = s ++ t.
Proof.
  intros Hp Hl Hs. pose proof (zlen_nonneg s). unfold padded_section. zcase.
  - rewrite (zlen_0_nil s) by done. split; [done|]. split; [done|]. by exists [].
  - destruct (align_up_spec (zlen s) ps) as [[Ha _] _]; [done..|lia|].
    rewrite zlen_resize by lia. split; [done|]. split; [done|]. rewrite resize_grow by done. eauto.
Qed.

Lemma read_section_ok pre s post sec ps :
  is_power_of_two ps = true -> ps <= 2 ^ 32 -> zlen s < 2 ^ 32 ->
  read_section (pre ++ padded_section s ps ++ post) sec (zlen s) (zlen pre) ps
  = Ok (s, zlen pre + zlen (padded_section s ps)).
Proof.
  intros Hp Hl Hs. destruct (zlen_padded s ps Hp Hl Hs) as (Hle & Hlen & t & Ht).
  unfold read_section. pose proof (zlen_nonneg pre). pose proof (zlen_nonneg post). pose proof (zlen_nonneg s).
  destruct (Z.ltb_spec 0 (zlen s)) as [Hpos|].
  - rewrite <- Hlen by done. rewrite !zlen_app. zcase; [lia|].
    rewrite get_slice_ok by (rewrite ?zlen_app; lia). cbn [res_bind]. do 2 f_equal.
    rewrite Ht, <- app_assoc. rewrite slice_app_r by lia.
    replace (zlen pre - zlen pre) with 0 by lia. rewrite slice_app_l by lia. apply slice_full. lia.
  - rewrite (zlen_0_nil s) by lia. change (padded_section [] ps) with (@nil byte). by rewrite zlen_nil, Z.add_0_r.
Qed.

Lemma image_page_size_ok page_size v :
  u32 page_size -> is_power_of_two (image_page_size page_size v) = true /\
    1 <= image_page_size page_size v <= 2 ^ 31 /\ image_page_size page_size v <> 0.
Proof.
  intros Hp. unfold image_page_size. destruct (_ || _); [|split; [done|lia]].
  destruct (is_power_of_two page_size) eqn:E; cbn [negb orb]; [|split; [done|unfold DEFAULT_PAGE_SIZE; lia]].
  pose proof (power_of_two_u32 _ E (proj2 Hp)). zcase; [lia|]. split; [done|lia].
Qed.

Lemma built_old k r s d ps v :
  0 <= v <= 2 -> u32 k -> u32 r -> u32 s -> u32 d -> u32 ps -> k <> 3 -> k <> 4 ->
  old_header_ok (built_header k r s d ps v).
Proof.
  intros Hv Hk Hr Hs Hd Hps H3 H4. unfold built_header.
  assert ((v =? 0) || (v =? 1) || (v =? 2) = true) as -> by (repeat zcase; lia || done).
  unfold old_header_ok. cbn [header_version kernel_size kernel_addr ramdisk_size ramdisk_addr os_version second_size second_addr tags_addr page_size name cmdline id extra_cmdline recovery_dtbo_size recovery_dtbo_offset boot_header_size dtb_size dtb_addr BootImageHeader.new_v0].
  rewrite !wrap_small by done. unfold DEFAULT_KERNEL_ADDR, DEFAULT_RAMDISK_ADDR, DEFAULT_SECOND_ADDR, DEFAULT_TAGS_ADDR.
  assert (forall n, 0 <= n -> field_string [] n) as Hf by (intros; repeat split; [done|apply not_elem_of_nil]).
  repeat match goal with |- _ /\ _ => split end; try done; try (unfold u32, uint; lia); try (apply Hf; lia).
  - destruct (Z.leb_spec 1 v); [|done]. split; [unfold u32, uint; lia|]. split; [unfold u64, uint; lia|].
    assert (v = 1 \/ v = 2) as [-> | ->] by lia; by vm_compute.
  - destruct (Z.leb_spec 2 v); [|done]. split; [done|unfold u64, uint; lia].
Qed.

(** A header that is decoded whatever follows, with its padded length, and four sections. *)
Lemma parse_sections h (hdr : bytes) k r s d tail ps :
  let v := header_version h in
  let old := (v =? 0) || (v =? 1) || (v =? 2) in
  let data := hdr ++ padded_section k ps ++ padded_section r ps
                  ++ (if v <=? 2 then padded_section s ps else []) ++ (if v =? 2 then padded_section d ps else tail) in
  BootImageHeader.decode data = Ok h -> 0 <= v <= 4 -> 8 <= zlen hdr ->
  is_power_of_two ps = true -> ps <= 2 ^ 32 -> ps = (if old then page_size h else 4096) ->
  zlen hdr = (if old then align_up (BootImageVersion.header_size_or_0 v) ps else BOOT_IMAGE_HEADER_V3_SIZE) ->
  kernel_size h = zlen k -> ramdisk_size h = zlen r ->
  (if v <=? 2 then second_size h = zlen s else True) -> (if v =? 2 then dtb_size h = zlen d else dtb_size h = 0) ->
  zlen k < 2 ^ 32 -> zlen r < 2 ^ 32 -> zlen s < 2 ^ 32 -> zlen d < 2 ^ 32 -> recovery_dtbo_size h = 0 ->
  parse_boot_image data
  = Ok {| header := h; kernel := k; ramdisk := r; second := if v <=? 2 then s else [];
          recovery_dtbo := []; dtb := if v =? 2 then d else [] |}.
Proof.
  intros v old data Hdec Hv H8 Hp Hpl Hps Hlen Hk Hr Hs Hd Lk Lr Ls Ld Hrd.
  unfold parse_boot_image. rewrite Hdec. cbn [res_bind]. fold v old.
  assert (zlen hdr <= zlen data) as Hle.
  { unfold data. rewrite zlen_app. pose proof (zlen_nonneg (padded_section k ps ++ padded_section r ps
      ++ (if v <=? 2 then padded_section s ps else []) ++ (if v =? 2 then padded_section d ps else tail))). lia. }
  zcase; [lia|]. rewrite <- Hps, Hp.
  assert (ps <> 0) as Hp0 by (intros ->; by vm_compute in Hp). rewrite (proj2 (Z.eqb_neq _ _) Hp0). cbn [orb negb].
  match goal with |- res_bind ?m _ = _ => assert (m = Ok (zlen hdr)) as -> end.
  { rewrite Hlen. destruct old eqn:Eo; [|done]. unfold BootImageVersion.header_size_or_0.
    unfold old in Eo. rewrite !orb_true_iff, !Z.eqb_eq in Eo. destruct Eo as [[-> | ->] | ->]; done. }
  cbn [res_bind]. zcase; [lia|]. rewrite Hk. unfold data.
  rewrite read_section_ok by done. cbn [res_bind fst snd]. rewrite Hr.
  rewrite app_assoc, <- zlen_app, read_section_ok by done. cbn [res_bind fst snd].
  rewrite app_assoc, <- zlen_app.
  set (pre := (hdr ++ padded_section k ps) ++ padded_section r ps).
  set (ds := if v =? 2 then padded_section d ps else tail).
  assert (read_section (pre ++ (if v <=? 2 then padded_section s ps else []) ++ ds) (B "second")
            (if v <=? 2 then second_size h else 0) (zlen pre) ps
          = Ok (if v <=? 2 then s else [], zlen (pre ++ (if v <=? 2 then padded_section s ps else [])))) as ->.
  { destruct (v <=? 2); [rewrite Hs, zlen_app; by apply read_section_ok|by rewrite app_nil_r]. }
  cbn [res_bind fst snd]. unfold read_recovery_dtbo. rewrite Hrd, andb_false_r. cbn [res_bind].
  rewrite app_assoc. set (pre2 := pre ++ _). unfold ds.
  destruct (Z.eqb_spec v 2) as [E|Hne].
  - assert ((2 <=? v) = true) as -> by lia. rewrite Hd. rewrite <- (app_nil_r (padded_section d ps)). by rewrite read_section_ok.
  - assert ((if 2 <=? v then dtb_size h else 0) = 0) as -> by (by destruct (2 <=? v)). done.
Qed.
End ImageFacts.

Section OsVersionFacts.
Import OsVersion.

Lemma bit_high w a m : 0 <= w -> uint w a -> w <= m -> Z.testbit a m = false.
Proof. intros Hw Ha Hm. rewrite <- (Z.mod_small a (2 ^ w)) by done. by apply Z.mod_pow2_bits_high. Qed.

Lemma shl_fits w x n : 0 <= w -> 0 <= n -> w + n <= 32 -> uint w x -> wrap 32 (Z.shiftl x n) = Z.shiftl x n.
Proof.
  intros Hw Hn Hs [Hx0 Hx]. apply wrap_small. rewrite Z.shiftl_mul_pow2 by done.
  assert (2 ^ (w + n) <= 2 ^ 32) as Hp by (apply Z.pow_le_mono_r; lia). rewrite Z.pow_add_r in Hp by lia.
  pose proof (Z.pow_pos_nonneg 2 n ltac:(lia) Hn). unfold uint. nia.
Qed.

(** Bit [m] of a field of width [w] cut out at offset [n]. *)
Lemma field_bits raw n w m :
  0 <= n -> 0 <= w -> 0 <= m ->
  Z.testbit (Z.land (Z.shiftr raw n) (Z.ones w)) m = (m <? w) && Z.testbit raw (m + n).
Proof.
  intros Hn Hw Hm. rewrite Z.land_spec, Z.shiftr_spec by done. rewrite andb_comm. f_equal.
  rewrite Z.testbit_ones_nonneg by done. done.
Qed.

(** Values that fit the bit fields (8 bits for the major version and the year, 4 bits for the minor
    version, the patch, the month and the day) are unpacked from their packed form. *)
Lemma decode_encode v : fits v -> decode (encode v) = v.
Proof.
  destruct v as [ma mi pa ye mo da]. intros (Hma & Hmi & Hpa & Hye & Hmo & Hda). cbn in *.
  unfold decode, encode. cbn [major minor patch year_since_2000 month day].
  rewrite (shl_fits 8 ma), (shl_fits 4 mi), (shl_fits 4 pa), (shl_fits 4 mo), (shl_fits 4 da) by (done || lia).
  set (raw := Z.lor _ _).
  assert (forall m, 0 <= m -> Z.testbit raw m =
    (Z.testbit ma (m - 16) || Z.testbit mi (m - 24) || Z.testbit pa (m - 28) || Z.testbit ye m
     || Z.testbit mo (m - 8) || Z.testbit da (m - 12))) as Hraw.
  { intros m Hm. unfold raw. rewrite !Z.lor_spec, !Z.shiftl_spec by done. done. }
  assert (forall w n x, 0 <= n -> 0 <= w -> uint w x ->
    (forall m, 0 <= m < w -> Z.testbit raw (m + n) = Z.testbit x m) ->
    Z.land (Z.shiftr raw n) (Z.ones w) = x) as Hfield.
  { intros w n x Hn Hw Hx Hb. apply Z.bits_inj'. intros m Hm. rewrite field_bits by done.
    destruct (Z.ltb_spec m w); [by rewrite Hb by lia|]. by rewrite (bit_high w x m) by (done || lia). }
  assert (forall x m, m < 0 -> Z.testbit x m = false) as Hneg by (intros; by apply Z.testbit_neg_r).
  f_equal.
  - apply (Hfield 8 16 ma); [lia..|done|]. intros m Hm. rewrite Hraw by lia.
    replace (m + 16 - 16) with m by lia. rewrite !(Hneg mi), !(Hneg pa) by lia.
    by rewrite (bit_high 8 ye), (bit_high 4 mo), (bit_high 4 da), !orb_false_r by (done || lia).
  - apply (Hfield 4 24 mi); [lia..|done|]. intros m Hm. rewrite Hraw by lia.
    replace (m + 24 - 24) with m by lia. rewrite !(Hneg pa) by lia.
    by rewrite (bit_high 8 ma), (bit_high 8 ye), (bit_high 4 mo), (bit_high 4 da), !orb_false_r by (done || lia).
  - apply (Hfield 4 28 pa); [lia..|done|]. intros m Hm. rewrite Hraw by lia.
    replace (m + 28 - 28) with m by lia.
    by rewrite (bit_high 8 ma), (bit_high 4 mi), (bit_high 8 ye), (bit_high 4 mo), (bit_high 4 da), !orb_false_r by (done || lia).
  - rewrite <- (Z.shiftr_0_r raw). apply (Hfield 8 0 ye); [lia..|done|]. intros m Hm. rewrite Hraw, Z.add_0_r by lia.
    by rewrite !(Hneg ma), !(Hneg mi), !(Hneg pa), !(Hneg mo), !(Hneg da), !orb_false_r by lia.
  - apply (Hfield 4 8 mo); [lia..|done|]. intros m Hm. rewrite Hraw by lia.
    replace (m + 8 - 8) with m by lia.
    by rewrite !(Hneg ma), !(Hneg mi), !(Hneg pa), !(Hneg da), (bit_high 8 ye), !orb_false_r by (done || lia).
  - apply (Hfield 4 12 da); [lia..|done|]. intros m Hm. rewrite Hraw by lia.
    replace (m + 12 - 12) with m by lia.
    by rewrite !(Hneg ma), !(Hneg mi), !(Hneg pa), (bit_high 8 ye), (bit_high 4 mo) by (done || lia).
Qed.
End OsVersionFacts.

Section ImageProperties.

Lemma built_header_version k r s d ps v : header_version (built_header k r s d ps v) = v.
Proof. done. Qed.

(** The page-padded header of a built image is decoded whatever follows it. *)
Lemma built_header_decodes k r s d ps v rest :
  0 <= v <= 4 -> u32 k -> u32 r -> u32 s -> u32 d -> is_power_of_two ps = true -> ps <= 2 ^ 31 ->
  (v <= 2 -> k <> 3 /\ k <> 4) -> (3 <= v -> ps = 4096) ->
  let h := built_header k r s d ps v in
  let page := resize (align_up (zlen (BootImageHeader.encode h)) ps) x00 (BootImageHeader.encode h) in
  BootImageHeader.decode (page ++ rest) = Ok (if v <=? 2 then h else new_canon h) /\
  zlen page = (if v <=? 2 then align_up (BootImageVersion.header_size_or_0 v) ps else BOOT_IMAGE_HEADER_V3_SIZE).
Proof.
  intros Hv Hk Hr Hs Hd Hp Hpl Hk34 Hps h page.
  assert (zlen (BootImageHeader.encode h) = BootImageVersion.header_size_or_0 v /\
          (forall t, BootImageHeader.decode (BootImageHeader.encode h ++ t) = Ok (if v <=? 2 then h else new_canon h)))
    as [Hz Hdec].
  { destruct (Z.leb_spec v 2) as [Hold|Hnew].
    - pose proof (power_of_two_u32 ps Hp ltac:(lia)) as Hpr.
      assert (old_header_ok h) as Hok by (apply built_old; try done; try (apply Hk34; lia); [lia|unfold u32, uint; lia]).
      split; [|intros; by apply decode_encode_old].
      pose proof Hok as (_ & _ & _ & _ & _ & _ & _ & _ & _ & _ & _ & _ & _ & _ & Hi & _).
      rewrite (encode_old h Hi) by (change (header_version h) with v; lia). change (header_version h) with v. pose proof (zlen_old_base h Hi) as Hb.
      assert (v = 0 \/ v = 1 \/ v = 2) as [E|[E|E]] by lia; rewrite E;
        cbn [Z.leb Z.compare Pos.compare Pos.compare_cont]; unfold v1_fields, v2_fields; autorewrite with zlen_db; rewrite Hb; by vm_compute.
    - assert (new_header_typed h) as Ht.
      { split; [change (header_version h) with v; lia|]. split; [apply uint_wrap; lia|]. split; [apply uint_wrap; lia|].
        unfold h, built_header. cbn [os_version]. destruct (_ || _); unfold u32, uint; cbn; lia. }
      split; [|intros; by apply decode_encode_new].
      destruct (encode_new h) as (t & -> & Htl); [change (header_version h) with v; lia|].
      autorewrite with zlen_db. rewrite zlen_magic, Htl.
      assert (v = 3 \/ v = 4) as [-> | ->] by lia; done. }
  assert (1632 <= BootImageVersion.header_size_or_0 v <= 4096) as Hrng.
  { assert (v = 0 \/ v = 1 \/ v = 2 \/ v = 3 \/ v = 4) as [E|[E|[E|[E|E]]]] by lia; rewrite E; by vm_compute. }
  destruct (align_up_spec (zlen (BootImageHeader.encode h)) ps) as [[Ha _] _]; [lia|done|lia|].
  split.
  - unfold page. rewrite resize_grow by done. rewrite <- app_assoc. apply Hdec.
  - unfold page. rewrite zlen_resize by lia. rewrite Hz. zcase; [done|]. rewrite Hps by lia.
    assert (v = 3 \/ v = 4) as [-> | ->] by lia; by vm_compute.
Qed.

Lemma build_parse k r s d page_size v :
  0 <= v <= 4 -> zlen k < 2 ^ 32 -> zlen r < 2 ^ 32 -> zlen s < 2 ^ 32 -> zlen d < 2 ^ 32 -> u32 page_size ->
  (v <= 2 -> zlen k <> 3 /\ zlen k <> 4) ->
  let h := built_header (zlen k) (zlen r) (zlen s) (zlen d) (image_page_size page_size v) v in
  parse_boot_image (build_boot_image k r s d page_size v)
  = Ok {| header := if v <=? 2 then h else new_canon h; kernel := k; ramdisk := r;
          second := if v <=? 2 then s else []; recovery_dtbo := []; dtb := if v =? 2 then d else [] |}.
Proof.
  intros Hv Lk Lr Ls Ld Hps Hk34. set (ps := image_page_size page_size v). intros h.
  destruct (image_page_size_ok page_size v Hps) as (Hp & Hpl & _). fold ps in Hp, Hpl.
  pose proof (zlen_nonneg k). pose proof (zlen_nonneg r). pose proof (zlen_nonneg s). pose proof (zlen_nonneg d).
  set (page := resize (align_up (zlen (BootImageHeader.encode h)) ps) x00 (BootImageHeader.encode h)).
  set (tail := if 3 <=? v then padded_section d ps else []).
  assert (build_boot_image k r s d page_size v
    = page ++ padded_section k ps ++ padded_section r ps
      ++ (if v <=? 2 then padded_section s ps else []) ++ (if v =? 2 then padded_section d ps else tail)) as ->.
  { unfold build_boot_image. fold ps h page. unfold tail.
    destruct (Z.leb_spec v 2), (Z.leb_spec 2 v), (Z.eqb_spec v 2), (Z.leb_spec 3 v); try lia;
      rewrite <- ?app_assoc, ?app_nil_r; done. }
  set (rest := padded_section k ps ++ _).
  destruct (built_header_decodes (zlen k) (zlen r) (zlen s) (zlen d) ps v rest) as [Hdec Hpz]; try done;
    try (unfold u32, uint; lia); try lia.
  { unfold ps, image_page_size. intros. assert ((v =? 0) || (v =? 1) || (v =? 2) = false) as -> by (repeat zcase; lia || done). done. }
  fold h in Hdec, Hpz. fold page in Hdec, Hpz.
  set (hp := if v <=? 2 then h else new_canon h) in *.
  assert (header_version hp = v) as Hhv by (unfold hp; by destruct (v <=? 2)).
  assert ((v =? 0) || (v =? 1) || (v =? 2) = (v <=? 2)) as Hold by (repeat zcase; lia || done).
  pose proof (parse_sections hp page k r s d tail ps) as HP. cbv zeta in HP. rewrite Hhv, Hold in HP.
  apply HP; clear HP; try done; try lia.
  - rewrite Hpz. destruct (v <=? 2); [|by vm_compute].
    assert (1632 <= BootImageVersion.header_size_or_0 v <= 4096) as Hrng.
    { assert (v = 0 \/ v = 1 \/ v = 2 \/ v = 3 \/ v = 4) as [E|[E|[E|[E|E]]]] by lia; rewrite E; by vm_compute. }
    destruct (align_up_spec (BootImageVersion.header_size_or_0 v) ps) as [[Ha _] _]; [lia|done|lia|]. lia.
  - unfold hp. destruct (v <=? 2) eqn:E; [done|]. unfold ps, image_page_size. by rewrite Hold.
  - unfold hp. destruct (v <=? 2); cbn; rewrite wrap_small; done.
  - unfold hp. destruct (v <=? 2); cbn; rewrite wrap_small; done.
  - unfold hp. destruct (Z.leb_spec v 2); [|done]. cbn. by rewrite wrap_small.
  - unfold hp. destruct (Z.eqb_spec v 2) as [-> |Hne]; [cbn; by rewrite wrap_small|].
    destruct (Z.leb_spec v 2); [|done]. unfold h, built_header. cbn [dtb_size]. rewrite (proj2 (Z.leb_gt 2 v)) by lia.
    by destruct ((v =? 0) || (v =? 1) || (v =? 2)).
  - unfold hp. destruct (Z.leb_spec v 2); [|done]. unfold h, built_header. cbn [recovery_dtbo_size].
    destruct (1 <=? v); [done|]. by destruct ((v =? 0) || (v =? 1) || (v =? 2)).
Qed.
End ImageProperties.

Section PanicFacts.
Import BootImageHeader.

(** The ranges the image parser relies on. *)
Definition sizes_ok (h : BootImageHeader) : Prop :=
  u32 (kernel_size h) /\ u32 (ramdisk_size h) /\ u32 (second_size h) /\ u32 (dtb_size h) /\
  u32 (recovery_dtbo_size h) /\ 0 <= recovery_dtbo_offset h /\ u32 (page_size h) /\ 0 <= header_version h.

Lemma decode_old_cases data v :
  0 <= v <= 2 ->
  decode_v0_v1_v2 data v <> Panic /\ forall h, decode_v0_v1_v2 data v = Ok h -> sizes_ok h.
Proof.
  intros Hv. unfold decode_v0_v1_v2.
  assert (exists ver, BootImageVersion.from_u32 v = Ok ver /\ 1632 <= BootImageVersion.header_size ver /\
    (1 <= v -> 1648 <= BootImageVersion.header_size ver) /\ (2 <= v -> 1664 <= BootImageVersion.header_size ver))
    as (ver & -> & Hs0 & Hs1 & Hs2).
  { assert (v = 0 \/ v = 1 \/ v = 2) as [-> | [-> | ->]] by lia; eexists; (split; [done|]);
      cbn; unfold BOOT_IMAGE_HEADER_V0_SIZE, BOOT_IMAGE_HEADER_V1_SIZE, BOOT_IMAGE_HEADER_V2_SIZE; lia. }
  cbn [res_bind]. zcase; [done|]. wire_unfold. wire_read.
  destruct (read_fixed_no_panic (E := BootImageError) data 48 BOOT_NAME_SIZE) as [n ->]; [unfold BOOT_NAME_SIZE; lia..|].
  destruct (read_fixed_no_panic (E := BootImageError) data 64 BOOT_ARGS_SIZE) as [c ->]; [unfold BOOT_ARGS_SIZE; lia..|].
  cbn [res_bind]. rewrite get_slice_ok by (unfold BOOT_ID_SIZE; lia). cbn [res_bind].
  destruct (read_fixed_no_panic (E := BootImageError) data 608 BOOT_EXTRA_ARGS_SIZE) as [x ->]; [unfold BOOT_EXTRA_ARGS_SIZE; lia..|].
  cbn [res_bind].
  match goal with |- context [res_bind ?m _] => assert (exists a b c, m = Ok (a, b, c) /\ u32 a /\ 0 <= b) as (a & b & c' & -> & Ha & Hb) end.
  { destruct (Z.leb_spec 1 v) as [H1|]; [|exists 0, 0, 0; split; [done|]; unfold u32, uint; lia].
    specialize (Hs1 H1). wire_read. do 3 eexists. split; [done|]. split; [apply (le_val_uint 4); cbn; lia|apply le_val_range]. }
  cbn [res_bind].
  match goal with |- context [res_bind ?m _] => assert (exists a b, m = Ok (a, b) /\ u32 a) as (d & e & -> & Hd) end.
  { destruct (Z.leb_spec 2 v) as [H2|]; [|exists 0, 0; split; [done|]; unfold u32, uint; lia].
    specialize (Hs2 H2). wire_read. do 2 eexists. split; [done|]. apply (le_val_uint 4); cbn; lia. }
  cbn [res_bind fst snd]. split; [done|]. intros h [= <-]. unfold sizes_ok. cbn [kernel_size ramdisk_size second_size dtb_size recovery_dtbo_size recovery_dtbo_offset page_size header_version].
  split; [apply (le_val_uint 4); cbn; lia|]. split; [apply (le_val_uint 4); cbn; lia|].
  split; [apply (le_val_uint 4); cbn; lia|]. split; [done|]. split; [done|]. split; [done|].
  split; [apply (le_val_uint 4); cbn; lia|apply le_val_range].
Qed.

Lemma decode_new_cases data v :
  0 <= v -> decode_v3_v4 data v <> Panic /\ forall h, decode_v3_v4 data v = Ok h -> sizes_ok h.
Proof.
  intros Hv. unfold decode_v3_v4, BOOT_IMAGE_HEADER_V3_SIZE. zcase; [done|]. wire_unfold. wire_read.
  split; [done|]. intros h [= <-]. unfold sizes_ok. cbn [kernel_size ramdisk_size second_size dtb_size recovery_dtbo_size recovery_dtbo_offset page_size header_version].
  split; [apply (le_val_uint 4); cbn; lia|]. split; [apply (le_val_uint 4); cbn; lia|].
  unfold u32, uint. repeat split; lia.
Qed.

(** The inputs on which the header decoder indexes past the end. *)
Definition short_old_header (data : bytes) : Prop :=
  12 <= zlen data < 44 /\ slice 0 8 data = BOOT_MAGIC /\
  le_val (slice 8 12 data) <> 3 /\ le_val (slice 8 12 data) <> 4.

Lemma decode_cases data :
  (decode data = Panic <-> short_old_header data) /\ forall h, decode data = Ok h -> sizes_ok h.
Proof.
  unfold short_old_header. destruct (Z.ltb_spec (zlen data) 8) as [H8|H8].
  { unfold decode. rewrite (proj2 (Z.ltb_lt _ _)) by done. split; [split; [done|lia]|done]. }
  destruct (decide (slice 0 8 data = BOOT_MAGIC)) as [Hm|Hm]; cycle 1.
  { unfold decode. rewrite (proj2 (Z.ltb_ge _ _)), get_slice_ok by lia. cbn [res_bind].
    rewrite bool_decide_false by done. cbn [negb]. split; [split; [done|tauto]|done]. }
  pose proof (slice_cut 0 8 (zlen data) data ltac:(lia) ltac:(lia) ltac:(lia)) as Hc.
  rewrite slice_full, Hm in Hc by lia. set (t := slice 8 (zlen data) data) in *.
  assert (zlen t = zlen data - 8) as Ht by (unfold t; rewrite zlen_slice; lia).
  destruct (Z.ltb_spec (zlen data) 12) as [H12|H12].
  { unfold decode. rewrite (proj2 (Z.ltb_ge _ 8)), get_slice_ok by lia. cbn [res_bind].
    rewrite bool_decide_true by done. cbn [negb]. rewrite (proj2 (Z.ltb_lt _ 12)) by lia. split; [split; [done|lia]|done]. }
  assert (slice 8 12 data = slice 0 4 t) as -> by (unfold t; rewrite slice_slice by lia; done).
  pose proof (decode_magic t) as Hd. rewrite <- Hc in Hd. rewrite Hd by lia. cbv zeta.
  pose proof (le_val_range (slice 0 4 t)). set (v8 := le_val (slice 0 4 t)) in *.
  destruct ((v8 =? 3) || (v8 =? 4)) eqn:E.
  - destruct (decode_new_cases data v8) as [Hp Hs]; [lia|]. split; [|done]. split; [done|].
    rewrite orb_true_iff, !Z.eqb_eq in E. lia.
  - rewrite orb_false_iff, !Z.eqb_neq in E. destruct (Z.ltb_spec (zlen t) 36) as [H36|H36].
    { split; [|done]. split; [intros _; split; [lia|done]|done]. }
    pose proof (le_val_range (slice 32 36 t)). destruct (Z.leb_spec (le_val (slice 32 36 t)) 2).
    + destruct (decode_old_cases data (le_val (slice 32 36 t))) as [Hp Hs]; [lia|]. split; [|done]. split; [done|lia].
    + split; [split; [done|lia]|done].
Qed.

Lemma read_section_cases data sec size offset ps :
  is_power_of_two ps = true -> ps <= 2 ^ 32 -> u32 size -> 0 <= offset ->
  match read_section data sec size offset ps with
  | Ok (_, o) => offset <= o | Err _ => True | Panic => False end.
Proof.
  intros Hp Hl Hs Ho. unfold read_section. destruct (Z.ltb_spec 0 size); [|lia].
  destruct (align_up_spec size ps) as [[Ha _] _]; [lia|done|unfold u32, uint in *; lia|].
  zcase; [done|]. rewrite get_slice_ok by lia. cbn [res_bind]. lia.
Qed.

Lemma parse_panics data : parse_boot_image data = Panic <-> short_old_header data.
Proof.
  destruct (decode_cases data) as [Hp Hs]. unfold parse_boot_image.
  destruct (Z.ltb_spec (zlen data) 8) as [H8|H8]; [unfold short_old_header; split; [done|lia]|].
  destruct (decode data) as [h| |] eqn:Hd; cbn [res_bind]; [|by rewrite <- Hp..].
  rewrite <- Hp. split; [|done]. specialize (Hs h eq_refl) as (Hk & Hr & Hse & Hdt & Hrd & Hro & Hps & Hv).
  set (old := (header_version h =? 0) || (header_version h =? 1) || (header_version h =? 2)).
  set (ps := if old then page_size h else 4096).
  destruct ((ps =? 0) || negb (is_power_of_two ps)) eqn:Eps; [done|].
  apply orb_false_iff in Eps as [_ Epw%negb_false_iff].
  assert (ps <= 2 ^ 32) as Hpl by (unfold ps; destruct old; unfold u32, uint in *; lia).
  match goal with |- res_bind ?m _ = _ -> _ => assert (exists n, m = Ok n /\ 0 <= n) as (n & -> & Hn) end.
  { destruct old eqn:Eo; [|by exists 4096]. unfold old in Eo. rewrite !orb_true_iff, !Z.eqb_eq in Eo.
    destruct Eo as [[-> | ->] | ->]; eexists; (split; [done|]);
      (match goal with |- 0 <= align_up ?a _ => destruct (align_up_spec a ps) as [[Ha _] _] end;
       [by vm_compute|done| |]; cbn in *;
       unfold BOOT_IMAGE_HEADER_V0_SIZE, BOOT_IMAGE_HEADER_V1_SIZE, BOOT_IMAGE_HEADER_V2_SIZE in *; lia). }
  cbn [res_bind]. zcase; [done|].
  pose proof (read_section_cases data (B "kernel") (kernel_size h) n ps Epw Hpl Hk Hn) as H1.
  destruct (read_section data (B "kernel") _ _ _) as [[k o1]| |]; cbn [res_bind fst snd]; [|done..].
  pose proof (read_section_cases data (B "ramdisk") (ramdisk_size h) o1 ps Epw Hpl Hr ltac:(lia)) as H2.
  destruct (read_section data (B "ramdisk") _ _ _) as [[r o2]| |]; cbn [res_bind fst snd]; [|done..].
  assert (u32 (if header_version h <=? 2 then second_size h else 0)) as Hse' by (destruct (_ <=? 2); [done|unfold u32, uint; lia]).
  pose proof (read_section_cases data (B "second") _ o2 ps Epw Hpl Hse' ltac:(lia)) as H3.
  destruct (read_section data (B "second") _ _ _) as [[s o3]| |]; cbn [res_bind fst snd]; [|done..].
  assert (read_recovery_dtbo data h o3 ps <> Panic) as H4.
  { unfold read_recovery_dtbo. destruct (_ && _); [|done]. zcase; [done|].
    zcase; [done|]. zcase; [done|].
    destruct (align_up_spec (recovery_dtbo_size h) ps) as [[Ha _] _]; [unfold u32, uint in *; lia|done|unfold u32, uint in *; lia|].
    rewrite get_slice_ok; [done|unfold u32, uint in *; lia..]. }
  destruct (read_recovery_dtbo data h o3 ps) as [rd| |]; cbn [res_bind]; [|done..].
  assert (u32 (if 2 <=? header_version h then dtb_size h else 0)) as Hdt' by (destruct (2 <=? _); [done|unfold u32, uint; lia]).
  pose proof (read_section_cases data (B "dtb") _ o3 ps Epw Hpl Hdt' ltac:(lia)) as H5.
  by destruct (read_section data (B "dtb") _ _ _) as [[d o4]| |].
Qed.
End PanicFacts.

(** ** Properties *)

(** The boot header round trip, for every version. A header whose fields are in range, whose
    strings fit their fields and which uses only what its version has (and, for versions 0 to 2,
    whose kernel size is not 3 or 4) is decoded back from its encoding, whatever follows. *)
Theorem boot_header_roundtrip h rest :
  header_ok h -> BootImageHeader.decode (BootImageHeader.encode h ++ rest) = Ok h.
Proof.
  intros [Hold|[Ht Hc]]; [by apply decode_encode_old|]. rewrite decode_encode_new by done. by rewrite <- Hc.
Qed.

Definition sample_header : BootImageHeader :=
  {| header_version := 2; kernel_size := 9000000; kernel_addr := 0x8000; ramdisk_size := 4096;
     ramdisk_addr := 0x1000000; os_version := 0x1A; second_size := 0; second_addr := 0xF00000;
     tags_addr := 0x100; page_size := 4096; name := B "product"; cmdline := B "console=ttyS0";
     id := zrep 32 x07; extra_cmdline := []; recovery_dtbo_size := 5; recovery_dtbo_offset := 2 ^ 33;
     boot_header_size := 1664; dtb_size := 77; dtb_addr := 0x1F00000 |}.

Lemma sample_header_ok : header_ok sample_header.
Proof.
  left. unfold old_header_ok, field_string, u32, u64, uint. cbn -[is_utf8 zlen].
  repeat match goal with |- _ /\ _ => split end; try lia; try (by vm_compute); try (by apply contains_false).
Qed.

Lemma boot_header_roundtrip_witness :
  BootImageHeader.decode (BootImageHeader.encode sample_header ++ B "tail") = Ok sample_header.
Proof. apply boot_header_roundtrip. exact sample_header_ok. Defined.

(** C28: building and parsing whole images. For versions 0 to 4, any page size argument and
    sections below 4 GiB (and, for versions 0 to 2, a kernel that is not 3 or 4 bytes long), the
    parser returns the kernel and the ramdisk of the built image; the second stage exactly for
    versions 0 to 2; the device tree blob exactly for version 2: in versions 3 and 4 the builder
    appends the blob but their header does not record it, and it is lost. *)
Theorem boot_image_roundtrip k r s d ps v :
  0 <= v <= 4 -> zlen k < 2 ^ 32 -> zlen r < 2 ^ 32 -> zlen s < 2 ^ 32 -> zlen d < 2 ^ 32 -> u32 ps ->
  (v <= 2 -> zlen k <> 3 /\ zlen k <> 4) ->
  exists h, parse_boot_image (build_boot_image k r s d ps v)
    = Ok {| header := h; kernel := k; ramdisk := r; second := if v <=? 2 then s else [];
            recovery_dtbo := []; dtb := if v =? 2 then d else [] |} /\
    header_version h = v /\ kernel_size h = zlen k /\ ramdisk_size h = zlen r.
Proof.
  intros Hv Lk Lr Ls Ld Hps Hk34. eexists. split; [by apply build_parse|].
  pose proof (zlen_nonneg k). pose proof (zlen_nonneg r).
  destruct (v <=? 2); cbn; rewrite !wrap_small; unfold uint; lia || done.
Qed.

Lemma boot_image_roundtrip_witness :
  exists h, parse_boot_image (build_boot_image (B "kernel") (B "rd") [] (B "dtb") 2048 2)
    = Ok {| header := h; kernel := B "kernel"; ramdisk := B "rd"; second := []; recovery_dtbo := []; dtb := B "dtb" |} /\
    header_version h = 2 /\ kernel_size h = 6 /\ ramdisk_size h = 2.
Proof.
  apply (boot_image_roundtrip (B "kernel") (B "rd") [] (B "dtb") 2048 2);
    [lia|by vm_compute..|unfold u32, uint; lia|intros _; split; by vm_compute].
Defined.

(** Robustness of the image parser. It panics on exactly one family of inputs: 12 to 43 bytes
    that start with the magic and whose word at offset 8 is neither 3 nor 4, where it reads the
    version word at offset 40 without checking the length. Every other input, whatever its
    sizes and offsets, is answered with an image or an error. *)
Theorem boot_parser_panics_iff data :
  parse_boot_image data = Panic <->
  12 <= zlen data < 44 /\ slice 0 8 data = BOOT_MAGIC /\
  le_val (slice 8 12 data) <> 3 /\ le_val (slice 8 12 data) <> 4.
Proof. apply parse_panics. Qed.
