(* ===== verification/VendorBoot.v ===== *)
(** Vendor boot images ([src/crates/fastboot-protocol/src/vendor_boot.rs]): the parser with its
    section layout and ramdisk table, the section accessors, and the builder. *)
From S2P Require Import Prelude Text Wire.

Definition VENDOR_BOOT_MAGIC : bytes := B "VNDRBOOT".
Definition VENDOR_BOOT_PAGE_SIZE : Z := 4096.
Definition VENDOR_BOOT_NAME_SIZE : Z := 16.
Definition VENDOR_BOOT_CMDLINE_SIZE : Z := 2048.
Definition VENDOR_RAMDISK_NAME_SIZE : Z := 32.
Definition VENDOR_RAMDISK_BOARD_ID_SIZE : Z := 16.
Definition VENDOR_RAMDISK_TABLE_ENTRY_SIZE : Z :=
  4 + 4 + 4 + VENDOR_RAMDISK_NAME_SIZE + 4 * VENDOR_RAMDISK_BOARD_ID_SIZE.
Definition VENDOR_BOOT_HEADER_V3_SIZE : Z := 2112.
Definition VENDOR_BOOT_HEADER_V4_SIZE : Z := 2128.

Inductive VendorBootVersion := V3 | V4.

#[export] Instance vendor_boot_version_eq_dec : EqDecision VendorBootVersion.
Proof. solve_decision. Defined.

Inductive VendorBootError :=
| BufferTooShort (expected got : Z)
| InvalidMagic
| UnsupportedVersion (v : Z)
| InvalidPageSize (ps : Z)
| InvalidHeaderSize (actual expected : Z)
| UnsupportedTableEntrySize (n : Z)
| InvalidTableSize (size entries : Z)
| SectionBounds (section : bytes) (offset size image : Z)
| RamdiskEntryOutOfBounds (index offset size ramdisk : Z)
| DuplicateRamdiskName (name : bytes)
| InvalidRamdiskName (index : Z)
| ArithmeticOverflow.

Abbreviation vboot A := (res VendorBootError A).

Record VendorBootHeader := {
  version : VendorBootVersion;
  page_size : Z;
  kernel_addr : Z;
  ramdisk_addr : Z;
  vendor_ramdisk_size : Z;
  cmdline : bytes;
  tags_addr : Z;
  name : bytes;
  header_size : Z;
  dtb_size : Z;
  dtb_addr : Z;
  vendor_ramdisk_table_size : Z;
  vendor_ramdisk_table_entry_num : Z;
  vendor_ramdisk_table_entry_size : Z;
  bootconfig_size : Z;
}.

Record VendorRamdiskTableEntry := {
  ramdisk_size : Z;
  ramdisk_offset : Z;
  ramdisk_type : Z;
  ramdisk_name : bytes;
  board_id : list Z;
}.

Definition new_entry (name : bytes) (ramdisk_size ramdisk_type : Z) : VendorRamdiskTableEntry :=
  {| ramdisk_size := ramdisk_size;
     ramdisk_offset := 0;
     ramdisk_type := ramdisk_type;
     ramdisk_name := from_utf8_lossy name;
     board_id := zrep VENDOR_RAMDISK_BOARD_ID_SIZE 0 |}.

Record VendorBootSectionOffsets := {
  off_header : Z;
  off_ramdisk : Z;
  off_dtb : Z;
  off_table : Z;
  off_bootconfig : Z;
  off_end : Z;
}.

Record VendorBootImage := {
  header : VendorBootHeader;
  data : bytes;
  entries : list VendorRamdiskTableEntry;
  offsets : VendorBootSectionOffsets;
}.

(** [checked_add] of [w]-bit integers, with the error the callers give. *)
Definition add_checked (w a b : Z) : vboot Z :=
  if a + b <? 2 ^ w then Ok (a + b) else Err ArithmeticOverflow.
Definition mul_checked (w a b : Z) : vboot Z :=
  if a * b <? 2 ^ w then Ok (a * b) else Err ArithmeticOverflow.

Definition align_checked (page n : Z) : vboot Z :=
  let! v := add_checked 64 n (page - 1) in Ok (v / page * page).

Definition section_offsets_for (h : VendorBootHeader) : vboot VendorBootSectionOffsets :=
  let page := page_size h in
  let! hd := align_checked page (header_size h) in
  let ramdisk := hd in
  let! a := align_checked page (vendor_ramdisk_size h) in
  let! dtb := add_checked 64 ramdisk a in
  let! a := align_checked page (dtb_size h) in
  let! table := add_checked 64 dtb a in
  let! a := align_checked page (vendor_ramdisk_table_size h) in
  let! bootconfig := add_checked 64 table a in
  let! a := align_checked page (bootconfig_size h) in
  let! end_ := add_checked 64 bootconfig a in
  Ok {| off_header := hd; off_ramdisk := ramdisk; off_dtb := dtb; off_table := table;
        off_bootconfig := bootconfig; off_end := end_ |}.

Definition ensure_section (data : bytes) (section : bytes) (offset size : Z) : vboot unit :=
  let! end_ := add_checked 64 offset size in
  if zlen data <? end_ then Err (SectionBounds section offset size (zlen data)) else Ok tt.

Definition fixed_string (data : bytes) : bytes :=
  let end_ := match position (beqb x00) data with Some i => Z.of_nat i | None => zlen data end in
  from_utf8_lossy (slice 0 end_ data).

(** The words of the board id, the [i]-th at [44 + 4 * i]. *)
Fixpoint read_words (data : bytes) (off : Z) (n : nat) : vboot (list Z) :=
  match n with
  | O => Ok []
  | S n => let! w := read_u32 data off in let! ws := read_words data (off + 4) n in Ok (w :: ws)
  end.

Definition parse_entry (data : bytes) (index : Z) : vboot VendorRamdiskTableEntry :=
  let! name_bytes := get_slice data 12 44 in
  let name_bytes := match position (beqb x00) name_bytes with
                    | Some end_ => slice 0 (Z.of_nat end_) name_bytes
                    | None => name_bytes
                    end in
  let! name := from_utf8 name_bytes (InvalidRamdiskName index) in
  let! board_id := read_words data 44 (Z.to_nat VENDOR_RAMDISK_BOARD_ID_SIZE) in
  let! size := read_u32 data 0 in
  let! offset := read_u32 data 4 in
  let! type := read_u32 data 8 in
  Ok {| ramdisk_size := size; ramdisk_offset := offset; ramdisk_type := type;
        ramdisk_name := name; board_id := board_id |}.

Definition header_len (v : VendorBootVersion) : Z :=
  match v with V3 => VENDOR_BOOT_HEADER_V3_SIZE | V4 => VENDOR_BOOT_HEADER_V4_SIZE end.

(** A field that only version 4 has. *)
Definition v4_field (v : VendorBootVersion) (data : bytes) (off : Z) : vboot Z :=
  if decide (v = V4) then read_u32 data off else Ok 0.

Definition parse_header (data : bytes) : vboot VendorBootHeader :=
  guard! negb (zlen data <? VENDOR_BOOT_HEADER_V3_SIZE)
    else BufferTooShort VENDOR_BOOT_HEADER_V3_SIZE (zlen data) in
  let! magic := get_slice data 0 8 in
  guard! bool_decide (magic = VENDOR_BOOT_MAGIC) else InvalidMagic in
  let! raw_version := read_u32 data 8 in
  let! version := (if raw_version =? 3 then Ok V3 else if raw_version =? 4 then Ok V4
                   else Err (UnsupportedVersion raw_version)) in
  let header_len := header_len version in
  guard! negb (zlen data <? header_len) else BufferTooShort header_len (zlen data) in
  let! page_size := read_u32 data 12 in
  guard! negb (page_size =? 0) else InvalidPageSize page_size in
  let! header_size := read_u32 data 2096 in
  guard! (header_size =? header_len) else InvalidHeaderSize header_size header_len in
  let! kernel_addr := read_u32 data 16 in
  let! ramdisk_addr := read_u32 data 20 in
  let! vendor_ramdisk_size := read_u32 data 24 in
  let! cmdline := get_slice data 28 2076 in
  let! tags_addr := read_u32 data 2076 in
  let! name := get_slice data 2080 2096 in
  let! dtb_size := read_u32 data 2100 in
  let! dtb_addr := read_u64 data 2104 in
  let! table_size := v4_field version data 2112 in
  let! entry_num := v4_field version data 2116 in
  let! entry_size := v4_field version data 2120 in
  let! bootconfig_size := v4_field version data 2124 in
  Ok {| version := version; page_size := page_size; kernel_addr := kernel_addr;
        ramdisk_addr := ramdisk_addr; vendor_ramdisk_size := vendor_ramdisk_size;
        cmdline := fixed_string cmdline; tags_addr := tags_addr; name := fixed_string name;
        header_size := header_size; dtb_size := dtb_size; dtb_addr := dtb_addr;
        vendor_ramdisk_table_size := table_size; vendor_ramdisk_table_entry_num := entry_num;
        vendor_ramdisk_table_entry_size := entry_size; bootconfig_size := bootconfig_size |}.

(** The checks between the header and the table. *)
Definition check_layout (data : bytes) (h : VendorBootHeader) (o : VendorBootSectionOffsets) :
    vboot unit :=
  let! _ := ensure_section data (B "header") 0 (off_ramdisk o) in
  let! _ := ensure_section data (B "vendor ramdisk") (off_ramdisk o) (off_dtb o - off_ramdisk o) in
  let! _ := ensure_section data (B "dtb") (off_dtb o) (off_table o - off_dtb o) in
  if decide (version h = V4) then
    let! _ := ensure_section data (B "vendor ramdisk table") (off_table o)
                (off_bootconfig o - off_table o) in
    let! _ := ensure_section data (B "bootconfig") (off_bootconfig o)
                (off_end o - off_bootconfig o) in
    guard! vendor_ramdisk_table_entry_size h =? VENDOR_RAMDISK_TABLE_ENTRY_SIZE
      else UnsupportedTableEntrySize (vendor_ramdisk_table_entry_size h) in
    let! expected := mul_checked 64 (vendor_ramdisk_table_entry_num h)
                       (vendor_ramdisk_table_entry_size h) in
    guard! expected =? vendor_ramdisk_table_size h
      else InvalidTableSize (vendor_ramdisk_table_size h) expected in
    Ok tt
  else Ok tt.

(** The loop over the table: [n] entries left from [index], [acc] read so far. *)
Fixpoint read_entries (data : bytes) (h : VendorBootHeader) (table : Z) (n : nat) (index : Z)
    (acc : list VendorRamdiskTableEntry) : vboot (list VendorRamdiskTableEntry) :=
  match n with
  | O => Ok acc
  | S n =>
      let start := table + index * VENDOR_RAMDISK_TABLE_ENTRY_SIZE in
      let! raw := get_slice data start (start + VENDOR_RAMDISK_TABLE_ENTRY_SIZE) in
      let! entry := parse_entry raw index in
      let! end_ := add_checked 32 (ramdisk_offset entry) (ramdisk_size entry) in
      guard! negb (vendor_ramdisk_size h <? end_)
        else RamdiskEntryOutOfBounds index (ramdisk_offset entry) (ramdisk_size entry)
               (vendor_ramdisk_size h) in
      guard! negb (existsb (fun old => bool_decide (ramdisk_name old = ramdisk_name entry)) acc)
        else DuplicateRamdiskName (ramdisk_name entry) in
      read_entries data h table n (index + 1) (acc ++ [entry])
  end.

Definition parse (data : bytes) : vboot VendorBootImage :=
  let! h := parse_header data in
  let! o := section_offsets_for h in
  let! _ := check_layout data h o in
  let count := if decide (version h = V4) then vendor_ramdisk_table_entry_num h else 0 in
  let! entries := read_entries data h (off_table o) (Z.to_nat count) 0 [] in
  Ok {| header := h; data := data; entries := entries; offsets := o |}.

Definition ramdisk (i : VendorBootImage) : vboot bytes :=
  get_slice (data i) (off_ramdisk (offsets i))
    (off_ramdisk (offsets i) + vendor_ramdisk_size (header i)).
Definition dtb (i : VendorBootImage) : vboot bytes :=
  get_slice (data i) (off_dtb (offsets i)) (off_dtb (offsets i) + dtb_size (header i)).
Definition bootconfig (i : VendorBootImage) : vboot bytes :=
  get_slice (data i) (off_bootconfig (offsets i))
    (off_bootconfig (offsets i) + bootconfig_size (header i)).

Record VendorBootBuilder := {
  b_version : VendorBootVersion;
  b_page_size : Z;
  b_kernel_addr : Z;
  b_ramdisk_addr : Z;
  b_cmdline : bytes;
  b_tags_addr : Z;
  b_name : bytes;
  b_dtb_addr : Z;
  b_ramdisk : bytes;
  b_dtb : bytes;
  b_bootconfig : bytes;
  b_table_entries : list VendorRamdiskTableEntry;
}.

Definition builder_new (v : VendorBootVersion) : VendorBootBuilder :=
  {| b_version := v; b_page_size := VENDOR_BOOT_PAGE_SIZE; b_kernel_addr := 0;
     b_ramdisk_addr := 0; b_cmdline := []; b_tags_addr := 0; b_name := []; b_dtb_addr := 0;
     b_ramdisk := []; b_dtb := []; b_bootconfig := []; b_table_entries := [] |}.

(** The builder's field setters. *)
Module Builder.
Definition page_size (b : VendorBootBuilder) (page_size : Z) : VendorBootBuilder :=
  {| b_version := b_version b; b_page_size := page_size; b_kernel_addr := b_kernel_addr b;
     b_ramdisk_addr := b_ramdisk_addr b; b_cmdline := b_cmdline b; b_tags_addr := b_tags_addr b;
     b_name := b_name b; b_dtb_addr := b_dtb_addr b; b_ramdisk := b_ramdisk b; b_dtb := b_dtb b;
     b_bootconfig := b_bootconfig b; b_table_entries := b_table_entries b |}.
Definition kernel_addr (b : VendorBootBuilder) (addr : Z) : VendorBootBuilder :=
  {| b_version := b_version b; b_page_size := b_page_size b; b_kernel_addr := addr;
     b_ramdisk_addr := b_ramdisk_addr b; b_cmdline := b_cmdline b; b_tags_addr := b_tags_addr b;
     b_name := b_name b; b_dtb_addr := b_dtb_addr b; b_ramdisk := b_ramdisk b; b_dtb := b_dtb b;
     b_bootconfig := b_bootconfig b; b_table_entries := b_table_entries b |}.
Definition ramdisk_addr (b : VendorBootBuilder) (addr : Z) : VendorBootBuilder :=
  {| b_version := b_version b; b_page_size := b_page_size b; b_kernel_addr := b_kernel_addr b;
     b_ramdisk_addr := addr; b_cmdline := b_cmdline b; b_tags_addr := b_tags_addr b;
     b_name := b_name b; b_dtb_addr := b_dtb_addr b; b_ramdisk := b_ramdisk b; b_dtb := b_dtb b;
     b_bootconfig := b_bootconfig b; b_table_entries := b_table_entries b |}.
Definition cmdline (b : VendorBootBuilder) (cmdline : bytes) : VendorBootBuilder :=
  {| b_version := b_version b; b_page_size := b_page_size b; b_kernel_addr := b_kernel_addr b;
     b_ramdisk_addr := b_ramdisk_addr b; b_cmdline := cmdline; b_tags_addr := b_tags_addr b;
     b_name := b_name b; b_dtb_addr := b_dtb_addr b; b_ramdisk := b_ramdisk b; b_dtb := b_dtb b;
     b_bootconfig := b_bootconfig b; b_table_entries := b_table_entries b |}.
Definition tags_addr (b : VendorBootBuilder) (addr : Z) : VendorBootBuilder :=
  {| b_version := b_version b; b_page_size := b_page_size b; b_kernel_addr := b_kernel_addr b;
     b_ramdisk_addr := b_ramdisk_addr b; b_cmdline := b_cmdline b; b_tags_addr := addr;
     b_name := b_name b; b_dtb_addr := b_dtb_addr b; b_ramdisk := b_ramdisk b; b_dtb := b_dtb b;
     b_bootconfig := b_bootconfig b; b_table_entries := b_table_entries b |}.
Definition name (b : VendorBootBuilder) (name : bytes) : VendorBootBuilder :=
  {| b_version := b_version b; b_page_size := b_page_size b; b_kernel_addr := b_kernel_addr b;
     b_ramdisk_addr := b_ramdisk_addr b; b_cmdline := b_cmdline b; b_tags_addr := b_tags_addr b;
     b_name := name; b_dtb_addr := b_dtb_addr b; b_ramdisk := b_ramdisk b; b_dtb := b_dtb b;
     b_bootconfig := b_bootconfig b; b_table_entries := b_table_entries b |}.
Definition dtb_addr (b : VendorBootBuilder) (addr : Z) : VendorBootBuilder :=
  {| b_version := b_version b; b_page_size := b_page_size b; b_kernel_addr := b_kernel_addr b;
     b_ramdisk_addr := b_ramdisk_addr b; b_cmdline := b_cmdline b; b_tags_addr := b_tags_addr b;
     b_name := b_name b; b_dtb_addr := addr; b_ramdisk := b_ramdisk b; b_dtb := b_dtb b;
     b_bootconfig := b_bootconfig b; b_table_entries := b_table_entries b |}.
Definition ramdisk (b : VendorBootBuilder) (ramdisk : bytes) : VendorBootBuilder :=
  {| b_version := b_version b; b_page_size := b_page_size b; b_kernel_addr := b_kernel_addr b;
     b_ramdisk_addr := b_ramdisk_addr b; b_cmdline := b_cmdline b; b_tags_addr := b_tags_addr b;
     b_name := b_name b; b_dtb_addr := b_dtb_addr b; b_ramdisk := ramdisk; b_dtb := b_dtb b;
     b_bootconfig := b_bootconfig b; b_table_entries := b_table_entries b |}.
Definition dtb (b : VendorBootBuilder) (dtb : bytes) : VendorBootBuilder :=
  {| b_version := b_version b; b_page_size := b_page_size b; b_kernel_addr := b_kernel_addr b;
     b_ramdisk_addr := b_ramdisk_addr b; b_cmdline := b_cmdline b; b_tags_addr := b_tags_addr b;
     b_name := b_name b; b_dtb_addr := b_dtb_addr b; b_ramdisk := b_ramdisk b; b_dtb := dtb;
     b_bootconfig := b_bootconfig b; b_table_entries := b_table_entries b |}.
Definition bootconfig (b : VendorBootBuilder) (bootconfig : bytes) : VendorBootBuilder :=
  {| b_version := b_version b; b_page_size := b_page_size b; b_kernel_addr := b_kernel_addr b;
     b_ramdisk_addr := b_ramdisk_addr b; b_cmdline := b_cmdline b; b_tags_addr := b_tags_addr b;
     b_name := b_name b; b_dtb_addr := b_dtb_addr b; b_ramdisk := b_ramdisk b; b_dtb := b_dtb b;
     b_bootconfig := bootconfig; b_table_entries := b_table_entries b |}.
Definition table_entries (b : VendorBootBuilder) (entries : list VendorRamdiskTableEntry) : VendorBootBuilder :=
  {| b_version := b_version b; b_page_size := b_page_size b; b_kernel_addr := b_kernel_addr b;
     b_ramdisk_addr := b_ramdisk_addr b; b_cmdline := b_cmdline b; b_tags_addr := b_tags_addr b;
     b_name := b_name b; b_dtb_addr := b_dtb_addr b; b_ramdisk := b_ramdisk b; b_dtb := b_dtb b;
     b_bootconfig := b_bootconfig b; b_table_entries := entries |}.
Definition add_table_entry (b : VendorBootBuilder) (entry : VendorRamdiskTableEntry) : VendorBootBuilder :=
  {| b_version := b_version b; b_page_size := b_page_size b; b_kernel_addr := b_kernel_addr b;
     b_ramdisk_addr := b_ramdisk_addr b; b_cmdline := b_cmdline b; b_tags_addr := b_tags_addr b;
     b_name := b_name b; b_dtb_addr := b_dtb_addr b; b_ramdisk := b_ramdisk b; b_dtb := b_dtb b;
     b_bootconfig := b_bootconfig b; b_table_entries := b_table_entries b ++ [entry] |}.
End Builder.

(** [let align = |n| (n + page - 1) / page * page]. *)
Definition align (page n : Z) : Z := wrap 64 (n + page - 1) / page * page.

(** [word.to_le_bytes()] at successive offsets. *)
Fixpoint write_words (off : Z) (ws : list Z) (raw : bytes) : bytes :=
  match ws with
  | [] => raw
  | w :: ws => write_words (off + 4) ws (write_u32 off w raw)
  end.

Definition build_entry (e : VendorRamdiskTableEntry) : bytes :=
  let raw := zrep VENDOR_RAMDISK_TABLE_ENTRY_SIZE x00 in
  let raw := write_u32 0 (ramdisk_size e) raw in
  let raw := write_u32 4 (ramdisk_offset e) raw in
  let raw := write_u32 8 (ramdisk_type e) raw in
  let n := ramdisk_name e in
  let raw := write_at 12 (slice 0 (Z.min (zlen n) VENDOR_RAMDISK_NAME_SIZE) n) raw in
  write_words 44 (board_id e) raw.

Definition table_size (b : VendorBootBuilder) : Z :=
  if decide (b_version b = V4)
  then wrap 64 (zlen (b_table_entries b) * VENDOR_RAMDISK_TABLE_ENTRY_SIZE) else 0.

Definition build_header (b : VendorBootBuilder) : bytes :=
  let image := zrep (header_len (b_version b)) x00 in
  let image := write_at 0 VENDOR_BOOT_MAGIC image in
  let image := write_u32 8 (match b_version b with V3 => 3 | V4 => 4 end) image in
  let image := write_u32 12 (b_page_size b) image in
  let image := write_u32 16 (b_kernel_addr b) image in
  let image := write_u32 20 (b_ramdisk_addr b) image in
  let image := write_u32 24 (wrap 32 (zlen (b_ramdisk b))) image in
  let cmdline_len := Z.min (zlen (b_cmdline b)) VENDOR_BOOT_CMDLINE_SIZE in
  let image := write_at 28 (slice 0 cmdline_len (b_cmdline b)) image in
  let image := write_u32 2076 (b_tags_addr b) image in
  let name_len := Z.min (zlen (b_name b)) VENDOR_BOOT_NAME_SIZE in
  let image := write_at 2080 (slice 0 name_len (b_name b)) image in
  let image := write_u32 2096 (header_len (b_version b)) image in
  let image := write_u32 2100 (wrap 32 (zlen (b_dtb b))) image in
  let image := write_u64 2104 (b_dtb_addr b) image in
  if decide (b_version b = V4) then
    let image := write_u32 2112 (wrap 32 (table_size b)) image in
    let image := write_u32 2116 (wrap 32 (zlen (b_table_entries b))) image in
    let image := write_u32 2120 VENDOR_RAMDISK_TABLE_ENTRY_SIZE image in
    write_u32 2124 (wrap 32 (zlen (b_bootconfig b))) image
  else image.

(** [image.extend_from_slice(s); image.resize(align(image.len()), 0)]. *)
Definition add_section (page : Z) (image s : bytes) : bytes :=
  let image := image ++ s in resize (align page (zlen image)) x00 image.

Definition build (b : VendorBootBuilder) : vboot bytes :=
  guard! negb (b_page_size b =? 0) else InvalidPageSize 0 in
  let page := b_page_size b in
  let image := resize (align page (header_len (b_version b))) x00 (build_header b) in
  let image := add_section page image (b_ramdisk b) in
  let image := add_section page image (b_dtb b) in
  if decide (b_version b = V4) then
    let image := add_section page image (concat (map build_entry (b_table_entries b))) in
    let image := add_section page image (b_bootconfig b) in
    Ok image
  else Ok image.

(** ** Alignment and layout *)

Lemma align_spec page n :
  0 < page -> 0 <= n -> n + page - 1 < 2 ^ 64 ->
  n <= align page n < n + page /\ (page | align page n).
Proof.
  intros Hp Hn Hl. unfold align. rewrite wrap_small by (unfold uint; lia).
  pose proof (Z.div_mod (n + page - 1) page ltac:(lia)) as Hd.
  pose proof (Z.mod_pos_bound (n + page - 1) page Hp). split; [lia|].
  apply Z.divide_factor_r.
Qed.

(** The aligned length is the only multiple of the page in its interval. *)
Lemma align_unique page n m :
  0 < page -> 0 <= n -> n + page - 1 < 2 ^ 64 -> (page | m) -> n <= m < n + page -> m = align page n.
Proof.
  intros Hp Hn Hl [k ->] Hm. destruct (align_spec page n Hp Hn Hl) as [Ha [j Hj]].
  rewrite Hj in *. f_equal. nia.
Qed.

Lemma align_zero page : 0 < page < 2 ^ 32 -> align page 0 = 0.
Proof. intros. symmetry. apply align_unique; [lia..|apply Z.divide_0_r|lia]. Qed.

Lemma align_add page off n :
  0 < page -> 0 <= n -> 0 <= off -> (page | off) -> off + n + page - 1 < 2 ^ 64 ->
  align page (off + n) = off + align page n.
Proof.
  intros Hp Hn Ho Hd Hl. destruct (align_spec page n) as [Ha Hdv]; [lia..|].
  symmetry. apply align_unique; [lia..| |lia]. by apply Z.divide_add_r.
Qed.

(** The values the header fields can have. *)
Definition header_typed (h : VendorBootHeader) : Prop :=
  0 < page_size h < 2 ^ 32 /\ header_size h = header_len (version h)
  /\ u32 (vendor_ramdisk_size h) /\ u32 (dtb_size h) /\ u32 (vendor_ramdisk_table_size h)
  /\ u32 (vendor_ramdisk_table_entry_num h) /\ u32 (bootconfig_size h)
  /\ (version h = V3 -> vendor_ramdisk_table_size h = 0 /\ bootconfig_size h = 0).

(** The layout the header describes. *)
Definition layout (h : VendorBootHeader) : VendorBootSectionOffsets :=
  let al := align (page_size h) in
  let r := al (header_size h) in
  let d := r + al (vendor_ramdisk_size h) in
  let t := d + al (dtb_size h) in
  let c := t + al (vendor_ramdisk_table_size h) in
  {| off_header := r; off_ramdisk := r; off_dtb := d; off_table := t; off_bootconfig := c;
     off_end := c + al (bootconfig_size h) |}.

Lemma align_checked_ok page n :
  0 < page < 2 ^ 32 -> 0 <= n < 2 ^ 33 -> align_checked page n = Ok (align page n).
Proof.
  intros Hp Hn. unfold align_checked, add_checked, align.
  rewrite wrap_small by (unfold uint; lia).
  zcase; [|lia]. cbn [res_bind]. do 3 f_equal. lia.
Qed.

Lemma header_len_bounds v : 2112 <= header_len v <= 2128.
Proof. destruct v; unfold header_len, VENDOR_BOOT_HEADER_V3_SIZE, VENDOR_BOOT_HEADER_V4_SIZE; lia. Qed.

(** The sections follow each other and each holds its contents. *)
Definition layout_ordered (h : VendorBootHeader) (o : VendorBootSectionOffsets) : Prop :=
  header_size h <= off_ramdisk o
  /\ off_ramdisk o + vendor_ramdisk_size h <= off_dtb o
  /\ off_dtb o + dtb_size h <= off_table o
  /\ off_table o + vendor_ramdisk_table_size h <= off_bootconfig o
  /\ off_bootconfig o + bootconfig_size h <= off_end o
  /\ off_end o < 2 ^ 36.

Lemma layout_ok h : header_typed h -> layout_ordered h (layout h).
Proof.
  intros (Hp & Hh & Hr & Hd & Ht & _ & Hc & _). pose proof (header_len_bounds (version h)).
  unfold u32, uint in *. unfold layout_ordered, layout; simpl.
  destruct (align_spec (page_size h) (header_size h)); [lia..|].
  destruct (align_spec (page_size h) (vendor_ramdisk_size h)); [lia..|].
  destruct (align_spec (page_size h) (dtb_size h)); [lia..|].
  destruct (align_spec (page_size h) (vendor_ramdisk_table_size h)); [lia..|].
  destruct (align_spec (page_size h) (bootconfig_size h)); [lia..|]. lia.
Qed.

Lemma section_offsets_ok h : header_typed h -> section_offsets_for h = Ok (layout h).
Proof.
  intros Hh. pose proof (layout_ok h Hh) as (Ho1 & Ho2 & Ho3 & Ho4 & Ho5 & Ho6).
  destruct Hh as (Hp & Hs & Hr & Hd & Ht & _ & Hc & _).
  pose proof (header_len_bounds (version h)). unfold u32, uint, layout in *; simpl in *.
  unfold section_offsets_for.
  rewrite !align_checked_ok by lia. cbn [res_bind].
  assert (Hadd : forall a b, a + b < 2 ^ 36 -> add_checked 64 a b = Ok (a + b)).
  { intros a b Hab. unfold add_checked. zcase; [done|lia]. }
  rewrite Hadd by lia. cbn [res_bind]. rewrite Hadd by lia. cbn [res_bind].
  rewrite Hadd by lia. cbn [res_bind]. rewrite Hadd by lia. done.
Qed.

(** ** Parsing *)

Lemma read_u32_range {E} buf off :
  0 <= off -> off + 4 <= zlen buf -> exists v, @read_u32 E buf off = Ok v /\ u32 v.
Proof.
  intros. unfold read_u32. rewrite read_le_ok by (cbn; lia). eexists. split; [done|].
  apply (le_val_uint 4); cbn; lia.
Qed.

Lemma v4_field_range v buf off :
  0 <= off -> off + 4 <= zlen buf \/ v = V3 ->
  exists n, v4_field v buf off = Ok n /\ u32 n /\ (v = V3 -> n = 0).
Proof.
  intros Ho Hl. unfold v4_field. case_decide as Ev.
  - destruct Hl as [Hl|]; [|congruence].
    destruct (@read_u32_range VendorBootError buf off Ho Hl) as (n & E & Hn). exists n. split_and!; [done..|congruence].
  - exists 0. by unfold u32, uint.
Qed.

(** Read a 32-bit field and name it. *)
Ltac read_field n :=
  let E := fresh in
  match goal with
  | |- context [read_u32 ?b ?o] =>
      destruct (@read_u32_range VendorBootError b o) as (n & E & ?); [lia..|]; rewrite E;
      cbn [res_bind]
  end.

Lemma parse_header_cases data :
  (exists e, parse_header data = Err e) \/
  exists h, parse_header data = Ok h /\ header_typed h.
Proof.
  unfold parse_header, VENDOR_BOOT_HEADER_V3_SIZE. zcase; [by left; eauto|].
  rewrite get_slice_ok by lia. cbn [res_bind].
  case_bool_decide; [|by left; eauto]. read_field rv.
  assert (Hv : (exists e, (if rv =? 3 then Ok V3 else if rv =? 4 then Ok V4
                           else Err (UnsupportedVersion rv)) = Err e)
             \/ exists v, (if rv =? 3 then Ok V3 else if rv =? 4 then Ok V4
                           else Err (UnsupportedVersion rv)) = Ok v).
  { repeat (zcase; try by right; eauto). left. eauto. }
  destruct Hv as [[e ->]|[v ->]]; cbn [res_bind]; [by left; eauto|].
  zcase; [by left; eauto|]. read_field ps. zcase; [by left; eauto|]. read_field hs.
  zcase; [|by left; eauto].
  assert (Hf : forall o, o + 4 <= 2128 -> o + 4 <= zlen data \/ v = V3).
  { intros o Ho. destruct v; [by right|left]. unfold header_len, VENDOR_BOOT_HEADER_V4_SIZE in *. lia. }
  read_field f1. read_field f2. read_field f3. rewrite get_slice_ok by lia. cbn [res_bind].
  read_field f4. rewrite get_slice_ok by lia. cbn [res_bind]. read_field f5.
  unfold read_u64. rewrite read_le_ok by (cbn; lia). cbn [res_bind].
  destruct (v4_field_range v data 2112) as (g1 & -> & ? & ?); [lia|apply Hf; lia|]. cbn [res_bind].
  destruct (v4_field_range v data 2116) as (g2 & -> & ? & ?); [lia|apply Hf; lia|]. cbn [res_bind].
  destruct (v4_field_range v data 2120) as (g3 & -> & ? & ?); [lia|apply Hf; lia|]. cbn [res_bind].
  destruct (v4_field_range v data 2124) as (g4 & -> & ? & ?); [lia|apply Hf; lia|]. cbn [res_bind].
  right. eexists. split; [done|]. unfold header_typed, u32, uint in *; simpl. split_and!; auto; lia.
Qed.

Lemma ensure_section_cases data sec off size :
  0 <= off -> 0 <= size -> off + size < 2 ^ 64 ->
  (ensure_section data sec off size = Ok tt /\ off + size <= zlen data)
  \/ exists e, ensure_section data sec off size = Err e.
Proof.
  intros. unfold ensure_section, add_checked. zcase; [|lia]. cbn [res_bind].
  zcase; [right; eauto|left; split; [done|lia]].
Qed.

(** What the layout checks guarantee. *)
Definition layout_fits (data : bytes) (h : VendorBootHeader) (o : VendorBootSectionOffsets) : Prop :=
  off_table o <= zlen data
  /\ (version h = V4 -> off_end o <= zlen data
      /\ vendor_ramdisk_table_entry_num h * VENDOR_RAMDISK_TABLE_ENTRY_SIZE
         = vendor_ramdisk_table_size h).

Lemma check_layout_cases data h :
  header_typed h ->
  (check_layout data h (layout h) = Ok tt /\ layout_fits data h (layout h))
  \/ exists e, check_layout data h (layout h) = Err e.
Proof.
  intros Hh. pose proof (layout_ok h Hh) as (Ho1 & Ho2 & Ho3 & Ho4 & Ho5 & Ho6).
  destruct Hh as (Hp & Hs & Hr & Hd & Ht & Hn & Hc & _). unfold u32, uint in *.
  pose proof (header_len_bounds (version h)). set (o := layout h) in *. unfold check_layout.
  destruct (ensure_section_cases data (B "header") 0 (off_ramdisk o)) as [[-> _]|[e ->]];
    [lia..| |by right; eauto]. cbn [res_bind].
  destruct (ensure_section_cases data (B "vendor ramdisk") (off_ramdisk o) (off_dtb o - off_ramdisk o))
    as [[-> _]|[e ->]]; [lia..| |by right; eauto]. cbn [res_bind].
  destruct (ensure_section_cases data (B "dtb") (off_dtb o) (off_table o - off_dtb o))
    as [[-> Htab]|[e ->]]; [lia..| |by right; eauto]. cbn [res_bind].
  case_decide as Ev; [|left; split; [done|split; [lia|congruence]]].
  destruct (ensure_section_cases data (B "vendor ramdisk table") (off_table o) (off_bootconfig o - off_table o))
    as [[-> _]|[e ->]]; [lia..| |by right; eauto]. cbn [res_bind].
  destruct (ensure_section_cases data (B "bootconfig") (off_bootconfig o) (off_end o - off_bootconfig o))
    as [[-> Hend]|[e ->]]; [lia..| |by right; eauto]. cbn [res_bind].
  zcase; [|right; eauto]. unfold mul_checked. zcase; [|right; eauto]. cbn [res_bind].
  zcase; [|right; eauto]. left. split; [done|]. unfold layout_fits. split; [lia|]. intros _.
  split; [lia|congruence].
Qed.

Lemma read_words_ok data off n :
  0 <= off -> off + 4 * Z.of_nat n <= zlen data ->
  exists ws, read_words data off n = Ok ws /\ length ws = n.
Proof.
  revert off. induction n as [|n IH]; intros off Ho Hl; cbn [read_words]; [by exists []|].
  read_field w. destruct (IH (off + 4)) as (ws & -> & Hw); [lia..|]. cbn [res_bind].
  exists (w :: ws). by rewrite <- Hw.
Qed.

Lemma parse_entry_cases raw index :
  zlen raw = VENDOR_RAMDISK_TABLE_ENTRY_SIZE ->
  (exists e, parse_entry raw index = Err e) \/
  exists en, parse_entry raw index = Ok en /\ u32 (ramdisk_offset en) /\ u32 (ramdisk_size en).
Proof.
  intros Hl. change VENDOR_RAMDISK_TABLE_ENTRY_SIZE with 108 in Hl. unfold parse_entry.
  rewrite get_slice_ok by lia. cbn [res_bind]. unfold from_utf8.
  destruct (is_utf8 _); cbn [res_bind]; [|by left; eauto].
  change (Z.to_nat VENDOR_RAMDISK_BOARD_ID_SIZE) with 16%nat.
  destruct (read_words_ok raw 44 16) as (ws & -> & _); [lia..|]. cbn [res_bind].
  read_field sz. read_field off. read_field ty. right. eexists. by split.
Qed.

(** The entries lie in the ramdisk and have distinct names. *)
Definition table_ok (h : VendorBootHeader) (es : list VendorRamdiskTableEntry) : Prop :=
  Forall (fun e => 0 <= ramdisk_offset e /\ 0 <= ramdisk_size e /\
                   ramdisk_offset e + ramdisk_size e <= vendor_ramdisk_size h) es
  /\ NoDup (map ramdisk_name es).

Lemma table_ok_snoc h es e :
  table_ok h es -> u32 (ramdisk_offset e) -> u32 (ramdisk_size e) ->
  ramdisk_offset e + ramdisk_size e <= vendor_ramdisk_size h ->
  existsb (fun old => bool_decide (ramdisk_name old = ramdisk_name e)) es = false ->
  table_ok h (es ++ [e]).
Proof.
  intros [Hb Hn] Ho Hs Hle Hex. unfold u32, uint in *. split.
  - apply Forall_app. split; [done|]. constructor; [lia|constructor].
  - rewrite map_app. apply list.NoDup_app. split; [done|]. split; [|apply NoDup_singleton].
    intros n Hin ->%list_elem_of_singleton. apply list_elem_of_fmap in Hin as (old & Eo & Hold).
    assert (existsb (fun old => bool_decide (ramdisk_name old = ramdisk_name e)) es = true).
    { apply existsb_exists. exists old. split; [by apply list_elem_of_In|]. by apply bool_decide_eq_true. }
    congruence.
Qed.

Lemma read_entries_cases data h table n : forall index acc,
  0 <= table -> 0 <= index ->
  table + (index + Z.of_nat n) * VENDOR_RAMDISK_TABLE_ENTRY_SIZE <= zlen data ->
  table_ok h acc ->
  (exists e, read_entries data h table n index acc = Err e) \/
  exists es, read_entries data h table n index acc = Ok es /\ table_ok h es /\
             length es = (length acc + n)%nat.
Proof.
  change VENDOR_RAMDISK_TABLE_ENTRY_SIZE with 108.
  induction n as [|n IH]; intros index acc Ht Hi Hl Hacc; cbn [read_entries].
  { right. exists acc. split_and!; [done..|lia]. }
  change VENDOR_RAMDISK_TABLE_ENTRY_SIZE with 108. rewrite get_slice_ok by lia. cbn [res_bind].
  destruct (parse_entry_cases (slice (table + index * 108) (table + index * 108 + 108) data) index)
    as [[e ->]|(en & -> & Ho & Hs)]; [rewrite zlen_slice by lia; change VENDOR_RAMDISK_TABLE_ENTRY_SIZE with 108; lia|by left; eauto|].
  cbn [res_bind]. unfold add_checked. zcase; [|by left; eauto]. cbn [res_bind].
  zcase; [by left; eauto|]. destruct (existsb _ acc) eqn:Hex; cbn [negb]; [by left; eauto|].
  destruct (IH (index + 1) (acc ++ [en])) as [[e ->]|(es & -> & Hes & Hlen)];
    [lia..|by apply table_ok_snoc| |].
  - by left; eauto.
  - right. exists es. split_and!; [done..|]. rewrite Hlen, length_app. simpl. lia.
Qed.

(** The promises of a parsed image to its readers. *)
Definition image_ok (i : VendorBootImage) : Prop :=
  layout_ordered (header i) (offsets i)
  /\ (exists r, ramdisk i = Ok r /\ zlen r = vendor_ramdisk_size (header i))
  /\ (exists d, dtb i = Ok d /\ zlen d = dtb_size (header i))
  /\ (exists c, bootconfig i = Ok c /\ zlen c = bootconfig_size (header i))
  /\ table_ok (header i) (entries i)
  /\ zlen (entries i) * VENDOR_RAMDISK_TABLE_ENTRY_SIZE
     = vendor_ramdisk_table_size (header i).

Lemma image_ok_intro d h es :
  header_typed h -> layout_fits d h (layout h) -> table_ok h es ->
  zlen es * VENDOR_RAMDISK_TABLE_ENTRY_SIZE = vendor_ramdisk_table_size h ->
  image_ok {| header := h; data := d; entries := es; offsets := layout h |}.
Proof.
  intros Hh [Htab Hv4] Ht He. pose proof (layout_ok h Hh) as Ho. split; [done|].
  destruct Ho as (Ho1 & Ho2 & Ho3 & Ho4 & Ho5 & _).
  destruct Hh as (Hp & Hs & Hr & Hd & Hts & _ & Hc & Hv3). unfold u32, uint in *.
  pose proof (header_len_bounds (version h)).
  assert (Hbc : off_bootconfig (layout h) + bootconfig_size h <= zlen d).
  { destruct (version h) eqn:Ev.
    - destruct (Hv3 eq_refl) as [H1 H2]. rewrite H2. unfold layout in Htab |- *.
      cbn [off_table off_bootconfig] in Htab |- *. rewrite H1, align_zero by lia. lia.
    - destruct (Hv4 eq_refl). lia. }
  unfold ramdisk, dtb, bootconfig. cbn [header data entries offsets].
  rewrite !get_slice_ok by lia.
  split_and!; try done; eexists; (split; [done|]); rewrite zlen_slice by lia; lia.
Qed.

Lemma parse_cases d :
  (exists e, parse d = Err e) \/
  exists i, parse d = Ok i /\ data i = d /\ offsets i = layout (header i) /\ image_ok i.
Proof.
  unfold parse. destruct (parse_header_cases d) as [[e ->]|(h & -> & Hh)]; [by left; eauto|].
  cbn [res_bind]. rewrite section_offsets_ok by done. cbn [res_bind].
  destruct (check_layout_cases d h Hh) as [[-> Hf]|[e ->]]; [|by left; eauto]. cbn [res_bind].
  pose proof (layout_ok h Hh) as (Ho1 & Ho2 & Ho3 & Ho4 & Ho5 & _).
  pose proof Hh as (Hp & Hs & Hr & Hd & Hts & Hn & Hc & Hv3). unfold u32, uint in *.
  pose proof (header_len_bounds (version h)). pose proof Hf as [Htab Hv4].
  set (count := if decide (version h = V4) then vendor_ramdisk_table_entry_num h else 0).
  assert (Hcount : 0 <= count /\ count * VENDOR_RAMDISK_TABLE_ENTRY_SIZE = vendor_ramdisk_table_size h).
  { unfold count. case_decide as Ev; [split; [lia|by apply Hv4]|]. split; [lia|].
    destruct (version h); [|done]. destruct (Hv3 eq_refl). lia. }
  destruct Hcount as [Hc0 Hcs].
  destruct (read_entries_cases d h (off_table (layout h)) (Z.to_nat count) 0 [])
    as [[e ->]|(es & -> & Hes & Hlen)]; [lia|lia| |by split; [|apply NoDup_nil_2]|by left; eauto|].
  - rewrite Z2Nat.id by lia. rewrite Z.add_0_l, Hcs. unfold count in Hcs. destruct (version h).
    + destruct (Hv3 eq_refl). lia.
    + destruct (Hv4 eq_refl). lia.
  - right. cbn [res_bind]. eexists. split; [done|]. cbn [data offsets header].
    split_and!; [done..|]. apply image_ok_intro; [done..|].
    unfold zlen. rewrite Hlen. simpl. rewrite Z2Nat.id by lia. done.
Qed.

(** ** Building *)

Lemma slice_write_prefix {A} off b (bs l : list A) :
  0 <= off -> off + zlen bs <= b -> b <= zlen l ->
  slice off b (write_at off bs l) = bs ++ slice (off + zlen bs) b l.
Proof.
  intros. pose proof (zlen_nonneg bs). rewrite (slice_cut off (off + zlen bs) b) by lia.
  by rewrite slice_write_same, slice_write_after by lia.
Qed.

Lemma zlen_cut n (s : bytes) : 0 <= n -> zlen (slice 0 (Z.min (zlen s) n) s) = Z.min (zlen s) n.
Proof. intros. pose proof (zlen_nonneg s). rewrite zlen_slice by lia. lia. Qed.
#[local] Hint Rewrite zlen_cut using lia : zlen_db.

Lemma zlen_vendor_magic : zlen VENDOR_BOOT_MAGIC = 8.
Proof. done. Qed.
#[local] Hint Rewrite zlen_vendor_magic : zlen_db.

(** A string copied over a zeroed field. *)
Lemma slice_write_fixed off n (s l : bytes) :
  0 <= off -> 0 <= n -> off + n <= zlen l ->
  slice (off + Z.min (zlen s) n) (off + n) l = zrep (n - Z.min (zlen s) n) x00 ->
  slice off (off + n) (write_at off (slice 0 (Z.min (zlen s) n) s) l) = fixed s n.
Proof.
  intros Ho Hn Hl Hz. rewrite slice_write_prefix by (rewrite ?zlen_cut; lia).
  rewrite zlen_cut, Hz by lia. done.
Qed.

Lemma slice_take (n : nat) (s : bytes) : slice 0 (Z.of_nat n) s = take n s.
Proof. unfold slice. by rewrite Z.sub_0_r, Nat2Z.id, drop_0. Qed.

Lemma fixed_string_field s n : field_string s n -> fixed_string (fixed s n) = s.
Proof.
  intros Hs. pose proof (until_nul_fixed s n Hs) as Hu. destruct Hs as (_ & _ & Hutf).
  unfold fixed_string. unfold until_nul in Hu. destruct (position _ _) as [i|].
  - rewrite slice_take, Hu. by apply lossy_utf8.
  - rewrite slice_full, Hu by lia. by apply lossy_utf8.
Qed.

(** *** Table entries *)

Definition entry_ok (ramdisk_len : Z) (e : VendorRamdiskTableEntry) : Prop :=
  u32 (ramdisk_size e) /\ u32 (ramdisk_offset e) /\ u32 (ramdisk_type e)
  /\ field_string (ramdisk_name e) VENDOR_RAMDISK_NAME_SIZE
  /\ zlen (board_id e) = VENDOR_RAMDISK_BOARD_ID_SIZE /\ Forall u32 (board_id e)
  /\ ramdisk_offset e + ramdisk_size e <= ramdisk_len.

Lemma zlen_write_words off ws raw : zlen (write_words off ws raw) = zlen raw.
Proof.
  revert off raw. induction ws as [|w ws IH]; intros off raw; cbn [write_words]; [done|].
  rewrite IH. apply zlen_write_at.
Qed.
#[local] Hint Rewrite zlen_write_words : zlen_db.

Lemma slice_write_words a b off ws raw :
  0 <= a -> b <= off -> slice a b (write_words off ws raw) = slice a b raw.
Proof.
  revert off raw. induction ws as [|w ws IH]; intros off raw Ha Hb; cbn [write_words]; [done|].
  rewrite IH by lia. by apply slice_write_before.
Qed.

Lemma read_write_words off ws raw :
  0 <= off -> off + 4 * zlen ws <= zlen raw -> Forall u32 ws ->
  read_words (write_words off ws raw) off (length ws) = Ok ws.
Proof.
  intros Ho Hl Hws. revert off raw Ho Hl. induction Hws as [|w ws Hw Hws IH]; intros off raw Ho Hl;
    cbn [write_words read_words length]; [done|]. rewrite zlen_cons in Hl. pose proof (zlen_nonneg ws).
  unfold read_u32, write_u32. rewrite read_le_ok by (autorewrite with zlen_db; lia).
  cbn [res_bind]. rewrite slice_write_words, slice_write_same by (autorewrite with zlen_db; lia).
  rewrite le_val_bytes_id by exact Hw. rewrite IH; [done|lia|]. autorewrite with zlen_db. lia.
Qed.

Lemma zlen_build_entry e : zlen (build_entry e) = VENDOR_RAMDISK_TABLE_ENTRY_SIZE.
Proof. unfold build_entry, write_u32. autorewrite with zlen_db. apply zlen_zrep. vm_compute. done. Qed.

(** Evaluate the sizes of the table format. *)
Ltac vsizes :=
  change VENDOR_RAMDISK_TABLE_ENTRY_SIZE with 108 in *; change VENDOR_RAMDISK_NAME_SIZE with 32 in *;
  change VENDOR_RAMDISK_BOARD_ID_SIZE with 16 in *; change VENDOR_BOOT_CMDLINE_SIZE with 2048 in *;
  change VENDOR_BOOT_NAME_SIZE with 16 in *; change VENDOR_BOOT_HEADER_V3_SIZE with 2112 in *;
  change VENDOR_BOOT_HEADER_V4_SIZE with 2128 in *; change (zlen VENDOR_BOOT_MAGIC) with 8 in *.

(** The name field of an entry, cut at its first NUL. *)
Lemma entry_name_field n e :
  entry_ok n e ->
  slice 12 44 (build_entry e) = fixed (ramdisk_name e) 32
  /\ match position (beqb x00) (fixed (ramdisk_name e) 32) with
     | Some end_ => slice 0 (Z.of_nat end_) (fixed (ramdisk_name e) 32)
     | None => fixed (ramdisk_name e) 32
     end = ramdisk_name e.
Proof.
  intros (_ & _ & _ & Hn & _). vsizes. split.
  - unfold build_entry, write_u32. rewrite slice_write_words by lia. vsizes.
    pose proof (zlen_nonneg (ramdisk_name e)).
    apply (slice_write_fixed 12 32); [lia..|autorewrite with zlen_db; lia|].
    rewrite !slice_write_after by (autorewrite with zlen_db; lia).
    rewrite slice_zrep by lia. f_equal. lia.
  - pose proof (until_nul_fixed _ _ Hn) as Hu. unfold until_nul in Hu.
    destruct (position _ _); [by rewrite slice_take|done].
Qed.

Lemma parse_build_entry n e index : entry_ok n e -> parse_entry (build_entry e) index = Ok e.
Proof.
  intros He. destruct (entry_name_field n e He) as [Hf Hname].
  destruct He as (Hs & Ho & Ht & (_ & _ & Hutf) & Hb & Hw & _).
  pose proof (zlen_build_entry e) as Hz. unfold parse_entry. vsizes.
  rewrite get_slice_ok by lia. cbn [res_bind]. rewrite Hf, Hname. unfold from_utf8.
  rewrite Hutf. cbn [res_bind].
  replace (Z.to_nat 16) with (length (board_id e)) by (unfold zlen in Hb; lia).
  assert (Hwords : read_words (build_entry e) 44 (length (board_id e)) = Ok (board_id e)).
  { unfold build_entry, write_u32. vsizes.
    apply read_write_words; [lia|autorewrite with zlen_db; lia|done]. }
  rewrite Hwords. cbn [res_bind]. unfold read_u32. rewrite !read_le_ok by lia. cbn [res_bind].
  unfold build_entry, write_u32. rewrite !slice_write_words by lia. vsizes. wire_slice.
  rewrite !le_val_bytes_id by done. by destruct e.
Qed.

(** Reading the table back, [pre] being the bytes before it. *)
Lemma read_entries_back pre rest post h table : forall acc index,
  zlen pre = table + index * VENDOR_RAMDISK_TABLE_ENTRY_SIZE -> u32 (vendor_ramdisk_size h) ->
  Forall (entry_ok (vendor_ramdisk_size h)) rest -> NoDup (map ramdisk_name (acc ++ rest)) ->
  0 <= table -> 0 <= index ->
  read_entries (pre ++ concat (map build_entry rest) ++ post) h table (length rest) index acc
  = Ok (acc ++ rest).
Proof.
  revert pre. induction rest as [|e rest IH]; intros pre acc index Hpre Hr Hok Hnd Ht Hi;
    cbn [read_entries length map concat]; [by rewrite app_nil_r|].
  apply list.Forall_cons in Hok as [He Hok]. pose proof (zlen_build_entry e) as Hz.
  pose proof (zlen_nonneg (concat (map build_entry rest))). pose proof (zlen_nonneg post).
  vsizes. rewrite <- app_assoc. rewrite get_slice_ok by (autorewrite with zlen_db; lia).
  rewrite slice_app_here by lia. cbn [res_bind]. rewrite (parse_build_entry _ _ _ He).
  cbn [res_bind]. destruct He as (Hs & Ho & _ & _ & _ & _ & Hle). unfold u32, uint in *.
  unfold add_checked. zcase; [|lia]. cbn [res_bind]. zcase; [lia|].
  assert (Hex : existsb (fun old => bool_decide (ramdisk_name old = ramdisk_name e)) acc = false).
  { apply not_true_is_false. intros (old & Hin & E%bool_decide_eq_true)%existsb_exists.
    rewrite map_app in Hnd. apply list.NoDup_app in Hnd as (_ & Hd & _).
    apply (Hd (ramdisk_name e)); [|simpl; left].
    rewrite <- E. apply list_elem_of_fmap. exists old. by rewrite list_elem_of_In. }
  rewrite Hex. cbn [negb]. rewrite (app_assoc pre).
  rewrite IH; [by rewrite <- app_assoc|rewrite zlen_app; lia|done|done|by rewrite <- app_assoc|done|lia].
Qed.

(** *** The header *)

(** A builder whose parts fit the fields of the format. *)
Definition builder_ok (b : VendorBootBuilder) : Prop :=
  (0 < b_page_size b < 2 ^ 32) /\ u32 (b_kernel_addr b) /\ u32 (b_ramdisk_addr b)
  /\ u32 (b_tags_addr b) /\ u64 (b_dtb_addr b)
  /\ field_string (b_cmdline b) VENDOR_BOOT_CMDLINE_SIZE
  /\ field_string (b_name b) VENDOR_BOOT_NAME_SIZE
  /\ zlen (b_ramdisk b) < 2 ^ 32 /\ zlen (b_dtb b) < 2 ^ 32
  /\ (b_version b = V4 ->
      zlen (b_bootconfig b) < 2 ^ 32
      /\ zlen (b_table_entries b) * VENDOR_RAMDISK_TABLE_ENTRY_SIZE < 2 ^ 32
      /\ Forall (entry_ok (zlen (b_ramdisk b))) (b_table_entries b)
      /\ NoDup (map ramdisk_name (b_table_entries b))).

(** The table and the boot configuration, which only version 4 has. *)
Definition built_entries (b : VendorBootBuilder) : list VendorRamdiskTableEntry :=
  if decide (b_version b = V4) then b_table_entries b else [].
Definition built_bootconfig (b : VendorBootBuilder) : bytes :=
  if decide (b_version b = V4) then b_bootconfig b else [].

(** The header that describes what the builder holds. *)
Definition described (b : VendorBootBuilder) : VendorBootHeader :=
  {| version := b_version b; page_size := b_page_size b; kernel_addr := b_kernel_addr b;
     ramdisk_addr := b_ramdisk_addr b; vendor_ramdisk_size := zlen (b_ramdisk b);
     cmdline := b_cmdline b; tags_addr := b_tags_addr b; name := b_name b;
     header_size := header_len (b_version b); dtb_size := zlen (b_dtb b);
     dtb_addr := b_dtb_addr b;
     vendor_ramdisk_table_size := zlen (built_entries b) * VENDOR_RAMDISK_TABLE_ENTRY_SIZE;
     vendor_ramdisk_table_entry_num := zlen (built_entries b);
     vendor_ramdisk_table_entry_size :=
       if decide (b_version b = V4) then VENDOR_RAMDISK_TABLE_ENTRY_SIZE else 0;
     bootconfig_size := zlen (built_bootconfig b) |}.

Lemma zlen_build_header b : zlen (build_header b) = header_len (b_version b).
Proof.
  unfold build_header, write_u32, write_u64. pose proof (header_len_bounds (b_version b)).
  case_decide; autorewrite with zlen_db; lia.
Qed.

Lemma read_header_field (n : nat) b tail off v :
  slice off (off + Z.of_nat n) (build_header b) = le_bytes n v -> uint (8 * Z.of_nat n) v ->
  0 <= off -> off + Z.of_nat n <= header_len (b_version b) ->
  @read_le VendorBootError n (build_header b ++ tail) off = Ok v.
Proof.
  intros Hs Hv Ho Hl. pose proof (zlen_build_header b). pose proof (zlen_nonneg tail).
  rewrite read_le_ok by (rewrite ?zlen_app; lia). rewrite slice_app_l by lia.
  by rewrite Hs, le_val_bytes_id.
Qed.

Lemma header_slices b :
  builder_ok b ->
  slice 0 8 (build_header b) = VENDOR_BOOT_MAGIC
  /\ slice 8 12 (build_header b) = le_bytes 4 (match b_version b with V3 => 3 | V4 => 4 end)
  /\ slice 12 16 (build_header b) = le_bytes 4 (b_page_size b)
  /\ slice 16 20 (build_header b) = le_bytes 4 (b_kernel_addr b)
  /\ slice 20 24 (build_header b) = le_bytes 4 (b_ramdisk_addr b)
  /\ slice 24 28 (build_header b) = le_bytes 4 (zlen (b_ramdisk b))
  /\ slice 28 2076 (build_header b) = fixed (b_cmdline b) 2048
  /\ slice 2076 2080 (build_header b) = le_bytes 4 (b_tags_addr b)
  /\ slice 2080 2096 (build_header b) = fixed (b_name b) 16
  /\ slice 2096 2100 (build_header b) = le_bytes 4 (header_len (b_version b))
  /\ slice 2100 2104 (build_header b) = le_bytes 4 (zlen (b_dtb b))
  /\ slice 2104 2112 (build_header b) = le_bytes 8 (b_dtb_addr b).
Proof.
  intros (_ & _ & _ & _ & _ & _ & _ & Hr & Hd & _).
  pose proof (zlen_nonneg (b_ramdisk b)). pose proof (zlen_nonneg (b_dtb b)).
  pose proof (zlen_nonneg (b_cmdline b)). pose proof (zlen_nonneg (b_name b)).
  unfold build_header, write_u32, write_u64, header_len.
  rewrite (wrap_small 32 (zlen (b_ramdisk b))), (wrap_small 32 (zlen (b_dtb b))) by (unfold uint; lia).
  destruct (b_version b); first [rewrite decide_False by congruence|rewrite decide_True by done]; vsizes.
  all: split_and!; wire_slice; try done.
  all: first [apply (slice_write_fixed 28 2048) | apply (slice_write_fixed 2080 16)];
    [lia..|autorewrite with zlen_db; lia|].
  all: wire_slice; rewrite slice_zrep by lia; f_equal; lia.
Qed.

Lemma header_slices_v4 b :
  builder_ok b -> b_version b = V4 ->
  slice 2112 2116 (build_header b)
    = le_bytes 4 (zlen (b_table_entries b) * VENDOR_RAMDISK_TABLE_ENTRY_SIZE)
  /\ slice 2116 2120 (build_header b) = le_bytes 4 (zlen (b_table_entries b))
  /\ slice 2120 2124 (build_header b) = le_bytes 4 VENDOR_RAMDISK_TABLE_ENTRY_SIZE
  /\ slice 2124 2128 (build_header b) = le_bytes 4 (zlen (b_bootconfig b)).
Proof.
  intros (_ & _ & _ & _ & _ & _ & _ & _ & _ & Hv) Ev. destruct (Hv Ev) as (Hc & Ht & _).
  pose proof (zlen_nonneg (b_table_entries b)). pose proof (zlen_nonneg (b_bootconfig b)).
  unfold build_header, write_u32, write_u64, table_size, header_len. rewrite Ev. vsizes.
  rewrite !decide_True by done. rewrite (wrap_small 64), !(wrap_small 32) by (unfold uint; lia).
  split_and!; by wire_slice.
Qed.

Lemma v4_field_read b tail off v :
  (b_version b = V4 -> slice off (off + 4) (build_header b) = le_bytes 4 v /\ u32 v) ->
  0 <= off -> off + 4 <= 2128 ->
  v4_field (b_version b) (build_header b ++ tail) off
  = Ok (if decide (b_version b = V4) then v else 0).
Proof.
  intros Hs Ho Hl. unfold v4_field. case_decide as Ev; [|done]. destruct (Hs Ev) as [Hb Hv].
  unfold read_u32. apply read_header_field; [done..|]. by rewrite Ev.
Qed.

Lemma parse_build_header b tail :
  builder_ok b -> parse_header (build_header b ++ tail) = Ok (described b).
Proof.
  intros Hb. destruct (header_slices b Hb) as (S0 & S1 & S2 & S3 & S4 & S5 & S6 & S7 & S8 & S9 & S10 & S11).
  pose proof (header_slices_v4 b Hb) as Hv4.
  destruct Hb as (Hp & Hk & Hra & Hta & Hda & Hcm & Hnm & Hr & Hd & Hv).
  pose proof (zlen_build_header b) as Hz. pose proof (header_len_bounds (b_version b)).
  pose proof (zlen_nonneg tail). pose proof (zlen_nonneg (b_ramdisk b)). pose proof (zlen_nonneg (b_dtb b)).
  pose proof (zlen_nonneg (b_table_entries b)). pose proof (zlen_nonneg (b_bootconfig b)).
  unfold parse_header, read_u32, read_u64. vsizes.
  rewrite !get_slice_ok by (rewrite ?zlen_app; lia). cbn [res_bind].
  zcase; [rewrite zlen_app in *; lia|].
  rewrite !slice_app_l by lia. rewrite S0, S6, S8, bool_decide_true by done.
  assert (Hru : forall off v, slice off (off + 4) (build_header b) = le_bytes 4 v -> 0 <= v < 2 ^ 32 ->
    0 <= off -> off + 4 <= 2112 -> @read_le VendorBootError 4 (build_header b ++ tail) off = Ok v).
  { intros off v Hs Hu Ho Hl. apply read_header_field; [done..|lia]. }
  rewrite (Hru _ _ S1) by (destruct (b_version b); lia). cbn [res_bind].
  assert (Hver : (if match b_version b with V3 => 3 | V4 => 4 end =? 3 then Ok V3
                  else if match b_version b with V3 => 3 | V4 => 4 end =? 4 then Ok V4
                  else Err (UnsupportedVersion match b_version b with V3 => 3 | V4 => 4 end))
                 = @Ok VendorBootError _ (b_version b)) by (by destruct (b_version b)).
  rewrite Hver. cbn [res_bind]. zcase; [rewrite zlen_app in *; lia|].
  rewrite (Hru _ _ S2) by lia. cbn [res_bind]. zcase; [lia|].
  rewrite (Hru _ _ S9) by lia. cbn [res_bind]. rewrite Z.eqb_refl.
  rewrite (Hru _ _ S3), (Hru _ _ S4), (Hru _ _ S5), (Hru _ _ S7), (Hru _ _ S10)
    by (unfold u32, uint in *; lia). cbn [res_bind].
  rewrite (read_header_field 8 b tail 2104 (b_dtb_addr b)) by (try done; cbn; lia). cbn [res_bind].
  rewrite (v4_field_read b tail 2112 (zlen (b_table_entries b) * 108)),
    (v4_field_read b tail 2116 (zlen (b_table_entries b))), (v4_field_read b tail 2120 108),
    (v4_field_read b tail 2124 (zlen (b_bootconfig b)));
    try (intros Ev; destruct (Hv4 Ev) as (T0 & T1 & T2 & T3); destruct (Hv Ev) as (? & ? & _);
         split; [done|unfold u32, uint; lia]); try lia.
  cbn [res_bind]. rewrite !fixed_string_field by done.
  unfold described, built_entries, built_bootconfig. vsizes. do 2 f_equal; by case_decide.
Qed.

(** *** The sections *)

Definition padded (page : Z) (s : bytes) : bytes := resize (align page (zlen s)) x00 s.

Lemma padded_eq page s :
  0 < page < 2 ^ 32 -> zlen s < 2 ^ 33 ->
  zlen (padded page s) = align page (zlen s) /\ exists z, padded page s = s ++ z.
Proof.
  intros Hp Hs. pose proof (zlen_nonneg s). destruct (align_spec page (zlen s)); [lia..|].
  unfold padded. rewrite zlen_resize by lia. split; [done|]. rewrite resize_grow by lia. eauto.
Qed.

Lemma add_section_eq page image s :
  0 < page < 2 ^ 32 -> zlen s < 2 ^ 33 -> zlen image < 2 ^ 40 -> (page | zlen image) ->
  add_section page image s = image ++ padded page s.
Proof.
  intros Hp Hs Hi Hd. pose proof (zlen_nonneg s). pose proof (zlen_nonneg image).
  destruct (align_spec page (zlen s)); [lia..|].
  unfold add_section, padded. rewrite zlen_app, align_add by (try done; lia).
  rewrite !resize_grow by (rewrite ?zlen_app; lia). rewrite <- app_assoc. do 3 f_equal.
  rewrite zlen_app. lia.
Qed.

Lemma zlen_table es :
  zlen (concat (map build_entry es)) = zlen es * VENDOR_RAMDISK_TABLE_ENTRY_SIZE.
Proof.
  induction es as [|e es IH]; [done|]. cbn [map concat].
  rewrite zlen_app, zlen_cons, IH, zlen_build_entry. lia.
Qed.

Lemma described_typed b : builder_ok b -> header_typed (described b).
Proof.
  intros (Hp & _ & _ & _ & _ & _ & _ & Hr & Hd & Hv). unfold header_typed, described, u32, uint.
  cbn [page_size header_size version vendor_ramdisk_size dtb_size vendor_ramdisk_table_size
       vendor_ramdisk_table_entry_num bootconfig_size].
  pose proof (zlen_nonneg (b_ramdisk b)). pose proof (zlen_nonneg (b_dtb b)).
  pose proof (zlen_nonneg (b_table_entries b)). pose proof (zlen_nonneg (b_bootconfig b)).
  unfold built_entries, built_bootconfig. vsizes. case_decide as Ev.
  - destruct (Hv Ev) as (? & ? & _). split_and!; try lia; congruence.
  - split_and!; done || lia.
Qed.

(** The image, section by section. *)
Definition image_of (b : VendorBootBuilder) : bytes :=
  padded (b_page_size b) (build_header b)
  ++ padded (b_page_size b) (b_ramdisk b)
  ++ padded (b_page_size b) (b_dtb b)
  ++ padded (b_page_size b) (concat (map build_entry (built_entries b)))
  ++ padded (b_page_size b) (built_bootconfig b).

Lemma padded_nil page : 0 < page < 2 ^ 32 -> padded page [] = [].
Proof. intros Hp. unfold padded. by rewrite zlen_nil, align_zero. Qed.

(** The sizes of the sections, their alignment and the offsets of the layout. *)
Lemma built_sizes b :
  builder_ok b ->
  let page := b_page_size b in
  let o := layout (described b) in
  zlen (padded page (build_header b)) = off_ramdisk o
  /\ off_ramdisk o + zlen (padded page (b_ramdisk b)) = off_dtb o
  /\ off_dtb o + zlen (padded page (b_dtb b)) = off_table o
  /\ off_table o + zlen (padded page (concat (map build_entry (built_entries b)))) = off_bootconfig o
  /\ off_bootconfig o + zlen (padded page (built_bootconfig b)) = off_end o
  /\ (page | off_ramdisk o) /\ (page | off_dtb o) /\ (page | off_table o) /\ (page | off_bootconfig o).
Proof.
  intros Hb page o. pose proof (described_typed b Hb) as (Hp & _ & Hr & Hd & Ht & _ & Hc & _).
  unfold u32, uint in *. cbn [described page_size vendor_ramdisk_size dtb_size
    vendor_ramdisk_table_size bootconfig_size] in *. fold page in Hp.
  pose proof (header_len_bounds (b_version b)). pose proof (zlen_build_header b).
  pose proof (zlen_table (built_entries b)).
  destruct (padded_eq page (build_header b)) as [-> _]; [lia..|].
  destruct (padded_eq page (b_ramdisk b)) as [-> _]; [lia..|].
  destruct (padded_eq page (b_dtb b)) as [-> _]; [lia..|].
  destruct (padded_eq page (concat (map build_entry (built_entries b)))) as [-> _]; [lia..|].
  destruct (padded_eq page (built_bootconfig b)) as [-> _]; [lia..|].
  rewrite zlen_build_header, zlen_table. unfold o, layout, described.
  cbn [page_size header_size vendor_ramdisk_size dtb_size vendor_ramdisk_table_size bootconfig_size
       off_ramdisk off_dtb off_table off_bootconfig off_end]. fold page.
  assert (Hdiv : forall n, 0 <= n < 2 ^ 32 -> (page | align page n)).
  { intros n Hn. apply align_spec; lia. }
  split_and!; try done; repeat apply Z.divide_add_r; apply Hdiv; lia.
Qed.

Lemma build_eq b : builder_ok b -> build b = Ok (image_of b).
Proof.
  intros Hb. destruct (built_sizes b Hb) as (Z1 & Z2 & Z3 & Z4 & Z5 & D1 & D2 & D3 & D4).
  pose proof (described_typed b Hb) as Ht. pose proof (layout_ok _ Ht) as (O1 & O2 & O3 & O4 & O5 & O6).
  destruct Ht as (Hp & _ & Hr & Hd & Hts & _ & Hc & _). unfold u32, uint in *.
  cbn [described page_size header_size vendor_ramdisk_size dtb_size vendor_ramdisk_table_size
       bootconfig_size] in *.
  pose proof (header_len_bounds (b_version b)). pose proof (zlen_table (built_entries b)) as Hzt.
  unfold build, image_of. zcase; [lia|]. rewrite <- (zlen_build_header b).
  change (resize (align (b_page_size b) (zlen (build_header b))) x00 (build_header b))
    with (padded (b_page_size b) (build_header b)).
  rewrite (add_section_eq _ (padded _ (build_header b))) by (rewrite ?Z1; try done; lia).
  rewrite (add_section_eq _ (_ ++ _)) by (rewrite ?zlen_app, ?Z1, ?Z2; try done; lia).
  unfold built_entries, built_bootconfig in *. case_decide.
  - rewrite (add_section_eq _ (_ ++ padded _ (b_dtb b)))
      by (rewrite ?zlen_app, ?Z1, ?Z2, ?Z3; try done; lia).
    rewrite (add_section_eq _ (_ ++ padded _ (concat _)))
      by (rewrite ?zlen_app, ?Z1, ?Z2, ?Z3, ?Z4; try done; lia).
    by rewrite <- !app_assoc.
  - cbn [map concat]. rewrite padded_nil by lia. by rewrite !app_nil_r, <- app_assoc.
Qed.

(** A section of the built image, at its offset. *)
Lemma section_at page (pre s post : bytes) off :
  0 < page < 2 ^ 32 -> zlen s < 2 ^ 33 -> zlen pre = off ->
  @get_slice VendorBootError byte (pre ++ padded page s ++ post) off (off + zlen s) = Ok s.
Proof.
  intros Hp Hs <-. destruct (padded_eq page s Hp Hs) as [_ [z ->]].
  pose proof (zlen_nonneg pre). pose proof (zlen_nonneg s). pose proof (zlen_nonneg z).
  pose proof (zlen_nonneg post).
  rewrite get_slice_ok by (autorewrite with zlen_db; lia). rewrite <- app_assoc.
  by rewrite slice_app_here.
Qed.

Lemma ensure_section_ok data sec off size :
  off + size <= zlen data -> zlen data < 2 ^ 64 -> ensure_section data sec off size = Ok tt.
Proof. intros. unfold ensure_section, add_checked. zcase; [|lia]. cbn [res_bind]. by zcase; [lia|]. Qed.

Lemma check_layout_ok d h :
  header_typed h -> off_end (layout h) <= zlen d -> zlen d < 2 ^ 64 ->
  (version h = V4 ->
     vendor_ramdisk_table_entry_size h = VENDOR_RAMDISK_TABLE_ENTRY_SIZE
     /\ vendor_ramdisk_table_entry_num h * VENDOR_RAMDISK_TABLE_ENTRY_SIZE
        = vendor_ramdisk_table_size h) ->
  check_layout d h (layout h) = Ok tt.
Proof.
  intros Hh Hend Hd Hv4. pose proof (layout_ok h Hh) as (O1 & O2 & O3 & O4 & O5 & _).
  destruct Hh as (_ & _ & Hr & Hdt & Ht & _ & Hc & _). unfold u32, uint in *. unfold check_layout.
  rewrite !ensure_section_ok by lia. cbn [res_bind]. case_decide as Ev; [|done].
  destruct (Hv4 Ev) as [Hes Hn]. rewrite Hes, Z.eqb_refl. unfold mul_checked. rewrite Hn.
  zcase; [|lia]. cbn [res_bind]. by rewrite Z.eqb_refl.
Qed.

Lemma table_fits b : builder_ok b -> zlen (concat (map build_entry (built_entries b))) < 2 ^ 33.
Proof.
  intros Hb. rewrite zlen_table. destruct (described_typed b Hb) as (_ & _ & _ & _ & Hts & _).
  unfold u32, uint in Hts. cbn [described vendor_ramdisk_table_size] in Hts. lia.
Qed.

Lemma vendor_build_parse b :
  builder_ok b ->
  parse (image_of b) = Ok {| header := described b; data := image_of b;
                             entries := built_entries b; offsets := layout (described b) |}.
Proof.
  intros Hb. destruct (built_sizes b Hb) as (Z1 & Z2 & Z3 & Z4 & Z5 & _).
  pose proof (described_typed b Hb) as Ht. pose proof (layout_ok _ Ht) as (_ & _ & _ & _ & _ & O6).
  pose proof Hb as (Hp & _ & _ & _ & _ & _ & _ & _ & _ & Hv).
  assert (Hzi : zlen (image_of b) = off_end (layout (described b)))
    by (unfold image_of; rewrite !zlen_app, Z1; lia).
  unfold parse.
  assert (Hph : parse_header (image_of b) = Ok (described b)).
  { unfold image_of. pose proof (header_len_bounds (b_version b)). pose proof (zlen_build_header b).
    destruct (padded_eq (b_page_size b) (build_header b)) as [_ [z ->]]; [lia..|].
    rewrite <- app_assoc. by apply parse_build_header. }
  rewrite Hph. cbn [res_bind]. rewrite section_offsets_ok by done. cbn [res_bind].
  rewrite check_layout_ok; [|done|lia|lia|].
  2: { unfold described, built_entries. cbn. intros Ev. by rewrite !decide_True. }
  cbn [res_bind]. set (o := layout (described b)) in *.
  replace (Z.to_nat _) with (length (built_entries b)).
  2: { unfold described, built_entries. cbn [version vendor_ramdisk_table_entry_num].
       case_decide; [|done]. unfold zlen. by rewrite Nat2Z.id. }
  assert (Hre : read_entries (image_of b) (described b) (off_table o) (length (built_entries b)) 0 []
                = Ok (built_entries b)); [|by rewrite Hre].
  pose proof (zlen_nonneg (padded (b_page_size b) (build_header b))).
  pose proof (zlen_nonneg (padded (b_page_size b) (b_ramdisk b))).
  pose proof (zlen_nonneg (padded (b_page_size b) (b_dtb b))).
  unfold image_of. rewrite !app_assoc.
  destruct (padded_eq (b_page_size b) (concat (map build_entry (built_entries b)))) as [_ [z ->]];
    [lia|by apply table_fits|].
  rewrite <- !app_assoc. rewrite (app_assoc _ (padded _ (b_ramdisk b))), (app_assoc (_ ++ _)).
  apply (read_entries_back _ _ _ (described b) (off_table o) [] 0);
    [rewrite !zlen_app; lia|apply Ht| | |lia|lia].
  - unfold built_entries. case_decide as Ev; [by apply Hv|constructor].
  - unfold built_entries. case_decide as Ev; [by apply Hv|constructor].
Qed.

(** ** Claims *)

(** Parsing arbitrary bytes never panics. An accepted image keeps the bytes it was given,
    its sections follow each other, the ramdisk, dtb and bootconfig accessors are in range and
    return as many bytes as the header announces, the table has the announced size, its entries
    lie inside the ramdisk and have distinct names. *)
Theorem vendor_boot_parse_safe (d : bytes) :
  no_panic (parse d) /\ forall i, parse d = Ok i -> data i = d /\ image_ok i.
Proof.
  destruct (parse_cases d) as [[e He]|(i & Hi & Hd & _ & Hok)]; unfold no_panic.
  - rewrite He. by split.
  - rewrite Hi. split; [done|]. intros i' [= <-]. done.
Qed.

(** The image built from parts that fit the fields is accepted, and reading it gives the
    parts back: the header fields, ramdisk and dtb for both versions, the ramdisk table and boot
    configuration for version 4; version 3 drops the last two. *)
Theorem vendor_boot_roundtrip (b : VendorBootBuilder) :
  builder_ok b ->
  exists image i, build b = Ok image /\ parse image = Ok i /\ header i = described b
    /\ entries i = built_entries b /\ ramdisk i = Ok (b_ramdisk b) /\ dtb i = Ok (b_dtb b)
    /\ bootconfig i = Ok (built_bootconfig b).
Proof.
  intros Hb. eexists _, _. split; [by apply build_eq|]. split; [by apply vendor_build_parse|].
  destruct (built_sizes b Hb) as (Z1 & Z2 & Z3 & Z4 & _).
  destruct (described_typed b Hb) as (_ & _ & Hr & Hd & _ & _ & Hc & _). unfold u32, uint in *.
  cbn [described vendor_ramdisk_size dtb_size bootconfig_size] in *. pose proof Hb as [Hp _].
  split; [done|]. split; [done|]. unfold ramdisk, dtb, bootconfig.
  cbn [header data offsets]. unfold image_of. split_and!.
  - apply section_at; [lia..|done].
  - rewrite (app_assoc (padded _ (build_header b))). apply section_at; [lia..|].
    rewrite zlen_app. lia.
  - rewrite <- (app_nil_r (padded _ (built_bootconfig b))).
    rewrite (app_assoc (padded _ (build_header b))), (app_assoc (_ ++ _)), (app_assoc (_ ++ _)).
    apply section_at; [lia..|]. rewrite !zlen_app. lia.
Qed.

Definition sample_entry : VendorRamdiskTableEntry :=
  {| ramdisk_size := 3; ramdisk_offset := 1; ramdisk_type := 1; ramdisk_name := B "init";
     board_id := zrep 16 7 |}.
Definition sample_builder : VendorBootBuilder :=
  {| b_version := V4; b_page_size := 1000; b_kernel_addr := 5; b_ramdisk_addr := 6;
     b_cmdline := B "quiet"; b_tags_addr := 7; b_name := B "board"; b_dtb_addr := 8;
     b_ramdisk := B "ramdisk"; b_dtb := B "dtb"; b_bootconfig := B "a=b";
     b_table_entries := [sample_entry] |}.

Lemma sample_builder_ok : builder_ok sample_builder.
Proof.
  assert (He : entry_ok 7 sample_entry).
  { assert (Hw : Forall u32 (zrep 16 7)) by (apply Forall_replicate; unfold u32, uint; lia).
    unfold entry_ok, field_string. cbn [sample_entry ramdisk_size ramdisk_offset ramdisk_type
      ramdisk_name board_id]. split_and!; try exact Hw; try (unfold u32, uint; lia);
    first [reflexivity|by apply contains_false|by vm_compute]. }
  assert (Ht : Forall (entry_ok (zlen (b_ramdisk sample_builder))) [sample_entry]
               /\ NoDup (map ramdisk_name [sample_entry]))
    by (split; [by constructor|apply NoDup_singleton]).
  unfold builder_ok, field_string. cbn [sample_builder b_version b_page_size b_kernel_addr
    b_ramdisk_addr b_cmdline b_tags_addr b_name b_dtb_addr b_ramdisk b_dtb b_bootconfig
    b_table_entries].
  split_and!; try (intros _; split; [done|split; [done|exact Ht]]);
    try (unfold u32, u64, uint; lia); first [reflexivity|by apply contains_false|by vm_compute].
Qed.

Lemma vendor_boot_roundtrip_witness :
  exists image i, build sample_builder = Ok image /\ parse image = Ok i
    /\ header i = described sample_builder
    /\ entries i = built_entries sample_builder /\ ramdisk i = Ok (b_ramdisk sample_builder)
    /\ dtb i = Ok (b_dtb sample_builder) /\ bootconfig i = Ok (built_bootconfig sample_builder).
Proof. apply vendor_boot_roundtrip, sample_builder_ok. Defined.
