(* ===== verification/IndexPQ.v ===== *)
(** The indexed minimum priority queue of the mDNS back end
    ([src/crates/adb-mdns/src/index_min_pq.rs]).

    A binary heap with a map from items to their positions. Items are identified by a key (their
    [Eq]/[Hash] identity) and ordered by [cmp_attention]; pushing an item whose key is present
    replaces the stored item. The queue refines a finite map from keys to items with extraction
    of a minimum. *)
From stdpp Require Import gmap.
From S2P Require Import Prelude.

(** The trait [CompareAttention]. *)
Class CompareAttention (T : Type) := cmp_attention : T -> T -> comparison.

(** What the heap relies on: the comparison is a total preorder. *)
Class AttentionOrder (T : Type) `{CompareAttention T} := {
  attention_opp (x y : T) : cmp_attention y x = CompOpp (cmp_attention x y);
  attention_trans (x y z : T) :
    cmp_attention x y <> Gt -> cmp_attention y z <> Gt -> cmp_attention x z <> Gt;
}.

(** The identity of an item ([Hash] + [Eq]). *)
Class Keyed (T K : Type) := key_of : T -> K.

Section IndexMinPQ.
Context {T K : Type} `{Countable K} `{Keyed T K} `{CompareAttention T}.

Record IndexMinPQ := { data : list T; index : gmap K nat }.

Definition clear (q : IndexMinPQ) : IndexMinPQ := {| data := []; index := ∅ |}.
Definition new : IndexMinPQ := {| data := []; index := ∅ |}.
Definition len (q : IndexMinPQ) : nat := length (data q).
Definition peek (q : IndexMinPQ) : option T := data q !! 0%nat.

Definition parent_idx (i : nat) : option nat :=
  match i with O => None | S j => Some (j / 2)%nat end.
Definition left_child_idx (i : nat) : nat := (2 * i + 1)%nat.
Definition right_child_idx (i : nat) : nat := (2 * i + 2)%nat.
(** [self.data.len() - 1]; called on a non-empty queue only. *)
Definition last_idx (q : IndexMinPQ) : nat := (length (data q) - 1)%nat.

Definition is_less (o : comparison) : bool := match o with Lt => true | _ => false end.

(** [None] is an index out of range. *)
Definition swap (q : IndexMinPQ) (i j : nat) : option IndexMinPQ :=
  item_i ← data q !! i;
  item_j ← data q !! j;
  let index := <[key_of item_i := j]> (index q) in
  let index := <[key_of item_j := i]> index in
  Some {| data := <[j := item_i]> (<[i := item_j]> (data q)); index := index |}.

(** [idx] at least halves, so [idx + 1] iterations are enough. *)
Fixpoint swim_go (fuel : nat) (q : IndexMinPQ) (idx : nat) : option IndexMinPQ :=
  match fuel with
  | O => None
  | S fuel =>
      match parent_idx idx with
      | None => Some q
      | Some parent =>
          x ← data q !! idx;
          p ← data q !! parent;
          if negb (is_less (cmp_attention x p)) then Some q
          else q ← swap q idx parent; swim_go fuel q parent
      end
  end.
Definition swim (q : IndexMinPQ) (idx : nat) : option IndexMinPQ := swim_go (S idx) q idx.

(** The child [sink] exchanges [idx] with, or [idx] itself. *)
Definition smallest (q : IndexMinPQ) (last idx : nat) : option nat :=
  let left := left_child_idx idx in
  let right := right_child_idx idx in
  x ← data q !! idx;
  s ← (if (left <=? last)%nat then
         l ← data q !! left;
         Some (if is_less (cmp_attention l x) then left else idx)
       else Some idx);
  if (right <=? last)%nat then
    r ← data q !! right;
    y ← data q !! s;
    Some (if is_less (cmp_attention r x) && is_less (cmp_attention r y) then right else s)
  else Some s.

(** [idx] grows, so the length of the heap bounds the number of iterations. *)
Fixpoint sink_go (fuel : nat) (q : IndexMinPQ) (last idx : nat) : option IndexMinPQ :=
  match fuel with
  | O => None
  | S fuel =>
      s ← smallest q last idx;
      if negb (Nat.eqb s idx) then q ← swap q idx s; sink_go fuel q last s
      else Some q
  end.
Definition sink (q : IndexMinPQ) (idx : nat) : option IndexMinPQ :=
  sink_go (length (data q)) q (last_idx q) idx.

Definition push (q : IndexMinPQ) (item : T) : option IndexMinPQ :=
  match index q !! key_of item with
  | Some i =>
      old ← data q !! i;
      let order := cmp_attention item old in
      let q := {| data := <[i := item]> (data q); index := index q |} in
      match order with
      | Eq => Some q
      | Lt => swim q i
      | Gt => sink q i
      end
  | None =>
      let d := data q ++ [item] in
      let q := {| data := d; index := <[key_of item := (length d - 1)%nat]> (index q) |} in
      swim q (last_idx q)
  end.

Definition pop (q : IndexMinPQ) : option (option T * IndexMinPQ) :=
  match data q with
  | [] => Some (None, q)
  | _ =>
      q ← swap q 0 (last_idx q);
      item ← data q !! last_idx q;
      let q := {| data := take (last_idx q) (data q); index := delete (key_of item) (index q) |} in
      match data q with
      | [] => Some (Some item, q)
      | _ => q ← sink q 0; Some (Some item, q)
      end
  end.

(** ** The abstract map and the invariant *)

(** The item stored under a key. *)
Definition stored (q : IndexMinPQ) (k : K) : option T := index q !! k ≫= fun i => data q !! i.

(** The index records exactly the positions of the items. *)
Definition index_ok (q : IndexMinPQ) : Prop :=
  forall k i, index q !! k = Some i <-> exists x, data q !! i = Some x /\ key_of x = k.

Definition le (x y : T) : Prop := cmp_attention x y <> Gt.
(** The items at two positions are in order. *)
Definition hle (d : list T) (a b : nat) : Prop :=
  forall x y, d !! a = Some x -> d !! b = Some y -> le x y.
(** Position [j] is the parent of position [i]. *)
Definition parent (j i : nat) : Prop := i = (2 * j + 1)%nat \/ i = (2 * j + 2)%nat.

Definition heap (d : list T) : Prop := forall i j, parent j i -> hle d j i.

Definition pq_inv (q : IndexMinPQ) : Prop := index_ok q /\ heap (data q).
End IndexMinPQ.
Arguments IndexMinPQ T K {_ _}.

(** ** Lemmas *)

Section Theory.
Context {T K : Type} `{Countable K} `{Keyed T K} `{AttentionOrder T}.
Implicit Types (q : IndexMinPQ T K) (d : list T) (x y z : T) (k : K).

Lemma le_refl x : le x x.
Proof. unfold le. pose proof (attention_opp x x) as E. destruct (cmp_attention x x); simpl in *; congruence. Qed.

Lemma le_trans x y z : le x y -> le y z -> le x z.
Proof. apply attention_trans. Qed.

Lemma less_le x y : is_less (cmp_attention x y) = true -> le x y.
Proof. unfold le. intros E. destruct (cmp_attention x y); simpl in *; congruence. Qed.

Lemma not_less_le x y : is_less (cmp_attention x y) = false -> le y x.
Proof. unfold le. intros E. rewrite (attention_opp x y). destruct (cmp_attention x y); simpl in *; congruence. Qed.

Lemma less_irrefl x : is_less (cmp_attention x x) = false.
Proof. pose proof (attention_opp x x) as E. destruct (cmp_attention x x); simpl in *; congruence. Qed.

(** The exchange of two positions. *)
Definition exch (i j p : nat) : nat :=
  if decide (p = j) then i else if decide (p = i) then j else p.

Lemma exch_invol i j p : exch i j (exch i j p) = p.
Proof. unfold exch. repeat case_decide; congruence. Qed.

(** What one queue and a rearrangement of it share. *)
Record same_items q q' : Prop := {
  same_index : index_ok q';
  same_stored : forall k, stored q' k = stored q k;
  same_length : length (data q') = length (data q);
}.

Lemma same_items_trans q1 q2 q3 : same_items q1 q2 -> same_items q2 q3 -> same_items q1 q3.
Proof.
  intros [A1 A2 A3] [B1 B2 B3]. split; [done| |congruence].
  intros k. by rewrite B2.
Qed.

Lemma index_key q i x : index_ok q -> data q !! i = Some x -> index q !! key_of x = Some i.
Proof. intros Hok Hi. apply Hok. eauto. Qed.

Lemma index_unique q i j x y :
  index_ok q -> data q !! i = Some x -> data q !! j = Some y -> key_of x = key_of y -> i = j.
Proof.
  intros Hok Hi Hj E. apply index_key in Hi, Hj; [|done..]. rewrite E in Hi. congruence.
Qed.

Lemma stored_key q i x : index_ok q -> data q !! i = Some x -> stored q (key_of x) = Some x.
Proof. intros Hok Hi. unfold stored. by rewrite (index_key q i x). Qed.

Lemma swap_spec q i j :
  index_ok q -> (i < len q)%nat -> (j < len q)%nat ->
  exists q', swap q i j = Some q' /\ same_items q q' /\
    forall p, data q' !! p = data q !! exch i j p.
Proof.
  intros Hok Hi Hj. unfold len in *.
  apply lookup_lt_is_Some_2 in Hi as [x Hx], Hj as [y Hy].
  pose proof (lookup_lt_Some _ _ _ Hx) as Hi. pose proof (lookup_lt_Some _ _ _ Hy) as Hj.
  unfold swap. rewrite Hx, Hy. simpl. eexists. split; [reflexivity|].
  assert (Hd : forall p, <[j:=x]> (<[i:=y]> (data q)) !! p = data q !! exch i j p).
  { intros p. unfold exch. repeat case_decide; subst.
    - rewrite list_lookup_insert_eq; [done|]. by rewrite length_insert.
    - rewrite list_lookup_insert_ne by done. by rewrite list_lookup_insert_eq.
    - by rewrite !list_lookup_insert_ne by done. }
  assert (Hk : forall k, <[key_of y:=i]> (<[key_of x:=j]> (index q)) !! k
                         = exch i j <$> index q !! k).
  { intros k. destruct (decide (k = key_of y)) as [->|Hny].
    - rewrite lookup_insert_eq, (index_key q j y) by done. simpl. unfold exch.
      by rewrite decide_True.
    - rewrite lookup_insert_ne by done. destruct (decide (k = key_of x)) as [->|Hnx].
      + rewrite lookup_insert_eq, (index_key q i x) by done. simpl. unfold exch.
        by repeat case_decide; subst.
      + rewrite lookup_insert_ne by done. destruct (index q !! k) as [p|] eqn:E; [|done].
        apply Hok in E as (z & Hz & <-). simpl. unfold exch.
        rewrite !decide_False; [done|congruence..]. }
  split; [|exact Hd]. split; simpl.
  - intros k p. simpl. rewrite Hk, Hd. etransitivity; [|apply Hok]. split.
    + intros (p' & Hp & ->)%fmap_Some. by rewrite exch_invol.
    + intros ->. simpl. by rewrite exch_invol.
  - intros k. unfold stored. simpl. rewrite Hk. destruct (index q !! k) as [p|]; [|done].
    simpl. by rewrite Hd, exch_invol.
  - by rewrite !length_insert.
Qed.

(** *** Order at all but one position *)

(** The grandparent condition at a position: its parent is below its children. *)
Definition bridged d (idx : nat) : Prop :=
  forall p i, parent p idx -> parent idx i -> hle d p i.
(** In order but for [idx] and its parent. *)
Definition swim_inv d (idx : nat) : Prop :=
  (forall j i, parent j i -> i <> idx -> hle d j i) /\ bridged d idx.
(** In order but for [idx] and its children. *)
Definition sink_inv d (idx : nat) : Prop :=
  (forall j i, parent j i -> j <> idx -> hle d j i) /\ bridged d idx.

Lemma hle_trans d a b c x : d !! b = Some x -> hle d a b -> hle d b c -> hle d a c.
Proof. intros Hb Hab Hbc y z Hy Hz. eapply le_trans; eauto. Qed.

(** [hle] after an exchange, at the positions before it. *)
Lemma hle_exch d d' i j a b a' b' :
  (forall p, d' !! p = d !! exch i j p) -> exch i j a = a' -> exch i j b = b' ->
  hle d a' b' -> hle d' a b.
Proof. intros Hd <- <- Hh x y. rewrite !Hd. apply Hh. Qed.

Lemma parent_idx_parent i p : parent_idx i = Some p -> parent p i /\ (p < i)%nat.
Proof.
  unfold parent_idx. destruct i as [|n]; [done|]. intros Hp%(inj Some). subst p. unfold parent.
  pose proof (Nat.div_mod_eq n 2). pose proof (Nat.mod_upper_bound n 2 ltac:(lia)). lia.
Qed.

Lemma parent_unique i j j' : parent j i -> parent j' i -> j = j'.
Proof. unfold parent. lia. Qed.

Lemma parent_lt i j : parent j i -> (j < i)%nat.
Proof. unfold parent. lia. Qed.

Ltac exch_pos := unfold exch, parent in *; repeat case_decide; lia.

Lemma swim_step d d' idx p x y :
  parent p idx -> d !! idx = Some x -> d !! p = Some y -> le x y -> swim_inv d idx ->
  (forall n, d' !! n = d !! exch idx p n) -> swim_inv d' p.
Proof.
  intros Hp Hx Hy Hle [Hord Hbr] Hd.
  assert (Hxy : hle d idx p) by (intros a b; rewrite Hx, Hy; by intros [= <-] [= <-]).
  split.
  - intros j i Hji Hi. destruct (decide (i = idx)) as [->|Hni].
    + apply (hle_exch d d' idx p j idx idx p Hd); [exch_pos..|done].
    + destruct (decide (j = p)) as [->|Hjp].
      * apply (hle_exch d d' idx p p i idx i Hd); [exch_pos..|].
        apply (hle_trans d idx p i y); auto.
      * destruct (decide (j = idx)) as [->|Hjx].
        -- apply (hle_exch d d' idx p idx i p i Hd); [exch_pos..|]. by apply Hbr.
        -- apply (hle_exch d d' idx p j i j i Hd); [exch_pos..|]. by apply Hord.
  - intros pp i Hpp Hi.
    assert (hle d pp p) by (apply Hord; [done|]; unfold parent in *; lia).
    destruct (decide (i = idx)) as [->|Hni].
    + apply (hle_exch d d' idx p pp idx pp p Hd); [exch_pos..|done].
    + apply (hle_exch d d' idx p pp i pp i Hd); [exch_pos..|].
      apply (hle_trans d pp p i y); auto.
Qed.

Lemma swim_done d idx : swim_inv d idx -> (forall p, parent p idx -> hle d p idx) -> heap d.
Proof. intros [Hord _] Hi i j Hji. destruct (decide (i = idx)) as [->|]; auto. Qed.

Lemma sink_step d d' idx s y :
  parent idx s -> d !! s = Some y -> (forall i, parent idx i -> hle d s i) -> hle d s idx ->
  sink_inv d idx -> (forall n, d' !! n = d !! exch idx s n) -> sink_inv d' s.
Proof.
  intros Hs Hy Hmin Hlt [Hord Hbr] Hd. split.
  - intros j i Hji Hj. destruct (decide (j = idx)) as [->|Hjx].
    + destruct (decide (i = s)) as [->|His].
      * apply (hle_exch d d' idx s idx s s idx Hd); [exch_pos..|done].
      * apply (hle_exch d d' idx s idx i s i Hd); [exch_pos..|]. by apply Hmin.
    + destruct (decide (i = idx)) as [->|Hix].
      * apply (hle_exch d d' idx s j idx j s Hd); [exch_pos..|]. by apply Hbr.
      * apply (hle_exch d d' idx s j i j i Hd); [exch_pos..|]. by apply Hord.
  - intros p i Hp Hi. rewrite (parent_unique _ _ _ Hp Hs).
    apply (hle_exch d d' idx s idx i s i Hd); [exch_pos..|]. apply Hord; [done|].
    unfold parent in *. lia.
Qed.

Lemma sink_done d idx : sink_inv d idx -> (forall i, parent idx i -> hle d idx i) -> heap d.
Proof. intros [Hord _] Hi i j Hji. destruct (decide (j = idx)) as [->|]; auto. Qed.

Lemma swim_go_spec fuel q idx :
  index_ok q -> (idx < len q)%nat -> (idx < fuel)%nat -> swim_inv (data q) idx ->
  exists q', swim_go fuel q idx = Some q' /\ same_items q q' /\ heap (data q').
Proof.
  revert q idx. induction fuel as [|fuel IH]; intros q idx Hok Hi Hf Hinv; [lia|]. simpl.
  destruct (parent_idx idx) as [p|] eqn:Ep.
  2: { exists q. split_and!; [done|by split|]. apply (swim_done _ idx); [done|].
       intros p Hp%parent_lt. destruct idx; [lia|done]. }
  apply parent_idx_parent in Ep as [Hp Hlt]. unfold len in Hi.
  destruct (lookup_lt_is_Some_2 (data q) idx) as [x Hx]; [done|].
  destruct (lookup_lt_is_Some_2 (data q) p) as [y Hy]; [lia|].
  rewrite Hx, Hy. simpl. destruct (is_less _) eqn:El; simpl.
  - destruct (swap_spec q idx p) as (q1 & E1 & Hs1 & Hd1); [done|unfold len; lia..|].
    rewrite E1. simpl. destruct (IH q1 p) as (q2 & E2 & Hs2 & Hh).
    + apply Hs1.
    + unfold len. rewrite (same_length _ _ Hs1). lia.
    + lia.
    + eapply swim_step; [done|exact Hx|exact Hy|by apply less_le|done|exact Hd1].
    + exists q2. split_and!; [done|by eapply same_items_trans|done].
  - exists q. split_and!; [done|by split|]. apply (swim_done _ idx); [done|].
    intros p' Hp' a b Ha Hb. rewrite (parent_unique _ _ _ Hp' Hp) in Ha.
    apply not_less_le. congruence.
Qed.

Lemma hle_less q i j x y :
  data q !! i = Some x -> data q !! j = Some y -> is_less (cmp_attention x y) = true ->
  hle (data q) i j.
Proof. intros Hx Hy Hl a b. rewrite Hx, Hy. intros [= <-] [= <-]. by apply less_le. Qed.

Lemma hle_not_less q i j x y :
  data q !! i = Some x -> data q !! j = Some y -> is_less (cmp_attention y x) = false ->
  hle (data q) i j.
Proof. intros Hx Hy Hl a b. rewrite Hx, Hy. intros [= <-] [= <-]. by apply not_less_le. Qed.

Lemma hle_refl q i : hle (data q) i i.
Proof. intros x y Hx Hy. replace y with x by congruence. apply le_refl. Qed.

Lemma hle_out q i j : (len q <= j)%nat -> hle (data q) i j.
Proof. intros Hj x y _ Hy%lookup_lt_Some. unfold len in Hj. lia. Qed.

Lemma smallest_spec q idx :
  (idx < len q)%nat ->
  exists s, smallest q (last_idx q) idx = Some s /\
    (s = idx \/ parent idx s /\ (s < len q)%nat) /\ hle (data q) s idx /\
    forall i, parent idx i -> hle (data q) s i.
Proof.
  intros Hi. unfold smallest, last_idx, left_child_idx, right_child_idx.
  change (length (data q)) with (len q).
  destruct (lookup_lt_is_Some_2 (data q) idx) as [x Hx]; [exact Hi|]. rewrite Hx.
  cbn [mbind option_bind].
  assert (Hch : forall s, hle (data q) s (2 * idx + 1) -> hle (data q) s (2 * idx + 2) ->
                forall i, parent idx i -> hle (data q) s i) by (by intros s ?? i [-> | ->]).
  destruct (Nat.leb_spec (2 * idx + 1) (len q - 1)) as [Hl|Hl].
  2: { rewrite (proj2 (Nat.leb_gt (2 * idx + 2) _)) by lia. exists idx.
       split_and!; [done|by left|apply hle_refl|apply Hch; apply hle_out; lia]. }
  destruct (lookup_lt_is_Some_2 (data q) (2 * idx + 1)) as [l Hlk]; [unfold len in *; lia|].
  rewrite Hlk. cbn [mbind option_bind].
  assert (Hs : exists s y, (if is_less (cmp_attention l x) then 2 * idx + 1 else idx)%nat = s
      /\ data q !! s = Some y /\ (s = idx \/ parent idx s /\ (s < len q)%nat)
      /\ hle (data q) s idx /\ hle (data q) s (2 * idx + 1)).
  { destruct (is_less _) eqn:El.
    - exists (2 * idx + 1)%nat, l. split_and!; [done..| | |apply hle_refl].
      + right. unfold parent. lia.
      + by eapply hle_less.
    - exists idx, x. split_and!; [done..|by left|apply hle_refl|by eapply hle_not_less]. }
  destruct Hs as (s & y & -> & Hy & Hpos & Hsx & Hsl).
  destruct (Nat.leb_spec (2 * idx + 2) (len q - 1)) as [Hr|Hr].
  2: { exists s. split_and!; [done..|]. apply Hch; [done|apply hle_out; lia]. }
  destruct (lookup_lt_is_Some_2 (data q) (2 * idx + 2)) as [r Hrk]; [unfold len in *; lia|].
  rewrite Hrk, Hy. cbn [mbind option_bind].
  destruct (is_less (cmp_attention r x)) eqn:Erx, (is_less (cmp_attention r y)) eqn:Ery; cbn [andb].
  - exists (2 * idx + 2)%nat. split_and!; [done|right; unfold parent; lia|by eapply hle_less|].
    apply Hch; [|apply hle_refl]. eapply hle_trans; [exact Hy|by eapply hle_less|done].
  - exists s. split_and!; [done..|]. apply Hch; [done|by eapply hle_not_less].
  - exists s. split_and!; [done..|]. apply Hch; [done|].
    eapply hle_trans; [exact Hx|done|by eapply hle_not_less].
  - exists s. split_and!; [done..|]. apply Hch; [done|by eapply hle_not_less].
Qed.

Lemma sink_go_spec fuel q idx :
  index_ok q -> (idx < len q)%nat -> (len q <= fuel + idx)%nat -> sink_inv (data q) idx ->
  exists q', sink_go fuel q (last_idx q) idx = Some q' /\ same_items q q' /\ heap (data q').
Proof.
  revert q idx. induction fuel as [|fuel IH]; intros q idx Hok Hi Hf Hinv; [lia|]. simpl.
  destruct (smallest_spec q idx Hi) as (s & -> & Hpos & Hsx & Hmin). simpl.
  destruct (Nat.eqb_spec s idx) as [->|Hne]; simpl.
  { exists q. split_and!; [done|by split|by apply (sink_done _ idx)]. }
  destruct Hpos as [|[Hp Hs]]; [done|].
  destruct (swap_spec q idx s) as (q1 & E1 & Hs1 & Hd1); [done..|]. rewrite E1. simpl.
  pose proof (same_length _ _ Hs1) as Hl. unfold len in Hs.
  replace (last_idx q) with (last_idx q1) by (unfold last_idx; by rewrite Hl).
  destruct (lookup_lt_is_Some_2 (data q) s Hs) as [y Hy].
  destruct (IH q1 s) as (q2 & E2 & Hs2 & Hh).
  - apply Hs1.
  - unfold len. by rewrite Hl.
  - apply parent_lt in Hp. unfold len in *. lia.
  - by eapply sink_step.
  - exists q2. split_and!; [done|by eapply same_items_trans|done].
Qed.

Lemma swim_spec q idx :
  index_ok q -> (idx < len q)%nat -> swim_inv (data q) idx ->
  exists q', swim q idx = Some q' /\ same_items q q' /\ heap (data q').
Proof. intros. apply swim_go_spec; auto. Qed.

Lemma sink_spec q idx :
  index_ok q -> (idx < len q)%nat -> sink_inv (data q) idx ->
  exists q', sink q idx = Some q' /\ same_items q q' /\ heap (data q').
Proof. intros. apply sink_go_spec; auto. unfold len. lia. Qed.

(** *** The operations *)

Lemma heap_bridged d i x y :
  heap d -> d !! i = Some y -> bridged (<[i := x]> d) i.
Proof.
  intros Hh Hy p c Hp Hc a b.
  rewrite !list_lookup_insert_ne by (unfold parent in *; lia).
  apply (hle_trans d p i c y); auto.
Qed.

Lemma update_decrease d i x y :
  heap d -> d !! i = Some y -> le x y -> swim_inv (<[i := x]> d) i.
Proof.
  intros Hh Hy Hle. split; [|by eapply heap_bridged].
  intros j c Hjc Hc a b. rewrite (list_lookup_insert_ne _ _ c) by done.
  destruct (decide (j = i)) as [->|Hj].
  - rewrite list_lookup_insert_eq by (by eapply lookup_lt_Some). intros [= <-] Hb.
    eapply le_trans; [exact Hle|]. by eapply (Hh c i).
  - rewrite list_lookup_insert_ne by done. by apply Hh.
Qed.

Lemma update_increase d i x y :
  heap d -> d !! i = Some y -> le y x -> sink_inv (<[i := x]> d) i.
Proof.
  intros Hh Hy Hle. split; [|by eapply heap_bridged].
  intros j c Hjc Hj a b. rewrite (list_lookup_insert_ne _ _ j) by done.
  destruct (decide (c = i)) as [->|Hc].
  - rewrite list_lookup_insert_eq by (by eapply lookup_lt_Some). intros Ha [= <-].
    eapply le_trans; [|exact Hle]. by eapply (Hh i j).
  - rewrite list_lookup_insert_ne by done. by apply Hh.
Qed.

Lemma append_inv d x : heap d -> swim_inv (d ++ [x]) (length d).
Proof.
  intros Hh. split.
  - intros j i Hji Hi a b Ha Hb. pose proof (lookup_lt_Some _ _ _ Hb) as Hlt.
    rewrite length_app in Hlt. simpl in Hlt. pose proof (parent_lt _ _ Hji).
    rewrite lookup_app_l in Ha, Hb by lia. by eapply Hh.
  - intros p i _ Hi a b _ Hb%lookup_lt_Some. rewrite length_app in Hb. simpl in Hb.
    apply parent_lt in Hi. lia.
Qed.

Lemma heap_root d x y i : heap d -> d !! 0%nat = Some x -> d !! i = Some y -> le x y.
Proof.
  intros Hh Hx. revert y. induction i as [i IH] using lt_wf_ind. intros y Hy.
  destruct (parent_idx i) as [p|] eqn:Ep.
  - apply parent_idx_parent in Ep as [Hp Hlt].
    destruct (lookup_lt_is_Some_2 d p) as [z Hz]; [apply lookup_lt_Some in Hy; lia|].
    eapply le_trans; [by eapply IH|]. by eapply Hh.
  - destruct i; [|done]. replace y with x by congruence. apply le_refl.
Qed.

(** [stored] after one binding changes. *)
Definition stored_set (s : K -> option T) (k0 : K) (v : option T) : K -> option T :=
  fun k => if decide (k = k0) then v else s k.

Lemma update_index q i x y :
  index_ok q -> data q !! i = Some y -> key_of x = key_of y ->
  let q1 := {| data := <[i := x]> (data q); index := index q |} in
  index_ok q1 /\ forall k, stored q1 k = stored_set (stored q) (key_of x) (Some x) k.
Proof.
  intros Hok Hy Hk q1. pose proof (lookup_lt_Some _ _ _ Hy) as Hi.
  assert (Hp : forall p z, p <> i -> data q !! p = Some z -> key_of z <> key_of x).
  { intros p z Hp Hz E. apply Hp. eapply index_unique; [done..|congruence]. }
  split.
  - intros k p. simpl. etransitivity; [apply Hok|]. destruct (decide (p = i)) as [->|Hne].
    + rewrite list_lookup_insert_eq by done. naive_solver congruence.
    + by rewrite list_lookup_insert_ne by done.
  - intros k. unfold stored, stored_set. simpl. case_decide as Ek.
    + subst k. rewrite Hk, (index_key q i y) by done. simpl. by rewrite list_lookup_insert_eq.
    + destruct (index q !! k) as [p|] eqn:E; [|done]. simpl.
      apply Hok in E as (z & Hz & <-). rewrite list_lookup_insert_ne; [done|].
      intros ->. apply Ek. congruence.
Qed.

Lemma append_index q x :
  index_ok q -> index q !! key_of x = None ->
  let q1 := {| data := data q ++ [x]; index := <[key_of x := length (data q)]> (index q) |} in
  index_ok q1 /\ forall k, stored q1 k = stored_set (stored q) (key_of x) (Some x) k.
Proof.
  intros Hok Hn q1.
  assert (Hne : forall p z, data q !! p = Some z -> key_of z <> key_of x).
  { intros p z Hz E. apply index_key in Hz; [|done]. congruence. }
  split.
  - intros k p. simpl. destruct (decide (k = key_of x)) as [->|Hk].
    + rewrite lookup_insert_eq. setoid_rewrite lookup_snoc_Some. split; [naive_solver|].
      intros (z & [[_ Hz]|[-> <-]] & E); [|done]. by apply Hne in Hz.
    + rewrite lookup_insert_ne by done. etransitivity; [apply Hok|].
      setoid_rewrite lookup_snoc_Some. split.
      * intros (z & Hz & E). exists z. split; [left|done]. split; [|done].
        by eapply lookup_lt_Some.
      * naive_solver.
  - intros k. unfold stored, stored_set. simpl. case_decide as Ek.
    + subst k. rewrite lookup_insert_eq. simpl. by rewrite lookup_app_r, Nat.sub_diag by lia.
    + rewrite lookup_insert_ne by done. destruct (index q !! k) as [p|] eqn:E; [|done]. simpl.
      apply Hok in E as (z & Hz & _). rewrite lookup_app_l; [done|by eapply lookup_lt_Some].
Qed.

Lemma drop_last_index q n x :
  index_ok q -> length (data q) = S n -> data q !! n = Some x ->
  let q1 := {| data := take n (data q); index := delete (key_of x) (index q) |} in
  index_ok q1 /\ forall k, stored q1 k = stored_set (stored q) (key_of x) None k.
Proof.
  intros Hok Hl Hx q1.
  assert (Hne : forall p z, data q !! p = Some z -> (key_of z <> key_of x <-> (p < n)%nat)).
  { intros p z Hz. pose proof (lookup_lt_Some _ _ _ Hz). split.
    - intros Hk. destruct (decide (p = n)) as [->|]; [congruence|lia].
    - intros Hp E. assert (p = n) by (by eapply index_unique). lia. }
  split.
  - intros k p. simpl. setoid_rewrite lookup_delete_Some. setoid_rewrite lookup_take_Some. split.
    + intros [Hk (z & Hz & <-)%Hok]. exists z. split_and!; [done| |done].
      by apply (Hne p z).
    + intros (z & [Hz Hp] & <-). split; [|by apply index_key].
      apply not_eq_sym. by apply (Hne p z).
  - intros k. unfold stored, stored_set. simpl. case_decide as Ek.
    + subst k. by rewrite lookup_delete_eq.
    + rewrite lookup_delete_ne by done. destruct (index q !! k) as [p|] eqn:E; [|done]. simpl.
      apply Hok in E as (z & Hz & <-). rewrite lookup_take_lt; [done|]. by apply (Hne p z).
Qed.

Lemma stored_set_ext q q1 q2 k0 v :
  (forall k, stored q1 k = stored_set (stored q) k0 v k) -> same_items q1 q2 ->
  forall k, stored q2 k = stored_set (stored q) k0 v k.
Proof. intros Hs Hq k. by rewrite (same_stored _ _ Hq). Qed.

Lemma push_spec q x :
  pq_inv q ->
  exists q', push q x = Some q' /\ pq_inv q' /\
    forall k, stored q' k = stored_set (stored q) (key_of x) (Some x) k.
Proof.
  intros [Hok Hh]. unfold push. destruct (index q !! key_of x) as [i|] eqn:E.
  - apply Hok in E as (y & Hy & Hk). rewrite Hy. cbn [mbind option_bind].
    destruct (update_index q i x y) as [Hok1 Hst1]; [done..|].
    pose proof (attention_opp x y) as Hopp. set (q1 := Build_IndexMinPQ _ _) in *.
    assert (Hlt : (i < len q1)%nat)
      by (unfold len; simpl; rewrite length_insert; by eapply lookup_lt_Some).
    assert (Hswim : le x y -> swim_inv (data q1) i) by (by apply update_decrease).
    assert (Hsink : le y x -> sink_inv (data q1) i) by (by apply update_increase).
    unfold le in Hswim, Hsink. destruct (cmp_attention x y); simpl in Hopp.
    + exists q1. split_and!; [done| |done]. split; [done|]. intros c j Hjc.
      destruct (decide (c = i)) as [->|Hc]; [|by apply (proj1 (Hswim ltac:(congruence)))].
      apply (proj1 (Hsink ltac:(congruence))); [done|]. apply parent_lt in Hjc. lia.
    + destruct (swim_spec q1 i) as (q2 & E2 & Hs2 & Hh2); [done..|apply Hswim; congruence|].
      exists q2. split_and!; [done|split; [apply Hs2|done]|by eapply stored_set_ext].
    + destruct (sink_spec q1 i) as (q2 & E2 & Hs2 & Hh2); [done..|apply Hsink; congruence|].
      exists q2. split_and!; [done|split; [apply Hs2|done]|by eapply stored_set_ext].
  - assert (Hl : (length (data q ++ [x]) - 1)%nat = length (data q))
      by (rewrite length_app; simpl; lia).
    destruct (append_index q x) as [Hok1 Hst1]; [done..|]. cbn zeta. rewrite Hl.
    set (q1 := Build_IndexMinPQ _ _) in *.
    replace (last_idx q1) with (length (data q)) by (unfold last_idx; simpl; by rewrite Hl).
    destruct (swim_spec q1 (length (data q))) as (q2 & E2 & Hs2 & Hh2);
      [done|unfold len; simpl; rewrite length_app; simpl; lia|by apply append_inv|].
    exists q2. split_and!; [done|split; [apply Hs2|done]|by eapply stored_set_ext].
Qed.

(** After the exchange of the root with the last item and its removal, only the root can be
    out of order. *)
Lemma pop_sink_inv d d' n :
  heap d -> length d = S n -> (forall p, d' !! p = d !! exch 0 n p) -> sink_inv (take n d') 0.
Proof.
  intros Hh Hl Hd. split.
  - intros j i Hji Hj a b Ha Hb. apply lookup_take_Some in Ha as [Ha Hjn], Hb as [Hb Hin].
    rewrite Hd in Ha, Hb. unfold exch in Ha, Hb. apply parent_lt in Hji as Hlt.
    rewrite !decide_False in Ha by lia. rewrite !decide_False in Hb by lia. by eapply Hh.
  - intros p i Hp%parent_lt. lia.
Qed.

Lemma pop_empty q : pq_inv q -> data q = [] -> forall k, stored q k = None.
Proof.
  intros [Hok _] Hd k. unfold stored. destruct (index q !! k) as [i|]; [|done].
  simpl. by rewrite Hd.
Qed.

Lemma pop_spec q :
  pq_inv q ->
  exists q', pop q = Some (peek q, q') /\ pq_inv q' /\
    match peek q with
    | None => q' = q /\ forall k, stored q k = None
    | Some x => stored q (key_of x) = Some x
                /\ (forall k y, stored q k = Some y -> le x y)
                /\ forall k, stored q' k = stored_set (stored q) (key_of x) None k
    end.
Proof.
  intros [Hok Hh]. unfold pop, peek. destruct (data q) as [|x d] eqn:Ed.
  { exists q. simpl. split_and!; [done|by split; [|rewrite Ed]|done|].
    apply pop_empty; [|done]. split; [done|by rewrite Ed]. }
  assert (Hl : length (data q) = S (length d)) by (by rewrite Ed). rewrite <- Ed in *.
  assert (Hx : data q !! 0%nat = Some x) by (by rewrite Ed).
  replace (last_idx q) with (length d) by (unfold last_idx; lia).
  destruct (swap_spec q 0 (length d)) as (q1 & E1 & Hs1 & Hd1); [done|unfold len; lia..|].
  rewrite E1, Hx. cbn [mbind option_bind]. pose proof (same_length _ _ Hs1) as Hl1.
  replace (last_idx q1) with (length d) by (unfold last_idx; lia).
  assert (Hx1 : data q1 !! length d = Some x) by (by rewrite Hd1; unfold exch; rewrite decide_True).
  rewrite Hx1. cbn [mbind option_bind].
  destruct (drop_last_index q1 (length d) x) as [Hok2 Hst2]; [apply Hs1|congruence|done|].
  pose proof (pop_sink_inv (data q) (data q1) (length d) Hh Hl Hd1) as Hinv.
  set (q2 := Build_IndexMinPQ _ _) in *. change (take _ _) with (data q2) in Hinv.
  assert (Hpost : forall q3, same_items q2 q3 ->
    stored q (key_of x) = Some x /\ (forall k y, stored q k = Some y -> le x y) /\
    forall k, stored q3 k = stored_set (stored q) (key_of x) None k).
  { intros q3 Hs3. split_and!; [by eapply stored_key| |].
    - intros k y Hk. unfold stored in Hk. apply bind_Some in Hk as (i & _ & Hi).
      by eapply heap_root.
    - intros k. rewrite (same_stored _ _ Hs3), Hst2. unfold stored_set.
      by case_decide; [|apply (same_stored _ _ Hs1)]. }
  destruct (data q2) as [|z d2] eqn:Ed2.
  - exists q2. split; [done|]. split; [split; [done|by rewrite Ed2]|by apply Hpost].
  - destruct (sink_spec q2 0) as (q3 & E3 & Hs3 & Hh3);
      [done|unfold len; rewrite Ed2; simpl; lia|by rewrite Ed2|].
    rewrite E3. exists q3. split; [done|]. split; [split; [apply Hs3|done]|by apply Hpost].
Qed.
End Theory.

(** ** Refinement of a priority map *)

Section Refinement.
Context {T K : Type} `{Countable K} `{Keyed T K} `{AttentionOrder T}.

Inductive pq_op := OpPush (x : T) | OpPop | OpPeek | OpClear.

(** One call of the queue: what it returns and the queue after it; [None] is a panic. *)
Definition pq_exec (q : IndexMinPQ T K) (o : pq_op) : option (option T * IndexMinPQ T K) :=
  match o with
  | OpPush x => q ← push q x; Some (None, q)
  | OpPop => pop q
  | OpPeek => Some (peek q, q)
  | OpClear => Some (None, clear q)
  end.

Fixpoint pq_run (q : IndexMinPQ T K) (ops : list pq_op) :
    option (list (option T) * IndexMinPQ T K) :=
  match ops with
  | [] => Some ([], q)
  | o :: ops => '(r, q) ← pq_exec q o; '(rs, q) ← pq_run q ops; Some (r :: rs, q)
  end.

(** [x] is a minimum of the map. *)
Definition is_min (m : gmap K T) (x : T) : Prop :=
  m !! key_of x = Some x /\ forall k y, m !! k = Some y -> le x y.

(** The contract: a map from keys to items, extraction of a minimum. *)
Inductive map_step : gmap K T -> pq_op -> option T -> gmap K T -> Prop :=
  | step_push m x : map_step m (OpPush x) None (<[key_of x := x]> m)
  | step_pop m x : is_min m x -> map_step m OpPop (Some x) (delete (key_of x) m)
  | step_pop_empty : map_step ∅ OpPop None ∅
  | step_peek m x : is_min m x -> map_step m OpPeek (Some x) m
  | step_peek_empty : map_step ∅ OpPeek None ∅
  | step_clear m : map_step m OpClear None ∅.

Inductive map_run : gmap K T -> list pq_op -> list (option T) -> gmap K T -> Prop :=
  | run_nil m : map_run m [] [] m
  | run_cons m o r m1 ops rs m2 :
      map_step m o r m1 -> map_run m1 ops rs m2 -> map_run m (o :: ops) (r :: rs) m2.

(** The queue represents the map. *)
Definition represents (q : IndexMinPQ T K) (m : gmap K T) : Prop :=
  pq_inv q /\ forall k, stored q k = m !! k.

Lemma represents_new q : data q = [] -> index q = ∅ -> represents q ∅.
Proof.
  intros Hd Hi. split; [split|].
  - intros k i. rewrite Hi, Hd, lookup_empty. naive_solver.
  - intros i j _ x y. rewrite Hd. done.
  - intros k. unfold stored. by rewrite Hi, !lookup_empty.
Qed.

Lemma represents_empty q m :
  represents q m -> (forall k, stored q k = None) -> m = ∅.
Proof. intros [_ Hm] Hn. apply map_empty. intros k. by rewrite <- Hm. Qed.

Lemma stored_set_map (q : IndexMinPQ T K) (m : gmap K T) (k0 : K) (v : option T) :
  (forall k, stored q k = m !! k) ->
  forall k, stored_set (stored q) k0 v k
            = match v with Some x => <[k0 := x]> m | None => delete k0 m end !! k.
Proof.
  intros Hm k. unfold stored_set. case_decide as E.
  - subst. destruct v; [by rewrite lookup_insert_eq|by rewrite lookup_delete_eq].
  - destruct v; [rewrite lookup_insert_ne by done|rewrite lookup_delete_ne by done]; done.
Qed.

Lemma represents_key q m k x : represents q m -> m !! k = Some x -> key_of x = k.
Proof.
  intros [[Hok _] Hm] Hk. rewrite <- Hm in Hk. apply bind_Some in Hk as (i & Hi & Hx).
  apply Hok in Hi as (y & Hy & <-). congruence.
Qed.

(** The items of the queue are those of the map. *)
Lemma represents_items q m x : represents q m -> (x ∈ data q <-> m !! key_of x = Some x).
Proof.
  intros [[Hok Hh] Hm]. rewrite <- Hm, list_elem_of_lookup. split.
  - intros [i Hi]. by eapply stored_key.
  - intros (i & _ & Hi)%bind_Some. eauto.
Qed.

Lemma represents_push q m x :
  represents q m -> exists q', push q x = Some q' /\ represents q' (<[key_of x := x]> m).
Proof.
  intros [Hinv Hm]. destruct (push_spec q x Hinv) as (q' & E & Hi & Hs). exists q'.
  split; [done|]. split; [done|]. intros k. rewrite Hs. by apply (stored_set_map q m _ (Some x)).
Qed.

(** Taking the first item: the map is empty, or a minimum of it is returned and removed. *)
Lemma represents_pop q m :
  represents q m ->
  (m = ∅ /\ peek q = None /\ pop q = Some (None, q)) \/
  exists x q', peek q = Some x /\ pop q = Some (Some x, q') /\ is_min m x
    /\ represents q' (delete (key_of x) m).
Proof.
  intros Hr. pose proof Hr as [Hinv Hm]. destruct (pop_spec q Hinv) as (qp & Ep & Hip & Hp).
  destruct (peek q) as [x|].
  - right. destruct Hp as (Hx & Hmin & Hs). exists x, qp. split; [done|]. split; [done|]. split.
    + split; [by rewrite <- Hm|]. intros k y. rewrite <- Hm. apply Hmin.
    + split; [done|]. intros k. rewrite Hs. by apply (stored_set_map q m _ None).
  - left. destruct Hp as [-> Hn]. split; [|done]. by eapply represents_empty.
Qed.

Lemma pq_exec_sim q m o :
  represents q m ->
  exists r q' m', pq_exec q o = Some (r, q') /\ map_step m o r m' /\ represents q' m'.
Proof.
  intros Hr. destruct (represents_pop q m Hr) as [(-> & Hpk & Hpop)|(x & qp & Hpk & Hpop & Hmin & Hrp)].
  all: destruct o as [y| | |]; simpl; rewrite ?Hpk, ?Hpop.
  1, 5: destruct (represents_push q _ y Hr) as (q' & -> & Hq'); simpl;
    eexists _, _, _; (split; [done|]); split; [constructor|done].
  all: eexists _, _, _; (split; [done|]); (split; [by constructor|]).
  all: done || by apply represents_new.
Qed.

Lemma pq_run_sim q m ops :
  represents q m ->
  exists rs q' m', pq_run q ops = Some (rs, q') /\ map_run m ops rs m' /\ represents q' m'.
Proof.
  revert q m. induction ops as [|o ops IH]; intros q m Hr.
  - exists [], q, m. repeat split; [constructor|apply Hr..].
  - destruct (pq_exec_sim q m o Hr) as (r & q1 & m1 & E1 & Hs1 & Hr1).
    destruct (IH q1 m1 Hr1) as (rs & q2 & m2 & E2 & Hs2 & Hr2).
    exists (r :: rs), q2, m2. simpl. rewrite E1. simpl. rewrite E2. simpl.
    split; [done|]. split; [by econstructor|done].
Qed.

(** C21: for a total preorder of urgency, any sequence of pushes, pops, peeks and clears on a
    new queue runs to the end without an index out of range, and its results are those of a map
    from identities to items from which a minimum is extracted: a push under a present identity
    replaces the item and no other. *)
Theorem pq_refines (ops : list pq_op) :
  exists rs q m, pq_run new ops = Some (rs, q) /\ map_run ∅ ops rs m /\ represents q m.
Proof. by apply pq_run_sim, represents_new. Qed.
End Refinement.
Arguments pq_op : clear implicits.

(** Items with a key and an urgency. *)
Module Tasks.
#[local] Instance task_cmp : CompareAttention (nat * Z) := fun x y => (x.2 ?= y.2)%Z.
#[local] Instance task_key : Keyed (nat * Z) nat := fst.
#[local] Instance task_order : AttentionOrder (nat * Z).
Proof.
  split; unfold cmp_attention, task_cmp; intros.
  - apply Z.compare_antisym.
  - rewrite Z.compare_le_iff in *. lia.
Qed.

Definition ops : list (pq_op (nat * Z)) :=
  [OpPush (1%nat, 5); OpPush (2%nat, 3); OpPush (3%nat, 4); OpPush (1%nat, 1); OpPush (2%nat, 9);
   OpPeek; OpPop; OpPop; OpPop; OpPop].

Example ops_result :
  fst <$> pq_run new ops =
  Some [None; None; None; None; None; Some (1%nat, 1); Some (1%nat, 1); Some (3%nat, 4);
        Some (2%nat, 9); None].
Proof. vm_compute. reflexivity. Qed.

Lemma pq_refines_witness :
  exists rs q m, pq_run new ops = Some (rs, q) /\ map_run ∅ ops rs m /\ represents q m.
Proof. apply pq_refines. Defined.
End Tasks.
