(* ===== verification/MdnsStore.v ===== *)
(** The record store of the mDNS back end ([src/crates/adb-mdns/src/rr.rs] and
    [src/crates/adb-mdns/src/store.rs]).

    Received resource records are kept in five tables; [snapshot] joins them into the list of
    reachable services. The store refines one finite map from record slots to contents. Records
    are also the items of the attention list, an [IndexMinPQ] ordered by time. *)
From stdpp Require Import gmap.
From S2P Require Import Prelude Text IndexPQ.

(** ** Records *)

Record ServiceTypeWithLocal := { stwl_name : bytes }.

Record FQServiceName := {
  instance_name : bytes;
  service_type : bytes;
  service_type_with_local : ServiceTypeWithLocal;
  local_domain : bytes;
}.

#[export] Instance stwl_eq_dec : EqDecision ServiceTypeWithLocal.
Proof. solve_decision. Defined.
#[export] Instance stwl_countable : Countable ServiceTypeWithLocal.
Proof. by apply (inj_countable' stwl_name Build_ServiceTypeWithLocal); intros []. Defined.

#[export] Instance fqsn_eq_dec : EqDecision FQServiceName.
Proof. solve_decision. Defined.
#[export] Instance fqsn_countable : Countable FQServiceName.
Proof.
  by apply (inj_countable'
    (fun f => (instance_name f, service_type f, service_type_with_local f, local_domain f))
    (fun '(a, b, c, d) => Build_FQServiceName a b c d)); intros [].
Defined.

(** [FQServiceName::new] *)
Definition fq_new (instance_name service_type domain : bytes) : FQServiceName :=
  {| instance_name := instance_name;
     service_type_with_local := {| stwl_name := service_type ++ B "." ++ domain |};
     service_type := service_type;
     local_domain := domain |}.

Definition fq_name (f : FQServiceName) : bytes :=
  instance_name f ++ B "." ++ service_type f ++ B "." ++ local_domain f.

(** The standard library's addresses, as their 32- and 128-bit values. *)
Definition Ipv4Addr := Z.
Definition Ipv6Addr := Z.
#[export] Instance ipv4_eq_dec : EqDecision Ipv4Addr := Z.eq_dec.
#[export] Instance ipv4_countable : Countable Ipv4Addr := Z_countable.
#[export] Instance ipv6_eq_dec : EqDecision Ipv6Addr := Z.eq_dec.
#[export] Instance ipv6_countable : Countable Ipv6Addr := Z_countable.

Abbreviation TxtAttributes := (gmap bytes bytes).

Inductive RRPayload :=
  | A (name : bytes) (addr : Ipv4Addr)
  | AAAA (name : bytes) (addr : Ipv6Addr)
  | SRV (name : FQServiceName) (target : bytes) (port : Z)
  | TXT (name : FQServiceName) (attributes : TxtAttributes)
  | PTR (name : bytes) (pointer : FQServiceName).

(** [PartialEq for RRPayload]: the identity of a record leaves out the contents of SRV and TXT
    records and the name of PTR records. *)
Definition payload_eq (p q : RRPayload) : bool :=
  match p, q with
  | A name addr, A other_name other_addr =>
      bool_decide (name = other_name) && bool_decide (addr = other_addr)
  | AAAA name addr, AAAA other_name other_addr =>
      bool_decide (name = other_name) && bool_decide (addr = other_addr)
  | SRV name _ _, SRV other_name _ _ => bool_decide (name = other_name)
  | TXT name _, TXT other_name _ => bool_decide (name = other_name)
  | PTR _ pointer, PTR _ other_pointer => bool_decide (pointer = other_pointer)
  | _, _ => false
  end.

(** What [Hash for RRPayload] feeds to the hasher: the tag and the identifying fields. *)
Inductive RRKey :=
  | KA (name : bytes) (addr : Ipv4Addr)
  | KAAAA (name : bytes) (addr : Ipv6Addr)
  | KSRV (name : FQServiceName)
  | KTXT (name : FQServiceName)
  | KPTR (pointer : FQServiceName).

Definition payload_key (p : RRPayload) : RRKey :=
  match p with
  | A name addr => KA name addr
  | AAAA name addr => KAAAA name addr
  | SRV name _ _ => KSRV name
  | TXT name _ => KTXT name
  | PTR _ pointer => KPTR pointer
  end.

#[export] Instance rrkey_eq_dec : EqDecision RRKey.
Proof. solve_decision. Defined.
#[export] Instance rrkey_countable : Countable RRKey.
Proof.
  by apply (inj_countable'
    (fun k => match k with
              | KA n a => inl (inl (n, a)) | KAAAA n a => inl (inr (n, a))
              | KSRV f => inr (inl f) | KTXT f => inr (inr (inl f)) | KPTR f => inr (inr (inr f))
              end)
    (fun e => match e with
              | inl (inl (n, a)) => KA n a | inl (inr (n, a)) => KAAAA n a
              | inr (inl f) => KSRV f | inr (inr (inl f)) => KTXT f | inr (inr (inr f)) => KPTR f
              end)); intros [].
Defined.

Inductive RRLifecycle := Created | Probed80 | Probed85 | Probed90 | Probed95.

(** Instants and durations in nanoseconds. *)
Record RR := {
  attention_needed_on : Z;
  created_on : Z;
  ttl : Z;
  lifecycle_state : RRLifecycle;
  payload : RRPayload;
}.

#[export] Instance rr_cmp_attention : CompareAttention RR :=
  fun self other => (attention_needed_on self ?= attention_needed_on other)%Z.
#[export] Instance rr_keyed : Keyed RR RRKey := fun r => payload_key (payload r).

(** [PartialEq for RR] *)
Definition rr_eq (r s : RR) : bool := payload_eq (payload r) (payload s).

(** ** The store *)

Record Store := {
  ptrs : gset FQServiceName;
  srvs : gmap bytes (bytes * Z);
  ipv4s : gmap bytes (gset Ipv4Addr);
  ipv6s : gmap bytes (gset Ipv6Addr);
  txts : gmap bytes TxtAttributes;
}.

Definition store_new : Store := {| ptrs := ∅; srvs := ∅; ipv4s := ∅; ipv6s := ∅; txts := ∅ |}.
Definition store_clear (s : Store) : Store :=
  {| ipv6s := ∅; ipv4s := ∅; txts := ∅; srvs := ∅; ptrs := ∅ |}.

Record InstanceDetails := {
  hostname : bytes;
  port : Z;
  det_ipv4s : gset Ipv4Addr;
  det_ipv6s : gset Ipv6Addr;
  txt : TxtAttributes;
}.
#[export] Instance instance_details_eq_dec : EqDecision InstanceDetails.
Proof. solve_decision. Defined.
Abbreviation Services := (gmap FQServiceName InstanceDetails).

Section Addresses.
Context {I : Type} `{Countable I}.

(** The sum of the sizes of the address sets. *)
Definition addr_count (m : gmap bytes (gset I)) : nat :=
  map_fold (fun _ set l => (l + size set)%nat) 0%nat m.

(** [entry(name).or_default()] followed by an insertion. *)
Definition addr_add (m : gmap bytes (gset I)) (name : bytes) (addr : I) : gmap bytes (gset I) :=
  <[name := {[addr]} ∪ default ∅ (m !! name)]> m.

Definition addr_remove (m : gmap bytes (gset I)) (name : bytes) (addr : I) :
    gmap bytes (gset I) :=
  if bool_decide (m !! name = None) then m
  else
    let set := default ∅ (m !! name) ∖ {[addr]} in
    let m := <[name := set]> m in
    if bool_decide (set = ∅) then delete name m else m.

(** The copy of an address set into the details of an instance. *)
Definition addr_copy (m : gmap bytes (gset I)) (target : bytes) : gset I :=
  match m !! target with
  | Some set => fold_left (fun acc e => {[e]} ∪ acc) (elements set) ∅
  | None => ∅
  end.
End Addresses.

Definition store_len (s : Store) : nat :=
  let l := (size (ptrs s) + size (srvs s) + size (txts s))%nat in
  (l + addr_count (ipv4s s) + addr_count (ipv6s s))%nat.

(** The body of the loop of [snapshot]; [None] is [continue]. *)
Definition instance_details (s : Store) (instance_fq : FQServiceName) : option InstanceDetails :=
  '(target, port) ← srvs s !! fq_name instance_fq;
  let v4 := addr_copy (ipv4s s) target in
  let v6 := addr_copy (ipv6s s) target in
  if bool_decide (v4 = ∅) && bool_decide (v6 = ∅) then None
  else Some {| port := port; hostname := target; det_ipv4s := v4; det_ipv6s := v6;
               txt := match txts s !! fq_name instance_fq with Some t => t | None => ∅ end |}.

Definition snapshot (s : Store) : Services :=
  fold_left
    (fun services instance_fq =>
       match instance_details s instance_fq with
       | Some details => <[instance_fq := details]> services
       | None => services
       end) (elements (ptrs s)) ∅.

Definition store_add (s : Store) (rr : RRPayload) : Store :=
  match rr with
  | A name addr =>
      {| ptrs := ptrs s; srvs := srvs s; ipv4s := addr_add (ipv4s s) name addr;
         ipv6s := ipv6s s; txts := txts s |}
  | AAAA name addr =>
      {| ptrs := ptrs s; srvs := srvs s; ipv4s := ipv4s s;
         ipv6s := addr_add (ipv6s s) name addr; txts := txts s |}
  | SRV name target port =>
      {| ptrs := ptrs s; srvs := <[fq_name name := (target, port)]> (srvs s);
         ipv4s := ipv4s s; ipv6s := ipv6s s; txts := txts s |}
  | TXT name attributes =>
      {| ptrs := ptrs s; srvs := srvs s; ipv4s := ipv4s s; ipv6s := ipv6s s;
         txts := <[fq_name name := attributes]> (txts s) |}
  | PTR _ pointer =>
      {| ptrs := {[pointer]} ∪ ptrs s; srvs := srvs s; ipv4s := ipv4s s; ipv6s := ipv6s s;
         txts := txts s |}
  end.

Definition store_remove (s : Store) (rr : RRPayload) : Store :=
  match rr with
  | A name addr =>
      {| ptrs := ptrs s; srvs := srvs s; ipv4s := addr_remove (ipv4s s) name addr;
         ipv6s := ipv6s s; txts := txts s |}
  | AAAA name addr =>
      {| ptrs := ptrs s; srvs := srvs s; ipv4s := ipv4s s;
         ipv6s := addr_remove (ipv6s s) name addr; txts := txts s |}
  | SRV name _ _ =>
      {| ptrs := ptrs s; srvs := delete (fq_name name) (srvs s);
         ipv4s := ipv4s s; ipv6s := ipv6s s; txts := txts s |}
  | TXT name _ =>
      {| ptrs := ptrs s; srvs := srvs s; ipv4s := ipv4s s; ipv6s := ipv6s s;
         txts := delete (fq_name name) (txts s) |}
  | PTR _ pointer =>
      {| ptrs := ptrs s ∖ {[pointer]}; srvs := srvs s; ipv4s := ipv4s s; ipv6s := ipv6s s;
         txts := txts s |}
  end.

(** ** The contract: one map from slots to contents *)

(** Where the store keeps a record. SRV and TXT records are kept under the text of their
    name. *)
Inductive Slot :=
  | SlotA (name : bytes) (addr : Ipv4Addr)
  | SlotAAAA (name : bytes) (addr : Ipv6Addr)
  | SlotSRV (name : bytes)
  | SlotTXT (name : bytes)
  | SlotPTR (pointer : FQServiceName).

#[export] Instance slot_eq_dec : EqDecision Slot.
Proof. solve_decision. Defined.
#[export] Instance slot_countable : Countable Slot.
Proof.
  by apply (inj_countable'
    (fun k => match k with
              | SlotA n a => inl (inl (n, a)) | SlotAAAA n a => inl (inr (n, a))
              | SlotSRV f => inr (inl f) | SlotTXT f => inr (inr (inl f))
              | SlotPTR f => inr (inr (inr f))
              end)
    (fun e => match e with
              | inl (inl (n, a)) => SlotA n a | inl (inr (n, a)) => SlotAAAA n a
              | inr (inl f) => SlotSRV f | inr (inr (inl f)) => SlotTXT f
              | inr (inr (inr f)) => SlotPTR f
              end)); intros [].
Defined.

Inductive Content := Present | Target (target : bytes) (port : Z) | Attributes (a : TxtAttributes).

Definition slot (p : RRPayload) : Slot :=
  match p with
  | A name addr => SlotA name addr
  | AAAA name addr => SlotAAAA name addr
  | SRV name _ _ => SlotSRV (fq_name name)
  | TXT name _ => SlotTXT (fq_name name)
  | PTR _ pointer => SlotPTR pointer
  end.

Definition content (p : RRPayload) : Content :=
  match p with
  | SRV _ target port => Target target port
  | TXT _ attributes => Attributes attributes
  | _ => Present
  end.

(** What the store holds in a slot. *)
Definition present (b : bool) : option Content := if b then Some Present else None.
Definition get (s : Store) (k : Slot) : option Content :=
  match k with
  | SlotA name addr => present (bool_decide (addr ∈ default ∅ (ipv4s s !! name)))
  | SlotAAAA name addr => present (bool_decide (addr ∈ default ∅ (ipv6s s !! name)))
  | SlotSRV name => (fun '(target, port) => Target target port) <$> srvs s !! name
  | SlotTXT name => Attributes <$> txts s !! name
  | SlotPTR pointer => present (bool_decide (pointer ∈ ptrs s))
  end.

Section AddressTheory.
Context {I : Type} `{Countable I}.
Implicit Types (m : gmap bytes (gset I)) (n : bytes) (a : I).

(** No host is listed without an address. *)
Definition no_empty m : Prop := forall n, m !! n <> Some ∅.
(** The addresses of a host. *)
Definition addrs m n : gset I := default ∅ (m !! n).

Lemma addrs_insert m n n' (v : gset I) :
  addrs (<[n := v]> m) n' = if decide (n' = n) then v else addrs m n'.
Proof.
  unfold addrs. case_decide; subst; [by rewrite lookup_insert_eq|by rewrite lookup_insert_ne].
Qed.

Lemma addrs_delete m n n' : addrs (delete n m) n' = if decide (n' = n) then ∅ else addrs m n'.
Proof.
  unfold addrs. case_decide; subst; [by rewrite lookup_delete_eq|by rewrite lookup_delete_ne].
Qed.

Lemma addrs_add m n a n' :
  addrs (addr_add m n a) n' = if decide (n' = n) then {[a]} ∪ addrs m n else addrs m n'.
Proof. apply addrs_insert. Qed.

Lemma addrs_remove m n a n' :
  addrs (addr_remove m n a) n' = if decide (n' = n) then addrs m n ∖ {[a]} else addrs m n'.
Proof.
  unfold addr_remove. case_bool_decide as En.
  - case_decide; subst; [|done]. unfold addrs. rewrite En. simpl. set_solver.
  - case_bool_decide as Ee.
    + rewrite addrs_delete, addrs_insert. by case_decide; subst.
    + apply addrs_insert.
Qed.

Lemma no_empty_empty : no_empty ∅.
Proof. intros n. by rewrite lookup_empty. Qed.

Lemma no_empty_add m n a : no_empty m -> no_empty (addr_add m n a).
Proof.
  intros Hm n' E. unfold addr_add in E. apply lookup_insert_Some in E as [[_ E]|[_ E]].
  - set_solver.
  - by eapply Hm.
Qed.

Lemma no_empty_remove m n a : no_empty m -> no_empty (addr_remove m n a).
Proof.
  intros Hm n' E. unfold addr_remove in E. case_bool_decide; [by eapply Hm|].
  case_bool_decide as Ee.
  - apply lookup_delete_Some in E as [Hne E]. rewrite lookup_insert_ne in E by done. by eapply Hm.
  - apply lookup_insert_Some in E as [[_ E]|[_ E]]; [done|by eapply Hm].
Qed.

Lemma addr_count_insert m n v :
  m !! n = None -> addr_count (<[n := v]> m) = (addr_count m + size v)%nat.
Proof. intros Hn. unfold addr_count. rewrite map_fold_insert_L; [done|lia|done]. Qed.

Lemma addr_count_split m n : addr_count m = (addr_count (delete n m) + size (addrs m n))%nat.
Proof.
  unfold addrs. destruct (m !! n) as [v|] eqn:E.
  - rewrite <- (insert_delete_id m n v) at 1 by done.
    by rewrite addr_count_insert by apply lookup_delete_eq.
  - rewrite delete_id by done. change (default ∅ None) with (∅ : gset I). rewrite size_empty. lia.
Qed.

Lemma addr_count_update m n (v : gset I) :
  addr_count (<[n := v]> m) = (addr_count (delete n m) + size v)%nat.
Proof.
  rewrite (addr_count_split _ n), addrs_insert, decide_True by done.
  by rewrite delete_insert_eq.
Qed.

Lemma addr_count_add m n a :
  addr_count (addr_add m n a)
  = if bool_decide (a ∈ addrs m n) then addr_count m else S (addr_count m).
Proof.
  unfold addr_add. rewrite addr_count_update, (addr_count_split m n). fold (addrs m n).
  case_bool_decide as E.
  - by replace ({[a]} ∪ addrs m n) with (addrs m n) by set_solver.
  - rewrite size_union, size_singleton by set_solver. lia.
Qed.

Lemma addr_count_remove m n a :
  addr_count (addr_remove m n a)
  = if bool_decide (a ∈ addrs m n) then (addr_count m - 1)%nat else addr_count m.
Proof.
  rewrite (addr_count_split (addr_remove _ _ _) n), (addr_count_split m n).
  rewrite addrs_remove, decide_True by done.
  replace (delete n (addr_remove m n a)) with (delete n m).
  - case_bool_decide as E.
    + rewrite size_difference, size_singleton by set_solver.
      assert (size (addrs m n) <> 0%nat) by (rewrite size_non_empty_iff; set_solver). lia.
    + by replace (addrs m n ∖ {[a]}) with (addrs m n) by set_solver.
  - unfold addr_remove. case_bool_decide; [done|].
    case_bool_decide; by rewrite ?delete_delete_eq, delete_insert_eq.
Qed.

Lemma addr_copy_eq m n : addr_copy m n = addrs m n.
Proof.
  unfold addr_copy, addrs. destruct (m !! n) as [v|]; [|done]. simpl.
  assert (Hgo : forall (l : list I) (acc : gset I),
             fold_left (fun acc e => {[e]} ∪ acc) l acc = list_to_set l ∪ acc).
  { induction l as [|e l IH]; intros acc; simpl; [set_solver|]. rewrite IH. set_solver. }
  rewrite Hgo. rewrite list_to_set_elements_L. set_solver.
Qed.
End AddressTheory.

Definition store_inv (s : Store) : Prop := no_empty (ipv4s s) /\ no_empty (ipv6s s).

Lemma present_addrs {I} `{Countable I} (m : gmap bytes (gset I)) n a :
  present (bool_decide (a ∈ default ∅ (m !! n))) = present (bool_decide (a ∈ addrs m n)).
Proof. done. Qed.

(** Decide a slot equality and the membership tests it leaves. *)
Ltac slot_cases :=
  repeat case_decide; simplify_eq; try done;
  repeat first [progress unfold present | case_bool_decide]; try done; set_solver.

Lemma get_add s p k :
  get (store_add s p) k = if decide (k = slot p) then Some (content p) else get s k.
Proof.
  destruct p, k; simpl; rewrite ?present_addrs, ?addrs_add; try slot_cases;
    case_decide; simplify_eq; rewrite ?lookup_insert_eq, ?lookup_insert_ne by congruence; done.
Qed.

Lemma get_remove s p k :
  get (store_remove s p) k = if decide (k = slot p) then None else get s k.
Proof.
  destruct p, k; simpl; rewrite ?present_addrs, ?addrs_remove; try slot_cases;
    case_decide; simplify_eq; rewrite ?lookup_delete_eq, ?lookup_delete_ne by congruence; done.
Qed.

Lemma store_inv_add s p : store_inv s -> store_inv (store_add s p).
Proof. intros []. destruct p; split; simpl; by try apply no_empty_add. Qed.

Lemma store_inv_remove s p : store_inv s -> store_inv (store_remove s p).
Proof. intros []. destruct p; split; simpl; by try apply no_empty_remove. Qed.

Lemma len_add s p :
  store_len (store_add s p)
  = match get s (slot p) with Some _ => store_len s | None => S (store_len s) end.
Proof.
  unfold store_len. destruct p; simpl; rewrite ?present_addrs, ?addr_count_add, ?map_size_insert.
  - case_bool_decide; simpl; lia.
  - case_bool_decide; simpl; lia.
  - destruct (srvs s !! fq_name name) as [[]|]; simpl; lia.
  - destruct (txts s !! fq_name name); simpl; lia.
  - case_bool_decide; simpl.
    + replace ({[pointer]} ∪ ptrs s) with (ptrs s) by set_solver. lia.
    + rewrite size_union, size_singleton by set_solver. lia.
Qed.

Lemma size_remove_mem {A} `{Countable A} (X : gset A) x :
  x ∈ X -> size X = S (size (X ∖ {[x]})).
Proof.
  intros Hx. rewrite size_difference, size_singleton by set_solver.
  assert (size X <> 0%nat) by (rewrite size_non_empty_iff; set_solver). lia.
Qed.

Lemma addr_count_pos {I} `{Countable I} (m : gmap bytes (gset I)) n a :
  a ∈ addrs m n -> addr_count m <> 0%nat.
Proof.
  intros Ha. rewrite (addr_count_split m n), (size_remove_mem _ a) by done. lia.
Qed.

Lemma len_remove s p :
  store_len (store_remove s p)
  = match get s (slot p) with Some _ => (store_len s - 1)%nat | None => store_len s end.
Proof.
  unfold store_len.
  destruct p; simpl; rewrite ?present_addrs, ?addr_count_remove, ?map_size_delete.
  - case_bool_decide as E; simpl; [|lia]. apply addr_count_pos in E. lia.
  - case_bool_decide as E; simpl; [|lia]. apply addr_count_pos in E. lia.
  - destruct (srvs s !! fq_name name) as [[]|] eqn:E; simpl; [|lia].
    assert (size (srvs s) <> 0%nat) by (rewrite map_size_non_empty_iff; intros Z0; by rewrite Z0 in E).
    lia.
  - destruct (txts s !! fq_name name) eqn:E; simpl; [|lia].
    assert (size (txts s) <> 0%nat) by (rewrite map_size_non_empty_iff; intros Z0; by rewrite Z0 in E).
    lia.
  - case_bool_decide as E; simpl.
    + rewrite (size_remove_mem (ptrs s) pointer) by done. lia.
    + replace (ptrs s ∖ {[pointer]}) with (ptrs s) by set_solver. lia.
Qed.

(** *** Refinement *)

Inductive store_op := SAdd (p : RRPayload) | SRemove (p : RRPayload) | SClear.

Definition store_step (s : Store) (o : store_op) : Store :=
  match o with
  | SAdd p => store_add s p
  | SRemove p => store_remove s p
  | SClear => store_clear s
  end.

Definition slot_step (m : gmap Slot Content) (o : store_op) : gmap Slot Content :=
  match o with
  | SAdd p => <[slot p := content p]> m
  | SRemove p => delete (slot p) m
  | SClear => ∅
  end.

Definition store_sim (s : Store) (m : gmap Slot Content) : Prop :=
  (forall k, get s k = m !! k) /\ store_len s = size m /\ store_inv s.

Lemma store_sim_empty : store_sim store_new ∅.
Proof.
  split_and!.
  - by intros [].
  - reflexivity.
  - split; apply no_empty_empty.
Qed.

Lemma store_sim_step s m o : store_sim s m -> store_sim (store_step s o) (slot_step m o).
Proof.
  intros (Hg & Hl & Hi). destruct o as [p|p|]; [| |apply store_sim_empty]; split_and!; simpl.
  - intros k. rewrite get_add. case_decide; subst.
    + by rewrite lookup_insert_eq.
    + by rewrite lookup_insert_ne.
  - rewrite len_add, Hg, map_size_insert, Hl. by destruct (m !! slot p).
  - by apply store_inv_add.
  - intros k. rewrite get_remove. case_decide; subst.
    + by rewrite lookup_delete_eq.
    + by rewrite lookup_delete_ne.
  - rewrite len_remove, Hg, map_size_delete, Hl.
    destruct (m !! slot p); simpl; [by rewrite Nat.sub_1_r|done].
  - by apply store_inv_remove.
Qed.

(** C27: after any sequence of additions, removals and clears, the five tables of the store hold
    in each slot what the last operation on the slot left there, [len] counts the slots in use,
    and no host is kept with an empty address set. *)
Theorem store_refines (ops : list store_op) :
  let s := fold_left store_step ops store_new in
  let m := fold_left slot_step ops ∅ in
  (forall k, get s k = m !! k) /\ store_len s = size m /\ store_inv s.
Proof.
  enough (H : forall s m, store_sim s m ->
            store_sim (fold_left store_step ops s) (fold_left slot_step ops m))
    by apply H, store_sim_empty.
  induction ops as [|o ops IH]; intros s m Hs; [done|]. by apply IH, store_sim_step.
Qed.

(** *** The snapshot *)

Lemma instance_details_iff s f d :
  instance_details s f = Some d <->
  srvs s !! fq_name f = Some (hostname d, port d)
  /\ det_ipv4s d = addrs (ipv4s s) (hostname d)
  /\ det_ipv6s d = addrs (ipv6s s) (hostname d)
  /\ ~ (det_ipv4s d = ∅ /\ det_ipv6s d = ∅)
  /\ txt d = default ∅ (txts s !! fq_name f).
Proof.
  unfold instance_details. rewrite <- !addr_copy_eq.
  destruct (srvs s !! fq_name f) as [[t p]|]; simpl; [|naive_solver]. split.
  - case_bool_decide as E4; case_bool_decide as E6; simpl; try done;
      intros [= <-]; simpl; naive_solver.
  - intros ([= -> ->] & H4 & H6 & Hne & Ht). rewrite <- H4, <- H6.
    destruct d as [h q v4 v6 tx]; simpl in *. subst tx.
    case_bool_decide; case_bool_decide; simpl; naive_solver.
Qed.

Lemma snapshot_fold s (l : list FQServiceName) (m : Services) f d :
  (forall g, g ∈ l -> m !! g = None) -> NoDup l ->
  fold_left (fun services g => match instance_details s g with
                               | Some det => <[g := det]> services | None => services end) l m
    !! f = Some d
  <-> m !! f = Some d \/ f ∈ l /\ instance_details s f = Some d.
Proof.
  revert m. induction l as [|g l IH]; intros m Hm Hnd; simpl.
  { split; [by left|]. intros [?|[Hin _]]; [done|set_solver]. }
  apply list.NoDup_cons in Hnd as [Hg Hnd].
  assert (Hgn : m !! g = None) by (apply Hm; set_solver).
  rewrite IH; [|intros h Hh; destruct (instance_details s g)|done].
  - rewrite elem_of_cons. destruct (instance_details s g) as [det|] eqn:E.
    + rewrite lookup_insert_Some. naive_solver.
    + naive_solver.
  - rewrite lookup_insert_ne by (intros ->; done). apply Hm. set_solver.
  - apply Hm. set_solver.
Qed.

(** The snapshot lists a service exactly when it is pointed to, has an SRV record and its
    target has an address, with the target, port, address sets and attributes the store
    holds; a missing TXT record gives empty attributes. *)
Theorem snapshot_iff s f d :
  snapshot s !! f = Some d <->
  f ∈ ptrs s
  /\ srvs s !! fq_name f = Some (hostname d, port d)
  /\ det_ipv4s d = addrs (ipv4s s) (hostname d)
  /\ det_ipv6s d = addrs (ipv6s s) (hostname d)
  /\ ~ (det_ipv4s d = ∅ /\ det_ipv6s d = ∅)
  /\ txt d = default ∅ (txts s !! fq_name f).
Proof.
  unfold snapshot. rewrite snapshot_fold.
  - rewrite elem_of_elements, instance_details_iff, lookup_empty. naive_solver.
  - intros g _. apply lookup_empty.
  - apply NoDup_elements.
Qed.

(** ** The attention list *)

#[export] Instance rr_order : AttentionOrder RR.
Proof.
  split; unfold cmp_attention, rr_cmp_attention; intros.
  - apply Z.compare_antisym.
  - rewrite Z.compare_le_iff in *. lia.
Qed.

Lemma payload_eq_key p q : payload_eq p q = true <-> payload_key p = payload_key q.
Proof.
  destruct p, q; simpl; try done; rewrite ?andb_true_iff, ?bool_decide_eq_true; naive_solver.
Qed.

(** Records of one identity share their slot. *)
Lemma key_slot p q : payload_key p = payload_key q -> slot p = slot q.
Proof. destruct p, q; simpl; naive_solver. Qed.
