(* ===== verification/ZeroConfig.v ===== *)
(** The zero-config engine of the mDNS back end ([src/crates/adb-mdns/src/zero_config.rs], with
    the timed part of [rr.rs]): it feeds received records to the store and the attention queue,
    expires and probes them as time passes, and reports the services that appear, change and
    disappear.

    Times are computed in [f64] by the source; [f64] here is the standard library's executable
    model of IEEE 754 numbers. The DNS message library is the class [Dns]. *)
From stdpp Require Import gmap.
From Stdlib Require Import SpecFloat.
From S2P Require Import Prelude Text IndexPQ MdnsStore.

(** ** Durations in floating point *)

Definition f64 := spec_float.
Definition f64_add : f64 -> f64 -> f64 := SFadd 53 1024.
Definition f64_mul : f64 -> f64 -> f64 := SFmul 53 1024.
Definition f64_div : f64 -> f64 -> f64 := SFdiv 53 1024.
(** [n as f64], and the literal nearest to [n / d]. *)
Definition f64_of_Z (n : Z) : f64 := binary_normalize 53 1024 n 0 false.
Definition f64_lit (n d : Z) : f64 := f64_div (f64_of_Z n) (f64_of_Z d).

Definition NANOS_PER_SEC : Z := 1000000000.

(** [Duration::from_secs], [Duration::as_secs_f64]. *)
Definition from_secs (s : Z) : Z := s * NANOS_PER_SEC.
Definition as_secs_f64 (d : Z) : f64 :=
  f64_add (f64_of_Z (d / NANOS_PER_SEC))
    (f64_div (f64_of_Z (d mod NANOS_PER_SEC)) (f64_of_Z NANOS_PER_SEC)).

(** [n / d] rounded to the nearest integer, ties to even. *)
Definition round_half_even (n d : Z) : Z :=
  let q := n / d in
  let r := n mod d in
  match (2 * r ?= d)%Z with
  | Lt => q
  | Gt => q + 1
  | Eq => if Z.even q then q else q + 1
  end.

(** [Duration::from_secs_f64]; [None] is its panic on a negative, infinite or too large value. *)
Definition from_secs_f64 (f : f64) : option Z :=
  match f with
  | S754_zero _ => Some 0
  | S754_finite false m e =>
      let nanos := if 0 <=? e then Zpos m * 2 ^ e * NANOS_PER_SEC
                   else round_half_even (Zpos m * NANOS_PER_SEC) (2 ^ (- e)) in
      if nanos <? 2 ^ 64 * NANOS_PER_SEC then Some nanos else None
  | _ => None
  end.

(** [duration_since] and [-] of instants, which saturate at zero. *)
Definition since (later earlier : Z) : Z := Z.max 0 (later - earlier).

Definition next_ttl_fraction (s : RRLifecycle) : f64 :=
  match s with
  | Created => f64_lit 80 100
  | Probed80 => f64_lit 85 100
  | Probed85 => f64_lit 90 100
  | Probed90 => f64_lit 95 100
  | Probed95 => f64_lit 1 1
  end.

(** [RR::new] *)
Definition rr_new (now ttl : Z) (p : RRPayload) : option RR :=
  let state := Created in
  let duration_next_attention := f64_mul (as_secs_f64 ttl) (next_ttl_fraction state) in
  d ← from_secs_f64 duration_next_attention;
  Some {| created_on := now; ttl := ttl; lifecycle_state := state;
          attention_needed_on := now + d; payload := p |}.

(** What the engine does with a record that needs attention at [now]: [Some None] removes it,
    [Some (Some r)] probes it and schedules it again. *)
Definition lifecycle_fraction (now : Z) (element : RR) : f64 :=
  f64_div (as_secs_f64 (since now (created_on element))) (as_secs_f64 (ttl element)).

Definition next_lifecycle_state (fraction : f64) : option RRLifecycle :=
  if SFleb (f64_lit 95 100) fraction then Some Probed95
  else if SFleb (f64_lit 90 100) fraction then Some Probed90
  else if SFleb (f64_lit 85 100) fraction then Some Probed85
  else if SFleb (f64_lit 80 100) fraction then Some Probed80
  else None.

Definition attend (now : Z) (element : RR) : option (option RR) :=
  let fraction := lifecycle_fraction now element in
  if negb (SFleb (f64_lit 0 1) fraction && SFltb fraction (f64_lit 1 1)) then Some None
  else match next_lifecycle_state fraction with
       | None => Some None
       | Some state =>
           d ← from_secs_f64 (f64_mul (as_secs_f64 (ttl element)) (next_ttl_fraction state));
           Some (Some {| attention_needed_on := created_on element + d;
                         created_on := created_on element; ttl := ttl element;
                         lifecycle_state := state; payload := payload element |})
       end.

(** ** The DNS message library *)

Inductive RRType := TypeA | TypeAAAA | TypeSRV | TypeTXT | TypePTR.

#[export] Instance rrtype_eq_dec : EqDecision RRType.
Proof. solve_decision. Defined.

Class Dns := {
  QTYPE : Type;
  QCLASS : Type;
  #[global] qtype_eq_dec :: EqDecision QTYPE;
  QTYPE_ANY : QTYPE;
  QTYPE_TYPE : RRType -> QTYPE;
  QCLASS_ANY : QCLASS;
  Name : Type;
  get_labels : Name -> list bytes;
  name_to_string : Name -> bytes;
}.

Section ZeroConfig.
Context `{Dns}.

Record Question := { qname : Name; question_qtype : QTYPE }.

Inductive RData :=
  | RPtr (ptr : Name)
  | RSrv (target : Name) (srv_port : Z)
  | RA (address : Ipv4Addr)
  | RAaaa (address : Ipv6Addr)
  | RTxt (attributes : gmap bytes (option bytes))
  | ROther.

Record ResourceRecord := { rec_name : Name; rec_ttl : Z; rdata : RData }.

Record DnsQuery := { query_name : bytes; qtype : QTYPE; qclass : QCLASS }.

Inductive ZeroConfigCommand :=
  | DnsQueries (questions : list DnsQuery)
  | CreateService (instance_name service_type hostname : bytes) (ipv4s : gset Ipv4Addr)
      (ipv6s : gset Ipv6Addr) (port : Z) (txt : TxtAttributes)
  | UpdateService (instance_name service_type hostname : bytes) (ipv4s : gset Ipv4Addr)
      (ipv6s : gset Ipv6Addr) (port : Z) (txt : TxtAttributes)
  | DeleteService (instance_name service_type : bytes)
  | Restart.

Definition try_from_name (name : Name) : option FQServiceName :=
  match get_labels name with
  | [instance_name; service; protocol; domain] =>
      Some (fq_new instance_name (service ++ B "." ++ protocol) domain)
  | _ => None
  end.

Definition TLS_CONNECT_SERVICE : bytes := B "_adb-tls-connect._tcp".
Definition TLS_PAIRING_SERVICE : bytes := B "_adb-tls-pairing._tcp".
Definition TCP_CONNECT_SERVICE : bytes := B "_adb._tcp".
Definition TRACKER_SERVICE_REFRESH_INTERVAL : Z := from_secs 120.

Record TrackedService := { service_name : bytes; local : bytes; next_query_time : Z }.

Definition tracked_new (service_name local : bytes) (now : Z) : TrackedService :=
  {| service_name := service_name; local := local; next_query_time := now |}.
Definition tracked_refresh (t : TrackedService) (now : Z) : TrackedService :=
  {| service_name := service_name t; local := local t;
     next_query_time := now + TRACKER_SERVICE_REFRESH_INTERVAL |}.
Definition tracked_reset (t : TrackedService) (now : Z) : TrackedService :=
  {| service_name := service_name t; local := local t; next_query_time := now |}.
Definition tracked_into (t : TrackedService) : ServiceTypeWithLocal :=
  {| stwl_name := service_name t ++ B "." ++ local t |}.

Record ZeroConfig := {
  commands : list ZeroConfigCommand;
  tracked_services : gmap ServiceTypeWithLocal TrackedService;
  attention_list : IndexMinPQ RR RRKey;
  store : Store;
  now : Z;
  last_snap_shot : Services;
  periodic_refresh : bool;
  question_requests : list DnsQuery;
}.

(** Field updates. *)
Definition with_commands (z : ZeroConfig) v := {| commands := v;
  tracked_services := tracked_services z; attention_list := attention_list z; store := store z;
  now := now z; last_snap_shot := last_snap_shot z; periodic_refresh := periodic_refresh z;
  question_requests := question_requests z |}.
Definition with_tracked (z : ZeroConfig) v := {| commands := commands z;
  tracked_services := v; attention_list := attention_list z; store := store z;
  now := now z; last_snap_shot := last_snap_shot z; periodic_refresh := periodic_refresh z;
  question_requests := question_requests z |}.
Definition with_records (z : ZeroConfig) q s := {| commands := commands z;
  tracked_services := tracked_services z; attention_list := q; store := s;
  now := now z; last_snap_shot := last_snap_shot z; periodic_refresh := periodic_refresh z;
  question_requests := question_requests z |}.
Definition with_snapshot (z : ZeroConfig) c v := {| commands := c;
  tracked_services := tracked_services z; attention_list := attention_list z; store := store z;
  now := now z; last_snap_shot := v; periodic_refresh := periodic_refresh z;
  question_requests := question_requests z |}.
Definition with_questions (z : ZeroConfig) v := {| commands := commands z;
  tracked_services := tracked_services z; attention_list := attention_list z; store := store z;
  now := now z; last_snap_shot := last_snap_shot z; periodic_refresh := periodic_refresh z;
  question_requests := v |}.
Definition set_time (z : ZeroConfig) (t : Z) := {| commands := commands z;
  tracked_services := tracked_services z; attention_list := attention_list z; store := store z;
  now := t; last_snap_shot := last_snap_shot z; periodic_refresh := periodic_refresh z;
  question_requests := question_requests z |}.
Definition set_periodic_refresh (z : ZeroConfig) (b : bool) := {| commands := commands z;
  tracked_services := tracked_services z; attention_list := attention_list z; store := store z;
  now := now z; last_snap_shot := last_snap_shot z; periodic_refresh := b;
  question_requests := question_requests z |}.

Definition track_service (z : ZeroConfig) (service : bytes) : ZeroConfig :=
  let tracked_service := tracked_new service (B "local") (now z) in
  with_tracked z (<[tracked_into tracked_service := tracked_service]> (tracked_services z)).

(** [ZeroConfig::new], with the instant it is called at. *)
Definition zc_new (t : Z) : ZeroConfig :=
  let z := {| commands := []; tracked_services := ∅; attention_list := IndexPQ.new;
              store := store_new; now := t; last_snap_shot := ∅; periodic_refresh := false;
              question_requests := [] |} in
  let z := track_service z TLS_CONNECT_SERVICE in
  let z := track_service z TLS_PAIRING_SERVICE in
  track_service z TCP_CONNECT_SERVICE.

Definition on_start (z : ZeroConfig) : ZeroConfig :=
  with_tracked z ((fun s => tracked_reset s (now z)) <$> tracked_services z).

Definition tick_tracker_services (z : ZeroConfig) : ZeroConfig :=
  if negb (periodic_refresh z) then z
  else fold_left (fun z '(name, service) =>
         if now z <? next_query_time service then z
         else
           let z := with_tracked z (<[name := tracked_refresh service (now z)]> (tracked_services z)) in
           with_questions z (question_requests z ++
             [{| query_name := stwl_name name; qtype := QTYPE_ANY; qclass := QCLASS_ANY |}]))
         (map_to_list (tracked_services z)) z.

(** [None] is a panic of the queue. *)
Definition add_rr (z : ZeroConfig) (rr : RR) : option ZeroConfig :=
  q ← push (attention_list z) rr;
  Some (with_records z q (store_add (store z) (payload rr))).

Definition process_query (z : ZeroConfig) (query : Question) : ZeroConfig :=
  if decide (question_qtype query <> QTYPE_ANY) then z
  else
    let name := {| stwl_name := name_to_string (qname query) |} in
    match tracked_services z !! name with
    | Some service =>
        with_tracked z (<[name := tracked_refresh service (now z)]> (tracked_services z))
    | None => z
    end.
Definition process_queries (z : ZeroConfig) (queries : list Question) : ZeroConfig :=
  fold_left process_query queries z.

Definition is_tracked (z : ZeroConfig) (f : FQServiceName) : bool :=
  bool_decide (is_Some (tracked_services z !! service_type_with_local f)).

(** The payload a record contributes; [None] leaves it out. *)
Definition record_payload (z : ZeroConfig) (record : ResourceRecord) : option RRPayload :=
  match rdata record with
  | RPtr ptr =>
      pointer ← try_from_name ptr;
      if is_tracked z pointer then Some (PTR (name_to_string (rec_name record)) pointer) else None
  | RSrv target port =>
      name ← try_from_name (rec_name record);
      if is_tracked z name then Some (SRV name (name_to_string target) port) else None
  | RA address => Some (A (name_to_string (rec_name record)) address)
  | RAaaa address => Some (AAAA (name_to_string (rec_name record)) address)
  | RTxt attributes =>
      let attributes := default [] <$> attributes in
      name ← try_from_name (rec_name record);
      if is_tracked z name then Some (TXT name attributes) else None
  | ROther => None
  end.

Fixpoint process_records (z : ZeroConfig) (records : list ResourceRecord) : option ZeroConfig :=
  match records with
  | [] => Some z
  | record :: records =>
      match record_payload z record with
      | None => process_records z records
      | Some p =>
          rr ← rr_new (now z) (from_secs (rec_ttl record)) p;
          z ← add_rr z rr;
          process_records z records
      end
  end.

Definition push_records (z : ZeroConfig) (questions : list Question)
    (answers additional nameserver : list ResourceRecord) : option ZeroConfig :=
  let z := process_queries z questions in
  process_records z (answers ++ additional ++ nameserver).

(** The commands for the services of the new snapshot, and for those that are gone. *)
Definition diff_service (last : Services) (sd : FQServiceName * InstanceDetails) :
    list ZeroConfigCommand :=
  let '(service, details) := sd in
  match last !! service with
  | None =>
      [CreateService (instance_name service) (service_type service) (hostname details)
         (det_ipv4s details) (det_ipv6s details) (port details) (txt details)]
  | Some other =>
      if bool_decide (details <> other) then
        [UpdateService (instance_name service) (service_type service) (hostname details)
           (det_ipv4s details) (det_ipv6s details) (port details) (txt details)]
      else []
  end.

Definition diff_deleted (snapshot : Services) (sd : FQServiceName * InstanceDetails) :
    list ZeroConfigCommand :=
  if bool_decide (snapshot !! sd.1 = None)
  then [DeleteService (instance_name sd.1) (service_type sd.1)] else [].

Definition diff_commands (last snapshot : Services) : list ZeroConfigCommand :=
  concat (map (diff_service last) (map_to_list snapshot))
  ++ concat (map (diff_deleted snapshot) (map_to_list last)).

Definition create_diff_commands (z : ZeroConfig) : ZeroConfig :=
  let snap := snapshot (store z) in
  with_snapshot z (commands z ++ diff_commands (last_snap_shot z) snap) snap.

Definition convert_dns_query_to_command (z : ZeroConfig) : ZeroConfig :=
  match question_requests z with
  | [] => z
  | qs => with_questions (with_commands z (commands z ++ [DnsQueries qs])) []
  end.

Definition query_text (p : RRPayload) : bytes :=
  match p with
  | A name _ => name
  | AAAA name _ => name
  | SRV name _ _ => fq_name name
  | TXT name _ => fq_name name
  | PTR name _ => name
  end.
Definition query_type (p : RRPayload) : RRType :=
  match p with
  | A _ _ => TypeA | AAAA _ _ => TypeAAAA | SRV _ _ _ => TypeSRV | TXT _ _ => TypeTXT
  | PTR _ _ => TypePTR
  end.
Definition create_query_for_record (z : ZeroConfig) (rr : RR) : ZeroConfig :=
  with_questions z (question_requests z ++
    [{| query_name := query_text (payload rr); qtype := QTYPE_TYPE (query_type (payload rr));
        qclass := QCLASS_ANY |}]).

(** The loop of [tick] over the records that need attention; [None] is a panic or the end of
    the fuel. *)
Fixpoint tick_loop (fuel : nat) (z : ZeroConfig) : option ZeroConfig :=
  match fuel with
  | O => None
  | S fuel =>
      match peek (attention_list z) with
      | None => Some z
      | Some attention_element =>
          if now z <? attention_needed_on attention_element then Some z
          else
            '(popped, q) ← pop (attention_list z);
            element ← popped;
            next ← attend (now z) element;
            match next with
            | None => tick_loop fuel (with_records z q (store_remove (store z) (payload element)))
            | Some rr =>
                let z := create_query_for_record z rr in
                q ← push q rr;
                tick_loop fuel (with_records z q (store z))
            end
      end
  end.

Definition calculate_next_attention_duration (z : ZeroConfig) : Z :=
  let duration := match peek (attention_list z) with
                  | Some rr => since (attention_needed_on rr) (now z)
                  | None => from_secs 60
                  end in
  if negb (periodic_refresh z) then duration
  else match (map_to_list (tracked_services z)).*2 with
       | [] => duration
       | s :: services =>
           let first := fold_left (fun t s => Z.min t (next_query_time s)) services (next_query_time s) in
           let next_service_duration := since first (now z) in
           if next_service_duration <? duration then next_service_duration else duration
       end.

Definition tick (fuel : nat) (z : ZeroConfig) : option (list ZeroConfigCommand * Z * ZeroConfig) :=
  z ← tick_loop fuel z;
  let z := create_diff_commands z in
  let z := tick_tracker_services z in
  let z := convert_dns_query_to_command z in
  Some (commands z, calculate_next_attention_duration z, with_commands z []).

Definition on_stop (fuel : nat) (z : ZeroConfig) : option (list ZeroConfigCommand * ZeroConfig) :=
  let z := with_records z (IndexPQ.clear (attention_list z)) (store_clear (store z)) in
  '(cmds, _, z) ← tick fuel z;
  Some (cmds, z).
End ZeroConfig.

(** ** Expiry *)

Section Theory.
Context `{Dns}.
Implicit Types (z : ZeroConfig) (m : gmap RRKey RR) (r x : RR).

(** A record needs attention at [t]. *)
Definition due (t : Z) (r : RR) : Prop := attention_needed_on r <= t.

(** Attending the record at [t] schedules it at or before [t] again, or panics. *)
Definition stuck (t : Z) (r : RR) : Prop :=
  match attend t r with
  | Some None => False
  | Some (Some r') => due t r'
  | None => True
  end.

Lemma attend_same t r r' :
  attend t r = Some (Some r') -> payload r' = payload r /\ attend t r' = attend t r.
Proof.
  intros E. assert (Hr : payload r' = payload r /\ created_on r' = created_on r /\ ttl r' = ttl r).
  { unfold attend in E. destruct (negb _); [done|]. destruct (next_lifecycle_state _); [|done].
    apply bind_Some in E as (d & _ & E). by simplify_eq. }
  destruct Hr as (Hp & Hc & Ht). split; [done|].
  unfold attend, lifecycle_fraction. by rewrite Hc, Ht, Hp.
Qed.

Lemma attend_key t r r' : attend t r = Some (Some r') -> key_of r' = key_of r.
Proof. intros [Hp _]%attend_same. unfold key_of, rr_keyed. by rewrite Hp. Qed.

Lemma min_due m x t k r : is_min m x -> m !! k = Some r -> due t r -> due t x.
Proof.
  intros [_ Hmin] Hr Hd. specialize (Hmin k r Hr). unfold le, due in *.
  unfold cmp_attention, rr_cmp_attention in Hmin. rewrite Z.compare_le_iff in Hmin. lia.
Qed.

(** One round of the loop on a queue that represents a map. *)
Inductive round z m : option (option (ZeroConfig * gmap RRKey RR)) -> Prop :=
  | round_idle : (forall k r, m !! k = Some r -> ~ due (now z) r) -> round z m None
  | round_panic k x : m !! k = Some x -> due (now z) x -> attend (now z) x = None ->
      round z m (Some None)
  | round_expire x q : is_min m x -> due (now z) x -> attend (now z) x = Some None ->
      represents q (delete (key_of x) m) ->
      round z m (Some (Some (with_records z q (store_remove (store z) (payload x)),
                             delete (key_of x) m)))
  | round_probe x x' q : is_min m x -> due (now z) x -> attend (now z) x = Some (Some x') ->
      represents q (<[key_of x := x']> (delete (key_of x) m)) ->
      round z m (Some (Some (with_records (create_query_for_record z x') q (store z),
                             <[key_of x := x']> (delete (key_of x) m)))).

Lemma tick_round z m :
  represents (attention_list z) m ->
  exists o, round z m o /\
    forall fuel, tick_loop (S fuel) z =
      match o with
      | None => Some z
      | Some None => None
      | Some (Some (z', _)) => tick_loop fuel z'
      end.
Proof.
  intros Hr. destruct (represents_pop _ _ Hr) as [(-> & Hpk & Hpop)|(x & q & Hpk & Hpop & Hmin & Hq)].
  { exists None. split; [constructor; by intros k r Hk; rewrite lookup_empty in Hk|].
    intros fuel. cbn [tick_loop]. by rewrite Hpk. }
  destruct (Z.ltb_spec (now z) (attention_needed_on x)) as [Hlt|Hge].
  { exists None. split.
    - constructor. intros k r Hk Hd. pose proof (min_due m x _ k r Hmin Hk Hd). unfold due in *. lia.
    - intros fuel. cbn [tick_loop]. rewrite Hpk. by rewrite (proj2 (Z.ltb_lt _ _) Hlt). }
  destruct (attend (now z) x) as [[x'|]|] eqn:Ea.
  - destruct (represents_push q _ x' Hq) as (q' & Hpush & Hq').
    rewrite (attend_key _ _ _ Ea) in Hq'. eexists (Some (Some (_, _))).
    split; [eapply round_probe; eauto|]. intros fuel. cbn [tick_loop]. rewrite Hpk.
    rewrite (proj2 (Z.ltb_ge _ _) Hge), Hpop. cbn [mbind option_bind]. rewrite Ea.
    cbn [mbind option_bind]. rewrite Hpush. cbn [mbind option_bind]. reflexivity.
  - eexists (Some (Some (_, _))). split; [eapply round_expire; eauto|].
    intros fuel. cbn [tick_loop]. rewrite Hpk, (proj2 (Z.ltb_ge _ _) Hge), Hpop.
    cbn [mbind option_bind]. rewrite Ea. reflexivity.
  - exists (Some None). split; [by eapply round_panic; [apply Hmin| |]|].
    intros fuel. cbn [tick_loop]. rewrite Hpk, (proj2 (Z.ltb_ge _ _) Hge), Hpop.
    cbn [mbind option_bind]. by rewrite Ea.
Qed.

(** A stuck record keeps the loop from returning, whatever the fuel. *)
Lemma tick_stuck fuel z m k r :
  represents (attention_list z) m -> m !! k = Some r -> due (now z) r -> stuck (now z) r ->
  tick_loop fuel z = None.
Proof.
  revert z m k r. induction fuel as [|fuel IH]; intros z m k r Hr Hk Hd Hs; [done|].
  destruct (tick_round z m Hr) as (o & Ho & ->).
  pose proof (represents_key _ _ _ _ Hr Hk) as Hkr. destruct Ho as
    [Hidle|kx x Hx Hdx Ha|x q Hmin Hdx Ha Hq|x x' q Hmin Hdx Ha Hq]; [|done| |].
  - by exfalso; apply (Hidle k r).
  - apply (IH _ (delete (key_of x) m) k r); [done| |done|done].
    rewrite lookup_delete_ne; [done|]. intros Ek. destruct Hmin as [Hx _]. rewrite Ek, Hk in Hx.
    simplify_eq. unfold stuck in Hs. by rewrite Ha in Hs.
  - destruct (decide (key_of x = k)) as [Ek|Hne].
    + destruct Hmin as [Hx _]. rewrite Ek, Hk in Hx. injection Hx as <-.
      destruct (attend_same _ _ _ Ha) as [_ Ha']. unfold stuck in Hs. rewrite Ha in Hs.
      apply (IH _ (<[key_of r := x']> (delete (key_of r) m)) k x'); [done| |done|].
      * rewrite Ek. apply lookup_insert_eq.
      * unfold stuck. cbn [now with_records create_query_for_record with_questions].
        rewrite Ha', Ha. done.
    + apply (IH _ (<[key_of x := x']> (delete (key_of x) m)) k r); [done| |done|done].
      by rewrite lookup_insert_ne, lookup_delete_ne.
Qed.

(** The records that need attention at [t]. *)
Definition due_map (t : Z) m : gmap RRKey RR := filter (fun kr => attention_needed_on kr.2 <= t) m.

Lemma due_map_lookup t m k r : due_map t m !! k = Some r <-> m !! k = Some r /\ due t r.
Proof. apply map_lookup_filter_Some. Qed.

Lemma due_map_remove t m x n :
  m !! key_of x = Some x -> due t x -> (size (due_map t m) <= S n)%nat ->
  (size (due_map t (delete (key_of x) m)) <= n)%nat.
Proof.
  intros Hx Hd Hn. unfold due_map. rewrite map_filter_delete.
  assert (Hf : due_map t m !! key_of x = Some x) by (by apply due_map_lookup).
  rewrite map_size_delete_Some by eauto. unfold due_map in Hn. lia.
Qed.

Lemma due_map_insert t m k x :
  ~ due t x -> m !! k = None -> due_map t (<[k := x]> m) = due_map t m.
Proof. intros Hd Hk. unfold due_map. apply map_filter_insert_not'; [done|]. intros y. by rewrite Hk. Qed.

Lemma tick_progress n z m :
  represents (attention_list z) m -> (size (due_map (now z) m) <= n)%nat ->
  (forall k r, m !! k = Some r -> due (now z) r -> ~ stuck (now z) r) ->
  exists z', tick_loop (S n) z = Some z'.
Proof.
  revert z m. induction n as [|n IH]; intros z m Hr Hn Hs;
    destruct (tick_round z m Hr) as (o & Ho & ->); destruct Ho as
    [Hidle|kx x Hx Hdx Ha|x q Hmin Hdx Ha Hq|x x' q Hmin Hdx Ha Hq]; try by eauto.
  all: try (exfalso; apply (Hs kx x Hx Hdx); unfold stuck; by rewrite Ha).
  all: pose proof Hmin as [Hx _].
  all: try (exfalso; assert (Hf : due_map (now z) m !! key_of x = Some x) by (by apply due_map_lookup);
            apply Nat.le_0_r, map_size_empty_inv in Hn; rewrite Hn in Hf; done).
  - apply (IH _ (delete (key_of x) m)); [done|by apply due_map_remove|].
    intros k r [_ Hk]%lookup_delete_Some. by apply Hs with k.
  - assert (Hnd : ~ due (now z) x').
    { intros Hd'. apply (Hs _ _ Hx Hdx). unfold stuck. by rewrite Ha. }
    apply (IH _ (<[key_of x := x']> (delete (key_of x) m))); [done| |].
    + cbn [now with_records create_query_for_record with_questions].
      rewrite due_map_insert; [by apply due_map_remove|done|apply lookup_delete_eq].
    + intros k r [[<- <-]|[_ [_ Hk]%lookup_delete_Some]]%lookup_insert_Some Hd; [done|].
      by apply Hs with k.
Qed.

(** The loop returns with nothing due and the clock as it was. *)
Lemma tick_loop_post fuel z z' m :
  represents (attention_list z) m -> tick_loop fuel z = Some z' ->
  now z' = now z /\ exists m', represents (attention_list z') m' /\
    forall k r, m' !! k = Some r -> ~ due (now z) r.
Proof.
  revert z m. induction fuel as [|fuel IH]; intros z m Hr E; [done|].
  destruct (tick_round z m Hr) as (o & Ho & Eo). rewrite Eo in E. destruct Ho as
    [Hidle|kx x Hx Hdx Ha|x q Hmin Hdx Ha Hq|x x' q Hmin Hdx Ha Hq]; [|done| |].
  - simplify_eq. eauto.
  - by eapply IH in E; [|exact Hq].
  - by eapply IH in E; [|exact Hq].
Qed.

(** ** Records and their schedule *)

(** Every slot of the store in use belongs to a scheduled record. *)
Definition covered (s : Store) m : Prop :=
  forall k c, get s k = Some c -> exists kr r, m !! kr = Some r /\ slot (payload r) = k.

Definition zc_inv z m : Prop :=
  represents (attention_list z) m /\ store_inv (store z) /\ covered (store z) m.

Lemma covered_add s m r :
  (forall k x, m !! k = Some x -> key_of x = k) -> covered s m ->
  covered (store_add s (payload r)) (<[key_of r := r]> m).
Proof.
  intros Hkey Hc k c. rewrite get_add. case_decide as Ek.
  - intros _. exists (key_of r), r. by rewrite lookup_insert_eq.
  - intros (kr & x & Hx & Es)%Hc. exists kr, x. split; [|done]. rewrite lookup_insert_ne; [done|].
    intros E. apply Ek. rewrite <- Es. apply key_slot. rewrite <- (Hkey _ _ Hx) in E.
    symmetry. exact E.
Qed.

Lemma covered_remove s m x :
  m !! key_of x = Some x -> covered s m ->
  covered (store_remove s (payload x)) (delete (key_of x) m).
Proof.
  intros Hx Hc k c. rewrite get_remove. case_decide as Ek; [done|].
  intros (kr & y & Hy & Es)%Hc. exists kr, y. split; [|done]. rewrite lookup_delete_ne; [done|].
  intros <-. apply Ek. congruence.
Qed.

Lemma covered_probe s m x x' :
  m !! key_of x = Some x -> payload x' = payload x -> covered s m ->
  covered s (<[key_of x := x']> (delete (key_of x) m)).
Proof.
  intros Hx Hp Hc k c (kr & y & Hy & Es)%Hc. destruct (decide (kr = key_of x)) as [->|Hne].
  - exists (key_of x), x'. rewrite lookup_insert_eq. split; [done|]. rewrite Hp. congruence.
  - exists kr, y. by rewrite lookup_insert_ne, lookup_delete_ne.
Qed.

Lemma add_rr_inv z m r :
  zc_inv z m -> exists z', add_rr z r = Some z' /\ exists m', zc_inv z' m'.
Proof.
  intros (Hr & Hs & Hc). unfold add_rr. destruct (represents_push _ _ r Hr) as (q & -> & Hq).
  eexists. split; [done|]. exists (<[key_of r := r]> m). split_and!; [done|by apply store_inv_add|].
  apply covered_add; [|done]. intros k x. by apply represents_key with (attention_list z).
Qed.

Lemma process_records_inv z z' m rs :
  zc_inv z m -> process_records z rs = Some z' -> exists m', zc_inv z' m'.
Proof.
  revert z m. induction rs as [|r rs IH]; intros z m Hz E; cbn [process_records] in E.
  { simplify_eq. eauto. }
  destruct (record_payload z r) as [p|]; [|by eapply IH].
  apply bind_Some in E as (rr & _ & E). apply bind_Some in E as (z1 & E1 & E).
  destruct (add_rr_inv z m rr Hz) as (z2 & E2 & m2 & Hz2). simplify_eq. by eapply IH.
Qed.

Lemma tick_loop_inv fuel z z' m :
  zc_inv z m -> tick_loop fuel z = Some z' -> exists m', zc_inv z' m'.
Proof.
  revert z m. induction fuel as [|fuel IH]; intros z m (Hr & Hs & Hc) E; [done|].
  destruct (tick_round z m Hr) as (o & Ho & Eo). rewrite Eo in E. destruct Ho as
    [Hidle|kx x Hx Hdx Ha|x q Hmin Hdx Ha Hq|x x' q Hmin Hdx Ha Hq]; [|done| |].
  - simplify_eq. exists m. by split.
  - eapply IH; [|exact E]. split_and!; [exact Hq|by apply store_inv_remove|].
    apply covered_remove; [apply Hmin|done].
  - eapply IH; [|exact E]. split_and!; [exact Hq|done|].
    apply covered_probe; [apply Hmin|by eapply attend_same|done].
Qed.

(** The operations that leave the records alone. *)
Definition same_records z z' : Prop :=
  attention_list z' = attention_list z /\ store z' = store z /\ now z' = now z.

Lemma same_records_inv z z' m : same_records z z' -> zc_inv z m -> zc_inv z' m.
Proof. intros (Hq & Hs & _) Hz. unfold zc_inv. by rewrite Hq, Hs. Qed.

Lemma fold_same_records {X} (f : ZeroConfig -> X -> ZeroConfig) l :
  (forall z a, same_records z (f z a)) -> forall z, same_records z (fold_left f l z).
Proof.
  intros Hf. induction l as [|a l IH]; intros z; [done|]. cbn [fold_left].
  destruct (IH (f z a)) as (H1 & H2 & H3), (Hf z a) as (G1 & G2 & G3).
  split_and!; congruence.
Qed.

Lemma tracker_same_records z : same_records z (tick_tracker_services z).
Proof.
  unfold tick_tracker_services. destruct (negb _); [done|]. apply fold_same_records.
  intros z' [n s]. by destruct (now z' <? _).
Qed.

Lemma queries_same_records z qs : same_records z (process_queries z qs).
Proof.
  apply fold_same_records. intros z' q. unfold process_query. case_decide; [done|].
  by destruct (tracked_services z' !! _).
Qed.

Lemma convert_same_records z : same_records z (convert_dns_query_to_command z).
Proof. unfold convert_dns_query_to_command. by destruct (question_requests z). Qed.

(** What [tick] returns is the state after its loop, as far as the records go. *)
Lemma tick_loop_of fuel z cmds d z' :
  tick fuel z = Some (cmds, d, z') -> exists z1, tick_loop fuel z = Some z1 /\ same_records z1 z'.
Proof.
  unfold tick. intros (z1 & -> & E)%bind_Some. exists z1. split; [done|]. simplify_eq.
  destruct (tracker_same_records (create_diff_commands z1)) as (A1 & A2 & A3).
  destruct (convert_same_records (tick_tracker_services (create_diff_commands z1))) as (B1 & B2 & B3).
  unfold same_records. cbn [attention_list store now with_commands]. rewrite B1, B2, B3, A1, A2, A3.
  done.
Qed.

(** ** The engine as a state machine *)

Inductive zc_step : ZeroConfig -> ZeroConfig -> Prop :=
  | zc_time z t : zc_step z (set_time z t)
  | zc_periodic z b : zc_step z (set_periodic_refresh z b)
  | zc_start z : zc_step z (on_start z)
  | zc_track z s : zc_step z (track_service z s)
  | zc_packet z qs answers additional nameserver z' :
      push_records z qs answers additional nameserver = Some z' -> zc_step z z'
  | zc_tick z fuel cmds d z' : tick fuel z = Some (cmds, d, z') -> zc_step z z'
  | zc_stop z fuel cmds z' : on_stop fuel z = Some (cmds, z') -> zc_step z z'.

Inductive reachable : ZeroConfig -> Prop :=
  | reach_new t : reachable (zc_new t)
  | reach_step z z' : reachable z -> zc_step z z' -> reachable z'.

Lemma tick_inv fuel z m cmds d z' :
  zc_inv z m -> tick fuel z = Some (cmds, d, z') -> exists m', zc_inv z' m'.
Proof.
  intros Hz (z1 & E & Hsame)%tick_loop_of. destruct (tick_loop_inv _ _ _ _ Hz E) as [m' Hz1].
  exists m'. by eapply same_records_inv.
Qed.

Lemma covered_empty : covered store_new ∅.
Proof. intros k c Hk. destruct (store_sim_empty) as (Hg & _). by rewrite Hg, lookup_empty in Hk. Qed.

Lemma zc_inv_cleared z :
  attention_list z = IndexPQ.new -> store z = store_new -> zc_inv z ∅.
Proof.
  intros Hq Hs. unfold zc_inv. rewrite Hq, Hs.
  split_and!; [by apply represents_new|apply store_sim_empty|apply covered_empty].
Qed.

Lemma reachable_inv z : reachable z -> exists m, zc_inv z m.
Proof.
  induction 1 as [t|z z' _ [m Hz] Hstep]; [by exists ∅; apply zc_inv_cleared|].
  destruct Hstep as [z t|z b|z|z s|z qs a b c z' E|z fuel cmds d z' E|z fuel cmds z' E].
  1-4: by exists m.
  - unfold push_records in E. eapply process_records_inv; [|exact E].
    eapply same_records_inv; [apply queries_same_records|exact Hz].
  - by eapply tick_inv.
  - unfold on_stop in E. apply bind_Some in E as ([[cm d] z1] & E & ?). simplify_eq.
    eapply tick_inv; [|exact E]. by apply zc_inv_cleared.
Qed.

(** ** Reports *)

(** A listener that keeps the services it was told about, by instance name and type. *)
Abbreviation Listener := (gmap (bytes * bytes) InstanceDetails).

Definition told (hostname : bytes) (v4 : gset Ipv4Addr) (v6 : gset Ipv6Addr) (port : Z)
    (txt : TxtAttributes) : InstanceDetails :=
  {| hostname := hostname; port := port; det_ipv4s := v4; det_ipv6s := v6; txt := txt |}.

Definition hear (c : Listener) (cmd : ZeroConfigCommand) : Listener :=
  match cmd with
  | CreateService i t h v4 v6 p x => <[(i, t) := told h v4 v6 p x]> c
  | UpdateService i t h v4 v6 p x => <[(i, t) := told h v4 v6 p x]> c
  | DeleteService i t => delete (i, t) c
  | DnsQueries _ | Restart => c
  end.

(** The services are all of one domain. *)
Definition one_domain (dom : bytes) (s : Services) : Prop :=
  forall f d, s !! f = Some d -> f = fq_new (instance_name f) (service_type f) dom.

(** The listener knows exactly the services of a snapshot. *)
Definition mirrors (dom : bytes) (c : Listener) (s : Services) : Prop :=
  forall i t, c !! (i, t) = s !! fq_new i t dom.

Lemma fq_new_inj i t i' t' dom : fq_new i t dom = fq_new i' t' dom -> i = i' /\ t = t'.
Proof. unfold fq_new. by intros [= -> -> _]. Qed.

Lemma told_details d : told (hostname d) (det_ipv4s d) (det_ipv6s d) (port d) (txt d) = d.
Proof. by destruct d. Qed.

Lemma hear_service dom last c i t d :
  c !! (i, t) = last !! fq_new i t dom ->
  forall k, fold_left hear (diff_service last (fq_new i t dom, d)) c !! k
            = if decide (k = (i, t)) then Some d else c !! k.
Proof.
  intros Hc k. unfold diff_service. cbn [instance_name service_type fq_new].
  assert (Hins : (<[(i, t) := told (hostname d) (det_ipv4s d) (det_ipv6s d) (port d) (txt d)]> c : Listener) !! k
                 = if decide (k = (i, t)) then Some d else c !! k).
  { rewrite told_details. case_decide; subst; [apply lookup_insert_eq|by apply lookup_insert_ne]. }
  destruct (last !! _) as [other|]; [case_bool_decide as E|]; cbn [fold_left hear]; [done| |done].
  case_decide; [|done]. subst k. rewrite Hc. f_equal.
  by symmetry.
Qed.

Lemma hear_services dom last l c :
  NoDup l.*1 ->
  (forall f d, (f, d) ∈ l -> f = fq_new (instance_name f) (service_type f) dom
                             /\ c !! (instance_name f, service_type f) = last !! f) ->
  forall i t, fold_left hear (concat (map (diff_service last) l)) c !! (i, t)
    = match (list_to_map l : Services) !! fq_new i t dom with Some d => Some d | None => c !! (i, t) end.
Proof.
  revert c. induction l as [|[f d] l IH]; intros c Hnd Hl i t; [done|].
  cbn [map concat fmap list_fmap fst] in *. apply list.NoDup_cons in Hnd as [Hnot Hnd].
  destruct (Hl f d) as [Hf Hc]; [by left|]. rewrite Hf in Hc at 3.
  pose proof (hear_service dom last c _ _ d Hc) as Hone. rewrite <- Hf in Hone.
  rewrite fold_left_app, IH.
  - rewrite Hone. cbn [list_to_map foldr uncurry fst snd]. case_decide as E.
    + injection E as -> ->. rewrite <- Hf, lookup_insert_eq.
      by rewrite not_elem_of_list_to_map_1.
    + rewrite lookup_insert_ne; [done|]. intros Heq. apply E. by rewrite Heq.
  - done.
  - intros f' d' Hin. destruct (Hl f' d') as [Hf' Hc']; [by right|]. split; [done|].
    rewrite Hone, decide_False; [done|]. intros [= Ei Et]. apply Hnot.
    replace f with f' by (rewrite Hf, Hf', Ei, Et; done).
    by apply (list_elem_of_fmap_2 fst _ _ Hin).
Qed.

Lemma hear_deleted dom snap l c :
  (forall f d, (f, d) ∈ l -> f = fq_new (instance_name f) (service_type f) dom) ->
  forall i t, fold_left hear (concat (map (diff_deleted snap) l)) c !! (i, t)
    = match (list_to_map l : Services) !! fq_new i t dom with
      | Some _ => if decide (snap !! fq_new i t dom = None) then None else c !! (i, t)
      | None => c !! (i, t)
      end.
Proof.
  revert c. induction l as [|[f d] l IH]; intros c Hl i t; [done|].
  cbn [map concat]. rewrite fold_left_app, IH by (intros f' d' Hin; apply (Hl f' d'); by right).
  pose proof (Hl f d (list_elem_of_here _ _)) as Hf. cbn [list_to_map foldr uncurry fst snd].
  assert (Hone : fold_left hear (diff_deleted snap (f, d)) c !! (i, t)
                 = if decide (fq_new i t dom = f /\ snap !! f = None) then None else c !! (i, t)).
  { unfold diff_deleted. cbn [fst]. case_bool_decide as Es; cbn [fold_left hear].
    - case_decide as E.
      + destruct E as [<- _]. apply lookup_delete_eq.
      + rewrite lookup_delete_ne; [done|]. intros [= <- <-]. apply E. by rewrite <- Hf.
    - rewrite decide_False; [done|]. naive_solver. }
  rewrite Hone. destruct (decide (fq_new i t dom = f)) as [<-|Hne].
  - rewrite lookup_insert_eq.
    destruct ((list_to_map l : Services) !! fq_new i t dom); repeat case_decide; naive_solver.
  - rewrite lookup_insert_ne by done.
    rewrite (decide_False (P := fq_new i t dom = f /\ _)); [done|naive_solver].
Qed.

Lemma diff_mirrors dom c last snap :
  one_domain dom last -> one_domain dom snap -> mirrors dom c last ->
  mirrors dom (fold_left hear (diff_commands last snap) c) snap.
Proof.
  intros Hlast Hsnap Hc i t. unfold diff_commands. rewrite fold_left_app.
  rewrite (hear_deleted dom), list_to_map_to_list
    by (intros f d Hin%elem_of_map_to_list; by eapply Hlast).
  rewrite (hear_services dom), list_to_map_to_list.
  - rewrite Hc. destruct (snap !! fq_new i t dom); [by destruct (last !! _); rewrite ?decide_False|].
    destruct (last !! _); [|done]. by rewrite decide_True.
  - apply NoDup_fst_map_to_list.
  - intros f d Hin%elem_of_map_to_list. pose proof (Hsnap f d Hin) as Hf. split; [done|].
    rewrite Hf at 3. apply Hc.
Qed.

(** ** Claims *)

(** In every reachable state, each record the store holds is scheduled in the attention
    list (so none stays forever without being probed or expired), the attention list is a
    well-formed queue, and no host is kept without an address. *)
Theorem zc_records_scheduled (z : ZeroConfig) :
  reachable z ->
  pq_inv (attention_list z) /\ store_inv (store z) /\
  forall k c, get (store z) k = Some c ->
    exists r, r ∈ data (attention_list z) /\ slot (payload r) = k.
Proof.
  intros [m (Hr & Hs & Hc)]%reachable_inv. split; [apply Hr|]. split; [done|].
  intros k c (kr & r & Hm & Hk)%Hc. exists r. split; [|done].
  apply (represents_items _ _ _ Hr). by rewrite (represents_key _ _ _ _ Hr Hm).
Qed.

(** C26: from a reachable state [tick] returns exactly when no record that needs attention is
    stuck, that is, is scheduled at or before the present again when it is attended (or makes
    the conversion to a duration panic). When it returns, no record is overdue. *)
Theorem zc_tick_returns_iff (z : ZeroConfig) :
  reachable z ->
  ((exists fuel out, tick fuel z = Some out) <->
   forall r, r ∈ data (attention_list z) -> due (now z) r -> ~ stuck (now z) r)
  /\ forall fuel cmds d z', tick fuel z = Some (cmds, d, z') ->
     forall r, r ∈ data (attention_list z') -> now z < attention_needed_on r.
Proof.
  intros [m (Hr & _ & _)]%reachable_inv. split; [split|].
  - intros (fuel & [[cmds d] z'] & E) r Hin Hd Hs. apply tick_loop_of in E as (z1 & E & _).
    apply (represents_items _ _ _ Hr) in Hin. by rewrite (tick_stuck fuel z m (key_of r) r) in E.
  - intros Hs. destruct (tick_progress (size (due_map (now z) m)) z m) as [z1 E]; [done..| |].
    + intros k r Hk. apply Hs, (represents_items _ _ _ Hr).
      by rewrite (represents_key _ _ _ _ Hr Hk).
    + eexists (S _), _. unfold tick. rewrite E. reflexivity.
  - intros fuel cmds d z' (z1 & E & Hq & _)%tick_loop_of r Hin.
    destruct (tick_loop_post fuel z z1 m Hr E) as (_ & m' & Hr' & Hnd). rewrite Hq in Hin.
    apply (represents_items _ _ _ Hr') in Hin. apply Hnd in Hin. unfold due in Hin. lia.
Qed.

(** A listener that knows the services of the last snapshot and applies the commands of a
    tick knows exactly the services of the new snapshot, with their details, whatever appeared,
    changed or disappeared; the services are of one domain, which the commands leave out. *)
Theorem zc_reports_replay (z : ZeroConfig) (dom : bytes) (c : Listener) :
  one_domain dom (last_snap_shot z) -> one_domain dom (snapshot (store z)) ->
  mirrors dom c (last_snap_shot z) -> commands z = [] ->
  mirrors dom (fold_left hear (commands (create_diff_commands z)) c)
    (last_snap_shot (create_diff_commands z)).
Proof. intros Hl Hs Hc Hn. cbn. rewrite Hn. by apply diff_mirrors. Qed.
End Theory.

(** ** A small DNS library and runs over it *)
Module Sample.
#[local] Instance sample_dns : Dns := {|
  QTYPE := option RRType; QCLASS := unit; QTYPE_ANY := None; QTYPE_TYPE := Some;
  QCLASS_ANY := tt; Name := list bytes; get_labels := fun n => n;
  name_to_string := fun n => join (B ".") n |}.

Definition service_labels : list bytes := [B "phone"; B "_adb"; B "_tcp"; B "local"].
Definition host_labels : list bytes := [B "host"; B "local"].
Definition address_record (seconds : Z) : ResourceRecord :=
  {| rec_name := host_labels; rec_ttl := seconds; rdata := RA 1 |}.
Definition service_records (seconds : Z) : list ResourceRecord :=
  [{| rec_name := [B "_adb"; B "_tcp"; B "local"]; rec_ttl := seconds; rdata := RPtr service_labels |};
   {| rec_name := service_labels; rec_ttl := seconds; rdata := RSrv host_labels 5555 |};
   address_record seconds].

(** The engine after a packet at time 0. *)
Definition after_packet (records : list ResourceRecord) : ZeroConfig :=
  default (zc_new 0) (push_records (zc_new 0) [] records [] []).

Lemma after_packet_reachable seconds :
  match push_records (zc_new 0) [] (service_records seconds) [] [] with Some _ => true | None => false end
  = true ->
  reachable (after_packet (service_records seconds)).
Proof.
  unfold after_packet. destruct (push_records _ _ _ _ _) as [z|] eqn:E; [|done]. intros _.
  cbn [default from_option].
  eapply reach_step; [apply (reach_new 0)|]. by eapply zc_packet.
Qed.

Definition z120 : ZeroConfig := after_packet (service_records 120).

Lemma z120_reachable : reachable z120.
Proof. apply after_packet_reachable. vm_compute. reflexivity. Qed.

Lemma zc_records_scheduled_witness :
  pq_inv (attention_list z120) /\ store_inv (store z120) /\
  forall k c, get (store z120) k = Some c ->
    exists r, r ∈ data (attention_list z120) /\ slot (payload r) = k.
Proof. apply zc_records_scheduled, z120_reachable. Defined.

Lemma zc_tick_returns_iff_witness :
  ((exists fuel out, tick fuel z120 = Some out) <->
   forall r, r ∈ data (attention_list z120) -> due (now z120) r -> ~ stuck (now z120) r)
  /\ forall fuel cmds d z', tick fuel z120 = Some (cmds, d, z') ->
     forall r, r ∈ data (attention_list z') -> now z120 < attention_needed_on r.
Proof. apply zc_tick_returns_iff, z120_reachable. Defined.

(** The service is reported, probed at 80% of its life and dropped at its end. *)
Example sample_life :
  (fst ∘ fst) <$> tick 9 z120 =
    Some [CreateService (B "phone") (B "_adb._tcp") (B "host.local") {[1]} ∅ 5555 ∅]
  /\ snd ∘ fst <$> tick 9 z120 = Some (from_secs 96)
  /\ (fst ∘ fst) <$> (tick 9 z120 ≫= fun out => tick 9 (set_time out.2 (from_secs 120))) =
    Some [DeleteService (B "phone") (B "_adb._tcp")].
Proof. vm_compute. done. Qed.

(** A record with a life of 9 seconds attended exactly when it is due at 90% of it: the quotient
    8.1 / 9 is below the literal 0.90, so the record is scheduled at the same instant again and
    the loop never returns. *)
Definition z9 : ZeroConfig :=
  let z := after_packet (service_records 9) in set_time z 8100000000.

(** The most urgent record is due and stuck. *)
Definition first_stuck (z : ZeroConfig) : bool :=
  match peek (attention_list z) with
  | Some r => (attention_needed_on r <=? now z) &&
      match attend (now z) r with Some (Some r') => attention_needed_on r' <=? now z | _ => false end
  | None => false
  end.

Lemma first_stuck_spec z :
  first_stuck z = true ->
  exists r, peek (attention_list z) = Some r /\ due (now z) r /\ stuck (now z) r.
Proof.
  unfold first_stuck. destruct (peek _) as [r|]; [|done]. intros [Hd%Z.leb_le Hs]%andb_prop.
  exists r. split_and!; [done..|]. unfold stuck.
  destruct (attend _ r) as [[r'|]|]; [by apply Z.leb_le|done..].
Qed.

Example tick_hangs : reachable z9 /\ forall fuel, tick fuel z9 = None.
Proof.
  assert (Hz : reachable z9).
  { eapply reach_step; [apply (after_packet_reachable 9)|apply zc_time].
    vm_compute. reflexivity. }
  split; [done|]. intros fuel. destruct (reachable_inv _ Hz) as [m (Hr & _)].
  destruct (first_stuck_spec z9) as (r & Hp & Hd & Hst); [vm_compute; reflexivity|]. unfold tick.
  rewrite (tick_stuck fuel z9 m (key_of r) r); [done..| |done|done].
  apply (represents_items _ _ _ Hr). apply list_elem_of_lookup. eauto.
Qed.

Lemma one_domain_check dom (s : Services) :
  bool_decide (map_Forall (fun f _ => f = fq_new (instance_name f) (service_type f) dom) s) = true ->
  one_domain dom s.
Proof. intros Hs%bool_decide_eq_true f d. apply Hs. Qed.

Lemma zc_reports_replay_witness :
  mirrors (B "local") (fold_left hear (commands (create_diff_commands z120)) ∅)
    (last_snap_shot (create_diff_commands z120)).
Proof.
  assert (El : last_snap_shot z120 = ∅) by (vm_compute; reflexivity).
  apply zc_reports_replay; [rewrite El| |rewrite El; by intros i t|vm_compute; reflexivity].
  - intros f d Hf. by rewrite lookup_empty in Hf.
  - apply one_domain_check. vm_compute. reflexivity.
Defined.
End Sample.
