(* ===== verification/Net.v ===== *)
(** * Connections to the outside

    What the transports use of the operating system: I/O errors, datagram sockets and byte
    streams. A socket is a state [W] with its operations as a class, so that a transport is
    verified for any socket, and for a concrete network where the claim needs one. *)
From S2P Require Import Prelude.

(** [std::io::Error]: its kind and its text. *)
Inductive IoErrorKind := TimedOut | WouldBlock | Interrupted | UnexpectedEof | WriteZero | InvalidData | Other.

#[export] Instance io_error_kind_eq : EqDecision IoErrorKind.
Proof. solve_decision. Defined.

Record io_error := mk_io { io_kind : IoErrorKind; io_msg : bytes }.

(** A connected [UdpSocket]: [send], and [recv] with the datagram or an error. *)
Class UdpSocket (W : Type) := {
  udp_send : W -> bytes -> W * option io_error;
  udp_recv : W -> W * (bytes + io_error) }.

(** ** Byte streams

    A connected [TcpStream]: what the peer and the network do is a script of the segments and
    errors the reads meet (after them, the end of the stream), and what the program writes is
    recorded. [wfail] is the error of the writes, if they fail. *)
Definition event : Type := bytes + io_error.

Record Conn := mk_conn { incoming : list event; outgoing : bytes; wfail : option io_error }.

Definition set_incoming (q : list event) (c : Conn) : Conn := mk_conn q (outgoing c) (wfail c).

(** [Read::read] into a buffer of [len] bytes: at most [len] bytes of the next segment. *)
Definition read (len : Z) (q : list event) : list event * (bytes + io_error) :=
  match q with
  | [] => ([], inl [])
  | inr e :: q => (q, inr e)
  | inl seg :: q =>
      if zlen seg <=? len then (q, inl seg)
      else (inl (drop (Z.to_nat len) seg) :: q, inl (take (Z.to_nat len) seg))
  end.

Definition unexpected_eof : io_error := mk_io UnexpectedEof (B "failed to fill whole buffer").

(** [Read::read_exact]: reads until [n] bytes are there, again after [Interrupted]; with the bytes
    it has put into the buffer, and the error that stopped it. *)
Fixpoint read_exact_go (q : list event) (n : Z) (acc : bytes) : list event * bytes * option io_error :=
  if n <=? 0 then (q, acc, None) else
  match q with
  | [] => ([], acc, Some unexpected_eof)
  | inr e :: q => if bool_decide (io_kind e = Interrupted) then read_exact_go q n acc else (q, acc, Some e)
  | inl seg :: q =>
      if zlen seg =? 0 then (q, acc, Some unexpected_eof)
      else if zlen seg <=? n then read_exact_go q (n - zlen seg) (acc ++ seg)
      else (inl (drop (Z.to_nat n) seg) :: q, acc ++ take (Z.to_nat n) seg, None)
  end.

Definition read_exact (n : Z) (q : list event) : list event * res io_error bytes :=
  let '(q, bs, e) := read_exact_go q n [] in
  (q, match e with Some e => Err e | None => Ok bs end).

(** [Write::write] takes the whole buffer, [write_all] is then one write. *)
Definition write (bs : bytes) (c : Conn) : Conn * res io_error Z :=
  match wfail c with
  | Some e => (c, Err e)
  | None => (mk_conn (incoming c) (outgoing c ++ bs) None, Ok (zlen bs))
  end.

Definition write_all (bs : bytes) (c : Conn) : Conn * res io_error unit :=
  let '(c, r) := write bs c in (c, let! _ := r in Ok tt).

(** *** Streams without errors

    [arrives q d]: the events [q] are non-empty segments of [d], cut anyhow. *)
Inductive arrives : list event -> bytes -> Prop :=
| arrives_nil : arrives [] []
| arrives_cons seg q d : seg <> [] -> arrives q d -> arrives (inl seg :: q) (seg ++ d).

Lemma arrives_read_exact q d n acc :
  arrives q d -> 0 <= n <= zlen d ->
  exists q', read_exact_go q n acc = (q', acc ++ take (Z.to_nat n) d, None) /\
    arrives q' (drop (Z.to_nat n) d).
Proof.
  intros Ha. revert n acc. induction Ha as [|seg q d Hseg Ha IH]; intros n acc Hn; cbn [read_exact_go].
  { change (zlen []) with 0 in Hn. assert (n = 0) as -> by lia. exists []. cbn. rewrite app_nil_r.
    split; [done|constructor]. }
  destruct (Z.leb_spec n 0) as [H0|H0].
  { assert (n = 0) as -> by lia. exists (inl seg :: q). rewrite take_0, drop_0, app_nil_r.
    split; [done|by constructor]. }
  assert (0 < zlen seg) as Hs by (destruct seg; [done|rewrite zlen_cons; pose proof (zlen_nonneg seg); lia]).
  rewrite (proj2 (Z.eqb_neq _ 0)) by lia. rewrite zlen_app in Hn.
  destruct (Z.leb_spec (zlen seg) n) as [Hle|Hlt].
  - destruct (IH (n - zlen seg) (acc ++ seg) ltac:(lia)) as (q' & -> & Ha'). exists q'.
    unfold zlen in *. rewrite take_app_ge, drop_app_ge by lia.
    replace (Z.to_nat n - length seg)%nat with (Z.to_nat (n - Z.of_nat (length seg))) by lia.
    by rewrite <- app_assoc.
  - unfold zlen in *. rewrite take_app_le, drop_app_le by lia. eexists. split; [done|].
    constructor; [|done]. intros E. apply (f_equal length) in E. rewrite length_drop in E. cbn in E. lia.
Qed.

Lemma arrives_read_exact_app q a d :
  arrives q (a ++ d) -> exists q', read_exact (zlen a) q = (q', Ok a) /\ arrives q' d.
Proof.
  intros Ha. pose proof (zlen_nonneg a). pose proof (zlen_nonneg d).
  destruct (arrives_read_exact q (a ++ d) (zlen a) [] Ha ltac:(zg)) as (q' & Hq & Ha').
  unfold read_exact. rewrite Hq. unfold zlen in *. rewrite Nat2Z.id, take_app_length.
  rewrite Nat2Z.id, drop_app_length in Ha'. by exists q'.
Qed.

Lemma arrives_one d : d <> [] -> arrives [inl d] d.
Proof. intros. rewrite <- (app_nil_r d) at 2. constructor; [done|constructor]. Qed.

(** The bytes that a script holds. *)
Definition script_data (q : list event) : bytes := concat (map (fun e => match e with inl s => s | inr _ => [] end) q).

Lemma arrives_data q d : arrives q d -> script_data q = d.
Proof. induction 1 as [|seg q d Hs Ha IH]; [done|]. unfold script_data in *. cbn [map concat]. by rewrite IH. Qed.

Lemma read_exact_go_data q : forall n acc q' bs,
  read_exact_go q n acc = (q', bs, None) -> acc ++ script_data q = bs ++ script_data q' /\ zlen bs = zlen acc + Z.max n 0.
Proof.
  unfold script_data. induction q as [|[seg|e] q IH]; intros n acc q' bs; cbn [read_exact_go].
  - destruct (Z.leb_spec n 0); [|done]. intros [= <- <-]. split; [done|lia].
  - destruct (Z.leb_spec n 0); [intros [= <- <-]; split; [done|lia]|]. destruct (zlen seg =? 0); [done|].
    destruct (Z.leb_spec (zlen seg) n).
    + intros E%IH. cbn [map concat] in *. rewrite <- app_assoc in E. destruct E as [-> ->]. rewrite zlen_app. split; [done|lia].
    + intros [= <- <-]. cbn [map concat]. rewrite <- !app_assoc, (app_assoc (take _ _)), take_drop, zlen_app. split; [done|].
      unfold zlen in *. rewrite length_take. lia.
  - destruct (Z.leb_spec n 0); [intros [= <- <-]; split; [done|lia]|]. destruct (bool_decide _); [|done]. intros E%IH. done.
Qed.

Lemma read_exact_data n q q' bs : read_exact n q = (q', Ok bs) -> script_data q = bs ++ script_data q' /\ zlen bs = Z.max n 0.
Proof.
  unfold read_exact. destruct (read_exact_go q n []) as [[q1 b] [e|]] eqn:E; [done|]. intros [= <- <-].
  by apply read_exact_go_data in E.
Qed.

(** The work left in a script: reads make it smaller. *)
Fixpoint script_size (q : list event) : nat :=
  match q with
  | [] => 0
  | inl seg :: q => S (length seg + script_size q)
  | inr _ :: q => S (script_size q)
  end.

Lemma read_exact_go_size q : forall n acc, (script_size (read_exact_go q n acc).1.1 <= script_size q)%nat.
Proof.
  induction q as [|[seg|e] q IH]; intros n acc; cbn [read_exact_go].
  - by destruct (n <=? 0).
  - destruct (n <=? 0); [done|]. destruct (zlen seg =? 0); [cbn; lia|].
    destruct (zlen seg <=? n); [|cbn; rewrite length_drop; lia].
    specialize (IH (n - zlen seg) (acc ++ seg)). cbn. lia.
  - destruct (n <=? 0); [done|]. destruct (bool_decide _); [specialize (IH n acc)|]; cbn; lia.
Qed.

Lemma read_exact_go_progress q n acc :
  0 < n -> match read_exact_go q n acc with
           | (q', _, None) => (script_size q' < script_size q)%nat
           | _ => True
           end.
Proof.
  revert n acc. induction q as [|[seg|e] q IH]; intros n acc Hn; cbn [read_exact_go];
    rewrite (proj2 (Z.leb_gt n 0)) by lia; [done| |].
  - destruct (Z.eqb_spec (zlen seg) 0); [done|]. pose proof (zlen_nonneg seg).
    destruct (Z.leb_spec (zlen seg) n).
    + pose proof (read_exact_go_size q (n - zlen seg) (acc ++ seg)).
      destruct (read_exact_go _ _ _) as [[q' ?] []]; try done. cbn in *. lia.
    + cbn. rewrite length_drop. unfold zlen in *. lia.
  - destruct (bool_decide _); [|done]. specialize (IH n acc Hn).
    destruct (read_exact_go _ _ _) as [[q' ?] []]; try done. cbn. lia.
Qed.

Lemma read_exact_progress q n :
  0 < n -> match read_exact n q with
           | (q', Ok _) => (script_size q' < script_size q)%nat
           | (q', Err _) => (script_size q' <= script_size q)%nat
           | (_, Panic) => False
           end.
Proof.
  intros Hn. unfold read_exact. pose proof (read_exact_go_progress q n [] Hn) as H.
  pose proof (read_exact_go_size q n []) as H'.
  by destruct (read_exact_go _ _ _) as [[q' ?] []].
Qed.

Lemma read_exact_size q n :
  match read_exact n q with
  | (q', Panic) => False
  | (q', _) => (script_size q' <= script_size q)%nat
  end.
Proof.
  unfold read_exact. pose proof (read_exact_go_size q n []).
  by destruct (read_exact_go _ _ _) as [[q' ?] []].
Qed.

Lemma read_progress len q :
  0 < len -> match read len q with
             | (q', inl bs) => bs <> [] -> (script_size q' + length bs <= script_size q)%nat
             | (q', inr _) => (script_size q' < script_size q)%nat
             end.
Proof.
  intros Hl. destruct q as [|[seg|e] q]; cbn [read]; [done| |cbn; lia].
  destruct (zlen seg <=? len); intros _; cbn; [lia|]. rewrite length_drop, length_take. lia.
Qed.
