(* ===== verification/FastbootStream.v ===== *)
(** * The fastboot stream transport

    [fastboot-protocol/src/transport.rs]: the scanner that finds responses in an unframed byte
    stream, the framed mode with its length prefixes, the handshake that chooses between them,
    [Read] and [Write] of the TCP transport, and the response loops. *)
From S2P Require Import Prelude Text FastbootProto Net.

(** [FastbootTransportError]. *)
Inductive FastbootTransportError :=
| EIo (e : io_error)
| EResponse (e : FastbootResponseError)
| EConnectFailed (addr : bytes) (source : io_error)
| EProtocol (msg : bytes).

Definition response_error_text (e : FastbootResponseError) : bytes :=
  match e with
  | TooShort => B "Response too short (less than 4 bytes)"
  | UnknownPrefix s => B "Unknown fastboot response prefix: " ++ s
  | InvalidDataSize s => B "Invalid DATA payload size: " ++ s
  end.

Definition transport_error_text (e : FastbootTransportError) : bytes :=
  match e with
  | EIo e => B "I/O error: " ++ io_msg e
  | EResponse e => B "Response parse error: " ++ response_error_text e
  | EConnectFailed addr e => B "Connection failed to " ++ addr ++ B ": " ++ io_msg e
  | EProtocol s => B "Protocol error: " ++ s
  end.

(** ** The scanner *)
Definition FB_PREFIXES : list bytes := [B "OKAY"; B "FAIL"; B "DATA"; B "INFO"; B "TEXT"].

Definition is_fb_prefix (buf : bytes) : bool :=
  if zlen buf <? 4 then false
  else existsb (fun p => bool_decide (take 4 buf = p)) FB_PREFIXES.

Definition is_partial_prefix (buf : bytes) : bool :=
  match buf with
  | [] => false
  | _ => if 4 <=? zlen buf then false else existsb (fun p => starts_with buf p) FB_PREFIXES
  end.

(** [for i in from..from + n { if f(&s[i..]) { break Some(i) } }], given [s] from [i] on. *)
Fixpoint find_suffix (f : bytes -> bool) (n i : nat) (s : bytes) : option nat :=
  match n with
  | O => None
  | S n => if f s then Some i else find_suffix f n (S i) (tail s)
  end.

(** Where the body of a text response ends: at the next prefix, or at a part of one at the end. *)
Definition body_end (body : bytes) : nat :=
  let k := (length body - 3)%nat in
  match find_suffix is_fb_prefix k 0 body with
  | Some i => i
  | None =>
      match find_suffix is_partial_prefix (length body - k) k (drop k body) with
      | Some j => j
      | None => length body
      end
  end.

Definition parse_one_response (buf : bytes) : res FastbootResponseError (FastbootResponse * nat) :=
  if zlen buf <? 4 then Err TooShort else
  let prefix := take 4 buf in
  if negb (is_utf8 prefix) then Err (UnknownPrefix (fmt_bytes prefix)) else
  if bool_decide (prefix = B "DATA") then
    if zlen buf <? 12 then Err TooShort
    else let! resp := parse (take 12 buf) in Ok (resp, 12%nat)
  else if existsb (fun p => bool_decide (prefix = p)) [B "OKAY"; B "FAIL"; B "INFO"; B "TEXT"] then
    let total := (4 + body_end (drop 4 buf))%nat in
    let! resp := parse (take total buf) in Ok (resp, total)
  else Err (UnknownPrefix prefix).

(** Drop what precedes the next prefix: [Some] to go on and parse, or [None] with what is kept
    until more is read. *)
Definition resync (accum : bytes) : option unit * bytes :=
  if is_fb_prefix accum then (Some tt, accum) else
  match find_suffix is_fb_prefix (length accum - 1) 1 (tail accum) with
  | Some pos => (Some tt, drop pos accum)
  | None =>
      match find_suffix (fun s => (length s <? 4)%nat && is_partial_prefix s) (length accum) 0 accum with
      | Some pos => (None, drop pos accum)
      | None => (None, [])
      end
  end.

(** The inner loop: the bytes left, the messages collected, and the final response if it is there.
    Every round drops a byte, so the length of the buffer and one more is enough fuel. *)
Fixpoint scan (fuel : nat) (accum : bytes) (logs : list bytes)
    : option (bytes * list bytes * option FastbootResponse) :=
  match fuel with
  | O => None
  | S fuel =>
      match accum with
      | [] => Some ([], logs, None)
      | _ =>
          match resync accum with
          | (None, accum) => Some (accum, logs, None)
          | (Some _, accum) =>
              match parse_one_response accum with
              | Ok (resp, consumed) =>
                  let accum := drop consumed accum in
                  match resp with
                  | Info_ msg | Text_ msg => scan fuel accum (logs ++ [msg])
                  | resp => Some (accum, logs, Some resp)
                  end
              | Err TooShort => Some (accum, logs, None)
              | Err _ => scan fuel (drop 1 accum) logs
              | Panic => None
              end
          end
      end
  end.

Definition scan_all (accum : bytes) (logs : list bytes) := scan (S (length accum)) accum logs.

(** ** The TCP transport *)
Inductive FbMode := Raw | LengthPrefixed.
Definition MAX_LENGTH_PREFIXED_PAYLOAD : Z := 1024 * 1024 * 1024.

Record FastbootTcpTransport := mk_tcp {
  stream : Conn; mode : FbMode; read_buf : bytes; read_pos : Z }.

Definition set_stream (c : Conn) (t : FastbootTcpTransport) := mk_tcp c (mode t) (read_buf t) (read_pos t).
Definition set_queue (q : list event) (t : FastbootTcpTransport) := set_stream (set_incoming q (stream t)) t.
Definition set_buf (b : bytes) (pos : Z) (t : FastbootTcpTransport) := mk_tcp (stream t) (mode t) b pos.

Definition too_large (n : Z) : bytes :=
  B "LengthPrefixed payload size " ++ fmt_dec n ++ B " exceeds maximum allowed limit ("
  ++ fmt_dec MAX_LENGTH_PREFIXED_PAYLOAD ++ B ")".

Definition recv_result : Type := list bytes * option (res FastbootTransportError FastbootResponse).

(** [recv_length_prefixed_response_with_info]: frames until a final response. Every round reads a
    length, so the size of the script and one more is enough fuel. *)
Fixpoint recv_framed (fuel : nat) (t : FastbootTcpTransport) (logs : list bytes)
    : FastbootTcpTransport * recv_result :=
  match fuel with
  | O => (t, (logs, None))
  | S fuel =>
      match read_exact 8 (incoming (stream t)) with
      | (q, Ok len_buf) =>
          let t := set_queue q t in
          let message_len := be_val len_buf in
          if MAX_LENGTH_PREFIXED_PAYLOAD <? message_len
          then (t, (logs, Some (Err (EProtocol (too_large message_len)))))
          else
            match read_exact message_len (incoming (stream t)) with
            | (q, Ok message) =>
                let t := set_queue q t in
                match parse message with
                | Ok (Info_ m) | Ok (Text_ m) => recv_framed fuel t (logs ++ [m])
                | Ok response => (t, (logs, Some (Ok response)))
                | Err e => (t, (logs, Some (Err (EResponse e))))
                | Panic => (t, (logs, Some Panic))
                end
            | (q, Err e) => (set_queue q t, (logs, Some (Err (EIo e))))
            | (q, Panic) => (set_queue q t, (logs, Some Panic))
            end
      | (q, Err e) => (set_queue q t, (logs, Some (Err (EIo e))))
      | (q, Panic) => (set_queue q t, (logs, Some Panic))
      end
  end.

(** [perform_handshake]: up to four bytes are read, whatever the cuts; a raw response is read to
    its end. *)
Fixpoint handshake_read (q : list event) (acc : bytes) : list event * bytes :=
  if 4 <=? zlen acc then (q, acc) else
  match q with
  | [] => ([], acc)
  | inr e :: q => if bool_decide (io_kind e = Interrupted) then handshake_read q acc else (q, acc)
  | inl seg :: q =>
      let n := 4 - zlen acc in
      if zlen seg =? 0 then (q, acc)
      else if zlen seg <=? n then handshake_read q (acc ++ seg)
      else (inl (drop (Z.to_nat n) seg) :: q, acc ++ take (Z.to_nat n) seg)
  end.

Fixpoint drain_extra (q : list event) (acc : bytes) : list event * bytes :=
  match q with
  | [] => ([], acc)
  | inr e :: q => (q, acc)
  | inl seg :: q => if zlen seg =? 0 then (q, acc) else drain_extra q (acc ++ seg)
  end.

Definition perform_handshake (c : Conn) : Conn * FbMode * bytes :=
  match write_all (B "FB01") c with
  | (c, Ok _) =>
      let '(q, buf) := handshake_read (incoming c) [] in
      if (2 <=? zlen buf) && bool_decide (take 2 buf = B "FB") then (set_incoming q c, LengthPrefixed, [])
      else if (4 <=? zlen buf) && is_fb_prefix buf then
        let '(q, extra) := drain_extra q [] in (set_incoming q c, Raw, buf ++ extra)
      else (set_incoming q c, Raw, buf)
  | (c, _) => (c, Raw, [])
  end.

Definition new_internal (c : Conn) (with_handshake : bool) : FastbootTcpTransport :=
  if with_handshake then
    let '(c, m, leftover) := perform_handshake c in mk_tcp c m leftover 0
  else mk_tcp c Raw [] 0.

(** [Read::read] into a buffer of [len] bytes. *)
Definition serve_buffer (len : Z) (t : FastbootTcpTransport) : FastbootTcpTransport * bytes :=
  let n := Z.min len (zlen (read_buf t) - read_pos t) in
  let data := slice (read_pos t) (read_pos t + n) (read_buf t) in
  let pos := read_pos t + n in
  (if zlen (read_buf t) <=? pos then set_buf [] 0 t else set_buf (read_buf t) pos t, data).

Definition tcp_read (len : Z) (t : FastbootTcpTransport) : FastbootTcpTransport * res io_error bytes :=
  if len =? 0 then (t, Ok []) else
  if read_pos t <? zlen (read_buf t) then let '(t, data) := serve_buffer len t in (t, Ok data)
  else
    match mode t with
    | Raw =>
        match read len (incoming (stream t)) with
        | (q, inl bs) => (set_queue q t, Ok bs)
        | (q, inr e) => (set_queue q t, Err e)
        end
    | LengthPrefixed =>
        match read_exact 8 (incoming (stream t)) with
        | (q, Ok len_buf) =>
            let t := set_queue q t in
            let msg_len := be_val len_buf in
            if MAX_LENGTH_PREFIXED_PAYLOAD <? msg_len then (t, Err (mk_io InvalidData (too_large msg_len)))
            else
              let buf := resize msg_len x00 (read_buf t) in
              let '(q, got, e) := read_exact_go (incoming (stream t)) msg_len [] in
              let buf := write_at 0 got buf in
              let t := set_queue q t in
              match e with
              | Some e => (set_buf buf (read_pos t) t, Err e)
              | None =>
                  let n := Z.min len msg_len in
                  (set_buf buf n t, Ok (slice 0 n buf))
              end
        | (q, Err e) => (set_queue q t, Err e)
        | (q, Panic) => (set_queue q t, Panic)
        end
    end.

Definition tcp_write (buf : bytes) (t : FastbootTcpTransport) : FastbootTcpTransport * res io_error Z :=
  match mode t with
  | Raw => let '(c, r) := write buf (stream t) in (set_stream c t, r)
  | LengthPrefixed =>
      match write_all (be_bytes 8 (zlen buf)) (stream t) with
      | (c, Ok _) =>
          let '(c, r) := write_all buf c in (set_stream c t, let! _ := r in Ok (zlen buf))
      | (c, Err e) => (set_stream c t, Err e)
      | (c, Panic) => (set_stream c t, Panic)
      end
  end.

(** [send_cmd]; the whole command is one write. *)
Definition send_cmd (cmd : bytes) (t : FastbootTcpTransport)
    : FastbootTcpTransport * res FastbootTransportError unit :=
  if 4096 <? zlen cmd
  then (t, Err (EProtocol (B "Command too long: " ++ fmt_dec (zlen cmd) ++ B " bytes (max 4096)")))
  else let '(t, r) := tcp_write cmd t in (t, map_err EIo (let! _ := r in Ok tt)).

Definition closed : FastbootTransportError := EProtocol (B "Connection closed by target").

(** The outer loop in raw mode; what follows the final response is kept for later reads. *)
Fixpoint recv_raw (fuel : nat) (t : FastbootTcpTransport) (accum : bytes) (logs : list bytes)
    : FastbootTcpTransport * recv_result :=
  match fuel with
  | O => (t, (logs, None))
  | S fuel =>
      match scan_all accum logs with
      | None => (t, (logs, None))
      | Some (accum, logs, Some resp) =>
          (match accum with [] => t | _ => set_buf accum 0 t end, (logs, Some (Ok resp)))
      | Some (accum, logs, None) =>
          match tcp_read 4096 t with
          | (t, Ok []) => (t, (logs, Some (Err closed)))
          | (t, Ok bs) => recv_raw fuel t (accum ++ bs) logs
          | (t, Err e) => (t, (logs, Some (Err (EIo e))))
          | (t, Panic) => (t, (logs, Some Panic))
          end
      end
  end.

Definition take_buffer (t : FastbootTcpTransport) : FastbootTcpTransport * bytes :=
  if read_pos t <? zlen (read_buf t)
  then (set_buf [] 0 t, slice (read_pos t) (zlen (read_buf t)) (read_buf t))
  else (t, []).

Definition recv_response_with_info (fuel : nat) (t : FastbootTcpTransport) (logs : list bytes)
    : FastbootTcpTransport * recv_result :=
  match mode t with
  | LengthPrefixed => recv_framed fuel t logs
  | Raw => let '(t, accum) := take_buffer t in recv_raw fuel t accum logs
  end.

(** The default loop of the trait, for a transport given by its [read]; it forgets what follows
    the final response. *)
Section Default.
Context {St : Type} (rd : St -> Z -> St * res io_error bytes).

Fixpoint recv_default (fuel : nat) (t : St) (accum : bytes) (logs : list bytes) : St * recv_result :=
  match fuel with
  | O => (t, (logs, None))
  | S fuel =>
      match scan_all accum logs with
      | None => (t, (logs, None))
      | Some (_, logs, Some resp) => (t, (logs, Some (Ok resp)))
      | Some (accum, logs, None) =>
          match rd t 4096 with
          | (t, Ok []) => (t, (logs, Some (Err closed)))
          | (t, Ok bs) => recv_default fuel t (accum ++ bs) logs
          | (t, Err e) => (t, (logs, Some (Err (EIo e))))
          | (t, Panic) => (t, (logs, Some Panic))
          end
      end
  end.
End Default.

(** ** The scanner terminates and stays in range *)

Lemma parse_no_panic buf : parse buf <> Panic.
Proof.
  destruct (Z.ltb_spec (zlen buf) 4) as [|Hl].
  { unfold parse. by rewrite (proj2 (Z.ltb_lt _ _)). }
  rewrite <- (take_drop 4 buf), parse_head by (unfold zlen in *; rewrite length_take; lia).
  repeat case_match; try done. unfold parse_data. by repeat case_match.
Qed.

Lemma find_suffix_range f n i s k : find_suffix f n i s = Some k -> (i <= k < i + n)%nat.
Proof.
  revert i s. induction n as [|n IH]; intros i s; cbn [find_suffix]; [done|].
  destruct (f s); [intros [= <-]; lia|]. intros H%IH. lia.
Qed.

Lemma find_suffix_true f n i s k :
  find_suffix f n i s = Some k -> f (drop (k - i) s) = true.
Proof.
  revert i s. induction n as [|n IH]; intros i s; cbn [find_suffix]; [done|].
  destruct (f s) eqn:E; [intros [= <-]; by rewrite Nat.sub_diag|]. intros H.
  pose proof (find_suffix_range _ _ _ _ _ H). apply IH in H.
  replace (k - i)%nat with (S (k - S i)) by lia. destruct s; [cbn [tail] in H; by rewrite drop_nil in H|done].
Qed.

Lemma find_suffix_none f n i s :
  (forall k, (k < n)%nat -> f (drop k s) = false) -> find_suffix f n i s = None.
Proof.
  revert i s. induction n as [|n IH]; intros i s H; cbn [find_suffix]; [done|].
  pose proof (H 0%nat ltac:(lia)) as H0. rewrite drop_0 in H0. rewrite H0. apply IH. intros k Hk.
  pose proof (H (S k) ltac:(lia)) as Hs. destruct s; [cbn [tail]; by rewrite drop_nil|done].
Qed.

Lemma body_end_le body : (body_end body <= length body)%nat.
Proof.
  unfold body_end. destruct (find_suffix is_fb_prefix _ _ _) eqn:E1.
  { apply find_suffix_range in E1. lia. }
  destruct (find_suffix is_partial_prefix _ _ _) eqn:E2; [|lia].
  apply find_suffix_range in E2. lia.
Qed.

Lemma parse_one_range buf :
  match parse_one_response buf with
  | Ok (_, n) => (4 <= n <= length buf)%nat
  | Err _ => True
  | Panic => False
  end.
Proof.
  unfold parse_one_response. destruct (Z.ltb_spec (zlen buf) 4); [done|].
  destruct (negb _); [done|]. case_bool_decide.
  - destruct (Z.ltb_spec (zlen buf) 12); [done|]. pose proof (parse_no_panic (take 12 buf)).
    destruct (parse (take 12 buf)); try done. cbn. unfold zlen in *. lia.
  - destruct (existsb _ _); [|done]. pose proof (parse_no_panic (take (4 + body_end (drop 4 buf)) buf)).
    destruct (parse _); try done. cbn [res_bind]. pose proof (body_end_le (drop 4 buf)) as Hb.
    rewrite length_drop in Hb. unfold zlen in *. lia.
Qed.

Lemma resync_length accum : (length (snd (resync accum)) <= length accum)%nat.
Proof.
  unfold resync. destruct (is_fb_prefix accum); [done|].
  destruct (find_suffix is_fb_prefix _ _ _); [cbn; rewrite length_drop; lia|].
  destruct (find_suffix _ _ _ _); cbn; [rewrite length_drop|]; lia.
Qed.

Lemma is_fb_prefix_length s : is_fb_prefix s = true -> (4 <= length s)%nat.
Proof. unfold is_fb_prefix, zlen. destruct (Z.ltb_spec (Z.of_nat (length s)) 4); [done|lia]. Qed.

Lemma resync_prefix accum a : resync accum = (Some tt, a) -> is_fb_prefix a = true.
Proof.
  unfold resync. destruct (is_fb_prefix accum) eqn:E; [by intros [= <-]|].
  destruct (find_suffix is_fb_prefix _ _ _) eqn:E1; [|by case_match].
  intros [= <-]. pose proof (find_suffix_range _ _ _ _ _ E1). apply find_suffix_true in E1.
  destruct accum; [by rewrite drop_nil in *|]. destruct n; [lia|].
  cbn [tail] in E1. cbn [drop]. by replace n with (S n - 1)%nat by lia.
Qed.

Lemma scan_fuel fuel : forall accum logs,
  (length accum < fuel)%nat ->
  exists a l r, scan fuel accum logs = Some (a, l, r) /\ (length a <= length accum)%nat.
Proof.
  induction fuel as [|fuel IH]; intros accum logs Hf; [lia|]. cbn [scan].
  destruct accum as [|b accum']; [by exists [], logs, None|]. set (accum := b :: accum') in *.
  pose proof (resync_length accum) as Hl. destruct (resync accum) as [[[]|] a] eqn:Er; cbn [snd] in Hl.
  2: { by exists a, logs, None. }
  pose proof (is_fb_prefix_length a (resync_prefix _ _ Er)) as H4.
  pose proof (parse_one_range a) as Hr.
  destruct (parse_one_response a) as [[resp n]|e|]; [|destruct e|done].
  - assert (length (drop n a) < fuel)%nat as Hd by (rewrite length_drop; lia).
    assert (length (drop n a) <= length accum)%nat as Hd' by (rewrite length_drop; lia).
    destruct resp; try (eexists _, _, _; split; [done|]; lia).
    1, 2: destruct (IH (drop n a) (logs ++ [s]) Hd) as (a' & l & r & -> & Hle);
      exists a', l, r; (split; [done|lia]).
  - exists a, logs, None. split; [done|lia].
  - destruct (IH (drop 1 a) logs ltac:(rewrite length_drop; lia)) as (a' & l & r & -> & Hle).
    exists a', l, r. rewrite length_drop in Hle. split; [done|lia].
  - destruct (IH (drop 1 a) logs ltac:(rewrite length_drop; lia)) as (a' & l & r & -> & Hle).
    exists a', l, r. rewrite length_drop in Hle. split; [done|lia].
Qed.

Lemma scan_all_some accum logs :
  exists a l r, scan_all accum logs = Some (a, l, r) /\ (length a <= length accum)%nat.
Proof. apply scan_fuel. lia. Qed.

(** ** The response loops return *)

Lemma recv_raw_returns fuel : forall t accum logs,
  mode t = Raw -> zlen (read_buf t) <= read_pos t ->
  (script_size (incoming (stream t)) < fuel)%nat ->
  exists t' l r, recv_raw fuel t accum logs = (t', (l, Some r)) /\ r <> Panic.
Proof.
  induction fuel as [|fuel IH]; intros t accum logs Hm Hb Hf; [lia|]. cbn [recv_raw].
  destruct (scan_all_some accum logs) as (a & l & r & -> & _).
  destruct r as [resp|]; [by eexists _, _, _|].
  unfold tcp_read. change (4096 =? 0) with false. cbn match.
  rewrite (proj2 (Z.ltb_ge (read_pos t) _)) by done. rewrite Hm.
  pose proof (read_progress 4096 (incoming (stream t)) ltac:(lia)) as Hp.
  destruct (read 4096 _) as [q [[|b bs]|e]]; [by eexists _, _, _| |by eexists _, _, _].
  specialize (Hp ltac:(done)). apply IH; [done|done|]. cbn in *. lia.
Qed.

Lemma recv_framed_returns fuel : forall t logs,
  (script_size (incoming (stream t)) < fuel)%nat ->
  exists t' l r, recv_framed fuel t logs = (t', (l, Some r)) /\ r <> Panic.
Proof.
  induction fuel as [|fuel IH]; intros t logs Hf; [lia|]. cbn [recv_framed].
  pose proof (read_exact_progress (incoming (stream t)) 8 ltac:(lia)) as Hp.
  destruct (read_exact 8 _) as [q [len_buf|e|]]; [|by eexists _, _, _|done].
  destruct (_ <? be_val len_buf); [by eexists _, _, _|].
  pose proof (read_exact_size q (be_val len_buf)) as Hs. cbn [stream set_queue set_stream incoming set_incoming].
  destruct (read_exact _ q) as [q' [msg|e|]]; [|by eexists _, _, _|done].
  pose proof (parse_no_panic msg).
  destruct (parse msg) as [[]|e|]; try done; try (by eexists _, _, _); apply IH; cbn; lia.
Qed.

(** Receiving a response always returns, in both modes, whatever the peer sends and wherever
    the stream is cut or fails: the size of what can still be read, and one more, is enough
    fuel, and nothing is indexed out of range. *)
Theorem fb_recv_returns t logs :
  0 <= read_pos t ->
  exists t' l r,
    recv_response_with_info (S (script_size (incoming (stream t)))) t logs = (t', (l, Some r)) /\ r <> Panic.
Proof.
  intros Hp. unfold recv_response_with_info, take_buffer.
  destruct (mode t) eqn:Hm; [|apply recv_framed_returns; lia].
  destruct (Z.ltb_spec (read_pos t) (zlen (read_buf t))).
  - apply recv_raw_returns; [done|done|cbn; lia].
  - apply recv_raw_returns; [done|done|lia].
Qed.

Lemma fb_recv_returns_witness :
  exists t' l r,
    recv_response_with_info 9 (mk_tcp (mk_conn [inl (B "INF"); inl (B "Oa")] [] None) Raw [] 0) []
    = (t', (l, Some r)) /\ r <> Panic.
Proof.
  apply (fb_recv_returns (mk_tcp (mk_conn [inl (B "INF"); inl (B "Oa")] [] None) Raw [] 0) []). cbn. lia.
Defined.

(** ** Framed mode *)

(** A message as the peer sends it. *)
Definition frame (m : bytes) : bytes := be_bytes 8 (zlen m) ++ m.

Definition frame_ok (m : bytes) : Prop := zlen m <= MAX_LENGTH_PREFIXED_PAYLOAD.

Lemma be_val_len m : frame_ok m -> be_val (be_bytes 8 (zlen m)) = zlen m.
Proof.
  unfold frame_ok, MAX_LENGTH_PREFIXED_PAYLOAD. intros. apply be_val_bytes_id.
  pose proof (zlen_nonneg m). unfold uint. cbn. lia.
Qed.

Lemma read_frame q m rest :
  arrives q (frame m ++ rest) -> frame_ok m ->
  exists q1 q2, read_exact 8 q = (q1, Ok (be_bytes 8 (zlen m))) /\
    read_exact (zlen m) q1 = (q2, Ok m) /\ arrives q2 rest.
Proof.
  intros Ha Hm. unfold frame in Ha. rewrite <- app_assoc in Ha.
  destruct (arrives_read_exact_app _ _ _ Ha) as (q1 & H1 & Ha1). rewrite zlen_be_bytes in H1.
  destruct (arrives_read_exact_app _ _ _ Ha1) as (q2 & H2 & Ha2). by exists q1, q2.
Qed.

Definition is_log (r : FastbootResponse) : Prop :=
  match r with Info_ _ | Text_ _ => True | _ => False end.
Definition log_text (r : FastbootResponse) : bytes :=
  match r with Info_ m | Text_ m => m | _ => [] end.

Definition wire_ok (r : FastbootResponse) : Prop := response_ok r /\ frame_ok (render r).

Lemma too_large_false m : frame_ok m -> (MAX_LENGTH_PREFIXED_PAYLOAD <? zlen m) = false.
Proof. intros. by apply Z.ltb_ge. Qed.

Lemma recv_framed_messages fuel infos : forall t logs final rest,
  arrives (incoming (stream t)) (concat (map (fun r => frame (render r)) (infos ++ [final])) ++ rest) ->
  Forall (fun r => is_log r /\ wire_ok r) infos -> ~ is_log final -> wire_ok final ->
  (length infos < fuel)%nat ->
  exists q, recv_framed fuel t logs = (set_queue q t, (logs ++ map log_text infos, Some (Ok final))) /\
    arrives q rest.
Proof.
  revert infos. induction fuel as [|fuel IH]; intros infos t logs final rest Ha HF Hnl [Hok Hfr] Hfuel; [lia|].
  destruct HF as [|r infos [Hlog [Hok' Hfr']] HF]; cbn [app map concat] in Ha; cbn [recv_framed].
  - rewrite app_nil_r in Ha.
    destruct (read_frame _ _ _ Ha Hfr) as (q1 & q2 & -> & H2 & Ha2).
    rewrite be_val_len, too_large_false by done. cbn [stream set_queue set_stream incoming set_incoming].
    rewrite H2, parse_render by done. exists q2. rewrite app_nil_r.
    split; [|done]. by destruct final.
  - rewrite <- app_assoc in Ha.
    destruct (read_frame _ _ _ Ha Hfr') as (q1 & q2 & -> & H2 & Ha2).
    rewrite be_val_len, too_large_false by done. cbn [stream set_queue set_stream incoming set_incoming].
    rewrite H2, parse_render by done.
    set (t2 := set_queue q2 (set_queue q1 t)).
    destruct (IH infos t2 (logs ++ [log_text r]) final rest Ha2 HF Hnl (conj Hok Hfr) ltac:(cbn in Hfuel; lia))
      as (q & Hq & Haq).
    exists q. split; [|done]. cbn [map].
    rewrite (cons_middle (log_text r)), app_assoc. by destruct r.
Qed.

(** In framed mode, when the peer sends INFO and TEXT messages and then a final response, each
    in its frame, with the stream cut anywhere, receiving a response returns the final one and
    the texts in order, and leaves the stream exactly behind its frame. *)
Theorem fb_framed_recv t logs infos final rest :
  mode t = LengthPrefixed ->
  arrives (incoming (stream t)) (concat (map (fun r => frame (render r)) (infos ++ [final])) ++ rest) ->
  Forall (fun r => is_log r /\ wire_ok r) infos -> ~ is_log final -> wire_ok final ->
  exists q, recv_response_with_info (S (length infos)) t logs =
      (set_queue q t, (logs ++ map log_text infos, Some (Ok final))) /\ arrives q rest.
Proof. intros Hm ????. unfold recv_response_with_info. rewrite Hm. apply recv_framed_messages; auto. Qed.

Lemma fb_framed_recv_witness :
  let data := frame (B "INFOerasing") ++ frame (B "OKAY") in
  let t := mk_tcp (mk_conn [inl (take 11 data); inl (drop 11 data)] [] None) LengthPrefixed [] 0 in
  exists q, recv_response_with_info 2 t [] = (set_queue q t, ([B "erasing"], Some (Ok (Okay [])))) /\
    arrives q [].
Proof.
  intros data t.
  apply (fb_framed_recv t [] [Info_ (B "erasing")] (Okay []) []); try done.
  - rewrite app_nil_r. change (concat _) with (take 11 data ++ drop 11 data ++ []).
    constructor; [done|]. by apply (arrives_cons _ _ []); [|constructor].
  - constructor; [|constructor]. done.
  - by intros [].
Defined.

(** What remains to be read in framed mode: the rest of the current message and the messages of
    the frames still to come. *)
Definition frames_left (t : FastbootTcpTransport) (d : bytes) : Prop :=
  0 <= read_pos t <= zlen (read_buf t) /\
  exists ms, arrives (incoming (stream t)) (concat (map frame ms)) /\
    Forall (fun m => m <> [] /\ frame_ok m) ms /\
    d = drop (Z.to_nat (read_pos t)) (read_buf t) ++ concat ms.

Lemma serve_buffer_spec len t :
  0 < len -> 0 <= read_pos t < zlen (read_buf t) ->
  let '(t', bs) := serve_buffer len t in
  bs <> [] /\ zlen bs <= len /\ stream t' = stream t /\ mode t' = mode t /\
  0 <= read_pos t' <= zlen (read_buf t') /\
  drop (Z.to_nat (read_pos t)) (read_buf t) = bs ++ drop (Z.to_nat (read_pos t')) (read_buf t').
Proof.
  intros Hl Hp. unfold serve_buffer.
  set (n := Z.min len (zlen (read_buf t) - read_pos t)).
  assert (zlen (slice (read_pos t) (read_pos t + n) (read_buf t)) = n) as Hz by (rewrite zlen_slice; lia).
  assert (drop (Z.to_nat (read_pos t)) (read_buf t)
          = slice (read_pos t) (read_pos t + n) (read_buf t) ++ drop (Z.to_nat (read_pos t + n)) (read_buf t)) as Hd.
  { unfold slice. replace (Z.to_nat (read_pos t + n)) with (Z.to_nat (read_pos t) + Z.to_nat n)%nat by lia.
    rewrite <- drop_drop. replace (read_pos t + n - read_pos t) with n by lia. by rewrite take_drop. }
  destruct (Z.leb_spec (zlen (read_buf t)) (read_pos t + n)); cbn [read_pos read_buf set_buf stream mode];
    split_and!; try done; try lia.
  1, 3: intros E; rewrite E in Hz; change (zlen []) with 0 in Hz; lia.
  - change (drop (Z.to_nat 0) []) with (@nil byte). rewrite Hd at 1. f_equal.
    apply drop_ge. unfold zlen in *. lia.
Qed.

(** In framed mode, reads return the bytes of the messages in order and complete, whatever the
    sizes of the reads, the frames and the segments: a read returns a non-empty part of what is
    left, at most as long as asked for, and leaves the rest; at the end it is an error. *)
Theorem fb_framed_read t len d :
  mode t = LengthPrefixed -> 0 < len -> frames_left t d ->
  match tcp_read len t with
  | (t', Ok bs) => bs <> [] /\ zlen bs <= len /\ mode t' = LengthPrefixed /\
      exists d', d = bs ++ d' /\ frames_left t' d'
  | (_, Err e) => d = [] /\ e = unexpected_eof
  | (_, Panic) => False
  end.
Proof.
  intros Hm Hl (Hp & ms & Ha & HF & ->). unfold tcp_read. rewrite (proj2 (Z.eqb_neq len 0)) by lia.
  destruct (Z.ltb_spec (read_pos t) (zlen (read_buf t))) as [Hlt|Hge].
  { pose proof (serve_buffer_spec len t Hl ltac:(lia)) as Hs.
    destruct (serve_buffer len t) as [t' bs]. destruct Hs as (? & ? & Hst & Hmo & Hp' & ->).
    split_and!; [done|done|by rewrite Hmo|]. eexists. rewrite <- app_assoc. split; [done|].
    split; [done|]. exists ms. by rewrite Hst. }
  rewrite Hm. rewrite drop_ge by (unfold zlen in *; lia). cbn [app].
  destruct HF as [|m ms [Hne Hok] HF]; cbn [map concat] in *.
  { inversion Ha as [Hq|seg q d' Hseg Hq Hi Hd]; subst; [done|]. by destruct seg. }
  destruct (read_frame _ _ _ Ha Hok) as (q1 & q2 & -> & H2 & Ha2).
  rewrite be_val_len, too_large_false by done. cbn [stream set_queue set_stream incoming set_incoming read_buf].
  unfold read_exact in H2. destruct (read_exact_go q1 (zlen m) []) as [[q' got] e].
  destruct e; [done|]. injection H2 as -> ->. pose proof (zlen_nonneg m).
  rewrite write_at_in by zg. change (Z.to_nat 0) with 0%nat. rewrite take_0. cbn [app].
  rewrite drop_ge by (unfold resize; rewrite length_app, length_take, length_replicate; unfold zlen; lia).
  rewrite app_nil_r.
  assert (0 < zlen m) by (destruct m; [done|rewrite zlen_cons in *; pose proof (zlen_nonneg m); lia]).
  assert (zlen (slice 0 (Z.min len (zlen m)) m) = Z.min len (zlen m)) as Hz by (rewrite zlen_slice; lia).
  split_and!.
  - intros E. rewrite E in Hz. change (zlen []) with 0 in Hz. lia.
  - lia.
  - done.
  - eexists. split.
    2: { split; [cbn [read_pos read_buf set_buf]; lia|]. exists ms. split_and!; [done|done|].
         cbn [read_pos read_buf set_buf]. reflexivity. }
    rewrite app_assoc. f_equal. unfold slice. rewrite drop_0, Z.sub_0_r. by rewrite take_drop.
Qed.

Lemma fb_framed_read_witness :
  let t := mk_tcp (mk_conn [inl (frame (B "hello"))] [] None) LengthPrefixed [] 0 in
  frames_left t (B "hello") /\
  match tcp_read 3 t with
  | (t', Ok bs) => bs <> [] /\ zlen bs <= 3 /\ mode t' = LengthPrefixed /\
      exists d', B "hello" = bs ++ d' /\ frames_left t' d'
  | (_, Err e) => B "hello" = [] /\ e = unexpected_eof
  | (_, Panic) => False
  end.
Proof.
  intros t. assert (frames_left t (B "hello")) as H.
  { split; [done|]. exists [B "hello"]. split_and!; [by apply arrives_one| |done].
    by repeat constructor. }
  split; [done|]. by apply fb_framed_read.
Defined.

(** A framed write puts one frame on the stream, and a peer that reads frames gets back exactly
    the written bytes. *)
Theorem fb_framed_write t buf t' r peer :
  mode t = LengthPrefixed -> outgoing (stream t) = [] -> tcp_write buf t = (t', Ok r) ->
  buf <> [] -> frame_ok buf ->
  mode peer = LengthPrefixed -> read_pos peer = 0 -> read_buf peer = [] ->
  arrives (incoming (stream peer)) (outgoing (stream t')) ->
  r = zlen buf /\ frames_left peer buf.
Proof.
  intros Hm Ho Hw Hb Hok Hpm Hpp Hpb Ha. revert Hw. unfold tcp_write, write_all, write. rewrite Hm.
  destruct (wfail (stream t)) as [e|]; [done|]. cbn. rewrite Ho. intros [= <- <-].
  split; [done|]. split; [by rewrite Hpp, Hpb|]. exists [buf].
  split_and!.
  - cbn [map concat]. rewrite app_nil_r. exact Ha.
  - by repeat constructor.
  - rewrite Hpb, Hpp. cbn. by rewrite app_nil_r.
Qed.

Lemma fb_framed_write_witness :
  let t := mk_tcp (mk_conn [] [] None) LengthPrefixed [] 0 in
  let '(t', _) := tcp_write (B "getvar:all") t in
  let peer := mk_tcp (mk_conn [inl (outgoing (stream t'))] [] None) LengthPrefixed [] 0 in
  frames_left peer (B "getvar:all").
Proof.
  intros t. destruct (tcp_write (B "getvar:all") t) as [t' r] eqn:E. intros peer.
  assert (r = Ok 10 /\ outgoing (stream t') = frame (B "getvar:all")) as [Hr Ho]
    by (injection E as <- <-; done).
  rewrite Hr in E.
  apply (fb_framed_write t (B "getvar:all") t' 10 peer); try done.
  unfold peer. cbn. rewrite Ho. by apply arrives_one.
Defined.

(** ** The handshake *)

Lemma handshake_read_arrives q d acc :
  arrives q d -> zlen acc <= 4 ->
  exists q', handshake_read q acc = (q', acc ++ take (Z.to_nat (4 - zlen acc)) d) /\
    arrives q' (drop (Z.to_nat (4 - zlen acc)) d).
Proof.
  intros Ha. revert acc. induction Ha as [|seg q d Hseg Ha IH]; intros acc Hacc; cbn [handshake_read].
  { exists []. rewrite take_nil, drop_nil, app_nil_r. split; [by destruct (4 <=? _)|constructor]. }
  destruct (Z.leb_spec 4 (zlen acc)) as [H4|H4].
  { replace (Z.to_nat (4 - zlen acc)) with 0%nat by lia. rewrite take_0, drop_0, app_nil_r.
    eexists. split; [done|by constructor]. }
  assert (0 < zlen seg) as Hs by (destruct seg; [done|rewrite zlen_cons; pose proof (zlen_nonneg seg); lia]).
  rewrite (proj2 (Z.eqb_neq _ 0)) by lia.
  destruct (Z.leb_spec (zlen seg) (4 - zlen acc)) as [Hle|Hlt].
  - destruct (IH (acc ++ seg) ltac:(zg)) as (q' & -> & Ha'). exists q'. rewrite zlen_app in *.
    unfold zlen in *. rewrite take_app_ge, drop_app_ge by lia.
    replace (Z.to_nat (4 - Z.of_nat (length acc)) - length seg)%nat
      with (Z.to_nat (4 - (Z.of_nat (length acc) + Z.of_nat (length seg)))) by lia.
    by rewrite <- app_assoc.
  - unfold zlen in *. rewrite take_app_le, drop_app_le by lia. eexists. split; [done|].
    constructor; [|done]. intros E. apply (f_equal length) in E. rewrite length_drop in E. cbn in E. lia.
Qed.

Lemma drain_extra_arrives q d acc : arrives q d -> drain_extra q acc = ([], acc ++ d).
Proof.
  intros Ha. revert acc. induction Ha as [|seg q d Hseg Ha IH]; intros acc; cbn [drain_extra].
  { by rewrite app_nil_r. }
  assert (0 < zlen seg) as Hs by (destruct seg; [done|rewrite zlen_cons; pose proof (zlen_nonneg seg); lia]).
  rewrite (proj2 (Z.eqb_neq _ 0)) by lia. by rewrite IH, app_assoc.
Qed.

(** The handshake chooses framed mode exactly when the peer's first bytes are FB, and then the
    stream is behind the peer's four bytes; otherwise the mode is raw and nothing that the peer
    sent is lost: the buffer and the rest of the stream are all of it. *)
Theorem fb_handshake c d :
  arrives (incoming c) d -> wfail c = None ->
  let t := new_internal c true in
  outgoing (stream t) = outgoing c ++ B "FB01" /\ read_pos t = 0 /\
  if starts_with (B "FB") d
  then mode t = LengthPrefixed /\ read_buf t = [] /\ arrives (incoming (stream t)) (drop 4 d)
  else mode t = Raw /\
    exists rest, arrives (incoming (stream t)) rest /\ read_buf t ++ rest = d.
Proof.
  intros Ha Hw t. subst t. unfold new_internal, perform_handshake, write_all, write. rewrite Hw.
  cbn [res_bind incoming]. destruct (handshake_read_arrives _ _ [] Ha ltac:(done)) as (q & -> & Ha').
  change (Z.to_nat (4 - zlen [])) with 4%nat in *. cbn [app].
  assert ((2 <=? zlen (take 4 d)) && bool_decide (take 2 (take 4 d) = B "FB") = starts_with (B "FB") d) as ->.
  { unfold starts_with. change (length (B "FB")) with 2%nat. rewrite take_take. cbn [Nat.min].
    case_bool_decide as E; [|by rewrite andb_false_r]. rewrite andb_true_r. apply Z.leb_le.
    apply (f_equal length) in E. rewrite length_take in E. unfold zlen. rewrite length_take.
    change (length (B "FB")) with 2%nat in E. lia. }
  destruct (starts_with (B "FB") d).
  - cbn. done.
  - destruct (_ && is_fb_prefix _).
    + rewrite (drain_extra_arrives _ _ _ Ha'). cbn. split_and!; [done|done|done|].
      exists []. split; [constructor|]. by rewrite app_nil_r, (take_drop 4 d).
    + cbn. split_and!; [done|done|done|]. eexists. split; [exact Ha'|]. apply (take_drop 4 d).
Qed.

Lemma fb_handshake_witness :
  let t := new_internal (mk_conn [inl (B "F"); inl (B "B01"); inl (B "x")] [] None) true in
  mode t = LengthPrefixed /\ read_buf t = [] /\ arrives (incoming (stream t)) (B "x").
Proof.
  apply (fb_handshake (mk_conn [inl (B "F"); inl (B "B01"); inl (B "x")] [] None) (B "FB01x")); [|done].
  cbn [incoming]. apply (arrives_cons (B "F") _ (B "B01x")); [done|].
  apply (arrives_cons (B "B01") _ (B "x")); [done|]. by apply arrives_one.
Defined.

(** ** Raw mode *)

(** A text the scanner cannot cut: no prefix in it, and no part of one at its end. *)
Definition clean (body : bytes) : Prop :=
  forall k, (k < length body)%nat ->
    is_fb_prefix (drop k body) = false /\ is_partial_prefix (drop k body) = false.

Definition clean_response (r : FastbootResponse) : Prop :=
  response_ok r /\
  match r with Okay s | Fail_ s | Info_ s | Text_ s => clean s | Data _ => True end.

Lemma body_end_clean body : clean body -> body_end body = length body.
Proof.
  intros Hc. unfold body_end.
  rewrite find_suffix_none by (intros k Hk; apply Hc; lia).
  rewrite find_suffix_none; [done|]. intros k Hk. rewrite drop_drop. apply Hc. lia.
Qed.

Lemma is_fb_prefix_app h x : existsb (fun p => bool_decide (h = p)) FB_PREFIXES = true -> is_fb_prefix (h ++ x) = true.
Proof.
  intros Hh. assert (length h = 4%nat) as Hl.
  { apply existsb_exists in Hh as (p & Hp & ->%bool_decide_eq_true).
    by repeat (destruct Hp as [<-|Hp]; [done|]). }
  unfold is_fb_prefix. rewrite (proj2 (Z.ltb_ge _ 4)) by (unfold zlen; rewrite length_app; lia).
  by rewrite take_app_length'.
Qed.

Lemma render_prefix r : is_fb_prefix (render r) = true.
Proof. by destruct r; apply is_fb_prefix_app. Qed.

Lemma parse_one_render r :
  clean_response r -> parse_one_response (render r) = Ok (r, length (render r)).
Proof.
  intros [Hok Hc]. pose proof (is_fb_prefix_length _ (render_prefix r)) as H4.
  unfold parse_one_response. rewrite (proj2 (Z.ltb_ge _ 4)) by (unfold zlen; lia).
  pose proof (parse_render r Hok) as Hp.
  destruct r as [s|s|n|s|s]; cbn [render] in *; rewrite take_app_length' by done;
    try (rewrite drop_app_length' by done; rewrite (body_end_clean s Hc)).
  3: { change (negb (is_utf8 _)) with false. rewrite (bool_decide_eq_true_2 (B "DATA" = B "DATA")) by done.
       cbn match.
       assert (length (B "DATA" ++ fmt_hex_pad 8 n) = 12%nat) as Hl.
       { cbn [response_ok] in Hok. rewrite length_app. unfold u32, uint in Hok. rewrite length_fmt_hex_pad; [done|lia|].
         change (16 ^ Z.of_nat 8) with (2 ^ 32). lia. }
       rewrite (proj2 (Z.ltb_ge _ 12)) by (unfold zlen; rewrite Hl; lia).
       rewrite take_ge by (rewrite Hl; lia). rewrite Hp. cbn [res_bind]. by rewrite Hl. }
  all: change (negb (is_utf8 _)) with false; cbn match;
    match goal with |- context [bool_decide (?a = B "DATA")] =>
      rewrite (bool_decide_eq_false_2 (a = B "DATA")) by done end;
    change (existsb _ _) with true; cbv zeta; cbn match;
    rewrite take_ge by (rewrite length_app; cbn; lia); rewrite Hp; cbn [res_bind]; by rewrite length_app.
Qed.

Lemma scan_render r logs :
  clean_response r ->
  scan_all (render r) logs = Some match r with
    | Info_ m | Text_ m => ([], logs ++ [m], None)
    | r => ([], logs, Some r)
    end.
Proof.
  intros Hc. unfold scan_all. pose proof (is_fb_prefix_length _ (render_prefix r)) as H4.
  destruct (render r) as [|b s] eqn:Er; [cbn in H4; lia|]. cbn [scan]. rewrite <- Er.
  unfold resync. rewrite render_prefix, parse_one_render by done. rewrite drop_all.
  by destruct r; cbn [length]; try done; rewrite Er.
Qed.

Lemma recv_raw_segments infos : forall fuel t logs logs' final rest accum,
  mode t = Raw -> zlen (read_buf t) <= read_pos t ->
  incoming (stream t) = map (fun r => inl (render r)) (infos ++ [final]) ++ rest ->
  Forall (fun r => is_log r /\ clean_response r /\ zlen (render r) <= 4096) infos ->
  ~ is_log final -> clean_response final -> zlen (render final) <= 4096 ->
  scan_all accum logs = Some ([], logs', None) -> (length infos + 1 < fuel)%nat ->
  recv_raw fuel t accum logs = (set_queue rest t, (logs' ++ map log_text infos, Some (Ok final))).
Proof.
  induction infos as [|r infos IH]; intros fuel t logs logs' final rest accum Hm Hb Hin HF Hnl Hc Hl Hs Hf;
    (destruct fuel as [|fuel]; [lia|]); cbn [recv_raw]; rewrite Hs; unfold tcp_read;
    change (4096 =? 0) with false; cbn match; rewrite (proj2 (Z.ltb_ge (read_pos t) _)), Hm, Hin by done;
    cbn [map app read].
  - rewrite (proj2 (Z.leb_le _ 4096)) by done.
    destruct (render final) as [|b s] eqn:Er.
    { pose proof (render_prefix final) as Hp. by rewrite Er in Hp. }
    cbn [app]. rewrite <- Er. destruct fuel as [|fuel]; [cbn in Hf; lia|]. cbn [recv_raw].
    rewrite scan_render by done. rewrite app_nil_r. by destruct final.
  - apply list.Forall_cons in HF as [(Hlog & Hcr & Hlr) HF]. rewrite (proj2 (Z.leb_le _ 4096)) by done.
    destruct (render r) as [|b s] eqn:Er.
    { pose proof (render_prefix r) as Hp. by rewrite Er in Hp. }
    cbn [app]. rewrite <- Er.
    rewrite (IH fuel _ logs' (logs' ++ [log_text r]) final rest); try done.
    + cbn [map]. by rewrite <- app_assoc.
    + rewrite scan_render by done. by destruct r.
    + cbn in Hf. lia.
Qed.

(** In raw mode, responses that each arrive in a segment of their own, at most as long as the
    read buffer, with texts that contain no response prefix, are received one by one: the
    messages are collected, the final response is returned, the rest stays in the stream. *)
Theorem fb_raw_recv t logs infos final rest :
  mode t = Raw -> read_buf t = [] -> read_pos t = 0 ->
  incoming (stream t) = map (fun r => inl (render r)) (infos ++ [final]) ++ rest ->
  Forall (fun r => is_log r /\ clean_response r /\ zlen (render r) <= 4096) infos ->
  ~ is_log final -> clean_response final -> zlen (render final) <= 4096 ->
  recv_response_with_info (length infos + 2) t logs =
    (set_queue rest t, (logs ++ map log_text infos, Some (Ok final))).
Proof.
  intros Hm Hb Hp Hin HF Hnl Hc Hl. unfold recv_response_with_info, take_buffer.
  rewrite Hm, Hb, Hp. change (0 <? zlen []) with false. cbn match.
  apply (recv_raw_segments infos _ t logs logs final rest []); try done; [by rewrite Hb, Hp|lia].
Qed.

Lemma clean_dec body :
  forallb (fun k => negb (is_fb_prefix (drop k body)) && negb (is_partial_prefix (drop k body)))
    (seq 0 (length body)) = true -> clean body.
Proof.
  rewrite forallb_forall. intros H k Hk. specialize (H k). rewrite in_seq in H.
  specialize (H ltac:(lia)). apply andb_prop in H as [H1 H2].
  by apply negb_true_iff in H1, H2.
Qed.

Lemma fb_raw_recv_witness :
  let t := mk_tcp (mk_conn [inl (B "INFOerasing"); inl (B "OKAYdone"); inl (B "x")] [] None) Raw [] 0 in
  recv_response_with_info 3 t [] =
    (set_queue [inl (B "x")] t, ([B "erasing"], Some (Ok (Okay (B "done"))))).
Proof.
  apply (fb_raw_recv (mk_tcp (mk_conn [inl (B "INFOerasing"); inl (B "OKAYdone"); inl (B "x")] [] None) Raw [] 0)
    [] [Info_ (B "erasing")] (Okay (B "done")) [inl (B "x")]); try done.
  - constructor; [|constructor]. split_and!; [done| |done]. split; [done|]. by apply clean_dec.
  - by intros [].
  - split; [done|]. by apply clean_dec.
Defined.

(** A response cut by the network is not put together again: the first part is returned as the
    whole response, and the rest, which starts with no prefix, is dropped by the next call. *)
Example fb_raw_cut :
  let t := mk_tcp (mk_conn [inl (B "OKAYab"); inl (B "cdefg"); inl (B "OKAY")] [] None) Raw [] 0 in
  let '(t1, r1) := recv_response_with_info 5 t [] in
  let '(t2, r2) := recv_response_with_info 5 t1 [] in
  r1 = ([], Some (Ok (Okay (B "ab")))) /\ r2 = ([], Some (Ok (Okay []))) /\ incoming (stream t2) = [].
Proof. vm_compute. done. Qed.
