(* ===== verification/FastbootUdp.v ===== *)
(** * The fastboot UDP transport

    [fastboot-protocol/src/udp.rs]: packet headers, the exchange of a packet for its answer with
    retransmissions and continuation packets, the handshake, and [Read] and [Write] over them.

    The definitions are over any socket. Section [Lossy] puts them over a network that loses,
    delays and duplicates datagrams, with a device that follows the protocol, and shows that the
    transport is then a reliable call: every packet is processed once, in order, and its answer
    returned ([udp_reliable]), as long as the network misbehaves no more often than there are
    retries. *)
From S2P Require Import Prelude Text FastbootProto Net FastbootStream.

Definition UDP_HEADER_LEN : Z := 4.
Definition UDP_ID_ERROR : byte := x00.
Definition UDP_ID_QUERY : byte := x01.
Definition UDP_ID_INIT : byte := x02.
Definition UDP_ID_FASTBOOT : byte := x03.
Definition UDP_FLAG_NONE : byte := x00.
Definition UDP_FLAG_CONTINUATION : byte := x01.
Definition MIN_UDP_PACKET_SIZE : Z := 512.
Definition HOST_MAX_UDP_PACKET_SIZE : Z := 8192.
Definition DEFAULT_UDP_PACKET_SIZE : Z := MIN_UDP_PACKET_SIZE.
Definition DEFAULT_UDP_MAX_RETRIES : nat := 120.

(** ** Headers *)
Record UdpHeader := mk_udp { id : byte; flags : byte; seq : Z }.

Definition encode_4byte (h : UdpHeader) : bytes := [id h; flags h] ++ be_bytes 2 (seq h).
Definition encode_2byte (h : UdpHeader) : bytes := [flags h; z2b (Z.land (seq h) 0xff)].

Definition udp_decode (buf : bytes) : res FastbootTransportError (UdpHeader * Z) :=
  if 4 <=? zlen buf then
    let! i := get_index buf 0 in
    let! f := get_index buf 1 in
    let! s := get_slice buf 2 4 in
    Ok (mk_udp i f (be_val s), 4)
  else if 2 <=? zlen buf then
    let! f := get_index buf 0 in
    let! s := get_index buf 1 in
    Ok (mk_udp UDP_ID_FASTBOOT f (b2z s), 2)
  else Err (EProtocol (B "UDP header too short")).

(** ** The transport *)
Record FastbootUdpTransport := mk_transport {
  t_seq : Z;
  max_packet_size : Z;
  max_retries : nat;
  read_buf : bytes;
  read_pos : Z }.

Definition set_seq (s : Z) (t : FastbootUdpTransport) :=
  mk_transport s (max_packet_size t) (max_retries t) (read_buf t) (read_pos t).
Definition set_packet_size (n : Z) (t : FastbootUdpTransport) :=
  mk_transport (t_seq t) n (max_retries t) (read_buf t) (read_pos t).

(** [from_socket], and the state [connect_timeout] starts the handshake from. *)
Definition from_socket : FastbootUdpTransport :=
  mk_transport 0 DEFAULT_UDP_PACKET_SIZE DEFAULT_UDP_MAX_RETRIES [] 0.

Definition set_max_retries (n : nat) (t : FastbootUdpTransport) :=
  mk_transport (t_seq t) (max_packet_size t) n (read_buf t) (read_pos t).

Definition retry_limit : io_error := mk_io TimedOut (B "UDP retransmission limit reached").

Section Transport.
Context {W : Type} `{UdpSocket W}.

(** The retransmission loop: [n] attempts are left. *)
Fixpoint exchange (n : nat) (packet : bytes) (expected_seq : Z) (tx_id : byte)
    (last_err : option io_error) (w : W) : W * res FastbootTransportError (UdpHeader * bytes) :=
  match n with
  | O => (w, Err (EIo (default retry_limit last_err)))
  | S n =>
      match udp_send w packet with
      | (w, Some e) => (w, Err (EIo e))
      | (w, None) =>
          match udp_recv w with
          | (w, inl dgram) =>
              let recv := slice 0 HOST_MAX_UDP_PACKET_SIZE dgram in
              match udp_decode recv with
              | Ok (resp, hlen) =>
                  if negb (seq resp =? expected_seq)
                     || (negb (beqb (id resp) tx_id) && negb (beqb (id resp) UDP_ID_ERROR))
                  then exchange n packet expected_seq tx_id last_err w
                  else (w, let! data := get_slice recv hlen (zlen recv) in Ok (resp, data))
              | Err e => (w, Err e)
              | Panic => (w, Panic)
              end
          | (w, inr e) =>
              if bool_decide (io_kind e = TimedOut) || bool_decide (io_kind e = WouldBlock)
              then exchange n packet expected_seq tx_id (Some e) w
              else (w, Err (EIo e))
          end
      end
  end.

Definition continues (f : byte) : bool := negb (Z.land (b2z f) (b2z UDP_FLAG_CONTINUATION) =? 0).

Definition error_response (data : bytes) : FastbootTransportError :=
  EProtocol (B "UDP Error response from target: " ++ from_utf8_lossy data).

(** The outer loop of [send_packet_with_ack]. A device decides how many continuation packets it
    sends, so the loop takes fuel; [None] is the end of the fuel. *)
Fixpoint ack_loop (fuel : nat) (t : FastbootUdpTransport) (w : W) (tx_id tx_flags : byte)
    (tx result error_data : bytes)
    : FastbootUdpTransport * W * option (res FastbootTransportError bytes) :=
  match fuel with
  | O => (t, w, None)
  | S fuel =>
      let packet := encode_4byte (mk_udp tx_id tx_flags (t_seq t)) ++ tx in
      match exchange (S (max_retries t)) packet (t_seq t) tx_id None w with
      | (w, Ok (resp, data)) =>
          let t := set_seq (wrap 16 (t_seq t + 1)) t in
          let is_err := beqb (id resp) UDP_ID_ERROR in
          let error_data := if is_err then error_data ++ data else error_data in
          let result := if is_err then result else result ++ data in
          if continues (flags resp) then ack_loop fuel t w (id resp) UDP_FLAG_NONE [] result error_data
          else (t, w, Some (match error_data with
                            | [] => Ok result
                            | _ => Err (error_response error_data)
                            end))
      | (w, Err e) => (t, w, Some (Err e))
      | (w, Panic) => (t, w, Some Panic)
      end
  end.

Definition send_packet_with_ack (fuel : nat) (t : FastbootUdpTransport) (w : W) (id flags : byte)
    (payload : bytes) := ack_loop fuel t w id flags payload [] [].

(** A step of a caller of [send_packet_with_ack]: go on with its value, or return its error. *)
Definition and_then {A} (r : FastbootUdpTransport * W * option (res FastbootTransportError bytes))
    (k : FastbootUdpTransport -> W -> bytes -> FastbootUdpTransport * W * option (res FastbootTransportError A))
    : FastbootUdpTransport * W * option (res FastbootTransportError A) :=
  match r with
  | (t, w, Some (Ok v)) => k t w v
  | (t, w, Some (Err e)) => (t, w, Some (Err e))
  | (t, w, Some Panic) => (t, w, Some Panic)
  | (t, w, None) => (t, w, None)
  end.

Definition init_payload : bytes :=
  [x00; x01; z2b (Z.shiftr HOST_MAX_UDP_PACKET_SIZE 8); z2b HOST_MAX_UDP_PACKET_SIZE].

Definition perform_handshake (fuel : nat) (t : FastbootUdpTransport) (w : W)
    : FastbootUdpTransport * W * option (res FastbootTransportError unit) :=
  and_then (send_packet_with_ack fuel t w UDP_ID_QUERY UDP_FLAG_NONE []) (fun t w query =>
  if zlen query <? 2
  then (t, w, Some (Err (EProtocol (B "invalid query response from target")))) else
  let t := set_seq (be_val (slice 0 2 query)) t in
  and_then (send_packet_with_ack fuel t w UDP_ID_INIT UDP_FLAG_NONE init_payload) (fun t w response =>
  if zlen response <? 4
  then (t, w, Some (Err (EProtocol (B "invalid initialization response from target")))) else
  let version := be_val (slice 0 2 response) in
  let remote := be_val (slice 2 4 response) in
  if version <? 1
  then (t, w, Some (Err (EProtocol (B "target reported invalid protocol version " ++ fmt_dec version))))
  else if remote <? MIN_UDP_PACKET_SIZE
  then (t, w, Some (Err (EProtocol (B "target reported invalid packet size " ++ fmt_dec remote))))
  else (set_packet_size (Z.min HOST_MAX_UDP_PACKET_SIZE remote) t, w, Some (Ok tt)))).

(** [Read::read] and [Write::write]; [map_err] of the source wraps the error in an I/O error. *)
Definition as_io (e : FastbootTransportError) : io_error := mk_io Other (transport_error_text e).

Definition udp_read (fuel : nat) (t : FastbootUdpTransport) (w : W) (len : Z)
    : FastbootUdpTransport * W * option (res io_error bytes) :=
  if read_pos t <? zlen (read_buf t) then
    let n := Z.min len (zlen (read_buf t) - read_pos t) in
    let data := slice (read_pos t) (read_pos t + n) (read_buf t) in
    let pos := read_pos t + n in
    let '(buf, pos) := if zlen (read_buf t) <=? pos then ([], 0) else (read_buf t, pos) in
    (mk_transport (t_seq t) (max_packet_size t) (max_retries t) buf pos, w, Some (Ok data))
  else
    match send_packet_with_ack fuel t w UDP_ID_FASTBOOT UDP_FLAG_NONE [] with
    | (t, w, Some (Ok payload)) =>
        (t, w, Some (if len <? zlen payload
                     then Err (mk_io InvalidData
                                 (B "UDP target sent more fastboot data than requested buffer"))
                     else Ok payload))
    | (t, w, Some (Err e)) => (t, w, Some (Err (as_io e)))
    | (t, w, Some Panic) => (t, w, Some Panic)
    | (t, w, None) => (t, w, None)
    end.

Definition max_payload (t : FastbootUdpTransport) : Z :=
  Z.max (Z.max 0 (max_packet_size t - UDP_HEADER_LEN)) 1.

Definition write_chunks (t : FastbootUdpTransport) (buf : bytes) : list bytes :=
  match buf with [] => [[]] | _ => chunks (max_payload t) buf end.

(** The loop over the chunks; the last one has no continuation flag. *)
Fixpoint write_go (fuel : nat) (t : FastbootUdpTransport) (w : W) (cs : list bytes)
    : FastbootUdpTransport * W * option (res io_error unit) :=
  match cs with
  | [] => (t, w, Some (Ok tt))
  | c :: cs =>
      let fl := match cs with [] => UDP_FLAG_NONE | _ => UDP_FLAG_CONTINUATION end in
      match send_packet_with_ack fuel t w UDP_ID_FASTBOOT fl c with
      | (t, w, Some (Ok _)) => write_go fuel t w cs
      | (t, w, Some (Err e)) => (t, w, Some (Err (as_io e)))
      | (t, w, Some Panic) => (t, w, Some Panic)
      | (t, w, None) => (t, w, None)
      end
  end.

Definition udp_write (fuel : nat) (t : FastbootUdpTransport) (w : W) (buf : bytes)
    : FastbootUdpTransport * W * option (res io_error Z) :=
  match write_go fuel t w (write_chunks t buf) with
  | (t, w, Some (Ok _)) => (t, w, Some (Ok (zlen buf)))
  | (t, w, Some (Err e)) => (t, w, Some (Err e))
  | (t, w, Some Panic) => (t, w, Some Panic)
  | (t, w, None) => (t, w, None)
  end.

(** Sending a packet keeps the settings, and the sequence number within 16 bits. *)
Definition udp_kept (t t' : FastbootUdpTransport) : Prop :=
  max_packet_size t' = max_packet_size t /\ max_retries t' = max_retries t /\
  read_buf t' = read_buf t /\ read_pos t' = read_pos t /\ (u16 (t_seq t) -> u16 (t_seq t')).

Lemma ack_loop_keeps fuel : forall t w id fl tx result err, udp_kept t (ack_loop fuel t w id fl tx result err).1.1.
Proof.
  induction fuel as [|fuel IH]; intros t w i fl tx result err; cbn [ack_loop]; [done|].
  destruct (exchange _ _ _ _ _ _) as [w1 [[resp data]|e|]]; [|done..].
  set (t1 := set_seq _ t). assert (udp_kept t t1) as H1 by (split_and!; try done; intros _; by apply uint_wrap).
  destruct (continues _); [|done]. specialize (IH t1 w1 (id resp) UDP_FLAG_NONE []
    (if beqb (id resp) UDP_ID_ERROR then result else result ++ data) (if beqb (id resp) UDP_ID_ERROR then err ++ data else err)).
  destruct H1 as (? & ? & ? & ? & ?), IH as (? & ? & ? & ? & ?). split_and!; try congruence. auto.
Qed.

Lemma write_go_keeps fuel cs : forall t w, udp_kept t (write_go fuel t w cs).1.1.
Proof.
  induction cs as [|c cs IH]; intros t w; cbn [write_go]; [done|].
  set (fl := match cs with [] => _ | _ => _ end). pose proof (ack_loop_keeps fuel t w UDP_ID_FASTBOOT fl c [] []) as H1.
  unfold send_packet_with_ack. destruct (ack_loop _ _ _ _ _ _ _ _) as [[t1 w1] [[r|e|]|]]; cbn in H1; [|done..].
  specialize (IH t1 w1). destruct H1 as (? & ? & ? & ? & ?), IH as (? & ? & ? & ? & ?). split_and!; try congruence. auto.
Qed.

(** C36: For any socket, a handshake that succeeds leaves a packet size between the minimum of the
    protocol and the host's buffer, so that the pieces of a write leave room for the header, and a sequence number of 16
    bits, whatever the device announced; every later read and write keeps both, whether it succeeds or not. *)
Theorem udp_handshake_bounds fuel t w t' w' :
  perform_handshake fuel t w = (t', w', Some (Ok tt)) ->
  MIN_UDP_PACKET_SIZE <= max_packet_size t' <= HOST_MAX_UDP_PACKET_SIZE /\
  max_payload t' + UDP_HEADER_LEN = max_packet_size t' /\ u16 (t_seq t') /\
  (forall t2 fuel2 w2 len, max_packet_size t2 = max_packet_size t' -> u16 (t_seq t2) ->
     let t3 := (udp_read fuel2 t2 w2 len).1.1 in max_packet_size t3 = max_packet_size t' /\ u16 (t_seq t3)) /\
  (forall t2 fuel2 w2 buf, max_packet_size t2 = max_packet_size t' -> u16 (t_seq t2) ->
     let t3 := (udp_write fuel2 t2 w2 buf).1.1 in max_packet_size t3 = max_packet_size t' /\ u16 (t_seq t3)).
Proof.
  intros E. assert (MIN_UDP_PACKET_SIZE <= max_packet_size t' <= HOST_MAX_UDP_PACKET_SIZE /\
    max_payload t' + UDP_HEADER_LEN = max_packet_size t' /\ u16 (t_seq t')) as (H1 & H2 & H3).
  { revert E. unfold perform_handshake, and_then.
    destruct (send_packet_with_ack fuel t w _ _ _) as [[t1 w1] [[q|e|]|]]; try done.
    destruct (Z.ltb_spec (zlen q) 2); [done|]. set (t2 := set_seq _ t1).
    pose proof (ack_loop_keeps fuel t2 w1 UDP_ID_INIT UDP_FLAG_NONE init_payload [] []) as (_ & _ & _ & _ & Hs).
    unfold send_packet_with_ack. destruct (ack_loop _ t2 _ _ _ _ _ _) as [[t3 w3] [[r|e|]|]]; try done. cbn [fst] in Hs.
    destruct (zlen r <? 4); [done|]. destruct (be_val (slice 0 2 r) <? 1); [done|].
    destruct (Z.ltb_spec (be_val (slice 2 4 r)) MIN_UDP_PACKET_SIZE); [done|]. intros [= <- <-].
    assert (u16 (t_seq t2)) as H16.
    { pose proof (be_val_range (slice 0 2 q)) as Hb. rewrite zlen_slice in Hb by lia. exact Hb. }
    unfold max_payload, MIN_UDP_PACKET_SIZE, HOST_MAX_UDP_PACKET_SIZE, UDP_HEADER_LEN in *.
    cbn [max_packet_size set_packet_size t_seq]. split_and!; try lia; by apply Hs. }
  split_and!; try lia; try apply H3.
  - intros t2 fuel2 w2 len Hm Hq. cbn zeta. unfold udp_read. destruct (read_pos t2 <? _).
    { by destruct (_ <=? _). }
    pose proof (ack_loop_keeps fuel2 t2 w2 UDP_ID_FASTBOOT UDP_FLAG_NONE [] [] []) as (Hk & _ & _ & _ & Hs).
    unfold send_packet_with_ack. destruct (ack_loop _ _ _ _ _ _ _ _) as [[t3 w3] [[r|e|]|]]; cbn in *;
      (split; [congruence|by apply Hs]).
  - intros t2 fuel2 w2 buf Hm Hq. cbn zeta. unfold udp_write. pose proof (write_go_keeps fuel2 (write_chunks t2 buf) t2 w2) as (Hk & _ & _ & _ & Hs).
    destruct (write_go _ _ _ _) as [[t3 w3] [[r|e|]|]]; cbn in *; (split; [congruence|by apply Hs]).
Qed.
End Transport.

(** ** Headers are read back *)

Lemma zlen_encode_4byte h : zlen (encode_4byte h) = 4.
Proof. unfold encode_4byte. zg. Qed.
#[export] Hint Rewrite zlen_encode_4byte : zlen_db.

Lemma be_val_app_slice (a : Z) (l m k : bytes) (v : Z) :
  zlen l = a -> zlen m = 2 -> m = be_bytes 2 v -> u16 v -> be_val (slice a (a + 2) (l ++ m ++ k)) = v.
Proof.
  intros Hl Hm -> Hv. rewrite slice_app_here by (rewrite ?Hm; lia). by apply be_val_bytes_id.
Qed.

Lemma udp_decode_encode h data :
  u16 (seq h) -> udp_decode (encode_4byte h ++ data) = Ok (h, 4).
Proof.
  intros Hs. unfold udp_decode. pose proof (zlen_nonneg data).
  rewrite (proj2 (Z.leb_le 4 _)) by zg. unfold encode_4byte. rewrite <- app_assoc.
  cbn [app get_index Z.leb Z.compare Z.to_nat lookup list_lookup res_bind].
  rewrite get_slice_ok by zg. cbn [res_bind].
  change (id h :: flags h :: be_bytes 2 (seq h) ++ data) with ([id h; flags h] ++ be_bytes 2 (seq h) ++ data).
  rewrite slice_app_here by done. rewrite be_val_bytes_id by done. by destruct h.
Qed.

(** ** A lossy network with a device that follows the protocol *)
Section Lossy.
(** The device behind the protocol: it processes a packet (its id, flags and payload) and answers
    with an id, flags and data. *)
Context {D : Type} (respond : D -> byte -> byte -> bytes -> D * (byte * byte * bytes)).

(** An answer has the id of the packet or the error id, and fits the host's buffer. *)
Definition answers_fit : Prop := forall d i f p,
  let '(ri, _, data) := snd (respond d i f p) in
  (ri = i \/ ri = UDP_ID_ERROR) /\ zlen data <= HOST_MAX_UDP_PACKET_SIZE - UDP_HEADER_LEN.

(** The device's side of the protocol: a packet with the expected sequence number is processed
    and its answer kept; a repetition of the packet before is answered with the kept answer; a
    query is answered with the expected sequence number; anything else is ignored. *)
Record Device := mk_device { d_state : D; d_seq : Z; d_last : option bytes }.

Definition answer_bytes (s : Z) (r : byte * byte * bytes) : bytes :=
  encode_4byte (mk_udp (fst (fst r)) (snd (fst r)) s) ++ snd r.

Definition device_receive (d : Device) (packet : bytes) : Device * option bytes :=
  match udp_decode packet with
  | Ok (h, hlen) =>
      let payload := drop (Z.to_nat hlen) packet in
      if beqb (id h) UDP_ID_QUERY
      then (d, Some (answer_bytes (seq h) (UDP_ID_QUERY, UDP_FLAG_NONE, be_bytes 2 (d_seq d))))
      else if seq h =? d_seq d then
        let '(st, r) := respond (d_state d) (id h) (flags h) payload in
        let bs := answer_bytes (seq h) r in
        (mk_device st (wrap 16 (d_seq d + 1)) (Some bs), Some bs)
      else if wrap 16 (seq h + 1) =? d_seq d then (d, d_last d)
      else (d, None)
  | _ => (d, None)
  end.

(** What happens to a datagram sent and its answer, and whether a [recv] times out although
    something may be waiting. Where the lists end the network behaves. *)
Inductive send_fate := Deliver | LoseRequest | LoseResponse | Duplicate.

Record Net := mk_net { dev : Device; inbox : list bytes; sends : list send_fate; delays : list bool }.

Definition net_send (w : Net) (packet : bytes) : Net * option io_error :=
  let rest := tail (sends w) in
  let '(d, r) := device_receive (dev w) packet in
  let '(d2, r2) := device_receive d packet in
  (match default Deliver (head (sends w)) with
   | Deliver => mk_net d (inbox w ++ option_list r) rest (delays w)
   | LoseRequest => mk_net (dev w) (inbox w) rest (delays w)
   | LoseResponse => mk_net d (inbox w) rest (delays w)
   | Duplicate => mk_net d2 (inbox w ++ option_list r ++ option_list r2) rest (delays w)
   end, None).

Definition timeout : io_error := mk_io TimedOut (B "timed out").

Definition net_recv (w : Net) : Net * (bytes + io_error) :=
  let rest := tail (delays w) in
  if default false (head (delays w)) then (mk_net (dev w) (inbox w) (sends w) rest, inr timeout)
  else match inbox w with
       | [] => (mk_net (dev w) [] (sends w) rest, inr timeout)
       | m :: ms => (mk_net (dev w) ms (sends w) rest, inl m)
       end.

#[local] Instance net_socket : UdpSocket Net := { udp_send := net_send; udp_recv := net_recv }.

(** How often the network still misbehaves. *)
Fixpoint bad_sends (l : list send_fate) : nat :=
  match l with [] => 0 | Deliver :: l => bad_sends l | _ :: l => S (bad_sends l) end.
Fixpoint bad_delays (l : list bool) : nat :=
  match l with [] => 0 | false :: l => bad_delays l | true :: l => S (bad_delays l) end.
Definition bad (w : Net) : nat := bad_sends (sends w) + bad_delays (delays w).

(** *** One exchange

    [d0] is the device before it has the packet and [d1] after, [bs] its answer. *)
Section Exchange.
Context (packet : bytes) (s : Z) (i : byte) (d0 d1 : Device) (bs : bytes) (h : UdpHeader).
Context (Hfirst : device_receive d0 packet = (d1, Some bs)).
Context (Hagain : device_receive d1 packet = (d1, Some bs)).
Context (Hfits : zlen bs <= HOST_MAX_UDP_PACKET_SIZE).
Context (Hdec : udp_decode bs = Ok (h, 4)).
Context (Hmatch : negb (seq h =? s) || (negb (beqb (id h) i) && negb (beqb (id h) UDP_ID_ERROR)) = false).

(** A datagram that the loop discards. *)
Definition stale (m : bytes) : Prop :=
  match udp_decode (slice 0 HOST_MAX_UDP_PACKET_SIZE m) with
  | Ok (h, _) =>
      negb (seq h =? s) || (negb (beqb (id h) i) && negb (beqb (id h) UDP_ID_ERROR)) = true
  | _ => False
  end.

(** The inbox during the exchange: [l] is left from before, then [j] copies of the answer. *)
Definition mid (w : Net) (l : list bytes) (j : nat) : Prop :=
  inbox w = l ++ replicate j bs /\ ((dev w = d0 /\ j = 0%nat) \/ dev w = d1).

Lemma replicate_snoc {A} j (x : A) : replicate j x ++ [x] = replicate (S j) x.
Proof. change [x] with (replicate 1 x). rewrite <- replicate_add. f_equal. lia. Qed.

Lemma net_send_mid w l j :
  mid w l j ->
  exists w' j', net_send w packet = (w', None) /\ mid w' l j' /\
    delays w' = delays w /\
    (dev w' = d1 /\ bad w' = bad w /\ j' = S j \/ (bad w' < bad w)%nat /\ (j' + bad w' <= S (j + bad w))%nat).
Proof.
  intros [Hin Hd]. unfold net_send, bad.
  assert (exists d, device_receive (dev w) packet = (d1, Some bs) /\ d = d1) as (d & Hr & ->).
  { destruct Hd as [[-> _]| ->]; eauto. }
  rewrite Hr, Hagain.
  destruct (sends w) as [|[] rest] eqn:Es; cbn [head default tail option_list bad_sends]; eexists.
  1, 2: exists (S j); split; [done|]; unfold mid; cbn; rewrite Hin, <- app_assoc, replicate_snoc; auto 10.
  - exists j. split; [done|]. unfold mid; cbn. split_and!; [done|done|done|]. right. lia.
  - exists j. split; [done|]. unfold mid; cbn. split_and!; [done|auto|done|]. right. lia.
  - exists (S (S j)). split; [done|]. unfold mid; cbn.
    rewrite Hin, <- app_assoc. change [bs; bs] with ([bs] ++ [bs]).
    rewrite (app_assoc (replicate j bs)), !replicate_snoc. split_and!; [done|auto|done|]. right. lia.
Qed.

(** A [recv]: a timeout, a stale datagram, or the answer. *)
Lemma net_recv_mid w l j :
  mid w l j ->
  exists w', sends w' = sends w /\ dev w' = dev w /\
    ((net_recv w = (w', inr timeout) /\ mid w' l j /\
      ((bad w' < bad w)%nat \/ (bad w' = bad w /\ l = [] /\ j = 0%nat))) \/
     (exists m l', l = m :: l' /\ net_recv w = (w', inl m) /\ mid w' l' j /\ bad w' = bad w) \/
     (exists j', l = [] /\ j = S j' /\ net_recv w = (w', inl bs) /\
        inbox w' = replicate j' bs /\ bad w' = bad w)).
Proof.
  intros [Hin Hd]. unfold net_recv, bad, mid.
  assert ((exists rest, delays w = true :: rest) \/
          (default false (head (delays w)) = false /\ bad_delays (tail (delays w)) = bad_delays (delays w)))
    as [[rest Ed]|[Ed Hb]].
  { destruct (delays w) as [|[] rest]; cbn; eauto. }
  - rewrite Ed. cbn [head default tail bad_delays]. eexists.
    split; [|split; [|left; split; [done|]]]; try done. cbn. split; [done|]. left. lia.
  - rewrite Ed. destruct l as [|m l'].
    + destruct j as [|j']; rewrite Hin; cbn [app replicate]; eexists.
      * split; [|split; [|left; split; [done|]]]; try done. cbn. rewrite Hb. auto.
      * split; [|split; [|right; right; exists j'; split_and!; try done]]; try done. cbn. by rewrite Hb.
    + rewrite Hin. cbn [app]. eexists.
      split; [|split; [|right; left; exists m, l'; split_and!; try done]]; try done. cbn. by rewrite Hb.
Qed.

#[local] Strategy 1000 [slice].

Lemma exchange_net n : forall w l j le,
  Forall stale l -> mid w l j ->
  let '(w', r) := exchange n packet s i le w in
  (match r with
   | Ok (h', data) => h' = h /\ data = drop 4 bs /\ dev w' = d1 /\
       exists j', inbox w' = replicate j' bs /\ (j' + bad w' <= length l + j + bad w)%nat
   | Err (EIo _) => dev w' = d0 \/ dev w' = d1
   | _ => False
   end) /\
  ((length l + bad w < n)%nat -> is_ok r = true).
Proof.
  induction n as [|n IH]; intros w l j le Hl Hmid.
  { cbn. split; [destruct Hmid as [_ [[? _]|?]]; auto|lia]. }
  cbn [exchange udp_send udp_recv net_socket].
  destruct (net_send_mid w l j Hmid) as (w1 & j1 & -> & Hmid1 & Hdel & Hb).
  destruct (net_recv_mid w1 l j1 Hmid1) as (w2 & Hsend & Hdev &
    [(-> & Hmid2 & Hb2)|[(m & l' & -> & -> & Hmid2 & Hb2)|(j' & -> & -> & -> & Hin2 & Hb2)]]).
  - (* timed out *)
    replace (bool_decide (io_kind timeout = TimedOut)) with true by done. cbn [orb].
    pose proof (IH w2 l j1 (Some timeout) Hl Hmid2) as IH'.
    destruct (exchange _ _ _ _ _ _) as [w' r]. destruct IH' as [IH1 IH2]. split.
    + destruct r as [[h' data]|[]|]; try done.
      destruct IH1 as (-> & -> & ? & j' & ? & ?). split_and!; try done. exists j'. split; [done|lia].
    + intros. apply IH2. lia.
  - (* a datagram from before *)
    apply list.Forall_cons in Hl as [Hm Hl]. unfold stale in Hm.
    destruct (udp_decode (slice _ _ m)) as [[h' hl]| |]; try done. rewrite Hm.
    pose proof (IH w2 l' j1 le Hl Hmid2) as IH'.
    destruct (exchange _ _ _ _ _ _) as [w' r]. destruct IH' as [IH1 IH2]. cbn [length]. split.
    + destruct r as [[h'' data]|[]|]; try done.
      destruct IH1 as (-> & -> & ? & j' & ? & ?). split_and!; try done. exists j'. split; [done|lia].
    + intros. apply IH2. lia.
  - (* the answer *)
    rewrite slice_full by done. rewrite Hdec, Hmatch.
    assert (4 <= zlen bs) as H4.
    { revert Hdec. unfold udp_decode. destruct (Z.leb_spec 4 (zlen bs)); [done|].
      destruct (2 <=? zlen bs); [|done]. intros E. res_inv E. res_inv E. done. }
    rewrite get_slice_ok by lia. cbn [res_bind is_ok]. split; [|done]. split_and!.
    + done.
    + unfold slice. apply take_ge. rewrite length_drop. unfold zlen. lia.
    + rewrite Hdev. destruct Hmid1 as [_ [[_ ?]|?]]; [lia|done].
    + exists j'. split; [done|]. cbn [length]. lia.
Qed.
End Exchange.

(** *** Calls *)

(** The reliable call: each packet of the conversation is processed once. The number returned is
    the number of packets. *)
Fixpoint ideal_ack (fuel : nat) (d : D) (tx_id tx_flags : byte) (tx result error_data : bytes)
    : D * Z * option (res FastbootTransportError bytes) :=
  match fuel with
  | O => (d, 0, None)
  | S fuel =>
      let '(d, (ri, rf, data)) := respond d tx_id tx_flags tx in
      let error_data := if beqb ri UDP_ID_ERROR then error_data ++ data else error_data in
      let result := if beqb ri UDP_ID_ERROR then result else result ++ data in
      if continues rf then
        let '(d, n, r) := ideal_ack fuel d ri UDP_FLAG_NONE [] result error_data in (d, 1 + n, r)
      else (d, 1, Some (match error_data with
                        | [] => Ok result
                        | _ => Err (error_response error_data)
                        end))
  end.

(** The two sides agree on the next sequence number, and everything in the inbox is old. *)
Definition ready (t : FastbootUdpTransport) (w : Net) (i : byte) : Prop :=
  u16 (t_seq t) /\ d_seq (dev w) = t_seq t /\ Forall (stale (t_seq t) i) (inbox w).

Definition trouble (w : Net) : nat := length (inbox w) + bad w.

Lemma wrap_succ_ne s : u16 s -> wrap 16 (s + 1) <> s.
Proof.
  unfold u16, uint, wrap. intros Hs E.
  destruct (Z.eq_dec s (2 ^ 16 - 1)) as [->|Hne]; [done|]. rewrite Z.mod_small in E by lia. lia.
Qed.

Lemma answer_decode s r : u16 s ->
  udp_decode (answer_bytes s r) = Ok (mk_udp (fst (fst r)) (snd (fst r)) s, 4).
Proof. intros. by apply udp_decode_encode. Qed.

Lemma device_first d i f tx :
  u16 (d_seq d) -> i <> UDP_ID_QUERY ->
  let '(st, r) := respond (d_state d) i f tx in
  let bs := answer_bytes (d_seq d) r in
  let d1 := mk_device st (wrap 16 (d_seq d + 1)) (Some bs) in
  let packet := encode_4byte (mk_udp i f (d_seq d)) ++ tx in
  device_receive d packet = (d1, Some bs) /\ device_receive d1 packet = (d1, Some bs).
Proof.
  intros Hs Hi. destruct (respond (d_state d) i f tx) as [st r] eqn:Er. cbv zeta.
  unfold device_receive. rewrite udp_decode_encode by done. cbn [id flags seq].
  rewrite (proj2 (beqb_false i UDP_ID_QUERY)) by done. change (Z.to_nat 4) with 4%nat.
  rewrite drop_app_length' by done. rewrite Z.eqb_refl, Er. split; [done|]. cbn [d_seq d_last].
  pose proof (wrap_succ_ne _ Hs). rewrite (proj2 (Z.eqb_neq _ _)) by congruence.
  by rewrite Z.eqb_refl.
Qed.

Lemma stale_answer s s' i r :
  u16 s -> s <> s' -> zlen (answer_bytes s r) <= HOST_MAX_UDP_PACKET_SIZE -> stale s' i (answer_bytes s r).
Proof.
  intros Hs Hne Hl. unfold stale. rewrite slice_full, answer_decode by done. cbn [seq].
  by rewrite (proj2 (Z.eqb_neq s s')).
Qed.

Lemma ack_loop_net (Hfit : answers_fit) fuel : forall t w i f tx result err,
  ready t w i -> i <> UDP_ID_QUERY ->
  let '(t', w', r) := ack_loop fuel t w i f tx result err in
  let '(d', n, r') := ideal_ack fuel (d_state (dev w)) i f tx result err in
  (r = r' /\ d_state (dev w') = d' /\ t' = set_seq (wrap 16 (t_seq t + n)) t /\
   (r' <> None -> forall k, ready t' w' k) /\ (trouble w' <= trouble w)%nat) \/
  ((max_retries t < trouble w)%nat /\ exists e, r = Some (Err (EIo e))).
Proof.
  induction fuel as [|fuel IH]; intros t w i f tx result err Hready Hi.
  { left. cbn. destruct Hready as (Hs & ? & ?). rewrite Z.add_0_r, wrap_small by done.
    split_and!; try done. by destruct t. }
  cbn [ack_loop ideal_ack]. pose proof Hready as (Hs & Hd & Hst).
  pose proof (device_first (dev w) i f tx ltac:(by rewrite Hd) Hi) as Hdev.
  pose proof (Hfit (d_state (dev w)) i f tx) as Hf.
  destruct (respond (d_state (dev w)) i f tx) as [st [[ri rf] data]] eqn:Er.
  cbv zeta in Hdev. rewrite Hd in Hdev. destruct Hdev as [Hfirst Hagain]. cbn [snd] in Hf.
  set (bs := answer_bytes (t_seq t) (ri, rf, data)) in *.
  assert (zlen bs <= HOST_MAX_UDP_PACKET_SIZE) as Hlen
    by (unfold bs, answer_bytes, UDP_HEADER_LEN in *; destruct Hf; cbn [fst snd];
        rewrite zlen_app, zlen_encode_4byte; lia).
  pose proof (answer_decode (t_seq t) (ri, rf, data) Hs) as Hdec. fold bs in Hdec.
  pose proof (exchange_net _ (t_seq t) i _ _ bs _ Hfirst Hagain Hlen Hdec) as Hex.
  cbn [fst snd id seq] in Hex, Hdec. rewrite Z.eqb_refl in Hex. cbn [negb orb] in Hex.
  assert (negb (beqb ri i) && negb (beqb ri UDP_ID_ERROR) = false) as Hid.
  { destruct Hf as [[->| ->] _]; rewrite beqb_refl; [done|]. by rewrite andb_comm. }
  specialize (Hex Hid (S (max_retries t)) w (inbox w) 0%nat None Hst).
  destruct (exchange _ _ _ _ _ _) as [w1 r1].
  assert (mid (dev w) (mk_device st (wrap 16 (t_seq t + 1)) (Some bs)) bs w (inbox w) 0) as Hmid.
  { split; [by rewrite app_nil_r|auto]. }
  destruct (Hex Hmid) as [H1 H2]. clear Hex.
  destruct r1 as [[h' data']|e|]; [|destruct e; try done|done].
  2: { destruct (if continues rf then _ else _) as [[d' n] r']. right. split; [|eauto]. unfold trouble.
       destruct (decide (length (inbox w) + bad w < S (max_retries t))%nat); [|lia].
       by specialize (H2 ltac:(done)). }
  destruct H1 as (-> & -> & Hd1 & j' & Hin1 & Hb1). cbn [id flags].
  replace (drop 4 bs) with data by (unfold bs, answer_bytes; by rewrite drop_app_length').
  set (t1 := set_seq (wrap 16 (t_seq t + 1)) t).
  assert (forall k, ready t1 w1 k) as Hr1.
  { intros k. split_and!.
    - by apply uint_wrap.
    - by rewrite Hd1.
    - rewrite Hin1. apply Forall_replicate. apply stale_answer; [done| |done].
      intros E. by apply (wrap_succ_ne (t_seq t)). }
  assert (trouble w1 <= trouble w)%nat as Ht1.
  { unfold trouble. rewrite Hin1, length_replicate. lia. }
  destruct (continues rf).
  - assert (ri <> UDP_ID_QUERY) as Hri by (destruct Hf as [[->| ->] _]; [done|discriminate]).
    pose proof (IH t1 w1 ri UDP_FLAG_NONE []
      (if beqb ri UDP_ID_ERROR then result else result ++ data)
      (if beqb ri UDP_ID_ERROR then err ++ data else err) (Hr1 ri) Hri) as IH'.
    rewrite Hd1 in IH'. cbn [d_state] in IH'.
    destruct (ack_loop _ _ _ _ _ _ _ _) as [[t' w'] r].
    destruct (ideal_ack _ _ _ _ _ _ _) as [[d' n] r'].
    destruct IH' as [(-> & ? & -> & ? & ?)|[? ?]]; [left|right].
    + split_and!; try done.
      * unfold t1, set_seq. cbn. f_equal. unfold wrap. rewrite Z.add_mod_idemp_l by done.
        f_equal. lia.
      * lia.
    + split; [|done]. unfold t1 in *. cbn in *. lia.
  - left. split_and!; try done. by rewrite Hd1.
Qed.

(** [Read] and [Write] over reliable calls. *)
Definition wrap_io {A} (r : res FastbootTransportError A) : res io_error A := map_err as_io r.

Definition ideal_read (fuel : nat) (d : D) (len : Z) : D * option (res io_error bytes) :=
  let '(d, _, r) := ideal_ack fuel d UDP_ID_FASTBOOT UDP_FLAG_NONE [] [] [] in
  (d, match r with
      | Some (Ok payload) => Some (if len <? zlen payload
          then Err (mk_io InvalidData (B "UDP target sent more fastboot data than requested buffer"))
          else Ok payload)
      | Some r => Some (wrap_io r)
      | None => None
      end).

Fixpoint ideal_write_go (fuel : nat) (d : D) (cs : list bytes) : D * option (res io_error unit) :=
  match cs with
  | [] => (d, Some (Ok tt))
  | c :: cs =>
      let fl := match cs with [] => UDP_FLAG_NONE | _ => UDP_FLAG_CONTINUATION end in
      let '(d, _, r) := ideal_ack fuel d UDP_ID_FASTBOOT fl c [] [] in
      match r with
      | Some (Ok _) => ideal_write_go fuel d cs
      | Some (Err e) => (d, Some (Err (as_io e)))
      | Some Panic => (d, Some Panic)
      | None => (d, None)
      end
  end.

Definition ideal_write (fuel : nat) (size : Z) (d : D) (buf : bytes) : D * option (res io_error Z) :=
  let cs := match buf with [] => [[]] | _ => chunks (Z.max (Z.max 0 (size - UDP_HEADER_LEN)) 1) buf end in
  let '(d, r) := ideal_write_go fuel d cs in
  (d, match r with Some r => Some (let! _ := r in Ok (zlen buf)) | None => None end).

(** A sequence of reads and writes, up to the first one that runs out of fuel. *)
Inductive udp_op := URead (len : Z) | UWrite (buf : bytes).
Inductive udp_out := ORead (r : res io_error bytes) | OWrite (r : res io_error Z).

Fixpoint run_udp (fuel : nat) (t : FastbootUdpTransport) (w : Net) (ops : list udp_op)
    : FastbootUdpTransport * Net * list udp_out :=
  match ops with
  | [] => (t, w, [])
  | op :: ops =>
      let '(t, w, r) := match op with
        | URead len => let '(t, w, r) := udp_read fuel t w len in (t, w, ORead <$> r)
        | UWrite buf => let '(t, w, r) := udp_write fuel t w buf in (t, w, OWrite <$> r)
        end in
      match r with
      | Some r => let '(t, w, rs) := run_udp fuel t w ops in (t, w, r :: rs)
      | None => (t, w, [])
      end
  end.

Fixpoint ideal_run (fuel : nat) (size : Z) (d : D) (ops : list udp_op) : D * list udp_out :=
  match ops with
  | [] => (d, [])
  | op :: ops =>
      let '(d, r) := match op with
        | URead len => let '(d, r) := ideal_read fuel d len in (d, ORead <$> r)
        | UWrite buf => let '(d, r) := ideal_write fuel size d buf in (d, OWrite <$> r)
        end in
      match r with
      | Some r => let '(d, rs) := ideal_run fuel size d ops in (d, r :: rs)
      | None => (d, [])
      end
  end.

(** Between the calls of a session. *)
Definition session (t : FastbootUdpTransport) (w : Net) (size : Z) (retries : nat) : Prop :=
  (forall k, ready t w k) /\ max_packet_size t = size /\ max_retries t = retries /\
  read_buf t = [] /\ read_pos t = 0 /\ (trouble w <= retries)%nat.

Lemma call_session (Hfit : answers_fit) fuel t w size retries i f tx :
  session t w size retries -> i <> UDP_ID_QUERY ->
  let '(t', w', r) := send_packet_with_ack fuel t w i f tx in
  let '(d', _, r') := ideal_ack fuel (d_state (dev w)) i f tx [] [] in
  r = r' /\ d_state (dev w') = d' /\ (r <> None -> session t' w' size retries).
Proof.
  intros (Hr & Hs & Hm & Hb & Hp & Ht) Hi.
  pose proof (ack_loop_net Hfit fuel t w i f tx [] [] (Hr i) Hi) as Hn. unfold send_packet_with_ack.
  destruct (ack_loop _ _ _ _ _ _ _ _) as [[t' w'] r].
  destruct (ideal_ack _ _ _ _ _ _ _) as [[d' n] r'].
  destruct Hn as [(-> & Hd & -> & Hr' & Ht')|[Hbad _]]; [|lia].
  split_and!; [done|done|]. intros Hne. split_and!; try done; [auto|lia].
Qed.

Lemma read_session (Hfit : answers_fit) fuel t w size retries len :
  session t w size retries ->
  let '(t', w', r) := udp_read fuel t w len in
  let '(d', r') := ideal_read fuel (d_state (dev w)) len in
  r = r' /\ d_state (dev w') = d' /\ (r <> None -> session t' w' size retries).
Proof.
  intros Hses. unfold udp_read, ideal_read. pose proof Hses as (_ & _ & _ & -> & -> & _).
  change (0 <? zlen []) with false. cbn match.
  pose proof (call_session Hfit fuel t w size retries UDP_ID_FASTBOOT UDP_FLAG_NONE [] Hses ltac:(done)) as Hc.
  destruct (send_packet_with_ack _ _ _ _ _ _) as [[t' w'] r].
  destruct (ideal_ack _ _ _ _ _ _ _) as [[d' n] r'].
  destruct Hc as (-> & <- & Hses'). destruct r' as [[payload|e|]|]; by split_and!; auto.
Qed.

Lemma write_go_session (Hfit : answers_fit) fuel cs : forall t w size retries,
  session t w size retries ->
  let '(t', w', r) := write_go fuel t w cs in
  let '(d', r') := ideal_write_go fuel (d_state (dev w)) cs in
  r = r' /\ d_state (dev w') = d' /\ (r <> None -> session t' w' size retries).
Proof.
  induction cs as [|c cs IH]; intros t w size retries Hses; cbn [write_go ideal_write_go]; [done|].
  set (fl := match cs with [] => _ | _ => _ end).
  pose proof (call_session Hfit fuel t w size retries UDP_ID_FASTBOOT fl c Hses ltac:(done)) as Hc.
  destruct (send_packet_with_ack _ _ _ _ _ _) as [[t' w'] r].
  destruct (ideal_ack _ _ _ _ _ _ _) as [[d' n] r'].
  destruct Hc as (-> & <- & Hses'). destruct r' as [[payload|e|]|]; try by split_and!; auto.
  by apply IH, Hses'.
Qed.

Lemma write_session (Hfit : answers_fit) fuel t w size retries buf :
  session t w size retries ->
  let '(t', w', r) := udp_write fuel t w buf in
  let '(d', r') := ideal_write fuel size (d_state (dev w)) buf in
  r = r' /\ d_state (dev w') = d' /\ (r <> None -> session t' w' size retries).
Proof.
  intros Hses. unfold udp_write, ideal_write, write_chunks, max_payload.
  pose proof Hses as (_ & -> & _).
  set (cs := match buf with [] => _ | _ => _ end).
  pose proof (write_go_session Hfit fuel cs t w size retries Hses) as Hg.
  destruct (write_go _ _ _ _) as [[t' w'] r]. destruct (ideal_write_go _ _ _) as [d' r'].
  destruct Hg as (-> & <- & Hses'). destruct r' as [[payload|e|]|]; by split_and!; auto.
Qed.

Lemma run_session (Hfit : answers_fit) fuel ops : forall t w size retries,
  session t w size retries ->
  let '(_, w', rs) := run_udp fuel t w ops in
  (d_state (dev w'), rs) = ideal_run fuel size (d_state (dev w)) ops.
Proof.
  induction ops as [|op ops IH]; intros t w size retries Hses; cbn [run_udp ideal_run]; [done|].
  destruct op as [len|buf].
  - pose proof (read_session Hfit fuel t w size retries len Hses) as Hs.
    destruct (udp_read _ _ _ _) as [[t' w'] r]. destruct (ideal_read _ _ _) as [d' r'].
    destruct Hs as (-> & <- & Hses'). destruct r' as [r'|]; cbn [fmap option_fmap option_map]; [|done].
    pose proof (IH t' w' size retries (Hses' ltac:(done))) as IH'.
    destruct (run_udp _ _ _ _) as [[t2 w2] rs]. by rewrite <- IH'.
  - pose proof (write_session Hfit fuel t w size retries buf Hses) as Hs.
    destruct (udp_write _ _ _ _) as [[t' w'] r]. destruct (ideal_write _ _ _ _) as [d' r'].
    destruct Hs as (-> & <- & Hses'). destruct r' as [r'|]; cbn [fmap option_fmap option_map]; [|done].
    pose proof (IH t' w' size retries (Hses' ltac:(done))) as IH'.
    destruct (run_udp _ _ _ _) as [[t2 w2] rs]. by rewrite <- IH'.
Qed.

(** *** The handshake *)

(** What the handshake makes of the answer to its initialisation packet. *)
Definition init_check (a : option (res FastbootTransportError bytes)) : option (res FastbootTransportError unit) :=
  match a with
  | Some (Ok response) => Some
      (if zlen response <? 4 then Err (EProtocol (B "invalid initialization response from target"))
       else if be_val (slice 0 2 response) <? 1
       then Err (EProtocol (B "target reported invalid protocol version " ++ fmt_dec (be_val (slice 0 2 response))))
       else if be_val (slice 2 4 response) <? MIN_UDP_PACKET_SIZE
       then Err (EProtocol (B "target reported invalid packet size " ++ fmt_dec (be_val (slice 2 4 response))))
       else Ok tt)
  | Some (Err e) => Some (Err e)
  | Some Panic => Some Panic
  | None => None
  end.

Lemma query_net fuel t w :
  u16 (t_seq t) -> u16 (d_seq (dev w)) -> inbox w = [] -> (bad w <= max_retries t)%nat ->
  exists w' t', send_packet_with_ack (S fuel) t w UDP_ID_QUERY UDP_FLAG_NONE [] =
    (t', w', Some (Ok (be_bytes 2 (d_seq (dev w))))) /\
    (exists s, t' = set_seq s t) /\ dev w' = dev w /\
    (trouble w' <= bad w)%nat /\ ready (set_seq (d_seq (dev w)) t') w' UDP_ID_INIT.
Proof.
  intros Hs Hd Hin Hb. unfold send_packet_with_ack. cbn [ack_loop].
  set (packet := encode_4byte (mk_udp UDP_ID_QUERY UDP_FLAG_NONE (t_seq t)) ++ []).
  set (bs := answer_bytes (t_seq t) (UDP_ID_QUERY, UDP_FLAG_NONE, be_bytes 2 (d_seq (dev w)))).
  assert (device_receive (dev w) packet = (dev w, Some bs)) as Hrec.
  { unfold device_receive, packet. by rewrite udp_decode_encode. }
  assert (zlen bs <= HOST_MAX_UDP_PACKET_SIZE) as Hlen
    by (unfold bs, answer_bytes, HOST_MAX_UDP_PACKET_SIZE; cbn [fst snd]; zg).
  pose proof (answer_decode (t_seq t) (UDP_ID_QUERY, UDP_FLAG_NONE, be_bytes 2 (d_seq (dev w))) Hs) as Hdec.
  fold bs in Hdec. cbn [fst snd] in Hdec.
  pose proof (exchange_net packet (t_seq t) UDP_ID_QUERY _ _ bs _ Hrec Hrec Hlen Hdec) as Hex.
  cbn [id seq] in Hex. rewrite Z.eqb_refl in Hex.
  specialize (Hex ltac:(done) (S (max_retries t)) w [] 0%nat None ltac:(constructor) ltac:(split; [done|auto])).
  destruct (exchange _ _ _ _ _ _) as [w1 r1]. destruct Hex as [H1 H2].
  specialize (H2 ltac:(cbn; lia)). destruct r1 as [[h' data]| |]; [|done..].
  destruct H1 as (-> & -> & Hd1 & j' & Hin1 & Hb1). cbn [id flags].
  change (continues UDP_FLAG_NONE) with false. change (beqb UDP_ID_QUERY UDP_ID_ERROR) with false.
  cbn match. unfold bs. unfold answer_bytes at 1. cbn [fst snd]. rewrite drop_app_length' by done.
  do 2 eexists. split; [done|]. split_and!; [by eexists|done| |].
  - unfold trouble. rewrite Hin1, length_replicate. cbn in Hb1. lia.
  - unfold ready. cbn [t_seq set_seq]. rewrite Hd1, Hin1. split_and!; [done|done|].
    apply Forall_replicate. destruct (Z.eq_dec (t_seq t) (d_seq (dev w))) as [He|].
    + unfold stale. rewrite slice_full, Hdec by done. cbn [seq id]. by rewrite orb_true_r.
    + by apply stale_answer.
Qed.

Lemma handshake_net (Hfit : answers_fit) fuel t w :
  u16 (t_seq t) -> read_buf t = [] -> read_pos t = 0 ->
  u16 (d_seq (dev w)) -> inbox w = [] -> (bad w <= max_retries t)%nat ->
  let '(t', w', r) := perform_handshake (S fuel) t w in
  let '(d', _, a) := ideal_ack (S fuel) (d_state (dev w)) UDP_ID_INIT UDP_FLAG_NONE init_payload [] [] in
  r = init_check a /\ d_state (dev w') = d' /\
  (r = Some (Ok tt) -> session t' w' (max_packet_size t') (max_retries t) /\
     exists response, a = Some (Ok response) /\
       max_packet_size t' = Z.min HOST_MAX_UDP_PACKET_SIZE (be_val (slice 2 4 response))).
Proof.
  intros Hs Hbuf Hpos Hd Hin Hb.
  destruct (query_net fuel t w Hs Hd Hin Hb) as (w1 & t1 & Hq & [s1 ->] & Hd1 & Ht1 & Hr1).
  unfold perform_handshake. rewrite Hq. cbn [and_then].
  rewrite (proj2 (Z.ltb_ge _ 2)) by zg. rewrite slice_full, be_val_bytes_id by (zg || done).
  change (set_seq (d_seq (dev w)) (set_seq s1 t)) with (set_seq (d_seq (dev w)) t) in *.
  pose proof (ack_loop_net Hfit (S fuel) _ w1 UDP_ID_INIT UDP_FLAG_NONE init_payload [] [] Hr1 ltac:(done)) as Hn.
  unfold send_packet_with_ack. rewrite Hd1 in Hn.
  destruct (ack_loop _ _ _ _ _ _ _ _) as [[t2 w2] r2].
  destruct (ideal_ack _ _ _ _ _ _ _) as [[d' n] a].
  destruct Hn as [(-> & Hd2 & -> & Hr2 & Ht2)|[Hbad _]]; [|cbn in Hbad; lia].
  unfold and_then, init_check.
  destruct a as [[response|e|]|]; [|by split_and!..].
  destruct (zlen response <? 4); [by split_and!|].
  destruct (be_val (slice 0 2 response) <? 1); [by split_and!|].
  destruct (be_val (slice 2 4 response) <? MIN_UDP_PACKET_SIZE); [by split_and!|].
  split_and!; [done|done|]. intros _. split; [|by exists response].
  split_and!; try done; [|lia]. intros k. apply (Hr2 ltac:(done) k).
Qed.

(** C5: Over a network that loses, delays or duplicates datagrams at most [max_retries] times, with
    a device that follows the protocol, the handshake and any sequence of reads and writes after
    it give the results of reliable calls, in which every packet is processed by the device once
    and in order; the device ends in the same state. *)
Theorem udp_reliable fuel t w ops :
  answers_fit ->
  u16 (t_seq t) -> read_buf t = [] -> read_pos t = 0 ->
  u16 (d_seq (dev w)) -> inbox w = [] -> (bad w <= max_retries t)%nat ->
  let '(t1, w1, r) := perform_handshake (S fuel) t w in
  let '(d1, _, a) := ideal_ack (S fuel) (d_state (dev w)) UDP_ID_INIT UDP_FLAG_NONE init_payload [] [] in
  r = init_check a /\ d_state (dev w1) = d1 /\
  (r = Some (Ok tt) ->
   let '(_, w2, rs) := run_udp (S fuel) t1 w1 ops in
   (d_state (dev w2), rs) = ideal_run (S fuel) (max_packet_size t1) d1 ops).
Proof.
  intros Hfit Hs Hbuf Hpos Hd Hin Hb.
  pose proof (handshake_net Hfit fuel t w Hs Hbuf Hpos Hd Hin Hb) as Hh.
  destruct (perform_handshake _ _ _) as [[t1 w1] r].
  destruct (ideal_ack _ _ _ _ _ _ _) as [[d1 n] a].
  destruct Hh as (-> & <- & Hses). split_and!; [done|done|]. intros Ha.
  destruct (Hses Ha) as [Hses' _]. by apply (run_session Hfit (S fuel) ops t1 w1 _ (max_retries t)).
Qed.
End Lossy.

(** ** What a device receives *)
Section Log.
(** A device that records the packets it processes and offers packets of [sz] bytes. *)
Context (sz : Z).

Definition log_respond (d : list (byte * byte * bytes)) (i f : byte) (p : bytes) :=
  (d ++ [(i, f, p)],
   (i, UDP_FLAG_NONE, if beqb i UDP_ID_INIT then be_bytes 2 1 ++ be_bytes 2 sz else [])).

#[local] Instance log_net : UdpSocket Net := net_socket log_respond.

Lemma log_fits : answers_fit log_respond.
Proof.
  intros d i f p. unfold log_respond. cbn [snd]. split; [by left|].
  destruct (beqb i UDP_ID_INIT); unfold HOST_MAX_UDP_PACKET_SIZE, UDP_HEADER_LEN; zg.
Qed.

(** The packets of a write: all but the last are marked as continued. *)
Fixpoint data_packets (cs : list bytes) : list (byte * byte * bytes) :=
  match cs with
  | [] => []
  | c :: cs =>
      (UDP_ID_FASTBOOT, match cs with [] => UDP_FLAG_NONE | _ => UDP_FLAG_CONTINUATION end, c)
      :: data_packets cs
  end.

Lemma log_write_go fuel cs : forall d,
  ideal_write_go log_respond (S fuel) d cs = (d ++ data_packets cs, Some (Ok tt)).
Proof.
  induction cs as [|c cs IH]; intros d; cbn [ideal_write_go data_packets]; [by rewrite app_nil_r|].
  cbn [ideal_ack log_respond]. change (beqb UDP_ID_FASTBOOT UDP_ID_ERROR) with false.
  change (continues UDP_FLAG_NONE) with false. cbn match. rewrite IH. by rewrite <- app_assoc.
Qed.

Lemma log_init fuel :
  512 <= sz < 2 ^ 16 ->
  ideal_ack log_respond (S fuel) [] UDP_ID_INIT UDP_FLAG_NONE init_payload [] []
  = ([(UDP_ID_INIT, UDP_FLAG_NONE, init_payload)], 1, Some (Ok (be_bytes 2 1 ++ be_bytes 2 sz))).
Proof. done. Qed.

Lemma log_init_check :
  512 <= sz < 2 ^ 16 -> init_check (Some (Ok (be_bytes 2 1 ++ be_bytes 2 sz))) = Some (Ok tt).
Proof.
  intros Hsz. unfold init_check. rewrite (proj2 (Z.ltb_ge _ 4)) by zg.
  rewrite slice_app_l, slice_full by zg. change (be_val (be_bytes 2 1) <? 1) with false. cbn match.
  rewrite (slice_app_r 2) by zg. rewrite slice_full by zg.
  rewrite be_val_bytes_id by (cbn; unfold uint; lia).
  by rewrite (proj2 (Z.ltb_ge sz _)) by (unfold MIN_UDP_PACKET_SIZE; lia).
Qed.

Lemma chunks_or_empty_bounds n (buf : bytes) :
  0 < n -> let cs := match buf with [] => [[]] | _ => chunks n buf end in
  concat cs = buf /\ Forall (fun c => zlen c <= n) cs.
Proof.
  intros Hn. destruct buf as [|b buf]; cbv zeta.
  - split; [done|]. repeat constructor. rewrite zlen_nil. lia.
  - split; [by apply concat_chunks|]. eapply list.Forall_impl; [by apply chunks_bounds|].
    cbv beta. lia.
Qed.

(** After the handshake with a device that offers packets of [sz] bytes, a write over a network
    that misbehaves at most [max_retries] times succeeds, and the device has processed exactly
    the initialisation packet and the buffer cut into pieces that fit both sides' packets, in
    order, all but the last marked as continued. *)
Theorem udp_write_delivers fuel t w buf :
  512 <= sz < 2 ^ 16 ->
  u16 (t_seq t) -> read_buf t = [] -> read_pos t = 0 -> u16 (d_seq (dev w)) ->
  inbox w = [] -> d_state (dev w) = [] -> (bad w <= max_retries t)%nat ->
  exists t1 w1 t2 w2 cs,
    perform_handshake (S fuel) t w = (t1, w1, Some (Ok tt)) /\
    udp_write (S fuel) t1 w1 buf = (t2, w2, Some (Ok (zlen buf))) /\
    d_state (dev w2) = (UDP_ID_INIT, UDP_FLAG_NONE, init_payload) :: data_packets cs /\
    concat cs = buf /\ Forall (fun c => UDP_HEADER_LEN + zlen c <= Z.min sz HOST_MAX_UDP_PACKET_SIZE) cs.
Proof.
  intros Hsz Hs Hbuf Hpos Hd Hin Hst Hb.
  pose proof (handshake_net log_respond log_fits fuel t w Hs Hbuf Hpos Hd Hin Hb) as Hh.
  rewrite Hst, log_init in Hh by done. fold log_net in Hh.
  destruct (perform_handshake (S fuel) t w) as [[t1 w1] r].
  destruct Hh as (Hr & Hd1 & Hses). rewrite log_init_check in Hr by done. subst r.
  destruct (Hses eq_refl) as (Hses1 & response & Ha & Hsize).
  assert (response = be_bytes 2 1 ++ be_bytes 2 sz) as -> by congruence.
  rewrite (slice_app_r 2), slice_full, be_val_bytes_id in Hsize by (zg || (cbn; unfold uint; lia)).
  pose proof (write_session log_respond log_fits (S fuel) t1 w1 _ _ buf Hses1) as Hw.
  unfold ideal_write in Hw. rewrite Hd1, log_write_go in Hw. fold log_net in Hw.
  destruct (udp_write (S fuel) t1 w1 buf) as [[t2 w2] r2] eqn:Ew. destruct Hw as (-> & Hd2 & _).
  destruct (chunks_or_empty_bounds (Z.max (Z.max 0 (max_packet_size t1 - UDP_HEADER_LEN)) 1) buf ltac:(lia))
    as [Hcat Hall].
  do 5 eexists. split_and!; [done|exact Ew|exact Hd2|exact Hcat|]. eapply list.Forall_impl; [exact Hall|].
  cbv beta. unfold HOST_MAX_UDP_PACKET_SIZE, UDP_HEADER_LEN in *. lia.
Qed.
End Log.

(** ** A concrete session *)

(** The first request is lost, the second delayed, the third answered twice. *)
Definition sample_net : Net (D := list (byte * byte * bytes)) :=
  mk_net (mk_device [] 65535 None) [] [LoseRequest; Deliver; Duplicate] [false; true].

(** The outcome of the handshake and the packet size it leaves. *)
Definition sample_result (sz : Z) (retries fuel : nat) :=
  let '(t, _, r) := perform_handshake (H := log_net sz) fuel (set_max_retries retries from_socket) sample_net in
  (r, max_packet_size t).

Lemma udp_reliable_witness :
  let respond := log_respond 512 in
  let t := set_max_retries 3 from_socket in
  let ops := [UWrite (B "getvar:all"); URead 64] in
  let '(t1, w1, r) := perform_handshake (H := net_socket respond) 2 t sample_net in
  r = Some (Ok tt) /\
  let '(_, w2, rs) := run_udp respond 2 t1 w1 ops in
  (d_state (dev w2), rs) = ideal_run respond 2 512 (d_state (dev w1)) ops.
Proof.
  intros respond t ops.
  assert (u16 (t_seq t)) as H1 by (cbn; unfold u16, uint; lia).
  assert (u16 (d_seq (dev sample_net))) as H2 by (cbn; unfold u16, uint; lia).
  assert (bad sample_net <= max_retries t)%nat as H3 by (apply Nat.leb_le; reflexivity).
  pose proof (udp_reliable respond 1 t sample_net ops (log_fits 512) H1 eq_refl eq_refl H2 eq_refl H3) as H.
  destruct (perform_handshake 2 t sample_net) as [[t1 w1] r] eqn:E.
  destruct (ideal_ack _ _ _ _ _ _ _ _) as [[d1 n] a] eqn:Ea. destruct H as (Hr & Hd1 & Hrun).
  assert (sample_result 512 3 2 = (Some (Ok tt), 512)) as Hx by (vm_compute; reflexivity).
  unfold sample_result in Hx. fold t respond in Hx. unfold log_net in Hx. fold respond in Hx.
  rewrite E in Hx. injection Hx as Hr1 Hm.
  split; [done|]. specialize (Hrun Hr1). rewrite Hd1, <- Hm. exact Hrun.
Defined.

Lemma udp_write_delivers_witness :
  exists t1 w1 t2 w2 cs,
    perform_handshake (H := log_net 512) 1 (set_max_retries 3 from_socket) sample_net = (t1, w1, Some (Ok tt)) /\
    udp_write (H := log_net 512) 1 t1 w1 (B "flash:boot") = (t2, w2, Some (Ok 10)) /\
    d_state (dev w2) = (UDP_ID_INIT, UDP_FLAG_NONE, init_payload) :: data_packets cs /\
    concat cs = B "flash:boot" /\
    Forall (fun c => UDP_HEADER_LEN + zlen c <= Z.min 512 HOST_MAX_UDP_PACKET_SIZE) cs.
Proof.
  apply (udp_write_delivers 512 0 (set_max_retries 3 from_socket) sample_net (B "flash:boot"));
    done.
Defined.

Lemma udp_handshake_bounds_witness :
  let '(t, w, r) := perform_handshake (H := log_net 700) 1 (set_max_retries 3 from_socket) sample_net in
  r = Some (Ok tt) /\ MIN_UDP_PACKET_SIZE <= max_packet_size t <= HOST_MAX_UDP_PACKET_SIZE /\ u16 (t_seq t).
Proof.
  assert (sample_result 700 3 1 = (Some (Ok tt), 700)) as Hx by (vm_compute; reflexivity).
  unfold sample_result in Hx.
  destruct (perform_handshake 1 _ sample_net) as [[t w] r] eqn:E.
  injection Hx as -> _. split; [done|]. destruct (udp_handshake_bounds 1 _ _ t w E) as (H1 & _ & H2 & _). exact (conj H1 H2).
Defined.
