(* ===== verification/IoVector.v ===== *)
(** * The scatter-gather buffer of the server

    [server/types.rs]: [IOVector], a byte queue kept as a list of blocks with a count of consumed
    bytes of the first one. It refines a flat byte list: over any sequence of calls its answers
    are those of the list ([iov_refines]). [coalesce] is the exception: it forgets how much of
    the first block was consumed ([iov_coalesce_iff]). *)
From S2P Require Import Prelude.

(** A subtraction of [usize] values. An underflow is a [Panic], as in a debug build; the theorems
    show that none happens, so that the wrap-around of a release build is not reached either. *)
Definition usub (a b : Z) : res Empty_set Z := if b <=? a then Ok (a - b) else Panic.

Record IOVector := mkIOVector { blocks : list bytes; front_skip : Z; total_len : Z }.

Definition iov_new : IOVector := mkIOVector [] 0 0.
Definition iov_is_empty (v : IOVector) : bool := total_len v =? 0.
Definition iov_len (v : IOVector) : Z := total_len v.

Definition append (v : IOVector) (data : bytes) : IOVector :=
  match data with
  | [] => v
  | _ => mkIOVector (blocks v ++ [data]) (front_skip v) (total_len v + zlen data)
  end.

(** [dst[d..d + k].copy_from_slice(&block[r..r + k])], with both bounds checks. *)
Definition copy_piece (dst : bytes) (d : Z) (block : bytes) (r k : Z) : res Empty_set bytes :=
  let! _ := get_slice dst d (d + k) in
  let! s := get_slice block r (r + k) in
  Ok (write_at d s dst).

Fixpoint copy_go (skip offset : Z) (bs : list bytes) (dst : bytes)
    (dst_offset remaining logical_pos : Z) : res Empty_set (bytes * Z) :=
  match bs with
  | [] => Ok (dst, dst_offset)
  | block :: bs =>
      let block_data_start := if logical_pos =? 0 then skip else 0 in
      let! block_logical_size := usub (zlen block) block_data_start in
      let block_start := logical_pos in
      let block_end := block_start + block_logical_size in
      if block_end <=? offset then copy_go skip offset bs dst dst_offset remaining block_end
      else
        let block_relative_offset :=
          if block_start <? offset then block_data_start + (offset - block_start)
          else block_data_start in
        let! available := usub (zlen block) block_relative_offset in
        let to_copy := Z.min remaining available in
        let! dst := copy_piece dst dst_offset block block_relative_offset to_copy in
        let! remaining := usub remaining to_copy in
        if remaining =? 0 then Ok (dst, dst_offset + to_copy)
        else copy_go skip offset bs dst (dst_offset + to_copy) remaining block_end
  end.

(** [copy_to]: the buffer after the call, and the count returned. *)
Definition copy_to (v : IOVector) (offset : Z) (dst : bytes) : res Empty_set (bytes * Z) :=
  if (total_len v <=? offset) || (zlen dst =? 0) then Ok (dst, 0)
  else copy_go (front_skip v) offset (blocks v) dst 0 (Z.min (zlen dst) (total_len v - offset)) 0.

Definition peek (v : IOVector) (len : Z) : res Empty_set (option bytes) :=
  if total_len v <? len then Ok None
  else
    let! r := copy_to v 0 (zrep len x00) in
    Ok (Some (fst r)).

Fixpoint drain_go (remaining : Z) (bs : list bytes) (skip total : Z) : res Empty_set IOVector :=
  match bs with
  | [] => Ok (mkIOVector [] skip total)
  | b :: bs' =>
      if 0 <? remaining then
        let! available := usub (zlen b) skip in
        if available <=? remaining then
          let! total := usub total available in
          drain_go (remaining - available) bs' 0 total
        else
          let! total := usub total remaining in
          Ok (mkIOVector bs (skip + remaining) total)
      else Ok (mkIOVector bs skip total)
  end.

(** [drain_front]; the [assert!] is the first test. *)
Definition drain_front (v : IOVector) (len : Z) : res Empty_set IOVector :=
  if len <=? total_len v then
    if len =? 0 then Ok v else drain_go len (blocks v) (front_skip v) (total_len v)
  else Panic.

Definition iov_clear (v : IOVector) : IOVector := mkIOVector [] 0 0.

Definition coalesce (v : IOVector) : IOVector * bytes :=
  match blocks v with
  | [] => (v, [])
  | bs => let result := concat bs in (mkIOVector [result] 0 (total_len v), result)
  end.

(** ** The abstract view and the invariant *)

Definition flat (v : IOVector) : bytes := drop (Z.to_nat (front_skip v)) (concat (blocks v)).

Definition iov_wf (v : IOVector) : Prop :=
  Forall (fun b => b <> []) (blocks v) /\
  0 <= front_skip v /\
  match blocks v with [] => front_skip v = 0 | b :: _ => front_skip v < zlen b end /\
  total_len v = zlen (flat v).

Lemma usub_ok a b : b <= a -> usub a b = Ok (a - b).
Proof. intros. unfold usub. by rewrite (proj2 (Z.leb_le b a)). Qed.

Lemma write_at_write_app {A} d (x y l : list A) :
  0 <= d -> d + zlen x + zlen y <= zlen l ->
  write_at (d + zlen x) y (write_at d x l) = write_at d (x ++ y) l.
Proof.
  intros Hd Hl. pose proof (zlen_nonneg x). pose proof (zlen_nonneg y).
  rewrite (write_at_in (d + zlen x)) by zg. rewrite !(write_at_in d) by zg. unfold zlen in *.
  rewrite (app_assoc (take _ l)), take_app_length', drop_app_ge
    by (rewrite ?length_app, ?length_take; lia).
  rewrite length_app, length_take, drop_drop, <- !app_assoc. do 3 f_equal.
  rewrite length_app. f_equal. lia.
Qed.

Lemma write_at_nil {A} d (l : list A) : 0 <= d -> d <= zlen l -> write_at d [] l = l.
Proof.
  intros. rewrite write_at_in by zg. cbn [length app]. by rewrite Nat.add_0_r, take_drop.
Qed.

Definition first_skip (skip L : Z) : Z := if L =? 0 then skip else 0.

Lemma concat_cons_drop (s : Z) (b : bytes) bs :
  s < zlen b -> drop (Z.to_nat s) (concat (b :: bs)) = drop (Z.to_nat s) b ++ concat bs.
Proof. unfold zlen. intros. cbn [concat]. apply drop_app_le. lia. Qed.

Lemma zlen_drop {A} (s : Z) (l : list A) : 0 <= s <= zlen l -> zlen (drop (Z.to_nat s) l) = zlen l - s.
Proof. unfold zlen. intros. rewrite length_drop. lia. Qed.

Lemma slice_drop {A} (s a b : Z) (l : list A) :
  0 <= s -> 0 <= a -> slice a b (drop (Z.to_nat s) l) = slice (s + a) (s + b) l.
Proof.
  intros. unfold slice. rewrite drop_drop.
  replace (s + b - (s + a)) with (b - a) by lia.
  by replace (Z.to_nat s + Z.to_nat a)%nat with (Z.to_nat (s + a)) by lia.
Qed.

Lemma copy_piece_ok dst d block r k :
  0 <= d -> 0 <= r -> 0 <= k -> d + k <= zlen dst -> r + k <= zlen block ->
  copy_piece dst d block r k = Ok (write_at d (slice r (r + k) block) dst).
Proof. intros. unfold copy_piece. by rewrite !get_slice_ok by lia. Qed.

Lemma copy_go_spec bs : forall skip offset dst d r L,
  Forall (fun b => b <> []) bs -> 0 <= skip -> 0 <= L -> 0 <= offset ->
  match bs with [] => True | b :: _ => first_skip skip L < zlen b end ->
  0 < r -> 0 <= d -> d + r <= zlen dst ->
  let C := drop (Z.to_nat (first_skip skip L)) (concat bs) in
  let o := Z.max 0 (offset - L) in
  o + r <= zlen C ->
  copy_go skip offset bs dst d r L = Ok (write_at d (slice o (o + r) C) dst, d + r).
Proof.
  induction bs as [|b bs IH]; intros skip offset dst d r L HF Hs HL Ho Hb Hr Hd Hdr C o HC.
  { subst C. cbn [concat] in HC. rewrite drop_nil in HC. change (zlen []) with 0 in HC. lia. }
  apply list.Forall_cons in HF as [Hbn HF]. cbn [copy_go]. fold (first_skip skip L).
  subst C. rewrite (concat_cons_drop _ _ _ Hb) in *.
  assert (0 <= first_skip skip L) as Hs0 by (unfold first_skip; zcase; lia).
  set (s := first_skip skip L) in *. rewrite zlen_app, zlen_drop in HC by lia.
  rewrite (usub_ok (zlen b) s) by lia. cbn [res_bind].
  assert (first_skip skip (L + (zlen b - s)) = 0) as Hnext
    by (unfold first_skip; destruct (Z.eqb_spec (L + (zlen b - s)) 0); lia).
  assert (match bs with [] => True | b' :: _ => 0 < zlen b' end) as Hb'.
  { destruct HF as [|b' ? Hb' _]; [done|]. pose proof (zlen_nonneg b').
    destruct b'; [done|]. rewrite zlen_cons in *. pose proof (zlen_nonneg b'). lia. }
  destruct (Z.leb_spec (L + (zlen b - s)) offset) as [Hend|Hend].
  - rewrite IH by (cbv zeta; rewrite ?Hnext, ?drop_0; auto; lia). rewrite Hnext, drop_0.
    rewrite (slice_app_r o) by (rewrite zlen_drop; lia). rewrite zlen_drop by lia.
    do 4 f_equal; lia.
  - replace (if L <? offset then s + (offset - L) else s) with (s + o) by (subst o; zcase; lia).
    rewrite usub_ok by lia. cbn [res_bind].
    set (k := Z.min r (zlen b - (s + o))).
    rewrite copy_piece_ok by lia. cbn [res_bind]. rewrite usub_ok by lia. cbn [res_bind].
    rewrite <- Z.add_assoc, <- (slice_drop s o (o + k) b) by lia.
    destruct (Z.eqb_spec (r - k) 0) as [Hk|Hk].
    + rewrite slice_app_l by (rewrite ?zlen_drop; lia).
      replace r with k by lia. done.
    + rewrite IH by (cbv zeta; rewrite ?Hnext, ?zlen_write_at, ?drop_0; auto; lia).
      rewrite Hnext, drop_0.
      replace (Z.max 0 (offset - (L + (zlen b - s)))) with 0 by lia. cbn [Z.add].
      set (x := slice o (o + k) (drop (Z.to_nat s) b)).
      assert (zlen x = k) as Hx by (subst x; rewrite zlen_slice; rewrite ?zlen_drop; lia).
      rewrite <- Hx at 1. rewrite write_at_write_app; [|lia|].
      2: { rewrite zlen_slice; lia. }
      rewrite (slice_cut o (o + k) (o + r)) by lia.
      rewrite slice_app_l by (rewrite ?zlen_drop; lia). fold x.
      rewrite (slice_app_r (o + k)) by (rewrite zlen_drop; lia). rewrite zlen_drop by lia.
      f_equal. f_equal; [|lia]. do 3 f_equal; lia.
Qed.

(** ** Each operation against the flat view *)

Lemma iov_new_wf : iov_wf iov_new.
Proof. split_and!; done. Qed.

Lemma append_spec v data :
  iov_wf v -> iov_wf (append v data) /\ flat (append v data) = flat v ++ data.
Proof.
  intros (HF & H0 & Hs & Ht). destruct data as [|x data].
  { split; [done|]. by rewrite app_nil_r. }
  assert (flat (append v (x :: data)) = flat v ++ x :: data) as Hflat.
  { unfold flat. cbn [append blocks front_skip]. rewrite concat_app. cbn [concat].
    rewrite app_nil_r. apply drop_app_le. destruct (blocks v) as [|b bs].
    - rewrite Hs. cbn. lia.
    - cbn [concat]. rewrite length_app. unfold zlen in Hs. lia. }
  split; [|done]. split_and!.
  - apply Forall_app. by repeat constructor.
  - done.
  - cbn [append blocks front_skip]. destruct (blocks v); cbn [app]; [|done].
    rewrite Hs, zlen_cons. pose proof (zlen_nonneg data). lia.
  - rewrite Hflat, zlen_app, <- Ht. done.
Qed.

Definition copied (q : bytes) (offset : Z) (dst : bytes) : Z :=
  Z.max 0 (Z.min (zlen dst) (zlen q - offset)).

Lemma copy_to_spec v offset dst :
  iov_wf v -> 0 <= offset ->
  let n := copied (flat v) offset dst in
  copy_to v offset dst = Ok (write_at 0 (slice offset (offset + n) (flat v)) dst, n).
Proof.
  intros (HF & H0 & Hs & Ht) Ho n. unfold copy_to. rewrite Ht. pose proof (zlen_nonneg dst).
  destruct (Z.leb_spec (zlen (flat v)) offset) as [Hle|Hlt]; [|destruct (Z.eqb_spec (zlen dst) 0)]; cbn [orb].
  1, 2: assert (n = 0) as -> by (unfold n, copied; lia);
    rewrite slice_empty, write_at_nil by lia; done.
  assert (n = Z.min (zlen dst) (zlen (flat v) - offset)) as <- by (unfold n, copied; lia).
  assert (first_skip (front_skip v) 0 = front_skip v) as Hf by done.
  rewrite copy_go_spec; rewrite ?Hf; try done; try lia.
  - fold (flat v). by replace (Z.max 0 (offset - 0)) with offset by lia.
  - destruct (blocks v); [done|lia].
  - unfold n, copied. lia.
  - unfold n, copied. lia.
  - fold (flat v). unfold n, copied. lia.
Qed.

Lemma write_at_all {A} (bs l : list A) : zlen bs = zlen l -> write_at 0 bs l = bs.
Proof.
  intros. rewrite write_at_in by lia. unfold zlen in *. rewrite drop_ge by lia.
  by rewrite app_nil_r.
Qed.

Lemma peek_spec v len :
  iov_wf v -> 0 <= len ->
  peek v len = Ok (if zlen (flat v) <? len then None else Some (slice 0 len (flat v))).
Proof.
  intros Hwf Hl. unfold peek. pose proof Hwf as (_ & _ & _ & ->).
  destruct (Z.ltb_spec (zlen (flat v)) len); [done|]. rewrite copy_to_spec by (done || lia).
  unfold copied. rewrite zlen_zrep by lia. cbn [res_bind fst].
  replace (Z.max 0 (Z.min len (zlen (flat v) - 0))) with len by lia.
  rewrite write_at_all; [done|]. rewrite zlen_slice, zlen_zrep; lia.
Qed.

Lemma drain_go_spec bs : forall r skip total,
  Forall (fun b => b <> []) bs -> 0 <= skip ->
  match bs with [] => skip = 0 | b :: _ => skip < zlen b end ->
  let C := drop (Z.to_nat skip) (concat bs) in
  total = zlen C -> 0 <= r <= zlen C ->
  exists v, drain_go r bs skip total = Ok v /\ iov_wf v /\ flat v = drop (Z.to_nat r) C.
Proof.
  induction bs as [|b bs IH]; intros r skip total HF Hs0 Hs C Ht Hr; cbn [drain_go].
  { subst C. cbn [concat] in *. rewrite drop_nil in *. change (zlen []) with 0 in *. assert (r = 0) as -> by lia. subst.
    eexists. split; [done|]. split; [|done]. split_and!; done. }
  pose proof HF as [_ HF']%list.Forall_cons. subst C.
  rewrite (concat_cons_drop _ _ _ Hs) in *.
  destruct (Z.ltb_spec 0 r) as [Hr0|Hr0].
  2: { assert (r = 0) as -> by lia. rewrite drop_0. eexists. split; [done|].
       assert (flat (mkIOVector (b :: bs) skip total) = drop (Z.to_nat skip) b ++ concat bs) as Hf
         by (unfold flat; cbn [blocks front_skip]; by apply concat_cons_drop).
       split; [|done]. split_and!; try done. by rewrite Hf. }
  rewrite zlen_app, zlen_drop in * by lia. rewrite usub_ok by lia. cbn [res_bind].
  destruct (Z.leb_spec (zlen b - skip) r).
  - rewrite usub_ok by lia. cbn [res_bind].
    destruct (IH (r - (zlen b - skip)) 0 (total - (zlen b - skip))) as (v & -> & Hwf & Hfl).
    + done.
    + lia.
    + destruct HF' as [|b' ? Hb' _]; [done|]. destruct b'; [done|].
      rewrite zlen_cons. pose proof (zlen_nonneg b'). lia.
    + rewrite drop_0. lia.
    + rewrite drop_0. lia.
    + exists v. split_and!; try done. rewrite Hfl, drop_0.
      rewrite drop_app_ge by (rewrite length_drop; unfold zlen in *; lia).
      f_equal. rewrite length_drop. unfold zlen in *. lia.
  - rewrite usub_ok by (pose proof (zlen_nonneg (concat bs)); lia). cbn [res_bind].
    assert (flat (mkIOVector (b :: bs) (skip + r) (total - r))
            = drop (Z.to_nat r) (drop (Z.to_nat skip) b ++ concat bs)) as Hf.
    { unfold flat. cbn [blocks front_skip]. rewrite <- (concat_cons_drop _ _ _ Hs), drop_drop.
      f_equal. lia. }
    eexists. split; [done|]. split; [|done]. split_and!; cbn [blocks front_skip]; [done|lia|lia|].
    rewrite Hf, drop_app_le by (rewrite length_drop; unfold zlen in *; lia).
    cbn [total_len]. rewrite zlen_app, drop_drop.
    replace (Z.to_nat skip + Z.to_nat r)%nat with (Z.to_nat (skip + r)) by lia.
    rewrite zlen_drop; lia.
Qed.

Lemma drain_front_spec v len :
  iov_wf v -> 0 <= len ->
  (zlen (flat v) < len /\ drain_front v len = Panic) \/
  (len <= zlen (flat v) /\ exists v', drain_front v len = Ok v' /\ iov_wf v' /\
     flat v' = drop (Z.to_nat len) (flat v)).
Proof.
  intros Hwf Hl. pose proof Hwf as (HF & H0 & Hs & Ht). unfold drain_front. rewrite Ht.
  destruct (Z.leb_spec len (zlen (flat v))) as [Hle|Hlt]; [right|by left]. split; [done|].
  destruct (Z.eqb_spec len 0) as [->|]; [by exists v|].
  by apply drain_go_spec.
Qed.

(** ** Refinement of a byte list *)

Inductive iov_op :=
| OAppend (data : bytes)
| OCopyTo (offset : Z) (dst : bytes)
| OPeek (len : Z)
| ODrain (len : Z)
| OClear
| OLen
| OIsEmpty.

Inductive iov_out :=
| RUnit
| RCopy (r : bytes * Z)
| RPeek (o : option bytes)
| RLen (n : Z)
| RBool (b : bool).

(** The arguments are [usize] values. *)
Definition iov_arg_ok (op : iov_op) : Prop :=
  match op with
  | OCopyTo n _ | OPeek n | ODrain n => 0 <= n
  | _ => True
  end.

Definition iov_step (v : IOVector) (op : iov_op) : res Empty_set (IOVector * iov_out) :=
  match op with
  | OAppend data => Ok (append v data, RUnit)
  | OCopyTo offset dst => let! r := copy_to v offset dst in Ok (v, RCopy r)
  | OPeek len => let! o := peek v len in Ok (v, RPeek o)
  | ODrain len => let! v := drain_front v len in Ok (v, RUnit)
  | OClear => Ok (iov_clear v, RUnit)
  | OLen => Ok (v, RLen (iov_len v))
  | OIsEmpty => Ok (v, RBool (iov_is_empty v))
  end.

(** The specification: a byte list, with the documented panic of a drain that is too long. *)
Definition queue_step (q : bytes) (op : iov_op) : res Empty_set (bytes * iov_out) :=
  match op with
  | OAppend data => Ok (q ++ data, RUnit)
  | OCopyTo offset dst =>
      let n := copied q offset dst in
      Ok (q, RCopy (write_at 0 (slice offset (offset + n) q) dst, n))
  | OPeek len => Ok (q, RPeek (if zlen q <? len then None else Some (slice 0 len q)))
  | ODrain len => if len <=? zlen q then Ok (drop (Z.to_nat len) q, RUnit) else Panic
  | OClear => Ok ([], RUnit)
  | OLen => Ok (q, RLen (zlen q))
  | OIsEmpty => Ok (q, RBool (bool_decide (q = [])))
  end.

Fixpoint run_ops {St} (step : St -> iov_op -> res Empty_set (St * iov_out)) (s : St)
    (ops : list iov_op) : list iov_out * bool :=
  match ops with
  | [] => ([], true)
  | op :: ops =>
      match step s op with
      | Ok (s, o) => let '(os, fine) := run_ops step s ops in (o :: os, fine)
      | _ => ([], false)
      end
  end.

Lemma zlen_eqb_nil {A} `{EqDecision A} (q : list A) : (zlen q =? 0) = bool_decide (q = []).
Proof.
  destruct q; [done|]. rewrite zlen_cons. pose proof (zlen_nonneg q).
  rewrite bool_decide_eq_false_2 by done. apply Z.eqb_neq. lia.
Qed.

Lemma iov_step_sim v op :
  iov_wf v -> iov_arg_ok op ->
  match iov_step v op with
  | Ok (v', o) => iov_wf v' /\ queue_step (flat v) op = Ok (flat v', o)
  | _ => queue_step (flat v) op = Panic
  end.
Proof.
  intros Hwf Hop. destruct op as [data|offset dst|len|len| | |]; cbn [iov_step queue_step iov_arg_ok] in *.
  - destruct (append_spec v data Hwf) as [? ->]. done.
  - rewrite copy_to_spec by done. done.
  - rewrite peek_spec by done. done.
  - destruct (drain_front_spec v len Hwf Hop) as [[Hlt ->]|(Hle & v' & -> & Hv' & Hf)]; cbn [res_bind].
    + by rewrite (proj2 (Z.leb_gt len _)).
    + rewrite (proj2 (Z.leb_le len _)) by done. by rewrite Hf.
  - split; [apply iov_new_wf|done].
  - split; [done|]. destruct Hwf as (_ & _ & _ & <-). done.
  - split; [done|]. unfold iov_is_empty. destruct Hwf as (_ & _ & _ & ->). by rewrite zlen_eqb_nil.
Qed.

Lemma run_ops_sim ops : forall v,
  iov_wf v -> Forall iov_arg_ok ops -> run_ops iov_step v ops = run_ops queue_step (flat v) ops.
Proof.
  induction ops as [|op ops IH]; intros v Hwf HF; [done|]. apply list.Forall_cons in HF as [Hop HF].
  cbn [run_ops]. pose proof (iov_step_sim v op Hwf Hop) as Hs.
  destruct (iov_step v op) as [[v' o]|e|].
  - destruct Hs as [Hv' ->]. by rewrite IH.
  - by rewrite Hs.
  - by rewrite Hs.
Qed.

(** Any sequence of calls of [append], [copy_to], [peek], [drain_front], [clear], [len] and
    [is_empty] on a new [IOVector] gives, call by call, the results of the same calls on a plain
    list of bytes, including the panic of a [drain_front] of more bytes than are buffered. *)
Theorem iov_refines ops :
  Forall iov_arg_ok ops -> run_ops iov_step iov_new ops = run_ops queue_step [] ops.
Proof. intros. apply (run_ops_sim ops iov_new); [apply iov_new_wf|done]. Qed.

Lemma iov_refines_witness :
  let ops := [OAppend (B "abc"); OAppend (B "defg"); ODrain 2; OPeek 3; OCopyTo 1 (B "....");
              OLen; ODrain 9] in
  run_ops iov_step iov_new ops = run_ops queue_step [] ops /\
  run_ops iov_step iov_new ops =
    ([RUnit; RUnit; RUnit; RPeek (Some (B "cde")); RCopy (B "defg", 4); RLen 5], false).
Proof.
  cbv zeta. split; [|vm_compute; reflexivity]. apply iov_refines.
  repeat constructor; cbn; lia.
Defined.

(** [coalesce] returns the whole first block, consumed bytes included: its result is the
    buffered content exactly when nothing of the first block has been consumed, and otherwise
    the bytes already drained come back in front of it, while [len] keeps its value. *)
Theorem iov_coalesce_iff v :
  iov_wf v ->
  exists consumed, zlen consumed = front_skip v /\
    snd (coalesce v) = consumed ++ flat v /\
    flat (fst (coalesce v)) = consumed ++ flat v /\
    iov_len (fst (coalesce v)) = zlen (flat v) /\
    (snd (coalesce v) = flat v <-> front_skip v = 0).
Proof.
  intros (HF & H0 & Hs & Ht). exists (take (Z.to_nat (front_skip v)) (concat (blocks v))).
  assert (front_skip v <= zlen (concat (blocks v))) as Hle.
  { destruct (blocks v) as [|b bs]; [by rewrite Hs|]. cbn [concat]. rewrite zlen_app.
    pose proof (zlen_nonneg (concat bs)). lia. }
  unfold flat, coalesce, iov_len in *. rewrite take_drop, <- Ht.
  assert (zlen (take (Z.to_nat (front_skip v)) (concat (blocks v))) = front_skip v) as Hc
    by (unfold zlen in *; rewrite length_take; lia).
  split; [done|]. destruct (blocks v) as [|b bs] eqn:Hb; cbn [fst snd blocks front_skip total_len].
  { rewrite Hb, Hs. done. }
  change (Z.to_nat 0) with 0%nat. cbn [concat]. rewrite !app_nil_r, !drop_0. split_and!; try done.
  split.
  - intros E. rewrite <- (take_drop (Z.to_nat (front_skip v)) (b ++ concat bs)) in E at 1.
    apply (f_equal zlen) in E. rewrite zlen_app in E. cbn [concat] in Hc. lia.
  - intros ->. done.
Qed.

Lemma iov_coalesce_iff_witness :
  let v := mkIOVector [B "abc"; B "de"] 2 3 in
  exists consumed, zlen consumed = 2 /\ snd (coalesce v) = consumed ++ B "cde".
Proof.
  intros v.
  assert (iov_wf v) as Hwf
    by (split_and!; [cbn [blocks v]; by repeat (constructor; [done|])|done|done|reflexivity]).
  destruct (iov_coalesce_iff v Hwf) as (c & Hc & Hs & _). exists c. by split.
Defined.
