(* ===== verification/AdbTransport.v ===== *)
(** * ADB transports

    [adb-protocol/src/transport.rs]: sending and receiving whole messages over a byte stream, and
    the client's side of the host protocol (requests with a hexadecimal length, OKAY or FAIL). *)
From S2P Require Import Prelude Text AdbHeader Net.

Definition ADB_VERSION : Z := 0x01000001.

Inductive TransportError :=
| TIo (e : io_error)
| THeader (e : HeaderError)
| TConnectFailed (addr : bytes) (source : io_error)
| TProtocol (msg : bytes)
| TServerError (msg : bytes)
| TTlsHandshakeRequired.

(** [{:#x}]. *)
Definition fmt_hex0x (z : Z) : bytes := B "0x" ++ fmt_hex z.

Definition header_error_text (e : HeaderError) : bytes :=
  match e with
  | BufferTooShort n => B "Buffer too short: expected 24 bytes, got " ++ fmt_dec n
  | MagicMismatch x g => B "Magic mismatch: expected " ++ fmt_hex0x x ++ B ", got " ++ fmt_hex0x g
  | ChecksumMismatch x g => B "Checksum mismatch: expected " ++ fmt_hex0x x ++ B ", got " ++ fmt_hex0x g
  end.

Definition transport_error_text (e : TransportError) : bytes :=
  match e with
  | TIo e => B "I/O error: " ++ io_msg e
  | THeader e => B "Header error: " ++ header_error_text e
  | TConnectFailed addr e => B "Connection failed to " ++ addr ++ B ": " ++ io_msg e
  | TProtocol s => B "Protocol error: " ++ s
  | TServerError s => s
  | TTlsHandshakeRequired => B "TLS handshake required: device requested A_STLS"
  end.

(** ** Messages *)
Definition header_bytes (h : AdbMessageHeader) : bytes := Header.encode h (zrep 24 x00).

(** A sequence of writes that stops at the first error. *)
Definition then_write (bs : bytes) (r : Conn * res io_error unit) : Conn * res io_error unit :=
  match r with
  | (c, Ok _) => write_all bs c
  | r => r
  end.

Definition send_message (h : AdbMessageHeader) (payload : bytes) (c : Conn)
    : Conn * res TransportError unit :=
  let r := write_all (header_bytes h) c in
  let '(c, r) := match payload with [] => r | _ => then_write payload r end in
  (c, map_err TIo r).

(** [recv_message]; the stream is what is left of it. *)
Definition recv_message (q : list event) : list event * res TransportError (AdbMessageHeader * bytes) :=
  match read_exact 24 q with
  | (q, Ok hdr_buf) =>
      match Header.decode hdr_buf with
      | Ok header =>
          if MAX_PAYLOAD_V2 <? data_length header
          then (q, Err (TProtocol (B "Payload too large: " ++ fmt_dec (data_length header) ++ B " bytes (max "
                                   ++ fmt_dec MAX_PAYLOAD_V2 ++ B ")")))
          else if 0 <? data_length header then
            match read_exact (data_length header) q with
            | (q, Ok payload) =>
                (q, let! _ := map_err THeader (Header.verify_payload header payload) in Ok (header, payload))
            | (q, Err e) => (q, Err (TIo e))
            | (q, Panic) => (q, Panic)
            end
          else (q, Ok (header, []))
      | Err e => (q, Err (THeader e))
      | Panic => (q, Panic)
      end
  | (q, Err e) => (q, Err (TIo e))
  | (q, Panic) => (q, Panic)
  end.

(** [recv_message] on a connection. *)
Definition conn_recv (c : Conn) : Conn * res TransportError (AdbMessageHeader * bytes) :=
  let '(q, r) := recv_message (incoming c) in (set_incoming q c, r).

(** The trait [Transport], for code that takes a [Box<dyn Transport>]: messages are sent and received
    whole; [t_clone] is whether [try_clone_box] gives a clone. *)
Class Transport (T : Type) := {
  t_send : AdbMessageHeader -> bytes -> T -> T * res TransportError unit;
  t_recv : T -> T * res TransportError (AdbMessageHeader * bytes);
  t_clone : T -> bool }.

(** [TcpTransport] has the trait's own [try_clone_box], which returns nothing. *)
#[export] Instance TcpTransport : Transport Conn :=
  {| t_send := send_message; t_recv := conn_recv; t_clone _ := false |}.

(** ** The host protocol, client side ([AdbServerTransport]) *)

(** [format!("{:04x}", n)]. *)
Definition hex4 (n : Z) : bytes := fmt_hex_pad 4 n.

Definition send_host_request (request : bytes) (c : Conn) : Conn * res TransportError unit :=
  let '(c, r) := then_write request (write_all (hex4 (zlen request)) c) in (c, map_err TIo r).

(** Four hexadecimal digits and that many bytes; [what] is the end of the error texts. *)
Definition read_hex_block (what : bytes) (q : list event) : list event * res TransportError bytes :=
  match read_exact 4 q with
  | (q, Ok len_buf) =>
      if negb (is_utf8 len_buf) then (q, Err (TProtocol (B "Invalid hex length prefix" ++ what))) else
      match parse_uint 16 usize_max len_buf with
      | None => (q, Err (TProtocol (B "Invalid hex length" ++ what ++ B ": " ++ len_buf)))
      | Some len =>
          if 0 <? len then
            match read_exact len q with
            | (q, Ok buf) => (q, Ok buf)
            | (q, Err e) => (q, Err (TIo e))
            | (q, Panic) => (q, Panic)
            end
          else (q, Ok [])
      end
  | (q, Err e) => (q, Err (TIo e))
  | (q, Panic) => (q, Panic)
  end.

Definition read_status (q : list event) : list event * res TransportError unit :=
  match read_exact 4 q with
  | (q, Ok status) =>
      if bool_decide (status = B "OKAY") then (q, Ok tt)
      else if bool_decide (status = B "FAIL") then
        let '(q, r) := read_hex_block (B " in FAIL response") q in
        (q, let! err_buf := r in Err (TServerError (from_utf8_lossy err_buf)))
      else (q, Err (TProtocol (B "Unexpected ADB server status response: " ++ from_utf8_lossy status)))
  | (q, Err e) => (q, Err (TIo e))
  | (q, Panic) => (q, Panic)
  end.

Definition read_payload (q : list event) : list event * res TransportError bytes := read_hex_block [] q.

Definition on_conn {A} (f : list event -> list event * res TransportError A) (c : Conn)
    : Conn * res TransportError A :=
  let '(q, r) := f (incoming c) in (set_incoming q c, r).

Definition switch_service (service : bytes) (c : Conn) : Conn * res TransportError unit :=
  match send_host_request service c with
  | (c, Ok _) => on_conn read_status c
  | (c, Err e) => (c, Err e)
  | (c, Panic) => (c, Panic)
  end.

Definition execute_host_command (request : bytes) (c : Conn) : Conn * res TransportError bytes :=
  match switch_service request c with
  | (c, Ok _) =>
      let '(c, r) := on_conn read_payload c in (c, let! p := r in Ok (from_utf8_lossy p))
  | (c, Err e) => (c, Err e)
  | (c, Panic) => (c, Panic)
  end.

Definition switch_request (serial : option bytes) : bytes :=
  match serial with
  | Some s => if starts_with (B "host:") s then s else B "host:transport:" ++ s
  | None => B "host:transport-any"
  end.

Definition switch_transport (serial : option bytes) (c : Conn) : Conn * res TransportError unit :=
  switch_service (switch_request serial) c.

(** ** Transports whose peer says finitely much

    [t_left] bounds the messages that are still to come; a message takes more than its payload. *)
Class TransportEnds (T : Type) `{Transport T} := {
  t_left : T -> nat;
  recv_left : forall t, match t_recv t with
                        | (t', Ok (_, p)) => (t_left t' + length p < t_left t)%nat
                        | (t', Err _) => (t_left t' <= t_left t)%nat
                        | (_, Panic) => False
                        end;
  send_left : forall h p t, match t_send h p t with
                            | (_, Panic) => False
                            | (t', _) => (t_left t' <= t_left t)%nat
                            end }.

Lemma read_exact_go_count q : forall n acc q' bs,
  read_exact_go q n acc = (q', bs, None) -> (script_size q' + length bs <= script_size q + length acc)%nat.
Proof.
  induction q as [|[seg|e] q IH]; intros n acc q' bs; cbn [read_exact_go].
  - destruct (n <=? 0); [|done]. by intros [= <- <-].
  - destruct (n <=? 0); [by intros [= <- <-]|]. destruct (zlen seg =? 0); [done|]. destruct (zlen seg <=? n).
    + intros E%IH. rewrite length_app in E. cbn. lia.
    + intros [= <- <-]. cbn. rewrite length_app, length_drop, length_take. lia.
  - destruct (n <=? 0); [by intros [= <- <-]|]. destruct (bool_decide _); [|done]. intros E%IH. cbn. lia.
Qed.

Lemma read_exact_count n q q' bs : read_exact n q = (q', Ok bs) -> (script_size q' + length bs <= script_size q)%nat.
Proof.
  unfold read_exact. destruct (read_exact_go q n []) as [[q1 b] [e|]] eqn:E; [done|]. intros [= <- <-].
  apply read_exact_go_count in E. cbn in E. lia.
Qed.

Lemma header_decode_total b : Header.decode b <> Panic.
Proof.
  destruct (Z.lt_ge_cases (zlen b) Header.SIZE) as [Hl|Hl].
  - unfold Header.decode. by rewrite (proj2 (Z.ltb_lt _ _)).
  - rewrite decode_eq by done. cbv zeta. by destruct (negb _).
Qed.

Lemma verify_payload_total h p : Header.verify_payload h p <> Panic.
Proof. unfold Header.verify_payload. destruct (negb _); [done|]. destruct (_ =? 0); [done|]. by destruct (negb _). Qed.

#[export] Instance tcp_ends : TransportEnds Conn.
Proof.
  unshelve econstructor; [exact (fun c => script_size (incoming c))| |].
  - intros c. cbn [t_recv TcpTransport]. unfold conn_recv. destruct (recv_message (incoming c)) as [q r] eqn:E.
    revert E. unfold recv_message. pose proof (read_exact_progress (incoming c) 24 ltac:(lia)) as H1.
    pose proof (read_exact_count 24 (incoming c)) as C1.
    destruct (read_exact 24 (incoming c)) as [q1 [hdr|e|]]; [|intros [= <- <-]; done..].
    destruct (Header.decode hdr) as [h|e|] eqn:Ed; [|intros [= <- <-]; cbn; lia|by destruct (header_decode_total hdr)].
    destruct (_ <? data_length h); [intros [= <- <-]; cbn; lia|].
    destruct (0 <? data_length h); [|intros [= <- <-]; cbn; lia].
    pose proof (read_exact_size q1 (data_length h)) as H2. pose proof (read_exact_count (data_length h) q1) as C2.
    destruct (read_exact (data_length h) q1) as [q2 [p|e|]]; [|intros [= <- <-]; cbn; lia|done].
    specialize (C2 q2 p eq_refl). destruct (Header.verify_payload h p) eqn:Ev; cbn [map_err res_bind]; intros [= <- <-]; cbn; try lia.
    by destruct (verify_payload_total h p).
  - intros h p c. cbn [t_send TcpTransport]. unfold send_message, write_all, write.
    destruct (wfail c) eqn:Ew; destruct p; cbn [then_write]; unfold write_all, write; cbn; rewrite ?Ew; cbn; lia.
Defined.

(** ** Messages are read back *)

(** A message that a side may send: its fields have their widths, the length is the payload's, the
    payload is within the limit and passes the check. *)
Definition message_ok (m : AdbMessageHeader * bytes) : Prop :=
  Header.wf (fst m) /\ data_length (fst m) = zlen (snd m) /\ zlen (snd m) <= MAX_PAYLOAD_V2 /\
  Header.verify_payload (fst m) (snd m) = Ok tt.

Definition message_bytes (m : AdbMessageHeader * bytes) : bytes := header_bytes (fst m) ++ snd m.

Lemma zlen_header_bytes h : zlen (header_bytes h) = 24.
Proof. unfold header_bytes. rewrite zlen_encode. apply zlen_zrep. lia. Qed.
#[export] Hint Rewrite zlen_header_bytes : zlen_db.

Lemma decode_header_bytes h : Header.wf h -> Header.decode (header_bytes h) = Ok h.
Proof.
  intros ((H1 & H2 & H3 & H4 & H5 & H6) & Hm). unfold header_bytes.
  destruct (encode_fields h (zrep 24 x00) eq_refl) as (F1 & F2 & F3 & F4 & F5 & F6).
  rewrite decode_eq by (rewrite zlen_encode; done). cbv beta zeta.
  rewrite F1, F2, F3, F4, F5, F6, !le_val_bytes_id by done.
  rewrite Hm, Z.eqb_refl. cbn [negb]. rewrite <- Hm. by destruct h.
Qed.

Lemma recv_message_arrives q m rest :
  message_ok m -> arrives q (message_bytes m ++ rest) ->
  exists q', recv_message q = (q', Ok m) /\ arrives q' rest.
Proof.
  intros (Hwf & Hl & Hmax & Hv) Ha. unfold message_bytes in Ha. rewrite <- app_assoc in Ha.
  destruct (arrives_read_exact_app _ _ _ Ha) as (q1 & H1 & Ha1). rewrite zlen_header_bytes in H1.
  destruct (arrives_read_exact_app _ _ _ Ha1) as (q2 & H2 & Ha2).
  unfold recv_message. rewrite H1, decode_header_bytes, Hl by done.
  rewrite (proj2 (Z.ltb_ge _ _)) by done. destruct m as [h p]. cbn [fst snd] in *.
  destruct (Z.ltb_spec 0 (zlen p)) as [Hp|Hp].
  - rewrite H2, Hv. by exists q2.
  - assert (p = []) as -> by (apply zlen_0_nil; pose proof (zlen_nonneg p); lia). by exists q1.
Qed.

Lemma write_all_out bs c : wfail c = None -> write_all bs c = (mk_conn (incoming c) (outgoing c ++ bs) None, Ok tt).
Proof. intros Hw. unfold write_all, write. by rewrite Hw. Qed.

Lemma send_message_out h payload c :
  wfail c = None ->
  send_message h payload c = (mk_conn (incoming c) (outgoing c ++ message_bytes (h, payload)) None, Ok tt).
Proof.
  intros Hw. unfold send_message, message_bytes. cbn [fst snd]. rewrite write_all_out by done.
  destruct payload as [|b p]; [by rewrite app_nil_r|]. cbn [then_write].
  rewrite write_all_out by done. cbn. by rewrite <- app_assoc.
Qed.

(** Sending and receiving several messages. *)
Fixpoint send_all (ms : list (AdbMessageHeader * bytes)) (c : Conn) : Conn :=
  match ms with [] => c | m :: ms => send_all ms (fst (send_message (fst m) (snd m) c)) end.

Fixpoint recv_n (n : nat) (q : list event) : list event * list (res TransportError (AdbMessageHeader * bytes)) :=
  match n with
  | O => (q, [])
  | S n => let '(q, r) := recv_message q in let '(q, rs) := recv_n n q in (q, r :: rs)
  end.

Lemma send_all_out ms : forall c,
  wfail c = None -> outgoing (send_all ms c) = outgoing c ++ concat (map message_bytes ms).
Proof.
  induction ms as [|[h p] ms IH]; intros c Hw; cbn [send_all map concat]; [by rewrite app_nil_r|].
  rewrite send_message_out by done. cbn [fst]. rewrite IH by done. cbn. by rewrite <- app_assoc.
Qed.

(** C6: Messages sent over a stream are received unchanged and in order, however the stream is cut
    into segments, and the stream is left behind the last of them. *)
Theorem adb_messages_roundtrip ms c q rest :
  wfail c = None -> outgoing c = [] -> Forall message_ok ms ->
  arrives q (outgoing (send_all ms c) ++ rest) ->
  exists q', recv_n (length ms) q = (q', map Ok ms) /\ arrives q' rest.
Proof.
  intros Hw Ho HF. rewrite send_all_out, Ho by done. cbn [app]. clear Ho. revert q.
  induction HF as [|m ms Hm HF IH]; intros q Ha; cbn [map concat length recv_n] in *; [by exists q|].
  rewrite <- app_assoc in Ha. destruct (recv_message_arrives q m _ Hm Ha) as (q1 & -> & Ha1).
  destruct (IH q1 Ha1) as (q2 & -> & Ha2). by exists q2.
Qed.

Lemma adb_messages_roundtrip_witness :
  let ms := [(Header.new A_OPEN 1 0 (B "shell:ls"), B "shell:ls"); (Header.new A_CLSE 1 2 [], [])] in
  let sent := outgoing (send_all ms (mk_conn [] [] None)) in
  exists q', recv_n 2 [inl (take 5 sent); inl (drop 5 sent)] = (q', map Ok ms) /\ arrives q' [].
Proof.
  intros ms sent. apply (adb_messages_roundtrip ms (mk_conn [] [] None)); try done.
  - repeat constructor; vm_compute; done.
  - rewrite app_nil_r. fold sent. replace sent with (take 5 sent ++ drop 5 sent) at 3 by apply take_drop.
    constructor; [done|]. by apply arrives_one.
Defined.
