(* ===== verification/UsbAdb.v ===== *)
(** * ADB over USB

    [adb-protocol/src/usb.rs]: the search for the ADB interface in raw configuration descriptors, and
    the adapter from bulk transfers to the message transport. The USB libraries below the trait
    [UsbTransport] are the class [UsbBackend]. *)
From S2P Require Import Prelude Text AdbHeader Net AdbTransport.

Definition INTERFACE_DESCRIPTOR : Z := 0x04.
Definition ENDPOINT_DESCRIPTOR : Z := 0x05.
Definition BULK_TRANSFER_TYPE : Z := 0x02.
Definition USB_DIRECTION_IN : Z := 0x80.
Definition ADB_CLASS : Z := 0xff.
Definition ADB_SUBCLASS : Z := 0x42.
Definition ADB_PROTOCOL : Z := 0x01.
Definition ADB_DBC_CLASS : Z := 0xdc.
Definition ADB_DBC_SUBCLASS : Z := 0x02.

Record UsbEndpointInfo := mk_info {
  interface_number : Z;
  bulk_in_endpoint_address : Z;
  bulk_out_endpoint_address : Z;
  out_max_packet_size : Z }.

Inductive UsbTransportError :=
| MalformedDescriptor (offset : Z) (reason : bytes)
| NoAdbInterface
| MissingBulkEndpoint (n : Z) (missing : bytes)
| InconsistentPacketSize (n : Z)
| ZeroPacketSize (n : Z)
| UsbIo (msg : bytes)
| Disconnected
| Timeout
| PermissionDenied
| NoDevice.

(** ** Descriptors *)
Definition is_adb_interface (class subclass protocol : Z) : bool :=
  (protocol =? ADB_PROTOCOL)
  && (((class =? ADB_CLASS) && (subclass =? ADB_SUBCLASS))
      || ((class =? ADB_DBC_CLASS) && (subclass =? ADB_DBC_SUBCLASS))).

(** The candidate: interface number, IN and OUT endpoints with their packet sizes, common size. *)
Definition candidate : Type := Z * option (Z * Z) * option (Z * Z) * option Z.

Definition complete_endpoint_info (c : candidate) : res UsbTransportError (option UsbEndpointInfo) :=
  match c with
  | (n, Some (a_in, _), Some (a_out, size), Some _) => Ok (Some (mk_info n a_in a_out size))
  | (n, None, _, _) => Err (MissingBulkEndpoint n (B "IN"))
  | (n, _, None, _) => Err (MissingBulkEndpoint n (B "OUT"))
  | _ => Ok None
  end.

(** The bytes of a descriptor, as numbers. *)
Definition at_ (i : nat) (d : bytes) : Z := match d !! i with Some b => b2z b | None => 0 end.

(** An endpoint of the current candidate. *)
Definition add_endpoint (d : bytes) (c : candidate) : res UsbTransportError candidate :=
  let '(n, in_ep, out_ep, packet_size) := c in
  if negb (Z.land (at_ 3 d) 0x03 =? BULK_TRANSFER_TYPE) then Ok c else
  let size := at_ 4 d + 256 * at_ 5 d in
  if size =? 0 then Err (ZeroPacketSize n) else
  let! packet_size :=
    match packet_size with
    | Some previous => if negb (previous =? size) then Err (InconsistentPacketSize n) else Ok packet_size
    | None => Ok (Some size)
    end in
  if negb (Z.land (at_ 2 d) USB_DIRECTION_IN =? 0)
  then Ok (n, match in_ep with None => Some (at_ 2 d, size) | _ => in_ep end, out_ep, packet_size)
  else Ok (n, in_ep, match out_ep with None => Some (at_ 2 d, size) | _ => out_ep end, packet_size).

(** What the next interface descriptor does: the candidate before it is the answer if it is complete. *)
Definition new_interface (d : bytes) (c : option candidate) : res UsbTransportError UsbEndpointInfo + option candidate :=
  let start := if (at_ 3 d =? 0) && is_adb_interface (at_ 5 d) (at_ 6 d) (at_ 7 d)
               then Some (at_ 2 d, None, None, None) else None in
  match c with
  | Some ((_, Some _, Some _, Some _) as c) =>
      inl (let! info := complete_endpoint_info c in
           match info with Some info => Ok info | None => Panic end)
  | _ => inr start
  end.

(** One round for a descriptor [d] at [offset]: the result, or the candidate to go on with. *)
Definition visit (offset : Z) (d : bytes) (c : option candidate)
    : res UsbTransportError UsbEndpointInfo + option candidate :=
  if at_ 1 d =? INTERFACE_DESCRIPTOR then
    if zlen d <? 9 then inl (Err (MalformedDescriptor offset (B "interface descriptor is shorter than 9 bytes")))
    else new_interface d c
  else if at_ 1 d =? ENDPOINT_DESCRIPTOR then
    if zlen d <? 7 then inl (Err (MalformedDescriptor offset (B "endpoint descriptor is shorter than 7 bytes")))
    else
      match c with
      | None => inr None
      | Some c => match add_endpoint d c with Ok c => inr (Some c) | Err e => inl (Err e) | Panic => inl Panic end
      end
  else inr c.

Definition finish (c : option candidate) : res UsbTransportError UsbEndpointInfo :=
  match c with
  | Some c => let! info := complete_endpoint_info c in
              match info with Some info => Ok info | None => Err NoAdbInterface end
  | None => Err NoAdbInterface
  end.

(** The loop; every round takes at least two bytes, so the length is enough fuel. *)
Fixpoint parse_go (fuel : nat) (descriptors : bytes) (offset : Z) (c : option candidate)
    : res UsbTransportError UsbEndpointInfo :=
  match fuel with
  | O => finish c
  | S fuel =>
      if offset <? zlen descriptors then
        if zlen descriptors - offset <? 2
        then Err (MalformedDescriptor offset (B "descriptor header is truncated")) else
        let! length_b := get_index descriptors offset in
        let length := b2z length_b in
        if (length <? 2) || (zlen descriptors <? offset + length)
        then Err (MalformedDescriptor offset (B "invalid descriptor length")) else
        let! d := get_slice descriptors offset (offset + length) in
        match visit offset d c with
        | inl r => r
        | inr c => parse_go fuel descriptors (offset + length) c
        end
      else finish c
  end.

Definition parse_adb_interface_descriptors (descriptors : bytes) : res UsbTransportError UsbEndpointInfo :=
  parse_go (length descriptors) descriptors 0 None.

(** ** The adapter *)
Definition should_send_zlp (payload_len max_packet_size : Z) : bool :=
  negb (payload_len =? 0) && negb (max_packet_size =? 0) && (payload_len mod max_packet_size =? 0).

(** A backend: [bulk_read endpoint len] with what was transferred, [bulk_write endpoint buffer] with
    the number of bytes written. *)
Class UsbBackend (W : Type) := {
  endpoint_info : W -> UsbEndpointInfo;
  bulk_read : Z -> Z -> W -> W * res UsbTransportError bytes;
  bulk_write : Z -> bytes -> W -> W * res UsbTransportError Z }.

Definition usb_error_text (e : UsbTransportError) : bytes :=
  match e with
  | MalformedDescriptor o r => B "malformed USB descriptor at offset " ++ fmt_dec o ++ B ": " ++ r
  | NoAdbInterface => B "ADB USB interface was not found"
  | MissingBulkEndpoint n m => B "ADB interface " ++ fmt_dec n ++ B " is missing a bulk " ++ m ++ B " endpoint"
  | InconsistentPacketSize n => B "ADB interface " ++ fmt_dec n ++ B " has inconsistent bulk endpoint packet sizes"
  | ZeroPacketSize n => B "ADB interface " ++ fmt_dec n ++ B " has a zero bulk endpoint packet size"
  | UsbIo m => B "USB transport I/O error: " ++ m
  | Disconnected => B "USB transport is disconnected"
  | Timeout => B "USB transport operation timed out"
  | PermissionDenied => B "USB transport permission denied"
  | NoDevice => B "no USB device was found"
  end.

(** Of the kinds, the code above distinguishes only [TimedOut], [InvalidData] and the rest. *)
Definition usb_io_error (e : UsbTransportError) : io_error :=
  mk_io (match e with
         | Timeout => TimedOut
         | MalformedDescriptor _ _ | NoAdbInterface | MissingBulkEndpoint _ _ | InconsistentPacketSize _
         | ZeroPacketSize _ => InvalidData
         | _ => Other
         end) (usb_error_text e).

Section Adapter.
Context {W : Type} `{UsbBackend W}.

Record UsbTransportAdapter := mk_adapter { backend : W; endpoints : UsbEndpointInfo; pending_out_bytes : Z }.

Definition adapter_new (w : W) : UsbTransportAdapter := mk_adapter w (endpoint_info w) 0.

(** [Read::read] into a buffer of [len] bytes. *)
Definition usb_read (len : Z) (a : UsbTransportAdapter) : UsbTransportAdapter * res io_error bytes :=
  if len =? 0 then (a, Ok []) else
  let packet_size := out_max_packet_size (endpoints a) in
  let slack := wrap 64 (packet_size - 1) in
  if usize_max <? len + slack then (a, Err (mk_io Other (B "USB read length overflow"))) else
  let transfer_len := (len + slack) / packet_size * packet_size in
  let '(w, r) := bulk_read (bulk_in_endpoint_address (endpoints a)) transfer_len (backend a) in
  (mk_adapter w (endpoints a) (pending_out_bytes a),
   let! transfer := map_err usb_io_error r in
   if zlen transfer <? len then Ok transfer else Ok (slice 0 len transfer)).

Definition usb_write (buffer : bytes) (a : UsbTransportAdapter) : UsbTransportAdapter * res io_error Z :=
  match buffer with
  | [] => (a, Ok 0)
  | _ =>
      match bulk_write (bulk_out_endpoint_address (endpoints a)) buffer (backend a) with
      | (w, Ok written) =>
          if zlen buffer <? written
          then (mk_adapter w (endpoints a) (pending_out_bytes a),
                Err (mk_io InvalidData (B "USB bulk_write returned more bytes than requested")))
          else (mk_adapter w (endpoints a) (Z.min usize_max (pending_out_bytes a + written)), Ok written)
      | (w, Err e) => (mk_adapter w (endpoints a) (pending_out_bytes a), Err (usb_io_error e))
      | (w, Panic) => (mk_adapter w (endpoints a) (pending_out_bytes a), Panic)
      end
  end.

(** [flush] and [flush_payload]: a zero-length packet where the length calls for one. *)
Definition flush_len (len : Z) (a : UsbTransportAdapter) : UsbTransportAdapter * res io_error unit :=
  if should_send_zlp len (out_max_packet_size (endpoints a)) then
    match bulk_write (bulk_out_endpoint_address (endpoints a)) [] (backend a) with
    | (w, Ok _) => (mk_adapter w (endpoints a) 0, Ok tt)
    | (w, Err e) => (mk_adapter w (endpoints a) (pending_out_bytes a), Err (usb_io_error e))
    | (w, Panic) => (mk_adapter w (endpoints a) (pending_out_bytes a), Panic)
    end
  else (mk_adapter (backend a) (endpoints a) 0, Ok tt).

Definition usb_flush (a : UsbTransportAdapter) : UsbTransportAdapter * res io_error unit :=
  flush_len (pending_out_bytes a) a.
Definition flush_payload (payload_len : Z) (a : UsbTransportAdapter) : UsbTransportAdapter * res io_error unit :=
  flush_len payload_len a.

(** [Write::write_all] and [Read::read_exact] of the standard library over the adapter; each round
    makes progress, so the length is enough fuel. *)
Fixpoint usb_write_all (fuel : nat) (buffer : bytes) (a : UsbTransportAdapter) : UsbTransportAdapter * res io_error unit :=
  match buffer, fuel with
  | [], _ => (a, Ok tt)
  | _, O => (a, Ok tt)
  | _, S fuel =>
      match usb_write buffer a with
      | (a, Ok n) =>
          if n =? 0 then (a, Err (mk_io WriteZero (B "failed to write whole buffer")))
          else usb_write_all fuel (drop (Z.to_nat n) buffer) a
      | (a, Err e) => (a, Err e)
      | (a, Panic) => (a, Panic)
      end
  end.

Fixpoint usb_read_exact (fuel : nat) (n : Z) (acc : bytes) (a : UsbTransportAdapter) : UsbTransportAdapter * res io_error bytes :=
  if n <=? 0 then (a, Ok acc) else
  match fuel with
  | O => (a, Ok acc)
  | S fuel =>
      match usb_read n a with
      | (a, Ok bs) =>
          if zlen bs =? 0 then (a, Err unexpected_eof) else usb_read_exact fuel (n - zlen bs) (acc ++ bs) a
      | (a, Err e) => (a, Err e)
      | (a, Panic) => (a, Panic)
      end
  end.

(** [Transport::send_message] and [recv_message] over the adapter. *)
Definition usb_send_message (h : AdbMessageHeader) (payload : bytes) (a : UsbTransportAdapter)
    : UsbTransportAdapter * res TransportError unit :=
  match usb_write_all 24 (header_bytes h) a with
  | (a, Ok _) =>
      let '(a, r) := usb_write_all (length payload) payload a in
      match r with
      | Ok _ => let '(a, r) := flush_payload (zlen payload) a in (a, map_err TIo r)
      | r => (a, map_err TIo r)
      end
  | (a, r) => (a, map_err TIo r)
  end.

Definition usb_recv_message (a : UsbTransportAdapter)
    : UsbTransportAdapter * res TransportError (AdbMessageHeader * bytes) :=
  match usb_read_exact 24 24 [] a with
  | (a, Ok hdr_buf) =>
      match Header.decode hdr_buf with
      | Ok header =>
          if MAX_PAYLOAD_V2 <? data_length header
          then (a, Err (TProtocol (B "Payload too large: " ++ fmt_dec (data_length header) ++ B " bytes (max "
                                   ++ fmt_dec MAX_PAYLOAD_V2 ++ B ")")))
          else if 0 <? data_length header then
            match usb_read_exact (Z.to_nat (data_length header)) (data_length header) [] a with
            | (a, Ok payload) =>
                (a, let! _ := map_err THeader (Header.verify_payload header payload) in Ok (header, payload))
            | (a, r) => (a, let! _ := map_err TIo r in Panic)
            end
          else (a, Ok (header, []))
      | Err e => (a, Err (THeader e))
      | Panic => (a, Panic)
      end
  | (a, r) => (a, let! _ := map_err TIo r in Panic)
  end.
End Adapter.
Arguments UsbTransportAdapter : clear implicits.

(** ** The parser is total *)

(** What holds of every candidate: its endpoints have their directions and the common, non-zero size. *)
Definition candidate_ok (c : candidate) : Prop :=
  let '(_, in_ep, out_ep, size) := c in
  (forall s, size = Some s -> 0 < s < 65536) /\
  (forall a s, in_ep = Some (a, s) -> size = Some s /\ Z.land a USB_DIRECTION_IN <> 0) /\
  (forall a s, out_ep = Some (a, s) -> size = Some s /\ Z.land a USB_DIRECTION_IN = 0).

Definition info_ok (i : UsbEndpointInfo) : Prop :=
  0 < out_max_packet_size i < 65536 /\
  Z.land (bulk_in_endpoint_address i) USB_DIRECTION_IN <> 0 /\
  Z.land (bulk_out_endpoint_address i) USB_DIRECTION_IN = 0.

Definition result_ok (r : res UsbTransportError UsbEndpointInfo) : Prop :=
  match r with Ok i => info_ok i | Err _ => True | Panic => False end.

Lemma at_range i d : 0 <= at_ i d < 256.
Proof. unfold at_. destruct (d !! i); [apply b2z_range|lia]. Qed.

Lemma add_endpoint_ok d c :
  candidate_ok c -> match add_endpoint d c with Ok c' => candidate_ok c' | Err _ => True | Panic => False end.
Proof.
  destruct c as [[[n i] o] p]. intros (Hp & Hi & Ho). unfold add_endpoint.
  destruct (negb (Z.land (at_ 3 d) 3 =? _)); [done|].
  set (size := at_ 4 d + 256 * at_ 5 d). pose proof (at_range 4 d). pose proof (at_range 5 d).
  destruct (Z.eqb_spec size 0) as [|Hz]; [done|]. assert (0 < size < 65536) as Hs by (unfold size in *; lia).
  destruct p as [q|]; cbn [res_bind].
  - destruct (Z.eqb_spec q size) as [->|]; cbn [negb res_bind]; [|done].
    destruct (Z.eqb_spec (Z.land (at_ 2 d) USB_DIRECTION_IN) 0) as [Hd|Hd]; cbn [negb];
      (split_and!; [done| |]); destruct i as [[]|], o as [[]|]; naive_solver.
  - destruct (Z.eqb_spec (Z.land (at_ 2 d) USB_DIRECTION_IN) 0) as [Hd|Hd]; cbn [negb];
      (split_and!; [naive_solver| |]); destruct i as [[]|], o as [[]|]; naive_solver.
Qed.

Lemma complete_ok c :
  candidate_ok c -> match complete_endpoint_info c with Ok (Some i) => info_ok i | Ok None => False | Err _ => True | Panic => False end.
Proof.
  destruct c as [[[n [[a s]|]] [[b t]|]] [p|]]; cbn [complete_endpoint_info]; intros (Hp & Hi & Ho); try done.
  - destruct (Hi a s eq_refl), (Ho b t eq_refl). split_and!; cbn; try done; naive_solver.
  - by destruct (Hi a s eq_refl).
Qed.

Definition option_ok (c : option candidate) : Prop := match c with Some c => candidate_ok c | None => True end.

Lemma visit_ok offset d c :
  option_ok c -> match visit offset d c with inl r => result_ok r | inr c' => option_ok c' end.
Proof.
  intros Hc. unfold visit. destruct (_ =? _).
  - destruct (_ <? _); [done|]. unfold new_interface.
    assert (option_ok (if (at_ 3 d =? 0) && is_adb_interface (at_ 5 d) (at_ 6 d) (at_ 7 d)
                       then Some (at_ 2 d, None, None, None) else None)) as Hs by (by destruct (_ && _)).
    destruct c as [[[[n [i|]] [o|]] [p|]]|]; try exact Hs.
    pose proof (complete_ok _ Hc) as Hk. destruct (complete_endpoint_info _) as [[info|]|e|]; done.
  - destruct (_ =? _); [|done]. destruct (_ <? _); [done|]. destruct c as [c|]; [|done].
    pose proof (add_endpoint_ok d c Hc) as Ha. by destruct (add_endpoint d c).
Qed.

Lemma finish_ok c : option_ok c -> result_ok (finish c).
Proof.
  destruct c as [c|]; [|done]. intros Hc. pose proof (complete_ok c Hc) as Hk. unfold finish.
  by destruct (complete_endpoint_info c) as [[info|]|e|].
Qed.

Lemma parse_go_ok fuel : forall ds offset c, 0 <= offset -> option_ok c -> result_ok (parse_go fuel ds offset c).
Proof.
  induction fuel as [|fuel IH]; intros ds offset c Ho Hc; cbn [parse_go]; [by apply finish_ok|].
  destruct (Z.ltb_spec offset (zlen ds)); [|by apply finish_ok].
  destruct (Z.ltb_spec (zlen ds - offset) 2); [done|].
  unfold get_index. rewrite (proj2 (Z.leb_le 0 offset)) by done.
  destruct (lookup_lt_is_Some_2 ds (Z.to_nat offset)) as [b ->]; [unfold zlen in *; lia|]. cbn [res_bind].
  destruct (Z.ltb_spec (b2z b) 2); [done|]. cbn [orb]. destruct (Z.ltb_spec (zlen ds) (offset + b2z b)); [done|].
  rewrite get_slice_ok by lia. cbn [res_bind].
  pose proof (visit_ok offset (slice offset (offset + b2z b) ds) c Hc) as Hv.
  destruct (visit _ _ _) as [r|c']; [done|]. apply IH; [lia|done].
Qed.

(** The descriptor parser returns on every byte string, never with a panic (no index, slice or
    [unwrap] of it can fail): an error, or an interface whose IN endpoint has the direction bit, whose
    OUT endpoint has not, and whose packet size is positive and fits 16 bits, so that the adapter's
    division by it is defined. *)
Theorem usb_parse_total ds : result_ok (parse_adb_interface_descriptors ds).
Proof. apply parse_go_ok; [lia|exact I]. Qed.

(** ** What the parser finds *)
Section Search.

(** A descriptor of a sequence: its first byte is its length, and an interface or endpoint descriptor
    has all of its fields. *)
Definition wf_descriptor (d : bytes) : bool :=
  (at_ 0 d =? zlen d) && (2 <=? zlen d)
  && (negb (at_ 1 d =? INTERFACE_DESCRIPTOR) || (9 <=? zlen d))
  && (negb (at_ 1 d =? ENDPOINT_DESCRIPTOR) || (7 <=? zlen d)).

Definition is_interface (d : bytes) : bool := at_ 1 d =? INTERFACE_DESCRIPTOR.
Definition is_bulk (d : bytes) : bool := (at_ 1 d =? ENDPOINT_DESCRIPTOR) && (Z.land (at_ 3 d) 3 =? BULK_TRANSFER_TYPE).
Definition dir_in (d : bytes) : bool := negb (Z.land (at_ 2 d) USB_DIRECTION_IN =? 0).
Definition packet_size_of (d : bytes) : Z := at_ 4 d + 256 * at_ 5 d.

(** The interfaces of a configuration, each with the bulk endpoints that follow it. *)
Fixpoint groups (ds : list bytes) : list bytes * list (bytes * list bytes) :=
  match ds with
  | [] => ([], [])
  | d :: ds =>
      let '(es, gs) := groups ds in
      if is_interface d then ([], (d, es) :: gs) else (if is_bulk d then d :: es else es, gs)
  end.

(** The first endpoint with no packet size, or another than the first endpoint has. *)
Definition odd_endpoint (es : list bytes) : option bytes :=
  match es with
  | [] => None
  | e0 :: _ => List.find (fun e => (packet_size_of e =? 0) || negb (packet_size_of e =? packet_size_of e0)) es
  end.

Definition is_default_adb (d : bytes) : bool :=
  (at_ 3 d =? 0) && is_adb_interface (at_ 5 d) (at_ 6 d) (at_ 7 d).

(** The first ADB interface with both bulk endpoints; only the last interface is reported incomplete. *)
Fixpoint search (gs : list (bytes * list bytes)) : res UsbTransportError UsbEndpointInfo :=
  match gs with
  | [] => Err NoAdbInterface
  | (d, es) :: gs =>
      if is_default_adb d then
        match odd_endpoint es with
        | Some e => Err (if packet_size_of e =? 0 then ZeroPacketSize (at_ 2 d) else InconsistentPacketSize (at_ 2 d))
        | None =>
            match List.find dir_in es, List.find (fun e => negb (dir_in e)) es, gs with
            | Some i, Some o, _ => Ok (mk_info (at_ 2 d) (at_ 2 i) (at_ 2 o) (packet_size_of o))
            | None, _, [] => Err (MissingBulkEndpoint (at_ 2 d) (B "IN"))
            | _, None, [] => Err (MissingBulkEndpoint (at_ 2 d) (B "OUT"))
            | _, _, _ => search gs
            end
        end
      else search gs
  end.

(** The loop over descriptors already cut out. *)
Fixpoint run (ds : list bytes) (c : option candidate) : res UsbTransportError UsbEndpointInfo :=
  match ds with
  | [] => finish c
  | d :: ds => match visit 0 d c with inl r => r | inr c => run ds c end
  end.

Lemma visit_offset o d c : wf_descriptor d = true -> visit o d c = visit 0 d c.
Proof.
  unfold wf_descriptor, visit. intros Hw. destruct (at_ 1 d =? INTERFACE_DESCRIPTOR) eqn:E4.
  - destruct (Z.ltb_spec (zlen d) 9); [|done]. exfalso. cbn [negb orb] in Hw.
    rewrite (proj2 (Z.leb_gt 9 (zlen d))) in Hw by lia. by rewrite andb_false_r in Hw.
  - destruct (at_ 1 d =? ENDPOINT_DESCRIPTOR) eqn:E5; [|done].
    destruct (Z.ltb_spec (zlen d) 7); [|done]. exfalso. cbn [negb orb] in Hw.
    rewrite (proj2 (Z.leb_gt 7 (zlen d))) in Hw by lia. by rewrite andb_false_r in Hw.
Qed.

Lemma wf_len d : wf_descriptor d = true -> exists b t, d = b :: t /\ b2z b = zlen d /\ 2 <= zlen d.
Proof.
  unfold wf_descriptor. rewrite !andb_true_iff. intros [[[H1 H2] _] _].
  apply Z.eqb_eq in H1. apply Z.leb_le in H2. destruct d as [|b t]; [done|]. by exists b, t.
Qed.

Lemma parse_go_run ds : forall pre c fuel,
  forallb wf_descriptor ds = true -> zlen (concat ds) <= Z.of_nat fuel ->
  parse_go fuel (pre ++ concat ds) (zlen pre) c = run ds c.
Proof.
  induction ds as [|d ds IH]; intros pre c fuel Hw Hf; cbn [concat run forallb] in *.
  - rewrite app_nil_r. destruct fuel; cbn [parse_go]; [done|].
    by rewrite (proj2 (Z.ltb_ge (zlen pre) (zlen pre))) by lia.
  - apply andb_true_iff in Hw as [Hd Hw]. destruct (wf_len d Hd) as (b & t & E & Hb & H2).
    change (zlen (d ++ concat ds) <= Z.of_nat fuel) in Hf.
    change (parse_go fuel (pre ++ d ++ concat ds) (zlen pre) c = match visit 0 d c with inl r => r | inr c => run ds c end).
    rewrite zlen_app in Hf. pose proof (zlen_nonneg (concat ds)). pose proof (zlen_nonneg pre).
    destruct fuel as [|fuel]; [lia|]. cbn [parse_go]. rewrite !zlen_app.
    rewrite (proj2 (Z.ltb_lt (zlen pre) _)) by lia. rewrite (proj2 (Z.ltb_ge _ 2)) by lia.
    assert (get_index (E := UsbTransportError) (pre ++ d ++ concat ds) (zlen pre) = Ok b) as ->.
    { unfold get_index, zlen. rewrite (proj2 (Z.leb_le _ _)) by lia. rewrite Nat2Z.id.
      rewrite lookup_app_r by lia. by rewrite Nat.sub_diag, E. }
    cbn [res_bind]. rewrite Hb. rewrite (proj2 (Z.ltb_ge (zlen d) 2)) by lia.
    rewrite (proj2 (Z.ltb_ge _ (zlen pre + zlen d))) by lia. cbn [orb].
    rewrite get_slice_ok by (rewrite ?zlen_app; lia). cbn [res_bind].
    assert (slice (zlen pre) (zlen pre + zlen d) (pre ++ d ++ concat ds) = d) as ->.
    { by apply slice_app_here. }
    rewrite (visit_offset (zlen pre)) by done. destruct (visit 0 d c) as [r|c']; [done|].
    rewrite <- zlen_app, app_assoc. apply IH; [done|lia].
Qed.

(** One interface: the candidate after the endpoints [es], in terms of the endpoints seen. *)
Definition cand_of (n : Z) (es : list bytes) : candidate :=
  (n, (fun e => (at_ 2 e, packet_size_of e)) <$> List.find dir_in es,
   (fun e => (at_ 2 e, packet_size_of e)) <$> List.find (fun e => negb (dir_in e)) es,
   packet_size_of <$> head es).

Fixpoint add_all (es : list bytes) (c : candidate) : res UsbTransportError candidate :=
  match es with [] => Ok c | e :: es => let! c := add_endpoint e c in add_all es c end.

(** What makes [e] odd after the endpoints [pre]. *)
Definition odd_after (pre : list bytes) (e : bytes) : bool :=
  (packet_size_of e =? 0) || match pre with [] => false | e0 :: _ => negb (packet_size_of e =? packet_size_of e0) end.

Lemma add_endpoint_cand n pre e :
  is_bulk e = true ->
  add_endpoint e (cand_of n pre)
  = if odd_after pre e then Err (if packet_size_of e =? 0 then ZeroPacketSize n else InconsistentPacketSize n)
    else Ok (cand_of n (pre ++ [e])).
Proof.
  unfold is_bulk. intros [_ Hb]%andb_true_iff. unfold add_endpoint, cand_of, odd_after. rewrite Hb. cbn [negb].
  rewrite !find_snoc. fold (packet_size_of e). fold (dir_in e).
  destruct (packet_size_of e =? 0); cbn [orb]; [done|].
  destruct pre as [|e0 pre]; cbn [head fmap option_fmap option_map res_bind app].
  - by destruct (dir_in e).
  - rewrite (Z.eqb_sym (packet_size_of e0)). destruct (packet_size_of e =? packet_size_of e0); cbn [negb res_bind]; [|done].
    destruct (dir_in e); cbn [negb]; repeat f_equal;
      destruct (List.find dir_in (e0 :: pre)), (List.find (fun e => negb (dir_in e)) (e0 :: pre)); done.
Qed.

Lemma add_all_cand n es : forall pre,
  forallb is_bulk es = true ->
  add_all es (cand_of n pre)
  = match List.find (fun e => odd_after (pre ++ es) e) es with
    | Some e => Err (if packet_size_of e =? 0 then ZeroPacketSize n else InconsistentPacketSize n)
    | None => Ok (cand_of n (pre ++ es))
    end.
Proof.
  induction es as [|e es IH]; intros pre Hb; cbn [add_all List.find forallb] in *; [by rewrite app_nil_r|].
  apply andb_true_iff in Hb as [He Hb]. rewrite add_endpoint_cand by done.
  assert (odd_after (pre ++ e :: es) e = odd_after pre e) as ->.
  { unfold odd_after. destruct pre; cbn [app]; [|done]. by rewrite Z.eqb_refl. }
  destruct (odd_after pre e); cbn [res_bind]; [done|]. rewrite IH by done. by rewrite <- app_assoc.
Qed.

Lemma odd_endpoint_after es : odd_endpoint es = List.find (fun e => odd_after es e) es.
Proof. by destruct es. Qed.

Lemma groups_bulk ds :
  forallb is_bulk (fst (groups ds)) = true /\ Forall (fun g => forallb is_bulk (snd g) = true) (snd (groups ds)).
Proof.
  induction ds as [|d ds [IH1 IH2]]; cbn [groups]; [done|]. destruct (groups ds) as [es gs]; cbn [fst snd] in *.
  destruct (is_interface d); cbn [fst snd]; [by split; [|constructor]|].
  split; [|done]. destruct (is_bulk d) eqn:E; cbn [forallb]; [by rewrite E|done].
Qed.

(** The candidate after its endpoints: the result, or the search among the interfaces that follow. *)
Definition settle (c : candidate) (gs : list (bytes * list bytes)) : res UsbTransportError UsbEndpointInfo :=
  match c, gs with
  | (n, Some (a, _), Some (b, s), Some _), _ => Ok (mk_info n a b s)
  | _, [] => finish (Some c)
  | _, _ => search gs
  end.

Lemma search_adb d es gs :
  is_default_adb d = true -> forallb is_bulk es = true ->
  (let! c := add_all es (cand_of (at_ 2 d) []) in settle c gs) = search ((d, es) :: gs).
Proof.
  intros Hd Hb. cbn [search]. rewrite Hd, odd_endpoint_after, add_all_cand by done. cbn [app].
  destruct (List.find (fun e => odd_after es e) es) as [e|]; cbn [res_bind]; [done|].
  destruct es as [|e0 es]; [by destruct gs|].
  unfold cand_of. cbn [head fmap option_fmap option_map].
  destruct (List.find dir_in (e0 :: es)), (List.find (fun e => negb (dir_in e)) (e0 :: es)), gs; done.
Qed.

Lemma search_other d es gs : is_default_adb d = false -> search ((d, es) :: gs) = search gs.
Proof. intros E. cbn [search]. by rewrite E. Qed.

Lemma new_interface_eq d c :
  new_interface d c
  = match c with
    | Some (n, Some (a, _), Some (b, s), Some _) => inl (Ok (mk_info n a b s))
    | _ => inr (if is_default_adb d then Some (cand_of (at_ 2 d) []) else None)
    end.
Proof. unfold new_interface. fold (is_default_adb d). by destruct c as [[[[n [[]|]] [[]|]] [|]]|]. Qed.

Lemma visit_interface d c : wf_descriptor d = true -> is_interface d = true -> visit 0 d c = new_interface d c.
Proof.
  unfold wf_descriptor, is_interface, visit. intros Hw E. rewrite E in *. cbn [negb orb] in Hw.
  destruct (Z.ltb_spec (zlen d) 9); [|done]. rewrite (proj2 (Z.leb_gt 9 (zlen d))) in Hw by lia.
  by rewrite andb_false_r in Hw.
Qed.

Lemma visit_inside d c :
  wf_descriptor d = true -> is_interface d = false ->
  visit 0 d c = match c with
                | Some c => if is_bulk d
                            then match add_endpoint d c with Ok c => inr (Some c) | Err e => inl (Err e) | Panic => inl Panic end
                            else inr (Some c)
                | None => inr None
                end.
Proof.
  unfold wf_descriptor, is_interface, is_bulk, visit. intros Hw E. rewrite E in *. cbn [negb orb] in Hw.
  destruct (at_ 1 d =? ENDPOINT_DESCRIPTOR); cbn [andb]; [|by destruct c].
  destruct (Z.ltb_spec (zlen d) 7).
  - cbn [negb orb] in Hw. rewrite (proj2 (Z.leb_gt 7 (zlen d))) in Hw by lia. by rewrite andb_false_r in Hw.
  - destruct c as [c|]; [|done]. destruct (Z.land (at_ 3 d) 3 =? BULK_TRANSFER_TYPE) eqn:Eb; [done|].
    destruct c as [[[n i] o] p]. unfold add_endpoint. by rewrite Eb.
Qed.

Lemma run_groups ds :
  forallb wf_descriptor ds = true ->
  run ds None = search (snd (groups ds)) /\
  forall c, run ds (Some c) = let! c' := add_all (fst (groups ds)) c in settle c' (snd (groups ds)).
Proof.
  induction ds as [|d ds IH]; cbn [forallb run groups]; [|intros [Hd [IH1 IH2]%IH]%andb_true_iff].
  { intros _. split; [done|]. intros [[[n [[]|]] [[]|]] [|]]; done. }
  pose proof (groups_bulk ds) as [Hb _]. destruct (groups ds) as [es gs]; cbn [fst snd] in *.
  destruct (is_interface d) eqn:Ei; cbn [fst snd].
  - assert (run ds (if is_default_adb d then Some (cand_of (at_ 2 d) []) else None) = search ((d, es) :: gs)) as Hs.
    { destruct (is_default_adb d) eqn:Ed; [by rewrite IH2, search_adb|by rewrite search_other]. }
    split.
    + by rewrite visit_interface, new_interface_eq by done.
    + intros [[[n [[]|]] [[]|]] [|]]; rewrite visit_interface, new_interface_eq by done; cbn [add_all res_bind]; done.
  - split; [by rewrite visit_inside by done|]. intros c. rewrite visit_inside by done.
    destruct (is_bulk d); [|done]. cbn [add_all]. by destruct (add_endpoint d c) as [c'|e|]; cbn [res_bind].
Qed.

(** On the concatenation of well-formed descriptors, the single-pass scan finds what the search over
    interfaces with their endpoints finds: the first default-setting ADB interface that has bulk endpoints
    in both directions; an ADB interface with a zero or inconsistent packet size is an error as soon as it
    is reached, and a missing endpoint is reported of the last interface only. *)
Theorem usb_parse_search ds :
  forallb wf_descriptor ds = true ->
  parse_adb_interface_descriptors (concat ds) = search (snd (groups ds)).
Proof.
  intros Hw. rewrite <- (proj1 (run_groups ds Hw)). apply (parse_go_run ds [] None); [done|]. unfold zlen. lia.
Qed.

(** A configuration with an incomplete ADB interface, another class, and a complete ADB interface. *)
Definition sample_configuration : list bytes :=
  map z2b <$> [[9; 2; 71; 0; 3; 1; 0; 128; 250];
          [9; 4; 0; 0; 1; 255; 66; 1; 0]; [7; 5; 0x81; 2; 0; 2; 0];
          [9; 4; 1; 0; 0; 8; 6; 80; 0];
          [9; 4; 2; 0; 2; 255; 66; 1; 0]; [7; 5; 0x82; 2; 0; 2; 0]; [7; 5; 3; 3; 8; 0; 4]; [7; 5; 2; 2; 0; 2; 0]].

Lemma usb_parse_search_witness :
  parse_adb_interface_descriptors (concat sample_configuration) = search (snd (groups sample_configuration)) /\
  search (snd (groups sample_configuration)) = Ok (mk_info 2 0x82 2 512).
Proof. split; [apply usb_parse_search; vm_compute; reflexivity|vm_compute; reflexivity]. Defined.
End Search.

(** ** Messages over bulk transfers

    A device without faults: the transfers it has for the host, and those it got. A read takes a whole
    transfer, and the host controller reports an overrun where it asked for less. *)
Record Device := mk_device { dev_info : UsbEndpointInfo; to_host : list bytes; from_host : list bytes }.

#[export] Instance DeviceBackend : UsbBackend Device := {|
  endpoint_info := dev_info;
  bulk_read _ len w :=
    match to_host w with
    | [] => (w, Err Timeout)
    | t :: ts => (mk_device (dev_info w) ts (from_host w), if zlen t <=? len then Ok t else Err (UsbIo (B "Overflow")))
    end;
  bulk_write _ buffer w := (mk_device (dev_info w) (to_host w) (from_host w ++ [buffer]), Ok (zlen buffer)) |}.

Section Messages.

Definition put (t : bytes) (a : UsbTransportAdapter Device) : UsbTransportAdapter Device :=
  mk_adapter (mk_device (dev_info (backend a)) (to_host (backend a)) (from_host (backend a) ++ [t])) (endpoints a)
    (Z.min usize_max (pending_out_bytes a + zlen t)).

Lemma usb_write_all_device fuel bs a :
  (length bs <= fuel)%nat ->
  usb_write_all fuel bs a = (match bs with [] => a | _ => put bs a end, Ok tt).
Proof.
  intros Hf. destruct bs as [|b bs]; [by destruct fuel|]. destruct fuel as [|fuel]; [cbn in Hf; lia|].
  cbn [usb_write_all usb_write bulk_write DeviceBackend]. rewrite Z.ltb_irrefl.
  rewrite (proj2 (Z.eqb_neq _ 0)) by (rewrite zlen_cons; pose proof (zlen_nonneg bs); lia).
  assert (drop (Z.to_nat (zlen (b :: bs))) (b :: bs) = []) as -> by (unfold zlen; by rewrite Nat2Z.id, drop_all).
  by destruct fuel.
Qed.

(** The transfers of one message: the header, the payload if any, and a zero-length packet if the
    payload fills its last packet. *)
Definition transfers (ps : Z) (m : AdbMessageHeader * bytes) : list bytes :=
  header_bytes (fst m) :: match snd m with [] => [] | p => [p] end
  ++ (if should_send_zlp (zlen (snd m)) ps then [[]] else []).

Lemma usb_send_device h p a :
  usb_send_message h p a
  = (mk_adapter (mk_device (dev_info (backend a)) (to_host (backend a))
                  (from_host (backend a) ++ transfers (out_max_packet_size (endpoints a)) (h, p))) (endpoints a) 0, Ok tt).
Proof.
  unfold usb_send_message, transfers. cbn [fst snd].
  rewrite usb_write_all_device by (pose proof (zlen_header_bytes h); unfold zlen in *; lia).
  rewrite usb_write_all_device by done.
  destruct (header_bytes h) as [|b hs] eqn:E.
  { pose proof (zlen_header_bytes h) as Hl. by rewrite E in Hl. }
  destruct p as [|c p].
  - change (zlen []) with 0. unfold flush_payload, flush_len, should_send_zlp. by rewrite Z.eqb_refl.
  - unfold flush_payload, flush_len.
    change (out_max_packet_size (endpoints (put (c :: p) (put (b :: hs) a)))) with (out_max_packet_size (endpoints a)).
    destruct (should_send_zlp _ _); cbn [bulk_write DeviceBackend put backend endpoints from_host to_host dev_info app map_err];
      by rewrite <- !app_assoc.
Qed.

Lemma usb_read_exact_device fuel t ts a :
  0 < out_max_packet_size (endpoints a) < 65536 -> 0 < zlen t < 2 ^ 32 -> (1 <= fuel)%nat ->
  to_host (backend a) = t :: ts ->
  usb_read_exact fuel (zlen t) [] a
  = (mk_adapter (mk_device (dev_info (backend a)) ts (from_host (backend a))) (endpoints a) (pending_out_bytes a), Ok t).
Proof.
  intros Hp Ht Hf Hq. destruct fuel as [|fuel]; [lia|].
  set (ps := out_max_packet_size (endpoints a)) in *.
  assert (usb_read (zlen t) a
    = (mk_adapter (mk_device (dev_info (backend a)) ts (from_host (backend a))) (endpoints a) (pending_out_bytes a), Ok t)) as Hr.
  { unfold usb_read. rewrite (proj2 (Z.eqb_neq (zlen t) 0)) by lia. fold ps.
    assert (wrap 64 (ps - 1) = ps - 1) as -> by (unfold wrap; apply Z.mod_small; lia).
    rewrite (proj2 (Z.ltb_ge usize_max _)) by (unfold usize_max; lia).
    cbn [bulk_read DeviceBackend]. rewrite Hq.
    assert (zlen t <= (zlen t + (ps - 1)) / ps * ps) as Hle.
    { pose proof (Z.div_mod (zlen t + (ps - 1)) ps ltac:(lia)). pose proof (Z.mod_pos_bound (zlen t + (ps - 1)) ps ltac:(lia)). lia. }
    rewrite (proj2 (Z.leb_le _ _)) by exact Hle. cbn [map_err res_bind]. rewrite Z.ltb_irrefl.
    by rewrite slice_full. }
  cbn [usb_read_exact]. rewrite (proj2 (Z.leb_gt (zlen t) 0)) by lia. rewrite Hr.
  rewrite (proj2 (Z.eqb_neq (zlen t) 0)) by lia. rewrite Z.sub_diag. by destruct fuel.
Qed.

Definition nonzero (ts : list bytes) : list bytes := List.filter (fun t => 0 <? zlen t) ts.

Lemma nonzero_transfers ps m :
  nonzero (transfers ps m) = header_bytes (fst m) :: match snd m with [] => [] | p => [p] end.
Proof.
  unfold nonzero, transfers. destruct m as [h p]. cbn [fst snd List.filter].
  rewrite zlen_header_bytes. cbn [Z.ltb Z.compare]. f_equal. rewrite List.filter_app.
  assert (List.filter (fun t => 0 <? zlen t) (if should_send_zlp (zlen p) ps then [[]] else []) = []) as ->
    by (by destruct (should_send_zlp _ _)).
  destruct p as [|c p]; [done|]. rewrite app_nil_r. cbn [List.filter].
  by rewrite (proj2 (Z.ltb_lt 0 _)) by (rewrite zlen_cons; pose proof (zlen_nonneg p); lia).
Qed.

Lemma usb_recv_device m ts a :
  message_ok m -> 0 < out_max_packet_size (endpoints a) < 65536 ->
  to_host (backend a) = nonzero (transfers (out_max_packet_size (endpoints a)) m) ++ ts ->
  usb_recv_message a
  = (mk_adapter (mk_device (dev_info (backend a)) ts (from_host (backend a))) (endpoints a) (pending_out_bytes a), Ok m).
Proof.
  intros (Hwf & Hl & Hmax & Hv) Hp Hq. rewrite nonzero_transfers in Hq. destruct m as [h p]; cbn [fst snd] in *.
  unfold usb_recv_message. pose proof (zlen_header_bytes h) as H24.
  pose proof (usb_read_exact_device 24 (header_bytes h) _ a Hp ltac:(lia) ltac:(lia) Hq) as Hh.
  rewrite H24 in Hh. rewrite Hh, decode_header_bytes, Hl by done.
  rewrite (proj2 (Z.ltb_ge _ _)) by done. destruct p as [|c p]; [done|].
  assert (0 < zlen (c :: p)) as Hpos by (rewrite zlen_cons; pose proof (zlen_nonneg p); lia).
  rewrite (proj2 (Z.ltb_lt 0 _)) by done.
  rewrite (usb_read_exact_device _ (c :: p) ts); cbn [backend endpoints to_host]; try done.
  - by rewrite Hv.
  - split; [done|]. unfold MAX_PAYLOAD_V2 in Hmax. lia.
  - lia.
Qed.

Fixpoint usb_send_all (ms : list (AdbMessageHeader * bytes)) (a : UsbTransportAdapter Device) : UsbTransportAdapter Device :=
  match ms with [] => a | m :: ms => usb_send_all ms (fst (usb_send_message (fst m) (snd m) a)) end.

Fixpoint usb_recv_n (n : nat) (a : UsbTransportAdapter Device) : list (res TransportError (AdbMessageHeader * bytes)) :=
  match n with O => [] | S n => let '(a, r) := usb_recv_message a in r :: usb_recv_n n a end.

Lemma usb_send_all_device ms : forall a,
  from_host (backend (usb_send_all ms a))
  = from_host (backend a) ++ concat (transfers (out_max_packet_size (endpoints a)) <$> ms).
Proof.
  induction ms as [|[h p] ms IH]; intros a; cbn [usb_send_all fmap list_fmap concat]; [by rewrite app_nil_r|].
  cbn [fst snd]. rewrite usb_send_device. cbn [fst]. rewrite IH. cbn [backend endpoints from_host]. by rewrite <- app_assoc.
Qed.

Lemma usb_recv_all_device ms : forall a,
  Forall message_ok ms -> 0 < out_max_packet_size (endpoints a) < 65536 ->
  to_host (backend a) = nonzero (concat (transfers (out_max_packet_size (endpoints a)) <$> ms)) ->
  usb_recv_n (length ms) a = map Ok ms.
Proof.
  induction ms as [|m ms IH]; intros a Hm Hp Hq; cbn [length usb_recv_n map]; [done|].
  apply list.Forall_cons in Hm as [Hm Hms]. cbn [fmap list_fmap concat] in Hq.
  unfold nonzero in Hq. rewrite List.filter_app in Hq. rewrite (usb_recv_device m _ a Hm Hp Hq). f_equal. by apply IH.
Qed.

(** Messages written by the adapter for an interface the descriptor parser found are read back
    unchanged and in order by an adapter whose device sends these transfers without the zero-length
    packets; header and payload are transfers of their own, and a zero-length packet follows exactly the
    payloads that fill their last packet. *)
Theorem usb_messages_roundtrip ds info ms :
  parse_adb_interface_descriptors ds = Ok info -> Forall message_ok ms ->
  let sent := from_host (backend (usb_send_all ms (adapter_new (mk_device info [] [])))) in
  sent = concat (transfers (out_max_packet_size info) <$> ms) /\
  usb_recv_n (length ms) (adapter_new (mk_device info (nonzero sent) [])) = map Ok ms.
Proof.
  intros Hd Hm sent. unfold sent. rewrite usb_send_all_device. cbn [adapter_new backend endpoints from_host endpoint_info DeviceBackend dev_info app].
  split; [done|]. pose proof (parse_go_ok (length ds) ds 0 None ltac:(lia) I) as Hok.
  change (result_ok (parse_adb_interface_descriptors ds)) in Hok. rewrite Hd in Hok. destruct Hok as [Hp _].
  by apply usb_recv_all_device.
Qed.

Lemma usb_messages_roundtrip_witness :
  let ms := [(Header.new A_OPEN 1 0 (B "shell:ls"), B "shell:ls"); (Header.new A_WRTE 1 2 (zrep 512 x00), zrep 512 x00)] in
  let sent := from_host (backend (usb_send_all ms (adapter_new (mk_device (mk_info 2 0x82 2 512) [] [])))) in
  zlen <$> sent = [24; 8; 24; 512; 0] /\
  usb_recv_n 2 (adapter_new (mk_device (mk_info 2 0x82 2 512) (nonzero sent) [])) = map Ok ms.
Proof.
  intros ms sent. split; [vm_compute; reflexivity|].
  apply (usb_messages_roundtrip (concat sample_configuration) (mk_info 2 0x82 2 512) ms); [vm_compute; reflexivity|].
  repeat constructor; vm_compute; done.
Defined.
End Messages.
