(* ===== verification/Registry.v ===== *)
(** * The device registry of the server

    [server/models.rs], the rules of [server/forward.rs] and the lifecycle operations of
    [server/transport.rs]: devices with their transport ids, forward and reverse rules with the
    flags shared with their listeners, the manager that reports events, and the queue of
    transports to reconnect.

    The registry keeps transport ids and rules unique over every operation, in any order in which the threads
    take its lock, and serials but for renames and the refresh of the manager ([registry_invariant],
    [manager_refresh_duplicates]). *)
From S2P Require Import Prelude Text.

(** ** Data *)
Definition SERVER_VERSION : Z := 0x01000001.

Inductive DeviceState :=
| Offline | Device | Recovery | Sideload | Bootloader | Authorizing | Connecting | NoPerm | Unknown.

#[export] Instance device_state_eq : EqDecision DeviceState.
Proof. solve_decision. Defined.

Definition state_str (s : DeviceState) : bytes :=
  match s with
  | Offline => B "offline" | Device => B "device" | Recovery => B "recovery"
  | Sideload => B "sideload" | Bootloader => B "bootloader" | Authorizing => B "authorizing"
  | Connecting => B "connecting" | NoPerm => B "no permissions" | Unknown => B "unknown"
  end.

Definition is_usable_state (s : DeviceState) : bool :=
  match s with Device | Recovery | Sideload | Bootloader => true | _ => false end.

(** [SocketAddr]: the text of the address, whether it is IPv6, and the port. *)
Record SocketAddr := mk_addr { ip : bytes; is_v6 : bool; port : Z }.

#[export] Instance socket_addr_eq : EqDecision SocketAddr.
Proof. solve_decision. Defined.

Definition addr_string (a : SocketAddr) : bytes :=
  (if is_v6 a then B "[" ++ ip a ++ B "]" else ip a) ++ B ":" ++ fmt_dec (port a).

Inductive DeviceOrigin := Usb | Tcp (addr : SocketAddr).

#[export] Instance device_origin_eq : EqDecision DeviceOrigin.
Proof. solve_decision. Defined.

Definition is_usb (o : DeviceOrigin) : bool := match o with Usb => true | Tcp _ => false end.

Record DeviceEntry := mk_device {
  serial : bytes;
  transport_id : Z;
  state : DeviceState;
  origin : DeviceOrigin;
  product : option bytes;
  model : option bytes;
  device_name : option bytes;
  transport_features : option bytes }.

(** [active_flag] is shared with the thread of the listener: here an index of [flags]. *)
Record ForwardRule := mk_forward { f_serial : bytes; f_local : bytes; f_remote : bytes; active_flag : nat }.
Record ReverseRule := mk_reverse { r_serial : bytes; r_remote : bytes; r_local : bytes }.

(** The counter of transport ids has 64 bits and grows by one per device; it is not reduced. *)
Record TransportRegistry := mk_registry {
  devices : list DeviceEntry;
  forwards : list ForwardRule;
  reverses : list ReverseRule;
  next_id : Z;
  flags : list bool }.

Definition set_devices (ds : list DeviceEntry) (r : TransportRegistry) :=
  mk_registry ds (forwards r) (reverses r) (next_id r) (flags r).
Definition set_forwards (fs : list ForwardRule) (fl : list bool) (r : TransportRegistry) :=
  mk_registry (devices r) fs (reverses r) (next_id r) fl.
Definition set_reverses (rs : list ReverseRule) (r : TransportRegistry) :=
  mk_registry (devices r) (forwards r) rs (next_id r) (flags r).

(** A device that was just found or connected, pushed with the next id. *)
Definition push_device (s : bytes) (o : DeviceOrigin) (r : TransportRegistry) : TransportRegistry :=
  mk_registry (devices r ++ [mk_device s (next_id r) Device o None None None None])
    (forwards r) (reverses r) (next_id r + 1) (flags r).

Definition set_state (st : DeviceState) (d : DeviceEntry) : DeviceEntry :=
  mk_device (serial d) (transport_id d) st (origin d) (product d) (model d) (device_name d) (transport_features d).
Definition set_origin (o : DeviceOrigin) (d : DeviceEntry) : DeviceEntry :=
  mk_device (serial d) (transport_id d) (state d) o (product d) (model d) (device_name d) (transport_features d).
Definition set_serial (s : bytes) (d : DeviceEntry) : DeviceEntry :=
  mk_device s (transport_id d) (state d) (origin d) (product d) (model d) (device_name d) (transport_features d).

(** ** Lookups ([models.rs]) *)
Definition has_serial (s : bytes) (d : DeviceEntry) : bool := bool_decide (serial d = s).

Definition find_by_transport_id (r : TransportRegistry) (id : Z) : option DeviceEntry :=
  find (fun d => transport_id d =? id) (devices r).
Definition find_by_serial (r : TransportRegistry) (s : bytes) : option DeviceEntry :=
  find (has_serial s) (devices r).
Definition find_any_device (r : TransportRegistry) : option DeviceEntry :=
  find (fun d => is_usable_state (state d)) (devices r).

Definition find_unique_device (r : TransportRegistry) : res bytes DeviceEntry :=
  match List.filter (fun d => is_usable_state (state d)) (devices r) with
  | [] => Err (B "no devices/emulators found")
  | [d] => Ok d
  | _ :: _ :: _ => Err (B "more than one device/emulator")
  end.

Definition or_unknown (o : option bytes) : bytes := default (B "unknown") o.

Definition device_line (verbose : bool) (d : DeviceEntry) : bytes :=
  if verbose
  then serial d ++ B "	" ++ state_str (state d) ++ B " product:" ++ or_unknown (product d)
       ++ B " model:" ++ or_unknown (model d) ++ B " device:" ++ or_unknown (device_name d) ++ [x0a]
  else serial d ++ B "	" ++ state_str (state d) ++ [x0a].

Definition list_devices (r : TransportRegistry) (verbose : bool) : bytes :=
  concat (map (device_line verbose) (devices r)).

(** ** Changes of the device list *)

(** [iter_mut().find(..)] followed by an update of what was found. *)
Fixpoint update_first (p : DeviceEntry -> bool) (f : DeviceEntry -> DeviceEntry) (l : list DeviceEntry) :=
  match l with
  | [] => []
  | d :: l => if p d then f d :: l else d :: update_first p f l
  end.

Record UsbCandidate := mk_candidate { c_serial : option bytes; bus_number : Z; address : Z }.

(** [{:03}]. *)
Definition fmt_dec3 (z : Z) : bytes :=
  let s := fmt_dec z in replicate (3 - length s) "0"%byte ++ s.

Definition candidate_serial (c : UsbCandidate) : bytes :=
  match c_serial c with Some s => s | None => fmt_dec3 (bus_number c) ++ fmt_dec3 (address c) end.

Definition add_candidate (r : TransportRegistry) (c : UsbCandidate) : TransportRegistry :=
  let s := candidate_serial c in
  if existsb (has_serial s) (devices r) then r else push_device s Usb r.

(** [TransportRegistry::refresh_usb_devices], given what the enumeration of the bus returned. *)
Definition refresh_usb_devices (enumerated : option (list UsbCandidate)) (r : TransportRegistry) : TransportRegistry :=
  match enumerated with
  | None => r
  | Some candidates =>
      let r := fold_left add_candidate candidates r in
      let known := map candidate_serial candidates in
      set_devices (List.filter (fun d => negb (is_usb (origin d)) || existsb (fun s => bool_decide (serial d = s)) known)
                     (devices r)) r
  end.

Definition registry_new (enumerated : option (list UsbCandidate)) : TransportRegistry :=
  refresh_usb_devices enumerated (mk_registry [] [] [] 1 []).

Definition upsert_tcp_device (addr : SocketAddr) (s : bytes) (r : TransportRegistry) : TransportRegistry :=
  match find_by_serial r s with
  | Some _ => set_devices (update_first (has_serial s) (fun d => set_origin (Tcp addr) (set_state Device d)) (devices r)) r
  | None => push_device s (Tcp addr) r
  end.

Definition remove_device (s : bytes) (r : TransportRegistry) : TransportRegistry * bool :=
  let ds := List.filter (fun d => negb (has_serial s d)) (devices r) in
  (set_devices ds r, negb (Nat.eqb (length (devices r)) (length ds))).

Definition remove_all_tcp_devices (r : TransportRegistry) : TransportRegistry :=
  set_devices (List.filter (fun d => is_usb (origin d)) (devices r)) r.

(** The properties of a banner, as [connect_to_remote], [connect_usb_device] and
    [update_device_info] record them. *)
Definition banner_property (d : DeviceEntry) (part : bytes) : DeviceEntry :=
  match split_once "="%byte part with
  | None => d
  | Some (key, val) =>
      let key := match rsplit_once ":"%byte key with Some (_, k) => k | None => key end in
      if bool_decide (key = B "product") then
        mk_device (serial d) (transport_id d) (state d) (origin d) (Some val) (model d) (device_name d) (transport_features d)
      else if bool_decide (key = B "model") then
        mk_device (serial d) (transport_id d) (state d) (origin d) (product d) (Some val) (device_name d) (transport_features d)
      else if bool_decide (key = B "device") then
        mk_device (serial d) (transport_id d) (state d) (origin d) (product d) (model d) (Some val) (transport_features d)
      else d
  end.

Definition set_features (banner : bytes) (d : DeviceEntry) : DeviceEntry :=
  mk_device (serial d) (transport_id d) (state d) (origin d) (product d) (model d) (device_name d) (Some banner).

Definition record_banner (banner : bytes) (d : DeviceEntry) : DeviceEntry :=
  fold_left banner_property (split_on ";"%byte (trim banner)) (set_features banner d).

(** What [connect_to_remote] does with the lock held: the device is entered under its address, with its
    banner unless that is empty. *)
Definition register_remote (addr : SocketAddr) (payload : bytes) (r : TransportRegistry) : TransportRegistry :=
  let s := addr_string addr in
  let r := upsert_tcp_device addr s r in
  match payload with
  | [] => r
  | _ => set_devices (update_first (has_serial s) (record_banner (from_utf8_lossy payload)) (devices r)) r
  end.

(** The renaming of [host:connect] and [host:emulator]. *)
Definition rename_device (old new : bytes) (r : TransportRegistry) : TransportRegistry :=
  set_devices (update_first (has_serial old) (set_serial new) (devices r)) r.

(** ** The manager and its events ([transport.rs]) *)
Inductive TransportEvent :=
| Connected (s : bytes) (o : DeviceOrigin)
| Disconnected (s : bytes)
| StateChanged (s : bytes) (old new : DeviceState).

Definition register_tcp_device (addr : SocketAddr) (s : bytes) (r : TransportRegistry)
    : TransportRegistry * list TransportEvent :=
  let is_new := match find_by_serial r s with None => true | _ => false end in
  (upsert_tcp_device addr s r, if is_new then [Connected s (Tcp addr)] else []).

Definition register_usb_device (s : bytes) (r : TransportRegistry) : TransportRegistry * list TransportEvent :=
  match find_by_serial r s with
  | Some _ => (r, [])
  | None => (push_device s Usb r, [Connected s Usb])
  end.

Definition unregister_device (s : bytes) (r : TransportRegistry)
    : TransportRegistry * list TransportEvent * bool :=
  let '(r, removed) := remove_device s r in (r, if removed then [Disconnected s] else [], removed).

Definition unregister_all_tcp_devices (r : TransportRegistry) : TransportRegistry * list TransportEvent :=
  let serials := map serial (List.filter (fun d => negb (is_usb (origin d))) (devices r)) in
  (remove_all_tcp_devices r, map Disconnected serials).

Definition state_event (s : bytes) (old new : DeviceState) : list TransportEvent :=
  if bool_decide (old = new) then [] else [StateChanged s old new].

Definition update_device_info (s banner : bytes) (r : TransportRegistry)
    : TransportRegistry * list TransportEvent :=
  match find_by_serial r s with
  | None => (r, [])
  | Some dev =>
      (set_devices (update_first (has_serial s) (fun d => record_banner banner (set_state Device d)) (devices r)) r,
       state_event s (state dev) Device)
  end.

Definition set_device_state (s : bytes) (new_state : DeviceState) (r : TransportRegistry)
    : TransportRegistry * list TransportEvent :=
  match find_by_serial r s with
  | None => (r, [])
  | Some dev =>
      (set_devices (update_first (has_serial s) (set_state new_state) (devices r)) r,
       state_event s (state dev) new_state)
  end.

(** [Vec::swap_remove(i)]: the last element takes the place of the removed one. *)
Definition swap_remove {A} (i : nat) (l : list A) : list A :=
  take i l ++ match reverse (drop (S i) l) with [] => [] | x :: rest => x :: reverse rest end.

(** [while i < len { if p(l[i]) { l.swap_remove(i) } else { i += 1 } }]; each round shortens what is
    ahead of [i], so the length is enough fuel. *)
Fixpoint swap_remove_while {A} (fuel : nat) (p : A -> bool) (i : nat) (l : list A) : list A :=
  match fuel with
  | O => l
  | S fuel =>
      match l !! i with
      | None => l
      | Some x => if p x then swap_remove_while fuel p i (swap_remove i l)
                  else swap_remove_while fuel p (S i) l
      end
  end.

(** The last section of the manager's [refresh_usb_devices]: the USB devices that were not enumerated. *)
Definition retain_usb (now : list bytes) (r : TransportRegistry) : TransportRegistry :=
  set_devices (swap_remove_while (length (devices r))
    (fun d => is_usb (origin d) && negb (existsb (fun n => bool_decide (serial d = n)) now)) 0 (devices r)) r.

(** The manager's [refresh_usb_devices]. *)
Definition manager_refresh_usb (enumerated : option (list UsbCandidate)) (r : TransportRegistry)
    : TransportRegistry * list TransportEvent :=
  match enumerated with
  | None => (r, [])
  | Some candidates =>
      let before := map serial (List.filter (fun d => is_usb (origin d)) (devices r)) in
      let now := map candidate_serial candidates in
      let '(r, evs) := fold_left (fun '(r, evs) c =>
          let s := candidate_serial c in
          if existsb (fun b => bool_decide (s = b)) before then (r, evs)
          else (push_device s Usb r, evs ++ [Connected s Usb])) candidates (r, []) in
      let removed := List.filter (fun s => negb (existsb (fun n => bool_decide (s = n)) now)) (remove_dups before) in
      (retain_usb now r, evs ++ map Disconnected removed)
  end.

(** [acquire_transport], [acquire_any_transport], [acquire_transport_by_id]; [{:?}] of a state. *)
Definition state_debug (s : DeviceState) : bytes :=
  match s with
  | Offline => B "Offline" | Device => B "Device" | Recovery => B "Recovery"
  | Sideload => B "Sideload" | Bootloader => B "Bootloader" | Authorizing => B "Authorizing"
  | Connecting => B "Connecting" | NoPerm => B "NoPerm" | Unknown => B "Unknown"
  end.

Definition acquire_transport (s : bytes) (r : TransportRegistry) : res bytes (DeviceEntry * DeviceOrigin) :=
  let! dev := ok_or (find_by_serial r s) (B "device '" ++ s ++ B "' not found") in
  if is_usable_state (state dev) then Ok (dev, origin dev)
  else Err (B "device '" ++ s ++ B "' is in state " ++ state_debug (state dev) ++ B " (not usable)").

Definition acquire_any_transport (r : TransportRegistry) : res bytes (DeviceEntry * DeviceOrigin) :=
  let! dev := ok_or (find_any_device r) (B "no devices available") in Ok (dev, origin dev).

Definition acquire_transport_by_id (tid : Z) (r : TransportRegistry) : res bytes (DeviceEntry * DeviceOrigin) :=
  let! dev := ok_or (find_by_transport_id r tid) (B "transport id " ++ fmt_dec tid ++ B " not found") in
  if is_usable_state (state dev) then Ok (dev, origin dev)
  else Err (B "transport id " ++ fmt_dec tid ++ B " is in state " ++ state_debug (state dev) ++ B " (not usable)").

(** ** Forward and reverse rules ([forward.rs]) *)
Definition is_digit (b : byte) : bool := in_rng 48 57 b.
Definition all_digits (s : bytes) : bool := forallb is_digit s.

Definition default_serial : bytes := B "127.0.0.1:5555".
Definition any_serial (r : TransportRegistry) : bytes :=
  match find_any_device r with Some d => serial d | None => default_serial end.

(** Store [false] in the flags of the rules. *)
Definition clear_flags (fs : list ForwardRule) (fl : list bool) : list bool :=
  fold_left (fun fl f => <[active_flag f := false]> fl) fs fl.

Definition forward_matches (local : bytes) (f : ForwardRule) : bool :=
  let canonical := if negb (starts_with (B "tcp:") local) && all_digits local then B "tcp:" ++ local else local in
  bool_decide (f_local f = canonical) || bool_decide (f_local f = local).

Definition remove_forward (local : bytes) (r : TransportRegistry) : TransportRegistry * bool :=
  let gone := List.filter (forward_matches local) (forwards r) in
  (set_forwards (List.filter (fun f => negb (forward_matches local f)) (forwards r))
     (clear_flags gone (flags r)) r,
   match gone with [] => false | _ => true end).

(** The local end: the bound port and the canonical name. [bind p] is the outcome of binding port
    [p] of the loopback address: the port, or the text of the error. *)
Definition bind_local (bind : Z -> res bytes Z) (local_spec : bytes) : res bytes (Z * bytes * bool) :=
  if starts_with (B "tcp:") local_spec || all_digits local_spec then
    let port_str := match strip_prefix (B "tcp:") local_spec with Some s => s | None => local_spec end in
    let! requested := ok_or (parse_uint 10 65535 port_str) (B "invalid port in local spec: " ++ local_spec) in
    let! p := map_err (fun e => B "cannot bind listener for " ++ local_spec ++ B ": " ++ e) (bind requested) in
    Ok (p, B "tcp:" ++ fmt_dec p, true)
  else Ok (0, local_spec, false).

Definition add_forward (bind : Z -> res bytes Z) (local_spec remote_spec : bytes) (no_rebind : bool)
    (r : TransportRegistry) : TransportRegistry * res bytes bytes :=
  match bind_local bind local_spec with
  | Ok (bound_port, canonical, _) =>
      if no_rebind && existsb (fun f => bool_decide (f_local f = canonical)) (forwards r)
      then (r, Err (B "forward '" ++ canonical ++ B "' already exists"))
      else
        let '(r, _) := remove_forward canonical r in
        let rule := mk_forward (any_serial r) canonical remote_spec (length (flags r)) in
        (set_forwards (forwards r ++ [rule]) (flags r ++ [true]) r,
         Ok (if bool_decide (local_spec = B "tcp:0") || bool_decide (local_spec = B "0")
             then fmt_dec bound_port else []))
  | Err e => (r, Err e)
  | Panic => (r, Panic)
  end.

Definition remove_all_forwards (r : TransportRegistry) : TransportRegistry :=
  set_forwards [] (clear_flags (forwards r) (flags r)) r.

Definition list_forwards (r : TransportRegistry) : bytes :=
  concat (map (fun f => f_serial f ++ B " " ++ f_local f ++ B " " ++ f_remote f ++ [x0a]) (forwards r)).

Definition list_reverses (r : TransportRegistry) : bytes :=
  concat (map (fun x => r_serial x ++ B " " ++ r_remote x ++ B " " ++ r_local x ++ [x0a]) (reverses r)).

Definition without_reverse (remote : bytes) (rs : list ReverseRule) : list ReverseRule :=
  List.filter (fun x => negb (bool_decide (r_remote x = remote))) rs.

Definition add_reverse (remote local : bytes) (no_rebind : bool) (r : TransportRegistry)
    : TransportRegistry * res bytes unit :=
  if no_rebind && existsb (fun x => bool_decide (r_remote x = remote)) (reverses r)
  then (r, Err (B "reverse forward '" ++ remote ++ B "' already exists"))
  else (set_reverses (without_reverse remote (reverses r) ++ [mk_reverse (any_serial r) remote local]) r, Ok tt).

Definition remove_reverse (remote : bytes) (r : TransportRegistry) : TransportRegistry * bool :=
  let rs := without_reverse remote (reverses r) in
  (set_reverses rs r, negb (Nat.eqb (length (reverses r)) (length rs))).

Definition remove_all_reverses (r : TransportRegistry) : TransportRegistry := set_reverses [] r.

(** [parse_spec_pair]: the two ends of a rule. *)
Definition spec_prefixes : list bytes :=
  [B "tcp:"; B "localabstract:"; B "localreserved:"; B "localfilesystem:"; B "dev:"; B "jdwp:"].

Fixpoint split_after_prefix (ps : list bytes) (s : bytes) : option (bytes * bytes) :=
  match ps with
  | [] => None
  | p :: ps =>
      match strip_prefix p s with
      | Some rest =>
          match split_once ":"%byte rest with
          | Some (p1, p2) => Some (p ++ p1, p2)
          | None => split_after_prefix ps s
          end
      | None => split_after_prefix ps s
      end
  end.

Definition parse_spec_pair (s : bytes) : option (bytes * bytes) :=
  match split_once ";"%byte s with
  | Some ab => Some ab
  | None =>
      match split_after_prefix spec_prefixes s with
      | Some ab => Some ab
      | None => split_once ":"%byte s
      end
  end.

(** ** The invariant *)

(** Serials and transport ids are unique, and the next id is new. *)
Definition devices_wf (r : TransportRegistry) : Prop :=
  NoDup (map serial (devices r)) /\ NoDup (map transport_id (devices r)) /\
  Forall (fun d => transport_id d < next_id r) (devices r).

(** The part of it that holds whatever the serials are. *)
Definition ids_wf (r : TransportRegistry) : Prop :=
  NoDup (map transport_id (devices r)) /\ Forall (fun d => transport_id d < next_id r) (devices r).
Definition serials_unique (r : TransportRegistry) : Prop := NoDup (map serial (devices r)).

(** Every local end has one rule, and the flags that are still set are those of the rules: a
    listener whose rule is gone has been told to stop, and no other. *)
Definition rules_wf (r : TransportRegistry) : Prop :=
  NoDup (map f_local (forwards r)) /\ NoDup (map active_flag (forwards r)) /\
  (forall i, flags r !! i = Some true <-> i ∈ map active_flag (forwards r)) /\
  NoDup (map r_remote (reverses r)).

Definition registry_wf (r : TransportRegistry) : Prop := devices_wf r /\ rules_wf r.

Lemma devices_wf_filter p r :
  devices_wf r -> devices_wf (set_devices (List.filter p (devices r)) r).
Proof.
  intros (H1 & H2 & H3). unfold devices_wf. cbn [devices next_id set_devices].
  assert (forall A (f : DeviceEntry -> A) l, NoDup (map f l) -> NoDup (map f (List.filter p l))) as Hnd.
  { intros A f l. induction l as [|d l IH]; intros Hn; [done|]. cbn [map List.filter] in *.
    apply list.NoDup_cons in Hn as [Hx Hn]. destruct (p d); [|by apply IH]. cbn [map].
    apply list.NoDup_cons. split; [|by apply IH]. intros Hin. apply Hx.
    apply list_elem_of_In, in_map_iff in Hin as (y & Hy & Hin). apply filter_In in Hin as [Hin _].
    apply list_elem_of_In, in_map_iff. by exists y. }
  split_and!; [by apply Hnd|by apply Hnd|].
  by apply (incl_Forall (List.incl_filter p _)).
Qed.

Lemma find_some_in {A} (p : A -> bool) l x : find p l = Some x -> In x l /\ p x = true.
Proof. apply find_some. Qed.

Lemma find_by_serial_none r s : find_by_serial r s = None <-> s ∉ map serial (devices r).
Proof.
  unfold find_by_serial. rewrite list_elem_of_In, in_map_iff. split.
  - intros Hf (d & Hs & Hin). pose proof (find_none _ _ Hf d Hin) as Hn. unfold has_serial in Hn.
    by rewrite bool_decide_eq_false in Hn.
  - intros Hn. destruct (find _ _) as [d|] eqn:Hf; [|done]. exfalso. apply Hn.
    apply find_some in Hf as [Hin Hd]. exists d. unfold has_serial in Hd. by rewrite bool_decide_eq_true in Hd.
Qed.

Lemma find_by_serial_some r s d : find_by_serial r s = Some d -> In d (devices r) /\ serial d = s.
Proof.
  intros Hf. apply find_some in Hf as [Hin Hd]. unfold has_serial in Hd. by rewrite bool_decide_eq_true in Hd.
Qed.

Lemma existsb_serial s l : existsb (has_serial s) l = false -> s ∉ map serial l.
Proof.
  intros Hf Hin. apply list_elem_of_In, in_map_iff in Hin as (d & <- & Hin).
  assert (existsb (has_serial (serial d)) l = true) as Ht; [|congruence].
  apply existsb_exists. exists d. split; [done|]. unfold has_serial. by apply bool_decide_eq_true.
Qed.

Lemma has_serial_true s d : has_serial s d = true <-> serial d = s.
Proof. unfold has_serial. apply bool_decide_eq_true. Qed.

Lemma NoDup_snoc {A} (l : list A) x : NoDup l -> x ∉ l -> NoDup (l ++ [x]).
Proof.
  intros Hl Hx. apply list.NoDup_app. split_and!; [done| |apply list.NoDup_singleton].
  intros y Hy Hin. apply list_elem_of_singleton in Hin. by subst.
Qed.

Lemma devices_wf_push s o r :
  devices_wf r -> s ∉ map serial (devices r) -> devices_wf (push_device s o r).
Proof.
  intros (H1 & H2 & H3) Hs. unfold devices_wf, push_device. cbn [devices next_id].
  rewrite !map_app. cbn [map serial transport_id]. split_and!.
  - by apply NoDup_snoc.
  - apply NoDup_snoc; [done|]. intros Hin. apply list_elem_of_In, in_map_iff in Hin as (d & Hd & Hin).
    rewrite Stdlib.Lists.List.Forall_forall in H3. specialize (H3 d Hin). lia.
  - apply Forall_app. split; [|constructor; [cbn; lia|constructor]].
    eapply list.Forall_impl; [exact H3|]. cbn. lia.
Qed.

(** An update that keeps serial and transport id. *)
Definition keeps_ids (f : DeviceEntry -> DeviceEntry) : Prop :=
  forall d, serial (f d) = serial d /\ transport_id (f d) = transport_id d.

Lemma devices_wf_update p f r :
  keeps_ids f -> devices_wf r -> devices_wf (set_devices (update_first p f (devices r)) r).
Proof.
  intros Hf (H1 & H2 & H3). unfold devices_wf. cbn [devices next_id set_devices].
  assert (forall l, map serial (update_first p f l) = map serial l) as E1.
  { induction l as [|d l IH]; [done|]. cbn [update_first]. destruct (p d); cbn [map]; [|by rewrite IH].
    by rewrite (proj1 (Hf d)). }
  assert (forall l, map transport_id (update_first p f l) = map transport_id l) as E2.
  { induction l as [|d l IH]; [done|]. cbn [update_first]. destruct (p d); cbn [map]; [|by rewrite IH].
    by rewrite (proj2 (Hf d)). }
  rewrite E1, E2. split_and!; [done|done|]. clear E1 E2 H1 H2.
  induction H3 as [|d l Hd Hl IH]; [constructor|]. cbn [update_first]. destruct (p d); constructor; try done.
  by rewrite (proj2 (Hf d)).
Qed.

Lemma banner_keeps_ids banner : keeps_ids (record_banner banner).
Proof.
  intros d. unfold record_banner.
  assert (forall parts e, serial (fold_left banner_property parts e) = serial e /\
            transport_id (fold_left banner_property parts e) = transport_id e) as H.
  { induction parts as [|p parts IH]; intros e; [done|]. cbn [fold_left].
    destruct (IH (banner_property e p)) as [-> ->]. unfold banner_property.
    destruct (split_once _ p) as [[k v]|]; [|done]. by repeat case_match. }
  by destruct (H (split_on ";"%byte (trim banner)) (set_features banner d)) as [-> ->].
Qed.

Lemma NoDup_map_filter {A C} (f : A -> C) (p : A -> bool) (l : list A) :
  NoDup (map f l) -> NoDup (map f (List.filter p l)).
Proof.
  induction l as [|d l IH]; intros Hn; [done|]. cbn [map List.filter] in *.
  apply list.NoDup_cons in Hn as [Hx Hn]. destruct (p d); [|by apply IH]. cbn [map].
  apply list.NoDup_cons. split; [|by apply IH]. intros Hin. apply Hx.
  apply list_elem_of_In, in_map_iff in Hin as (y & Hy & Hin). apply filter_In in Hin as [Hin _].
  apply list_elem_of_In, in_map_iff. by exists y.
Qed.

Lemma elem_of_map_filter {A C} (f : A -> C) (p : A -> bool) (l : list A) c :
  c ∈ map f (List.filter p l) <-> exists x, In x l /\ p x = true /\ f x = c.
Proof.
  rewrite list_elem_of_In, in_map_iff. split.
  - intros (x & Hx & Hin%filter_In). destruct Hin. by exists x.
  - intros (x & Hin & Hp & Hx). exists x. split; [done|]. by apply filter_In.
Qed.

Lemma NoDup_map_inj {A C} (f : A -> C) l x y :
  NoDup (map f l) -> In x l -> In y l -> f x = f y -> x = y.
Proof.
  induction l as [|z l IH]; intros Hn Hx Hy E; [done|]. cbn [map] in Hn.
  apply list.NoDup_cons in Hn as [Hz Hn].
  assert (forall u, In u l -> f u <> f z) as Hd.
  { intros u Hu E'. apply Hz. rewrite <- E'. by apply list_elem_of_In, in_map. }
  destruct Hx as [<-|Hx], Hy as [<-|Hy]; [done|exfalso; by apply (Hd y)|exfalso; by apply (Hd x)|by apply IH].
Qed.

Lemma clear_flags_lookup fs : forall fl i,
  clear_flags fs fl !! i = Some true <-> fl !! i = Some true /\ i ∉ map active_flag fs.
Proof.
  induction fs as [|f fs IH]; intros fl i; cbn [clear_flags fold_left map].
  - split; [|by intros [? _]]. intros. split; [done|apply not_elem_of_nil].
  - fold (clear_flags fs (<[active_flag f := false]> fl)). rewrite IH, not_elem_of_cons.
    destruct (decide (i = active_flag f)) as [->|Hne].
    + split; [|by intros (_ & ? & _)]. intros [Hl _].
      destruct (decide (active_flag f < length fl)%nat).
      * by rewrite list_lookup_insert_eq in Hl.
      * rewrite lookup_ge_None_2 in Hl; [done|]. rewrite length_insert. lia.
    + rewrite list_lookup_insert_ne by done. naive_solver.
Qed.

(** Dropping the rules that satisfy [p], and clearing their flags. *)
Lemma rules_wf_drop p r :
  rules_wf r ->
  rules_wf (set_forwards (List.filter (fun f => negb (p f)) (forwards r))
              (clear_flags (List.filter p (forwards r)) (flags r)) r).
Proof.
  intros (H1 & H2 & H3 & H4). unfold rules_wf. cbn [forwards flags reverses set_forwards].
  split_and!; [by apply NoDup_map_filter|by apply NoDup_map_filter| |done].
  intros i. rewrite clear_flags_lookup, H3, !elem_of_map_filter, list_elem_of_In, in_map_iff. split.
  - intros [(f & Hf & Hin) Hno]. exists f. split; [done|]. split; [|done].
    destruct (p f) eqn:Hp; [|done]. exfalso. apply Hno. by exists f.
  - intros (f & Hin & Hp & Hf). split; [by exists f|]. intros (g & Hg & Hpg & Hfg).
    assert (f = g) as -> by (eapply NoDup_map_inj; [exact H2| | |]; congruence).
    by rewrite Hpg in Hp.
Qed.

Lemma remove_forward_wf local r : rules_wf r -> rules_wf (fst (remove_forward local r)).
Proof. apply rules_wf_drop. Qed.

Lemma remove_all_forwards_wf r : rules_wf r -> rules_wf (remove_all_forwards r).
Proof.
  intros H. pose proof (rules_wf_drop (fun _ => true) r H) as Hd.
  rewrite (List.filter_true (forwards r)) in Hd.
  cbn [negb] in Hd. by rewrite (List.filter_false (forwards r)) in Hd.
Qed.

Lemma add_forward_wf bind l rm nb r : rules_wf r -> rules_wf (fst (add_forward bind l rm nb r)).
Proof.
  intros H. unfold add_forward. destruct (bind_local bind l) as [[[p c] b]|e|]; try done.
  destruct (nb && _); [done|].
  pose proof (remove_forward_wf c r H) as (H1 & H2 & H3 & H4).
  assert (c ∉ map f_local (forwards (fst (remove_forward c r)))) as Hc.
  { cbn. rewrite elem_of_map_filter. intros (f & _ & Hm & Hf). unfold forward_matches in Hm.
    rewrite (bool_decide_eq_true_2 (f_local f = c)), orb_true_r in Hm by done. done. }
  destruct (remove_forward c r) as [r1 removed]. cbn [fst] in *.
  unfold rules_wf. cbn [fst forwards flags reverses set_forwards]. rewrite !map_app. cbn [map f_local active_flag].
  assert (length (flags r1) ∉ map active_flag (forwards r1)) as Hn.
  { intros Hin%H3%lookup_lt_Some. lia. }
  split_and!; [by apply NoDup_snoc|by apply NoDup_snoc| |done].
  intros i. rewrite elem_of_app, list_elem_of_singleton, <- H3.
  destruct (decide (i < length (flags r1))%nat).
  - rewrite lookup_app_l by done. split; [by left|]. intros [?| ->]; [done|lia].
  - rewrite lookup_app_r by lia. split.
    + intros Hl. right. destruct (i - length (flags r1))%nat eqn:E; [lia|]. done.
    + intros [Hl| ->]; [|by rewrite Nat.sub_diag]. apply lookup_lt_Some in Hl. lia.
Qed.

Lemma rules_wf_reverses rs r : rules_wf r -> NoDup (map r_remote rs) -> rules_wf (set_reverses rs r).
Proof. by intros (H1 & H2 & H3 & H4) Hn. Qed.

Lemma add_reverse_wf rm l nb r : rules_wf r -> rules_wf (fst (add_reverse rm l nb r)).
Proof.
  intros H. unfold add_reverse. destruct (nb && _); [done|]. cbn [fst].
  apply rules_wf_reverses; [done|]. destruct H as (_ & _ & _ & H). rewrite map_app. cbn [map r_remote].
  apply NoDup_snoc; [by apply NoDup_map_filter|]. unfold without_reverse.
  rewrite elem_of_map_filter. intros (x & _ & Hx & Hr).
  by rewrite bool_decide_eq_true_2 in Hx.
Qed.

(** ** Every operation keeps the invariant

    The threads of the server share the registry behind a lock; [registry_op] lists what they do while
    they hold it, so that a list of operations is an order in which they take it. Between two sections
    of one service ([host:connect]), or of one refresh of the manager, others can come. *)
Inductive registry_op :=
| RefreshUsb (enumerated : option (list UsbCandidate))
| RegisterTcp (addr : SocketAddr) (s : bytes)
| RegisterUsb (s : bytes)
| Unregister (s : bytes)
| UnregisterAllTcp
| UpdateInfo (s banner : bytes)
| SetState (s : bytes) (st : DeviceState)
| AddForward (bind : Z -> res bytes Z) (local remote : bytes) (no_rebind : bool)
| RemoveForward (local : bytes)
| RemoveAllForwards
| AddReverse (remote local : bytes) (no_rebind : bool)
| RemoveReverse (remote : bytes)
| RemoveAllReverses
| RegisterRemote (addr : SocketAddr) (banner : bytes)
| Rename (old new : bytes)
| PushUsb (s : bytes)
| RetainUsb (now : list bytes).

Definition registry_step (r : TransportRegistry) (op : registry_op) : TransportRegistry :=
  match op with
  | RefreshUsb e => refresh_usb_devices e r
  | RegisterTcp a s => fst (register_tcp_device a s r)
  | RegisterUsb s => fst (register_usb_device s r)
  | Unregister s => fst (fst (unregister_device s r))
  | UnregisterAllTcp => fst (unregister_all_tcp_devices r)
  | UpdateInfo s b => fst (update_device_info s b r)
  | SetState s st => fst (set_device_state s st r)
  | AddForward bind l rm nb => fst (add_forward bind l rm nb r)
  | RemoveForward l => fst (remove_forward l r)
  | RemoveAllForwards => remove_all_forwards r
  | AddReverse rm l nb => fst (add_reverse rm l nb r)
  | RemoveReverse rm => fst (remove_reverse rm r)
  | RemoveAllReverses => remove_all_reverses r
  | RegisterRemote a b => register_remote a b r
  | Rename old new => rename_device old new r
  | PushUsb s => push_device s Usb r
  | RetainUsb now => retain_usb now r
  end.

Definition registry_run (r : TransportRegistry) (ops : list registry_op) : TransportRegistry := fold_left registry_step ops r.

(** The operations that give a serial to a second device: a device renamed to the serial of another,
    and a USB device entered by the manager's refresh under the serial of a device that it does not look at. *)
Definition serial_clash (r : TransportRegistry) (op : registry_op) : Prop :=
  match op with
  | Rename old new => old <> new /\ old ∈ map serial (devices r) /\ new ∈ map serial (devices r)
  | PushUsb s => s ∈ map serial (devices r)
  | _ => False
  end.

Definition same_rules (r r' : TransportRegistry) : Prop :=
  forwards r' = forwards r /\ reverses r' = reverses r /\ flags r' = flags r.

Lemma rules_wf_same r r' : same_rules r r' -> rules_wf r -> rules_wf r'.
Proof. unfold rules_wf. intros (-> & -> & ->). done. Qed.

Lemma add_candidates_wf cs : forall r,
  devices_wf r -> devices_wf (fold_left add_candidate cs r) /\ same_rules r (fold_left add_candidate cs r).
Proof.
  induction cs as [|c cs IH]; intros r H; cbn [fold_left]; [done|].
  assert (devices_wf (add_candidate r c) /\ same_rules r (add_candidate r c)) as [Hw Hs].
  { unfold add_candidate. destruct (existsb _ _) eqn:E; [done|]. split; [|done].
    apply devices_wf_push; [done|]. by apply existsb_serial. }
  destruct (IH _ Hw) as [Hw' Hs']. split; [done|]. destruct Hs as (? & ? & ?), Hs' as (? & ? & ?).
  split_and!; congruence.
Qed.

Lemma refresh_wf e r : registry_wf r -> registry_wf (refresh_usb_devices e r).
Proof.
  intros [Hd Hr]. destruct e as [cs|]; [|done]. cbn [refresh_usb_devices].
  destruct (add_candidates_wf cs r Hd) as [Hw Hs]. split; [by apply devices_wf_filter|].
  eapply rules_wf_same; [|exact Hr]. destruct Hs as (? & ? & ?). by split_and!.
Qed.

Lemma upsert_wf a s r : devices_wf r -> devices_wf (upsert_tcp_device a s r).
Proof.
  intros H. unfold upsert_tcp_device. destruct (find_by_serial r s) eqn:E.
  - by apply devices_wf_update.
  - apply devices_wf_push; [done|]. by apply find_by_serial_none.
Qed.

Lemma upsert_rules a s r : same_rules r (upsert_tcp_device a s r).
Proof. unfold upsert_tcp_device. by destruct (find_by_serial r s). Qed.

Lemma swap_remove_perm {A} i (l : list A) x :
  l !! i = Some x -> take i (swap_remove i l) = take i l /\ drop i (swap_remove i l) ≡ₚ drop (S i) l /\
    length (swap_remove i l) = (length l - 1)%nat.
Proof.
  intros Hx. pose proof (lookup_lt_Some _ _ _ Hx) as Hi. unfold swap_remove.
  assert (length (take i l) = i) as Hl by (rewrite length_take; lia).
  assert (match reverse (drop (S i) l) with [] => [] | y :: rest => y :: reverse rest end ≡ₚ drop (S i) l) as Hp.
  { pose proof (reverse_involutive (drop (S i) l)) as Hr. destruct (reverse (drop (S i) l)) as [|y rest] eqn:E.
    - cbn in Hr. by rewrite <- Hr.
    - rewrite <- Hr, reverse_cons. apply Permutation_cons_append. }
  split_and!.
  - rewrite take_app_le by lia. rewrite take_ge by lia. done.
  - rewrite drop_app_ge by lia. rewrite Hl, Nat.sub_diag, drop_0. done.
  - rewrite length_app, Hl. rewrite (Permutation_length Hp), length_drop. lia.
Qed.

Lemma filter_perm {A} (p : A -> bool) l k : l ≡ₚ k -> List.filter p l ≡ₚ List.filter p k.
Proof.
  induction 1 as [|x l k _ IH|x y l|l k m _ IH1 _ IH2]; cbn [List.filter]; try done.
  - by destruct (p x); [constructor|].
  - destruct (p x), (p y); try done. constructor.
  - by rewrite IH1.
Qed.

Lemma swap_remove_while_perm {A} fuel (p : A -> bool) : forall i l,
  (length l - i <= fuel)%nat ->
  swap_remove_while fuel p i l ≡ₚ take i l ++ List.filter (fun x => negb (p x)) (drop i l).
Proof.
  induction fuel as [|fuel IH]; intros i l Hf; cbn [swap_remove_while].
  { rewrite take_ge, drop_ge by lia. cbn. by rewrite app_nil_r. }
  destruct (l !! i) as [x|] eqn:Hx; [|apply lookup_ge_None in Hx; rewrite take_ge, drop_ge by lia; cbn; by rewrite app_nil_r].
  pose proof (lookup_lt_Some _ _ _ Hx) as Hi. rewrite (drop_S l x i Hx). cbn [List.filter].
  destruct (p x) eqn:Hp; cbn [negb].
  - destruct (swap_remove_perm i l x Hx) as (Ht & Hd & Hl). rewrite IH by lia. rewrite Ht.
    by rewrite (filter_perm _ _ _ Hd).
  - rewrite IH by lia. rewrite (take_S_r l i x Hx). by rewrite <- app_assoc.
Qed.

Lemma update_first_cases (p : DeviceEntry -> bool) (f : DeviceEntry -> DeviceEntry) l :
  (exists l1 d l2, l = l1 ++ d :: l2 /\ p d = true /\ Forall (fun x => p x = false) l1 /\
     update_first p f l = l1 ++ f d :: l2) \/
  (Forall (fun x => p x = false) l /\ update_first p f l = l).
Proof.
  induction l as [|d l IH]; [by right|]. cbn [update_first]. destruct (p d) eqn:Hp; [left; by exists [], d, l|].
  destruct IH as [(l1 & e & l2 & -> & He & Hl & ->)|[Hl ->]]; [left; exists (d :: l1), e, l2|right]; by repeat constructor.
Qed.

Lemma ids_filter p r : ids_wf r -> ids_wf (set_devices (List.filter p (devices r)) r).
Proof. intros [H1 H2]. split; [by apply NoDup_map_filter|]. by apply (incl_Forall (List.incl_filter p _)). Qed.

Lemma ids_push s o r : ids_wf r -> ids_wf (push_device s o r).
Proof.
  intros [H1 H2]. unfold ids_wf, push_device. cbn [devices next_id]. rewrite map_app. cbn [map transport_id]. split.
  - apply NoDup_snoc; [done|]. intros Hin. apply list_elem_of_In, in_map_iff in Hin as (d & Hd & Hin).
    rewrite Stdlib.Lists.List.Forall_forall in H2. specialize (H2 d Hin). lia.
  - apply Forall_app. split; [|constructor; [cbn; lia|constructor]]. eapply list.Forall_impl; [exact H2|]. cbn. lia.
Qed.

Lemma ids_update p f r : (forall d, transport_id (f d) = transport_id d) ->
  ids_wf r -> ids_wf (set_devices (update_first p f (devices r)) r).
Proof.
  intros Hf [H1 H2]. unfold ids_wf. cbn [devices next_id set_devices].
  destruct (update_first_cases p f (devices r)) as [(l1 & d & l2 & E & _ & _ & ->)|[_ ->]]; [|done].
  rewrite E in H1, H2. rewrite map_app in *. cbn [map] in *. rewrite Hf. split; [done|].
  apply Forall_app in H2 as [Hl1 [Hd Hl2]%list.Forall_cons]. apply Forall_app. split; [done|]. constructor; [by rewrite Hf|done].
Qed.

Lemma retain_perm now r :
  devices (retain_usb now r) ≡ₚ
  List.filter (fun d => negb (is_usb (origin d) && negb (existsb (fun n => bool_decide (serial d = n)) now))) (devices r).
Proof. cbn. rewrite swap_remove_while_perm by lia. by rewrite take_0, drop_0. Qed.

Lemma ids_candidates cs : forall r, ids_wf r -> ids_wf (fold_left add_candidate cs r).
Proof.
  induction cs as [|c cs IH]; intros r H; [done|]. cbn [fold_left]. apply IH. unfold add_candidate.
  destruct (existsb _ _); [done|]. by apply ids_push.
Qed.

Lemma rules_candidates cs : forall r, same_rules r (fold_left add_candidate cs r).
Proof.
  induction cs as [|c cs IH]; intros r; [done|]. cbn [fold_left]. destruct (IH (add_candidate r c)) as (H1 & H2 & H3).
  unfold same_rules. rewrite H1, H2, H3. unfold add_candidate. by destruct (existsb _ _).
Qed.

Lemma ids_upsert a s r : ids_wf r -> ids_wf (upsert_tcp_device a s r).
Proof. intros H. unfold upsert_tcp_device. destruct (find_by_serial r s); [by apply ids_update|by apply ids_push]. Qed.

(** Ids and rules are kept by every operation. *)
Lemma registry_step_ids r op : ids_wf r -> ids_wf (registry_step r op).
Proof.
  intros H. destruct op as [e|a s|s|s| |s b|s st|bind l rm nb|l| |rm l nb|rm| |a b|o n|s|now]; cbn [registry_step]; try done.
  - destruct e as [cs|]; [|done]. by apply ids_filter, ids_candidates.
  - by apply ids_upsert.
  - unfold register_usb_device. destruct (find_by_serial r s); [done|]. by apply ids_push.
  - by apply ids_filter.
  - by apply ids_filter.
  - unfold update_device_info. destruct (find_by_serial r s); [|done]. apply ids_update; [|done].
    intros x. by rewrite (proj2 (banner_keeps_ids b _)).
  - unfold set_device_state. destruct (find_by_serial r s); [|done]. by apply ids_update.
  - unfold add_forward, remove_forward. destruct (bind_local bind l) as [[[p c] b]|e|]; [|done|done]. by destruct (nb && _).
  - unfold add_reverse. by destruct (nb && _).
  - unfold register_remote. destruct b; [by apply ids_upsert|]. apply ids_update; [|by apply ids_upsert].
    intros d. apply banner_keeps_ids.
  - by apply ids_update.
  - by apply ids_push.
  - destruct H as [H1 H2]. pose proof (retain_perm now r) as Hp. split.
    + rewrite (Permutation_map transport_id Hp). by apply NoDup_map_filter.
    + change (next_id (retain_usb now r)) with (next_id r). rewrite Hp. by apply (incl_Forall (List.incl_filter _ _)).
Qed.

Lemma registry_step_rules r op : rules_wf r -> rules_wf (registry_step r op).
Proof.
  intros H. destruct op as [e|a s|s|s| |s b|s st|bind l rm nb|l| |rm l nb|rm| |a b|o n|s|now]; cbn [registry_step]; try done.
  - destruct e as [cs|]; [|done]. apply (rules_wf_same r); [|done]. apply (rules_candidates cs r).
  - by apply (rules_wf_same r); [apply upsert_rules|].
  - unfold register_usb_device. by destruct (find_by_serial r s).
  - unfold update_device_info. by destruct (find_by_serial r s).
  - unfold set_device_state. by destruct (find_by_serial r s).
  - by apply add_forward_wf.
  - by apply remove_forward_wf.
  - by apply remove_all_forwards_wf.
  - by apply add_reverse_wf.
  - apply rules_wf_reverses; [done|]. apply NoDup_map_filter. apply H.
  - apply rules_wf_reverses; [done|constructor].
  - unfold register_remote. by destruct b; (apply (rules_wf_same r); [apply (upsert_rules a)|]).
Qed.

Lemma serials_update_map p f l :
  (forall d, serial (f d) = serial d) -> map serial (update_first p f l) = map serial l.
Proof.
  intros Hf. destruct (update_first_cases p f l) as [(l1 & d & l2 & -> & _ & _ & ->)|[_ ->]]; [|done].
  by rewrite !map_app; cbn [map]; rewrite Hf.
Qed.

Lemma unique_push s o r : serials_unique r -> serials_unique (push_device s o r) <-> s ∉ map serial (devices r).
Proof.
  intros H. unfold serials_unique, push_device. cbn [devices]. rewrite map_app. cbn [map serial]. split; [|by apply NoDup_snoc].
  intros (_ & Hd & _)%list.NoDup_app Hs. apply (Hd s Hs). by left.
Qed.

Lemma unique_upsert a s r : serials_unique r -> serials_unique (upsert_tcp_device a s r).
Proof.
  intros H. unfold upsert_tcp_device. destruct (find_by_serial r s) eqn:E.
  - unfold serials_unique. cbn [devices set_devices]. by rewrite serials_update_map.
  - apply unique_push; [done|]. by apply find_by_serial_none.
Qed.

Lemma unique_candidates cs : forall r, serials_unique r -> serials_unique (fold_left add_candidate cs r).
Proof.
  induction cs as [|c cs IH]; intros r H; [done|]. cbn [fold_left]. apply IH. unfold add_candidate.
  destruct (existsb _ _) eqn:E; [done|]. apply unique_push; [done|]. by apply existsb_serial.
Qed.

Lemma unique_rename old new r : serials_unique r ->
  serials_unique (rename_device old new r) <->
  ~ (old <> new /\ old ∈ map serial (devices r) /\ new ∈ map serial (devices r)).
Proof.
  unfold serials_unique, rename_device. cbn [devices set_devices].
  destruct (update_first_cases (has_serial old) (set_serial new) (devices r)) as [(l1 & d & l2 & -> & Hd & _ & ->)|[Hl ->]].
  - apply has_serial_true in Hd. rewrite !map_app. cbn [map serial set_serial]. rewrite <- !Permutation_middle, !list.NoDup_cons, Hd.
    rewrite <- map_app, !elem_of_cons. destruct (decide (old = new)) as [->|]; naive_solver.
  - intros H. split; [|done]. intros _ (_ & Hin & _). apply list_elem_of_In, in_map_iff in Hin as (d & <- & Hin).
    rewrite List.Forall_forall in Hl. specialize (Hl d Hin). unfold has_serial in Hl. by rewrite bool_decide_eq_false in Hl.
Qed.

(** Serials stay unique exactly when the operation does not give a serial to a second device. *)
Lemma registry_step_serials r op : serials_unique r -> serials_unique (registry_step r op) <-> ~ serial_clash r op.
Proof.
  intros H. assert (forall r', serials_unique r' -> serials_unique r' <-> ~ False) as Hk by tauto.
  destruct op as [e|a s|s|s| |s b|s st|bind l rm nb|l| |rm l nb|rm| |a b|o n|s|now]; cbn [registry_step serial_clash];
    try (apply Hk; first [exact H|by apply NoDup_map_filter]).
  - apply Hk. destruct e as [cs|]; [|done]. by apply NoDup_map_filter, unique_candidates.
  - by apply Hk, unique_upsert.
  - apply Hk. unfold register_usb_device. destruct (find_by_serial r s) eqn:E; [done|]. apply unique_push; [done|].
    by apply find_by_serial_none.
  - apply Hk. unfold update_device_info. destruct (find_by_serial r s); [|done]. unfold serials_unique. cbn [fst devices set_devices].
    rewrite serials_update_map; [done|]. intros x. by rewrite (proj1 (banner_keeps_ids b _)).
  - apply Hk. unfold set_device_state. destruct (find_by_serial r s); [|done]. unfold serials_unique. cbn [fst devices set_devices].
    by rewrite serials_update_map.
  - apply Hk. unfold add_forward, remove_forward. destruct (bind_local bind l) as [[[p c] b]|e|]; [|done|done]. by destruct (nb && _).
  - apply Hk. unfold add_reverse. by destruct (nb && _).
  - apply Hk. unfold register_remote. destruct b as [|x b]; [by apply unique_upsert|]. unfold serials_unique. cbn [devices set_devices].
    rewrite serials_update_map; [by apply unique_upsert|]. intros d. apply banner_keeps_ids.
  - by apply unique_rename.
  - by apply unique_push.
  - apply Hk. unfold serials_unique. rewrite (Permutation_map serial (retain_perm now r)). by apply NoDup_map_filter.
Qed.

Lemma registry_step_wf r op : ~ serial_clash r op -> registry_wf r -> registry_wf (registry_step r op).
Proof.
  intros Hc [[Hs Hi] Hr]. split; [split|].
  - by apply (registry_step_serials r op Hs).
  - by apply registry_step_ids.
  - by apply registry_step_rules.
Qed.

Lemma registry_run_ids ops : forall r, ids_wf r -> ids_wf (registry_run r ops).
Proof. induction ops as [|op ops IH]; intros r H; [done|]. by apply IH, registry_step_ids. Qed.
Lemma registry_run_rules ops : forall r, rules_wf r -> rules_wf (registry_run r ops).
Proof. induction ops as [|op ops IH]; intros r H; [done|]. by apply IH, registry_step_rules. Qed.

Lemma registry_new_wf e : registry_wf (registry_new e).
Proof.
  apply refresh_wf. split.
  - split_and!; cbn; constructor.
  - split_and!; cbn; try constructor.
    + by rewrite lookup_nil.
    + by intros ?%not_elem_of_nil.
Qed.



(** ** Selection *)

(** The implicit device is found exactly when one device is usable: the answer is that device,
    and with none or several it is the error that says so. *)
Theorem find_unique_iff r d :
  devices_wf r ->
  (find_unique_device r = Ok d <->
   In d (devices r) /\ is_usable_state (state d) = true /\
   forall d', In d' (devices r) -> is_usable_state (state d') = true -> d' = d) /\
  (find_unique_device r = Err (B "no devices/emulators found") <->
   forall d', In d' (devices r) -> is_usable_state (state d') = false).
Proof.
  intros (Hn & _). unfold find_unique_device.
  set (us := List.filter (fun d => is_usable_state (state d)) (devices r)).
  assert (forall x, In x us <-> In x (devices r) /\ is_usable_state (state x) = true) as Hin
    by (intros x; apply filter_In).
  assert (NoDup us) as Hu.
  { apply (list.NoDup_fmap_1 serial). by apply NoDup_map_filter. }
  clearbody us. destruct us as [|x [|y us]].
  - split; [split; [done|]|split; [|done]].
    + intros (H1 & H2 & _). exfalso. by apply (Hin d).
    + intros _ d' Hd'. destruct (is_usable_state (state d')) eqn:E; [|done]. exfalso. by apply (Hin d').
  - split; [split|split; [done|]].
    + intros [= <-]. destruct (proj1 (Hin x) (or_introl eq_refl)) as [H1 H2]. split_and!; [done|done|].
      intros d' H3 H4. by destruct (proj2 (Hin d') (conj H3 H4)) as [<-|[]].
    + intros (H1 & H2 & H3). by destruct (proj2 (Hin d) (conj H1 H2)) as [<-|[]].
    + intros H. destruct (proj1 (Hin x) (or_introl eq_refl)) as [H1 H2]. by rewrite H in H2.
  - split; [split; [done|]|split; [done|]].
    + intros (_ & _ & H3). exfalso.
      destruct (proj1 (Hin x) (or_introl eq_refl)) as [Hx1 Hx2].
      destruct (proj1 (Hin y) (or_intror (or_introl eq_refl))) as [Hy1 Hy2].
      apply list.NoDup_cons in Hu as [Hxy _]. apply Hxy.
      rewrite (H3 x Hx1 Hx2), (H3 y Hy1 Hy2). by left.
    + intros H. destruct (proj1 (Hin x) (or_introl eq_refl)) as [H1 H2]. by rewrite H in H2.
Qed.

Definition sample_registry : TransportRegistry :=
  fold_left registry_step
    [RegisterTcp (mk_addr (B "10.0.0.2") false 5555) (B "10.0.0.2:5555"); RegisterUsb (B "R5");
     SetState (B "R5") Offline] (registry_new None).

Lemma find_unique_iff_witness :
  exists d, find_unique_device sample_registry = Ok d /\ serial d = B "10.0.0.2:5555" /\
    forall d', In d' (devices sample_registry) -> is_usable_state (state d') = true -> d' = d.
Proof.
  assert (devices_wf sample_registry) as Hwf.
  { unfold sample_registry. cbn [fold_left]. repeat (apply registry_step_wf; [by intros ?|]). apply registry_new_wf. }
  exists (mk_device (B "10.0.0.2:5555") 1 Device (Tcp (mk_addr (B "10.0.0.2") false 5555)) None None None None).
  split; [reflexivity|]. split; [reflexivity|].
  apply (proj1 (find_unique_iff sample_registry _ Hwf)). reflexivity.
Defined.

(** ** Events *)

(** A listener that keeps the set of connected serials. *)
Definition listen (seen : gset bytes) (e : TransportEvent) : gset bytes :=
  match e with
  | Connected s _ => {[ s ]} ∪ seen
  | Disconnected s => seen ∖ {[ s ]}
  | StateChanged _ _ _ => seen
  end.

Definition serials (r : TransportRegistry) : gset bytes := list_to_set (map serial (devices r)).

(** The manager's operations, with the events they fire. *)
Definition manager_step (r : TransportRegistry) (op : registry_op) : TransportRegistry * list TransportEvent :=
  match op with
  | RegisterTcp a s => register_tcp_device a s r
  | RegisterUsb s => register_usb_device s r
  | Unregister s => let '(r, evs, _) := unregister_device s r in (r, evs)
  | UnregisterAllTcp => unregister_all_tcp_devices r
  | UpdateInfo s b => update_device_info s b r
  | SetState s st => set_device_state s st r
  | op => (registry_step r op, [])
  end.

Definition is_manager_op (op : registry_op) : Prop :=
  match op with
  | RefreshUsb _ | RegisterRemote _ _ | Rename _ _ | PushUsb _ | RetainUsb _ => False
  | _ => True
  end.

Lemma serials_push s o r : serials (push_device s o r) = {[ s ]} ∪ serials r.
Proof. unfold serials, push_device. cbn [devices]. rewrite map_app, list_to_set_app_L. cbn. set_solver. Qed.

Lemma serials_update p f r :
  keeps_ids f -> serials (set_devices (update_first p f (devices r)) r) = serials r.
Proof.
  intros Hf. unfold serials. cbn [devices set_devices]. f_equal.
  induction (devices r) as [|d l IH]; [done|]. cbn [update_first]. destruct (p d); cbn [map]; [|by rewrite IH].
  by rewrite (proj1 (Hf d)).
Qed.

Lemma elem_of_serials s r : s ∈ serials r <-> exists d, In d (devices r) /\ serial d = s.
Proof.
  unfold serials. rewrite elem_of_list_to_set, list_elem_of_In, in_map_iff. naive_solver.
Qed.

Lemma listen_all l : forall seen, fold_left listen (map Disconnected l) seen = seen ∖ list_to_set l.
Proof.
  induction l as [|s l IH]; intros seen; cbn [map fold_left]; [set_solver|]. rewrite IH. cbn. set_solver.
Qed.

Lemma remove_device_serials s r :
  serials (fst (remove_device s r)) = serials r ∖ {[ s ]} /\
  (snd (remove_device s r) = false -> s ∉ serials r).
Proof.
  split.
  - apply set_eq. intros x. rewrite elem_of_difference, not_elem_of_singleton, !elem_of_serials.
    cbn [remove_device fst devices set_devices]. split.
    + intros (d & [Hin Hp]%filter_In & <-). split; [by exists d|]. unfold has_serial in Hp.
      apply negb_true_iff, bool_decide_eq_false in Hp. done.
    + intros [(d & Hin & <-) Hne]. exists d. split; [|done]. apply filter_In. split; [done|].
      unfold has_serial. by rewrite bool_decide_eq_false_2.
  - cbn [remove_device snd]. intros Hl%negb_false_iff%Nat.eqb_eq. rewrite elem_of_serials.
    intros (d & Hin & Hd).
    assert (exists x, In x (devices r) /\ has_serial s x = true) as Hx
      by (exists d; unfold has_serial; by rewrite bool_decide_eq_true_2).
    clear Hin Hd d. destruct Hx as (d & Hin & Hp). revert Hl Hin.
    assert (forall l : list DeviceEntry, (length (List.filter (fun d => negb (has_serial s d)) l) <= length l)%nat) as Hle
      by (intros l; apply List.filter_length_le).
    induction (devices r) as [|x l IH]; intros Hl Hin; [done|]. cbn [List.filter length] in Hl.
    destruct Hin as [->|Hin].
    + rewrite Hp in Hl. cbn [negb] in Hl. specialize (Hle l). lia.
    + apply IH; [|done]. destruct (negb (has_serial s x)); [cbn in Hl; lia|]. specialize (Hle l). lia.
Qed.

Lemma manager_step_listen r op :
  devices_wf r -> is_manager_op op ->
  let '(r', evs) := manager_step r op in
  fold_left listen evs (serials r) = serials r'.
Proof.
  intros (Hn & _) Hop. destruct op as [e|a s|s|s| |s b|s st|bind l rm nb|l| |rm l nb|rm| | | | |]; cbn [manager_step]; try done.
  - unfold register_tcp_device, upsert_tcp_device. destruct (find_by_serial r s) eqn:E.
    + cbn [fold_left]. by rewrite serials_update.
    + cbn [fold_left listen]. by rewrite serials_push.
  - unfold register_usb_device. destruct (find_by_serial r s); [done|]. cbn [fold_left listen].
    by rewrite serials_push.
  - unfold unregister_device. pose proof (remove_device_serials s r) as [H1 H2].
    destruct (remove_device s r) as [r' []]; cbn [fst snd] in *; cbn [fold_left listen]; [done|].
    specialize (H2 eq_refl). set_solver.
  - unfold unregister_all_tcp_devices. rewrite listen_all. apply set_eq. intros x.
    rewrite elem_of_difference, elem_of_list_to_set, elem_of_map_filter, !elem_of_serials.
    cbn [remove_all_tcp_devices devices set_devices]. split.
    + intros [(d & Hin & <-) Hno]. exists d. split; [|done]. apply filter_In. split; [done|].
      destruct (is_usb (origin d)) eqn:E; [done|]. exfalso. apply Hno. exists d. by rewrite E.
    + intros (d & [Hin Hu]%filter_In & <-). split; [by exists d|].
      intros (d' & Hin' & Hu' & Hs).
      assert (d = d') as -> by (eapply (NoDup_map_inj serial); done). by rewrite Hu in Hu'.
  - unfold update_device_info, state_event. destruct (find_by_serial r s); [|done].
    rewrite serials_update; [by case_bool_decide|]. intros x.
    by destruct (banner_keeps_ids b (set_state Device x)) as [-> ->].
  - unfold set_device_state, state_event. destruct (find_by_serial r s); [|done].
    rewrite serials_update; [by case_bool_decide|]. done.
  - unfold registry_step, add_forward, remove_forward.
    destruct (bind_local bind l) as [[[p c] b]|e|]; [|done|done]. by destruct (nb && _).
  - unfold registry_step, add_reverse. by destruct (nb && _).
Qed.

Fixpoint manager_run (r : TransportRegistry) (ops : list registry_op) : TransportRegistry * list TransportEvent :=
  match ops with
  | [] => (r, [])
  | op :: ops =>
      let '(r, evs) := manager_step r op in
      let '(r, evs') := manager_run r ops in (r, evs ++ evs')
  end.

Lemma manager_step_registry r op : fst (manager_step r op) = registry_step r op.
Proof.
  destruct op; cbn [manager_step registry_step]; try done.
Qed.

(** A listener that adds the serial of every connected event and removes that of every
    disconnected event has, after any operations of the manager, exactly the serials of the
    registry. *)
Theorem manager_events_complete enumerated ops :
  Forall is_manager_op ops ->
  let r := registry_new enumerated in
  fold_left listen (snd (manager_run r ops)) (serials r) = serials (fst (manager_run r ops)).
Proof.
  intros HF r. assert (registry_wf r) as Hr by apply registry_new_wf. clearbody r. revert r Hr.
  induction HF as [|op ops Hop HF IH]; intros r Hr; [done|]. cbn [manager_run].
  pose proof (manager_step_listen r op (proj1 Hr) Hop) as Hl.
  assert (~ serial_clash r op) as Hc by (intros Hc; destruct op; done).
  pose proof (registry_step_wf r op Hc Hr) as Hw. rewrite <- manager_step_registry in Hw.
  destruct (manager_step r op) as [r1 evs]. cbn [fst] in Hw. specialize (IH r1 Hw).
  destruct (manager_run r1 ops) as [r2 evs']. cbn [fst snd] in *. by rewrite fold_left_app, Hl, IH.
Qed.

Lemma manager_events_complete_witness :
  let ops := [RegisterUsb (B "A"); RegisterTcp (mk_addr (B "10.0.0.2") false 5555) (B "B");
              Unregister (B "A"); UnregisterAllTcp; RegisterUsb (B "C")] in
  fold_left listen (snd (manager_run (registry_new None) ops)) ∅ = {[ B "C" ]}.
Proof.
  intros ops. assert (Forall is_manager_op ops) as HF by (repeat constructor).
  pose proof (manager_events_complete None ops HF) as H. cbv zeta in H.
  change (serials (registry_new None)) with (∅ : gset bytes) in H. rewrite H.
  unfold serials. change (map serial (devices (fst (manager_run (registry_new None) ops)))) with [B "C"]. set_solver.
Defined.

(** ** The manager's refresh *)

(** The sections of the manager's refresh, when nothing comes between them. *)
Lemma manager_refresh_sections cs r :
  let before := map serial (List.filter (fun d => is_usb (origin d)) (devices r)) in
  let now := map candidate_serial cs in
  fst (manager_refresh_usb (Some cs) r) =
  registry_run r (map PushUsb (List.filter (fun s => negb (existsb (fun b => bool_decide (s = b)) before)) now) ++ [RetainUsb now]).
Proof.
  intros before now. unfold registry_run. rewrite fold_left_app. cbn [fold_left registry_step].
  unfold manager_refresh_usb. fold before now.
  assert (forall r evs, fst (fold_left (fun '(r, evs) c => let s := candidate_serial c in
      if existsb (fun b => bool_decide (s = b)) before then (r, evs) else (push_device s Usb r, evs ++ [Connected s Usb])) cs (r, evs)) =
    fold_left registry_step (map PushUsb (List.filter (fun s => negb (existsb (fun b => bool_decide (s = b)) before)) now)) r) as H.
  { unfold now. clear. induction cs as [|c cs IH]; intros r1 evs; [done|]. cbn [fold_left map List.filter].
    destruct (existsb _ before); cbn [negb map fold_left]; by rewrite IH. }
  specialize (H r []). destruct (fold_left _ cs (r, [])) as [r' evs]. cbn [fst] in *. by rewrite H.
Qed.

(** The two refreshes disagree on a device that is known by its TCP transport: the registry's
    own keeps one entry, while the manager's, which looks only at the USB entries, adds a second
    entry with the same serial, so that a lookup by serial no longer determines the device. *)
Theorem manager_refresh_duplicates r s addr :
  devices_wf r ->
  find_by_serial r s = Some (mk_device s (next_id r - 1) Device (Tcp addr) None None None None) ->
  let found := Some [mk_candidate (Some s) 1 1] in
  devices_wf (refresh_usb_devices found r) /\
  ~ devices_wf (fst (manager_refresh_usb found r)).
Proof.
  intros Hwf Hf found. split.
  { destruct (add_candidates_wf [mk_candidate (Some s) 1 1] r Hwf) as [Hw _].
    by apply devices_wf_filter. }
  apply find_by_serial_some in Hf as [Hin _]. destruct Hwf as (Hn & _).
  set (d := mk_device s (next_id r - 1) Device (Tcp addr) None None None None) in *.
  unfold found, manager_refresh_usb. cbn [map candidate_serial c_serial fold_left].
  assert (existsb (fun b => bool_decide (s = b)) (map serial (List.filter (fun d => is_usb (origin d)) (devices r))) = false) as ->.
  { destruct (existsb _ _) eqn:E; [|done]. apply existsb_exists in E as (b & Hb & <-%bool_decide_eq_true).
    apply list_elem_of_In, elem_of_map_filter in Hb as (x & Hx & Hu & Hs).
    assert (x = d) as -> by (by eapply (NoDup_map_inj serial)). done. }
  cbn [app fst]. intros (Hn' & _). rewrite (Permutation_map serial (retain_perm _ _)) in Hn'.
  cbn [devices push_device] in Hn'. rewrite List.filter_app, map_app in Hn'.
  apply list.NoDup_app in Hn' as (_ & Hd & _). apply (Hd s).
  - apply elem_of_map_filter. exists d. done.
  - cbn [List.filter is_usb origin serial existsb]. rewrite bool_decide_eq_true_2 by done. cbn. by left.
Qed.

Definition tcp_sample : SocketAddr := mk_addr (B "10.0.0.2") false 5555.

Lemma manager_refresh_duplicates_witness :
  let r := registry_step (registry_new None) (RegisterTcp tcp_sample (B "R5CT")) in
  ~ devices_wf (fst (manager_refresh_usb (Some [mk_candidate (Some (B "R5CT")) 1 1]) r)).
Proof.
  intros r.
  assert (devices_wf r) as Hwf by (apply registry_step_wf; [by intros ?|apply registry_new_wf]).
  assert (find_by_serial r (B "R5CT") = Some (mk_device (B "R5CT") (next_id r - 1) Device (Tcp tcp_sample) None None None None)) as Hf
    by reflexivity.
  exact (proj2 (manager_refresh_duplicates r (B "R5CT") tcp_sample Hwf Hf)).
Defined.

(** ** Rebinding *)

(** The system refuses a port that a listener holds: the port of a forward rule, whose listener
    runs until its flag is cleared. *)
Definition refuses_held (bind : Z -> res bytes Z) (r : TransportRegistry) : Prop :=
  forall f p, In f (forwards r) -> 0 <= p <= 65535 -> f_local f = B "tcp:" ++ fmt_dec p ->
    exists e, bind p = Err e.

(** A TCP forward cannot be moved to another remote end: the new listener is bound before the
    old rule is removed, so the request fails, with or without [no_rebind], and the table and
    the old rule stay as they were. *)
Theorem forward_rebind_fails bind r f p remote no_rebind :
  refuses_held bind r -> In f (forwards r) -> f_local f = B "tcp:" ++ fmt_dec p -> 0 <= p <= 65535 ->
  exists e, add_forward bind (f_local f) remote no_rebind r = (r, Err e).
Proof.
  intros Hb Hin Hf Hp. destruct (Hb f p Hin Hp Hf) as [e He]. unfold add_forward, bind_local. rewrite Hf.
  rewrite starts_with_app. cbn [orb]. rewrite strip_prefix_app, parse_fmt_dec by lia.
  cbn [ok_or res_bind]. rewrite He. cbn. by eexists.
Qed.

Lemma forward_rebind_fails_witness :
  let bind p := if p =? 8000 then Err (B "Address already in use") else Ok p in
  let r := registry_step (registry_new None) (AddForward Ok (B "tcp:8000") (B "tcp:1") false) in
  exists e, add_forward bind (B "tcp:8000") (B "tcp:2") false r = (r, Err e).
Proof.
  intros bind r.
  apply (forward_rebind_fails bind r (mk_forward default_serial (B "tcp:8000") (B "tcp:1") 0) 8000 (B "tcp:2") false).
  - intros f p [<-|[]] Hp E. exists (B "Address already in use"). unfold bind.
    assert (p = 8000) as ->; [|done].
    cbn [f_local] in E. pose proof (strip_prefix_app (B "tcp:") (fmt_dec p)) as Hs. rewrite <- E in Hs.
    assert (fmt_dec p = B "8000") as Hd by (injection Hs as Hs; by rewrite <- Hs).
    pose proof (parse_fmt_dec 65535 p ltac:(lia) ltac:(lia)) as H1. rewrite Hd in H1.
    change (parse_uint 10 65535 (B "8000")) with (Some 8000) in H1. congruence.
  - by left.
  - done.
  - lia.
Defined.

(** ** Parsing *)

(** The two ends of a rule are read back: separated by a semicolon, or by a colon after a first
    end of the form prefix and name. *)
Theorem spec_pair_roundtrip local remote p name :
  (";"%byte ∉ local) -> In p spec_prefixes -> (":"%byte ∉ name) -> (";"%byte ∉ name) -> (";"%byte ∉ remote) ->
  parse_spec_pair (local ++ B ";" ++ remote) = Some (local, remote) /\
  parse_spec_pair (p ++ name ++ B ":" ++ remote) = Some (p ++ name, remote).
Proof.
  intros Hl Hp Hn Hns Hr. split.
  { unfold parse_spec_pair. change (B ";" ++ remote) with (";"%byte :: remote). by rewrite split_once_app. }
  unfold parse_spec_pair.
  assert (";"%byte ∉ p) as Hps.
  { repeat (destruct Hp as [<-|Hp]; [by apply contains_false|]). done. }
  rewrite split_once_none.
  2: { change (B ":") with [":"%byte]. rewrite !elem_of_app, list_elem_of_singleton.
       by intros [?|[?|[?|?]]]. }
  assert (split_after_prefix spec_prefixes (p ++ name ++ B ":" ++ remote) = Some (p ++ name, remote)) as ->; [|done].
  assert (split_once ":"%byte (name ++ B ":" ++ remote) = Some (name, remote)) as Hs by (by apply split_once_app).
  cbn [spec_prefixes split_after_prefix].
  repeat (destruct Hp as [<-|Hp]; [repeat match goal with
    | |- context [strip_prefix ?q (?q ++ ?x)] => rewrite (strip_prefix_app q x), Hs; reflexivity
    | |- context [strip_prefix ?q ?x] => change (strip_prefix q x) with (@None bytes); cbn match
    end|]). done.
Qed.

Lemma spec_pair_roundtrip_witness :
  parse_spec_pair (B "tcp:8000;localabstract:x") = Some (B "tcp:8000", B "localabstract:x") /\
  parse_spec_pair (B "tcp:8000:tcp:9000") = Some (B "tcp:8000", B "tcp:9000").
Proof.
  assert (forall c s, contains c s = false -> c ∉ s) as Hc by (intros c s; apply contains_false).
  split.
  - apply (spec_pair_roundtrip (B "tcp:8000") (B "localabstract:x") (B "tcp:") []);
      [by apply Hc|by left|by apply Hc..].
  - apply (spec_pair_roundtrip [] (B "tcp:9000") (B "tcp:") (B "8000"));
      [by apply Hc|by left|by apply Hc..].
Defined.
