(* ===== verification/AuthKey.v ===== *)
(** * Keys and answers of the host authentication

    [adb-protocol/src/crypto/rsa_2048_key.rs]: the Android form of an RSA public key and its text;
    [crypto/key.rs]: token signatures, the AUTH messages and the order in which the keys are
    tried ([AuthResponder]).

    The RSA and base64 libraries are classes: keys with their parts, signing and verifying a
    digest, and a text encoding that can be decoded. *)
From S2P Require Import Prelude Text AdbHeader.

Inductive AuthError :=
| ARsa (msg : bytes)
| ABase64 (msg : bytes)
| AIo (msg : bytes)
| InvalidTokenLength (expected got : Z)
| InvalidPublicKeyFormat (msg : bytes)
| NotAuthMessage
| UnsupportedAuthType (t : Z).

(** [RsaPublicKey]: modulus and exponent. *)
Record RsaPublicKey := mk_key { key_n : Z; key_e : Z }.

(** The RSA library: [RsaPublicKey::new] with its checks, the public part of a private key, and
    PKCS#1 v1.5 signatures of a SHA-1 digest. *)
Class Rsa := {
  RsaPrivateKey : Type;
  rsa_public : RsaPrivateKey -> RsaPublicKey;
  rsa_new : Z -> Z -> res AuthError RsaPublicKey;
  sign_prehash : RsaPrivateKey -> bytes -> res bytes bytes;
  signature_of : bytes -> option bytes;
  verify_prehash : RsaPublicKey -> bytes -> bytes -> bool }.

(** What the library documents: a key is rebuilt from its parts, and a signature that was made is
    well-formed and verifies under the public part. *)
Class RsaLaws `{Rsa} := {
  rsa_parts_nonneg : forall k, 0 <= key_n (rsa_public k) /\ 0 <= key_e (rsa_public k);
  rsa_new_parts : forall k, rsa_new (key_n (rsa_public k)) (key_e (rsa_public k)) = Ok (rsa_public k);
  rsa_verifies : forall k t s, sign_prehash k t = Ok s ->
    exists s', signature_of s = Some s' /\ verify_prehash (rsa_public k) t s' = true }.

(** The base64 library (standard alphabet, with padding). *)
Class Base64 := {
  b64_encode : bytes -> bytes;
  b64_decode : bytes -> res bytes bytes }.

Class Base64Laws `{Base64} := {
  b64_empty : b64_encode [] = [];
  b64_roundtrip : forall bs, b64_decode (b64_encode bs) = Ok bs;
  b64_plain : forall bs, Forall plain (b64_encode bs) }.

(** ** The binary form ([rsa_2048_key.rs]) *)
Definition ANDROID_PUBKEY_ENCODED_SIZE : Z := 524.
Definition ANDROID_PUBKEY_MODULUS_SIZE : Z := 256.
Definition ANDROID_PUBKEY_MODULUS_SIZE_WORDS : Z := 64.

(** [BigUint::to_bytes_le] and [from_bytes_le]: no more bytes than needed, one for zero. *)
Definition byte_count (z : Z) : nat := Z.to_nat (Z.log2 z / 8 + 1).
Definition to_bytes_le (z : Z) : bytes := le_bytes (byte_count z) z.

(** [inv = inv.wrapping_mul(2u32.wrapping_sub(n0.wrapping_mul(inv)))]. *)
Definition inv_step (n0 inv : Z) : Z := wrap 32 (inv * wrap 32 (2 - wrap 32 (n0 * inv))).

Definition newton_inverse (n0 : Z) : Z := Nat.iter 5 (inv_step n0) 1.

(** [buf[..src.len()].copy_from_slice(src)] into a zeroed array of 256 bytes. *)
Definition into_array (src : bytes) : res AuthError bytes :=
  if zlen src <=? ANDROID_PUBKEY_MODULUS_SIZE
  then Ok (write_at 0 src (zrep ANDROID_PUBKEY_MODULUS_SIZE x00)) else Panic.

Definition encode_android_pubkey_binary (k : RsaPublicKey) : res AuthError bytes :=
  let n_bytes := to_bytes_le (key_n k) in
  if ANDROID_PUBKEY_MODULUS_SIZE <? zlen n_bytes
  then Err (InvalidPublicKeyFormat (B "Modulus size exceeds 2048 bits")) else
  let! modulus := into_array n_bytes in
  let! n0 := read_u32 modulus 0 in
  if n0 mod 2 =? 0 then Err (InvalidPublicKeyFormat (B "Modulus must be odd")) else
  let n0inv := wrap 32 (0 - newton_inverse n0) in
  let r := Z.shiftl 1 (ANDROID_PUBKEY_MODULUS_SIZE * 8) in
  let! rr := into_array (to_bytes_le ((r * r) mod key_n k)) in
  let e_bytes := to_bytes_le (key_e k) in
  let copy_len := Z.min (zlen e_bytes) 4 in
  let exponent := le_val (write_at 0 (slice 0 copy_len e_bytes) (zrep 4 x00)) in
  let buf := zrep ANDROID_PUBKEY_ENCODED_SIZE x00 in
  let buf := write_u32 0 ANDROID_PUBKEY_MODULUS_SIZE_WORDS buf in
  let buf := write_u32 4 n0inv buf in
  let buf := write_at 8 modulus buf in
  let buf := write_at 264 rr buf in
  Ok (write_u32 520 exponent buf).

(** ** The AUTH messages and the text form *)
Section Keys.
Context `{Rsa} `{Base64}.

Definition decode_android_pubkey_binary (buf : bytes) : res AuthError RsaPublicKey :=
  if zlen buf <? ANDROID_PUBKEY_ENCODED_SIZE
  then Err (InvalidPublicKeyFormat (B "Buffer too short for RSAPublicKey: expected "
              ++ fmt_dec ANDROID_PUBKEY_ENCODED_SIZE ++ B ", got " ++ fmt_dec (zlen buf))) else
  let! words := read_u32 buf 0 in
  if negb (words =? ANDROID_PUBKEY_MODULUS_SIZE_WORDS)
  then Err (InvalidPublicKeyFormat (B "Unsupported modulus size words: " ++ fmt_dec words)) else
  let! modulus_bytes := get_slice buf 8 264 in
  let! exponent := read_u32 buf 520 in
  rsa_new (le_val modulus_bytes) exponent.

(** [label.trim_matches(|c| c.is_whitespace() || c == '\0')]. *)
Definition front (s : bytes) : nat := match s with x00 :: _ => 1%nat | _ => ws_front s end.
Definition back (r : bytes) : nat := match r with x00 :: _ => 1%nat | _ => ws_back r end.

Fixpoint trim_go (len_of : bytes -> nat) (fuel : nat) (s : bytes) : bytes :=
  match fuel with
  | O => s
  | S fuel => match len_of s with O => s | n => trim_go len_of fuel (drop n s) end
  end.

Definition trim_label (s : bytes) : bytes :=
  let s := trim_go front (length s) s in reverse (trim_go back (length s) (reverse s)).

Definition encode_adb_public_key_string (k : RsaPublicKey) (label : bytes) : res AuthError bytes :=
  let! binary := encode_android_pubkey_binary k in
  Ok (b64_encode binary ++ B " " ++ trim_label label ++ [x00]).

(** [trim_matches(|c| c == '\0' || c == '\r' || c == '\n')]. *)
Definition is_end (b : byte) : bool := beqb b x00 || beqb b x0d || beqb b x0a.
Fixpoint drop_ends (s : bytes) : bytes :=
  match s with b :: t => if is_end b then drop_ends t else s | [] => [] end.
Definition trim_ends (s : bytes) : bytes := reverse (drop_ends (reverse (drop_ends s))).

(** [splitn(2, char::is_whitespace)]: the first part, and what follows the first white space. *)
Fixpoint split_ws (s : bytes) : bytes * option bytes :=
  match s with
  | [] => ([], None)
  | b :: t =>
      match ws_front s with
      | O => let '(p, q) := split_ws t in (b :: p, q)
      | n => ([], Some (drop n s))
      end
  end.

Definition parse_adb_public_key_string (key_str : bytes) : res AuthError (RsaPublicKey * bytes) :=
  let '(b64_part, rest) := split_ws (trim_ends key_str) in
  let label := match rest with Some l => trim l | None => [] end in
  let! binary := map_err ABase64 (b64_decode b64_part) in
  let! pubkey := decode_android_pubkey_binary binary in
  Ok (pubkey, label).

(** *** [key.rs] *)
Definition sign_token (k : RsaPrivateKey) (token : bytes) : res AuthError bytes :=
  if negb (zlen token =? 20) then Err (InvalidTokenLength 20 (zlen token)) else
  map_err (fun e => InvalidPublicKeyFormat (B "RSA prehash signing failed: " ++ e)) (sign_prehash k token).

Definition verify_token_signature (k : RsaPublicKey) (token signature : bytes) : res AuthError bool :=
  if negb (zlen token =? 20) then Err (InvalidTokenLength 20 (zlen token)) else
  let! sig := ok_or (signature_of signature) (InvalidPublicKeyFormat (B "Invalid signature length")) in
  Ok (verify_prehash k token sig).

Record AdbAuth := mk_auth { private_key : RsaPrivateKey; public_key : RsaPublicKey; label : bytes }.

Definition auth_new (k : RsaPrivateKey) (l : bytes) : AdbAuth := mk_auth k (rsa_public k) l.

Definition build_signature_payload (a : AdbAuth) (token : bytes) : res AuthError bytes :=
  sign_token (private_key a) token.

Definition build_rsakey_payload (a : AdbAuth) : res AuthError bytes :=
  encode_adb_public_key_string (public_key a) (label a).

Definition make_signature_message (a : AdbAuth) (token : bytes) : res AuthError (AdbMessageHeader * bytes) :=
  let! payload := build_signature_payload a token in
  Ok (Header.new_auth A_AUTH_SIGNATURE payload, payload).

Definition make_rsakey_message (a : AdbAuth) : res AuthError (AdbMessageHeader * bytes) :=
  let! payload := build_rsakey_payload a in
  Ok (Header.new_auth A_AUTH_RSAKEY payload, payload).

Record AuthResponder := mk_responder { keys : list AdbAuth; next_key : Z; pubkey_sent : bool }.

Definition from_key_list (ks : list AdbAuth) : AuthResponder := mk_responder ks 0 false.
Definition responder_single (k : AdbAuth) : AuthResponder := from_key_list [k].
Definition key_count (r : AuthResponder) : Z := zlen (keys r).

Definition respond_to_token (token : bytes) (r : AuthResponder)
    : AuthResponder * res AuthError (option (AdbMessageHeader * bytes)) :=
  let some m := let! m := m in Ok (Some m) in
  if next_key r <? zlen (keys r) then
    (mk_responder (keys r) (next_key r + 1) (pubkey_sent r),
     let! key := get_index (keys r) (next_key r) in some (make_signature_message key token))
  else if negb (pubkey_sent r) then
    (mk_responder (keys r) (next_key r) true,
     let! key := get_index (keys r) 0 in some (make_rsakey_message key))
  else
    match get_index (keys r) 0 with
    | Ok key => (mk_responder (keys r) 1 false, some (make_signature_message key token))
    | Err e => (mk_responder (keys r) 0 false, Err e)
    | Panic => (mk_responder (keys r) 0 false, Panic)
    end.

(** Answers to several tokens. *)
Fixpoint respond_all (tokens : list bytes) (r : AuthResponder)
    : list (res AuthError (option (AdbMessageHeader * bytes))) :=
  match tokens with
  | [] => []
  | t :: tokens => let '(r, a) := respond_to_token t r in a :: respond_all tokens r
  end.
End Keys.

(** ** The Montgomery constant

    Each round doubles the number of low bits that are right. *)
Lemma inv_step_doubles n0 inv j :
  0 <= j -> 2 * j <= 32 -> (2 ^ j | 1 - n0 * inv) -> (2 ^ (2 * j) | 1 - n0 * inv_step n0 inv).
Proof.
  intros Hj Hb [q Hq].
  assert (forall z, exists k, wrap 32 z = z + 2 ^ (2 * j) * k) as Hw.
  { intros z. exists (2 ^ (32 - 2 * j) * - (z / 2 ^ 32)). unfold wrap.
    pose proof (Z_div_mod_eq_full z (2 ^ 32)).
    rewrite Z.mul_assoc, <- Z.pow_add_r by lia. replace (2 * j + (32 - 2 * j)) with 32 by lia. lia. }
  unfold inv_step. destruct (Hw (n0 * inv)) as [a ->]. destruct (Hw (2 - (n0 * inv + 2 ^ (2 * j) * a))) as [b ->].
  set (m := 2 - (n0 * inv + 2 ^ (2 * j) * a) + 2 ^ (2 * j) * b).
  destruct (Hw (inv * m)) as [c ->]. unfold m.
  exists (q * q + n0 * inv * a - n0 * inv * b - n0 * c).
  replace (2 * j) with (j + j) by lia. rewrite Z.pow_add_r by lia.
  transitivity ((1 - n0 * inv) * (1 - n0 * inv) + 2 ^ j * 2 ^ j * (n0 * inv * a - n0 * inv * b - n0 * c)); [ring|].
  rewrite Hq. ring.
Qed.

Lemma newton_inverse_ok n0 : n0 mod 2 <> 0 -> (n0 * newton_inverse n0) mod 2 ^ 32 = 1.
Proof.
  intros Ho.
  assert (2 ^ 1 | 1 - n0 * 1) as H0.
  { exists (- (n0 / 2)). pose proof (Z_div_mod_eq_full n0 2). pose proof (Z.mod_pos_bound n0 2). lia. }
  do 5 (apply inv_step_doubles in H0; [cbn [Z.mul Pos.mul] in H0|lia|lia]).
  change (2 ^ 32 | 1 - n0 * newton_inverse n0) in H0. destruct H0 as [q Hq].
  replace (n0 * newton_inverse n0) with (1 + (- q) * 2 ^ 32) by lia.
  rewrite Z_mod_plus_full. done.
Qed.

(** ** The binary form *)
Lemma byte_count_bound z : 0 <= z -> z < 2 ^ (8 * Z.of_nat (byte_count z)).
Proof.
  intros Hz. unfold byte_count. destruct (decide (z = 0)) as [->|]; [done|].
  pose proof (Z.log2_nonneg z). pose proof (Z.div_pos (Z.log2 z) 8 ltac:(lia) ltac:(lia)). rewrite Z2Nat.id by lia.
  apply Z.log2_lt_pow2; [lia|]. pose proof (Z_div_mod_eq_full (Z.log2 z) 8).
  pose proof (Z.mod_pos_bound (Z.log2 z) 8 ltac:(lia)). lia.
Qed.

Lemma le_val_to_bytes z : 0 <= z -> le_val (to_bytes_le z) = z.
Proof. intros Hz. apply le_val_bytes_id. split; [done|]. by apply byte_count_bound. Qed.

Lemma zlen_to_bytes_le z n : 0 < n -> 0 <= z -> zlen (to_bytes_le z) <= n <-> z < 2 ^ (8 * n).
Proof.
  intros Hn Hz. unfold to_bytes_le. rewrite zlen_le_bytes. split.
  - intros Hle. eapply Z.lt_le_trans; [by apply byte_count_bound|]. apply Z.pow_le_mono_r; lia.
  - intros Hlt. unfold byte_count. destruct (decide (z = 0)) as [->|].
    { change (Z.of_nat (Z.to_nat (Z.log2 0 / 8 + 1))) with 1. lia. }
    pose proof (Z.log2_nonneg z). pose proof (Z.div_pos (Z.log2 z) 8 ltac:(lia) ltac:(lia)). rewrite Z2Nat.id by lia.
    apply Z.log2_lt_pow2 in Hlt; [|lia].
    assert (Z.log2 z / 8 < n) by (apply Z.div_lt_upper_bound; lia). lia.
Qed.

(** A value written into a zeroed array. *)
Lemma le_val_zeros n : le_val (zrep n x00) = 0.
Proof. unfold zrep. induction (Z.to_nat n) as [|m IH]; [done|]. cbn [replicate le_val]. by rewrite IH. Qed.

Lemma le_val_padded src n : zlen src <= n -> le_val (write_at 0 src (zrep n x00)) = le_val src.
Proof.
  intros Hl. pose proof (zlen_nonneg src). rewrite write_at_in by (rewrite ?zlen_zrep; lia).
  change (Z.to_nat 0) with 0%nat. rewrite take_0. cbn [app Nat.add]. unfold zrep. rewrite drop_replicate.
  rewrite le_val_app. pose proof (le_val_zeros (Z.of_nat (Z.to_nat n - length src))) as Hz.
  unfold zrep in Hz. rewrite Nat2Z.id in Hz. rewrite Hz. lia.
Qed.

Lemma into_array_ok z :
  0 <= z < 2 ^ 2048 ->
  into_array (to_bytes_le z) = Ok (write_at 0 (to_bytes_le z) (zrep 256 x00)) /\
  le_val (write_at 0 (to_bytes_le z) (zrep 256 x00)) = z /\
  zlen (write_at 0 (to_bytes_le z) (zrep 256 x00)) = 256.
Proof.
  intros Hz. assert (zlen (to_bytes_le z) <= 256) as Hl by (apply zlen_to_bytes_le; lia).
  unfold into_array, ANDROID_PUBKEY_MODULUS_SIZE. rewrite (proj2 (Z.leb_le _ _)) by done.
  rewrite le_val_padded, le_val_to_bytes by lia. split_and!; [done..|].
  rewrite zlen_write_at. by apply zlen_zrep.
Qed.

Lemma exponent_bytes e :
  0 <= e < 2 ^ 32 ->
  le_val (write_at 0 (slice 0 (Z.min (zlen (to_bytes_le e)) 4) (to_bytes_le e)) (zrep 4 x00)) = e.
Proof.
  intros He. assert (zlen (to_bytes_le e) <= 4) as Hl by (apply zlen_to_bytes_le; lia).
  rewrite Z.min_l by done. rewrite slice_full by lia. rewrite le_val_padded, le_val_to_bytes by lia. done.
Qed.

Lemma read_low_word (m : bytes) : zlen m = 256 -> @read_u32 AuthError m 0 = Ok (le_val m mod 2 ^ 32).
Proof.
  intros Hm. unfold read_u32. rewrite read_le_ok by lia. f_equal.
  assert (slice 0 (0 + 4) m = take 4 m) as Hs by done. change (0 + Z.of_nat 4) with (0 + 4). rewrite Hs.
  rewrite <- (take_drop 4 m) at 2. rewrite le_val_app.
  assert (zlen (take 4 m) = 4) as H4 by (unfold zlen in *; rewrite length_take; lia).
  rewrite H4. change (8 * 4) with 32. rewrite Z.mul_comm, Z_mod_plus_full.
  symmetry. apply Z.mod_small. pose proof (le_val_range (take 4 m)) as Hr. rewrite H4 in Hr. done.
Qed.

(** The Android form of a key: the number of words, the constant of Montgomery's method, the
    modulus, [2^4096] modulo it, and the exponent. *)
Definition android_pubkey (k : RsaPublicKey) (buf : bytes) : Prop :=
  zlen buf = 524 /\
  le_val (slice 0 4 buf) = 64 /\
  (key_n k * le_val (slice 4 8 buf)) mod 2 ^ 32 = 2 ^ 32 - 1 /\
  le_val (slice 8 264 buf) = key_n k /\
  le_val (slice 264 520 buf) = 2 ^ 4096 mod key_n k /\
  le_val (slice 520 524 buf) = key_e k.

Lemma encode_android_pubkey_ok k :
  0 <= key_n k < 2 ^ 2048 -> Z.Odd (key_n k) -> 0 <= key_e k < 2 ^ 32 ->
  exists buf, encode_android_pubkey_binary k = Ok buf /\ android_pubkey k buf.
Proof.
  intros Hn Ho He. unfold encode_android_pubkey_binary.
  assert (zlen (to_bytes_le (key_n k)) <= 256) as Hl by (apply zlen_to_bytes_le; lia).
  rewrite (proj2 (Z.ltb_ge _ _)) by done.
  destruct (into_array_ok (key_n k) Hn) as (-> & Hv & Hz). cbn [res_bind].
  set (modulus := write_at 0 (to_bytes_le (key_n k)) (zrep 256 x00)) in *.
  rewrite read_low_word, Hv by done. cbn [res_bind].
  assert (key_n k mod 2 ^ 32 mod 2 = 1) as Hodd.
  { destruct Ho as [q ->]. rewrite Z.mod_mod_divide by (by exists (2 ^ 31)).
    rewrite Z.add_comm, Z.mul_comm, Z_mod_plus_full. done. }
  rewrite Hodd. change (1 =? 0) with false. cbv iota.
  assert (0 < key_n k) as Hpos by (destruct Ho; lia).
  rewrite exponent_bytes by done.
  change (Z.shiftl 1 (ANDROID_PUBKEY_MODULUS_SIZE * 8) * Z.shiftl 1 (ANDROID_PUBKEY_MODULUS_SIZE * 8))
    with (Z.shiftl 1 2048 * Z.shiftl 1 2048).
  rewrite Z.shiftl_1_l, <- Z.pow_add_r by lia. change (2048 + 2048) with 4096.
  pose proof (Z.mod_pos_bound (2 ^ 4096) (key_n k) Hpos) as Hrr.
  destruct (into_array_ok (2 ^ 4096 mod key_n k)) as (-> & Hv2 & Hz2); [lia|]. cbn [res_bind].
  set (rr := write_at 0 (to_bytes_le _) (zrep 256 x00)) in *.
  eexists. split; [reflexivity|].
  assert (wrap 32 (0 - newton_inverse (key_n k mod 2 ^ 32)) = (- newton_inverse (key_n k mod 2 ^ 32)) mod 2 ^ 32)
    as Hinv by done.
  pose proof (Z.mod_pos_bound (- newton_inverse (key_n k mod 2 ^ 32)) (2 ^ 32) ltac:(lia)) as Hir.
  unfold android_pubkey, ANDROID_PUBKEY_ENCODED_SIZE, ANDROID_PUBKEY_MODULUS_SIZE_WORDS, write_u32.
  rewrite Hinv. clear Hinv.
  set (n0inv := (- newton_inverse (key_n k mod 2 ^ 32)) mod 2 ^ 32) in *.
  split_and!.
  - by rewrite !zlen_write_at, zlen_zrep.
  - wire_slice. by rewrite le_val_bytes_id.
  - wire_slice. rewrite le_val_bytes_id by done. unfold n0inv.
    pose proof (newton_inverse_ok (key_n k mod 2 ^ 32) ltac:(lia)) as HN.
    rewrite Z.mul_mod_idemp_r, Z.mul_opp_r by lia. rewrite Z.mul_mod_idemp_l in HN by lia.
    rewrite Z_mod_nz_opp_full; [by rewrite HN|by rewrite HN].
  - wire_slice. done.
  - wire_slice. done.
  - wire_slice. by rewrite le_val_bytes_id.
Qed.

Section KeyTheorems.
Context `{Rsa} `{Base64}.

Lemma decode_android_pubkey k buf :
  android_pubkey k buf -> decode_android_pubkey_binary buf = rsa_new (key_n k) (key_e k).
Proof.
  intros (Hl & Hw & _ & Hn & _ & He). unfold decode_android_pubkey_binary, ANDROID_PUBKEY_ENCODED_SIZE, read_u32.
  rewrite Hl. change (524 <? 524) with false. cbv iota.
  rewrite read_le_ok by lia. change (0 + Z.of_nat 4) with 4. rewrite Hw. cbn [res_bind].
  change (negb (64 =? ANDROID_PUBKEY_MODULUS_SIZE_WORDS)) with false. cbv iota.
  rewrite get_slice_ok by lia. cbn [res_bind].
  rewrite read_le_ok by lia. change (520 + Z.of_nat 4) with 524. rewrite Hn, He. done.
Qed.

(** C25: A public key has an Android form exactly when its modulus has at most 2048 bits and is odd (the
    exponent has 32 bits); the form holds modulus and exponent, [2^4096] modulo the modulus and
    the negated inverse of its low word, and it is decoded to the key it came from. *)
Theorem android_pubkey_form k :
  0 <= key_n k -> 0 <= key_e k < 2 ^ 32 ->
  (2 ^ 2048 <= key_n k -> encode_android_pubkey_binary k =
     Err (InvalidPublicKeyFormat (B "Modulus size exceeds 2048 bits"))) /\
  (key_n k < 2 ^ 2048 -> Z.Even (key_n k) -> encode_android_pubkey_binary k =
     Err (InvalidPublicKeyFormat (B "Modulus must be odd"))) /\
  (key_n k < 2 ^ 2048 -> Z.Odd (key_n k) -> exists buf,
     encode_android_pubkey_binary k = Ok buf /\ android_pubkey k buf /\
     decode_android_pubkey_binary buf = rsa_new (key_n k) (key_e k)).
Proof.
  intros Hn He. split_and!.
  - intros Hbig. unfold encode_android_pubkey_binary, ANDROID_PUBKEY_MODULUS_SIZE.
    destruct (Z.ltb_spec 256 (zlen (to_bytes_le (key_n k)))) as [|Hle]; [done|].
    apply zlen_to_bytes_le in Hle; lia.
  - intros Hlt [q Hq]. unfold encode_android_pubkey_binary.
    rewrite (proj2 (Z.ltb_ge _ _)) by (unfold ANDROID_PUBKEY_MODULUS_SIZE; apply zlen_to_bytes_le; lia).
    destruct (into_array_ok (key_n k)) as (-> & Hv & Hz); [lia|]. cbn [res_bind].
    rewrite read_low_word, Hv by done. cbn [res_bind].
    assert (key_n k mod 2 ^ 32 mod 2 = 0) as ->; [|done].
    rewrite Z.mod_mod_divide by (by exists (2 ^ 31)).
    rewrite Hq, Z.mul_comm. apply Z_mod_mult.
  - intros Hlt Ho. destruct (encode_android_pubkey_ok k ltac:(lia) Ho He) as (buf & Hb & Hf).
    exists buf. split_and!; [done..|]. by apply decode_android_pubkey.
Qed.

(** ** The text form *)

(** A label that starts and ends with printable ASCII characters, or is empty. *)
Definition plain_ends (l : bytes) : Prop :=
  forall b, hd_error l = Some b \/ list.last l = Some b -> plain b.

Lemma head_reverse (l : bytes) : hd_error (reverse l) = list.last l.
Proof. induction l as [|b l _] using rev_ind; [done|]. by rewrite reverse_app, last_snoc. Qed.

Lemma ws_front_plain_head l : (forall b, hd_error l = Some b -> plain b) -> ws_front l = 0%nat /\ front l = 0%nat.
Proof.
  intros Hl. destruct l as [|b l]; [done|]. specialize (Hl b eq_refl).
  rewrite ws_front_plain by done. split; [done|]. unfold front. destruct b; try (by rewrite ws_front_plain).
  exfalso. unfold plain in Hl. change (b2z x00) with 0 in Hl. lia.
Qed.

Lemma ws_back_plain_head l : (forall b, hd_error l = Some b -> plain b) -> ws_back l = 0%nat /\ back l = 0%nat.
Proof.
  intros Hl. destruct l as [|b l]; [done|]. specialize (Hl b eq_refl).
  rewrite ws_back_plain by done. split; [done|]. unfold back. destruct b; try (by rewrite ws_back_plain).
  exfalso. unfold plain in Hl. change (b2z x00) with 0 in Hl. lia.
Qed.

Lemma trim_plain_ends l : plain_ends l -> trim l = l /\ trim_label l = l.
Proof.
  intros Hl.
  destruct (ws_front_plain_head l) as [F1 F2]; [intros; apply Hl; by left|].
  destruct (ws_back_plain_head (reverse l)) as [B1 B2]; [intros b; rewrite head_reverse; intros; apply Hl; by right|].
  assert (forall n, trim_start_go n l = l) as E1 by (intros [|n]; [done|]; cbn [trim_start_go]; by rewrite F1).
  assert (forall n, trim_end_go n (reverse l) = reverse l) as E2
    by (intros [|n]; [done|]; cbn [trim_end_go]; by rewrite B1).
  assert (forall n, trim_go front n l = l) as E3 by (intros [|n]; [done|]; cbn [trim_go]; by rewrite F2).
  assert (forall n, trim_go back n (reverse l) = reverse l) as E4
    by (intros [|n]; [done|]; cbn [trim_go]; by rewrite B2).
  unfold trim, trim_label. by rewrite E1, E3, E2, E4, !reverse_involutive.
Qed.

Lemma is_end_plain b : plain b -> is_end b = false.
Proof.
  intros Hb. unfold is_end. assert (forall c, b2z c <= 32 -> beqb b c = false) as Hc.
  { intros c Hc. apply beqb_false. intros ->. unfold plain in Hb. lia. }
  by rewrite !Hc.
Qed.

Lemma trim_ends_key p l :
  Forall plain p -> p <> [] -> plain_ends l -> trim_ends (p ++ B " " ++ l ++ [x00]) = p ++ B " " ++ l.
Proof.
  intros Hp Hne Hl. unfold trim_ends. destruct p as [|a p]; [done|].
  apply list.Forall_cons in Hp as [Ha _]. cbn [app drop_ends]. rewrite is_end_plain by done.
  replace (a :: p ++ B " " ++ l ++ [x00]) with ((a :: p ++ B " " ++ l) ++ [x00]) by (cbn; by rewrite <- !app_assoc).
  rewrite reverse_app. change (reverse [x00]) with [x00]. cbn [app drop_ends].
  change (is_end x00) with true. cbv iota.
  assert (forall s, (forall b, hd_error s = Some b -> is_end b = false) -> drop_ends s = s) as Hd.
  { intros [|b s] Hs; [done|]. cbn [drop_ends]. by rewrite Hs. }
  rewrite Hd; [by rewrite reverse_involutive|]. intros b. rewrite head_reverse.
  destruct l as [|b' l' _] using rev_ind.
  - rewrite app_nil_r. change (a :: p ++ B " ") with ((a :: p) ++ [" "%byte]). rewrite last_snoc. by intros [= <-].
  - rewrite app_assoc, app_comm_cons, app_assoc, last_snoc. intros [= <-].
    apply is_end_plain, Hl. right. by rewrite last_snoc.
Qed.

Lemma split_ws_key p l : Forall plain p -> split_ws (p ++ B " " ++ l) = (p, Some l).
Proof.
  induction 1 as [|b p Hb Hp IH]; [done|]. cbn [app split_ws]. rewrite ws_front_plain by done.
  by rewrite IH.
Qed.

Context `{!RsaLaws} `{!Base64Laws}.

(** A private key whose public part has an Android form. *)
Definition android_key (k : RsaPrivateKey) : Prop :=
  key_n (rsa_public k) < 2 ^ 2048 /\ Z.Odd (key_n (rsa_public k)) /\ key_e (rsa_public k) < 2 ^ 32.

Lemma b64_nonempty bs : bs <> [] -> b64_encode bs <> [].
Proof.
  intros Hb E. pose proof (b64_roundtrip bs) as Hr. rewrite E in Hr.
  pose proof (b64_roundtrip []) as Hr0. rewrite b64_empty in Hr0. congruence.
Qed.

Lemma rsakey_payload k l :
  android_key k -> plain_ends l -> exists p, build_rsakey_payload (auth_new k l) = Ok p /\
    parse_adb_public_key_string p = Ok (rsa_public k, l).
Proof.
  intros (Hn & Ho & He) Hl. destruct (rsa_parts_nonneg k) as [Hn0 He0].
  destruct (encode_android_pubkey_ok (rsa_public k)) as (buf & Hb & Hf); [lia|done|lia|].
  destruct (trim_plain_ends l Hl) as [Ht Ht'].
  unfold build_rsakey_payload, encode_adb_public_key_string. cbn [public_key label auth_new].
  rewrite Hb. cbn [res_bind]. rewrite Ht'. eexists. split; [done|].
  assert (buf <> []) as Hne by (intros ->; by destruct Hf as [Hz _]).
  unfold parse_adb_public_key_string.
  rewrite trim_ends_key by (first [apply b64_plain | by apply b64_nonempty | done]).
  rewrite split_ws_key by apply b64_plain. rewrite b64_roundtrip. cbn [map_err res_bind].
  rewrite (decode_android_pubkey _ _ Hf), rsa_new_parts, Ht. done.
Qed.

(** ** The order of the answers *)

(** The answer to the [i]-th token of a session with the keys [ks]: a round has a signature of
    each key and then the first key's public part. *)
Definition scheduled (ks : list AdbAuth) (i : nat) (token : bytes)
    : res AuthError (option (AdbMessageHeader * bytes)) :=
  let j := (i mod S (length ks))%nat in
  match ks !! j with
  | Some key => let! m := make_signature_message key token in Ok (Some m)
  | None =>
      match ks with
      | key :: _ => let! m := make_rsakey_message key in Ok (Some m)
      | [] => Panic
      end
  end.

(** Where a responder stands in its round. *)
Definition at_step (ks : list AdbAuth) (i : nat) (r : AuthResponder) : Prop :=
  keys r = ks /\
  let j := (i mod S (length ks))%nat in
  (next_key r = Z.of_nat j /\ pubkey_sent r = false) \/
  (j = 0%nat /\ next_key r = zlen ks /\ pubkey_sent r = true).

Lemma mod_succ i n : (S i mod S n = if decide (i mod S n = n) then 0 else S (i mod S n))%nat.
Proof.
  pose proof (Nat.mod_upper_bound i (S n) ltac:(lia)) as Hb.
  assert (S i = (i / S n) * S n + S (i mod S n))%nat as E by (pose proof (Nat.div_mod_eq i (S n)); lia).
  rewrite E, Nat.add_comm, Nat.Div0.mod_add.
  destruct (decide (i mod S n = n)%nat) as [->|].
  - by rewrite Nat.Div0.mod_same.
  - apply Nat.mod_small. lia.
Qed.

Lemma respond_step ks i token r :
  ks <> [] -> at_step ks i r ->
  exists r', respond_to_token token r = (r', scheduled ks i token) /\ at_step ks (S i) r'.
Proof.
  intros Hne (Hk & Hs). unfold respond_to_token, scheduled, at_step in *. rewrite Hk, mod_succ. clear Hk.
  pose proof (Nat.mod_upper_bound i (S (length ks)) ltac:(lia)) as Hb.
  set (j := (i mod S (length ks))%nat) in *. unfold zlen in *.
  assert (exists key ks', ks = key :: ks') as (key & ks' & Hks) by (destruct ks; [done|eauto]).
  destruct Hs as [(Hn & Hp)|(Hj & Hn & Hp)]; rewrite Hn, Hp; cbn [negb].
  - destruct (Z.ltb_spec (Z.of_nat j) (Z.of_nat (length ks))) as [Hlt|Hge].
    + destruct (lookup_lt_is_Some_2 ks j) as [k Hlk]; [lia|]. unfold get_index.
      rewrite (proj2 (Z.leb_le _ _)), Nat2Z.id, Hlk by lia. cbn [res_bind]. eexists. split; [reflexivity|].
      cbn [keys next_key pubkey_sent]. split; [done|]. left. rewrite decide_False by lia. split; [lia|done].
    + rewrite lookup_ge_None_2 by lia. subst ks. cbn [get_index Z.leb Z.to_nat].
      eexists. split; [reflexivity|]. cbn [keys next_key pubkey_sent]. split; [done|]. right.
      rewrite decide_True by (cbn [length] in *; lia). cbn [length] in *. lia.
  - rewrite Z.ltb_irrefl, Hj. subst ks. eexists. split; [reflexivity|].
    cbn [keys next_key pubkey_sent]. split; [done|]. left. by rewrite decide_False.
Qed.

Lemma respond_all_go ks : ks <> [] -> forall tokens i r,
  at_step ks i r -> respond_all tokens r = imap (fun j t => scheduled ks (i + j) t) tokens.
Proof.
  intros Hne. induction tokens as [|t tokens IH]; intros i r Hr; [done|]. cbn [respond_all imap].
  destruct (respond_step ks i t r Hne Hr) as (r' & -> & Hr'). cbn [fst]. rewrite Nat.add_0_r.
  f_equal. rewrite (IH (S i) r' Hr'). apply imap_ext. intros j x _. cbn. f_equal. lia.
Qed.

(** A host with at least one key answers the tokens of a device in rounds: a signature of each of
    its keys in order, then the public part of the first key, and again from the start. *)
Theorem auth_rotation ks tokens :
  ks <> [] -> respond_all tokens (from_key_list ks) = imap (scheduled ks) tokens.
Proof. intros Hne. apply (respond_all_go ks Hne tokens 0). split; [done|]. left. by rewrite Nat.Div0.mod_0_l. Qed.

(** After the host with one key has offered it, the device that reads the public key from that
    message accepts the host's next signature: the text is parsed to the key and the label, and
    the signature of the following token verifies under it. *)
Theorem auth_key_accepted k l t0 t1 t2 m0 s :
  android_key k -> plain_ends l -> zlen t0 = 20 -> zlen t2 = 20 ->
  sign_prehash k t0 = Ok m0 -> sign_prehash k t2 = Ok s ->
  exists h0 h1 p h2,
    respond_all [t0; t1; t2] (responder_single (auth_new k l)) =
      [Ok (Some (h0, m0)); Ok (Some (h1, p)); Ok (Some (h2, s))] /\
    Header.auth_type h1 = Some RsaKey /\ Header.auth_type h2 = Some Signature /\
    exists pk, parse_adb_public_key_string p = Ok (pk, l) /\ verify_token_signature pk t2 s = Ok true.
Proof.
  intros Hk Hl L0 L2 Hm Hs. destruct (rsakey_payload k l Hk Hl) as (p & Hp & Hparse).
  unfold responder_single. rewrite (respond_all_go [auth_new k l] ltac:(done) _ 0); [|split; [done|by left]].
  cbn [imap Nat.add compose].
  exists (Header.new_auth A_AUTH_SIGNATURE m0), (Header.new_auth A_AUTH_RSAKEY p), p, (Header.new_auth A_AUTH_SIGNATURE s).
  split_and!; [|done|done|].
  - unfold scheduled. cbn [length Nat.modulo Nat.divmod fst snd Nat.sub lookup list_lookup].
    unfold make_signature_message, build_signature_payload, sign_token. cbn [private_key auth_new].
    rewrite L0, L2, Hm, Hs. cbn [Z.eqb Pos.eqb negb map_err res_bind].
    unfold make_rsakey_message. rewrite Hp. done.
  - exists (rsa_public k). split; [done|]. destruct (rsa_verifies k t2 s Hs) as (s' & Hs' & Hv).
    unfold verify_token_signature. rewrite L2, Hs'. cbn. by rewrite Hv.
Qed.
End KeyTheorems.

(** ** Sample libraries *)
Module KeySample.
Definition sign_sample (t : bytes) : bytes := reverse t.

#[export] Instance sample_rsa : Rsa := {|
  RsaPrivateKey := unit;
  rsa_public _ := mk_key 3233 17;
  rsa_new n e := Ok (mk_key n e);
  sign_prehash _ t := Ok (sign_sample t);
  signature_of s := Some s;
  verify_prehash _ t s := bool_decide (s = sign_sample t) |}.

#[export] Instance sample_rsa_laws : RsaLaws.
Proof.
  split; [done|done|]. intros k t s [= <-]. exists (sign_sample t). split; [done|].
  by apply bool_decide_eq_true.
Qed.

Fixpoint hex_text (bs : bytes) : bytes :=
  match bs with [] => [] | b :: bs => digit_char (b2z b / 16) :: digit_char (b2z b mod 16) :: hex_text bs end.

Fixpoint unhex_text (bs : bytes) : res bytes bytes :=
  match bs with
  | [] => Ok []
  | a :: b :: bs =>
      match digit_val 16 a, digit_val 16 b with
      | Some h, Some l => let! t := unhex_text bs in Ok (z2b (16 * h + l) :: t)
      | _, _ => Err (B "invalid byte")
      end
  | _ => Err (B "invalid length")
  end.

#[export] Instance sample_base64 : Base64 := {| b64_encode := hex_text; b64_decode := unhex_text |}.

#[export] Instance sample_base64_laws : Base64Laws.
Proof.
  assert (forall b, 0 <= b2z b / 16 < 16 /\ 0 <= b2z b mod 16 < 16) as Hb.
  { intros b. pose proof (b2z_range b). pose proof (Z.mod_pos_bound (b2z b) 16 ltac:(lia)).
    split; [|lia]. split; [apply Z.div_pos; lia|apply Z.div_lt_upper_bound; lia]. }
  split; [done| |]; intros bs; cbn [b64_encode b64_decode sample_base64];
    induction bs as [|b bs IH]; cbn [hex_text unhex_text]; [done| |constructor|].
  - destruct (Hb b). rewrite !digit_val_char by lia. rewrite IH. cbn [res_bind].
    rewrite <- Z_div_mod_eq_full, z2b_b2z. done.
  - destruct (Hb b). constructor; [by apply digit_char_plain|]. constructor; [by apply digit_char_plain|done].
Qed.

Definition sample_key : RsaPrivateKey := tt.

Lemma android_pubkey_form_witness :
  exists buf, encode_android_pubkey_binary (mk_key 3233 17) = Ok buf /\ android_pubkey (mk_key 3233 17) buf /\
    decode_android_pubkey_binary buf = Ok (mk_key 3233 17).
Proof.
  destruct (android_pubkey_form (mk_key 3233 17)) as (_ & _ & Hf); [done|done|].
  apply Hf; [done|]. by exists 1616.
Defined.

Lemma auth_rotation_witness :
  let ks := [auth_new sample_key (B "a@b"); auth_new sample_key (B "c@d")] in
  let ts := [zrep 20 x01; zrep 20 x02; zrep 20 x03; zrep 20 x04] in
  respond_all ts (from_key_list ks) = imap (scheduled ks) ts.
Proof. intros ks ts. by apply auth_rotation. Defined.

Lemma auth_key_accepted_witness :
  exists h0 h1 p h2,
    respond_all [zrep 20 x01; zrep 20 x02; zrep 20 x03] (responder_single (auth_new sample_key (B "u@h"))) =
      [Ok (Some (h0, zrep 20 x01)); Ok (Some (h1, p)); Ok (Some (h2, zrep 20 x03))] /\
    Header.auth_type h1 = Some RsaKey /\ Header.auth_type h2 = Some Signature /\
    exists pk, parse_adb_public_key_string p = Ok (pk, B "u@h") /\
      verify_token_signature pk (zrep 20 x03) (zrep 20 x03) = Ok true.
Proof.
  apply (auth_key_accepted sample_key); try done.
  - split_and!; [done|by exists 1616|done].
  - intros b [E|E]; injection E as <-; done.
Defined.

(** A responder without keys panics at the first token. *)
Example no_keys_panics : snd (respond_to_token (zrep 20 x01) (from_key_list [])) = Panic.
Proof. done. Qed.
End KeySample.
