(* ===== verification/Handshake.v ===== *)
(** * The authentication handshake of the server

    [server/bridge.rs] ([tcp_auth_handshake]), [server/models.rs] ([ensure_usb_auth]) and
    [server/transport.rs] ([connect_to_remote], [connect_usb_device]): CNXN, then at most one
    signature and one public key in answer to tokens, until the device connects.

    The transport is any instance of [Transport]; the loop has a bound of four messages, and
    [auth_loop_bounded] shows that it never needs more. *)
From S2P Require Import Prelude Text AdbHeader Net AdbTransport AuthKey Registry.

(** [AuthError]'s [Display]. *)
Definition auth_error_text (e : AuthError) : bytes :=
  match e with
  | ARsa m => B "RSA crypto error: " ++ m
  | ABase64 m => B "Base64 error: " ++ m
  | AIo m => B "IO error: " ++ m
  | InvalidTokenLength x g => B "Invalid token length: expected " ++ fmt_dec x ++ B ", got " ++ fmt_dec g
  | InvalidPublicKeyFormat m => B "Invalid public key format: " ++ m
  | NotAuthMessage => B "Not an AUTH message"
  | UnsupportedAuthType t => B "Unsupported auth sub-type: " ++ fmt_dec t
  end.

(** [{:#010x}]. *)
Definition fmt_hex10 (z : Z) : bytes := B "0x" ++ fmt_hex_pad 8 z.

(** The texts in which the four copies of the loop differ. *)
Record Texts := mk_texts {
  unsupported_type : Z -> bytes;
  token_length : Z -> bytes;
  recv_failed : bytes;
  not_connected : Z -> bytes }.

Definition tcp_texts : Texts := {|
  unsupported_type a := B "Unsupported AUTH request type: " ++ fmt_dec a;
  token_length n := B "Invalid ADB AUTH token length: " ++ fmt_dec n;
  recv_failed := B "AUTH recv failed: ";
  not_connected cmd := B "Expected A_CNXN after AUTH, got cmd=" ++ fmt_hex0x cmd |}.

Definition usb_texts : Texts := {|
  unsupported_type a := B "unsupported AUTH request type: " ++ fmt_dec a;
  token_length n := B "invalid ADB AUTH token length: " ++ fmt_dec n ++ B " (expected 20)";
  recv_failed := B "AUTH recv failed: ";
  not_connected cmd := B "expected A_CNXN after AUTH, got cmd=" ++ fmt_hex10 cmd |}.

Definition remote_texts (addr : SocketAddr) : Texts := {|
  unsupported_type a := B "Unsupported AUTH request type from " ++ addr_string addr ++ B ": " ++ fmt_dec a;
  token_length n := B "Invalid ADB AUTH token length from " ++ addr_string addr ++ B ": " ++ fmt_dec n;
  recv_failed := B "CNXN response failed: ";
  not_connected cmd := B "expected A_CNXN or A_AUTH from adbd at " ++ addr_string addr ++ B ", got cmd=" ++ fmt_hex10 cmd |}.

Definition cnxn_payload : bytes := B "host::".
Definition cnxn_hdr : AdbMessageHeader := Header.new A_CNXN ADB_VERSION MAX_PAYLOAD_V2 cnxn_payload.

Definition rejected : bytes := B "adbd rejected the ADB RSA key after signature and public-key exchange".

Section Handshake.
Context `{Rsa} `{Base64} {T : Type} `{Transport T}.

Definition with_text {A} (pre : bytes) (r : res TransportError A) : res bytes A :=
  map_err (fun e => pre ++ transport_error_text e) r.

(** The answer to a token: [sent_signature] and [sent_public_key] with the message. *)
Definition auth_reply (auth : AdbAuth) (sig key : bool) (token : bytes)
    : res bytes (bool * bool * (AdbMessageHeader * bytes)) :=
  if negb sig then
    let! m := map_err (fun e => B "signature failed: " ++ auth_error_text e) (make_signature_message auth token) in
    Ok (true, key, m)
  else if negb key then
    let! m := map_err (fun e => B "rsakey failed: " ++ auth_error_text e) (make_rsakey_message auth) in
    Ok (sig, true, m)
  else Err rejected.

(** The loop, with the message just received: it ends with the first message that is not AUTH. *)
Fixpoint auth_loop (fuel : nat) (tx : Texts) (auth : AdbAuth) (sig key : bool) (m : AdbMessageHeader * bytes) (t : T)
    : T * res bytes (AdbMessageHeader * bytes) :=
  match fuel with
  | O => (t, Panic)
  | S fuel =>
      let '(hdr, payload) := m in
      if negb (command hdr =? A_AUTH) then (t, Ok m)
      else if negb (arg0 hdr =? A_AUTH_TOKEN) then (t, Err (unsupported_type tx (arg0 hdr)))
      else if negb (zlen payload =? 20) then (t, Err (token_length tx (zlen payload)))
      else
        match auth_reply auth sig key payload with
        | Ok (sig, key, (auth_hdr, auth_payload)) =>
            match t_send auth_hdr auth_payload t with
            | (t, Ok _) =>
                match t_recv t with
                | (t, Ok m) => auth_loop fuel tx auth sig key m t
                | (t, Err e) => (t, Err (recv_failed tx ++ transport_error_text e))
                | (t, Panic) => (t, Panic)
                end
            | (t, Err e) => (t, Err (B "AUTH send failed: " ++ transport_error_text e))
            | (t, Panic) => (t, Panic)
            end
        | Err e => (t, Err e)
        | Panic => (t, Panic)
        end
  end.

(** CNXN, the loop, and the check that the device has connected: the banner's bytes. *)
Definition handshake (tx : Texts) (send_failed first_failed : bytes) (auth : AdbAuth) (t : T) : T * res bytes bytes :=
  match t_send cnxn_hdr cnxn_payload t with
  | (t, Ok _) =>
      match t_recv t with
      | (t, Ok m) =>
          match auth_loop 4 tx auth false false m t with
          | (t, Ok (hdr, payload)) =>
              (t, if command hdr =? A_CNXN then Ok payload else Err (not_connected tx (command hdr)))
          | (t, Err e) => (t, Err e)
          | (t, Panic) => (t, Panic)
          end
      | (t, Err e) => (t, Err (first_failed ++ transport_error_text e))
      | (t, Panic) => (t, Panic)
      end
  | (t, Err e) => (t, Err (send_failed ++ transport_error_text e))
  | (t, Panic) => (t, Panic)
  end.

Definition tcp_auth_handshake (auth : AdbAuth) (t : T) : T * res bytes unit :=
  let '(t, r) := handshake tcp_texts (B "CNXN send failed: ") (B "CNXN recv failed: ") auth t in
  (t, let! _ := r in Ok tt).

(** [ensure_usb_auth]: [cache] is [usb_auth], from serials to authenticated transports. *)
Definition ensure_usb_auth (open : bytes -> res bytes T) (auth : AdbAuth) (s : bytes) (cache : gmap bytes T)
    : gmap bytes T * res bytes T :=
  match cache !! s with
  | Some existing => (cache, Ok existing)
  | None =>
      match open s with
      | Ok t =>
          match handshake tcp_texts (B "CNXN send failed: ") (B "CNXN recv failed: ") auth t with
          | (t, Ok _) => (<[s := t]> cache, Ok t)
          | (_, Err e) => (cache, Err e)
          | (_, Panic) => (cache, Panic)
          end
      | Err e => (cache, Err (B "Cannot open USB device '" ++ s ++ B "': " ++ e))
      | Panic => (cache, Panic)
      end
  end.

Definition connect_usb_device (open : bytes -> res bytes T) (auth : AdbAuth) (s : bytes) (r : TransportRegistry)
    : TransportRegistry * res bytes T :=
  match open s with
  | Ok t =>
      match handshake usb_texts (B "CNXN send failed: ") (B "CNXN recv failed: ") auth t with
      | (t, Ok payload) =>
          (set_devices (update_first (has_serial s)
             (fun d => record_banner (from_utf8_lossy payload) (set_state Device d)) (devices r)) r, Ok t)
      | (_, Err e) => (r, Err e)
      | (_, Panic) => (r, Panic)
      end
  | Err e => (r, Err (B "cannot open USB device '" ++ s ++ B "': " ++ e))
  | Panic => (r, Panic)
  end.

(** [connect_to_remote]; [open] is [TcpStream::connect]. *)
Definition connect_to_remote (open : SocketAddr -> res bytes T) (auth : AdbAuth) (addr : SocketAddr)
    (r : TransportRegistry) : TransportRegistry * res bytes T :=
  match open addr with
  | Ok t =>
      match handshake (remote_texts addr) (B "CNXN probe failed: ") (B "CNXN response failed: ") auth t with
      | (t, Ok payload) =>
          let s := addr_string addr in
          let r := upsert_tcp_device addr s r in
          (match payload with
           | [] => r
           | _ => set_devices (update_first (has_serial s) (record_banner (from_utf8_lossy payload)) (devices r)) r
           end, Ok t)
      | (_, Err e) => (r, Err e)
      | (_, Panic) => (r, Panic)
      end
  | Err e => (r, Err (B "cannot connect to device at " ++ addr_string addr ++ B ": " ++ e))
  | Panic => (r, Panic)
  end.
End Handshake.

(** ** The loop is bounded *)
Section Bounded.
Context `{Rsa} `{Base64} {T : Type} `{Transport T}.

(** Messages the loop can still answer. *)
Definition replies_left (sig key : bool) : nat := if sig then (if key then 0 else 1) else (if key then 1 else 2).

Lemma auth_reply_left auth sig key token sig' key' m :
  auth_reply auth sig key token = Ok (sig', key', m) ->
  replies_left sig key = S (replies_left sig' key').
Proof.
  unfold auth_reply. destruct sig, key; cbn [negb]; try done; intros E; res_inv E; simplify_eq; done.
Qed.

(** Fuel for more messages than there are answers left does not change the outcome. *)
Lemma auth_loop_bounded tx auth : forall n n' sig key m t,
  (replies_left sig key < n)%nat -> (replies_left sig key < n')%nat ->
  auth_loop n tx auth sig key m t = auth_loop n' tx auth sig key m t.
Proof.
  induction n as [|n IH]; intros n' sig key m t Hn Hn'; [lia|]. destruct n' as [|n']; [lia|].
  destruct m as [hdr payload]. cbn [auth_loop].
  destruct (negb _); [done|]. destruct (negb _); [done|]. destruct (negb _); [done|].
  destruct (auth_reply auth sig key payload) as [[[sig' key'] [ah ap]]|e|] eqn:Er; [|done|done].
  apply auth_reply_left in Er.
  destruct (t_send ah ap t) as [t1 [u|e|]]; [|done|done].
  destruct (t_recv t1) as [t2 [m'|e|]]; [|done|done]. apply IH; lia.
Qed.
End Bounded.

(** ** Over a byte stream *)
Section Script.
Context `{Rsa} `{Base64}.
Variables (tx : Texts) (auth : AdbAuth) (sig_of : bytes -> bytes) (key_text : bytes).
Hypothesis signs : forall t, zlen t = 20 -> build_signature_payload auth t = Ok (sig_of t).
Hypothesis has_key : build_rsakey_payload auth = Ok key_text.

Definition token_msg (t : bytes) : AdbMessageHeader * bytes := (Header.new_auth A_AUTH_TOKEN t, t).
Definition signature_msg (t : bytes) : AdbMessageHeader * bytes :=
  (Header.new_auth A_AUTH_SIGNATURE (sig_of t), sig_of t).
Definition key_msg : AdbMessageHeader * bytes := (Header.new_auth A_AUTH_RSAKEY key_text, key_text).
Definition connect_msg (version maxdata : Z) (banner : bytes) : AdbMessageHeader * bytes :=
  (Header.new A_CNXN version maxdata banner, banner).

(** What the host sends after CNXN, for the tokens it gets: one signature, then one public key. *)
Definition answers (ts : list bytes) : list (AdbMessageHeader * bytes) :=
  match ts with
  | [] => []
  | [t] => [signature_msg t]
  | t :: _ :: _ => [signature_msg t; key_msg]
  end.

Lemma new_message_ok cmd a0 a1 p :
  u32 cmd -> u32 a0 -> u32 a1 -> zlen p <= MAX_PAYLOAD_V2 -> message_ok (Header.new cmd a0 a1 p, p).
Proof.
  intros H1 H2 H3 Hl. pose proof (zlen_nonneg p). unfold MAX_PAYLOAD_V2 in Hl.
  assert (wrap 32 (zlen p) = zlen p) as Hw by (apply wrap_small; unfold uint; lia).
  unfold message_ok, Header.new, Header.wf, Header.typed, Header.verify_payload.
  cbn [fst snd command arg0 arg1 data_length data_check magic]. rewrite Hw, Z.eqb_refl.
  split_and!; try done; [unfold u32, uint; lia|].
  unfold Header.magic_of, u32, uint. split; [apply Z.lxor_nonneg; unfold u32, uint in *; lia|].
  destruct (Z.eq_dec (Z.lxor cmd 0xFFFFFFFF) 0) as [->|]; [lia|]. apply Z.log2_lt_pow2.
  - assert (0 <= Z.lxor cmd 0xFFFFFFFF) by (apply Z.lxor_nonneg; unfold u32, uint in *; lia). lia.
  - eapply Z.le_lt_trans; [apply Z.log2_lxor; unfold u32, uint in *; lia|].
    apply Z.max_lub_lt; [|done]. destruct (Z.eq_dec cmd 0) as [->|]; [done|].
    apply Z.log2_lt_pow2; unfold u32, uint in *; lia.
Qed.

Lemma token_msg_ok t : zlen t = 20 -> message_ok (token_msg t).
Proof. intros Ht. apply new_message_ok; [done|done|done|]. rewrite Ht. done. Qed.

(** A token is answered, and the next message is read. *)
Lemma auth_loop_token fuel (sig : bool) t m c rest :
  zlen t = 20 -> wfail c = None -> message_ok m -> arrives (incoming c) (message_bytes m ++ rest) ->
  exists q, arrives q rest /\
    auth_loop (S fuel) tx auth sig false (token_msg t) c =
    auth_loop fuel tx auth true sig m
      (mk_conn q (outgoing c ++ message_bytes (if sig then key_msg else signature_msg t)) None).
Proof.
  intros Ht Hw Hm Ha. destruct (recv_message_arrives _ _ _ Hm Ha) as (q & Hr & Hq). exists q. split; [done|].
  cbn [auth_loop token_msg]. change (command (Header.new_auth A_AUTH_TOKEN t)) with A_AUTH.
  change (arg0 (Header.new_auth A_AUTH_TOKEN t)) with A_AUTH_TOKEN. rewrite !Z.eqb_refl, Ht. cbn [negb Z.eqb Pos.eqb].
  assert (auth_reply auth sig false t = Ok (true, sig, if sig then key_msg else signature_msg t)) as ->.
  { unfold auth_reply, make_signature_message, make_rsakey_message. rewrite signs, has_key by done.
    by destruct sig. }
  destruct (if sig then key_msg else signature_msg t) as [ah ap] eqn:Em.
  cbn [t_send t_recv TcpTransport]. rewrite send_message_out by done. unfold conn_recv. cbn [incoming].
  rewrite Hr. done.
Qed.

Lemma auth_loop_rejected fuel t c :
  zlen t = 20 -> auth_loop (S fuel) tx auth true true (token_msg t) c = (c, Err rejected).
Proof. intros Ht. cbn [auth_loop token_msg]. rewrite Ht. done. Qed.

Lemma auth_loop_connected fuel sig key v mx b (c : Conn) :
  auth_loop (S fuel) tx auth sig key (connect_msg v mx b) c = (c, Ok (connect_msg v mx b)).
Proof. done. Qed.

(** The messages of the device: tokens, then a connection. *)
Definition device_says (ts : list bytes) (v mx : Z) (banner : bytes) : bytes :=
  concat (map message_bytes (map token_msg ts ++ [connect_msg v mx banner])).

(** The handshake over a stream, for any number of tokens. *)
Lemma handshake_script sf ff ts v mx banner c rest :
  Forall (fun t => zlen t = 20) ts -> u32 v -> u32 mx -> zlen banner <= MAX_PAYLOAD_V2 ->
  wfail c = None -> arrives (incoming c) (device_says ts v mx banner ++ rest) ->
  exists q, handshake tx sf ff auth c =
      (mk_conn q (outgoing c ++ concat (map message_bytes ((cnxn_hdr, cnxn_payload) :: answers ts))) None,
       if Nat.leb (length ts) 2 then Ok banner else Err rejected) /\
    (Nat.leb (length ts) 2 = true -> arrives q rest).
Proof.
  intros Hts Hv Hmx Hb Hw Ha. unfold handshake. cbn [t_send t_recv TcpTransport].
  rewrite send_message_out by done. unfold conn_recv. cbn [incoming].
  assert (message_ok (connect_msg v mx banner)) as Hcm by (by apply new_message_ok).
  unfold device_says in Ha.
  destruct ts as [|t0 [|t1 [|t2 ts]]]; cbn [map concat app length Nat.leb answers] in *;
    rewrite ?app_nil_r, <- ?app_assoc in Ha.
  - destruct (recv_message_arrives _ _ _ Hcm Ha) as (q & -> & Hq). exists q.
    rewrite auth_loop_connected. cbn. by rewrite app_nil_r.
  - apply list.Forall_cons in Hts as [H0' _].
    destruct (recv_message_arrives _ _ _ (token_msg_ok _ H0') Ha) as (q & -> & Hq).
    destruct (auth_loop_token 3 false t0 (connect_msg v mx banner)
      (set_incoming q (mk_conn (incoming c) (outgoing c ++ message_bytes (cnxn_hdr, cnxn_payload)) None)) rest)
      as (q' & Hq' & ->); [done..|].
    rewrite auth_loop_connected. exists q'. cbn [outgoing set_incoming]. rewrite app_nil_r, <- app_assoc. done.
  - apply list.Forall_cons in Hts as [H0' Hts]. apply list.Forall_cons in Hts as [H1' _].
    destruct (recv_message_arrives _ _ _ (token_msg_ok _ H0') Ha) as (q & -> & Hq).
    edestruct (auth_loop_token 3 false t0 (token_msg t1)
      (set_incoming q (mk_conn (incoming c) (outgoing c ++ message_bytes (cnxn_hdr, cnxn_payload)) None)))
      as (q1 & Hq1 & ->); [done|done|by apply token_msg_ok|exact Hq|].
    edestruct (auth_loop_token 2 true t1 (connect_msg v mx banner)) as (q2 & Hq2 & ->); [done|done|done|exact Hq1|].
    rewrite auth_loop_connected. exists q2. cbn [outgoing set_incoming]. rewrite app_nil_r, <- !app_assoc. done.
  - apply list.Forall_cons in Hts as [H0' Hts]. apply list.Forall_cons in Hts as [H1' Hts].
    apply list.Forall_cons in Hts as [H2' _].
    destruct (recv_message_arrives _ _ _ (token_msg_ok _ H0') Ha) as (q & -> & Hq).
    edestruct (auth_loop_token 3 false t0 (token_msg t1)
      (set_incoming q (mk_conn (incoming c) (outgoing c ++ message_bytes (cnxn_hdr, cnxn_payload)) None)))
      as (q1 & Hq1 & ->); [done|done|by apply token_msg_ok|exact Hq|].
    edestruct (auth_loop_token 2 true t1 (token_msg t2)) as (q2 & Hq2 & ->);
      [done|done|by apply token_msg_ok|exact Hq1|].
    rewrite auth_loop_rejected by done. exists q2. cbn [outgoing set_incoming]. rewrite app_nil_r, <- !app_assoc. done.
Qed.
End Script.

(** ** The registry after a connection *)

Lemma has_serial_false s d : serial d <> s -> has_serial s d = false.
Proof. unfold has_serial. apply bool_decide_eq_false_2. Qed.

Lemma find_update s f l s' :
  keeps_ids f ->
  find (has_serial s') (update_first (has_serial s) f l) =
  if decide (s' = s) then option_map f (find (has_serial s) l) else find (has_serial s') l.
Proof.
  intros Hf. induction l as [|d l IH]; cbn [update_first find]; [by destruct (decide _)|].
  destruct (has_serial s d) eqn:Hd; cbn [find].
  - assert (has_serial s' (f d) = has_serial s' d) as -> by (unfold has_serial; by rewrite (proj1 (Hf d))).
    destruct (decide (s' = s)) as [->|Hne]; [by rewrite Hd|].
    apply has_serial_true in Hd. by rewrite has_serial_false by congruence.
  - destruct (decide (s' = s)) as [->|Hne]; [by rewrite Hd|]. by destruct (has_serial s' d).
Qed.

Lemma find_push s o r s' :
  s ∉ map serial (devices r) ->
  find_by_serial (push_device s o r) s' =
  if decide (s' = s) then Some (mk_device s (next_id r) Device o None None None None) else find_by_serial r s'.
Proof.
  intros Hs. apply find_by_serial_none in Hs. unfold find_by_serial, push_device in *. cbn [devices].
  rewrite find_snoc. destruct (decide (s' = s)) as [->|Hne].
  - rewrite Hs. by rewrite (proj2 (has_serial_true _ _)).
  - rewrite has_serial_false by (cbn; congruence). by destruct (find (has_serial s') (devices r)).
Qed.

Lemma keeps_ids_comp f g : keeps_ids f -> keeps_ids g -> keeps_ids (fun d => f (g d)).
Proof. intros Hf Hg d. destruct (Hf (g d)) as [-> ->]. apply Hg. Qed.

Lemma banner_features banner d :
  let d' := record_banner banner d in
  transport_features d' = Some banner /\ state d' = state d /\ origin d' = origin d.
Proof.
  cbv zeta. unfold record_banner.
  assert (forall parts e, transport_features (fold_left banner_property parts e) = transport_features e /\
    state (fold_left banner_property parts e) = state e /\ origin (fold_left banner_property parts e) = origin e) as H.
  { induction parts as [|p parts IH]; intros e; [done|]. cbn [fold_left].
    destruct (IH (banner_property e p)) as (-> & -> & ->). unfold banner_property.
    destruct (split_once _ p) as [[k v]|]; [|done]. by repeat case_match. }
  by destruct (H (split_on ";"%byte (trim banner)) (set_features banner d)) as (-> & -> & ->).
Qed.

Lemma upsert_find addr s r s' :
  match find_by_serial (upsert_tcp_device addr s r) s' with
  | Some d => if decide (s' = s) then state d = Device /\ origin d = Tcp addr else find_by_serial r s' = Some d
  | None => s' <> s /\ find_by_serial r s' = None
  end.
Proof.
  unfold upsert_tcp_device. destruct (find_by_serial r s) as [d|] eqn:Hf.
  - unfold find_by_serial in *. cbn [devices set_devices].
    rewrite find_update by (intros e; done).
    destruct (decide (s' = s)) as [->|]; [by rewrite Hf|].
    by destruct (find (has_serial s') (devices r)).
  - apply find_by_serial_none in Hf. rewrite find_push by done.
    destruct (decide (s' = s)) as [->|]; [done|]. by destruct (find_by_serial r s').
Qed.

(** The device list of a registry after [connect_to_remote] has registered [addr]. *)
Definition connected (addr : SocketAddr) (banner : bytes) (r r' : TransportRegistry) : Prop :=
  devices_wf r' /\ same_rules r r' /\
  (exists d, find_by_serial r' (addr_string addr) = Some d /\ state d = Device /\ origin d = Tcp addr /\
     (banner <> [] -> transport_features d = Some (from_utf8_lossy banner))) /\
  (forall s, s <> addr_string addr -> find_by_serial r' s = find_by_serial r s).

Lemma register_connected addr payload r :
  devices_wf r ->
  connected addr payload r
    (let r := upsert_tcp_device addr (addr_string addr) r in
     match payload with
     | [] => r
     | _ => set_devices (update_first (has_serial (addr_string addr)) (record_banner (from_utf8_lossy payload)) (devices r)) r
     end).
Proof.
  intros Hw. cbv zeta. set (s := addr_string addr). set (r1 := upsert_tcp_device addr s r).
  assert (devices_wf r1) as Hw1 by (by apply upsert_wf).
  pose proof (upsert_rules addr s r) as Hr1. fold r1 in Hr1.
  assert (exists d, find_by_serial r1 s = Some d /\ state d = Device /\ origin d = Tcp addr) as (d & Hd & Hst & Ho).
  { pose proof (upsert_find addr s r s) as Hu. fold r1 in Hu. destruct (find_by_serial r1 s) as [d|]; [|by destruct Hu].
    rewrite decide_True in Hu by done. destruct Hu. by exists d. }
  assert (forall s', s' <> s -> find_by_serial r1 s' = find_by_serial r s') as Hother.
  { intros s' Hne. pose proof (upsert_find addr s r s') as Hu. fold r1 in Hu.
    destruct (find_by_serial r1 s') as [e|]; [|by destruct Hu as [_ ->]]. by rewrite decide_False in Hu. }
  destruct payload as [|b p]; [split_and!; [done|done|by exists d|done]|].
  set (f := record_banner (from_utf8_lossy (b :: p))).
  assert (keeps_ids f) as Hf by apply banner_keeps_ids.
  destruct (banner_features (from_utf8_lossy (b :: p)) d) as (E1 & E2 & E3).
  split_and!; [by apply devices_wf_update|done| |].
  - exists (f d). unfold find_by_serial in *. cbn [devices set_devices].
    rewrite find_update, decide_True, Hd by done. fold s. unfold f. by rewrite E1, E2, E3.
  - intros s' Hne. unfold find_by_serial. cbn [devices set_devices]. rewrite find_update, decide_False by done.
    apply Hother. done.
Qed.

Section Connect.
Context `{Rsa} `{Base64}.
Variables (auth : AdbAuth) (sig_of : bytes -> bytes) (key_text : bytes).
Hypothesis signs : forall t, zlen t = 20 -> build_signature_payload auth t = Ok (sig_of t).
Hypothesis has_key : build_rsakey_payload auth = Ok key_text.

(** C11: The handshake with a device that sends tokens and then connects: with at most two tokens it
    succeeds, having sent CNXN, a signature of the first token and the public key for the second,
    and the stream is left after the device's CNXN; with more it fails, and nothing further is
    signed or sent. *)
Theorem auth_handshake_outcome ts v mx banner c rest :
  Forall (fun t => zlen t = 20) ts -> u32 v -> u32 mx -> zlen banner <= MAX_PAYLOAD_V2 ->
  wfail c = None -> arrives (incoming c) (device_says ts v mx banner ++ rest) ->
  exists q, tcp_auth_handshake auth c =
      (mk_conn q (outgoing c ++ concat (map message_bytes ((cnxn_hdr, cnxn_payload) :: answers sig_of key_text ts))) None,
       if Nat.leb (length ts) 2 then Ok tt else Err rejected) /\
    (Nat.leb (length ts) 2 = true -> arrives q rest).
Proof.
  intros Hts Hv Hmx Hb Hw Ha.
  destruct (handshake_script tcp_texts auth sig_of key_text signs has_key (B "CNXN send failed: ")
    (B "CNXN recv failed: ") ts v mx banner c rest Hts Hv Hmx Hb Hw Ha) as (q & Hq & Hrest).
  exists q. split; [|done]. unfold tcp_auth_handshake. rewrite Hq. by destruct (Nat.leb _ _).
Qed.

(** [connect_to_remote] registers the device that accepted the connection, under its address, in
    the state of a usable device and with its banner, keeps every other device and rule, and
    keeps serials and ids unique; when the device rejects the key the registry is not changed. *)
Theorem connect_registers open addr c r ts v mx banner rest :
  devices_wf r -> open addr = Ok c ->
  Forall (fun t => zlen t = 20) ts -> u32 v -> u32 mx -> zlen banner <= MAX_PAYLOAD_V2 ->
  wfail c = None -> arrives (incoming c) (device_says ts v mx banner ++ rest) ->
  let '(r', out) := connect_to_remote open auth addr r in
  if Nat.leb (length ts) 2
  then connected addr banner r r' /\ exists c', out = Ok c' /\ arrives (incoming c') rest
  else r' = r /\ out = Err rejected.
Proof.
  intros Hwf Hopen Hts Hv Hmx Hb Hw Ha. unfold connect_to_remote. rewrite Hopen.
  destruct (handshake_script (remote_texts addr) auth sig_of key_text signs has_key (B "CNXN probe failed: ")
    (B "CNXN response failed: ") ts v mx banner c rest Hts Hv Hmx Hb Hw Ha) as (q & -> & Hrest).
  destruct (Nat.leb (length ts) 2); [|done]. split; [by apply register_connected|].
  eexists. split; [done|]. by apply Hrest.
Qed.
End Connect.

Module HandshakeSample.
Import KeySample.

Definition host : AdbAuth := auth_new sample_key (B "u@h").
Definition host_key : bytes := match build_rsakey_payload host with Ok p => p | _ => [] end.

Lemma host_signs t : zlen t = 20 -> build_signature_payload host t = Ok (sign_sample t).
Proof. intros Ht. unfold build_signature_payload, sign_token. by rewrite Ht. Qed.

Lemma host_has_key : build_rsakey_payload host = Ok host_key.
Proof. vm_compute. reflexivity. Qed.

Definition device_conn (ts : list bytes) : Conn :=
  mk_conn [inl (device_says ts ADB_VERSION MAX_PAYLOAD_V2 (B "device::model=X"))] [] None.

Lemma auth_handshake_outcome_witness :
  exists q, tcp_auth_handshake host (device_conn [zrep 20 x01; zrep 20 x02]) =
      (mk_conn q (concat (map message_bytes
         ((cnxn_hdr, cnxn_payload) :: answers sign_sample host_key [zrep 20 x01; zrep 20 x02]))) None, Ok tt) /\
    arrives q [].
Proof.
  destruct (auth_handshake_outcome host sign_sample host_key host_signs host_has_key
    [zrep 20 x01; zrep 20 x02] ADB_VERSION MAX_PAYLOAD_V2 (B "device::model=X")
    (device_conn [zrep 20 x01; zrep 20 x02]) []) as (q & Hq & Ha).
  - repeat constructor; reflexivity.
  - done.
  - done.
  - done.
  - reflexivity.
  - rewrite app_nil_r. by apply arrives_one.
  - exists q. split; [exact Hq|]. apply Ha. reflexivity.
Defined.

Lemma connect_registers_witness :
  let addr := mk_addr (B "10.0.0.2") false 5555 in
  let '(r', out) := connect_to_remote (fun _ => Ok (device_conn [zrep 20 x01])) host addr (registry_new None) in
  connected addr (B "device::model=X") (registry_new None) r' /\ exists c', out = Ok c' /\ arrives (incoming c') [].
Proof.
  intros addr.
  apply (connect_registers host sign_sample host_key host_signs host_has_key _ addr (device_conn [zrep 20 x01]) _
    [zrep 20 x01] ADB_VERSION MAX_PAYLOAD_V2 (B "device::model=X") []).
  - apply registry_new_wf.
  - reflexivity.
  - repeat constructor; reflexivity.
  - done.
  - done.
  - done.
  - reflexivity.
  - rewrite app_nil_r. by apply arrives_one.
Defined.
End HandshakeSample.
