(* ===== verification/HostService.v ===== *)
(** * Host services of the server

    [server/handler.rs] ([parse_adb_host_port], [dispatch_host_service]) and the forward and reverse
    commands of [server/forward.rs]: a request of a client, the answer written to its connection and
    the change of the registry.

    A service that polls ([track-devices], [wait-for-device]) is given the states of the server that
    its rounds observe, [future]; it is still waiting (without a result) when they end. A service that gives up
    the registry's lock and takes it again ([host:connect]) finds there what other threads have done in between,
    [others]. Threads that a service starts are kept in [jobs] and run by [run_job]. *)
From S2P Require Import Prelude Text AdbHeader Features Net AdbTransport AuthKey Registry Handshake.

(** ** The server's state and its surroundings *)
Record MdnsService := mk_mdns { instance_name : bytes; service_name : bytes; addresses : list bytes; mdns_port : Z }.

Inductive job :=
| Watch (s : bytes) (c : Conn)
| EmulatorConnect (p : Z).

Record Server := mk_server {
  registry : TransportRegistry;
  running : bool;
  mdns_services : list MdnsService;
  jobs : list job }.

Definition set_registry (r : TransportRegistry) (s : Server) : Server :=
  mk_server r (running s) (mdns_services s) (jobs s).
Definition add_job (j : job) (s : Server) : Server :=
  mk_server (registry s) (running s) (mdns_services s) (jobs s ++ [j]).

Section Services.
Context `{Rsa} `{Base64}.

(** Binding a port, resolving a name, opening a TCP connection, the host's key, whether
    [ADB_MDNS] is 0, and the sections of other threads before this thread takes the lock for the [n]-th time after its first. *)
Record Env := mk_env {
  bind : Z -> res bytes Z;
  resolve : bytes -> res bytes (list SocketAddr);
  connect : SocketAddr -> res bytes Conn;
  host_auth : AdbAuth;
  mdns_off : bool;
  others : nat -> list registry_op }.

Definition meanwhile (env : Env) (n : nat) (r : TransportRegistry) : TransportRegistry := registry_run r (others env n).

(** The server and the connection after a service, and its result unless it is still waiting. *)
Definition Out : Type := Server * Conn * option (res bytes unit).

(** ** Answers *)
Definition wrote (text : bytes) (r : Conn * res io_error unit) : Conn * res bytes unit :=
  (fst r, map_err (fun e => text ++ io_msg e) (snd r)).

Definition ok (data : bytes) (c : Conn) : Conn * res bytes unit :=
  wrote (B "write failed: ") (then_write data (then_write (hex4 (zlen data)) (write_all (B "OKAY") c))).

Definition ok_empty (c : Conn) : Conn * res bytes unit :=
  wrote (B "write failed: ") (write_all (B "OKAY") c).

Definition fail (msg : bytes) (c : Conn) : Conn * res bytes unit :=
  wrote (B "write failed: ") (then_write msg (then_write (hex4 (zlen msg)) (write_all (B "FAIL") c))).

(** The answer of a service that leaves the server as it is. *)
Definition reply (s : Server) (r : Conn * res bytes unit) : Out := (s, fst r, Some (snd r)).

(** ** Addresses *)
Definition count_byte (b : byte) (s : bytes) : nat := length (List.filter (beqb b) s).

Definition parse_adb_host_port (target : bytes) : res bytes (bytes * Z) :=
  let! hp :=
    match strip_prefix (B "[") target with
    | Some rest =>
        let! hr := ok_or (split_once "]"%byte rest) (B "invalid IPv6 address: missing closing ']'") in
        let! p := ok_or (strip_prefix (B ":") (snd hr)) (B "invalid address: IPv6 host must be followed by ':port'") in
        Ok (fst hr, p)
    | None =>
        if negb (Nat.eqb (count_byte ":"%byte target) 1)
        then Err (B "invalid address: IPv6 literals must be enclosed in '[' and ']'")
        else ok_or (split_once ":"%byte target) (B "invalid connect format: use host:port")
    end in
  let '(host, port) := hp in
  if bool_decide (host = []) then Err (B "invalid address: host is empty") else
  let! p := ok_or (parse_uint 10 65535 port) (B "invalid port: " ++ port) in
  if p =? 0 then Err (B "invalid port: 0") else Ok (host, p).

(** ** Device queries *)
Definition devpath (d : DeviceEntry) : bytes :=
  match origin d with
  | Usb => B "usb"
  | Tcp addr => ip addr ++ B ":" ++ fmt_dec (port addr)
  end.

Definition get_service (cmd : bytes) (r : TransportRegistry) (c : Conn) : Conn * res bytes unit :=
  match find_any_device r with
  | Some dev =>
      if bool_decide (cmd = B "host:get-state") then ok (state_str (state dev)) c
      else if bool_decide (cmd = B "host:get-serialno") then ok (serial dev) c
      else if bool_decide (cmd = B "host:get-devpath") then ok (devpath dev) c
      else fail (B "device not found") c
  | None => fail (B "device not found") c
  end.

Definition host_serial_get (rest : bytes) (r : TransportRegistry) (c : Conn) : Conn * res bytes unit :=
  match split_once ":"%byte rest with
  | Some (s, cmd) =>
      match find_by_serial r s with
      | Some dev =>
          if bool_decide (cmd = B "get-state") then ok (state_str (state dev)) c
          else if bool_decide (cmd = B "get-serialno") then ok (serial dev) c
          else if bool_decide (cmd = B "get-devpath") then ok (devpath dev) c
          else fail (B "unsupported host-serial service: " ++ cmd) c
      | None => fail (B "device '" ++ s ++ B "' not found") c
      end
  | None => fail (B "invalid host-serial format") c
  end.

(** [banner.split(';').find_map(|part| part.strip_prefix("features="))]. *)
Fixpoint banner_features_part (parts : list bytes) : option bytes :=
  match parts with
  | [] => None
  | p :: parts => match strip_prefix (B "features=") p with Some f => Some f | None => banner_features_part parts end
  end.

Definition device_features (r : TransportRegistry) (s : bytes) : option bytes :=
  match find_by_serial r s with
  | Some d => match transport_features d with
              | Some banner => banner_features_part (split_on ";"%byte banner)
              | None => None
              end
  | None => None
  end.

Definition host_serial_features (rest : bytes) (r : TransportRegistry) (c : Conn) : Conn * res bytes unit :=
  match split_once ":"%byte rest with
  | Some (s, service) =>
      if bool_decide (service = B "features") then
        match device_features r s with
        | Some feat => ok feat c
        | None => fail (B "device '" ++ s ++ B "' not found or no features") c
        end
      else fail (B "unsupported host-serial service: " ++ service) c
  | None => fail (B "invalid host-serial format") c
  end.

(** ** Transport selection *)
Definition transport_serial (s : bytes) (r : TransportRegistry) (c : Conn) : Conn * res bytes unit :=
  let exists_ := match find_by_serial r s with Some d => is_usable_state (state d) | None => false end in
  if exists_ then ok_empty c else fail (B "device '" ++ s ++ B "' not found") c.

Definition transport_any (r : TransportRegistry) (c : Conn) : Conn * res bytes unit :=
  match find_unique_device r with
  | Ok _ => ok_empty c
  | Err e => fail e c
  | Panic => (c, Panic)
  end.

(** OKAY, then the transport id in eight bytes. *)
Definition ok_tid (tid : Z) (c : Conn) : Conn * res bytes unit :=
  match ok_empty c with
  | (c, Ok _) => wrote (B "write transport_id failed: ") (write_all (le_bytes 8 tid) c)
  | r => r
  end.

Definition tport_serial (s : bytes) (r : TransportRegistry) (c : Conn) : Conn * res bytes unit :=
  match find_by_serial r s with
  | Some dev =>
      if is_usable_state (state dev) then ok_tid (transport_id dev) c
      else fail (B "device '" ++ s ++ B "' is offline") c
  | None => fail (B "device '" ++ s ++ B "' not found") c
  end.

Definition tport_any (r : TransportRegistry) (c : Conn) : Conn * res bytes unit :=
  match find_unique_device r with
  | Ok dev => ok_tid (transport_id dev) c
  | Err e => fail e c
  | Panic => (c, Panic)
  end.

Definition transport_by_id (id_str : bytes) (r : TransportRegistry) (c : Conn) : Conn * res bytes unit :=
  match parse_uint 10 usize_max id_str with
  | None => fail (B "invalid transport id") c
  | Some tid =>
      let exists_ := match find_by_transport_id r tid with Some d => is_usable_state (state d) | None => false end in
      if exists_ then ok_empty c else fail (B "transport id " ++ fmt_dec tid ++ B " not found") c
  end.

(** ** Polling *)
Fixpoint track_devices (last : option bytes) (s : Server) (future : list Server) (c : Conn) : Out :=
  if running s then
    let current := list_devices (registry s) false in
    let next c :=
      match future with
      | [] => (s, c, None)
      | s' :: future => track_devices (Some current) s' future c
      end in
    if bool_decide (last = Some current) then next c
    else
      match wrote (B "track-devices write failed: ")
              (then_write current (write_all (hex4 (zlen current)) c)) with
      | (c, Ok _) => next c
      | (c, r) => (s, c, Some r)
      end
  else (s, c, Some (Ok tt)).

Fixpoint wait_for_device (s : Server) (future : list Server) (c : Conn) : Out :=
  if running s then
    match find_any_device (registry s) with
    | Some _ => reply s (ok_empty c)
    | None => match future with [] => (s, c, None) | s' :: future => wait_for_device s' future c end
    end
  else reply s (fail (B "server is shutting down") c).

(** ** Forward and reverse rules ([forward.rs]) *)
Definition handle_forward (env : Env) (sub : bytes) (s : Server) (c : Conn) : Out :=
  let r := registry s in
  let add no_rebind local remote :=
    let '(r, res) := add_forward (bind env) local remote no_rebind r in
    let s := set_registry r s in
    match res with Ok p => reply s (ok p c) | Err m => reply s (fail m c) | Panic => (s, c, Some Panic) end in
  if bool_decide (sub = B "list") then reply s (ok (list_forwards r) c)
  else if bool_decide (sub = B "killforward-all") || bool_decide (sub = B "remove-all")
  then reply (set_registry (remove_all_forwards r) s) (ok [] c)
  else if starts_with (B "killforward:") sub || starts_with (B "remove:") sub then
    let local := match strip_prefix (B "killforward:") sub with
                 | Some l => l | None => drop (length (B "remove:")) sub end in
    let '(r, removed) := remove_forward local r in
    reply (set_registry r s) (if removed then ok [] c else fail (B "forward '" ++ local ++ B "' not found") c)
  else if starts_with (B "norebind:") sub then
    match parse_spec_pair (drop (length (B "norebind:")) sub) with
    | Some (local, remote) => add true local remote
    | None => reply s (fail (B "invalid forward norebind format: use local;remote") c)
    end
  else
    match parse_spec_pair sub with
    | Some (local, remote) => add false local remote
    | None => reply s (fail (B "invalid forward: " ++ sub) c)
    end.

Definition handle_reverse (sub : bytes) (s : Server) (c : Conn) : Out :=
  let r := registry s in
  let add no_rebind remote local :=
    let '(r, res) := add_reverse remote local no_rebind r in
    let s := set_registry r s in
    match res with Ok _ => reply s (ok [] c) | Err m => reply s (fail m c) | Panic => (s, c, Some Panic) end in
  let bad := fail (B "invalid reverse format: use remote;local or remote:local") in
  if bool_decide (sub = B "list") then reply s (ok (list_reverses r) c)
  else if bool_decide (sub = B "killforward-all") || bool_decide (sub = B "killreverse-all")
          || bool_decide (sub = B "remove-all")
  then reply (set_registry (remove_all_reverses r) s) (ok [] c)
  else if starts_with (B "killreverse:") sub || starts_with (B "killforward:") sub || starts_with (B "remove:") sub then
    let remote := match strip_prefix (B "killreverse:") sub with
                  | Some l => l
                  | None => match strip_prefix (B "killforward:") sub with
                            | Some l => l | None => drop (length (B "remove:")) sub end
                  end in
    let '(r, removed) := remove_reverse remote r in
    reply (set_registry r s)
      (if removed then ok [] c else fail (B "reverse forward '" ++ remote ++ B "' not found") c)
  else if starts_with (B "norebind:") sub then
    match parse_spec_pair (drop (length (B "norebind:")) sub) with
    | Some (remote, local) => add true remote local
    | None => reply s (bad c)
    end
  else if starts_with (B "forward:") sub then
    match parse_spec_pair (drop (length (B "forward:")) sub) with
    | Some (remote, local) => add false remote local
    | None => reply s (bad c)
    end
  else
    match parse_spec_pair sub with
    | Some (remote, local) => add false remote local
    | None => reply s (fail (B "invalid reverse: " ++ sub) c)
    end.

(** ** Connecting *)
Definition localhost_addrs (p : Z) : list SocketAddr :=
  [mk_addr (B "127.0.0.1") false p; mk_addr (B "::1") true p].

(** The first address that connects; the number of the next section goes along. *)
Fixpoint try_addrs (env : Env) (n : nat) (addrs : list SocketAddr) (last_err : option bytes) (r : TransportRegistry)
    : nat * TransportRegistry * res (option bytes) (bytes * Conn) :=
  match addrs with
  | [] => (n, r, Err last_err)
  | addr :: addrs =>
      match connect_to_remote (connect env) (host_auth env) addr (meanwhile env n r) with
      | (r, Ok t) => (S n, r, Ok (addr_string addr, t))
      | (r, Err e) => try_addrs env (S n) addrs (Some e) r
      | (r, Panic) => (S n, r, Panic)
      end
  end.

Definition connect_service (env : Env) (target : bytes) (s : Server) (c : Conn) : Out :=
  match parse_adb_host_port target with
  | Ok (host, p) =>
      let addrs :=
        if bool_decide (host = B "localhost") || bool_decide (host = []) then Ok (localhost_addrs p)
        else map_err (fun e => B "resolve failed: " ++ e)
               (resolve env (if contains ":"%byte host then B "[" ++ host ++ B "]:" ++ fmt_dec p
                             else host ++ B ":" ++ fmt_dec p)) in
      match addrs with
      | Ok addrs =>
          if existsb (has_serial target) (devices (registry s))
          then reply s (ok (B "already connected to " ++ target) c)
          else
            match try_addrs env 0 addrs None (registry s) with
            | (n, r, Ok (ip_serial, t)) =>
                reply (add_job (Watch target t) (set_registry (rename_device ip_serial target (meanwhile env n r)) s))
                  (ok (B "connected to " ++ target) c)
            | (_, r, Err last_err) =>
                reply (set_registry r s)
                  (fail (B "cannot connect to " ++ target ++ B ": " ++ default (B "cannot connect") last_err) c)
            | (_, r, Panic) => (set_registry r s, c, Some Panic)
            end
      | Err e => (s, c, Some (Err e))
      | Panic => (s, c, Some Panic)
      end
  | Err e => (s, c, Some (Err e))
  | Panic => (s, c, Some Panic)
  end.

Definition emulator_service (port_str : bytes) (s : Server) (c : Conn) : Out :=
  (match parse_uint 10 65535 port_str with Some p => add_job (EmulatorConnect p) s | None => s end, c, Some (Ok tt)).

(** A thread that a service has started: the watcher ends with the first error of the connection
    (a stream always has an end), the emulator's thread connects and then watches. *)
Definition run_job (env : Env) (j : job) (s : Server) : Server :=
  match j with
  | Watch name _ =>
      set_registry (set_devices (update_first (has_serial name) (set_state Offline) (devices (registry s)))
                      (registry s)) s
  | EmulatorConnect p =>
      let addr := mk_addr (B "127.0.0.1") false p in
      let name := B "emulator-" ++ fmt_dec (Z.max 0 (p - 1)) in
      match connect_to_remote (connect env) (host_auth env) addr (meanwhile env 0 (registry s)) with
      | (r, Ok t) => add_job (Watch name t) (set_registry (rename_device (addr_string addr) name (meanwhile env 1 r)) s)
      | (r, _) => set_registry r s
      end
  end.

Definition disconnect_service (cmd : bytes) (s : Server) (c : Conn) : Out :=
  let r := registry s in
  if bool_decide (cmd = B "host:disconnect") then
    let count := zlen (List.filter (fun d => negb (is_usb (origin d))) (devices r)) in
    reply (set_registry (remove_all_tcp_devices r) s) (ok (B "disconnected " ++ fmt_dec count ++ B " devices") c)
  else
    let name := drop (length (B "host:disconnect:")) cmd in
    let '(r, removed) := remove_device name r in
    reply (set_registry r s)
      (if removed then ok (B "disconnected " ++ name) c else fail (B "device '" ++ name ++ B "' not found") c).

(** ** Discovered services *)
Fixpoint bytes_leb (a b : bytes) : bool :=
  match a, b with
  | [], _ => true
  | _ :: _, [] => false
  | x :: a, y :: b => (b2z x <? b2z y) || ((b2z x =? b2z y) && bytes_leb a b)
  end.

Fixpoint insert_row (x : bytes) (l : list bytes) : list bytes :=
  match l with [] => [x] | y :: l' => if bytes_leb x y then x :: l else y :: insert_row x l' end.
Definition sort_rows (l : list bytes) : list bytes := fold_right insert_row [] l.

Definition mdns_row (m : MdnsService) : list bytes :=
  match addresses m with
  | [] => []
  | a :: _ => [instance_name m ++ B "	" ++ service_name m ++ B ".	" ++ a ++ B ":" ++ fmt_dec (mdns_port m) ++ [x0a]]
  end.

Definition mdns_service (env : Env) (sub : bytes) (s : Server) (c : Conn) : Conn * res bytes unit :=
  if bool_decide (sub = B "check") then
    if mdns_off env then ok (B "ERROR: mdns discovery disabled") c
    else ok (B "mdns daemon version [adb discovery 0.0.0]") c
  else if bool_decide (sub = B "services") then
    ok (concat (sort_rows (flat_map mdns_row (mdns_services s)))) c
  else fail (B "unsupported mdns service: " ++ sub) c.

(** ** Dispatch *)

Definition after (p cmd : bytes) : bytes := drop (length p) cmd.

Definition dispatch_host_service (env : Env) (cmd : bytes) (s : Server) (future : list Server) (c : Conn) : Out :=
  let r := registry s in
  let cmd_is x := bool_decide (cmd = B x) in
  let cmd_has x := starts_with (B x) cmd in
  if cmd_is "host:version" then reply s (ok (hex4 SERVER_VERSION) c)
  else if cmd_is "host:kill" then
    match ok_empty c with
    | (c, Ok _) => (mk_server r false (mdns_services s) (jobs s), c, Some (Ok tt))
    | (c, e) => (s, c, Some e)
    end
  else if cmd_is "host:start-server" then reply s (ok_empty c)
  else if cmd_is "host:devices" || cmd_is "host:devices-l" then
    reply s (ok (list_devices r (ends_with (B "-l") cmd)) c)
  else if cmd_is "host:track-devices" then
    match ok_empty c with
    | (c, Ok _) => track_devices None s future c
    | (c, e) => (s, c, Some e)
    end
  else if cmd_is "host:wait-for-device" || cmd_is "host:wait-for-any-device" then wait_for_device s future c
  else if cmd_is "host:get-state" || cmd_is "host:get-serialno" || cmd_is "host:get-devpath" then reply s (get_service cmd r c)
  else if cmd_has "host-serial:" && (ends_with (B ":get-state") cmd || ends_with (B ":get-serialno") cmd
                                 || ends_with (B ":get-devpath") cmd)
  then reply s (host_serial_get (after (B "host-serial:") cmd) r c)
  else if cmd_has "host:transport:" then reply s (transport_serial (after (B "host:transport:") cmd) r c)
  else if cmd_is "host:transport-any" then reply s (transport_any r c)
  else if cmd_has "host:tport:serial:" then reply s (tport_serial (after (B "host:tport:serial:") cmd) r c)
  else if cmd_is "host:tport:" || cmd_is "host:tport:any" then reply s (tport_any r c)
  else if cmd_has "host:transport-id:" then reply s (transport_by_id (after (B "host:transport-id:") cmd) r c)
  else if cmd_has "host-serial:" && contains_str (B ":features") cmd
  then reply s (host_serial_features (after (B "host-serial:") cmd) r c)
  else if cmd_has "host:connect:" then connect_service env (after (B "host:connect:") cmd) s c
  else if cmd_has "host:emulator:" then emulator_service (after (B "host:emulator:") cmd) s c
  else if cmd_is "host:disconnect" || cmd_has "host:disconnect:" then disconnect_service cmd s c
  else if cmd_has "host:forward:" then handle_forward env (after (B "host:forward:") cmd) s c
  else if cmd_has "host:reverse:" then handle_reverse (after (B "host:reverse:") cmd) s c
  else if cmd_has "reverse:" then handle_reverse (after (B "reverse:") cmd) s c
  else if cmd_is "host:host-features" then reply s (ok (features_to_string host_supported_features) c)
  else if cmd_has "host:mdns:" then reply s (mdns_service env (after (B "host:mdns:") cmd) s c)
  else if cmd_is "host:jdwp" then reply s (ok [] c)
  else reply s (fail (B "unknown host service: " ++ cmd) c).
End Services.

(** ** Services keep the registry well-formed *)
Section Invariant.
Context `{Rsa} `{Base64}.

(** Transport ids and rules; and with them the serials. *)
Definition server_core (s : Server) : Prop := ids_wf (registry s) /\ rules_wf (registry s).
Definition server_unique (s : Server) : Prop := serials_unique (registry s).

(** Both are properties of the registry that the sections of the services keep, the renames apart. *)
Record kept (P : TransportRegistry -> Prop) : Prop := {
  kept_step r op : (forall t, ~ serial_clash t op) -> P r -> P (registry_step r op) }.

Lemma core_kept : kept (fun r => ids_wf r /\ rules_wf r).
Proof. constructor. intros r op _ [Hi Hr]. split; [by apply registry_step_ids|by apply registry_step_rules]. Qed.
Lemma unique_kept : kept serials_unique.
Proof. constructor. intros r op Hc H1. by apply (registry_step_serials r op H1). Qed.

Section Kept.
Context (P : TransportRegistry -> Prop) (HP : kept P).

Lemma step_kept r op : (forall t, ~ serial_clash t op) -> P r -> P (registry_step r op).
Proof. apply HP. Qed.

Lemma track_devices_kept future : forall last s c,
  P (registry s) -> Forall (fun s => P (registry s)) future -> P (registry (track_devices last s future c).1.1).
Proof.
  induction future as [|s' future IH]; intros last s c Hs HF; cbn [track_devices];
    destruct (running s); try done; destruct (bool_decide _); try done.
  - destruct (wrote _ _) as [c' [u|e|]]; done.
  - apply list.Forall_cons in HF as [? ?]. by apply IH.
  - apply list.Forall_cons in HF as [? ?]. destruct (wrote _ _) as [c' [u|e|]]; [by apply IH|done|done].
Qed.

Lemma wait_for_device_kept future : forall s c,
  P (registry s) -> Forall (fun s => P (registry s)) future -> P (registry (wait_for_device s future c).1.1).
Proof.
  induction future as [|s' future IH]; intros s c Hs HF; cbn [wait_for_device];
    destruct (running s); try done; destruct (find_any_device _); try done.
  apply list.Forall_cons in HF as [? ?]. by apply IH.
Qed.

Lemma handle_forward_kept env sub s c : P (registry s) -> P (registry (handle_forward env sub s c).1.1).
Proof.
  intros Hs. assert (forall op, (forall t, ~ serial_clash t op) -> P (registry_step (registry s) op)) as Hk by (intros; by apply step_kept).
  unfold handle_forward. cbv zeta. destruct (bool_decide _); [done|]. destruct (_ || _); [by apply (Hk RemoveAllForwards); intros ? []|].
  destruct (_ || _).
  { match goal with |- context [remove_forward ?l ?r] => pose proof (Hk (RemoveForward l) (fun _ H => H)) as Hr; cbn [registry_step] in Hr;
      destruct (remove_forward l r) as [r' removed] end. done. }
  assert (forall nb l rm, P (registry (let '(r, res) := add_forward (bind env) l rm nb (registry s) in
      let s := set_registry r s in
      match res with Ok p => reply s (ok p c) | Err m => reply s (fail m c) | Panic => (s, c, Some Panic) end).1.1)) as Hadd.
  { intros nb l rm. pose proof (Hk (AddForward (bind env) l rm nb) (fun _ H => H)) as Hr. cbn [registry_step] in Hr.
    destruct (add_forward _ _ _ _ _) as [r' [p|m|]]; done. }
  destruct (starts_with _ _); destruct (parse_spec_pair _) as [[l rm]|]; try done; apply Hadd.
Qed.

Lemma handle_reverse_kept sub s c : P (registry s) -> P (registry (handle_reverse sub s c).1.1).
Proof.
  intros Hs. assert (forall op, (forall t, ~ serial_clash t op) -> P (registry_step (registry s) op)) as Hk by (intros; by apply step_kept).
  unfold handle_reverse. cbv zeta. destruct (bool_decide _); [done|]. destruct (_ || _ || _); [by apply (Hk RemoveAllReverses); intros ? []|].
  destruct (_ || _ || _).
  { match goal with |- context [remove_reverse ?l ?r] => pose proof (Hk (RemoveReverse l) (fun _ H => H)) as Hr; cbn [registry_step] in Hr;
      destruct (remove_reverse l r) as [r' removed] end. done. }
  assert (forall nb rm l, P (registry (let '(r, res) := add_reverse rm l nb (registry s) in
      let s := set_registry r s in
      match res with Ok _ => reply s (ok [] c) | Err m => reply s (fail m c) | Panic => (s, c, Some Panic) end).1.1)) as Hadd.
  { intros nb rm l. pose proof (Hk (AddReverse rm l nb) (fun _ H => H)) as Hr. cbn [registry_step] in Hr.
    destruct (add_reverse _ _ _ _) as [r' [p|m|]]; done. }
  destruct (starts_with _ _); [destruct (parse_spec_pair _) as [[l rm]|]; try done; apply Hadd|].
  destruct (starts_with _ _); destruct (parse_spec_pair _) as [[l rm]|]; try done; apply Hadd.
Qed.

Lemma disconnect_kept cmd s c : P (registry s) -> P (registry (disconnect_service cmd s c).1.1).
Proof.
  intros Hs. unfold disconnect_service. cbv zeta. destruct (bool_decide _).
  - by apply (step_kept (registry s) UnregisterAllTcp); [intros ? []|].
  - set (name := drop _ cmd). pose proof (step_kept (registry s) (Unregister name) (fun _ H => H) Hs) as Hr. cbn [registry_step] in Hr.
    unfold unregister_device in Hr. destruct (remove_device name (registry s)) as [r' removed]. done.
Qed.

Lemma starts_with_after p cmd : starts_with p cmd = true -> cmd = p ++ after p cmd.
Proof. unfold starts_with, after. intros H1%bool_decide_eq_true. by rewrite <- H1 at 1; rewrite take_drop. Qed.

(** A dispatched request keeps [P] when connecting does. *)
Lemma dispatch_kept env cmd s future c :
  P (registry s) -> Forall (fun s => P (registry s)) future ->
  (forall target, cmd = B "host:connect:" ++ target -> P (registry (connect_service env target s c).1.1)) ->
  P (registry (dispatch_host_service env cmd s future c).1.1).
Proof.
  intros Hs HF Hc. unfold dispatch_host_service. cbv zeta.
  repeat match goal with
  | |- P (registry (if ?b then reply _ _ else _).1.1) => destruct b; [exact Hs|]
  | |- P (registry (if starts_with (B "host:connect:") _ then _ else _).1.1) => fail 1
  | |- P (registry (if ?b then _ else _).1.1) => destruct b
  end; try (exact Hs).
  - by destruct (ok_empty c) as [c' [u|e|]].
  - destruct (ok_empty c) as [c' [u|e|]]; [by apply track_devices_kept|done|done].
  - by apply wait_for_device_kept.
  - destruct (starts_with (B "host:connect:") cmd) eqn:E.
    { apply Hc. by apply starts_with_after. }
    repeat match goal with
    | |- P (registry (if ?b then reply _ _ else _).1.1) => destruct b; [exact Hs|]
    | |- P (registry (if ?b then _ else _).1.1) => destruct b
    end; try (exact Hs).
    + unfold emulator_service. by destruct (parse_uint _ _ _).
    + by apply disconnect_kept.
    + by apply handle_forward_kept.
    + by apply handle_reverse_kept.
    + by apply handle_reverse_kept.
Qed.
End Kept.

(** A connection attempt either leaves the registry as it was or has registered the address. *)
Lemma connect_cases open auth addr r :
  match connect_to_remote (T := Conn) open auth addr r with
  | (r', Ok _) => exists banner, r' = registry_step r (RegisterRemote addr banner)
  | (r', _) => r' = r
  end.
Proof.
  unfold connect_to_remote. destruct (open addr) as [t|e|]; [|done|done].
  destruct (handshake _ _ _ _ _) as [t' [p|e|]]; [|done|done]. by exists p.
Qed.

Lemma connect_ok_connected open auth addr r r' t :
  devices_wf r -> connect_to_remote (T := Conn) open auth addr r = (r', Ok t) ->
  exists banner, connected addr banner r r'.
Proof.
  intros Hw E. pose proof (connect_cases open auth addr r) as Hc. rewrite E in Hc.
  destruct Hc as (banner & ->). exists banner. by apply register_connected.
Qed.

Lemma connect_err_same open auth addr r r' e :
  connect_to_remote (T := Conn) open auth addr r = (r', Err e) -> r' = r.
Proof. intros E. pose proof (connect_cases open auth addr r) as Hc. by rewrite E in Hc. Qed.

Lemma connect_panic_same open auth addr r r' :
  connect_to_remote (T := Conn) open auth addr r = (r', Panic) -> r' = r.
Proof. intros E. pose proof (connect_cases open auth addr r) as Hc. by rewrite E in Hc. Qed.


(** The attempts keep what other threads keep, until one of them registers its address. *)
Lemma try_addrs_kept env addrs (Q : TransportRegistry -> Prop) (Q' : SocketAddr -> TransportRegistry -> Prop) :
  (forall n r, Q r -> Q (meanwhile env n r)) ->
  (forall addr banner r, Q r -> Q' addr (registry_step r (RegisterRemote addr banner))) ->
  forall n last r, Q r ->
  match try_addrs env n addrs last r with
  | (_, r', Ok (ips, _)) => exists addr, ips = addr_string addr /\ Q' addr r'
  | (_, r', _) => Q r'
  end.
Proof.
  intros Hm Hk. induction addrs as [|addr addrs IH]; intros n last r Hr; [done|]. cbn [try_addrs].
  pose proof (connect_cases (connect env) (host_auth env) addr (meanwhile env n r)) as Hc.
  destruct (connect_to_remote _ _ _ _) as [r' [t|e|]].
  - destruct Hc as [banner ->]. exists addr. split; [done|]. by apply Hk, Hm.
  - subst r'. by apply IH, Hm.
  - subst r'. by apply Hm.
Qed.

(** The connect service keeps what other threads keep before its device is registered, and after that until the rename. *)
Lemma connect_service_kept env target s c (P Q : TransportRegistry -> Prop) (Q' : SocketAddr -> TransportRegistry -> Prop) :
  P (registry s) -> (target ∉ map serial (devices (registry s)) -> Q (registry s)) ->
  (forall r, Q r -> P r) -> (forall n r, Q r -> Q (meanwhile env n r)) ->
  (forall addr banner r, Q r -> Q' addr (registry_step r (RegisterRemote addr banner))) ->
  (forall addr n r, Q' addr r -> P (rename_device (addr_string addr) target (meanwhile env n r))) ->
  P (registry (connect_service env target s c).1.1).
Proof.
  intros Hs Q0 Q1 Q2 Q3 Q4. unfold connect_service. destruct (parse_adb_host_port target) as [[host p]|e|]; [|done|done].
  match goal with |- context [match ?a with Ok _ => _ | Err _ => _ | Panic => _ end] => destruct a as [addrs'|e|] end; [|done|done].
  destruct (existsb _ _) eqn:Hex; [done|]. specialize (Q0 (existsb_serial _ _ Hex)).
  pose proof (try_addrs_kept env addrs' Q Q' Q2 Q3 0 None (registry s) Q0) as Ht.
  destruct (try_addrs _ _ _ _ _) as [[n r'] [[ips t]|e|]]; [|by apply Q1..].
  destruct Ht as (addr & -> & Ht). by apply Q4.
Qed.

(** Other threads that keep serials unique, and do not take up the serial [target]. *)
Definition spares (env : Env) (target : bytes) : Prop :=
  forall n r, serials_unique r ->
    serials_unique (meanwhile env n r) /\
    (target ∉ map serial (devices r) -> target ∉ map serial (devices (meanwhile env n r))).

Lemma register_remote_serials addr banner r target :
  target ∈ map serial (devices (register_remote addr banner r)) -> target = addr_string addr \/ target ∈ map serial (devices r).
Proof.
  assert (target ∈ map serial (devices (upsert_tcp_device addr (addr_string addr) r)) ->
    target = addr_string addr \/ target ∈ map serial (devices r)) as Hu.
  { unfold upsert_tcp_device. destruct (find_by_serial r (addr_string addr)).
    - cbn [devices set_devices]. rewrite serials_update_map by done. by right.
    - cbn [devices push_device]. rewrite map_app, elem_of_app. cbn [map serial]. rewrite list_elem_of_singleton. tauto. }
  unfold register_remote. destruct banner; [done|]. cbn [devices set_devices]. rewrite serials_update_map; [done|].
  intros d. apply banner_keeps_ids.
Qed.

End Invariant.

(** ** Tracking *)
Section Tracking.
Context `{Rsa} `{Base64}.

(** A list in the form in which the tracker sends it. *)
Definition frame (d : bytes) : bytes := hex4 (zlen d) ++ d.

(** The device lists of the observed states up to the shutdown, without repetitions. *)
Fixpoint published (last : option bytes) (observed : list Server) : list bytes :=
  match observed with
  | [] => []
  | s :: observed =>
      if running s then
        let current := list_devices (registry s) false in
        (if bool_decide (last = Some current) then [] else [current]) ++ published (Some current) observed
      else []
  end.

Lemma published_cons last s observed :
  published last (s :: observed) =
  if running s then
    let current := list_devices (registry s) false in
    (if bool_decide (last = Some current) then [] else [current]) ++ published (Some current) observed
  else [].
Proof. done. Qed.

Lemma track_devices_spec future : forall last s c,
  wfail c = None ->
  let '(s', c', o) := track_devices last s future c in
  incoming c' = incoming c /\
  outgoing c' = outgoing c ++ concat (map frame (published last (s :: future))) /\
  o = (if forallb running (s :: future) then None else Some (Ok tt)) /\
  (o = None -> list.last (match last with Some l => [l] | None => [] end ++ published last (s :: future)) =
     Some (list_devices (registry s') false)).
Proof.
  induction future as [|s1 future IH]; intros last s c Hw; cbn [track_devices]; rewrite published_cons;
    change (forallb running (s :: ?l)) with (running s && forallb running l);
    (destruct (running s); cbn [andb]; [|by rewrite app_nil_r]);
    set (cur := list_devices (registry s) false); destruct (bool_decide_reflect (last = Some cur)) as [->|Hne].
  - cbn. by rewrite app_nil_r.
  - rewrite write_all_out by done. cbn [then_write]. rewrite write_all_out by done. cbn [wrote fst snd map_err].
    cbn. rewrite !app_nil_r, <- !app_assoc. split_and!; [done|done|done|]. intros _. by rewrite last_snoc.
  - specialize (IH (Some cur) s1 c Hw). destruct (track_devices _ _ _ _) as [[s' c'] o]. cbn [app]. exact IH.
  - rewrite write_all_out by done. cbn [then_write]. rewrite write_all_out by done. cbn [wrote fst snd map_err].
    match goal with |- context [track_devices _ _ _ ?cc] => specialize (IH (Some cur) s1 cc eq_refl) end.
    destruct (track_devices _ _ _ _) as [[s' c'] o]. destruct IH as (I1 & I2 & I3 & I4).
    cbn [incoming outgoing] in I1, I2. split_and!; [done| |exact I3|].
    + rewrite I2. cbn [app map concat]. unfold frame at 2. by rewrite <- !app_assoc.
    + intros Ho. specialize (I4 Ho). rewrite <- I4. cbv zeta.
      rewrite app_assoc, !last_app. by destruct (list.last (published _ _)).
Qed.

(** A client that tracks the devices is sent, after OKAY, the device list at every change and only
    then; while the server runs the last list sent is the present one, and the service ends when
    the server shuts down. *)
Theorem track_devices_up_to_date env s future c :
  wfail c = None ->
  let '(s', c', o) := dispatch_host_service env (B "host:track-devices") s future c in
  outgoing c' = outgoing c ++ B "OKAY" ++ concat (map frame (published None (s :: future))) /\
  o = (if forallb running (s :: future) then None else Some (Ok tt)) /\
  (o = None -> list.last (published None (s :: future)) = Some (list_devices (registry s') false)).
Proof.
  intros Hw. change (dispatch_host_service env (B "host:track-devices") s future c)
    with (match ok_empty c with
          | (c, Ok _) => track_devices None s future c
          | (c, e) => (s, c, Some e)
          end).
  unfold ok_empty. rewrite write_all_out by done. cbn [wrote fst snd map_err].
  match goal with |- context [track_devices _ _ _ ?cc] => pose proof (track_devices_spec future None s cc eq_refl) as Ht end.
  destruct (track_devices _ _ _ _) as [[s' c'] o]. destruct Ht as (_ & Ho & -> & Hl). cbn [outgoing] in Ho.
  rewrite Ho, <- app_assoc. done.
Qed.
End Tracking.

(** ** Where services miss devices *)
Section Misses.
Context `{Rsa} `{Base64}.

Definition serial_services : list bytes := [B "get-state"; B "get-serialno"; B "get-devpath"; B "features"].

Lemma dispatch_host_serial env rest s future c :
  let cmd := B "host-serial:" ++ rest in
  dispatch_host_service env cmd s future c =
  if ends_with (B ":get-state") cmd || ends_with (B ":get-serialno") cmd || ends_with (B ":get-devpath") cmd
  then reply s (host_serial_get rest (registry s) c)
  else if contains_str (B ":features") cmd then reply s (host_serial_features rest (registry s) c)
  else reply s (fail (B "unknown host service: " ++ cmd) c).
Proof. reflexivity. Qed.

(** The services for one device never reach a device whose serial is an address: the request is cut
    at its first colon, so with a serial [host:port] the server looks for the device [host] and
    answers FAIL although the device is registered. *)
Theorem host_serial_misses_tcp env h p what s future c d :
  (":"%byte ∉ h) -> In what serial_services ->
  find_by_serial (registry s) (h ++ B ":" ++ p) = Some d -> find_by_serial (registry s) h = None ->
  exists msg, dispatch_host_service env (B "host-serial:" ++ h ++ B ":" ++ p ++ B ":" ++ what) s future c =
    reply s (fail msg c).
Proof.
  intros Hh Hin Hd Hno. rewrite dispatch_host_serial. set (rest := h ++ B ":" ++ p ++ B ":" ++ what).
  assert (split_once ":"%byte rest = Some (h, p ++ B ":" ++ what)) as Hsp by (by apply split_once_app).
  assert (exists msg, host_serial_get rest (registry s) c = fail msg c) as (m1 & E1).
  { unfold host_serial_get. rewrite Hsp, Hno. eauto. }
  assert (exists msg, host_serial_features rest (registry s) c = fail msg c) as (m2 & E2).
  { unfold host_serial_features. rewrite Hsp. destruct (bool_decide _); [|eauto].
    unfold device_features. rewrite Hno. eauto. }
  destruct (_ || _ || _); [exists m1; by rewrite E1|].
  destruct (contains_str _ _); [exists m2; by rewrite E2|]. eauto.
Qed.

(** A second [host:emulator] for the same port breaks the uniqueness of serials: the device that
    the new connection registers under its address is renamed to the serial that the first one
    still has. *)
Theorem emulator_twice_duplicates env p s d r' t :
  let name := B "emulator-" ++ fmt_dec (Z.max 0 (p - 1)) in
  let addr := mk_addr (B "127.0.0.1") false p in
  (forall n, others env n = []) -> devices_wf (registry s) -> find_by_serial (registry s) name = Some d ->
  connect_to_remote (connect env) (host_auth env) addr (registry s) = (r', Ok t) ->
  ~ serials_unique (registry (run_job env (EmulatorConnect p) s)).
Proof.
  intros name addr Ho Hw Hd Hc. unfold run_job, meanwhile. rewrite !Ho. cbn [registry_run fold_left]. fold addr name. rewrite Hc.
  cbn [registry add_job set_registry].
  destruct (connect_ok_connected _ _ _ _ _ _ Hw Hc) as (banner & Hw' & _ & (e & He & _) & Hother).
  assert (name <> addr_string addr) as Hne by done. rewrite <- Hother in Hd by done.
  apply find_by_serial_some in Hd as [Hd Hds]. apply find_by_serial_some in He as [He Hes].
  intros Hu. apply (unique_rename (addr_string addr) name r') in Hu; [|apply Hw']. apply Hu. split_and!; [by intros ?|..].
  - rewrite <- Hes. by apply list_elem_of_In, in_map.
  - rewrite <- Hds. by apply list_elem_of_In, in_map.
Qed.
End Misses.

Module HostSample.
Import KeySample HandshakeSample.

Definition env : Env := mk_env Ok (fun _ => Err (B "no such host")) (fun _ => Ok (device_conn [])) host false (fun _ => []).
Definition client : Conn := mk_conn [] [] None.
Definition tcp_addr : SocketAddr := mk_addr (B "10.0.0.2") false 5555.
Definition tcp_registry : TransportRegistry := upsert_tcp_device tcp_addr (B "10.0.0.2:5555") (registry_new None).
Definition server (r : TransportRegistry) : Server := mk_server r true [] [].

Lemma tcp_registry_wf : registry_wf tcp_registry.
Proof. apply (registry_step_wf (registry_new None) (RegisterTcp tcp_addr (B "10.0.0.2:5555"))); [by intros ?|apply registry_new_wf]. Qed.

Definition localhost_5555 : SocketAddr := mk_addr (B "127.0.0.1") false 5555.

(** While a client connects, another thread enters a USB device and sets a rule. *)
Definition busy_env : Env :=
  mk_env Ok (fun _ => Err (B "no such host")) (fun _ => Ok (device_conn [])) host false
    (fun n => match n with O => [RegisterUsb (B "R5"); AddForward Ok (B "tcp:8000") (B "tcp:1") false] | _ => [] end).


(** Two clients ask at the same time for the same device: the second one has made its own entry when the first,
    which did not find it, enters and renames its own. Two devices have the serial. *)
Definition racing_env : Env :=
  mk_env Ok (fun _ => Err (B "no such host")) (fun _ => Ok (device_conn [])) host false
    (fun n => match n with O => [RegisterRemote localhost_5555 []; Rename (B "127.0.0.1:5555") (B "localhost:5555")] | _ => [] end).

Example connect_race_duplicates :
  map serial (devices (registry
    (dispatch_host_service racing_env (B "host:connect:localhost:5555") (server (registry_new None)) [] client).1.1)) =
  [B "localhost:5555"; B "localhost:5555"].
Proof. vm_compute. reflexivity. Qed.

Lemma track_devices_up_to_date_witness :
  let '(s', c', o) := dispatch_host_service env (B "host:track-devices") (server (registry_new None))
    [server (registry_new None); server tcp_registry] client in
  outgoing c' = B "OKAY00000015" ++ B "10.0.0.2:5555	device" ++ [x0a] /\ o = None.
Proof.
  pose proof (track_devices_up_to_date env (server (registry_new None))
    [server (registry_new None); server tcp_registry] client eq_refl) as Hp.
  destruct (dispatch_host_service _ _ _ _ _) as [[s' c'] o]. destruct Hp as (-> & -> & _).
  split; vm_compute; reflexivity.
Defined.

Lemma host_serial_misses_tcp_witness :
  exists msg, dispatch_host_service env (B "host-serial:10.0.0.2:5555:get-state") (server tcp_registry) [] client =
    reply (server tcp_registry) (fail msg client).
Proof.
  apply (host_serial_misses_tcp env (B "10.0.0.2") (B "5555") (B "get-state") (server tcp_registry) [] client
    (mk_device (B "10.0.0.2:5555") 1 Device (Tcp tcp_addr) None None None None)).
  - by apply contains_false.
  - by left.
  - vm_compute. reflexivity.
  - vm_compute. reflexivity.
Defined.

Definition with_emulator : Server := run_job env (EmulatorConnect 5555) (server (registry_new None)).

Lemma emulator_twice_duplicates_witness :
  ~ serials_unique (registry (run_job env (EmulatorConnect 5555) with_emulator)).
Proof.
  destruct (connect_to_remote (connect env) (host_auth env) (mk_addr (B "127.0.0.1") false 5555)
    (registry with_emulator)) as [r' [t|e|]] eqn:E.
  - apply (emulator_twice_duplicates env 5555 with_emulator
      (default (mk_device [] 0 Offline Usb None None None None) (find_by_serial (registry with_emulator) (B "emulator-5554")))
      r' t); [reflexivity| |vm_compute; reflexivity|exact E].
    repeat split; vm_compute; repeat constructor; by intros ?%elem_of_nil.
  - exfalso. revert E. vm_compute. discriminate.
  - exfalso. revert E. vm_compute. discriminate.
Defined.

(** A banner whose first property is [features] has features for the negotiation, but not for
    [host-serial:<serial>:features]. *)
Example first_feature_missed :
  let r := set_devices (map (set_features (B "device::features=shell_v2")) (devices tcp_registry)) tcp_registry in
  device_features r (B "10.0.0.2:5555") = None /\
  parse_banner_features (B "device::features=shell_v2") = [B "shell_v2"].
Proof. vm_compute. done. Qed.
End HostSample.
