(* ===== verification/SmartSocket.v ===== *)
(** * Smart sockets

    [server/smart_socket.rs] and the device services of [server/services.rs]: the requests of a
    client connection, dispatched to the host services until a transport is selected; then the
    request for a device service, opened on the device.

    A session ends, waits in a polling service, or hands over to the relay of the two streams
    ([Bridging], whose interleavings are in [Relay]). *)
From S2P Require Import Prelude Text AdbHeader Features Net AdbTransport AuthKey Registry Handshake HostService.

Definition MAX_CMD_LEN : Z := 4096.

(** ** Requests and answers *)
Definition read_command (q : list event) : list event * res bytes (option bytes) :=
  match read_exact 4 q with
  | (q, Err _) => (q, Ok None)
  | (q, Panic) => (q, Panic)
  | (q, Ok len_buf) =>
      if negb (is_utf8 len_buf) then (q, Err (B "Invalid UTF-8 in length prefix")) else
      match parse_uint 16 usize_max len_buf with
      | None => (q, Err (B "Invalid hex length: " ++ len_buf))
      | Some cmd_len =>
          if (cmd_len =? 0) || (MAX_CMD_LEN <? cmd_len)
          then (q, Err (B "Invalid command length: " ++ fmt_dec cmd_len))
          else
            match read_exact cmd_len q with
            | (q, Ok cmd_buf) =>
                (q, if is_utf8 cmd_buf then Ok (Some cmd_buf) else Err (B "Command is not valid UTF-8"))
            | (q, Err e) => (q, Err (B "Failed to read command: " ++ io_msg e))
            | (q, Panic) => (q, Panic)
            end
      end
  end.

Definition send_okay (c : Conn) : Conn * res bytes unit := wrote (B "write OKAY failed: ") (write_all (B "OKAY") c).
Definition send_okay_with_data : bytes -> Conn -> Conn * res bytes unit := ok.
Definition send_fail : bytes -> Conn -> Conn * res bytes unit := fail.

(** ** Device services ([services.rs]) *)
Section Sockets.
Context {T : Type} `{Transport T}.

(** [next] is [NEXT_LOCAL_ID], a 32-bit counter. *)
Definition device_service_to_socket (service : bytes) (next : Z) (t : T) : Z * T * res bytes (Z * Z) :=
  let local_id := next in
  let next := wrap 32 (next + 1) in
  match t_send (Header.new A_OPEN local_id 0 service) service t with
  | (t, Ok _) =>
      match t_recv t with
      | (t, Ok (resp, _)) =>
          (next, t,
           if negb (command resp =? A_OKAY)
           then Err (B "device rejected service '" ++ service ++ B "' (expected A_OKAY, got cmd="
                     ++ fmt_hex10 (command resp) ++ B ")")
           else Ok (local_id, arg0 resp))
      | (t, Err e) => (next, t, Err (B "recv after A_OPEN for '" ++ service ++ B "' failed: " ++ transport_error_text e))
      | (t, Panic) => (next, t, Panic)
      end
  | (t, Err e) => (next, t, Err (B "A_OPEN for '" ++ service ++ B "' failed: " ++ transport_error_text e))
  | (t, Panic) => (next, t, Panic)
  end.

Record RemoteSocket := mk_remote { local_id : Z; remote_id : Z; remote_transport : T }.

Definition set_transport (t : T) (r : RemoteSocket) : RemoteSocket := mk_remote (local_id r) (remote_id r) t.

Definition send_data (data : bytes) (r : RemoteSocket) : RemoteSocket * res bytes unit :=
  match t_send (Header.new A_WRTE (local_id r) (remote_id r) data) data (remote_transport r) with
  | (t, Ok _) =>
      match t_recv t with
      | (t, Ok (ack, _)) =>
          (set_transport t r,
           if negb (command ack =? A_OKAY)
           then Err (B "RemoteSocket expected A_OKAY after WRITE, got cmd=" ++ fmt_hex10 (command ack))
           else Ok tt)
      | (t, Err e) => (set_transport t r, Err (B "RemoteSocket ACK recv failed: " ++ transport_error_text e))
      | (t, Panic) => (set_transport t r, Panic)
      end
  | (t, Err e) => (set_transport t r, Err (B "RemoteSocket WRITE failed: " ++ transport_error_text e))
  | (t, Panic) => (set_transport t r, Panic)
  end.

Definition send_close (r : RemoteSocket) : RemoteSocket * res bytes unit :=
  let '(t, o) := t_send (Header.new A_CLSE (local_id r) (remote_id r) []) [] (remote_transport r) in
  (set_transport t r, with_text (B "RemoteSocket CLOSE failed: ") o).

Definition recv_frame (r : RemoteSocket) : RemoteSocket * option (Z * Z * Z * bytes) :=
  match t_recv (remote_transport r) with
  | (t, Ok (h, p)) => (set_transport t r, Some (command h, arg0 h, arg1 h, p))
  | (t, _) => (set_transport t r, None)
  end.

Definition remote_send_okay (their_local their_remote : Z) (r : RemoteSocket) : RemoteSocket :=
  set_transport (fst (t_send (Header.new A_OKAY their_local their_remote []) [] (remote_transport r))) r.

(** [connect_to_remote]: the socket drives a clone of the transport. *)
Definition open_service (service : bytes) (next : Z) (t : T) : Z * T * res bytes RemoteSocket :=
  match device_service_to_socket service next t with
  | (next, t, Ok (local, remote)) =>
      (next, t, if t_clone t then Ok (mk_remote local remote t)
                else Err (B "Transport for '" ++ service ++ B "' cannot be cloned"))
  | (next, t, Err e) => (next, t, Err e)
  | (next, t, Panic) => (next, t, Panic)
  end.
End Sockets.
Arguments RemoteSocket : clear implicits.

(** Service names ([services.rs]). *)
Definition validate_shell (service : bytes) : res bytes unit :=
  if starts_with (B "shell") service then Ok tt else Err (B "not a shell service: " ++ service).

Definition validate_exec (service : bytes) : res bytes unit :=
  match strip_prefix (B "exec:") service with
  | Some rest =>
      if bool_decide (rest = []) || bool_decide (rest = B "v2:") || bool_decide (rest = B "v2")
      then Err (B "exec service '" ++ service ++ B "' requires a non-empty command") else Ok tt
  | None => Err (B "not an exec service: " ++ service)
  end.

Definition validate_root (service : bytes) : res bytes unit :=
  if bool_decide (service = B "root:") || bool_decide (service = B "unroot:") then Ok tt
  else Err (B "not a root/unroot service: " ++ service).

Definition validate_tcpip (service : bytes) : res bytes unit :=
  match strip_prefix (B "tcpip:") service with
  | Some port_str =>
      let! p := ok_or (parse_uint 10 65535 port_str)
                  (B "invalid port in tcpip service '" ++ service ++ B "': not a valid u16 port number") in
      if p =? 0 then Err (B "invalid port in tcpip service '" ++ service ++ B "': port cannot be 0") else Ok tt
  | None => Err (B "not a tcpip service: " ++ service)
  end.

Definition validate_usb (service : bytes) : res bytes unit :=
  if bool_decide (service = B "usb:") then Ok tt else Err (B "not a usb service: " ++ service).

Definition validate_service_name (service : bytes) : res bytes unit :=
  if starts_with (B "shell") service then validate_shell service
  else if starts_with (B "exec:") service then validate_exec service
  else if starts_with (B "root:") service || starts_with (B "unroot:") service then validate_root service
  else if starts_with (B "tcpip:") service then validate_tcpip service
  else if starts_with (B "usb:") service then validate_usb service
  else Ok tt.

(** ** The session *)

(** The transports of a session: a TCP connection of its own, or the shared USB transport, which
    can be cloned. *)
Inductive AnyTransport (U : Type) := ATcp (c : Conn) | AShared (u : U).
Arguments ATcp {U}.
Arguments AShared {U}.

#[export] Instance AnyTransport_transport {U} `{Transport U} : Transport (AnyTransport U) := {|
  t_send h p t :=
    match t with
    | ATcp c => let '(c, r) := t_send h p c in (ATcp c, r)
    | AShared u => let '(u, r) := t_send h p u in (AShared u, r)
    end;
  t_recv t :=
    match t with
    | ATcp c => let '(c, r) := t_recv c in (ATcp c, r)
    | AShared u => let '(u, r) := t_recv u in (AShared u, r)
    end;
  t_clone t := match t with ATcp c => t_clone c | AShared _ => true end |}.

Section Session.
Context `{Rsa} `{Base64} {U : Type} `{Transport U}.

(** The server's state with the cache of authenticated USB transports and the counter of ids. *)
Record Sess := mk_sess { srv : Server; usb_auth : gmap bytes U; next_local : Z }.

Inductive SessionEnd :=
| Ended (r : res bytes unit)
| Waiting
| Bridging (remote : RemoteSocket (AnyTransport U))
| OutOfFuel.

Definition is_host_cmd (cmd : bytes) : bool := starts_with (B "host:") cmd || starts_with (B "host-") cmd.
Definition is_transport_cmd (cmd : bytes) : bool :=
  is_host_cmd cmd && (starts_with (B "host:transport:") cmd || bool_decide (cmd = B "host:transport-any")
                      || starts_with (B "host:tport:") cmd || starts_with (B "host:transport-id:") cmd).

Definition unique_serial (r : TransportRegistry) : res bytes bytes :=
  let! d := find_unique_device r in Ok (serial d).

Definition extract_serial_from_transport_cmd (cmd : bytes) (r : TransportRegistry) : res bytes bytes :=
  if starts_with (B "host:transport:") cmd then Ok (after (B "host:transport:") cmd)
  else if bool_decide (cmd = B "host:transport-any") then unique_serial r
  else if starts_with (B "host:tport:serial:") cmd then Ok (after (B "host:tport:serial:") cmd)
  else if starts_with (B "host:tport:") cmd then unique_serial r
  else if starts_with (B "host:transport-id:") cmd then
    let id_str := after (B "host:transport-id:") cmd in
    let! tid := ok_or (parse_uint 10 usize_max id_str) (B "invalid transport id: " ++ id_str) in
    let! d := ok_or (find_by_transport_id r tid) (B "transport id " ++ fmt_dec tid ++ B " not found") in
    Ok (serial d)
  else Err (B "unrecognised transport command: " ++ cmd).

(** [open_transport_by_origin] and the handshake, or the authenticated USB transport. [open_usb] opens
    a USB device; without the [usb] feature there is none. *)
Definition get_transport (env : Env) (open_usb : option (bytes -> res bytes U)) (s : bytes) (o : DeviceOrigin)
    (cache : gmap bytes U) : gmap bytes U * res bytes (AnyTransport U) :=
  match o with
  | Tcp addr =>
      (cache,
       let! t := map_err (fun e => B "cannot connect to device at " ++ addr_string addr ++ B ": Connection failed to "
                                   ++ addr_string addr ++ B ": " ++ e) (connect env addr) in
       match tcp_auth_handshake (host_auth env) t with
       | (t, Ok _) => Ok (ATcp t)
       | (_, Err e) => Err e
       | (_, Panic) => Panic
       end)
  | Usb =>
      match open_usb with
      | None => (cache, Err (B "USB transport not supported (compile with --features usb)"))
      | Some open =>
          let '(cache, r) := ensure_usb_auth open (host_auth env) s cache in
          (cache, let! u := r in Ok (AShared u))
      end
  end.

(** The loop of [bridge_to_device_with_smart]: every request takes input, so the script bounds it. *)
Fixpoint device_loop (fuel : nat) (s : bytes) (st : Sess) (t : AnyTransport U) (c : Conn) : Sess * Conn * SessionEnd :=
  match fuel with
  | O => (st, c, OutOfFuel)
  | S fuel =>
      let '(q, r) := read_command (incoming c) in
      let c := set_incoming q c in
      match r with
      | Err e => (st, c, Ended (Err e))
      | Panic => (st, c, Ended Panic)
      | Ok None => (st, c, Ended (Ok tt))
      | Ok (Some cmd) =>
          if starts_with (B "host:") cmd then
            let '(c, w) := if starts_with (B "host:get-serialno") cmd then send_okay_with_data s c
                           else send_fail (B "unknown host service: " ++ cmd) c in
            match w with
            | Ok _ => device_loop fuel s st t c
            | w => (st, c, Ended w)
            end
          else
            let '(next, t, o) := open_service cmd (next_local st) t in
            let st := mk_sess (srv st) (usb_auth st) next in
            match o with
            | Ok remote =>
                match send_okay c with
                | (c, Ok _) => (st, c, Bridging remote)
                | (c, w) => (st, c, Ended w)
                end
            | Err e => (st, c, Ended (Err e))
            | Panic => (st, c, Ended Panic)
            end
      end
  end.

Definition bridge_to_device_with_smart (env : Env) (open_usb : option (bytes -> res bytes U)) (s : bytes)
    (st : Sess) (c : Conn) : Sess * Conn * SessionEnd :=
  match find_by_serial (registry (srv st)) s with
  | None => (st, c, Ended (Err (B "device '" ++ s ++ B "' not found")))
  | Some d =>
      let '(cache, r) := get_transport env open_usb s (origin d) (usb_auth st) in
      let st := mk_sess (srv st) cache (next_local st) in
      match r with
      | Ok t => device_loop (S (script_size (incoming c))) s st t c
      | Err e => (st, c, Ended (Err e))
      | Panic => (st, c, Ended Panic)
      end
  end.

(** [run_smart_socket_loop]; [sched n] are the states that the [n]-th request observes if it polls. *)
Fixpoint smart_loop (fuel n : nat) (env : Env) (open_usb : option (bytes -> res bytes U)) (sched : nat -> list Server)
    (st : Sess) (c : Conn) : Sess * Conn * SessionEnd :=
  match fuel with
  | O => (st, c, OutOfFuel)
  | S fuel =>
      let '(q, r) := read_command (incoming c) in
      let c := set_incoming q c in
      match r with
      | Err e => (st, c, Ended (Err e))
      | Panic => (st, c, Ended Panic)
      | Ok None => (st, c, Ended (Ok tt))
      | Ok (Some cmd) =>
          if is_host_cmd cmd then
            let '(s, c, o) := dispatch_host_service env cmd (srv st) (sched n) c in
            let st := mk_sess s (usb_auth st) (next_local st) in
            match o with
            | None => (st, c, Waiting)
            | Some (Ok _) =>
                if is_transport_cmd cmd then
                  match extract_serial_from_transport_cmd cmd (registry s) with
                  | Ok name => bridge_to_device_with_smart env open_usb name st c
                  | Err e => (st, c, Ended (Err e))
                  | Panic => (st, c, Ended Panic)
                  end
                else smart_loop fuel (S n) env open_usb sched st c
            | Some w => (st, c, Ended w)
            end
          else
            let '(c, w) := send_fail (B "device service requires transport selection first: " ++ cmd) c in
            (st, c, Ended w)
      end
  end.

Definition run_smart_socket_loop (env : Env) (open_usb : option (bytes -> res bytes U)) (sched : nat -> list Server)
    (st : Sess) (c : Conn) : Sess * Conn * SessionEnd :=
  smart_loop (S (script_size (incoming c))) 0 env open_usb sched st c.
End Session.

(** ** What a client writes is what the server reads *)
Lemma hex4_block n : 0 <= n < 65536 ->
  zlen (hex4 n) = 4 /\ is_utf8 (hex4 n) = true /\ parse_uint 16 usize_max (hex4 n) = Some n.
Proof.
  intros Hn. unfold hex4. split_and!.
  - unfold zlen. by rewrite length_fmt_hex_pad by (cbn; lia).
  - apply ascii_utf8, fmt_hex_pad_ascii.
  - apply parse_fmt_hex_pad; unfold usize_max; cbn; lia.
Qed.

Lemma read_command_arrives q cmd rest :
  is_utf8 cmd = true -> 0 < zlen cmd <= MAX_CMD_LEN ->
  arrives q (hex4 (zlen cmd) ++ cmd ++ rest) ->
  exists q', read_command q = (q', Ok (Some cmd)) /\ arrives q' rest.
Proof.
  intros Hu Hl Ha. unfold MAX_CMD_LEN in Hl. destruct (hex4_block (zlen cmd)) as (H4 & Hu4 & Hp); [lia|].
  destruct (arrives_read_exact_app _ _ _ Ha) as (q1 & H1 & Ha1). rewrite H4 in H1.
  destruct (arrives_read_exact_app _ _ _ Ha1) as (q2 & H2 & Ha2). exists q2. split; [|done].
  unfold read_command, MAX_CMD_LEN. rewrite H1, Hu4, Hp. cbn [negb].
  rewrite (proj2 (Z.eqb_neq _ 0)), (proj2 (Z.ltb_ge _ _)) by lia. cbn [orb]. by rewrite H2, Hu.
Qed.

(** An answer with a length is read back by the client. *)
Lemma read_hex_block_arrives what q data rest :
  zlen data < 65536 -> arrives q (hex4 (zlen data) ++ data ++ rest) ->
  exists q', read_hex_block what q = (q', Ok data) /\ arrives q' rest.
Proof.
  intros Hl Ha. pose proof (zlen_nonneg data). destruct (hex4_block (zlen data)) as (H4 & Hu4 & Hp); [lia|].
  destruct (arrives_read_exact_app _ _ _ Ha) as (q1 & H1 & Ha1). rewrite H4 in H1.
  destruct (arrives_read_exact_app _ _ _ Ha1) as (q2 & H2 & Ha2).
  unfold read_hex_block. rewrite H1, Hu4, Hp. cbn [negb].
  destruct (Z.ltb_spec 0 (zlen data)); [rewrite H2; by exists q2|].
  assert (data = []) as -> by (apply zlen_0_nil; lia). by exists q1.
Qed.

Lemma read_status_okay q rest : arrives q (B "OKAY" ++ rest) -> exists q', read_status q = (q', Ok tt) /\ arrives q' rest.
Proof.
  intros Ha. destruct (arrives_read_exact_app _ _ _ Ha) as (q1 & H1 & Ha1). change (zlen (B "OKAY")) with 4 in H1.
  unfold read_status. rewrite H1. by exists q1.
Qed.

Lemma read_status_fail q msg rest :
  is_utf8 msg = true -> zlen msg < 65536 -> arrives q (B "FAIL" ++ hex4 (zlen msg) ++ msg ++ rest) ->
  exists q', read_status q = (q', Err (TServerError msg)) /\ arrives q' rest.
Proof.
  intros Hu Hl Ha. destruct (arrives_read_exact_app _ _ _ Ha) as (q1 & H1 & Ha1). change (zlen (B "FAIL")) with 4 in H1.
  destruct (read_hex_block_arrives (B " in FAIL response") _ _ _ Hl Ha1) as (q2 & H2 & Ha2).
  unfold read_status. rewrite H1. change (bool_decide (B "FAIL" = B "OKAY")) with false.
  change (bool_decide (B "FAIL" = B "FAIL")) with true. cbv iota. rewrite H2. cbn [res_bind].
  rewrite lossy_utf8 by done. by exists q2.
Qed.

Lemma ok_empty_out c : wfail c = None -> ok_empty c = (mk_conn (incoming c) (outgoing c ++ B "OKAY") None, Ok tt).
Proof. intros Hw. unfold ok_empty. by rewrite write_all_out. Qed.

Lemma ok_out data c :
  wfail c = None -> ok data c = (mk_conn (incoming c) (outgoing c ++ B "OKAY" ++ hex4 (zlen data) ++ data) None, Ok tt).
Proof.
  intros Hw. unfold ok. rewrite write_all_out by done. cbn [then_write]. rewrite write_all_out by done. cbn [then_write].
  rewrite write_all_out by done. unfold wrote. cbn [fst snd incoming outgoing map_err]. by rewrite <- !app_assoc.
Qed.

Lemma fail_out msg c :
  wfail c = None -> fail msg c = (mk_conn (incoming c) (outgoing c ++ B "FAIL" ++ hex4 (zlen msg) ++ msg) None, Ok tt).
Proof.
  intros Hw. unfold fail. rewrite write_all_out by done. cbn [then_write]. rewrite write_all_out by done. cbn [then_write].
  rewrite write_all_out by done. unfold wrote. cbn [fst snd incoming outgoing map_err]. by rewrite <- !app_assoc.
Qed.

Lemma send_host_request_out req c :
  wfail c = None ->
  send_host_request req c = (mk_conn (incoming c) (outgoing c ++ hex4 (zlen req) ++ req) None, Ok tt).
Proof.
  intros Hw. unfold send_host_request. rewrite write_all_out by done. cbn [then_write]. rewrite write_all_out by done.
  cbn [incoming outgoing map_err]. by rewrite <- app_assoc.
Qed.

(** ** Selecting a transport, end to end *)
Section EndToEnd.
Context `{Rsa} `{Base64}.

(** C4: A client that selects a device by its serial is answered OKAY exactly when the registry has a
    device of that serial that is usable, and else the error names the serial: the request written
    by the client's library, read and dispatched by the server, and its answer read by the
    library. *)
Theorem transport_selection env s future name cl sc q :
  is_utf8 name = true -> starts_with (B "host:") name = false -> zlen name <= 4000 ->
  wfail cl = None -> outgoing cl = [] -> wfail sc = None -> outgoing sc = [] ->
  arrives (incoming sc) (outgoing (fst (send_host_request (switch_request (Some name)) cl))) ->
  exists q1 cmd, read_command (incoming sc) = (q1, Ok (Some cmd)) /\
    let '(_, sc', o) := dispatch_host_service env cmd s future (set_incoming q1 sc) in
    o = Some (Ok tt) /\
    (arrives q (outgoing sc') -> exists q', read_status q =
      (q', if match find_by_serial (registry s) name with Some d => is_usable_state (state d) | None => false end
           then Ok tt else Err (TServerError (B "device '" ++ name ++ B "' not found"))) /\ arrives q' []).
Proof.
  intros Hu Hh Hl Hwc Hoc Hws Hos Ha. unfold switch_request in Ha. rewrite Hh in Ha.
  rewrite send_host_request_out, Hoc in Ha by done. cbn [fst outgoing app] in Ha.
  set (cmd := B "host:transport:" ++ name) in *.
  assert (is_utf8 cmd = true) as Hcu by (by apply utf8_app).
  assert (0 < zlen cmd <= MAX_CMD_LEN) as Hcl.
  { unfold cmd, MAX_CMD_LEN. rewrite zlen_app. change (zlen (B "host:transport:")) with 15. pose proof (zlen_nonneg name). lia. }
  rewrite <- (app_nil_r cmd) in Ha at 2.
  destruct (read_command_arrives _ cmd [] Hcu Hcl Ha) as (q1 & Hr & Hq1). exists q1, cmd. split; [done|].
  change (dispatch_host_service env cmd s future (set_incoming q1 sc))
    with (reply s (transport_serial name (registry s) (set_incoming q1 sc))).
  unfold transport_serial, reply. destruct (match find_by_serial _ _ with Some _ => _ | None => _ end).
  - rewrite ok_empty_out by done. cbn [fst snd outgoing set_incoming]. rewrite Hos. cbn [app]. split; [done|].
    intros Hq. rewrite <- (app_nil_r (B "OKAY")) in Hq. by apply read_status_okay.
  - rewrite fail_out by done. cbn [fst snd outgoing set_incoming]. rewrite Hos. cbn [app]. split; [done|].
    intros Hq. apply read_status_fail; [by repeat apply utf8_app| |by rewrite app_nil_r].
    rewrite !zlen_app. change (zlen (B "device '")) with 8. change (zlen (B "' not found")) with 11. lia.
Qed.
End EndToEnd.

(** ** Sessions end

    Host services do not read from the client, and every request takes input: the length of the
    script bounds the rounds of both loops. *)
Create Rewrite HintDb incoming_db.

Lemma write_all_incoming bs c : incoming (fst (write_all bs c)) = incoming c.
Proof. unfold write_all, write. by destruct (wfail c). Qed.

Lemma then_write_incoming bs r : incoming (fst (then_write bs r)) = incoming (fst r).
Proof. destruct r as [c [u|e|]]; [apply write_all_incoming|done|done]. Qed.

Lemma wrote_incoming text r : incoming (fst (wrote text r)) = incoming (fst r).
Proof. done. Qed.

Lemma ok_incoming d c : incoming (fst (ok d c)) = incoming c.
Proof. unfold ok. by rewrite wrote_incoming, !then_write_incoming, write_all_incoming. Qed.
Lemma fail_incoming d c : incoming (fst (fail d c)) = incoming c.
Proof. unfold fail. by rewrite wrote_incoming, !then_write_incoming, write_all_incoming. Qed.
Lemma ok_empty_incoming c : incoming (fst (ok_empty c)) = incoming c.
Proof. unfold ok_empty. by rewrite wrote_incoming, write_all_incoming. Qed.
Lemma ok_tid_incoming t c : incoming (fst (ok_tid t c)) = incoming c.
Proof.
  unfold ok_tid. pose proof (ok_empty_incoming c) as Hi. destruct (ok_empty c) as [c' [u|e|]]; [|done|done].
  by rewrite wrote_incoming, write_all_incoming.
Qed.
#[export] Hint Rewrite ok_incoming fail_incoming ok_empty_incoming ok_tid_incoming : incoming_db.

Section Termination.
Context `{Rsa} `{Base64} {U : Type} `{Transport U}.

Ltac same_input := unfold reply; cbn [fst snd]; autorewrite with incoming_db; try done.

Lemma handle_forward_incoming env sub s c : incoming (handle_forward env sub s c).1.2 = incoming c.
Proof.
  unfold handle_forward. cbv zeta. repeat case_match; simplify_eq; same_input;
    repeat case_match; simplify_eq; same_input.
Qed.

Lemma handle_reverse_incoming sub s c : incoming (handle_reverse sub s c).1.2 = incoming c.
Proof.
  unfold handle_reverse. cbv zeta. repeat case_match; simplify_eq; same_input;
    repeat case_match; simplify_eq; same_input.
Qed.

Lemma track_devices_incoming future : forall last s c, incoming (track_devices last s future c).1.2 = incoming c.
Proof.
  induction future as [|s1 future IH]; intros last s c; cbn [track_devices];
    (destruct (running s); [|done]); cbv zeta; destruct (bool_decide _); try done; try apply IH;
    match goal with |- context [wrote ?t ?r] =>
      assert (incoming (fst (wrote t r)) = incoming c) as Hi
        by (by rewrite wrote_incoming, then_write_incoming, write_all_incoming);
      destruct (wrote t r) as [c' [u|e|]] end; try done.
  by rewrite IH.
Qed.

Lemma wait_for_device_incoming future : forall s c, incoming (wait_for_device s future c).1.2 = incoming c.
Proof.
  induction future as [|s1 future IH]; intros s c; cbn [wait_for_device];
    (destruct (running s); [|same_input]); destruct (find_any_device _); same_input; apply IH.
Qed.

Lemma dispatch_incoming env cmd s future c : incoming (dispatch_host_service env cmd s future c).1.2 = incoming c.
Proof.
  unfold dispatch_host_service. cbv zeta.
  repeat match goal with |- context [if ?b then _ else _] => destruct b end; same_input.
  - pose proof (ok_empty_incoming c). by destruct (ok_empty c) as [c' [u|e|]].
  - pose proof (ok_empty_incoming c) as Hi. destruct (ok_empty c) as [c' [u|e|]]; try done. by rewrite track_devices_incoming.
  - apply wait_for_device_incoming.
  - unfold get_service. repeat case_match; same_input.
  - unfold host_serial_get. repeat case_match; same_input.
  - unfold transport_serial. repeat case_match; same_input.
  - unfold transport_any. repeat case_match; same_input.
  - unfold tport_serial. repeat case_match; same_input.
  - unfold tport_any. repeat case_match; same_input.
  - unfold transport_by_id. repeat case_match; same_input.
  - unfold host_serial_features. repeat case_match; same_input.
  - unfold connect_service. repeat case_match; same_input.
  - unfold disconnect_service. repeat case_match; same_input.
  - apply handle_forward_incoming.
  - apply handle_reverse_incoming.
  - apply handle_reverse_incoming.
  - unfold mdns_service. repeat case_match; same_input.
Qed.

Lemma read_command_progress q :
  match read_command q with
  | (q', Ok (Some _)) => (script_size q' < script_size q)%nat
  | _ => True
  end.
Proof.
  unfold read_command. pose proof (read_exact_progress q 4 ltac:(lia)) as Hp.
  destruct (read_exact 4 q) as [q1 [len|e|]]; try done.
  destruct (negb _); [done|]. destruct (parse_uint _ _ _) as [n|]; [|done].
  destruct (_ || _); [done|]. pose proof (read_exact_size q1 n) as Hs.
  destruct (read_exact n q1) as [q2 [cmd|e|]]; try done. destruct (is_utf8 cmd); [lia|done].
Qed.

Lemma device_loop_ends : forall fuel s st t c,
  (script_size (incoming c) < fuel)%nat -> (device_loop fuel s st t c).2 <> OutOfFuel.
Proof.
  induction fuel as [|fuel IH]; intros s st t c Hf; [lia|]. cbn [device_loop].
  pose proof (read_command_progress (incoming c)) as Hp.
  destruct (read_command (incoming c)) as [q [[cmd|]|e|]]; try done.
  destruct (starts_with _ cmd).
  - assert (forall c', incoming (fst c') = q -> (let '(c, w) := c' in
      match w with Ok _ => device_loop fuel s st t c | w => (st, c, Ended w) end).2 <> OutOfFuel) as Hc.
    { intros [c' [u|e|]] Hi; try done. apply IH. cbn in Hi. rewrite Hi. lia. }
    destruct (starts_with _ cmd); apply Hc; unfold send_okay_with_data, send_fail; by autorewrite with incoming_db.
  - destruct (open_service _ _ _) as [[next t'] [remote|e|]]; try done.
    by destruct (send_okay _) as [c' [u|e|]].
Qed.

Lemma bridge_ends env open_usb s st c : (bridge_to_device_with_smart env open_usb s st c).2 <> OutOfFuel.
Proof.
  unfold bridge_to_device_with_smart. destruct (find_by_serial _ _) as [d|]; [|done].
  destruct (get_transport _ _ _ _ _) as [cache [t|e|]]; try done. apply device_loop_ends. lia.
Qed.

Lemma smart_loop_ends env open_usb sched : forall fuel n st c,
  (script_size (incoming c) < fuel)%nat -> (smart_loop fuel n env open_usb sched st c).2 <> OutOfFuel.
Proof.
  induction fuel as [|fuel IH]; intros n st c Hf; [lia|]. cbn [smart_loop].
  pose proof (read_command_progress (incoming c)) as Hp.
  destruct (read_command (incoming c)) as [q [[cmd|]|e|]]; try done.
  destruct (is_host_cmd cmd).
  - pose proof (dispatch_incoming env cmd (srv st) (sched n) (set_incoming q c)) as Hi.
    destruct (dispatch_host_service _ _ _ _ _) as [[s' c'] [[u|e|]|]]; try done.
    destruct (is_transport_cmd cmd).
    + destruct (extract_serial_from_transport_cmd _ _); try done. apply bridge_ends.
    + apply IH. cbn in Hi. rewrite Hi. lia.
  - by destruct (send_fail _ _) as [c' w].
Qed.

(** A session of a client ends, waits in a polling service or hands over to the relay, for every
    stream of requests: the loop never runs on without input. *)
Theorem smart_session_ends env open_usb sched st c :
  (run_smart_socket_loop env open_usb sched st c).2 <> OutOfFuel.
Proof. apply smart_loop_ends. lia. Qed.
End Termination.

(** ** Reaching a device *)
Section Reaching.
Context `{Rsa} `{Base64} {U : Type} `{Transport U}.

Lemma tcp_open_fails service next c :
  match open_service (T := AnyTransport U) service next (ATcp c) with
  | (_, ATcp _, Ok _) => False
  | (_, ATcp _, _) => True
  | _ => False
  end.
Proof.
  unfold open_service, device_service_to_socket. cbn [t_send t_recv AnyTransport_transport].
  destruct (t_send _ _ c) as [c1 [u|e|]]; [|done|done].
  destruct (t_recv c1) as [c2 [[resp p]|e|]]; [|done|done]. by destruct (negb _).
Qed.

Lemma tcp_device_loop : forall fuel s st tc c remote, (device_loop fuel s st (ATcp tc) c).2 <> Bridging remote.
Proof.
  induction fuel as [|fuel IH]; intros s st tc c remote; [done|]. cbn [device_loop].
  destruct (read_command (incoming c)) as [q [[cmd|]|e|]]; try done.
  destruct (starts_with _ cmd).
  - destruct (if starts_with (B "host:get-serialno") cmd then _ else _) as [c' [u|e|]]; [apply IH|done|done].
  - pose proof (tcp_open_fails cmd (next_local st) tc) as Hf.
    destruct (open_service _ _ _) as [[next [t|t]] [r|e|]]; done.
Qed.

(** No device that is connected over TCP can be used through the server: its transport does not
    provide a clone, so after the device has accepted a service the session ends with an error
    and the relay is never started. *)
Theorem tcp_service_never_relayed env open_usb s st c d addr remote :
  find_by_serial (registry (srv st)) s = Some d -> origin d = Tcp addr ->
  (bridge_to_device_with_smart env open_usb s st c).2 <> Bridging remote.
Proof.
  intros Hd Ho. unfold bridge_to_device_with_smart, get_transport. rewrite Hd, Ho.
  destruct (map_err _ (connect env addr)) as [t|e|]; cbn [res_bind]; [|done|done].
  destruct (tcp_auth_handshake _ t) as [t' [u|e|]]; [|done|done]. apply tcp_device_loop.
Qed.

(** Over an authenticated USB transport a device service is opened: the server sends A_OPEN with
    the next local id, takes the device's id from its A_OKAY, answers OKAY to the client and
    relays with both ids. *)
Theorem usb_service_relayed env open s st c d u u1 u2 cmd q resp p :
  find_by_serial (registry (srv st)) s = Some d -> origin d = Usb -> usb_auth st !! s = Some u ->
  read_command (incoming c) = (q, Ok (Some cmd)) -> starts_with (B "host:") cmd = false -> wfail c = None ->
  t_send (Header.new A_OPEN (next_local st) 0 cmd) cmd u = (u1, Ok tt) -> t_recv u1 = (u2, Ok (resp, p)) ->
  command resp = A_OKAY ->
  bridge_to_device_with_smart env (Some open) s st c =
    (mk_sess (srv st) (usb_auth st) (wrap 32 (next_local st + 1)),
     mk_conn q (outgoing c ++ B "OKAY") None,
     Bridging (mk_remote (next_local st) (arg0 resp) (AShared u2))).
Proof.
  intros Hd Ho Hu Hr Hh Hw Hs Hv Hk. unfold bridge_to_device_with_smart, get_transport, ensure_usb_auth.
  rewrite Hd, Ho, Hu. cbn [res_bind device_loop]. rewrite Hr, Hh.
  unfold open_service, device_service_to_socket. cbn [t_send t_recv t_clone AnyTransport_transport next_local].
  rewrite Hs, Hv, Hk, Z.eqb_refl. cbn [negb]. unfold send_okay. by rewrite write_all_out.
Qed.

(** A selection that was refused is not the end of the session: the client of a device that is not
    usable is sent FAIL, and the server goes on to connect to that device and to serve the
    client's next requests on it. *)
Theorem refused_selection_continues env open_usb sched st c q name d :
  read_command (incoming c) = (q, Ok (Some (B "host:transport:" ++ name))) ->
  find_by_serial (registry (srv st)) name = Some d -> is_usable_state (state d) = false -> wfail c = None ->
  let msg := B "device '" ++ name ++ B "' not found" in
  run_smart_socket_loop env open_usb sched st c =
    bridge_to_device_with_smart env open_usb name st
      (mk_conn q (outgoing c ++ B "FAIL" ++ hex4 (zlen msg) ++ msg) None).
Proof.
  intros Hr Hd Hst Hw msg. unfold run_smart_socket_loop. cbn [smart_loop]. rewrite Hr.
  change (is_host_cmd (B "host:transport:" ++ name)) with true. cbv iota.
  change (dispatch_host_service env (B "host:transport:" ++ name) (srv st) (sched 0%nat) (set_incoming q c))
    with (reply (srv st) (transport_serial name (registry (srv st)) (set_incoming q c))).
  unfold transport_serial. rewrite Hd, Hst. rewrite fail_out by done. unfold reply. cbn [fst snd].
  change (is_transport_cmd (B "host:transport:" ++ name)) with true. cbv iota.
  change (extract_serial_from_transport_cmd (B "host:transport:" ++ name) (registry (srv st))) with (@Ok bytes bytes name).
  by destruct st.
Qed.
End Reaching.

Module SessionSample.
Import KeySample HandshakeSample HostSample.

(** A request for a device, cut into two segments. *)
Definition request (cmd : bytes) : list event := [inl (hex4 (zlen cmd)); inl cmd].

Lemma transport_selection_witness :
  exists q1 cmd, read_command (request (B "host:transport:10.0.0.2:5555")) = (q1, Ok (Some cmd)) /\
    let '(_, sc', o) := dispatch_host_service env cmd (server tcp_registry) []
      (set_incoming q1 (mk_conn (request (B "host:transport:10.0.0.2:5555")) [] None)) in
    o = Some (Ok tt) /\
    (arrives [inl (B "OKAY")] (outgoing sc') -> exists q', read_status [inl (B "OKAY")] = (q', Ok tt) /\ arrives q' []).
Proof.
  apply (transport_selection env (server tcp_registry) [] (B "10.0.0.2:5555") client
    (mk_conn (request (B "host:transport:10.0.0.2:5555")) [] None) [inl (B "OKAY")]);
    try (vm_compute; done).
  unfold request. cbn [incoming]. apply (arrives_cons (hex4 _)); [done|]. by apply arrives_one.
Defined.

Definition tcp_session : Sess (U := Conn) := mk_sess (server tcp_registry) ∅ 1.

Lemma tcp_service_never_relayed_witness :
  (bridge_to_device_with_smart env None (B "10.0.0.2:5555") tcp_session
     (mk_conn (request (B "shell:ls")) [] None)).2 <> Bridging (mk_remote 1 7 (ATcp client)).
Proof.
  apply (tcp_service_never_relayed env None (B "10.0.0.2:5555") tcp_session _
    (mk_device (B "10.0.0.2:5555") 1 Device (Tcp tcp_addr) None None None None) tcp_addr);
    vm_compute; reflexivity.
Defined.

Definition usb_registry : TransportRegistry := push_device (B "S1") Usb (registry_new None).
(** A device that accepts a service with the id 7. *)
Definition usb_conn : Conn := mk_conn [inl (message_bytes (Header.new A_OKAY 7 1 [], []))] [] None.
Definition usb_session : Sess (U := Conn) := mk_sess (server usb_registry) {[ B "S1" := usb_conn ]} 1.

Lemma usb_service_relayed_witness :
  exists u, bridge_to_device_with_smart env (Some (fun _ => Err [])) (B "S1") usb_session
      (mk_conn (request (B "shell:ls")) [] None) =
    (mk_sess (server usb_registry) {[ B "S1" := usb_conn ]} 2, mk_conn [] (B "OKAY") None,
     Bridging (mk_remote 1 7 (AShared u))).
Proof.
  set (open := Header.new A_OPEN 1 0 (B "shell:ls")).
  exists (mk_conn [] (message_bytes (open, B "shell:ls")) None).
  apply (usb_service_relayed env (fun _ => Err []) (B "S1") usb_session (mk_conn (request (B "shell:ls")) [] None)
    (mk_device (B "S1") 1 Device Usb None None None None) usb_conn
    (mk_conn (incoming usb_conn) (message_bytes (open, B "shell:ls")) None)
    (mk_conn [] (message_bytes (open, B "shell:ls")) None) (B "shell:ls") []
    (Header.new A_OKAY 7 1 []) []); vm_compute; reflexivity.
Defined.

Definition offline_registry : TransportRegistry :=
  registry_step tcp_registry (SetState (B "10.0.0.2:5555") Offline).
Definition offline_session : Sess (U := Conn) := mk_sess (server offline_registry) ∅ 1.

Lemma refused_selection_continues_witness :
  run_smart_socket_loop env None (fun _ => []) offline_session
    (mk_conn (request (B "host:transport:10.0.0.2:5555")) [] None) =
  bridge_to_device_with_smart env None (B "10.0.0.2:5555") offline_session
    (mk_conn [] (B "FAIL0020device '10.0.0.2:5555' not found") None).
Proof.
  apply (refused_selection_continues env None (fun _ => []) offline_session
    (mk_conn (request (B "host:transport:10.0.0.2:5555")) [] None) [] (B "10.0.0.2:5555")
    (mk_device (B "10.0.0.2:5555") 1 Offline (Tcp tcp_addr) None None None None)); vm_compute; reflexivity.
Defined.
End SessionSample.
