(* ===== verification/Relay.v ===== *)
(** * The relay between a client and a device service

    [bridge_smart_remote] of [server/smart_socket.rs]: two threads share one transport. The reader
    takes messages of the device, acknowledges them and writes their data to the client; the writer sends the client's
    data in WRTE messages and takes the next message as the acknowledgement. Both take from the same
    queue, every receive, send, read and write can fail, and the interleavings are the runs of [step].

    The client gets the data of the messages that the reader takes, and the device the client's data ([relay_delivers]); but a
    message that crosses the client's data is taken by the wrong thread in some runs ([relay_race]). *)
From S2P Require Import Prelude Text AdbHeader Net AdbTransport Handshake.

Definition message : Type := AdbMessageHeader * bytes.

(** [RELAY_BUF_SIZE]: the most that one read of the client returns. *)
Definition RELAY_BUF_SIZE : Z := 65536.

(** Where a thread is: between the calls that can block or fail. *)
Inductive reader_state :=
| Receiving
| Acking (m : message)
| Writing (m : message)
| AckingClose (m : message)
| ReaderDone (r : res bytes unit).
Inductive writer_state :=
| Reading
| Sending (chunk : bytes)
| AwaitAck
| SendingClose
| WriterDone (r : res bytes unit).

(** [dev_in]: messages of the device not yet taken; [cl_in]: what is left of the client's stream; [cl_out]: what was written to
    the client; [to_dev]: the messages sent to the device. *)
Record Relay := mk_relay {
  dev_in : list message;
  cl_in : bytes;
  cl_out : bytes;
  to_dev : list message;
  reader : reader_state;
  writer : writer_state }.

Definition set_reader (r : reader_state) (s : Relay) : Relay := mk_relay (dev_in s) (cl_in s) (cl_out s) (to_dev s) r (writer s).
Definition set_writer (w : writer_state) (s : Relay) : Relay := mk_relay (dev_in s) (cl_in s) (cl_out s) (to_dev s) (reader s) w.
Definition set_dev_in (q : list message) (s : Relay) : Relay := mk_relay q (cl_in s) (cl_out s) (to_dev s) (reader s) (writer s).
Definition to_device (m : message) (s : Relay) : Relay := mk_relay (dev_in s) (cl_in s) (cl_out s) (to_dev s ++ [m]) (reader s) (writer s).
Definition to_client (data : bytes) (s : Relay) : Relay := mk_relay (dev_in s) (cl_in s) (cl_out s ++ data) (to_dev s) (reader s) (writer s).

Definition ack_of (cmd : Z) (m : message) : message :=
  (Header.new cmd (arg1 (fst m)) (arg0 (fst m)) [], []).

(** A message taken by the thread from the device to the client. *)
Definition reader_takes (m : message) (rest : list message) (s : Relay) : Relay :=
  set_reader (if command (fst m) =? A_WRTE then Acking m else if command (fst m) =? A_CLSE then AckingClose m else Receiving)
    (set_dev_in rest s).

(** A message taken by [send_data] as the acknowledgement of the data it has sent. *)
Definition not_okay (m : message) : bytes := B "RemoteSocket expected A_OKAY after WRITE, got cmd=" ++ fmt_hex10 (command (fst m)).
Definition writer_takes (m : message) (rest : list message) (s : Relay) : Relay :=
  set_writer (if negb (command (fst m) =? A_OKAY) then WriterDone (Err (not_okay m)) else Reading) (set_dev_in rest s).

Definition dev_lost : bytes := B "device→client: device disconnected".
Definition client_lost : bytes := B "device→client: client write failed".
Definition read_lost : bytes := B "client→device: client read failed".

Section Steps.
Variables (local remote : Z).

Definition data_msg (chunk : bytes) : message := (Header.new A_WRTE local remote chunk, chunk).
Definition close_msg : message := (Header.new A_CLSE local remote [], []).

(** A step, with the message that the device sends in it. A failed write to the client may have written a part; the results of the
    acknowledgements and of [send_close] are ignored; [e] is the text of an error of the transport. *)
Inductive step : Relay -> list message -> Relay -> Prop :=
| device_sends s m : step s [m] (set_dev_in (dev_in s ++ [m]) s)
| reader_step s m rest : reader s = Receiving -> dev_in s = m :: rest -> step s [] (reader_takes m rest s)
| reader_disconnected s : reader s = Receiving -> step s [] (set_reader (ReaderDone (Err dev_lost)) s)
| reader_acks s m : reader s = Acking m -> step s [] (set_reader (Writing m) (to_device (ack_of A_OKAY m) s))
| reader_ack_fails s m : reader s = Acking m -> step s [] (set_reader (Writing m) s)
| reader_writes s m : reader s = Writing m -> step s [] (set_reader Receiving (to_client (snd m) s))
| reader_write_fails s m k :
    reader s = Writing m -> step s [] (set_reader (ReaderDone (Err client_lost)) (to_client (take k (snd m)) s))
| reader_closes s m : reader s = AckingClose m -> step s [] (set_reader (ReaderDone (Ok tt)) (to_device (ack_of A_CLSE m) s))
| reader_close_fails s m : reader s = AckingClose m -> step s [] (set_reader (ReaderDone (Ok tt)) s)
| writer_reads s chunk rest :
    writer s = Reading -> cl_in s = chunk ++ rest -> 0 < zlen chunk <= RELAY_BUF_SIZE ->
    step s [] (mk_relay (dev_in s) rest (cl_out s) (to_dev s) (reader s) (Sending chunk))
| writer_eof s : writer s = Reading -> cl_in s = [] -> step s [] (set_writer SendingClose s)
| writer_read_fails s : writer s = Reading -> step s [] (set_writer (WriterDone (Err read_lost)) s)
| writer_sends s chunk : writer s = Sending chunk -> step s [] (set_writer AwaitAck (to_device (data_msg chunk) s))
| writer_send_fails s chunk e :
    writer s = Sending chunk -> step s [] (set_writer (WriterDone (Err (B "RemoteSocket WRITE failed: " ++ e))) s)
| writer_step s m rest : writer s = AwaitAck -> dev_in s = m :: rest -> step s [] (writer_takes m rest s)
| writer_disconnected s e :
    writer s = AwaitAck -> step s [] (set_writer (WriterDone (Err (B "RemoteSocket ACK recv failed: " ++ e))) s)
| writer_closes s : writer s = SendingClose -> step s [] (set_writer (WriterDone (Ok tt)) (to_device close_msg s))
| writer_close_fails s : writer s = SendingClose -> step s [] (set_writer (WriterDone (Ok tt)) s).

Definition initial (data : bytes) : Relay := mk_relay [] data [] [] Receiving Reading.

(** Runs, with all that the device has sent. *)
Inductive run (data : bytes) : list message -> Relay -> Prop :=
| run_start : run data [] (initial data)
| run_step log s ms s' : run data log s -> step s ms s' -> run data (log ++ ms) s'.

(** The WRTE messages of a list, and their data. *)
Definition writes (ms : list message) : list message := List.filter (fun m => command (fst m) =? A_WRTE) ms.
Definition data_of (ms : list message) : bytes := concat (map snd (writes ms)).

Lemma writes_app a c : writes (a ++ c) = writes a ++ writes c.
Proof. apply List.filter_app. Qed.
Lemma data_of_app a c : data_of (a ++ c) = data_of a ++ data_of c.
Proof. unfold data_of. by rewrite writes_app, map_app, concat_app. Qed.
Lemma writes_one m : writes [m] = if command (fst m) =? A_WRTE then [m] else [].
Proof. unfold writes. cbn [List.filter]. by destruct (_ =? _). Qed.
Lemma data_of_one m : data_of [m] = if command (fst m) =? A_WRTE then snd m else [].
Proof. unfold data_of. rewrite writes_one. destruct (_ =? _); [|done]. cbn. apply app_nil_r. Qed.

(** Acknowledgements among the messages sent. *)
Definition okays (ms : list message) : list message := List.filter (fun m => command (fst m) =? A_OKAY) ms.
Lemma relay_okays_app a c : okays (a ++ c) = okays a ++ okays c.
Proof. apply List.filter_app. Qed.

(** What the reader has yet to write, and to acknowledge, of the messages [ms] that it took. *)
Definition delivered (ms : list message) (s : Relay) : Prop :=
  match reader s with
  | Receiving | AckingClose _ => cl_out s = data_of ms
  | Acking m | Writing m => cl_out s ++ snd m = data_of ms
  | ReaderDone (Err e) => cl_out s = data_of ms \/ e = client_lost /\ cl_out s `prefix_of` data_of ms
  | ReaderDone _ => cl_out s = data_of ms
  end.

Definition acknowledged (ms : list message) (s : Relay) : Prop :=
  match reader s with
  | Acking m => exists old, writes ms = old ++ [m] /\ okays (to_dev s) `sublist_of` map (ack_of A_OKAY) old
  | _ => okays (to_dev s) `sublist_of` map (ack_of A_OKAY) (writes ms)
  end.

(** The message that the writer has taken by mistake. *)
Definition misread (ms : list message) (s : Relay) : Prop :=
  ms = [] \/ exists m, ms = [m] /\ command (fst m) <> A_OKAY /\ writer s = WriterDone (Err (not_okay m)).

(** The client's data that the writer has read and not sent. *)
Definition unsent (chunk : bytes) (s : Relay) : Prop :=
  match writer s with
  | Reading | AwaitAck | SendingClose | WriterDone (Ok _) => chunk = []
  | Sending c => chunk = c
  | WriterDone (Err e) => chunk = [] \/ B "RemoteSocket WRITE failed: " `prefix_of` e
  | WriterDone Panic => False
  end.

Definition relayed (data : bytes) (log : list message) (s : Relay) : Prop :=
  (exists before mis after,
     log = before ++ mis ++ after ++ dev_in s /\ misread mis s /\
     delivered (before ++ after) s /\ acknowledged (before ++ after) s) /\
  (exists chunk, unsent chunk s /\ data_of (to_dev s) ++ chunk ++ cl_in s = data) /\
  (writer s = SendingClose \/ writer s = WriterDone (Ok tt) -> cl_in s = []).

Definition from_device (log : list message) (s : Relay) : Prop :=
  exists before mis after,
    log = before ++ mis ++ after ++ dev_in s /\ misread mis s /\ delivered (before ++ after) s /\ acknowledged (before ++ after) s.

(** A step of the writer that takes no message leaves that side as it is. *)
Lemma from_device_writer log s s' :
  dev_in s' = dev_in s -> cl_out s' = cl_out s -> okays (to_dev s') = okays (to_dev s) -> reader s' = reader s ->
  (forall e, writer s <> WriterDone (Err e)) -> from_device log s -> from_device log s'.
Proof.
  intros E1 E2 E3 E4 Hw (before & mis & after & Hl & Hm & Hd & Ha). exists before, mis, after.
  unfold delivered, acknowledged, misread in *. rewrite E1, E2, E3, E4. split_and!; [done| |done|done].
  destruct Hm as [->|(m & _ & _ & Hm)]; [by left|]. by destruct (Hw _ Hm).
Qed.

(** A step of the reader within the treatment of one message. *)
Lemma from_device_reader log s s' :
  dev_in s' = dev_in s -> writer s' = writer s ->
  (forall ms, delivered ms s -> acknowledged ms s -> delivered ms s' /\ acknowledged ms s') ->
  from_device log s -> from_device log s'.
Proof.
  intros E1 E2 Hk (before & mis & after & Hl & Hm & Hd & Ha). exists before, mis, after.
  destruct (Hk _ Hd Ha). unfold misread in *. rewrite E1, E2. done.
Qed.

Lemma okays_ack s cmd m : okays (to_dev s ++ [ack_of cmd m]) = okays (to_dev s) ++ if cmd =? A_OKAY then [ack_of cmd m] else [].
Proof. rewrite relay_okays_app. unfold okays at 2. cbn [List.filter ack_of fst command Header.new]. by destruct (cmd =? A_OKAY). Qed.

Lemma from_device_step log s ms s' : from_device log s -> step s ms s' -> from_device (log ++ ms) s'.
Proof.
  intros Hf Hs. destruct Hs as [s m|s m rest Hr Hi|s Hr|s m Hr|s m Hr|s m Hr|s m k Hr|s m Hr|s m Hr|s c rest Hw Hi Hc|s Hw Hi|s Hw|s c Hw|s c e Hw|s m rest Hw Hi|s e Hw|s Hw|s Hw];
    rewrite ?app_nil_r; try (revert Hf; apply from_device_writer; try reflexivity; [cbn; rewrite relay_okays_app; apply app_nil_r|by rewrite Hw]);
    try (revert Hf; apply from_device_writer; try reflexivity; by rewrite Hw).
  - destruct Hf as (before & mis & after & -> & Hm & Hd & Ha). exists before, mis, after. cbn [dev_in set_dev_in].
    rewrite <- !app_assoc. done.
  - destruct Hf as (before & mis & after & -> & Hm & Hd & Ha). exists before, mis, (after ++ [m]).
    unfold delivered, acknowledged in Hd, Ha. rewrite Hr in Hd, Ha. rewrite Hi. unfold reader_takes. cbn [set_reader set_dev_in dev_in].
    rewrite <- !app_assoc. split_and!; [done|done| |]; unfold delivered, acknowledged; cbn [reader set_reader set_dev_in cl_out to_dev];
      rewrite !(app_assoc before), ?data_of_app, ?data_of_one, ?writes_app, ?writes_one.
    + destruct (command (fst m) =? A_WRTE); [by rewrite Hd, data_of_app|]. rewrite app_nil_r, <- data_of_app. by destruct (_ =? _).
    + destruct (command (fst m) =? A_WRTE); [by exists (writes before ++ writes after); rewrite <- writes_app|].
      rewrite app_nil_r, <- writes_app. by destruct (_ =? _).
  - revert Hf. apply from_device_reader; [done|done|]. intros ms. unfold delivered, acknowledged. cbn. rewrite Hr. intros ? ?. split; [by left|done].
  - revert Hf. apply from_device_reader; [done|done|]. intros ms. unfold delivered, acknowledged. cbn [reader set_reader to_device cl_out to_dev].
    rewrite Hr, okays_ack. intros Hd (old & -> & Ha). split; [done|]. rewrite map_app. by apply sublist_app.
  - revert Hf. apply from_device_reader; [done|done|]. intros ms. unfold delivered, acknowledged. cbn [reader set_reader cl_out to_dev].
    rewrite Hr. intros Hd (old & -> & Ha). split; [done|]. rewrite map_app. by apply sublist_inserts_r.
  - revert Hf. apply from_device_reader; [done|done|]. intros ms. unfold delivered, acknowledged. cbn [reader set_reader to_client cl_out to_dev].
    by rewrite Hr.
  - revert Hf. apply from_device_reader; [done|done|]. intros ms. unfold delivered, acknowledged. cbn [reader set_reader to_client cl_out to_dev].
    rewrite Hr. intros <- Ha. split; [|done]. right. split; [done|]. apply prefix_app. exists (drop k (snd m)). by rewrite take_drop.
  - revert Hf. apply from_device_reader; [done|done|]. intros ms. unfold delivered, acknowledged. cbn [reader set_reader to_device cl_out to_dev].
    rewrite Hr, okays_ack. change (A_CLSE =? A_OKAY) with false. by rewrite app_nil_r.
  - revert Hf. apply from_device_reader; [done|done|]. intros ms. unfold delivered, acknowledged. cbn [reader set_reader cl_out to_dev].
    by rewrite Hr.
  - destruct Hf as (before & mis & after & -> & Hm & Hd & Ha). rewrite Hi.
    assert (mis = []) as -> by (destruct Hm as [?|(m' & _ & _ & Hm)]; [done|congruence]). cbn [app].
    unfold writer_takes. destruct (Z.eqb_spec (command (fst m)) A_OKAY) as [E|E]; cbn [negb].
    + exists (before ++ after ++ [m]), [], []. cbn [app dev_in set_writer set_dev_in]. rewrite app_nil_r, <- !app_assoc. split_and!; [done|by left|..];
        unfold delivered, acknowledged in *; cbn [reader set_writer set_dev_in cl_out to_dev];
        rewrite !(app_assoc before), ?data_of_app, ?writes_app, ?data_of_one, ?writes_one, E in *; cbn [Z.eqb A_OKAY A_WRTE]; by rewrite ?app_nil_r.
    + exists (before ++ after), [m], []. cbn [app dev_in set_writer set_dev_in]. rewrite <- !app_assoc, app_nil_r. split_and!; [done| |done|done].
      right. by exists m.
Qed.

(** The client's data: sent, read and not yet sent, or still in its stream. *)
Definition from_client (data : bytes) (s : Relay) : Prop :=
  (exists chunk, unsent chunk s /\ data_of (to_dev s) ++ chunk ++ cl_in s = data) /\
  (writer s = SendingClose \/ writer s = WriterDone (Ok tt) -> cl_in s = []).

Lemma data_of_ack ms cmd m : data_of (ms ++ [ack_of cmd m]) = data_of ms.
Proof. rewrite data_of_app, data_of_one. cbn [ack_of fst snd]. destruct (_ =? _); apply app_nil_r. Qed.

(** A step of the reader leaves that side as it is. *)
Lemma from_client_reader data s s' :
  cl_in s' = cl_in s -> data_of (to_dev s') = data_of (to_dev s) -> writer s' = writer s -> from_client data s -> from_client data s'.
Proof. intros E1 E2 E3. unfold from_client, unsent. by rewrite E1, E2, E3. Qed.

Lemma from_client_step data s ms s' : from_client data s -> step s ms s' -> from_client data s'.
Proof.
  intros Hf Hs. destruct Hs as [s m|s m rest Hr Hi|s Hr|s m Hr|s m Hr|s m Hr|s m k Hr|s m Hr|s m Hr|s c rest Hw Hi Hc|s Hw Hi|s Hw|s c Hw|s c e Hw|s m rest Hw Hi|s e Hw|s Hw|s Hw];
    try (revert Hf; apply from_client_reader; try reflexivity; apply data_of_ack);
    destruct Hf as [(chunk & Hu & Hd) He]; unfold unsent in Hu; rewrite Hw in Hu, He; unfold from_client, unsent;
    cbn [writer set_writer set_dev_in to_device cl_in to_dev].
  - split; [|by intros []]. exists c. split; [done|]. rewrite <- Hd, Hi, Hu. done.
  - split; [|by intros _]. exists []. by subst chunk.
  - split; [|by intros []]. exists []. subst. split; [by left|done].
  - split; [|by intros []]. exists []. split; [done|]. rewrite data_of_app, data_of_one. cbn [data_msg fst snd command Header.new].
    change (A_WRTE =? A_WRTE) with true. cbv iota. subst chunk. by rewrite <- app_assoc.
  - split; [|by intros []]. exists c. subst chunk. split; [|done]. right. by exists e.
  - unfold writer_takes. cbn [writer set_writer set_dev_in cl_in to_dev]. subst chunk. split.
    + exists []. split; [destruct (negb _); [by left|done]|done].
    + destruct (negb _); by intros [].
  - split; [|by intros []]. exists []. subst. split; [by left|done].
  - specialize (He (or_introl eq_refl)). split; [|done]. exists []. subst chunk. split; [done|].
    rewrite data_of_app, data_of_one. change (command (fst close_msg) =? A_WRTE) with false. by rewrite app_nil_r.
  - specialize (He (or_introl eq_refl)). split; [|done]. exists []. by subst chunk.
Qed.

(** C19: In every interleaving of the two threads, with any of their sends, receives, reads and writes failing:
    of the messages that the device has sent and the relay has taken, all but at most one were taken for the client; it has been
    written exactly their data, in order, the last one's apart while it is being written, or a prefix when a write to it has failed;
    only messages with data are acknowledged, in order and once. The one message is lost exactly when the writer has taken it in
    place of its acknowledgement and ended with that error. The device has been sent the client's data in order and
    without change, up to the chunk that is being sent or whose sending has failed, and all of it when the writer ends without error. *)
Theorem relay_delivers data log s : run data log s -> relayed data log s.
Proof.
  intros Hr. assert (from_device log s /\ from_client data s) as [Hd [H1 H2]]; [|exact (conj Hd (conj H1 H2))].
  induction Hr as [|log s ms s' _ [IH1 IH2] Hs].
  - split; [|split; [by exists []|by intros []]]. exists [], [], []. split_and!; [done|by left|done|apply sublist_nil].
  - split; [by eapply from_device_step|by eapply from_client_step].
Qed.

(** The two threads take each other's messages in some runs: when the device sends data and then
    acknowledges the client's data, the writer may take the data as the acknowledgement: it fails
    and the data is gone; when it only acknowledges, the reader may take the acknowledgement, and
    the writer waits for one that never comes. *)
Theorem relay_race chunk h payload ack :
  0 < zlen chunk <= RELAY_BUF_SIZE -> command h = A_WRTE -> command (fst ack) = A_OKAY ->
  (exists s e, run chunk [(h, payload); ack] s /\ writer s = WriterDone (Err e) /\
     cl_out s = [] /\ data_of (dev_in s) = []) /\
  (exists s, run chunk [ack] s /\ writer s = AwaitAck /\ dev_in s = []).
Proof.
  intros Hc Hh Ha.
  assert (run chunk [] (mk_relay [] [] [] [] Receiving (Sending chunk))) as R0.
  { eapply (run_step _ [] _ []); [apply run_start|]. apply (writer_reads (initial chunk) chunk []); [done| |done]. by rewrite app_nil_r. }
  assert (run chunk [] (mk_relay [] [] [] [data_msg chunk] Receiving AwaitAck)) as R1
    by (eapply (run_step _ [] _ []); [exact R0|by apply (writer_sends (mk_relay [] [] [] [] Receiving (Sending chunk)) chunk)]).
  split.
  - pose proof (run_step _ _ _ _ _ R1 (device_sends _ (h, payload))) as R2.
    pose proof (run_step _ _ _ _ _ R2 (device_sends _ ack)) as R3.
    pose proof (run_step _ _ _ _ _ R3 ltac:(refine (writer_step _ (h, payload) [ack] _ _); reflexivity)) as R4.
    eexists _, _. split; [exact R4|]. cbn [writer_takes set_writer set_dev_in writer cl_out dev_in fst]. rewrite Hh, data_of_one, Ha. done.
  - pose proof (run_step _ _ _ _ _ R1 (device_sends _ ack)) as R2.
    pose proof (run_step _ _ _ _ _ R2 ltac:(refine (reader_step _ ack [] _ _); reflexivity)) as R3.
    eexists. split; [exact R3|]. unfold reader_takes. rewrite Ha. done.
Qed.
End Steps.

Lemma relay_delivers_witness :
  let m := (Header.new A_WRTE 7 1 (B "hi"), B "hi") in
  let s := mk_relay [] [] (B "hi") [ack_of A_OKAY m] Receiving SendingClose in
  run 1 7 [] [m] s /\ relayed [] [m] s.
Proof.
  intros m s. assert (run 1 7 [] [m] s) as Hr.
  { refine (run_step 1 7 _ [m] _ [] _ _ _); [|apply (reader_writes 1 7 (mk_relay [] [] [] [ack_of A_OKAY m] (Writing m) SendingClose) m); done].
    refine (run_step 1 7 _ [m] _ [] _ _ _); [|apply (reader_acks 1 7 (mk_relay [] [] [] [] (Acking m) SendingClose) m); done].
    refine (run_step 1 7 _ [m] _ [] _ _ _); [|apply (writer_eof 1 7 (mk_relay [] [] [] [] (Acking m) Reading)); done].
    refine (run_step 1 7 _ [m] _ [] _ _ _); [|apply (reader_step 1 7 (mk_relay [m] [] [] [] Receiving Reading) m []); done].
    refine (run_step 1 7 _ [] _ [m] _ _ _); [apply run_start|]. apply (device_sends 1 7 (initial [])). }
  split; [exact Hr|]. exact (relay_delivers 1 7 [] [m] s Hr).
Defined.

Lemma relay_race_witness :
  let h := Header.new A_WRTE 7 1 (B "hi") in
  let ack := (Header.new A_OKAY 7 1 [], []) in
  (exists s e, run 1 7 (B "ls") [(h, B "hi"); ack] s /\ writer s = WriterDone (Err e) /\
     cl_out s = [] /\ data_of (dev_in s) = []) /\
  (exists s, run 1 7 (B "ls") [ack] s /\ writer s = AwaitAck /\ dev_in s = []).
Proof. intros h ack. by apply relay_race. Defined.
