(* ===== verification/Verity.v ===== *)
(** * Files of an incremental install

    [client/incremental/incremental_utils.rs] and the file side of [incremental_server.rs]: blocks, the
    size of a verity tree, the headers of an [.idsig] file, and the blocks of an archive that the
    device needs first. A file is its contents; the [zip] crate's reading of a central directory is a
    parameter. *)
From S2P Require Import Prelude Text Net.

Definition BLOCK_SIZE : Z := 4096.
Definition DIGEST_SIZE : Z := 32.
Definition MAX_SIGNATURE_SIZE : Z := 8096.
Definition IDSIG_EXTENSION : bytes := B ".idsig".
Definition HASHES_PER_BLOCK : Z := BLOCK_SIZE / DIGEST_SIZE.

(** ** Blocks *)
Definition offset_to_block_index (offset : Z) : Z :=
  swrap 32 (Z.shiftr (Z.land offset (Z.lnot (BLOCK_SIZE - 1))) 12).

Definition num_bytes_to_num_blocks (b : Z) : Z :=
  if b <=? 0 then 0 else swrap 32 (swrap 64 (b + BLOCK_SIZE - 1) ÷ BLOCK_SIZE).

(** The loop over the levels of the tree, from the leaves; the number of blocks at least halves, so the
    bits of an [i64] are enough fuel. *)
Fixpoint tree_go (fuel : nat) (hash_block_count total : Z) : Z :=
  match fuel with
  | O => total
  | S fuel =>
      if 1 <? hash_block_count then
        let n := (hash_block_count + HASHES_PER_BLOCK - 1) ÷ HASHES_PER_BLOCK in tree_go fuel n (total + n)
      else total
  end.

Definition verity_tree_blocks_for_file (file_size : Z) : Z :=
  if file_size =? 0 then 0 else tree_go 63 (1 + (file_size - 1) ÷ BLOCK_SIZE) 0.

Definition verity_tree_size_for_file (file_size : Z) : Z := verity_tree_blocks_for_file file_size * BLOCK_SIZE.

(** ** Signatures *)
Record IdSigHeaders := mk_idsig { sig_bytes : bytes; sig_tree_size : Z }.

(** [read_exact] of a file: what is left of it. *)
Definition read_file {E} (n : Z) (e : E) (rest : bytes) : res E (bytes * bytes) :=
  if n <=? zlen rest then Ok (take (Z.to_nat n) rest, drop (Z.to_nat n) rest) else Err e.

Definition i32_of (bs : bytes) : Z := swrap 32 (le_val bs).
Definition i16_of (bs : bytes) : Z := swrap 16 (le_val bs).
Definition i64_of (bs : bytes) : Z := swrap 64 (le_val bs).

Definition read_i32 (rest : bytes) : res bytes (Z * bytes) :=
  let! '(b, rest) := read_file 4 (B "Failed to read int: End of file") rest in Ok (i32_of b, rest).

Definition append_bytes_with_size (rest signature : bytes) (bytes_left : Z) : res bytes (bytes * bytes * Z) :=
  let! '(size, rest) := read_i32 rest in
  if (size <? 0) || (bytes_left <? size) then Err (B "Invalid size " ++ fmt_int size) else
  if size =? 0 then Ok (rest, signature, bytes_left) else
  let! '(data, rest) := read_file size (B "Failed to read data: End of file") rest in
  Ok (rest, signature ++ le_bytes 4 size ++ data, bytes_left - size).

Definition read_id_sig_headers (file : bytes) : res bytes IdSigHeaders :=
  let! '(version, rest) := read_i32 file in
  let! '(rest, signature, max_size) := append_bytes_with_size rest (le_bytes 4 version) (MAX_SIGNATURE_SIZE - 4) in
  let! '(rest, signature, _) := append_bytes_with_size rest signature max_size in
  let! '(tree_size, _) := read_i32 rest in
  Ok (mk_idsig signature tree_size).

Definition fail_seek : bytes := B "Failed to seek: " ++ io_msg unexpected_eof.
Definition fail_int : bytes := B "Failed to read int: " ++ io_msg unexpected_eof.

Definition skip_bytes_with_size (rest : bytes) : res bytes bytes :=
  let! '(b, rest) := read_file 4 fail_int rest in
  let size := i32_of b in
  if size <? 0 then Err (B "Invalid size " ++ fmt_int size) else
  if size =? 0 then Ok rest else
  let! '(_, rest) := read_file size fail_seek rest in Ok rest.

(** The offset of the tree, and its size. *)
Definition skip_id_sig_headers (file : bytes) : res bytes (Z * Z) :=
  let! '(_, rest) := read_file 4 fail_seek file in
  let! rest := skip_bytes_with_size rest in
  let! rest := skip_bytes_with_size rest in
  let! '(b, rest) := read_file 4 fail_int rest in
  Ok (zlen file - zlen rest, i32_of b).

Definition validate_signature (signature : bytes) (tree_size file_size : Z) : res bytes unit :=
  if MAX_SIGNATURE_SIZE <? zlen signature
  then Err (B "Signature is too long: " ++ fmt_dec (zlen signature) ++ B ". Max allowed is " ++ fmt_dec MAX_SIGNATURE_SIZE)
  else
    let expected := verity_tree_size_for_file file_size in
    if negb (tree_size =? swrap 32 expected)
    then Err (B "Verity tree size mismatch [was " ++ fmt_int tree_size ++ B ", expected " ++ fmt_int expected ++ B "]")
    else Ok tt.

(** ** Priority blocks *)

(** Little-endian values at a position of the file. *)
Definition read_exact_at (file : bytes) (offset n : Z) : option bytes :=
  if offset <? 0 then None
  else if offset + n <=? zlen file then Some (slice offset (offset + n) file) else None.
Definition read_i32_le_at (file : bytes) (offset : Z) : option Z := i32_of <$> read_exact_at file offset 4.
Definition read_i16_le_at (file : bytes) (offset : Z) : option Z := i16_of <$> read_exact_at file offset 2.
Definition read_i64_le_at (file : bytes) (offset : Z) : option Z := i64_of <$> read_exact_at file offset 8.

Definition ZIP_EOCD_REC_MIN_SIZE : Z := 22.
Definition ZIP_EOCD_REC_SIG : Z := 0x06054b50.
Definition ZIP_EOCD_CENTRAL_DIR_SIZE_FIELD_OFFSET : Z := 12.
Definition ZIP_EOCD_COMMENT_LENGTH_FIELD_OFFSET : Z := 20.

(** The rounds of the search from [comment_len] on; [fuel] is what is left of [0..file_size]. *)
Fixpoint central_dir_go (fuel : nat) (file : bytes) (max_eocd_offset comment_len : Z) : option Z :=
  match fuel with
  | O => None
  | S fuel =>
      let offset := max_eocd_offset - comment_len in
      if offset <? 0 then None else
      sig ← read_i32_le_at file offset;
      if sig =? ZIP_EOCD_REC_SIG then
        comment_len_buf ← read_i16_le_at file (max_eocd_offset - comment_len + ZIP_EOCD_COMMENT_LENGTH_FIELD_OFFSET);
        if comment_len_buf =? comment_len then
          cd_len ← read_i32_le_at file (offset + ZIP_EOCD_CENTRAL_DIR_SIZE_FIELD_OFFSET);
          Some (offset - cd_len)
        else central_dir_go fuel file max_eocd_offset (comment_len + 1)
      else central_dir_go fuel file max_eocd_offset (comment_len + 1)
  end.

Definition central_dir_offset (file : bytes) (file_size : Z) : option Z :=
  if file_size <? ZIP_EOCD_REC_MIN_SIZE then None
  else central_dir_go (Z.to_nat file_size) file (file_size - ZIP_EOCD_REC_MIN_SIZE) 0.

Definition APK_SIG_BLOCK_MIN_SIZE : Z := 32.
Definition APK_SIG_BLOCK_FOOTER_SIZE : Z := 24.
Definition APK_SIG_BLOCK_MAGIC_HI : Z := 0x3234206b636f6c42.
Definition APK_SIG_BLOCK_MAGIC_LO : Z := 0x20676953204b5041.

Definition signer_block_offset (file : bytes) (file_size : Z) : option Z :=
  cd_offset ← central_dir_offset file file_size;
  if cd_offset <? APK_SIG_BLOCK_MIN_SIZE then None else
  lo ← read_i64_le_at file (cd_offset - 16);
  if negb (lo =? APK_SIG_BLOCK_MAGIC_LO) then None else
  hi ← read_i64_le_at file (cd_offset - 8);
  if negb (hi =? APK_SIG_BLOCK_MAGIC_HI) then None else
  signer_size_in_footer ← read_i32_le_at file (cd_offset - APK_SIG_BLOCK_FOOTER_SIZE);
  let signer_block_offset := cd_offset - signer_size_in_footer - 8 in
  if signer_block_offset <? 0 then None else
  signer_size_in_header ← read_i32_le_at file signer_block_offset;
  if negb (signer_size_in_footer =? signer_size_in_header) then None
  else Some signer_block_offset.

(** [append_blocks]; block numbers are [i32]. *)
Definition append_blocks (start count : Z) (blocks : list Z) : list Z :=
  if count =? 1 then blocks ++ [start]
  else if 1 <? count then blocks ++ map (fun i => swrap 32 (start + Z.of_nat i)) (seq 0 (Z.to_nat count))
  else blocks.

Definition NUM_BLOCKS_IN_EOCD_SEARCH : Z := 64 * 1024 / BLOCK_SIZE + 1.

Definition zip_priority_blocks (signer_block_offset file_size : Z) : list Z :=
  let signer_block_index := offset_to_block_index signer_block_offset in
  let last_block_index := offset_to_block_index file_size in
  let num_priority_blocks := swrap 32 (last_block_index - signer_block_index + 1) in
  let blocks :=
    if NUM_BLOCKS_IN_EOCD_SEARCH <? num_priority_blocks
    then append_blocks signer_block_index (num_priority_blocks - NUM_BLOCKS_IN_EOCD_SEARCH)
           (append_blocks (swrap 32 (last_block_index - NUM_BLOCKS_IN_EOCD_SEARCH + 1)) NUM_BLOCKS_IN_EOCD_SEARCH [])
    else append_blocks signer_block_index num_priority_blocks [] in
  append_blocks 0 1 blocks.

(** [retain] with a set of the blocks seen. *)
Fixpoint retain_new (seen : gset Z) (blocks : list Z) : list Z :=
  match blocks with
  | [] => []
  | b :: bs => if bool_decide (b ∈ seen) then retain_new seen bs else b :: retain_new ({[b]} ∪ seen) bs
  end.
Definition unduplicate (blocks : list Z) : list Z := retain_new ∅ blocks.

(** An entry of the archive as the [zip] crate gives it ([None] if it cannot be read). *)
Record ZipEntry := mk_entry {
  entry_name : bytes; header_start : Z; entry_stored : bool; entry_size : Z; compressed_size : Z }.

Definition is_priority_name (name : bytes) : bool :=
  (starts_with (B "lib/") name && ends_with (B ".so") name)
  || bool_decide (name = B "resources.arsc") || bool_decide (name = B "AndroidManifest.xml")
  || bool_decide (name = B "classes.dex").

Definition entry_blocks (e : ZipEntry) (blocks : list Z) : list Z :=
  if negb (is_priority_name (entry_name e)) then blocks else
  let entry_start := swrap 64 (header_start e) in
  if bool_decide (entry_name e = B "classes.dex") then append_blocks (offset_to_block_index entry_start) 2 blocks
  else
    let payload_len := swrap 64 (if entry_stored e then entry_size e else compressed_size e) in
    let entry_end := swrap 64 (entry_start + payload_len + 16) in
    let start_block := offset_to_block_index entry_start in
    let end_block := offset_to_block_index entry_end in
    append_blocks start_block (swrap 32 (end_block - start_block + 1)) blocks.

Definition installation_priority_blocks (archive : option (list (option ZipEntry))) : list Z :=
  match archive with
  | None => []
  | Some es => fold_left (fun blocks e => match e with Some e => entry_blocks e blocks | None => blocks end) es []
  end.

Definition requires_v4_signature (file : bytes) : bool :=
  ends_with (B ".apk") (to_ascii_lowercase file) || ends_with (B "sdm") (to_ascii_lowercase file).

Definition priority_blocks_for_file (zip : bytes -> option (list (option ZipEntry))) (filepath file : bytes) (file_size : Z) : list Z :=
  if negb (ends_with (B ".apk") (to_ascii_lowercase filepath)) then [] else
  match signer_block_offset file file_size with
  | None => []
  | Some signer_offset =>
      unduplicate (zip_priority_blocks signer_offset file_size ++ installation_priority_blocks (zip file))
  end.

(** ** Sizes *)
Lemma offset_to_block_index_div o : 0 <= o < 2 ^ 43 -> offset_to_block_index o = o / BLOCK_SIZE.
Proof.
  intros Ho. unfold offset_to_block_index, BLOCK_SIZE.
  assert (Z.shiftr (Z.land o (Z.lnot (4096 - 1))) 12 = o / 4096) as ->.
  { rewrite Z.shiftr_land. change (Z.shiftr (Z.lnot (4096 - 1)) 12) with (-1). rewrite Z.land_m1_r.
    rewrite Z.shiftr_div_pow2 by lia. done. }
  apply swrap_small; [lia|]. unfold sint. split; [|apply Z.div_lt_upper_bound; lia].
  pose proof (Z.div_pos o 4096). lia.
Qed.

Definition cdiv (a b : Z) : Z := (a + b - 1) / b.

Lemma num_blocks_cdiv b : 0 <= b < 2 ^ 42 -> num_bytes_to_num_blocks b = cdiv b BLOCK_SIZE.
Proof.
  intros Hb. unfold num_bytes_to_num_blocks, cdiv, BLOCK_SIZE. zcase.
  - assert (b = 0) as -> by lia. done.
  - rewrite (swrap_small 64) by (unfold sint; lia). rewrite Z.quot_div_nonneg by lia.
    apply swrap_small; [lia|]. unfold sint. split; [pose proof (Z.div_pos (b + 4096 - 1) 4096); lia|].
    apply Z.div_lt_upper_bound; lia.
Qed.

Lemma cdiv_half n : 2 <= n -> 1 <= cdiv n HASHES_PER_BLOCK <= n / 2.
Proof.
  intros. unfold cdiv. change HASHES_PER_BLOCK with 128. split.
  - apply Z.div_le_lower_bound; lia.
  - pose proof (Z.div_mod n 2 ltac:(lia)). pose proof (Z.mod_pos_bound n 2 ltac:(lia)).
    pose proof (Z.div_mod (n + 128 - 1) 128 ltac:(lia)). pose proof (Z.mod_pos_bound (n + 128 - 1) 128 ltac:(lia)). lia.
Qed.

Lemma tree_go_step fuel n t :
  2 <= n -> tree_go (S fuel) n t = tree_go fuel (cdiv n HASHES_PER_BLOCK) (t + cdiv n HASHES_PER_BLOCK).
Proof.
  intros. cbn [tree_go]. rewrite (proj2 (Z.ltb_lt 1 n)) by lia.
  change HASHES_PER_BLOCK with 128. unfold cdiv. by rewrite Z.quot_div_nonneg by lia.
Qed.

Lemma tree_go_small fuel n t : n <= 1 -> tree_go fuel n t = t.
Proof. intros. destruct fuel; cbn [tree_go]; [done|]. by rewrite (proj2 (Z.ltb_ge 1 n)) by lia. Qed.

Lemma tree_go_total fuel : forall n t, tree_go fuel n t = t + tree_go fuel n 0.
Proof.
  induction fuel as [|fuel IH]; intros n t; cbn [tree_go]; [lia|].
  destruct (1 <? n); [|lia]. rewrite IH, (IH _ (0 + _)). lia.
Qed.

Lemma tree_go_fuel fuel : forall n k t, n < 2 ^ Z.of_nat fuel -> tree_go (fuel + k) n t = tree_go fuel n t.
Proof.
  induction fuel as [|fuel IH]; intros n k t Hn.
  { apply tree_go_small. cbn in Hn. lia. }
  destruct (Z.lt_ge_cases n 2) as [Hlt|Hge]; [by rewrite !tree_go_small by lia|].
  rewrite Nat.add_succ_l, !tree_go_step by done. apply IH.
  pose proof (cdiv_half n Hge). rewrite Nat2Z.inj_succ, Z.pow_succ_r in Hn by lia.
  assert (n / 2 < 2 ^ Z.of_nat fuel) by (apply Z.div_lt_upper_bound; lia). lia.
Qed.

(** The number of data blocks that a positive size takes. *)
Lemma tree_blocks_of fs : 0 < fs -> verity_tree_blocks_for_file fs = tree_go 63 (cdiv fs BLOCK_SIZE) 0.
Proof.
  intros. unfold verity_tree_blocks_for_file. rewrite (proj2 (Z.eqb_neq fs 0)) by lia.
  rewrite Z.quot_div_nonneg by (unfold BLOCK_SIZE; lia). do 2 f_equal. unfold cdiv, BLOCK_SIZE.
  replace (fs + 4096 - 1) with (fs - 1 + 1 * 4096) by lia. rewrite Z.div_add by lia. lia.
Qed.

Lemma cdiv_mul n : cdiv (n * BLOCK_SIZE) BLOCK_SIZE = n.
Proof.
  unfold cdiv, BLOCK_SIZE. replace (n * 4096 + 4096 - 1) with (4095 + n * 4096) by lia.
  rewrite Z.div_add by lia. done.
Qed.

(** The size of a verity tree, level by level: a file of at most one block has no tree, and the tree
    of a larger one has a hash block for every 128 of its blocks and, above them, the tree of these
    hash blocks; the loop computes this for every size that an [i64] has. *)
Theorem verity_tree_levels fs :
  0 < fs < 2 ^ 63 ->
  let n := cdiv fs BLOCK_SIZE in
  let hashes := cdiv n HASHES_PER_BLOCK in
  verity_tree_blocks_for_file fs
  = if n <=? 1 then 0 else hashes + verity_tree_blocks_for_file (hashes * BLOCK_SIZE).
Proof.
  intros Hfs n hashes. rewrite tree_blocks_of by lia. fold n. destruct (Z.leb_spec n 1) as [Hn|Hn]; [by apply tree_go_small|].
  assert (n < 2 ^ 52).
  { unfold n, cdiv, BLOCK_SIZE. apply Z.div_lt_upper_bound; lia. }
  pose proof (cdiv_half n ltac:(lia)) as Hh. fold hashes in Hh.
  rewrite tree_blocks_of by (unfold BLOCK_SIZE; lia). rewrite cdiv_mul, tree_go_step by lia. fold hashes.
  rewrite tree_go_total. assert (n / 2 < 2 ^ 51) by (apply Z.div_lt_upper_bound; lia).
  rewrite <- (tree_go_fuel 62 hashes 1 0) by (change (Z.of_nat 62) with 62; lia).
  change (62 + 1)%nat with 63%nat. lia.
Qed.

Lemma verity_tree_levels_witness :
  verity_tree_blocks_for_file (130 * 4096) = 2 + verity_tree_blocks_for_file (2 * 4096) /\
  verity_tree_blocks_for_file (130 * 4096) = 3.
Proof. split; [apply (verity_tree_levels (130 * 4096)); lia|vm_compute; reflexivity]. Defined.

(** ** Signature files *)
Lemma read_file_app {E} n (e : E) a b : zlen a = n -> read_file n e (a ++ b) = Ok (a, b).
Proof.
  intros <-. unfold read_file. rewrite zlen_app. pose proof (zlen_nonneg b).
  rewrite (proj2 (Z.leb_le _ _)) by lia. unfold zlen. by rewrite Nat2Z.id, take_app_length, drop_app_length.
Qed.

Lemma i32_of_bytes v : sint 32 v -> i32_of (le_bytes 4 v) = v.
Proof.
  intros Hv. unfold i32_of. rewrite le_val_bytes. change (8 * Z.of_nat 4) with 32.
  fold (wrap 32 v). rewrite swrap_wrap by lia. by apply swrap_small.
Qed.

(** A field: its length and its bytes; in the signature, an empty field is left out. *)
Definition sized (x : bytes) : bytes := le_bytes 4 (zlen x) ++ x.
Definition sized_in_signature (x : bytes) : bytes := match x with [] => [] | _ => sized x end.

Lemma read_i32_bytes v rest : sint 32 v -> read_i32 (le_bytes 4 v ++ rest) = Ok (v, rest).
Proof. intros Hv. unfold read_i32. rewrite read_file_app by done. cbn [res_bind]. by rewrite i32_of_bytes. Qed.

Lemma append_sized x rest signature bytes_left :
  zlen x <= bytes_left < 2 ^ 31 ->
  append_bytes_with_size (sized x ++ rest) signature bytes_left
  = Ok (rest, signature ++ sized_in_signature x, bytes_left - zlen x).
Proof.
  intros Hx. pose proof (zlen_nonneg x). unfold append_bytes_with_size, sized. rewrite <- app_assoc.
  rewrite read_i32_bytes by (unfold sint; lia). cbn [res_bind].
  rewrite (proj2 (Z.ltb_ge (zlen x) 0)), (proj2 (Z.ltb_ge bytes_left _)) by lia. cbn [orb].
  destruct x as [|b x]; [by rewrite app_nil_r, Z.sub_0_r|].
  rewrite (proj2 (Z.eqb_neq _ 0)) by (rewrite zlen_cons; pose proof (zlen_nonneg x); lia).
  by rewrite read_file_app.
Qed.

Lemma skip_sized x rest : zlen x < 2 ^ 31 -> skip_bytes_with_size (sized x ++ rest) = Ok rest.
Proof.
  intros Hx. pose proof (zlen_nonneg x). unfold skip_bytes_with_size, sized. rewrite <- app_assoc.
  rewrite read_file_app by done. cbn [res_bind]. rewrite i32_of_bytes by (unfold sint; lia).
  rewrite (proj2 (Z.ltb_ge (zlen x) 0)) by lia. destruct x as [|b x]; [done|].
  rewrite (proj2 (Z.eqb_neq _ 0)) by (rewrite zlen_cons; pose proof (zlen_nonneg x); lia).
  by rewrite read_file_app.
Qed.

(** The two readers of an [.idsig] file agree with its layout: from a version, two fields within the
    limit, the tree size and the tree, one gives the signature with the fields' length prefixes (an
    empty field without) and the tree size, and the other the same tree size and the offset at which
    exactly the tree follows. *)
Theorem idsig_layout version hashing signing tree_size tree :
  sint 32 version -> sint 32 tree_size -> zlen hashing + zlen signing <= MAX_SIGNATURE_SIZE - 4 ->
  let file := le_bytes 4 version ++ sized hashing ++ sized signing ++ le_bytes 4 tree_size ++ tree in
  read_id_sig_headers file
  = Ok (mk_idsig (le_bytes 4 version ++ sized_in_signature hashing ++ sized_in_signature signing) tree_size) /\
  exists offset, skip_id_sig_headers file = Ok (offset, tree_size) /\ drop (Z.to_nat offset) file = tree.
Proof.
  intros Hv Ht Hl file. unfold MAX_SIGNATURE_SIZE in Hl. pose proof (zlen_nonneg hashing). pose proof (zlen_nonneg signing). split.
  - unfold read_id_sig_headers, file, MAX_SIGNATURE_SIZE. rewrite read_i32_bytes by done. cbn [res_bind].
    rewrite append_sized by lia. cbn [res_bind]. rewrite append_sized by lia. cbn [res_bind].
    rewrite read_i32_bytes by done. cbn [res_bind]. by rewrite <- app_assoc.
  - exists (zlen file - zlen tree). split.
    + unfold skip_id_sig_headers. change (read_file 4 fail_seek file) with
        (read_file 4 fail_seek (le_bytes 4 version ++ sized hashing ++ sized signing ++ le_bytes 4 tree_size ++ tree)).
      rewrite read_file_app by done. cbn [res_bind]. rewrite skip_sized by lia. cbn [res_bind].
      rewrite skip_sized by lia. cbn [res_bind]. rewrite read_file_app by done. cbn [res_bind]. by rewrite i32_of_bytes.
    + set (pre := le_bytes 4 version ++ sized hashing ++ sized signing ++ le_bytes 4 tree_size).
      assert (file = pre ++ tree) as -> by (unfold file, pre; by rewrite !app_assoc).
      rewrite zlen_app. replace (zlen pre + zlen tree - zlen tree) with (zlen pre) by lia.
      unfold zlen. by rewrite Nat2Z.id, drop_app_length.
Qed.

Lemma idsig_layout_witness :
  read_id_sig_headers (le_bytes 4 2 ++ sized (B "hashing") ++ sized [] ++ le_bytes 4 4096 ++ B "tree")
  = Ok (mk_idsig (le_bytes 4 2 ++ sized (B "hashing")) 4096) /\
  exists offset,
    skip_id_sig_headers (le_bytes 4 2 ++ sized (B "hashing") ++ sized [] ++ le_bytes 4 4096 ++ B "tree") = Ok (offset, 4096) /\
    drop (Z.to_nat offset) (le_bytes 4 2 ++ sized (B "hashing") ++ sized [] ++ le_bytes 4 4096 ++ B "tree") = B "tree".
Proof. apply (idsig_layout 2 (B "hashing") [] 4096 (B "tree")); [unfold sint; lia..|vm_compute; congruence]. Defined.

(** ** Priority blocks *)
Lemma retain_new_spec bs : forall seen,
  NoDup (retain_new seen bs) /\ forall b, b ∈ retain_new seen bs <-> b ∈ bs /\ b ∉ seen.
Proof.
  induction bs as [|x bs IH]; intros seen; cbn [retain_new].
  { split; [constructor|set_solver]. }
  case_bool_decide as Hx.
  - destruct (IH seen) as [Hn Hm]. split; [done|]. intros b. rewrite Hm, elem_of_cons. naive_solver.
  - destruct (IH ({[x]} ∪ seen)) as [Hn Hm]. split.
    + constructor; [rewrite Hm; set_solver|done].
    + intros b. rewrite elem_of_cons, Hm, elem_of_cons. destruct (decide (b = x)); set_solver.
Qed.

Lemma append_blocks_in start count blocks b :
  0 <= start -> start + count <= 2 ^ 31 ->
  b ∈ append_blocks start count blocks <-> b ∈ blocks \/ start <= b < start + count.
Proof.
  intros Hs Hc. unfold append_blocks. destruct (Z.eqb_spec count 1); [rewrite elem_of_app, list_elem_of_singleton; intuition lia|]. zcase.
  - rewrite elem_of_app, (list_elem_of_In (map _ _)), in_map_iff. setoid_rewrite in_seq. split.
    + intros [?|(i & <- & Hi)]; [by left|right]. rewrite swrap_small by (unfold sint; lia). lia.
    + intros [?|Hb]; [by left|right]. exists (Z.to_nat (b - start)). rewrite swrap_small by (unfold sint; lia). lia.
  - intuition lia.
Qed.

Lemma zip_priority_blocks_in so fs b :
  0 <= so <= fs -> fs < 2 ^ 42 ->
  b ∈ zip_priority_blocks so fs <-> b = 0 \/ so / BLOCK_SIZE <= b <= fs / BLOCK_SIZE.
Proof.
  intros Hs Hf. unfold zip_priority_blocks. rewrite !offset_to_block_index_div by lia.
  pose proof (Z.div_le_mono so fs BLOCK_SIZE ltac:(done) ltac:(lia)). pose proof (Z.div_pos so BLOCK_SIZE ltac:(lia) ltac:(done)).
  assert (fs / BLOCK_SIZE < 2 ^ 30) by (apply Z.div_lt_upper_bound; unfold BLOCK_SIZE; lia).
  set (f := so / BLOCK_SIZE) in *. set (l := fs / BLOCK_SIZE) in *.
  rewrite (swrap_small 32 (l - f + 1)) by (unfold sint; lia). change NUM_BLOCKS_IN_EOCD_SEARCH with 17.
  rewrite append_blocks_in by lia. zcase.
  - rewrite (swrap_small 32 (l - 17 + 1)) by (unfold sint; lia).
    rewrite append_blocks_in, append_blocks_in, elem_of_nil by lia. intuition lia.
  - rewrite append_blocks_in, elem_of_nil by lia. intuition lia.
Qed.

(** The blocks of an archive that are sent first: no block is listed twice; for an [.apk] whose signing
    block is found (within the file), every block from the signing block to the end of the file is
    among them, and block 0; for any other file there are none. *)
Theorem priority_blocks_cover zip filepath file fs :
  let blocks := priority_blocks_for_file zip filepath file fs in
  NoDup blocks /\
  (forall so, ends_with (B ".apk") (to_ascii_lowercase filepath) = true ->
     signer_block_offset file fs = Some so -> so <= fs < 2 ^ 42 ->
     forall b, b = 0 \/ so / BLOCK_SIZE <= b <= fs / BLOCK_SIZE -> b ∈ blocks) /\
  (ends_with (B ".apk") (to_ascii_lowercase filepath) = false -> blocks = []).
Proof.
  intros blocks. unfold blocks, priority_blocks_for_file. split_and!.
  - destruct (ends_with _ _); cbn [negb]; [|constructor]. destruct (signer_block_offset file fs); [|constructor].
    apply retain_new_spec.
  - intros so -> Hs Hr b Hb. cbn [negb]. rewrite Hs. apply retain_new_spec. split; [|set_solver].
    apply elem_of_app. left. apply zip_priority_blocks_in; [|lia|done].
    assert (0 <= so); [|lia]. revert Hs. unfold signer_block_offset.
    destruct (central_dir_offset file fs) as [cd|]; [|done]. cbn. destruct (cd <? _); [done|].
    destruct (read_i64_le_at file (cd - 16)); [|done]. cbn. destruct (negb _); [done|].
    destruct (read_i64_le_at file (cd - 8)); [|done]. cbn. destruct (negb _); [done|].
    destruct (read_i32_le_at file _); [|done]. cbn. destruct (Z.ltb_spec (cd - z1 - 8) 0); [done|].
    destruct (read_i32_le_at file _); [|done]. cbn. destruct (negb _); [done|]. by intros [= <-].
  - by intros ->.
Qed.

(** An archive with a signing block at 5, an empty central directory and a comment of three bytes. *)
Definition sample_apk : bytes :=
  B "abcde" ++ le_bytes 8 24 ++ le_bytes 8 24 ++ B "APK Sig Block 42"
  ++ le_bytes 4 ZIP_EOCD_REC_SIG ++ zrep 8 x00 ++ le_bytes 4 0 ++ zrep 4 x00 ++ le_bytes 2 3 ++ B "end".

Example sample_apk_blocks :
  signer_block_offset sample_apk (zlen sample_apk) = Some 5 /\
  priority_blocks_for_file (fun _ => Some [Some (mk_entry (B "classes.dex") 4096 true 10 10); None]) (B "x.APK")
    sample_apk (zlen sample_apk) = [0; 1; 2].
Proof. vm_compute. done. Qed.
