(* ===== verification/IncServer.v ===== *)
(** * The server of an incremental install

    [client/incremental/incremental_server.rs]: the device asks for blocks of the files it is installing,
    and the server sends them, each after the hash blocks that verify it, asked for or ahead of time.
    Sources of blocks are the class [BlockSource], the LZ4 library is the class [Lz4]. *)
From S2P Require Import Prelude Text AdbHeader Net AdbTransport Verity.

Definition COMPRESSED_SIZE_MAX : Z := 3891.
Definition TYPE_DATA : Z := 0.
Definition TYPE_HASH : Z := 1.
Definition COMPRESSION_NONE : Z := 0.
Definition COMPRESSION_LZ4 : Z := 1.
Definition CHUNK_FLUSH_SIZE : Z := 31 * BLOCK_SIZE.
Definition READ_BUFFER_SIZE : Z := 128 * 1024.
Definition INCR_MAGIC : Z := 0x494e4352.
Definition SERVING_COMPLETE : Z := 0.
Definition BLOCK_MISSING : Z := 1.
Definition PREFETCH : Z := 2.
Definition DESTROY : Z := 3.

(** ** Messages *)
Record RequestCommand := mk_req { request_type : Z; req_file_id : Z; req_block_idx : Z }.

Definition request_wire_size : Z := 8.

Definition decode_request (b : bytes) : option RequestCommand :=
  if zlen b <? request_wire_size then None
  else Some (mk_req (swrap 16 (be_val (slice 0 2 b))) (swrap 16 (be_val (slice 2 4 b))) (swrap 32 (be_val (slice 4 8 b)))).

Record ResponseHeader := mk_resp {
  resp_file_id : Z; block_type : Z; compression_type : Z; resp_block_idx : Z; block_size : Z }.

Definition encode_response (h : ResponseHeader) : bytes :=
  be_bytes 2 (resp_file_id h) ++ [z2b (block_type h)] ++ [z2b (compression_type h)]
  ++ be_bytes 4 (resp_block_idx h) ++ be_bytes 2 (block_size h).

Definition done_marker : ResponseHeader := mk_resp (-1) 0 0 0 0.

Inductive SendResult := Sent | Skipped | SendError.

(** A read of a block, or its failure. *)
Class BlockSource (Src : Type) := {
  read_data_block : Src -> Z -> option bytes;
  read_tree_block : Src -> Z -> option bytes;
  has_tree : Src -> bool }.

Class Lz4 := { lz4_compress : bytes -> bytes; lz4_decompress : bytes -> option bytes }.

(** What ends a loop of the model that is given too little fuel. *)
Inductive no_fuel := NoFuel.

Section Server.
Context {Src : Type} `{BlockSource Src} `{Lz4}.

(** ** State *)
Record ServerFile := mk_file {
  filepath : bytes;
  size : Z;
  sent_blocks : list bool;
  sent_blocks_count : Z;
  sent_tree_blocks : list bool;
  priority_blocks : list Z;
  source : Src }.

Definition file_new (path : bytes) (n : Z) (src : Src) : ServerFile :=
  mk_file path n (zrep (num_bytes_to_num_blocks n `max` 0) false) 0
    (if has_tree src then zrep (verity_tree_blocks_for_file n `max` 0) false else []) [] src.

Record PrefetchState := mk_prefetch { file_index : Z; overall_index : Z; overall_end : Z; priority_index : nat }.

(** [i32::saturating_add]. *)
Definition sat_add32 (a b : Z) : Z := Z.max (- 2 ^ 31) (Z.min (2 ^ 31 - 1) (a + b)).
Definition blocks_len (f : ServerFile) : Z := swrap 32 (zlen (sent_blocks f)).

Definition prefetch_new (i : Z) (f : ServerFile) (start count : Z) : PrefetchState :=
  mk_prefetch i start (Z.min (sat_add32 start count) (blocks_len f)) 0.
Definition prefetch_full (i : Z) (f : ServerFile) : PrefetchState := prefetch_new i f 0 (blocks_len f).

Definition prefetch_done (p : PrefetchState) (f : ServerFile) : bool :=
  let overall_sent := overall_end p <=? overall_index p in
  match priority_blocks f with
  | [] => overall_sent
  | bs => overall_sent && (length bs <=? priority_index p)%nat
  end.

Record IncrementalServer := mk_server {
  files : list ServerFile;
  incoming : bytes;
  pending : bytes;
  output : bytes;
  prefetches : list PrefetchState;
  prefetched_files : gset Z;
  compressed_blocks : Z;
  uncompressed_blocks : Z;
  sent_size : Z;
  serving_complete : bool;
  destroyed : bool;
  done_sent : bool }.

Definition server_new (fs : list ServerFile) : IncrementalServer :=
  mk_server fs [] (zrep 4 x00) [] [] ∅ 0 0 0 false false false.

Definition set_files (x : list ServerFile) (s : IncrementalServer) : IncrementalServer :=
  mk_server x (incoming s) (pending s) (output s) (prefetches s) (prefetched_files s) (compressed_blocks s)
    (uncompressed_blocks s) (sent_size s) (serving_complete s) (destroyed s) (done_sent s).
Definition set_incoming (x : bytes) (s : IncrementalServer) : IncrementalServer :=
  mk_server (files s) x (pending s) (output s) (prefetches s) (prefetched_files s) (compressed_blocks s)
    (uncompressed_blocks s) (sent_size s) (serving_complete s) (destroyed s) (done_sent s).
Definition set_pending (x : bytes) (s : IncrementalServer) : IncrementalServer :=
  mk_server (files s) (incoming s) x (output s) (prefetches s) (prefetched_files s) (compressed_blocks s)
    (uncompressed_blocks s) (sent_size s) (serving_complete s) (destroyed s) (done_sent s).
Definition set_output (x : bytes) (s : IncrementalServer) : IncrementalServer :=
  mk_server (files s) (incoming s) (pending s) x (prefetches s) (prefetched_files s) (compressed_blocks s)
    (uncompressed_blocks s) (sent_size s) (serving_complete s) (destroyed s) (done_sent s).
Definition set_prefetches (x : list PrefetchState) (s : IncrementalServer) : IncrementalServer :=
  mk_server (files s) (incoming s) (pending s) (output s) x (prefetched_files s) (compressed_blocks s)
    (uncompressed_blocks s) (sent_size s) (serving_complete s) (destroyed s) (done_sent s).
Definition set_prefetched (x : gset Z) (s : IncrementalServer) : IncrementalServer :=
  mk_server (files s) (incoming s) (pending s) (output s) (prefetches s) x (compressed_blocks s)
    (uncompressed_blocks s) (sent_size s) (serving_complete s) (destroyed s) (done_sent s).
Definition count_block (compressed : bool) (s : IncrementalServer) : IncrementalServer :=
  mk_server (files s) (incoming s) (pending s) (output s) (prefetches s) (prefetched_files s)
    (if compressed then wrap 64 (compressed_blocks s + 1) else compressed_blocks s)
    (if compressed then uncompressed_blocks s else wrap 64 (uncompressed_blocks s + 1))
    (sent_size s) (serving_complete s) (destroyed s) (done_sent s).
Definition set_sent_size (x : Z) (s : IncrementalServer) : IncrementalServer :=
  mk_server (files s) (incoming s) (pending s) (output s) (prefetches s) (prefetched_files s) (compressed_blocks s)
    (uncompressed_blocks s) x (serving_complete s) (destroyed s) (done_sent s).
Definition set_serving_complete (s : IncrementalServer) : IncrementalServer :=
  mk_server (files s) (incoming s) (pending s) (output s) (prefetches s) (prefetched_files s) (compressed_blocks s)
    (uncompressed_blocks s) (sent_size s) true (destroyed s) (done_sent s).
Definition set_destroyed (s : IncrementalServer) : IncrementalServer :=
  mk_server (files s) (incoming s) (pending s) (output s) (prefetches s) (prefetched_files s) (compressed_blocks s)
    (uncompressed_blocks s) (sent_size s) (serving_complete s) true (done_sent s).
Definition set_done_sent (s : IncrementalServer) : IncrementalServer :=
  mk_server (files s) (incoming s) (pending s) (output s) (prefetches s) (prefetched_files s) (compressed_blocks s)
    (uncompressed_blocks s) (sent_size s) (serving_complete s) (destroyed s) true.

Definition set_sent_blocks (x : list bool) (n : Z) (f : ServerFile) : ServerFile :=
  mk_file (filepath f) (size f) x n (sent_tree_blocks f) (priority_blocks f) (source f).
Definition set_sent_tree_blocks (x : list bool) (f : ServerFile) : ServerFile :=
  mk_file (filepath f) (size f) (sent_blocks f) (sent_blocks_count f) x (priority_blocks f) (source f).

(** [l[i] = x] with the bounds check of the language. *)
Definition set_index {E A} (l : list A) (i : Z) (x : A) : res E (list A) :=
  if (0 <=? i) && (i <? zlen l) then Ok (<[Z.to_nat i := x]> l) else Panic.

(** ** Requests *)
Definition feed (data : bytes) (s : IncrementalServer) : IncrementalServer := set_incoming (incoming s ++ data) s.

(** The position of the magic among the positions before the last four bytes, or that of the last four
    bytes (zero if there are fewer). *)
Fixpoint scan_magic (buf : bytes) : nat * bool :=
  match buf with
  | [] => (0%nat, false)
  | _ :: rest =>
      if (4 <? zlen buf) then
        if be_val (take 4 buf) =? INCR_MAGIC then (0%nat, true)
        else let '(n, found) := scan_magic rest in (S n, found)
      else (0%nat, false)
  end.

(** The request, if there is one, and what goes to the output. *)
Definition take_request (s : IncrementalServer) : IncrementalServer * bytes * option RequestCommand :=
  let '(bcur, magic_found) := scan_magic (incoming s) in
  let forward := take bcur (incoming s) in
  let s := set_incoming (drop bcur (incoming s)) s in
  if magic_found && (4 + request_wire_size <=? zlen (incoming s))
  then (set_incoming (drop 12 (incoming s)) s, forward, decode_request (slice 4 12 (incoming s)))
  else (s, forward, None).

(** ** Output *)
Definition flush (s : IncrementalServer) : IncrementalServer :=
  let data_bytes := zlen (pending s) - 4 in
  if data_bytes =? 0 then s else
  let chunk := write_at 0 (be_bytes 4 data_bytes) (pending s) in
  set_pending (take 4 chunk) (set_sent_size (wrap 64 (sent_size s + zlen chunk)) (set_output (output s ++ chunk) s)).

Definition send (data : bytes) (fl : bool) (s : IncrementalServer) : IncrementalServer :=
  let s := set_pending (pending s ++ data) s in
  if fl || (CHUNK_FLUSH_SIZE <? zlen (pending s)) then flush s else s.

Definition emit_block (file_id block_idx ty ct : Z) (payload : bytes) (fl : bool) (s : IncrementalServer) : IncrementalServer :=
  let header := mk_resp file_id ty ct block_idx (swrap 16 (zlen payload)) in
  let s := set_pending (pending s ++ encode_response header ++ payload) s in
  if fl || (CHUNK_FLUSH_SIZE <? zlen (pending s)) then flush s else s.

Definition send_done (s : IncrementalServer) : IncrementalServer := send (encode_response done_marker) true s.

Definition drain_output (s : IncrementalServer) : IncrementalServer * bytes :=
  let s := flush s in (set_output [] s, output s).

(** ** Blocks *)
Definition send_tree_block (file_id block_idx : Z) (s : IncrementalServer) : res no_fuel (IncrementalServer * bool) :=
  let! f := get_index (files s) file_id in
  match read_tree_block (source f) block_idx with
  | Some data => Ok (emit_block file_id block_idx TYPE_HASH COMPRESSION_NONE data false s, true)
  | None => Ok (s, false)
  end.

Definition mark_tree (file_id i : Z) (s : IncrementalServer) : res no_fuel IncrementalServer :=
  let! f := get_index (files s) file_id in
  let! flags := set_index (sent_tree_blocks f) i true in
  Ok (set_files (<[Z.to_nat file_id := set_sent_tree_blocks flags f]> (files s)) s).

(** The loop over the inner nodes. *)
Fixpoint send_inner (file_id : Z) (indices : list nat) (s : IncrementalServer) : res no_fuel (IncrementalServer * bool) :=
  match indices with
  | [] => Ok (s, true)
  | i :: indices =>
      let! '(s, ok) := send_tree_block file_id (swrap 32 (Z.of_nat i)) s in
      if ok then let! s := mark_tree file_id (Z.of_nat i) s in send_inner file_id indices s
      else Ok (s, false)
  end.

Definition send_tree_blocks_for_data_block (file_id block_idx : Z) (s : IncrementalServer)
    : res no_fuel (IncrementalServer * bool) :=
  match (if 0 <=? file_id then files s !! Z.to_nat file_id else None) with
  | None => Ok (s, false)
  | Some f =>
      if negb (has_tree (source f)) then Ok (s, true) else
      let data_block_count := num_bytes_to_num_blocks (size f) in
      let total_nodes := zlen (sent_tree_blocks f) in
      let leaf_nodes_count := (data_block_count + HASHES_PER_BLOCK - 1) ÷ HASHES_PER_BLOCK in
      let leaf_nodes_offset := total_nodes - leaf_nodes_count in
      if total_nodes <=? 0 then Ok (s, true) else
      let leaf_idx := wrap 64 (leaf_nodes_offset + block_idx ÷ HASHES_PER_BLOCK) in
      match sent_tree_blocks f !! Z.to_nat leaf_idx with
      | None | Some true => Ok (s, true)
      | Some false =>
          let! '(s, ok) := send_tree_block file_id (swrap 32 leaf_idx) s in
          if negb ok then Ok (s, false) else
          let! s := mark_tree file_id leaf_idx s in
          if leaf_nodes_offset =? 0 then Ok (s, true) else
          let! f := get_index (files s) file_id in
          let! first_sent := get_index (sent_tree_blocks f) 0 in
          if first_sent : bool then Ok (s, true)
          else send_inner file_id (seq 0 (Z.to_nat (wrap 64 leaf_nodes_offset))) s
      end
  end.

Definition mark_block (file_id i : Z) (s : IncrementalServer) : res no_fuel IncrementalServer :=
  let! f := get_index (files s) file_id in
  let! flags := set_index (sent_blocks f) i true in
  Ok (set_files (<[Z.to_nat file_id := set_sent_blocks flags (swrap 32 (sent_blocks_count f + 1)) f]> (files s)) s).

Definition send_data_block (file_id block_idx : Z) (fl : bool) (s : IncrementalServer)
    : res no_fuel (IncrementalServer * SendResult) :=
  match (if 0 <=? file_id then files s !! Z.to_nat file_id else None) with
  | None => Ok (s, Skipped)
  | Some f =>
      if (block_idx <? 0) || (zlen (sent_blocks f) <=? block_idx) then Ok (s, Skipped) else
      let! already := get_index (sent_blocks f) block_idx in
      if already : bool then Ok (s, Skipped) else
      let! '(s, ok) := send_tree_blocks_for_data_block file_id block_idx s in
      if negb ok then Ok (s, SendError) else
      let! f := get_index (files s) file_id in
      match read_data_block (source f) block_idx with
      | None => Ok (s, SendError)
      | Some data =>
          let compressed := lz4_compress data in
          let use := (0 <? zlen compressed) && (zlen compressed <? COMPRESSED_SIZE_MAX) in
          let s := count_block use s in
          let! s := mark_block file_id block_idx s in
          Ok (emit_block file_id block_idx TYPE_DATA (if use then COMPRESSION_LZ4 else COMPRESSION_NONE)
                (if use then compressed else data) fl s, Sent)
      end
  end.

Definition all_files_sent (s : IncrementalServer) : bool :=
  forallb (fun f => sent_blocks_count f =? blocks_len f) (files s).

(** ** Prefetching *)

(** A run of sends while the budget lasts; with the budget left and how many blocks were visited. *)
Fixpoint send_each (file_id : Z) (bs : list Z) (budget : Z) (n : nat) (s : IncrementalServer)
    : res no_fuel (IncrementalServer * Z * nat) :=
  match bs with
  | [] => Ok (s, budget, n)
  | b :: bs =>
      if 0 <? budget then
        let! '(s, r) := send_data_block file_id b false s in
        send_each file_id bs (match r with Sent => budget - 1 | _ => budget end) (S n) s
      else Ok (s, budget, n)
  end.

(** A round ends with the front popped or the budget spent, so a unit per entry and one more is enough. *)
Fixpoint prefetch_go (fuel : nat) (blocks_to_send : Z) (s : IncrementalServer) : res no_fuel IncrementalServer :=
  match prefetches s with
  | [] => Ok s
  | p :: ps =>
      if 0 <? blocks_to_send then
        match fuel with
        | O => Err NoFuel
        | S fuel =>
            let! f := get_index (files s) (file_index p) in
            let file_id := swrap 16 (file_index p) in
            let! '(s, budget, n) := send_each file_id (drop (priority_index p) (priority_blocks f)) blocks_to_send 0 s in
            let! '(s, budget, m) := send_each file_id (seqZ (overall_index p) (overall_end p - overall_index p)) budget 0 s in
            let p := mk_prefetch (file_index p) (overall_index p + Z.of_nat m) (overall_end p) (priority_index p + n) in
            let! f := get_index (files s) (file_index p) in
            prefetch_go fuel budget (set_prefetches (if prefetch_done p f then ps else p :: ps) s)
        end
      else Ok s
  end.

Definition run_prefetching (s : IncrementalServer) : res no_fuel IncrementalServer :=
  prefetch_go (S (length (prefetches s))) 128 s.

(** ** The request switch *)
Definition handle_request (r : RequestCommand) (s : IncrementalServer) : res no_fuel IncrementalServer :=
  let file_id := req_file_id r in
  let block_idx := req_block_idx r in
  if request_type r =? DESTROY then Ok (set_destroyed s)
  else if request_type r =? SERVING_COMPLETE then Ok (set_serving_complete s)
  else if request_type r =? BLOCK_MISSING then
    if (file_id <? 0) || (zlen (files s) <=? file_id) || (block_idx <? 0) then Ok s else
    let! f := get_index (files s) file_id in
    if zlen (sent_blocks f) <=? block_idx then Ok s else
    let! '(s, result) := send_data_block file_id block_idx true s in
    match result with
    | Sent =>
        let! f := get_index (files s) file_id in
        Ok (set_prefetches (prefetch_new file_id f (swrap 32 (block_idx + 1)) 7 :: prefetches s) s)
    | _ => Ok s
    end
  else if request_type r =? PREFETCH then
    if file_id <? 0 then Ok s
    else if bool_decide (file_id ∈ prefetched_files s) then Ok s
    else
      let s := set_prefetched ({[file_id]} ∪ prefetched_files s) s in
      let! f := get_index (files s) file_id in
      Ok (set_prefetches (prefetches s ++ [prefetch_full file_id f]) s)
  else Ok s.

(** One iteration; with what goes to the output, and whether to go on. *)
Definition serve_step (s : IncrementalServer) : res no_fuel (IncrementalServer * bytes * bool) :=
  let s := if negb (done_sent s) && bool_decide (length (prefetches s) = 0%nat) && all_files_sent s
           then set_done_sent (send_done s) else s in
  let s := match prefetches s with [] => flush s | _ => s end in
  let '(s, forward, request) := take_request s in
  let! s := match request with Some r => handle_request r s | None => Ok s end in
  let! s := run_prefetching s in
  Ok (s, forward, negb (destroyed s)).
End Server.
Arguments ServerFile : clear implicits.
Arguments IncrementalServer : clear implicits.

(** ** Requests are recovered from the stream *)
Definition magic : bytes := be_bytes 4 INCR_MAGIC.

Lemma magic_at b : (be_val (take 4 b) =? INCR_MAGIC) = bool_decide (take 4 b = magic).
Proof.
  destruct (Z.eqb_spec (be_val (take 4 b)) INCR_MAGIC) as [E|E].
  - symmetry. apply bool_decide_eq_true. apply (inj reverse). apply le_val_inj; [|exact E].
    rewrite !zlen_reverse. change (zlen magic) with 4.
    destruct (decide (zlen (take 4 b) = 4)) as [|Hn]; [done|exfalso].
    assert (zlen (take 4 b) <= 3) by (unfold zlen in *; rewrite length_take in *; lia).
    pose proof (be_val_range (take 4 b)) as Hr.
    assert (2 ^ (8 * zlen (take 4 b)) <= 2 ^ 24) by (apply Z.pow_le_mono_r; lia).
    rewrite E in Hr. unfold INCR_MAGIC in Hr. lia.
  - symmetry. apply bool_decide_eq_false. intros Em. by rewrite Em in E.
Qed.

(** [take_request] on the buffer alone. *)
Definition take1 (buf : bytes) : bytes * option RequestCommand * bytes :=
  let '(bcur, found) := scan_magic buf in
  let rest := drop bcur buf in
  if found && (12 <=? zlen rest) then (take bcur buf, decode_request (slice 4 12 rest), drop 12 rest)
  else (take bcur buf, None, rest).

Lemma decode_request_some b : 8 <= zlen b -> exists r, decode_request b = Some r.
Proof. intros. unfold decode_request, request_wire_size. rewrite (proj2 (Z.ltb_ge _ 8)) by lia. eauto. Qed.

Lemma scan_magic_cons x rest :
  scan_magic (x :: rest)
  = if 4 <? zlen (x :: rest) then
      if bool_decide (take 4 (x :: rest) = magic) then (0%nat, true)
      else let '(n, found) := scan_magic rest in (S n, found)
    else (0%nat, false).
Proof. rewrite <- magic_at. done. Qed.

(** A buffer may be cut: scanning on from where the first part stopped. *)
Lemma scan_magic_app a b :
  scan_magic (a ++ b) = ((fst (scan_magic a) + fst (scan_magic (drop (fst (scan_magic a)) a ++ b)))%nat,
                         snd (scan_magic (drop (fst (scan_magic a)) a ++ b))).
Proof.
  induction a as [|x a IH]; [cbn; by destruct (scan_magic b)|].
  rewrite (scan_magic_cons x a). destruct (4 <? zlen (x :: a)) eqn:E4; [|cbn [fst drop Nat.add]; apply surjective_pairing].
  case_bool_decide as Em; [cbn [fst drop Nat.add]; apply surjective_pairing|].
  destruct (scan_magic a) as [n f] eqn:En. cbn [fst drop Nat.add] in *.
  change ((x :: a) ++ b) with (x :: a ++ b). rewrite scan_magic_cons, IH.
  apply Z.ltb_lt in E4. change (x :: a ++ b) with ((x :: a) ++ b).
  rewrite (proj2 (Z.ltb_lt 4 _)) by (rewrite zlen_app; pose proof (zlen_nonneg b); lia).
  rewrite take_app_le by (unfold zlen in E4; lia). by rewrite bool_decide_eq_false_2.
Qed.

Lemma scan_magic_found a n : scan_magic a = (n, true) -> scan_magic (drop n a) = (0%nat, true) /\ (n < length a)%nat.
Proof.
  revert n. induction a as [|x a IH]; intros n; [done|]. rewrite scan_magic_cons.
  destruct (4 <? zlen (x :: a)) eqn:E4; [|done]. case_bool_decide as Em.
  - intros [= <-]. cbn [drop length]. rewrite scan_magic_cons, E4, bool_decide_eq_true_2 by done. split; [done|lia].
  - destruct (scan_magic a) as [m f]. intros [= <- ->]. destruct (IH m eq_refl). cbn [drop length]. split; [done|lia].
Qed.

Lemma scan_magic_zero a b : scan_magic a = (0%nat, true) -> scan_magic (a ++ b) = (0%nat, true).
Proof.
  destruct a as [|x a]; [done|]. change ((x :: a) ++ b) with (x :: a ++ b). rewrite !scan_magic_cons.
  destruct (4 <? zlen (x :: a)) eqn:E4; [|done]. apply Z.ltb_lt in E4. case_bool_decide as Em.
  - intros _. change (x :: a ++ b) with ((x :: a) ++ b).
    rewrite (proj2 (Z.ltb_lt 4 _)) by (rewrite zlen_app; pose proof (zlen_nonneg b); lia).
    rewrite take_app_le by (unfold zlen in E4; lia). by rewrite bool_decide_eq_true_2.
  - by destruct (scan_magic a).
Qed.

Lemma scan_magic_le a : (fst (scan_magic a) <= length a)%nat.
Proof.
  induction a as [|x a IH]; [done|]. rewrite scan_magic_cons. destruct (_ <? _); [|cbn; lia].
  case_bool_decide; [cbn; lia|]. destruct (scan_magic a). cbn in *. lia.
Qed.

Lemma scan_magic_tail a : snd (scan_magic a) = false -> (length a <= fst (scan_magic a) + 4)%nat.
Proof.
  induction a as [|x a IH]; [cbn; lia|]. rewrite scan_magic_cons.
  destruct (Z.ltb_spec 4 (zlen (x :: a))) as [H4|H4]; unfold zlen in H4; [|cbn [fst snd length] in *; lia].
  case_bool_decide; [done|]. destruct (scan_magic a). cbn [fst snd length] in *. intros Hf. specialize (IH Hf). lia.
Qed.

Lemma take1_some_app a b fw r rest :
  take1 a = (fw, Some r, rest) -> take1 (a ++ b) = (fw, Some r, rest ++ b).
Proof.
  unfold take1. rewrite scan_magic_app. pose proof (scan_magic_le a) as Hle. destruct (scan_magic a) as [n f] eqn:En.
  cbn [fst] in *. destruct f; [|done]. cbn [andb]. destruct (Z.leb_spec 12 (zlen (drop n a))) as [H12|]; [|done].
  destruct (scan_magic_found a n En) as [H0 Hn]. rewrite (scan_magic_zero (drop n a) b H0). cbn [fst snd andb].
  rewrite Nat.add_0_r, drop_app_le, zlen_app by lia. pose proof (zlen_nonneg b).
  rewrite (proj2 (Z.leb_le 12 _)) by lia. rewrite slice_app_l by lia.
  intros [= <- -> <-]. rewrite take_app_le by lia. rewrite drop_app_le by (unfold zlen in H12; lia). done.
Qed.

Lemma take1_none_app a b fw rest :
  take1 a = (fw, None, rest) ->
  take1 (a ++ b) = (fw ++ fst (fst (take1 (rest ++ b))), snd (fst (take1 (rest ++ b))), snd (take1 (rest ++ b))).
Proof.
  intros Ha. assert (fw = take (fst (scan_magic a)) a /\ rest = drop (fst (scan_magic a)) a) as [-> ->].
  { revert Ha. unfold take1. destruct (scan_magic a) as [n f]. cbn [fst].
    destruct (f && (12 <=? zlen (drop n a))) eqn:E; [|by intros [= <- <-]].
    apply andb_true_iff in E as [_ E%Z.leb_le].
    destruct (decode_request_some (slice 4 12 (drop n a))) as [r Hr]; [rewrite zlen_slice; lia|]. rewrite Hr. done. }
  clear Ha. unfold take1. rewrite scan_magic_app. pose proof (scan_magic_le a). set (n := fst (scan_magic a)) in *.
  destruct (scan_magic (drop n a ++ b)) as [m f]. cbn [fst snd].
  assert (drop (n + m) (a ++ b) = drop m (drop n a ++ b)) as ->.
  { rewrite <- drop_drop, drop_app_le by lia. done. }
  assert (take (n + m) (a ++ b) = take n a ++ take m (drop n a ++ b)) as ->.
  { rewrite <- (drop_app_le a b n) by lia. rewrite <- (take_take_drop (a ++ b) n m). by rewrite take_app_le by lia. }
  destruct (f && _); done.
Qed.

(** All the requests of a buffer, and what is left of it. *)
Fixpoint drain_go (fuel : nat) (buf : bytes) : bytes * list RequestCommand * bytes :=
  match fuel with
  | O => ([], [], buf)
  | S fuel =>
      match take1 buf with
      | (fw, Some r, rest) => let '(t, rs, rest) := drain_go fuel rest in (fw ++ t, r :: rs, rest)
      | (fw, None, rest) => (fw, [], rest)
      end
  end.
Definition drain (buf : bytes) : bytes * list RequestCommand * bytes := drain_go (S (length buf)) buf.

Lemma take1_some_length buf fw r rest : take1 buf = (fw, Some r, rest) -> (length rest + 12 <= length buf)%nat.
Proof.
  unfold take1. destruct (scan_magic buf) as [n f]. destruct (f && _) eqn:E; [|done].
  apply andb_true_iff in E as [_ E%Z.leb_le]. intros [= <- _ <-]. unfold zlen in E. rewrite !length_drop in *. lia.
Qed.

Lemma drain_fuel fuel : forall buf k, (length buf < fuel)%nat -> drain_go (fuel + k) buf = drain_go fuel buf.
Proof.
  induction fuel as [|fuel IH]; intros buf k Hf; [lia|]. rewrite Nat.add_succ_l. cbn [drain_go].
  destruct (take1 buf) as [[fw [r|]] rest] eqn:E; [|done]. apply take1_some_length in E. by rewrite IH by lia.
Qed.

Lemma drain_unfold buf :
  drain buf = match take1 buf with
              | (fw, Some r, rest) => let '(t, rs, rest) := drain rest in (fw ++ t, r :: rs, rest)
              | (fw, None, rest) => (fw, [], rest)
              end.
Proof.
  unfold drain at 1. cbn [drain_go]. destruct (take1 buf) as [[fw [r|]] rest] eqn:E; [|done].
  apply take1_some_length in E. unfold drain.
  replace (length buf) with (S (length rest) + (length buf - S (length rest)))%nat by lia.
  by rewrite drain_fuel by lia.
Qed.

(** Draining part of a stream, and then the rest of it with more, is draining the whole. *)
Lemma drain_app a b :
  drain (a ++ b) = let '(t1, r1, rest) := drain a in
                   let '(t2, r2, rest) := drain (rest ++ b) in (t1 ++ t2, r1 ++ r2, rest).
Proof.
  remember (length a) as n eqn:Hn. revert a Hn.
  induction (lt_wf n) as [n _ IH]. intros a ->. rewrite (drain_unfold a).
  destruct (take1 a) as [[fw [r|]] rest] eqn:E.
  - rewrite drain_unfold, (take1_some_app _ b _ _ _ E).
    rewrite (IH (length rest)) by (apply take1_some_length in E; lia || done).
    destruct (drain rest) as [[t1 r1] rest1]. destruct (drain (rest1 ++ b)) as [[t2 r2] rest2].
    by rewrite app_assoc.
  - rewrite drain_unfold, (take1_none_app _ b _ _ E), (drain_unfold (rest ++ b)).
    destruct (take1 (rest ++ b)) as [[fw' [r'|]] rest']; cbn [fst snd]; [|done].
    destruct (drain rest') as [[t rs] rest'']. by rewrite app_assoc.
Qed.

(** *** The device's stream: text in which the magic does not occur, and requests *)
Definition encode_request (r : RequestCommand) : bytes :=
  magic ++ be_bytes 2 (request_type r) ++ be_bytes 2 (req_file_id r) ++ be_bytes 4 (req_block_idx r).

Definition request_ok (r : RequestCommand) : Prop :=
  sint 16 (request_type r) /\ sint 16 (req_file_id r) /\ sint 32 (req_block_idx r).

Definition magic_free (t : bytes) : Prop := forall i, take 4 (drop i t) <> magic.

Lemma magic_free_tail x t : magic_free (x :: t) -> magic_free t.
Proof. intros Hf i. apply (Hf (S i)). Qed.

(** No occurrence of the magic straddles the end of such a text and a magic that follows. *)
Lemma magic_free_next x t rest : magic_free (x :: t) -> take 4 ((x :: t) ++ magic ++ rest) <> magic.
Proof.
  intros Hf. pose proof (Hf 0%nat) as H0. cbn [drop] in H0.
  destruct t as [|y [|z [|w t]]]; [vm_compute; congruence..|exact H0].
Qed.

Lemma scan_text t rest : magic_free t -> rest <> [] -> scan_magic (t ++ magic ++ rest) = (length t, true).
Proof.
  intros Hf Hr. induction t as [|x t IH].
  - destruct rest as [|r rest]; [done|]. change (scan_magic (magic ++ r :: rest) = (0%nat, true)).
    change (magic ++ r :: rest) with ("I"%byte :: "N"%byte :: "C"%byte :: "R"%byte :: r :: rest).
    rewrite scan_magic_cons. rewrite (proj2 (Z.ltb_lt 4 _)) by (rewrite !zlen_cons; pose proof (zlen_nonneg rest); lia).
    by rewrite bool_decide_eq_true_2.
  - change ((x :: t) ++ magic ++ rest) with (x :: t ++ magic ++ rest). rewrite scan_magic_cons.
    rewrite IH by (by eapply magic_free_tail).
    rewrite (proj2 (Z.ltb_lt 4 _)) by (rewrite zlen_cons, !zlen_app; change (zlen magic) with 4; pose proof (zlen_nonneg t);
      pose proof (zlen_nonneg rest); lia).
    by rewrite bool_decide_eq_false_2 by (apply (magic_free_next x t rest Hf)).
Qed.

Lemma scan_free t : magic_free t -> scan_magic t = ((length t - 4)%nat, false).
Proof.
  induction t as [|x t IH]; intros Hf; [done|]. rewrite scan_magic_cons.
  destruct (Z.ltb_spec 4 (zlen (x :: t))) as [H4|H4]; unfold zlen in H4; cbn [length] in H4.
  - rewrite bool_decide_eq_false_2 by apply (Hf 0%nat). rewrite IH by (by eapply magic_free_tail).
    f_equal. cbn [length]. lia.
  - f_equal. cbn [length]. lia.
Qed.

Lemma be_swrap n w v : w = 8 * Z.of_nat n -> 0 < w -> sint w v -> swrap w (be_val (be_bytes n v)) = v.
Proof.
  intros -> Hw Hv. unfold be_val, be_bytes. rewrite reverse_involutive, le_val_bytes.
  fold (wrap (8 * Z.of_nat n) v). by rewrite swrap_wrap, swrap_small.
Qed.

Lemma decode_encode_request r rest : request_ok r -> decode_request (slice 4 12 (encode_request r ++ rest)) = Some r.
Proof.
  intros (H1 & H2 & H3). destruct r as [ty fid idx]; cbn [request_type req_file_id req_block_idx] in *.
  assert (slice 4 12 (encode_request (mk_req ty fid idx) ++ rest) = be_bytes 2 ty ++ be_bytes 2 fid ++ be_bytes 4 idx) as ->.
  { unfold encode_request. cbn [request_type req_file_id req_block_idx]. rewrite <- app_assoc. by apply slice_app_here. }
  unfold decode_request, request_wire_size. rewrite (proj2 (Z.ltb_ge _ 8)) by zg.
  assert (slice 0 2 (be_bytes 2 ty ++ be_bytes 2 fid ++ be_bytes 4 idx) = be_bytes 2 ty) as -> by (by apply (slice_app_here 0 2 [])).
  assert (slice 2 4 (be_bytes 2 ty ++ be_bytes 2 fid ++ be_bytes 4 idx) = be_bytes 2 fid) as -> by (by apply slice_app_here).
  assert (slice 4 8 (be_bytes 2 ty ++ be_bytes 2 fid ++ be_bytes 4 idx) = be_bytes 4 idx) as ->.
  { rewrite app_assoc, <- (app_nil_r (be_bytes 4 idx)). by apply slice_app_here. }
  by rewrite !be_swrap.
Qed.

Lemma take1_item t r rest :
  magic_free t -> request_ok r -> take1 (t ++ encode_request r ++ rest) = (t, Some r, rest).
Proof.
  intros Hf Hr. unfold take1.
  assert (scan_magic (t ++ encode_request r ++ rest) = (length t, true)) as ->.
  { unfold encode_request. rewrite <- !app_assoc. apply scan_text; [done|]. by destruct (be_bytes 2 (request_type r)) eqn:E. }
  rewrite drop_app_length, take_app_length. cbn [andb].
  assert (zlen (encode_request r) = 12) as H12 by done.
  rewrite (proj2 (Z.leb_le 12 _)) by (rewrite zlen_app, H12; pose proof (zlen_nonneg rest); lia).
  by rewrite decode_encode_request.
Qed.

Definition item_bytes (it : bytes * RequestCommand) : bytes := fst it ++ encode_request (snd it).

Lemma drain_stream items final :
  Forall (fun it => magic_free (fst it) /\ request_ok (snd it)) items -> magic_free final ->
  drain (concat (map item_bytes items) ++ final)
  = (concat (map fst items) ++ take (length final - 4) final, map snd items, drop (length final - 4) final).
Proof.
  intros Hi Hf. induction Hi as [|[t r] items [Ht Hr] Hi IH]; cbn [map concat app fst snd].
  - rewrite drain_unfold. unfold take1. by rewrite scan_free.
  - unfold item_bytes at 1. cbn [fst snd] in *. rewrite <- !app_assoc, drain_unfold, take1_item by done. by rewrite IH.
Qed.

Section Requests.
Context {Src : Type}.
Implicit Types s : IncrementalServer Src.

Fixpoint take_requests_go (fuel : nat) s : IncrementalServer Src * bytes * list RequestCommand :=
  match fuel with
  | O => (s, [], [])
  | S fuel =>
      match take_request s with
      | (s, fw, Some r) => let '(s, t, rs) := take_requests_go fuel s in (s, fw ++ t, r :: rs)
      | (s, fw, None) => (s, fw, [])
      end
  end.
Definition take_requests s := take_requests_go (S (length (incoming s))) s.

(** Blocks of the stream as they come, and all the requests after each. *)
Fixpoint feed_all (blocks : list bytes) s : IncrementalServer Src * bytes * list RequestCommand :=
  match blocks with
  | [] => (s, [], [])
  | b :: blocks =>
      let '(s, t1, r1) := take_requests (feed b s) in
      let '(s, t2, r2) := feed_all blocks s in (s, t1 ++ t2, r1 ++ r2)
  end.

Lemma take_request_take1 s :
  take_request s = let '(fw, r, rest) := take1 (incoming s) in (set_incoming rest s, fw, r).
Proof. unfold take_request, take1. destruct (scan_magic (incoming s)) as [n f]. cbn. by destruct (f && _). Qed.

Lemma take_requests_drain fuel : forall s,
  take_requests_go fuel s = let '(t, rs, rest) := drain_go fuel (incoming s) in (set_incoming rest s, t, rs).
Proof.
  induction fuel as [|fuel IH]; intros s; cbn [take_requests_go drain_go]; [by destruct s|].
  rewrite take_request_take1. destruct (take1 (incoming s)) as [[fw [r|]] rest]; [|done].
  rewrite IH. cbn. by destruct (drain_go fuel rest) as [[t rs] rest'].
Qed.

Lemma feed_all_drain blocks : forall s,
  drain (incoming s) = ([], [], incoming s) ->
  feed_all blocks s = let '(t, rs, rest) := drain (incoming s ++ concat blocks) in (set_incoming rest s, t, rs).
Proof.
  induction blocks as [|b blocks IH]; intros s Hs; cbn [feed_all concat].
  { rewrite app_nil_r, Hs. by destruct s. }
  unfold take_requests. rewrite take_requests_drain.
  change (drain_go (S (length (incoming (feed b s)))) (incoming (feed b s))) with (drain (incoming s ++ b)).
  rewrite app_assoc, (drain_app (incoming s ++ b) (concat blocks)).
  destruct (drain (incoming s ++ b)) as [[t1 r1] rest] eqn:E.
  rewrite IH; cbn [incoming set_incoming feed].
  - destruct (drain (rest ++ concat blocks)) as [[t2 r2] rest2]. done.
  - pose proof (drain_app (incoming s ++ b) []) as H0. rewrite app_nil_r, E in H0. rewrite app_nil_r in H0.
    destruct (drain rest) as [[t2 r2] rest2]. injection H0 as H1 H2 H3.
    rewrite <- (app_nil_r t1) in H1 at 1. rewrite <- (app_nil_r r1) in H2 at 1.
    apply app_inv_head in H1. apply app_inv_head in H2. by subst.
Qed.
End Requests.

(** The requests of the device are recovered from its stream, however the stream is cut into blocks and
    whatever text (without the magic) is between them: exactly the requests sent, in order; and the text
    is forwarded unchanged, but for at most four bytes that are held back at its end. *)
Theorem inc_requests_recovered {Src} (s : IncrementalServer Src) blocks items final :
  incoming s = [] ->
  Forall (fun it => magic_free (fst it) /\ request_ok (snd it)) items -> magic_free final ->
  concat blocks = concat (map item_bytes items) ++ final ->
  exists s' text, feed_all blocks s = (s', text, map snd items) /\
    text ++ incoming s' = concat (map fst items) ++ final /\ zlen (incoming s') <= 4 /\
    s' = set_incoming (incoming s') s.
Proof.
  intros Hs Hi Hf Hb. rewrite feed_all_drain by (by rewrite Hs). rewrite Hs, Hb. cbn [app].
  rewrite drain_stream by done. eexists _, _. split; [done|]. cbn [incoming set_incoming].
  split_and!; [by rewrite <- app_assoc, take_drop| |done]. unfold zlen. rewrite length_drop. lia.
Qed.

Lemma inc_requests_recovered_witness :
  let items := [(B "ab", mk_req 2 0 0); ([], mk_req 1 0 (-7))] in
  let stream := concat (map item_bytes items) ++ B "INC" in
  exists s' text,
    feed_all [take 5 stream; drop 5 stream] (server_new (Src := unit) []) = (s', text, map snd items) /\
    text ++ incoming s' = B "ab" ++ B "INC" /\ zlen (incoming s') <= 4 /\ s' = set_incoming (incoming s') (server_new []).
Proof.
  intros items stream. apply (inc_requests_recovered (server_new []) [take 5 stream; drop 5 stream] items (B "INC")).
  - reflexivity.
  - repeat constructor; cbn; try (unfold sint; lia); intros [|[|[|i]]]; vm_compute; congruence.
  - intros [|[|[|[|i]]]]; vm_compute; congruence.
  - cbn [concat]. rewrite app_nil_r. apply take_drop.
Defined.

(** ** What the device reads

    A block of the stream: its header and payload; the device reads chunks, and blocks in them. *)
Definition Block : Type := ResponseHeader * bytes.
Definition block_bytes (b : Block) : bytes := encode_response (fst b) ++ snd b.

Definition decode_response (b : bytes) : ResponseHeader :=
  mk_resp (swrap 16 (be_val (slice 0 2 b))) (swrap 8 (be_val (slice 2 3 b))) (swrap 8 (be_val (slice 3 4 b)))
    (swrap 32 (be_val (slice 4 8 b))) (swrap 16 (be_val (slice 8 10 b))).

Fixpoint parse_blocks (fuel : nat) (b : bytes) : option (list Block) :=
  match b, fuel with
  | [], _ => Some []
  | _, O => None
  | _, S fuel =>
      if zlen b <? 10 then None else
      let h := decode_response b in
      if (block_size h <? 0) || (zlen b <? 10 + block_size h) then None else
      bs ← parse_blocks fuel (drop (Z.to_nat (10 + block_size h)) b);
      Some ((h, slice 10 (10 + block_size h) b) :: bs)
  end.

Fixpoint parse_chunks (fuel : nat) (b : bytes) : option (list Block) :=
  match b, fuel with
  | [], _ => Some []
  | _, O => None
  | _, S fuel =>
      if zlen b <? 4 then None else
      let n := swrap 32 (be_val (slice 0 4 b)) in
      if (n <=? 0) || (zlen b <? 4 + n) then None else
      bs ← parse_blocks (length b) (slice 4 (4 + n) b);
      rest ← parse_chunks fuel (drop (Z.to_nat (4 + n)) b);
      Some (bs ++ rest)
  end.

Definition device_reads (stream : bytes) : option (list Block) := parse_chunks (length stream) stream.

(** The bytes of a chunk that holds the blocks [bs]. *)
Definition blocks_bytes (bs : list Block) : bytes := concat (map block_bytes bs).
Definition chunk_bytes (bs : list Block) : bytes := be_bytes 4 (zlen (blocks_bytes bs)) ++ blocks_bytes bs.

Definition block_ok (b : Block) : Prop :=
  sint 16 (resp_file_id (fst b)) /\ sint 8 (block_type (fst b)) /\ sint 8 (compression_type (fst b)) /\
  sint 32 (resp_block_idx (fst b)) /\ block_size (fst b) = zlen (snd b) /\ zlen (snd b) <= BLOCK_SIZE.

Lemma zlen_encode_response h : zlen (encode_response h) = 10.
Proof. done. Qed.

Lemma zlen_block_bytes b : zlen (block_bytes b) = 10 + zlen (snd b).
Proof. unfold block_bytes. rewrite zlen_app. by rewrite zlen_encode_response. Qed.

Lemma swrap_byte v : sint 8 v -> swrap 8 (be_val [z2b v]) = v.
Proof. intros. exact (be_swrap 1 8 v eq_refl ltac:(lia) H). Qed.

Lemma slice_head {A} n (a b : list A) : n = zlen a -> slice 0 n (a ++ b) = a.
Proof. intros ->. apply (slice_app_here 0 (zlen a) []); done. Qed.

Lemma decode_encode_response h rest :
  sint 16 (resp_file_id h) -> sint 8 (block_type h) -> sint 8 (compression_type h) -> sint 32 (resp_block_idx h) ->
  sint 16 (block_size h) -> decode_response (encode_response h ++ rest) = h.
Proof.
  destruct h as [fid ty ct idx n]. cbn [resp_file_id block_type compression_type resp_block_idx block_size].
  intros H1 H2 H3 H4 H5. unfold decode_response, encode_response. cbn [resp_file_id block_type compression_type resp_block_idx block_size].
  rewrite <- !app_assoc.
  rewrite slice_head by done.
  rewrite (slice_app_here 2 3 (be_bytes 2 fid) [z2b ty]) by done.
  rewrite (app_assoc (be_bytes 2 fid) [z2b ty]).
  rewrite (slice_app_here 3 4 (be_bytes 2 fid ++ [z2b ty]) [z2b ct]) by done.
  rewrite (app_assoc (be_bytes 2 fid ++ [z2b ty]) [z2b ct]).
  rewrite (slice_app_here 4 8 ((be_bytes 2 fid ++ [z2b ty]) ++ [z2b ct]) (be_bytes 4 idx)) by done.
  rewrite (app_assoc ((be_bytes 2 fid ++ [z2b ty]) ++ [z2b ct]) (be_bytes 4 idx)).
  rewrite (slice_app_here 8 10 (((be_bytes 2 fid ++ [z2b ty]) ++ [z2b ct]) ++ be_bytes 4 idx) (be_bytes 2 n)) by done.
  by rewrite !be_swrap, !swrap_byte.
Qed.

Lemma zlen_blocks_cons b bs : zlen (blocks_bytes (b :: bs)) = 10 + zlen (snd b) + zlen (blocks_bytes bs).
Proof. unfold blocks_bytes. cbn [map concat]. rewrite zlen_app. by rewrite zlen_block_bytes. Qed.

Lemma blocks_bytes_app a b : blocks_bytes (a ++ b) = blocks_bytes a ++ blocks_bytes b.
Proof. unfold blocks_bytes. by rewrite map_app, concat_app. Qed.

Lemma drop_zlen {A} n (a b : list A) : n = zlen a -> drop (Z.to_nat n) (a ++ b) = b.
Proof. intros ->. unfold zlen. by rewrite Nat2Z.id, drop_app_length. Qed.

Lemma parse_blocks_cons fuel b bs :
  block_ok b ->
  parse_blocks (S fuel) (block_bytes b ++ blocks_bytes bs)
  = (rest ← parse_blocks fuel (blocks_bytes bs); Some (b :: rest)).
Proof.
  destruct b as [h p]. intros (H1 & H2 & H3 & H4 & H5 & H6); cbn [fst snd] in *.
  pose proof (zlen_nonneg p). pose proof (zlen_nonneg (blocks_bytes bs)).
  assert (sint 16 (block_size h)) by (rewrite H5; unfold sint, BLOCK_SIZE in *; lia).
  unfold block_bytes. cbn [fst snd]. rewrite <- app_assoc.
  destruct (encode_response h ++ p ++ blocks_bytes bs) as [|x r] eqn:E.
  { apply (f_equal zlen) in E. rewrite zlen_app, zlen_encode_response, zlen_app, zlen_nil in E. lia. }
  cbn [parse_blocks]. rewrite <- E. clear E x r.
  rewrite !zlen_app, zlen_encode_response. rewrite (proj2 (Z.ltb_ge _ 10)) by lia.
  rewrite decode_encode_response by done. rewrite H5.
  rewrite (proj2 (Z.ltb_ge (zlen p) 0)), (proj2 (Z.ltb_ge _ (10 + zlen p))) by lia. cbn [orb].
  rewrite slice_app_here by done. rewrite app_assoc, drop_zlen by (by rewrite zlen_app). done.
Qed.

Lemma parse_blocks_bytes bs : forall fuel,
  Forall block_ok bs -> (length bs <= fuel)%nat -> parse_blocks fuel (blocks_bytes bs) = Some bs.
Proof.
  induction bs as [|b bs IH]; intros fuel Hb Hf; [by destruct fuel|].
  apply list.Forall_cons in Hb as [Hb Hbs]. cbn [length] in Hf. destruct fuel as [|fuel]; [lia|].
  change (blocks_bytes (b :: bs)) with (block_bytes b ++ blocks_bytes bs). rewrite parse_blocks_cons by done.
  by rewrite IH by (done || lia).
Qed.

Definition chunk_ok (c : list Block) : Prop :=
  c <> [] /\ zlen (blocks_bytes c) <= CHUNK_FLUSH_SIZE + BLOCK_SIZE + 10 /\ Forall block_ok c.

Lemma length_blocks_bytes bs : (length bs <= length (blocks_bytes bs))%nat.
Proof.
  induction bs as [|b bs IH]; [done|]. pose proof (zlen_blocks_cons b bs) as Hl. pose proof (zlen_nonneg (snd b)).
  unfold zlen in Hl at 1 3. cbn [length]. lia.
Qed.

Lemma parse_chunks_bytes cs : forall fuel,
  Forall chunk_ok cs -> (length cs <= fuel)%nat -> parse_chunks fuel (concat (map chunk_bytes cs)) = Some (concat cs).
Proof.
  induction cs as [|c cs IH]; intros fuel Hc Hf; [by destruct fuel|].
  apply list.Forall_cons in Hc as [(Hne & Hl & Hb) Hcs]. cbn [length] in Hf. destruct fuel as [|fuel]; [lia|].
  assert (0 < zlen (blocks_bytes c)) as Hpos.
  { destruct c as [|b c]; [done|]. rewrite zlen_blocks_cons. pose proof (zlen_nonneg (snd b)). pose proof (zlen_nonneg (blocks_bytes c)). lia. }
  unfold CHUNK_FLUSH_SIZE, BLOCK_SIZE in Hl.
  cbn [map concat]. unfold chunk_bytes at 1. rewrite <- app_assoc. set (more := concat (map chunk_bytes cs)) in *.
  pose proof (zlen_nonneg more).
  destruct (be_bytes 4 (zlen (blocks_bytes c)) ++ blocks_bytes c ++ more) as [|x r] eqn:E.
  { apply (f_equal zlen) in E. rewrite !zlen_app, zlen_be_bytes, zlen_nil in E. lia. }
  cbn [parse_chunks]. rewrite <- E. clear x r E.
  rewrite !zlen_app, zlen_be_bytes. rewrite (proj2 (Z.ltb_ge _ 4)) by lia.
  rewrite slice_head by (by rewrite zlen_be_bytes). rewrite be_swrap by (done || unfold sint; lia).
  rewrite (proj2 (Z.leb_gt _ 0)), (proj2 (Z.ltb_ge _ (4 + _))) by lia. cbn [orb].
  rewrite slice_app_here by (by rewrite ?zlen_be_bytes).
  rewrite parse_blocks_bytes; [|done|].
  2: { rewrite !length_app. pose proof (length_blocks_bytes c). lia. }
  rewrite app_assoc, drop_zlen by (by rewrite zlen_app, zlen_be_bytes). cbn. unfold more. by rewrite IH by (done || lia).
Qed.

Section Stream.
Context {Src : Type}.
Implicit Types s : IncrementalServer Src.

(** The blocks [log] have been emitted, in whole chunks but for those that are pending; [shipped] is what
    was taken from the output before. *)
Definition emits (shipped : bytes) s (log : list Block) : Prop :=
  exists cs pend hd,
    shipped ++ output s = concat (map chunk_bytes cs) /\ pending s = hd ++ blocks_bytes pend /\ zlen hd = 4 /\
    log = concat cs ++ pend /\ Forall chunk_ok cs /\ Forall block_ok pend /\ zlen (pending s) <= CHUNK_FLUSH_SIZE.

Lemma emits_flush_gen shipped s cs pend hd :
  shipped ++ output s = concat (map chunk_bytes cs) -> pending s = hd ++ blocks_bytes pend -> zlen hd = 4 ->
  Forall chunk_ok cs -> Forall block_ok pend -> zlen (pending s) <= CHUNK_FLUSH_SIZE + BLOCK_SIZE + 10 ->
  emits shipped (flush s) (concat cs ++ pend) /\ zlen (pending (flush s)) = 4.
Proof.
  intros Ho Hp Hh Hc Hb Hl. unfold flush. rewrite Hp, zlen_app, Hh. replace (4 + zlen (blocks_bytes pend) - 4) with (zlen (blocks_bytes pend)) by lia.
  destruct (Z.eqb_spec (zlen (blocks_bytes pend)) 0) as [E|E].
  - rewrite Hp, zlen_app, Hh, E. split; [|done]. exists cs, pend, hd. split_and!; try done.
    rewrite Hp, zlen_app, Hh, E. done.
  - assert (write_at 0 (be_bytes 4 (zlen (blocks_bytes pend))) (hd ++ blocks_bytes pend) = chunk_bytes pend) as ->.
    { rewrite write_at_in by (rewrite ?zlen_app, ?zlen_be_bytes; pose proof (zlen_nonneg (blocks_bytes pend)); lia).
      unfold chunk_bytes. change (take (Z.to_nat 0) (hd ++ blocks_bytes pend)) with (@nil byte). cbn [app]. f_equal.
      change (Z.to_nat 0 + length (be_bytes 4 (zlen (blocks_bytes pend))))%nat with 4%nat.
      replace 4%nat with (length hd) by (unfold zlen in Hh; lia). apply drop_app_length. }
    cbn [output pending set_pending set_sent_size set_output].
    assert (zlen (take 4 (chunk_bytes pend)) = 4) as H4.
    { unfold zlen. rewrite length_take. assert (4 <= zlen (chunk_bytes pend)).
      { unfold chunk_bytes. rewrite zlen_app, zlen_be_bytes. pose proof (zlen_nonneg (blocks_bytes pend)). lia. }
      unfold zlen in *. lia. }
    split; [|done]. exists (cs ++ [pend]), [], (take 4 (chunk_bytes pend)).
    cbn [output pending set_pending set_sent_size set_output]. split_and!; try done.
    + rewrite map_app, concat_app, app_assoc, Ho. cbn. by rewrite app_nil_r.
    + rewrite concat_app. cbn. by rewrite !app_nil_r.
    + apply Forall_app. split; [done|]. constructor; [|done]. split_and!; [by intros ->| |done].
      rewrite Hp, zlen_app in Hl. lia.
Qed.

Lemma emits_flush shipped s log : emits shipped s log -> emits shipped (flush s) log /\ zlen (pending (flush s)) = 4.
Proof.
  intros (cs & pend & hd & Ho & Hp & Hh & -> & Hc & Hb & Hl). eapply emits_flush_gen; try done.
  unfold BLOCK_SIZE. lia.
Qed.

Lemma emits_append shipped s log b fl data :
  emits shipped s log -> block_ok b -> data = block_bytes b ->
  let s1 := set_pending (pending s ++ data) s in
  emits shipped (if fl || (CHUNK_FLUSH_SIZE <? zlen (pending s1)) then flush s1 else s1) (log ++ [b]).
Proof.
  intros (cs & pend & hd & Ho & Hp & Hh & -> & Hc & Hb & Hl) Hok -> s1.
  assert (pending s1 = hd ++ blocks_bytes (pend ++ [b])) as Hp1.
  { unfold s1. cbn [pending set_pending]. rewrite Hp, blocks_bytes_app, <- app_assoc. do 2 f_equal.
    unfold blocks_bytes. cbn. by rewrite app_nil_r. }
  assert (zlen (pending s1) <= CHUNK_FLUSH_SIZE + BLOCK_SIZE + 10).
  { unfold s1. cbn [pending set_pending]. rewrite zlen_app, zlen_block_bytes. destruct Hok as (_ & _ & _ & _ & _ & ?). lia. }
  rewrite <- app_assoc. destruct (fl || _) eqn:E.
  - eapply emits_flush_gen; try done. apply Forall_app. by split; [|constructor].
  - exists cs, (pend ++ [b]), hd. split_and!; try done; [apply Forall_app; by split; [|constructor]|].
    apply orb_false_iff in E as [_ E%Z.ltb_ge]. done.
Qed.

Lemma emits_reads shipped s log :
  emits shipped s log -> device_reads (shipped ++ snd (drain_output s)) = Some log.
Proof.
  intros [(cs & pend & hd & Ho & Hp & Hh & -> & Hc & Hb & Hl) H4]%emits_flush. cbn [drain_output snd].
  rewrite Hp, zlen_app, Hh in H4. assert (pend = []) as ->.
  { destruct pend as [|b pend]; [done|]. rewrite zlen_blocks_cons in H4. pose proof (zlen_nonneg (snd b)).
    pose proof (zlen_nonneg (blocks_bytes pend)). lia. }
  rewrite Ho, app_nil_r. unfold device_reads. apply parse_chunks_bytes; [done|].
  clear -Hc. induction Hc as [|c cs (Hne & _ & _) Hc IH]; [done|]. cbn [length map concat].
  rewrite length_app. assert (1 <= length (chunk_bytes c))%nat; [|lia].
  unfold chunk_bytes. rewrite length_app. change (length (be_bytes 4 _)) with 4%nat. lia.
Qed.
End Stream.
