(* ===== verification/IncTrace.v ===== *)
(** * What an incremental server sends

    The trace specification of the blocks that the device reads, and the proof that every operation
    of IncServer keeps to it. *)
From S2P Require Import Prelude Text Verity IncServer.

Section Trace.
Context {Src : Type} `{BlockSource Src} `{Lz4}.
Implicit Types s : IncrementalServer Src.

(** What does not change of a file: its numbers of blocks and of hash blocks, its source and its
    priority blocks. *)
Record FileSpec := mk_spec { fs_blocks : nat; fs_tree : nat; fs_source : Src; fs_priority : list Z }.
Definition spec_of (f : ServerFile Src) : FileSpec :=
  mk_spec (length (sent_blocks f)) (length (sent_tree_blocks f)) (source f) (priority_blocks f).

(** Hash blocks are numbered from the root; the leaves are the last ones. *)
Definition leaf_offset (sp : FileSpec) : Z := Z.of_nat (fs_tree sp) - cdiv (Z.of_nat (fs_blocks sp)) HASHES_PER_BLOCK.

(** The hash blocks that verify a data block: its leaf and all inner nodes. *)
Definition needs (sp : FileSpec) (idx i : Z) : Prop :=
  (0 < fs_tree sp)%nat /\ (i = leaf_offset sp + idx / HASHES_PER_BLOCK \/ 0 <= i < leaf_offset sp).

Definition key (ty : Z) (b : Block) : option (Z * Z) :=
  if (0 <=? resp_file_id (fst b)) && (block_type (fst b) =? ty) then Some (resp_file_id (fst b), resp_block_idx (fst b)) else None.
Definition data_keys (log : list Block) : list (Z * Z) := omap (key TYPE_DATA) log.
Definition hash_keys (log : list Block) : list (Z * Z) := omap (key TYPE_HASH) log.

Definition hash_block (fid i : nat) (d : bytes) : Block :=
  (mk_resp (Z.of_nat fid) TYPE_HASH COMPRESSION_NONE (Z.of_nat i) (zlen d), d).
Definition data_block (fid idx : nat) (ct : Z) (p : bytes) : Block :=
  (mk_resp (Z.of_nat fid) TYPE_DATA ct (Z.of_nat idx) (zlen p), p).
Definition done_block : Block := (done_marker, []).

(** The contents that the device takes from a block. *)
Definition unpack (ct : Z) (p : bytes) : option bytes :=
  if ct =? COMPRESSION_LZ4 then lz4_decompress p else Some p.

(** The specification: a data block is in range, sent once, with the contents of the file, and after all the
    hash blocks that verify it; a hash block has the contents of the tree; the end is announced once, and
    only after every block of every file. *)
Inductive good (fs : list FileSpec) : list Block -> Prop :=
| good_nil : good fs []
| good_hash l fid i sp d :
    good fs l -> fs !! fid = Some sp -> (i < fs_tree sp)%nat ->
    read_tree_block (fs_source sp) (Z.of_nat i) = Some d -> good fs (l ++ [hash_block fid i d])
| good_data l fid idx sp d ct p :
    good fs l -> fs !! fid = Some sp -> (idx < fs_blocks sp)%nat ->
    (Z.of_nat fid, Z.of_nat idx) ∉ data_keys l ->
    (forall i, needs sp (Z.of_nat idx) i -> (Z.of_nat fid, i) ∈ hash_keys l) ->
    read_data_block (fs_source sp) (Z.of_nat idx) = Some d -> unpack ct p = Some d ->
    good fs (l ++ [data_block fid idx ct p])
| good_done l :
    good fs l -> done_block ∉ l ->
    (forall fid idx sp, fs !! fid = Some sp -> (idx < fs_blocks sp)%nat -> (Z.of_nat fid, Z.of_nat idx) ∈ data_keys l) ->
    good fs (l ++ [done_block]).

(** ** Hypotheses on the environment *)

(** The files are as [file_new] makes them, of at most 4 TiB, and their numbers fit the request's. *)
Definition file_ok (f : ServerFile Src) : Prop :=
  0 <= size f < 2 ^ 42 /\ zlen (sent_blocks f) = num_bytes_to_num_blocks (size f) /\
  zlen (sent_tree_blocks f) = if has_tree (source f) then verity_tree_blocks_for_file (size f) else 0.

(** Sources give at most a block, and trees can be read; decompression inverts compression. *)
Class GoodSource := {
  data_block_size : forall (x : Src) i d, read_data_block x i = Some d -> zlen d <= BLOCK_SIZE;
  tree_block_size : forall (x : Src) i d, read_tree_block x i = Some d -> zlen d <= BLOCK_SIZE;
  tree_readable : forall (x : Src) i, has_tree x = true -> is_Some (read_tree_block x i) }.
Class Lz4Laws := { lz4_inverse : forall d, zlen d <= BLOCK_SIZE -> lz4_decompress (lz4_compress d) = Some d }.
Context `{GoodSource} `{Lz4Laws}.

(** ** The invariant *)
Definition flags_ok (fid : nat) (flags : list bool) (keys : list (Z * Z)) : Prop :=
  forall i b, flags !! i = Some b -> b = true <-> (Z.of_nat fid, Z.of_nat i) ∈ keys.

Definition count_true (l : list bool) : nat := length (List.filter id l).

Record file_inv (log : list Block) (fid : nat) (f : ServerFile Src) : Prop := {
  fi_ok : file_ok f;
  fi_data : flags_ok fid (sent_blocks f) (data_keys log);
  fi_hash : flags_ok fid (sent_tree_blocks f) (hash_keys log);
  fi_count : sent_blocks_count f = Z.of_nat (count_true (sent_blocks f)) }.

Record Inv0 (fs : list FileSpec) (d : bool) (shipped : bytes) s (log : list Block) : Prop := {
  inv_emits : emits shipped s log;
  inv_good : good fs log;
  inv_specs : map spec_of (files s) = fs;
  inv_files : forall fid f, files s !! fid = Some f -> file_inv log fid f;
  inv_number : Z.of_nat (length fs) <= 2 ^ 15;
  inv_done : d = true <-> done_block ∈ log }.

(** Inner nodes are sent with the first leaf. *)
Definition tree_closed (f : ServerFile Src) : Prop :=
  (exists i, sent_tree_blocks f !! i = Some true) ->
  forall j, Z.of_nat j < leaf_offset (spec_of f) -> sent_tree_blocks f !! j = Some true.

Definition prefetch_ok (fs : list FileSpec) (p : PrefetchState) : Prop :=
  exists sp, 0 <= file_index p /\ fs !! Z.to_nat (file_index p) = Some sp /\
    0 <= overall_index p /\ overall_end p <= Z.of_nat (fs_blocks sp).

Record Inv (fs : list FileSpec) (d : bool) (shipped : bytes) s (log : list Block) : Prop := {
  inv_0 : Inv0 fs d shipped s log;
  inv_closed : forall fid f, files s !! fid = Some f -> tree_closed f;
  inv_prefetch : Forall (prefetch_ok fs) (prefetches s) }.

(** What the sending operations leave alone. *)
Record same_ctl s s' : Prop := {
  sc_incoming : incoming s' = incoming s;
  sc_prefetches : prefetches s' = prefetches s;
  sc_prefetched : prefetched_files s' = prefetched_files s;
  sc_complete : serving_complete s' = serving_complete s;
  sc_destroyed : destroyed s' = destroyed s;
  sc_done : done_sent s' = done_sent s }.

#[export] Instance same_ctl_preorder : PreOrder same_ctl.
Proof. split; [by split|]. intros s1 s2 s3 [] []. split; congruence. Qed.

Lemma same_ctl_flush s : same_ctl s (flush s).
Proof. unfold flush. destruct (_ =? _); [done|]. by split. Qed.
Lemma files_flush s : files (flush s) = files s.
Proof. unfold flush. by destruct (_ =? _). Qed.

Lemma emit_block_ctl fid idx ty ct p fl s : same_ctl s (emit_block fid idx ty ct p fl s).
Proof.
  unfold emit_block. set (s1 := set_pending _ _). assert (same_ctl s s1) by (by split).
  destruct (_ || _); [|done]. etrans; [done|apply same_ctl_flush].
Qed.
Lemma emit_block_files fid idx ty ct p fl s : files (emit_block fid idx ty ct p fl s) = files s.
Proof. unfold emit_block. destruct (_ || _); [by rewrite files_flush|done]. Qed.

Lemma emit_block_emits shipped fid idx ty ct p fl s log :
  emits shipped s log -> sint 16 fid -> sint 8 ty -> sint 8 ct -> sint 32 idx -> zlen p <= BLOCK_SIZE ->
  emits shipped (emit_block fid idx ty ct p fl s) (log ++ [(mk_resp fid ty ct idx (zlen p), p)]).
Proof.
  intros He H1' H2' H3' H4' Hp. unfold emit_block. pose proof (zlen_nonneg p).
  rewrite (swrap_small 16) by (unfold sint, BLOCK_SIZE in *; lia).
  apply (emits_append _ _ _ (mk_resp fid ty ct idx (zlen p), p)); [done| |done].
  split_and!; cbn; try done.
Qed.

(** ** Sizes of trees *)
Lemma tree_go_bound fuel : forall n, 0 <= tree_go fuel n 0 <= Z.max 0 (n - 1).
Proof.
  induction fuel as [|fuel IH]; intros n; [cbn; lia|].
  destruct (Z.lt_ge_cases n 2) as [Hn|Hn]; [rewrite tree_go_small by lia; lia|].
  rewrite tree_go_step, tree_go_total by done. pose proof (cdiv_half n Hn). pose proof (IH (cdiv n HASHES_PER_BLOCK)).
  assert (2 * (n / 2) <= n) by (apply Z.mul_div_le; lia). lia.
Qed.

Lemma file_ok_sizes f :
  file_ok f ->
  Z.of_nat (length (sent_blocks f)) <= 2 ^ 30 /\ Z.of_nat (length (sent_tree_blocks f)) <= 2 ^ 30 /\
  ((0 < length (sent_tree_blocks f))%nat -> has_tree (source f) = true /\ 0 <= leaf_offset (spec_of f)).
Proof.
  intros (Hs & Hb & Ht). rewrite num_blocks_cdiv in Hb by lia. unfold zlen in *.
  assert (cdiv (size f) BLOCK_SIZE < 2 ^ 30 + 1).
  { unfold cdiv, BLOCK_SIZE. apply Z.div_lt_upper_bound; lia. }
  destruct (has_tree (source f)); [|split_and!; [lia..|lia]].
  destruct (decide (size f = 0)) as [E0|E0].
  { rewrite E0 in Ht. change (verity_tree_blocks_for_file 0) with 0 in Ht. split_and!; lia. }
  pose proof (tree_blocks_of (size f) ltac:(lia)) as E1. pose proof (tree_go_bound 63 (cdiv (size f) BLOCK_SIZE)).
  split_and!; [lia..|]. intros Hpos. split; [done|]. unfold leaf_offset. cbn [spec_of fs_tree fs_blocks].
  rewrite Ht, Hb, E1. set (n := cdiv (size f) BLOCK_SIZE) in *.
  destruct (Z.lt_ge_cases n 2) as [Hn|Hn]; [rewrite tree_go_small in E1 by lia; lia|].
  rewrite tree_go_step, tree_go_total by lia. pose proof (tree_go_bound 62 (cdiv n HASHES_PER_BLOCK)). lia.
Qed.

Lemma leaf_in_range f idx :
  file_ok f -> (0 < length (sent_tree_blocks f))%nat -> 0 <= idx < Z.of_nat (length (sent_blocks f)) ->
  leaf_offset (spec_of f) <= leaf_offset (spec_of f) + idx / HASHES_PER_BLOCK < Z.of_nat (length (sent_tree_blocks f)).
Proof.
  intros Hf Hp Hi. unfold leaf_offset. cbn [spec_of fs_tree fs_blocks]. set (n := Z.of_nat (length (sent_blocks f))) in *.
  assert (idx / HASHES_PER_BLOCK < cdiv n HASHES_PER_BLOCK).
  { unfold cdiv. change HASHES_PER_BLOCK with 128. apply Z.div_lt_upper_bound; [lia|].
    pose proof (Z.div_mod (n + 128 - 1) 128 ltac:(lia)). pose proof (Z.mod_pos_bound (n + 128 - 1) 128 ltac:(lia)). lia. }
  pose proof (Z.div_pos idx HASHES_PER_BLOCK ltac:(lia) ltac:(done)). lia.
Qed.

(** ** Index lemmas *)
Lemma get_index_nat {E A} (l : list A) i x : l !! i = Some x -> get_index (E := E) l (Z.of_nat i) = Ok x.
Proof. intros Hl. unfold get_index. rewrite (proj2 (Z.leb_le 0 _)) by lia. by rewrite Nat2Z.id, Hl. Qed.

Lemma get_index_Z {E A} (l : list A) i x : 0 <= i -> l !! Z.to_nat i = Some x -> get_index (E := E) l i = Ok x.
Proof. intros Hi Hl. rewrite <- (Z2Nat.id i) by done. by apply get_index_nat. Qed.

Lemma set_index_nat {E A} (l : list A) i x : (i < length l)%nat -> set_index (E := E) l (Z.of_nat i) x = Ok (<[i := x]> l).
Proof.
  intros Hl. unfold set_index, zlen. rewrite (proj2 (Z.leb_le 0 _)), (proj2 (Z.ltb_lt _ _)) by lia. cbn [andb]. by rewrite Nat2Z.id.
Qed.

Lemma keys_snoc ty log b : omap (key ty) (log ++ [b]) = omap (key ty) log ++ match key ty b with Some k => [k] | None => [] end.
Proof. rewrite omap_app. done. Qed.

Lemma key_hash fid i d : key TYPE_HASH (hash_block fid i d) = Some (Z.of_nat fid, Z.of_nat i) /\ key TYPE_DATA (hash_block fid i d) = None.
Proof. unfold key, hash_block. cbn. by destruct (Z.leb_spec 0 (Z.of_nat fid)); [|lia]. Qed.
Lemma key_data fid i ct d : key TYPE_DATA (data_block fid i ct d) = Some (Z.of_nat fid, Z.of_nat i) /\ key TYPE_HASH (data_block fid i ct d) = None.
Proof. unfold key, data_block. cbn. by destruct (Z.leb_spec 0 (Z.of_nat fid)); [|lia]. Qed.

Lemma flags_ok_set fid i flags keys :
  flags_ok fid flags keys -> flags_ok fid (<[i := true]> flags) (keys ++ [(Z.of_nat fid, Z.of_nat i)]).
Proof.
  intros Hf j b Hj. rewrite elem_of_app, list_elem_of_singleton. apply list_lookup_insert_Some in Hj as [(-> & <- & _)|[Hne Hj]].
  - split; [by right|done].
  - rewrite (Hf j b Hj). split; [by left|]. intros [?|[= E]]; [done|]. apply Nat2Z.inj in E. congruence.
Qed.
Lemma flags_ok_other fid fid' i flags keys :
  fid <> fid' -> flags_ok fid flags keys -> flags_ok fid flags (keys ++ [(Z.of_nat fid', Z.of_nat i)]).
Proof.
  intros Hne Hf j b Hj. rewrite elem_of_app, list_elem_of_singleton, (Hf j b Hj). split; [by left|].
  intros [?|[= E _]]; [done|]. apply Nat2Z.inj in E. congruence.
Qed.

Lemma inv_spec fs d sh s log fid f : Inv0 fs d sh s log -> files s !! fid = Some f -> fs !! fid = Some (spec_of f) /\ Z.of_nat fid < 2 ^ 15.
Proof.
  intros Hi Hf. rewrite <- (inv_specs _ _ _ _ _ Hi). split; [by rewrite list_lookup_fmap, Hf|].
  apply lookup_lt_Some in Hf. pose proof (inv_number _ _ _ _ _ Hi). rewrite <- (inv_specs _ _ _ _ _ Hi), length_map in *. lia.
Qed.

Lemma done_not_key fid i d ct p : done_block <> hash_block fid i d /\ done_block <> data_block fid i ct p.
Proof. unfold done_block, done_marker, hash_block, data_block. split; intros E; injection E; intros; lia. Qed.

(** ** Hash blocks *)
Lemma spec_set_tree flags f :
  length flags = length (sent_tree_blocks f) -> spec_of (set_sent_tree_blocks flags f) = spec_of f.
Proof. intros E. unfold spec_of. cbn. by rewrite E. Qed.

Lemma map_spec_insert fid f f' (l : list (ServerFile Src)) :
  l !! fid = Some f -> spec_of f' = spec_of f -> map spec_of (<[fid := f']> l) = map spec_of l.
Proof.
  intros Hl E. change (map spec_of (<[fid := f']> l)) with (spec_of <$> <[fid := f']> l).
  rewrite list_fmap_insert, E. apply list_insert_id. by rewrite list_lookup_fmap, Hl.
Qed.

Lemma send_hash fs d sh s log fid f i :
  Inv0 fs d sh s log -> files s !! fid = Some f -> (i < length (sent_tree_blocks f))%nat ->
  exists dd s1 s2, send_tree_block (Z.of_nat fid) (Z.of_nat i) s = Ok (s1, true) /\
    mark_tree (Z.of_nat fid) (Z.of_nat i) s1 = Ok s2 /\ Inv0 fs d sh s2 (log ++ [hash_block fid i dd]) /\ same_ctl s s2 /\
    files s2 = <[fid := set_sent_tree_blocks (<[i := true]> (sent_tree_blocks f)) f]> (files s).
Proof.
  intros Hi Hf Hl. destruct (inv_spec _ _ _ _ _ _ _ Hi Hf) as [Hsp Hn]. pose proof (inv_files _ _ _ _ _ Hi fid f Hf) as Hfi.
  destruct (file_ok_sizes f (fi_ok _ _ _ Hfi)) as (_ & Ht & Htree). destruct (Htree ltac:(lia)) as [Hh _].
  destruct (tree_readable (source f) (Z.of_nat i) Hh) as [dd Hd].
  set (s1 := emit_block (Z.of_nat fid) (Z.of_nat i) TYPE_HASH COMPRESSION_NONE dd false s).
  assert (files s1 = files s) as Hs1 by apply emit_block_files.
  exists dd, s1, (set_files (<[fid := set_sent_tree_blocks (<[i := true]> (sent_tree_blocks f)) f]> (files s)) s1).
  split_and!; [| | | |done].
  - unfold send_tree_block. rewrite (get_index_nat _ _ _ Hf). cbn [res_bind]. by rewrite Hd.
  - unfold mark_tree. rewrite Hs1, (get_index_nat _ _ _ Hf). cbn [res_bind]. rewrite set_index_nat by done. cbn [res_bind]. by rewrite Nat2Z.id.
  - destruct Hi as [He Hg Hs Hfl Hnum Hdn]. pose proof (key_hash fid i dd) as [K1 K2]. split; try done.
    + destruct (emit_block_emits sh (Z.of_nat fid) (Z.of_nat i) TYPE_HASH COMPRESSION_NONE dd false s log He)
        as (cs & pend & hd & ?); [unfold sint; lia| done | done | unfold sint; lia | by eapply tree_block_size |].
      by exists cs, pend, hd.
    + by eapply good_hash.
    + cbn [files set_files]. rewrite <- Hs. eapply map_spec_insert; [done|]. apply spec_set_tree, length_insert.
    + cbn [files set_files]. intros fid' f' Hf'. unfold data_keys, hash_keys.
      apply list_lookup_insert_Some in Hf' as [(<- & <- & _)|[Hne Hf']].
      * destruct Hfi as [Fok Fd Fh Fc]. split; cbn [size sent_blocks sent_tree_blocks source set_sent_tree_blocks sent_blocks_count]; try done.
        -- unfold file_ok, zlen in *. cbn [size sent_blocks sent_tree_blocks source set_sent_tree_blocks]. by rewrite length_insert.
        -- unfold data_keys. rewrite keys_snoc, K2, app_nil_r. done.
        -- unfold hash_keys. rewrite keys_snoc, K1. by apply flags_ok_set.
      * destruct (Hfl fid' f' Hf') as [? Fd Fh Fc]. split; cbn; try done.
        -- unfold data_keys. rewrite keys_snoc, K2, app_nil_r. done.
        -- unfold hash_keys. rewrite keys_snoc, K1. by apply flags_ok_other.
    + rewrite elem_of_app, list_elem_of_singleton, Hdn. split; [by left|]. intros [?|E]; [done|].
      by destruct (done_not_key fid i dd 0 []).
  - etrans; [apply emit_block_ctl|]. by split.
Qed.

(** The inner nodes [k .. k + m). *)
Lemma send_inner_spec fs d sh fid m : forall k s log f,
  Inv0 fs d sh s log -> files s !! fid = Some f -> (k + m <= length (sent_tree_blocks f))%nat ->
  exists s' new f', send_inner (Z.of_nat fid) (seq k m) s = Ok (s', true) /\ Inv0 fs d sh s' (log ++ new) /\ same_ctl s s' /\
    files s' = <[fid := f']> (files s) /\ spec_of f' = spec_of f /\ sent_blocks f' = sent_blocks f /\
    (forall j, (k <= j < k + m)%nat -> sent_tree_blocks f' !! j = Some true) /\
    (forall j, sent_tree_blocks f !! j = Some true -> sent_tree_blocks f' !! j = Some true) /\ data_keys new = [].
Proof.
  induction m as [|m IH]; intros k s log f Hi Hf Hl; cbn [seq send_inner].
  { exists s, [], f. rewrite app_nil_r. split_and!; try done; [by rewrite list_insert_id|lia]. }
  destruct (send_hash fs d sh s log fid f k Hi Hf ltac:(lia)) as (dd & s1 & s2 & H1' & H2' & Hi2 & Hc & Hfs).
  destruct (file_ok_sizes f (fi_ok _ _ _ (inv_files _ _ _ _ _ Hi fid f Hf))) as (_ & Ht & _).
  rewrite (swrap_small 32) by (unfold sint; lia). rewrite H1'. cbn [res_bind]. rewrite H2'. cbn [res_bind].
  set (f2 := set_sent_tree_blocks (<[k := true]> (sent_tree_blocks f)) f) in *.
  assert (files s2 !! fid = Some f2) as Hf2 by (rewrite Hfs; apply list_lookup_insert_eq; by eapply lookup_lt_Some).
  destruct (IH (S k) s2 _ f2 Hi2 Hf2) as (s' & new & f' & Hr & Hi' & Hc' & Hfs' & Hsp & Hb & Hset & Hkeep & Hdk).
  { unfold f2. cbn. rewrite length_insert. lia. }
  exists s', ([hash_block fid k dd] ++ new), f'. rewrite app_assoc. split_and!; try done.
  - by etrans.
  - rewrite Hfs', Hfs. by rewrite list_insert_insert_eq.
  - rewrite Hsp. unfold f2. apply spec_set_tree, length_insert.
  - intros j Hj. destruct (decide (j = k)) as [->|].
    + apply Hkeep. unfold f2. cbn. apply list_lookup_insert_eq. lia.
    + apply Hset. lia.
  - intros j Hj. apply Hkeep. unfold f2. cbn. destruct (decide (k = j)) as [->|].
    + apply list_lookup_insert_eq. by eapply lookup_lt_Some.
    + by rewrite list_lookup_insert_ne.
  - unfold data_keys in *. rewrite omap_app, Hdk, app_nil_r. cbn [omap list_omap]. by rewrite (proj2 (key_hash fid k dd)).
Qed.

(** The file [fid] changed, its tree is closed: the invariant is whole again. *)
Lemma inv_close fs d sh s log s' log' fid f' :
  Inv fs d sh s log -> Inv0 fs d sh s' log' -> same_ctl s s' -> files s' = <[fid := f']> (files s) -> tree_closed f' ->
  Inv fs d sh s' log'.
Proof.
  intros [Hi Hc Hp] Hi' Hs Hf Hcl. split; [done| |by rewrite (sc_prefetches _ _ Hs)].
  rewrite Hf. intros k g Hk. apply list_lookup_insert_Some in Hk as [(<- & <- & _)|[_ Hk]]; [done|by eapply Hc].
Qed.

(** All the hash blocks for [idx] are flagged. *)
Definition verified (f : ServerFile Src) (idx : nat) : Prop :=
  forall i, needs (spec_of f) (Z.of_nat idx) i -> 0 <= i /\ sent_tree_blocks f !! Z.to_nat i = Some true.

Lemma verified_keys fs d sh s log fid f idx :
  Inv0 fs d sh s log -> files s !! fid = Some f -> verified f idx ->
  forall i, needs (spec_of f) (Z.of_nat idx) i -> (Z.of_nat fid, i) ∈ hash_keys log.
Proof.
  intros Hi Hf Hv i Hn. destruct (Hv i Hn) as [H0' Hl]. pose proof (fi_hash _ _ _ (inv_files _ _ _ _ _ Hi fid f Hf)) as Hh.
  specialize (Hh _ _ Hl). rewrite Z2Nat.id in Hh by done. by apply Hh.
Qed.

Lemma verified_intro f idx :
  (sent_tree_blocks f !! Z.to_nat (leaf_offset (spec_of f) + Z.of_nat idx / HASHES_PER_BLOCK) = Some true) ->
  0 <= leaf_offset (spec_of f) ->
  (forall j, Z.of_nat j < leaf_offset (spec_of f) -> sent_tree_blocks f !! j = Some true) -> verified f idx.
Proof.
  intros Hl Ho Hin i [_ [->|Hi]].
  - split; [|done]. pose proof (Z.div_pos (Z.of_nat idx) HASHES_PER_BLOCK ltac:(lia) ltac:(done)). lia.
  - split; [lia|]. apply Hin. lia.
Qed.

(** What the hash blocks of a data block do to the state. *)
Definition tree_result fs d sh s log fid f idx (r : res no_fuel (IncrementalServer Src * bool)) : Prop :=
  exists s' new f', r = Ok (s', true) /\ Inv fs d sh s' (log ++ new) /\ same_ctl s s' /\
    files s' = <[fid := f']> (files s) /\ spec_of f' = spec_of f /\ sent_blocks f' = sent_blocks f /\ verified f' idx /\
    data_keys new = [].

Lemma tree_stay fs d sh s log fid f idx :
  Inv fs d sh s log -> files s !! fid = Some f -> verified f idx -> tree_result fs d sh s log fid f idx (Ok (s, true)).
Proof. intros Hi Hf Hv. exists s, [], f. rewrite app_nil_r, list_insert_id by done. done. Qed.

(** After the leaf: the inner nodes, unless they were sent before. *)
Lemma send_rest_spec fs d sh s log fid f idx s2 dd leaf :
  let f2 := set_sent_tree_blocks (<[leaf := true]> (sent_tree_blocks f)) f in
  let off := leaf_offset (spec_of f) in
  Inv fs d sh s log -> files s !! fid = Some f -> (leaf < length (sent_tree_blocks f))%nat ->
  0 <= off -> Z.of_nat leaf = off + Z.of_nat idx / HASHES_PER_BLOCK ->
  Inv0 fs d sh s2 (log ++ [hash_block fid leaf dd]) -> same_ctl s s2 -> files s2 = <[fid := f2]> (files s) ->
  tree_result fs d sh s log fid f idx
    (if off =? 0 then Ok (s2, true) else
     let! f := get_index (files s2) (Z.of_nat fid) in
     let! first_sent := get_index (sent_tree_blocks f) 0 in
     if first_sent : bool then Ok (s2, true) else send_inner (Z.of_nat fid) (seq 0 (Z.to_nat (wrap 64 off))) s2).
Proof.
  intros f2 off HI Hf Hlt Hoff Hleaf Hi2 Hct Hfs. pose proof HI as [Hi Hc Hp].
  destruct (file_ok_sizes f (fi_ok _ _ _ (inv_files _ _ _ _ _ Hi fid f Hf))) as (_ & Ht & _).
  assert (spec_of f2 = spec_of f) as Hsp2 by apply spec_set_tree, length_insert.
  assert (files s2 !! fid = Some f2) as Hf2 by (rewrite Hfs; apply list_lookup_insert_eq; by eapply lookup_lt_Some).
  assert (sent_tree_blocks f2 !! leaf = Some true) as Hset by (by apply list_lookup_insert_eq).
  pose proof (Z.div_pos (Z.of_nat idx) HASHES_PER_BLOCK ltac:(lia) ltac:(done)) as Hdiv.
  assert (forall g, spec_of g = spec_of f -> sent_tree_blocks g !! leaf = Some true ->
    (forall j : nat, Z.of_nat j < off -> sent_tree_blocks g !! j = Some true) -> verified g idx) as Hver.
  { intros g Hg Hgl Hga. apply verified_intro; rewrite ?Hg; fold off; [|done..]. by rewrite <- Hleaf, Nat2Z.id. }
  assert ((forall j : nat, Z.of_nat j < off -> sent_tree_blocks f2 !! j = Some true) ->
    tree_result fs d sh s log fid f idx (Ok (s2, true))) as Hdone.
  { intros Hall. exists s2, [hash_block fid leaf dd], f2. split_and!; try done; [|by apply Hver|].
    2: { unfold data_keys. cbn [omap list_omap]. by rewrite (proj2 (key_hash fid leaf dd)). }
    eapply inv_close; try done. intros _ j. rewrite Hsp2. apply Hall. }
  destruct (Z.eqb_spec off 0) as [E0|E0]; [apply Hdone; lia|].
  rewrite (get_index_nat _ _ _ Hf2). cbn [res_bind].
  destruct (lookup_lt_is_Some_2 (sent_tree_blocks f2) 0) as [b0 Hb0]; [unfold f2; cbn; rewrite length_insert; lia|].
  rewrite (get_index_nat _ 0 _ Hb0 : get_index (sent_tree_blocks f2) 0 = _). cbn [res_bind].
  assert (forall j, Z.of_nat j < off -> sent_tree_blocks f2 !! j = sent_tree_blocks f !! j) as Heq
    by (intros j Hj; apply list_lookup_insert_ne; lia).
  destruct b0.
  { apply Hdone. intros j Hj. rewrite Heq by done. apply (Hc fid f Hf); [|done]. exists 0%nat. rewrite <- Heq by lia. done. }
  rewrite (wrap_small 64 off) by (unfold uint; lia).
  destruct (send_inner_spec fs d sh fid (Z.to_nat off) 0 s2 _ f2 Hi2 Hf2) as (s' & new & f' & Hr & Hi' & Hc' & Hfs' & Hsp & Hbs & Hin & Hkeep & Hdk).
  { unfold f2. cbn. rewrite length_insert. lia. }
  assert (forall j : nat, Z.of_nat j < off -> sent_tree_blocks f' !! j = Some true) as Hall by (intros j Hj; apply Hin; lia).
  assert (files s' = <[fid := f']> (files s)) as Hff by (rewrite Hfs', Hfs; apply list_insert_insert_eq).
  exists s', ([hash_block fid leaf dd] ++ new), f'. rewrite app_assoc. split_and!; try done; [|by etrans|by rewrite Hsp| |].
  - eapply inv_close; try done; [by etrans|]. intros _ j. rewrite Hsp, Hsp2. apply Hall.
  - apply Hver; [by rewrite Hsp|by apply Hkeep|done].
  - unfold data_keys in *. rewrite omap_app, Hdk, app_nil_r. cbn [omap list_omap]. by rewrite (proj2 (key_hash fid leaf dd)).
Qed.

Lemma send_tree_spec fs d sh s log fid f idx :
  Inv fs d sh s log -> files s !! fid = Some f -> (idx < length (sent_blocks f))%nat ->
  tree_result fs d sh s log fid f idx (send_tree_blocks_for_data_block (Z.of_nat fid) (Z.of_nat idx) s).
Proof.
  intros HI Hf Hl. pose proof HI as [Hi Hc Hp]. pose proof (fi_ok _ _ _ (inv_files _ _ _ _ _ Hi fid f Hf)) as Hok.
  destruct (file_ok_sizes f Hok) as (Hb & Ht & Htree).
  unfold send_tree_blocks_for_data_block. rewrite (proj2 (Z.leb_le 0 _)) by lia. rewrite Nat2Z.id, Hf.
  destruct (has_tree (source f)) eqn:Eh; cbn [negb].
  2: { apply tree_stay; [done..|]. intros i [Hn _]. destruct Hok as (_ & _ & Ht0). rewrite Eh in Ht0. unfold zlen in Ht0. cbn in Hn. lia. }
  destruct (Z.leb_spec (zlen (sent_tree_blocks f)) 0) as [Hz|Hz]; unfold zlen in Hz.
  { apply tree_stay; [done..|]. intros i [Hn _]. cbn in Hn. lia. }
  destruct (Htree ltac:(lia)) as [_ Hoff]. pose proof (leaf_in_range f (Z.of_nat idx) Hok ltac:(lia) ltac:(lia)) as Hleaf.
  assert (zlen (sent_tree_blocks f) - (num_bytes_to_num_blocks (size f) + HASHES_PER_BLOCK - 1) ÷ HASHES_PER_BLOCK = leaf_offset (spec_of f)) as ->.
  { unfold leaf_offset, cdiv. cbn [spec_of fs_tree fs_blocks]. destruct Hok as (_ & <- & _). unfold zlen.
    change HASHES_PER_BLOCK with 128. by rewrite Z.quot_div_nonneg by lia. }
  rewrite Z.quot_div_nonneg by (change HASHES_PER_BLOCK with 128; lia).
  set (leaf := leaf_offset (spec_of f) + Z.of_nat idx / HASHES_PER_BLOCK) in *.
  assert (wrap 64 leaf = leaf) as -> by (apply wrap_small; unfold uint; lia).
  destruct (lookup_lt_is_Some_2 (sent_tree_blocks f) (Z.to_nat leaf) ltac:(lia)) as [[] Hbl]; rewrite Hbl.
  { apply tree_stay; [done..|]. apply verified_intro; [done..|]. apply (Hc fid f Hf). eauto. }
  rewrite (swrap_small 32) by (unfold sint; lia).
  destruct (send_hash fs d sh s log fid f (Z.to_nat leaf) Hi Hf ltac:(lia)) as (dd & s1 & s2 & H1' & H2' & Hi2 & Hct & Hfs).
  rewrite Z2Nat.id in H1', H2' by lia. rewrite H1'. cbn [res_bind negb]. rewrite H2'. cbn [res_bind].
  eapply send_rest_spec; try done; [lia|]. rewrite Z2Nat.id by lia. done.
Qed.

(** ** Data blocks *)
Lemma count_true_insert l : forall i, l !! i = Some false -> count_true (<[i := true]> l) = S (count_true l).
Proof.
  unfold count_true. induction l as [|b l IH]; intros [|i]; cbn; try done.
  - by intros [= ->].
  - intros Hi. destruct b; cbn; by rewrite IH.
Qed.
Lemma count_true_le l : (count_true l <= length l)%nat.
Proof. unfold count_true. induction l as [|[] l IH]; cbn; lia. Qed.

Lemma spec_set_blocks flags n f :
  length flags = length (sent_blocks f) -> spec_of (set_sent_blocks flags n f) = spec_of f.
Proof. intros E. unfold spec_of. cbn. by rewrite E. Qed.

(** The payload of a data block. *)
Definition packed (data : bytes) : Z * bytes :=
  let c := lz4_compress data in
  if (0 <? zlen c) && (zlen c <? COMPRESSED_SIZE_MAX) then (COMPRESSION_LZ4, c) else (COMPRESSION_NONE, data).

Lemma packed_ok data :
  zlen data <= BLOCK_SIZE -> zlen (snd (packed data)) <= BLOCK_SIZE /\ unpack (fst (packed data)) (snd (packed data)) = Some data.
Proof.
  intros Hd. unfold packed. destruct ((0 <? _) && _) eqn:E; cbn [fst snd]; [|done].
  apply andb_true_iff in E as [_ E%Z.ltb_lt]. unfold COMPRESSED_SIZE_MAX, BLOCK_SIZE in *. split; [lia|].
  unfold unpack. cbn. by apply lz4_inverse.
Qed.

Lemma emits_ctl sh s s' log : output s' = output s -> pending s' = pending s -> emits sh s log -> emits sh s' log.
Proof. intros E1 E2 (cs & pend & hd & ?). exists cs, pend, hd. by rewrite E1, E2. Qed.

Lemma send_payload fs d sh s log fid f idx data fl use :
  Inv fs d sh s log -> files s !! fid = Some f -> sent_blocks f !! idx = Some false -> verified f idx ->
  read_data_block (source f) (Z.of_nat idx) = Some data ->
  exists s1, mark_block (Z.of_nat fid) (Z.of_nat idx) (count_block use s) = Ok s1 /\
    let s2 := emit_block (Z.of_nat fid) (Z.of_nat idx) TYPE_DATA (fst (packed data)) (snd (packed data)) fl s1 in
    Inv fs d sh s2 (log ++ [data_block fid idx (fst (packed data)) (snd (packed data))]) /\ same_ctl s s2.
Proof.
  intros [Hi Hc Hp] Hf Hfl Hv Hd. destruct (inv_spec _ _ _ _ _ _ _ Hi Hf) as [Hsp Hn].
  pose proof (inv_files _ _ _ _ _ Hi fid f Hf) as Hfi. destruct (file_ok_sizes f (fi_ok _ _ _ Hfi)) as (Hb & _ & _).
  pose proof (lookup_lt_Some _ _ _ Hfl) as Hlt. pose proof (count_true_le (sent_blocks f)).
  assert (zlen data <= BLOCK_SIZE) as Hsz by (by eapply data_block_size). destruct (packed_ok data Hsz) as [Hps Hun].
  set (f1 := set_sent_blocks (<[idx := true]> (sent_blocks f)) (sent_blocks_count f + 1) f).
  set (s1 := set_files (<[fid := f1]> (files s)) (count_block use s)).
  exists s1. split.
  { unfold mark_block. change (files (count_block use s)) with (files s). rewrite (get_index_nat _ _ _ Hf). cbn [res_bind].
    rewrite set_index_nat by done. cbn [res_bind]. rewrite Nat2Z.id, (swrap_small 32); [done|lia|].
    rewrite (fi_count _ _ _ Hfi). unfold sint. lia. }
  intros s2. assert (same_ctl s s2) as Hct by (etrans; [|apply emit_block_ctl]; by split).
  assert (files s2 = <[fid := f1]> (files s)) as Hfs by apply emit_block_files.
  pose proof (key_data fid idx (fst (packed data)) (snd (packed data))) as [K1 K2].
  assert (Inv0 fs d sh s2 (log ++ [data_block fid idx (fst (packed data)) (snd (packed data))])) as Hi2.
  { pose proof Hi as [He Hg Hs Hfls Hnum Hdn]. split; try done.
    - apply emit_block_emits; [by eapply emits_ctl, He|unfold sint; lia|done| |unfold sint; lia|done].
      unfold packed. by destruct (_ && _).
    - eapply good_data; try done. intros Hin. apply (fi_data _ _ _ Hfi idx false Hfl) in Hin. done.
      intros i Hneed. by eapply verified_keys.
    - rewrite Hfs, <- Hs. eapply map_spec_insert; [done|]. apply spec_set_blocks, length_insert.
    - rewrite Hfs. intros fid' f' Hf'. apply list_lookup_insert_Some in Hf' as [(<- & <- & _)|[Hne Hf']].
      + destruct Hfi as [Fok Fd Fh Fc].
        split; cbn [size sent_blocks sent_tree_blocks source set_sent_blocks sent_blocks_count f1]; try done.
        * unfold file_ok, zlen in *. cbn [size sent_blocks sent_tree_blocks source set_sent_blocks f1]. by rewrite length_insert.
        * unfold data_keys. rewrite keys_snoc, K1. by apply flags_ok_set.
        * unfold hash_keys. by rewrite keys_snoc, K2, app_nil_r.
        * rewrite count_true_insert by done. lia.
      + destruct (Hfls fid' f' Hf') as [? Fd Fh Fc]. split; cbn; try done.
        * unfold data_keys. rewrite keys_snoc, K1. by apply flags_ok_other.
        * unfold hash_keys. by rewrite keys_snoc, K2, app_nil_r.
    - rewrite elem_of_app, list_elem_of_singleton, Hdn. split; [by left|]. intros [?|E]; [done|].
      by destruct (done_not_key fid idx [] (fst (packed data)) (snd (packed data))). }
  split; [|done]. split; [done| |by rewrite (sc_prefetches _ _ Hct)].
  rewrite Hfs. intros k g Hk. apply list_lookup_insert_Some in Hk as [(<- & <- & _)|[_ Hk]]; [|by eapply Hc].
  pose proof (Hc fid f Hf) as Hcl. unfold tree_closed. assert (spec_of f1 = spec_of f) as -> by apply spec_set_blocks, length_insert. exact Hcl.
Qed.

(** What a request to send a block does. *)
Definition send_result fs d sh s log file_id block_idx (r : res no_fuel (IncrementalServer Src * SendResult)) : Prop :=
  exists s' result new, r = Ok (s', result) /\ Inv fs d sh s' (log ++ new) /\ same_ctl s s' /\
    match result with
    | Sent => (file_id, block_idx) ∉ data_keys log /\ data_keys (log ++ new) = data_keys log ++ [(file_id, block_idx)]
    | Skipped => new = [] /\ ((file_id, block_idx) ∈ data_keys log \/
                   forall sp, 0 <= file_id -> fs !! Z.to_nat file_id = Some sp -> 0 <= block_idx < Z.of_nat (fs_blocks sp) -> False)
    | SendError => data_keys (log ++ new) = data_keys log /\
                   exists sp, fs !! Z.to_nat file_id = Some sp /\ read_data_block (fs_source sp) block_idx = None
    end.


Lemma data_keys_app a b : data_keys (a ++ b) = data_keys a ++ data_keys b.
Proof. apply omap_app. Qed.

Lemma lookup_insert_file (l : list (ServerFile Src)) fid f f' : l !! fid = Some f -> <[fid := f']> l !! fid = Some f'.
Proof. intros Hl. apply list_lookup_insert_eq. by eapply lookup_lt_Some. Qed.

Lemma send_data_in_range fs d sh s log fid f idx fl :
  Inv fs d sh s log -> files s !! fid = Some f -> sent_blocks f !! idx = Some false ->
  send_result fs d sh s log (Z.of_nat fid) (Z.of_nat idx) (
      let! '(s, ok) := send_tree_blocks_for_data_block (Z.of_nat fid) (Z.of_nat idx) s in
      if negb ok then Ok (s, SendError) else
      let! f := get_index (files s) (Z.of_nat fid) in
      match read_data_block (source f) (Z.of_nat idx) with
      | None => Ok (s, SendError)
      | Some data =>
          let compressed := lz4_compress data in
          let use := (0 <? zlen compressed) && (zlen compressed <? COMPRESSED_SIZE_MAX) in
          let s := count_block use s in
          let! s := mark_block (Z.of_nat fid) (Z.of_nat idx) s in
          Ok (emit_block (Z.of_nat fid) (Z.of_nat idx) TYPE_DATA (if use then COMPRESSION_LZ4 else COMPRESSION_NONE)
                (if use then compressed else data) fl s, Sent)
      end).
Proof.
  intros HI Hf Hfl. pose proof (lookup_lt_Some _ _ _ Hfl) as Hlt.
  destruct (send_tree_spec fs d sh s log fid f idx HI Hf Hlt) as (s1 & new & f1 & -> & HI1 & Hct & Hfs & Hsp & Hb & Hv & Hdk).
  cbn [res_bind negb]. assert (files s1 !! fid = Some f1) as Hf1 by (rewrite Hfs; by eapply lookup_insert_file).
  rewrite (get_index_nat _ _ _ Hf1). cbn [res_bind].
  assert (source f1 = source f) as Hsrc by (by injection Hsp).
  destruct (read_data_block (source f1) (Z.of_nat idx)) as [data|] eqn:Ed.
  - destruct (send_payload fs d sh s1 (log ++ new) fid f1 idx data fl
      ((0 <? zlen (lz4_compress data)) && (zlen (lz4_compress data) <? COMPRESSED_SIZE_MAX)) HI1 Hf1 ltac:(by rewrite Hb) Hv Ed)
      as (s2 & -> & HI2 & Hct2). cbn [res_bind].
    assert (Inv fs d sh (emit_block (Z.of_nat fid) (Z.of_nat idx) TYPE_DATA (fst (packed data)) (snd (packed data)) fl s2)
              (log ++ new ++ [data_block fid idx (fst (packed data)) (snd (packed data))])) as HI3 by (by rewrite app_assoc).
    eexists _, Sent, _. split; [|split; [exact HI3|split]].
    + unfold packed. by destruct (_ && _).
    + etrans; [exact Hct|]. exact Hct2.
    + split.
      * intros Hin. apply (fi_data _ _ _ (inv_files _ _ _ _ _ (inv_0 _ _ _ _ _ HI) fid f Hf) idx false Hfl) in Hin. done.
      * rewrite !data_keys_app, Hdk. unfold data_keys. cbn [omap list_omap]. by rewrite (proj1 (key_data _ _ _ _)).
  - exists s1, SendError, new. split_and!; try done.
    + by rewrite data_keys_app, Hdk, app_nil_r.
    + exists (spec_of f). rewrite Nat2Z.id. destruct (inv_spec _ _ _ _ _ _ _ (inv_0 _ _ _ _ _ HI) Hf) as [? _].
      split; [done|]. cbn. by rewrite <- Hsrc.
Qed.

Lemma send_data_spec fs d sh s log file_id block_idx fl :
  Inv fs d sh s log -> send_result fs d sh s log file_id block_idx (send_data_block file_id block_idx fl s).
Proof.
  intros HI. unfold send_data_block.
  assert (((file_id, block_idx) ∈ data_keys log \/
                   forall sp, 0 <= file_id -> fs !! Z.to_nat file_id = Some sp -> 0 <= block_idx < Z.of_nat (fs_blocks sp) -> False) ->
    send_result fs d sh s log file_id block_idx (Ok (s, Skipped))) as Hskip.
  { intros Hk. exists s, Skipped, []. rewrite app_nil_r. split_and!; done. }
  destruct (Z.leb_spec 0 file_id) as [H0'|H0']; [|apply Hskip; right; lia].
  pose proof (inv_0 _ _ _ _ _ HI) as Hi.
  destruct (files s !! Z.to_nat file_id) as [f|] eqn:Hf.
  2: { apply Hskip. right. intros sp _ Hsp _. rewrite <- (inv_specs _ _ _ _ _ Hi) in Hsp.
       rewrite list_lookup_fmap, Hf in Hsp. done. }
  destruct (inv_spec _ _ _ _ _ _ _ Hi Hf) as [Hsp _].
  destruct ((block_idx <? 0) || (zlen (sent_blocks f) <=? block_idx)) eqn:Er.
  { apply Hskip. right. intros sp _ Hsp' Hr. rewrite Hsp in Hsp'. injection Hsp' as <-. cbn in Hr.
    apply orb_true_iff in Er as [Er%Z.ltb_lt|Er%Z.leb_le]; unfold zlen in *; lia. }
  apply orb_false_iff in Er as [E1%Z.ltb_ge E2%Z.leb_gt].
  destruct (lookup_lt_is_Some_2 (sent_blocks f) (Z.to_nat block_idx) ltac:(unfold zlen in *; lia)) as [b Hb].
  rewrite <- (Z2Nat.id block_idx) at 2 by done. rewrite (get_index_nat _ _ _ Hb). cbn [res_bind]. destruct b.
  { apply Hskip. left. apply (fi_data _ _ _ (inv_files _ _ _ _ _ Hi _ f Hf)) in Hb.
    rewrite !Z2Nat.id in Hb by done. by apply Hb. }
  pose proof (send_data_in_range fs d sh s log _ f _ fl HI Hf Hb) as Hr. by rewrite !Z2Nat.id in Hr by done.
Qed.

(** ** Prefetching *)

(** A block needs no more work: it was sent, it is not a block of the file, or it cannot be read. *)
Definition settled (fs : list FileSpec) (log : list Block) (file_id b : Z) : Prop :=
  (file_id, b) ∈ data_keys log \/
  (forall sp, 0 <= file_id -> fs !! Z.to_nat file_id = Some sp -> 0 <= b < Z.of_nat (fs_blocks sp) -> False) \/
  exists sp, fs !! Z.to_nat file_id = Some sp /\ read_data_block (fs_source sp) b = None.

Lemma settled_app fs log new fid b : settled fs log fid b -> settled fs (log ++ new) fid b.
Proof. intros [?|?]; [left|by right]. rewrite data_keys_app. apply elem_of_app. by left. Qed.

Lemma send_settles fs d sh s log file_id b fl :
  Inv fs d sh s log ->
  exists s' r new, send_data_block file_id b fl s = Ok (s', r) /\ Inv fs d sh s' (log ++ new) /\ same_ctl s s' /\
    settled fs (log ++ new) file_id b /\
    length (data_keys (log ++ new)) = (length (data_keys log) + match r with Sent => 1 | _ => 0 end)%nat.
Proof.
  intros HI. destruct (send_data_spec fs d sh s log file_id b fl HI) as (s' & r & new & Hr & HI' & Hct & Hm).
  exists s', r, new. split_and!; try done; destruct r.
  - left. destruct Hm as [_ ->]. apply elem_of_app. right. by apply list_elem_of_singleton.
  - destruct Hm as [-> Hm]. rewrite app_nil_r. unfold settled. tauto.
  - right. right. by destruct Hm as [_ ?].
  - destruct Hm as [_ ->]. by rewrite length_app.
  - destruct Hm as [-> _]. rewrite app_nil_r. lia.
  - destruct Hm as [-> _]. lia.
Qed.

Lemma send_each_spec fs d sh file_id bs : forall budget n s log,
  Inv fs d sh s log -> 0 <= budget ->
  exists s' budget' k new, send_each file_id bs budget n s = Ok (s', budget', (n + k)%nat) /\ Inv fs d sh s' (log ++ new) /\
    same_ctl s s' /\ (k <= length bs)%nat /\ 0 <= budget' <= budget /\ (0 < budget' -> k = length bs) /\
    Z.of_nat (length (data_keys (log ++ new))) = Z.of_nat (length (data_keys log)) + (budget - budget') /\
    (forall b, b ∈ take k bs -> settled fs (log ++ new) file_id b).
Proof.
  induction bs as [|b bs IH]; intros budget n s log HI Hb; cbn [send_each].
  { exists s, budget, 0%nat, []. rewrite app_nil_r, Nat.add_0_r. split_and!; try done; [lia..|]. intros b Hin. by apply elem_of_nil in Hin. }
  destruct (Z.ltb_spec 0 budget) as [Hpos|Hpos].
  2: { exists s, budget, 0%nat, []. rewrite app_nil_r, Nat.add_0_r. split_and!; try done; [lia..|].
       intros b' Hin. by apply elem_of_nil in Hin. }
  destruct (send_settles fs d sh s log file_id b false HI) as (s1 & r & new & -> & HI1 & Hct & Hset & Hlen). cbn [res_bind].
  set (budget1 := match r with Sent => budget - 1 | _ => budget end).
  destruct (IH budget1 (S n) s1 (log ++ new) HI1) as (s' & budget' & k & new' & Hr & HI' & Hct' & Hk & Hb' & Hall & Hl & Hs).
  { unfold budget1. destruct r; lia. }
  exists s', budget', (S k), (new ++ new'). rewrite app_assoc. split_and!; try done.
  - rewrite Hr. do 2 f_equal. lia.
  - by etrans.
  - cbn [length]. lia.
  - lia.
  - unfold budget1 in *. destruct r; lia.
  - intros Hp. cbn [length]. f_equal. by apply Hall.
  - unfold budget1 in *. destruct r; lia.
  - intros b' Hin. cbn [take] in Hin. apply elem_of_cons in Hin as [->|Hin]; [by apply settled_app|by apply Hs].
Qed.

(** Every file asked for ahead of time is settled, or still in the queue. *)
Definition fetching (fs : list FileSpec) (log : list Block) (ps : list PrefetchState) (file_id : Z) : Prop :=
  exists sp, 0 <= file_id /\ fs !! Z.to_nat file_id = Some sp /\
    ((forall b, 0 <= b < Z.of_nat (fs_blocks sp) -> settled fs log file_id b) \/
     exists p, p ∈ ps /\ file_index p = file_id /\ overall_end p = Z.of_nat (fs_blocks sp) /\
       forall b, 0 <= b < overall_index p -> settled fs log file_id b).

Definition Fetch fs s log : Prop := forall file_id, file_id ∈ prefetched_files s -> fetching fs log (prefetches s) file_id.

Lemma fetching_app fs log new ps fid : fetching fs log ps fid -> fetching fs (log ++ new) ps fid.
Proof.
  intros (sp & H0' & Hsp & Hc). exists sp. split_and!; try done.
  destruct Hc as [Hall|(p & ? & ? & ? & Hp)]; [left; intros; by apply settled_app, Hall|right].
  exists p. split_and!; try done. intros. by apply settled_app, Hp.
Qed.

(** What prefetching leaves alone. *)
Record same_but_queue s s' : Prop := {
  sq_incoming : incoming s' = incoming s;
  sq_prefetched : prefetched_files s' = prefetched_files s;
  sq_complete : serving_complete s' = serving_complete s;
  sq_destroyed : destroyed s' = destroyed s;
  sq_done : done_sent s' = done_sent s }.

#[export] Instance same_but_queue_preorder : PreOrder same_but_queue.
Proof. split; [by split|]. intros s1 s2 s3 [] []. split; congruence. Qed.
Lemma same_ctl_queue s s' : same_ctl s s' -> same_but_queue s s'.
Proof. intros []. by split. Qed.
Lemma set_prefetches_queue s ps : same_but_queue s (set_prefetches ps s).
Proof. by split. Qed.

Lemma inv_set_prefetches fs d sh s log ps :
  Inv fs d sh s log -> Forall (prefetch_ok fs) ps -> Inv fs d sh (set_prefetches ps s) log.
Proof. intros [[? ? ? ? ? ?] Hc Hp] Hps. by split; [split| |]. Qed.

Lemma take_seqZ_settled fs log fid a n k b :
  (forall b, b ∈ take k (seqZ a n) -> settled fs log fid b) -> a <= b < a + Z.of_nat k -> b < a + n -> settled fs log fid b.
Proof.
  intros Hs Hb Hn. apply Hs. apply list_elem_of_lookup. exists (Z.to_nat (b - a)).
  rewrite lookup_take_lt by lia. apply lookup_seqZ. lia.
Qed.

(** One entry of the queue: both runs, and the entry after them. *)
Lemma prefetch_entry fs d sh s log p ps f budget :
  Inv fs d sh s log -> prefetches s = p :: ps -> 0 < budget -> files s !! Z.to_nat (file_index p) = Some f ->
  let file_id := swrap 16 (file_index p) in
  exists s1 b1 n s2 b2 m new,
    send_each file_id (drop (priority_index p) (priority_blocks f)) budget 0 s = Ok (s1, b1, n) /\
    send_each file_id (seqZ (overall_index p) (overall_end p - overall_index p)) b1 0 s1 = Ok (s2, b2, m) /\
    let p' := mk_prefetch (file_index p) (overall_index p + Z.of_nat m) (overall_end p) (priority_index p + n) in
    Inv fs d sh s2 (log ++ new) /\ same_ctl s s2 /\ prefetch_ok fs p' /\ 0 <= b2 /\
    Z.of_nat (length (data_keys (log ++ new))) = Z.of_nat (length (data_keys log)) + (budget - b2) /\
    (prefetch_done p' f = false -> b2 = 0) /\
    (forall b, overall_index p <= b < overall_index p' -> b < overall_end p -> settled fs (log ++ new) (file_index p) b) /\
    (prefetch_done p' f = true -> overall_end p <= overall_index p').
Proof.
  intros HI Hps Hb Hf file_id. pose proof (inv_prefetch _ _ _ _ _ HI) as Hok. rewrite Hps in Hok.
  apply list.Forall_cons in Hok as [(sp & Hp0 & Hsp & Ho & He) _].
  assert (file_id = file_index p) as ->.
  { destruct (inv_spec _ _ _ _ _ _ _ (inv_0 _ _ _ _ _ HI) Hf) as [_ Hn]. apply swrap_small; unfold sint; lia. }
  destruct (send_each_spec fs d sh (file_index p) (drop (priority_index p) (priority_blocks f)) budget 0 s log HI ltac:(lia))
    as (s1 & b1 & n & new1 & H1' & HI1 & Hc1 & Hk1 & Hb1 & Hall1 & Hl1 & _).
  destruct (send_each_spec fs d sh (file_index p) (seqZ (overall_index p) (overall_end p - overall_index p)) b1 0 s1 _ HI1 (proj1 Hb1))
    as (s2 & b2 & m & new2 & H2' & HI2 & Hc2 & Hk2 & Hb2 & Hall2 & Hl2 & Hs2).
  exists s1, b1, n, s2, b2, m, (new1 ++ new2). rewrite app_assoc. rewrite length_seqZ in Hk2, Hall2.
  rewrite length_drop in Hk1, Hall1. cbn [Nat.add] in *.
  split_and!; try done; cbn [overall_index overall_end priority_index prefetch_done].
  - by etrans.
  - exists sp. cbn. split_and!; try done; lia.
  - lia.
  - lia.
  - unfold prefetch_done. cbn [overall_index overall_end priority_index]. intros Hnd.
    destruct (decide (0 < b2)) as [Hp2|]; [exfalso|lia]. specialize (Hall2 Hp2).
    assert (0 < b1) as Hp1 by lia. specialize (Hall1 Hp1). subst m n.
    rewrite (proj2 (Z.leb_le _ _)) in Hnd by lia. destruct (priority_blocks f) as [|x xs]; [done|]. cbn [andb] in Hnd.
    apply Nat.leb_gt in Hnd. cbn [length] in *. lia.
  - intros b Hbr Hbe. eapply take_seqZ_settled; [exact Hs2|lia|lia].
  - unfold prefetch_done. cbn [overall_index overall_end priority_index].
    destruct (priority_blocks f); [by intros ?%Z.leb_le|]. by intros [?%Z.leb_le _]%andb_true_iff.
Qed.

Lemma fetch_step fs s s2 log new p ps p' (f : ServerFile Src) :
  Fetch fs s log -> prefetches s = p :: ps -> prefetched_files s2 = prefetched_files s ->
  file_index p' = file_index p -> overall_end p' = overall_end p ->
  (forall b, overall_index p <= b < overall_index p' -> b < overall_end p -> settled fs (log ++ new) (file_index p) b) ->
  (prefetch_done p' f = true -> overall_end p <= overall_index p') ->
  Fetch fs (set_prefetches (if prefetch_done p' f then ps else p' :: ps) s2) (log ++ new).
Proof.
  intros HF Hps Hpf Hi He Hs Hd fid Hin. cbn [prefetched_files set_prefetches] in Hin. rewrite Hpf in Hin.
  cbn [prefetches set_prefetches]. destruct (HF fid Hin) as (sp & H0' & Hsp & Hc). rewrite Hps in Hc.
  exists sp. split_and!; try done. destruct Hc as [Hall|(q & Hq & Hqi & Hqe & Hqs)].
  { left. intros. by apply settled_app, Hall. }
  apply elem_of_cons in Hq as [->|Hq].
  - assert (forall b, 0 <= b < overall_index p' -> b < overall_end p -> settled fs (log ++ new) fid b) as Hset.
    { intros b Hb Hbe. destruct (decide (b < overall_index p)); [apply settled_app, Hqs; lia|].
      rewrite <- Hqi. apply Hs; lia. }
    destruct (prefetch_done p' f); [left; intros; apply Hset; [specialize (Hd eq_refl)|]; lia|].
    destruct (decide (overall_end p <= overall_index p')) as [Hge|Hlt]; [left; intros; apply Hset; lia|].
    right. exists p'. split_and!; [apply elem_of_cons; by left|congruence|congruence|]. intros b Hb. apply Hset; lia.
  - right. exists q. split_and!; try done; [|intros; by apply settled_app, Hqs].
    destruct (prefetch_done p' f); [done|apply elem_of_cons; by right].
Qed.

Lemma prefetch_go_spent fuel s : prefetch_go fuel 0 s = Ok s.
Proof. destruct fuel; cbn [prefetch_go]; by destruct (prefetches s). Qed.

Lemma prefetch_go_spec fs d sh fuel : forall budget s log,
  Inv fs d sh s log -> Fetch fs s log -> 0 <= budget -> (length (prefetches s) <= fuel)%nat ->
  exists s' new, prefetch_go fuel budget s = Ok s' /\ Inv fs d sh s' (log ++ new) /\ Fetch fs s' (log ++ new) /\
    same_but_queue s s' /\
    (prefetches s' = [] \/ Z.of_nat (length (data_keys (log ++ new))) = Z.of_nat (length (data_keys log)) + budget).
Proof.
  induction fuel as [|fuel IH]; intros budget s log HI HF Hb Hl.
  { destruct (prefetches s) as [|p ps] eqn:Hps; [|cbn in Hl; lia].
    exists s, []. cbn [prefetch_go]. rewrite Hps, app_nil_r. split_and!; try done. by left. }
  cbn [prefetch_go]. destruct (prefetches s) as [|p ps] eqn:Hps.
  { exists s, []. rewrite app_nil_r. split_and!; try done. by left. }
  destruct (Z.ltb_spec 0 budget) as [Hpos|Hpos].
  2: { exists s, []. rewrite app_nil_r. split_and!; try done. right. lia. }
  pose proof (inv_prefetch _ _ _ _ _ HI) as Hok. rewrite Hps in Hok. apply list.Forall_cons in Hok as [(sp & Hp0 & Hsp & _) Hoks].
  assert (exists f, files s !! Z.to_nat (file_index p) = Some f) as [f Hf].
  { rewrite <- (inv_specs _ _ _ _ _ (inv_0 _ _ _ _ _ HI)), list_lookup_fmap in Hsp.
    destruct (files s !! _); [by eexists|done]. }
  destruct (prefetch_entry fs d sh s log p ps f budget HI Hps Hpos Hf)
    as (s1 & b1 & n & s2 & b2 & m & new & H1' & H2' & HI2 & Hct & Hpok & Hb2 & Hlen & Hnd & Hset & Hdn).
  rewrite (get_index_Z _ _ _ Hp0 Hf). cbn [res_bind].
  rewrite H1'. cbn [res_bind]. rewrite H2'. cbn [res_bind file_index].
  set (p' := mk_prefetch _ _ _ _) in *.
  assert (exists f2, files s2 !! Z.to_nat (file_index p) = Some f2 /\ priority_blocks f2 = priority_blocks f) as (f2 & Hf2 & Hpri).
  { destruct (inv_spec _ _ _ _ _ _ _ (inv_0 _ _ _ _ _ HI) Hf) as [Hs1 _]. pose proof Hs1 as Hs2.
    rewrite <- (inv_specs _ _ _ _ _ (inv_0 _ _ _ _ _ HI2)), list_lookup_fmap in Hs2.
    destruct (files s2 !! _) as [f2|]; [|done]. exists f2. split; [done|]. by injection Hs2. }
  rewrite (get_index_Z _ _ _ Hp0 Hf2). cbn [res_bind].
  assert (prefetch_done p' f2 = prefetch_done p' f) as -> by (unfold prefetch_done; by rewrite Hpri).
  set (ps' := if prefetch_done p' f then ps else p' :: ps).
  assert (Inv fs d sh (set_prefetches ps' s2) (log ++ new)) as HI3.
  { apply inv_set_prefetches; [done|]. unfold ps'. destruct (prefetch_done p' f); [done|by constructor]. }
  assert (Fetch fs (set_prefetches ps' s2) (log ++ new)) as HF3.
  { eapply fetch_step; try done. apply (sc_prefetched _ _ Hct). }
  assert (same_but_queue s (set_prefetches ps' s2)) as Hq.
  { etrans; [by apply same_ctl_queue|]. apply set_prefetches_queue. }
  destruct (decide (0 < b2)) as [Hp2|Hp2].
  - assert (prefetch_done p' f = true) as Ed by (destruct (prefetch_done p' f); [done|lia]).
    destruct (IH b2 (set_prefetches ps' s2) (log ++ new) HI3 HF3 Hb2) as (s' & new' & Hr & HI' & HF' & Hq' & Hend).
    { cbn. unfold ps'. rewrite Ed. cbn in Hl. lia. }
    exists s', (new ++ new'). rewrite app_assoc. split_and!; try done; [by etrans|]. destruct Hend as [?|He]; [by left|right]. lia.
  - exists (set_prefetches ps' s2), new. split_and!; try done; [|right; lia].
    assert (b2 = 0) as -> by lia. apply prefetch_go_spent.
Qed.

Lemma run_prefetching_spec fs d sh s log :
  Inv fs d sh s log -> Fetch fs s log ->
  exists s' new, run_prefetching s = Ok s' /\ Inv fs d sh s' (log ++ new) /\ Fetch fs s' (log ++ new) /\ same_but_queue s s' /\
    (prefetches s' = [] \/ Z.of_nat (length (data_keys (log ++ new))) = Z.of_nat (length (data_keys log)) + 128).
Proof. intros HI HF. apply prefetch_go_spec; [done..|lia]. Qed.

(** ** Requests *)
Lemma blocks_len_eq f : file_ok f -> blocks_len f = Z.of_nat (length (sent_blocks f)).
Proof. intros (Hb & _ & _)%file_ok_sizes. unfold blocks_len, zlen. apply swrap_small; [lia|unfold sint; lia]. Qed.

Lemma fetch_ctl fs s s' log new ps :
  Fetch fs s log -> prefetched_files s' = prefetched_files s -> prefetches s' = ps ->
  (forall p, p ∈ prefetches s -> p ∈ ps) -> Fetch fs s' (log ++ new).
Proof.
  intros HF Hp <- Hsub fid Hin. rewrite Hp in Hin. apply HF in Hin. apply (fetching_app _ _ new) in Hin.
  destruct Hin as (sp & H0' & Hsp & Hc). exists sp. split_and!; try done. destruct Hc as [?|(p & Hin & Hc)]; [by left|right].
  exists p. split; [by apply Hsub|done].
Qed.

(** The requests that stop the program: an unknown file to prefetch, the first time. *)
Definition request_panics (fs : list FileSpec) s (r : RequestCommand) : bool :=
  (request_type r =? PREFETCH) && (Z.of_nat (length fs) <=? req_file_id r)
  && bool_decide (req_file_id r ∉ prefetched_files s).

Lemma handle_missing fs d sh s log r :
  Inv fs d sh s log -> Fetch fs s log -> request_type r = BLOCK_MISSING ->
  exists s' new, handle_request r s = Ok s' /\ Inv fs d sh s' (log ++ new) /\ Fetch fs s' (log ++ new) /\ same_but_queue s s'.
Proof.
  intros HI HF Ht. unfold handle_request. rewrite Ht. cbn [BLOCK_MISSING DESTROY SERVING_COMPLETE Z.eqb Pos.eqb].
  pose proof (inv_0 _ _ _ _ _ HI) as Hi.
  assert (exists s' new, Ok (E := no_fuel) s = Ok s' /\ Inv fs d sh s' (log ++ new) /\ Fetch fs s' (log ++ new) /\ same_but_queue s s') as Hid.
  { exists s, []. rewrite app_nil_r. done. }
  destruct ((_ <? 0) || _ || _) eqn:Er; [exact Hid|]. apply orb_false_iff in Er as [Er Eb%Z.ltb_ge].
  apply orb_false_iff in Er as [Ef%Z.ltb_ge El%Z.leb_gt].
  destruct (lookup_lt_is_Some_2 (files s) (Z.to_nat (req_file_id r)) ltac:(unfold zlen in *; lia)) as [f Hf].
  rewrite (get_index_Z _ _ _ Ef Hf). cbn [res_bind]. destruct (Z.leb_spec (zlen (sent_blocks f)) (req_block_idx r)) as [|Hlt]; [exact Hid|].
  destruct (send_settles fs d sh s log (req_file_id r) (req_block_idx r) true HI) as (s1 & res & new & -> & HI1 & Hct & _ & _).
  cbn [res_bind]. assert (Fetch fs s1 (log ++ new)) as HF1.
  { eapply fetch_ctl; try done; [apply (sc_prefetched _ _ Hct)|]. by rewrite (sc_prefetches _ _ Hct). }
  pose proof (same_ctl_queue _ _ Hct) as Hq. destruct res; [|by exists s1, new..].
  assert (exists f1, files s1 !! Z.to_nat (req_file_id r) = Some f1 /\ spec_of f1 = spec_of f) as (f1 & Hf1 & Hsp).
  { destruct (inv_spec _ _ _ _ _ _ _ Hi Hf) as [Hs1 _].
    rewrite <- (inv_specs _ _ _ _ _ (inv_0 _ _ _ _ _ HI1)), list_lookup_fmap in Hs1.
    destruct (files s1 !! _) as [f1|]; [|done]. exists f1. split; [done|]. apply (inj Some). exact Hs1. }
  rewrite (get_index_Z _ _ _ Ef Hf1). cbn [res_bind].
  pose proof (fi_ok _ _ _ (inv_files _ _ _ _ _ (inv_0 _ _ _ _ _ HI1) _ _ Hf1)) as Hok1.
  destruct (file_ok_sizes f1 Hok1) as (Hb1 & _ & _).
  assert (length (sent_blocks f1) = length (sent_blocks f)) as Hlen by exact (f_equal fs_blocks Hsp).
  eexists _, new. split_and!; [done| | |by etrans; [done|apply set_prefetches_queue]].
  - apply inv_set_prefetches; [done|]. constructor; [|apply HI1].
    destruct (inv_spec _ _ _ _ _ _ _ (inv_0 _ _ _ _ _ HI1) Hf1) as [Hs1 _].
    exists (spec_of f1). cbn. unfold zlen in *. rewrite (blocks_len_eq f1 Hok1), (swrap_small 32) by (unfold sint; lia). split_and!; [done|done|lia|lia].
  - rewrite <- (app_nil_r (log ++ new)). eapply fetch_ctl; try done. intros q Hin. apply elem_of_cons. by right.
Qed.

Lemma handle_prefetch fs d sh s log r :
  Inv fs d sh s log -> Fetch fs s log -> request_type r = PREFETCH ->
  if request_panics fs s r then handle_request r s = Panic
  else exists s', handle_request r s = Ok s' /\ Inv fs d sh s' log /\ Fetch fs s' log /\ destroyed s' = destroyed s /\ done_sent s' = done_sent s /\
    incoming s' = incoming s.
Proof.
  intros HI HF Ht. unfold handle_request, request_panics. rewrite Ht. cbn [PREFETCH BLOCK_MISSING DESTROY SERVING_COMPLETE Z.eqb Pos.eqb andb].
  pose proof (inv_0 _ _ _ _ _ HI) as Hi. assert (length fs = length (files s)) as Hlen by (rewrite <- (inv_specs _ _ _ _ _ Hi); apply length_map).
  destruct (Z.ltb_spec (req_file_id r) 0) as [Hneg|Hpos].
  { rewrite (proj2 (Z.leb_gt _ _)) by lia. cbn [andb]. by exists s. }
  destruct (decide (req_file_id r ∈ prefetched_files s)) as [Hin|Hout].
  { rewrite (bool_decide_eq_true_2 (req_file_id r ∈ prefetched_files s)) by done.
    rewrite (bool_decide_eq_false_2 (req_file_id r ∉ prefetched_files s)) by tauto. rewrite andb_false_r. by exists s. }
  rewrite (bool_decide_eq_false_2 (req_file_id r ∈ prefetched_files s)) by done.
  rewrite (bool_decide_eq_true_2 (req_file_id r ∉ prefetched_files s)) by done. rewrite andb_true_r.
  cbn [files set_prefetched prefetches].
  destruct (Z.leb_spec (Z.of_nat (length fs)) (req_file_id r)) as [Hge|Hlt].
  { unfold get_index. rewrite (proj2 (Z.leb_le 0 _)) by done. by rewrite (lookup_ge_None_2 (files s)) by lia. }
  destruct (lookup_lt_is_Some_2 (files s) (Z.to_nat (req_file_id r)) ltac:(lia)) as [f Hf].
  rewrite (get_index_Z _ _ _ Hpos Hf). cbn [res_bind]. eexists. split; [done|].
  pose proof (fi_ok _ _ _ (inv_files _ _ _ _ _ Hi _ _ Hf)) as Hok. destruct (file_ok_sizes f Hok) as (Hb & _ & _).
  destruct (inv_spec _ _ _ _ _ _ _ Hi Hf) as [Hsp _].
  assert (overall_end (prefetch_full (req_file_id r) f) = Z.of_nat (length (sent_blocks f))) as Hend.
  { unfold prefetch_full, prefetch_new. cbn [overall_end]. rewrite (blocks_len_eq f Hok). unfold sat_add32. lia. }
  split_and!; try done.
  - apply (inv_set_prefetches fs d sh (set_prefetched ({[req_file_id r]} ∪ prefetched_files s) s)).
    + destruct HI as [[? ? ? ? ? ?] ? ?]. by split; [split| |].
    + apply Forall_app. split; [apply HI|]. constructor; [|done]. exists (spec_of f). rewrite Hend. done.
  - intros fid Hin. cbn [prefetched_files set_prefetches set_prefetched] in Hin. apply elem_of_union in Hin as [->%elem_of_singleton|Hin].
    + exists (spec_of f). split_and!; try done. right. exists (prefetch_full (req_file_id r) f).
      split_and!; [apply elem_of_app; right; by apply list_elem_of_singleton|done|done|]. cbn. lia.
    + destruct (HF fid Hin) as (sp & H0' & Hsp' & Hc). exists sp. split_and!; try done.
      destruct Hc as [?|(p & Hin' & Hc)]; [by left|right]. exists p. split; [apply elem_of_app; by left|done].
Qed.

(** A change of the state that the invariant does not see. *)
Lemma inv_frame fs d sh sh' s s' log :
  Inv fs d sh s log -> files s' = files s -> prefetches s' = prefetches s -> emits sh' s' log -> Inv fs d sh' s' log.
Proof. intros [[? ? ? ? ? ?] ? ?] Hf Hp He. split; [split|by rewrite Hf|by rewrite Hp]; by rewrite ?Hf. Qed.

Lemma fetch_frame fs s s' log : Fetch fs s log -> prefetched_files s' = prefetched_files s -> prefetches s' = prefetches s -> Fetch fs s' log.
Proof. intros HF Hp Hq fid. rewrite Hp, Hq. apply HF. Qed.

Lemma handle_request_spec fs d sh s log r :
  Inv fs d sh s log -> Fetch fs s log ->
  if request_panics fs s r then handle_request r s = Panic
  else exists s' new, handle_request r s = Ok s' /\ Inv fs d sh s' (log ++ new) /\ Fetch fs s' (log ++ new) /\
    done_sent s' = done_sent s /\ incoming s' = incoming s.
Proof.
  intros HI HF. destruct (decide (request_type r = PREFETCH)) as [Ep|Ep].
  { pose proof (handle_prefetch fs d sh s log r HI HF Ep) as Hh. destruct (request_panics fs s r); [done|].
    destruct Hh as (s' & ? & ? & ? & ? & ? & ?). exists s', []. by rewrite app_nil_r. }
  assert (request_panics fs s r = false) as -> by (unfold request_panics; by rewrite (proj2 (Z.eqb_neq _ _))).
  destruct (decide (request_type r = BLOCK_MISSING)) as [Em|Em].
  { destruct (handle_missing fs d sh s log r HI HF Em) as (s' & new & ? & ? & ? & Hq). exists s', new.
    destruct Hq. done. }
  unfold handle_request. rewrite (proj2 (Z.eqb_neq _ BLOCK_MISSING) Em), (proj2 (Z.eqb_neq _ PREFETCH) Ep).
  destruct (_ =? DESTROY); [|destruct (_ =? SERVING_COMPLETE)]; eexists _, []; rewrite app_nil_r; split_and!; try done.
  - by eapply inv_frame; [| | |apply HI].
  - by eapply inv_frame; [| | |apply HI].
Qed.

(** ** The end of serving *)
Lemma count_true_all l : count_true l = length l -> forall i, (i < length l)%nat -> l !! i = Some true.
Proof.
  unfold count_true. induction l as [|b l IH]; cbn; intros Hc i Hi; [lia|]. pose proof (count_true_le l) as Hle. unfold count_true in Hle.
  destruct b; cbn in Hc; [|lia]. destruct i as [|i]; [done|]. apply IH; lia.
Qed.

Lemma all_sent_keys fs d sh s log fid idx sp :
  Inv fs d sh s log -> all_files_sent s = true -> fs !! fid = Some sp -> (idx < fs_blocks sp)%nat ->
  (Z.of_nat fid, Z.of_nat idx) ∈ data_keys log.
Proof.
  intros HI Ha Hsp Hlt. pose proof (inv_0 _ _ _ _ _ HI) as Hi. rewrite <- (inv_specs _ _ _ _ _ Hi), list_lookup_fmap in Hsp.
  destruct (files s !! fid) as [f|] eqn:Hf; [|done]. injection Hsp as <-. cbn [spec_of fs_blocks] in Hlt.
  destruct (inv_files _ _ _ _ _ Hi fid f Hf) as [Fok Fd _ Fc].
  assert (sent_blocks_count f = blocks_len f) as E.
  { apply Z.eqb_eq. unfold all_files_sent in Ha. rewrite forallb_forall in Ha. apply Ha. apply list_elem_of_In. by eapply list_elem_of_lookup_2. }
  rewrite (blocks_len_eq f Fok), Fc in E. apply Nat2Z.inj in E.
  by apply (Fd idx true (count_true_all _ E idx Hlt)).
Qed.

Lemma send_done_spec fs sh s log :
  Inv fs false sh s log -> all_files_sent s = true -> Inv fs true sh (send_done s) (log ++ [done_block]) /\ same_ctl s (send_done s).
Proof.
  intros HI Ha. pose proof HI as [[He Hg Hs Hf Hn Hd] Hc Hp].
  assert (done_block ∉ log) as Hnd by (intros Hin; apply Hd in Hin; done).
  assert (same_ctl s (send_done s)) as Hct.
  { unfold send_done, send. cbn [orb]. etrans; [|apply same_ctl_flush]. by split. }
  assert (files (send_done s) = files s) as Hfs by (unfold send_done, send; cbn [orb]; by rewrite files_flush).
  split; [|done]. split; [split| |].
  - apply (emits_append sh s log done_block true (encode_response done_marker)); [done| |symmetry; apply app_nil_r].
    unfold block_ok, sint. split_and!; vm_compute; congruence.
  - apply good_done; [done..|]. intros. by eapply all_sent_keys.
  - by rewrite Hfs.
  - rewrite Hfs. intros fid f Hff. destruct (Hf fid f Hff) as [? Fd Fh Fc].
    split; try done; [unfold data_keys in *|unfold hash_keys in *]; rewrite keys_snoc; by rewrite app_nil_r.
  - done.
  - rewrite elem_of_app, list_elem_of_singleton. split; [by right|done].
  - by rewrite Hfs.
  - by rewrite (sc_prefetches _ _ Hct).
Qed.

(** ** The whole server *)
Definition Served fs sh s log : Prop := Inv fs (done_sent s) sh s log /\ Fetch fs s log.

Lemma served_flush fs sh s log : Served fs sh s log -> Served fs sh (flush s) log.
Proof.
  intros [HI HF]. destruct (same_ctl_flush s) as [? Hp Hpf ? ? Hd]. split; [|by eapply fetch_frame].
  rewrite Hd. eapply inv_frame; [done|apply files_flush|done|]. apply emits_flush, HI.
Qed.

Lemma served_announce fs sh s log :
  Served fs sh s log ->
  exists new, Served fs sh (if negb (done_sent s) && bool_decide (length (prefetches s) = 0%nat) && all_files_sent s
                            then set_done_sent (send_done s) else s) (log ++ new).
Proof.
  intros [HI HF]. destruct (negb _ && _ && _) eqn:E; [|exists []; rewrite app_nil_r; by split].
  apply andb_true_iff in E as [E Ea]. apply andb_true_iff in E as [Ed%negb_true_iff _]. rewrite Ed in HI.
  destruct (send_done_spec fs sh s log HI Ea) as [HI' Hct]. exists [done_block]. split.
  - eapply inv_frame; [exact HI'|done|done|]. apply HI'.
  - eapply fetch_ctl; try done; [apply (sc_prefetched _ _ Hct)|]. intros p0 Hp0. change (p0 ∈ prefetches (send_done s)). by rewrite (sc_prefetches _ _ Hct).
Qed.

Lemma serve_step_spec fs sh s log :
  Served fs sh s log ->
  serve_step s = Panic \/
  exists s' fw go new, serve_step s = Ok (s', fw, go) /\ Served fs sh s' (log ++ new).
Proof.
  intros HS. unfold serve_step. destruct (served_announce fs sh s log HS) as [new1 HS1]. revert HS1.
  generalize (if negb (done_sent s) && bool_decide (length (prefetches s) = 0%nat) && all_files_sent s
              then set_done_sent (send_done s) else s). clear s HS. intros s HS.
  assert (Served fs sh (match prefetches s with [] => flush s | _ => s end) (log ++ new1)) as HS1.
  { destruct (prefetches s); [by apply served_flush|done]. }
  revert HS1. generalize (match prefetches s with [] => flush s | _ => s end). clear s HS. intros s [HI HF].
  rewrite take_request_take1. destruct (take1 (incoming s)) as [[fw r] rest]. set (s1 := set_incoming rest s).
  assert (Served fs sh s1 (log ++ new1)) as [HI1 HF1].
  { split; [|by eapply fetch_frame]. eapply inv_frame; [exact HI|done|done|]. by eapply emits_ctl; [| |apply HI]. }
  assert (forall s2 new2, Served fs sh s2 ((log ++ new1) ++ new2) ->
    exists s' fw' go new, (let! s := run_prefetching s2 in Ok (s, fw, negb (destroyed s))) = Ok (E := no_fuel) (s', fw', go) /\
      Served fs sh s' (log ++ new)) as Hrun.
  { intros s2 new2 [HI2 HF2]. destruct (run_prefetching_spec _ _ _ _ _ HI2 HF2) as (s' & new3 & -> & HI3 & HF3 & Hq & _).
    cbn [res_bind]. eexists _, _, _, (new1 ++ new2 ++ new3). split; [done|]. rewrite !app_assoc. split; [|done]. by rewrite (sq_done _ _ Hq). }
  destruct r as [r|]; cbn [res_bind].
  - pose proof (handle_request_spec _ _ _ _ _ r HI1 HF1) as Hh. destruct (request_panics fs s1 r).
    { left. by rewrite Hh. }
    destruct Hh as (s2 & new2 & -> & HI2 & HF2 & Hd & _). right. cbn [res_bind]. apply (Hrun s2 new2). split; [|done]. by rewrite Hd.
  - right. apply (Hrun s1 []). rewrite app_nil_r. by split.
Qed.

(** The public operations, and what was shipped before. *)
Inductive inc_step : bytes * IncrementalServer Src -> bytes * IncrementalServer Src -> Prop :=
| step_feed sh s b : inc_step (sh, s) (sh, feed b s)
| step_serve sh s s' fw go : serve_step s = Ok (s', fw, go) -> inc_step (sh, s) (sh, s')
| step_request sh s s' r : handle_request r s = Ok s' -> inc_step (sh, s) (sh, s')
| step_prefetch sh s s' : run_prefetching s = Ok s' -> inc_step (sh, s) (sh, s')
| step_block sh s s' file_id b fl r : send_data_block file_id b fl s = Ok (s', r) -> inc_step (sh, s) (sh, s')
| step_ship sh s : inc_step (sh, s) (sh ++ snd (drain_output s), fst (drain_output s)).

Lemma inc_step_served fs sh s sh' s' log :
  inc_step (sh, s) (sh', s') -> Served fs sh s log -> exists new, Served fs sh' s' (log ++ new).
Proof.
  intros Hst [HI HF]. inversion Hst; subst; clear Hst.
  - exists []. rewrite app_nil_r. split; [|by eapply fetch_frame]. eapply inv_frame; [exact HI|done|done|].
    by eapply emits_ctl; [| |apply HI].
  - destruct (serve_step_spec fs sh' s log) as [E|(s1 & ? & ? & new & E & HS)]; [done|congruence|].
    exists new. by assert (s1 = s') as -> by congruence.
  - pose proof (handle_request_spec _ _ _ _ _ r HI HF) as Hh. destruct (request_panics fs s r); [congruence|].
    destruct Hh as (s1 & new & E & HI1 & HF1 & Hd & _). assert (s1 = s') as -> by congruence.
    exists new. split; [|done]. by rewrite Hd.
  - destruct (run_prefetching_spec _ _ _ _ _ HI HF) as (s1 & new & E & HI1 & HF1 & Hq & _). assert (s1 = s') as -> by congruence.
    exists new. split; [|done]. by rewrite (sq_done _ _ Hq).
  - destruct (send_settles fs _ sh' s log file_id b fl HI) as (s1 & r1 & new & E & HI1 & Hct & _). assert (s1 = s') as -> by congruence.
    exists new. split; [by rewrite (sc_done _ _ Hct)|]. eapply fetch_ctl; try done; [apply (sc_prefetched _ _ Hct)|].
    by rewrite (sc_prefetches _ _ Hct).
  - exists []. rewrite app_nil_r. destruct (served_flush fs sh s log) as [HI1 HF1]; [done|]. cbn [drain_output fst snd].
    split; [|by eapply fetch_frame]. eapply inv_frame; [exact HI1|done|done|].
    destruct (inv_emits _ _ _ _ _ (inv_0 _ _ _ _ _ HI1)) as (cs & pend & hd & E & ?). exists cs, pend, hd. cbn. rewrite app_nil_r. done.
Qed.

(** A server of files that were not sent yet. *)
Definition fresh_file (f : ServerFile Src) : Prop := exists path n src pri,
  0 <= n < 2 ^ 42 /\ f = mk_file path n (sent_blocks (file_new path n src)) 0 (sent_tree_blocks (file_new path n src)) pri src.

Lemma served_new l : Forall fresh_file l -> zlen l <= 2 ^ 15 -> Served (map spec_of l) [] (server_new l) [].
Proof.
  intros Hl Hn. split; [|intros fid Hin; set_solver]. split; [split| |done]; cbn [server_new files]; try done.
  - exists [], [], (zrep 4 x00). done.
  - constructor.
  - intros fid f Hf. destruct (Forall_lookup_1 _ _ _ _ Hl Hf) as (path & n & src & pri & Hr & ->).
    assert (0 <= num_bytes_to_num_blocks n) as Hb by (rewrite num_blocks_cdiv by lia; unfold cdiv, BLOCK_SIZE; apply Z.div_pos; lia).
    assert (0 <= verity_tree_blocks_for_file n) as Ht.
    { unfold verity_tree_blocks_for_file. destruct (_ =? 0); [lia|]. apply tree_go_bound. }
    unfold file_new. cbn [sent_blocks sent_tree_blocks]. split; cbn [sent_blocks sent_tree_blocks sent_blocks_count].
    + unfold file_ok. cbn [size sent_blocks sent_tree_blocks source]. split_and!; [lia..| |].
      * rewrite zlen_zrep; lia.
      * destruct (has_tree src); [rewrite zlen_zrep; lia|done].
    + intros i b Hi. apply lookup_replicate in Hi as [-> _]. split; [done|]. by intros ?%elem_of_nil.
    + intros i b Hi. destruct (has_tree src); [|done]. apply lookup_replicate in Hi as [-> _]. split; [done|]. by intros ?%elem_of_nil.
    + unfold count_true, zrep. induction (Z.to_nat _); cbn; [done|]. exact IHn0.
  - rewrite length_map. exact Hn.
  - split; [done|]. by intros ?%elem_of_nil.
  - intros fid f Hf [i Hi]. destruct (Forall_lookup_1 _ _ _ _ Hl Hf) as (path & n & src & pri & _ & ->). cbn in Hi.
    destruct (has_tree src); [|done]. by apply lookup_replicate in Hi as [? _].
Qed.

Lemma inc_reachable_served l sh s :
  Forall fresh_file l -> zlen l <= 2 ^ 15 -> rtc inc_step ([], server_new l) (sh, s) ->
  exists log, Served (map spec_of l) sh s log.
Proof.
  intros Hl Hn Hr. remember ([] : bytes, server_new l) as a eqn:Ea. remember (sh, s) as b eqn:Eb.
  assert (exists log, Served (map spec_of l) (fst a) (snd a) log) as H0' by (exists []; subst a; by apply served_new).
  clear Ea. revert Eb H0'. induction Hr as [x|x y z Hst Hr IH]; intros -> [log HS]; [by exists log|].
  destruct x as [sh1 s1], y as [sh2 s2]. apply IH; [done|]. destruct (inc_step_served _ _ _ _ _ log Hst HS) as [new ?]. by eexists.
Qed.

(** C18: what the device reads, when every block of the verity trees can be read from its file ([GoodSource]; a read that
    fails can lead to a data block without its tree, [IncFault.data_without_tree]) and decompression inverts compression.
    However a server of unsent files is driven (input, iterations, requests,
    prefetching, single blocks, shipping of the output), what it has sent and has pending is read by the
    device as a sequence of blocks that keeps to the specification: every data block at most once, with the
    file's contents after decompression, and only after its leaf and all inner nodes of the verity tree; the
    end announced at most once, after everything. *)
Theorem inc_stream_good l sh s :
  Forall fresh_file l -> zlen l <= 2 ^ 15 -> rtc inc_step ([], server_new l) (sh, s) ->
  exists log, device_reads (sh ++ snd (drain_output s)) = Some log /\ good (map spec_of l) log.
Proof.
  intros Hl Hn Hr. destruct (inc_reachable_served l sh s Hl Hn Hr) as [log [HI _]].
  exists log. split; [apply emits_reads|]; apply HI.
Qed.

(** A request stops the server exactly if it asks, for the first time, to prefetch a file number that is
    not below the number of files; every other request, of whatever type and with whatever numbers, is handled. *)
Theorem inc_request_panics_iff l sh s r :
  Forall fresh_file l -> zlen l <= 2 ^ 15 -> rtc inc_step ([], server_new l) (sh, s) ->
  (handle_request r s = Panic <->
     request_type r = PREFETCH /\ zlen l <= req_file_id r /\ req_file_id r ∉ prefetched_files s) /\
  (handle_request r s <> Panic -> exists s', handle_request r s = Ok s').
Proof.
  intros Hl Hn Hr. destruct (inc_reachable_served l sh s Hl Hn Hr) as [log [HI HF]].
  pose proof (handle_request_spec _ _ _ _ _ r HI HF) as Hh.
  assert (request_panics (map spec_of l) s r = true <->
    request_type r = PREFETCH /\ zlen l <= req_file_id r /\ req_file_id r ∉ prefetched_files s) as Hp.
  { unfold request_panics. rewrite !andb_true_iff, Z.eqb_eq, Z.leb_le, bool_decide_eq_true, length_map. unfold zlen. tauto. }
  destruct (request_panics _ _ _).
  - split; [|done]. split; [intros _; by apply Hp|done].
  - destruct Hh as (s' & new & E & _). rewrite E. split; [|by eexists]. split; [done|]. intros Hc. apply Hp in Hc. done.
Qed.

(** ** Prefetching ends *)
Definition total_blocks (fs : list FileSpec) : nat := sum_list (map fs_blocks fs).

Fixpoint all_keys (k : nat) (fs : list FileSpec) : list (Z * Z) :=
  match fs with
  | [] => []
  | sp :: fs => map (fun i => (Z.of_nat k, Z.of_nat i)) (seq 0 (fs_blocks sp)) ++ all_keys (S k) fs
  end.

Lemma length_all_keys fs : forall k, length (all_keys k fs) = total_blocks fs.
Proof. induction fs as [|sp fs IH]; intros k; [done|]. cbn. rewrite length_app, length_map, length_seq, IH. done. Qed.

Lemma all_keys_in fs : forall k j sp i,
  fs !! j = Some sp -> (i < fs_blocks sp)%nat -> (Z.of_nat (k + j), Z.of_nat i) ∈ all_keys k fs.
Proof.
  induction fs as [|x fs IH]; intros k [|j] sp i; cbn; try done.
  - intros [= ->] Hi. apply elem_of_app. left. apply list_elem_of_In, in_map_iff. exists i. rewrite Nat.add_0_r. split; [done|].
    apply in_seq. lia.
  - intros Hj Hi. apply elem_of_app. right. replace (k + S j)%nat with (S k + j)%nat by lia. by eapply IH.
Qed.

Lemma good_keys fs log : good fs log -> NoDup (data_keys log) /\ forall x, x ∈ data_keys log -> x ∈ all_keys 0 fs.
Proof.
  induction 1 as [|l fid i sp d Hg [IHn IHs] Hsp Hi Hr|l fid idx sp d ct p Hg [IHn IHs] Hsp Hi Hnew Hneed Hr Hu|l Hg [IHn IHs] Hd Hall].
  - split; [constructor|]. by intros x ?%elem_of_nil.
  - rewrite data_keys_app. unfold data_keys at 2 4. cbn [omap list_omap]. rewrite (proj2 (key_hash fid i d)). by rewrite app_nil_r.
  - rewrite data_keys_app. unfold data_keys at 2 4. cbn [omap list_omap]. rewrite (proj1 (key_data fid idx ct p)). split.
    + apply list.NoDup_app. split_and!; [done| |apply NoDup_singleton]. intros x Hx Hx'%list_elem_of_singleton. by subst.
    + intros x Hx. apply elem_of_app in Hx as [Hx|Hx]; [by apply IHs|]. apply list_elem_of_singleton in Hx as ->. by apply (all_keys_in fs 0 fid sp idx).
  - rewrite data_keys_app. cbn. by rewrite app_nil_r.
Qed.

Lemma good_length fs log : good fs log -> (length (data_keys log) <= total_blocks fs)%nat.
Proof.
  intros [Hn Hs]%good_keys. rewrite <- (length_all_keys fs 0). apply submseteq_length. by apply NoDup_submseteq.
Qed.

Fixpoint prefetch_rounds (n : nat) s : res no_fuel (IncrementalServer Src) :=
  match n with O => Ok s | S n => let! s := run_prefetching s in prefetch_rounds n s end.

Lemma prefetch_rounds_idle n s : prefetches s = [] -> prefetch_rounds n s = Ok s.
Proof.
  intros He. assert (run_prefetching s = Ok s) as Hr.
  { unfold run_prefetching. rewrite He. cbn [length prefetch_go]. by rewrite He. }
  induction n as [|n IH]; [done|]. cbn [prefetch_rounds]. by rewrite Hr.
Qed.

Lemma prefetch_rounds_spec fs d sh n : forall s log,
  Inv fs d sh s log -> Fetch fs s log ->
  (total_blocks fs < length (data_keys log) + 128 * n)%nat ->
  exists s' new, prefetch_rounds n s = Ok s' /\ Inv fs d sh s' (log ++ new) /\ Fetch fs s' (log ++ new) /\
    same_but_queue s s' /\ prefetches s' = [].
Proof.
  induction n as [|n IH]; intros s log HI HF Hn.
  { pose proof (good_length _ _ (inv_good _ _ _ _ _ (inv_0 _ _ _ _ _ HI))). lia. }
  cbn [prefetch_rounds]. destruct (run_prefetching_spec _ _ _ _ _ HI HF) as (s1 & new & -> & HI1 & HF1 & Hq & He). cbn [res_bind].
  destruct He as [He|He].
  - rewrite prefetch_rounds_idle by done. by exists s1, new.
  - destruct (IH s1 (log ++ new) HI1 HF1 ltac:(lia)) as (s' & new' & ? & ? & ? & ? & ?).
    exists s', (new ++ new'). rewrite app_assoc. split_and!; try done. by etrans.
Qed.

Lemma count_true_full l : (forall i, (i < length l)%nat -> l !! i = Some true) -> count_true l = length l.
Proof.
  unfold count_true. induction l as [|b l IH]; intros Hl; [done|]. pose proof (Hl 0%nat ltac:(cbn; lia)) as H0'. cbn in H0'.
  injection H0' as ->. cbn. f_equal. apply IH. intros i Hi. apply (Hl (S i)). cbn. lia.
Qed.

(** Prefetching ends, and is complete. In every state that a server can reach, a number of rounds of 128
    blocks that covers the files empties the queue; then every block of a file that the device asked to
    prefetch has been sent, unless it cannot be read; and if all files were asked for and can be read, all
    are sent, which is when the end is announced. *)
Theorem inc_prefetch_completes l sh s n :
  Forall fresh_file l -> zlen l <= 2 ^ 15 -> rtc inc_step ([], server_new l) (sh, s) ->
  (total_blocks (map spec_of l) < 128 * n)%nat ->
  exists s' log, prefetch_rounds n s = Ok s' /\ prefetches s' = [] /\
    device_reads (sh ++ snd (drain_output s')) = Some log /\
    (forall fid f idx, Z.of_nat fid ∈ prefetched_files s -> l !! fid = Some f -> (idx < length (sent_blocks f))%nat ->
       read_data_block (source f) (Z.of_nat idx) <> None -> (Z.of_nat fid, Z.of_nat idx) ∈ data_keys log) /\
    ((forall fid f idx, l !! fid = Some f -> (idx < length (sent_blocks f))%nat ->
        Z.of_nat fid ∈ prefetched_files s /\ read_data_block (source f) (Z.of_nat idx) <> None) -> all_files_sent s' = true).
Proof.
  intros Hl Hnum Hr Hn. destruct (inc_reachable_served l sh s Hl Hnum Hr) as [log [HI HF]].
  destruct (prefetch_rounds_spec _ _ _ n s log HI HF ltac:(lia)) as (s' & new & E & HI' & HF' & Hq & He).
  assert (forall fid f idx, Z.of_nat fid ∈ prefetched_files s -> l !! fid = Some f -> (idx < length (sent_blocks f))%nat ->
       read_data_block (source f) (Z.of_nat idx) <> None -> (Z.of_nat fid, Z.of_nat idx) ∈ data_keys (log ++ new)) as Hsent.
  { intros fid f idx Hp Hf Hi Hrd. rewrite <- (sq_prefetched _ _ Hq) in Hp. destruct (HF' _ Hp) as (sp & _ & Hsp & Hc).
    rewrite Nat2Z.id, list_lookup_fmap, Hf in Hsp. injection Hsp as <-.
    destruct Hc as [Hall|(p & Hin & _)]; [|rewrite He in Hin; by apply elem_of_nil in Hin].
    destruct (Hall (Z.of_nat idx)) as [?|[Hbad|(sp & Hsp & Hnone)]]; [cbn; lia|done| |].
    - exfalso. apply (Hbad (spec_of f)); [lia| |cbn; lia]. by rewrite Nat2Z.id, list_lookup_fmap, Hf.
    - rewrite Nat2Z.id, list_lookup_fmap, Hf in Hsp. injection Hsp as <-. done. }
  exists s', (log ++ new). split_and!; try done; [apply emits_reads, HI'|].
  intros Hall. unfold all_files_sent. apply forallb_forall. intros f' Hin%list_elem_of_In. apply list_elem_of_lookup in Hin as [fid Hf'].
  pose proof (inv_files _ _ _ _ _ (inv_0 _ _ _ _ _ HI') fid f' Hf') as [Fok Fd _ Fc]. rewrite (blocks_len_eq f' Fok), Fc.
  apply Z.eqb_eq. f_equal. apply count_true_full. intros i Hi.
  destruct (inv_spec _ _ _ _ _ _ _ (inv_0 _ _ _ _ _ HI') Hf') as [Hsp _]. rewrite list_lookup_fmap in Hsp.
  destruct (l !! fid) as [f|] eqn:Hf; [|done]. apply (inj Some) in Hsp. pose proof (f_equal fs_blocks Hsp) as Hlen. cbn in Hlen.
  destruct (Hall fid f i Hf ltac:(lia)) as [Hp Hrd]. destruct (lookup_lt_is_Some_2 _ _ Hi) as [b Hb]. rewrite Hb. f_equal.
  apply (Fd i b Hb). apply (Hsent fid f i); [done|done|lia|done].
Qed.
End Trace.

(** ** A server at work *)
Module IncSample.

(** A file in memory with a tree; a codec that changes nothing. *)
Definition mem_source : BlockSource bytes :=
  {| read_data_block x i := Some (slice (i * 4096) (i * 4096 + 4096) x); read_tree_block _ i := Some [z2b i]; has_tree _ := true |}.
#[export] Existing Instance mem_source.
#[export] Instance plain_lz4 : Lz4 := {| lz4_compress d := d; lz4_decompress d := Some d |}.

#[export] Instance mem_good : GoodSource (Src := bytes).
Proof.
  split; cbn.
  - intros x i d [= <-]. unfold BLOCK_SIZE, zlen, slice. rewrite length_take. lia.
  - by intros x i d [= <-].
  - by intros.
Qed.
#[export] Instance plain_laws : Lz4Laws.
Proof. by split. Qed.

(** A file of two blocks. *)
Definition file0 : ServerFile bytes := file_new (B "a.apk") 5000 (B "abc").
Definition start : IncrementalServer bytes := server_new [file0].
Definition asked : IncrementalServer bytes := feed (B "text" ++ encode_request (mk_req PREFETCH 0 0)) start.
Definition sent : IncrementalServer bytes := match serve_step asked with Ok (s, _, _) => s | _ => start end.

Lemma fresh0 : Forall fresh_file [file0].
Proof. constructor; [|constructor]. exists (B "a.apk"), 5000, (B "abc"), []. split; [lia|done]. Qed.

Lemma sent_reachable : rtc inc_step ([], server_new [file0]) ([], sent).
Proof.
  eapply rtc_l; [apply (step_feed [] start (B "text" ++ encode_request (mk_req PREFETCH 0 0)))|].
  eapply rtc_l; [|apply rtc_refl]. apply (step_serve [] asked sent (B "text") true). vm_compute. reflexivity.
Qed.

Lemma inc_stream_good_witness :
  (exists log, device_reads ([] ++ snd (drain_output sent)) = Some log /\ good (map spec_of [file0]) log) /\
  device_reads (snd (drain_output sent))
  = Some [hash_block 0 0 [x00]; data_block 0 0 COMPRESSION_LZ4 (B "abc"); data_block 0 1 COMPRESSION_NONE []].
Proof.
  split; [|vm_compute; reflexivity].
  apply (inc_stream_good [file0] [] sent fresh0); [vm_compute; congruence|apply sent_reachable].
Defined.

Lemma inc_request_panics_iff_witness :
  (handle_request (mk_req PREFETCH 1 0) sent = Panic <->
     request_type (mk_req PREFETCH 1 0) = PREFETCH /\ zlen [file0] <= req_file_id (mk_req PREFETCH 1 0) /\
     req_file_id (mk_req PREFETCH 1 0) ∉ prefetched_files sent) /\
  (handle_request (mk_req PREFETCH 1 0) sent <> Panic -> exists s', handle_request (mk_req PREFETCH 1 0) sent = Ok s').
Proof.
  apply (inc_request_panics_iff [file0] [] sent (mk_req PREFETCH 1 0) fresh0); [vm_compute; congruence|apply sent_reachable].
Defined.

Lemma inc_prefetch_completes_witness :
  exists s' log, prefetch_rounds 1 sent = Ok s' /\ prefetches s' = [] /\
    device_reads ([] ++ snd (drain_output s')) = Some log /\
    (forall fid f idx, Z.of_nat fid ∈ prefetched_files sent -> [file0] !! fid = Some f -> (idx < length (sent_blocks f))%nat ->
       read_data_block (source f) (Z.of_nat idx) <> None -> (Z.of_nat fid, Z.of_nat idx) ∈ data_keys log) /\
    ((forall fid f idx, [file0] !! fid = Some f -> (idx < length (sent_blocks f))%nat ->
        Z.of_nat fid ∈ prefetched_files sent /\ read_data_block (source f) (Z.of_nat idx) <> None) -> all_files_sent s' = true).
Proof.
  apply (inc_prefetch_completes [file0] [] sent 1 fresh0); [vm_compute; congruence|apply sent_reachable|vm_compute; lia].
Defined.

(** A request to prefetch a file that does not exist stops the server. *)
Example unknown_file_panics : handle_request (mk_req PREFETCH 1 0) sent = Panic.
Proof. reflexivity. Qed.
End IncSample.

(** A tree whose second inner node cannot be read: the leaf and the first inner node are marked as sent
    before the failure, and the block is sent at the next request, without the rest of its tree. *)
Module IncFault.
Definition faulty : BlockSource unit :=
  {| read_data_block _ _ := Some (B "data"); read_tree_block _ i := if i =? 1 then None else Some (B "hash"); has_tree _ := true |}.
#[local] Existing Instance faulty.
#[local] Existing Instance IncSample.plain_lz4.

(** 16385 blocks: 129 leaves, two nodes above them, and a root. *)
Definition big : IncrementalServer unit := server_new [file_new (B "big") (16385 * 4096) tt].

Definition two_requests : res no_fuel (SendResult * SendResult * list (Z * Z)) :=
  let! '(s, r1) := send_data_block 0 0 true big in
  let! '(s, r2) := send_data_block 0 0 true s in
  Ok (r1, r2, match device_reads (snd (drain_output s)) with
              | Some log => (fun b => (block_type (fst b), resp_block_idx (fst b))) <$> log
              | None => []
              end).

Example data_without_tree : two_requests = Ok (SendError, Sent, [(TYPE_HASH, 3); (TYPE_HASH, 0); (TYPE_DATA, 0)]).
Proof. vm_compute. reflexivity. Qed.
End IncFault.
