(* ===== verification/IncServe.v ===== *)
(** * Serving an incremental install

    The loops of [client/incremental/incremental_server.rs] around the server's operations: over the file
    descriptor of a connection ([serve_fds]) and over a framed transport ([serve_over_transport]); and the
    files they serve ([ServerFile::open_local], [LocalFileSource], [serve]). *)
From S2P Require Import Prelude Text AdbHeader Net AdbTransport Verity IncServer IncTrace.

(** ** Local files *)
Record LocalFileSource := mk_local { lf_file : bytes; lf_tree : option bytes; tree_offset : Z }.

(** [FileExt::read_at]: what there is of the file from [offset], at most [n] bytes. *)
Definition read_at (file : bytes) (offset n : Z) : bytes := take (Z.to_nat n) (drop (Z.to_nat offset) file).

#[export] Instance local_source : BlockSource LocalFileSource := {|
  read_data_block l i := Some (read_at (lf_file l) (wrap 64 (wrap 64 i * BLOCK_SIZE)) BLOCK_SIZE);
  read_tree_block l i :=
    match lf_tree l with
    | Some tree => Some (read_at tree (wrap 64 (tree_offset l + wrap 64 i * BLOCK_SIZE)) BLOCK_SIZE)
    | None => Some []
    end;
  has_tree l := match lf_tree l with Some _ => true | None => false end |}.

(** [open_local], for a file system that gives contents or an error. *)
Definition open_local (fs : bytes -> bytes + io_error) (zip : bytes -> option (list (option ZipEntry))) (path : bytes)
    : res bytes (ServerFile LocalFileSource) :=
  match fs path with
  | inr e => Err (B "inc-server: failed to open file '" ++ path ++ B "': " ++ io_msg e)
  | inl file =>
      let n := zlen file in
      let signature_path := path ++ IDSIG_EXTENSION in
      let! '(tree_file, offset) :=
        match fs signature_path with
        | inl signature =>
            match skip_id_sig_headers signature with
            | Ok (offset, tree_size) =>
                let expected := verity_tree_size_for_file n in
                if negb (tree_size =? expected)
                then Err (B "Verity tree size mismatch in signature file: " ++ signature_path ++ B " [was " ++ fmt_int tree_size
                          ++ B ", expected " ++ fmt_int expected ++ B "].")
                else Ok (Some signature, offset)
            | _ => Ok (None, 0)
            end
        | inr _ => Ok (None, 0)
        end in
      let f := file_new path n (mk_local file tree_file offset) in
      Ok (mk_file (filepath f) (size f) (sent_blocks f) (sent_blocks_count f) (sent_tree_blocks f)
            (priority_blocks_for_file zip path file n) (source f))
  end.

(** ** Over a file descriptor

    What a poll and the read after it meet; after the script, the end of the stream. The connection takes
    writes until [fd_room] bytes are used up, if there is a limit; the output descriptor takes all. *)
Inductive poll_event := PollData (b : bytes) | PollEof | PollReadError | PollTimeout | PollError.

Record FdConn := mk_fd { polls : list poll_event; fd_written : bytes; fd_room : option Z; fd_output : bytes }.

Definition set_polls (q : list poll_event) (c : FdConn) : FdConn := mk_fd q (fd_written c) (fd_room c) (fd_output c).
Definition to_output (b : bytes) (c : FdConn) : FdConn := mk_fd (polls c) (fd_written c) (fd_room c) (fd_output c ++ b).

(** On the connection; with the number of bytes written. *)
Definition write_fd_exactly (buf : bytes) (c : FdConn) : FdConn * Z :=
  let n := match fd_room c with None => zlen buf | Some r => Z.min r (zlen buf) end in
  (mk_fd (polls c) (fd_written c ++ take (Z.to_nat n) buf)
     (match fd_room c with None => None | Some r => Some (r - n) end) (fd_output c), n).

Inductive FdReadOutcome := FdRequest (r : RequestCommand) | FdNone | FdDisconnected.

Section Serve.
Context {Src : Type} `{BlockSource Src} `{Lz4}.
Implicit Types s : IncrementalServer Src.

Definition ship_output s (c : FdConn) : IncrementalServer Src * FdConn :=
  match output s with
  | [] => (s, c)
  | out => (set_output [] s, fst (write_fd_exactly out c))
  end.

Fixpoint read_request_fd (fuel : nat) (blocking : bool) s (c : FdConn)
    : res no_fuel (IncrementalServer Src * FdConn * FdReadOutcome) :=
  match fuel with
  | O => Err NoFuel
  | S fuel =>
      let '(s, forward, request) := take_request s in
      let c := to_output forward c in
      match request with
      | Some r => Ok (s, c, FdRequest r)
      | None =>
          match polls c with
          | PollData b :: q =>
              let capacity := Z.max 0 (READ_BUFFER_SIZE - zlen (incoming s)) in
              match take (Z.to_nat capacity) b with
              | [] => Ok (s, to_output (incoming s) (set_polls q c), FdDisconnected)
              | got =>
                  let q := if zlen b <=? capacity then q else PollData (drop (Z.to_nat capacity) b) :: q in
                  read_request_fd fuel blocking (set_incoming (incoming s ++ got) s) (set_polls q c)
              end
          | PollTimeout :: q =>
              let c := to_output (incoming s) (set_polls q c) in
              if blocking && serving_complete s then Ok (s, c, FdDisconnected) else Ok (s, c, FdNone)
          | (PollEof | PollReadError | PollError) :: q => Ok (s, to_output (incoming s) (set_polls q c), FdDisconnected)
          | [] => Ok (s, to_output (incoming s) c, FdDisconnected)
          end
      end
  end.

Definition queue_empty s : bool := match prefetches s with [] => true | _ => false end.

(** What a script and a buffer still hold; a byte weighs less once it is read. *)
Definition poll_size (e : poll_event) : nat := match e with PollData b => S (2 * length b) | _ => 1 end.
Fixpoint polls_left (q : list poll_event) : nat := match q with [] => 0 | e :: q => poll_size e + polls_left q end.
Definition fd_left s (c : FdConn) : nat := (polls_left (polls c) + length (incoming s))%nat.

(** The loop of [serve_fds]; every iteration takes an event or a request, so what is left is enough fuel. *)
Fixpoint serve_loop (fuel : nat) (done : bool) s (c : FdConn) : res no_fuel (IncrementalServer Src * FdConn * bool) :=
  match fuel with
  | O => Err NoFuel
  | S fuel =>
      let '(s, c, done) :=
        if negb done && queue_empty s && all_files_sent s
        then let '(s, c) := ship_output (send_done s) c in (s, c, true) else (s, c, done) in
      let blocking := queue_empty s in
      let '(s, c) := if blocking then ship_output (flush s) c else (s, c) in
      let! '(s, c, outcome) := read_request_fd (S (fd_left s c)) blocking s c in
      match outcome with
      | FdDisconnected => Ok (s, c, true)
      | FdRequest r =>
          if request_type r =? DESTROY then Ok (s, c, true) else
          let! s := handle_request r s in
          let '(s, c) := ship_output s c in
          let! s := run_prefetching s in
          let '(s, c) := ship_output s c in
          serve_loop fuel done s c
      | FdNone =>
          let! s := run_prefetching s in
          let '(s, c) := ship_output s c in
          serve_loop fuel done s c
      end
  end.

Definition serve_fds s (c : FdConn) : res no_fuel (IncrementalServer Src * FdConn * bool) :=
  let '(c, n) := write_fd_exactly (B "OKAY") c in
  if negb (n =? 4) then Ok (s, c, false) else serve_loop (S (fd_left s c)) false s c.
End Serve.

(** The command [inc-server]. *)
Fixpoint open_all (fs : bytes -> bytes + io_error) (zip : bytes -> option (list (option ZipEntry))) (paths : list bytes)
    : res bytes (list (ServerFile LocalFileSource)) :=
  match paths with
  | [] => Ok []
  | p :: paths => let! f := open_local fs zip p in let! rest := open_all fs zip paths in Ok (f :: rest)
  end.

Definition serve `{Lz4} (fs : bytes -> bytes + io_error) (zip : bytes -> option (list (option ZipEntry))) (paths : list bytes) (c : FdConn)
    : res no_fuel (FdConn * bool) :=
  match open_all fs zip paths with
  | Ok files => let! '(_, c, ok) := serve_fds (server_new files) c in Ok (c, ok)
  | _ => Ok (c, false)
  end.

(** ** Over a framed transport *)
Inductive TransportRead := TrRequest (r : RequestCommand) | TrDisconnected.

Section Framed.
Context {Src : Type} `{BlockSource Src} `{Lz4} {T : Type} `{Transport T}.
Implicit Types s : IncrementalServer Src.

Definition ours (local_id remote_id : Z) (h : AdbMessageHeader) : bool := (arg0 h =? remote_id) && (arg1 h =? local_id).

(** Messages until the acknowledgement; data that comes before it is acknowledged and kept. *)
Fixpoint await_ack (fuel : nat) (local_id remote_id : Z) s (t : T) : res no_fuel (IncrementalServer Src * T * res bytes unit) :=
  match fuel with
  | O => Err NoFuel
  | S fuel =>
      match t_recv t with
      | (t, Ok (h, payload)) =>
          if (command h =? A_OKAY) && ours local_id remote_id h then Ok (s, t, Ok tt)
          else if (command h =? A_WRTE) && ours local_id remote_id h then
            match t_send (Header.new A_OKAY local_id remote_id []) [] t with
            | (t, Ok _) => await_ack fuel local_id remote_id (set_incoming (incoming s ++ payload) s) t
            | (t, Err e) => Ok (s, t, Err (transport_error_text e))
            | (t, Panic) => Panic
            end
          else if command h =? A_CLSE then Ok (s, t, Err (B "inc-server: connection closed while sending"))
          else Ok (s, t, Err (B "inc-server: unexpected frame " ++ fmt_hex0x (command h)))
      | (t, Err e) => Ok (s, t, Err (B "inc-server: " ++ transport_error_text e))
      | (t, Panic) => Panic
      end
  end.

Fixpoint send_frames (fuel : nat) (local_id remote_id : Z) (frames : list bytes) s (t : T)
    : res no_fuel (IncrementalServer Src * T * res bytes unit) :=
  match frames with
  | [] => Ok (s, t, Ok tt)
  | chunk :: frames =>
      match t_send (Header.new A_WRTE local_id remote_id chunk) chunk t with
      | (t, Ok _) =>
          let! '(s, t, r) := await_ack fuel local_id remote_id s t in
          match r with Ok _ => send_frames fuel local_id remote_id frames s t | _ => Ok (s, t, r) end
      | (t, Err e) => Ok (s, t, Err (transport_error_text e))
      | (t, Panic) => Panic
      end
  end.

Definition send_framed (fuel : nat) (local_id remote_id : Z) (data : bytes) s (t : T)
    : res no_fuel (IncrementalServer Src * T * res bytes unit) :=
  send_frames fuel local_id remote_id (chunks (MAX_PAYLOAD_V2 - 24) data) s t.

(** A failure to send is reported and otherwise ignored. *)
Definition ship_framed (fuel : nat) (local_id remote_id : Z) s (t : T) : res no_fuel (IncrementalServer Src * T) :=
  let s := flush s in
  match output s with
  | [] => Ok (s, t)
  | out => let! '(s, t, _) := send_framed fuel local_id remote_id out (set_output [] s) t in Ok (s, t)
  end.

(** The last component is what went to the output descriptor. *)
Fixpoint read_request_transport (fuel : nat) (local_id remote_id : Z) s (t : T) (out : bytes)
    : res no_fuel (IncrementalServer Src * T * bytes * TransportRead) :=
  match fuel with
  | O => Err NoFuel
  | S fuel =>
      let '(s, forward, request) := take_request s in
      let out := out ++ forward in
      match request with
      | Some r => Ok (s, t, out, TrRequest r)
      | None =>
          match t_recv t with
          | (t, Ok (h, payload)) =>
              if (command h =? A_WRTE) && ours local_id remote_id h then
                match t_send (Header.new A_OKAY local_id remote_id []) [] t with
                | (t, Ok _) => read_request_transport fuel local_id remote_id (set_incoming (incoming s ++ payload) s) t out
                | (t, Err _) => Ok (s, t, out ++ incoming s, TrDisconnected)
                | (t, Panic) => Panic
                end
              else if command h =? A_CLSE then Ok (s, t, out ++ incoming s, TrDisconnected)
              else if command h =? A_OKAY then read_request_transport fuel local_id remote_id s t out
              else Ok (s, t, out ++ incoming s, TrDisconnected)
          | (t, Err _) => Ok (s, t, out ++ incoming s, TrDisconnected)
          | (t, Panic) => Panic
          end
      end
  end.

Fixpoint framed_loop (fuel : nat) (local_id remote_id : Z) (done : bool) s (t : T) (out : bytes)
    : res no_fuel (IncrementalServer Src * T * bytes * bool) :=
  match fuel with
  | O => Err NoFuel
  | S fuel' =>
      let! '(s, t, done) :=
        if negb done && queue_empty s && all_files_sent s
        then let! '(s, t) := ship_framed fuel local_id remote_id (send_done s) t in Ok (s, t, true) else Ok (s, t, done) in
      let! '(s, t) := ship_framed fuel local_id remote_id (flush s) t in
      let! '(s, t, out, r) := read_request_transport fuel local_id remote_id s t out in
      match r with
      | TrDisconnected => Ok (s, t, out, true)
      | TrRequest r =>
          if request_type r =? DESTROY then Ok (s, t, out, true) else
          let! s := handle_request r s in
          let! '(s, t) := ship_framed fuel local_id remote_id s t in
          let! s := run_prefetching s in
          let! '(s, t) := ship_framed fuel local_id remote_id s t in
          framed_loop fuel' local_id remote_id done s t out
      end
  end.

Definition serve_over_transport (fuel : nat) (local_id remote_id : Z) s (t : T)
    : res no_fuel (IncrementalServer Src * T * bytes * bool) :=
  let! '(s, t, r) := send_framed fuel local_id remote_id (B "OKAY") s t in
  match r with
  | Ok _ => framed_loop fuel local_id remote_id false s t []
  | _ => Ok (s, t, [], false)
  end.
End Framed.

(** ** Serving ends, and keeps to the specification *)
Lemma take_request_left {Src} (s s1 : IncrementalServer Src) fw r :
  take_request s = (s1, fw, r) ->
  s1 = set_incoming (incoming s1) s /\
  match r with
  | Some _ => (length (incoming s1) < length (incoming s))%nat
  | None => (length (incoming s1) <= length (incoming s))%nat /\ zlen (incoming s1) < 12
  end.
Proof.
  rewrite take_request_take1. destruct (take1 (incoming s)) as [[fw' r'] rest] eqn:E. intros [= <- <- <-]. cbn [incoming set_incoming].
  split; [done|]. destruct r' as [r'|]; [apply take1_some_length in E; lia|].
  revert E. unfold take1. pose proof (scan_magic_le (incoming s)) as Hle. pose proof (scan_magic_tail (incoming s)) as Ht.
  destruct (scan_magic (incoming s)) as [n f]. cbn [fst snd] in *. destruct f; cbn [andb].
  - destruct (Z.leb_spec 12 (zlen (drop n (incoming s)))) as [H12|H12].
    + destruct (decode_request_some (slice 4 12 (drop n (incoming s)))) as [r Hr]; [rewrite zlen_slice; lia|]. by rewrite Hr.
    + intros [= <- <-]. rewrite length_drop. split; [lia|done].
  - intros [= <- <-]. rewrite length_drop. split; [lia|]. specialize (Ht eq_refl). unfold zlen. rewrite length_drop. lia.
Qed.

Section Ends.
Context {Src : Type} `{BlockSource Src} `{Lz4} `{!GoodSource} `{!Lz4Laws}.
Implicit Types s : IncrementalServer Src.

Lemma fd_left_set s (c : FdConn) q b : fd_left (set_incoming b s) (set_polls q c) = (polls_left q + length b)%nat.
Proof. done. Qed.

Lemma read_request_fd_spec fuel : forall blocking s c,
  (fd_left s c < fuel)%nat ->
  exists s' c' o, read_request_fd fuel blocking s c = Ok (s', c', o) /\ s' = set_incoming (incoming s') s /\
    fd_written c' = fd_written c /\ fd_room c' = fd_room c /\
    (o = FdDisconnected \/ (fd_left s' c' < fd_left s c)%nat).
Proof.
  induction fuel as [|fuel IH]; intros blocking s c Hf; [lia|]. cbn [read_request_fd].
  destruct (take_request s) as [[s1 fw] r] eqn:Et. apply take_request_left in Et as [Es Hl].
  destruct r as [r|].
  { eexists _, _, _. split; [done|]. split_and!; try done. right. unfold fd_left in *. cbn [polls to_output]. lia. }
  destruct Hl as [Hl H12]. destruct c as [q w room out]. cbn [polls to_output] in *. destruct q as [|[b| | | |] q].
  - eexists _, _, _. split; [done|]. split_and!; try done. by left.
  - assert (0 < READ_BUFFER_SIZE - zlen (incoming s1)) as Hcap by (unfold READ_BUFFER_SIZE; lia).
    set (cap := Z.max 0 (READ_BUFFER_SIZE - zlen (incoming s1))) in *. assert (0 < cap) by lia.
    destruct (take (Z.to_nat cap) b) as [|x got] eqn:Eg.
    { eexists _, _, _. split; [done|]. split_and!; try done. by left. }
    set (q' := if zlen b <=? cap then q else PollData (drop (Z.to_nat cap) b) :: q).
    assert (polls_left q' + length (x :: got) < polls_left (PollData b :: q))%nat as Hm.
    { assert (length (x :: got) = Z.to_nat cap `min` length b)%nat as Hg by (by rewrite <- Eg, length_take).
      assert (0 < length b)%nat by (destruct b; [by rewrite take_nil in Eg|cbn; lia]). rewrite Hg. unfold q'.
      destruct (Z.leb_spec (zlen b) cap) as [Hle|Hgt]; unfold zlen in *; cbn [polls_left poll_size]; [lia|].
      rewrite length_drop. lia. }
    destruct (IH blocking (set_incoming (incoming s1 ++ x :: got) s1) (set_polls q' (mk_fd (PollData b :: q) w room (out ++ fw))))
      as (s' & c' & o & Hr & Hs' & Hw & Hrm & Ho).
    { rewrite fd_left_set, length_app. unfold fd_left in Hf. cbn [polls] in Hf. lia. }
    exists s', c', o. split; [exact Hr|]. split_and!; [|done|done|].
    + rewrite Hs' at 1. by rewrite Es.
    + destruct Ho as [?|Ho]; [by left|right]. rewrite fd_left_set, length_app in Ho. unfold fd_left at 2. cbn [polls]. lia.
  - eexists _, _, _. split; [done|]. split_and!; try done. by left.
  - eexists _, _, _. split; [done|]. split_and!; try done. by left.
  - destruct (blocking && serving_complete s1); eexists _, _, _; (split; [done|]); (split_and!; try done).
    + by left.
    + right. unfold fd_left. cbn. lia.
  - eexists _, _, _. split; [done|]. split_and!; try done. by left.
Qed.

(** The state between the operations of the loop: [sh] is what the connection got after [base]. *)
Definition at_loop fs base done s (c : FdConn) : Prop :=
  exists sh log, fd_written c = base ++ sh /\ fd_room c = None /\ Inv fs done sh s log /\ Fetch fs s log.

Lemma write_all_room buf c : fd_room c = None -> write_fd_exactly buf c = (mk_fd (polls c) (fd_written c ++ buf) None (fd_output c), zlen buf).
Proof. intros Hr. unfold write_fd_exactly. rewrite Hr. unfold zlen. by rewrite Nat2Z.id, firstn_all. Qed.

Lemma emits_shipped sh s log : emits sh s log -> emits (sh ++ output s) (set_output [] s) log.
Proof. intros (cs & pend & hd & E & ?). exists cs, pend, hd. cbn. by rewrite app_nil_r. Qed.

Lemma ship_output_loop fs base done s c :
  at_loop fs base done s c ->
  let '(s', c') := ship_output s c in at_loop fs base done s' c' /\ fd_left s' c' = fd_left s c /\ prefetches s' = prefetches s.
Proof.
  intros (sh & log & Hw & Hr & HI & HF). unfold ship_output. destruct (output s) as [|x out] eqn:Eo.
  { split; [|done]. by exists sh, log. }
  rewrite write_all_room by done. cbn [fst]. split; [|done]. exists (sh ++ output s), log. cbn. rewrite Eo.
  split_and!; [by rewrite app_assoc, Hw|done| |by eapply fetch_frame].
  eapply inv_frame; [exact HI|done|done|]. rewrite <- Eo. apply emits_shipped, HI.
Qed.

Lemma flush_left s c : fd_left (flush s) c = fd_left s c.
Proof. unfold fd_left. by rewrite (sc_incoming _ _ (same_ctl_flush s)). Qed.

Lemma at_loop_flush fs base done s c : at_loop fs base done s c -> at_loop fs base done (flush s) c.
Proof.
  intros (sh & log & Hw & Hr & HI & HF). exists sh, log. destruct (same_ctl_flush s) as [? Hp Hpf ? ? ?]. split_and!; try done.
  - eapply inv_frame; [exact HI|apply files_flush|done|]. apply emits_flush, HI.
  - by eapply fetch_frame.
Qed.

Lemma at_loop_done fs base s c :
  at_loop fs base false s c -> all_files_sent s = true ->
  at_loop fs base true (send_done s) c /\ fd_left (send_done s) c = fd_left s c.
Proof.
  intros (sh & log & Hw & Hr & HI & HF) Ha. destruct (send_done_spec fs sh s log HI Ha) as [HI' Hct]. split.
  - exists sh, (log ++ [done_block]). split_and!; try done.
    eapply fetch_ctl; try done; [apply (sc_prefetched _ _ Hct)|]. by rewrite (sc_prefetches _ _ Hct).
  - unfold fd_left. by rewrite (sc_incoming _ _ Hct).
Qed.

Lemma at_loop_run fs base done s c :
  at_loop fs base done s c ->
  exists s', run_prefetching s = Ok s' /\ at_loop fs base done s' c /\ fd_left s' c = fd_left s c.
Proof.
  intros (sh & log & Hw & Hr & HI & HF). destruct (run_prefetching_spec _ _ _ _ _ HI HF) as (s' & new & E & HI' & HF' & Hq & _).
  exists s'. split_and!; [done| |unfold fd_left; by rewrite (sq_incoming _ _ Hq)]. by exists sh, (log ++ new).
Qed.

Lemma at_loop_request fs base done s c r :
  at_loop fs base done s c ->
  handle_request r s = Panic \/
  exists s', handle_request r s = Ok s' /\ at_loop fs base done s' c /\ fd_left s' c = fd_left s c.
Proof.
  intros (sh & log & Hw & Hr & HI & HF). pose proof (handle_request_spec _ _ _ _ _ r HI HF) as Hh.
  destruct (request_panics fs s r); [by left|right]. destruct Hh as (s' & new & E & HI' & HF' & _ & Hin).
  exists s'. split_and!; [done| |unfold fd_left; by rewrite Hin]. by exists sh, (log ++ new).
Qed.

Lemma at_loop_read fs base done s c s' c' :
  at_loop fs base done s c -> s' = set_incoming (incoming s') s -> fd_written c' = fd_written c -> fd_room c' = fd_room c ->
  at_loop fs base done s' c'.
Proof.
  intros (sh & log & Hw & Hr & HI & HF) Hs Hw' Hr'. exists sh, log. rewrite Hw', Hr'. split_and!; try done; rewrite Hs.
  - eapply inv_frame; [exact HI|done|done|]. by eapply emits_ctl; [| |apply HI].
  - by eapply fetch_frame.
Qed.

Definition loop_result fs base (r : res no_fuel (IncrementalServer Src * FdConn * bool)) : Prop :=
  r = Panic \/ exists s c done, r = Ok (s, c, true) /\ at_loop fs base done s c.

Lemma serve_loop_spec fs base fuel : forall done s c,
  at_loop fs base done s c -> (fd_left s c < fuel)%nat -> loop_result fs base (serve_loop fuel done s c).
Proof.
  induction fuel as [|fuel IH]; intros done s c HL Hf; [lia|]. cbn [serve_loop].
  assert (exists s1 c1 done1,
    (if negb done && queue_empty s && all_files_sent s
     then let '(s, c) := ship_output (send_done s) c in (s, c, true) else (s, c, done)) = (s1, c1, done1) /\
    at_loop fs base done1 s1 c1 /\ fd_left s1 c1 = fd_left s c) as (s1 & c1 & done1 & -> & HL1 & Hf1).
  { destruct (negb done && _ && _) eqn:E; [|by exists s, c, done].
    apply andb_true_iff in E as [E Ea]. apply andb_true_iff in E as [Ed%negb_true_iff _]. subst done.
    destruct (at_loop_done fs base s c HL Ea) as [HL1 Hl]. pose proof (ship_output_loop _ _ _ _ _ HL1) as Hs.
    destruct (ship_output (send_done s) c) as [s1 c1]. destruct Hs as (? & Hl1 & _). exists s1, c1, true. by rewrite Hl1, Hl. }
  assert (exists s2 c2, (if queue_empty s1 then ship_output (flush s1) c1 else (s1, c1)) = (s2, c2) /\
    at_loop fs base done1 s2 c2 /\ fd_left s2 c2 = fd_left s1 c1) as (s2 & c2 & -> & HL2 & Hf2).
  { destruct (queue_empty s1); [|by exists s1, c1]. pose proof (ship_output_loop _ _ _ _ _ (at_loop_flush _ _ _ _ _ HL1)) as Hs.
    destruct (ship_output (flush s1) c1) as [s2 c2]. destruct Hs as (? & Hl1 & _). exists s2, c2. by rewrite Hl1, flush_left. }
  destruct (read_request_fd_spec (S (fd_left s2 c2)) (queue_empty s1) s2 c2 ltac:(lia)) as (s3 & c3 & o & -> & Hs3 & Hw3 & Hr3 & Ho).
  cbn [res_bind]. pose proof (at_loop_read _ _ _ _ _ _ _ HL2 Hs3 Hw3 Hr3) as HL3.
  assert (forall s4, at_loop fs base done1 s4 c3 -> fd_left s4 c3 = fd_left s3 c3 -> o <> FdDisconnected ->
    loop_result fs base (let! s := run_prefetching s4 in let '(s, c) := ship_output s c3 in serve_loop fuel done1 s c)) as Hgo.
  { intros s4 HL4 Hf4 Hno. destruct (at_loop_run fs base done1 s4 c3 HL4) as (s5 & -> & HL5 & Hf5). cbn [res_bind].
    pose proof (ship_output_loop _ _ _ _ _ HL5) as Hs. destruct (ship_output s5 c3) as [s6 c6]. destruct Hs as (HL6 & Hf6 & _).
    apply IH; [done|]. destruct Ho as [?|Ho]; [done|]. lia. }
  destruct o as [r| |]; [|by apply Hgo|right; by exists s3, c3, done1].
  destruct (request_type r =? DESTROY); [right; by exists s3, c3, done1|].
  destruct (at_loop_request fs base done1 s3 c3 r HL3) as [->|(s4 & -> & HL4 & Hf4)]; [by left|]. cbn [res_bind].
  pose proof (ship_output_loop _ _ _ _ _ HL4) as Hs. destruct (ship_output s4 c3) as [s5 c5] eqn:E5. destruct Hs as (HL5 & Hf5 & _).
  destruct (at_loop_run fs base done1 s5 c5 HL5) as (s6 & -> & HL6 & Hf6). cbn [res_bind].
  pose proof (ship_output_loop _ _ _ _ _ HL6) as Hs. destruct (ship_output s6 c5) as [s7 c7]. destruct Hs as (HL7 & Hf7 & _).
  apply IH; [done|]. destruct Ho as [?|Ho]; [done|]. lia.
Qed.

(** Serving over a connection ends for every script of polls and reads (by the device's request, its end,
    an error, or a panic on an unknown file), and what the connection got, after [OKAY], is read by the
    device, with what is pending, as blocks that keep to the specification. *)
Theorem inc_serve_fds_ends l c :
  Forall fresh_file l -> zlen l <= 2 ^ 15 -> fd_room c = None ->
  serve_fds (server_new l) c = Panic \/
  exists s' c' stream log, serve_fds (server_new l) c = Ok (s', c', true) /\
    fd_written c' = fd_written c ++ B "OKAY" ++ stream /\
    device_reads (stream ++ snd (drain_output s')) = Some log /\ good (map spec_of l) log.
Proof.
  intros Hl Hn Hr. unfold serve_fds. rewrite write_all_room by done. change (zlen (B "OKAY") =? 4) with true. cbn [negb].
  set (c1 := mk_fd _ _ _ _). destruct (served_new l Hl Hn) as [HI HF].
  destruct (serve_loop_spec (map spec_of l) (fd_written c ++ B "OKAY") (S (fd_left (server_new l) c1)) false (server_new l) c1)
    as [->|(s' & c' & done & -> & (sh & log & Hw & _ & HI' & _))]; [|lia|by left|].
  - exists [], []. split_and!; try done. by rewrite app_nil_r.
  - right. exists s', c', sh, log. split_and!; [done|by rewrite Hw, app_assoc|apply emits_reads, HI'|apply HI'].
Qed.
End Ends.

(** *** Over a transport whose peer says finitely much *)
Section FramedEnds.
Context {Src : Type} `{BlockSource Src} `{Lz4} `{!GoodSource} `{!Lz4Laws} {T : Type} `{TransportEnds T}.
Implicit Types (s : IncrementalServer Src) (t : T).

Definition framed_left s t : nat := (t_left t + length (incoming s))%nat.

(** What sending leaves of the state and of the transport. *)
Definition sent_from s t s' t' : Prop :=
  s' = set_incoming (incoming s') s /\ (t_left t' <= t_left t)%nat /\ (framed_left s' t' <= framed_left s t)%nat.

Lemma sent_from_refl s t : sent_from s t s t.
Proof. split_and!; try done. by destruct s. Qed.
Lemma sent_from_trans s1 t1 s2 t2 s3 t3 : sent_from s1 t1 s2 t2 -> sent_from s2 t2 s3 t3 -> sent_from s1 t1 s3 t3.
Proof. intros (E1 & ? & ?) (E2 & ? & ?). split_and!; [rewrite E2, E1 at 1; done|lia|lia]. Qed.

Lemma await_ack_spec fuel : forall li ri s t,
  (t_left t < fuel)%nat -> exists s' t' r, await_ack fuel li ri s t = Ok (s', t', r) /\ sent_from s t s' t'.
Proof.
  induction fuel as [|fuel IH]; intros li ri s t Hf; [lia|]. cbn [await_ack]. pose proof (recv_left t) as Hr.
  destruct (t_recv t) as [t1 [[h p]|e|]]; [| |done].
  2: { eexists _, _, _. split; [done|]. destruct s. split_and!; [done|done|]. unfold framed_left. cbn. lia. }
  assert (sent_from s t s t1) as H1' by (split_and!; [by destruct s|lia|unfold framed_left; lia]).
  destruct (_ && _); [by eexists _, _, _|]. destruct (_ && _).
  - pose proof (send_left (Header.new A_OKAY li ri []) [] t1) as Hs.
    destruct (t_send (Header.new A_OKAY li ri []) [] t1) as [t2 [u|e|]]; [| |done].
    + destruct (IH li ri (set_incoming (incoming s ++ p) s) t2 ltac:(lia)) as (s' & t' & r & -> & (E & Hl & Hm)).
      exists s', t', r. split; [done|]. split_and!; [rewrite E at 1; done|lia|]. unfold framed_left in *. cbn in Hm. rewrite length_app in Hm. lia.
    + eexists _, _, _. split; [done|]. split_and!; [by destruct s|lia|unfold framed_left; lia].
  - destruct (_ =? A_CLSE); by eexists _, _, _.
Qed.

Lemma send_frames_spec fuel li ri frames : forall s t,
  (t_left t < fuel)%nat -> exists s' t' r, send_frames fuel li ri frames s t = Ok (s', t', r) /\ sent_from s t s' t'.
Proof.
  induction frames as [|x frames IH]; intros s t Hf; cbn [send_frames].
  { eexists _, _, _. split; [done|]. apply sent_from_refl. }
  pose proof (send_left (Header.new A_WRTE li ri x) x t) as Hs. destruct (t_send (Header.new A_WRTE li ri x) x t) as [t1 [u|e|]]; [| |done].
  2: { eexists _, _, _. split; [done|]. split_and!; [by destruct s|done|unfold framed_left; lia]. }
  assert (sent_from s t s t1) as H0' by (split_and!; [by destruct s|done|unfold framed_left; lia]).
  destruct (await_ack_spec fuel li ri s t1 ltac:(lia)) as (s2 & t2 & r & -> & H2'). cbn [res_bind].
  pose proof (sent_from_trans _ _ _ _ _ _ H0' H2') as H3'.
  destruct r; [|by eexists _, _, _..].
  destruct (IH s2 t2 ltac:(destruct H3'; lia)) as (s' & t' & r' & -> & H4'). eexists _, _, _. split; [done|]. by eapply sent_from_trans.
Qed.

(** The state between operations: some stream was sent. *)
Definition at_framed fs done s : Prop := exists sh log, Inv fs done sh s log /\ Fetch fs s log.

Lemma at_framed_ship fuel li ri fs done s t :
  at_framed fs done s -> (t_left t < fuel)%nat ->
  exists s' t', ship_framed fuel li ri s t = Ok (s', t') /\ at_framed fs done s' /\ (framed_left s' t' <= framed_left s t)%nat /\
    (t_left t' <= t_left t)%nat.
Proof.
  intros (sh & log & HI & HF) Hf. unfold ship_framed. destruct (same_ctl_flush s) as [Hin Hp Hpf ? ? ?].
  assert (Inv fs done sh (flush s) log) as HI1.
  { eapply inv_frame; [exact HI|apply files_flush|done|]. apply emits_flush, HI. }
  assert (Fetch fs (flush s) log) as HF1 by (by eapply fetch_frame).
  assert (framed_left (flush s) t = framed_left s t) as Hm by (unfold framed_left; by rewrite Hin).
  destruct (output (flush s)) as [|x out] eqn:Eo.
  { exists (flush s), t. split_and!; [done|by exists sh, log|lia|done]. }
  destruct (send_frames_spec fuel li ri (chunks (MAX_PAYLOAD_V2 - 24) (x :: out)) (set_output [] (flush s)) t Hf)
    as (s' & t' & r & E & (Es & Hl & Hm')).
  unfold send_framed. rewrite E. cbn [res_bind]. exists s', t'. split_and!; [done| | |done].
  - exists (sh ++ output (flush s)), log. rewrite Es. split; [|by eapply fetch_frame].
    eapply inv_frame; [exact HI1|done|done|]. eapply emits_ctl; [| |by apply emits_shipped, HI1]; done.
  - unfold framed_left in *. cbn in Hm'. rewrite Hin in Hm'. lia.
Qed.

Lemma read_request_transport_spec fuel : forall li ri s t out,
  (t_left t < fuel)%nat ->
  exists s' t' out' r, read_request_transport fuel li ri s t out = Ok (s', t', out', r) /\ sent_from s t s' t' /\
    match r with TrRequest _ => (framed_left s' t' < framed_left s t)%nat | TrDisconnected => True end.
Proof.
  induction fuel as [|fuel IH]; intros li ri s t out Hf; [lia|]. cbn [read_request_transport].
  destruct (take_request s) as [[s1 fw] r] eqn:Et. apply take_request_left in Et as [Es Hl].
  destruct r as [r|].
  { eexists _, _, _, _. split; [done|]. split; [split_and!; [done|done|]|]; unfold framed_left; lia. }
  destruct Hl as [Hl _]. pose proof (recv_left t) as Hr. destruct (t_recv t) as [t1 [[h p]|e|]]; [| |done].
  2: { eexists _, _, _, _. split; [done|]. split; [split_and!; [done|done|unfold framed_left; lia]|done]. }
  assert (sent_from s t s1 t1) as H1' by (split_and!; [done|lia|unfold framed_left; lia]).
  destruct (_ && _).
  - pose proof (send_left (Header.new A_OKAY li ri []) [] t1) as Hs.
    destruct (t_send (Header.new A_OKAY li ri []) [] t1) as [t2 [u|e|]]; [| |done].
    + destruct (IH li ri (set_incoming (incoming s1 ++ p) s1) t2 (out ++ fw) ltac:(lia)) as (s' & t' & out' & r & -> & (E & Hl' & Hm) & Hreq).
      exists s', t', out', r. split; [done|]. unfold framed_left in *. cbn in Hm, Hreq. rewrite length_app in Hm, Hreq.
      split; [split_and!; [rewrite E at 1; change (set_incoming (incoming s') s1 = set_incoming (incoming s') s); by rewrite Es|lia|unfold framed_left; lia]|]. destruct r; [lia|done].
    + eexists _, _, _, _. split; [done|]. split; [split_and!; [done|lia|unfold framed_left; lia]|done].
  - destruct (_ =? A_CLSE); [by eexists _, _, _, _|]. destruct (_ =? A_OKAY); [|by eexists _, _, _, _].
    destruct (IH li ri s1 t1 (out ++ fw) ltac:(lia)) as (s' & t' & out' & r & -> & Hsf & Hreq).
    exists s', t', out', r. split; [done|]. split; [by eapply sent_from_trans|]. destruct r; [|done].
    destruct H1' as (_ & _ & ?). lia.
Qed.

Definition framed_ends (r : res no_fuel (IncrementalServer Src * T * bytes * bool)) : Prop :=
  r = Panic \/ exists s t out b, r = Ok (s, t, out, b).

Lemma framed_loop_spec fs fuel : forall li ri done s t out,
  at_framed fs done s -> (framed_left s t < fuel)%nat -> framed_ends (framed_loop fuel li ri done s t out).
Proof.
  induction fuel as [|fuel' IH]; intros li ri done s t out HL Hf; [lia|]. cbn [framed_loop]. set (fuel := S fuel') in *.
  assert (forall s t, (framed_left s t < fuel)%nat -> (t_left t < fuel)%nat) as Hlt by (unfold framed_left; lia).
  assert (exists s1 t1 done1,
    (if negb done && queue_empty s && all_files_sent s
     then let! '(s, t) := ship_framed fuel li ri (send_done s) t in Ok (s, t, true) else Ok (s, t, done)) = Ok (E := no_fuel) (s1, t1, done1) /\
    at_framed fs done1 s1 /\ (framed_left s1 t1 <= framed_left s t)%nat) as (s1 & t1 & done1 & -> & HL1 & Hm1).
  { destruct (negb done && _ && _) eqn:E; [|by exists s, t, done].
    apply andb_true_iff in E as [E Ea]. apply andb_true_iff in E as [Ed%negb_true_iff _]. subst done.
    destruct HL as (sh & log & HI & HF). destruct (send_done_spec fs sh s log HI Ea) as [HI' Hct].
    destruct (at_framed_ship fuel li ri fs true (send_done s) t) as (s1 & t1 & -> & ? & Hm & _); [|by eapply Hlt|].
    - exists sh, (log ++ [done_block]). split; [done|]. eapply fetch_ctl; try done; [apply (sc_prefetched _ _ Hct)|].
      by rewrite (sc_prefetches _ _ Hct).
    - exists s1, t1, true. split_and!; try done. unfold framed_left in *. by rewrite (sc_incoming _ _ Hct) in Hm. }
  cbn [res_bind].
  assert (at_framed fs done1 (flush s1)) as HL1'.
  { destruct HL1 as (sh & log & HI & HF). exists sh, log. destruct (same_ctl_flush s1) as [? Hp Hpf ? ? ?].
    split; [|by eapply fetch_frame]. eapply inv_frame; [exact HI|apply files_flush|done|]. apply emits_flush, HI. }
  destruct (at_framed_ship fuel li ri fs done1 (flush s1) t1 HL1' ltac:(eapply (Hlt s1); lia)) as (s2 & t2 & -> & HL2 & Hm2 & _).
  assert (framed_left (flush s1) t1 = framed_left s1 t1) as Hfl by (unfold framed_left; by rewrite (sc_incoming _ _ (same_ctl_flush s1))).
  cbn [res_bind].
  destruct (read_request_transport_spec fuel li ri s2 t2 out ltac:(eapply (Hlt s2); lia)) as (s3 & t3 & out3 & r & -> & (Es & Hl3 & Hm3) & Hreq).
  cbn [res_bind]. destruct r as [r|]; [|right; by eexists _, _, _, _].
  destruct (_ =? DESTROY); [right; by eexists _, _, _, _|].
  destruct HL2 as (sh & log & HI & HF). assert (Inv fs done1 sh s3 log /\ Fetch fs s3 log) as [HI3 HF3].
  { rewrite Es. split; [|by eapply fetch_frame]. eapply inv_frame; [exact HI|done|done|]. by eapply emits_ctl; [| |apply HI]. }
  pose proof (handle_request_spec _ _ _ _ _ r HI3 HF3) as Hh. destruct (request_panics fs s3 r); [left; by rewrite Hh|].
  destruct Hh as (s4 & new4 & -> & HI4 & HF4 & _ & Hin4). cbn [res_bind].
  assert (framed_left s4 t3 = framed_left s3 t3) as Hm4 by (unfold framed_left; by rewrite Hin4).
  destruct (at_framed_ship fuel li ri fs done1 s4 t3) as (s5 & t5 & -> & HL5 & Hm5 & _); [by eexists _, _|eapply (Hlt s4); lia|].
  cbn [res_bind]. destruct HL5 as (sh5 & log5 & HI5 & HF5).
  destruct (run_prefetching_spec _ _ _ _ _ HI5 HF5) as (s6 & new6 & -> & HI6 & HF6 & Hq & _). cbn [res_bind].
  assert (framed_left s6 t5 = framed_left s5 t5) as Hm6 by (unfold framed_left; by rewrite (sq_incoming _ _ Hq)).
  destruct (at_framed_ship fuel li ri fs done1 s6 t5) as (s7 & t7 & -> & HL7 & Hm7 & _); [by eexists _, _|eapply (Hlt s6); lia|].
  cbn [res_bind]. apply IH; [done|]. lia.
Qed.

(** Serving over a framed transport whose peer says finitely much ends: with fuel above what the peer has
    to say, the session returns, or stops at a request to prefetch an unknown file. *)
Theorem inc_serve_transport_ends l t li ri fuel :
  Forall fresh_file l -> zlen l <= 2 ^ 15 -> (t_left t < fuel)%nat ->
  framed_ends (serve_over_transport fuel li ri (server_new l) t).
Proof.
  intros Hl Hn Hf. unfold serve_over_transport, send_framed.
  destruct (send_frames_spec fuel li ri (chunks (MAX_PAYLOAD_V2 - 24) (B "OKAY")) (server_new l) t Hf) as (s1 & t1 & r & -> & (Es & Hl1 & Hm)).
  cbn [res_bind]. destruct r; [|right; by eexists _, _, _, _..].
  destruct (served_new l Hl Hn) as [HI HF]. apply (framed_loop_spec (map spec_of l)).
  - exists [], []. rewrite Es. split; [|by eapply fetch_frame]. eapply inv_frame; [exact HI|done|done|].
    by eapply emits_ctl; [| |apply HI].
  - unfold framed_left in Hm. cbn in Hm. unfold framed_left. lia.
Qed.
End FramedEnds.

(** ** Local files meet the hypotheses *)
Lemma zlen_read_at f o n : 0 <= n -> zlen (read_at f o n) <= n.
Proof. intros. unfold zlen, read_at. rewrite length_take. lia. Qed.

#[export] Instance local_good : GoodSource (Src := LocalFileSource).
Proof.
  split; cbn.
  - intros x i d [= <-]. by apply zlen_read_at.
  - intros x i d. destruct (lf_tree x); intros [= <-]; [by apply zlen_read_at|done].
  - intros x i. destruct (lf_tree x); by eexists.
Qed.

(** A file that is opened is an unsent file as the server needs it, and the server's blocks are the file's:
    block [i] of its source is the [i]-th 4096 bytes of the contents, and its hash block [i] the [i]-th
    4096 bytes after the headers of the [.idsig] file, whose tree has the size that the file calls for; a file
    whose signature names another tree size is refused. *)
Theorem inc_open_local fs zip path file :
  fs path = inl file -> zlen file < 2 ^ 42 ->
  match open_local fs zip path with
  | Ok f => fresh_file f /\ size f = zlen file /\
      (forall i, 0 <= i < 2 ^ 31 -> read_data_block (source f) i = Some (slice (i * BLOCK_SIZE) (i * BLOCK_SIZE + BLOCK_SIZE) file)) /\
      (has_tree (source f) = true -> exists signature offset,
         fs (path ++ IDSIG_EXTENSION) = inl signature /\
         skip_id_sig_headers signature = Ok (offset, verity_tree_size_for_file (zlen file)) /\
         forall i, 0 <= i < 2 ^ 31 -> 0 <= offset < 2 ^ 62 ->
           read_tree_block (source f) i = Some (slice (offset + i * BLOCK_SIZE) (offset + i * BLOCK_SIZE + BLOCK_SIZE) signature))
  | Err _ => exists signature offset n, fs (path ++ IDSIG_EXTENSION) = inl signature /\
      skip_id_sig_headers signature = Ok (offset, n) /\ n <> verity_tree_size_for_file (zlen file)
  | Panic => False
  end.
Proof.
  intros Hf Hl. pose proof (zlen_nonneg file). unfold open_local. rewrite Hf.
  assert (forall tr off pri, fresh_file (mk_file (filepath (file_new path (zlen file) (mk_local file tr off))) (zlen file)
    (sent_blocks (file_new path (zlen file) (mk_local file tr off))) 0
    (sent_tree_blocks (file_new path (zlen file) (mk_local file tr off))) pri (mk_local file tr off))) as Hfresh.
  { intros tr off pri. exists path, (zlen file), (mk_local file tr off), pri. split; [lia|done]. }
  assert (forall tr off i, 0 <= i < 2 ^ 31 -> read_data_block (mk_local file tr off) i
    = Some (slice (i * BLOCK_SIZE) (i * BLOCK_SIZE + BLOCK_SIZE) file)) as Hdata.
  { intros tr off i Hi. cbn. rewrite (wrap_small 64 i), wrap_small by (unfold uint, BLOCK_SIZE; lia).
    unfold read_at, slice. do 3 f_equal. lia. }
  destruct (fs (path ++ IDSIG_EXTENSION)) as [sig|e] eqn:Es; cbn [res_bind].
  2: { split_and!; [apply Hfresh|done|apply Hdata|done]. }
  destruct (skip_id_sig_headers sig) as [[off n]|e|] eqn:Ek; cbn [res_bind]; [|split_and!; [apply Hfresh|done|apply Hdata|done]..].
  destruct (Z.eqb_spec n (verity_tree_size_for_file (zlen file))) as [->|Hne]; cbn [negb res_bind].
  - split_and!; [apply Hfresh|done|apply Hdata|]. intros _. exists sig, off. split_and!; try done. intros i Hi Ho. cbn.
    rewrite (wrap_small 64 i), wrap_small by (unfold uint, BLOCK_SIZE; lia). unfold read_at, slice. do 3 f_equal. lia.
  - by exists sig, off, n.
Qed.

Module ServeSample.
Import IncSample.

(** A session: a request to prefetch the file, with text around it, and the request to end. *)
Definition conn : FdConn :=
  mk_fd [PollData (B "text" ++ encode_request (mk_req PREFETCH 0 0)); PollTimeout; PollData (encode_request (mk_req DESTROY 0 0))] [] None [].

Lemma inc_serve_fds_ends_witness :
  (serve_fds (server_new [file0]) conn = Panic \/
   exists s' c' stream log, serve_fds (server_new [file0]) conn = Ok (s', c', true) /\
     fd_written c' = fd_written conn ++ B "OKAY" ++ stream /\
     device_reads (stream ++ snd (drain_output s')) = Some log /\ good (map spec_of [file0]) log) /\
  match serve_fds (server_new [file0]) conn with
  | Ok (_, c, _) => device_reads (drop 4 (fd_written c))
  | _ => None
  end = Some [hash_block 0 0 [x00]; data_block 0 0 COMPRESSION_LZ4 (B "abc"); data_block 0 1 COMPRESSION_NONE []; done_block].
Proof. split; [apply (inc_serve_fds_ends [file0] conn fresh0); [vm_compute; congruence|done]|vm_compute; reflexivity]. Defined.

(** A peer that acknowledges, asks for a block, and closes. *)
Definition frame (c : Z) (p : bytes) : bytes := message_bytes (Header.new c 7 1 p, p).
Definition peer : Conn :=
  mk_conn [inl (frame A_OKAY []); inl (frame A_WRTE (encode_request (mk_req BLOCK_MISSING 0 1))); inl (frame A_OKAY [] ++ frame A_CLSE [])] [] None.

Lemma inc_serve_transport_ends_witness : framed_ends (serve_over_transport 200 1 7 (server_new [file0]) peer).
Proof. apply (inc_serve_transport_ends [file0] peer 1 7 200 fresh0); vm_compute; [congruence|lia]. Defined.

Lemma inc_open_local_witness :
  let fs p := if bool_decide (p = B "a.apk") then inl (B "abc") else inr unexpected_eof in
  match open_local fs (fun _ => None) (B "a.apk") with
  | Ok f => fresh_file f /\ size f = 3 /\
      (forall i, 0 <= i < 2 ^ 31 -> read_data_block (source f) i = Some (slice (i * BLOCK_SIZE) (i * BLOCK_SIZE + BLOCK_SIZE) (B "abc"))) /\
      (has_tree (source f) = true -> exists signature offset,
         fs (B "a.apk" ++ IDSIG_EXTENSION) = inl signature /\
         skip_id_sig_headers signature = Ok (offset, verity_tree_size_for_file 3) /\
         forall i, 0 <= i < 2 ^ 31 -> 0 <= offset < 2 ^ 62 ->
           read_tree_block (source f) i = Some (slice (offset + i * BLOCK_SIZE) (offset + i * BLOCK_SIZE + BLOCK_SIZE) signature))
  | Err _ => exists signature offset n, fs (B "a.apk" ++ IDSIG_EXTENSION) = inl signature /\
      skip_id_sig_headers signature = Ok (offset, n) /\ n <> verity_tree_size_for_file 3
  | Panic => False
  end.
Proof. intros fs. apply (inc_open_local fs (fun _ => None) (B "a.apk") (B "abc")); vm_compute; congruence. Defined.

(** The bytes that are held back go to the output again at every timeout. *)
Example timeout_repeats_output :
  match read_request_fd 9 true (server_new [file0]) (mk_fd [PollData (B "Success"); PollTimeout] [] None []) with
  | Ok (s, c, FdNone) =>
      match read_request_fd 9 true s (set_polls [PollTimeout] c) with Ok (_, c, _) => fd_output c | _ => [] end
  | _ => []
  end = B "Successcess".
Proof. vm_compute. reflexivity. Qed.
End ServeSample.
