(* ===== verification/Pump.v ===== *)
(** * The pump of an incremental install

    [client/incremental/pump.rs]: a process between the framed connection to the device and the plain byte
    channel of the block server. At most one data frame is on its way: what the channel gives meanwhile
    waits in the [outbox]. *)
From S2P Require Import Prelude Text AdbHeader Net AdbTransport.

Definition MAX_FRAME_DATA : Z := MAX_PAYLOAD_V2 - 24.

Inductive PumpEvent := Frame (h : AdbMessageHeader) (payload : bytes) | PumpDisconnected.

(** [adb_read]: a read that is repeated when it is interrupted. *)
Fixpoint adb_read (len : Z) (q : list event) : list event * (bytes + io_error) :=
  match q with
  | inr e :: q => if bool_decide (io_kind e = Interrupted) then adb_read len q else (q, inr e)
  | q => read len q
  end.

(** [read_all]: [None] at the end of the stream, even within the buffer. *)
Fixpoint pump_read_all (q : list event) (n : Z) (acc : bytes) : list event * res bytes (option bytes) :=
  if n <=? 0 then (q, Ok (Some acc)) else
  match q with
  | [] => ([], Ok None)
  | inr e :: q =>
      if bool_decide (io_kind e = Interrupted) then pump_read_all q n acc else (q, Err (B "inc-pump: read: " ++ io_msg e))
  | inl seg :: q =>
      if zlen seg =? 0 then (q, Ok None)
      else if zlen seg <=? n then pump_read_all q (n - zlen seg) (acc ++ seg)
      else (inl (drop (Z.to_nat n) seg) :: q, Ok (Some (acc ++ take (Z.to_nat n) seg)))
  end.

Definition pump_write (bs : bytes) (c : Conn) : Conn * res bytes unit :=
  let '(c, r) := write_all bs c in (c, map_err (fun e => B "inc-pump: write: " ++ io_msg e) r).

Definition send_frame (local_id remote_id : Z) (payload : bytes) (c : Conn) : Conn * res bytes unit :=
  match pump_write (header_bytes (Header.new A_WRTE local_id remote_id payload)) c with
  | (c, Ok _) => match payload with [] => (c, Ok tt) | _ => pump_write payload c end
  | r => r
  end.

Definition recv_frame (q : list event) : list event * res bytes PumpEvent :=
  match pump_read_all q 24 [] with
  | (q, Ok None) => (q, Ok PumpDisconnected)
  | (q, Ok (Some hdr_buf)) =>
      match Header.decode hdr_buf with
      | Err e => (q, Err (B "inc-pump: bad frame header: " ++ header_error_text e))
      | Panic => (q, Panic)
      | Ok header =>
          if MAX_PAYLOAD_V2 <? data_length header
          then (q, Err (B "inc-pump: payload too large: " ++ fmt_dec (data_length header) ++ B " bytes"))
          else if data_length header =? 0 then (q, Ok (Frame header []))
          else
            match pump_read_all q (data_length header) [] with
            | (q, Ok None) => (q, Ok PumpDisconnected)
            | (q, Ok (Some payload)) =>
                (q, let! _ := map_err (fun e => B "inc-pump: bad frame payload: " ++ header_error_text e)
                                (Header.verify_payload header payload) in Ok (Frame header payload))
            | (q, Err e) => (q, Err e)
            | (q, Panic) => (q, Panic)
            end
      end
  | (q, Err e) => (q, Err e)
  | (q, Panic) => (q, Panic)
  end.

(** The two descriptors and the loop's variables. *)
Record Pump := mk_pump { transport_fd : Conn; channel_fd : Conn; outbox : list bytes; in_flight : bool }.

(** What a step comes to: the loop goes on, or [run] returns. *)
Inductive outcome := Continue | Return (r : res bytes unit).

Section Run.
Context (local_id remote_id : Z).

Definition send_data (buf : bytes) (p : Pump) : Pump * outcome :=
  let '(c, r) := send_frame local_id remote_id buf (transport_fd p) in
  (mk_pump c (channel_fd p) (outbox p) (match r with Ok _ => true | _ => in_flight p end),
   match r with Ok _ => Continue | r => Return r end).

(** The channel is readable. *)
Definition from_channel (p : Pump) : Pump * outcome :=
  let '(q, r) := adb_read MAX_FRAME_DATA (incoming (channel_fd p)) in
  let p := mk_pump (transport_fd p) (set_incoming q (channel_fd p)) (outbox p) (in_flight p) in
  match r with
  | inr e => (p, Return (Err (B "inc-pump: read: " ++ io_msg e)))
  | inl [] => (p, Return (Ok tt))
  | inl buf =>
      if in_flight p then (mk_pump (transport_fd p) (channel_fd p) (outbox p ++ [buf]) true, Continue)
      else send_data buf p
  end.

(** The transport is readable. *)
Definition from_transport (p : Pump) : Pump * outcome :=
  let '(q, r) := recv_frame (incoming (transport_fd p)) in
  let p := mk_pump (set_incoming q (transport_fd p)) (channel_fd p) (outbox p) (in_flight p) in
  match r with
  | Err e => (p, Return (Err e))
  | Panic => (p, Return Panic)
  | Ok PumpDisconnected => (p, Return (Ok tt))
  | Ok (Frame h payload) =>
      let ours := (arg0 h =? remote_id) && (arg1 h =? local_id) in
      if (command h =? A_WRTE) && ours then
        match pump_write (header_bytes (Header.new A_OKAY local_id remote_id [])) (transport_fd p) with
        | (c, Ok _) =>
            match payload with
            | [] => (mk_pump c (channel_fd p) (outbox p) (in_flight p), Continue)
            | _ =>
                let '(ch, r) := pump_write payload (channel_fd p) in
                (mk_pump c ch (outbox p) (in_flight p), match r with Ok _ => Continue | r => Return r end)
            end
        | (c, r) => (mk_pump c (channel_fd p) (outbox p) (in_flight p), Return r)
        end
      else if (command h =? A_OKAY) && ours
      then (mk_pump (transport_fd p) (channel_fd p) (outbox p) false, Continue)
      else if command h =? A_CLSE then (p, Return (Ok tt))
      else (p, Return (Err (B "inc-pump: unexpected frame command " ++ fmt_hex0x (command h))))
  end.

(** The window is open: the next queued block; then a frame is on its way and the loop stops. *)
Definition from_outbox (p : Pump) : Pump * outcome :=
  if in_flight p then (p, Continue) else
  match outbox p with
  | [] => (p, Continue)
  | data :: rest => send_data data (mk_pump (transport_fd p) (channel_fd p) rest (in_flight p))
  end.

Definition and_then (f : Pump -> Pump * outcome) (r : Pump * outcome) : Pump * outcome :=
  match r with (p, Continue) => f p | r => r end.

(** An iteration after a poll: an error, or which of the channel and the transport are readable. *)
Definition pump_step (poll : io_error + bool * bool) (p : Pump) : Pump * outcome :=
  match poll with
  | inl e => if bool_decide (io_kind e = Interrupted) then (p, Continue) else (p, Return (Err (B "inc-pump: poll: " ++ io_msg e)))
  | inr (channel, transport) =>
      and_then from_outbox
        (and_then (fun p => if transport then from_transport p else (p, Continue))
           (if channel then from_channel p else (p, Continue)))
  end.

(** [run], for a sequence of polls. *)
Fixpoint pump_run (polls : list (io_error + bool * bool)) (p : Pump) : Pump * outcome :=
  match polls with
  | [] => (p, Continue)
  | e :: polls => and_then (pump_run polls) (pump_step e p)
  end.
End Run.

(** ** One frame at a time, nothing lost or reordered *)

Lemma adb_read_data len q q' bs : adb_read len q = (q', inl bs) -> script_data q = bs ++ script_data q'.
Proof.
  unfold script_data. induction q as [|[seg|e] q IH]; cbn [adb_read read map concat].
  - by intros [= <- <-].
  - destruct (zlen seg <=? len); intros [= <- <-]; [done|]. cbn [map concat]. by rewrite app_assoc, take_drop.
  - case_bool_decide; [done|discriminate].
Qed.

Section Faithful.
Context (local_id remote_id : Z).

Definition data_msg (d : bytes) : AdbMessageHeader * bytes := (Header.new A_WRTE local_id remote_id d, d).
Definition ack_msg : AdbMessageHeader * bytes := (Header.new A_OKAY local_id remote_id [], []).

(** A message the pump writes: a block of the channel, or an acknowledgement. *)
Inductive sent_msg := SData (d : bytes) | SAck.
Definition sent_bytes (m : sent_msg) : bytes := message_bytes (match m with SData d => data_msg d | SAck => ack_msg end).
Definition data_of (ms : list sent_msg) : list bytes := omap (fun m => match m with SData d => Some d | SAck => None end) ms.
Definition acks_of (ms : list sent_msg) : nat := length ms - length (data_of ms).

Definition ours (h : AdbMessageHeader) : bool := (arg0 h =? remote_id) && (arg1 h =? local_id).

(** The frame that an iteration takes from the device. *)
Definition frame_of (poll : io_error + bool * bool) (p : Pump) : list (AdbMessageHeader * bytes) :=
  match poll with
  | inr (channel, true) =>
      match (if channel then from_channel local_id remote_id p else (p, Continue)) with
      | (p, Continue) => match recv_frame (incoming (transport_fd p)) with (_, Ok (Frame h d)) => [(h, d)] | _ => [] end
      | _ => []
      end
  | _ => []
  end.

Fixpoint frames (polls : list (io_error + bool * bool)) (p : Pump) : list (AdbMessageHeader * bytes) :=
  match polls with
  | [] => []
  | e :: polls =>
      frame_of e p ++ match pump_step local_id remote_id e p with (p, Continue) => frames polls p | _ => [] end
  end.

Definition okays (fr : list (AdbMessageHeader * bytes)) : nat :=
  length (List.filter (fun m => (command (fst m) =? A_OKAY) && ours (fst m)) fr).
Definition delivered (fr : list (AdbMessageHeader * bytes)) : list bytes :=
  map snd (List.filter (fun m => (command (fst m) =? A_WRTE) && ours (fst m)) fr).

(** [total] is what the channel had to give, [base] what the descriptors had got before, [fr] the frames so far. *)
Definition pump_inv (total base_t base_c : bytes) (fr : list (AdbMessageHeader * bytes)) (p : Pump) : Prop :=
  exists ms,
    outgoing (transport_fd p) = base_t ++ concat (map sent_bytes ms) /\
    total = concat (data_of ms) ++ concat (outbox p) ++ script_data (incoming (channel_fd p)) /\
    (length (data_of ms) <= okays fr + (if in_flight p then 1 else 0))%nat /\
    outgoing (channel_fd p) = base_c ++ concat (delivered fr) /\
    length (delivered fr) = acks_of ms.

Definition window_closed (p : Pump) : Prop := in_flight p = false -> outbox p = [].

Lemma length_data_of ms : (length (data_of ms) <= length ms)%nat.
Proof. unfold data_of in *. induction ms as [|[d|] ms IH]; cbn [omap list_omap length] in *; lia. Qed.

Lemma frames_data_app a b : data_of (a ++ b) = data_of a ++ data_of b.
Proof. apply omap_app. Qed.

Lemma pump_write_ok bs c c' u : pump_write bs c = (c', Ok u) -> c' = mk_conn (incoming c) (outgoing c ++ bs) (wfail c).
Proof. unfold pump_write, write_all, write. destruct (wfail c) eqn:E; [done|]. cbn. by intros [= <- _]. Qed.

Lemma send_frame_ok d c c' u :
  send_frame local_id remote_id d c = (c', Ok u) -> c' = mk_conn (incoming c) (outgoing c ++ sent_bytes (SData d)) (wfail c).
Proof.
  unfold send_frame, sent_bytes, message_bytes, data_msg. cbn [fst snd].
  destruct (pump_write _ c) as [c1 [u1|e|]] eqn:E1; [|done..]. apply pump_write_ok in E1 as ->.
  destruct d as [|b d]; [intros [= <- _]; by rewrite app_nil_r|]. intros ->%pump_write_ok. cbn. by rewrite <- app_assoc.
Qed.

Lemma send_data_inv total bt bc fr d p p' :
  send_data local_id remote_id d p = (p', Continue) -> in_flight p = false ->
  pump_inv (total) bt bc fr (mk_pump (transport_fd p) (channel_fd p) (d :: outbox p) false) ->
  pump_inv total bt bc fr p' /\ window_closed p' /\ channel_fd p' = channel_fd p.
Proof.
  unfold send_data. destruct (send_frame local_id remote_id d (transport_fd p)) as [c r] eqn:Es.
  destruct r as [u|e|]; [|done..]. apply send_frame_ok in Es as ->. intros [= <-] Hfl (ms & Ho & Ht & Hw & Hc & Ha).
  split_and!; [|done|done]. exists (ms ++ [SData d]). cbn [transport_fd channel_fd outbox in_flight outgoing incoming] in *.
  rewrite frames_data_app, map_app, !concat_app, length_app. cbn [map concat data_of omap list_omap length].
  split_and!.
  - by rewrite Ho, app_nil_r, <- app_assoc.
  - rewrite Ht. cbn [concat]. by rewrite app_nil_r, <- !app_assoc.
  - cbn in Hw. lia.
  - done.
  - rewrite Ha. unfold acks_of. rewrite frames_data_app, !length_app. cbn. pose proof (length_data_of ms). lia.
Qed.

(** *** The three parts of an iteration *)
Lemma from_channel_inv total bt bc fr p p' :
  pump_inv total bt bc fr p -> window_closed p -> from_channel local_id remote_id p = (p', Continue) ->
  pump_inv total bt bc fr p' /\ window_closed p'.
Proof.
  intros (ms & Ho & Ht & Hw & Hc & Ha) Hcl. unfold from_channel.
  destruct (adb_read MAX_FRAME_DATA (incoming (channel_fd p))) as [q [bs|e]] eqn:Er; [|done].
  apply adb_read_data in Er. destruct bs as [|b bs]; [done|]. rewrite Er in Ht.
  cbn [in_flight transport_fd channel_fd outbox]. destruct (in_flight p) eqn:Ef.
  - intros [= <-]. split; [|done]. exists ms. cbn [transport_fd channel_fd outbox in_flight incoming set_incoming outgoing].
    split_and!; try done. rewrite Ht, concat_app. cbn [concat]. by rewrite app_nil_r, <- !app_assoc.
  - intros E. eapply send_data_inv in E as (? & ? & _); [by split|done|]. exists ms.
    cbn [transport_fd channel_fd outbox in_flight incoming set_incoming outgoing]. rewrite (Hcl Ef) in *. split_and!; try done.
    rewrite Ht. cbn [concat]. by rewrite app_nil_r.
Qed.

Lemma okays_app a b : okays (a ++ b) = (okays a + okays b)%nat.
Proof. unfold okays. by rewrite List.filter_app, length_app. Qed.
Lemma delivered_app a b : delivered (a ++ b) = delivered a ++ delivered b.
Proof. unfold delivered. by rewrite List.filter_app, map_app. Qed.

Lemma okays_one h d : okays [(h, d)] = if (command h =? A_OKAY) && ours h then 1%nat else 0%nat.
Proof. unfold okays. cbn [List.filter fst]. by destruct (_ && _). Qed.
Lemma delivered_one h d : delivered [(h, d)] = if (command h =? A_WRTE) && ours h then [d] else [].
Proof. unfold delivered. cbn [List.filter fst]. by destruct (_ && _). Qed.

Lemma from_transport_inv total bt bc fr p p' :
  pump_inv total bt bc fr p -> from_transport local_id remote_id p = (p', Continue) ->
  exists h d q, recv_frame (incoming (transport_fd p)) = (q, Ok (Frame h d)) /\ pump_inv total bt bc (fr ++ [(h, d)]) p'.
Proof.
  intros (ms & Ho & Ht & Hw & Hc & Ha). unfold from_transport.
  destruct (recv_frame (incoming (transport_fd p))) as [q [[h d|]|e|]] eqn:Er; [|done..].
  intros E. exists h, d, q. split; [done|]. revert E. cbn [transport_fd channel_fd outbox in_flight]. fold (ours h).
  unfold pump_inv. rewrite okays_app, delivered_app, okays_one, delivered_one.
  destruct ((command h =? A_WRTE) && ours h) eqn:Ew.
  - assert ((command h =? A_OKAY) && ours h = false) as ->.
    { apply andb_true_iff in Ew as [Ew%Z.eqb_eq _]. rewrite Ew. done. }
    destruct (pump_write _ _) as [c r] eqn:Ep. destruct r as [u|e|]; [|done..]. apply pump_write_ok in Ep as ->. cbn [incoming outgoing wfail set_incoming].
    assert (forall ch, incoming ch = incoming (channel_fd p) -> outgoing ch = outgoing (channel_fd p) ++ d ->
      exists ms', outgoing (transport_fd p) ++ header_bytes (Header.new A_OKAY local_id remote_id []) = bt ++ concat (map sent_bytes ms') /\
        total = concat (data_of ms') ++ concat (outbox p) ++ script_data (incoming ch) /\
        (length (data_of ms') <= okays fr + 0 + (if in_flight p then 1 else 0))%nat /\
        outgoing ch = bc ++ concat (delivered fr ++ [d]) /\ length (delivered fr ++ [d]) = acks_of ms') as Hms.
    { intros ch Hi Hou. exists (ms ++ [SAck]). rewrite frames_data_app, app_nil_r, map_app, !concat_app. cbn [map concat].
      split_and!.
      - by rewrite Ho, app_nil_r, <- app_assoc.
      - by rewrite Hi.
      - lia.
      - rewrite Hou, Hc, app_nil_r. by rewrite <- app_assoc.
      - unfold acks_of. rewrite frames_data_app, app_nil_r, !length_app, Ha. unfold acks_of. pose proof (length_data_of ms). cbn. lia. }
    destruct d as [|b d].
    + intros [= <-]. apply Hms; [done|by rewrite app_nil_r].
    + destruct (pump_write (b :: d) (channel_fd p)) as [ch r] eqn:Ec. destruct r; [|done..]. apply pump_write_ok in Ec as ->.
      intros [= <-]. by apply Hms.
  - rewrite app_nil_r. destruct ((command h =? A_OKAY) && ours h).
    + intros [= <-]. exists ms. split_and!; try done. cbn. destruct (in_flight p); lia.
    + by destruct (command h =? A_CLSE).
Qed.

Lemma from_outbox_inv total bt bc fr p p' :
  pump_inv total bt bc fr p -> from_outbox local_id remote_id p = (p', Continue) -> pump_inv total bt bc fr p' /\ window_closed p'.
Proof.
  intros Hi. unfold from_outbox. destruct (in_flight p) eqn:Ef.
  { intros [= <-]. split; [done|]. unfold window_closed. congruence. }
  destruct (outbox p) as [|d rest] eqn:Eo; [intros [= <-]; split; [done|by intros _]|].
  intros E. eapply send_data_inv in E as (? & ? & _); [by split|done|]. cbn [transport_fd channel_fd outbox].
  destruct Hi as (ms & H). exists ms. cbn [transport_fd channel_fd outbox in_flight]. by rewrite Ef, Eo in H.
Qed.

Lemma pump_step_inv total bt bc fr e p p' :
  pump_inv total bt bc fr p -> window_closed p -> pump_step local_id remote_id e p = (p', Continue) ->
  pump_inv total bt bc (fr ++ frame_of e p) p' /\ window_closed p'.
Proof.
  intros Hi Hcl. unfold pump_step, frame_of. destruct e as [e|[channel transport]].
  { case_bool_decide; [|done]. intros [= <-]. by rewrite app_nil_r. }
  destruct (if channel then from_channel local_id remote_id p else (p, Continue)) as [p1 [|r]] eqn:E1; cbn [and_then]; [|done].
  assert (pump_inv total bt bc fr p1 /\ window_closed p1) as [Hi1 Hcl1].
  { destruct channel; [by eapply from_channel_inv|]. by injection E1 as <-. }
  destruct transport.
  - destruct (from_transport local_id remote_id p1) as [p2 [|r]] eqn:E2; cbn [and_then]; [|done].
    destruct (from_transport_inv _ _ _ _ _ _ Hi1 E2) as (h & d & q & -> & Hi2). intros E3. by eapply from_outbox_inv.
  - cbn [and_then]. rewrite app_nil_r. intros E3. by eapply from_outbox_inv.
Qed.

Lemma pump_run_inv total bt bc polls : forall fr p p',
  pump_inv total bt bc fr p -> window_closed p -> pump_run local_id remote_id polls p = (p', Continue) ->
  pump_inv total bt bc (fr ++ frames polls p) p' /\ window_closed p'.
Proof.
  induction polls as [|e polls IH]; intros fr p p' Hi Hcl; cbn [pump_run frames].
  { intros [= <-]. by rewrite app_nil_r. }
  destruct (pump_step local_id remote_id e p) as [p1 [|r]] eqn:E; cbn [and_then]; [|done].
  destruct (pump_step_inv _ _ _ _ _ _ _ Hi Hcl E) as [Hi1 Hcl1]. rewrite app_assoc. by apply IH.
Qed.
End Faithful.

(** While the pump runs, whatever the order in which its descriptors become readable: it has written to the
    device, in frames, a prefix of what the block server wrote, in order, and holds the rest of what it read; at
    most one frame more than the device acknowledged; and it has passed on the device's data, in order, with one
    acknowledgement for each frame of it. *)
Theorem pump_faithful local_id remote_id polls p p' :
  outbox p = [] -> in_flight p = false ->
  pump_run local_id remote_id polls p = (p', Continue) ->
  let fr := frames local_id remote_id polls p in
  exists ms,
    outgoing (transport_fd p') = outgoing (transport_fd p) ++ concat (map (sent_bytes local_id remote_id) ms) /\
    script_data (incoming (channel_fd p)) = concat (data_of ms) ++ concat (outbox p') ++ script_data (incoming (channel_fd p')) /\
    (length (data_of ms) <= okays local_id remote_id fr + 1)%nat /\ (in_flight p' = false -> outbox p' = []) /\
    outgoing (channel_fd p') = outgoing (channel_fd p) ++ concat (delivered local_id remote_id fr) /\
    length (delivered local_id remote_id fr) = acks_of ms.
Proof.
  intros Ho Hf Hr fr.
  destruct (pump_run_inv local_id remote_id (script_data (incoming (channel_fd p))) (outgoing (transport_fd p)) (outgoing (channel_fd p)) polls [] p p')
    as [(ms & H1 & H2 & H3 & H4 & H5) Hcl]; [|by intros _|done|].
  - exists []. rewrite Ho. cbn. rewrite !app_nil_r. split_and!; try done. lia.
  - exists ms. cbn [app] in *. subst fr. split_and!; try done. destruct (in_flight p'); lia.
Qed.

(** The block server writes twice, the device acknowledges and answers. *)
Definition pump_sample : Pump :=
  let from_device := message_bytes (Header.new A_OKAY 9 1 [], []) ++ message_bytes (Header.new A_WRTE 9 1 (B "abc"), B "abc") in
  mk_pump (mk_conn [inl from_device] [] None) (mk_conn [inl (B "one"); inl (B "two")] [] None) [] false.

Lemma pump_faithful_witness :
  let polls := [inr (true, false); inr (true, true); inr (false, true)] in
  let p' := fst (pump_run 1 9 polls pump_sample) in
  let fr := frames 1 9 polls pump_sample in
  (exists ms,
    outgoing (transport_fd p') = [] ++ concat (map (sent_bytes 1 9) ms) /\
    B "onetwo" = concat (data_of ms) ++ concat (outbox p') ++ script_data (incoming (channel_fd p')) /\
    (length (data_of ms) <= okays 1 9 fr + 1)%nat /\ (in_flight p' = false -> outbox p' = []) /\
    outgoing (channel_fd p') = [] ++ concat (delivered 1 9 fr) /\ length (delivered 1 9 fr) = acks_of ms) /\
  outgoing (channel_fd p') = B "abc" /\
  outgoing (transport_fd p') = concat (map (sent_bytes 1 9) [SData (B "one"); SData (B "two"); SAck]).
Proof.
  intros polls p' fr. split; [|vm_compute; done].
  apply (pump_faithful 1 9 polls pump_sample p'); [done|done|vm_compute; reflexivity].
Defined.

(** The block server ends while a block waits for the acknowledgement: the block is lost. *)
Example pump_drops_outbox :
  let p := mk_pump (mk_conn [] [] None) (mk_conn [inl (B "one"); inl (B "two")] [] None) [] false in
  let '(p', o) := pump_run 1 9 [inr (true, false); inr (true, false); inr (true, false)] p in
  (outbox p', o) = ([B "two"], Return (Ok tt)).
Proof. vm_compute. reflexivity. Qed.
