(* ===== verification/Effects.v ===== *)
(** * Effectful functions

    A function that changes a state and may fail, as the client's commands do: [M S E A] takes the
    state and gives the new one with a result. The state is kept when an error is returned: what has
    been sent or written stays so. *)
From S2P Require Import Prelude.

Definition M (S E A : Type) : Type := S -> S * res E A.

Definition ret {S E A} (a : A) : M S E A := fun s => (s, Ok a).
Definition fail {S E A} (e : E) : M S E A := fun s => (s, Err e).
Definition lift {S E A} (r : res E A) : M S E A := fun s => (s, r).

Definition bind {S E A C} (m : M S E A) (k : A -> M S E C) : M S E C := fun s =>
  match m s with
  | (s, Ok a) => k a s
  | (s, Err e) => (s, Err e)
  | (s, Panic) => (s, Panic)
  end.

Declare Scope eff_scope.
Notation "'do!' x := m 'in' k" := (bind m (fun x => k))
  (at level 10, x binder, m at level 200, k at level 200) : eff_scope.
#[global] Open Scope eff_scope.

(** [map_err]. *)
Definition on_err {S E F A} (f : E -> F) (m : M S E A) : M S F A := fun s => let '(s, r) := m s in (s, map_err f r).

(** The result as a value ([if let Ok(x) = ...], [match ...]); a panic is not caught. *)
Definition attempt {S E F A} (m : M S E A) : M S F (E + A) := fun s =>
  match m s with
  | (s, Ok a) => (s, Ok (inr a))
  | (s, Err e) => (s, Ok (inl e))
  | (s, Panic) => (s, Panic)
  end.

(** A [for] loop. *)
Fixpoint for_each {S E A} (f : A -> M S E unit) (l : list A) : M S E unit :=
  match l with
  | [] => ret tt
  | x :: l => do! _ := f x in for_each f l
  end.

(** A [for] loop that extends a vector. *)
Fixpoint collect {S E A C} (f : A -> M S E (list C)) (l : list A) : M S E (list C) :=
  match l with
  | [] => ret []
  | x :: l => do! a := f x in do! rest := collect f l in ret (a ++ rest)
  end.

(** ** Lemmas *)
Lemma bind_ok {S E A C} (m : M S E A) (k : A -> M S E C) s s1 a : m s = (s1, Ok a) -> bind m k s = k a s1.
Proof. unfold bind. by intros ->. Qed.

Lemma bind_err {S E A C} (m : M S E A) (k : A -> M S E C) s s1 e : m s = (s1, Err e) -> bind m k s = (s1, Err e).
Proof. unfold bind. by intros ->. Qed.

Lemma bind_lift {S E A C} (a : A) (k : A -> M S E C) s : bind (lift (Ok a)) k s = k a s.
Proof. done. Qed.

Lemma bind_eq {S E A C} (m m' : M S E A) (k k' : A -> M S E C) s :
  m s = m' s -> (forall a s1, k a s1 = k' a s1) -> bind m k s = bind m' k' s.
Proof. unfold bind. intros -> Hk. by destruct (m' s) as [s1 [a|e|]]. Qed.

Lemma on_err_ok {S E F A} (f : E -> F) (m : M S E A) s s1 a : m s = (s1, Ok a) -> on_err f m s = (s1, Ok a).
Proof. unfold on_err. by intros ->. Qed.

Lemma attempt_ok {S E F A} (m : M S E A) s s1 a : m s = (s1, Ok a) -> attempt (F := F) m s = (s1, Ok (inr a)).
Proof. unfold attempt. by intros ->. Qed.

Lemma attempt_err {S E F A} (m : M S E A) s s1 e : m s = (s1, Err e) -> attempt (F := F) m s = (s1, Ok (inl e)).
Proof. unfold attempt. by intros ->. Qed.

(** ** What a function keeps, without panicking *)
Section Keeps.
Context {S : Type} (I : S -> S -> Prop) `{!PreOrder I}.

Definition keeps_at {E A} (m : M S E A) (s : S) : Prop := I s (m s).1 /\ (m s).2 <> Panic.
Definition keeps {E A} (m : M S E A) : Prop := forall s, keeps_at m s.

Lemma keeps_at_bind {E A C} (m : M S E A) (k : A -> M S E C) s :
  keeps_at m s -> (forall s1 a, m s = (s1, Ok a) -> I s s1 -> keeps_at (k a) s1) -> keeps_at (bind m k) s.
Proof.
  unfold keeps_at, bind. intros [H1 H2] Hk. destruct (m s) as [s1 [a|e|]] eqn:E1; [|done|done].
  destruct (Hk s1 a eq_refl H1) as [H3 H4]. split; [by transitivity s1|done].
Qed.

Lemma keeps_ret {E A} (a : A) : keeps (E := E) (ret a).
Proof. intros s. by split. Qed.
Lemma keeps_fail {E A} (e : E) : keeps (A := A) (fail e).
Proof. intros s. by split. Qed.
Lemma keeps_lift {E A} (r : res E A) : r <> Panic -> keeps (lift r).
Proof. intros Hr s. by split. Qed.

Lemma keeps_bind {E A C} (m : M S E A) (k : A -> M S E C) : keeps m -> (forall a, keeps (k a)) -> keeps (bind m k).
Proof. intros Hm Hk s. apply keeps_at_bind; [done|]. intros s1 a _ _. apply Hk. Qed.

Lemma keeps_on_err {E F A} (f : E -> F) (m : M S E A) : keeps m -> keeps (on_err f m).
Proof. intros Hm s. unfold keeps_at, on_err. destruct (Hm s) as [H1 H2]. by destruct (m s) as [s1 [a|e|]]. Qed.

Lemma keeps_attempt {E F A} (m : M S E A) : keeps m -> keeps (E := F) (attempt m).
Proof. intros Hm s. unfold keeps_at, attempt. destruct (Hm s) as [H1 H2]. by destruct (m s) as [s1 [a|e|]]. Qed.

Lemma keeps_for_each {E A} (f : A -> M S E unit) l : (forall x, keeps (f x)) -> keeps (for_each f l).
Proof. intros Hf. induction l as [|x l IH]; cbn [for_each]; [apply keeps_ret|]. by apply keeps_bind. Qed.

Lemma keeps_if {E A} (b : bool) (m1 m2 : M S E A) : keeps m1 -> keeps m2 -> keeps (if b then m1 else m2).
Proof. by destruct b. Qed.
End Keeps.

Create HintDb keeps_db.
#[export] Hint Resolve keeps_ret keeps_fail keeps_bind keeps_on_err keeps_attempt keeps_for_each keeps_if : keeps_db.
