(* ===== verification/SyncClient.v ===== *)
(** * The client of the file sync service

    [client/protocol.rs] (opening a service, acknowledged writes, the final answer) and
    [client/file_sync.rs]: push, pull, list and stat of files and directories, over the server (raw
    sync bytes) and directly over a transport (messages). The local file system and the programs that
    answer are parameters; what is printed is left out. A loop has what its peer still says as fuel. *)
From S2P Require Import Prelude Text AdbHeader SyncWire Net AdbTransport Effects.

Definition MAX_CHUNK : Z := 64 * 1024.

(** ** Error texts *)
Definition sync_error_text (e : SyncProtocolError) : bytes :=
  match e with
  | HeaderTooShort x g => B "Sync header too short: expected " ++ fmt_dec x ++ B " bytes, got " ++ fmt_dec g
  | SyncFail s => B "Sync command failed with message: " ++ s
  | InvalidPath s => B "Invalid path: " ++ s
  | InvalidMessage s => B "Invalid message structure or size overflow: " ++ s
  | UnsupportedCompression f => B "Unsupported sendrecv_v2 compression flags: 0x" ++ fmt_hex_pad 8 f
  end.

Definition prefixed {E A} (pre : bytes) (text : E -> bytes) (r : res E A) : res bytes A :=
  map_err (fun e => pre ++ text e) r.

(** ** [protocol.rs] *)
Section Protocol.
Context {T : Type} `{TransportEnds T}.

Definition tsend (h : AdbMessageHeader) (p : bytes) : M T bytes unit := on_err transport_error_text (t_send h p).
Definition trecv : M T bytes (AdbMessageHeader * bytes) := on_err transport_error_text t_recv.
(** [let _ = transport.send_message(..)]. *)
Definition tsend_ignored (h : AdbMessageHeader) : M T bytes unit := do! _ := attempt (tsend h []) in ret tt.

Fixpoint open_wait (fuel : nat) (dest : bytes) (local_id : Z) : M T bytes (Z * Z) :=
  match fuel with
  | O => lift Panic
  | S fuel =>
      do! '(hdr, _) := trecv in
      if command hdr =? A_OKAY then ret (local_id, arg0 hdr)
      else if command hdr =? A_CLSE then fail (B "Service '" ++ dest ++ B "' closed immediately")
      else open_wait fuel dest local_id
  end.

Definition open_service (dest : bytes) (local_id : Z) : M T bytes (Z * Z) :=
  do! _ := tsend (Header.new A_OPEN local_id 0 dest) dest in
  fun t => open_wait (S (t_left t)) dest local_id t.

Fixpoint wrte_wait (fuel : nat) (local_id : Z) : M T bytes unit :=
  match fuel with
  | O => lift Panic
  | S fuel =>
      do! '(hdr, _) := trecv in
      if command hdr =? A_OKAY then ret tt
      else if command hdr =? A_WRTE then
        do! _ := tsend_ignored (Header.new A_OKAY local_id (arg0 hdr) []) in wrte_wait fuel local_id
      else if command hdr =? A_CLSE then fail (B "Connection closed by peer")
      else wrte_wait fuel local_id
  end.

Definition send_wrte (local_id remote_id : Z) (payload : bytes) : M T bytes unit :=
  do! _ := tsend (Header.new A_WRTE local_id remote_id payload) payload in
  fun t => wrte_wait (S (t_left t)) local_id t.

Fixpoint recv_wrte_go (fuel : nat) (local_id : Z) (collected : bytes) : M T bytes bytes :=
  match fuel with
  | O => lift Panic
  | S fuel =>
      do! '(hdr, payload) := trecv in
      if command hdr =? A_WRTE then
        do! _ := tsend_ignored (Header.new A_OKAY local_id (arg0 hdr) []) in
        recv_wrte_go fuel local_id (collected ++ payload)
      else if command hdr =? A_CLSE then
        do! _ := tsend_ignored (Header.new A_CLSE local_id (arg0 hdr) []) in ret collected
      else if command hdr =? A_OKAY then recv_wrte_go fuel local_id collected
      else ret collected
  end.

Definition recv_wrte_all (local_id : Z) : M T bytes bytes := fun t => recv_wrte_go (S (t_left t)) local_id [] t.

(** The answer in the payload of a message. *)
Definition sync_answer (payload : bytes) : res bytes unit :=
  if zlen payload <? 8 then Err (B "Sync response too short") else
  let! sync_hdr := prefixed (B "Bad sync header: ") sync_error_text (SyncMessageHeader.decode payload) in
  if SyncMessageHeader.id sync_hdr =? SYNC_OKAY then Ok tt
  else if SyncMessageHeader.id sync_hdr =? SYNC_FAIL
  then let! msg := get_slice payload 8 (zlen payload) in Err (B "Sync FAIL: " ++ from_utf8_lossy msg)
  else Err (B "Unexpected sync response id " ++ fmt_hex0x (SyncMessageHeader.id sync_hdr)).

Fixpoint recv_sync_go (fuel : nat) (local_id : Z) : M T bytes unit :=
  match fuel with
  | O => lift Panic
  | S fuel =>
      do! '(hdr, payload) := on_err (fun e => B "recv sync response error: " ++ e) trecv in
      if command hdr =? A_OKAY then recv_sync_go fuel local_id
      else if command hdr =? A_WRTE then
        do! _ := tsend_ignored (Header.new A_OKAY local_id (arg0 hdr) []) in lift (sync_answer payload)
      else if command hdr =? A_CLSE then
        do! _ := tsend_ignored (Header.new A_CLSE local_id (arg0 hdr) []) in fail (B "Sync connection closed")
      else recv_sync_go fuel local_id
  end.

Definition recv_sync_response (local_id : Z) : M T bytes unit := fun t => recv_sync_go (S (t_left t)) local_id t.
End Protocol.

(** ** Local files *)

(** The local file system; [fs_modified] is [metadata(path)?.modified()?] in seconds, [fs_read_dir] the
    entries' names or the errors met between them. *)
Inductive FileType := FtDir | FtFile | FtOther.

Class FileSystem (F : Type) := {
  fs_is_dir : bytes -> F -> bool;
  fs_modified : bytes -> F -> io_error + Z;
  fs_lstat : bytes -> F -> io_error + FileType;
  fs_read_dir : bytes -> F -> io_error + list (io_error + bytes);
  fs_read : bytes -> F -> io_error + bytes;
  fs_write : bytes -> bytes -> F -> F * (io_error + unit);
  fs_create_dir_all : bytes -> F -> F * (io_error + unit);
  fs_utime : bytes -> Z -> F -> F * (io_error + unit);
  fs_set_permissions : bytes -> Z -> F -> F * (io_error + unit);
  fs_umask : F -> Z }.

Definition io_result {A} (pre : bytes) (x : io_error + A) : res bytes A :=
  match x with inr a => Ok a | inl e => Err (pre ++ io_msg e) end.

(** [std::path::Path] on a path and its reverse: the components without the separators and the [.] that
    are not components. *)
Fixpoint trim_noise (r : bytes) : bytes :=
  match r with
  | "/"%byte :: r => trim_noise r
  | "."%byte :: "/"%byte :: r => trim_noise r
  | _ => r
  end.

(** The last component, reversed, and what is before it. *)
Fixpoint last_component (r : bytes) : bytes * bytes :=
  match r with
  | [] => ([], [])
  | "/"%byte :: _ => ([], r)
  | b :: r => let '(c, rest) := last_component r in (b :: c, rest)
  end.

Definition file_name (p : bytes) : option bytes :=
  let name := reverse (fst (last_component (trim_noise (reverse p)))) in
  if bool_decide (name = []) || bool_decide (name = B ".") || bool_decide (name = B "..") then None else Some name.

Definition parent (p : bytes) : option bytes :=
  match trim_noise (reverse p) with
  | [] => None
  | r => let q := reverse (trim_noise (snd (last_component r))) in
         Some (match q with [] => if starts_with (B "/") p then B "/" else [] | _ => q end)
  end.

(** ** File attributes *)
Record RemoteEntry := mk_entry { e_mode : Z; e_size : Z; e_mtime : Z; e_name : bytes }.
Record FileStat := mk_stat { st_mode : Z; st_size : Z; st_mtime : Z }.

Definition remote_exists (st : FileStat) : bool :=
  negb (st_mode st =? 0) || negb (st_size st =? 0) || negb (st_mtime st =? 0).

Definition sync_equal (st : FileStat) (local_mtime : Z) : bool := remote_exists st && (st_mtime st =? local_mtime).

Definition mode_is_dir (mode : Z) : bool := Z.land mode 0xF000 =? 0x4000.

(** A local path is text, so its components are. *)
Definition local_push_basename (local : bytes) : res bytes bytes :=
  ok_or (file_name local) (B "cannot determine basename of local path '" ++ local ++ B "'").

Definition resolve_remote_file_target (remote : bytes) (remote_is_dir remote_exists : bool) (local_basename : bytes)
    : res bytes bytes :=
  if remote_is_dir then
    Ok ((if negb (ends_with (B "/") remote) then remote ++ B "/" else remote) ++ local_basename)
  else if ends_with (B "/") remote && remote_exists
  then Err (B "failed to access '" ++ remote ++ B "': Not a directory")
  else Ok remote.

(** The destination of a single file, from the answer to the first STAT. *)
Definition push_target (local remote : bytes) (st : bytes + FileStat) : res bytes bytes :=
  let '(remote_present, remote_is_dir) :=
    match st with inr st => (remote_exists st, mode_is_dir (st_mode st)) | inl _ => (false, false) end in
  if remote_is_dir then
    let! basename := local_push_basename local in resolve_remote_file_target remote true remote_present basename
  else resolve_remote_file_target remote false remote_present [].

(** ** Reading answers from a byte stream ([dyn Read]) *)
Class ByteSource (R : Type) := { read_exact_from : Z -> M R io_error bytes }.

(** The server's connection, which is read as it is. *)
#[export] Instance conn_source : ByteSource Conn :=
  {| read_exact_from n c := let '(q, r) := read_exact n (incoming c) in (set_incoming q c, r) |}.

Section Answers.
Context {R : Type} `{ByteSource R}.

Definition take_exact (n : Z) : M R bytes bytes := on_err io_msg (read_exact_from n).

Definition read_pull_response : M R bytes (SyncMessageHeader.t * bytes) :=
  do! wire := take_exact 8 in
  do! header := lift (map_err sync_error_text (SyncMessageHeader.decode wire)) in
  let id := SyncMessageHeader.id header in
  let length := SyncMessageHeader.length header in
  if (id =? SYNC_DATA) || (id =? SYNC_FAIL) then
    if MAX_CHUNK <? length then fail (B "SYNC DATA/FAIL length exceeds 64 KiB") else
    do! payload := take_exact length in ret (header, payload)
  else if ((id =? SYNC_DONE) || (id =? SYNC_OKAY)) && (length =? 0) then ret (header, [])
  else fail (B "Unexpected sync id/size " ++ fmt_hex0x id ++ B "/" ++ fmt_dec length ++ B " during pull").

Definition read_stat_response : M R bytes FileStat :=
  do! wire := take_exact 4 in
  let id := le_val wire in
  if id =? SYNC_FAIL then
    do! len := take_exact 4 in
    if MAX_CHUNK <? le_val len then fail (B "SYNC FAIL length exceeds 64 KiB") else
    do! message := take_exact (le_val len) in
    fail (B "Sync FAIL during stat: " ++ from_utf8_lossy message)
  else if negb (id =? SYNC_STAT) then fail (B "Unexpected sync id " ++ fmt_hex0x id ++ B " during stat") else
  do! fields := take_exact 12 in
  do! stat := lift (map_err sync_error_text (SyncStatResponse.decode_v1_message (wire ++ fields))) in
  if negb (SyncStatResponse.exists_ stat) then fail (B "STAT request returned no result: remote path unavailable") else
  ret (mk_stat (SyncStatResponse.mode stat) (SyncStatResponse.size stat) (SyncStatResponse.mtime stat)).

(** The loop of a pull: the data until DONE (or OKAY); [fuel] bounds the answers. *)
Fixpoint pull_data (fuel : nat) (file_data : bytes) : M R bytes bytes :=
  match fuel with
  | O => lift Panic
  | S fuel =>
      do! '(header, payload) := read_pull_response in
      let id := SyncMessageHeader.id header in
      if id =? SYNC_DATA then pull_data fuel (file_data ++ payload)
      else if (id =? SYNC_DONE) || (id =? SYNC_OKAY) then ret file_data
      else if id =? SYNC_FAIL then fail (B "Sync FAIL during pull: " ++ from_utf8_lossy payload)
      else lift Panic
  end.
End Answers.

(** ** The reader of a direct channel *)
Definition io_other (msg : bytes) : io_error := mk_io Other msg.

Record DirectSyncReader (T : Type) := mk_reader {
  rd_transport : T; rd_local : Z; rd_remote : Z; pending : bytes; position : Z }.
Arguments mk_reader {T}.
Arguments rd_transport {T}. Arguments rd_local {T}. Arguments rd_remote {T}.
Arguments pending {T}. Arguments position {T}.

Section Direct.
Context {T : Type} `{TransportEnds T}.
Implicit Types r : DirectSyncReader T.

Definition reader_new (local_id remote_id : Z) (t : T) : DirectSyncReader T := mk_reader t local_id remote_id [] 0.

Definition set_rd_transport (t : T) r := mk_reader t (rd_local r) (rd_remote r) (pending r) (position r).
Definition set_pending (b : bytes) (p : Z) r := mk_reader (rd_transport r) (rd_local r) (rd_remote r) b p.

(** An operation of the transport, with its errors as [io::Error::other]. *)
Definition rd_do {A} (m : M T TransportError A) : M (DirectSyncReader T) io_error A := fun r =>
  let '(t, x) := m (rd_transport r) in (set_rd_transport t r, map_err (fun e => io_other (transport_error_text e)) x).

Definition keep_payload (payload : bytes) : M (DirectSyncReader T) io_error unit := fun r =>
  let r := if position r =? zlen (pending r) then set_pending [] 0 r else r in
  if MAX_PAYLOAD_V2 <? zlen (pending r) + zlen payload
  then (r, Err (io_other (B "Too much buffered direct SYNC response data")))
  else (set_pending (pending r ++ payload) (position r) r, Ok tt).

Definition receive : M (DirectSyncReader T) io_error Z := fun r =>
  (do! '(header, payload) := rd_do t_recv in
   if negb ((arg0 header =? rd_remote r) && (arg1 header =? rd_local r))
   then fail (io_other (B "Wrong ADB stream ids on direct SYNC channel"))
   else if command header =? A_WRTE then
     do! _ := rd_do (t_send (Header.new A_OKAY (rd_local r) (arg0 header) []) []) in
     do! _ := keep_payload payload in ret (command header)
   else if command header =? A_OKAY then ret (command header)
   else if command header =? A_CLSE then
     do! _ := rd_do (t_send (Header.new A_CLSE (rd_local r) (arg0 header) []) []) in
     fail (mk_io UnexpectedEof (B "Sync connection closed prematurely"))
   else fail (io_other (B "Unexpected ADB command on direct SYNC channel"))) r.

(** [while self.receive()? != A_OKAY {}] *)
Fixpoint request_wait (fuel : nat) : M (DirectSyncReader T) io_error unit :=
  match fuel with
  | O => lift Panic
  | S fuel => do! c := receive in if c =? A_OKAY then ret tt else request_wait fuel
  end.

Definition send_request (request : bytes) : M (DirectSyncReader T) io_error unit := fun r =>
  (do! _ := rd_do (t_send (Header.new A_WRTE (rd_local r) (rd_remote r) request) request) in
   fun r => request_wait (S (t_left (rd_transport r))) r) r.

(** [while self.position == self.pending.len() { self.receive()?; }] *)
Fixpoint refill (fuel : nat) : M (DirectSyncReader T) io_error unit := fun r =>
  if negb (position r =? zlen (pending r)) then (r, Ok tt) else
  match fuel with
  | O => (r, Panic)
  | S fuel => (do! _ := receive in refill fuel) r
  end.

Definition direct_read (len : Z) : M (DirectSyncReader T) io_error bytes :=
  if len =? 0 then ret [] else
  do! _ := (fun r => refill (S (t_left (rd_transport r))) r) in
  fun r =>
    let count := Z.min len (zlen (pending r) - position r) in
    (set_pending (pending r) (position r + count) r, get_slice (pending r) (position r) (position r + count)).

(** The [read_exact] that the trait [Read] derives from [read]; every read gives a byte. *)
Fixpoint direct_read_exact (fuel : nat) (n : Z) (acc : bytes) : M (DirectSyncReader T) io_error bytes :=
  if n <=? 0 then ret acc else
  match fuel with
  | O => lift Panic
  | S fuel =>
      do! got := attempt (direct_read n) in
      match got with
      | inr [] => fail unexpected_eof
      | inr bs => direct_read_exact fuel (n - zlen bs) (acc ++ bs)
      | inl e => if bool_decide (io_kind e = Interrupted) then direct_read_exact fuel n acc else fail e
      end
  end.

#[export] Instance direct_source : ByteSource (DirectSyncReader T) :=
  {| read_exact_from n := direct_read_exact (Z.to_nat n) n [] |}.

Definition stat_on_direct_channel (path : bytes) : M (DirectSyncReader T) bytes FileStat :=
  do! request := lift (map_err sync_error_text (build_sync_stat_req path [])) in
  do! _ := on_err io_msg (send_request request) in
  read_stat_response.

(** A reader over the transport for the time of [m]; what it has buffered is dropped with it. *)
Definition with_reader {A} (local_id remote_id : Z) (m : M (DirectSyncReader T) bytes A) : M T bytes A := fun t =>
  let '(r, x) := m (reader_new local_id remote_id t) in (rd_transport r, x).

Definition stat_direct_inner (local_id remote_id : Z) (remote_path : bytes) : M T bytes FileStat :=
  with_reader local_id remote_id (stat_on_direct_channel remote_path).

Definition stat_direct (local_id remote_id : Z) (remote_path : bytes) : M T bytes FileStat :=
  do! result := stat_direct_inner local_id remote_id remote_path in
  do! _ := tsend (Header.new A_CLSE local_id remote_id []) [] in
  do! '(header, _) := trecv in
  if negb (command header =? A_CLSE) || negb ((arg0 header =? remote_id) && (arg1 header =? local_id))
  then fail (B "Expected direct SYNC close acknowledgement")
  else ret result.

Definition dent_entry (payload : bytes) : res bytes RemoteEntry :=
  let! dent := prefixed (B "Bad DENT: ") sync_error_text (SyncDentResponse.decode payload) in
  Ok (mk_entry (SyncDentResponse.mode dent) (SyncDentResponse.size dent) (SyncDentResponse.mtime dent)
        (SyncDentResponse.name dent)).

Fixpoint list_direct_go (fuel : nat) (local_id : Z) (entries : list RemoteEntry) : M T bytes (list RemoteEntry) :=
  match fuel with
  | O => lift Panic
  | S fuel =>
      do! '(hdr, payload) := trecv in
      if command hdr =? A_OKAY then list_direct_go fuel local_id entries
      else if command hdr =? A_WRTE then
        do! _ := tsend_ignored (Header.new A_OKAY local_id (arg0 hdr) []) in
        if zlen payload <? 8 then fail (B "Sync response too short during list") else
        do! sync_hdr := lift (prefixed (B "Bad sync header during list: ") sync_error_text (SyncMessageHeader.decode payload)) in
        do! body := lift (get_slice payload 8 (zlen payload)) in
        let id := SyncMessageHeader.id sync_hdr in
        if id =? SYNC_DENT then do! e := lift (dent_entry body) in list_direct_go fuel local_id (entries ++ [e])
        else if id =? SYNC_DONE then ret entries
        else if id =? SYNC_FAIL then fail (B "Sync FAIL during list: " ++ from_utf8_lossy body)
        else fail (B "Unexpected sync id " ++ fmt_hex0x id ++ B " during list")
      else if command hdr =? A_CLSE then
        do! _ := tsend_ignored (Header.new A_CLSE local_id (arg0 hdr) []) in ret entries
      else list_direct_go fuel local_id entries
  end.

Definition list_direct_inner (local_id remote_id : Z) (remote_path : bytes) : M T bytes (list RemoteEntry) :=
  do! request := lift (prefixed (B "Build LIST req failed: ") sync_error_text (build_sync_list_req remote_path [])) in
  do! _ := send_wrte local_id remote_id request in
  fun t => list_direct_go (S (t_left t)) local_id [] t.

(** Closing the channel; the answer is read and not looked at. *)
Definition close_channel (local_id remote_id : Z) : M T bytes unit :=
  do! _ := tsend (Header.new A_CLSE local_id remote_id []) [] in
  do! _ := attempt (E := bytes) trecv in ret tt.

Definition list_direct (local_id remote_id : Z) (remote_path : bytes) : M T bytes (list RemoteEntry) :=
  do! result := list_direct_inner local_id remote_id remote_path in
  do! _ := close_channel local_id remote_id in ret result.
End Direct.

(** ** Through the server *)
Definition write_raw_sync (data : bytes) : M Conn bytes unit := on_err io_msg (write_all data).

Definition read_raw_sync : M Conn bytes (SyncMessageHeader.t * bytes) :=
  do! hdr_buf := take_exact 8 in
  do! sync_hdr := lift (prefixed (B "Bad sync header: ") sync_error_text (SyncMessageHeader.decode hdr_buf)) in
  let payload_len := SyncMessageHeader.length sync_hdr in
  do! payload := (if 0 <? payload_len then take_exact payload_len else ret []) in
  ret (sync_hdr, payload).

Definition stat_server (remote_path : bytes) : M Conn bytes FileStat :=
  do! request := lift (prefixed (B "Build STAT req failed: ") sync_error_text (build_sync_stat_req remote_path [])) in
  do! _ := write_raw_sync request in
  read_stat_response.

Fixpoint list_server_go (fuel : nat) (entries : list RemoteEntry) : M Conn bytes (list RemoteEntry) :=
  match fuel with
  | O => lift Panic
  | S fuel =>
      do! '(sync_hdr, payload) := read_raw_sync in
      let id := SyncMessageHeader.id sync_hdr in
      if id =? SYNC_DENT then do! e := lift (dent_entry payload) in list_server_go fuel (entries ++ [e])
      else if id =? SYNC_DONE then ret entries
      else if id =? SYNC_FAIL then fail (B "Sync FAIL during list: " ++ from_utf8_lossy payload)
      else fail (B "Unexpected sync id " ++ fmt_hex0x id ++ B " during list")
  end.

Definition list_server_inner (remote_path : bytes) : M Conn bytes (list RemoteEntry) :=
  do! request := lift (prefixed (B "Build LIST req failed: ") sync_error_text (build_sync_list_req remote_path [])) in
  do! _ := write_raw_sync request in
  fun c => list_server_go (S (script_size (incoming c))) [] c.

(** The answer after DONE; [text] is the start of the error message. *)
Definition final_answer (text : bytes) : M Conn bytes unit :=
  do! '(final_hdr, final_payload) := read_raw_sync in
  if SyncMessageHeader.id final_hdr =? SYNC_FAIL then fail (text ++ from_utf8_lossy final_payload)
  else if negb (SyncMessageHeader.id final_hdr =? SYNC_OKAY)
  then fail (B "Expected SYNC_OKAY, got " ++ fmt_hex0x (SyncMessageHeader.id final_hdr))
  else ret tt.

(** ** Transfers

    The state of a transfer is the connection and the local files. *)
Record Session (T F : Type) := mk_session { net : T; disk : F }.
Arguments mk_session {T F}. Arguments net {T F}. Arguments disk {T F}.

Section Files.
Context {F : Type} `{FileSystem F} {T : Type}.

Definition over {A} (m : M T bytes A) : M (Session T F) bytes A := fun s =>
  let '(t, x) := m (net s) in (mk_session t (disk s), x).

(** Reading the local files. *)
Definition local_read {A} (pre : bytes) (f : F -> io_error + A) : M (Session T F) bytes A := fun s =>
  (s, io_result pre (f (disk s))).

(** Changing the local files. *)
Definition local_do (pre : bytes) (f : F -> F * (io_error + unit)) : M (Session T F) bytes unit := fun s =>
  let '(d, x) := f (disk s) in (mk_session (net s) d, io_result pre x).

Definition local_mtime_secs (path : bytes) : M (Session T F) bytes Z :=
  do! secs := local_read [] (fs_modified path) in ret (saturating_mtime_u32 secs).

Definition create_dir (dir : bytes) : M (Session T F) bytes unit :=
  local_do (B "Cannot create directory '" ++ dir ++ B "': ") (fs_create_dir_all dir).

Definition set_time_and_mode (path : bytes) (mtime mode : Z) : M (Session T F) bytes unit :=
  do! _ := lift (match Text.position (beqb x00) path with
                 | Some i => Err (B "nul byte found in provided data at position: " ++ fmt_dec (Z.of_nat i))
                 | None => Ok tt
                 end) in
  do! _ := local_do [] (fs_utime path mtime) in
  do! umask := local_read [] (fun d => inr (fs_umask d)) in
  local_do [] (fs_set_permissions path (Z.land (Z.land mode 0xFFF) (Z.lxor umask 0xFFFFFFFF))).

(** The end of a pull: the file is written, with its attributes if they were asked for. *)
Definition store_file (local file_data : bytes) (attrs : option FileStat) : M (Session T F) bytes unit :=
  do! _ := match parent local with Some dir => create_dir dir | None => ret tt end in
  do! _ := local_do (B "Cannot write local file '" ++ local ++ B "': ") (fs_write local file_data) in
  match attrs with Some a => set_time_and_mode local (st_mtime a) (st_mode a) | None => ret tt end.

(** What all four pushes send, [send] being one sync message: SEND, the DATA chunks and DONE. *)
Definition send_file (send : bytes -> M T bytes unit) (remote file_data : bytes) (mtime : Z) : M T bytes unit :=
  do! send_buf := lift (prefixed (B "Build SEND req failed: ") sync_error_text (build_sync_send_req remote 0x1A4 [])) in
  do! _ := send send_buf in
  do! _ := for_each (fun chunk =>
    do! data_buf := lift (prefixed (B "Build DATA chunk failed: ") sync_error_text (build_sync_data_chunk chunk [])) in
    send data_buf) (chunks MAX_CHUNK file_data) in
  do! done_buf := lift (prefixed (B "Build DONE failed: ") sync_error_text (build_sync_done mtime [])) in
  send done_buf.

(** Whether [--sync] skips the file. *)
Definition skip_file (sync : bool) (stat : bytes -> M T bytes FileStat) (remote : bytes) (mtime : Z)
    : M (Session T F) bytes bool :=
  if sync then
    do! st := attempt (over (stat remote)) in
    ret (match st with inr st => sync_equal st mtime | inl _ => false end)
  else ret false.

(** A single file: its destination is resolved, then it is sent unless it is skipped. *)
Definition push_file (stat : bytes -> M T bytes FileStat) (send : bytes -> M T bytes unit) (finish : M T bytes unit)
    (local remote : bytes) (sync : bool) : M (Session T F) bytes unit :=
  do! st := attempt (over (stat remote)) in
  do! target := lift (push_target local remote st) in
  do! mtime := local_mtime_secs local in
  do! skip := skip_file sync stat target mtime in
  if skip : bool then ret tt else
  do! file_data := local_read (B "Cannot read local file '" ++ local ++ B "': ") (fs_read local) in
  do! _ := over (send_file send target file_data mtime) in
  over finish.
End Files.

Section Transfers.
Context {F : Type} `{FileSystem F} {T : Type} `{TransportEnds T}.

Definition push_file_server (local remote : bytes) (sync : bool) : M (Session Conn F) bytes unit :=
  push_file stat_server write_raw_sync (final_answer (B "Sync FAIL: ")) local remote sync.

Definition push_file_direct (local_id remote_id : Z) (local remote : bytes) (sync : bool) : M (Session T F) bytes unit :=
  push_file (stat_direct_inner local_id remote_id) (send_wrte local_id remote_id) (recv_sync_response local_id)
    local remote sync.

Definition push_file_server_inner (local remote : bytes) (sync : bool) : M (Session Conn F) bytes unit :=
  do! mtime := local_mtime_secs local in
  do! skip := skip_file sync stat_server remote mtime in
  if skip : bool then ret tt else
  do! file_data := local_read (B "Cannot read local file '" ++ local ++ B "': ") (fs_read local) in
  do! _ := over (send_file write_raw_sync remote file_data mtime) in
  over (final_answer (B "Push '" ++ local ++ B "' Sync FAIL: ")).

Definition push_file_direct_with_ids (local_id remote_id : Z) (local remote : bytes) (sync : bool)
    : M (Session T F) bytes unit :=
  do! skip := (if sync then
                 do! mtime := local_mtime_secs local in
                 skip_file true (stat_direct_inner local_id remote_id) remote mtime
               else ret false) in
  if skip : bool then ret tt else
  do! file_data := local_read (B "Cannot read local file '" ++ local ++ B "': ") (fs_read local) in
  do! mtime := local_mtime_secs local in
  do! _ := over (send_file (send_wrte local_id remote_id) remote file_data mtime) in
  over (recv_sync_response local_id).

Definition push_files_server (files : list (bytes * bytes)) (sync : bool) : M (Session Conn F) bytes unit :=
  for_each (fun '(local, remote) => push_file_server_inner local remote sync) files.

Definition push_files_direct (local_id remote_id : Z) (files : list (bytes * bytes)) (sync : bool)
    : M (Session T F) bytes unit :=
  do! _ := for_each (fun '(local, remote) => push_file_direct_with_ids local_id remote_id local remote sync) files in
  over (close_channel local_id remote_id).

Definition pull_file_server (remote local : bytes) (preserve : bool) : M (Session Conn F) bytes unit :=
  do! attrs := (if preserve then do! st := over (stat_server remote) in ret (Some st) else ret None) in
  do! recv_buf := lift (prefixed (B "Build RECV req failed: ") sync_error_text (build_sync_recv_req remote [])) in
  do! _ := over (write_raw_sync recv_buf) in
  do! file_data := over (fun c => pull_data (S (script_size (incoming c))) [] c) in
  store_file local file_data attrs.

(** The part of a direct pull that uses the reader. *)
Definition pull_direct_data (remote : bytes) (preserve : bool) : M (DirectSyncReader T) bytes (option FileStat * bytes) :=
  do! attrs := (if preserve then do! st := stat_on_direct_channel remote in ret (Some st) else ret None) in
  do! recv_buf := lift (prefixed (B "Build RECV req failed: ") sync_error_text (build_sync_recv_req remote [])) in
  do! _ := on_err io_msg (send_request recv_buf) in
  do! file_data := (fun r => pull_data (S (t_left (rd_transport r) + length (pending r))) [] r) in
  ret (attrs, file_data).

Definition pull_file_direct (local_id remote_id : Z) (remote local : bytes) (preserve : bool) : M (Session T F) bytes unit :=
  do! '(attrs, file_data) := over (with_reader local_id remote_id (pull_direct_data remote preserve)) in
  store_file local file_data attrs.

(** ** Lists of files *)

(** [dir] with a slash at its end. *)
Definition with_slash (dir : bytes) : bytes := if ends_with (B "/") dir then dir else dir ++ B "/".

(** The files below [current], with their remote paths; [fuel] is the depth. *)
Fixpoint build_local_file_list_recursive (fuel : nat) (local_dir remote_dir current : bytes)
    : M (Session T F) bytes (list (bytes * bytes)) :=
  match fuel with
  | O => lift Panic
  | S fuel =>
      do! entries := local_read (B "Cannot read directory '" ++ current ++ B "': ") (fs_read_dir current) in
      collect (fun entry =>
        do! name := lift (match entry with inr name => Ok name | inl e => Err (B "Read dir entry error: " ++ io_msg e) end) in
        if starts_with (B ".") (from_utf8_lossy name) then ret [] else
        do! metadata := attempt (E := bytes) (local_read [] (fs_lstat (current ++ name))) in
        match metadata with
        | inl _ => ret []
        | inr metadata =>
            let local_path_str := from_utf8_lossy (current ++ name) in
            let relative := default local_path_str (strip_prefix local_dir local_path_str) in
            match metadata with
            | FtDir => build_local_file_list_recursive fuel local_dir remote_dir (local_path_str ++ B "/")
            | FtFile => ret [(local_path_str, remote_dir ++ relative)]
            | FtOther => ret []
            end
        end) entries
  end.

Definition build_local_file_list (fuel : nat) (local_dir remote_dir : bytes) : M (Session T F) bytes (list (bytes * bytes)) :=
  build_local_file_list_recursive fuel (with_slash local_dir) (with_slash remote_dir) (with_slash local_dir).

(** The files below [current_remote], as (local, remote); directories are created on the way. *)
Fixpoint build_remote_file_list (fuel : nat) (list_inner : bytes -> M T bytes (list RemoteEntry))
    (current_remote current_local : bytes) : M (Session T F) bytes (list (bytes * bytes)) :=
  match fuel with
  | O => lift Panic
  | S fuel =>
      do! entries := over (list_inner current_remote) in
      collect (fun entry =>
        if bool_decide (e_name entry = B ".") || bool_decide (e_name entry = B "..") then ret [] else
        let remote_child := with_slash current_remote ++ e_name entry in
        let local_child := with_slash current_local ++ e_name entry in
        if Z.land (e_mode entry) 0xF000 =? 0x4000 then
          do! _ := create_dir local_child in
          build_remote_file_list fuel list_inner remote_child local_child
        else ret [(local_child, remote_child)]) entries
  end.
End Transfers.

(** ** Finding the device

    [server] is the outcome of connecting to the server, [direct] that of opening the device and of the
    handshake with it. *)
Section Links.
Context {F : Type} `{FileSystem F} {T : Type} `{TransportEnds T}.

(** The connection that was used, as it is at the end. *)
Inductive Link := LinkServer (c : Conn) | LinkDirect (t : T) | NoLink.

Definition start_sync : M Conn bytes unit :=
  do! _ := on_err transport_error_text (send_host_request (B "sync:")) in
  on_err transport_error_text (on_conn read_status).

Definition select_sync (selector : M Conn TransportError unit) : M Conn bytes unit :=
  do! _ := on_err transport_error_text selector in start_sync.

Definition run_server {A} (m : M (Session Conn F) bytes A) (c : Conn) (d : F) : F * Link * res bytes A :=
  let '(s, x) := m (mk_session c d) in (disk s, LinkServer (net s), x).

Definition run_direct {A} (direct : res bytes T) (m : Z -> Z -> M (Session T F) bytes A) (d : F) : F * Link * res bytes A :=
  match direct with
  | Ok t =>
      let '(s, x) := (do! '(local_id, remote_id) := over (open_service (B "sync:") 1) in m local_id remote_id) (mk_session t d) in
      (disk s, LinkDirect (net s), x)
  | Err e => (d, NoLink, Err e)
  | Panic => (d, NoLink, Panic)
  end.

(** The server if there is one; the device itself only if there is none and the caller allows it. *)
Definition at_server {A} (serial : option bytes) (server_addr : bytes) (require_server : bool) (server : option Conn)
    (direct : res bytes T) (ms : M (Session Conn F) bytes A) (md : Z -> Z -> M (Session T F) bytes A) (d : F)
    : F * Link * res bytes A :=
  match server with
  | Some c => run_server (do! _ := over (select_sync (switch_transport serial)) in ms) c d
  | None =>
      if require_server
      then (d, NoLink, Err (B "ADB server " ++ server_addr ++ B " unavailable; refusing direct device fallback"))
      else run_direct direct md d
  end.

(** [list] and [stat]: the device itself also when the server does not select it. *)
Definition or_direct {A} (serial : option bytes) (server : option Conn) (direct : res bytes T)
    (ms : M (Session Conn F) bytes A) (md : Z -> Z -> M (Session T F) bytes A) (d : F) : F * Link * res bytes A :=
  match server with
  | Some c =>
      match switch_transport serial c with
      | (c, Ok _) => run_server (do! _ := over start_sync in ms) c d
      | (c, Err _) => run_direct direct md d
      | (c, Panic) => (d, LinkServer c, Panic)
      end
  | None => run_direct direct md d
  end.

Definition list_remote serial server direct (remote_path : bytes) : F -> F * Link * res bytes (list RemoteEntry) :=
  or_direct serial server direct (over (list_server_inner remote_path)) (fun l r => over (list_direct l r remote_path)).

Definition stat_remote serial server direct (remote_path : bytes) : F -> F * Link * res bytes FileStat :=
  or_direct serial server direct (over (stat_server remote_path)) (fun l r => over (stat_direct l r remote_path)).

(** [fuel] is the depth of the local directory. *)
Definition push_dir_at (fuel : nat) serial (local_dir remote_dir : bytes) (sync : bool) server_addr (require_server : bool)
    server direct (d : F) : F * Link * res bytes unit :=
  match build_local_file_list (T := unit) fuel local_dir remote_dir (mk_session tt d) with
  | (s, Ok files) =>
      match files, require_server with
      | [], false => (d, NoLink, Ok tt)
      | _, _ =>
          at_server serial server_addr require_server server direct
            (push_files_server files sync) (fun l r => push_files_direct l r files sync) d
      end
  | (s, Err e) => (d, NoLink, Err e)
  | (s, Panic) => (d, NoLink, Panic)
  end.

Definition push_at (fuel : nat) serial (local remote : bytes) (sync : bool) server_addr (require_server : bool)
    server direct (d : F) : F * Link * res bytes unit :=
  if fs_is_dir local d then push_dir_at fuel serial local remote sync server_addr require_server server direct d
  else at_server serial server_addr require_server server direct
         (push_file_server local remote sync) (fun l r => push_file_direct l r local remote sync) d.

Definition pull_at serial (remote local : bytes) (preserve : bool) server_addr (require_server : bool)
    server direct (d : F) : F * Link * res bytes unit :=
  at_server serial server_addr require_server server direct
    (pull_file_server remote local preserve) (fun l r => pull_file_direct l r remote local preserve) d.

(** The USB device that the server selects, or no device at all. *)
Definition usb_server {A} (server : res bytes Conn) (m : M (Session Conn F) bytes A) (d : F) : F * Link * res bytes A :=
  match server with
  | Ok c => run_server (do! _ := over (select_sync (switch_service (B "host:transport-usb"))) in m) c d
  | Err e => (d, NoLink, Err (B "-d requires an ADB server that can select a unique USB device: " ++ e))
  | Panic => (d, NoLink, Panic)
  end.

Definition push_usb_server (fuel : nat) server (local remote : bytes) (sync : bool) (d : F) : F * Link * res bytes unit :=
  usb_server server
    (if fs_is_dir local d then do! files := build_local_file_list fuel local remote in push_files_server files sync
     else push_file_server local remote sync) d.

Definition pull_usb_server server (remote local : bytes) (preserve : bool) (d : F) : F * Link * res bytes unit :=
  usb_server server (pull_file_server remote local preserve) d.

(** A directory: its files are listed over one connection and pulled over one each; [dial n] is the [n]-th
    connection, [fuel] the depth. *)
Fixpoint pull_all serial (server_addr : bytes) (dial : nat -> option Conn * res bytes T) (n : nat) (entries : list (bytes * bytes)) (d : F)
    : F * list Link * res bytes unit :=
  match entries with
  | [] => (d, [], Ok tt)
  | (local, remote) :: entries =>
      let '(d, link, x) := pull_at serial remote local false server_addr false (fst (dial n)) (snd (dial n)) d in
      match x with
      | Ok _ => let '(d, links, x) := pull_all serial server_addr dial (S n) entries d in (d, link :: links, x)
      | x => (d, [link], x)
      end
  end.

Definition pull_dir (fuel : nat) serial (server_addr remote_dir local_dir : bytes) (dial : nat -> option Conn * res bytes T) (d : F)
    : F * list Link * res bytes unit :=
  let '(d, link, entries) :=
    or_direct serial (fst (dial 0%nat)) (snd (dial 0%nat))
      (build_remote_file_list fuel list_server_inner remote_dir local_dir)
      (fun l r => build_remote_file_list fuel (list_direct_inner l r) remote_dir local_dir) d in
  match entries with
  | Ok entries =>
      let '(s, x) := for_each (fun '(local, _) => match parent local with Some dir => create_dir dir | None => ret tt end)
                       entries (mk_session tt d) in
      match x with
      | Ok _ => let '(d, links, x) := pull_all serial server_addr dial 1 entries (disk s) in (d, link :: links, x)
      | x => (disk s, [link], x)
      end
  | Err e => (d, [link], Err e)
  | Panic => (d, [link], Panic)
  end.
End Links.
