(* ===== verification/SyncClientEnds.v ===== *)
(** * The sync client returns

    Every operation of the client returns, whatever the device or the server sends: no loop runs out of
    what its peer still says, and no branch panics. *)
From S2P Require Import Prelude Text AdbHeader SyncWire Net AdbTransport Effects SyncClient.

Lemma decoders_total p :
  SyncMessageHeader.decode p <> Panic /\ SyncStatResponse.decode_v1_message p <> Panic /\ SyncDentResponse.decode p <> Panic.
Proof.
  destruct (@sync_decoders_no_panic stored p (SyncV2Decoder.Build_t CNone)) as (H1 & _ & H3 & _ & H5 & _). by split_and!.
Qed.

Lemma map_err_total {E G A} (f : E -> G) (r : res E A) : r <> Panic -> map_err f r <> Panic.
Proof. by destruct r. Qed.

(** ** Over a transport *)
Section Transport.
Context {T : Type} `{TransportEnds T}.

(** What is still to come does not grow. *)
Definition shrinks (t t' : T) : Prop := (t_left t' <= t_left t)%nat.
#[export] Instance shrinks_preorder : PreOrder shrinks.
Proof. split; [intros t|intros a b c]; unfold shrinks; lia. Qed.

Lemma t_recv_keeps : keeps shrinks t_recv.
Proof. intros t. unfold keeps_at, shrinks. pose proof (recv_left t) as Hr. destruct (t_recv t) as [t' [[h p]|e|]]; cbn; [split; [lia|done]..|done]. Qed.
Lemma t_send_keeps h p : keeps shrinks (t_send h p).
Proof. intros t. unfold keeps_at, shrinks. pose proof (send_left h p t) as Hr. by destruct (t_send h p t) as [t' [u|e|]]. Qed.
#[local] Hint Resolve t_recv_keeps t_send_keeps shrinks_preorder : keeps_db.

Lemma trecv_keeps : keeps shrinks trecv.
Proof. unfold trecv. auto with keeps_db. Qed.
Lemma tsend_keeps h p : keeps shrinks (tsend h p).
Proof. unfold tsend. auto with keeps_db. Qed.
#[local] Hint Resolve trecv_keeps tsend_keeps : keeps_db.
Lemma tsend_ignored_keeps h : keeps shrinks (tsend_ignored h).
Proof. unfold tsend_ignored. eauto with keeps_db. Qed.
#[local] Hint Resolve tsend_ignored_keeps : keeps_db.

Lemma trecv_less t t' h p : trecv t = (t', Ok (h, p)) -> (t_left t' < t_left t)%nat.
Proof.
  unfold trecv, on_err. pose proof (recv_left t) as Hr. destruct (t_recv t) as [t1 [[h1 p1]|e|]]; [|done|done].
  intros [= <- <- <-]. lia.
Qed.

(** A loop that receives a message and goes on with less to come. *)
Lemma recv_loop {E A} (f : bytes -> E) (k : AdbMessageHeader * bytes -> M T E A) t fuel :
  (t_left t < S fuel)%nat ->
  (forall m t1, (t_left t1 < fuel)%nat -> keeps_at shrinks (k m) t1) ->
  keeps_at shrinks (bind (on_err f trecv) k) t.
Proof.
  intros Hf Hk. apply keeps_at_bind; [apply _|apply keeps_on_err, trecv_keeps|].
  intros t1 [h p] E1 _. apply Hk. unfold on_err in E1. destruct (trecv t) as [t2 [[h2 p2]|e|]] eqn:E2; [|done|done].
  injection E1 as <- <- <-. apply trecv_less in E2. lia.
Qed.

Lemma on_err_id {A} (m : M T bytes A) t : on_err (fun e => e) m t = m t.
Proof. unfold on_err. by destruct (m t) as [t1 [a|e|]]. Qed.

Lemma recv_loop_id {A} (k : AdbMessageHeader * bytes -> M T bytes A) t fuel :
  (t_left t < S fuel)%nat ->
  (forall m t1, (t_left t1 < fuel)%nat -> keeps_at shrinks (k m) t1) ->
  keeps_at shrinks (bind trecv k) t.
Proof.
  intros Hf Hk. pose proof (recv_loop (fun e => e) k t fuel Hf Hk) as Hl. revert Hl.
  unfold keeps_at, bind. by rewrite on_err_id.
Qed.

(** After an acknowledgement that may fail the loop goes on. *)
Lemma ignored_then {A} h (k : M T bytes A) t fuel :
  (t_left t < fuel)%nat -> (forall t1, (t_left t1 < fuel)%nat -> keeps_at shrinks k t1) ->
  keeps_at shrinks (do! _ := tsend_ignored h in k) t.
Proof.
  intros Hf Hk. apply keeps_at_bind; [apply _|apply tsend_ignored_keeps|].
  intros t1 u _ Hs. apply Hk. unfold shrinks in Hs. lia.
Qed.

Lemma open_wait_keeps fuel dest l : forall t, (t_left t < fuel)%nat -> keeps_at shrinks (open_wait fuel dest l) t.
Proof.
  induction fuel as [|fuel IH]; intros t Hf; [lia|]. cbn [open_wait]. eapply recv_loop_id; [done|].
  intros [h p] t1 H1. destruct (_ =? _); [by apply keeps_ret, _|]. destruct (_ =? _); [by apply keeps_fail, _|by apply IH].
Qed.

Lemma open_service_keeps dest l : keeps shrinks (open_service dest l).
Proof. apply keeps_bind; [apply _|auto with keeps_db|]. intros u t. apply open_wait_keeps. lia. Qed.

Lemma wrte_wait_keeps fuel l : forall t, (t_left t < fuel)%nat -> keeps_at shrinks (wrte_wait fuel l) t.
Proof.
  induction fuel as [|fuel IH]; intros t Hf; [lia|]. cbn [wrte_wait]. eapply recv_loop_id; [done|].
  intros [h p] t1 H1. destruct (_ =? _); [by apply keeps_ret, _|]. destruct (_ =? _); [by eapply ignored_then|].
  destruct (_ =? _); [by apply keeps_fail, _|by apply IH].
Qed.

Lemma send_wrte_keeps l r p : keeps shrinks (send_wrte l r p).
Proof. apply keeps_bind; [apply _|auto with keeps_db|]. intros u t. apply wrte_wait_keeps. lia. Qed.

Lemma recv_wrte_keeps fuel l : forall acc t, (t_left t < fuel)%nat -> keeps_at shrinks (recv_wrte_go fuel l acc) t.
Proof.
  induction fuel as [|fuel IH]; intros acc t Hf; [lia|]. cbn [recv_wrte_go]. eapply recv_loop_id; [done|].
  intros [h p] t1 H1. destruct (_ =? _); [eapply ignored_then; eauto|].
  destruct (_ =? _); [eapply ignored_then; [done|]; intros; by apply keeps_ret, _|].
  destruct (_ =? _); [by apply IH|by apply keeps_ret, _].
Qed.

Lemma sync_answer_total p : sync_answer p <> Panic.
Proof.
  unfold sync_answer, prefixed. rewrite header_decode_eq. destruct (Z.ltb_spec (zlen p) 8); [done|]. cbn [map_err res_bind].
  destruct (_ =? _); [done|]. destruct (_ =? _); [|done]. rewrite get_slice_ok by lia. done.
Qed.

Lemma recv_sync_keeps fuel l : forall t, (t_left t < fuel)%nat -> keeps_at shrinks (recv_sync_go fuel l) t.
Proof.
  induction fuel as [|fuel IH]; intros t Hf; [lia|]. cbn [recv_sync_go]. eapply recv_loop; [done|].
  intros [h p] t1 H1. destruct (_ =? _); [by apply IH|]. destruct (_ =? _).
  { eapply ignored_then; [done|]. intros. apply keeps_lift; [apply _|apply sync_answer_total]. }
  destruct (_ =? _); [|by apply IH]. eapply ignored_then; [done|]. intros. by apply keeps_fail, _.
Qed.

Lemma recv_sync_response_keeps l : keeps shrinks (recv_sync_response l).
Proof. intros t. apply recv_sync_keeps. lia. Qed.

Lemma dent_entry_total p : dent_entry p <> Panic.
Proof.
  unfold dent_entry, prefixed. destruct (decoders_total p) as (_ & _ & Hd). by destruct (SyncDentResponse.decode p).
Qed.

Lemma list_direct_keeps fuel l : forall acc t, (t_left t < fuel)%nat -> keeps_at shrinks (list_direct_go fuel l acc) t.
Proof.
  induction fuel as [|fuel IH]; intros acc t Hf; [lia|]. cbn [list_direct_go]. eapply recv_loop_id; [done|].
  intros [h p] t1 H1. destruct (_ =? _); [by apply IH|]. destruct (_ =? _).
  - eapply ignored_then; [done|]. intros t2 H2. destruct (Z.ltb_spec (zlen p) 8); [by apply keeps_fail, _|].
    rewrite header_decode_eq, (proj2 (Z.ltb_ge _ _)) by done. cbn [prefixed map_err].
    rewrite get_slice_ok by lia. unfold bind at 1, lift at 1. unfold bind at 1, lift at 1. cbn [SyncMessageHeader.id].
    destruct (_ =? _); [|destruct (_ =? _); [by apply keeps_ret, _|destruct (_ =? _); by apply keeps_fail, _]].
    apply keeps_at_bind; [apply _|apply keeps_lift; [apply _|apply dent_entry_total]|]. intros t3 e [= <- _] _. by apply IH.
  - destruct (_ =? _); [|by apply IH]. eapply ignored_then; [done|]. intros. by apply keeps_ret, _.
Qed.
End Transport.

(** ** Reading answers

    A source of bytes whose peer says finitely much; [src_ok] is its invariant. *)
Class SourceEnds (R : Type) `{ByteSource R} := {
  src_ok : R -> Prop;
  src_left : R -> nat;
  src_read : forall n r, src_ok r ->
    match read_exact_from n r with
    | (r', Ok bs) => src_ok r' /\ (src_left r' <= src_left r)%nat /\ (0 < n -> (src_left r' < src_left r)%nat)
    | (r', Err _) => src_ok r' /\ (src_left r' <= src_left r)%nat
    | (_, Panic) => False
    end }.

Section Answers.
Context {R : Type} `{SourceEnds R}.

Definition drains (r r' : R) : Prop := (src_ok r -> src_ok r') /\ (src_ok r -> (src_left r' <= src_left r)%nat).
#[export] Instance drains_preorder : PreOrder drains.
Proof. split; [intros r; by split|]. intros a b c [H1 H2] [H3 H4]. split; [auto|]. intros Ha. specialize (H2 Ha). specialize (H4 (H1 Ha)). lia. Qed.

Lemma take_exact_keeps n r : src_ok r -> keeps_at drains (take_exact n) r.
Proof.
  intros Hr. unfold keeps_at, take_exact, on_err. pose proof (src_read n r Hr) as Hs.
  destruct (read_exact_from n r) as [r' [bs|e|]]; [| |done]; (split; [|done]); destruct Hs as (? & ? & ?) || destruct Hs as (? & ?); by split.
Qed.

Lemma take_exact_less n r r' bs : src_ok r -> 0 < n -> take_exact n r = (r', Ok bs) -> (src_left r' < src_left r)%nat.
Proof.
  intros Hr Hn. unfold take_exact, on_err. pose proof (src_read n r Hr) as Hs.
  destruct (read_exact_from n r) as [r1 [b|e|]]; [|done|done]. intros [= <- <-]. by apply Hs.
Qed.

(** One more read of the answer. *)
Lemma take_then {A} n (k : bytes -> M R bytes A) r :
  src_ok r -> (forall bs r', src_ok r' -> (0 < n -> (src_left r' < src_left r)%nat) -> keeps_at drains (k bs) r') ->
  keeps_at drains (bind (take_exact n) k) r.
Proof.
  intros Hr Hk. apply keeps_at_bind; [apply _|by apply take_exact_keeps|]. intros r1 bs E [Ho _].
  apply Hk; [auto|]. intros Hn. by eapply take_exact_less.
Qed.

Lemma lift_then {A C} (x : res bytes A) (k : A -> M R bytes C) r :
  x <> Panic -> (forall a, keeps_at drains (k a) r) -> keeps_at drains (bind (lift x) k) r.
Proof. intros Hx Hk. apply keeps_at_bind; [apply _|by apply keeps_lift; [apply _|]|]. intros r1 a [= <- _] _. apply Hk. Qed.

Lemma read_stat_response_keeps r : src_ok r -> keeps_at drains read_stat_response r.
Proof.
  intros Hr. unfold read_stat_response. apply take_then; [done|]. intros w r1 Hr1 _. destruct (_ =? _).
  - apply take_then; [done|]. intros l r2 Hr2 _. destruct (_ <? _); [by apply keeps_fail, _|].
    apply take_then; [done|]. intros. by apply keeps_fail, _.
  - destruct (negb _); [by apply keeps_fail, _|]. apply take_then; [done|]. intros f r2 Hr2 _.
    apply lift_then; [apply map_err_total, decoders_total|]. intros st. destruct (negb _); [by apply keeps_fail, _|by apply keeps_ret, _].
Qed.

(** The ids that [read_pull_response] lets through. *)
Definition pull_id (id : Z) : Prop := id = SYNC_DATA \/ id = SYNC_FAIL \/ id = SYNC_DONE \/ id = SYNC_OKAY.

Lemma read_pull_response_spec r :
  src_ok r -> match read_pull_response r with
              | (r', Ok (h, _)) => src_ok r' /\ (src_left r' < src_left r)%nat /\ pull_id (SyncMessageHeader.id h)
              | (r', Err _) => src_ok r' /\ (src_left r' <= src_left r)%nat
              | (_, Panic) => False
              end.
Proof.
  intros Hr. unfold read_pull_response, bind at 1. pose proof (take_exact_less 8 r) as Hl. destruct (take_exact_keeps 8 r Hr) as [[H1 H2] H3].
  destruct (take_exact 8 r) as [r1 [w|e|]]; [|by split; auto|done]. specialize (Hl r1 w Hr ltac:(lia) eq_refl). cbn in H1. specialize (H1 Hr).
  unfold bind at 1, lift. destruct (decoders_total w) as (Hd & _). destruct (SyncMessageHeader.decode w) as [h|e|]; [|cbn; split; [done|lia]|done].
  cbn [map_err]. unfold pull_id. destruct (Z.eqb_spec (SyncMessageHeader.id h) SYNC_DATA) as [E1|E1];
    [|destruct (Z.eqb_spec (SyncMessageHeader.id h) SYNC_FAIL) as [E2|E2]]; cbn [orb].
  1,2: destruct (_ <? _); [cbn; split; [done|lia]|]; unfold bind at 1;
    destruct (take_exact_keeps (SyncMessageHeader.length h) r1 H1) as [[H4 H5] H6];
    destruct (take_exact _ r1) as [r2 [p|e|]]; [|cbn in *; specialize (H5 H1); split; [auto|lia]|done];
    cbn in *; specialize (H5 H1); split_and!; [auto|lia|auto].
  destruct (Z.eqb_spec (SyncMessageHeader.id h) SYNC_DONE) as [E3|E3]; [|destruct (Z.eqb_spec (SyncMessageHeader.id h) SYNC_OKAY) as [E4|E4]];
    cbn [orb andb]; [destruct (_ =? 0)..|]; cbn; split_and!; (auto || lia).
Qed.

Lemma pull_data_keeps fuel : forall acc r, src_ok r -> (src_left r < fuel)%nat -> keeps_at drains (pull_data fuel acc) r.
Proof.
  induction fuel as [|fuel IH]; intros acc r Hr Hf; [lia|]. cbn [pull_data]. pose proof (read_pull_response_spec r Hr) as Hs.
  unfold keeps_at, bind. destruct (read_pull_response r) as [r1 [[h p]|e|]]; [| |done].
  - destruct Hs as (Hr1 & Hl & Hid). fold (keeps_at drains (E := bytes) (A := bytes)).
    assert (drains r r1) as Hd by (split; [done|intros _; lia]).
    destruct (Z.eqb_spec (SyncMessageHeader.id h) SYNC_DATA) as [E1|E1].
    { destruct (IH (acc ++ p) r1 Hr1 ltac:(lia)) as [H1 H2]. split; [by transitivity r1|done]. }
    destruct Hid as [?|[->|[->| ->]]]; [done|by split..].
  - destruct Hs as [? ?]. by split.
Qed.
End Answers.

(** *** The server's connection *)
#[export] Instance conn_ends : SourceEnds Conn.
Proof.
  refine {| src_ok _ := True; src_left c := script_size (incoming c) |}. intros n c _. cbn [read_exact_from conn_source].
  pose proof (read_exact_size (incoming c) n) as H1. pose proof (read_exact_progress (incoming c) n) as H2.
  destruct (read_exact n (incoming c)) as [q [bs|e|]]; cbn; [|by split|done]. split_and!; auto.
Defined.

(** *** The reader of a direct channel *)
Section Direct.
Context {T : Type} `{TransportEnds T}.
Implicit Types r : DirectSyncReader T.

Definition reader_ok r : Prop := 0 <= position r <= zlen (pending r).
Definition reader_left r : nat := (t_left (rd_transport r) + (length (pending r) - Z.to_nat (position r)))%nat.

Definition no_more r r' : Prop :=
  (reader_left r' <= reader_left r)%nat /\ (t_left (rd_transport r') <= t_left (rd_transport r))%nat.

(** [m] does not panic; its errors leave no more than [base] has and are not interruptions. *)
Definition reads_on {A} (base : DirectSyncReader T) (m : M (DirectSyncReader T) io_error A)
    (post : A -> DirectSyncReader T -> Prop) r : Prop :=
  match m r with
  | (r', Ok a) => reader_ok r' /\ post a r'
  | (r', Err e) => reader_ok r' /\ no_more base r' /\ io_kind e <> Interrupted
  | (_, Panic) => False
  end.

Lemma reads_bind {A C} base (m : M (DirectSyncReader T) io_error A) (k : A -> M (DirectSyncReader T) io_error C) post1 post r :
  reads_on base m post1 r -> (forall a r1, reader_ok r1 -> post1 a r1 -> reads_on base (k a) post r1) -> reads_on base (bind m k) post r.
Proof.
  unfold reads_on, bind. intros Hm Hk. destruct (m r) as [r1 [a|e|]]; [|done|done]. destruct Hm as [Hr1 H1]. by apply Hk.
Qed.

Lemma reads_ret {A} base (a : A) (post : A -> _) r : reader_ok r -> post a r -> reads_on base (ret a) post r.
Proof. by split. Qed.
Lemma reads_fail {A} base (e : io_error) (post : A -> _) r :
  reader_ok r -> no_more base r -> io_kind e <> Interrupted -> reads_on base (fail e) post r.
Proof. intros. by split_and!. Qed.

Lemma set_transport_left t r : (t_left t <= t_left (rd_transport r))%nat -> no_more r (set_rd_transport t r).
Proof. intros Ht. unfold no_more, reader_left. cbn. lia. Qed.

Lemma no_more_trans a b c : no_more a b -> no_more b c -> no_more a c.
Proof. unfold no_more. lia. Qed.

Lemma rd_recv_spec base r :
  reader_ok r -> no_more base r ->
  reads_on base (rd_do t_recv) (fun '(_, p) r' => (t_left (rd_transport r') < t_left (rd_transport r))%nat /\
    (reader_left r' + length p < reader_left r)%nat) r.
Proof.
  intros Hr Hb. unfold reads_on, rd_do. pose proof (recv_left (rd_transport r)) as Hl.
  destruct (t_recv (rd_transport r)) as [t [[h p]|e|]]; [| |done]; cbn [map_err].
  - split; [done|]. unfold reader_left. cbn. lia.
  - split_and!; [done| |done]. eapply no_more_trans; [done|by apply set_transport_left].
Qed.

Lemma rd_send_spec base h p r :
  reader_ok r -> no_more base r -> reads_on base (rd_do (t_send h p)) (fun _ r' => no_more r r') r.
Proof.
  intros Hr Hb. unfold reads_on, rd_do. pose proof (send_left h p (rd_transport r)) as Hl.
  destruct (t_send h p (rd_transport r)) as [t [u|e|]]; [| |done]; cbn [map_err].
  - split; [done|]. by apply set_transport_left.
  - split_and!; [done| |done]. eapply no_more_trans; [done|by apply set_transport_left].
Qed.

Lemma keep_payload_spec base p r :
  reader_ok r -> no_more base r ->
  reads_on base (keep_payload p) (fun _ r' => t_left (rd_transport r') = t_left (rd_transport r) /\
    (reader_left r' <= reader_left r + length p)%nat) r.
Proof.
  intros Hr [Hb1 Hb2]. pose proof (zlen_nonneg p). unfold reads_on, keep_payload, no_more, reader_ok, reader_left in *.
  destruct (Z.eqb_spec (position r) (zlen (pending r))) as [E|E];
    destruct (_ <? _); cbn -[Nat.sub]; rewrite ?zlen_nil, ?length_app, ?zlen_app; split_and!; (done || lia).
Qed.

Definition received r (_ : Z) r' : Prop :=
  (reader_left r' < reader_left r)%nat /\ (t_left (rd_transport r') < t_left (rd_transport r))%nat.

Lemma receive_spec r : reader_ok r -> reads_on r receive (received r) r.
Proof.
  intros Hr. change (reads_on r (fun r => receive r) (received r) r). unfold receive.
  assert (no_more r r) as Hrr by (unfold no_more; lia).
  refine (reads_bind r _ _ _ (received r) r (rd_recv_spec r r Hr Hrr) _). intros [h p] r1 Hr1 [Ht1 Hl1].
  assert (no_more r r1) as Hn1 by (unfold no_more; lia).
  destruct (negb _); [by apply reads_fail|]. destruct (_ =? A_WRTE); [|destruct (_ =? A_OKAY); [|destruct (_ =? A_CLSE)]].
  - eapply reads_bind; [by apply rd_send_spec|]. intros _ r2 Hr2 [Hl2 Ht2].
    eapply reads_bind; [apply keep_payload_spec; [done|unfold no_more; lia]|]. intros _ r3 Hr3 [Ht3 Hl3].
    apply reads_ret; [done|]. unfold received. lia.
  - apply reads_ret; [done|]. unfold received. lia.
  - eapply reads_bind; [by apply rd_send_spec|]. intros _ r2 Hr2 [Hl2 Ht2]. apply reads_fail; [done|unfold no_more in *; lia|done].
  - by apply reads_fail.
Qed.

Lemma request_wait_spec base fuel : forall r,
  reader_ok r -> no_more base r -> (t_left (rd_transport r) < fuel)%nat -> reads_on base (request_wait fuel) (fun _ r' => no_more base r') r.
Proof.
  induction fuel as [|fuel IH]; intros r Hr Hb Hf; [lia|]. cbn [request_wait].
  pose proof (receive_spec r Hr) as H1. unfold reads_on, bind in *. destruct (receive r) as [r1 [c|e|]]; [| |done].
  - destruct H1 as [Hr1 [Hl Ht]]. assert (no_more base r1) as Hb1 by (unfold no_more in *; lia). destruct (c =? A_OKAY); [by split|].
    apply IH; [done|done|lia].
  - destruct H1 as (? & ? & ?). split; [done|split; [by eapply no_more_trans|done]].
Qed.

Lemma send_request_spec base req r :
  reader_ok r -> no_more base r -> reads_on base (send_request req) (fun _ r' => no_more base r') r.
Proof.
  intros Hr Hb. change (reads_on base (fun r => send_request req r) (fun _ r' => no_more base r') r). unfold send_request.
  refine (reads_bind base _ _ _ (fun _ r' => no_more base r') r (rd_send_spec base _ _ r Hr Hb) _). intros _ r1 Hr1 Hn.
  apply request_wait_spec; [done|by eapply no_more_trans|lia].
Qed.

Lemma refill_spec base fuel : forall r,
  reader_ok r -> no_more base r -> (t_left (rd_transport r) < fuel)%nat ->
  reads_on base (refill fuel) (fun _ r' => no_more base r' /\ position r' < zlen (pending r')) r.
Proof.
  induction fuel as [|fuel IH]; intros r Hr Hb Hf; [lia|]. unfold reads_on. cbn [refill].
  destruct (Z.eqb_spec (position r) (zlen (pending r))) as [E|E]; cbn [negb].
  - pose proof (receive_spec r Hr) as H1. unfold reads_on, bind in *. destruct (receive r) as [r1 [c|e|]]; [| |done].
    + destruct H1 as [Hr1 [Hl Ht]]. apply IH; [done| |lia]. unfold no_more in *; lia.
    + destruct H1 as (? & ? & ?). split; [done|split; [by eapply no_more_trans|done]].
  - unfold reader_ok in Hr. split; [done|split; [done|lia]].
Qed.

Lemma no_more_refl r : no_more r r.
Proof. unfold no_more. lia. Qed.

Lemma direct_read_spec len r :
  0 < len -> reader_ok r ->
  reads_on r (direct_read len) (fun bs r' => 0 < zlen bs <= len /\ (reader_left r' < reader_left r)%nat /\ no_more r r') r.
Proof.
  intros Hlen Hr. unfold direct_read. rewrite (proj2 (Z.eqb_neq len 0)) by lia.
  eapply reads_bind; [exact (refill_spec r (S (t_left (rd_transport r))) r Hr (no_more_refl r) ltac:(lia))|].
  intros _ r1 Hr1 [[Hn1 Hn2] Hp]. unfold reads_on, reader_ok, no_more in *. rewrite get_slice_ok by lia. rewrite zlen_slice by lia.
  unfold reader_left in *. cbn. unfold zlen in *. lia.
Qed.

Lemma direct_read_exact_spec fuel : forall n acc r,
  (Z.to_nat n <= fuel)%nat -> reader_ok r ->
  reads_on r (direct_read_exact fuel n acc) (fun _ r' => no_more r r' /\ (0 < n -> (reader_left r' < reader_left r)%nat)) r.
Proof.
  induction fuel as [|fuel IH]; intros n acc r Hf Hr; unfold reads_on; cbn [direct_read_exact];
    destruct (Z.leb_spec n 0) as [Hn|Hn]; try lia; try (split; [done|split; [apply no_more_refl|lia]]).
  pose proof (direct_read_spec n r Hn Hr) as H1. unfold reads_on, bind, attempt in *.
  destruct (direct_read n r) as [r1 [bs|e|]]; [| |done].
  - destruct H1 as (Hr1 & [Hb1 Hb2] & Hl & Hn1). destruct bs as [|b bs]; [by apply Z.lt_irrefl in Hb1|].
    pose proof (IH (n - zlen (b :: bs)) (acc ++ b :: bs) r1 ltac:(lia) Hr1) as H2. unfold reads_on in H2.
    destruct (direct_read_exact fuel _ _ r1) as [r2 [x|e|]]; [| |done].
    + destruct H2 as (Hr2 & Hn2 & _). split; [done|split; [by eapply no_more_trans|]]. unfold no_more in Hn2. lia.
    + destruct H2 as (Hr2 & Hn2 & Hk). split; [done|split; [by eapply no_more_trans|done]].
  - destruct H1 as (Hr1 & Hn1 & Hk). rewrite bool_decide_eq_false_2 by done. by split.
Qed.

#[export] Instance direct_ends : SourceEnds (DirectSyncReader T).
Proof.
  refine {| src_ok := reader_ok; src_left := reader_left |}. intros n r Hr. cbn [read_exact_from direct_source].
  pose proof (direct_read_exact_spec (Z.to_nat n) n [] r ltac:(lia) Hr) as Hs. unfold reads_on, no_more in Hs.
  destruct (direct_read_exact _ n [] r) as [r' [bs|e|]]; [| |done]; naive_solver.
Defined.

Lemma send_request_keeps req r : reader_ok r -> keeps_at drains (on_err io_msg (send_request req)) r.
Proof.
  intros Hr. pose proof (send_request_spec r req r Hr (no_more_refl r)) as Hs. unfold keeps_at, on_err, drains, reads_on, no_more in *.
  cbn [src_ok src_left direct_ends]. destruct (send_request req r) as [r' [u|e|]]; cbn; [naive_solver..|done].
Qed.

Lemma build_path_total id p out : build_path_req id p out <> Panic.
Proof. unfold build_path_req, validate_path, try_u32. by repeat case_match. Qed.

Lemma stat_on_direct_channel_keeps path r : reader_ok r -> keeps_at drains (stat_on_direct_channel path) r.
Proof.
  intros Hr. unfold stat_on_direct_channel. apply lift_then; [apply map_err_total, build_path_total|]. intros req.
  apply keeps_at_bind; [apply _|by apply send_request_keeps|]. intros r1 u _ [Hd _]. apply read_stat_response_keeps. by apply Hd.
Qed.

(** A reader is as far as its transport. *)
Lemma with_reader_keeps {A} l ri (m : M (DirectSyncReader T) bytes A) :
  (forall r, reader_ok r -> keeps_at drains m r) -> keeps shrinks (with_reader l ri m).
Proof.
  intros Hm t. destruct (Hm (reader_new l ri t)) as [[H1 H2] H3]; [done|]. unfold keeps_at, with_reader.
  destruct (m (reader_new l ri t)) as [r x]. split; [|done]. unfold shrinks. cbn in H1, H2 |- *.
  specialize (H2 ltac:(done)). unfold reader_left in H2. cbn in H2. lia.
Qed.
End Direct.

(** ** Transfers *)
Section Sessions.
Context {F : Type} `{FileSystem F} {T : Type} `{TransportEnds T}.

Definition settles (s s' : Session T F) : Prop := shrinks (net s) (net s').
#[export] Instance settles_preorder : PreOrder settles.
Proof. split; [intros s|intros a b c]; unfold settles; [done|apply transitivity]. Qed.

Lemma over_keeps {A} (m : M T bytes A) : keeps shrinks m -> keeps settles (over (F := F) m).
Proof. intros Hm s. unfold keeps_at, settles, over. destruct (Hm (net s)) as [Hx Hy]. by destruct (m (net s)). Qed.

Lemma local_read_keeps {A} pre (f : F -> io_error + A) : keeps settles (local_read pre f).
Proof. intros s. split; [done|]. unfold local_read, io_result. cbn. by destruct (f (disk s)). Qed.
Lemma local_do_keeps pre (f : F -> F * (io_error + unit)) : keeps settles (local_do pre f).
Proof. intros s. unfold keeps_at, local_do, settles, io_result. destruct (f (disk s)) as [d [e|u]]; by split. Qed.
#[local] Hint Resolve over_keeps local_read_keeps local_do_keeps settles_preorder : keeps_db.

Lemma lift_keeps {A} (r : res bytes A) : r <> Panic -> keeps settles (lift (S := Session T F) r).
Proof. apply keeps_lift, _. Qed.

Lemma create_dir_keeps dir : keeps settles (create_dir (F := F) (T := T) dir).
Proof. unfold create_dir. auto with keeps_db. Qed.
#[local] Hint Resolve create_dir_keeps : keeps_db.

Lemma set_time_and_mode_keeps p t mo : keeps settles (set_time_and_mode (F := F) (T := T) p t mo).
Proof.
  unfold set_time_and_mode. apply keeps_bind; [apply _|apply lift_keeps; by case_match|]. intros _. eauto with keeps_db.
Qed.

Lemma store_file_keeps l d a : keeps settles (store_file (F := F) (T := T) l d a).
Proof.
  unfold store_file. apply keeps_bind; [apply _|case_match; auto with keeps_db|]. intros _.
  apply keeps_bind; [apply _|auto with keeps_db|]. intros _. case_match; [apply set_time_and_mode_keeps|auto with keeps_db].
Qed.

Lemma local_mtime_keeps p : keeps settles (local_mtime_secs (F := F) (T := T) p).
Proof. unfold local_mtime_secs. eauto with keeps_db. Qed.
#[local] Hint Resolve store_file_keeps local_mtime_keeps : keeps_db.

Lemma push_target_total l r st : push_target l r st <> Panic.
Proof. unfold push_target, local_push_basename, resolve_remote_file_target. repeat case_match; try done; by destruct (file_name l). Qed.

Lemma send_req_total r mo out : build_sync_send_req r mo out <> Panic.
Proof. unfold build_sync_send_req, validate_path, try_u32. by repeat case_match. Qed.
Lemma data_chunk_total d out : build_sync_data_chunk d out <> Panic.
Proof. unfold build_sync_data_chunk, try_u32. by repeat case_match. Qed.

Section Push.
Context (stat : bytes -> M T bytes FileStat) (send : bytes -> M T bytes unit).
Hypothesis stat_keeps : forall p, keeps shrinks (stat p).
Hypothesis send_keeps : forall b, keeps shrinks (send b).

Lemma send_file_keeps r d t : keeps shrinks (send_file send r d t).
Proof.
  assert (forall A (x : res bytes A), x <> Panic -> keeps shrinks (lift (S := T) x)) as Hl by (intros; by apply keeps_lift; [apply _|]).
  unfold send_file, prefixed. apply keeps_bind; [apply _|apply Hl, map_err_total, send_req_total|]. intros b.
  apply keeps_bind; [apply _|done|]. intros _. apply keeps_bind; [apply _| |].
  - apply keeps_for_each; [apply _|]. intros x. apply keeps_bind; [apply _|apply Hl, map_err_total, data_chunk_total|done].
  - intros _. by apply keeps_bind; [apply _|apply Hl|].
Qed.

Lemma skip_file_keeps sync r t : keeps settles (skip_file (F := F) sync stat r t).
Proof.
  unfold skip_file. destruct sync; [|auto with keeps_db]. apply keeps_bind; [apply _|auto with keeps_db|]. intros st. auto with keeps_db.
Qed.

Lemma push_file_keeps finish local remote sync :
  keeps shrinks finish -> keeps settles (push_file (F := F) stat send finish local remote sync).
Proof.
  intros Hf. unfold push_file. apply keeps_bind; [apply _|auto with keeps_db|]. intros st.
  apply keeps_bind; [apply _|apply lift_keeps, push_target_total|]. intros target.
  apply keeps_bind; [apply _|auto with keeps_db|]. intros mtime. apply keeps_bind; [apply _|apply skip_file_keeps|]. intros [].
  { auto with keeps_db. }
  apply keeps_bind; [apply _|auto with keeps_db|]. intros d. apply keeps_bind; [apply _|apply over_keeps, send_file_keeps|]. auto with keeps_db.
Qed.
End Push.
End Sessions.

(** *** Through the server *)
Section Server.
Context {F : Type} `{FileSystem F}.

Lemma conn_ok (c : Conn) : src_ok c.
Proof. exact Logic.I. Qed.

Lemma drains_conn {A} (m : M Conn bytes A) : (forall c, keeps_at drains m c) -> keeps shrinks m.
Proof. intros Hm c. destruct (Hm c) as [[_ Hl] Hp]. split; [|done]. by apply Hl. Qed.

Lemma write_raw_keeps d : keeps shrinks (write_raw_sync d).
Proof.
  intros c. unfold keeps_at, shrinks, write_raw_sync, on_err, write_all, write. by destruct (wfail c).
Qed.

Lemma conn_lift_keeps {A} (r : res bytes A) : r <> Panic -> keeps shrinks (lift (S := Conn) r).
Proof. apply keeps_lift, _. Qed.

Lemma stat_server_keeps p : keeps shrinks (stat_server p).
Proof.
  unfold stat_server, prefixed. apply keeps_bind; [apply _|apply conn_lift_keeps, map_err_total, build_path_total|]. intros req.
  apply keeps_bind; [apply _|apply write_raw_keeps|]. intros _. apply drains_conn. intros c. by apply read_stat_response_keeps.
Qed.

Lemma read_raw_spec c :
  keeps_at shrinks read_raw_sync c /\
  forall c' x, read_raw_sync c = (c', Ok x) -> (script_size (incoming c') < script_size (incoming c))%nat.
Proof.
  unfold read_raw_sync, keeps_at, bind, prefixed, lift.
  destruct (take_exact_keeps 8 c (conn_ok c)) as [[_ Hx] Hy]. pose proof (take_exact_less 8 c) as Hl.
  destruct (take_exact 8 c) as [c1 [w|e|]]; [|split; [by split; [apply Hx, conn_ok|]|done]|done]. specialize (Hl c1 w (conn_ok c) ltac:(lia) eq_refl). clear Hx Hy.
  cbn [src_left conn_ends] in Hl. destruct (decoders_total w) as (Hd & _).
  destruct (SyncMessageHeader.decode w) as [h|e|]; [|cbn; split; [split; [unfold shrinks; cbn; lia|done]|done]|done]. cbn [map_err].
  assert (match (if 0 <? SyncMessageHeader.length h then take_exact (SyncMessageHeader.length h) else ret []) c1 with
          | (c2, Panic) => False | (c2, _) => (script_size (incoming c2) <= script_size (incoming c1))%nat end) as Hp.
  { destruct (0 <? _); [|cbn; lia]. destruct (take_exact_keeps (SyncMessageHeader.length h) c1 (conn_ok c1)) as [[_ Hx] Hy].
    specialize (Hx (conn_ok c1)). by destruct (take_exact _ c1) as [c2 [p|e|]]. }
  destruct ((if 0 <? SyncMessageHeader.length h then take_exact (SyncMessageHeader.length h) else ret []) c1) as [c2 [p|e|]]; [| |done]; cbn; unfold shrinks; cbn.
  - split; [split; [lia|done]|]. intros c' x [= <- _]. lia.
  - split; [split; [lia|done]|done].
Qed.

Lemma final_answer_keeps text : keeps shrinks (final_answer text).
Proof.
  intros c. unfold final_answer. apply keeps_at_bind; [apply _|apply read_raw_spec|]. intros c1 [h p] _ _.
  repeat case_match; (by apply keeps_fail, _) || by apply keeps_ret, _.
Qed.

Lemma list_server_keeps fuel : forall acc c, (script_size (incoming c) < fuel)%nat -> keeps_at shrinks (list_server_go fuel acc) c.
Proof.
  induction fuel as [|fuel IH]; intros acc c Hf; [lia|]. cbn [list_server_go]. destruct (read_raw_spec c) as [Hk Hl].
  apply keeps_at_bind; [apply _|done|]. intros c1 [h p] E _. apply Hl in E.
  destruct (_ =? _); [|destruct (_ =? _); [by apply keeps_ret, _|destruct (_ =? _); by apply keeps_fail, _]].
  apply keeps_at_bind; [apply _|apply conn_lift_keeps, dent_entry_total|]. intros c2 e [= <- _] _. apply IH. lia.
Qed.

Lemma list_server_inner_keeps p : keeps shrinks (list_server_inner p).
Proof.
  unfold list_server_inner, prefixed. apply keeps_bind; [apply _|apply conn_lift_keeps, map_err_total, build_path_total|]. intros req.
  apply keeps_bind; [apply _|apply write_raw_keeps|]. intros _ c. apply list_server_keeps. lia.
Qed.

(** A list is at least one message. *)
Lemma list_server_go_less fuel : forall acc c c' es,
  list_server_go fuel acc c = (c', Ok es) -> (script_size (incoming c') < script_size (incoming c))%nat.
Proof.
  induction fuel as [|fuel IH]; intros acc c c' es E; [done|]. cbn [list_server_go] in E. destruct (read_raw_spec c) as [_ Hl].
  unfold bind at 1 in E. destruct (read_raw_sync c) as [c1 [[h p]|e|]] eqn:E1; [|done|done]. specialize (Hl _ _ eq_refl).
  destruct (_ =? _); [|destruct (_ =? _); [by injection E as <- _|by destruct (_ =? _)]].
  unfold bind, lift in E. destruct (dent_entry p) as [e|e|]; [|done|done]. apply IH in E. lia.
Qed.

Lemma list_server_inner_less p c c' es : list_server_inner p c = (c', Ok es) -> (t_left c' < t_left c)%nat.
Proof.
  unfold list_server_inner, bind, lift. destruct (prefixed _ _ _) as [req|e|]; [|done|done].
  destruct (write_raw_keeps req c) as [Hw _]. destruct (write_raw_sync req c) as [c1 [u|e|]]; [|done|done].
  intros E. apply list_server_go_less in E. unfold shrinks in Hw. cbn in *. lia.
Qed.

Lemma push_file_server_keeps local remote sync : keeps settles (push_file_server (F := F) local remote sync).
Proof. apply push_file_keeps; [apply stat_server_keeps|apply write_raw_keeps|apply final_answer_keeps]. Qed.

Lemma push_file_server_inner_keeps local remote sync : keeps settles (push_file_server_inner (F := F) local remote sync).
Proof.
  unfold push_file_server_inner. apply keeps_bind; [apply _|apply local_mtime_keeps|]. intros mt.
  apply keeps_bind; [apply _|apply skip_file_keeps, stat_server_keeps|]. intros []; [apply keeps_ret, _|].
  apply keeps_bind; [apply _|apply local_read_keeps|]. intros d.
  apply keeps_bind; [apply _|apply over_keeps, send_file_keeps, write_raw_keeps|]. intros _. apply over_keeps, final_answer_keeps.
Qed.

Lemma push_files_server_keeps files sync : keeps settles (push_files_server (F := F) files sync).
Proof. apply keeps_for_each; [apply _|]. intros [l r]. apply push_file_server_inner_keeps. Qed.

Lemma pull_file_server_keeps remote local preserve : keeps settles (pull_file_server (F := F) remote local preserve).
Proof.
  unfold pull_file_server, prefixed. apply keeps_bind; [apply _| |].
  { destruct preserve; [|apply keeps_ret, _]. apply keeps_bind; [apply _|apply over_keeps, stat_server_keeps|]. intros. apply keeps_ret, _. }
  intros attrs. apply keeps_bind; [apply _|apply lift_keeps, map_err_total, build_path_total|]. intros req.
  apply keeps_bind; [apply _|apply over_keeps, write_raw_keeps|]. intros _.
  apply keeps_bind; [apply _| |intros d; apply store_file_keeps].
  apply over_keeps, drains_conn. intros c. apply pull_data_keeps; [done|cbn; lia].
Qed.
End Server.

(** *** Directly *)
Section DirectSessions.
Context {F : Type} `{FileSystem F} {T : Type} `{TransportEnds T}.

Lemma stat_direct_inner_keeps l r p : keeps shrinks (stat_direct_inner (T := T) l r p).
Proof. apply with_reader_keeps. apply stat_on_direct_channel_keeps. Qed.

Lemma stat_direct_keeps l r p : keeps shrinks (stat_direct (T := T) l r p).
Proof.
  unfold stat_direct. apply keeps_bind; [apply _|apply stat_direct_inner_keeps|]. intros st.
  apply keeps_bind; [apply _|apply tsend_keeps|]. intros _. apply keeps_bind; [apply _|apply trecv_keeps|]. intros [h b].
  case_match; [apply keeps_fail, _|apply keeps_ret, _].
Qed.

Lemma list_direct_inner_keeps l r p : keeps shrinks (list_direct_inner (T := T) l r p).
Proof.
  unfold list_direct_inner, prefixed. apply keeps_bind; [apply _|apply keeps_lift; [apply _|apply map_err_total, build_path_total]|]. intros req.
  apply keeps_bind; [apply _|apply send_wrte_keeps|]. intros _ t. apply list_direct_keeps. lia.
Qed.

Lemma list_direct_go_less l : forall fuel acc t t' es,
  list_direct_go (T := T) fuel l acc t = (t', Ok es) -> (t_left t' < t_left t)%nat.
Proof.
  induction fuel as [|fuel IH]; intros acc t t' es E; [done|]. cbn [list_direct_go] in E. unfold bind at 1 in E.
  destruct (trecv t) as [t1 [[h p]|e|]] eqn:E1; [|done|done]. apply trecv_less in E1.
  destruct (_ =? _); [apply IH in E; lia|]. destruct (_ =? _); [|destruct (_ =? _); [|apply IH in E; lia]].
  - destruct (tsend_ignored_keeps (Header.new A_OKAY l (arg0 h) []) t1) as [Hs _]. unfold shrinks in Hs. unfold bind at 1 in E.
    destruct (tsend_ignored _ t1) as [t2 [u|e|]]; [|done|done]. cbn [fst] in Hs. destruct (_ <? _); [done|].
    unfold bind, lift in E. destruct (prefixed _ _ _) as [sh|e|]; [|done|done]. destruct (get_slice p 8 (zlen p)) as [body|e|]; [|done|done].
    destruct (_ =? _); [|destruct (_ =? _); [injection E as <- _; lia|by destruct (_ =? _)]].
    destruct (dent_entry body) as [x|e|]; [|done|done]. apply IH in E. lia.
  - destruct (tsend_ignored_keeps (Header.new A_CLSE l (arg0 h) []) t1) as [Hs _]. unfold shrinks in Hs. unfold bind at 1 in E.
    destruct (tsend_ignored _ t1) as [t2 [u|e|]]; [|done|done]. injection E as <- _. cbn [fst] in Hs. lia.
Qed.

Lemma list_direct_inner_less l r p t t' es : list_direct_inner (T := T) l r p t = (t', Ok es) -> (t_left t' < t_left t)%nat.
Proof.
  unfold list_direct_inner. unfold bind at 1. unfold lift. destruct (prefixed _ _ _) as [req|e|]; [|done|done].
  destruct (send_wrte_keeps l r req t) as [Hw _]. unfold bind at 1. destruct (send_wrte l r req t) as [t1 [u|e|]]; [|done|done].
  intros E. apply list_direct_go_less in E. unfold shrinks in Hw. cbn [fst] in Hw. lia.
Qed.

Lemma close_channel_keeps l r : keeps shrinks (close_channel (T := T) l r).
Proof.
  unfold close_channel. apply keeps_bind; [apply _|apply tsend_keeps|]. intros _.
  apply keeps_bind; [apply _|apply keeps_attempt, trecv_keeps|]. intros _. apply keeps_ret, _.
Qed.

Lemma list_direct_op_keeps l r p : keeps shrinks (list_direct (T := T) l r p).
Proof.
  unfold list_direct. apply keeps_bind; [apply _|apply list_direct_inner_keeps|]. intros es.
  apply keeps_bind; [apply _|apply close_channel_keeps|]. intros _. apply keeps_ret, _.
Qed.

Lemma push_file_direct_keeps l r local remote sync : keeps settles (push_file_direct (F := F) (T := T) l r local remote sync).
Proof. apply push_file_keeps; [apply stat_direct_inner_keeps|apply send_wrte_keeps|apply recv_sync_response_keeps]. Qed.

Lemma push_files_direct_keeps l r files sync : keeps settles (push_files_direct (F := F) (T := T) l r files sync).
Proof.
  unfold push_files_direct. apply keeps_bind; [apply _| |intros _; apply over_keeps, close_channel_keeps].
  apply keeps_for_each; [apply _|]. intros [local remote]. unfold push_file_direct_with_ids.
  apply keeps_bind; [apply _| |].
  { destruct sync; [|apply keeps_ret, _]. apply keeps_bind; [apply _|apply local_mtime_keeps|]. intros mt. apply skip_file_keeps, stat_direct_inner_keeps. }
  intros []; [apply keeps_ret, _|]. apply keeps_bind; [apply _|apply local_read_keeps|]. intros d.
  apply keeps_bind; [apply _|apply local_mtime_keeps|]. intros mt.
  apply keeps_bind; [apply _|apply over_keeps, send_file_keeps, send_wrte_keeps|]. intros _. apply over_keeps, recv_sync_response_keeps.
Qed.

Lemma pull_direct_data_keeps remote preserve r : reader_ok r -> keeps_at drains (pull_direct_data (T := T) remote preserve) r.
Proof.
  intros Hr. unfold pull_direct_data, prefixed. apply keeps_at_bind; [apply _| |].
  { destruct preserve; [|apply keeps_ret, _]. apply keeps_at_bind; [apply _|by apply stat_on_direct_channel_keeps|]. intros. apply keeps_ret, _. }
  intros r1 attrs _ [Hok1 _]. specialize (Hok1 Hr). apply lift_then; [apply map_err_total, build_path_total|]. intros req.
  apply keeps_at_bind; [apply _|by apply send_request_keeps|]. intros r2 u _ [Hok2 _]. specialize (Hok2 Hok1).
  apply keeps_at_bind; [apply _| |intros; apply keeps_ret, _].
  apply (pull_data_keeps _ [] r2 Hok2). cbn [src_left direct_ends]. unfold reader_left. lia.
Qed.

Lemma pull_file_direct_keeps l r remote local preserve :
  keeps settles (pull_file_direct (F := F) (T := T) l r remote local preserve).
Proof.
  unfold pull_file_direct. apply keeps_bind; [apply _|apply over_keeps, with_reader_keeps; intros; by apply pull_direct_data_keeps|].
  intros [attrs d]. apply store_file_keeps.
Qed.
End DirectSessions.

(** *** Directories *)
Section Directories.
Context {F : Type} `{FileSystem F} {T : Type} `{TransportEnds T}.

Lemma keeps_at_collect {S E A C} (I : S -> S -> Prop) `{!PreOrder I} (f : A -> M S E (list C)) l : forall s,
  (forall x s', In x l -> I s s' -> keeps_at I (f x) s') -> keeps_at I (collect f l) s.
Proof.
  induction l as [|x l IH]; intros s Hf; cbn [collect]; [by apply keeps_ret|]. apply keeps_at_bind; [done|apply Hf; [by left|done]|].
  intros s1 a _ G1. apply keeps_at_bind; [done|apply IH; intros y s' Hy Hs'; apply Hf; [by right|by transitivity s1]|]. intros. by apply keeps_ret.
Qed.

(** The lists of a remote directory and of those below it: each takes a message at least, so what the peer still says bounds the depth. *)
Lemma build_remote_keeps (list_inner : bytes -> M T bytes (list RemoteEntry)) :
  (forall p, keeps shrinks (list_inner p)) -> (forall p t t' es, list_inner p t = (t', Ok es) -> (t_left t' < t_left t)%nat) ->
  forall fuel remote local (s : Session T F), (t_left (net s) < fuel)%nat -> keeps_at settles (build_remote_file_list fuel list_inner remote local) s.
Proof.
  intros Hk Hl. induction fuel as [|fuel IH]; intros remote local s Hf; [lia|]. cbn [build_remote_file_list].
  apply keeps_at_bind; [apply _|apply over_keeps, Hk|]. intros s1 es E1 _.
  assert (t_left (net s1) < t_left (net s))%nat as G1.
  { unfold over in E1. destruct (list_inner remote (net s)) as [t x] eqn:E. injection E1 as <- ->. by apply Hl in E. }
  apply keeps_at_collect; [apply _|]. intros entry s2 _ G2. unfold settles, shrinks in G2.
  destruct (_ || _); [by apply keeps_ret, _|]. destruct (_ =? _); [|by apply keeps_ret, _].
  apply keeps_at_bind; [apply _|apply create_dir_keeps|]. intros s3 u _ G3. unfold settles, shrinks in G3. apply IH. lia.
Qed.

(** Local directories nested at most [n] deep, those that a push looks into. *)
Inductive shallow (d : F) : nat -> bytes -> Prop :=
| shallow_dir n current :
    (forall entries name, fs_read_dir current d = inr entries -> In (inr name) entries ->
       starts_with (B ".") (from_utf8_lossy name) = false -> fs_lstat (current ++ name) d = inr FtDir ->
       shallow d n (from_utf8_lossy (current ++ name) ++ B "/")) ->
    shallow d (S n) current.

#[local] Instance eq_preorder {S} : PreOrder (@eq S) := {}.

Lemma build_local_same {T'} local_dir remote_dir : forall fuel current (s : Session T' F),
  shallow (disk s) fuel current -> keeps_at eq (build_local_file_list_recursive fuel local_dir remote_dir current) s.
Proof.
  induction fuel as [|fuel IH]; intros current s Hs; inversion Hs as [n c Hd]; subst. cbn [build_local_file_list_recursive].
  assert (forall {A} pre (f : F -> io_error + A) (s : Session T' F), keeps_at eq (local_read pre f) s) as Hr.
  { intros A pre f s1. split; [done|]. unfold local_read, io_result. cbn. by destruct (f (disk s1)). }
  apply keeps_at_bind; [apply _|apply Hr|]. intros s1 entries Ee <-. unfold local_read in Ee. injection Ee as Ee.
  assert (fs_read_dir current (disk s) = inr entries) as Er by (unfold io_result in Ee; destruct (fs_read_dir _ _); [done|by injection Ee as ->]).
  apply keeps_at_collect; [apply _|]. intros entry s1 Hin <-. destruct entry as [e|name]; [by split|].
  apply keeps_at_bind; [apply _|by split|]. intros s1 name' [= <- <-] _.
  destruct (starts_with (B ".") (from_utf8_lossy name)) eqn:Eh; [by apply keeps_ret, _|].
  apply keeps_at_bind; [apply _|unfold keeps_at, attempt, local_read, io_result; by destruct (fs_lstat _ _)|]. intros s1 md Em <-.
  destruct md as [e|ft]; [by apply keeps_ret, _|]. destruct ft; [|by apply keeps_ret, _..].
  apply IH, (Hd entries name Er Hin Eh). unfold attempt, local_read, io_result in Em. by destruct (fs_lstat _ _); simplify_eq.
Qed.
End Directories.

(** *** The host protocol *)
Lemma send_host_request_keeps q : keeps shrinks (on_err transport_error_text (send_host_request q)).
Proof.
  apply keeps_on_err. intros c. unfold keeps_at, shrinks, send_host_request, then_write, write_all, write.
  destruct (wfail c) eqn:E; cbn; [by split|]. by split.
Qed.

Lemma read_hex_block_keeps what q :
  (script_size (read_hex_block what q).1 <= script_size q)%nat /\ (read_hex_block what q).2 <> Panic.
Proof.
  unfold read_hex_block. pose proof (read_exact_size q 4) as H1. destruct (read_exact 4 q) as [q1 [w|e|]]; [|by split|done].
  destruct (negb _); [by split|]. destruct (parse_uint _ _ _) as [len|]; [|by split]. destruct (0 <? len); [|by split].
  pose proof (read_exact_size q1 len) as H2. destruct (read_exact len q1) as [q2 [b|e|]]; [split; [cbn; lia|done]..|done].
Qed.

Lemma read_status_keeps : keeps shrinks (on_err transport_error_text (on_conn read_status)).
Proof.
  apply keeps_on_err. intros c. unfold keeps_at, shrinks, on_conn, read_status. pose proof (read_exact_size (incoming c) 4) as H1.
  destruct (read_exact 4 (incoming c)) as [q1 [w|e|]]; [|by split|done].
  destruct (bool_decide _); [by split|]. destruct (bool_decide _); [|by split].
  destruct (read_hex_block_keeps (B " in FAIL response") q1) as [Hl Hp]. destruct (read_hex_block _ q1) as [q2 [b|e|]]; cbn in *; [split; [lia|done]..|done].
Qed.

Lemma switch_service_keeps svc : keeps shrinks (on_err transport_error_text (switch_service svc)).
Proof.
  intros c. pose proof (send_host_request_keeps svc c) as Hs. unfold keeps_at, on_err, switch_service in *.
  destruct (send_host_request svc c) as [c1 [u|e|]]; [|done|by destruct Hs].
  pose proof (read_status_keeps c1) as Hr. unfold keeps_at, on_err in Hr. destruct (on_conn read_status c1) as [c2 x].
  destruct Hr as [Hr1 Hr2], Hs as [Hs1 _]. split; [by transitivity c1|done].
Qed.

Lemma start_sync_keeps : keeps shrinks start_sync.
Proof. apply keeps_bind; [apply _|apply send_host_request_keeps|]. intros _. apply read_status_keeps. Qed.

Lemma select_sync_keeps selector : keeps shrinks (on_err transport_error_text selector) -> keeps shrinks (select_sync selector).
Proof. intros Hs. apply keeps_bind; [apply _|done|]. intros _. apply start_sync_keeps. Qed.

Section Linked.
Context {F : Type} `{FileSystem F} {T : Type} `{TransportEnds T}.

(** [m] returns on every session that has at most as much to come as [t]. *)
Definition returns_below {T'} `{TransportEnds T'} {A} (m : M (Session T' F) bytes A) (t : T') : Prop :=
  forall s, shrinks t (net s) -> keeps_at settles m s.

Lemma keeps_below {T'} `{TransportEnds T'} {A} (m : M (Session T' F) bytes A) t : keeps settles m -> returns_below m t.
Proof. intros Hm s _. apply Hm. Qed.

Lemma then_below {T'} `{TransportEnds T'} {A C} (m : M (Session T' F) bytes A) (k : A -> M (Session T' F) bytes C) t d :
  keeps settles m -> (forall a, returns_below (k a) t) -> ((bind m k) (mk_session t d)).2 <> Panic.
Proof.
  intros Hm Hk. apply (keeps_at_bind settles m k (mk_session t d)); [apply Hm|]. intros s1 a _ Hs. by apply Hk.
Qed.

Lemma run_server_returns {A C} (m : M (Session Conn F) bytes A) (k : A -> M (Session Conn F) bytes C) c d :
  keeps settles m -> (forall a, returns_below (k a) c) -> (run_server (T := T) (bind m k) c d).2 <> Panic.
Proof. intros Hm Hk. pose proof (then_below m k c d Hm Hk) as Hp. unfold run_server. by destruct (bind m k (mk_session c d)). Qed.

Lemma run_direct_returns {A} direct (m : Z -> Z -> M (Session T F) bytes A) d :
  direct <> Panic -> (forall t l r, direct = Ok t -> returns_below (m l r) t) -> (run_direct direct m d).2 <> Panic.
Proof.
  intros Hd Hm. unfold run_direct. destruct direct as [t|e|]; [|done|done].
  pose proof (then_below (over (F := F) (open_service (B "sync:") 1)) (fun '(l, r) => m l r) t d) as Hp.
  specialize (Hp (over_keeps _ (open_service_keeps _ _))). assert (forall a : Z * Z, returns_below (let '(l, r) := a in m l r) t) as Hb by (intros [l1 r1]; by apply Hm).
  specialize (Hp Hb). by destruct (bind _ _ (mk_session t d)).
Qed.

Lemma at_server_returns {A} serial addr req server direct (ms : M (Session Conn F) bytes A) (md : Z -> Z -> M (Session T F) bytes A) d :
  direct <> Panic -> keeps settles ms -> (forall l r, keeps settles (md l r)) ->
  (at_server serial addr req server direct ms md d).2 <> Panic.
Proof.
  intros Hd Hms Hmd. unfold at_server. destruct server as [c|].
  - apply run_server_returns; [apply over_keeps, select_sync_keeps, switch_service_keeps|]. intros _. by apply keeps_below.
  - destruct req; [done|]. apply run_direct_returns; [done|]. intros. by apply keeps_below.
Qed.

Lemma or_direct_returns {A} serial server direct (ms : M (Session Conn F) bytes A) (md : Z -> Z -> M (Session T F) bytes A) d :
  direct <> Panic -> (forall c, server = Some c -> returns_below ms c) -> (forall t l r, direct = Ok t -> returns_below (md l r) t) ->
  (or_direct serial server direct ms md d).2 <> Panic.
Proof.
  intros Hd Hms Hmd. unfold or_direct. destruct server as [c|]; [|by apply run_direct_returns].
  destruct (switch_service_keeps (switch_request serial) c) as [Hc Hp]. unfold on_err in Hc, Hp. unfold switch_transport.
  destruct (switch_service (switch_request serial) c) as [c1 [u|e|]]; [|by apply run_direct_returns|done].
  apply run_server_returns; [apply over_keeps, start_sync_keeps|]. intros _ s Hs. apply (Hms c eq_refl). by transitivity c1.
Qed.

Lemma usb_server_returns {A} server (m : M (Session Conn F) bytes A) d :
  server <> Panic -> (forall s, disk s = d -> keeps_at settles m s) -> (usb_server (T := T) server m d).2 <> Panic.
Proof.
  intros Hs Hm. unfold usb_server. destruct server as [c|e|]; [|done|done]. unfold run_server.
  assert (keeps_at settles (do! _ := over (select_sync (switch_service (B "host:transport-usb"))) in m) (mk_session c d)) as [_ Hp].
  { apply keeps_at_bind; [apply _|apply over_keeps, select_sync_keeps, switch_service_keeps|]. intros s1 u E _. apply Hm.
    unfold over in E. destruct (select_sync _ _) as [t x]. by injection E as <- _. }
  by destruct (bind _ _ (mk_session c d)).
Qed.

Lemma pull_at_returns serial remote local preserve addr req server direct (d : F) :
  direct <> (Panic : res bytes T) -> (pull_at serial remote local preserve addr req server direct d).2 <> Panic.
Proof. intros Hd. apply at_server_returns; [done|apply pull_file_server_keeps|intros; apply pull_file_direct_keeps]. Qed.

Lemma pull_all_returns serial addr (dial : nat -> option Conn * res bytes T) : (forall n, snd (dial n) <> Panic) ->
  forall entries n (d : F), (pull_all serial addr dial n entries d).2 <> Panic.
Proof.
  intros Hd. induction entries as [|[local remote] entries IH]; intros n d; [done|]. cbn [pull_all].
  pose proof (pull_at_returns serial remote local false addr false (fst (dial n)) (snd (dial n)) d (Hd n)) as Hp.
  destruct (pull_at _ _ _ _ _ _ _ _ d) as [[d1 link] [u|e|]]; [|done|done]. specialize (IH (S n) d1).
  by destruct (pull_all _ _ _ (S n) entries d1) as [[d2 links] x].
Qed.

(** What the first connection still has to say, by which the listed directories are bounded. *)
Definition dialled (conn : option Conn * res bytes T) : nat :=
  Nat.max (match fst conn with Some c => t_left c | None => O end) (match snd conn with Ok t => t_left t | _ => O end).

Lemma pull_dir_returns fuel serial addr remote local (dial : nat -> option Conn * res bytes T) (d : F) :
  (forall n, snd (dial n) <> Panic) -> (dialled (dial 0%nat) < fuel)%nat ->
  (pull_dir fuel serial addr remote local dial d).2 <> Panic.
Proof.
  intros Hd Hf. unfold dialled in Hf.
  pose proof (or_direct_returns serial (fst (dial 0%nat)) (snd (dial 0%nat)) (build_remote_file_list fuel list_server_inner remote local)
    (fun l r => build_remote_file_list fuel (list_direct_inner l r) remote local) d (Hd 0%nat)) as Hp.
  unfold pull_dir. destruct (or_direct _ _ _ _ _ d) as [[d1 link] [entries|e|]]; [|done|].
  - assert (keeps (E := bytes) (fun _ _ : Session unit F => True)
      (for_each (fun '(local, _) => match parent local with Some dir => create_dir dir | None => ret tt end) entries)) as Hk.
    { apply keeps_for_each; [by split|]. intros [l r] s1. split; [done|].
      destruct (parent l); [|done]. unfold create_dir, local_do, io_result. by destruct (fs_create_dir_all _ _) as [? [?|?]]. }
    destruct (Hk (mk_session tt d1)) as [_ Hc].
    destruct (for_each _ entries (mk_session tt d1)) as [s [u|e|]]; [|done|done].
    pose proof (pull_all_returns serial addr dial Hd entries 1 (disk s)) as Ha. by destruct (pull_all _ _ _ 1 entries (disk s)) as [[d2 links] x].
  - exfalso. apply Hp; [| |done].
    + intros c Ec s Hs. rewrite Ec in Hf. apply build_remote_keeps; [apply list_server_inner_keeps|apply list_server_inner_less|].
      unfold shrinks in Hs. lia.
    + intros t l r Et s Hs. rewrite Et in Hf. apply build_remote_keeps; [apply list_direct_inner_keeps|apply list_direct_inner_less|].
      unfold shrinks in Hs. lia.
Qed.
End Linked.

(** An operation returns: it has a result, which is not a panic. *)
Definition returns {D E A} (r : D * res E A) : Prop := r.2 <> Panic.

(** C24: The operations of the sync client return a result or an error, whatever the server and the device send (over a connection or a transport that
    has an end): single files and lists of files pushed and pulled, through the server, directly, and over the USB device of the server;
    directories pushed, when the local ones are nested no deeper than [fuel], and pulled, when [fuel] is more than what the connection for the lists
    has to say; lists and STAT requests. Their loops end, and no index and no assumed case is ever out of range. *)
Theorem sync_client_returns {F} `{FileSystem F} {T} `{TransportEnds T} serial addr (required : bool) server direct (d : F) :
  direct <> (Panic : res bytes T) ->
  (forall remote local preserve, returns (pull_at serial remote local preserve addr required server direct d)) /\
  (forall local remote sync fuel, (fs_is_dir local d = true -> shallow d fuel (with_slash local)) ->
     returns (push_at fuel serial local remote sync addr required server direct d)) /\
  (forall files sync, returns (at_server serial addr required server direct (push_files_server files sync)
     (fun l r => push_files_direct l r files sync) d)) /\
  (forall path, returns (list_remote serial server direct path d) /\ returns (stat_remote serial server direct path d)) /\
  (forall usb, usb <> (Panic : res bytes Conn) ->
     (forall remote local preserve, returns (pull_usb_server (T := T) usb remote local preserve d)) /\
     (forall local remote sync fuel, (fs_is_dir local d = true -> shallow d fuel (with_slash local)) ->
        returns (push_usb_server (T := T) fuel usb local remote sync d))) /\
  (forall dial fuel remote local, (forall n, snd (dial n) <> (Panic : res bytes T)) -> (dialled (dial 0%nat) < fuel)%nat ->
     returns (pull_dir fuel serial addr remote local dial d)).
Proof.
  intros Hd. unfold returns. split_and!; intros.
  - by apply pull_at_returns.
  - unfold push_at. destruct (fs_is_dir local d).
    + unfold push_dir_at, build_local_file_list.
      destruct (build_local_same (F := F) (T' := unit) (with_slash local) (with_slash remote) fuel (with_slash local) (mk_session tt d)) as [_ Hp]; [by auto|].
      destruct (build_local_file_list_recursive _ _ _ _ _) as [s [files|e|]]; [|done|done].
      destruct files as [|f files], required; try done; (apply at_server_returns; [done|apply push_files_server_keeps|intros; apply push_files_direct_keeps]).
    + apply at_server_returns; [done|apply push_file_server_keeps|intros; apply push_file_direct_keeps].
  - apply at_server_returns; [done|apply push_files_server_keeps|intros; apply push_files_direct_keeps].
  - split; (apply or_direct_returns; [done| |]); intros; apply keeps_below, over_keeps.
    + apply list_server_inner_keeps.
    + apply list_direct_op_keeps.
    + apply stat_server_keeps.
    + apply stat_direct_keeps.
  - split; intros.
    + apply usb_server_returns; [done|]. intros s _. apply pull_file_server_keeps.
    + apply usb_server_returns; [done|]. intros s Hs. destruct (fs_is_dir local d); [|apply push_file_server_keeps].
      apply keeps_at_bind; [apply _| |intros s1 files _ _; apply push_files_server_keeps].
      destruct (build_local_same (with_slash local) (with_slash remote) fuel (with_slash local) s) as [E Hp]; [rewrite Hs; by auto|].
      split; [|done]. unfold build_local_file_list. by rewrite <- E.
  - by apply pull_dir_returns.
Qed.
