(* ===== verification/SyncClientSpec.v ===== *)
(** * What the sync client does to a device

    A reference device: the files it holds, how it reads the requests of a stream and how it answers
    them. Against it, a push installs the file, a pull fetches it, through the server and directly. *)
From S2P Require Import Prelude Text AdbHeader SyncWire Net AdbTransport Effects SyncClient SyncClientEnds.

(** ** The reference device *)
Record DevFile := mk_dev { d_mode : Z; d_data : bytes; d_mtime : Z }.
Abbreviation Device := (gmap bytes DevFile).

Definition dev_typed (dev : Device) : Prop := map_Forall (fun _ f => u32 (d_mode f) /\ u32 (d_mtime f)) dev.

Inductive Request :=
| QStat (path : bytes)
| QRecv (path : bytes)
| QSend (path : bytes) (mode : Z) (data : bytes) (mtime : Z).

(** A message: id, length, body. *)
Definition frame (id : Z) (body : bytes) : bytes := le_bytes 4 id ++ le_bytes 4 (zlen body) ++ body.

Definition data_frames (data : bytes) : bytes := concat (map (frame SYNC_DATA) (chunks MAX_CHUNK data)).

Definition no_such_file : bytes := B "No such file or directory".

Definition stat_reply (dev : Device) (path : bytes) : bytes :=
  le_bytes 4 SYNC_STAT ++
  match dev !! path with
  | Some f => le_bytes 4 (d_mode f) ++ le_bytes 4 (zlen (d_data f)) ++ le_bytes 4 (d_mtime f)
  | None => zrep 12 x00
  end.

Definition answer (dev : Device) (q : Request) : Device * bytes :=
  match q with
  | QStat path => (dev, stat_reply dev path)
  | QRecv path =>
      (dev, match dev !! path with
            | Some f => data_frames (d_data f) ++ frame SYNC_DONE []
            | None => frame SYNC_FAIL no_such_file
            end)
  | QSend path mode data mtime => (<[path := mk_dev mode data mtime]> dev, frame SYNC_OKAY [])
  end.

Fixpoint answers (dev : Device) (qs : list Request) : Device * bytes :=
  match qs with
  | [] => (dev, [])
  | q :: qs => let '(dev, a) := answer dev q in let '(dev, b) := answers dev qs in (dev, a ++ b)
  end.

(** *** Reading requests *)
Definition take_header (bs : bytes) : option (Z * Z * bytes) :=
  if zlen bs <? 8 then None else Some (le_val (slice 0 4 bs), le_val (slice 4 8 bs), drop 8 bs).

Definition take_body (n : Z) (bs : bytes) : option (bytes * bytes) :=
  if zlen bs <? n then None else Some (take (Z.to_nat n) bs, drop (Z.to_nat n) bs).

(** The data of a SEND until its DONE. *)
Fixpoint parse_data (fuel : nat) (acc bs : bytes) : option (bytes * Z * bytes) :=
  match fuel with
  | O => None
  | S fuel =>
      '(id, len, bs) ← take_header bs;
      if id =? SYNC_DATA then '(body, bs) ← take_body len bs; parse_data fuel (acc ++ body) bs
      else if id =? SYNC_DONE then Some (acc, len, bs) else None
  end.

Definition parse_request (bs : bytes) : option (Request * bytes) :=
  '(id, len, bs) ← take_header bs;
  '(body, bs) ← take_body len bs;
  if id =? SYNC_STAT then Some (QStat body, bs)
  else if id =? SYNC_RECV then Some (QRecv body, bs)
  else if id =? SYNC_SEND then
    '(path, mode) ← rsplit_once ","%byte body;
    mode ← parse_uint 10 u32_max mode;
    '(data, mtime, bs) ← parse_data (S (length bs)) [] bs;
    Some (QSend path mode data mtime, bs)
  else None.

Fixpoint parse_go (fuel : nat) (bs : bytes) : option (list Request) :=
  match bs, fuel with
  | [], _ => Some []
  | _, O => None
  | _, S fuel => '(q, bs) ← parse_request bs; qs ← parse_go fuel bs; Some (q :: qs)
  end.

Definition parse_requests (bs : bytes) : option (list Request) := parse_go (length bs) bs.

(** *** Writing requests *)
Definition request_bytes (q : Request) : bytes :=
  match q with
  | QStat path => frame SYNC_STAT path
  | QRecv path => frame SYNC_RECV path
  | QSend path mode data mtime =>
      frame SYNC_SEND (path ++ B "," ++ fmt_dec mode) ++ data_frames data ++ le_bytes 4 SYNC_DONE ++ le_bytes 4 mtime
  end.

Definition request_ok (q : Request) : Prop :=
  match q with
  | QStat path | QRecv path => zlen path <= u32_max
  | QSend path mode data mtime =>
      sendable path /\ u32 mode /\ u32 mtime /\ zlen (path ++ B "," ++ fmt_dec mode) <= u32_max
  end.

Lemma le4_id id : 0 <= id < 2 ^ 32 -> le_val (le_bytes 4 id) = id.
Proof. intros Hi. by apply le_val_bytes_id. Qed.

Lemma take_header_app id len rest :
  u32 id -> u32 len -> take_header (le_bytes 4 id ++ le_bytes 4 len ++ rest) = Some (id, len, rest).
Proof.
  intros Hi Hl. unfold take_header. pose proof (zlen_nonneg rest). rewrite (proj2 (Z.ltb_ge _ _)) by zg.
  rewrite app_assoc, drop_app_length' by (by rewrite length_app, !length_le_bytes). rewrite <- app_assoc.
  rewrite slice_app_l by zg. rewrite slice_full by zg.
  rewrite slice_app_r by zg. rewrite slice_app_l by zg. rewrite !zlen_le_bytes, slice_full by zg.
  by rewrite !le_val_bytes_id.
Qed.

Lemma take_body_app body rest : take_body (zlen body) (body ++ rest) = Some (body, rest).
Proof.
  unfold take_body. pose proof (zlen_nonneg rest). rewrite (proj2 (Z.ltb_ge _ _)) by zg. unfold zlen.
  by rewrite Nat2Z.id, take_app_length, drop_app_length.
Qed.

Lemma frame_header id body rest :
  u32 id -> zlen body <= u32_max -> take_header (frame id body ++ rest) = Some (id, zlen body, body ++ rest).
Proof.
  intros Hi Hb. unfold frame. rewrite <- !app_assoc. apply take_header_app; [done|]. pose proof (zlen_nonneg body).
  unfold u32, uint, u32_max in *. lia.
Qed.

Lemma zlen_frame id body : zlen (frame id body) = 8 + zlen body.
Proof. unfold frame. zg. Qed.
#[export] Hint Rewrite zlen_frame : zlen_db.

Lemma parse_data_ok cs : forall fuel acc mtime rest,
  (length cs < fuel)%nat -> Forall (fun c => 0 < zlen c <= MAX_CHUNK) cs -> u32 mtime ->
  parse_data fuel acc (concat (map (frame SYNC_DATA) cs) ++ le_bytes 4 SYNC_DONE ++ le_bytes 4 mtime ++ rest)
  = Some (acc ++ concat cs, mtime, rest).
Proof.
  induction cs as [|c cs IH]; intros fuel acc mtime rest Hf HF Hm; (destruct fuel as [|fuel]; [cbn in Hf; lia|]); cbn [parse_data map concat app].
  - rewrite take_header_app by done. cbn. by rewrite app_nil_r.
  - apply list.Forall_cons in HF as [Hc HF]. rewrite <- app_assoc, frame_header; [|done|unfold MAX_CHUNK, u32_max in *; lia].
    cbn [mbind option_bind]. rewrite Z.eqb_refl, take_body_app. cbn [mbind option_bind]. rewrite IH; [by rewrite app_assoc|cbn in Hf; lia|done|done].
Qed.

Lemma length_concat_frames (cs : list bytes) id : (length cs <= length (concat (map (frame id) cs)))%nat.
Proof. induction cs as [|c cs IH]; cbn [map concat length]; [lia|]. rewrite length_app. unfold frame at 1. rewrite !length_app, !length_le_bytes. lia. Qed.

Lemma parse_request_ok q rest : request_ok q -> parse_request (request_bytes q ++ rest) = Some (q, rest).
Proof.
  destruct q as [path|path|path mode data mtime]; intros Hq; unfold parse_request, request_bytes.
  1,2: rewrite frame_header by done; cbn [mbind option_bind]; by rewrite take_body_app.
  destruct Hq as ((Hp1 & Hp2 & Hp3 & Hp4) & Hmo & Hmt & Hl). rewrite <- !app_assoc, frame_header by done. cbn [mbind option_bind].
  rewrite take_body_app. cbn [mbind option_bind]. change (SYNC_SEND =? SYNC_STAT) with false. change (SYNC_SEND =? SYNC_RECV) with false.
  cbn [Z.eqb Pos.eqb SYNC_SEND]. change (B "," ++ fmt_dec mode) with (","%byte :: fmt_dec mode).
  rewrite rsplit_once_app by (apply fmt_dec_not_z; cbn; lia). cbn [mbind option_bind].
  rewrite parse_fmt_dec; [|unfold u32, uint, u32_max in *; lia|apply (Z.lt_trans _ (2 ^ 32)); [apply Hmo|done]]. cbn [mbind option_bind].
  unfold data_frames. rewrite parse_data_ok; [|..].
  - cbn. by rewrite concat_chunks.
  - rewrite length_app. pose proof (length_concat_frames (chunks MAX_CHUNK data) SYNC_DATA). lia.
  - by apply chunks_bounds.
  - done.
Qed.

Lemma parse_requests_ok qs : Forall request_ok qs -> parse_requests (concat (map request_bytes qs)) = Some qs.
Proof.
  intros HF. unfold parse_requests. set (bs := concat _). assert (length bs <= length bs)%nat as Hf by lia. revert Hf.
  generalize (length bs) at 2 3. subst bs. induction HF as [|q qs Hq HF IH]; intros fuel Hf; cbn [map concat] in *; [by destruct fuel|].
  assert (8 <= length (request_bytes q))%nat as H8.
  { assert (forall id b, 8 <= length (frame id b))%nat by (intros; unfold frame; rewrite !length_app, !length_le_bytes; lia).
    destruct q; cbn [request_bytes]; rewrite ?length_app; auto. specialize (H SYNC_SEND (path ++ B "," ++ fmt_dec mode)). lia. }
  rewrite length_app in Hf. destruct fuel as [|fuel]; [lia|].
  destruct (request_bytes q ++ concat (map request_bytes qs)) as [|b bs] eqn:E.
  { apply (f_equal length) in E. rewrite length_app in E. cbn in E. lia. }
  cbn [parse_go]. rewrite <- E, parse_request_ok by done. cbn [mbind option_bind]. by rewrite IH by lia.
Qed.

(** ** Reading the device's answers

    [gives r d]: the source has the bytes [d] to come; [reads_to] is what reading changes otherwise. *)
Class SourceGives (R : Type) `{ByteSource R} := {
  gives : R -> bytes -> Prop;
  reads_to : R -> R -> Prop;
  reads_to_pre : PreOrder reads_to;
  gives_read : forall r a d, gives r (a ++ d) ->
    exists r', read_exact_from (zlen a) r = (r', Ok a) /\ gives r' d /\ reads_to r r' }.
#[export] Existing Instance reads_to_pre.

Section Gives.
Context {R : Type} `{SourceGives R}.

Lemma gives_take n r a d : gives r (a ++ d) -> zlen a = n -> exists r', take_exact n r = (r', Ok a) /\ gives r' d /\ reads_to r r'.
Proof.
  intros Hg <-. destruct (gives_read r a d Hg) as (r' & E & Hr & Ht). exists r'. split; [|done]. unfold take_exact. by apply on_err_ok.
Qed.

(** The status of a path, as the client sees it. *)
Definition stat_of (dev : Device) (path : bytes) : bytes + FileStat :=
  let absent := inl (B "STAT request returned no result: remote path unavailable") in
  match dev !! path with
  | Some f =>
      let st := mk_stat (d_mode f) (wrap 32 (zlen (d_data f))) (d_mtime f) in
      if remote_exists st then inr st else absent
  | None => absent
  end.

Definition of_attempt {A} (x : bytes + A) : res bytes A := match x with inr a => Ok a | inl e => Err e end.

Lemma stat_fields_decode a b c :
  u32 a -> u32 c ->
  SyncStatResponse.decode_v1_message (le_bytes 4 SYNC_STAT ++ le_bytes 4 a ++ le_bytes 4 b ++ le_bytes 4 c)
  = Ok {| SyncStatResponse.mode := a; SyncStatResponse.size := wrap 32 b; SyncStatResponse.mtime := c |}.
Proof.
  intros Ha Hc. unfold SyncStatResponse.decode_v1_message. rewrite (proj2 (Z.ltb_ge _ _)) by (unfold SyncStatResponse.WIRE_SIZE, SyncStatResponse.SIZE; zg).
  rewrite get_slice_ok by zg. cbn [res_bind]. rewrite slice_app_l, slice_full by zg.
  rewrite (proj2 (Z.eqb_eq _ _)) by (unfold SyncStatResponse.WIRE_SIZE, SyncStatResponse.SIZE; zg).
  rewrite bool_decide_eq_true_2 by done. cbn [negb orb]. rewrite get_slice_ok by zg. cbn [res_bind].
  rewrite slice_app_r by zg. rewrite slice_full by zg. rewrite stat_decode_eq, (proj2 (Z.ltb_ge _ _)) by zg.
  rewrite slice_app_l, slice_full by zg. rewrite (slice_app_r 4 8), (slice_app_l _ _ (le_bytes 4 b)), slice_full by zg.
  rewrite (slice_app_r 8 12), (slice_app_r _ _ (le_bytes 4 b)), slice_full by zg.
  by rewrite (le_val_bytes_id 4 a Ha), (le_val_bytes_id 4 c Hc), le_val_bytes.
Qed.

Lemma read_stat_ok dev path r rest :
  dev_typed dev -> gives r (stat_reply dev path ++ rest) ->
  exists r', read_stat_response r = (r', of_attempt (stat_of dev path)) /\ gives r' rest /\ reads_to r r'.
Proof.
  intros Hd Hg. unfold stat_reply in Hg. rewrite <- app_assoc in Hg.
  destruct (gives_take 4 r _ _ Hg) as (r1 & E1 & Hg1 & Ht1); [by rewrite zlen_le_bytes|].
  assert (exists a b c, match dev !! path with
      | Some f => le_bytes 4 (d_mode f) ++ le_bytes 4 (zlen (d_data f)) ++ le_bytes 4 (d_mtime f)
      | None => zrep 12 x00
      end = le_bytes 4 a ++ le_bytes 4 b ++ le_bytes 4 c /\ u32 a /\ u32 c /\
      stat_of dev path = if remote_exists (mk_stat a (wrap 32 b) c) then inr (mk_stat a (wrap 32 b) c)
        else inl (B "STAT request returned no result: remote path unavailable")) as (a & b & c & Ef & Ha & Hc & Es).
  { unfold stat_of. destruct (dev !! path) as [f|] eqn:Ef.
    - destruct (Hd path f Ef) as [Hm Ht]. by exists (d_mode f), (zlen (d_data f)), (d_mtime f).
    - by exists 0, 0, 0. }
  rewrite Ef in Hg1. destruct (gives_take 12 r1 _ _ Hg1) as (r2 & E2 & Hg2 & Ht2); [zg|].
  exists r2. split; [|split; [done|by transitivity r1]].
  unfold read_stat_response. rewrite (bind_ok _ _ _ _ _ E1), le_val_bytes_id by done.
  change (SYNC_STAT =? SYNC_FAIL) with false. change (negb (SYNC_STAT =? SYNC_STAT)) with false. cbv iota zeta.
  rewrite (bind_ok _ _ _ _ _ E2), stat_fields_decode by done. cbn [map_err]. rewrite bind_lift.
  unfold SyncStatResponse.exists_. cbn [SyncStatResponse.mode SyncStatResponse.size SyncStatResponse.mtime]. rewrite Es.
  unfold remote_exists. cbn [st_mode st_size st_mtime]. by destruct (_ || _).
Qed.

Lemma read_pull_frame id body r rest :
  gives r (frame id body ++ rest) -> u32 id -> zlen body <= MAX_CHUNK ->
  (id = SYNC_DATA \/ id = SYNC_FAIL \/ (id = SYNC_DONE \/ id = SYNC_OKAY) /\ body = []) ->
  exists r', read_pull_response r = (r', Ok (SyncMessageHeader.new id (zlen body), body)) /\ gives r' rest /\ reads_to r r'.
Proof.
  intros Hg Hi Hb Hid. unfold frame in Hg. rewrite app_assoc, <- app_assoc in Hg.
  destruct (gives_take 8 r _ _ Hg) as (r1 & E1 & Hg1 & Ht1); [zg|].
  assert (SyncMessageHeader.decode (le_bytes 4 id ++ le_bytes 4 (zlen body)) = Ok (SyncMessageHeader.new id (zlen body))) as Ed.
  { rewrite <- (app_nil_r (_ ++ _)). change (le_bytes 4 id ++ le_bytes 4 (zlen body)) with (SyncMessageHeader.hdr_buf (SyncMessageHeader.new id (zlen body))).
    apply header_read. split; [done|].
    pose proof (zlen_nonneg body). unfold u32, uint, MAX_CHUNK in *. cbn. lia. }
  unfold read_pull_response. rewrite (bind_ok _ _ _ _ _ E1), Ed. cbn [map_err]. rewrite bind_lift. cbn [SyncMessageHeader.id SyncMessageHeader.length SyncMessageHeader.new].
  destruct (gives_read r1 body rest Hg1) as (r2 & E2 & Hg2 & Ht2).
  destruct Hid as [->|[->|[Hid ->]]].
  1,2: cbn [Z.eqb Pos.eqb orb SYNC_DATA SYNC_FAIL]; rewrite (proj2 (Z.ltb_ge _ _)) by done; exists r2; split; [|split; [done|by transitivity r1]];
    unfold bind, take_exact, on_err; by rewrite E2.
  exists r1. split; [|done]. by destruct Hid as [-> | ->].
Qed.

Lemma pull_data_ok cs : forall fuel acc r fin rest,
  Forall (fun c => 0 < zlen c <= MAX_CHUNK) cs -> (length cs < fuel)%nat -> fin = SYNC_DONE \/ fin = SYNC_OKAY ->
  gives r (concat (map (frame SYNC_DATA) cs) ++ frame fin [] ++ rest) ->
  exists r', pull_data fuel acc r = (r', Ok (acc ++ concat cs)) /\ gives r' rest /\ reads_to r r'.
Proof.
  induction cs as [|c cs IH]; intros fuel acc r fin rest HF Hf Hfin Hg; (destruct fuel as [|fuel]; [cbn in Hf; lia|]); cbn [pull_data map concat app] in *.
  - destruct (read_pull_frame fin [] r rest Hg) as (r1 & E1 & Hg1 & Ht1); [by destruct Hfin as [->| ->]|done|tauto|].
    exists r1. split; [|done]. unfold bind. rewrite E1, app_nil_r. by destruct Hfin as [->| ->].
  - apply list.Forall_cons in HF as [Hc HF]. rewrite <- app_assoc in Hg.
    destruct (read_pull_frame SYNC_DATA c r _ Hg) as (r1 & E1 & Hg1 & Ht1); [done|lia|tauto|].
    destruct (IH fuel (acc ++ c) r1 fin rest HF ltac:(cbn in Hf; lia) Hfin Hg1) as (r2 & E2 & Hg2 & Ht2).
    exists r2. split; [|split; [done|by transitivity r1]]. unfold bind. rewrite E1. cbn [SyncMessageHeader.id SyncMessageHeader.new].
    rewrite Z.eqb_refl, E2. by rewrite <- app_assoc.
Qed.

Lemma pull_data_fail fuel acc r msg rest :
  (0 < fuel)%nat -> zlen msg <= MAX_CHUNK -> gives r (frame SYNC_FAIL msg ++ rest) ->
  exists r', pull_data fuel acc r = (r', Err (B "Sync FAIL during pull: " ++ from_utf8_lossy msg)) /\ gives r' rest /\ reads_to r r'.
Proof.
  intros Hf Hm Hg. destruct (read_pull_frame SYNC_FAIL msg r rest Hg) as (r1 & E1 & Hg1 & Ht1); [done|done|tauto|].
  exists r1. split; [|done]. destruct fuel as [|fuel]; [lia|]. cbn [pull_data]. unfold bind. by rewrite E1.
Qed.
End Gives.

(** *** The server's connection *)
Definition same_writes (c c' : Conn) : Prop := outgoing c' = outgoing c /\ wfail c' = wfail c.

#[export] Instance conn_gives : SourceGives Conn.
Proof.
  refine {| gives c d := arrives (incoming c) d; reads_to := same_writes |}.
  - split; [by intros c|]. intros a b c [H1 H2] [H3 H4]. split; congruence.
  - intros c a d Ha. destruct (arrives_read_exact_app _ _ _ Ha) as (q & E & Ha'). exists (set_incoming q c).
    cbn [read_exact_from conn_source]. by rewrite E.
Defined.

Lemma arrives_size q d : arrives q d -> (length d <= script_size q)%nat.
Proof. induction 1 as [|seg q d Hs Ha IH]; [done|]. cbn. rewrite length_app. lia. Qed.

(** ** Sending *)
Definition carried (path : bytes) : Prop := validate_path path true = Ok tt.

Lemma carried_len path : carried path -> zlen path <= u32_max.
Proof.
  unfold carried, validate_path. destruct (_ =? _); [done|]. destruct (contains _ _); [done|]. cbn [negb andb].
  destruct (Z.leb_spec (zlen path) u32_max); done.
Qed.

Lemma build_path_ok id path : carried path -> build_path_req id path [] = Ok (frame id path).
Proof.
  intros Hc. unfold build_path_req. rewrite Hc. cbn [res_bind]. rewrite try_u32_ok by by apply carried_len. done.
Qed.

(** The messages of a file. *)
Definition file_messages (remote data : bytes) (mtime : Z) : list bytes :=
  frame SYNC_SEND (remote ++ B "," ++ fmt_dec 0x1A4) :: map (frame SYNC_DATA) (chunks MAX_CHUNK data)
    ++ [le_bytes 4 SYNC_DONE ++ le_bytes 4 mtime].

Lemma concat_file_messages remote data mtime :
  concat (file_messages remote data mtime) = request_bytes (QSend remote 0x1A4 data mtime).
Proof. unfold file_messages, request_bytes, data_frames. cbn [concat]. by rewrite concat_app, <- ?app_assoc. Qed.

Definition pushable (remote : bytes) : Prop := sendable remote /\ zlen remote <= u32_max - 4.

Lemma zlen_send remote : zlen (remote ++ B "," ++ fmt_dec 0x1A4) = zlen remote + 4.
Proof. by rewrite zlen_app. Qed.

Lemma pushable_request remote data mtime : pushable remote -> u32 mtime -> request_ok (QSend remote 0x1A4 data mtime).
Proof. intros [Hs Hl] Hm. split; [done|split; [done|split; [done|]]]. rewrite zlen_send. lia. Qed.

Lemma for_each_app {S E A} (f : A -> M S E unit) l k s :
  for_each f (l ++ k) s = bind (for_each f l) (fun _ => for_each f k) s.
Proof.
  revert s. induction l as [|x l IH]; intros s; [done|]. cbn [for_each app]. unfold bind.
  destruct (f x s) as [s1 [u|e|]]; [|done|done]. by rewrite IH.
Qed.

Lemma for_each_map {S E A C} (f : C -> M S E unit) (g : A -> M S E unit) (h : A -> C) l :
  (forall x s, x ∈ l -> g x s = f (h x) s) -> forall s, for_each g l s = for_each f (map h l) s.
Proof.
  induction l as [|x l IH]; intros Hg s; [done|]. cbn [for_each map]. unfold bind. rewrite Hg by left.
  destruct (f (h x) s) as [s1 [u|e|]]; [|done|done]. apply IH. intros y t Hy. apply Hg. by right.
Qed.

Lemma send_file_eq {T} (send : bytes -> M T bytes unit) remote data mtime t :
  pushable remote -> send_file send remote data mtime t = for_each send (file_messages remote data mtime) t.
Proof.
  intros [Hs Hl]. unfold send_file, file_messages, build_sync_send_req. rewrite (proj2 (validate_path_ok remote) Hs). cbn [res_bind].
  rewrite try_u32_ok by (rewrite zlen_send; lia). cbn [res_bind prefixed map_err]. rewrite bind_lift. cbn [for_each app].
  apply bind_eq; [done|]. intros _ t1. rewrite for_each_app. apply bind_eq.
  - apply for_each_map. intros x s Hx. pose proof (chunks_bounds MAX_CHUNK data ltac:(done)) as HF.
    rewrite list.Forall_forall in HF. specialize (HF x Hx). unfold build_sync_data_chunk.
    rewrite try_u32_ok by (unfold MAX_CHUNK, u32_max in *; lia). done.
  - intros _ t2. unfold build_sync_done. unfold prefixed; cbn [map_err app]. rewrite bind_lift. cbn [for_each]. unfold bind. by destruct (send _ t2) as [t3 [[]|e|]].
Qed.

(** ** Through the server *)
Section Server.
Context {F : Type} `{FileSystem F}.

(** A connection that can be written. *)
Definition conn_at (q : list event) (o : bytes) : Conn := mk_conn q o None.

Lemma gives_at q o d : arrives q d -> gives (conn_at q o) d.
Proof. done. Qed.

Lemma write_raw_ok d q o : write_raw_sync d (conn_at q o) = (conn_at q (o ++ d), Ok tt).
Proof. done. Qed.

Lemma write_raws_ok ds : forall q o, for_each write_raw_sync ds (conn_at q o) = (conn_at q (o ++ concat ds), Ok tt).
Proof.
  induction ds as [|d ds IH]; intros q o; cbn [for_each concat]; [by rewrite app_nil_r|]. unfold bind. rewrite write_raw_ok, IH.
  by rewrite <- app_assoc.
Qed.

Lemma same_writes_at c q o : same_writes (conn_at q o) c -> c = conn_at (incoming c) o.
Proof. destruct c as [q' o' w]. unfold same_writes, conn_at. cbn. by intros [-> ->]. Qed.

Lemma stat_server_ok dev path q o rest :
  dev_typed dev -> carried path -> arrives q (stat_reply dev path ++ rest) ->
  exists q', stat_server path (conn_at q o) = (conn_at q' (o ++ request_bytes (QStat path)), of_attempt (stat_of dev path)) /\ arrives q' rest.
Proof.
  intros Hd Hc Ha. unfold stat_server, build_sync_stat_req. rewrite build_path_ok by done. cbn [prefixed map_err]. rewrite bind_lift.
  rewrite (bind_ok _ _ _ _ _ (write_raw_ok _ q o)). cbn [request_bytes].
  destruct (read_stat_ok dev path (conn_at q (o ++ frame SYNC_STAT path)) rest Hd (gives_at _ _ _ Ha)) as (c & -> & Hg & Hs).
  apply same_writes_at in Hs as ->. by exists (incoming c).
Qed.

Lemma final_answer_ok text q o rest :
  arrives q (frame SYNC_OKAY [] ++ rest) -> exists q', final_answer text (conn_at q o) = (conn_at q' o, Ok tt) /\ arrives q' rest.
Proof.
  intros Ha. unfold frame in Ha. rewrite app_nil_r in Ha.
  destruct (gives_take 8 (conn_at q o) _ _ (gives_at _ _ _ Ha)) as (c & E & Hg & Hs); [done|]. exists (incoming c). apply same_writes_at in Hs as Hc. rewrite Hc in E. split; [|done].
  unfold final_answer, read_raw_sync. unfold bind at 1. unfold bind at 1. rewrite E. rewrite Hc. done.
Qed.

Lemma over_ok {T A} (m : M T bytes A) t t' x d : m t = (t', x) -> over (F := F) m (mk_session t d) = (mk_session t' d, x).
Proof. unfold over. cbn. by intros ->. Qed.

Lemma attempt_of {S A} (m : M S bytes A) s s' (x : bytes + A) : m s = (s', of_attempt x) -> attempt (F := bytes) m s = (s', Ok x).
Proof. unfold attempt. intros ->. by destruct x. Qed.

(** The requests of a push, and whether it skips the file. *)
Definition push_skips (dev : Device) (sync : bool) (target : bytes) (mtime : Z) : bool :=
  sync && match stat_of dev target with inr st => sync_equal st mtime | inl _ => false end.

Definition push_requests (dev : Device) (sync : bool) (remote target data : bytes) (mtime : Z) : list Request :=
  QStat remote :: (if sync then [QStat target] else [])
    ++ (if push_skips dev sync target mtime then [] else [QSend target 0x1A4 data mtime]).

Lemma skip_server_ok dev (sync : bool) target mtime q o d rest :
  dev_typed dev -> carried target -> arrives q ((if sync then stat_reply dev target else []) ++ rest) ->
  exists q', skip_file (F := F) sync stat_server target mtime (mk_session (conn_at q o) d)
    = (mk_session (conn_at q' (o ++ concat (map request_bytes (if sync then [QStat target] else [])))) d,
       Ok (push_skips dev sync target mtime)) /\ arrives q' rest.
Proof.
  intros Hd Hc Ha. unfold skip_file, push_skips. destruct sync; [|exists q; cbn; by rewrite app_nil_r].
  destruct (stat_server_ok dev target q o rest Hd Hc Ha) as (q' & E & Ha'). exists q'. split; [|done].
  unfold bind. rewrite (attempt_of _ _ _ _ (over_ok _ _ _ _ d E)). cbn [map concat]. by rewrite app_nil_r.
Qed.
End Server.

Section ServerTransfers.
Context {F : Type} `{FileSystem F}.

Lemma answers_push dev sync remote target data mtime :
  answers dev (push_requests dev sync remote target data mtime)
  = (if push_skips dev sync target mtime then dev else <[target := mk_dev 0x1A4 data mtime]> dev,
     stat_reply dev remote ++ (if sync then stat_reply dev target else []) ++
     (if push_skips dev sync target mtime then [] else frame SYNC_OKAY [])).
Proof.
  unfold push_requests. destruct sync, (push_skips dev _ target mtime); cbn [answers answer app]; by rewrite ?app_nil_r.
Qed.

(** Reading the local file, in the middle of a session. *)
Lemma local_mtime_ok {T} local (t : T) (d : F) secs :
  fs_modified local d = inr secs -> local_mtime_secs local (mk_session t d) = (mk_session t d, Ok (saturating_mtime_u32 secs)).
Proof. intros Hm. unfold local_mtime_secs, bind, local_read. cbn [disk]. by rewrite Hm. Qed.

Lemma local_read_ok {T A} pre (f : F -> io_error + A) (t : T) (d : F) a :
  f d = inr a -> local_read pre f (mk_session t d) = (mk_session t d, Ok a).
Proof. intros Hf. unfold local_read. cbn [disk]. by rewrite Hf. Qed.

Lemma pushable_carried path : pushable path -> carried path.
Proof.
  intros [(Hn & Hz & Hc & Hl) _]. unfold carried, validate_path. destruct (Z.eqb_spec (zlen path) 0) as [E|E].
  { by apply zlen_0_nil in E. }
  rewrite (proj2 (contains_false _ _) Hz). cbn [negb andb]. by rewrite (proj2 (Z.leb_le _ _)).
Qed.

Lemma saturating_u32 z : u32 (saturating_mtime_u32 z).
Proof. unfold saturating_mtime_u32, u32, uint, u32_max. zcase; [lia|]. destruct (Z.leb_spec z 4294967295); lia. Qed.

Lemma push_server_ok dev (sync : bool) local remote target data secs q o (d : F) rest :
  dev_typed dev -> carried remote -> pushable target ->
  fs_read local d = inr data -> fs_modified local d = inr secs ->
  push_target local remote (stat_of dev remote) = Ok target ->
  let mtime := saturating_mtime_u32 secs in
  let reqs := push_requests dev sync remote target data mtime in
  arrives q ((answers dev reqs).2 ++ rest) ->
  exists q' out,
    push_file_server local remote sync (mk_session (mk_conn q o None) d) = (mk_session (mk_conn q' (o ++ out) None) d, Ok tt) /\
    arrives q' rest /\ parse_requests out = Some reqs /\
    exists f, (answers dev reqs).1 !! target = Some f /\ d_mtime f = mtime /\
      (push_skips dev sync target mtime = false -> f = mk_dev 0x1A4 data mtime).
Proof.
  intros Hd Hc Hp Hr Hm Ht mtime reqs. subst reqs. rewrite answers_push. cbn [fst snd]. rewrite <- !app_assoc. intros Ha.
  destruct (stat_server_ok dev remote q o _ Hd Hc Ha) as (q1 & E1 & Ha1).
  destruct (skip_server_ok (F := F) dev sync target mtime q1 (o ++ request_bytes (QStat remote)) d _ Hd (pushable_carried _ Hp) Ha1) as (q2 & E2 & Ha2).
  assert (Forall request_ok (push_requests dev sync remote target data mtime)) as HF.
  { unfold push_requests. constructor; [by apply carried_len|]. apply Forall_app; split.
    - destruct sync; constructor; [|constructor]. by apply carried_len, pushable_carried.
    - destruct (push_skips _ _ _ _); constructor; [|constructor]. apply pushable_request; [done|apply saturating_u32]. }
  change (mk_conn q o None) with (conn_at q o).
  assert (push_file_server local remote sync (mk_session (conn_at q o) d) =
    (do! skip := skip_file (F := F) sync stat_server target mtime in
     if skip : bool then ret tt else
     do! file_data := local_read (B "Cannot read local file '" ++ local ++ B "': ") (fs_read local) in
     do! _ := over (send_file write_raw_sync target file_data mtime) in over (final_answer (B "Sync FAIL: ")))
      (mk_session (conn_at q1 (o ++ request_bytes (QStat remote))) d)) as ->.
  { unfold push_file_server, push_file. rewrite (bind_ok _ _ _ _ _ (attempt_of _ _ _ _ (over_ok _ _ _ _ d E1))), Ht, bind_lift.
    by rewrite (bind_ok _ _ _ _ _ (local_mtime_ok _ _ _ _ Hm)). }
  rewrite (bind_ok _ _ _ _ _ E2). unfold push_requests in *. destruct (push_skips dev sync target mtime) eqn:Hs.
  - exists q2, (concat (map request_bytes (QStat remote :: (if sync then [QStat target] else []) ++ []))).
    split_and!; [|done|by apply parse_requests_ok|].
    { unfold ret. cbn [map concat]. by rewrite app_nil_r, <- app_assoc. }
    unfold push_skips in Hs. apply andb_true_iff in Hs as [_ Hs]. unfold stat_of in Hs.
    destruct (dev !! target) as [f|] eqn:Ef; [|done]. destruct (remote_exists _) eqn:Ee; [|done].
    exists f. split_and!; [done| |done]. unfold sync_equal in Hs. apply andb_true_iff in Hs as [_ Hs]. by apply Z.eqb_eq in Hs.
  - rewrite (bind_ok _ _ _ _ _ (local_read_ok _ _ _ _ _ Hr)).
    unfold bind at 1. rewrite (over_ok _ _ (conn_at q2 _) (Ok tt) d (eq_trans (send_file_eq _ _ _ _ _ Hp) (write_raws_ok _ q2 _))).
    destruct (final_answer_ok (B "Sync FAIL: ") q2
      (((o ++ request_bytes (QStat remote)) ++ concat (map request_bytes (if sync then [QStat target] else []))) ++ concat (file_messages target data mtime)) rest Ha2) as (q3 & E3 & Ha3).
    rewrite (over_ok _ _ _ _ d E3).
    exists q3, (concat (map request_bytes (QStat remote :: (if sync then [QStat target] else []) ++ [QSend target 420 data mtime]))).
    split_and!; [|done|by apply parse_requests_ok|].
    + rewrite concat_file_messages. cbn [map concat]. rewrite map_app, concat_app. cbn [map concat]. by rewrite app_nil_r, !app_assoc.
    + exists (mk_dev 420 data mtime). by rewrite lookup_insert_eq.
Qed.

(** C3: Pushing a file through the server: the client asks for the destination, resolves it, and (with
    [--sync]) asks for the target; unless the target has the file's time it then sends the file. A device
    that reads these requests holds the file at the target afterwards, with its contents, mode 0644 and
    its time, and nothing is read beyond its answers. *)
Theorem push_server_installs dev (sync : bool) local remote target data secs q o (d : F) rest :
  dev_typed dev -> carried remote -> pushable target ->
  fs_read local d = inr data -> fs_modified local d = inr secs ->
  push_target local remote (stat_of dev remote) = Ok target ->
  let mtime := saturating_mtime_u32 secs in
  let reqs := push_requests dev sync remote target data mtime in
  arrives q ((answers dev reqs).2 ++ rest) ->
  exists q' out,
    push_file_server local remote sync (mk_session (mk_conn q o None) d) = (mk_session (mk_conn q' (o ++ out) None) d, Ok tt) /\
    arrives q' rest /\ parse_requests out = Some reqs /\
    exists f, (answers dev reqs).1 !! target = Some f /\ d_mtime f = mtime /\
      (push_skips dev sync target mtime = false -> f = mk_dev 0x1A4 data mtime).
Proof. apply push_server_ok. Qed.

(** *** Pulls *)

(** Storing the file leaves the connection alone. *)
Definition same_net {T} (s s' : Session T F) : Prop := net s' = net s.
#[local] Instance same_net_preorder T : PreOrder (same_net (T := T)).
Proof. split; [by intros s|]. unfold same_net. intros a b c. congruence. Qed.

Lemma local_do_net {T} pre (f : F -> F * (io_error + unit)) : keeps same_net (local_do (T := T) pre f).
Proof. intros s. unfold keeps_at, local_do, io_result. destruct (f (disk s)) as [d [e|u]]; by split. Qed.

Lemma store_file_net {T} local data attrs (s s' : Session T F) x : store_file local data attrs s = (s', x) -> net s' = net s.
Proof.
  intros E. enough (keeps same_net (store_file (T := T) (F := F) local data attrs)) as Hk by (destruct (Hk s) as [Hn _]; by rewrite E in Hn).
  unfold store_file, create_dir. apply keeps_bind; [apply _|case_match; [apply local_do_net|apply keeps_ret, _]|]. intros _.
  apply keeps_bind; [apply _|apply local_do_net|]. intros _. destruct attrs as [a|]; [|apply keeps_ret, _]. unfold set_time_and_mode.
  apply keeps_bind; [apply _|apply keeps_lift; [apply _|by case_match]|]. intros _. apply keeps_bind; [apply _|apply local_do_net|]. intros _.
  apply keeps_bind; [apply _|by intros s1; split|]. intros u. apply local_do_net.
Qed.

Definition pull_requests (preserve : bool) (remote : bytes) : list Request :=
  (if preserve then [QStat remote] else []) ++ [QRecv remote].

Lemma attrs_server_ok dev (preserve : bool) remote st q o (d : F) rest :
  dev_typed dev -> carried remote -> stat_of dev remote = inr st ->
  arrives q ((if preserve then stat_reply dev remote else []) ++ rest) ->
  exists q', (if preserve then do! st := over (stat_server remote) in ret (Some st) else ret None) (mk_session (conn_at q o) d)
    = (mk_session (conn_at q' (o ++ concat (map request_bytes (if preserve then [QStat remote] else [])))) d,
       Ok (if preserve then Some st else None)) /\ arrives q' rest.
Proof.
  intros Hd Hc Hs Ha. destruct preserve; [|exists q; cbn; by rewrite app_nil_r].
  destruct (stat_server_ok dev remote q o rest Hd Hc Ha) as (q' & E & Ha'). exists q'. split; [|done]. rewrite Hs in E.
  rewrite (bind_ok _ _ _ _ _ (over_ok _ _ _ _ d E)). cbn [map concat]. by rewrite app_nil_r.
Qed.

Lemma pull_server_ok dev (preserve : bool) remote local f st q o (d : F) rest :
  dev_typed dev -> carried remote -> dev !! remote = Some f -> (preserve = true -> stat_of dev remote = inr st) ->
  arrives q ((answers dev (pull_requests preserve remote)).2 ++ rest) ->
  exists q' out,
    pull_file_server remote local preserve (mk_session (conn_at q o) d)
    = store_file local (d_data f) (if preserve then Some st else None) (mk_session (conn_at q' (o ++ out)) d) /\
    arrives q' rest /\ parse_requests out = Some (pull_requests preserve remote).
Proof.
  intros Hd Hc Hf Hs Ha.
  assert ((answers dev (pull_requests preserve remote)).2 ++ rest =
    (if preserve then stat_reply dev remote else []) ++ data_frames (d_data f) ++ frame SYNC_DONE [] ++ rest) as E.
  { unfold pull_requests. destruct preserve; cbn [answers answer app snd]; rewrite Hf; cbn [snd]; by rewrite app_nil_r, <- ?app_assoc. }
  rewrite E in Ha. clear E.
  assert (exists q1, (if preserve then do! st := over (stat_server remote) in ret (Some st) else ret None) (mk_session (conn_at q o) d)
    = (mk_session (conn_at q1 (o ++ concat (map request_bytes (if preserve then [QStat remote] else [])))) d,
       Ok (if preserve then Some st else None)) /\ arrives q1 (data_frames (d_data f) ++ frame SYNC_DONE [] ++ rest)) as (q1 & E1 & Ha1).
  { destruct preserve; [|exists q; cbn; by rewrite app_nil_r]. apply (attrs_server_ok dev true remote st q o d); auto. }
  set (o1 := o ++ concat (map request_bytes (if preserve then [QStat remote] else []))) in *.
  destruct (pull_data_ok (chunks MAX_CHUNK (d_data f)) (S (script_size q1)) [] (conn_at q1 (o1 ++ frame SYNC_RECV remote)) SYNC_DONE rest) as (c & E2 & Hg & Hw).
  { by apply chunks_bounds. }
  { apply arrives_size in Ha1. rewrite length_app in Ha1. pose proof (length_concat_frames (chunks MAX_CHUNK (d_data f)) SYNC_DATA). unfold data_frames in Ha1. lia. }
  { tauto. }
  { exact (gives_at _ _ _ Ha1). }
  apply same_writes_at in Hw. exists (incoming c), (concat (map request_bytes (pull_requests preserve remote))). split_and!; [|done|].
  - unfold pull_file_server, build_sync_recv_req. rewrite (bind_ok _ _ _ _ _ E1), build_path_ok by done. unfold prefixed. cbn [map_err]. rewrite bind_lift.
    rewrite (bind_ok _ _ _ _ _ (over_ok _ _ _ _ d (write_raw_ok _ q1 o1))).
    rewrite concat_chunks in E2 by done. rewrite (bind_ok _ _ _ _ _ (over_ok (fun c => pull_data (S (script_size (incoming c))) [] c) _ _ _ d E2)). cbn [app]. rewrite Hw at 1. subst o1.
    unfold pull_requests. rewrite map_app, concat_app. cbn [map concat request_bytes]. by rewrite app_nil_r, <- !app_assoc.
  - apply parse_requests_ok. unfold pull_requests. apply Forall_app; split; [destruct preserve|]; repeat constructor; by apply carried_len.
Qed.

(** What the local file system does for the file [local]: its directory can be made, it can be written and then read back, and
    its time and permissions can be set, which leaves its contents alone. *)
Record stores (local : bytes) : Prop := {
  stores_dir : forall dir (d : F), parent local = Some dir -> exists d', fs_create_dir_all dir d = (d', inr tt);
  stores_write : forall data (d : F), exists d', fs_write local data d = (d', inr tt) /\ fs_read local d' = inr data;
  stores_utime : forall data t (d : F), fs_read local d = inr data ->
    exists d', fs_utime local t d = (d', inr tt) /\ fs_read local d' = inr data /\ fs_modified local d' = inr t;
  stores_mode : forall data t m (d : F), fs_read local d = inr data -> fs_modified local d = inr t ->
    exists d', fs_set_permissions local m d = (d', inr tt) /\ fs_read local d' = inr data /\ fs_modified local d' = inr t }.

Lemma local_do_ok {T} pre (f : F -> F * (io_error + unit)) (t : T) d d' :
  f d = (d', inr tt) -> local_do pre f (mk_session t d) = (mk_session t d', Ok tt).
Proof. intros E. unfold local_do. cbn [disk net]. by rewrite E. Qed.

(** Storing a file: its contents are there afterwards, and with attributes its time, the permissions being set last. *)
Lemma store_file_ok {T} local data attrs (t : T) d :
  stores local -> (attrs <> None -> Text.position (beqb x00) local = None) ->
  exists d', store_file local data attrs (mk_session t d) = (mk_session t d', Ok tt) /\ fs_read local d' = inr data /\
    forall a, attrs = Some a -> fs_modified local d' = inr (st_mtime a) /\
      exists d2, d' = (fs_set_permissions local (Z.land (Z.land (st_mode a) 0xFFF) (Z.lxor (fs_umask d2) 0xFFFFFFFF)) d2).1.
Proof.
  intros Hst Hn. unfold store_file, create_dir.
  assert (exists d1, match parent local with
      | Some dir => local_do (B "Cannot create directory '" ++ dir ++ B "': ") (fs_create_dir_all dir)
      | None => ret tt end (mk_session t d) = (mk_session t d1, Ok tt)) as (d1 & E1).
  { destruct (parent local) as [dir|] eqn:Ep; [|by exists d]. destruct (stores_dir _ Hst dir d Ep) as (d1 & E). exists d1. by apply local_do_ok. }
  destruct (stores_write _ Hst data d1) as (d2 & E2 & R2).
  rewrite (bind_ok _ _ _ _ _ E1), (bind_ok _ _ _ _ _ (local_do_ok _ _ t _ _ E2)).
  destruct attrs as [a|]; [|by exists d2]. unfold set_time_and_mode. rewrite Hn by done. rewrite bind_lift.
  destruct (stores_utime _ Hst data (st_mtime a) d2 R2) as (d3 & E3 & R3 & M3). rewrite (bind_ok _ _ _ _ _ (local_do_ok _ _ t _ _ E3)).
  rewrite (bind_ok _ _ _ _ (fs_umask d3)) by done.
  destruct (stores_mode _ Hst data (st_mtime a) (Z.land (Z.land (st_mode a) 0xFFF) (Z.lxor (fs_umask d3) 0xFFFFFFFF)) d3 R3 M3) as (d4 & E4 & R4 & M4).
  exists d4. split_and!; [by apply local_do_ok|done|]. intros a' [= <-]. split; [done|]. exists d3. by rewrite E4.
Qed.

(** C7: A file that is pushed can be pulled back: the push of [source] through the server succeeds, a device that reads what it has
    sent then answers the pull of the target, and the pull succeeds and leaves in [local] exactly the contents that [source] has, and
    with [-a] its time, the permissions being set to 0644 less the umask at the end. *)
Theorem pushed_file_pulled_back dev (sync preserve : bool) source remote target data secs local q o (d : F) rest :
  let mtime := saturating_mtime_u32 secs in
  dev_typed dev -> carried remote -> pushable target ->
  fs_read source d = inr data -> fs_modified source d = inr secs ->
  push_target source remote (stat_of dev remote) = Ok target -> push_skips dev sync target mtime = false ->
  stores local -> (preserve = true -> Text.position (beqb x00) local = None) ->
  arrives q ((answers dev (push_requests dev sync remote target data mtime)).2 ++ rest) ->
  exists q' out reqs,
    push_file_server source remote sync (mk_session (mk_conn q o None) d) = (mk_session (mk_conn q' (o ++ out) None) d, Ok tt) /\
   parse_requests out = Some reqs /\
   let dev' := (answers dev reqs).1 in
    forall q2 o2 rest2, arrives q2 ((answers dev' (pull_requests preserve target)).2 ++ rest2) ->
    exists c d', pull_file_server target local preserve (mk_session (mk_conn q2 o2 None) d) = (mk_session c d', Ok tt) /\
     arrives (incoming c) rest2 /\
     fs_read local d' = inr data /\
     (preserve = true -> fs_modified local d' = inr mtime /\
        exists d2, d' = (fs_set_permissions local (Z.land 0x1A4 (Z.lxor (fs_umask d2) 0xFFFFFFFF)) d2).1).
Proof.
  intros mtime Hd Hc Hp Hr Hm Ht Hs Hst Hn Ha.
  destruct (push_server_ok dev sync source remote target data secs q o d rest Hd Hc Hp Hr Hm Ht Ha) as (q' & out & E & _ & Eq & _).
  exists q', out, (push_requests dev sync remote target data mtime). split_and!; [done|done|]. intros dev' q2 o2 rest2 Ha2.
  pose proof (saturating_u32 secs) as Hu. fold mtime in Hu.
  assert (dev' = <[target := mk_dev 0x1A4 data mtime]> dev) as Ed by (subst dev'; by rewrite answers_push, Hs).
  assert (dev' !! target = Some (mk_dev 0x1A4 data mtime)) as Hl by (rewrite Ed; apply lookup_insert_eq).
  destruct (pull_server_ok dev' preserve target local (mk_dev 0x1A4 data mtime) (mk_stat 0x1A4 (wrap 32 (zlen data)) mtime) q2 o2 d rest2)
    as (q3 & out2 & E2 & Ha3 & _); [rewrite Ed; by apply map_Forall_insert_2|by apply pushable_carried|done|intros _; unfold stat_of; by rewrite Hl|done|].
  destruct (store_file_ok local data (if preserve then Some (mk_stat 0x1A4 (wrap 32 (zlen data)) mtime) else None) (conn_at q3 (o2 ++ out2)) d Hst)
    as (d' & E3 & R3 & M3); [by destruct preserve; [intros _; apply Hn|]|].
  exists (conn_at q3 (o2 ++ out2)), d'. change (mk_conn q2 o2 None) with (conn_at q2 o2). split_and!; [by rewrite E2, <- E3|done|done|].
  intros ->. by apply (M3 _ eq_refl).
Qed.

(** *** Pulls from any stream *)
Lemma take_exact_data n (c c' : Conn) bs :
  take_exact n c = (c', Ok bs) -> script_data (incoming c) = bs ++ script_data (incoming c') /\ zlen bs = Z.max n 0.
Proof.
  unfold take_exact, on_err. cbn [read_exact_from conn_source]. destruct (read_exact n (incoming c)) as [q [b|e|]] eqn:E; [|done|done].
  intros [= <- <-]. by apply read_exact_data in E.
Qed.

Lemma header_frame w h :
  zlen w = 8 -> SyncMessageHeader.decode w = Ok h ->
  w = le_bytes 4 (SyncMessageHeader.id h) ++ le_bytes 4 (SyncMessageHeader.length h) /\ 0 <= SyncMessageHeader.length h.
Proof.
  intros Hw. rewrite header_decode_eq, (proj2 (Z.ltb_ge _ _)) by lia. intros [= <-]. cbn [SyncMessageHeader.id SyncMessageHeader.length].
  split; [|apply le_val_range]. rewrite !le_bytes_val by (rewrite zlen_slice; lia). rewrite <- slice_cut by lia. by rewrite slice_full by lia.
Qed.

Lemma read_pull_data (c c' : Conn) h p :
  read_pull_response c = (c', Ok (h, p)) ->
  script_data (incoming c) = frame (SyncMessageHeader.id h) p ++ script_data (incoming c') /\ zlen p <= MAX_CHUNK /\
  (SyncMessageHeader.id h = SYNC_DONE \/ SyncMessageHeader.id h = SYNC_OKAY -> p = []).
Proof.
  unfold read_pull_response, bind at 1. destruct (take_exact 8 c) as [c1 [w|e|]] eqn:E1; [|done|done]. apply take_exact_data in E1 as [E1 Hw].
  unfold bind at 1, lift. destruct (SyncMessageHeader.decode w) as [h1|e|] eqn:Ed; [|done|done]. destruct (header_frame w h1 Hw Ed) as [Ew Hl].
  cbn [map_err]. unfold frame. destruct ((_ =? SYNC_DATA) || (_ =? SYNC_FAIL)) eqn:Eid.
  - destruct (Z.ltb_spec MAX_CHUNK (SyncMessageHeader.length h1)); [done|]. unfold bind.
    destruct (take_exact (SyncMessageHeader.length h1) c1) as [c2 [p1|e|]] eqn:E2; [|done|done]. intros [= <- <- <-].
    apply take_exact_data in E2 as [E2 Hp]. rewrite Z.max_l in Hp by done. split_and!.
    + by rewrite E1, Ew, E2, Hp, <- !app_assoc.
    + lia.
    + intros [Ei|Ei]; by rewrite Ei in Eid.
  - destruct (((_ =? SYNC_DONE) || (_ =? SYNC_OKAY)) && _) eqn:Ef; [|done]. intros [= <- <- <-].
    apply andb_true_iff in Ef as [_ Ef%Z.eqb_eq]. split_and!; [|done|done]. rewrite E1, Ew, Ef. by rewrite app_nil_r, <- !app_assoc.
Qed.

(** Complete messages between [c] and [c'], with contents [data]. *)
Definition complete (c c' : Conn) (data : bytes) : Prop :=
  exists cs fin, data = concat cs /\ (fin = SYNC_DONE \/ fin = SYNC_OKAY) /\ Forall (fun x => zlen x <= MAX_CHUNK) cs /\
    script_data (incoming c) = concat (map (frame SYNC_DATA) cs) ++ frame fin [] ++ script_data (incoming c').

Lemma pull_data_complete fuel : forall acc (c c' : Conn) data,
  pull_data fuel acc c = (c', Ok data) -> exists data', data = acc ++ data' /\ complete c c' data'.
Proof.
  induction fuel as [|fuel IH]; intros acc c c' data; cbn [pull_data]; [done|]. unfold bind.
  destruct (read_pull_response c) as [c1 [[h p]|e|]] eqn:E1; [|done|done]. destruct (read_pull_data c c1 h p E1) as (Ed & Hp & Hn).
  destruct (Z.eqb_spec (SyncMessageHeader.id h) SYNC_DATA) as [Ei|Ei].
  - intros (data' & -> & cs & fin & -> & Hfin & HF & Es)%IH. exists (p ++ concat cs). split; [by rewrite <- app_assoc|].
    exists (p :: cs), fin. split_and!; [done|done|by constructor|]. cbn [map concat]. by rewrite Ed, Ei, Es, <- app_assoc.
  - destruct ((_ =? SYNC_DONE) || (_ =? SYNC_OKAY)) eqn:Ef; [|by destruct (_ =? SYNC_FAIL)]. intros [= <- <-].
    apply orb_true_iff in Ef. rewrite !Z.eqb_eq in Ef. exists []. split; [by rewrite app_nil_r|].
    exists [], (SyncMessageHeader.id h). rewrite (Hn Ef) in Ed. by split_and!.
Qed.

Lemma stat_server_reads path c c' st :
  stat_server path c = (c', Ok st) -> exists pre, script_data (incoming c) = pre ++ script_data (incoming c') /\ zlen pre = 16.
Proof.
  unfold stat_server, prefixed, write_raw_sync, on_err, write_all, write.
  destruct (build_sync_stat_req path []) as [req|e|]; [|done|done]. unfold bind at 1, lift at 1. cbn [map_err].
  unfold bind at 1. destruct (wfail c); [done|]. cbn [res_bind map_err]. set (c0 := mk_conn _ _ _). change (incoming c) with (incoming c0). clearbody c0.
  unfold read_stat_response, bind at 1. destruct (take_exact 4 c0) as [c1 [w|e|]] eqn:E1; [|done|done]. apply take_exact_data in E1 as [E1 H1].
  destruct (_ =? SYNC_FAIL).
  { unfold bind. destruct (take_exact 4 c1) as [c2 [l|e|]]; [|done|done]. destruct (_ <? _); [done|]. by destruct (take_exact _ c2) as [c3 [m|e|]]. }
  destruct (negb _); [done|]. unfold bind at 1. destruct (take_exact 12 c1) as [c2 [f|e|]] eqn:E2; [|done|done]. apply take_exact_data in E2 as [E2 H2].
  unfold bind, lift. destruct (SyncStatResponse.decode_v1_message _) as [r|e|]; [|done|done]. cbn [map_err]. destruct (negb _); [done|].
  intros [= <- _]. exists (w ++ f). rewrite E1, E2, <- app_assoc. split; [done|]. zl.
Qed.

(** C23: A pull is all or nothing, whatever comes over the connection: either it fails and leaves the local
    files alone, or the stream held (after the 16 bytes of the attributes, if they were asked for) complete
    DATA messages up to DONE or OKAY, and exactly their contents are stored. *)
Theorem pull_all_or_nothing remote local (preserve : bool) (s s' : Session Conn F) x :
  pull_file_server remote local preserve s = (s', x) ->
  (disk s' = disk s /\ exists e, x = Err e) \/
  exists pre c data attrs,
    script_data (incoming (net s)) = pre ++ script_data (incoming c) /\ zlen pre = (if preserve then 16 else 0) /\
    complete c (net s') data /\ store_file local data attrs (mk_session (net s') (disk s)) = (s', x).
Proof.
  intros E. pose proof (pull_file_server_keeps remote local preserve s) as [_ Hp]. rewrite E in Hp. cbn [snd] in Hp.
  destruct s as [c d]. revert E. unfold pull_file_server, prefixed. cbn [net disk].
  assert (exists c1 y, (if preserve then do! st := over (stat_server remote) in ret (Some st) else ret None) (mk_session c d)
    = (mk_session c1 d, y) /\ forall a, y = Ok a ->
      exists pre, script_data (incoming c) = pre ++ script_data (incoming c1) /\ zlen pre = (if preserve then 16 else 0)) as (c1 & y & Ey & Hy).
  { destruct preserve; [|exists c, (Ok None); split; [done|]; intros _ _; by exists []].
    unfold bind, over. cbn [net disk]. destruct (stat_server remote c) as [c1 [st|e|]] eqn:E1; eexists _, _; (split; [done|]); try done.
    intros _ _. by apply stat_server_reads in E1. }
  unfold bind at 1. rewrite Ey. destruct y as [attrs|e|]; [|intros [= <- <-]; left; eauto|by intros [= <- <-]].
  destruct (Hy attrs eq_refl) as (pre & Epre & Hpre). clear Ey Hy.
  unfold bind at 1, lift. destruct (build_sync_recv_req remote []) as [req|e|]; [|intros [= <- <-]; left; eauto|by intros [= <- <-]]. cbn [map_err].
  unfold bind at 1, over at 1, write_raw_sync, on_err, write_all, write. cbn [net disk]. destruct (wfail c1); [intros [= <- <-]; left; eauto|].
  cbn [res_bind map_err]. set (c2 := mk_conn _ _ _). change (incoming c1) with (incoming c2) in Epre. clearbody c2.
  unfold bind at 1, over. cbn [net disk]. destruct (pull_data _ [] c2) as [c3 [data|e|]] eqn:E3; [|intros [= <- <-]; left; eauto|by intros [= <- <-]].
  destruct (pull_data_complete _ _ _ _ _ E3) as (data' & -> & Hc). intros Est. right. exists pre, c2, data', attrs.
  pose proof (store_file_net _ _ _ _ _ _ Est) as Hn. cbn [net] in Hn. by rewrite Hn.
Qed.
End ServerTransfers.
