(* ===== verification/SyncClientDirect.v ===== *)
(** * The sync client without a server

    Directly over a transport the sync bytes travel in WRTE messages, each of which is acknowledged. The
    reader of the channel gives the same bytes, so a direct pull stores what a pull through the server
    does, and a direct push sends the same requests. *)
From S2P Require Import Prelude Text AdbHeader SyncWire Net AdbTransport Effects SyncClient SyncClientEnds SyncClientSpec.

Section Direct.
Context (l r : Z).

(** Messages of the peer on this channel, and the bytes they carry. *)
Definition peer_msg (m : AdbMessageHeader * bytes) : Prop :=
  message_ok m /\ arg0 (fst m) = r /\ arg1 (fst m) = l /\ (command (fst m) = A_WRTE \/ command (fst m) = A_OKAY).

Definition payload_of (m : AdbMessageHeader * bytes) : bytes := if command (fst m) =? A_WRTE then snd m else [].
Definition wrte_data (ms : list (AdbMessageHeader * bytes)) : bytes := concat (map payload_of ms).

Definition ack : bytes := message_bytes (Header.new A_OKAY l r [], []).

Definition reader_at (q : list event) (o pend : bytes) (pos : Z) : DirectSyncReader Conn := mk_reader (conn_at q o) l r pend pos.

Lemma receive_wrte q o pend pos m rest :
  peer_msg m -> command (fst m) = A_WRTE -> arrives q (message_bytes m ++ rest) ->
  zlen (if pos =? zlen pend then [] else pend) + zlen (snd m) <= MAX_PAYLOAD_V2 ->
  exists q', receive (reader_at q o pend pos)
    = (reader_at q' (o ++ ack) ((if pos =? zlen pend then [] else pend) ++ snd m) (if pos =? zlen pend then 0 else pos), Ok A_WRTE) /\
    arrives q' rest.
Proof.
  intros (Hm & H0 & H1 & _) Hc Ha Hfit. destruct (recv_message_arrives q m rest Hm Ha) as (q' & E & Ha'). exists q'. split; [|done].
  destruct m as [h p]. cbn [fst snd] in *. unfold receive, bind, rd_do. cbn [rd_transport reader_at t_recv t_send TcpTransport].
  unfold conn_recv. cbn [incoming conn_at]. rewrite E. cbn [map_err rd_remote rd_local rd_transport reader_at set_rd_transport].
  rewrite H0, H1, !Z.eqb_refl, Hc. cbn [negb andb]. cbn [Z.eqb Pos.eqb A_WRTE].
  rewrite send_message_out by done. cbn [map_err]. unfold keep_payload. cbn [position pending set_rd_transport reader_at].
  destruct (pos =? zlen pend); cbn [set_pending pending position]; rewrite (proj2 (Z.ltb_ge _ _)) by done; done.
Qed.

Lemma receive_okay q o pend pos m rest :
  peer_msg m -> command (fst m) = A_OKAY -> arrives q (message_bytes m ++ rest) ->
  exists q', receive (reader_at q o pend pos) = (reader_at q' o pend pos, Ok A_OKAY) /\ arrives q' rest.
Proof.
  intros (Hm & H0 & H1 & _) Hc Ha. destruct (recv_message_arrives q m rest Hm Ha) as (q' & E & Ha'). exists q'. split; [|done].
  destruct m as [h p]. cbn [fst snd] in *. unfold receive, bind, rd_do. cbn [rd_transport reader_at t_recv t_send TcpTransport].
  unfold conn_recv. cbn [incoming conn_at]. rewrite E. cbn [map_err rd_remote rd_local rd_transport reader_at set_rd_transport].
  rewrite H0, H1, !Z.eqb_refl, Hc. done.
Qed.

(** The bytes that the reader will give, and what reading writes: acknowledgements. *)
Definition direct_gives (rd : DirectSyncReader Conn) (d : bytes) : Prop :=
  exists q o pend pos ms, rd = reader_at q o pend pos /\ 0 <= pos <= zlen pend /\ Forall peer_msg ms /\
    arrives q (concat (map message_bytes ms)) /\ d = drop (Z.to_nat pos) pend ++ wrte_data ms.

Definition acked (rd rd' : DirectSyncReader Conn) : Prop :=
  exists n, outgoing (rd_transport rd') = outgoing (rd_transport rd) ++ concat (replicate n ack).

#[export] Instance acked_preorder : PreOrder acked.
Proof.
  split; [intros x; exists 0%nat; cbn; by rewrite app_nil_r|]. intros a b c [n Hn] [k Hk]. exists (n + k)%nat.
  by rewrite Hk, Hn, <- app_assoc, <- concat_app, <- replicate_add.
Qed.

(** When the pending bytes are used up the next message with data refills them. *)
Lemma refill_gives fuel : forall rd b d,
  (t_left (rd_transport rd) < fuel)%nat -> direct_gives rd (b :: d) ->
  exists rd', refill fuel rd = (rd', Ok tt) /\ direct_gives rd' (b :: d) /\ position rd' < zlen (pending rd') /\ acked rd rd'.
Proof.
  induction fuel as [|fuel IH]; intros rd b d Hf Hg; [lia|]. cbn [refill].
  destruct Hg as (q & o & pend & pos & ms & -> & Hpos & HF & Ha & Ed). cbn [position pending reader_at].
  destruct (Z.eqb_spec pos (zlen pend)) as [Ep|Ep]; cbn [negb].
  2: { exists (reader_at q o pend pos). split_and!; [done| |cbn; lia|done]. by exists q, o, pend, pos, ms. }
  destruct HF as [|m ms Hm HF].
  { cbn in Ed. rewrite app_nil_r, drop_ge in Ed by (unfold zlen in *; lia). done. }
  cbn [map concat] in Ha.
  assert (exists rd1, (receive (reader_at q o pend pos) = (rd1, Ok A_WRTE) \/ receive (reader_at q o pend pos) = (rd1, Ok A_OKAY)) /\
    direct_gives rd1 (b :: d) /\ acked (reader_at q o pend pos) rd1 ) as (rd1 & Hr & Hg1 & Hk1).
  { pose proof Hm as (Hok & _ & _ & [Hc|Hc]).
    - destruct (receive_wrte q o pend pos m _ Hm Hc Ha) as (q' & E & Ha').
      { rewrite (proj2 (Z.eqb_eq _ _) Ep). change (zlen []) with 0. apply Hok. }
      rewrite (proj2 (Z.eqb_eq _ _) Ep) in E. eexists. split; [by left|]. split.
      + exists q', (o ++ ack), ([] ++ snd m), 0, ms. split_and!; try done; [apply zlen_nonneg|]. rewrite Ed, drop_ge by (unfold zlen in *; lia).
        cbn [app]. rewrite drop_0. unfold wrte_data. cbn [map concat]. unfold payload_of at 1. by rewrite Hc.
      + exists 1%nat. cbn. by rewrite app_nil_r.
    - destruct (receive_okay q o pend pos m _ Hm Hc Ha) as (q' & E & Ha'). eexists. split; [by right|]. split.
      + exists q', o, pend, pos, ms. split_and!; try done; [lia..|]. rewrite Ed. unfold wrte_data. cbn [map concat]. unfold payload_of at 1. by rewrite Hc.
      + exists 0%nat. cbn. by rewrite app_nil_r. }
  assert (t_left (rd_transport rd1) < fuel)%nat as Hf1.
  { pose proof (receive_spec (reader_at q o pend pos) Hpos) as Hs. unfold reads_on, received in Hs. cbn in Hf.
    destruct Hr as [Er|Er]; rewrite Er in Hs; destruct Hs as (_ & _ & Hs); cbn in Hs |- *; lia. }
  destruct (IH rd1 b d Hf1 Hg1) as (rd2 & E2 & Hg2 & Hp2 & Hk2). exists rd2. split_and!; [|done|done|by transitivity rd1].
  unfold bind. destruct Hr as [Er|Er]; by rewrite Er.
Qed.

Lemma direct_read_gives n rd b d :
  0 < n -> direct_gives rd (b :: d) ->
  exists bs rest rd', direct_read n rd = (rd', Ok bs) /\ bs <> [] /\ zlen bs <= n /\ b :: d = bs ++ rest /\
    direct_gives rd' rest /\ acked rd rd'.
Proof.
  intros Hn Hg. unfold direct_read. rewrite (proj2 (Z.eqb_neq n 0)) by lia.
  destruct (refill_gives (S (t_left (rd_transport rd))) rd b d ltac:(lia) Hg) as (rd1 & E & (q & o & pend & pos & ms & -> & Hpos & HF & Ha & Ed) & Hp & Hk).
  cbn [position pending reader_at] in Hp. unfold bind. rewrite E. cbn [position pending reader_at].
  set (count := Z.min n (zlen pend - pos)). assert (0 < count <= zlen pend - pos) as Hc by lia.
  rewrite get_slice_ok by lia. exists (slice pos (pos + count) pend), (drop (Z.to_nat (pos + count)) pend ++ wrte_data ms), (reader_at q o pend (pos + count)).
  assert (zlen (slice pos (pos + count) pend) = count) as Hl by (rewrite zlen_slice; lia).
  split_and!; [done| |lia| | |].
  - intros E0. rewrite E0 in Hl. change (zlen []) with 0 in Hl. lia.
  - rewrite Ed, app_assoc. f_equal. unfold slice. rewrite Z2Nat.inj_add, <- drop_drop by lia.
    replace (Z.to_nat (pos + count - pos)) with (Z.to_nat count) by lia. symmetry. apply take_drop.
  - exists q, o, pend, (pos + count), ms. split_and!; (done || lia).
  - done.
Qed.

Lemma direct_read_exact_gives fuel : forall a acc rd d,
  (length a <= fuel)%nat -> direct_gives rd (a ++ d) ->
  exists rd', direct_read_exact fuel (zlen a) acc rd = (rd', Ok (acc ++ a)) /\ direct_gives rd' d /\ acked rd rd'.
Proof.
  induction fuel as [|fuel IH]; intros a acc rd d Hf Hg; cbn [direct_read_exact].
  { destruct a; [|cbn in Hf; lia]. exists rd. by rewrite app_nil_r. }
  destruct a as [|b a]. { exists rd. by rewrite app_nil_r. }
  rewrite (proj2 (Z.leb_gt _ _)) by (rewrite zlen_cons; pose proof (zlen_nonneg a); lia).
  destruct (direct_read_gives (zlen (b :: a)) rd b (a ++ d)) as (bs & rest & rd1 & E & Hne & Hl & Eb & Hg1 & Hk1); [rewrite zlen_cons; pose proof (zlen_nonneg a); lia|done|].
  unfold bind, attempt. rewrite E. destruct bs as [|x bs]; [done|].
  change (b :: a ++ d) with ((b :: a) ++ d) in Eb. set (bs' := x :: bs) in *. set (ba := b :: a) in *.
  assert (exists a', ba = bs' ++ a' /\ rest = a' ++ d) as (a' & Ea & Er).
  { exists (drop (length bs') ba). pose proof (f_equal (take (length bs')) Eb) as E1. pose proof (f_equal (drop (length bs')) Eb) as E2.
    rewrite take_app_length, take_app_le in E1 by (unfold zlen in Hl; lia). rewrite drop_app_length, drop_app_le in E2 by (unfold zlen in Hl; lia).
    split; [|done]. rewrite <- E1 at 1. symmetry. apply take_drop. }
  rewrite Er in Hg1. destruct (IH a' (acc ++ bs') rd1 d) as (rd2 & E2 & Hg2 & Hk2); [|done|].
  { apply (f_equal length) in Ea. rewrite length_app in Ea. subst bs'. cbn in Ea, Hf |- *. unfold ba in *. cbn in Ea. lia. }
  exists rd2. split_and!; [|done|by transitivity rd1]. replace (zlen ba - zlen bs') with (zlen a') by (rewrite Ea, zlen_app; lia).
  rewrite E2, Ea, <- app_assoc. done.
Qed.

#[local] Instance direct_source_gives : SourceGives (DirectSyncReader Conn).
Proof.
  refine {| gives := direct_gives; reads_to := acked |}. intros rd a d Hg. cbn [read_exact_from direct_source].
  destruct (direct_read_exact_gives (Z.to_nat (zlen a)) a [] rd d) as (rd' & E & Hg' & Hk); [unfold zlen; lia|done|]. by exists rd'.
Defined.

(** *** Requests *)
Definition okay_msg (m : AdbMessageHeader * bytes) : Prop := peer_msg m /\ command (fst m) = A_OKAY.
Definition wrte_msg (m : AdbMessageHeader * bytes) : Prop := peer_msg m /\ command (fst m) = A_WRTE.

Lemma wrte_data_cons m ms : wrte_msg m -> wrte_data (m :: ms) = snd m ++ wrte_data ms.
Proof. intros [_ Hc]. unfold wrte_data. cbn [map concat]. unfold payload_of at 1. by rewrite Hc. Qed.

Lemma wrte_data_app a b : wrte_data (a ++ b) = wrte_data a ++ wrte_data b.
Proof. unfold wrte_data. by rewrite map_app, concat_app. Qed.

(** Data that comes before the acknowledgement is kept. *)
Lemma request_wait_ok ms1 : forall fuel q o pend pos m ms2,
  Forall wrte_msg ms1 -> okay_msg m -> 0 <= pos <= zlen pend ->
  zlen (if pos =? zlen pend then [] else pend) + zlen (wrte_data ms1) <= MAX_PAYLOAD_V2 ->
  arrives q (concat (map message_bytes (ms1 ++ m :: ms2))) -> (script_size q < fuel)%nat ->
  exists q' pend' pos',
    request_wait fuel (reader_at q o pend pos) = (reader_at q' (o ++ concat (replicate (length ms1) ack)) pend' pos', Ok tt) /\
    arrives q' (concat (map message_bytes ms2)) /\ 0 <= pos' <= zlen pend' /\
    drop (Z.to_nat pos') pend' = drop (Z.to_nat pos) pend ++ wrte_data ms1.
Proof.
  induction ms1 as [|w ms1 IH]; intros fuel q o pend pos m ms2 HF Hm Hpos Hfit Ha Hf; (destruct fuel as [|fuel]; [lia|]); cbn [request_wait app map concat length replicate] in *.
  - destruct Hm as [Hm Hc]. destruct (receive_okay q o pend pos m _ Hm Hc Ha) as (q' & E & Ha'). exists q', pend, pos. unfold bind. rewrite E.
    split_and!; try done; [by rewrite app_nil_r|lia..|]. by rewrite app_nil_r.
  - apply list.Forall_cons in HF as [Hw HF]. rewrite wrte_data_cons, zlen_app in Hfit by done. rewrite wrte_data_cons by done. destruct Hw as [Hw Hc].
    pose proof (zlen_nonneg (wrte_data ms1)).
    destruct (receive_wrte q o pend pos w _ Hw Hc Ha) as (q1 & E & Ha1); [lia|].
    assert (script_size q1 < script_size q)%nat as Hq.
    { pose proof (receive_spec (reader_at q o pend pos) Hpos) as Hs. unfold reads_on, received in Hs. rewrite E in Hs. by destruct Hs as (_ & _ & Hs). }
    unfold bind. rewrite E. cbn [Z.eqb Pos.eqb A_WRTE A_OKAY]. pose proof (zlen_nonneg (snd w)).
    destruct (IH fuel q1 (o ++ ack) ((if pos =? zlen pend then [] else pend) ++ snd w) (if pos =? zlen pend then 0 else pos) m ms2 HF Hm)
      as (q2 & pend2 & pos2 & E2 & Ha2 & Hpos2 & Ed2).
    { rewrite zlen_app. destruct (pos =? _); [change (zlen []) with 0|]; lia. }
    { set (pend1 := _ ++ snd w). assert (zlen (if (if pos =? zlen pend then 0 else pos) =? zlen pend1 then [] else pend1) <= zlen pend1) as Hle.
      { destruct (_ =? zlen pend1); [change (zlen []) with 0; apply zlen_nonneg|lia]. }
      assert (zlen pend1 = zlen (if pos =? zlen pend then [] else pend) + zlen (snd w)) as Hz by apply zlen_app. lia. }
    { done. }
    { lia. }
    exists q2, pend2, pos2. rewrite E2. split_and!; [by rewrite <- app_assoc|done|lia|lia|]. rewrite Ed2, (app_assoc _ (snd w)). f_equal.
    destruct (Z.eqb_spec pos (zlen pend)) as [Ep|Ep]; cbn [app]; unfold zlen in *.
    + rewrite drop_0, (drop_ge pend) by lia. done.
    + by rewrite drop_app_le by lia.
Qed.

Definition wrte_out (payload : bytes) : AdbMessageHeader * bytes := (Header.new A_WRTE l r payload, payload).

Lemma send_request_ok req ms1 m ms2 q o pend pos :
  Forall wrte_msg ms1 -> okay_msg m -> 0 <= pos <= zlen pend ->
  zlen (if pos =? zlen pend then [] else pend) + zlen (wrte_data ms1) <= MAX_PAYLOAD_V2 ->
  arrives q (concat (map message_bytes (ms1 ++ m :: ms2))) -> Forall peer_msg ms2 ->
  exists rd', send_request req (reader_at q o pend pos) = (rd', Ok tt) /\
    direct_gives rd' (drop (Z.to_nat pos) pend ++ wrte_data ms1 ++ wrte_data ms2) /\
    outgoing (rd_transport rd') = o ++ message_bytes (wrte_out req) ++ concat (replicate (length ms1) ack).
Proof.
  intros HF Hm Hpos Hfit Ha HF2. unfold send_request, bind at 1, rd_do. cbn [rd_transport reader_at t_send TcpTransport rd_local rd_remote].
  rewrite send_message_out by done. cbn [map_err set_rd_transport rd_local rd_remote pending position reader_at incoming outgoing conn_at].
  destruct (request_wait_ok ms1 (S (script_size q)) q (o ++ message_bytes (wrte_out req)) pend pos m ms2 HF Hm Hpos Hfit Ha ltac:(lia))
    as (q' & pend' & pos' & E & Ha' & Hp' & Ed). exists (reader_at q' ((o ++ message_bytes (wrte_out req)) ++ concat (replicate (length ms1) ack)) pend' pos').
  split_and!; [exact E| |by rewrite <- app_assoc]. eexists q', _, pend', pos', ms2. split_and!; try done; [lia..|]. by rewrite Ed, <- app_assoc.
Qed.

Lemma direct_gives_size rd d : direct_gives rd d -> (length d <= t_left (rd_transport rd) + length (pending rd))%nat.
Proof.
  intros (q & o & pend & pos & ms & -> & Hpos & HF & Ha & ->). cbn [rd_transport reader_at pending]. rewrite length_app, length_drop.
  apply arrives_size in Ha. cbn [t_left tcp_ends incoming conn_at].
  assert (length (wrte_data ms) <= length (concat (map message_bytes ms)))%nat; [|lia].
  clear. induction ms as [|m ms IH]; [done|]. unfold wrte_data in *. cbn [map concat]. rewrite !length_app. unfold payload_of at 1, message_bytes at 1.
  rewrite length_app. destruct (_ =? _); cbn; lia.
Qed.

(** *** Pulls *)
Definition pull_outcome (dev : Device) (remote : bytes) : res bytes bytes :=
  match dev !! remote with
  | Some f => Ok (d_data f)
  | None => Err (B "Sync FAIL during pull: " ++ no_such_file)
  end.

Lemma pull_data_answer {R} `{SourceGives R} dev remote fuel (x : R) rest :
  gives x ((answer dev (QRecv remote)).2 ++ rest) -> (length (answer dev (QRecv remote)).2 < fuel)%nat ->
  exists x', pull_data fuel [] x = (x', pull_outcome dev remote) /\ gives x' rest /\ reads_to x x'.
Proof.
  unfold pull_outcome. cbn [answer snd]. destruct (dev !! remote) as [f|]; intros Hg Hf.
  - rewrite <- app_assoc in Hg. rewrite length_app in Hf.
    destruct (pull_data_ok (chunks MAX_CHUNK (d_data f)) fuel [] x SYNC_DONE rest) as (x' & E & Hg' & Hr).
    { by apply chunks_bounds. }
    { pose proof (length_concat_frames (chunks MAX_CHUNK (d_data f)) SYNC_DATA). unfold data_frames in Hf. lia. }
    { tauto. }
    { done. }
    exists x'. rewrite concat_chunks in E by done. done.
  - destruct (pull_data_fail fuel [] x no_such_file rest) as (x' & E & Hg' & Hr); [lia|done|done|]. exists x'. done.
Qed.

Section Transfers.
Context {F : Type} `{FileSystem F}.

Lemma local_do_disk pre (f : F -> F * (io_error + unit)) d : exists d' x, forall t : Conn, local_do pre f (mk_session t d) = (mk_session t d', x).
Proof. unfold local_do. cbn [disk net]. destruct (f d) as [d' y]. by exists d', (io_result pre y). Qed.

Lemma bind_disk {A} (m : M (Session Conn F) bytes A) (f : A -> M (Session Conn F) bytes unit) d :
  (exists d1 x, forall t, m (mk_session t d) = (mk_session t d1, x)) ->
  (forall a d1, exists d2 y, forall t, f a (mk_session t d1) = (mk_session t d2, y)) ->
  exists d2 y, forall t, bind m f (mk_session t d) = (mk_session t d2, y).
Proof.
  intros (d1 & x & E) Hf. destruct x as [a|e|]; [destruct (Hf a d1) as (d2 & y & E2); exists d2, y|exists d1, (Err e)|exists d1, Panic];
    intros t; unfold bind; rewrite E; [apply E2|done|done].
Qed.

(** What storing does to the files does not depend on the connection. *)
Lemma store_file_disk local data attrs d :
  exists d' x, forall t : Conn, store_file (F := F) local data attrs (mk_session t d) = (mk_session t d', x).
Proof.
  unfold store_file, create_dir. apply bind_disk; [destruct (parent local); [apply local_do_disk|by exists d, (Ok tt)]|]. intros _ d1.
  apply bind_disk; [apply local_do_disk|]. intros _ d2. destruct attrs as [a|]; [|by exists d2, (Ok tt)].
  unfold set_time_and_mode. apply bind_disk; [by eexists d2, _|]. intros _ d3. apply bind_disk; [apply local_do_disk|]. intros _ d4.
  apply bind_disk; [by exists d4, (Ok (fs_umask d4))|]. intros u d5. apply local_do_disk.
Qed.
End Transfers.

(** *** One message with the whole answer

    The reader has the bytes [d] in hand, or they are the next message; behind them the stream has [rest]. *)
Definition one_gives (rest : bytes) (rd : DirectSyncReader Conn) (d : bytes) : Prop :=
  exists q o pend pos, rd = reader_at q o pend pos /\ 0 <= pos <= zlen pend /\
    (drop (Z.to_nat pos) pend = d /\ arrives q rest \/
     pos = zlen pend /\ exists w, wrte_msg w /\ snd w = d /\ d <> [] /\ arrives q (message_bytes w ++ rest)).

Lemma pending_read q o pend pos a d :
  0 <= pos <= zlen pend -> drop (Z.to_nat pos) pend = a ++ d -> a <> [] ->
  direct_read (zlen a) (reader_at q o pend pos) = (reader_at q o pend (pos + zlen a), Ok a).
Proof.
  intros Hpos Ed Hne. assert (0 < zlen a) as Ha by (destruct a; [done|rewrite zlen_cons; pose proof (zlen_nonneg a); lia]).
  assert (zlen a + zlen d = zlen pend - pos) as Hl.
  { rewrite <- zlen_app, <- Ed. unfold zlen in *. rewrite length_drop. lia. }
  pose proof (zlen_nonneg d). unfold direct_read. rewrite (proj2 (Z.eqb_neq _ _)) by lia. unfold bind. cbn [refill position pending reader_at].
  rewrite (proj2 (Z.eqb_neq _ _)) by lia. cbn [negb position pending reader_at]. rewrite Z.min_l by lia. rewrite get_slice_ok by lia. cbn [set_pending reader_at rd_transport rd_local rd_remote pending position].
  do 2 f_equal. unfold slice. rewrite Ed. replace (Z.to_nat (pos + zlen a - pos)) with (length a) by (unfold zlen; lia). by rewrite take_app_length.
Qed.

Lemma one_gives_ready rest rd a d :
  one_gives rest rd (a ++ d) -> a <> [] ->
  exists q o pend pos, 0 <= pos <= zlen pend /\ drop (Z.to_nat pos) pend = a ++ d /\ arrives q rest /\ acked rd (reader_at q o pend pos) /\
    direct_read (zlen a) rd = direct_read (zlen a) (reader_at q o pend pos).
Proof.
  intros (q & o & pend & pos & -> & Hpos & [[Ed Ha]|(Ep & w & Hw & Ew & Hne & Ha)]) Hna.
  { exists q, o, pend, pos. split_and!; try done; lia. }
  assert (0 < zlen a) as Hl by (destruct a; [done|rewrite zlen_cons; pose proof (zlen_nonneg a); lia]).
  destruct Hw as [Hw Hc]. destruct (receive_wrte q o pend pos w rest Hw Hc Ha) as (q1 & E & Ha1).
  { rewrite (proj2 (Z.eqb_eq _ _) Ep). change (zlen []) with 0. apply Hw. }
  rewrite (proj2 (Z.eqb_eq _ _) Ep) in E. cbn [app] in E. rewrite Ew in E.
  exists q1, (o ++ ack), (a ++ d), 0. split_and!; [done|apply zlen_nonneg|by rewrite drop_0|done|exists 1%nat; cbn; by rewrite app_nil_r|].
  unfold direct_read. rewrite (proj2 (Z.eqb_neq _ _)) by lia. unfold bind at 1 2. cbn [refill]. cbn [position pending reader_at].
  rewrite (proj2 (Z.eqb_eq _ _) Ep), (proj2 (Z.eqb_neq 0 _)) by (rewrite zlen_app; pose proof (zlen_nonneg d); lia). cbn [negb].
  unfold bind at 1. rewrite E. assert (t_left (rd_transport (reader_at q o pend pos)) <> 0%nat) as Ht.
  { pose proof (receive_spec (reader_at q o pend pos) Hpos) as Hs. unfold reads_on, received in Hs. rewrite E in Hs. lia. }
  destruct (t_left _) as [|n]; [done|]. cbn [refill position pending reader_at].
  rewrite (proj2 (Z.eqb_neq 0 _)) by (rewrite zlen_app; pose proof (zlen_nonneg d); lia). done.
Qed.

Definition one_source_gives (rest : bytes) : SourceGives (DirectSyncReader Conn).
Proof.
  refine {| gives := one_gives rest; reads_to := acked |}. intros rd a d Hg. cbn [read_exact_from direct_source].
  destruct a as [|b a]; [by exists rd|]. set (x := b :: a) in *.
  assert (0 < zlen x) as Hx by (subst x; rewrite zlen_cons; pose proof (zlen_nonneg a); lia).
  destruct (one_gives_ready rest rd x d Hg ltac:(done)) as (q & o & pend & pos & Hpos & Ed & Ha & Hk & E).
  exists (reader_at q o pend (pos + zlen x)). split_and!; [| |done].
  - destruct (Z.to_nat (zlen x)) as [|n] eqn:En; [lia|]. cbn [direct_read_exact]. rewrite (proj2 (Z.leb_gt _ _)) by lia.
    unfold bind, attempt. rewrite E, (pending_read q o pend pos x d Hpos Ed) by done. subst x. cbn [app].
    rewrite Z.sub_diag. by destruct n.
  - assert (zlen x + zlen d = zlen pend - pos) as Hl.
    { rewrite <- zlen_app, <- Ed. unfold zlen in *. rewrite length_drop. lia. }
    pose proof (zlen_nonneg d). exists q, o, pend, (pos + zlen x). split_and!; [done|lia|lia|]. left. split; [|done].
    rewrite Z2Nat.inj_add, <- drop_drop, Ed by lia. unfold zlen. by rewrite Nat2Z.id, drop_app_length.
Defined.

(** STAT on the channel: the reader has used up the answer. *)
Lemma stat_channel_ok dev path q o k w rest :
  dev_typed dev -> carried path -> okay_msg k -> wrte_msg w -> snd w = stat_reply dev path ->
  arrives q (message_bytes k ++ message_bytes w ++ rest) ->
  exists q' n pend, stat_on_direct_channel path (reader_at q o [] 0)
    = (reader_at q' (o ++ message_bytes (wrte_out (request_bytes (QStat path))) ++ concat (replicate n ack)) pend (zlen pend), of_attempt (stat_of dev path)) /\
    arrives q' rest.
Proof.
  intros Hd Hc [Hk Hck] Hw Ew Ha. unfold stat_on_direct_channel, build_sync_stat_req.
  rewrite build_path_ok by done. cbn [map_err]. rewrite bind_lift.
  set (o1 := o ++ message_bytes (wrte_out (frame SYNC_STAT path))).
  destruct (receive_okay q o1 [] 0 k _ Hk Hck Ha) as (q1 & E1 & Ha1).
  assert (send_request (frame SYNC_STAT path) (reader_at q o [] 0) = (reader_at q1 o1 [] 0, Ok tt)) as Es.
  { unfold send_request, bind at 1, rd_do. cbn [rd_transport reader_at t_send TcpTransport rd_local rd_remote].
    rewrite send_message_out by done. transitivity (request_wait (S (script_size q)) (reader_at q o1 [] 0)); [done|].
    cbn [request_wait]. unfold bind. by rewrite E1. }
  rewrite (bind_ok _ _ _ _ _ (on_err_ok _ _ _ _ _ Es)).
  destruct (@read_stat_ok _ _ (one_source_gives rest) dev path (reader_at q1 o1 [] 0) [] Hd) as (rd & E & Hg & [n Hn]).
  { rewrite app_nil_r. exists q1, o1, [], 0. split_and!; [done|done|done|]. right. split; [done|]. by exists w. }
  rewrite E. destruct Hg as (q2 & o2 & pend & pos & -> & Hpos & [[Hdr Ha2]|(_ & _ & _ & _ & Hne & _)]); [|done].
  cbn in Hn. assert (pos = zlen pend) as ->.
  { apply (f_equal length) in Hdr. rewrite length_drop in Hdr. unfold zlen in *. cbn in Hdr. lia. }
  exists q2, n, pend. split; [|done]. rewrite Hn. subst o1. by rewrite <- app_assoc.
Qed.

Lemma stat_direct_ok dev path q o k w rest :
  dev_typed dev -> carried path -> okay_msg k -> wrte_msg w -> snd w = stat_reply dev path ->
  arrives q (message_bytes k ++ message_bytes w ++ rest) ->
  exists q' n, stat_direct_inner l r path (conn_at q o)
    = (conn_at q' (o ++ message_bytes (wrte_out (request_bytes (QStat path))) ++ concat (replicate n ack)), of_attempt (stat_of dev path)) /\
    arrives q' rest.
Proof.
  intros Hd Hc Hk Hw Ew Ha. destruct (stat_channel_ok dev path q o k w rest Hd Hc Hk Hw Ew Ha) as (q' & n & pend & E & Ha').
  exists q', n. split; [|done]. unfold stat_direct_inner, with_reader. change (reader_new l r (conn_at q o)) with (reader_at q o [] 0). by rewrite E.
Qed.

(** *** Pushes *)
Lemma send_wrte_ok p q o k rest :
  okay_msg k -> arrives q (message_bytes k ++ rest) ->
  exists q', send_wrte l r p (conn_at q o) = (conn_at q' (o ++ message_bytes (wrte_out p)), Ok tt) /\ arrives q' rest.
Proof.
  intros [(Hk & _) Hc] Ha. destruct (recv_message_arrives q k rest Hk Ha) as (q' & E & Ha'). exists q'. split; [|done].
  unfold send_wrte, bind, tsend, on_err. cbn [t_send TcpTransport]. rewrite send_message_out by done. cbn [map_err wrte_wait].
  unfold bind, trecv, on_err. cbn [t_recv TcpTransport]. unfold conn_recv. cbn [incoming conn_at]. rewrite E. cbn [map_err]. destruct k as [h b]. cbn [fst] in Hc.
  by rewrite Hc.
Qed.

Lemma send_wrtes_ok ps : forall oks q o rest,
  Forall okay_msg oks -> length oks = length ps -> arrives q (concat (map message_bytes oks) ++ rest) ->
  exists q', for_each (send_wrte l r) ps (conn_at q o) = (conn_at q' (o ++ concat (map message_bytes (map wrte_out ps))), Ok tt) /\ arrives q' rest.
Proof.
  induction ps as [|p ps IH]; intros [|k oks] q o rest HF Hl Ha; cbn [for_each map concat] in *; try done.
  { exists q. by rewrite app_nil_r. }
  apply list.Forall_cons in HF as [Hk HF]. rewrite <- app_assoc in Ha. destruct (send_wrte_ok p q o k _ Hk Ha) as (q1 & E1 & Ha1).
  destruct (IH oks q1 (o ++ message_bytes (wrte_out p)) rest HF ltac:(by injection Hl) Ha1) as (q2 & E2 & Ha2). exists q2.
  rewrite (bind_ok _ _ _ _ _ E1), E2, <- app_assoc. done.
Qed.

Lemma recv_sync_ok q o w rest :
  wrte_msg w -> snd w = frame SYNC_OKAY [] -> arrives q (message_bytes w ++ rest) ->
  exists q', recv_sync_response l (conn_at q o) = (conn_at q' (o ++ ack), Ok tt) /\ arrives q' rest.
Proof.
  intros [(Hw & H0 & _) Hc] Ew Ha. destruct (recv_message_arrives q w rest Hw Ha) as (q' & E & Ha'). exists q'. split; [|done].
  unfold recv_sync_response. cbn [recv_sync_go]. unfold bind, trecv, on_err. cbn [t_recv TcpTransport]. unfold conn_recv. cbn [incoming conn_at]. rewrite E. cbn [map_err].
  destruct w as [h b]. cbn [fst snd] in *. rewrite Hc. cbn [Z.eqb Pos.eqb A_WRTE A_OKAY]. unfold tsend_ignored, bind, attempt, tsend, on_err. cbn [t_send TcpTransport].
  rewrite send_message_out by done. cbn [map_err]. unfold ret, lift. rewrite Ew, H0. done.
Qed.

Definition ack_out : AdbMessageHeader * bytes := (Header.new A_OKAY l r [], []).

Lemma wrte_data_acks n : wrte_data (replicate n ack_out) = [].
Proof. induction n as [|n IH]; [done|]. unfold wrte_data in *. cbn. by rewrite IH. Qed.

Lemma wrte_data_cons_out p ms : wrte_data (wrte_out p :: ms) = p ++ wrte_data ms.
Proof. done. Qed.

Lemma wrte_data_outs ps : wrte_data (map wrte_out ps) = concat ps.
Proof. unfold wrte_data. induction ps as [|p ps IH]; [done|]. cbn [map concat]. by rewrite IH. Qed.

(** *** Both pulls

    The requests of a pull from the device: with [-a] a STAT first, and nothing more when it finds no file. *)
Definition pull_asks (dev : Device) (preserve : bool) (remote : bytes) : list Request :=
  if preserve then QStat remote :: (match stat_of dev remote with inr _ => [QRecv remote] | inl _ => [] end) else [QRecv remote].

Definition pull_attrs (dev : Device) (preserve : bool) (remote : bytes) : res bytes (option FileStat) :=
  if preserve then let! st := of_attempt (stat_of dev remote) in Ok (Some st) else Ok None.

(** What both pulls come to: the attributes, the contents, and the file stored. *)
Definition pull_result {F} `{FileSystem F} (dev : Device) (preserve : bool) (remote local : bytes) : M (Session Conn F) bytes unit :=
  do! attrs := lift (pull_attrs dev preserve remote) in
  do! data := lift (pull_outcome dev remote) in store_file local data attrs.

Section Pulls.
Context {F : Type} `{FileSystem F}.

Lemma pull_result_disk dev preserve remote local d :
  exists d' x, forall t : Conn, pull_result dev preserve remote local (mk_session t d) = (mk_session t d', x).
Proof.
  apply bind_disk; [by eexists d, _|]. intros a d1. apply bind_disk; [by eexists d1, _|]. intros data d2. apply store_file_disk.
Qed.

Lemma recv_server_answer dev remote local attrs q o (d : F) :
  carried remote -> arrives q (answer dev (QRecv remote)).2 ->
  exists c, (do! recv_buf := lift (prefixed (B "Build RECV req failed: ") sync_error_text (build_sync_recv_req remote [])) in
    do! _ := over (write_raw_sync recv_buf) in
    do! file_data := over (fun c => pull_data (S (script_size (incoming c))) [] c) in
    store_file local file_data attrs) (mk_session (conn_at q o) d)
    = bind (lift (pull_outcome dev remote)) (fun data => store_file local data attrs) (mk_session c d) /\
    outgoing c = o ++ request_bytes (QRecv remote).
Proof.
  intros Hc Ha. unfold build_sync_recv_req. rewrite build_path_ok by done. unfold prefixed. cbn [map_err]. rewrite bind_lift.
  rewrite (bind_ok _ _ _ _ _ (over_ok _ _ _ _ d (write_raw_ok _ q o))). rewrite <- (app_nil_r (answer _ _).2) in Ha.
  destruct (pull_data_answer dev remote (S (script_size q)) (conn_at q (o ++ frame SYNC_RECV remote)) []) as (c & E & Hg & Hw).
  { exact (gives_at _ _ _ Ha). }
  { apply arrives_size in Ha. rewrite app_nil_r in Ha. lia. }
  exists c. apply same_writes_at in Hw. split; [|by rewrite Hw]. unfold bind at 1.
  rewrite (over_ok (F := F) (fun c => pull_data (S (script_size (incoming c))) [] c) _ _ _ d E). unfold bind, lift. by destruct (pull_outcome dev remote).
Qed.

Lemma pull_server_answer dev (preserve : bool) remote local q o (d : F) :
  dev_typed dev -> carried remote -> arrives q (answers dev (pull_asks dev preserve remote)).2 ->
  exists c, pull_file_server remote local preserve (mk_session (conn_at q o) d) = pull_result dev preserve remote local (mk_session c d) /\
    outgoing c = o ++ concat (map request_bytes (pull_asks dev preserve remote)).
Proof.
  intros Hd Hc Ha. unfold pull_file_server, pull_result, pull_asks, pull_attrs in *. destruct preserve.
  - cbn [answers answer map concat] in *.
    assert (arrives q (stat_reply dev remote ++ match stat_of dev remote with inr _ => (answer dev (QRecv remote)).2 | inl _ => [] end)) as Ha'.
    { destruct (stat_of dev remote); cbn [answers] in Ha; [exact Ha|]. cbn [answer] in *. by rewrite app_nil_r in Ha. }
    destruct (stat_server_ok dev remote q o _ Hd Hc Ha') as (q1 & E1 & Ha1).
    assert ((do! st := over (F := F) (stat_server remote) in ret (Some st)) (mk_session (conn_at q o) d)
      = (mk_session (conn_at q1 (o ++ request_bytes (QStat remote))) d, let! st := of_attempt (stat_of dev remote) in Ok (Some st))) as E2.
    { unfold bind at 1. rewrite (over_ok (F := F) _ _ _ _ d E1). by destruct (stat_of dev remote). }
    destruct (stat_of dev remote) as [e|st]; cbn [of_attempt res_bind map concat] in *.
    + rewrite (bind_err _ _ _ _ _ E2). eexists. split; [done|]. by rewrite app_nil_r.
    + rewrite (bind_ok _ _ _ _ _ E2). destruct (recv_server_answer dev remote local (Some st) q1 (o ++ request_bytes (QStat remote)) d Hc Ha1) as (c & E & Ho).
      exists c. split; [exact E|]. by rewrite Ho, app_nil_r, <- app_assoc.
  - cbn [answers map concat] in *. destruct (answer dev (QRecv remote)) as [dev1 a] eqn:Ea. cbn [answers snd] in Ha. rewrite app_nil_r in Ha.
    destruct (recv_server_answer dev remote local None q o d Hc) as (c & E & Ho); [by rewrite Ea|].
    exists c. split; [exact E|]. by rewrite Ho, app_nil_r.
Qed.

(** The device's messages in a direct pull: with [-a] the acknowledgement of the STAT request and its answer in one message; then the
    answer to the RECV request in the payloads of WRTE messages, cut anyhow, also in front of the acknowledgement of the request. *)
Inductive pull_messages (dev : Device) (remote : bytes) : bool -> list (AdbMessageHeader * bytes) -> Prop :=
| pull_recv ms1 m ms2 :
    Forall wrte_msg ms1 -> okay_msg m -> Forall peer_msg ms2 -> zlen (wrte_data ms1) <= MAX_PAYLOAD_V2 ->
    wrte_data (ms1 ++ ms2) = (answer dev (QRecv remote)).2 -> pull_messages dev remote false (ms1 ++ m :: ms2)
| pull_stat k w st ms :
    okay_msg k -> wrte_msg w -> snd w = stat_reply dev remote -> stat_of dev remote = inr st ->
    pull_messages dev remote false ms -> pull_messages dev remote true (k :: w :: ms)
| pull_absent k w e :
    okay_msg k -> wrte_msg w -> snd w = stat_reply dev remote -> stat_of dev remote = inl e ->
    pull_messages dev remote true [k; w].

(** The requests as messages, each followed by the acknowledgements of the messages with data that were read after it. *)
Definition requests_sent (reqs : list Request) (acks : list nat) : bytes :=
  concat (zip_with (fun req n => message_bytes (wrte_out (request_bytes req)) ++ concat (replicate n ack)) reqs acks).

Lemma recv_direct_answer dev remote q o pend ms {A} (a : A) :
  carried remote -> pull_messages dev remote false ms -> arrives q (concat (map message_bytes ms)) ->
  exists c n, (let '(rd, x) := (do! recv_buf := lift (prefixed (B "Build RECV req failed: ") sync_error_text (build_sync_recv_req remote [])) in
      do! _ := on_err io_msg (send_request recv_buf) in
      do! file_data := (fun r => pull_data (S (t_left (rd_transport r) + length (pending r))) [] r) in
      ret (a, file_data)) (reader_at q o pend (zlen pend)) in (rd_transport rd, x))
    = (c, let! data := pull_outcome dev remote in Ok (a, data)) /\
    outgoing c = o ++ message_bytes (wrte_out (request_bytes (QRecv remote))) ++ concat (replicate n ack).
Proof.
  intros Hc Hp Ha. inversion Hp as [ms1 m ms2 HF1 Hm HF2 Hfit Hd| |]; subst.
  destruct (send_request_ok (frame SYNC_RECV remote) ms1 m ms2 q o pend (zlen pend) HF1 Hm) as (rd1 & E1 & Hg1 & Ho1).
  { pose proof (zlen_nonneg pend). lia. }
  { by rewrite Z.eqb_refl. }
  { done. }
  { done. }
  assert (drop (Z.to_nat (zlen pend)) pend = []) as Hz by (unfold zlen; rewrite Nat2Z.id; apply drop_all).
  rewrite Hz in Hg1. cbn [app] in Hg1. rewrite <- wrte_data_app, Hd, <- (app_nil_r (answer _ _).2) in Hg1.
  destruct (pull_data_answer dev remote (S (t_left (rd_transport rd1) + length (pending rd1))) rd1 []) as (rd2 & E2 & Hg2 & [n Hn]).
  { exact Hg1. }
  { apply direct_gives_size in Hg1. rewrite app_nil_r in Hg1. lia. }
  exists (rd_transport rd2), (length ms1 + n)%nat. split.
  - unfold build_sync_recv_req. rewrite build_path_ok by done. unfold prefixed. cbn [map_err]. rewrite bind_lift.
    rewrite (bind_ok _ _ _ _ _ (on_err_ok _ _ _ _ _ E1)). unfold bind. rewrite E2. by destruct (pull_outcome dev remote).
  - rewrite Hn, Ho1, replicate_add, concat_app, <- !app_assoc. done.
Qed.

Lemma pull_direct_answer dev (preserve : bool) remote local q o ms (d : F) :
  dev_typed dev -> carried remote -> pull_messages dev remote preserve ms -> arrives q (concat (map message_bytes ms)) ->
  exists c acks, pull_file_direct l r remote local preserve (mk_session (conn_at q o) d) = pull_result dev preserve remote local (mk_session c d) /\
    length acks = length (pull_asks dev preserve remote) /\ outgoing c = o ++ requests_sent (pull_asks dev preserve remote) acks.
Proof.
  intros Hd Hc Hp Ha.
  assert (exists c acks, with_reader l r (pull_direct_data remote preserve) (conn_at q o)
      = (c, let! attrs := pull_attrs dev preserve remote in let! data := pull_outcome dev remote in Ok (attrs, data)) /\
    length acks = length (pull_asks dev preserve remote) /\ outgoing c = o ++ requests_sent (pull_asks dev preserve remote) acks) as (c & acks & E & Hl & Ho).
  { unfold with_reader, pull_direct_data, pull_attrs, pull_asks. change (reader_new l r (conn_at q o)) with (reader_at q o [] 0).
    destruct preserve.
    - inversion Hp as [|k w st ms' Hk Hw Ew Hst Hms|k w e Hk Hw Ew Hst]; subst; cbn [map concat] in Ha;
        destruct (stat_channel_ok dev remote q o k w _ Hd Hc Hk Hw Ew Ha) as (q1 & n1 & pend & E1 & Ha1);
        rewrite Hst in *; cbn [of_attempt res_bind] in *.
      + rewrite (bind_ok _ _ _ _ (Some st) (bind_ok _ _ _ _ _ E1)). set (o1 := o ++ _) in E1 |- *.
        destruct (recv_direct_answer dev remote q1 o1 pend ms' (Some st) Hc Hms Ha1) as (c & n2 & E2 & Ho2).
        exists c, [n1; n2]. split_and!; [exact E2|done|]. rewrite Ho2. subst o1. unfold requests_sent. cbn [zip_with concat].
        by rewrite app_nil_r, <- !app_assoc.
      + rewrite (bind_err _ _ _ _ e (bind_err _ _ _ _ _ E1)). eexists _, [n1]. split_and!; [done|done|].
        cbn [rd_transport reader_at outgoing conn_at]. unfold requests_sent. cbn. by rewrite !app_nil_r.
    - destruct (recv_direct_answer dev remote q o [] ms (None : option FileStat) Hc Hp Ha) as (c & n & E & Ho).
      exists c, [n]. split_and!; [exact E|done|]. rewrite Ho. unfold requests_sent. cbn [zip_with concat]. by rewrite app_nil_r. }
  exists c, acks. split_and!; [|done|done]. unfold pull_file_direct, pull_result. unfold bind at 1. rewrite (over_ok (F := F) _ _ _ _ d E).
  unfold bind, lift. destruct (pull_attrs dev preserve remote) as [a|e|]; [|done|done]. cbn [res_bind]. by destruct (pull_outcome dev remote).
Qed.

(** C22: A direct pull does to the local files what a pull through the server does, and has the same result, with [-a] (a STAT request and
    its answer, then the file, with its time and mode) and without, and whether the file is there or not, when the device's
    answers travel in WRTE messages ([pull_messages]: the contents cut anyhow, also in front of the
    acknowledgement of the request); it writes the same requests, each in one message, and acknowledges messages with data. *)
Theorem pull_direct_as_server dev (preserve : bool) remote local qs os q o ms (d : F) :
  dev_typed dev -> carried remote -> pull_messages dev remote preserve ms ->
  arrives qs (answers dev (pull_asks dev preserve remote)).2 ->
  arrives q (concat (map message_bytes ms)) ->
  exists cs cd d' x acks,
    pull_file_server remote local preserve (mk_session (mk_conn qs os None) d) = (mk_session cs d', x) /\
    pull_file_direct l r remote local preserve (mk_session (mk_conn q o None) d) = (mk_session cd d', x) /\
    outgoing cs = os ++ concat (map request_bytes (pull_asks dev preserve remote)) /\
    length acks = length (pull_asks dev preserve remote) /\
    outgoing cd = o ++ requests_sent (pull_asks dev preserve remote) acks.
Proof.
  intros Hd Hc Hp Hs Ha. destruct (pull_server_answer dev preserve remote local qs os d Hd Hc Hs) as (cs & Es & Hos).
  destruct (pull_direct_answer dev preserve remote local q o ms d Hd Hc Hp Ha) as (cd & acks & Ed & Hl & Hod).
  destruct (pull_result_disk dev preserve remote local d) as (d' & x & Ex). exists cs, cd, d', x, acks.
  change (mk_conn qs os None) with (conn_at qs os). change (mk_conn q o None) with (conn_at q o). by rewrite Es, Ed, !Ex.
Qed.
End Pulls.

(** A direct push sends the same requests as one through the server, each sync message as a WRTE message
    that it has acknowledged before the next, and succeeds when the device has stored the file. *)
Theorem push_direct_sends {F} `{FileSystem F} dev local remote target data secs q o (d : F) k w oks w' rest :
  let mtime := saturating_mtime_u32 secs in
  dev_typed dev -> carried remote -> pushable target ->
  fs_read local d = inr data -> fs_modified local d = inr secs ->
  push_target local remote (stat_of dev remote) = Ok target ->
  okay_msg k -> wrte_msg w -> snd w = stat_reply dev remote ->
  Forall okay_msg oks -> length oks = length (file_messages target data mtime) ->
  wrte_msg w' -> snd w' = frame SYNC_OKAY [] ->
  arrives q (concat (map message_bytes (k :: w :: oks ++ [w'])) ++ rest) ->
  exists q' sent,
    push_file_direct l r local remote false (mk_session (mk_conn q o None) d)
    = (mk_session (mk_conn q' (o ++ concat (map message_bytes sent)) None) d, Ok tt) /\
    arrives q' rest /\ parse_requests (wrte_data sent) = Some (push_requests dev false remote target data mtime).
Proof.
  intros mtime Hd Hc Hp Hr Hm Ht Hk Hw Ew Ho Hlo Hw' Ew' Ha. cbn [map concat] in Ha. rewrite map_app, concat_app, <- !app_assoc in Ha. cbn [map concat] in Ha.
  destruct (stat_direct_ok dev remote q o k w _ Hd Hc Hk Hw Ew Ha) as (q1 & n & E1 & Ha1).
  set (o1 := o ++ _) in E1.
  destruct (send_wrtes_ok (file_messages target data mtime) oks q1 o1 _ Ho Hlo Ha1) as (q2 & E2 & Ha2). rewrite app_nil_r in Ha2.
  set (o2 := o1 ++ _) in E2. destruct (recv_sync_ok q2 o2 w' rest Hw' Ew' Ha2) as (q3 & E3 & Ha3).
  exists q3, (wrte_out (request_bytes (QStat remote)) :: replicate n ack_out ++ map wrte_out (file_messages target data mtime) ++ [ack_out]). split_and!; [|done|].
  - change (mk_conn q o None) with (conn_at q o). unfold push_file_direct, push_file.
    rewrite (bind_ok _ _ _ _ _ (attempt_of _ _ _ _ (over_ok _ _ _ _ d E1))), Ht, bind_lift.
    rewrite (bind_ok _ _ _ _ _ (local_mtime_ok _ _ _ _ Hm)). unfold skip_file. rewrite (bind_ok _ _ _ _ false) by done.
    rewrite (bind_ok _ _ _ _ _ (local_read_ok _ _ _ _ _ Hr)).
    fold mtime. unfold bind at 1. rewrite (over_ok _ _ (conn_at q2 o2) (Ok tt) d (eq_trans (send_file_eq _ _ _ _ _ Hp) E2)), (over_ok _ _ _ _ d E3).
    do 3 f_equal. subst o2 o1. cbn [map concat]. rewrite !map_app, !concat_app. cbn [map concat].
    assert (concat (map message_bytes (replicate n ack_out)) = concat (replicate n ack)) as ->.
    { clear. induction n as [|n IH]; [done|]. cbn [replicate map concat]. by rewrite IH. }
    rewrite app_nil_r, <- !app_assoc. done.
  - rewrite wrte_data_cons_out, !wrte_data_app, wrte_data_acks, wrte_data_outs, concat_file_messages. cbn [app].
    change (wrte_data [ack_out]) with (@nil byte). rewrite app_nil_r.
    transitivity (parse_requests (concat (map request_bytes (push_requests dev false remote target data mtime)))).
    { unfold push_requests. cbn [push_skips andb app map concat]. by rewrite app_nil_r. }
    apply parse_requests_ok. unfold push_requests. cbn [push_skips andb app]. constructor; [by apply carried_len|]. constructor; [|constructor].
    apply pushable_request; [done|apply saturating_u32].
Qed.
End Direct.
