(* ===== verification/SyncClientFiles.v ===== *)
(** * The files of a directory, and sample runs of the sync client

    The local files that a push of a directory sends, for every directory tree; an in-memory file system
    and runs of the client over it, and the listing of a remote directory as a device sends it. *)
From S2P Require Import Prelude Text AdbHeader SyncWire Net AdbTransport Effects SyncClient SyncClientEnds SyncClientSpec SyncClientDirect.

(** ** Directory trees *)
Inductive tree := TFile | TOther | TDir (entries : list (bytes * tree)).

Fixpoint depth (t : tree) : nat :=
  match t with
  | TDir es => S (foldr Nat.max 0%nat (map (fun '(_, t) => depth t) es))
  | _ => 0%nat
  end.

Definition hidden (name : bytes) : bool := starts_with (B ".") name.

(** The files below a directory, by their paths from it; hidden names are left out. *)
Fixpoint rel_files (t : tree) : list bytes :=
  match t with
  | TDir es =>
      concat (map (fun '(name, t) =>
        if hidden name then [] else
        match t with
        | TFile => [name]
        | TOther => []
        | TDir _ => map (fun r => name ++ B "/" ++ r) (rel_files t)
        end) es)
  | _ => []
  end.

Section LocalList.
Context {F : Type} `{FileSystem F} {T : Type}.

(** The file system has [t] at a path, and [es] in a directory whose path ends with a slash; names are text. *)
Inductive holds (d : F) : bytes -> tree -> Prop :=
| holds_file p : fs_lstat p d = inr FtFile -> holds d p TFile
| holds_other p : fs_lstat p d = inr FtOther -> holds d p TOther
| holds_dir p es : fs_lstat p d = inr FtDir -> holds_entries d (p ++ B "/") es -> holds d p (TDir es)
with holds_entries (d : F) : bytes -> list (bytes * tree) -> Prop :=
| holds_all dir es :
    fs_read_dir dir d = inr (map (fun '(name, _) => inr name) es) ->
    (forall name t, (name, t) ∈ es -> is_utf8 name = true /\ (hidden name = false -> holds d (dir ++ name) t)) -> holds_entries d dir es.

Lemma depth_entry es name t : (name, t) ∈ es -> (depth t < depth (TDir es))%nat.
Proof.
  cbn [depth]. induction es as [|[n u] es IH]; intros Hin; [by apply elem_of_nil in Hin|]. apply elem_of_cons in Hin as [[= -> ->]|Hin]; cbn; [lia|].
  specialize (IH Hin). lia.
Qed.

(** A loop whose iterations each give their part. *)
Lemma collect_ok {S E A C} (f : A -> M S E (list C)) (g : A -> list C) l s :
  (forall x, x ∈ l -> f x s = (s, Ok (g x))) -> collect f l s = (s, Ok (concat (map g l))).
Proof.
  induction l as [|x l IH]; intros Hf; [done|]. cbn [collect map concat]. unfold bind. rewrite Hf by left. rewrite IH; [done|].
  intros y Hy. apply Hf. by right.
Qed.

Lemma collect_map {S E A A' C} (f : A' -> M S E (list C)) (h : A -> A') l s : collect f (map h l) s = collect (fun x => f (h x)) l s.
Proof. revert s. induction l as [|x l IH]; intros s; [done|]. cbn [collect map]. apply bind_eq; [done|]. intros a s1. unfold bind. by rewrite IH. Qed.

Lemma local_list_ok local remote fuel : forall sub es (s : Session T F),
  (depth (TDir es) <= fuel)%nat -> is_utf8 (local ++ sub) = true -> holds_entries (disk s) (local ++ sub) es ->
  build_local_file_list_recursive fuel local remote (local ++ sub) s
  = (s, Ok (map (fun r => (local ++ sub ++ r, remote ++ sub ++ r)) (rel_files (TDir es)))).
Proof.
  induction fuel as [|fuel IH]; intros sub es s Hf Hu He; [cbn in Hf; lia|]. cbn [build_local_file_list_recursive].
  inversion He as [dir es' Hd He' E1 E2]; subst. unfold bind at 1, local_read at 1. rewrite Hd. cbn [io_result]. rewrite collect_map.
  rewrite (collect_ok _ (fun '(name, t) => map (fun r => (local ++ sub ++ r, remote ++ sub ++ r))
    (if hidden name then [] else match t with TFile => [name] | TOther => [] | TDir _ => map (fun r => name ++ B "/" ++ r) (rel_files t) end))).
  { cbn [rel_files]. rewrite concat_map, map_map. do 3 f_equal. apply map_ext. by intros [name t]. }
  intros [name t] Hin. destruct (He' name t Hin) as [Hn Ht]. rewrite bind_lift, lossy_utf8 by done. fold (hidden name).
  destruct (hidden name); [done|]. specialize (Ht eq_refl). assert (is_utf8 ((local ++ sub) ++ name) = true) as Hun by by apply utf8_app.
  inversion Ht as [p Hk|p Hk|p es1 Hk Hes]; subst; unfold bind, attempt, local_read; rewrite Hk; cbn [io_result].
  - rewrite lossy_utf8 by done. rewrite <- app_assoc, strip_prefix_app. done.
  - done.
  - rewrite lossy_utf8 by done.
    replace (((local ++ sub) ++ name) ++ B "/") with (local ++ sub ++ name ++ B "/") in * by by rewrite <- !app_assoc.
    rewrite (IH (sub ++ name ++ B "/") es1); [|apply depth_entry in Hin; lia| |done].
    + rewrite map_map. do 2 f_equal. apply map_ext. intros r. by rewrite <- !app_assoc.
    + rewrite !app_assoc. by apply utf8_app.
Qed.
End LocalList.

Lemma with_slash_ends p : ends_with (B "/") p = true -> with_slash p = p.
Proof. unfold with_slash. by intros ->. Qed.

(** Pushing a directory sends exactly its regular files, at any depth, each to the remote directory with
    its path from the local one; hidden files and directories and other kinds of files are left out. *)
Theorem local_list_complete {F} `{FileSystem F} {T} (local remote : bytes) es fuel (s : Session T F) :
  (depth (TDir es) <= fuel)%nat -> is_utf8 local = true -> holds_entries (disk s) (with_slash local) es ->
  build_local_file_list fuel local remote s
  = (s, Ok (map (fun r => (with_slash local ++ r, with_slash remote ++ r)) (rel_files (TDir es)))).
Proof.
  intros Hf Hu He. unfold build_local_file_list. rewrite <- (app_nil_r (with_slash local)) at 2.
  rewrite (local_list_ok (with_slash local) (with_slash remote) fuel [] es s Hf); [done|rewrite app_nil_r..].
  - unfold with_slash. destruct (ends_with _ _); [done|]. by apply utf8_app.
  - done.
Qed.

(** ** Sample runs *)
Module SyncSample.

(** An in-memory file system: files with contents and times, directories with their names. *)
Record MemFs := mk_mem { mem_files : list (bytes * (bytes * Z)); mem_dirs : list (bytes * list bytes) }.

Definition find_key {A} (k : bytes) (l : list (bytes * A)) : option A :=
  option_map snd (find (fun '(k', _) => bool_decide (k' = k)) l).
Definition enoent : io_error := mk_io Other (B "No such file or directory (os error 2)").
Definition or_enoent {A} (o : option A) : io_error + A := match o with Some a => inr a | None => inl enoent end.

Definition mem_fs : FileSystem MemFs := {|
  fs_is_dir p m := bool_decide (is_Some (find_key (with_slash p) (mem_dirs m)));
  fs_modified p m := or_enoent (option_map snd (find_key p (mem_files m)));
  fs_lstat p m :=
    match find_key p (mem_files m), find_key (with_slash p) (mem_dirs m) with
    | Some _, _ => inr FtFile
    | None, Some _ => inr FtDir
    | None, None => inl enoent
    end;
  fs_read_dir p m := or_enoent (option_map (map inr) (find_key (with_slash p) (mem_dirs m)));
  fs_read p m := or_enoent (option_map fst (find_key p (mem_files m)));
  fs_write p data m := (mk_mem ((p, (data, 0)) :: mem_files m) (mem_dirs m), inr tt);
  fs_create_dir_all p m := (m, inr tt);
  fs_utime p t m :=
    match find_key p (mem_files m) with
    | Some (data, _) => (mk_mem ((p, (data, t)) :: mem_files m) (mem_dirs m), inr tt)
    | None => (m, inl enoent)
    end;
  fs_set_permissions p mode m := (m, inr tt);
  fs_umask m := 0x12 |}.
#[local] Existing Instance mem_fs.

Definition disk0 : MemFs :=
  mk_mem [(B "/w/a.txt", (B "hello", 1000)); (B "/w/sub/b.txt", (B "bye", 7))]
         [(B "/w/", [B "a.txt"; B "sub"; B ".git"]); (B "/w/sub/", [B "b.txt"])].

Definition dev0 : Device := {[ B "/sdcard" := mk_dev 0x41ED [] 5 ]}.
Definition reqs0 : list Request := push_requests dev0 true (B "/sdcard") (B "/sdcard/a.txt") (B "hello") 1000.

Lemma dev0_typed : dev_typed dev0.
Proof. apply map_Forall_singleton. by vm_compute. Qed.

Lemma plain_paths : carried (B "/sdcard") /\ pushable (B "/sdcard/a.txt").
Proof.
  split; [by vm_compute|]. split; [|by vm_compute]. apply validate_path_ok. by vm_compute.
Qed.

Lemma push_server_installs_witness :
  let replies := (answers dev0 reqs0).2 in
  exists q' out,
    push_file_server (B "/w/a.txt") (B "/sdcard") true (mk_session (mk_conn [inl replies] [] None) disk0)
    = (mk_session (mk_conn q' ([] ++ out) None) disk0, Ok tt) /\
    arrives q' [] /\ parse_requests out = Some reqs0 /\
    exists f, (answers dev0 reqs0).1 !! B "/sdcard/a.txt" = Some f /\ d_mtime f = 1000 /\
      (push_skips dev0 true (B "/sdcard/a.txt") 1000 = false -> f = mk_dev 0x1A4 (B "hello") 1000).
Proof.
  intros replies. destruct plain_paths as [Hc Hp].
  apply (push_server_installs dev0 true (B "/w/a.txt") (B "/sdcard") (B "/sdcard/a.txt") (B "hello") 1000 [inl replies] [] disk0 []);
    [apply dev0_typed|done|done|by vm_compute|by vm_compute|by vm_compute|].
  rewrite app_nil_r. apply arrives_one. by vm_compute.
Defined.

Lemma find_key_head {A} k (v : A) l : find_key k ((k, v) :: l) = Some v.
Proof. unfold find_key. cbn [find]. by rewrite bool_decide_eq_true_2. Qed.

Lemma mem_stores local : stores local.
Proof.
  split.
  - intros dir d _. by exists d.
  - intros data d. eexists. split; [done|]. cbn [fs_read mem_fs mem_files]. by rewrite find_key_head.
  - intros data t d. cbn [fs_read fs_utime fs_modified mem_fs]. destruct (find_key local (mem_files d)) as [[data' t']|]; [|done].
    intros [= ->]. eexists. split; [done|]. cbn [mem_files]. by rewrite find_key_head.
  - intros data t m d Hr Hm. by exists d.
Qed.

Lemma pushed_file_pulled_back_witness :
  let reqs := push_requests dev0 false (B "/sdcard") (B "/sdcard/a.txt") (B "hello") 1000 in
  let replies := (answers (answers dev0 reqs).1 (pull_requests true (B "/sdcard/a.txt"))).2 in
  exists q' out reqs',
    push_file_server (B "/w/a.txt") (B "/sdcard") false (mk_session (mk_conn [inl (answers dev0 reqs).2] [] None) disk0)
    = (mk_session (mk_conn q' ([] ++ out) None) disk0, Ok tt) /\ parse_requests out = Some reqs' /\
  exists c d', pull_file_server (B "/sdcard/a.txt") (B "/w/c.txt") true (mk_session (mk_conn [inl replies] [] None) disk0) = (mk_session c d', Ok tt) /\
    fs_read (B "/w/c.txt") d' = inr (B "hello") /\ fs_modified (B "/w/c.txt") d' = inr 1000.
Proof.
  intros reqs replies. destruct plain_paths as [Hc Hp].
  destruct (pushed_file_pulled_back dev0 false true (B "/w/a.txt") (B "/sdcard") (B "/sdcard/a.txt") (B "hello") 1000 (B "/w/c.txt")
    [inl (answers dev0 reqs).2] [] disk0 []) as (q' & out & reqs' & E & Er & Hpull);
    [apply dev0_typed|exact Hc|exact Hp|vm_compute; reflexivity|vm_compute; reflexivity|vm_compute; reflexivity|vm_compute; reflexivity|apply mem_stores|intros _; vm_compute; reflexivity| |].
  { rewrite app_nil_r. apply arrives_one. by vm_compute. }
  exists q', out, reqs'. split; [exact E|]. split; [exact Er|].
  assert (reqs' = reqs) as ->.
  { assert (exists q1, push_file_server (B "/w/a.txt") (B "/sdcard") false (mk_session (mk_conn [inl (answers dev0 reqs).2] [] None) disk0)
      = (mk_session (mk_conn q1 (concat (map request_bytes reqs)) None) disk0, Ok tt)) as [q1 E1] by (eexists; vm_compute; reflexivity).
    rewrite E1 in E. pose proof (f_equal (fun z => outgoing (net (fst z))) E) as Eo. cbn [fst net outgoing app] in Eo. rewrite <- Eo in Er. assert (parse_requests (concat (map request_bytes reqs)) = Some reqs) as E2 by (vm_compute; reflexivity).
    congruence. }
  destruct (Hpull [inl replies] [] []) as (c & d' & E2 & _ & R & M).
  { rewrite app_nil_r. apply arrives_one. by vm_compute. }
  exists c, d'. split; [exact E2|]. split; [exact R|]. apply M. reflexivity.
Defined.

(** A connection that ends within a DATA message. *)
Definition cut_stream : list event := [inl (take 11 (frame SYNC_DATA (B "hello")))].

Lemma pull_all_or_nothing_witness :
  let '(s', x) := pull_file_server (B "/x") (B "/w/c.txt") false (mk_session (mk_conn cut_stream [] None) disk0) in
  x = Err (io_msg unexpected_eof) /\ ((disk s' = disk0 /\ exists e, x = Err e) \/
  exists pre c data attrs,
    script_data cut_stream = pre ++ script_data (incoming c) /\ zlen pre = 0 /\
    complete c (net s') data /\ store_file (B "/w/c.txt") data attrs (mk_session (net s') disk0) = (s', x)).
Proof.
  destruct (pull_file_server (B "/x") (B "/w/c.txt") false (mk_session (mk_conn cut_stream [] None) disk0)) as [s' x] eqn:E.
  split; [revert E; vm_compute; by intros [= _ <-]|]. by apply (pull_all_or_nothing (B "/x") (B "/w/c.txt") false (mk_session (mk_conn cut_stream [] None) disk0) s' x).
Defined.

(** A server that selects the device and opens the service, and what a device then says. *)
Definition selected (said : bytes) : Conn := mk_conn [inl (B "OKAYOKAY" ++ said)] [] None.
(** An entry in the form in which the client reads it. *)
Definition dent (mode : Z) (name : bytes) : bytes := frame SYNC_DENT (le_bytes 4 SYNC_DENT ++ le_bytes 4 mode ++ le_bytes 4 0 ++ le_bytes 4 0 ++ le_bytes 4 (zlen name) ++ name).

(** A directory with one below it, which holds a file; then the file over a second connection. *)
Definition dial0 (n : nat) : option Conn * res bytes Conn :=
  (Some (match n with
         | O => selected (dent 0x41ED (B "sub") ++ frame SYNC_DONE [] ++ dent 0x81A4 (B "b") ++ frame SYNC_DONE [])
         | _ => selected (frame SYNC_DATA (B "bye") ++ frame SYNC_DONE [])
         end), Err (B "no device")).

Lemma sync_client_returns_witness :
  let pull := pull_dir 200 None (B "127.0.0.1:5037") (B "/sdcard") (B "/w/p") dial0 disk0 in
  let push := push_at 2 None (B "/w") (B "/sdcard") false (B "127.0.0.1:5037") false None (Err (B "no device") : res bytes Conn) disk0 in
  returns pull /\ returns push /\ pull.2 = Ok tt /\ fs_read (B "/w/p/sub/b") pull.1.1 = inr (B "bye") /\ push.2 = Err (B "no device").
Proof.
  intros pull push.
  destruct (sync_client_returns None (B "127.0.0.1:5037") false None (Err (B "no device") : res bytes Conn) disk0 ltac:(discriminate))
    as (_ & Hpush & _ & _ & _ & Hpull).
  assert (returns pull) as H1. { apply Hpull; [intros n; discriminate|vm_compute; lia]. }
  assert (returns push) as H2.
  { apply Hpush. intros _. constructor. intros entries name E Hin _ Hd. injection E as <-.
    repeat (destruct Hin as [E|Hin]; [injection E as <-; try discriminate Hd|]); [|destruct Hin].
    constructor. intros entries name E Hin _ Hd'. injection E as <-.
    repeat (destruct Hin as [E|Hin]; [injection E as <-; try discriminate Hd'|]). destruct Hin. }
  split; [exact H1|]. split; [exact H2|]. split; [vm_compute; reflexivity|]. split; vm_compute; reflexivity.
Defined.

Lemma local_list_complete_witness :
  build_local_file_list 2 (B "/w") (B "/sdcard") (mk_session tt disk0)
  = (mk_session tt disk0, Ok [(B "/w/a.txt", B "/sdcard/a.txt"); (B "/w/sub/b.txt", B "/sdcard/sub/b.txt")]).
Proof.
  apply (local_list_complete (B "/w") (B "/sdcard") [(B "a.txt", TFile); (B "sub", TDir [(B "b.txt", TFile)]); (B ".git", TOther)] 2 (mk_session tt disk0));
    [cbn; lia|by vm_compute|].
  constructor; [by vm_compute|]. intros name t Hin.
  apply elem_of_cons in Hin as [E|Hin]; [injection E as -> ->|apply elem_of_cons in Hin as [E|Hin]; [injection E as -> ->|]].
  - split; [by vm_compute|]. intros _. constructor. by vm_compute.
  - split; [by vm_compute|]. intros _. constructor; [by vm_compute|]. constructor; [by vm_compute|]. intros name t Hin.
    apply elem_of_cons in Hin as [E|Hin]; [injection E as -> ->|by apply elem_of_nil in Hin].
    split; [by vm_compute|]. intros _. constructor. by vm_compute.
  - apply elem_of_cons in Hin as [E|Hin]; [injection E as -> ->|by apply elem_of_nil in Hin]. split; [by vm_compute|]. intros Hh. by vm_compute in Hh.
Defined.

(** *** Directly *)
Definition okay9 : AdbMessageHeader * bytes := (Header.new A_OKAY 9 1 [], []).
Definition wrte9 (p : bytes) : AdbMessageHeader * bytes := (Header.new A_WRTE 9 1 p, p).

Lemma okay9_msg : okay_msg 1 9 okay9.
Proof. split; [|done]. split_and!; try done; [vm_compute; done..|]. by right. Qed.

Lemma pull_direct_as_server_witness :
  let dev := {[ B "/a" := mk_dev 0x81A4 (B "hello") 5 ]} : Device in
  let reply := (answer dev (QRecv (B "/a"))).2 in
  let ms := [okay9; wrte9 (stat_reply dev (B "/a")); wrte9 (take 3 reply); okay9; wrte9 (drop 3 reply)] in
  let asks := [QStat (B "/a"); QRecv (B "/a")] in
  exists cs cd d' x acks,
    pull_file_server (B "/a") (B "/w/c") true (mk_session (mk_conn [inl (answers dev asks).2] [] None) disk0) = (mk_session cs d', x) /\
    pull_file_direct 1 9 (B "/a") (B "/w/c") true (mk_session (mk_conn [inl (concat (map message_bytes ms))] [] None) disk0) = (mk_session cd d', x) /\
    outgoing cs = [] ++ concat (map request_bytes asks) /\ length acks = length asks /\ outgoing cd = [] ++ requests_sent 1 9 asks acks.
Proof.
  intros dev reply ms asks.
  assert (wrte_msg 1 9 (wrte9 (stat_reply dev (B "/a"))) /\ wrte_msg 1 9 (wrte9 (take 3 reply)) /\ wrte_msg 1 9 (wrte9 (drop 3 reply))) as (Hw & Hw1 & Hw2).
  { split_and!; (split; [|done]); (split_and!; try done; [vm_compute; done..|]); by left. }
  assert (pull_messages 1 9 dev (B "/a") true ms) as Hp.
  { apply (pull_stat 1 9 dev (B "/a") okay9 (wrte9 (stat_reply dev (B "/a"))) (mk_stat 0x81A4 5 5));
      [apply okay9_msg|exact Hw|reflexivity|vm_compute; reflexivity|].
    apply (pull_recv 1 9 dev (B "/a") [wrte9 (take 3 reply)] okay9 [wrte9 (drop 3 reply)]).
    - by constructor.
    - apply okay9_msg.
    - constructor; [apply Hw2|constructor].
    - vm_compute. congruence.
    - vm_compute. reflexivity. }
  apply (pull_direct_as_server 1 9 dev true (B "/a") (B "/w/c") [inl (answers dev asks).2] [] [inl (concat (map message_bytes ms))] [] ms disk0).
  - apply map_Forall_singleton. by vm_compute.
  - by vm_compute.
  - exact Hp.
  - apply arrives_one. by vm_compute.
  - apply arrives_one. by vm_compute.
Defined.

Lemma push_direct_sends_witness :
  let target := B "/sdcard/a.txt" in
  let ms := okay9 :: wrte9 (stat_reply dev0 (B "/sdcard")) :: replicate 3 okay9 ++ [wrte9 (frame SYNC_OKAY [])] in
  exists q' sent,
    push_file_direct 1 9 (B "/w/a.txt") (B "/sdcard") false (mk_session (mk_conn [inl (concat (map message_bytes ms))] [] None) disk0)
    = (mk_session (mk_conn q' ([] ++ concat (map message_bytes sent)) None) disk0, Ok tt) /\
    arrives q' [] /\ parse_requests (wrte_data sent) = Some (push_requests dev0 false (B "/sdcard") target (B "hello") 1000).
Proof.
  intros target ms. destruct plain_paths as [Hc Hp].
  apply (push_direct_sends 1 9 dev0 (B "/w/a.txt") (B "/sdcard") target (B "hello") 1000 [inl (concat (map message_bytes ms))] [] disk0
    okay9 (wrte9 (stat_reply dev0 (B "/sdcard"))) (replicate 3 okay9) (wrte9 (frame SYNC_OKAY [])) []); try done.
  - apply dev0_typed.
  - apply okay9_msg.
  - split; [|done]. split_and!; try done; [vm_compute; done..|]. by left.
  - apply Forall_replicate, okay9_msg.
  - split; [|done]. split_and!; try done; [vm_compute; done..|]. by left.
  - rewrite app_nil_r. by apply arrives_one.
Defined.

(** A directory entry as the protocol has it (id, mode, size, time, length of the name, name), and DONE. *)
Definition dent_reply : bytes :=
  le_bytes 4 SYNC_DENT ++ le_bytes 4 0x81A4 ++ le_bytes 4 5 ++ le_bytes 4 1000 ++ le_bytes 4 5 ++ B "a.txt" ++
  le_bytes 4 SYNC_DONE ++ zrep 16 x00.

(** The mode of the first entry is taken as the length of a body: the listing fails. *)
Example list_misreads_entries :
  (list_server_inner (B "/sdcard") (mk_conn [inl dent_reply] [] None)).2 = Err (io_msg unexpected_eof).
Proof. by vm_compute. Qed.
End SyncSample.
