(* ===== verification/FastbootCli.v ===== *)
(** * The fastboot program

    [adb-fastboot-cli/src/main_fastboot.rs], first part: option values, vbmeta flags, network targets, the
    text helpers, and the set of stored devices as text. *)
From S2P Require Import Prelude Text FastbootProto Net Effects FastbootStream.

(** How a command ends early: with the error that [main] returns (a text, a text that ends with a response, or
    the error of a callee), by [std::process::exit(1)], or not at all. *)
Inductive ending :=
| Failed (text : bytes)
| FailedWith (text : bytes) (r : FastbootResponse)
| LinkError (e : FastbootTransportError)
| IoError (e : io_error)
| SlotFailed (e : SlotError)
| Exit
| Hang.

(** ** Options and values *)
Record GlobalOptions := mk_gopts {
  skip_reboot : bool; skip_secondary : bool; force_flash : bool;
  disable_verity : bool; disable_verification : bool; verbose : bool }.

Definition needs_vbmeta_patch (o : GlobalOptions) : bool := disable_verity o || disable_verification o.

Definition AVB_MAGIC : bytes := B "AVB0".
Definition AVB_FOOTER_MAGIC : bytes := B "AVBf".
Definition AVB_FOOTER_SIZE : Z := 64.
Definition VBMETA_FLAGS_LSB_OFFSET : Z := 123.

(** [data[i] |= flag]. *)
Definition or_byte (i flag : Z) (data : bytes) : bytes :=
  alter (fun b => z2b (Z.lor (b2z b) flag)) (Z.to_nat i) data.

(** Where the vbmeta header is: at the start, or where the footer says. *)
Definition vbmeta_start (data : bytes) : Z :=
  let footer := drop (Z.to_nat (zlen data - AVB_FOOTER_SIZE)) data in
  if bool_decide (slice 0 4 footer = AVB_FOOTER_MAGIC) then be_val (slice 8 16 footer) else 0.

(** The offset of the footer is any 64-bit number: adding to it panics (or, unchecked, indexes out of range). *)
Definition patch_vbmeta_flags (data : bytes) (opts : GlobalOptions) : res ending (option bytes) :=
  if negb (needs_vbmeta_patch opts) || (zlen data <? 256) then Ok None else
  let vbmeta_offset := vbmeta_start data in
  if usize_max <? vbmeta_offset + 4 then Panic else
  if (zlen data <? vbmeta_offset + 4) || negb (bool_decide (slice vbmeta_offset (vbmeta_offset + 4) data = AVB_MAGIC))
  then Ok None else
  let flags_byte := vbmeta_offset + VBMETA_FLAGS_LSB_OFFSET in
  if zlen data <=? flags_byte then Ok None else
  let patched := if disable_verity opts then or_byte flags_byte 1 data else data in
  let patched := if disable_verification opts then or_byte flags_byte 2 patched else patched in
  Ok (Some patched).

Definition is_vbmeta_partition (partition : bytes) : bool :=
  ends_with (B "vbmeta") partition || ends_with (B "vbmeta_a") partition || ends_with (B "vbmeta_b") partition.

(** [strip_prefix("0x").or_else(|| strip_prefix("0X"))] *)
Definition strip_0x (s : bytes) : option bytes :=
  match strip_prefix (B "0x") s with Some h => Some h | None => strip_prefix (B "0X") s end.

Definition parse_u64 (s : bytes) : option Z :=
  let s := trim s in
  match strip_0x s with Some hex => parse_uint 16 usize_max hex | None => parse_uint 10 usize_max s end.

(** [str::to_lowercase] as far as prefixes and suffixes of ASCII letters can tell: ASCII capitals, and the two
    other characters with an ASCII letter in their lower case, U+212A (k) and U+0130 (i, dot). *)
Fixpoint to_lowercase (s : bytes) : bytes :=
  match s with
  | xe2 :: x84 :: xaa :: s => "k"%byte :: to_lowercase s
  | xc4 :: xb0 :: s => "i"%byte :: xcc :: x87 :: to_lowercase s
  | b :: s => lower_byte b :: to_lowercase s
  | [] => []
  end.

(** [&s[..s.len() - n]], which panics within a character. *)
Definition drop_end {E} (n : Z) (s : bytes) : res E bytes :=
  let i := zlen s - n in
  if i <? 0 then Panic else
  match s !! Z.to_nat i with
  | Some b => if cont b then Panic else Ok (take (Z.to_nat i) s)
  | None => Ok s
  end.

Definition is_hexdigit (b : byte) : bool := in_rng 48 57 b || in_rng 65 70 b || in_rng 97 102 b.

(** The number of a size and its unit. *)
Definition size_parts (s : bytes) : res ending (bytes * Z) :=
  let s_lower := to_lowercase s in
  let unit (two one : bytes) := if ends_with two s_lower then Some 2 else if ends_with one s_lower then Some 1 else None in
  match unit (B "gb") (B "g"), unit (B "mb") (B "m"), unit (B "kb") (B "k") with
  | Some len, _, _ => let! p := drop_end len s in Ok (p, 1024 * 1024 * 1024)
  | None, Some len, _ => let! p := drop_end len s in Ok (p, 1024 * 1024)
  | None, None, Some len => let! p := drop_end len s in Ok (p, 1024)
  | None, None, None =>
      if ends_with (B "b") s_lower && negb (starts_with (B "0x") s_lower) && negb (forallb is_hexdigit s)
      then let! p := drop_end 1 s in Ok (p, 1) else Ok (s, 1)
  end.

Definition parse_max_download_size (val : bytes) : res ending (option Z) :=
  let s := trim val in
  if zlen s =? 0 then Ok None else
  let! '(num_str, multiplier) := size_parts s in
  let num_str := trim num_str in
  if zlen num_str =? 0 then Ok None else
  let base_val :=
    match strip_0x num_str with
    | Some hex => parse_uint 16 usize_max hex
    | None => match parse_uint 10 usize_max num_str with Some n => Some n | None => parse_uint 16 usize_max num_str end
    end in
  Ok (match base_val with
      | Some n => if n * multiplier <=? usize_max then Some (n * multiplier) else None
      | None => None
      end).

(** ** Network targets *)
Definition resolve_target_addr (serial : option bytes) (default_port : Z) : bytes :=
  match serial with
  | Some s => if contains ":"%byte s then s else s ++ B ":" ++ fmt_dec default_port
  | None => B "127.0.0.1:" ++ fmt_dec default_port
  end.

(** [split_once("]:")]. *)
Fixpoint split_bracket (s : bytes) : option (bytes * bytes) :=
  match s with
  | [] => None
  | b :: t =>
      match strip_prefix (B "]:") s with
      | Some rest => Some ([], rest)
      | None => match split_bracket t with Some (p, q) => Some (b :: p, q) | None => None end
      end
  end.

Definition parse_network_target (serial : bytes) : res bytes (bytes * bytes) :=
  let! '(protocol, address) :=
    match strip_prefix (B "tcp:") serial, strip_prefix (B "udp:") serial with
    | Some a, _ => Ok (B "tcp", a)
    | None, Some a => Ok (B "udp", a)
    | None, None => Err (B "protocol prefix ('tcp:' or 'udp:') is missing: " ++ serial)
    end in
  let invalid := B "invalid network address '" ++ address ++ B "'" in
  if zlen address =? 0 then Err invalid else
  let! '(host, port) :=
    match strip_prefix (B "[") address with
    | Some bracketed => ok_or (split_bracket bracketed) invalid
    | None => ok_or (rsplit_once ":"%byte address) invalid
    end in
  if (zlen host =? 0) || bool_decide (parse_uint 10 65535 port = None) then Err invalid else
  Ok (protocol, address).

(** ** Text *)

(** [str::split_whitespace]. *)
Definition flush_word (cur : bytes) (rest : list bytes) : list bytes := if zlen cur =? 0 then rest else cur :: rest.
Fixpoint words_go (fuel : nat) (s cur : bytes) : list bytes :=
  match fuel, s with
  | S fuel, b :: t =>
      match ws_front s with
      | O => words_go fuel t (cur ++ [b])
      | n => flush_word cur (words_go fuel (drop n s) [])
      end
  | _, _ => flush_word cur []
  end.
Definition split_whitespace (s : bytes) : list bytes := words_go (length s) s [].

(** ** Stored network devices

    A [BTreeSet<String>]: the strings in the order of their bytes, each once. *)
Fixpoint bytes_cmp (a b : bytes) : comparison :=
  match a, b with
  | [], [] => Eq
  | [], _ => Lt
  | _, [] => Gt
  | x :: a, y :: b => match b2z x ?= b2z y with Eq => bytes_cmp a b | c => c end
  end.
Fixpoint set_insert (s : bytes) (l : list bytes) : list bytes :=
  match l with
  | [] => [s]
  | x :: l => match bytes_cmp s x with Lt => s :: x :: l | Eq => x :: l | Gt => x :: set_insert s l end
  end.
Definition set_of (l : list bytes) : list bytes := foldl (fun d s => set_insert s d) [] l.
Definition set_remove (s : bytes) (l : list bytes) : list bytes := filter (fun x => x <> s) l.

Definition devices_text (devices : list bytes) : bytes := join [x0a] devices ++ [x0a].
