(* ===== verification/FastbootRun.v ===== *)
(** * The fastboot program: flows

    [adb-fastboot-cli/src/main_fastboot.rs], second part: the flows that download, flash, boot, update and fetch.
    A transport is a class with the operations of the trait, local files are another, a zip archive is a
    parameter. Progress messages are left out; the lines that carry the device's answers are kept. *)
From S2P Require Import Prelude Text FastbootProto SparseImage BootImage Net FastbootStream Effects FastbootCli.

(** ** Interfaces *)

(** [FastbootTransport], with [write_all] and [read_exact] of the standard library over it. *)
Class FastbootTransport (T : Type) := {
  ft_send_cmd : bytes -> M T FastbootTransportError unit;
  ft_recv : M T FastbootTransportError (list bytes * FastbootResponse);
  ft_write_all : bytes -> M T io_error unit;
  ft_flush : M T io_error unit;
  ft_read_exact : Z -> M T io_error bytes }.

(** Local files; reading from an open file gives it back at its new position. [NotFound] is told apart, since the
    program does. *)
Inductive FileError := NotFound (e : io_error) | OtherError (e : io_error).
Definition file_io (e : FileError) : io_error := match e with NotFound e => e | OtherError e => e end.

Class HostFiles (F : Type) := {
  hf_handle : Type;
  hf_open : bytes -> M F FileError hf_handle;
  hf_len : hf_handle -> M F FileError Z;
  hf_read_exact : Z -> hf_handle -> M F FileError (bytes * hf_handle);
  hf_read : bytes -> M F FileError bytes;
  hf_create : bytes -> M F FileError unit;
  hf_append : bytes -> bytes -> M F FileError unit;
  hf_sync : bytes -> M F FileError unit;
  hf_write : bytes -> bytes -> M F FileError unit;
  hf_remove : bytes -> M F FileError unit;
  hf_create_dir_all : bytes -> M F FileError unit;
  hf_stdin : M F FileError bytes }.

(** An open archive: its names, and the entry of a name with the result of reading it. *)
Record ZipArchive := mk_zip { file_names : list bytes; by_name : bytes -> option (res io_error bytes) }.

(** ** The connection: TCP, UDP or USB *)
Inductive FastbootConnection (A B C : Type) := Tcp (a : A) | Udp (b : B) | Usb (c : C).
Arguments Tcp {A B C}. Arguments Udp {A B C}. Arguments Usb {A B C}.

Section Connection.
Context {A B C : Type} `{FastbootTransport A, FastbootTransport B, FastbootTransport C}.

Definition dispatch {E R} (fa : M A E R) (fb : M B E R) (fc : M C E R) : M (FastbootConnection A B C) E R := fun self =>
  match self with
  | Tcp a => let '(a, r) := fa a in (Tcp a, r)
  | Udp b => let '(b, r) := fb b in (Udp b, r)
  | Usb c => let '(c, r) := fc c in (Usb c, r)
  end.

#[export] Instance connection_transport : FastbootTransport (FastbootConnection A B C) := {|
  ft_send_cmd cmd := dispatch (ft_send_cmd cmd) (ft_send_cmd cmd) (ft_send_cmd cmd);
  ft_recv := dispatch ft_recv ft_recv ft_recv;
  ft_write_all buf := dispatch (ft_write_all buf) (ft_write_all buf) (ft_write_all buf);
  ft_flush := dispatch ft_flush ft_flush ft_flush;
  ft_read_exact n := dispatch (ft_read_exact n) (ft_read_exact n) (ft_read_exact n) |}.
End Connection.

(** ** State and helpers *)

(** What is told of the device's answers. *)
Inductive line := Info (text : bytes) | Bootloader (text : bytes) | Response (r : FastbootResponse) | Listed (addr : bytes) (version : option FastbootResponse) (product : option bytes) | Told (text : bytes).

Record Cli (T F : Type) := mk_cli { link : T; host : F; output : list line }.
Arguments mk_cli {T F}. Arguments link {T F}. Arguments host {T F}. Arguments output {T F}.

Section Flows.
Context {T F : Type} `{FastbootTransport T, HostFiles F}.
Abbreviation C := (M (Cli T F) ending).

Definition on_link {E A} (m : M T E A) : M (Cli T F) E A := fun c =>
  let '(t, r) := m (link c) in (mk_cli t (host c) (output c), r).
Definition on_host {E A} (m : M F E A) : M (Cli T F) E A := fun c =>
  let '(f, r) := m (host c) in (mk_cli (link c) f (output c), r).
Definition say (l : line) : C unit := fun c => (mk_cli (link c) (host c) (output c ++ [l]), Ok tt).

(** [?] on the results of the transport and of files. *)
Definition send_cmd (cmd : bytes) : C unit := on_err LinkError (on_link (ft_send_cmd cmd)).
Definition recv_response_with_info : C (list bytes * FastbootResponse) := on_err LinkError (on_link ft_recv).
Definition recv_response : C FastbootResponse := do! p := recv_response_with_info in ret p.2.
Definition write_link (buf : bytes) : C unit := on_err IoError (on_link (ft_write_all buf)).
Definition flush_link : C unit := on_err IoError (on_link ft_flush).
Definition read_link (n : Z) : C bytes := on_err IoError (on_link (ft_read_exact n)).
Definition file {A} (m : M F FileError A) : C A := on_err (fun e => IoError (file_io e)) (on_host m).

(** [match ... { Err(e) => exit(1) }]. *)
Definition or_exit {A} (m : C A) : C A := on_err (fun _ => Exit) m.

Definition require_terminal_okay (response : FastbootResponse) : res ending unit :=
  match response with
  | Okay _ => Ok tt
  | Fail_ reason => Err (Failed (B "remote failure: " ++ reason))
  | other => Err (FailedWith (B "unexpected terminal response: ") other)
  end.

Definition read_file_bytes (path : bytes) : C bytes :=
  do! data := or_exit (file (hf_read path)) in
  if zlen data =? 0 then fail Exit else ret data.

(** [getvar:NAME] where a failure means that there is no value. *)
Definition try_getvar (cmd : bytes) : C (option bytes) :=
  do! sent := attempt (send_cmd cmd) in
  match sent with
  | inl _ => ret None
  | inr _ =>
      do! r := attempt recv_response in
      match r with inr (Okay val) => ret (Some val) | _ => ret None end
  end.

Definition get_max_download_size : C (option Z) :=
  do! val := try_getvar (B "getvar:max-download-size") in
  match val with Some val => lift (parse_max_download_size val) | None => ret None end.

(** [download:SIZE], to be answered with the same size. *)
Definition request_download (size : Z) : C unit :=
  do! _ := send_cmd (Command.download (wrap 32 size)) in
  do! dl_resp := recv_response in
  match dl_resp with
  | Data expected_len => if expected_len =? wrap 32 size then ret tt else fail Exit
  | _ => fail Exit
  end.

(** The payload in pieces of [chunk_size] bytes: with 0, no piece is ever the last. [on_error] is what a failed
    write does. *)
Fixpoint send_chunks (fuel : nat) (on_error : ending -> ending) (chunk_size : Z) (payload : bytes) : C unit :=
  if zlen payload =? 0 then ret tt else
  match fuel with
  | O => fail Hang
  | S fuel =>
      let to_send := Z.to_nat (Z.min (zlen payload) chunk_size) in
      do! _ := on_err on_error (write_link (take to_send payload)) in
      send_chunks fuel on_error chunk_size (drop to_send payload)
  end.

Definition send_payload (on_error : ending -> ending) (chunk_size : Z) (payload : bytes) : C unit :=
  send_chunks (length payload) on_error chunk_size payload.

(** After a payload: flush, and a FAIL ends the program. *)
Definition finish_payload : C FastbootResponse :=
  do! _ := flush_link in
  do! post_dl_resp := recv_response in
  match post_dl_resp with Fail_ _ => fail Exit | r => ret r end.

Definition exits (_ : ending) : ending := Exit.

(** What [download_and_boot_payload] and [download_and_flash_payload] share. *)
Definition download_payload (payload : bytes) : C unit :=
  let file_size := zlen payload in
  if u32_max <? file_size then fail Exit else
  do! max_download_size := get_max_download_size in
  do! _ := request_download file_size in
  do! _ := send_payload exits (default (16 * 1024 * 1024) max_download_size) payload in
  do! post_dl_resp := finish_payload in
  say (Response post_dl_resp).

Definition download_and_boot_payload (payload : bytes) : C unit :=
  do! _ := download_payload payload in
  send_cmd (B "boot").

Definition download_and_flash_payload (payload partition : bytes) : C unit :=
  do! _ := download_payload payload in
  send_cmd (Command.flash partition).

(** The device may be gone already; waiting for it to go is not part of the model. *)
Definition handle_boot_response : C unit :=
  do! boot_resp := attempt recv_response in
  match boot_resp with
  | inr (Fail_ _) => fail Exit
  | inr r => say (Response r)
  | inl _ => ret tt
  end.

Definition say_infos (infos : list bytes) : C unit := for_each (fun info => say (Info info)) infos.

Definition recv_data_response (operation : bytes) : C Z :=
  do! '(info_logs, response) := recv_response_with_info in
  do! _ := say_infos info_logs in
  match response with
  | Data size => ret size
  | Fail_ reason => fail (Failed (operation ++ B " failed: " ++ reason))
  | other => fail (FailedWith (B "unexpected " ++ operation ++ B " response: ") other)
  end.

Definition recv_and_print_info : C FastbootResponse :=
  do! '(info_logs, response) := recv_response_with_info in
  do! _ := say_infos info_logs in
  do! _ := lift (require_terminal_okay response) in
  ret response.

Definition getvar_value (variable : bytes) : C bytes :=
  do! _ := send_cmd (Command.getvar variable) in
  do! r := recv_and_print_info in
  match r with
  | Okay value => ret value
  | Fail_ reason => fail (Failed (B "getvar:" ++ variable ++ B " failed: " ++ reason))
  | response => fail (FailedWith (B "unexpected getvar:" ++ variable ++ B " response: ") response)
  end.

(** ** Fetching *)

(** The bytes of a DATA answer, through a buffer of one MiB. *)
Fixpoint copy_data (fuel : nat) (out_file : bytes) (remaining : Z) : C unit :=
  if remaining <=? 0 then ret tt else
  match fuel with
  | O => fail Hang
  | S fuel =>
      let read_size := Z.min remaining (1024 * 1024) in
      do! bs := read_link read_size in
      do! _ := file (hf_append out_file bs) in
      copy_data fuel out_file (remaining - read_size)
  end.
Definition copy_all (out_file : bytes) (n : Z) : C unit := copy_data (Z.to_nat (n / (1024 * 1024) + 1)) out_file n.

Definition fetched_bytes (data_size chunk_size : Z) : bytes :=
  B "fetch returned " ++ fmt_dec data_size ++ B " bytes, requested " ++ fmt_dec chunk_size.

Fixpoint fetch_chunks (fuel : nat) (partition out_file : bytes) (max_fetch_size current_offset remaining : Z)
    (final_response : FastbootResponse) : C FastbootResponse :=
  if remaining <=? 0 then ret final_response else
  match fuel with
  | O => fail Hang
  | S fuel =>
      let chunk_size := Z.min remaining max_fetch_size in
      do! _ := send_cmd (Command.fetch partition (Some current_offset) (Some chunk_size)) in
      do! data_size := recv_data_response (B "fetch") in
      if data_size =? 0 then fail (Failed (B "fetch returned zero bytes")) else
      if chunk_size <? data_size then fail (Failed (fetched_bytes data_size chunk_size)) else
      do! _ := copy_all out_file data_size in
      do! _ := file (hf_sync out_file) in
      do! final_response := recv_response in
      do! _ := lift (require_terminal_okay final_response) in
      if negb (data_size =? chunk_size) then fail (Failed (fetched_bytes data_size chunk_size)) else
      fetch_chunks fuel partition out_file max_fetch_size (wrap 64 (current_offset + chunk_size)) (remaining - chunk_size)
        final_response
  end.

(** The size of a variable that holds one. *)
Definition getvar_size (variable err : bytes) : C Z :=
  do! v := getvar_value variable in
  do! n := lift (parse_max_download_size v) in
  lift (ok_or n (Failed err)).

Definition fetch_to_file (partition out_file : bytes) (offset size : option Z) (slot : SlotSelection) : C FastbootResponse :=
  match offset, size with
  | None, Some _ => fail (Failed (B "fetch size requires an offset"))
  | _, _ =>
      do! partition := lift (map_err SlotFailed (SlotSelection.partition_name slot partition)) in
      do! max_fetch_size := getvar_size (B "max-fetch-size") (B "device returned an invalid max-fetch-size") in
      if max_fetch_size =? 0 then fail (Failed (B "device returned zero max-fetch-size")) else
      do! '(start, total) :=
        match offset, size with
        | Some offset, Some size => ret (offset, size)
        | Some offset, None => ret (offset, max_fetch_size)
        | None, _ =>
            do! n := getvar_size (B "partition-size:" ++ partition) (B "device returned an invalid partition-size") in
            ret (0, n)
        end in
      if total =? 0 then fail (Failed (B "fetch range has zero size")) else
      do! _ := file (hf_create out_file) in
      match offset, size with
      | Some offset, None =>
          do! _ := send_cmd (Command.fetch partition (Some offset) None) in
          do! data_size := recv_data_response (B "fetch") in
          if data_size =? 0 then fail (Failed (B "fetch returned zero bytes")) else
          do! _ := copy_all out_file data_size in
          do! _ := file (hf_sync out_file) in
          do! response := recv_response in
          do! _ := lift (require_terminal_okay response) in
          ret response
      | _, _ =>
          fetch_chunks (Z.to_nat (total / max_fetch_size + 1)) partition out_file max_fetch_size start total (Okay [])
      end
  end.

(** ** android-info.txt *)

(** [or VALUE] after the first value. *)
Fixpoint more_options (parts : list bytes) : list bytes :=
  match parts with
  | o :: v :: rest => if bool_decide (o = B "or") then v :: more_options rest else []
  | _ => []
  end.

(** A line that asks for something: whether inverted, the variable and the accepted values. *)
Definition parse_requirement (line : bytes) : option (bool * bytes * list bytes) :=
  match split_whitespace (trim line) with
  | r :: parts =>
      if negb (bool_decide (r = B "require")) then None else
      let '(invert, parts) :=
        match parts with
        | i :: _ :: _ => if bool_decide (i = B "inverse") then (true, drop 1 parts) else (false, parts)
        | _ => (false, parts)
        end in
      match parts with
      | kv :: rest =>
          match split_once "="%byte kv with
          | Some (var, expected) => Some (invert, var, expected :: more_options rest)
          | None => None
          end
      | [] => None
      end
  | [] => None
  end.

Definition skipped_line (line : bytes) : bool := let line := trim line in (zlen line =? 0) || starts_with (B "#") line.

Definition check_partition_exists (name : bytes) : C unit :=
  do! sent := attempt (send_cmd (B "getvar:has-slot:" ++ name)) in
  match sent with
  | inl _ => ret tt
  | inr _ =>
      do! resp := attempt recv_response in
      match resp with
      | inl _ => ret tt
      | inr (Okay val) => if bool_decide (val = B "yes") || bool_decide (val = B "no") then ret tt else fail Exit
      | inr _ => fail Exit
      end
  end.

Definition check_variable (invert : bool) (var : bytes) (options : list bytes) : C unit :=
  do! sent := attempt (send_cmd (Command.getvar var)) in
  match sent with
  | inl _ => ret tt
  | inr _ =>
      do! resp := attempt recv_response in
      match (match resp with inr (Okay val) => Some val | inr (Fail_ _) => Some [] | _ => None end) with
      | None => ret tt
      | Some actual =>
          let met := existsb (fun opt => bool_decide (trim actual = opt)) options in
          if eqb invert met then fail Exit else ret tt
      end
  end.

Definition check_line (line : bytes) : C unit :=
  if skipped_line line then ret tt else
  match parse_requirement line with
  | None => ret tt
  | Some (invert, var, options) =>
      if bool_decide (var = B "partition-exists") then check_partition_exists (default [] (head options))
      else check_variable invert var options
  end.

Definition check_android_info (data : bytes) : C unit := for_each check_line (lines data).

(** ** Flashing an image *)

(** [SetVbmetaFlags] for a vbmeta partition. *)
Definition patched_image (partition : bytes) (data : bytes) (gopts : GlobalOptions) : C bytes :=
  if is_vbmeta_partition partition
  then do! p := lift (patch_vbmeta_flags data gopts) in ret (default data p)
  else ret data.

Definition is_sparse (data : bytes) : bool := (28 <=? zlen data) && (le_val (slice 0 4 data) =? SPARSE_HEADER_MAGIC).

(** The pieces of an image that exceeds the limit. *)
Definition image_pieces (data : bytes) (limit : Z) : C (list SparseFile) :=
  do! sparse_file :=
    if is_sparse data then or_exit (on_err (fun _ => Exit) (lift (SparseFile.from_bytes data)))
    else ret (SparseFile.from_raw data 4096) in
  match SparseFile.split sparse_file limit with
  | None => fail Hang
  | Some r => on_err (fun _ => Exit) (lift r)
  end.

(** What was downloaded is flashed; [verdict] is what is required of the last response. *)
Definition flash_downloaded (verdict : FastbootResponse -> res ending unit) (partition : bytes) : C unit :=
  do! _ := finish_payload in
  do! _ := send_cmd (Command.flash partition) in
  do! flash_resp := recv_response in
  do! _ := lift (verdict flash_resp) in
  say (Response flash_resp).

(** One piece: download and flash. *)
Definition send_piece (verdict : FastbootResponse -> res ending unit) (partition : bytes) (piece : SparseFile) : C unit :=
  let payload := SparseFile.encode piece in
  do! _ := request_download (zlen payload) in
  do! _ := write_link payload in
  flash_downloaded verdict partition.

(** The file in pieces through a buffer of [chunk_size] bytes. *)
Fixpoint stream_file (fuel : nat) (chunk_size : Z) (h : hf_handle) (remaining : Z) : C unit :=
  if remaining <=? 0 then ret tt else
  match fuel with
  | O => fail Hang
  | S fuel =>
      let to_read := Z.min remaining chunk_size in
      do! '(bs, h) := or_exit (file (hf_read_exact to_read h)) in
      do! _ := or_exit (write_link bs) in
      stream_file fuel chunk_size h (remaining - to_read)
  end.

(** [vec![0u8; n]] panics above [isize::MAX]. *)
Definition alloc (n : Z) : C unit := if 2 ^ 63 - 1 <? n then lift Panic else ret tt.

Definition flash_split (partition_label wire_partition image_path : bytes) (gopts : GlobalOptions) (limit : Z) : C unit :=
  do! image_data := or_exit (file (hf_read image_path)) in
  do! image_data := patched_image partition_label image_data gopts in
  do! splits := image_pieces image_data limit in
  for_each (send_piece require_terminal_okay wire_partition) splits.

Definition flash_whole (partition_label wire_partition image_path : bytes) (gopts : GlobalOptions) (h : hf_handle)
    (file_size chunk_size : Z) : C unit :=
  do! vbmeta_patched :=
    if is_vbmeta_partition partition_label && needs_vbmeta_patch gopts then
      do! data := or_exit (file (hf_read image_path)) in lift (patch_vbmeta_flags data gopts)
    else ret None in
  let effective_size := match vbmeta_patched with Some p => zlen p | None => file_size end in
  do! _ := request_download effective_size in
  do! _ := match vbmeta_patched with
    | Some patched_data => send_payload exits chunk_size patched_data
    | None => do! _ := alloc chunk_size in stream_file (Z.to_nat file_size) chunk_size h file_size
    end in
  flash_downloaded require_terminal_okay wire_partition.

Definition flash_image_file (partition_label wire_partition image_path : bytes) (gopts : GlobalOptions) : C unit :=
  do! h := or_exit (file (hf_open image_path)) in
  do! file_size := or_exit (file (hf_len h)) in
  if file_size =? 0 then fail Exit else
  if u32_max <? file_size then fail Exit else
  do! max_download_size := get_max_download_size in
  let whole := flash_whole partition_label wire_partition image_path gopts h file_size in
  match max_download_size with
  | Some limit =>
      if (0 <? limit) && (limit <? file_size) then flash_split partition_label wire_partition image_path gopts limit
      else whole limit
  | None => whole (16 * 1024 * 1024)
  end.

(** ** Updating from an archive *)
Definition AOSP_IMAGES : list (bytes * bytes * bool) := [
  (B "boot", B "boot.img", false);
  (B "bootloader", B "bootloader.img", true);
  (B "init_boot", B "init_boot.img", true);
  (B "dtbo", B "dtbo.img", true);
  (B "dts", B "dt.img", true);
  (B "odm", B "odm.img", true);
  (B "odm_dlkm", B "odm_dlkm.img", true);
  (B "product", B "product.img", true);
  (B "pvmfw", B "pvmfw.img", true);
  (B "radio", B "radio.img", true);
  (B "recovery", B "recovery.img", true);
  (B "super", B "super.img", true);
  (B "system", B "system.img", false);
  (B "system_dlkm", B "system_dlkm.img", true);
  (B "system_ext", B "system_ext.img", true);
  (B "userdata", B "userdata.img", true);
  (B "vbmeta", B "vbmeta.img", true);
  (B "vbmeta_system", B "vbmeta_system.img", true);
  (B "vbmeta_vendor", B "vbmeta_vendor.img", true);
  (B "vendor", B "vendor.img", true);
  (B "vendor_boot", B "vendor_boot.img", true);
  (B "vendor_dlkm", B "vendor_dlkm.img", true);
  (B "vendor_kernel_boot", B "vendor_kernel_boot.img", true);
  (B "cache", B "cache.img", true)].

(** In an update only FAIL stops the flashing. *)
Definition not_fail (r : FastbootResponse) : res ending unit := match r with Fail_ _ => Err Exit | _ => Ok tt end.

Definition partition_with_slot (current_slot : option bytes) (partition : bytes) : bytes :=
  match current_slot with
  | Some slot => if negb (ends_with (B "_") partition) then partition ++ B "_" ++ slot else partition
  | None => partition
  end.

Definition update_image (gopts : GlobalOptions) (archive : ZipArchive) (max_download_size : option Z)
    (current_slot : option bytes) (image : bytes * bytes * bool) : C unit :=
  let '(partition, img_name, optional) := image in
  if negb (bool_decide (img_name ∈ file_names archive)) then (if optional then ret tt else fail Exit) else
  do! image_data :=
    match by_name archive img_name with
    | Some r => on_err IoError (lift r)
    | None => fail Exit
    end in
  do! image_data := patched_image partition image_data gopts in
  let file_size := zlen image_data in
  if file_size =? 0 then fail Exit else
  if u32_max <? file_size then fail Exit else
  let target := partition_with_slot current_slot partition in
  let whole (chunk_size : Z) :=
    do! _ := request_download file_size in
    do! _ := send_payload (fun e => e) chunk_size image_data in
    flash_downloaded not_fail target in
  match max_download_size with
  | Some limit =>
      if (0 <? limit) && (limit <? file_size) then
        do! splits := image_pieces image_data limit in
        for_each (send_piece not_fail target) splits
      else whole limit
  | None => whole (16 * 1024 * 1024)
  end.

(** Device information; failures do not matter. *)
Definition dump_info : C unit :=
  for_each (fun var =>
    do! val := try_getvar (Command.getvar var) in
    match val with Some val => say (Told (var ++ B ": " ++ val)) | None => ret tt end)
    [B "version-bootloader"; B "version-baseband"; B "serialno"].

Definition get_current_slot : C (option bytes) :=
  do! val := try_getvar (B "getvar:current-slot") in
  ret (match val with Some val => let s := trim val in if zlen s =? 0 then None else Some s | None => None end).

Definition do_update (open_zip : bytes -> option ZipArchive) (zip_path : bytes) (gopts : GlobalOptions) : C unit :=
  match open_zip zip_path with
  | None => fail Exit
  | Some archive =>
      match by_name archive (B "android-info.txt") with
      | None => fail Exit
      | Some contents =>
          do! contents := on_err IoError (lift contents) in
          do! android_info := lift (from_utf8 contents (IoError (mk_io InvalidData (B "stream did not contain valid UTF-8")))) in
          do! _ := dump_info in
          do! _ := check_android_info android_info in
          do! max_download_size := get_max_download_size in
          do! current_slot := get_current_slot in
          for_each (update_image gopts archive max_download_size current_slot) AOSP_IMAGES
      end
  end.

(** ** Stored network devices *)
Definition path_parent (path : bytes) : option bytes := option_map fst (rsplit_once "/"%byte path).

Definition connected_devices_path (home : option bytes) : C bytes :=
  match home with Some home => ret (path_push home (B ".fastboot/devices")) | None => fail (Failed (B "HOME is not set")) end.

Definition read_connected_devices (path : bytes) : C (list bytes) :=
  do! r := attempt (on_host (hf_read path)) in
  match r with
  | inr contents =>
      do! s := lift (from_utf8 contents (IoError (mk_io InvalidData (B "stream did not contain valid UTF-8")))) in
      ret (set_of (lines s))
  | inl (NotFound _) => ret []
  | inl (OtherError e) => fail (IoError e)
  end.

Definition write_connected_devices (path : bytes) (devices : list bytes) : C unit :=
  do! parent := lift (ok_or (path_parent path) (IoError (mk_io Net.Other (B "devices path has no parent")))) in
  do! _ := file (hf_create_dir_all parent) in
  file (hf_write path (devices_text devices)).

Definition store_connected_device (path serial : bytes) : C unit :=
  do! devices := read_connected_devices path in
  write_connected_devices path (set_insert serial devices).

Definition remove_devices_file (path : bytes) : C unit :=
  do! r := attempt (on_host (hf_remove path)) in
  match r with inl (OtherError e) => fail (IoError e) | _ => ret tt end.

Definition remove_connected_device (path : bytes) (serial : option bytes) : C unit :=
  match serial with
  | Some serial =>
      do! devices := read_connected_devices path in
      let devices := set_remove serial devices in
      if zlen devices =? 0 then remove_devices_file path else write_connected_devices path devices
  | None => remove_devices_file path
  end.

(** ** Commands *)
Inductive Commands :=
| Devices (long : bool)
| Connect (target : bytes)
| Disconnect (target : option bytes)
| Getvar (variable : bytes)
| SetActive (slot : bytes)
| Flash (partition : bytes) (file : option bytes)
| WipeSuper (image : option bytes)
| FlashRaw (partition kernel : bytes) (ramdisk second : option bytes)
| Erase (partition : bytes)
| Reboot (target : option bytes)
| RebootBootloader
| RebootRecovery
| RebootFastboot
| Oem (command : list bytes)
| CreateLogicalPartition (partition : bytes) (size : Z)
| DeleteLogicalPartition (partition : bytes)
| ResizeLogicalPartition (partition : bytes) (size : Z)
| Boot (kernel : bytes) (ramdisk second : option bytes)
| Fetch (partition out_file : bytes) (offset size : option Z)
| Continue
| Signature (file : bytes)
| SnapshotUpdate (action : option bytes)
| Shutdown
| Format (partition : bytes) (partition_type : option bytes)
| GetStaged (out_file : bytes)
| Stage (file : option bytes)
| Flashing (action : bytes)
| Gsi (action : list bytes)
| Update (zip_file : bytes).

Record Options := mk_options {
  serial : option bytes; use_usb : bool; slot : option bytes; set_active : option bytes; gopts : GlobalOptions }.

(** What the process finds: the environment, the archives, the devices, and the result of connecting. *)
Record World := mk_world {
  HOME : option bytes; ANDROID_PRODUCT_OUT : option bytes;
  open_zip : bytes -> option ZipArchive;
  usb_enumerate : option (list (option bytes));
  usb_open : FastbootTransportError + T;
  udp_connect : bytes -> FastbootTransportError + T;
  tcp_connect : bytes -> FastbootTransportError + T }.

Section Main.
Variable w : World.

Definition opened (r : FastbootTransportError + T) : C unit := fun c =>
  match r with
  | inr t => (mk_cli t (host c) (output c), Ok tt)
  | inl e => (c, Err (LinkError e))
  end.

Definition open_transport (usb : bool) (addr : bytes) : C unit :=
  if usb then opened (usb_open w)
  else match strip_prefix (B "udp:") addr with
       | Some udp_addr => opened (udp_connect w udp_addr)
       | None => opened (tcp_connect w addr)
       end.

Definition run_reboot (usb : bool) (addr : bytes) (target : option bytes) : C unit :=
  do! _ := open_transport usb addr in
  do! _ := send_cmd (Command.reboot target) in
  do! r := attempt recv_response in
  match r with
  | inr response => do! _ := lift (require_terminal_okay response) in say (Response response)
  | inl _ => ret tt
  end.

(** A command whose FAIL ends the program and whose other answers are told. *)
Definition simple_command (cmd : bytes) : C unit :=
  do! _ := send_cmd cmd in
  do! resp := recv_response in
  match resp with Fail_ _ => fail Exit | r => say (Response r) end.

(** A command that requires OKAY, without and with the messages before it. *)
Definition okay_command (cmd : bytes) : C unit :=
  do! _ := send_cmd cmd in
  do! resp := recv_response in
  do! _ := lift (require_terminal_okay resp) in
  say (Response resp).
Definition info_command (cmd : bytes) : C unit :=
  do! _ := send_cmd cmd in
  do! resp := recv_and_print_info in
  say (Response resp).

Definition list_devices (o : Options) (addr : bytes) (long : bool) : C unit :=
  if use_usb o then
    match usb_enumerate w with
    | Some devices => for_each (fun serial => say (Told (default (B "????????") serial))) devices
    | None => fail Exit
    end
  else
    do! _ := or_exit (open_transport false addr) in
    do! product := if long then try_getvar (B "getvar:product") else ret None in
    do! sent := attempt (send_cmd (B "getvar:version")) in
    match sent with
    | inl _ => say (Listed addr None product)
    | inr _ =>
        do! r := attempt recv_response in
        match r with
        | inr resp => say (Listed addr (Some resp) product)
        | inl _ => say (Listed addr None product)
        end
    end.

Definition getvar_command (variable : bytes) : C unit :=
  do! _ := send_cmd (B "getvar:" ++ variable) in
  if bool_decide (variable = B "all") then
    do! '(info_logs, response) := recv_response_with_info in
    do! _ := for_each (fun info => say (Bootloader info)) info_logs in
    lift (require_terminal_okay response)
  else
    do! resp := recv_and_print_info in
    say (Response resp).

(** The payload of [boot]: the file itself when it is a boot image, or one built from the parts. *)
Definition boot_payload (kernel : bytes) (ramdisk second : option bytes) : C bytes :=
  do! kernel_data := read_file_bytes kernel in
  do! ramdisk_data := match ramdisk with Some p => do! d := read_file_bytes p in ret (Some d) | None => ret None end in
  if starts_with BOOT_MAGIC kernel_data then ret kernel_data else
  do! second_data := match second with Some p => read_file_bytes p | None => ret [] end in
  let b := BootImageBuilder.kernel BootImageBuilder.new kernel_data in
  let b := match ramdisk_data with Some r => BootImageBuilder.ramdisk b r | None => b end in
  ret (BootImageBuilder.build (BootImageBuilder.second b second_data)).

Definition raw_payload (kernel : bytes) (ramdisk second : option bytes) : C bytes :=
  do! kernel_data := read_file_bytes kernel in
  if starts_with BOOT_MAGIC kernel_data then ret kernel_data else
  do! ramdisk_data := match ramdisk with Some p => read_file_bytes p | None => ret [] end in
  do! second_data := match second with Some p => read_file_bytes p | None => ret [] end in
  ret (build_boot_image kernel_data ramdisk_data second_data [] 4096 4).

Definition signature_command (o : Options) (addr path : bytes) : C unit :=
  do! signature := read_file_bytes path in
  if negb (zlen signature =? 256)
  then fail (Failed (B "signature must be 256 bytes (got " ++ fmt_dec (zlen signature) ++ B ")")) else
  do! _ := open_transport (use_usb o) addr in
  do! _ := send_cmd (Command.download 256) in
  do! r := recv_response in
  match r with
  | Data 256 =>
      do! _ := write_link signature in
      do! _ := flush_link in
      do! r := recv_response in
      match r with
      | Okay _ => info_command Command.signature
      | response => fail (FailedWith (B "signature payload rejected: ") response)
      end
  | response => fail (FailedWith (B "signature download rejected: ") response)
  end.

Definition get_staged (out_file : bytes) : C unit :=
  do! _ := send_cmd (B "get_staged") in
  do! data_size := recv_data_response (B "get_staged") in
  if data_size =? 0 then fail (Failed (B "get_staged failed: device returned zero bytes")) else
  do! _ := file (hf_create out_file) in
  do! _ := copy_all out_file data_size in
  do! _ := file (hf_sync out_file) in
  do! final_resp := recv_response in
  match final_resp with
  | Okay msg => say (Told msg)
  | Fail_ reason => fail (Failed (B "get_staged failed after receiving data: " ++ reason))
  | other => fail (FailedWith (B "unexpected get_staged final response: ") other)
  end.

(** What is staged: a file, read while it is sent, or all of the standard input; with its size. *)
Definition stage_source (path : option bytes) : C ((hf_handle + bytes) * Z) :=
  match path with
  | Some path =>
      do! h := or_exit (file (hf_open path)) in
      do! size := or_exit (file (hf_len h)) in
      ret (inl h, size)
  | None => do! buf := or_exit (file hf_stdin) in ret (inr buf, zlen buf)
  end.

Definition stage (o : Options) (addr : bytes) (path : option bytes) : C unit :=
  do! '(data_source, file_size) := stage_source path in
  if file_size =? 0 then fail Exit else
  if u32_max <? file_size then fail Exit else
  do! _ := or_exit (open_transport (use_usb o) addr) in
  do! max_download_size := get_max_download_size in
  let chunk_size := default (16 * 1024 * 1024) max_download_size in
  do! _ := request_download file_size in
  do! _ := alloc chunk_size in
  do! _ := match data_source with
    | inl h => stream_file (Z.to_nat file_size) chunk_size h file_size
    | inr buf => send_payload exits chunk_size buf
    end in
  do! _ := flush_link in
  do! final_resp := recv_response in
  match final_resp with Fail_ _ => fail Exit | r => say (Response r) end.

Definition shutdown : C unit :=
  do! _ := send_cmd (B "reboot-shutdown") in
  do! resp := attempt recv_response in
  match resp with
  | inr (Fail_ _) => fail Exit
  | inr r => say (Response r)
  | inl _ => ret tt
  end.

(** [--set-active] is checked, and does nothing else. *)
Definition check_set_active (value : option bytes) : C unit :=
  match value with
  | None => ret tt
  | Some value =>
      do! s := lift (map_err SlotFailed (SlotSelection.parse (if zlen value =? 0 then None else Some value))) in
      match s with
      | Named _ | Current => ret tt
      | All | FastbootProto.Other => fail (Failed (B "--set-active requires a concrete slot (or no value)"))
      end
  end.

Definition partition_of (slot_selection : SlotSelection) (partition : bytes) : C bytes :=
  lift (map_err SlotFailed (SlotSelection.partition_name slot_selection partition)).

(** One definition per command; [connect] opens the transport or exits. *)
Section Handlers.
Variables (o : Options) (addr : bytes) (slot_selection : SlotSelection).

Definition connect : C unit := or_exit (open_transport (use_usb o) addr).
Definition wire (partition : bytes) : C bytes := partition_of slot_selection partition.

Definition run_connect (target : bytes) : C unit :=
  do! '(protocol, address) := on_err Failed (lift (parse_network_target target)) in
  let transport_address := if bool_decide (protocol = B "udp") then B "udp:" ++ address else address in
  do! _ := open_transport false transport_address in
  do! path := connected_devices_path (HOME w) in
  store_connected_device path target.

Definition run_disconnect (target : option bytes) : C unit :=
  do! _ := match target with
    | Some target => do! _ := on_err Failed (lift (parse_network_target target)) in ret tt
    | None => ret tt
    end in
  do! path := connected_devices_path (HOME w) in
  remove_connected_device path target.

Definition run_getvar (variable : bytes) : C unit := do! _ := connect in getvar_command variable.

Definition run_set_active (slot : bytes) : C unit :=
  if zlen slot =? 0 then fail (Failed (B "set_active requires a non-empty SLOT")) else
  do! _ := connect in info_command (B "set_active:" ++ slot).

Definition run_flash (partition : bytes) (file : option bytes) : C unit :=
  do! wire_partition := wire partition in
  do! image_path := or_exit (on_err Failed (lift (resolve_image_path partition file (ANDROID_PRODUCT_OUT w)))) in
  do! _ := connect in
  flash_image_file partition wire_partition image_path (gopts o).

Definition run_wipe_super (image : option bytes) : C unit :=
  do! wire_partition := wire (B "super") in
  do! image_path := or_exit (on_err Failed (lift (resolve_super_empty_path image (ANDROID_PRODUCT_OUT w)))) in
  do! _ := connect in
  flash_image_file (B "super") wire_partition image_path (gopts o).

Definition run_erase (partition : bytes) : C unit :=
  do! wire_partition := wire partition in
  do! _ := connect in okay_command (B "erase:" ++ wire_partition).

Definition run_oem (command : list bytes) : C unit := do! _ := connect in info_command (B "oem " ++ join (B " ") command).
Definition run_create_logical (partition : bytes) (size : Z) : C unit :=
  do! _ := connect in okay_command (Command.create_logical_partition partition size).
Definition run_delete_logical (partition : bytes) : C unit :=
  do! _ := connect in okay_command (Command.delete_logical_partition partition).
Definition run_resize_logical (partition : bytes) (size : Z) : C unit :=
  do! _ := connect in okay_command (Command.resize_logical_partition partition size).

Definition run_boot (kernel : bytes) (ramdisk second : option bytes) : C unit :=
  do! _ := connect in
  do! payload := boot_payload kernel ramdisk second in
  do! _ := download_and_boot_payload payload in
  handle_boot_response.

Definition run_flash_raw (partition kernel : bytes) (ramdisk second : option bytes) : C unit :=
  do! wire_partition := wire partition in
  do! _ := connect in
  do! payload := raw_payload kernel ramdisk second in
  do! _ := download_and_flash_payload payload wire_partition in
  do! flash_resp := recv_response in
  match flash_resp with Fail_ _ => fail Exit | r => say (Response r) end.

Definition run_fetch (partition out_file : bytes) (offset size : option Z) : C unit :=
  do! _ := connect in
  do! resp := fetch_to_file partition out_file offset size slot_selection in
  say (Response resp).

Definition run_continue : C unit := do! _ := connect in simple_command (B "continue").
Definition run_snapshot_update (action : option bytes) : C unit :=
  do! _ := connect in info_command (Command.snapshot_update action).
Definition run_shutdown : C unit := do! _ := connect in shutdown.

Definition run_format (partition : bytes) (partition_type : option bytes) : C unit :=
  do! wire_partition := wire partition in
  do! _ := connect in
  simple_command (match partition_type with
                  | Some pt => B "format:" ++ pt ++ B ":" ++ wire_partition
                  | None => B "format:" ++ wire_partition
                  end).

Definition run_get_staged (out_file : bytes) : C unit := do! _ := connect in get_staged out_file.
Definition run_flashing (action : bytes) : C unit := do! _ := connect in simple_command (B "flashing:" ++ action).
Definition run_update (zip_file : bytes) : C unit := do! _ := connect in do_update (open_zip w) zip_file (gopts o).
Definition run_gsi (action : list bytes) : C unit :=
  do! _ := connect in
  do! _ := send_cmd (B "gsi:" ++ join (B ":") action) in
  do! _ := recv_and_print_info in
  ret tt.

Definition run_command (c : Commands) : C unit :=
  match c with
  | Connect target => run_connect target
  | Disconnect target => run_disconnect target
  | Devices long => list_devices o addr long
  | Getvar variable => run_getvar variable
  | SetActive slot => run_set_active slot
  | Flash partition file => run_flash partition file
  | WipeSuper image => run_wipe_super image
  | Erase partition => run_erase partition
  | Reboot target => run_reboot (use_usb o) addr target
  | RebootBootloader => run_reboot (use_usb o) addr (Some (B "bootloader"))
  | RebootRecovery => run_reboot (use_usb o) addr (Some (B "recovery"))
  | RebootFastboot => run_reboot (use_usb o) addr (Some (B "fastboot"))
  | Oem command => run_oem command
  | CreateLogicalPartition partition size => run_create_logical partition size
  | DeleteLogicalPartition partition => run_delete_logical partition
  | ResizeLogicalPartition partition size => run_resize_logical partition size
  | Boot kernel ramdisk second => run_boot kernel ramdisk second
  | FlashRaw partition kernel ramdisk second => run_flash_raw partition kernel ramdisk second
  | Fetch partition out_file offset size => run_fetch partition out_file offset size
  | Continue => run_continue
  | Signature file => signature_command o addr file
  | SnapshotUpdate action => run_snapshot_update action
  | Shutdown => run_shutdown
  | Format partition partition_type => run_format partition partition_type
  | GetStaged out_file => run_get_staged out_file
  | Stage file => stage o addr file
  | Flashing action => run_flashing action
  | Update zip_file => run_update zip_file
  | Gsi action => run_gsi action
  end.
End Handlers.

Definition main (o : Options) (c : Commands) : C unit :=
  let addr := resolve_target_addr (serial o) 5554 in
  do! slot_selection := lift (map_err SlotFailed (SlotSelection.parse (slot o))) in
  do! _ := check_set_active (set_active o) in
  run_command o addr slot_selection c.
End Main.
End Flows.
Arguments World : clear implicits.
