(* ===== verification/FastbootSpec.v ===== *)
(** * The fastboot program against a bootloader

    A reference bootloader (variables, partitions of a fixed size, a download buffer) as an instance of the
    transport, a disk as an instance of local files, and what the commands of [main_fastboot.rs] do to them. *)
From S2P Require Import Prelude Text FastbootProto SparseImage Net FastbootStream Effects FastbootCli FastbootRun.

(** ** The bootloader *)
Record Device := mk_device {
  vars : gmap bytes bytes; parts : gmap bytes bytes; buffer : bytes; wanted : Z;
  replies : list FastbootResponse; data_out : bytes }.

Definition set_replies (r : list FastbootResponse) (d : Device) : Device :=
  mk_device (vars d) (parts d) (buffer d) (wanted d) r (data_out d).
Definition reply (r : FastbootResponse) (d : Device) : Device := set_replies (replies d ++ [r]) d.
Definition set_buffer (b : bytes) (n : Z) (d : Device) : Device := mk_device (vars d) (parts d) b n (replies d) (data_out d).
Definition set_part (p img : bytes) (d : Device) : Device :=
  mk_device (vars d) (<[p := img]> (parts d)) (buffer d) (wanted d) (replies d) (data_out d).
Definition set_data_out (x : bytes) (d : Device) : Device :=
  mk_device (vars d) (parts d) (buffer d) (wanted d) (replies d) x.

(** A partition after a download is flashed to it: a sparse image is expanded, anything else is written as it is. *)
Definition device_flash (img old : bytes) : option bytes :=
  if is_sparse img then
    match SparseFile.from_bytes img with
    | Ok f => if zlen (SparseFile.to_raw f) <=? zlen old then Some (SparseImage.Flash.write_image old f) else None
    | _ => None
    end
  else if zlen img <=? zlen old then Some (write_at 0 img old) else None.

Definition no (d : Device) (why : bytes) : Device := reply (Fail_ why) d.
Definition yes (d : Device) : Device := reply (Okay []) d.

Definition cmd_getvar (name : bytes) (d : Device) : Device :=
  match vars d !! name with Some v => reply (Okay v) d | None => no d (B "unknown variable") end.
Definition cmd_download (size : bytes) (d : Device) : Device :=
  match parse_uint 16 u32_max size with
  | Some n => if n =? 0 then no d (B "nothing to download") else reply (Data n) (set_buffer [] n d)
  | None => no d (B "bad size")
  end.
Definition cmd_flash (p : bytes) (d : Device) : Device :=
  match parts d !! p with
  | Some old => match device_flash (buffer d) old with Some img => yes (set_part p img d) | None => no d (B "bad image") end
  | None => no d (B "no such partition")
  end.
Definition cmd_erase (p : bytes) (d : Device) : Device :=
  match parts d !! p with
  | Some old => yes (set_part p (zrep (zlen old) xff) d)
  | None => no d (B "no such partition")
  end.
(** [fetch:NAME:0xOFFSET:0xSIZE]. *)
Definition cmd_fetch (args : bytes) (d : Device) : Device :=
  match split_on ":"%byte args with
  | [p; off; size] =>
      match parts d !! p, parse_u64 off, parse_u64 size with
      | Some img, Some off, Some size =>
          if (off + size <=? zlen img) && (size <=? u32_max) && (0 <? size)
          then yes (reply (Data size) (set_data_out (slice off (off + size) img) d))
          else no d (B "bad range")
      | _, _, _ => no d (B "bad fetch")
      end
  | _ => no d (B "bad fetch")
  end.

Definition device_cmd (cmd : bytes) (d : Device) : Device :=
  match strip_prefix (B "getvar:") cmd, strip_prefix (B "download:") cmd, strip_prefix (B "flash:") cmd,
        strip_prefix (B "erase:") cmd, strip_prefix (B "fetch:") cmd with
  | Some x, _, _, _, _ => cmd_getvar x d
  | _, Some x, _, _, _ => cmd_download x d
  | _, _, Some x, _, _ => cmd_flash x d
  | _, _, _, Some x, _ => cmd_erase x d
  | _, _, _, _, Some x => cmd_fetch x d
  | _, _, _, _, _ => no d (B "unknown command")
  end.

Definition device_write (bs : bytes) (d : Device) : Device * res io_error unit :=
  if wanted d <? zlen bs then (d, Err (mk_io Net.Other (B "not expected"))) else
  let d' := set_buffer (buffer d ++ bs) (wanted d - zlen bs) d in
  (if (0 <? zlen bs) && (wanted d' =? 0) then yes d' else d', Ok tt).

#[export] Instance device_transport : FastbootTransport Device := {|
  ft_send_cmd cmd d := if 4096 <? zlen cmd then (d, Err (EProtocol (B "Command too long"))) else (device_cmd cmd d, Ok tt);
  ft_recv d := match replies d with
    | r :: rs => (set_replies rs d, Ok ([], r))
    | [] => (d, Err closed)
    end;
  ft_write_all := device_write;
  ft_flush d := (d, Ok tt);
  ft_read_exact n d :=
    if zlen (data_out d) <? n then (d, Err unexpected_eof)
    else (set_data_out (drop (Z.to_nat n) (data_out d)) d, Ok (take (Z.to_nat n) (data_out d))) |}.

(** ** A disk without errors *)
Abbreviation Disk := (gmap bytes bytes).

Definition disk_missing : FileError := NotFound (mk_io Net.Other (B "No such file or directory (os error 2)")).
Definition disk_read (path : bytes) (d : Disk) : Disk * res FileError bytes :=
  (d, match d !! path with Some c => Ok c | None => Err disk_missing end).

#[export] Instance disk_files : HostFiles Disk := {|
  hf_handle := bytes * Z;
  hf_open path d := (d, match d !! path with Some _ => Ok (path, 0) | None => Err disk_missing end);
  hf_len h d := (d, Ok (zlen (default [] (d !! h.1))));
  hf_read_exact n h d :=
    let rest := drop (Z.to_nat h.2) (default [] (d !! h.1)) in
    (d, if zlen rest <? n then Err (OtherError unexpected_eof) else Ok (take (Z.to_nat n) rest, (h.1, h.2 + n)));
  hf_read := disk_read;
  hf_create path d := (<[path := []]> d, Ok tt);
  hf_append path bs d := (<[path := default [] (d !! path) ++ bs]> d, Ok tt);
  hf_sync _ d := (d, Ok tt);
  hf_write path bs d := (<[path := bs]> d, Ok tt);
  hf_remove path d := match d !! path with Some _ => (delete path d, Ok tt) | None => (d, Err disk_missing) end;
  hf_create_dir_all _ d := (d, Ok tt);
  hf_stdin d := (d, Ok []) |}.

Abbreviation Pc := (Cli Device Disk).

(** Between commands nothing is pending. *)
Definition ready (d : Device) : Prop := wanted d = 0 /\ replies d = [] /\ data_out d = [].

(** ** One step of the conversation *)
Definition with_link (d : Device) (c : Pc) : Pc := mk_cli d (host c) (output c).
Definition set_host (h : Disk) (c : Pc) : Pc := mk_cli (link c) h (output c).

(** Compute the fields of devices and sessions. *)
Ltac fields := cbn [with_link set_host link host output set_replies yes no reply set_buffer set_part set_data_out
  vars parts buffer wanted replies data_out app] in *.

Lemma send_device (c : Pc) cmd : zlen cmd <= 4096 -> send_cmd cmd c = (with_link (device_cmd cmd (link c)) c, Ok tt).
Proof. intros Hl. unfold send_cmd, on_err, on_link. cbn. by rewrite (proj2 (Z.ltb_ge _ _)) by lia. Qed.

Lemma recv_info_device (c : Pc) r rs :
  replies (link c) = r :: rs -> recv_response_with_info c = (with_link (set_replies rs (link c)) c, Ok ([], r)).
Proof. intros Hr. unfold recv_response_with_info, on_err, on_link. cbn. by rewrite Hr. Qed.

Lemma recv_device (c : Pc) r rs :
  replies (link c) = r :: rs -> recv_response c = (with_link (set_replies rs (link c)) c, Ok r).
Proof. intros Hr. unfold recv_response, bind. by rewrite (recv_info_device c r rs Hr). Qed.

(** A command with one answer. *)
Lemma ask_device {A : Type} (c : Pc) (cmd : bytes) (r : FastbootResponse) (k : FastbootResponse -> M Pc ending A) :
  zlen cmd <= 4096 -> replies (device_cmd cmd (link c)) = [r] ->
  bind (send_cmd cmd) (fun _ => bind recv_response k) c = k r (with_link (set_replies [] (device_cmd cmd (link c))) c).
Proof.
  intros Hl Hr. rewrite (bind_ok _ _ _ _ _ (send_device c cmd Hl)).
  by rewrite (bind_ok _ _ _ _ _ (recv_device (with_link _ c) r [] Hr)).
Qed.

Lemma getvar_eq v (d : Device) : device_cmd (B "getvar:" ++ v) d = cmd_getvar v d.
Proof. unfold device_cmd. by rewrite strip_prefix_app. Qed.
Lemma download_eq v (d : Device) : device_cmd (B "download:" ++ v) d = cmd_download v d.
Proof. unfold device_cmd. by rewrite strip_prefix_app. Qed.
Lemma flash_eq v (d : Device) : device_cmd (B "flash:" ++ v) d = cmd_flash v d.
Proof. unfold device_cmd. by rewrite strip_prefix_app. Qed.
Lemma fetch_eq v (d : Device) : device_cmd (B "fetch:" ++ v) d = cmd_fetch v d.
Proof. unfold device_cmd. by rewrite strip_prefix_app. Qed.

(** Names of up to 4000 bytes make commands that can be sent. *)
Lemma short_cmd (p name : bytes) : (zlen p <=? 64) = true -> zlen name <= 4000 -> zlen (p ++ name) <= 4096.
Proof. intros Hp%Z.leb_le Hn. rewrite zlen_app. lia. Qed.

Lemma reply_taken r (d : Device) : replies d = [] -> set_replies [] (reply r d) = d.
Proof. destruct d. cbn. by intros ->. Qed.

Lemma with_link_same (c : Pc) : with_link (link c) c = c.
Proof. by destruct c. Qed.

Lemma try_getvar_device (c : Pc) (name v : bytes) :
  replies (link c) = [] -> zlen name <= 4000 -> vars (link c) !! name = Some v ->
  try_getvar (B "getvar:" ++ name) c = (c, Ok (Some v)).
Proof.
  intros Hr Hl Hv. unfold try_getvar.
  rewrite (bind_ok _ _ _ _ _ (attempt_ok _ _ _ _ (send_device c _ (short_cmd (B "getvar:") name eq_refl Hl)))).
  rewrite getvar_eq. unfold cmd_getvar. rewrite Hv.
  assert (replies (link (with_link (reply (Okay v) (link c)) c)) = [Okay v]) as Hq by (cbn; by rewrite Hr).
  rewrite (bind_ok _ _ _ _ _ (attempt_ok _ _ _ _ (recv_device _ (Okay v) [] Hq))).
  cbn [with_link link]. rewrite reply_taken by done. unfold with_link. cbn. by destruct c.
Qed.

Lemma max_size_device (c : Pc) (v : bytes) o :
  replies (link c) = [] -> vars (link c) !! B "max-download-size" = Some v -> parse_max_download_size v = Ok o ->
  get_max_download_size c = (c, Ok o).
Proof.
  intros Hr Hv Ho. unfold get_max_download_size.
  rewrite (bind_ok _ _ _ _ _ (try_getvar_device c (B "max-download-size") v Hr ltac:(by vm_compute) Hv)).
  unfold lift. by rewrite Ho.
Qed.

Lemma download_device (c : Pc) n :
  replies (link c) = [] -> 0 < n <= u32_max ->
  request_download n c = (with_link (set_buffer [] n (link c)) c, Ok tt).
Proof.
  intros Hr Hn. unfold request_download, Command.download. assert (u32_max = 2 ^ 32 - 1) as Hu by done.
  rewrite wrap_small by (unfold uint; lia).
  assert (device_cmd (B "download:" ++ fmt_hex_pad 8 n) (link c) = reply (Data n) (set_buffer [] n (link c))) as Hd.
  { rewrite download_eq. unfold cmd_download. rewrite parse_fmt_hex_pad by lia.
    by rewrite (proj2 (Z.eqb_neq _ _)) by lia. }
  rewrite (ask_device c _ (Data n)); rewrite ?Hd; [|apply short_cmd; [done|]; unfold zlen; rewrite length_fmt_hex_pad by lia; lia|].
  - rewrite Z.eqb_refl. rewrite reply_taken; [done|by destruct (link c)].
  - destruct (link c). cbn in *. by rewrite Hr.
Qed.

(** The device after it has taken [bs] of the payload. *)
Definition taken (bs : bytes) (d : Device) : Device :=
  let d' := set_buffer (buffer d ++ bs) (wanted d - zlen bs) d in
  if (0 <? zlen bs) && (wanted d' =? 0) then yes d' else d'.

Lemma write_plain (c : Pc) (bs : bytes) :
  zlen bs <= wanted (link c) -> write_link bs c = (with_link (taken bs (link c)) c, Ok tt).
Proof.
  intros Hl. unfold write_link, on_err, on_link. cbn. unfold device_write.
  by rewrite (proj2 (Z.ltb_ge _ _)) by lia.
Qed.

Lemma write_device (c : Pc) (bs : bytes) (f : ending -> ending) :
  zlen bs <= wanted (link c) -> on_err f (write_link bs) c = (with_link (taken bs (link c)) c, Ok tt).
Proof. intros Hl. by apply on_err_ok, write_plain. Qed.

Lemma taken_app (x y : bytes) d : zlen x + zlen y <= wanted d -> 0 < zlen y -> taken y (taken x d) = taken (x ++ y) d.
Proof.
  intros Hl Hy. pose proof (zlen_nonneg x). unfold taken. cbn [wanted set_buffer].
  rewrite (proj2 (Z.eqb_neq (wanted d - zlen x) 0)) by lia. rewrite andb_false_r. cbn [wanted set_buffer buffer].
  rewrite zlen_app, <- app_assoc. rewrite (proj2 (Z.ltb_lt 0 (zlen y))), (proj2 (Z.ltb_lt 0 _)) by lia.
  by rewrite Z.sub_add_distr.
Qed.

Lemma send_chunks_device fuel : forall (c : Pc) f chunk_size payload,
  (length payload <= fuel)%nat -> 0 < chunk_size -> 0 < zlen payload <= wanted (link c) ->
  send_chunks fuel f chunk_size payload c = (with_link (taken payload (link c)) c, Ok tt).
Proof.
  induction fuel as [|fuel IH]; intros c f chunk_size payload Hf Hc Hp; [unfold zlen in Hp; lia|].
  cbn [send_chunks]. rewrite (proj2 (Z.eqb_neq _ _)) by lia. set (n := Z.to_nat _).
  assert (n = Z.to_nat (Z.min (zlen payload) chunk_size)) as Hn by done. clearbody n.
  assert (zlen (take n payload) = Z.of_nat n) as Ht by (unfold zlen in *; rewrite length_take; lia).
  assert (zlen (drop n payload) = zlen payload - Z.of_nat n) as Hd by (unfold zlen in *; rewrite length_drop; lia).
  rewrite (bind_ok _ _ _ _ _ (write_device c (take n payload) f ltac:(lia))).
  destruct (decide (zlen payload <= chunk_size)).
  - rewrite (take_ge payload n), (drop_ge payload n) by (unfold zlen in *; lia). by destruct fuel.
  - rewrite IH; [|unfold zlen in *; lia|done|].
    + cbn [with_link link host output]. by rewrite taken_app, take_drop by lia.
    + cbn [with_link link]. unfold taken. cbn [wanted set_buffer].
      destruct (_ && _) eqn:E; [|cbn; lia]. apply andb_prop in E. lia.
Qed.

(** Streaming from a file is sending its bytes. *)
Lemma stream_as_chunks fuel : forall (c : Pc) chunk_size path pos remaining content,
  host c !! path = Some content -> 0 <= pos -> 0 <= remaining -> pos + remaining <= zlen content -> 0 < chunk_size ->
  stream_file fuel chunk_size (path, pos) remaining c
  = send_chunks fuel exits chunk_size (slice pos (pos + remaining) content) c.
Proof.
  induction fuel as [|fuel IH]; intros c chunk_size path pos remaining content Hc Hp Hr Hl Hk.
  all: assert (zlen (slice pos (pos + remaining) content) = remaining) as Hz by (rewrite zlen_slice by lia; lia).
  all: cbn [stream_file send_chunks]; rewrite Hz.
  all: destruct (Z.leb_spec remaining 0); [by rewrite (proj2 (Z.eqb_eq _ _)) by lia|].
  all: rewrite (proj2 (Z.eqb_neq _ _)) by lia.
  { done. }
  set (n := Z.min remaining chunk_size). assert (0 < n <= remaining) as Hn by lia.
  assert (take (Z.to_nat n) (slice pos (pos + remaining) content) = take (Z.to_nat n) (drop (Z.to_nat pos) content)) as Ht.
  { unfold slice. rewrite take_take. f_equal. lia. }
  assert (or_exit (file (hf_read_exact n (path, pos))) c
    = (c, Ok (take (Z.to_nat n) (drop (Z.to_nat pos) content), (path, pos + n)))) as Hf.
  { unfold or_exit, file, on_err, on_host. cbn. rewrite Hc. cbn [default from_option].
    rewrite (proj2 (Z.ltb_ge _ _)); [by destruct c|]. unfold zlen in *. rewrite length_drop. cbn in *. lia. }
  rewrite (bind_ok _ _ _ _ _ Hf), <- Ht. unfold bind, or_exit. fold exits.
  destruct (on_err _ (write_link _) c) as [c1 [[]|e|]] eqn:Hw; [|done|done].
  rewrite (IH c1 chunk_size path (pos + n) (remaining - n) content); [|..|lia|lia|lia|done].
  - f_equal. unfold slice. rewrite skipn_firstn_comm. rewrite drop_drop. f_equal; [lia|]. f_equal. lia.
  - revert Hw. unfold on_err, write_link, on_err, on_link. destruct (ft_write_all _ _). cbn. intros [= <- _]. done.
Qed.

Lemma finish_device (c : Pc) r rs :
  replies (link c) = r :: rs -> (forall why, r <> Fail_ why) ->
  finish_payload c = (with_link (set_replies rs (link c)) c, Ok r).
Proof.
  intros Hr Hn. unfold finish_payload. unfold flush_link, bind at 1, on_err, on_link. cbn [ft_flush device_transport].
  rewrite (bind_ok _ _ _ _ _ (recv_device (mk_cli (link c) (host c) (output c)) r rs Hr)).
  destruct r; try done. by destruct (Hn s).
Qed.

(** A verdict that takes OKAY. *)
Definition takes_okay (verdict : FastbootResponse -> res ending unit) : Prop := forall s, verdict (Okay s) = Ok tt.

(** What a session of the program is after an image is flashed. *)
Definition installed (p img new : bytes) (c : Pc) : Pc :=
  mk_cli (set_part p new (set_buffer img 0 (link c))) (host c) (output c ++ [Response (Okay [])]).

Lemma cmd_flash_ok (d : Device) (p old new : bytes) :
  parts d !! p = Some old -> device_flash (buffer d) old = Some new ->
  device_cmd (Command.flash p) d = yes (set_part p new d).
Proof. intros Hp Hn. unfold Command.flash. rewrite flash_eq. unfold cmd_flash. by rewrite Hp, Hn. Qed.

Lemma flash_device (c0 : Pc) verdict (p img old new : bytes) :
  ready (link c0) -> zlen p <= 4000 -> takes_okay verdict ->
  parts (link c0) !! p = Some old -> device_flash img old = Some new -> 0 < zlen img ->
  flash_downloaded verdict p (with_link (taken img (set_buffer [] (zlen img) (link c0))) c0) = (installed p img new c0, Ok tt).
Proof.
  intros (Hw & Hr & Ho) Hp Hv Hold Hnew Hi. destruct c0 as [[vs ps b w rs d] h out]. cbn in *. subst.
  unfold taken. cbn [wanted set_buffer buffer app]. rewrite Z.sub_diag, (proj2 (Z.ltb_lt _ _)) by lia. cbn [andb].
  rewrite (proj2 (Z.eqb_eq 0 0)) by done.
  unfold flash_downloaded. erewrite bind_ok; [|apply (finish_device _ (Okay []) []); done].
  cbn [with_link link host output set_replies yes reply replies set_buffer vars parts buffer wanted data_out].
  rewrite (ask_device _ _ (Okay [])); [|by apply (short_cmd (B "flash:"))|].
  - rewrite (cmd_flash_ok _ p old new) by done. by rewrite Hv.
  - by rewrite (cmd_flash_ok _ p old new).
Qed.

(** ** Flashing *)

(** What the device says of its limit: a positive size, or nothing. *)
Definition limit_is (d : Device) (lim : option Z) : Prop :=
  match vars d !! B "max-download-size" with Some v => parse_max_download_size v = Ok lim | None => lim = None end /\
  (forall n, lim = Some n -> 0 < n < 2 ^ 63).

Lemma try_getvar_missing (c : Pc) (name : bytes) :
  replies (link c) = [] -> zlen name <= 4000 -> vars (link c) !! name = None ->
  try_getvar (B "getvar:" ++ name) c = (c, Ok None).
Proof.
  intros Hr Hl Hv. unfold try_getvar.
  rewrite (bind_ok _ _ _ _ _ (attempt_ok _ _ _ _ (send_device c _ (short_cmd (B "getvar:") name eq_refl Hl)))).
  rewrite getvar_eq. unfold cmd_getvar. rewrite Hv. unfold no. set (r := Fail_ _).
  assert (replies (link (with_link (reply r (link c)) c)) = [r]) as Hq by (cbn; by rewrite Hr).
  rewrite (bind_ok _ _ _ _ _ (attempt_ok _ _ _ _ (recv_device _ r [] Hq))).
  cbn [with_link link]. rewrite reply_taken by done. unfold with_link. cbn. by destruct c.
Qed.

Lemma limit_device (c : Pc) lim :
  replies (link c) = [] -> limit_is (link c) lim -> get_max_download_size c = (c, Ok lim).
Proof.
  intros Hr [Hl _]. destruct (vars (link c) !! B "max-download-size") as [v|] eqn:Hv.
  - by apply (max_size_device c v).
  - subst lim. unfold get_max_download_size.
    by rewrite (bind_ok _ _ _ _ _ (try_getvar_missing c (B "max-download-size") Hr ltac:(by vm_compute) Hv)).
Qed.

(** The bytes that are sent for an image: with the vbmeta flags set, and in pieces above the limit. *)
Definition patched (label img : bytes) (o : GlobalOptions) : res ending bytes :=
  if is_vbmeta_partition label then let! p := patch_vbmeta_flags img o in Ok (default img p) else Ok img.

Definition pieces_of (img : bytes) (limit : Z) : option (list SparseFile) :=
  match (if is_sparse img then SparseFile.from_bytes img else Ok (SparseFile.from_raw img 4096)) with
  | Ok f => match SparseFile.split f limit with Some (Ok ps) => Some ps | _ => None end
  | _ => None
  end.

Definition payloads_of (img : bytes) (lim : option Z) : option (list bytes) :=
  match lim with
  | Some limit => if limit <? zlen img then option_map (map SparseFile.encode) (pieces_of img limit) else Some [img]
  | None => Some [img]
  end.

(** A partition after payloads are flashed to it one after the other. *)
Fixpoint flash_all (payloads : list bytes) (old : bytes) : option bytes :=
  match payloads with
  | [] => Some old
  | p :: ps => match device_flash p old with Some new => flash_all ps new | None => None end
  end.

(** Between two states of the program only partition [p] has changed. *)
Definition only_part (p new : bytes) (c c' : Pc) : Prop :=
  parts (link c') = <[p := new]> (parts (link c)) /\ vars (link c') = vars (link c) /\ ready (link c') /\ host c' = host c.

Lemma patch_length data o p : patch_vbmeta_flags data o = Ok (Some p) -> zlen p = zlen data.
Proof.
  assert (forall i f l, zlen (or_byte i f l) = zlen l) as Ho by (intros; unfold or_byte, zlen; by rewrite length_alter).
  unfold patch_vbmeta_flags. destruct (_ || _); [done|]. destruct (_ <? _); [done|]. destruct (_ || _); [done|].
  destruct (_ <=? _); [done|]. intros [= <-]. destruct (disable_verity o), (disable_verification o); by rewrite ?Ho.
Qed.

Lemma patched_length label img o p : patched label img o = Ok p -> zlen p = zlen img.
Proof.
  unfold patched. destruct (is_vbmeta_partition label); [|by intros [= ->]].
  destruct (patch_vbmeta_flags img o) as [[q|]| |] eqn:E; cbn; intros [= <-]; [|done]. by eapply patch_length.
Qed.

Lemma installed_only (p img new : bytes) (c : Pc) : ready (link c) -> only_part p new c (installed p img new c).
Proof. intros (Hw & Hr & Ho). by repeat split. Qed.

Lemma only_part_again (p new new' : bytes) (c c' c'' : Pc) :
  only_part p new c c' -> only_part p new' c' c'' -> only_part p new' c c''.
Proof.
  intros (H1 & H2 & _ & H3) (H4 & H5 & H6 & H7). unfold only_part. rewrite H4, H1, insert_insert_eq, H5, H2, H7. by split_and!.
Qed.

Lemma only_part_same (p old : bytes) (c : Pc) : ready (link c) -> parts (link c) !! p = Some old -> only_part p old c c.
Proof. intros Hr Hp. unfold only_part. rewrite insert_id by done. by split_and!. Qed.

Definition payload_ok (x : bytes) : Prop := 0 < zlen x <= u32_max.

Lemma send_piece_device (c : Pc) verdict piece (p old new : bytes) :
  ready (link c) -> zlen p <= 4000 -> takes_okay verdict -> parts (link c) !! p = Some old ->
  device_flash (SparseFile.encode piece) old = Some new -> payload_ok (SparseFile.encode piece) ->
  send_piece verdict p piece c = (installed p (SparseFile.encode piece) new c, Ok tt).
Proof.
  intros Hr Hp Hv Hold Hnew Hl. unfold send_piece.
  rewrite (bind_ok _ _ _ _ _ (download_device c _ (proj1 (proj2 Hr)) Hl)).
  erewrite bind_ok; [|apply write_plain; done].
  by apply (flash_device c verdict p _ old).
Qed.

Lemma send_pieces_device verdict (p : bytes) pieces : forall (c : Pc) (old new : bytes),
  ready (link c) -> zlen p <= 4000 -> takes_okay verdict -> parts (link c) !! p = Some old ->
  flash_all (map SparseFile.encode pieces) old = Some new -> Forall payload_ok (map SparseFile.encode pieces) ->
  exists c', for_each (send_piece verdict p) pieces c = (c', Ok tt) /\ only_part p new c c'.
Proof.
  induction pieces as [|x pieces IH]; intros c old new Hr Hp Hv Hold Hnew Hl; cbn in Hnew.
  { injection Hnew as <-. exists c. split; [done|]. by apply only_part_same. }
  destruct (device_flash _ old) as [mid|] eqn:Hmid; [|done]. apply list.Forall_cons in Hl as [Hx Hl].
  cbn [for_each]. rewrite (bind_ok _ _ _ _ _ (send_piece_device c verdict x p old mid Hr Hp Hv Hold Hmid Hx)).
  pose proof (installed_only p (SparseFile.encode x) mid c Hr) as Ho.
  destruct (IH (installed p (SparseFile.encode x) mid c) mid new) as (c' & Hc & Ho'); [apply Ho|done|done| |done|done|].
  - cbn. apply lookup_insert_eq.
  - exists c'. split; [done|]. by eapply only_part_again.
Qed.

Lemma image_pieces_device (c : Pc) (img : bytes) limit pieces :
  pieces_of img limit = Some pieces -> image_pieces img limit c = (c, Ok pieces).
Proof.
  unfold pieces_of, image_pieces, or_exit, on_err, bind, lift, ret.
  destruct (is_sparse img).
  - destruct (SparseFile.from_bytes img) as [f| |]; [|done|done]. cbn.
    by destruct (SparseFile.split f limit) as [[ps| |]|]; intros [= ->].
  - by destruct (SparseFile.split _ limit) as [[ps| |]|]; intros [= ->].
Qed.

Lemma read_disk (c : Pc) (path img : bytes) : host c !! path = Some img -> or_exit (file (hf_read path)) c = (c, Ok img).
Proof. intros Hf. unfold or_exit, file, on_err, on_host. cbn. rewrite Hf. by destruct c. Qed.

Lemma patched_device (c : Pc) (label img img' : bytes) o :
  patched label img o = Ok img' -> patched_image label img o c = (c, Ok img').
Proof.
  unfold patched_image, patched, bind, lift, ret. destruct (is_vbmeta_partition label); [|by intros [= ->]].
  by destruct (patch_vbmeta_flags img o) as [q| |]; cbn; intros [= <-].
Qed.

Lemma flash_split_device (c : Pc) (label p path img img' old new : bytes) o limit pieces :
  ready (link c) -> zlen p <= 4000 -> parts (link c) !! p = Some old -> host c !! path = Some img ->
  patched label img o = Ok img' -> pieces_of img' limit = Some pieces ->
  flash_all (map SparseFile.encode pieces) old = Some new -> Forall payload_ok (map SparseFile.encode pieces) ->
  exists c', flash_split label p path o limit c = (c', Ok tt) /\ only_part p new c c'.
Proof.
  intros Hr Hp Hold Hf Hi Hps Hnew Hl. unfold flash_split.
  pose proof (patched_device c label img img' o Hi) as H2.
  rewrite (bind_ok _ _ _ _ _ (read_disk c path img Hf)), (bind_ok _ _ _ _ _ H2), (bind_ok _ _ _ _ _ (image_pieces_device c img' limit pieces Hps)).
  by apply (send_pieces_device require_terminal_okay p pieces c old new).
Qed.

Lemma flash_whole_device (c : Pc) (label p path img img' old new : bytes) o chunk_size :
  ready (link c) -> zlen p <= 4000 -> parts (link c) !! p = Some old -> host c !! path = Some img ->
  patched label img o = Ok img' -> device_flash img' old = Some new -> payload_ok img -> 0 < chunk_size < 2 ^ 63 ->
  exists c', flash_whole label p path o (path, 0) (zlen img) chunk_size c = (c', Ok tt) /\ only_part p new c c'.
Proof.
  intros Hr Hp Hold Hf Hi Hnew Hl Hk. pose proof (patched_length _ _ _ _ Hi) as Hlen.
  exists (installed p img' new c). split; [|by apply installed_only].
  set (vp := match patch_vbmeta_flags img o with Ok v => if is_vbmeta_partition label then v else None | _ => None end).
  assert (img' = default img vp) as Hv.
  { subst vp. revert Hi. unfold patched. destruct (is_vbmeta_partition label).
    - by destruct (patch_vbmeta_flags img o); intros [= <-].
    - intros [= <-]. by destruct (patch_vbmeta_flags img o). }
  unfold flash_whole. erewrite bind_ok with (a := vp) (s1 := c).
  2: { destruct (is_vbmeta_partition label) eqn:Hb; [destruct (needs_vbmeta_patch o) eqn:Hn|]; cbn [andb].
       - rewrite (bind_ok _ _ _ _ _ (read_disk c path img Hf)). unfold lift. subst vp. revert Hi. unfold patched. rewrite Hb. by destruct (patch_vbmeta_flags img o).
       - unfold ret. subst vp. unfold patch_vbmeta_flags. by rewrite Hn.
       - unfold ret. subst vp. by destruct (patch_vbmeta_flags img o). }
  assert (match vp with Some q => zlen q | None => zlen img end = zlen img') as Hz by (rewrite Hv; by destruct vp).
  rewrite Hz. unfold payload_ok in Hl. rewrite <- Hlen in Hl.
  rewrite (bind_ok _ _ _ _ _ (download_device c _ (proj1 (proj2 Hr)) Hl)).
  set (c1 := with_link _ c). erewrite bind_ok with (a := tt) (s1 := with_link (taken img' (link c1)) c1).
  { subst c1. apply (flash_device c require_terminal_okay p img' old new); done || lia. }
  destruct vp as [q|]; cbn in Hv; subst img'.
  - unfold send_payload. apply send_chunks_device; [lia|lia|]. cbn. lia.
  - erewrite bind_ok with (a := tt) (s1 := c1); [|unfold alloc; by rewrite (proj2 (Z.ltb_ge _ _)) by lia].
    rewrite (stream_as_chunks _ c1 chunk_size path 0 (zlen img) img) by (done || lia).
    assert (slice 0 (0 + zlen img) img = img) as -> by (apply slice_full; lia).
    apply send_chunks_device; [unfold zlen; lia|lia|]. cbn. lia.
Qed.

(** The whole of [flash_image_file]. *)
Definition flashable (d : Device) (h : Disk) (label p path : bytes) (o : GlobalOptions) (img' new : bytes) : Prop :=
  exists (img old : bytes) (lim : option Z) (payloads : list bytes),
    zlen p <= 4000 /\ h !! path = Some img /\ payload_ok img /\ parts d !! p = Some old /\ limit_is d lim /\
    patched label img o = Ok img' /\ payloads_of img' lim = Some payloads /\ Forall payload_ok payloads /\
    flash_all payloads old = Some new.

Lemma flash_file_device (c : Pc) (label p path : bytes) o (img' new : bytes) :
  ready (link c) -> flashable (link c) (host c) label p path o img' new ->
  exists c', flash_image_file label p path o c = (c', Ok tt) /\ only_part p new c c'.
Proof.
  intros Hr (img & old & lim & payloads & Hp & Hf & Hs & Hold & Hlim & Hi & Hps & Hl & Hnew). unfold flash_image_file.
  pose proof (patched_length _ _ _ _ Hi) as Hlen. pose proof Hs as [Hs1 Hs2].
  assert (or_exit (file (hf_open path)) c = (c, Ok (path, 0))) as H1.
  { unfold or_exit, file, on_err, on_host. cbn. rewrite Hf. by destruct c. }
  assert (or_exit (file (hf_len (path, 0))) c = (c, Ok (zlen img))) as H2.
  { unfold or_exit, file, on_err, on_host. cbn. rewrite Hf. by destruct c. }
  rewrite (bind_ok _ _ _ _ _ H1), (bind_ok _ _ _ _ _ H2), (proj2 (Z.eqb_neq _ _)), (proj2 (Z.ltb_ge _ _)) by lia.
  rewrite (bind_ok _ _ _ _ _ (limit_device c lim (proj1 (proj2 Hr)) Hlim)). destruct Hlim as [_ Hlim].
  destruct lim as [limit|]; cbn in Hps.
  - specialize (Hlim limit eq_refl). rewrite Hlen in Hps. rewrite (proj2 (Z.ltb_lt 0 limit)) by lia. cbn [andb].
    destruct (limit <? zlen img).
    + destruct (pieces_of img' limit) as [pieces|] eqn:Hpi; cbn in Hps; [|done]. injection Hps as <-.
      by apply (flash_split_device c label p path img img' old new o limit pieces).
    + injection Hps as <-. cbn in Hnew. destruct (device_flash img' old) eqn:Hd; [|done]. injection Hnew as ->.
      by apply (flash_whole_device c label p path img img' old new).
  - injection Hps as <-. cbn in Hnew. destruct (device_flash img' old) eqn:Hd; [|done]. injection Hnew as ->.
    by apply (flash_whole_device c label p path img img' old new).
Qed.

(** ** Fetching *)
Definition grown (out_file bs : bytes) (h : Disk) : Disk := <[out_file := default [] (h !! out_file) ++ bs]> h.

Lemma grown_grown (out_file a b : bytes) h : grown out_file b (grown out_file a h) = grown out_file (a ++ b) h.
Proof. unfold grown. rewrite lookup_insert_eq, insert_insert_eq. cbn. by rewrite app_assoc. Qed.

Lemma copy_data_device fuel : forall (c : Pc) (out_file : bytes) n,
  0 <= n <= zlen (data_out (link c)) -> n <= Z.of_nat fuel * (1024 * 1024) -> 0 < n ->
  copy_data fuel out_file n c
  = (mk_cli (set_data_out (drop (Z.to_nat n) (data_out (link c))) (link c))
       (grown out_file (take (Z.to_nat n) (data_out (link c))) (host c)) (output c), Ok tt).
Proof.
  induction fuel as [|fuel IH]; intros c out_file n Hn Hf H0; [lia|].
  cbn [copy_data]. rewrite (proj2 (Z.leb_gt _ _)) by lia. set (k := Z.min n _). assert (0 < k <= n) as Hk by lia.
  assert (read_link k c = (with_link (set_data_out (drop (Z.to_nat k) (data_out (link c))) (link c)) c,
    Ok (take (Z.to_nat k) (data_out (link c))))) as H1.
  { unfold read_link, on_err, on_link. cbn. by rewrite (proj2 (Z.ltb_ge _ _)) by lia. }
  rewrite (bind_ok _ _ _ _ _ H1). set (bs := take _ _). set (c1 := with_link _ c).
  assert (file (hf_append out_file bs) c1 = (set_host (grown out_file bs (host c)) c1, Ok tt)) as H2 by done.
  rewrite (bind_ok _ _ _ _ _ H2). destruct (Z.eq_dec n k) as [Hnk|Hnk].
  - rewrite <- Hnk, Z.sub_diag. subst bs c1. rewrite <- Hnk. by destruct fuel.
  - rewrite IH; [|cbn; unfold zlen in *; rewrite length_drop; lia|lia|lia].
    subst bs c1. cbn [set_host with_link link host output data_out set_data_out]. rewrite grown_grown, drop_drop, take_take_drop.
    by replace (Z.to_nat k + Z.to_nat (n - k))%nat with (Z.to_nat n) by lia.
Qed.

(** Ranges as they are written in commands. *)
Lemma trim_word (s : bytes) : Forall plain s -> (2 <= length s)%nat -> trim s = s.
Proof.
  intros Hs Hl. destruct s as [|a s]; [cbn in Hl; lia|]. destruct (exists_last (l := s)) as (m & z & ->); [intros ->; cbn in Hl; lia|].
  apply list.Forall_cons in Hs as [Ha Hs]. apply Forall_app in Hs as [_ Hz]. inversion Hz. by apply trim_plain.
Qed.

Lemma hex_plain n z : Forall plain (fmt_hex_pad n z).
Proof.
  unfold fmt_hex_pad. apply Forall_app. split; [by apply Forall_replicate|].
  apply digits_go_Forall; [lia| |constructor]. intros d Hd. apply digit_char_plain. lia.
Qed.

Lemma digit_not_colon d : 0 <= d < 16 -> digit_char d <> ":"%byte.
Proof.
  intros Hd E%(f_equal b2z). revert E. unfold digit_char. destruct (Z.ltb_spec d 10); rewrite b2z_z2b, Z.mod_small by lia.
  all: change (b2z ":") with 58; lia.
Qed.

Lemma hex_no_colon n z : ":"%byte ∉ B "0x" ++ fmt_hex_pad n z.
Proof.
  assert (Forall (fun b => b <> ":"%byte) (B "0x" ++ fmt_hex_pad n z)) as HF.
  { unfold fmt_hex_pad. rewrite !Forall_app. split_and!.
    - by repeat constructor.
    - by apply Forall_replicate.
    - apply digits_go_Forall; [lia| |constructor]. intros d Hd. apply digit_not_colon. lia. }
  rewrite Forall_forall in HF. intros Hin%list_elem_of_In. by apply (HF _ Hin).
Qed.

Lemma parse_u64_hex n z : (1 <= n)%nat -> 0 <= z < 2 ^ 64 -> parse_u64 (B "0x" ++ fmt_hex_pad n z) = Some z.
Proof.
  intros Hn Hz. unfold parse_u64. rewrite trim_word.
  - unfold strip_0x. rewrite strip_prefix_app. apply parse_fmt_hex_pad; [|lia]. unfold usize_max. lia.
  - apply Forall_app. split; [repeat constructor|apply hex_plain].
  - rewrite length_app. cbn. lia.
Qed.

Lemma cmd_fetch_ok (d : Device) (p content : bytes) off size :
  parts d !! p = Some content -> ":"%byte ∉ p -> 0 <= off -> 0 < size <= u32_max -> off + size <= zlen content < 2 ^ 64 ->
  device_cmd (Command.fetch p (Some off) (Some size)) d
  = yes (reply (Data size) (set_data_out (slice off (off + size) content) d)).
Proof.
  intros Hp Hc Ho Hs Hl. unfold Command.fetch.
  change (device_cmd _ d) with (device_cmd (((B "fetch:" ++ p) ++ B ":0x" ++ fmt_hex_pad 8 off) ++ B ":0x" ++ fmt_hex_pad 8 size) d).
  rewrite <- !app_assoc, fetch_eq. unfold cmd_fetch.
  change (B ":0x" ++ fmt_hex_pad 8 off ++ B ":0x" ++ fmt_hex_pad 8 size)
    with (":"%byte :: (B "0x" ++ fmt_hex_pad 8 off) ++ ":"%byte :: (B "0x" ++ fmt_hex_pad 8 size)).
  rewrite split_on_app by done. rewrite split_on_app, split_on_none by apply hex_no_colon.
  rewrite Hp, !parse_u64_hex by lia. rewrite !(proj2 (Z.leb_le _ _)), (proj2 (Z.ltb_lt _ _)) by lia. done.
Qed.

(** One range. *)
Lemma fetch_range_device {A : Type} (c : Pc) (p out_file content prev : bytes) (off size : Z) (k : FastbootResponse -> M Pc ending A) :
  ready (link c) -> parts (link c) !! p = Some content -> ":"%byte ∉ p -> zlen p <= 3900 ->
  0 <= off -> 0 < size <= u32_max -> off + size <= zlen content < 2 ^ 64 -> host c !! out_file = Some prev ->
  (do! _ := send_cmd (Command.fetch p (Some off) (Some size)) in
   do! data_size := recv_data_response (B "fetch") in
   if data_size =? 0 then fail (Failed (B "fetch returned zero bytes")) else
   if size <? data_size then fail (Failed (fetched_bytes data_size size)) else
   do! _ := copy_all out_file data_size in
   do! _ := file (hf_sync out_file) in
   do! final_response := recv_response in
   do! _ := lift (require_terminal_okay final_response) in
   if negb (data_size =? size) then fail (Failed (fetched_bytes data_size size)) else k final_response) c
  = k (Okay []) (set_host (<[out_file := prev ++ slice off (off + size) content]> (host c)) c).
Proof.
  intros (Hw & Hr & Hd) Hp Hc Hn Ho Hs Hl Hf. pose proof (cmd_fetch_ok (link c) p content off size Hp Hc Ho Hs Hl) as Hcmd.
  assert (zlen (Command.fetch p (Some off) (Some size)) <= 4096) as Hlen.
  { assert (forall z, 0 <= z < 2 ^ 64 -> zlen (fmt_hex_pad 8 z) <= 16) as Hx.
    { intros z Hz. unfold fmt_hex_pad. rewrite zlen_app. unfold zlen. rewrite length_replicate.
      pose proof (length_digits_go 16 16 z [] 16). unfold fmt_hex in *. cbn [length] in *. lia. }
    unfold Command.fetch. rewrite !zlen_app. pose proof (Hx off). pose proof (Hx size).
    change (zlen (B "fetch:")) with 6. change (zlen (B ":0x")) with 3. lia. }
  rewrite (bind_ok _ _ _ _ _ (send_device c _ Hlen)), Hcmd.
  destruct c as [[vs ps b w rs d] h out]. cbn [link host output wanted replies data_out parts] in *. subst.
  assert (zlen (slice off (off + size) content) = size) as Hz by (rewrite zlen_slice by lia; lia).
  unfold recv_data_response at 1. erewrite (bind_ok (bind _ _)); [|erewrite bind_ok; [|by apply recv_info_device]; done].
  rewrite (proj2 (Z.eqb_neq _ _)), Z.ltb_irrefl by lia. fields.
  unfold copy_all. erewrite bind_ok.
  2: { apply copy_data_device; fields; [lia| |lia].
       pose proof (Z.div_mod size (1024 * 1024)). pose proof (Z.mod_pos_bound size (1024 * 1024)).
       pose proof (Z.div_pos size (1024 * 1024)). rewrite Z2Nat.id; lia. }
  fields. unfold grown. rewrite Hf. cbn [default from_option].
  rewrite take_ge, drop_ge by (unfold zlen in *; lia).
  unfold file at 1. erewrite (bind_ok (on_err _ _)); [|done]. fields.
  erewrite bind_ok; [|by apply recv_device]. fields. cbn [require_terminal_okay]. by rewrite bind_lift, Z.eqb_refl.
Qed.

Lemma fetch_chunks_device fuel : forall (c : Pc) (p out_file content prev : bytes) (max_fetch_size off rem : Z) (fin : FastbootResponse),
  ready (link c) -> parts (link c) !! p = Some content -> ":"%byte ∉ p -> zlen p <= 3900 ->
  0 < max_fetch_size <= u32_max -> 0 <= off -> 0 <= rem -> off + rem <= zlen content < 2 ^ 64 ->
  rem <= Z.of_nat fuel * max_fetch_size -> host c !! out_file = Some prev ->
  fetch_chunks fuel p out_file max_fetch_size off rem fin c
  = (set_host (<[out_file := prev ++ slice off (off + rem) content]> (host c)) c,
     Ok (if rem =? 0 then fin else Okay [])).
Proof.
  induction fuel as [|fuel IH]; intros c p out_file content prev mf off rem fin Hr Hp Hc Hn Hm Ho Hrem Hl Hf Hh.
  all: cbn [fetch_chunks]; destruct (Z.leb_spec rem 0); [assert (rem = 0) as -> by lia; rewrite slice_empty, app_nil_r, insert_id by (done || lia); by destruct c|].
  { lia. }
  set (n := Z.min rem mf). assert (0 < n <= u32_max /\ n <= rem) as [Hn1 Hn2] by lia.
  rewrite (fetch_range_device c p out_file content prev off n) by (done || lia).
  rewrite wrap_small by (unfold uint; lia).
  rewrite (IH _ p out_file content (prev ++ slice off (off + n) content)); try (done || lia).
  - unfold set_host. cbn [link host output]. rewrite insert_insert_eq, <- app_assoc.
    rewrite (proj2 (Z.eqb_neq rem 0)) by lia. rewrite (slice_cut off (off + n) (off + rem)) by lia.
    replace (off + n + (rem - n)) with (off + rem) by lia. by destruct (_ =? _).
  - cbn. apply lookup_insert_eq.
Qed.

(** The size that a variable of the device holds. *)
Definition says_size (d : Device) (name : bytes) (n : Z) : Prop :=
  exists v, vars d !! name = Some v /\ parse_max_download_size v = Ok (Some n).

Lemma getvar_value_device (c : Pc) (name v : bytes) :
  ready (link c) -> zlen name <= 4000 -> vars (link c) !! name = Some v -> getvar_value name c = (c, Ok v).
Proof.
  intros (Hw & Hr & Hd) Hl Hv. unfold getvar_value, Command.getvar.
  rewrite (bind_ok _ _ _ _ _ (send_device c _ (short_cmd (B "getvar:") name eq_refl Hl))), getvar_eq.
  unfold cmd_getvar. rewrite Hv. destruct c as [[vs ps b w rs d] h out]. fields. subst.
  unfold recv_and_print_info. erewrite (bind_ok (bind _ _)); [|erewrite bind_ok; [|by apply recv_info_device]; done].
  done.
Qed.

Lemma getvar_size_device (c : Pc) (name err : bytes) n :
  ready (link c) -> zlen name <= 4000 -> says_size (link c) name n -> getvar_size name err c = (c, Ok n).
Proof.
  intros Hr Hl (v & Hv & Hp). unfold getvar_size. rewrite (bind_ok _ _ _ _ _ (getvar_value_device c name v Hr Hl Hv)).
  unfold bind, lift. by rewrite Hp.
Qed.

(** The range that a fetch asks for. *)
Definition fetch_range (d : Device) (p : bytes) (offset size : option Z) (start total : Z) : Prop :=
  match offset, size with
  | Some o, Some s => start = o /\ total = s
  | None, None => start = 0 /\ says_size d (B "partition-size:" ++ p) total
  | _, _ => False
  end.

Lemma fetch_file_device (c : Pc) (partition p out_file content : bytes) offset size sel (mf start total : Z) :
  ready (link c) -> SlotSelection.partition_name sel partition = Ok p -> parts (link c) !! p = Some content ->
  ":"%byte ∉ p -> zlen p <= 3900 -> says_size (link c) (B "max-fetch-size") mf -> 0 < mf <= u32_max ->
  fetch_range (link c) p offset size start total -> 0 <= start -> 0 < total -> start + total <= zlen content < 2 ^ 64 ->
  fetch_to_file partition out_file offset size sel c
  = (set_host (<[out_file := slice start (start + total) content]> (host c)) c, Ok (Okay [])).
Proof.
  intros Hr Hsel Hp Hcol Hn Hmf Hm Hrange Hs Ht Hl. unfold fetch_to_file.
  assert (lift (map_err SlotFailed (SlotSelection.partition_name sel partition)) c = (c, Ok p)) as H1 by (unfold lift; by rewrite Hsel).
  pose proof (getvar_size_device c (B "max-fetch-size") (B "device returned an invalid max-fetch-size") mf Hr
    ltac:(by vm_compute) Hmf) as H2.
  assert (file (hf_create out_file) c = (set_host (<[out_file := []]> (host c)) c, Ok tt)) as H3 by done.
  assert (total <= Z.of_nat (Z.to_nat (total / mf + 1)) * mf) as Hfuel.
  { pose proof (Z.div_mod total mf). pose proof (Z.mod_pos_bound total mf). pose proof (Z.div_pos total mf).
    rewrite Z2Nat.id; nia. }
  set (c1 := set_host _ c) in H3. assert (host c1 !! out_file = Some []) as Hh by apply lookup_insert_eq.
  destruct offset as [o|], size as [sz|]; cbn in Hrange; try done; destruct Hrange as [-> Hrange].
  - subst sz. rewrite (bind_ok _ _ _ _ _ H1), (bind_ok _ _ _ _ _ H2), (proj2 (Z.eqb_neq mf 0)) by lia.
    rewrite (bind_ok (ret _) _ _ _ _ eq_refl), (proj2 (Z.eqb_neq total 0)), (bind_ok _ _ _ _ _ H3) by lia.
    rewrite (fetch_chunks_device _ c1 p out_file content [] mf _ total) by (done || lia).
    rewrite (proj2 (Z.eqb_neq total 0)) by lia. subst c1. fields. by rewrite insert_insert_eq.
  - rewrite (bind_ok _ _ _ _ _ H1), (bind_ok _ _ _ _ _ H2), (proj2 (Z.eqb_neq mf 0)) by lia.
    erewrite (bind_ok (bind _ _)); [|erewrite bind_ok; [done|]; apply getvar_size_device; [done|rewrite zlen_app; change (zlen (B "partition-size:")) with 15; lia|done]].
    cbv beta iota. rewrite (proj2 (Z.eqb_neq total 0)), (bind_ok _ _ _ _ _ H3) by lia.
    rewrite (fetch_chunks_device _ c1 p out_file content [] mf _ total) by (done || lia).
    rewrite (proj2 (Z.eqb_neq total 0)) by lia. subst c1. fields. by rewrite insert_insert_eq.
Qed.
