(* ===== verification/FastbootUpdate.v ===== *)
(** * Updating a device

    [check_android_info] and [do_update] of [main_fastboot.rs] against the reference bootloader: the
    requirements are decided by the device's variables, and the images of the archive are flashed in order. *)
From S2P Require Import Prelude Text FastbootProto SparseImage Net FastbootStream Effects FastbootCli FastbootRun FastbootSpec.

(** ** Requirements *)

(** The answer of the device to [getvar], if it can be asked. *)
Definition asked (name : bytes) : bool := zlen (B "getvar:" ++ name) <=? 4096.

(** Whether a line of android-info.txt lets the device pass. *)
Definition meets (d : Device) (line : bytes) : bool :=
  if skipped_line line then true else
  match parse_requirement line with
  | None => true
  | Some (invert, var, options) =>
      if bool_decide (var = B "partition-exists") then
        let name := B "has-slot:" ++ default [] (head options) in
        negb (asked name) ||
        match vars d !! name with Some v => bool_decide (v = B "yes") || bool_decide (v = B "no") | None => false end
      else
        negb (asked var) ||
        xorb invert (existsb (fun opt => bool_decide (trim (default [] (vars d !! var)) = opt)) options)
  end.

(** A variable is asked for: what happens next depends on the answer. *)
Definition answer (d : Device) (name : bytes) : FastbootResponse :=
  match vars d !! name with Some v => Okay v | None => Fail_ (B "unknown variable") end.

Lemma getvar_taken (d : Device) (name : bytes) :
  replies d = [] -> device_cmd (B "getvar:" ++ name) d = reply (answer d name) d.
Proof. intros Hr. rewrite getvar_eq. unfold cmd_getvar, answer. by destruct (vars d !! name). Qed.

Lemma attempt_getvar {A : Type} (c : Pc) (name : bytes) (skip : M Pc ending A) (k : (ending + FastbootResponse) -> M Pc ending A) :
  ready (link c) ->
  (do! sent := attempt (E := ending) (send_cmd (B "getvar:" ++ name)) in
   match sent with
   | inl _ => skip
   | inr _ => do! r := attempt recv_response in k r
   end) c = if asked name then k (inr (answer (link c) name)) c else skip c.
Proof.
  intros (Hw & Hr & Hd). unfold asked. destruct (Z.leb_spec (zlen (B "getvar:" ++ name)) 4096) as [Hl|Hl].
  - rewrite (bind_ok _ _ _ _ _ (attempt_ok _ _ _ _ (send_device c _ Hl))), getvar_taken by done.
    erewrite bind_ok; [|apply attempt_ok, (recv_device _ (answer (link c) name) []); fields; by rewrite Hr].
    fields. rewrite reply_taken by done. by destruct c.
  - assert (send_cmd (B "getvar:" ++ name) c = (c, Err (LinkError (EProtocol (B "Command too long"))))) as Hs.
    { unfold send_cmd, on_err, on_link. cbn [ft_send_cmd device_transport]. rewrite (proj2 (Z.ltb_lt _ _)) by lia. by destruct c. }
    by rewrite (bind_ok _ _ _ _ _ (attempt_err _ _ _ _ Hs)).
Qed.

Lemma check_line_device (c : Pc) (line : bytes) :
  ready (link c) -> check_line line c = (c, if meets (link c) line then Ok tt else Err Exit).
Proof.
  intros Hr. unfold check_line, meets. destruct (skipped_line line); [done|].
  destruct (parse_requirement line) as [[[invert var] options]|]; [|done].
  destruct (bool_decide (var = B "partition-exists")).
  - unfold check_partition_exists. change (B "getvar:has-slot:" ++ ?x) with (B "getvar:" ++ B "has-slot:" ++ x).
    rewrite attempt_getvar by done. unfold answer. destruct (asked _); [|done]. cbn [negb orb].
    destruct (vars (link c) !! _) as [v|]; [|done]. by destruct (_ || _).
  - unfold check_variable, Command.getvar. rewrite attempt_getvar by done. unfold answer. destruct (asked _); [|done].
    cbn [negb orb]. destruct (vars (link c) !! var) as [v|]; cbn [default from_option id].
    all: destruct invert, (existsb _ options); done.
Qed.

Lemma check_lines_device (c : Pc) (ls : list bytes) :
  ready (link c) -> for_each check_line ls c = (c, if forallb (meets (link c)) ls then Ok tt else Err Exit).
Proof.
  intros Hr. induction ls as [|l ls IH]; [done|]. cbn [for_each forallb]. unfold bind. rewrite check_line_device by done.
  by destruct (meets (link c) l).
Qed.

(** ** The lines of android-info.txt

    What a line says: nothing, or that the variable has (or, inverted, has not) one of the values, or that the partition exists. *)
Inductive InfoLine :=
| Blank
| Comment (text : bytes)
| Require (inverse : bool) (var value : bytes) (others : list bytes).

Definition line_text (l : InfoLine) : bytes :=
  match l with
  | Blank => []
  | Comment text => B "#" ++ text
  | Require inverse var value others =>
      B "require " ++ (if inverse then B "inverse " else []) ++ var ++ B "=" ++ value ++ concat (map (fun v => B " or " ++ v) others)
  end.
Definition info_text (ls : list InfoLine) : bytes := concat (map (fun l => line_text l ++ [x0a]) ls).

Definition holds_on (d : Device) (l : InfoLine) : bool :=
  match l with
  | Require inverse var value others =>
      if bool_decide (var = B "partition-exists")
      then bool_decide (vars d !! (B "has-slot:" ++ value) = Some (B "yes") \/ vars d !! (B "has-slot:" ++ value) = Some (B "no"))
      else xorb inverse (bool_decide (trim (default [] (vars d !! var)) ∈ value :: others))
  | _ => true
  end.

(** The lines that the claim is about. Not [board] and [force], which the comment of the function gives a meaning that the code does not, and no
    inverted or alternative partitions, for which the code does not look. *)
Definition word (w : bytes) : Prop := w <> [] /\ Forall plain w.
Definition line_ok (l : InfoLine) : Prop :=
  match l with
  | Blank => True
  | Comment text => x0a ∉ text /\ (text = [] \/ exists t z, text = t ++ [z] /\ plain z)
  | Require inverse var value others =>
      word var /\ "="%byte ∉ var /\ Forall plain value /\ Forall word others /\ zlen var <= 4000 /\ zlen value <= 4000 /\
      var <> B "board" /\ var <> B "force" /\ (var = B "partition-exists" -> inverse = false /\ others = [])
  end.

Lemma words_plain w : forall n rest cur, Forall plain w -> words_go (length w + n) (w ++ rest) cur = words_go n rest (cur ++ w).
Proof.
  induction w as [|b w IH]; intros n rest cur Hw; [by rewrite app_nil_r|]. apply list.Forall_cons in Hw as [Hb Hw].
  cbn [length Nat.add app words_go]. rewrite ws_front_plain by done. rewrite IH by done. by rewrite <- app_assoc.
Qed.

Lemma words_one w : word w -> forall n, words_go (length w + n) w [] = [w].
Proof.
  intros [Hn Hw] n. pose proof (words_plain w n [] [] Hw) as E. rewrite app_nil_r in E. rewrite E. destruct n; cbn [words_go app]; unfold flush_word;
    (destruct w; [done|]); rewrite zlen_cons; pose proof (zlen_nonneg w); by rewrite (proj2 (Z.eqb_neq _ _)) by lia.
Qed.

Lemma split_words ws : Forall word ws -> ws <> [] -> split_whitespace (join (B " ") ws) = ws.
Proof.
  unfold split_whitespace. intros HF Hne. induction HF as [|w ws Hw HF IH]; [done|]. destruct ws as [|w2 ws].
  - cbn [join]. rewrite <- (Nat.add_0_r (length w)). by apply words_one.
  - specialize (IH ltac:(done)). change (join (B " ") (w :: w2 :: ws)) with (w ++ [" "%byte] ++ join (B " ") (w2 :: ws)).
    set (r := join (B " ") (w2 :: ws)) in *. destruct Hw as [Hn Hp]. rewrite length_app, words_plain by done.
    change (words_go (length ([" "%byte] ++ r)) ([" "%byte] ++ r) ([] ++ w)) with (flush_word w (words_go (length r) r [])).
    rewrite IH. unfold flush_word. destruct w; [done|]. rewrite zlen_cons. pose proof (zlen_nonneg w). by rewrite (proj2 (Z.eqb_neq _ _)) by lia.
Qed.

Definition require_words (inverse : bool) (var value : bytes) (others : list bytes) : list bytes :=
  B "require" :: (if inverse then [B "inverse"] else []) ++ (var ++ B "=" ++ value) :: flat_map (fun v => [B "or"; v]) others.

Lemma plain_word (s : bytes) : forallb (fun b => (32 <? b2z b) && (b2z b <? 128)) s = true -> s <> [] -> word s.
Proof.
  intros Hs Hn. split; [done|]. apply Forall_forall. intros b Hb. rewrite forallb_forall in Hs. specialize (Hs b Hb).
  apply andb_prop in Hs as [H1 H2]. unfold plain. lia.
Qed.

Lemma join_cons (sep w : bytes) ws : ws <> [] -> join sep (w :: ws) = w ++ sep ++ join sep ws.
Proof. by destruct ws. Qed.

Lemma require_text inverse var value others :
  line_text (Require inverse var value others) = join (B " ") (require_words inverse var value others).
Proof.
  assert (forall w, join (B " ") (w :: flat_map (fun v => [B "or"; v]) others) = w ++ concat (map (fun v => B " or " ++ v) others)) as Hj.
  { induction others as [|v others IH]; intros w; [cbn; by rewrite app_nil_r|]. cbn [flat_map app map concat].
    rewrite !(join_cons (B " ") w), (join_cons (B " ") (B "or")), IH by done. by rewrite <- !app_assoc. }
  unfold require_words, line_text. rewrite join_cons by by destruct inverse. destruct inverse; cbn [app].
  - rewrite join_cons, Hj by done. by rewrite <- !app_assoc.
  - rewrite Hj. by rewrite <- !app_assoc.
Qed.

Lemma require_words_ok inverse var value others :
  word var -> Forall plain value -> Forall word others -> Forall word (require_words inverse var value others).
Proof.
  intros [Hn Hv] Hx Ho. unfold require_words. constructor; [by apply plain_word|]. apply Forall_app. split.
  { destruct inverse; constructor; [by apply plain_word|constructor]. }
  constructor.
  - split; [by destruct var|]. apply Forall_app. split; [done|]. apply Forall_app. split; [|done]. constructor; [by vm_compute|constructor].
  - induction Ho as [|v others Hv' Ho IH]; [constructor|]. cbn [flat_map app]. constructor; [by apply plain_word|]. by constructor.
Qed.

(** Words joined by spaces start and end with plain bytes, so [trim] leaves them. *)
Lemma join_ends ws : Forall word ws -> ws <> [] -> exists m z, join (B " ") ws = m ++ [z] /\ plain z.
Proof.
  induction 1 as [|w ws [Hn Hw] HF IH]; [done|]. intros _. destruct ws as [|w2 ws].
  - destruct (exists_last Hn) as (m & z & ->). exists m, z. split; [done|]. by apply Forall_app in Hw as [_ [? _]%list.Forall_cons].
  - destruct (IH ltac:(done)) as (m & z & E & Hz). exists (w ++ B " " ++ m), z. split; [|done].
    rewrite join_cons, E by done. by rewrite <- !app_assoc.
Qed.

Lemma require_trim inverse var value others :
  word var -> Forall plain value -> Forall word others ->
  trim (line_text (Require inverse var value others)) = line_text (Require inverse var value others).
Proof.
  intros Hv Hx Ho. rewrite require_text. unfold require_words. rewrite join_cons by by destruct inverse.
  destruct (join_ends ((if inverse then [B "inverse"] else []) ++ (var ++ B "=" ++ value) :: flat_map (fun v => [B "or"; v]) others)) as (m & z & E & Hz).
  { pose proof (require_words_ok inverse var value others Hv Hx Ho) as HF. by apply list.Forall_cons in HF as [_ HF]. }
  { by destruct inverse. }
  rewrite E. change (B "require" ++ B " " ++ m ++ [z]) with ("r"%byte :: (B "equire " ++ m) ++ [z]).
  apply trim_plain; [by vm_compute|done].
Qed.

Lemma more_options_flat others : more_options (flat_map (fun v => [B "or"; v]) others) = others.
Proof. induction others as [|v others IH]; [done|]. cbn [flat_map app more_options]. rewrite bool_decide_eq_true_2 by done. by rewrite IH. Qed.

Lemma require_parsed inverse var value others :
  word var -> "="%byte ∉ var -> Forall plain value -> Forall word others ->
  parse_requirement (line_text (Require inverse var value others)) = Some (inverse, var, value :: others).
Proof.
  intros Hv He Hx Ho. unfold parse_requirement. rewrite require_trim, require_text by done.
  rewrite split_words by (try apply require_words_ok; done). unfold require_words. rewrite bool_decide_eq_true_2 by done. cbn [negb].
  assert (split_once "="%byte (var ++ B "=" ++ value) = Some (var, value)) as Hs by (by apply split_once_app).
  assert (bool_decide (var ++ B "=" ++ value = B "inverse") = false) as Hi
    by (apply bool_decide_eq_false_2; intros E; rewrite E in Hs; vm_compute in Hs; done).
  destruct inverse; cbn [app].
  - rewrite bool_decide_eq_true_2 by done. cbn [drop]. by rewrite Hs, more_options_flat.
  - rewrite Hi. destruct others as [|v others]; cbn [flat_map app]; rewrite Hs; [done|].
    change (B "or" :: v :: flat_map _ others) with (flat_map (fun v => [B "or"; v]) (v :: others)). by rewrite more_options_flat.
Qed.

Lemma meets_holds (d : Device) (l : InfoLine) : line_ok l -> meets d (line_text l) = holds_on d l.
Proof.
  destruct l as [|text|inverse var value others]; [done| |].
  - intros [_ [->|(t & z & -> & Hz)]]; [by vm_compute|]. unfold meets, skipped_line. cbn [line_text].
    change (B "#" ++ t ++ [z]) with ("#"%byte :: t ++ [z]). rewrite trim_plain by (done || by vm_compute). cbv zeta.
    change ("#"%byte :: t ++ [z]) with (B "#" ++ t ++ [z]). by rewrite starts_with_app, orb_true_r.
  - intros (Hv & He & Hx & Ho & Hl1 & Hl2 & _ & _ & Hp). unfold meets, skipped_line. cbv zeta. rewrite require_trim, require_parsed by done.
    assert ((zlen (line_text (Require inverse var value others)) =? 0) || starts_with (B "#") (line_text (Require inverse var value others)) = false) as ->.
    { cbn [line_text]. change (B "require " ++ ?x) with ("r"%byte :: B "equire " ++ x). apply orb_false_intro; [|done].
      rewrite zlen_cons. apply Z.eqb_neq. pose proof (zlen_nonneg (B "equire " ++ (if inverse then B "inverse " else []) ++ var ++ B "=" ++ value ++ concat (map (fun v => B " or " ++ v) others))). lia. }
    cbn [holds_on head default from_option id]. case_bool_decide as Evar.
    + destruct (Hp Evar) as [-> ->]. assert (asked (B "has-slot:" ++ value) = true) as -> by (unfold asked; apply Z.leb_le; rewrite !zlen_app; change (zlen (B "getvar:")) with 7; change (zlen (B "has-slot:")) with 9; lia).
      cbn [negb orb]. destruct (vars d !! (B "has-slot:" ++ value)) as [v|]; repeat case_bool_decide; naive_solver.
    + assert (asked var = true) as -> by (unfold asked; apply Z.leb_le; rewrite !zlen_app; change (zlen (B "getvar:")) with 7; lia).
      cbn [negb orb]. f_equal. case_bool_decide as Hin.
      * apply existsb_exists. eexists. split; [by apply list_elem_of_In|]. by apply bool_decide_eq_true_2.
      * destruct (existsb _ _) eqn:E; [|done]. apply existsb_exists in E as (v & Hv' & Ev%bool_decide_eq_true). destruct Hin. rewrite Ev. by apply list_elem_of_In.
Qed.

Lemma line_no_feed l : line_ok l -> x0a ∉ line_text l /\ strip_cr (line_text l) = line_text l.
Proof.
  assert (forall s, Forall plain s -> x0a ∉ s) as Hp.
  { intros s0 Hs Hin. rewrite list.Forall_forall in Hs. destruct (Hs _ Hin) as [H1 _]. by vm_compute in H1. }
  assert (forall m z, plain z -> strip_cr (m ++ [z]) = m ++ [z]) as Hcr.
  { intros m z Hz. unfold strip_cr, strip_suffix. destruct (ends_with [x0d] (m ++ [z])) eqn:E; [|done]. exfalso.
    unfold ends_with in E. apply bool_decide_eq_true in E as [_ E]. rewrite length_app in E. cbn [length] in E.
    replace (length m + 1 - 1)%nat with (length m) in E by lia. rewrite drop_app_length in E. injection E as ->. destruct Hz as [H1 _]. by vm_compute in H1. }
  destruct l as [|text|inverse var value others]; cbn [line_ok].
  - intros _. split; [apply not_elem_of_nil|done].
  - intros [Hn Ht]. cbn [line_text]. split.
    + change (B "#") with ["#"%byte]. rewrite elem_of_app, list_elem_of_singleton. by intros [?|?].
    + destruct Ht as [->|(t & z & -> & Hz)]; [by vm_compute|]. rewrite app_assoc. by apply Hcr.
  - intros (Hv & _ & Hx & Ho & _). rewrite require_text. pose proof (require_words_ok inverse var value others Hv Hx Ho) as HF. split.
    + revert HF. generalize (require_words inverse var value others) as ws. induction ws as [|w ws IH]; intros HF; [apply not_elem_of_nil|].
      apply list.Forall_cons in HF as [[_ Hw] HF]. destruct ws as [|w2 ws]; [by apply Hp|]. rewrite join_cons by done.
      change (B " ") with [" "%byte] in *. rewrite !elem_of_app, list_elem_of_singleton. intros [Hi|[Hi|Hi]]; [by apply (Hp w)|done|by apply IH].
    + destruct (join_ends (require_words inverse var value others) HF ltac:(done)) as (m & z & -> & Hz). by apply Hcr.
Qed.

Lemma lines_info ls : Forall line_ok ls -> lines (info_text ls) = map line_text ls.
Proof.
  intros HF. unfold lines, info_text.
  assert (concat (map (fun l => line_text l ++ [x0a]) ls) = join [x0a] (map line_text ls ++ [[]])) as ->.
  { clear. induction ls as [|l ls IH]; [done|]. cbn [map concat app]. rewrite join_cons by by destruct ls. by rewrite IH, <- app_assoc. }
  rewrite split_on_join; [|by destruct ls|].
  - induction HF as [|l ls Hl HF IH]; [done|]. cbn [map app]. destruct (line_no_feed l Hl) as [_ E].
    destruct ls as [|l2 ls]; [cbn [map app lines_go]; by rewrite E|]. cbn [map app] in *. change (lines_go (line_text l :: line_text l2 :: ?x)) with (strip_cr (line_text l) :: lines_go (line_text l2 :: x)).
    by rewrite IH, E.
  - apply Forall_app. split; [|constructor; [apply not_elem_of_nil|constructor]].
    induction HF as [|l ls Hl HF IH]; constructor; [by apply line_no_feed|done].
Qed.

(** The partition of the slot in use. *)
Definition in_slot (slot : option bytes) (partition : bytes) : bytes :=
  match slot with Some s => partition ++ B "_" ++ s | None => partition end.

Lemma images_in_slot slot image : In image AOSP_IMAGES -> partition_with_slot slot image.1.1 = in_slot slot image.1.1.
Proof.
  intros Hin. unfold partition_with_slot, in_slot. destruct slot; [|done].
  assert (forallb (fun i => negb (ends_with (B "_") i.1.1)) AOSP_IMAGES = true) as Hf by (by vm_compute).
  rewrite forallb_forall in Hf. by rewrite (Hf image Hin).
Qed.

(** The partitions after one entry of the list, if it can be flashed. *)
Definition update_step (archive : ZipArchive) (o : GlobalOptions) (lim : option Z) (slot : option bytes)
    (ps : gmap bytes bytes) (image : bytes * bytes * bool) : option (gmap bytes bytes) :=
  let '(partition, name, optional) := image in
  if negb (bool_decide (name ∈ file_names archive)) then (if optional then Some ps else None) else
  match by_name archive name with
  | Some (Ok data) =>
      match patched partition data o with
      | Ok img =>
          let target := in_slot slot partition in
          match payloads_of img lim, ps !! target with
          | Some payloads, Some old =>
              if (zlen target <=? 4000) && forallb (fun x => (0 <? zlen x) && (zlen x <=? u32_max)) (img :: payloads)
              then match flash_all payloads old with Some new => Some (<[target := new]> ps) | None => None end
              else None
          | _, _ => None
          end
      | _ => None
      end
  | _ => None
  end.

Fixpoint update_plan (archive : ZipArchive) (o : GlobalOptions) (lim : option Z) (slot : option bytes)
    (images : list (bytes * bytes * bool)) (ps : gmap bytes bytes) : option (gmap bytes bytes) :=
  match images with
  | [] => Some ps
  | i :: rest =>
      match update_step archive o lim slot ps i with
      | Some ps => update_plan archive o lim slot rest ps
      | None => None
      end
  end.

(** Only partitions have changed. *)
Definition now_holds (ps : gmap bytes bytes) (c c' : Pc) : Prop :=
  parts (link c') = ps /\ vars (link c') = vars (link c) /\ ready (link c') /\ host c' = host c.

Lemma not_fail_okay : takes_okay not_fail.
Proof. done. Qed.

Lemma whole_image_device (c : Pc) (target img old new : bytes) (chunk_size : Z) :
  ready (link c) -> zlen target <= 4000 -> parts (link c) !! target = Some old -> device_flash img old = Some new ->
  payload_ok img -> 0 < chunk_size ->
  (do! _ := request_download (zlen img) in
   do! _ := send_payload (fun e => e) chunk_size img in
   flash_downloaded not_fail target) c = (installed target img new c, Ok tt).
Proof.
  intros Hr Ht Hold Hnew Hi Hk. rewrite (bind_ok _ _ _ _ _ (download_device c _ (proj1 (proj2 Hr)) Hi)).
  unfold payload_ok in Hi. erewrite bind_ok; [|apply send_chunks_device; [lia|done|fields; lia]].
  apply (flash_device c not_fail target img old new); done || lia.
Qed.

Lemma payload_test (x : bytes) : ((0 <? zlen x) && (zlen x <=? u32_max)) = true -> payload_ok x.
Proof. intros [H1 H2]%andb_prop. unfold payload_ok. lia. Qed.

Lemma update_image_device (c : Pc) archive o lim slot image ps :
  In image AOSP_IMAGES -> ready (link c) -> (forall n, lim = Some n -> 0 < n < 2 ^ 63) ->
  update_step archive o lim slot (parts (link c)) image = Some ps ->
  exists c', update_image o archive lim slot image c = (c', Ok tt) /\ now_holds ps c c'.
Proof.
  intros Hin Hr Hlim Hstep. pose proof (images_in_slot slot image Hin) as Hslot. destruct image as [[partition name] optional].
  cbn [fst] in Hslot. unfold update_step in Hstep. rewrite <- Hslot in Hstep. unfold update_image.
  destruct (negb (bool_decide _)).
  { destruct optional; [|done]. injection Hstep as <-. by exists c. }
  destruct (by_name archive name) as [[data| |]|]; try done.
  destruct (patched partition data o) as [img| |] eqn:Hpat; try done.
  set (target := partition_with_slot slot partition) in *.
  destruct (payloads_of img lim) as [payloads|] eqn:Hpay; [|done].
  destruct (parts (link c) !! target) as [old|] eqn:Hold; [|done].
  destruct (_ && _) eqn:Hb; [|done]. apply andb_prop in Hb as [Ht Hb]. cbn [forallb] in Hb. apply andb_prop in Hb as [Hi Hps].
  destruct (flash_all payloads old) as [new|] eqn:Hnew; [|done]. injection Hstep as <-.
  apply payload_test in Hi. pose proof Hi as [Hi1 Hi2]. apply Z.leb_le in Ht.
  assert (Forall payload_ok payloads) as Hps'.
  { clear -Hps. induction payloads as [|x l IH]; [constructor|]. cbn in Hps. apply andb_prop in Hps as [H1 H2].
    constructor; [by apply payload_test|by apply IH]. }
  assert (on_err IoError (lift (Ok data)) c = (c, Ok data)) as H1 by done.
  assert (patched_image partition data o c = (c, Ok img)) as H2 by (by apply patched_device).
  rewrite (bind_ok _ _ _ _ _ H1), (bind_ok _ _ _ _ _ H2), (proj2 (Z.eqb_neq _ _)), (proj2 (Z.ltb_ge _ _)) by lia.
  destruct lim as [limit|]; cbn in Hpay.
  - specialize (Hlim limit eq_refl). rewrite (proj2 (Z.ltb_lt 0 limit)) by lia. cbn [andb]. destruct (limit <? zlen img).
    + destruct (pieces_of img limit) as [pieces|] eqn:Hpi; [|done]. injection Hpay as <-.
      rewrite (bind_ok _ _ _ _ _ (image_pieces_device c img limit pieces Hpi)).
      by apply (send_pieces_device not_fail target pieces c old new).
    + injection Hpay as <-. cbn in Hnew. destruct (device_flash img old) eqn:Hd; [|done]. injection Hnew as ->.
      exists (installed target img new c). split; [|by apply installed_only].
      apply (whole_image_device c target img old new); done || lia.
  - injection Hpay as <-. cbn in Hnew. destruct (device_flash img old) eqn:Hd; [|done]. injection Hnew as ->.
    exists (installed target img new c). split; [|by apply installed_only].
    apply (whole_image_device c target img old new); done || lia.
Qed.

Lemma update_images_device archive o lim slot images : forall (c : Pc) ps,
  incl images AOSP_IMAGES -> ready (link c) -> (forall n, lim = Some n -> 0 < n < 2 ^ 63) ->
  update_plan archive o lim slot images (parts (link c)) = Some ps ->
  exists c', for_each (update_image o archive lim slot) images c = (c', Ok tt) /\ now_holds ps c c'.
Proof.
  induction images as [|i rest IH]; intros c ps Hinc Hr Hlim Hplan; cbn in Hplan.
  { injection Hplan as <-. by exists c. }
  destruct (update_step _ _ _ _ _ i) as [ps1|] eqn:Hs; [|done].
  apply List.incl_cons_inv in Hinc as [Hin Hinc]. destruct (update_image_device c archive o lim slot i ps1 Hin Hr Hlim Hs) as (c1 & H1 & Hp & Hv & Hr1 & Hh).
  cbn [for_each]. rewrite (bind_ok _ _ _ _ _ H1). rewrite <- Hp in Hplan.
  destruct (IH c1 ps Hinc Hr1 Hlim Hplan) as (c2 & H2 & Hp2 & Hv2 & Hr2 & Hh2). exists c2. split; [done|].
  unfold now_holds. by rewrite Hv2, Hh2.
Qed.

(** ** The command *)
Lemma try_getvar_total (c : Pc) (name : bytes) :
  ready (link c) -> zlen name <= 4000 -> try_getvar (B "getvar:" ++ name) c = (c, Ok (vars (link c) !! name)).
Proof.
  intros (Hw & Hr & Hd) Hl. destruct (vars (link c) !! name) as [v|] eqn:Hv.
  - by apply try_getvar_device.
  - by apply try_getvar_missing.
Qed.

Lemma tell_device (names : list bytes) : forall c : Pc,
  ready (link c) -> Forall (fun v => zlen v <= 4000) names ->
  exists out, for_each (fun var =>
    do! val := try_getvar (Command.getvar var) in
    match val with Some val => say (Told (var ++ B ": " ++ val)) | None => ret tt end) names c
    = (mk_cli (link c) (host c) out, Ok tt).
Proof.
  induction names as [|v names IH]; intros c Hr Hn; [exists (output c); by destruct c|].
  apply list.Forall_cons in Hn as [Hv Hn]. cbn [for_each].
  set (k := fun _ : unit => _). assert (exists out, (do! val := try_getvar (Command.getvar v) in
    match val with Some val => say (Told (v ++ B ": " ++ val)) | None => ret tt end) c = (mk_cli (link c) (host c) out, Ok tt))
    as (out & Ho).
  { unfold Command.getvar. rewrite (bind_ok _ _ _ _ _ (try_getvar_total c v Hr Hv)).
    destruct (vars (link c) !! v); [by eexists|exists (output c); by destruct c]. }
  rewrite (bind_ok _ _ _ _ _ Ho). subst k. by apply (IH (mk_cli (link c) (host c) out)).
Qed.

Lemma dump_info_device (c : Pc) : ready (link c) -> exists out, dump_info c = (mk_cli (link c) (host c) out, Ok tt).
Proof. intros Hr. apply tell_device; [done|]. repeat constructor; by vm_compute. Qed.

Definition slot_of (d : Device) : option bytes :=
  match vars d !! B "current-slot" with Some v => let s := trim v in if zlen s =? 0 then None else Some s | None => None end.

Lemma current_slot_device (c : Pc) : ready (link c) -> get_current_slot c = (c, Ok (slot_of (link c))).
Proof.
  intros Hr. unfold get_current_slot.
  by rewrite (bind_ok _ _ _ _ _ (try_getvar_total c (B "current-slot") Hr ltac:(by vm_compute))).
Qed.

(** C12: [fastboot update] on a bootloader, for an archive whose android-info.txt consists of requirements on variables and partitions
    ([line_ok]), comments and empty lines. The archive is first checked against the device: when some requirement does not hold of
    the device's variables, the program exits and the device is as it was.
    When all hold, and the images of the archive can be flashed (the required ones are there, each is
    accepted by its partition), the program succeeds, and the partitions are those that the plan gives: every
    image of the list that the archive has, in the list's order, on the partition of the current slot, with the
    vbmeta flags of the options. *)
Theorem update_installs (c : Pc) open_zip (zip_path : bytes) infos archive o lim :
  ready (link c) -> open_zip zip_path = Some archive -> by_name archive (B "android-info.txt") = Some (Ok (info_text infos)) ->
  is_utf8 (info_text infos) = true -> Forall line_ok infos -> limit_is (link c) lim ->
  (forallb (holds_on (link c)) infos = false ->
    exists out, do_update open_zip zip_path o c = (mk_cli (link c) (host c) out, Err Exit)) /\
  (forallb (holds_on (link c)) infos = true -> forall ps,
    update_plan archive o lim (slot_of (link c)) AOSP_IMAGES (parts (link c)) = Some ps ->
    exists c', do_update open_zip zip_path o c = (c', Ok tt) /\ now_holds ps c c').
Proof.
  intros Hr Hz Hi Hu Hok Hl. destruct (dump_info_device c Hr) as (out & Hd). set (info := info_text infos) in *.
  assert (forallb (meets (link c)) (lines info) = forallb (holds_on (link c)) infos) as Hmeet.
  { unfold info. rewrite lines_info by done. clear -Hok. induction Hok as [|l ls Hl HF IH]; [done|]. cbn [map forallb]. by rewrite meets_holds, IH. }
  assert (lift (from_utf8 info (IoError (mk_io InvalidData (B "stream did not contain valid UTF-8")))) c = (c, Ok info)) as H1
    by (unfold lift, from_utf8; by rewrite Hu).
  assert (on_err IoError (lift (Ok info)) c = (c, Ok info)) as H0 by done.
  set (c1 := mk_cli (link c) (host c) out).
  assert (check_android_info info c1 = (c1, if forallb (meets (link c)) (lines info) then Ok tt else Err Exit)) as H2
    by apply (check_lines_device c1 (lines info) Hr).
  rewrite Hmeet in H2. split.
  - intros Hm. exists out. unfold do_update. rewrite Hz, Hi, (bind_ok _ _ _ _ _ H0), (bind_ok _ _ _ _ _ H1), (bind_ok _ _ _ _ _ Hd).
    rewrite Hm in H2. by rewrite (bind_err _ _ _ _ _ H2).
  - intros Hm ps Hp. rewrite Hm in H2.
    destruct (update_images_device archive o lim (slot_of (link c)) AOSP_IMAGES c1 ps (List.incl_refl _) Hr (proj2 Hl) Hp) as (c2 & H3 & Hn).
    exists c2. split; [|done]. unfold do_update.
    rewrite Hz, Hi, (bind_ok _ _ _ _ _ H0), (bind_ok _ _ _ _ _ H1), (bind_ok _ _ _ _ _ Hd), (bind_ok _ _ _ _ _ H2).
    rewrite (bind_ok _ _ _ _ _ (limit_device c1 lim (proj1 (proj2 Hr)) Hl)).
    by rewrite (bind_ok _ _ _ _ _ (current_slot_device c1 Hr)).
Qed.

(** A device with two slots, and an archive with three images. *)
Module UpdateSample.
Definition no_options : GlobalOptions := mk_gopts false false false false false false.
Definition device : Device := mk_device
  {[ B "product" := B "pixel"; B "max-download-size" := B "0x1000"; B "current-slot" := B "b";
     B "has-slot:boot" := B "yes"; B "serialno" := B "0123" ]}
  {[ B "boot_a" := zrep 8 x00; B "boot_b" := zrep 8 x00; B "system_b" := zrep 6 x00; B "dts_b" := zrep 4 x00 ]}
  [] 0 [] [].
Definition infos : list InfoLine :=
  [Comment (B " what this needs"); Require false (B "product") (B "pixel") [B "nexus"]; Blank;
   Require true (B "serialno") (B "0000") []; Require false (B "partition-exists") (B "boot") []].
Definition info : bytes := info_text infos.
Definition archive : ZipArchive := mk_zip
  [B "android-info.txt"; B "system.img"; B "dt.img"; B "boot.img"]
  (fun name =>
     if bool_decide (name = B "android-info.txt") then Some (Ok info)
     else if bool_decide (name = B "system.img") then Some (Ok (B "SYSTEM"))
     else if bool_decide (name = B "boot.img") then Some (Ok (B "BOOT"))
     else if bool_decide (name = B "dt.img") then Some (Ok (B "DT"))
     else None).
Definition start : Pc := mk_cli device ∅ [].
Definition after : gmap bytes bytes :=
  {[ B "boot_a" := zrep 8 x00; B "boot_b" := B "BOOT" ++ zrep 4 x00; B "system_b" := B "SYSTEM"; B "dts_b" := B "DT" ++ zrep 2 x00 ]}.
End UpdateSample.

Lemma sample_limit : limit_is UpdateSample.device (Some 4096).
Proof. split; [by vm_compute|]. intros n [= <-]. lia. Qed.

Lemma infos_ok : Forall line_ok UpdateSample.infos.
Proof.
  assert (forall c s, contains c s = false -> c ∉ s) as Hc by (intros c s; apply contains_false).
  assert (forall s : bytes, forallb (fun b => (32 <? b2z b) && (b2z b <? 128)) s = true -> Forall plain s) as Hp.
  { intros s Hs. apply Forall_forall. intros b Hb. rewrite forallb_forall in Hs. specialize (Hs b Hb). apply andb_prop in Hs as [H1 H2]. unfold plain. lia. }
  constructor; [|constructor; [|constructor; [done|constructor; [|constructor; [|constructor]]]]].
  - split; [by apply Hc|]. right. exists (B " what this need"), "s"%byte. by vm_compute.
  - split_and!; try done; [by apply plain_word|by apply Hc|by apply Hp|]. constructor; [by apply plain_word|constructor].
  - split_and!; try done; first [by apply plain_word|by apply Hc|by apply Hp|by constructor].
  - split_and!; try done; first [by apply plain_word|by apply Hc|by apply Hp|by constructor].
Qed.

Lemma update_installs_witness :
  exists c', do_update (fun _ => Some UpdateSample.archive) (B "update.zip") UpdateSample.no_options UpdateSample.start = (c', Ok tt) /\
    now_holds UpdateSample.after UpdateSample.start c'.
Proof.
  assert (ready (link UpdateSample.start)) as H1 by by repeat split.
  assert (by_name UpdateSample.archive (B "android-info.txt") = Some (Ok (info_text UpdateSample.infos))) as H2 by (vm_compute; reflexivity).
  assert (is_utf8 (info_text UpdateSample.infos) = true) as H3 by (vm_compute; reflexivity).
  assert (forallb (holds_on UpdateSample.device) UpdateSample.infos = true) as H4 by (vm_compute; reflexivity).
  assert (update_plan UpdateSample.archive UpdateSample.no_options (Some 4096) (slot_of UpdateSample.device) AOSP_IMAGES
    (parts UpdateSample.device) = Some UpdateSample.after) as H5 by (apply (bool_decide_unpack _); vm_compute; exact I).
  exact (proj2 (update_installs UpdateSample.start (fun _ => Some UpdateSample.archive) (B "update.zip") UpdateSample.infos
    UpdateSample.archive UpdateSample.no_options (Some 4096) H1 eq_refl H2 H3 infos_ok sample_limit) H4 UpdateSample.after H5).
Defined.

(** The slot is appended to every partition: [super] and [userdata], which have none, are looked for as
    [super_b] and [userdata_b]. *)
Example update_suffixes_all :
  map (fun i => partition_with_slot (Some (B "b")) i.1.1) (filter (fun i => i.1.1 ∈ [B "super"; B "userdata"; B "cache"]) AOSP_IMAGES)
  = [B "super_b"; B "userdata_b"; B "cache_b"].
Proof. by vm_compute. Qed.

