(* ===== verification/FastbootEnds.v ===== *)
(** * The transfers of the fastboot program end

    For any transport and any local files: the loops of [main_fastboot.rs] that move bytes do not run out of the
    rounds the model gives them, so they end with a result, except where the device's limit is 0. *)
From S2P Require Import Prelude Text FastbootProto Net FastbootStream Effects FastbootCli FastbootRun FastbootSpec.

Section Ends.
Context {T F : Type} `{FastbootTransport T, HostFiles F}.
Abbreviation St := (Cli T F).

(** From the states that satisfy a condition, the function does not go on for ever. *)
Definition ends {A} (m : M St ending A) : Prop := forall c, (m c).2 <> Err Hang.

Lemma ends_ret {A} (a : A) : ends (ret a).
Proof. done. Qed.
Lemma ends_fail {A} (e : ending) : e <> Hang -> ends (A := A) (fail e).
Proof. intros He c. cbn. congruence. Qed.
Lemma ends_lift {A} (r : res ending A) : r <> Err Hang -> ends (lift r).
Proof. by intros Hr c. Qed.
Lemma ends_bind {A C} (m : M St ending A) (k : A -> M St ending C) : ends m -> (forall a, ends (k a)) -> ends (bind m k).
Proof.
  intros Hm Hk c. unfold bind. specialize (Hm c). destruct (m c) as [c1 [a|e|]]; cbn in *; [apply Hk|congruence|done].
Qed.
(** The same, with what is known of the first result. *)
Lemma ends_bind_ok {A C} (m : M St ending A) (k : A -> M St ending C) :
  ends m -> (forall a c c1, m c = (c1, Ok a) -> ends (k a)) -> ends (bind m k).
Proof.
  intros Hm Hk c. unfold bind. specialize (Hm c). destruct (m c) as [c1 [a|e|]] eqn:E; cbn in *; [by eapply Hk|congruence|done].
Qed.
Lemma ends_if {A} (b : bool) (m1 m2 : M St ending A) : ends m1 -> ends m2 -> ends (if b then m1 else m2).
Proof. by destruct b. Qed.
(** A [map_err] into errors other than [Hang]. *)
Lemma ends_on_err {E A} (f : E -> ending) (m : M St E A) : (forall e, f e <> Hang) -> ends (on_err f m).
Proof. intros Hf c. unfold on_err. destruct (m c) as [c1 [a|e|]]; cbn; [done|specialize (Hf e); congruence|done]. Qed.
Lemma ends_attempt {A} (m : M St ending A) : ends (attempt (F := ending) m).
Proof. intros c. unfold attempt. by destruct (m c) as [c1 [a|e|]]. Qed.
Lemma ends_say l : ends (say l).
Proof. done. Qed.
Lemma ends_for_each {A} (f : A -> M St ending unit) l : (forall x, ends (f x)) -> ends (for_each f l).
Proof. intros Hf. induction l as [|x l IH]; cbn [for_each]; [apply ends_ret|]. by apply ends_bind. Qed.

Create HintDb ends_db.
#[local] Hint Resolve ends_ret ends_bind ends_if ends_attempt ends_say ends_for_each : ends_db.
#[local] Hint Extern 1 (ends (fail _)) => apply ends_fail; discriminate : ends_db.
#[local] Hint Extern 1 (ends (on_err _ _)) => apply ends_on_err; intros; discriminate : ends_db.
Ltac ends := intros; eauto 12 with ends_db.

Lemma ends_send_cmd cmd : ends (send_cmd cmd).
Proof. unfold send_cmd. ends. Qed.
Lemma ends_recv_info : ends recv_response_with_info.
Proof. unfold recv_response_with_info. ends. Qed.
#[local] Hint Resolve ends_send_cmd ends_recv_info : ends_db.
Lemma ends_recv : ends recv_response.
Proof. unfold recv_response. ends. Qed.
Lemma ends_write bs : ends (write_link bs).
Proof. unfold write_link. ends. Qed.
Lemma ends_flush : ends flush_link.
Proof. unfold flush_link. ends. Qed.
Lemma ends_read n : ends (read_link n).
Proof. unfold read_link. ends. Qed.
Lemma ends_file {A} (m : M F FileError A) : ends (file m).
Proof. unfold file. ends. Qed.
Lemma ends_or_exit {A} (m : M St ending A) : ends (or_exit m).
Proof. unfold or_exit. ends. Qed.
#[local] Hint Resolve ends_recv ends_write ends_flush ends_read ends_file ends_or_exit : ends_db.

Lemma ends_require r : ends (lift (require_terminal_okay r)).
Proof. apply ends_lift. by destruct r. Qed.
Lemma ends_say_infos l : ends (say_infos l).
Proof. unfold say_infos. ends. Qed.
#[local] Hint Resolve ends_require ends_say_infos : ends_db.

Lemma parse_size_ends v : parse_max_download_size v <> Err Hang.
Proof.
  assert (forall n s, drop_end (E := ending) n s <> Err Hang) as Hd.
  { intros n s. unfold drop_end. destruct (_ <? _); [done|]. destruct (_ !! _); [|done]. by destruct (cont _). }
  unfold parse_max_download_size. destruct (_ =? _); [done|].
  assert (forall s, size_parts s <> Err Hang) as Hs.
  { intros s. unfold size_parts. repeat case_match; try done.
    all: match goal with |- context [drop_end ?n ?s] => specialize (Hd n s); destruct (drop_end n s); cbn; congruence end. }
  specialize (Hs (trim v)). destruct (size_parts (trim v)) as [[num m]|e|]; cbn [res_bind]; [|congruence|done].
  by destruct (_ =? _).
Qed.
Lemma ends_parse_size v : ends (lift (parse_max_download_size v)).
Proof. apply ends_lift, parse_size_ends. Qed.
#[local] Hint Resolve ends_parse_size : ends_db.

Lemma ends_data op : ends (recv_data_response op).
Proof. unfold recv_data_response. apply ends_bind; [ends|]. intros [logs r]. apply ends_bind; [ends|]. intros _. destruct r; ends. Qed.
Lemma ends_info : ends recv_and_print_info.
Proof. unfold recv_and_print_info. apply ends_bind; [ends|]. intros [logs r]. ends. Qed.
#[local] Hint Resolve ends_data ends_info : ends_db.

Lemma ends_getvar_size name err : ends (getvar_size name err).
Proof.
  unfold getvar_size, getvar_value. apply ends_bind; [apply ends_bind; [ends|]; intros _; apply ends_bind; [ends|]; intros []; ends|].
  intros v. apply ends_bind; [ends|]. intros [n|]; apply ends_lift; discriminate.
Qed.
#[local] Hint Resolve ends_getvar_size : ends_db.

(** ** The loops *)
Lemma copy_data_ends fuel : forall out_file n, n <= Z.of_nat fuel * (1024 * 1024) -> ends (copy_data fuel out_file n).
Proof.
  induction fuel as [|fuel IH]; intros out_file n Hn; cbn [copy_data]; destruct (Z.leb_spec n 0); [ends|lia|ends|].
  apply ends_bind; [ends|]. intros bs. apply ends_bind; [ends|]. intros _. apply IH. lia.
Qed.
Lemma copy_all_ends out_file n : ends (copy_all out_file n).
Proof.
  apply copy_data_ends. pose proof (Z.div_mod n (1024 * 1024)). pose proof (Z.mod_pos_bound n (1024 * 1024)). lia.
Qed.
#[local] Hint Resolve copy_all_ends : ends_db.

Lemma fetch_chunks_ends fuel : forall p out_file mf off rem fin,
  0 < mf -> rem <= Z.of_nat fuel * mf -> ends (fetch_chunks fuel p out_file mf off rem fin).
Proof.
  induction fuel as [|fuel IH]; intros p out_file mf off rem fin Hm Hr; cbn [fetch_chunks]; destruct (Z.leb_spec rem 0); [ends|lia|ends|].
  do 2 (apply ends_bind; [ends|intros ?]). do 2 (apply ends_if; [ends|]). do 4 (apply ends_bind; [ends|intros ?]).
  apply ends_if; [ends|]. apply IH; [done|]. lia.
Qed.

Lemma send_chunks_ends fuel : forall f chunk_size payload,
  (forall e, e <> Hang -> f e <> Hang) -> 0 < chunk_size -> (length payload <= fuel)%nat -> ends (send_chunks fuel f chunk_size payload).
Proof.
  induction fuel as [|fuel IH]; intros f chunk_size payload Hf Hc Hp; cbn [send_chunks];
    destruct (Z.eqb_spec (zlen payload) 0) as [Hz|Hz]; [ends|unfold zlen in Hz; lia|ends|].
  apply ends_bind.
  - intros c. unfold on_err. pose proof (ends_write (take (Z.to_nat (Z.min (zlen payload) chunk_size)) payload) c) as Hw.
    destruct (write_link _ c) as [c1 [a|e|]]; cbn in *; [done| |done].
    assert (e <> Hang) as He by congruence. specialize (Hf e He). congruence.
  - intros _. apply IH; [done|done|]. rewrite length_drop. unfold zlen in *. lia.
Qed.

Lemma stream_file_ends fuel : forall chunk_size h n,
  0 < chunk_size -> n <= Z.of_nat fuel -> ends (stream_file fuel chunk_size h n).
Proof.
  induction fuel as [|fuel IH]; intros chunk_size h n Hc Hn; cbn [stream_file]; destruct (Z.leb_spec n 0); [ends|lia|ends|].
  apply ends_bind; [ends|]. intros [bs h']. apply ends_bind; [ends|]. intros _. apply IH; [done|]. lia.
Qed.

(** ** Sizes *)
Lemma parse_size_range v n : parse_max_download_size v = Ok (Some n) -> 0 <= n <= usize_max.
Proof.
  unfold parse_max_download_size. destruct (_ =? _); [done|]. destruct (size_parts (trim v)) as [[num m]|e|] eqn:Hs; cbn [res_bind]; try done.
  assert (0 < m) as Hm.
  { revert Hs. unfold size_parts. repeat case_match; try (by intros [= _ <-]).
    all: unfold drop_end; repeat case_match; cbn; try done; by intros [= _ <-]. }
  destruct (_ =? _); [done|]. destruct (match strip_0x (trim num) with Some _ => _ | None => _ end) as [b|] eqn:Hb; [|done].
  destruct (Z.leb_spec (b * m) usize_max); [|done]. intros [= <-].
  assert (0 <= b) as Hb0.
  { assert (forall r x, 0 <= r -> parse_uint r usize_max x = Some b -> 0 <= b) as Hr
      by (intros r x Hr Hx; apply (parse_uint_range r usize_max x b Hr Hx)).
    destruct (strip_0x (trim num)); [by apply (Hr 16 l)|].
    destruct (parse_uint 10 usize_max (trim num)) eqn:E; [injection Hb as <-; by apply (Hr 10 (trim num))|by apply (Hr 16 (trim num))]. }
  nia.
Qed.

Lemma getvar_size_range name err (c c1 : St) n : getvar_size name err c = (c1, Ok n) -> 0 <= n <= usize_max.
Proof.
  unfold getvar_size, bind, lift. destruct (getvar_value name c) as [c2 [v|e|]]; [|done|done].
  destruct (parse_max_download_size v) as [[m|]|e|] eqn:E; cbn [ok_or]; [|done|done|done]. intros [= _ <-]. by apply parse_size_range in E.
Qed.

Lemma limit_range (c c1 : St) n : get_max_download_size c = (c1, Ok (Some n)) -> 0 <= n <= usize_max.
Proof.
  unfold get_max_download_size, bind, lift. destruct (try_getvar _ c) as [c2 [[v|]|e|]]; try done.
  destruct (parse_max_download_size v) as [m|e|] eqn:E; [|done|done]. intros [= _ ->]. by apply parse_size_range in E.
Qed.

(** ** The transfers *)
Lemma fetch_to_file_ends p out_file offset size slot : ends (fetch_to_file p out_file offset size slot).
Proof.
  unfold fetch_to_file.
  assert (forall name, ends (lift (map_err SlotFailed (SlotSelection.partition_name slot name)))) as Hslot.
  { intros name. apply ends_lift. by destruct (SlotSelection.partition_name slot name). }
  assert (forall mf total n, n = Z.to_nat (total / mf + 1) -> 0 <= mf -> mf <> 0 -> total <= Z.of_nat n * mf) as Hfuel.
  { intros mf total n -> H1 H2. pose proof (Z.div_mod total mf). pose proof (Z.mod_pos_bound total mf). nia. }
  destruct offset as [o|], size as [sz|]; [| | |].
  3: ends.
  all: apply ends_bind; [done|intros q]; apply ends_bind_ok; [ends|]; intros mf c c1 Hmf; apply getvar_size_range in Hmf.
  all: destruct (Z.eqb_spec mf 0) as [Hz|Hz]; [ends|].
  - apply ends_bind_ok; [ends|]. intros [st total] c2 c3 [= _ <- <-]. apply ends_if; [ends|]. apply ends_bind; [ends|]. intros _.
    apply fetch_chunks_ends; [lia|]. by apply Hfuel; lia.
  - apply ends_bind; [ends|]. intros [st total]. apply ends_if; [ends|]. do 3 (apply ends_bind; [ends|intros ?]). apply ends_if; [ends|]. ends.
  - apply ends_bind; [ends|]. intros [st total]. apply ends_if; [ends|]. apply ends_bind; [ends|]. intros _.
    apply fetch_chunks_ends; [lia|]. by apply Hfuel; lia.
Qed.

(** The device does not report a limit of 0. *)
Definition positive_limit (c : St) : Prop := (get_max_download_size c).2 <> Ok (Some 0).

Lemma ends_max_size : ends get_max_download_size.
Proof.
  unfold get_max_download_size. apply ends_bind.
  - unfold try_getvar. apply ends_bind; [ends|]. intros [e|u]; [ends|]. apply ends_bind; [ends|]. intros [e|[]]; ends.
  - intros [v|]; ends.
Qed.
#[local] Hint Resolve ends_max_size : ends_db.

Lemma ends_finish : ends finish_payload.
Proof. unfold finish_payload. do 2 (apply ends_bind; [ends|intros ?]). case_match; ends. Qed.
Lemma ends_request n : ends (request_download n).
Proof. unfold request_download. do 2 (apply ends_bind; [ends|intros ?]). case_match; ends. Qed.
#[local] Hint Resolve ends_finish ends_request : ends_db.

Lemma get_staged_ends out_file : ends (get_staged out_file).
Proof. unfold get_staged. do 2 (apply ends_bind; [ends|intros ?]). apply ends_if; [ends|]. do 4 (apply ends_bind; [ends|intros ?]). case_match; ends. Qed.

Lemma download_payload_ends payload (c : St) : positive_limit c -> (download_payload payload c).2 <> Err Hang.
Proof.
  intros Hp. unfold download_payload. destruct (_ <? _); [done|]. unfold positive_limit in Hp. unfold bind at 1.
  pose proof (ends_max_size c) as He. destruct (get_max_download_size c) as [c1 [lim|e|]] eqn:Hl; cbn in *; [|congruence|done].
  assert (0 < default (16 * 1024 * 1024) lim) as Hpos.
  { destruct lim as [n|]; cbn [default from_option id]; [|lia]. pose proof (limit_range c c1 n Hl).
    destruct (Z.eq_dec n 0) as [->|]; [done|lia]. }
  revert c1 Hl. intros c1 _. apply ends_bind; [ends|]. intros _. apply ends_bind; [by apply send_chunks_ends|]. ends.
Qed.

Lemma after_download {A} payload (k : unit -> M St ending A) (c : St) :
  positive_limit c -> (forall u, ends (k u)) -> (bind (download_payload payload) k c).2 <> Err Hang.
Proof.
  intros Hp Hk. unfold bind. pose proof (download_payload_ends payload c Hp) as Hd.
  destruct (download_payload payload c) as [c1 [a|e|]]; cbn in *; [apply Hk|congruence|done].
Qed.
End Ends.

(** The transfers end. Whatever the transport delivers and the local files do, [fetch] and [get_staged] return: their
    loops move at least one byte a round towards a size that was announced, and no limit of 0 is
    used. Sending a payload ([boot], [flash:raw]) returns for every device that does not report a limit of
    0. *)
Theorem transfers_end {T F : Type} `{FastbootTransport T, HostFiles F} (c : Cli T F) :
  (forall p out_file offset size slot, (fetch_to_file p out_file offset size slot c).2 <> Err Hang) /\
  (forall out_file, (get_staged out_file c).2 <> Err Hang) /\
  (positive_limit c -> forall payload partition,
     (download_and_boot_payload payload c).2 <> Err Hang /\ (download_and_flash_payload payload partition c).2 <> Err Hang).
Proof.
  split_and!.
  - intros. apply fetch_to_file_ends.
  - intros out_file. apply get_staged_ends.
  - intros Hp payload partition. split; (apply after_download; [done|]); intros _; apply ends_send_cmd.
Qed.

(** A device with a limit of 16 bytes, and an empty disk. *)
Definition small_device : Device := mk_device {[ B "max-download-size" := B "16" ]} {[ B "boot" := zrep 64 x00 ]} [] 0 [] [].

Lemma transfers_end_witness :
  positive_limit (mk_cli small_device (∅ : Disk) []) /\
  (download_and_boot_payload (zrep 40 x01) (mk_cli small_device (∅ : Disk) [])).2 <> Err Hang.
Proof.
  assert (positive_limit (mk_cli small_device (∅ : Disk) [])) as Hp by (unfold positive_limit; vm_compute; discriminate).
  split; [exact Hp|].
  exact (proj1 (proj2 (proj2 (transfers_end (mk_cli small_device (∅ : Disk) []))) Hp (zrep 40 x01) [])).
Defined.
