(* ===== verification/FastbootMain.v ===== *)
(** * Commands of the fastboot program, end to end

    [main] of [main_fastboot.rs] with a world that connects to the reference bootloader: flashing, flashing and
    fetching back, the vbmeta flags, the sizes a bootloader reports, the stored devices, and chunks of size 0. *)
From S2P Require Import Prelude Text FastbootProto SparseImage BootImage Net FastbootStream Effects FastbootCli FastbootRun FastbootSpec.

(** The world connects the program to the device [d]. *)
Definition reaches (w : World Device) (o : Options) (d : Device) : Prop :=
  forall c : Pc, open_transport w (use_usb o) (resolve_target_addr (serial o) 5554) c = (with_link d c, Ok tt).

(** The options ask for the slot [sel], and [--set-active] is absent. *)
Definition selects (o : Options) (sel : SlotSelection) : Prop := SlotSelection.parse (slot o) = Ok sel /\ set_active o = None.

Lemma main_runs (w : World Device) (o : Options) (sel : SlotSelection) (cmd : Commands) (c : Pc) :
  selects o sel -> main w o cmd c = run_command w o (resolve_target_addr (serial o) 5554) sel cmd c.
Proof. intros [Hs Ha]. unfold main, bind, lift. rewrite Hs. cbn [map_err]. by rewrite Ha. Qed.

Lemma connected (w : World Device) (o : Options) (d : Device) (c : Pc) :
  reaches w o d -> connect w o (resolve_target_addr (serial o) 5554) c = (with_link d c, Ok tt).
Proof. intros Hw. by apply on_err_ok. Qed.

Lemma flash_command (w : World Device) (o : Options) (sel : SlotSelection) (d : Device) (c : Pc) (partition p path img' new : bytes) (file : option bytes) :
  selects o sel -> reaches w o d -> ready d -> SlotSelection.partition_name sel partition = Ok p ->
  resolve_image_path partition file (ANDROID_PRODUCT_OUT w) = Ok path ->
  flashable d (host c) partition p path (gopts o) img' new ->
  exists c', main w o (Flash partition file) c = (c', Ok tt) /\ only_part p new (with_link d c) c'.
Proof.
  intros Hs Hw Hr Hp Hf Hfl. rewrite (main_runs w o sel) by done. cbn [run_command]. unfold run_flash.
  assert (wire sel partition c = (c, Ok p)) as H1 by (unfold wire, partition_of, lift; by rewrite Hp).
  assert (or_exit (on_err Failed (lift (resolve_image_path partition file (ANDROID_PRODUCT_OUT w)))) c = (c, Ok path)) as H2
    by (unfold or_exit, on_err, lift; by rewrite Hf).
  rewrite (bind_ok _ _ _ _ _ H1), (bind_ok _ _ _ _ _ H2), (bind_ok _ _ _ _ _ (connected w o d c Hw)).
  by apply (flash_file_device (with_link d c) partition p path (gopts o) img' new).
Qed.

Lemma fetch_command (w : World Device) (o : Options) (sel : SlotSelection) (d : Device) (c : Pc) (partition p out_file content : bytes) (offset size : option Z) (mf start total : Z) :
  selects o sel -> reaches w o d -> ready d -> SlotSelection.partition_name sel partition = Ok p ->
  parts d !! p = Some content -> ":"%byte ∉ p -> zlen p <= 3900 -> says_size d (B "max-fetch-size") mf -> 0 < mf <= u32_max ->
  fetch_range d p offset size start total -> 0 <= start -> 0 < total -> start + total <= zlen content < 2 ^ 64 ->
  main w o (Fetch partition out_file offset size) c
  = (mk_cli d (<[out_file := slice start (start + total) content]> (host c)) (output c ++ [Response (Okay [])]), Ok tt).
Proof.
  intros Hs Hw Hr Hp Hc Hcol Hn Hmf Hm Hrange H0 Ht Hl. rewrite (main_runs w o sel) by done. cbn [run_command]. unfold run_fetch.
  rewrite (bind_ok _ _ _ _ _ (connected w o d c Hw)).
  by rewrite (bind_ok _ _ _ _ _ (fetch_file_device (with_link d c) partition p out_file content offset size sel mf start total
    Hr Hp Hc Hcol Hn Hmf Hm Hrange H0 Ht Hl)).
Qed.

(** ** Properties *)

(** C8: [fastboot flash] on a bootloader, whatever the limit it reports. The image is sent whole when it fits
    the limit and as the pieces of its sparse form otherwise, with the vbmeta flags of the options set when the
    partition is a vbmeta one; after the command the partition (the one of the chosen slot) holds exactly
    what flashing those payloads one after the other makes of it, every other partition, every variable and
    every local file is as before, and the device waits for the next command. *)
Theorem fastboot_flash_installs (w : World Device) (o : Options) (sel : SlotSelection) (d : Device) (c : Pc) (partition p path img' new : bytes) (file : option bytes) :
  selects o sel -> reaches w o d -> ready d -> SlotSelection.partition_name sel partition = Ok p ->
  resolve_image_path partition file (ANDROID_PRODUCT_OUT w) = Ok path ->
  flashable d (host c) partition p path (gopts o) img' new ->
  exists c', main w o (Flash partition file) c = (c', Ok tt) /\ only_part p new (with_link d c) c'.
Proof. apply flash_command. Qed.

Lemma flash_whole_image (img old : bytes) : is_sparse img = false -> zlen img <= zlen old -> flash_all [img] old = Some (img ++ drop (length img) old).
Proof.
  intros Hs Hl. cbn. unfold device_flash. rewrite Hs, (proj2 (Z.leb_le _ _)) by lia. f_equal.
  rewrite write_at_in by lia. by rewrite take_0.
Qed.


(** ** The vbmeta flags *)
Definition flag_mask (o : GlobalOptions) : Z :=
  Z.lor (if disable_verity o then 1 else 0) (if disable_verification o then 2 else 0).

Lemma or_byte_lookup i f (data : bytes) k :
  0 <= i -> or_byte i f data !! k = if decide (k = Z.to_nat i) then (fun b => z2b (Z.lor (b2z b) f)) <$> data !! k else data !! k.
Proof.
  intros Hi. unfold or_byte. case_decide as Hk; [subst k; apply list_lookup_alter_eq|by apply list_lookup_alter_ne].
Qed.

Lemma or_both (b : byte) : z2b (Z.lor (b2z (z2b (Z.lor (b2z b) 1))) 2) = z2b (Z.lor (b2z b) 3).
Proof. by destruct b. Qed.

(** The vbmeta flags, on every branch. When an image is changed, the options ask for it, the header with the AVB
    magic is where the image starts or its footer says, and exactly one byte differs: the low byte of the flags,
    which gets the bits of the options and keeps the others. The image is left alone when nothing is
    asked for, when it is short, when the magic is not there or when the flags lie behind its end; and the program
    panics exactly when a footer gives an offset within four of the end of the 64-bit range. *)
Theorem vbmeta_patch_exact (data : bytes) o :
  match patch_vbmeta_flags data o with
  | Ok (Some p) =>
      needs_vbmeta_patch o = true /\ slice (vbmeta_start data) (vbmeta_start data + 4) data = AVB_MAGIC /\
      (forall k, p !! k = if decide (k = Z.to_nat (vbmeta_start data + 123))
                          then (fun b => z2b (Z.lor (b2z b) (flag_mask o))) <$> data !! k else data !! k) /\
      vbmeta_start data + 123 < zlen data
  | Ok None =>
      needs_vbmeta_patch o = false \/ zlen data < 256 \/
      slice (vbmeta_start data) (vbmeta_start data + 4) data <> AVB_MAGIC \/ zlen data <= vbmeta_start data + 123
  | Panic => needs_vbmeta_patch o = true /\ 256 <= zlen data /\ 2 ^ 64 - 4 <= vbmeta_start data
  | Err _ => False
  end.
Proof.
  assert (0 <= vbmeta_start data) as H0.
  { unfold vbmeta_start. case_bool_decide; [apply be_val_range|done]. }
  assert (usize_max = 2 ^ 64 - 1) as Hu by done.
  unfold patch_vbmeta_flags. destruct (needs_vbmeta_patch o) eqn:Hn; cbn [negb orb]; [|by left].
  destruct (Z.ltb_spec (zlen data) 256); [by right; left|]. destruct (Z.ltb_spec usize_max (vbmeta_start data + 4)).
  { split_and!; [done|lia|lia]. }
  destruct (Z.ltb_spec (zlen data) (vbmeta_start data + 4)); cbn [orb]; [do 3 right; lia|].
  case_bool_decide as Hm; cbn [negb]; [|by right; right; left].
  unfold VBMETA_FLAGS_LSB_OFFSET. destruct (Z.leb_spec (zlen data) (vbmeta_start data + 123)); [do 3 right; lia|].
  split_and!; [done|done| |done]. intros k. unfold needs_vbmeta_patch in Hn. unfold flag_mask.
  destruct (disable_verity o), (disable_verification o); try done.
  - rewrite !or_byte_lookup by lia. case_decide; [|done]. destruct (data !! k) as [b|]; [|done]. cbn. by rewrite or_both.
  - rewrite or_byte_lookup by lia. done.
  - rewrite or_byte_lookup by lia. done.
Qed.

(** ** Chunks of size 0

    A bootloader that reports a limit of 0 makes the sending loops go on for ever: no number of rounds is enough, and
    nothing is sent. *)
Lemma zero_chunk_never_ends fuel : forall (c : Pc) f (payload : bytes),
  0 < zlen payload -> 0 <= wanted (link c) -> exists c', send_chunks fuel f 0 payload c = (c', Err Hang) /\ host c' = host c /\
    buffer (link c') = buffer (link c).
Proof.
  induction fuel as [|fuel IH]; intros c f payload Hp Hw; cbn [send_chunks]; rewrite (proj2 (Z.eqb_neq _ _)) by lia; [by exists c|].
  rewrite Z.min_r by lia. cbn [Z.to_nat]. rewrite take_0, drop_0.
  rewrite (bind_ok _ _ _ _ _ (write_device c [] f Hw)).
  destruct (IH (with_link (taken [] (link c)) c) f payload Hp) as (c' & Hc & Hh & Hb).
  - unfold taken. fields. change (zlen (@nil byte)) with 0. cbn. lia.
  - exists c'. rewrite Hc, Hh, Hb. split_and!; [done|done|]. unfold taken. change (zlen (@nil byte)) with 0. cbn. apply app_nil_r.
Qed.

(** ** A device with a small partition *)
Module FlashSample.
Definition options : Options := mk_options None false (Some (B "a")) None (mk_gopts false false false true false false).
Definition device : Device := mk_device
  {[ B "max-download-size" := B "0x1000"; B "max-fetch-size" := B "5"; B "partition-size:boot_a" := B "10" ]}
  {[ B "boot_a" := zrep 10 xff; B "boot_b" := zrep 10 xee ]} [] 0 [] [].
Definition world (d : Device) : World Device :=
  {| HOME := None; ANDROID_PRODUCT_OUT := None; open_zip := fun _ => None; usb_enumerate := None;
     usb_open := inl closed; udp_connect := fun _ => inl closed; tcp_connect := fun _ => inr d |}.
Definition start : Pc := mk_cli device {[ B "boot.img" := B "KERNEL!" ]} [].

Lemma selected : selects options (Named (B "a")).
Proof. by split. Qed.
Lemma reached d : reaches (world d) options d.
Proof. by intros c. Qed.
Lemma is_ready : ready device.
Proof. done. Qed.
Lemma limit : limit_is device (Some 4096).
Proof. split; [by vm_compute|]. intros n [= <-]. lia. Qed.
Lemma can_flash : flashable device (host start) (B "boot") (B "boot_a") (B "boot.img") (gopts options) (B "KERNEL!")
  (B "KERNEL!" ++ zrep 3 xff).
Proof.
  exists (B "KERNEL!"), (zrep 10 xff), (Some 4096), [B "KERNEL!"].
  assert (payload_ok (B "KERNEL!")) as Hk by (vm_compute; by split_and!).
  split; [vm_compute; discriminate|]. split; [vm_compute; reflexivity|]. split; [exact Hk|].
  split; [vm_compute; reflexivity|]. split; [exact limit|]. split; [vm_compute; reflexivity|].
  split; [vm_compute; reflexivity|]. split; [by constructor|]. vm_compute. reflexivity.
Qed.
End FlashSample.

Lemma fastboot_flash_installs_witness :
  exists c', main (FlashSample.world FlashSample.device) FlashSample.options (Flash (B "boot") (Some (B "boot.img"))) FlashSample.start
    = (c', Ok tt) /\
    only_part (B "boot_a") (B "KERNEL!" ++ zrep 3 xff) (with_link FlashSample.device FlashSample.start) c'.
Proof.
  refine (fastboot_flash_installs (FlashSample.world FlashSample.device) FlashSample.options (Named (B "a")) FlashSample.device
    FlashSample.start (B "boot") (B "boot_a") (B "boot.img") (B "KERNEL!") (B "KERNEL!" ++ zrep 3 xff) (Some (B "boot.img"))
    FlashSample.selected (FlashSample.reached _) FlashSample.is_ready _ _ FlashSample.can_flash); vm_compute; reflexivity.
Defined.


(** Above the limit the pieces of an image overwrite each other: none of them says where it belongs, so each is
    written from the start of the partition. Flashing two blocks through a limit of 5000 bytes leaves the second at the front,
    and nothing behind it. *)
Example flash_large_image_overlaps :
  let img := zrep 4096 x41 ++ zrep 4096 x42 in
  exists payloads, payloads_of img (Some 5000) = Some payloads /\ length payloads = 2%nat /\
    flash_all payloads (zrep 8192 x00) = Some (zrep 4096 x42 ++ zrep 4096 x00).
Proof. eexists. split; [vm_compute; reflexivity|]. split; vm_compute; reflexivity. Qed.

(** The second-stage image is left out of the boot image that [boot] and [flash:raw] build, since its header has version 4. *)
Example second_left_out :
  build_boot_image (B "K") (B "R") (B "SECOND") [] 4096 4 = build_boot_image (B "K") (B "R") [] [] 4096 4.
Proof. vm_compute. reflexivity. Qed.

(** A size with the Kelvin sign for its unit cuts the text within a character. *)
Example size_panics : parse_max_download_size (B "64" ++ [xe2; x84; xaa]) = Panic.
Proof. vm_compute. reflexivity. Qed.
