(* ===== verification/Install.v ===== *)
(** * Installing packages

    [client/adb_install.rs]: options, the choice of the mode, the package manager's services, and installing one
    package, split packages and several packages at once, over any transport. Local files are a class; the
    progress line is left out. A loop over messages has what its peer still says as fuel. *)
From S2P Require Import Prelude Text AdbHeader Features SyncWire Net AdbTransport Effects SyncClient.

Definition SYNC_DATA_MAX : Z := 64 * 1024.

(** ** Options *)
Record InstallOptions := mk_install {
  reinstall : bool; downgrade : bool; grant_permissions : bool; forward_lock : bool; test : bool;
  install_external : bool; allow_downgrade : bool; staging : bool; wait : bool; streaming : option bool }.

Definition flag (b : bool) (s : bytes) : list bytes := if b then [s] else [].

Definition to_pm_flags (o : InstallOptions) : list bytes :=
  flag (reinstall o) (B "-r") ++ flag (downgrade o) (B "-d") ++ flag (grant_permissions o) (B "-g")
  ++ flag (forward_lock o) (B "-l") ++ flag (test o) (B "-t") ++ flag (install_external o) (B "-s")
  ++ flag (allow_downgrade o) (B "--downgrade") ++ flag (staging o) (B "--staging").

(** [value.replace('\'', "'\\''")] between quotes. *)
Definition shell_quote (value : bytes) : bytes :=
  B "'" ++ concat (map (fun c => if beqb "'"%byte c then B "'\''" else [c]) value) ++ B "'".

Definition to_pm_install_cmd (o : InstallOptions) (apk_path : bytes) : bytes :=
  let flags := join (B " ") (to_pm_flags o) in
  if zlen flags =? 0 then B "pm install " ++ shell_quote apk_path
  else B "pm install " ++ flags ++ B " " ++ shell_quote apk_path.

(** ** The mode *)
Inductive InstallModeRequest := Auto | Streaming | NoStreaming.
Inductive InstallMode := Push | Streamed | Incremental.
Inductive CmdlineIncremental := INone | IEnable | IDisable.
Inductive CommandTransport := AbbExec | ExecCmd | ExecPm.

#[export] Instance install_mode_eq : EqDecision InstallMode.
Proof. solve_decision. Defined.
#[export] Instance cmdline_incremental_eq : EqDecision CmdlineIncremental.
Proof. solve_decision. Defined.

Definition abb_exec_supported (device_banner : bytes) : bool :=
  can_use_feature (parse_banner_features device_banner) (B "abb_exec").
Definition from_banner (device_banner : bytes) : CommandTransport :=
  if abb_exec_supported device_banner then AbbExec else ExecCmd.
Definition apex_supported (device_banner : bytes) : bool :=
  can_use_feature (parse_banner_features device_banner) (B "apex").

Definition service_string (self : CommandTransport) (args : list bytes) : bytes :=
  match self with
  | AbbExec => B "abb_exec:package" ++ concat (map (fun a => [x00] ++ a) args)
  | ExecCmd => B "exec:cmd package" ++ concat (map (fun a => B " " ++ a) args)
  | ExecPm => B "exec:pm" ++ concat (map (fun a => B " " ++ a) args)
  end.

Definition select_install_mode (device_banner : bytes) (request : InstallModeRequest) : res bytes InstallMode :=
  let supports_cmd := can_use_feature (parse_banner_features device_banner) (B "cmd") in
  match request with
  | NoStreaming => Ok Push
  | Streaming => if supports_cmd then Ok Streamed else Err (B "streaming install requested but device does not support cmd")
  | Auto => if supports_cmd then Ok Streamed else Ok Push
  end.

Definition parse_bool (value : bytes) : option bool :=
  if bool_decide (value ∈ [B "1"; B "y"; B "yes"; B "on"; B "true"]) then Some true
  else if bool_decide (value ∈ [B "0"; B "n"; B "no"; B "off"; B "false"]) then Some false
  else None.

(** The probe of the device is asked only when the gates before it allow it; its effects are in the state [S]. *)
Definition calculate_install_mode {S : Type} (mode_from_args : option InstallMode) (incremental_request : CmdlineIncremental)
    (abb_exec : bool) (env_value : option bytes) (best_mode : InstallMode) (probe : M S bytes (option bool))
    : M S bytes (InstallMode * option InstallMode) :=
  match mode_from_args with
  | Some mode =>
      if bool_decide (incremental_request = IEnable)
      then fail (B "--incremental is not compatible with other installation modes") else ret (mode, None)
  | None =>
      do! request :=
        if negb (bool_decide (incremental_request = IDisable)) && negb abb_exec then
          if bool_decide (incremental_request = INone) then ret IDisable
          else fail (B "Device doesn't support incremental installations")
        else ret incremental_request in
      let request :=
        match request, env_value with
        | INone, Some value => if bool_decide (parse_bool value = Some false) then IDisable else INone
        | r, _ => r
        end in
      do! request :=
        match request with
        | INone => do! d := probe in ret (if bool_decide (d = Some false) then IDisable else INone)
        | r => ret r
        end in
      match request with
      | IEnable => ret (Incremental, None)
      | INone => ret (Incremental, Some best_mode)
      | IDisable => ret (best_mode, None)
      end
  end.

(** ** Answers of the package manager *)

Definition parse_install_session_id (output : bytes) : option bytes :=
  if negb (contains_str (B "Success") output) then None else
  match rsplit_once "["%byte output with
  | None => None
  | Some (_, rest) =>
      match split_once "]"%byte rest with
      | None => None
      | Some (id, _) => if (zlen id =? 0) || negb (forallb (in_rng 48 57) id) then None else Some id
      end
  end.

Definition success (output : bytes) : bool := existsb (starts_with (B "Success")) (lines output).

(** ** Services over messages *)
Section Services.
Context {T : Type} `{TransportEnds T}.

Definition unexpected (what : bytes) (other : Z) : bytes := what ++ fmt_hex0x other.
Definition bad_ids (what : bytes) (h : AdbMessageHeader) : bytes :=
  B "Unexpected " ++ what ++ B " ids (" ++ fmt_dec (arg0 h) ++ B ", " ++ fmt_dec (arg1 h) ++ B ")".
Definition ids_match (h : AdbMessageHeader) (local_id remote_id : Z) : bool := (arg0 h =? remote_id) && (arg1 h =? local_id).

Fixpoint shell_go (fuel : nat) (local_id : Z) (output : bytes) : M T bytes bytes :=
  match fuel with
  | O => lift Panic
  | S fuel =>
      do! '(header, payload) := trecv in
      if command header =? A_OKAY then shell_go fuel local_id output
      else if command header =? A_WRTE then
        do! _ := tsend (Header.new A_OKAY local_id (arg0 header) []) [] in
        shell_go fuel local_id (output ++ payload)
      else if command header =? A_CLSE then
        do! _ := tsend (Header.new A_CLSE local_id (arg0 header) []) [] in ret output
      else fail (unexpected (B "Unexpected command while running shell: ") (command header))
  end.

Definition run_shell_command (cmd : bytes) : M T bytes bytes :=
  do! '(local_id, _) := open_service (B "shell,v2,raw:" ++ cmd) 1 in
  do! output := fun t => shell_go (S (t_left t)) local_id [] t in
  ret (from_utf8_lossy output).

Fixpoint write_exec_wait (fuel : nat) (local_id remote_id : Z) (pending : list bytes) : M T bytes (list bytes) :=
  match fuel with
  | O => lift Panic
  | S fuel =>
      do! '(response, data) := trecv in
      if command response =? A_OKAY then
        if ids_match response local_id remote_id then ret pending else fail (bad_ids (B "A_OKAY") response)
      else if command response =? A_WRTE then
        if negb (ids_match response local_id remote_id) then fail (bad_ids (B "A_WRTE") response) else
        do! _ := tsend (Header.new A_OKAY local_id remote_id []) [] in
        write_exec_wait fuel local_id remote_id (pending ++ [data])
      else if command response =? A_CLSE then
        do! _ := tsend_ignored (Header.new A_CLSE local_id remote_id []) in
        fail (B "exec service closed before all input was sent")
      else fail (unexpected (B "Unexpected exec input response: ") (command response))
  end.

(** With the output that came before the acknowledgement. *)
Definition write_exec_payload (local_id remote_id : Z) (payload : bytes) (pending : list bytes) : M T bytes (list bytes) :=
  do! _ := tsend (Header.new A_WRTE local_id remote_id payload) payload in
  fun t => write_exec_wait (S (t_left t)) local_id remote_id pending t.

Fixpoint read_exec_go (fuel : nat) (local_id remote_id : Z) (output : bytes) : M T bytes bytes :=
  match fuel with
  | O => lift Panic
  | S fuel =>
      do! '(header, payload) := trecv in
      if command header =? A_OKAY then read_exec_go fuel local_id remote_id output
      else if command header =? A_WRTE then
        if negb (ids_match header local_id remote_id) then fail (bad_ids (B "A_WRTE") header) else
        do! _ := tsend (Header.new A_OKAY local_id remote_id []) [] in
        read_exec_go fuel local_id remote_id (output ++ payload)
      else if command header =? A_CLSE then
        if negb (ids_match header local_id remote_id) then fail (bad_ids (B "A_CLSE") header) else
        do! _ := tsend (Header.new A_CLSE local_id remote_id []) [] in ret output
      else fail (unexpected (B "Unexpected exec output command: ") (command header))
  end.

Definition read_exec_output (local_id remote_id : Z) (pending : list bytes) : M T bytes bytes :=
  do! output := fun t => read_exec_go (S (t_left t)) local_id remote_id (concat pending) t in
  ret (from_utf8_lossy output).

(** Open a service and read all it says. *)
Definition run_service (destination : bytes) : M T bytes bytes :=
  do! '(local_id, remote_id) := open_service destination 1 in
  read_exec_output local_id remote_id [].

Definition run_exec_command (cmd : bytes) : M T bytes bytes := run_service (B "exec:" ++ cmd).

Definition run_install_command (cmd_transport : CommandTransport) (args : list bytes) : M T bytes bytes :=
  run_service (service_string cmd_transport args).

Definition SETTING : bytes := join [x00] [B "abb_exec:settings"; B "get"; B "global"; B "enable_adb_incremental_install_default"].
Definition probe_incremental_default_disabled : M T bytes (option bool) :=
  do! output := run_service SETTING in
  ret (parse_bool (trim (default [] (head (lines output))))).

(** The output of a shell service, where failed acknowledgements and other messages do not matter. *)
Fixpoint drain_go (fuel : nat) (local_id : Z) (output : bytes) : M T bytes bytes :=
  match fuel with
  | O => lift Panic
  | S fuel =>
      do! '(hdr, payload) := trecv in
      if command hdr =? A_WRTE then
        do! _ := tsend_ignored (Header.new A_OKAY local_id (arg0 hdr) []) in
        drain_go fuel local_id (output ++ payload)
      else if command hdr =? A_CLSE then
        do! _ := tsend_ignored (Header.new A_CLSE local_id (arg0 hdr) []) in ret output
      else drain_go fuel local_id output
  end.
Definition drain_shell (cmd : bytes) : M T bytes bytes :=
  do! '(local_id, _) := open_service (B "shell,v2,raw:" ++ cmd) 1 in
  do! output := fun t => drain_go (S (t_left t)) local_id [] t in
  ret (from_utf8_lossy output).

Definition uninstall_package (package_name : bytes) (keep_data : bool) : M T bytes bytes :=
  drain_shell ((if keep_data then B "pm uninstall -k " else B "pm uninstall ") ++ [x22] ++ package_name ++ [x22]).

(** [trim_start_matches]. *)
Fixpoint trim_prefix (fuel : nat) (p s : bytes) : bytes :=
  match fuel, strip_prefix p s with
  | S fuel, Some s => trim_prefix fuel p s
  | _, _ => s
  end.
Definition list_packages (filter_ : option bytes) : M T bytes (list bytes) :=
  do! result := drain_shell (match filter_ with
    | Some f => B "pm list packages -f " ++ [x22] ++ f ++ [x22]
    | None => B "pm list packages -f"
    end) in
  ret (map (fun l => trim_prefix (length l) (B "package:") l) (filter (fun l => starts_with (B "package:") l = true) (lines result))).
End Services.

(** ** Local files

    [ap_open] gives what the reads of the open file will give, one after the other, until its end. *)
Class ApkFiles (F : Type) := {
  ap_len : bytes -> M F io_error Z;
  ap_is_file : bytes -> M F io_error bool;
  ap_open : bytes -> M F io_error (list (io_error + bytes)) }.

(** [Path::extension]. *)
Definition extension (p : bytes) : option bytes :=
  match file_name p with
  | Some name => match rsplit_once "."%byte name with Some ([], _) => None | Some (_, ext) => Some ext | None => None end
  | None => None
  end.
Definition has_extension (p ext : bytes) : bool := bool_decide (to_ascii_lowercase (default [] (extension p)) = ext).

Record StagedApk := mk_staged { remote_path : bytes; staged_name : bytes; staged_size : Z }.
Record MultiPackageApk := mk_multi { local_path : bytes; split_name : bytes; multi_size : Z; is_apex : bool }.

Section Commands.
Context {T : Type} `{TransportEnds T} {F : Type} `{ApkFiles F}.
Abbreviation I := (M (Session T F) bytes).

Definition local_file {A} (m : M F io_error A) : I A := fun s =>
  let '(d, x) := m (disk s) in (mk_session (net s) d, map_err io_msg x).

Definition apk_name (path : bytes) : I bytes := lift (ok_or (file_name path) (B "Invalid APK filename")).

(** ** Streaming a file to a command *)
Fixpoint stream_reads (local_id remote_id : Z) (reads : list (io_error + bytes)) (pending : list bytes) (bytes_sent : Z)
    : I (list bytes * Z) :=
  match reads with
  | [] | inr [] :: _ => ret (pending, bytes_sent)
  | inl e :: _ => fail (io_msg e)
  | inr chunk :: reads =>
      do! pending := over (write_exec_payload local_id remote_id chunk pending) in
      stream_reads local_id remote_id reads pending (bytes_sent + zlen chunk)
  end.

Definition stream_file_to_install_command (cmd_transport : CommandTransport) (args : list bytes) (local : bytes)
    (expected_file_size : Z) : I bytes :=
  do! file_size := local_file (ap_len local) in
  if negb (file_size =? expected_file_size)
  then fail (B "Input file changed before streaming: expected " ++ fmt_dec expected_file_size ++ B " bytes, found " ++ fmt_dec file_size) else
  do! reads := local_file (ap_open local) in
  do! '(local_id, remote_id) := over (open_service (service_string cmd_transport args) 1) in
  do! '(pending_output, bytes_sent) := stream_reads local_id remote_id reads [] 0 in
  if negb (bytes_sent =? file_size)
  then fail (B "Input file changed while streaming: expected " ++ fmt_dec file_size ++ B " bytes, sent " ++ fmt_dec bytes_sent) else
  over (read_exec_output local_id remote_id pending_output).

Definition install_apk_streamed (local_apk : bytes) (options : InstallOptions) (cmd_transport : CommandTransport)
    (device_banner : bytes) : I bytes :=
  let apex := has_extension local_apk (B "apex") in
  if negb (has_extension local_apk (B "apk")) && negb apex
  then fail (B "filename doesn't end .apk or .apex: " ++ local_apk) else
  if apex && negb (apex_supported device_banner) then fail (B ".apex is not supported on the target device") else
  do! file_size := local_file (ap_len local_apk) in
  let args := [B "install"] ++ to_pm_flags options ++ [B "-S"; fmt_dec file_size] ++ flag apex (B "--apex") in
  do! output := stream_file_to_install_command cmd_transport args local_apk file_size in
  if success output then ret output else fail (B "Streamed install failed: " ++ trim output).

(** ** Pushing and installing *)
Fixpoint push_reads (local_id remote_id : Z) (reads : list (io_error + bytes)) (bytes_sent : Z) : I Z :=
  match reads with
  | [] | inr [] :: _ => ret bytes_sent
  | inl e :: _ => fail (io_msg e)
  | inr chunk :: reads =>
      do! data_buf := lift (map_err sync_error_text (build_sync_data_chunk chunk [])) in
      do! _ := over (send_wrte local_id remote_id data_buf) in
      push_reads local_id remote_id reads (bytes_sent + zlen chunk)
  end.

Fixpoint close_wait (fuel : nat) (local_id : Z) : M T bytes unit :=
  match fuel with
  | O => lift Panic
  | S fuel =>
      do! '(header, payload) := trecv in
      if command header =? A_CLSE then ret tt
      else if command header =? A_WRTE then
        do! _ := tsend (Header.new A_OKAY local_id (arg0 header) []) [] in
        if negb (zlen payload =? 0) then fail (B "Unexpected sync payload while closing stream") else close_wait fuel local_id
      else if command header =? A_OKAY then close_wait fuel local_id
      else fail (unexpected (B "Unexpected sync close command: ") (command header))
  end.

Definition push_apk_to_path (local_apk remote : bytes) : I unit :=
  do! file_size := local_file (ap_len local_apk) in
  do! reads := local_file (ap_open local_apk) in
  do! '(local_id, remote_id) := over (open_service (B "sync:") 1) in
  do! send_buf := lift (map_err sync_error_text (build_sync_send_req remote 0x81a4 [])) in
  do! _ := over (send_wrte local_id remote_id send_buf) in
  do! bytes_sent := push_reads local_id remote_id reads 0 in
  if negb (bytes_sent =? file_size)
  then fail (B "APK changed while pushing: expected " ++ fmt_dec file_size ++ B " bytes, sent " ++ fmt_dec bytes_sent) else
  do! done_buf := lift (map_err sync_error_text (build_sync_done 0 [])) in
  do! _ := over (send_wrte local_id remote_id done_buf) in
  do! _ := over (recv_sync_response local_id) in
  do! _ := over (tsend (Header.new A_CLSE local_id remote_id []) []) in
  over (fun t => close_wait (S (t_left t)) local_id t).

Definition STAGING : bytes := B "/data/local/tmp".

Definition push_apk (local_apk remote_staging_dir : bytes) : I bytes :=
  do! name := apk_name local_apk in
  let remote := remote_staging_dir ++ B "/" ++ name in
  do! _ := push_apk_to_path local_apk remote in
  ret remote.

(** [let _ = ...]. *)
Definition ignored {A} (m : I A) : I unit := do! _ := attempt (F := bytes) m in ret tt.

Definition rm_command (remote : bytes) : bytes := B "rm " ++ shell_quote remote ++ B " </dev/null".

Definition install_apk (local_apk : bytes) (options : InstallOptions) : I unit :=
  do! remote := push_apk local_apk STAGING in
  do! install_result := attempt (over (run_exec_command (to_pm_install_cmd options remote))) in
  do! _ := ignored (over (run_exec_command (rm_command remote))) in
  match install_result with
  | inl e => fail e
  | inr output => if success output then ret tt else fail (B "Install failed: " ++ trim output)
  end.

(** ** Sessions

    The body of a transaction, and what is abandoned when it fails. *)
Definition or_abandon {A} (body : I A) (abandon : I unit) : I A :=
  do! result := attempt body in
  match result with
  | inr a => ret a
  | inl e => do! _ := abandon in fail e
  end.

Definition create_session (cmd_transport : CommandTransport) (args : list bytes) (err : bytes) : I bytes :=
  do! output := over (run_install_command cmd_transport args) in
  lift (ok_or (parse_install_session_id output) (err ++ trim output)).

Definition abandon_session (cmd_transport : CommandTransport) (id : bytes) : I unit :=
  ignored (over (run_install_command cmd_transport [B "install-abandon"; id])).

Definition write_args (size : Z) (session_id name : bytes) : list bytes :=
  [B "install-write"; B "-S"; fmt_dec size; session_id; name; B "-"].

(** A command whose output must tell of success. *)
Definition must_succeed (cmd_transport : CommandTransport) (args : list bytes) (err : bytes) : I unit :=
  do! output := over (run_install_command cmd_transport args) in
  if success output then ret tt else fail (err ++ trim output).

Definition write_split (cmd_transport : CommandTransport) (session_id : bytes) (apk : bytes) : I unit :=
  do! name := apk_name apk in
  do! size := local_file (ap_len apk) in
  do! output := stream_file_to_install_command cmd_transport (write_args size session_id name) apk size in
  if success output then ret tt else fail (B "install-write failed for " ++ name ++ B ": " ++ trim output).

Definition install_multiple_streamed (apks : list bytes) (total_size : Z) (options : InstallOptions)
    (cmd_transport : CommandTransport) : I unit :=
  do! session_id := create_session cmd_transport ([B "install-create"; B "-S"; fmt_dec total_size] ++ to_pm_flags options)
    (B "Failed to create streamed install session: ") in
  or_abandon
    (do! _ := for_each (write_split cmd_transport session_id) apks in
     must_succeed cmd_transport [B "install-commit"; session_id]
       (B "install-commit failed for session " ++ session_id ++ B ": "))
    (abandon_session cmd_transport session_id).

Definition cleanup_staged_apks (apks : list StagedApk) : I unit :=
  for_each (fun apk => ignored (over (run_shell_command (rm_command (remote_path apk))))) apks.

(** A shell command whose output must tell of success. *)
Definition shell_must_succeed (cmd err : bytes) : I unit :=
  do! output := over (run_shell_command cmd) in
  if contains_str (B "Success") output then ret tt else fail (err ++ trim output).

Definition write_staged (session_id : bytes) (apk : StagedApk) : I unit :=
  shell_must_succeed (B "pm install-write -S " ++ fmt_dec (staged_size apk) ++ B " " ++ session_id ++ B " "
    ++ shell_quote (staged_name apk) ++ B " - < " ++ shell_quote (remote_path apk))
    (B "install-write failed for " ++ staged_name apk ++ B ": ").

Definition install_staged_multiple (apks : list StagedApk) (total_size : Z) (options : InstallOptions) : I unit :=
  let flags := join (B " ") (to_pm_flags options) in
  let create_command :=
    B "pm install-create -S " ++ fmt_dec total_size ++ (if zlen flags =? 0 then [] else B " " ++ flags) in
  do! create_output := over (run_shell_command create_command) in
  do! session_id := lift (ok_or (parse_install_session_id create_output)
    (B "Failed to create install session: " ++ trim create_output)) in
  or_abandon
    (do! _ := for_each (write_staged session_id) apks in
     shell_must_succeed (B "pm install-commit " ++ session_id)
       (B "install-commit failed for session " ++ session_id ++ B ": "))
    (ignored (over (run_shell_command (B "pm install-abandon " ++ session_id)))).

(** ** Split packages *)
Definition SPLIT_EXTENSIONS : list bytes := [B "apk"; B "dm"; B "sdm"; B "fsv_sig"; B "idsig"].

(** The files are checked before anything is done on the device. *)
Fixpoint validate_apks (apks : list bytes) (names : list bytes) (total_size : Z) (staged : list StagedApk)
    : I (list StagedApk * Z) :=
  match apks with
  | [] => ret (staged, total_size)
  | apk :: apks =>
      do! name := apk_name apk in
      let ext := to_ascii_lowercase (default [] (extension name)) in
      if bool_decide (ext = B "apex") then fail (B "APEX packages are not compatible with install-multiple") else
      if negb (bool_decide (ext ∈ SPLIT_EXTENSIONS))
      then fail (B "install-multiple accepts .apk/.dm/.sdm/.fsv_sig/.idsig files only, got: " ++ name) else
      if bool_decide (name ∈ names) then fail (B "Duplicate APK filename: " ++ name) else
      do! size := local_file (ap_len apk) in
      if usize_max <? total_size + size then fail (B "Combined APK size overflows u64") else
      validate_apks apks (names ++ [name]) (total_size + size)
        (staged ++ [mk_staged (STAGING ++ B "/" ++ name) name size])
  end.

Fixpoint push_all (apks : list bytes) (staged : list StagedApk) : I unit :=
  match apks with
  | [] => ret tt
  | apk :: apks =>
      do! r := attempt (push_apk apk STAGING) in
      match r with
      | inl e => do! _ := cleanup_staged_apks staged in fail e
      | inr _ => push_all apks staged
      end
  end.

Definition install_multiple (apks : list bytes) (options : InstallOptions) (device_banner : bytes) : I unit :=
  match apks with
  | [] => fail (B "No APK files provided")
  | _ =>
      do! '(staged, total_size) := validate_apks apks [] 0 [] in
      if bool_decide (streaming options = Some true)
      then install_multiple_streamed apks total_size options (from_banner device_banner) else
      do! _ := push_all apks staged in
      do! install_result := attempt (install_staged_multiple staged total_size options) in
      do! _ := cleanup_staged_apks staged in
      match install_result with inl e => fail e | inr _ => ret tt end
  end.

(** ** Several packages at once *)
Definition split_package_argument (argument : bytes) : list bytes := split_on ":"%byte argument.

Definition check_split (package_index : nat) (argument : bytes) (basenames : list bytes) (split : bytes) : I (bytes * MultiPackageApk) :=
  do! found := attempt (local_file (ap_is_file split)) in
  if negb (match found with inr b => b | inl _ => false end)
  then fail (B "APK not found or not a regular file: " ++ split) else
  do! name := apk_name split in
  let apex := has_extension split (B "apex") in
  if negb (has_extension split (B "apk")) && negb apex then fail (B "Expected an .apk or .apex input, got " ++ split) else
  if bool_decide (name ∈ basenames)
  then fail (B "Duplicate split basename in package " ++ argument ++ B ": " ++ name) else
  do! size := local_file (ap_len split) in
  ret (name, mk_multi split (fmt_dec (Z.of_nat package_index + 1) ++ B "_" ++ name) size apex).

Fixpoint check_splits (package_index : nat) (argument : bytes) (basenames : list bytes) (splits : list bytes) : I (list MultiPackageApk) :=
  match splits with
  | [] => ret []
  | split :: splits =>
      do! '(name, apk) := check_split package_index argument basenames split in
      do! rest := check_splits package_index argument (basenames ++ [name]) splits in
      ret (apk :: rest)
  end.

Fixpoint check_packages (package_index : nat) (arguments : list bytes) : I (list (list MultiPackageApk)) :=
  match arguments with
  | [] => ret []
  | argument :: arguments =>
      let splits := split_package_argument argument in
      if existsb (fun s => zlen s =? 0) splits
      then fail (B "Invalid empty split path in package argument: " ++ argument) else
      do! package := check_splits package_index argument [] splits in
      do! rest := check_packages (S package_index) arguments in
      ret (package :: rest)
  end.

Definition child_args (options : InstallOptions) (apex_found : bool) (package : list MultiPackageApk) : list bytes :=
  [B "install-create"] ++ to_pm_flags options ++ flag apex_found (B "--staged")
  ++ flag (apex_found && existsb is_apex package) (B "--apex").

Definition write_apk (cmd_transport : CommandTransport) (child_id : bytes) (apk : MultiPackageApk) : I unit :=
  do! output := stream_file_to_install_command cmd_transport (write_args (multi_size apk) child_id (split_name apk))
    (local_path apk) (multi_size apk) in
  if success output then ret tt
  else fail (B "install-write failed for child session " ++ child_id ++ B ", split " ++ split_name apk ++ B ": " ++ trim output).

(** The sessions of the packages; [child_ids] is shared with the failure path, so what was created before an
    error is kept: the result tells the error, if there was one. *)
Fixpoint write_packages (cmd_transport : CommandTransport) (options : InstallOptions) (apex_found : bool)
    (packages : list (list MultiPackageApk)) (child_ids : list bytes) : I (list bytes * option bytes) :=
  match packages with
  | [] => ret (child_ids, None)
  | package :: packages =>
      do! created := attempt (create_session cmd_transport (child_args options apex_found package) (B "Failed to create child session: ")) in
      match created with
      | inl e => ret (child_ids, Some e)
      | inr child_id =>
          let child_ids := child_ids ++ [child_id] in
          do! written := attempt (for_each (write_apk cmd_transport child_id) package) in
          match written with
          | inl e => ret (child_ids, Some e)
          | inr _ => write_packages cmd_transport options apex_found packages child_ids
          end
      end
  end.

Definition commit_sessions (cmd_transport : CommandTransport) (parent_id : bytes) (child_ids : list bytes)
    (staged_ready_timeout : option bytes) : I unit :=
  do! _ := must_succeed cmd_transport ([B "install-add-session"; parent_id] ++ child_ids) (B "install-add-session failed: ") in
  must_succeed cmd_transport ([B "install-commit"]
      ++ (match staged_ready_timeout with Some timeout => [B "--staged-ready-timeout"; timeout] | None => [] end) ++ [parent_id])
    (B "parent install-commit failed: ").

Definition parent_args (options : InstallOptions) (apex_found : bool) : list bytes :=
  [B "install-create"; B "--multi-package"] ++ to_pm_flags options ++ flag apex_found (B "--staged").

Definition abandon_all (cmd_transport : CommandTransport) (parent_id : bytes) (child_ids : list bytes) : I unit :=
  for_each (abandon_session cmd_transport) (parent_id :: child_ids).

Definition install_multi_package_sessions (packages : list (list MultiPackageApk)) (options : InstallOptions)
    (cmd_transport : CommandTransport) (apex_ok : bool) (staged_ready_timeout : option bytes) : I unit :=
  let apex_found := existsb (existsb is_apex) packages in
  if apex_found && negb apex_ok then fail (B ".apex is not supported on the target device") else
  do! parent_id := create_session cmd_transport (parent_args options apex_found)
    (B "Failed to create multi-package parent session: ") in
  do! '(child_ids, error) := write_packages cmd_transport options apex_found packages [] in
  do! result :=
    match error with
    | Some e => ret (inl e)
    | None => attempt (commit_sessions cmd_transport parent_id child_ids staged_ready_timeout)
    end in
  match result with
  | inr _ => ret tt
  | inl e => do! _ := abandon_all cmd_transport parent_id child_ids in fail e
  end.

Definition install_multi_package (package_arguments : list bytes) (device_banner : bytes) (options : InstallOptions)
    (staged_ready_timeout : option bytes) : I unit :=
  match package_arguments with
  | [] => fail (B "No packages provided")
  | _ =>
      do! _ := lift (select_install_mode device_banner Streaming) in
      do! packages := check_packages 0 package_arguments in
      install_multi_package_sessions packages options (from_banner device_banner) (apex_supported device_banner) staged_ready_timeout
  end.
End Commands.
