(* ===== verification/InstallSpec.v ===== *)
(** * Pushed split packages are removed again

    What [install_multiple] says to the device, over any transport and any local files: a logged transport
    records the services that are opened and the data that is written to them, and a small logic of traces
    gives the conversations of the commands of [client/adb_install.rs]. *)
From S2P Require Import Prelude Text AdbHeader Features SyncWire Net AdbTransport Effects SyncClient SyncClientEnds Install.

(** ** Logged transports *)
Inductive ev := EOpen (dest : bytes) | EData (payload : bytes).

Record Logged (T : Type) := mk_logged { inner : T; events : list ev }.
Arguments mk_logged {T}. Arguments inner {T}. Arguments events {T}.

Definition event_of (h : AdbMessageHeader) (p : bytes) : list ev :=
  if command h =? A_OPEN then [EOpen p] else if command h =? A_WRTE then [EData p] else [].

#[export] Instance logged_transport {T} `{Transport T} : Transport (Logged T) := {|
  t_send h p l := let '(t, r) := t_send h p (inner l) in (mk_logged t (events l ++ event_of h p), r);
  t_recv l := let '(t, r) := t_recv (inner l) in (mk_logged t (events l), r);
  t_clone l := t_clone (inner l) |}.

#[export] Instance logged_ends {T} `{TransportEnds T} : TransportEnds (Logged T).
Proof.
  unshelve econstructor; [exact (fun l => t_left (inner l))| |].
  - intros l. cbn. pose proof (recv_left (inner l)) as Hr. by destruct (t_recv (inner l)) as [t [[h p]|e|]].
  - intros h p l. cbn. pose proof (send_left h p (inner l)) as Hs. by destruct (t_send h p (inner l)) as [t [u|e|]].
Defined.

(** ** Waiting is quiet: it only acknowledges *)
Section Quiet.
Context {T : Type} `{TransportEnds T}.
Implicit Types l : Logged T.

Definition quiet l l' : Prop := shrinks l l' /\ events l' = events l.
#[export] Instance quiet_preorder : PreOrder quiet.
Proof. unfold quiet. split; [done|]. intros a b c [H1 H2] [H3 H4]. split; [by etransitivity|congruence]. Qed.

Lemma trecv_quiet : keeps quiet (trecv (T := Logged T)).
Proof.
  intros l. destruct (trecv_keeps (T := Logged T) l) as [H1 H2]. split; [split; [done|]|done].
  unfold trecv, on_err. cbn. by destruct (t_recv (inner l)).
Qed.

Lemma tsend_logged h p l : events (tsend h p l).1 = events l ++ event_of h p.
Proof. unfold tsend, on_err. cbn. by destruct (t_send h p (inner l)). Qed.

Lemma tsend_quiet h : event_of h [] = [] -> keeps quiet (tsend (T := Logged T) h []).
Proof.
  intros Hh l. destruct (tsend_keeps (T := Logged T) h [] l) as [H1 H2]. split; [split; [done|]|done].
  by rewrite tsend_logged, Hh, app_nil_r.
Qed.

Lemma tsend_ignored_quiet h : event_of h [] = [] -> keeps quiet (tsend_ignored (T := Logged T) h).
Proof.
  intros Hh. unfold tsend_ignored. apply keeps_bind; [apply _|by apply keeps_attempt, tsend_quiet|]. intros a. by apply keeps_ret, _.
Qed.

Lemma ok_quiet a b : event_of (Header.new A_OKAY a b []) [] = [].
Proof. done. Qed.
Lemma clse_quiet a b : event_of (Header.new A_CLSE a b []) [] = [].
Proof. done. Qed.

(** A loop over messages. *)
Lemma quiet_loop {A} (k : AdbMessageHeader * bytes -> M (Logged T) bytes A) l fuel :
  (t_left l < S fuel)%nat ->
  (forall m l1, (t_left l1 < fuel)%nat -> keeps_at quiet (k m) l1) ->
  keeps_at quiet (bind trecv k) l.
Proof.
  intros Hf Hk. apply keeps_at_bind; [apply _|apply trecv_quiet|].
  intros l1 [h p] E _. apply Hk. apply trecv_less in E. lia.
Qed.

Lemma ack_then {A} h (k : M (Logged T) bytes A) l fuel :
  event_of h [] = [] -> (t_left l < fuel)%nat -> (forall l1, (t_left l1 < fuel)%nat -> keeps_at quiet k l1) ->
  keeps_at quiet (do! _ := tsend h [] in k) l.
Proof.
  intros Hh Hf Hk. apply keeps_at_bind; [apply _|by apply tsend_quiet|].
  intros l1 u _ [Hs _]. apply Hk. unfold shrinks in Hs. lia.
Qed.

Lemma ack_done {A} h (a : A) l : event_of h [] = [] -> keeps_at quiet (do! _ := tsend h [] in ret a) l.
Proof. intros Hh. apply keeps_bind; [apply _|by apply tsend_quiet|]. intros u. apply keeps_ret, _. Qed.

Lemma quiet_ret {A} (a : A) l : keeps_at quiet (ret (E := bytes) a) l.
Proof. apply keeps_ret, _. Qed.
Lemma quiet_fail {A} (e : bytes) l : keeps_at quiet (fail (A := A) e) l.
Proof. apply keeps_fail, _. Qed.

Create HintDb quiet_db.
#[local] Hint Resolve quiet_ret quiet_fail ack_done ok_quiet clse_quiet : quiet_db.
#[local] Hint Extern 1 (keeps_at quiet (if ?b then _ else _) _) => destruct b : quiet_db.

Lemma open_wait_quiet fuel dest id : forall l, (t_left l < fuel)%nat -> keeps_at quiet (open_wait fuel dest id) l.
Proof.
  induction fuel as [|fuel IH]; intros l Hf; [lia|]. cbn [open_wait]. apply (quiet_loop _ _ fuel Hf). intros [h p] l1 H1.
  auto with quiet_db.
Qed.

Lemma ignored_quiet_then {A} h (k : M (Logged T) bytes A) l fuel :
  event_of h [] = [] -> (t_left l < fuel)%nat -> (forall l1, (t_left l1 < fuel)%nat -> keeps_at quiet k l1) ->
  keeps_at quiet (do! _ := tsend_ignored h in k) l.
Proof.
  intros Hh Hf Hk. apply keeps_at_bind; [apply _|by apply tsend_ignored_quiet|].
  intros l1 u _ [Hs _]. apply Hk. unfold shrinks in Hs. lia.
Qed.

Lemma wrte_wait_quiet fuel a : forall l, (t_left l < fuel)%nat -> keeps_at quiet (wrte_wait fuel a) l.
Proof.
  induction fuel as [|fuel IH]; intros l Hf; [lia|]. cbn [wrte_wait]. apply (quiet_loop _ _ fuel Hf). intros [h p] l1 H1.
  destruct (_ =? _); [auto with quiet_db|]. destruct (_ =? _); [|auto with quiet_db].
  apply (ignored_quiet_then _ _ _ fuel); auto with quiet_db.
Qed.

Lemma recv_sync_quiet fuel a : forall l, (t_left l < fuel)%nat -> keeps_at quiet (recv_sync_go fuel a) l.
Proof.
  induction fuel as [|fuel IH]; intros l Hf; [lia|]. cbn [recv_sync_go].
  apply keeps_at_bind; [apply _|apply keeps_on_err, trecv_quiet|]. intros l1 [h p] E _.
  assert (t_left l1 < fuel)%nat as H1.
  { unfold on_err in E. destruct (trecv l) as [l2 [[h2 p2]|e|]] eqn:E2; [|done|done]. injection E as <- <- <-.
    apply trecv_less in E2. lia. }
  destruct (_ =? _); [by apply IH|]. destruct (_ =? _).
  { apply (ignored_quiet_then _ _ _ fuel); [done|done|]. intros. apply keeps_lift; [apply _|apply sync_answer_total]. }
  destruct (_ =? _); [|by apply IH]. apply (ignored_quiet_then _ _ _ fuel); auto with quiet_db.
Qed.

Lemma close_wait_quiet fuel a : forall l, (t_left l < fuel)%nat -> keeps_at quiet (close_wait fuel a) l.
Proof.
  induction fuel as [|fuel IH]; intros l Hf; [lia|]. cbn [close_wait]. apply (quiet_loop _ _ fuel Hf). intros [h p] l1 H1.
  destruct (_ =? _); [auto with quiet_db|]. destruct (_ =? _); [|auto with quiet_db].
  apply (ack_then _ _ _ fuel); auto with quiet_db.
Qed.

Lemma shell_quiet fuel a : forall out l, (t_left l < fuel)%nat -> keeps_at quiet (shell_go fuel a out) l.
Proof.
  induction fuel as [|fuel IH]; intros out l Hf; [lia|]. cbn [shell_go]. apply (quiet_loop _ _ fuel Hf). intros [h p] l1 H1.
  destruct (_ =? _); [auto with quiet_db|]. destruct (_ =? _); [|auto with quiet_db].
  apply (ack_then _ _ _ fuel); auto with quiet_db.
Qed.
End Quiet.

(** ** Traces *)
Section Traces.
Context {S E : Type} (log : S -> list E).

Definition traces {A} (m : M S bytes A) (P : list E -> res bytes A -> Prop) : Prop :=
  forall s, exists evs, log (m s).1 = log s ++ evs /\ P evs (m s).2.

Lemma traces_weaken {A} (m : M S bytes A) (P Q : list E -> res bytes A -> Prop) :
  traces m P -> (forall evs r, P evs r -> Q evs r) -> traces m Q.
Proof. intros Hm Hpq s. destruct (Hm s) as (evs & He & Hp). exists evs. auto. Qed.

Lemma traces_pure {A} (r : res bytes A) (P : list E -> res bytes A -> Prop) : P [] r -> traces (lift r) P.
Proof. intros Hp s. exists []. by rewrite app_nil_r. Qed.

Lemma traces_bind {A C} (m : M S bytes A) (k : A -> M S bytes C) P Q :
  traces m P ->
  (forall e evs, P evs (Err e) -> Q evs (Err e)) -> (forall evs, ~ P evs Panic) ->
  (forall a evs, P evs (Ok a) -> traces (k a) (fun evs2 r => Q (evs ++ evs2) r)) ->
  traces (bind m k) Q.
Proof.
  intros Hm He Hp Hk s. destruct (Hm s) as (evs & Hl & HP). unfold bind. destruct (m s) as [s1 [a|e|]]; cbn in *.
  - destruct (Hk a evs HP s1) as (evs2 & Hl2 & HQ). exists (evs ++ evs2). rewrite Hl2, Hl, app_assoc. by split.
  - exists evs. split; [done|auto].
  - by destruct (Hp evs).
Qed.

Lemma traces_attempt {A} (m : M S bytes A) P Q :
  traces m P -> (forall evs, ~ P evs Panic) ->
  (forall evs a, P evs (Ok a) -> Q evs (Ok (inr a))) -> (forall evs e, P evs (Err e) -> Q evs (Ok (inl e))) ->
  traces (attempt (F := bytes) m) Q.
Proof.
  intros Hm Hp Ha He s. destruct (Hm s) as (evs & Hl & HP). unfold attempt. exists evs.
  destruct (m s) as [s1 [a|e|]]; cbn in *; [by auto|by auto|by destruct (Hp evs)].
Qed.
End Traces.

(** A run that does not panic and says [evs]. *)
Definition said {A} (evs : list ev) : list ev -> res bytes A -> Prop := fun evs' r => evs' = evs /\ r <> Panic.

Section Sent.
Context {T : Type} `{TransportEnds T} {F : Type} `{ApkFiles F}.
Abbreviation Ses := (Session (Logged T) F).
Definition slog (s : Ses) : list ev := events (net s).
Abbreviation tr := (traces slog).

Lemma quiet_traces {A} (m : M (Logged T) bytes A) : keeps quiet m -> traces events m (said []).
Proof. intros Hm l. destruct (Hm l) as [[_ He] Hp]. exists []. by rewrite app_nil_r. Qed.

Lemma over_traces {A} (m : M (Logged T) bytes A) P : traces events m P -> tr (over m) P.
Proof. intros Hm s. destruct (Hm (net s)) as (evs & He & HP). exists evs. unfold over. by destruct (m (net s)). Qed.

Lemma send_traces h p : traces events (tsend (T := Logged T) h p) (said (event_of h p)).
Proof. intros l. exists (event_of h p). split; [apply tsend_logged|]. split; [done|]. apply (tsend_keeps h p l). Qed.

(** A message, then a quiet wait. *)
Lemma send_then {A} h p (k : M (Logged T) bytes A) :
  keeps quiet k -> traces events (do! _ := tsend h p in k) (said (event_of h p)).
Proof.
  intros Hk. apply (traces_bind _ _ _ (said (event_of h p))); [apply send_traces| | |].
  - by intros e evs [-> _].
  - by intros evs [_ ?].
  - intros u evs [-> _]. eapply traces_weaken; [by apply quiet_traces|]. intros evs r [-> ?]. by rewrite app_nil_r.
Qed.

Lemma open_service_traces dest id : traces events (open_service (T := Logged T) dest id) (said [EOpen dest]).
Proof. apply send_then. intros l. apply open_wait_quiet. lia. Qed.

(** Local files are not part of the conversation; they do not panic. *)
Definition files_total : Prop :=
  forall d, (forall p, (ap_len p d).2 <> Panic) /\ (forall p, (ap_open p d).2 <> Panic) /\ (forall p, (ap_is_file p d).2 <> Panic).

Lemma local_traces {A} (m : M F io_error A) : (forall d, (m d).2 <> Panic) -> tr (local_file m) (said []).
Proof.
  intros Hm s. exists []. unfold local_file. rewrite app_nil_r. pose proof (Hm (disk s)) as Hp.
  destruct (m (disk s)) as [d [a|e|]]; by split.
Qed.

(** Commands whose results do not matter, one for each of a list. *)
Lemma for_each_ignored {A X} (f : A -> M (Logged T) bytes X) (e : A -> ev) l :
  (forall x, traces events (f x) (said [e x])) ->
  tr (for_each (fun x => ignored (over (f x))) l) (fun evs r => r = Ok tt /\ evs = map e l).
Proof.
  intros Hf. induction l as [|x l IH]; cbn [for_each]; [by apply traces_pure|].
  eapply (traces_bind _ _ _ (fun evs r => r = Ok tt /\ evs = [e x])); [|by intros ? ? [? _]|by intros ? [? _]|].
  - unfold ignored. eapply (traces_bind _ _ _ (fun evs r => evs = [e x] /\ exists y, r = Ok y)); [| | |].
    { apply (traces_attempt _ _ _ _ (over_traces _ _ (Hf x))); [by intros ? [_ ?]|..]; intros ? ? [-> _]; (split; [done|by eexists]). }
    { by intros ? ? [_ [y Hy]]. } { by intros ? [_ [y Hy]]. }
    intros y evs [-> _]. apply traces_pure. by rewrite app_nil_r.
  - intros [] evs [_ ->]. eapply traces_weaken; [apply IH|]. by intros evs r [-> ->].
Qed.

End Sent.

(** ** Pushed files are removed again *)
Section Removed.
Context {T : Type} `{TransportEnds T} {F : Type} `{ApkFiles F}.
Abbreviation Ses := (Session (Logged T) F).
Abbreviation tr := (traces (slog (T := T) (F := F))).

(** The conversation goes on, whatever is said. *)
Definition grows (s s' : Ses) : Prop := exists evs, slog s' = slog s ++ evs.
#[local] Instance grows_preorder : PreOrder grows.
Proof.
  split; [intros s; exists []; by rewrite app_nil_r|].
  intros a b c [x Hx] [y Hy]. exists (x ++ y). by rewrite Hy, Hx, app_assoc.
Qed.

Lemma traces_grows {A} (m : M Ses bytes A) P : tr m P -> (forall evs, ~ P evs Panic) -> keeps grows m.
Proof.
  intros Hm Hp s. destruct (Hm s) as (evs & He & HP). split; [by exists evs|]. intros E. rewrite E in HP. by apply (Hp evs).
Qed.
Lemma grows_traces {A} (m : M Ses bytes A) : keeps grows m -> tr m (fun _ r => r <> Panic).
Proof. intros Hm s. destruct (Hm s) as [[evs He] Hp]. by exists evs. Qed.

Lemma over_grows {A} (m : M (Logged T) bytes A) evs : traces events m (said evs) -> keeps grows (over m).
Proof. intros Hm. apply (traces_grows _ (said evs)); [by apply over_traces|by intros ? [_ ?]]. Qed.
Lemma quiet_grows {A} (m : M (Logged T) bytes A) : keeps quiet m -> keeps grows (over m).
Proof. intros Hm. by eapply over_grows, quiet_traces. Qed.
Lemma local_grows {A} (m : M F io_error A) : (forall d, (m d).2 <> Panic) -> keeps grows (local_file m).
Proof. intros Hm. apply (traces_grows _ (said [])); [by apply local_traces|by intros ? [_ ?]]. Qed.

Lemma send_wrte_grows a b p : keeps grows (over (send_wrte a b p)).
Proof. eapply over_grows, send_then. intros l. apply wrte_wait_quiet. lia. Qed.
Lemma lift_grows {A} (r : res bytes A) : r <> Panic -> keeps grows (lift r).
Proof. intros Hr. apply keeps_lift; [apply _|done]. Qed.

Lemma sync_done_total m : build_sync_done m [] <> Panic.
Proof. done. Qed.

Lemma push_reads_grows a b reads : forall n, keeps grows (push_reads a b reads n).
Proof.
  induction reads as [|[e|[|c0 c]] reads IH]; intros n; cbn [push_reads].
  1,3: by apply keeps_ret, _. { by apply keeps_fail, _. }
  apply keeps_bind; [apply _|apply lift_grows, map_err_total, data_chunk_total|]. intros buf.
  apply keeps_bind; [apply _|apply send_wrte_grows|]. intros u. apply IH.
Qed.

Lemma push_apk_grows apk dir : files_total (F := F) -> keeps grows (push_apk (T := Logged T) apk dir).
Proof.
  intros Hf. unfold push_apk, apk_name. apply keeps_bind; [apply _|apply lift_grows; by destruct (file_name apk)|]. intros name.
  apply keeps_bind; [apply _| |intros u; by apply keeps_ret, _]. unfold push_apk_to_path.
  apply keeps_bind; [apply _|apply local_grows; intros d; apply Hf|]. intros size.
  apply keeps_bind; [apply _|apply local_grows; intros d; apply Hf|]. intros reads.
  apply keeps_bind; [apply _|eapply over_grows, open_service_traces|]. intros [a b].
  apply keeps_bind; [apply _|apply lift_grows, map_err_total, send_req_total|]. intros req.
  apply keeps_bind; [apply _|apply send_wrte_grows|]. intros _.
  apply keeps_bind; [apply _|apply push_reads_grows|]. intros sent.
  destruct (negb _); [by apply keeps_fail, _|].
  apply keeps_bind; [apply _|apply lift_grows, map_err_total, sync_done_total|]. intros dn.
  apply keeps_bind; [apply _|apply send_wrte_grows|]. intros _.
  apply keeps_bind; [apply _|apply quiet_grows; intros l; apply recv_sync_quiet; lia|]. intros _.
  apply keeps_bind; [apply _|eapply over_grows, send_traces|]. intros _.
  apply quiet_grows. intros l. apply close_wait_quiet. lia.
Qed.
(** *** Shell commands *)
Definition shell_dest (cmd : bytes) : bytes := B "shell,v2,raw:" ++ cmd.

Lemma shell_traces cmd : traces events (run_shell_command (T := Logged T) cmd) (said [EOpen (shell_dest cmd)]).
Proof.
  unfold run_shell_command. apply (traces_bind _ _ _ _ _ (open_service_traces (shell_dest cmd) 1)).
  { intros e evs [-> _]. by split. } { by intros evs [_ ?]. }
  intros [a b] evs [-> _]. apply (traces_bind _ _ _ (said [])).
  { apply quiet_traces. intros l. apply shell_quiet. lia. }
  { intros e evs [-> _]. by split. } { by intros evs [_ ?]. }
  intros out evs [-> _]. apply (traces_pure _ (Ok _)). by split.
Qed.
Lemma shell_grows cmd : keeps grows (over (run_shell_command (T := Logged T) cmd)).
Proof. eapply over_grows, shell_traces. Qed.

Lemma shell_must_grows cmd err : keeps grows (shell_must_succeed (T := Logged T) cmd err).
Proof.
  apply keeps_bind; [apply _|apply shell_grows|]. intros out. destruct (contains_str _ _); [by apply keeps_ret, _|by apply keeps_fail, _].
Qed.

Lemma staged_grows apks total options : keeps grows (install_staged_multiple (T := Logged T) apks total options).
Proof.
  unfold install_staged_multiple. apply keeps_bind; [apply _|apply shell_grows|]. intros out.
  apply keeps_bind; [apply _|apply lift_grows; by destruct (parse_install_session_id out)|]. intros id. unfold or_abandon.
  apply keeps_bind; [apply _|apply keeps_attempt|intros [e|u]; [|by apply keeps_ret, _]].
  - apply keeps_bind; [apply _|apply keeps_for_each; [apply _|]; intros x; apply shell_must_grows|]. intros u. apply shell_must_grows.
  - apply keeps_bind; [apply _| |intros u; by apply keeps_fail, _].
    apply keeps_bind; [apply _|apply keeps_attempt, shell_grows|]. intros x. by apply keeps_ret, _.
Qed.

(** *** Removing what was pushed *)
Definition removal (path : bytes) : ev := EOpen (shell_dest (rm_command path)).

Lemma cleanup_traces staged :
  tr (cleanup_staged_apks staged) (fun evs r => r = Ok tt /\ evs = map (fun a => removal (remote_path a)) staged).
Proof. apply (for_each_ignored _ (fun a => removal (remote_path a))). intros a. apply shell_traces. Qed.

Definition staged_as (apk : bytes) (st : StagedApk) : Prop :=
  exists name, file_name apk = Some name /\ st.(staged_name) = name /\ st.(remote_path) = STAGING ++ B "/" ++ name.

(** The check of the files says nothing to the device, and names each file once. *)
Lemma validate_traces apks : files_total (F := F) -> forall names total staged,
  NoDup names -> names = map staged_name staged ->
  tr (validate_apks apks names total staged) (fun evs r => evs = [] /\ r <> Panic /\
    forall all n, r = Ok (all, n) -> exists new, all = staged ++ new /\ Forall2 staged_as apks new /\ NoDup (map staged_name all)).
Proof.
  intros Hf. induction apks as [|apk apks IH]; intros names total staged Hn ->; cbn [validate_apks].
  { apply (traces_pure _ (Ok _)). split_and!; [done|done|]. intros all n [= <- <-]. exists []. by rewrite app_nil_r. }
  unfold apk_name. destruct (file_name apk) as [name|] eqn:Hname; cbn [ok_or]; [|by apply (traces_pure _ (Err _))].
  apply (traces_bind _ _ _ (fun evs r => evs = [] /\ r = Ok name)); [by apply (traces_pure _ (Ok name))|by intros ? ? [_ ?]|by intros ? [_ ?]|].
  intros ? evs [-> [= ->]]. repeat (case_match; [by apply (traces_pure _ (Err _))|]).
  apply (traces_bind _ _ _ _ _ (local_traces (ap_len apk) ltac:(intros d; apply Hf))).
  { by intros e evs [-> _]. } { by intros evs [_ ?]. }
  intros size evs [-> _]. case_match; [by apply (traces_pure _ (Err _))|].
  apply (traces_weaken _ _ (fun evs r => evs = [] /\ r <> Panic /\ forall all n, r = Ok (all, n) ->
    exists new, all = (staged ++ [mk_staged (STAGING ++ B "/" ++ name) name size]) ++ new /\ Forall2 staged_as apks new /\ NoDup (map staged_name all))).
  - apply IH; [|by rewrite map_app]. apply list.NoDup_app; split_and!; [done| |apply NoDup_singleton].
    intros x Hx ->%list_elem_of_singleton. case_bool_decide; done.
  - intros es r (-> & Hr & Ha). split_and!; [done|done|]. intros all n E. destruct (Ha all n E) as (new & -> & Hnew & Hnd).
    eexists (_ :: new). split; [by rewrite <- app_assoc|]. split; [constructor; [by exists name|done]|by rewrite <- app_assoc in Hnd |- *].
Qed.

Definition ends_removed (staged : list StagedApk) (evs : list ev) : Prop :=
  exists before, evs = before ++ map (fun a => removal (remote_path a)) staged.

Lemma push_all_traces apks staged : files_total (F := F) ->
  tr (push_all apks staged) (fun evs r => r <> Panic /\ (r <> Ok tt -> ends_removed staged evs)).
Proof.
  intros Hf. induction apks as [|apk apks IH]; cbn [push_all]; [by apply (traces_pure _ (Ok tt))|].
  apply (traces_bind _ _ _ (fun _ r => exists x, r = Ok x)).
  - apply (traces_attempt _ _ _ _ (grows_traces _ (push_apk_grows apk STAGING Hf))); [by intros ? ?|by eexists|by eexists].
  - by intros e evs [x ?].
  - by intros evs [x ?].
  - intros [e|path] evs _.
    + apply (traces_bind _ _ _ _ _ (cleanup_traces staged)); [by intros e' es [? _]|by intros es [? _]|].
      intros u es [_ ->]. apply (traces_pure _ (Err e)). split; [done|]. intros _. exists evs. by rewrite app_nil_r.
    + apply (traces_weaken _ _ _ _ IH). intros es r [Hp He]. split; [done|]. intros Hr. destruct (He Hr) as [b ->].
      exists (evs ++ b). by rewrite app_assoc.
Qed.
Lemma install_multiple_traces apks options banner : files_total (F := F) -> streaming options <> Some true ->
  tr (install_multiple apks options banner) (fun evs r => r <> Panic /\
    ((evs = [] /\ r <> Ok tt) \/
     exists staged, Forall2 staged_as apks staged /\ NoDup (map staged_name staged) /\ ends_removed staged evs)).
Proof.
  intros Hf Hs. unfold install_multiple. destruct apks as [|apk0 apks0] eqn:Ha; [apply (traces_pure _ (Err _)); split; [done|by left]|].
  rewrite <- Ha. apply (traces_bind _ _ _ _ _ (validate_traces apks Hf [] 0 [] (NoDup_nil_2) eq_refl)).
  { intros e evs (-> & _ & _). split; [done|by left]. } { by intros evs (_ & ? & _). }
  intros [staged total] evs (-> & _ & Hv). destruct (Hv staged total eq_refl) as (new & Hnew & Hst & Hnd); cbn [app] in Hnew; subst new.
  rewrite bool_decide_eq_false_2 by done. cbn [app].
  assert (forall evs, ends_removed staged evs -> exists staged, Forall2 staged_as apks staged /\ NoDup (map staged_name staged) /\ ends_removed staged evs)
    as Hend by eauto.
  apply (traces_bind _ _ _ _ _ (push_all_traces apks staged Hf)).
  { intros e evs [_ He]. split; [done|]. right. by apply Hend, He. } { by intros evs [? _]. }
  intros [] pushed _. apply (traces_bind _ _ _ (fun _ r => exists x, r = Ok x)).
  { apply (traces_attempt _ _ _ _ (grows_traces _ (staged_grows staged total options))); [by intros ? ?|by eexists|by eexists]. }
  { by intros e evs [x ?]. } { by intros evs [x ?]. }
  intros result installed _. apply (traces_bind _ _ _ _ _ (cleanup_traces staged)); [by intros e' es [? _]|by intros es [? _]|].
  intros [] removed [_ ->]. assert (ends_removed staged (pushed ++ installed ++ map (fun a => removal (remote_path a)) staged ++ [])) as Hr.
  { exists (pushed ++ installed). by rewrite app_nil_r, app_assoc. }
  destruct result; apply traces_pure; (split; [done|right; by apply Hend]).
Qed.
End Removed.

(** C14: split packages that are installed by pushing leave nothing behind, over any transport and any local
    files. The operation never panics; when the check of the files fails nothing is said to the device, and
    otherwise, whether a push fails, the installation fails or all goes well, the last thing it says is to remove
    every file it staged, each under its own name in the staging directory and no two under the same. *)
Theorem staged_files_removed {T : Type} `{TransportEnds T} {F : Type} `{ApkFiles F} apks options banner
    (s : Session (Logged T) F) :
  files_total (F := F) -> streaming options <> Some true ->
  let '(s', r) := install_multiple apks options banner s in
  r <> Panic /\ exists evs, events (net s') = events (net s) ++ evs /\
    ((evs = [] /\ r <> Ok tt) \/
     exists names before,
       Forall2 (fun apk name => file_name apk = Some name) apks names /\ NoDup names /\
       evs = before ++ map (fun name => EOpen (B "shell,v2,raw:" ++ rm_command (STAGING ++ B "/" ++ name))) names).
Proof.
  intros Hf Hs. destruct (install_multiple_traces apks options banner Hf Hs s) as (evs & He & Hp & HP).
  destruct (install_multiple apks options banner s) as [s' r]. split; [done|]. exists evs. split; [done|].
  destruct HP as [?|(staged & Hst & Hnd & before & ->)]; [by left|right].
  exists (map staged_name staged), before. split_and!; [|done|].
  - apply Forall2_fmap_r. eapply Forall2_impl; [|exact Hst]. by intros x y (name & Hx & <- & _).
  - f_equal. rewrite map_map. clear -Hst. induction Hst as [|x y l k (name & _ & <- & Hy) _ IH]; [done|]. cbn [map].
    rewrite IH. unfold removal, shell_dest. by rewrite Hy.
Qed.

(** ** A device that answers *)
Module InstallSample.
#[export] Instance disk : ApkFiles (gmap bytes bytes) := {|
  ap_len p d := (d, match d !! p with Some c => Ok (zlen c) | None => Err (mk_io Net.Other (B "no such file")) end);
  ap_is_file p d := (d, Ok (bool_decide (is_Some (d !! p))));
  ap_open p d := (d, match d !! p with Some c => Ok [inr c] | None => Err (mk_io Net.Other (B "no such file")) end) |}.

Lemma disk_total : files_total (F := gmap bytes bytes).
Proof. intros d. split_and!; intros p; cbn; by destruct (d !! p). Qed.

(** The messages of the device, on a stream. *)
Definition msg (cmd a0 a1 : Z) (p : bytes) : bytes := Header.encode (Header.new cmd a0 a1 p) (zrep 24 x00) ++ p.
Definition answer (out : bytes) : bytes := msg A_OKAY 7 1 [] ++ msg A_WRTE 7 1 out ++ msg A_CLSE 7 1 [].
Definition takes (out : bytes) : bytes := msg A_OKAY 7 1 [] ++ answer out.
Definition start (script : bytes) : Session (Logged Conn) (gmap bytes bytes) :=
  mk_session (mk_logged (mk_conn [inl script] [] None) []) {[ B "a.apk" := B "AAA"; B "b.apk" := B "BB" ]}.
Definition options : InstallOptions := mk_install true false false false false false false false false None.
(** A device that takes two files and installs them as one package. *)
Definition takes_file : bytes :=
  concat (repeat (msg A_OKAY 7 1 []) 4) ++ msg A_WRTE 7 1 (B "OKAY" ++ zrep 4 x00) ++ msg A_CLSE 7 1 [].
Definition installing : bytes :=
  takes_file ++ takes_file ++ answer (B "Success: created [10]") ++ answer (B "Success") ++ answer (B "Success")
  ++ answer (B "Success") ++ answer [] ++ answer [].
Definition run_push := install_multiple [B "a.apk"; B "b.apk"] options (B "device::") (start installing).
End InstallSample.

Lemma staged_files_removed_witness :
  InstallSample.run_push.2 = Ok tt /\
  exists names before, Forall2 (fun apk name => file_name apk = Some name) [B "a.apk"; B "b.apk"] names /\ NoDup names /\
    events (net InstallSample.run_push.1) =
    before ++ map (fun name => EOpen (B "shell,v2,raw:" ++ rm_command (STAGING ++ B "/" ++ name))) names.
Proof.
  assert (InstallSample.run_push.2 = Ok tt) as Hr by (vm_compute; reflexivity). split; [exact Hr|].
  assert (streaming InstallSample.options <> Some true) as Hs by discriminate.
  pose proof (staged_files_removed [B "a.apk"; B "b.apk"] InstallSample.options (B "device::")
    (InstallSample.start InstallSample.installing) InstallSample.disk_total Hs) as H.
  fold InstallSample.run_push in H. destruct InstallSample.run_push as [s' r]. cbn [fst snd] in *.
  destruct H as [_ (evs & He & [[_ Hn]|(names & before & H1 & H2 & ->)])]; [contradiction|].
  exists names, before. split; [exact H1|]. split; [exact H2|exact He].
Defined.

(** The conversation of that run, between the files' data and the end. *)
Example staged_install_conversation :
  omap (fun e => match e with EOpen d => Some d | _ => None end) (events (net InstallSample.run_push.1)) =
  [B "sync:"; B "sync:"] ++ map (fun c => B "shell,v2,raw:" ++ c)
    [B "pm install-create -S 5 -r"; B "pm install-write -S 3 10 'a.apk' - < '/data/local/tmp/a.apk'";
     B "pm install-write -S 2 10 'b.apk' - < '/data/local/tmp/b.apk'"; B "pm install-commit 10";
     B "rm '/data/local/tmp/a.apk' </dev/null"; B "rm '/data/local/tmp/b.apk' </dev/null"].
Proof. vm_compute. reflexivity. Qed.

(** A device that answers in the packets of the shell protocol that was asked for: the headers stay in the text,
    so the first package of each packet is not recognised. *)
Definition shell_packet (id : byte) (p : bytes) : bytes := [id] ++ le_bytes 4 (zlen p) ++ p.
Example listed_packages_lost :
  (list_packages (T := Conn) None (mk_conn [inl (InstallSample.answer
    (shell_packet x01 (B "package:/a.apk=a" ++ [x0a] ++ B "package:/b.apk=b" ++ [x0a]) ++ shell_packet x03 [x00]))] [] None)).2
  = Ok [B "/b.apk=b"].
Proof. vm_compute. reflexivity. Qed.
