(* ===== verification/InstallMulti.v ===== *)
(** * Installing several packages is a transaction

    [install_multi_package] of [client/adb_install.rs], judged by the whole conversation with the device: a taped
    transport records what is sent and what is heard, in order, so that the answer of a command can be read off
    the tape without the code, and a step that was refused is told apart from one that was taken. *)
From S2P Require Import Prelude Text AdbHeader Features SyncWire Net AdbTransport Effects SyncClient SyncClientEnds Install InstallSpec.

(** ** Taped transports *)
Inductive turn := Sent (e : ev) | Heard (cmd : Z) (payload : bytes).

Record Taped (T : Type) := mk_taped { inside : T; tape : list turn }.
Arguments mk_taped {T}. Arguments inside {T}. Arguments tape {T}.

#[export] Instance taped_transport {T} `{Transport T} : Transport (Taped T) := {|
  t_send h p l := let '(t, r) := t_send h p (inside l) in (mk_taped t (tape l ++ map Sent (event_of h p)), r);
  t_recv l := let '(t, r) := t_recv (inside l) in
    (mk_taped t (tape l ++ match r with Ok (h, p) => [Heard (command h) p] | _ => [] end), r);
  t_clone l := t_clone (inside l) |}.

#[export] Instance taped_ends {T} `{TransportEnds T} : TransportEnds (Taped T).
Proof.
  unshelve econstructor; [exact (fun l => t_left (inside l))| |].
  - intros l. cbn. pose proof (recv_left (inside l)) as Hr. by destruct (t_recv (inside l)) as [t [[h p]|e|]].
  - intros h p l. cbn. pose proof (send_left h p (inside l)) as Hs. by destruct (t_send h p (inside l)) as [t [u|e|]].
Defined.

(** ** What a piece of tape says

    The services that are opened and the data that is sent; the data that is heard; and the answer of a service:
    the data that is heard once the device has accepted it. *)
Fixpoint sent (seg : list turn) : list ev :=
  match seg with [] => [] | Sent e :: seg => e :: sent seg | Heard _ _ :: seg => sent seg end.
Fixpoint told (seg : list turn) : bytes :=
  match seg with
  | [] => []
  | Sent _ :: seg => told seg
  | Heard cmd p :: seg => (if cmd =? A_WRTE then p else []) ++ told seg
  end.
Fixpoint answer (seg : list turn) : bytes :=
  match seg with
  | [] => []
  | Heard cmd _ :: seg => if cmd =? A_OKAY then told seg else answer seg
  | Sent _ :: seg => answer seg
  end.

Lemma sent_app a b : sent (a ++ b) = sent a ++ sent b.
Proof. induction a as [|[e|c p] a IH]; cbn [app sent]; [done|by rewrite IH|done]. Qed.
Lemma told_app a b : told (a ++ b) = told a ++ told b.
Proof. induction a as [|[e|c p] a IH]; cbn [app told]; [done|done|by rewrite IH, app_assoc]. Qed.
Lemma sent_only es : sent (map Sent es) = es.
Proof. induction es as [|e es IH]; cbn; [done|by rewrite IH]. Qed.
Lemma told_only es : told (map Sent es) = [].
Proof. by induction es as [|e es IH]. Qed.

(** The text of the answer, as the client reads it. *)
Definition output (seg : list turn) : bytes := from_utf8_lossy (answer seg).

(** A line of it begins with [Success]; it names a session between the last brackets. *)
Definition says_success (out : bytes) : Prop := exists rest, (B "Success" ++ rest) ∈ lines out.
Definition names_session (out id : bytes) : Prop :=
  (exists u v, out = u ++ B "Success" ++ v) /\ id <> [] /\ Forall (fun c => in_rng 48 57 c = true) id /\
  exists u v, out = u ++ "["%byte :: id ++ "]"%byte :: v /\ "["%byte ∉ v.

Lemma success_says out : success out = true -> says_success out.
Proof.
  unfold success. rewrite existsb_exists. intros (l & Hl & Hs). apply starts_with_inv in Hs as [rest ->].
  exists rest. by apply list_elem_of_In.
Qed.

Lemma contains_str_inv p s : contains_str p s = true -> exists u v, s = u ++ p ++ v.
Proof.
  induction s as [|b s IH]; cbn [contains_str]; rewrite orb_true_iff.
  - intros [[t Ht]%starts_with_inv|]; [by exists [], t|done].
  - intros [[t Ht]%starts_with_inv|(u & v & ->)%IH]; [by exists [], t|by exists (b :: u), v].
Qed.

Lemma rsplit_once_last c s p q : rsplit_once c s = Some (p, q) -> s = p ++ c :: q /\ c ∉ q.
Proof.
  intros Hr. split; [by apply rsplit_once_inv|]. revert Hr. unfold rsplit_once.
  destruct (split_once _ _) as [[a b]|] eqn:E; [|done]. intros [= <- <-]. apply split_once_inv in E as [_ E].
  by rewrite elem_of_reverse.
Qed.

Lemma parsed_session out id : parse_install_session_id out = Some id -> names_session out id.
Proof.
  unfold parse_install_session_id. destruct (contains_str _ _) eqn:Hc; [|done]. apply contains_str_inv in Hc. cbn [negb].
  destruct (rsplit_once _ _) as [[u rest]|] eqn:Hr; [|done]. apply rsplit_once_last in Hr as [-> Hn].
  destruct (split_once _ _) as [[id' v]|] eqn:Hs; [|done]. apply split_once_inv in Hs as [-> _].
  destruct (Z.eqb_spec (zlen id') 0) as [|Hz]; [done|]. destruct (forallb _ _) eqn:Hd; [|done]. intros [= <-].
  split; [done|]. split; [intros ->; by apply Hz|]. split.
  - apply Forall_forall. intros x Hx. rewrite forallb_forall in Hd. by apply Hd.
  - exists u, v. split; [done|]. intros Hv. apply Hn. apply elem_of_app. right. by constructor.
Qed.

(** ** The traces of the commands *)
Section Tape.
Context {T : Type} `{TransportEnds T}.
Implicit Types l : Taped T.

Definition traces_at {A} (m : M (Taped T) bytes A) l (P : list turn -> res bytes A -> Prop) : Prop :=
  exists seg, tape (m l).1 = tape l ++ seg /\ P seg (m l).2.

(** A loop over messages: one is heard, and the rest is a trace on its own. *)
Lemma heard_then {A} (k : AdbMessageHeader * bytes -> M (Taped T) bytes A) l fuel P :
  (t_left l < S fuel)%nat -> (forall e, P [] (Err e)) ->
  (forall h p l1, (t_left l1 < fuel)%nat -> traces_at (k (h, p)) l1 (fun seg r => P (Heard (command h) p :: seg) r)) ->
  traces_at (bind trecv k) l P.
Proof.
  intros Hf He Hk. unfold traces_at, bind. pose proof (trecv_less l) as Hl. pose proof (trecv_keeps l) as [_ Hp].
  unfold trecv, on_err in *. cbn in *. destruct (t_recv (inside l)) as [t [[h p]|e|]]; cbn in *; [|by exists []|done].
  specialize (Hl _ _ _ eq_refl). destruct (Hk h p (mk_taped t (tape l ++ [Heard (command h) p])) ltac:(lia)) as (seg & Hs & HP).
  exists (Heard (command h) p :: seg). rewrite Hs. cbn [tape]. by rewrite <- app_assoc.
Qed.

Lemma ack_traces {A} h (k : M (Taped T) bytes A) l fuel P :
  event_of h [] = [] -> (t_left l < fuel)%nat -> (forall e, P [] (Err e)) ->
  (forall l1, (t_left l1 < fuel)%nat -> traces_at k l1 P) -> traces_at (do! _ := tsend h [] in k) l P.
Proof.
  intros Hh Hf He Hk. unfold traces_at, bind. pose proof (tsend_keeps h [] l) as [Hs Hp]. unfold shrinks in Hs.
  unfold tsend, on_err in *. cbn in *. rewrite Hh in *. cbn [map] in *. destruct (t_send h [] (inside l)) as [t [u|e|]]; cbn in *.
  - destruct (Hk (mk_taped t (tape l ++ [])) ltac:(cbn; lia)) as (seg & E & HP). exists seg. split; [|done].
    etransitivity; [exact E|]. cbn [tape]. by rewrite app_nil_r.
  - by exists [].
  - done.
Qed.

Lemma pure_at {A} (r : res bytes A) l (P : list turn -> res bytes A -> Prop) : P [] r -> traces_at (lift r) l P.
Proof. intros HP. exists []. by rewrite app_nil_r. Qed.
Lemma weaken_at {A} (m : M (Taped T) bytes A) l (P Q : list turn -> res bytes A -> Prop) :
  traces_at m l P -> (forall seg r, P seg r -> Q seg r) -> traces_at m l Q.
Proof. intros (seg & Hs & HP) Hpq. exists seg. auto. Qed.

(** Nothing but acknowledgements is sent; when it returns, [Q] relates what was heard and the result. *)
Definition listens {A} (Q : list turn -> A -> Prop) (seg : list turn) (r : res bytes A) : Prop :=
  r <> Panic /\ sent seg = [] /\ forall a, r = Ok a -> Q seg a.

Lemma listens_err {A} (Q : list turn -> A -> Prop) seg e : sent seg = [] -> listens Q seg (Err e).
Proof. intros Hs. by split_and!. Qed.
Lemma listens_ok {A} (Q : list turn -> A -> Prop) seg a : sent seg = [] -> Q seg a -> listens Q seg (Ok a).
Proof. intros Hs HQ. split_and!; [done|done|]. by intros ? [= <-]. Qed.
Lemma listens_heard {A} (Q Q' : list turn -> A -> Prop) c p seg r :
  listens Q seg r -> (forall a, Q seg a -> Q' (Heard c p :: seg) a) -> listens Q' (Heard c p :: seg) r.
Proof. intros (Hp & Hs & HQ) Hi. split_and!; [done|done|]. intros a ->. by apply Hi, HQ. Qed.

(** Accepted: from here on the answer is what is told. *)
Definition accepted (seg : list turn) : Prop := forall rest, answer (seg ++ rest) = told rest.

Lemma open_wait_tape fuel dest id : forall l, (t_left l < fuel)%nat ->
  traces_at (open_wait fuel dest id) l (listens (fun seg _ => accepted seg)).
Proof.
  induction fuel as [|fuel IH]; intros l Hf; [lia|]. cbn [open_wait].
  apply (heard_then _ _ fuel _ Hf); [intros e; by apply listens_err|]. intros h p l1 H1.
  destruct (Z.eqb_spec (command h) A_OKAY) as [Ho|Ho].
  { apply (pure_at (Ok _)). apply listens_ok; [done|]. intros rest. cbn [app answer]. by rewrite Ho. }
  destruct (_ =? _). { apply (pure_at (Err _)). by apply listens_err. }
  eapply weaken_at; [by apply IH|]. intros seg r Hr. eapply listens_heard; [exact Hr|]. intros a Ha rest.
  cbn [app answer]. rewrite (proj2 (Z.eqb_neq _ _) Ho). apply Ha.
Qed.

Lemma write_wait_tape fuel a b : forall pending l, (t_left l < fuel)%nat ->
  traces_at (write_exec_wait fuel a b pending) l (listens (fun seg out => concat out = concat pending ++ told seg)).
Proof.
  induction fuel as [|fuel IH]; intros pending l Hf; [lia|]. cbn [write_exec_wait].
  apply (heard_then _ _ fuel _ Hf); [intros e; by apply listens_err|]. intros h p l1 H1.
  destruct (Z.eqb_spec (command h) A_OKAY) as [Ho|Ho].
  { destruct (ids_match _ _ _); [apply (pure_at (Ok _)), listens_ok; [done|]|by apply (pure_at (Err _)), listens_err].
    cbn [told]. rewrite Ho. by rewrite !app_nil_r. }
  destruct (Z.eqb_spec (command h) A_WRTE) as [Hw|Hw].
  { destruct (negb _); [by apply (pure_at (Err _)), listens_err|].
    apply (ack_traces _ _ _ fuel); [done|done|intros e; by apply listens_err|]. intros l2 H2.
    eapply weaken_at; [by apply (IH (pending ++ [p]))|]. intros seg r Hr. eapply listens_heard; [exact Hr|]. intros out Hout.
    rewrite Hout. cbn [told]. rewrite Hw, Z.eqb_refl, concat_app. cbn [concat]. by rewrite app_nil_r, app_assoc. }
  destruct (_ =? _); [|by apply (pure_at (Err _)), listens_err].
  unfold tsend_ignored, traces_at, bind, attempt. pose proof (tsend_keeps (Header.new A_CLSE a b []) [] l1) as [_ Hp].
  unfold tsend, on_err in *. cbn in *. exists [].
  destruct (t_send _ _ _) as [t [u|e|]]; cbn in *; [by split|by split|done].
Qed.

Lemma read_go_tape fuel a b : forall out l, (t_left l < fuel)%nat ->
  traces_at (read_exec_go fuel a b out) l (listens (fun seg out' => out' = out ++ told seg)).
Proof.
  induction fuel as [|fuel IH]; intros out l Hf; [lia|]. cbn [read_exec_go].
  apply (heard_then _ _ fuel _ Hf); [intros e; by apply listens_err|]. intros h p l1 H1.
  destruct (Z.eqb_spec (command h) A_OKAY) as [Ho|Ho].
  { eapply weaken_at; [by apply IH|]. intros seg r Hr. eapply listens_heard; [exact Hr|]. intros o ->. cbn [told]. by rewrite Ho. }
  destruct (Z.eqb_spec (command h) A_WRTE) as [Hw|Hw].
  { destruct (negb _); [by apply (pure_at (Err _)), listens_err|].
    apply (ack_traces _ _ _ fuel); [done|done|intros e; by apply listens_err|]. intros l2 H2.
    eapply weaken_at; [by apply (IH (out ++ p))|]. intros seg r Hr. eapply listens_heard; [exact Hr|]. intros o ->.
    cbn [told]. by rewrite Hw, Z.eqb_refl, app_assoc. }
  destruct (Z.eqb_spec (command h) A_CLSE) as [Hc|Hc]; [|by apply (pure_at (Err _)), listens_err].
  destruct (negb _); [by apply (pure_at (Err _)), listens_err|].
  apply (ack_traces _ _ _ fuel); [done|done|intros e; by apply listens_err|]. intros l2 _.
  apply (pure_at (Ok _)), listens_ok; [done|]. cbn [told]. rewrite Hc. cbn. by rewrite app_nil_r.
Qed.
End Tape.

(** ** Commands of a session *)
Section Commands.
Context {T : Type} `{TransportEnds T} {F : Type} `{ApkFiles F}.
Abbreviation Ses := (Session (Taped T) F).
Definition stape (s : Ses) : list turn := tape (net s).
Abbreviation tr := (traces stape).

Lemma over_tape {A} (m : M (Taped T) bytes A) P : traces tape m P -> tr (over m) P.
Proof. intros Hm s. destruct (Hm (net s)) as (seg & Hs & HP). exists seg. unfold over. by destruct (m (net s)). Qed.

Lemma local_tape {A} (m : M F io_error A) (Q : A -> Prop) :
  (forall d, (m d).2 <> Panic) -> (forall d a, (m d).2 = Ok a -> Q a) ->
  tr (local_file m) (fun seg r => seg = [] /\ r <> Panic /\ forall a, r = Ok a -> Q a).
Proof.
  intros Hm HQ s. exists []. unfold local_file. rewrite app_nil_r. pose proof (Hm (disk s)) as Hp. pose proof (HQ (disk s)) as Ha.
  destruct (m (disk s)) as [d [a|e|]]; cbn in *; [|done|done]. split_and!; [done|done|done|]. intros ? [= <-]. by apply Ha.
Qed.

(** A message is sent, and then the device is listened to. *)
Lemma send_listen {A} h p (k : M (Taped T) bytes A) Q :
  (forall l, traces_at k l (listens Q)) ->
  traces tape (do! _ := tsend h p in k) (fun seg r => r <> Panic /\ sent seg = event_of h p /\
    forall a, r = Ok a -> exists seg', seg = map Sent (event_of h p) ++ seg' /\ Q seg' a).
Proof.
  intros Hk l. unfold bind. pose proof (tsend_keeps h p l) as [_ Hp]. unfold tsend, on_err in *. cbn in *.
  destruct (t_send h p (inside l)) as [t [u|e|]]; cbn in *; [| |done].
  - destruct (Hk (mk_taped t (tape l ++ map Sent (event_of h p)))) as (seg & Hs & Hr & Hn & HQ).
    exists (map Sent (event_of h p) ++ seg). rewrite Hs. cbn [tape]. rewrite app_assoc. split_and!; [done|done| |].
    + by rewrite sent_app, sent_only, Hn, app_nil_r.
    + intros a Ha. exists seg. auto.
  - exists (map Sent (event_of h p)). split_and!; [done|done|apply sent_only|done].
Qed.

Lemma open_tape dest : traces tape (open_service (T := Taped T) dest 1) (fun seg r => r <> Panic /\ sent seg = [EOpen dest] /\
  forall a, r = Ok a -> accepted seg).
Proof.
  eapply traces_weaken; [apply (send_listen (Header.new A_OPEN 1 0 dest) dest _ (fun seg _ => accepted seg))|].
  - intros l. apply open_wait_tape. lia.
  - intros seg r (Hr & Hs & HQ). split_and!; [done|done|]. intros a Ha. destruct (HQ a Ha) as (seg' & -> & Hacc). exact Hacc.
Qed.

Lemma write_tape a b p pending : traces tape (write_exec_payload (T := Taped T) a b p pending) (fun seg r => r <> Panic /\
  sent seg = [EData p] /\ forall out, r = Ok out -> concat out = concat pending ++ told seg).
Proof.
  eapply traces_weaken; [apply (send_listen (Header.new A_WRTE a b p) p _ (fun seg out => concat out = concat pending ++ told seg))|].
  - intros l. apply write_wait_tape. lia.
  - intros seg r (Hr & Hs & HQ). split_and!; [done|done|]. intros out Ho. by destruct (HQ out Ho) as (seg' & -> & Hacc).
Qed.

Lemma read_tape a b pending : traces tape (read_exec_output (T := Taped T) a b pending)
  (listens (fun seg out => out = from_utf8_lossy (concat pending ++ told seg))).
Proof.
  unfold read_exec_output. apply (traces_bind _ _ _ (listens (fun seg out => out = concat pending ++ told seg))).
  - intros l. apply read_go_tape. lia.
  - intros e seg (_ & Hs & _). by apply listens_err.
  - by intros seg [? _].
  - intros out seg (_ & Hs & Ho). apply (traces_pure _ (Ok _)). rewrite app_nil_r. apply listens_ok; [done|]. by rewrite (Ho out).
Qed.

(** A command: it is sent once, and what it returns is what the device answered. *)
Definition asked (dest : bytes) (seg : list turn) : Prop := sent seg = [EOpen dest].

Lemma run_tape ct args : tr (over (run_install_command (T := Taped T) ct args)) (fun seg r => r <> Panic /\
  asked (service_string ct args) seg /\ forall out, r = Ok out -> out = output seg).
Proof.
  apply over_tape. apply (traces_bind _ _ _ _ _ (open_tape _)).
  - by intros e seg (_ & Hs & _).
  - by intros seg [? _].
  - intros [a b] seg (_ & Hs & Hacc). eapply traces_weaken; [apply read_tape|]. intros seg2 r (Hr & Hn & Ho). unfold asked.
    rewrite sent_app, Hs, Hn. split_and!; [done|done|]. intros out E. rewrite (Ho out E). unfold output. by rewrite (Hacc _ eq_refl).
Qed.

Lemma create_tape ct args err : tr (create_session ct args err) (fun seg r => r <> Panic /\
  asked (service_string ct args) seg /\ forall id, r = Ok id -> names_session (output seg) id).
Proof.
  apply (traces_bind _ _ _ _ _ (run_tape ct args)).
  - by intros e seg (_ & Hs & _).
  - by intros seg [? _].
  - intros out seg (_ & Hs & Ho). rewrite (Ho out eq_refl). apply traces_pure. rewrite app_nil_r.
    destruct (parse_install_session_id (output seg)) as [id|] eqn:E; (split_and!; [done|done|]); [|done].
    intros ? [= <-]. by apply parsed_session.
Qed.

Lemma must_tape ct args err : tr (must_succeed ct args err) (fun seg r => r <> Panic /\
  asked (service_string ct args) seg /\ (r = Ok tt -> says_success (output seg))).
Proof.
  apply (traces_bind _ _ _ _ _ (run_tape ct args)).
  - by intros e seg (_ & Hs & _).
  - by intros seg [? _].
  - intros out seg (_ & Hs & Ho). rewrite (Ho out eq_refl). destruct (success (output seg)) eqn:E.
    + apply traces_pure. rewrite app_nil_r. split_and!; [done|done|]. intros _. by apply success_says.
    + apply (traces_pure _ (Err _)). by rewrite app_nil_r.
Qed.

Lemma abandon_tape ct ids : tr (for_each (abandon_session ct) ids) (fun seg r => r = Ok tt /\
  sent seg = map (fun id => EOpen (service_string ct [B "install-abandon"; id])) ids).
Proof.
  induction ids as [|id ids IH]; cbn [for_each map]; [by apply traces_pure|].
  apply (traces_bind _ _ _ (fun seg r => r = Ok tt /\ asked (service_string ct [B "install-abandon"; id]) seg)); [|by intros ? ? [? _]|by intros ? [? _]|].
  - unfold abandon_session, ignored.
    apply (traces_bind _ _ _ (fun seg r => asked (service_string ct [B "install-abandon"; id]) seg /\ exists y, r = Ok y)).
    { apply (traces_attempt _ _ _ _ (run_tape ct [B "install-abandon"; id])); [by intros ? [? _]|..]; intros ? ? (_ & Hs & _); eauto. }
    { by intros ? ? [_ [y Hy]]. } { by intros ? [_ [y Hy]]. }
    intros y seg [Hs _]. apply traces_pure. by rewrite app_nil_r.
  - intros [] seg [_ Hs]. eapply traces_weaken; [apply IH|]. intros seg2 r [-> Hn]. split; [done|]. by rewrite sent_app, Hs, Hn.
Qed.
End Commands.

(** ** Files that stay as they are

    The reads of an open file give its contents piece by piece; a read may fail. *)
Fixpoint reads_from (data : bytes) (reads : list (io_error + bytes)) : Prop :=
  match reads with
  | [] | inr [] :: _ => data = []
  | inl _ :: _ => True
  | inr chunk :: reads => exists rest, data = chunk ++ rest /\ reads_from rest reads
  end.

Definition files_hold {F} `{ApkFiles F} (contents : bytes -> bytes) : Prop :=
  forall p d reads, (ap_open p d).2 = Ok reads -> reads_from (contents p) reads.

(** ** The transaction

    What the conversation must be, in terms of the tape alone. *)
Section Transaction.
Variables (contents : bytes -> bytes) (ct : CommandTransport).

(** A file is written: opened, sent whole, and taken by the device. *)
Definition write_dest (id : bytes) (apk : MultiPackageApk) : bytes := service_string ct (write_args (multi_size apk) id (split_name apk)).
Definition wrote (id : bytes) (apk : MultiPackageApk) (seg : list turn) : Prop :=
  zlen (contents (local_path apk)) = multi_size apk /\ says_success (output seg) /\
  exists cs, sent seg = EOpen (write_dest id apk) :: map EData cs /\ concat cs = contents (local_path apk).
(** Nothing, or a part of it, is sent. *)
Definition part_written (id : bytes) (apk : MultiPackageApk) (seg : list turn) : Prop :=
  sent seg = [] \/
  exists cs rest, sent seg = EOpen (write_dest id apk) :: map EData cs /\ contents (local_path apk) = concat cs ++ rest.

(** All files of a package; some of them and perhaps a part of the next. *)
Inductive writes (id : bytes) : list MultiPackageApk -> list turn -> Prop :=
| writes_nil : writes id [] []
| writes_cons apk apks e es : wrote id apk e -> writes id apks es -> writes id (apk :: apks) (e ++ es).
Definition writes_cut (id : bytes) (package : list MultiPackageApk) (seg : list turn) : Prop :=
  exists before apk after e e', package = before ++ apk :: after /\ writes id before e /\ part_written id apk e' /\ seg = e ++ e'.

(** The sessions [ids] of the first packages are the ones the device named, each with what was written to it;
    [true] when all packages are complete. *)
Variables (options : InstallOptions) (apex_found : bool).
Definition create_dest (package : list MultiPackageApk) : bytes := service_string ct (child_args options apex_found package).
Inductive progress : list (list MultiPackageApk) -> list bytes -> bool -> list turn -> Prop :=
| pr_done : progress [] [] true []
| pr_next p ps id ids ok c e es : asked (create_dest p) c -> names_session (output c) id -> writes id p e ->
    progress ps ids ok es -> progress (p :: ps) (id :: ids) ok (c ++ e ++ es)
| pr_no_session p ps c : asked (create_dest p) c -> progress (p :: ps) [] false c
| pr_cut p ps id c e : asked (create_dest p) c -> names_session (output c) id -> writes_cut id p e ->
    progress (p :: ps) [id] false (c ++ e).

(** The end: the children are added, and once that succeeded the parent is committed. *)
Variable (timeout : option bytes).
Definition add_dest (parent : bytes) (ids : list bytes) : bytes := service_string ct ([B "install-add-session"; parent] ++ ids).
Definition commit_dest (parent : bytes) : bytes := service_string ct ([B "install-commit"]
  ++ (match timeout with Some t => [B "--staged-ready-timeout"; t] | None => [] end) ++ [parent]).
Definition abandon_dest (id : bytes) : bytes := service_string ct [B "install-abandon"; id].

Definition finished (parent : bytes) (ids : list bytes) (seg : list turn) : Prop :=
  exists a c, seg = a ++ c /\ asked (add_dest parent ids) a /\ says_success (output a) /\
    asked (commit_dest parent) c /\ says_success (output c).
Definition half_finished (parent : bytes) (ids : list bytes) (seg : list turn) : Prop :=
  asked (add_dest parent ids) seg \/
  exists a c, seg = a ++ c /\ asked (add_dest parent ids) a /\ says_success (output a) /\ asked (commit_dest parent) c.
End Transaction.

Section Runs.
Context {T : Type} `{TransportEnds T} {F : Type} `{ApkFiles F}.
Context (contents : bytes -> bytes) (Htotal : files_total (F := F)) (Hhold : files_hold (F := F) contents).
Abbreviation tr := (traces (stape (T := T) (F := F))).

Lemma stream_tape a b reads : forall data pending n, reads_from data reads ->
  tr (stream_reads a b reads pending n) (fun seg r => r <> Panic /\
    exists cs rest, sent seg = map EData cs /\ data = concat cs ++ rest /\
      forall p m, r = Ok (p, m) -> rest = [] /\ m = n + zlen data /\ concat p = concat pending ++ told seg).
Proof.
  induction reads as [|[e|[|c0 c]] reads IH]; intros data pending n Hd; cbn [stream_reads reads_from] in *.
  1,3: subst data; apply (traces_pure _ (Ok _)); (split; [done|]); exists [], []; (split_and!; [done|done|]);
    intros p m [= <- <-]; rewrite zlen_nil, app_nil_r; (split_and!; [done|lia|done]).
  - apply (traces_pure _ (Err (io_msg e))). split; [done|]. by exists [], data.
  - destruct Hd as (rest & -> & Hd). apply (traces_bind _ _ _ _ _ (over_tape _ _ (write_tape a b (c0 :: c) pending))).
    + intros e seg (_ & Hs & _). split; [done|]. exists [c0 :: c], rest. split_and!; [done|by cbn; rewrite app_nil_r|done].
    + by intros seg [? _].
    + intros pend seg (_ & Hs & Ho). eapply traces_weaken; [by apply (IH rest)|]. intros seg2 r (Hp & cs & rest2 & Hn & -> & Hr).
      split; [done|]. exists ((c0 :: c) :: cs), rest2. rewrite sent_app, Hs, Hn. split_and!; [done|by cbn; rewrite app_assoc|].
      intros p m E. destruct (Hr p m E) as (-> & -> & Hq). split_and!; [done|rewrite !zlen_app; lia|].
      by rewrite Hq, (Ho pend eq_refl), told_app, app_assoc.
Qed.

Lemma reads_tape p : tr (local_file (ap_open p)) (fun seg r => seg = [] /\ r <> Panic /\ forall reads, r = Ok reads -> reads_from (contents p) reads).
Proof. apply local_tape; [intros d; apply Htotal|]. intros d reads. apply Hhold. Qed.

Lemma len_tape p : tr (local_file (ap_len p)) (fun seg r => seg = [] /\ r <> Panic /\ forall n, r = Ok n -> True).
Proof. apply local_tape; [intros d; apply Htotal|done]. Qed.

(** The whole file is sent to the command, and its answer returned. *)
Lemma stream_file_tape ct args local size :
  tr (stream_file_to_install_command ct args local size) (fun seg r => r <> Panic /\
    (sent seg = [] \/ exists cs rest, sent seg = EOpen (service_string ct args) :: map EData cs /\ contents local = concat cs ++ rest) /\
    forall out, r = Ok out -> zlen (contents local) = size /\ out = output seg /\
      exists cs, sent seg = EOpen (service_string ct args) :: map EData cs /\ concat cs = contents local).
Proof.
  unfold stream_file_to_install_command. apply (traces_bind _ _ _ _ _ (len_tape local)).
  { intros e seg (-> & _ & _). split_and!; [done|by left|done]. } { by intros seg (_ & ? & _). }
  intros file_size seg (-> & _ & _). cbn [app]. destruct (Z.eqb_spec file_size size) as [->|]; cbn [negb].
  2: { apply (traces_pure _ (Err _)). split_and!; [done|by left|done]. }
  apply (traces_bind _ _ _ _ _ (reads_tape local)).
  { intros e seg (-> & _ & _). split_and!; [done|by left|done]. } { by intros seg (_ & ? & _). }
  intros reads seg (-> & _ & Hreads). cbn [app]. specialize (Hreads reads eq_refl).
  apply (traces_bind _ _ _ _ _ (over_tape _ _ (open_tape (service_string ct args)))).
  { intros e seg (_ & Hs & _). split_and!; [done| |done]. right. by exists [], (contents local). } { by intros seg [? _]. }
  intros [a b] seg (_ & Hs & Hacc). specialize (Hacc _ eq_refl).
  apply (traces_bind _ _ _ _ _ (stream_tape a b reads (contents local) [] 0 Hreads)).
  { intros e seg2 (_ & cs & rest & Hn & Hc & _). split_and!; [done| |done]. right. exists cs, rest. by rewrite sent_app, Hs, Hn. }
  { by intros seg2 [? _]. }
  intros [pend n] seg2 (_ & cs & rest & Hn & Hc & Hr). destruct (Hr pend n eq_refl) as (-> & -> & Hq). rewrite app_nil_r in Hc.
  assert (sent (seg ++ seg2) = EOpen (service_string ct args) :: map EData cs) as Hsent by by rewrite sent_app, Hs, Hn.
  destruct (Z.eqb_spec (0 + zlen (contents local)) size) as [Hsz|]; cbn [negb].
  2: { apply (traces_pure _ (Err _)). rewrite app_nil_r. split_and!; [done| |done]. right. exists cs, []. by rewrite app_nil_r. }
  eapply traces_weaken; [apply over_tape, read_tape|]. intros seg3 r (Hp & Hs3 & Ho). rewrite app_assoc.
  assert (sent ((seg ++ seg2) ++ seg3) = EOpen (service_string ct args) :: map EData cs) as Hall by by rewrite sent_app, Hsent, Hs3, app_nil_r.
  split_and!; [done|right; exists cs, []; by rewrite app_nil_r|]. intros out E. split_and!; [lia| |by exists cs].
  rewrite (Ho out E), Hq. unfold output. by rewrite <- (app_assoc seg), Hacc, told_app.
Qed.

Lemma write_apk_tape ct id apk :
  tr (write_apk ct id apk) (fun seg r => r <> Panic /\ part_written contents ct id apk seg /\ (r = Ok tt -> wrote contents ct id apk seg)).
Proof.
  unfold write_apk. apply (traces_bind _ _ _ _ _ (stream_file_tape ct (write_args (multi_size apk) id (split_name apk)) (local_path apk) (multi_size apk))).
  - intros e seg (_ & Hp & _). by split_and!.
  - by intros seg [? _].
  - intros out seg (_ & Hp & Ho). destruct (Ho out eq_refl) as (Hz & -> & Hw). destruct (success (output seg)) eqn:E.
    + apply (traces_pure _ (Ok tt)). rewrite app_nil_r. split_and!; [done|done|]. intros _. split_and!; [done|by apply success_says|done].
    + apply (traces_pure _ (Err _)). rewrite app_nil_r. by split_and!.
Qed.

Lemma write_package_tape ct id package :
  tr (for_each (write_apk ct id) package) (fun seg r => r <> Panic /\ (r = Ok tt -> writes contents ct id package seg) /\
    (forall e, r = Err e -> writes_cut contents ct id package seg)).
Proof.
  induction package as [|apk package IH]; cbn [for_each].
  { apply traces_pure. split_and!; [done|constructor|done]. }
  apply (traces_bind _ _ _ _ _ (write_apk_tape ct id apk)).
  - intros e seg (_ & Hp & _). split_and!; [done|done|]. intros e' _. exists [], apk, package, [], seg. split_and!; [done|constructor|done|done].
  - by intros seg [? _].
  - intros [] seg (_ & _ & Hw). specialize (Hw eq_refl). eapply traces_weaken; [apply IH|]. intros seg2 r (Hp & Ho & He). split_and!; [done| |].
    + intros ->. constructor; [done|by apply Ho].
    + intros e Hr. destruct (He e Hr) as (before & x & after & e1 & e2 & -> & Hb & Hx & ->).
      exists (apk :: before), x, after, (seg ++ e1), e2. split_and!; [done|by constructor|done|by rewrite app_assoc].
Qed.

Abbreviation failed error := (match error with Some _ => true | None => false end).

Lemma write_packages_tape ct options apex packages : forall ids0,
  tr (write_packages ct options apex packages ids0)
    (fun seg r => exists ids error, r = Ok (ids0 ++ ids, error) /\ progress contents ct options apex packages ids (negb (failed error)) seg).
Proof.
  induction packages as [|p ps IH]; intros ids0; cbn [write_packages].
  { apply traces_pure. exists [], None. rewrite app_nil_r. split; [done|constructor]. }
  eapply (traces_bind _ _ _ (fun seg r => asked (create_dest ct options apex p) seg /\
    exists x, r = Ok x /\ forall id, x = inr id -> names_session (output seg) id)).
  { apply (traces_attempt _ _ _ _ (create_tape ct (child_args options apex p) (B "Failed to create child session: "))).
    - by intros seg [? _].
    - intros seg a (_ & Hs & Hn). split; [done|]. eexists. split; [done|]. intros id [= <-]. by apply Hn.
    - intros seg e (_ & Hs & _). split; [done|]. eexists. by split. }
  { by intros e seg [_ (x & ? & _)]. } { by intros seg [_ (x & ? & _)]. }
  intros [e|id] c [Hc (x & [= <-] & Hid)].
  { apply traces_pure. exists [], (Some e). rewrite !app_nil_r. split; [done|by constructor]. }
  specialize (Hid id eq_refl).
  eapply (traces_bind _ _ _ (fun seg r => exists x, r = Ok x /\ match x with inl _ => writes_cut contents ct id p seg | inr _ => writes contents ct id p seg end)).
  { apply (traces_attempt _ _ _ _ (write_package_tape ct id p)).
    - by intros seg [? _].
    - intros seg [] (_ & Hw & _). exists (inr tt). split; [done|by apply Hw].
    - intros seg e (_ & _ & Hw). exists (inl e). split; [done|by apply (Hw e)]. }
  { by intros e seg (x & ? & _). } { by intros seg (x & ? & _). }
  intros [e|u] seg (x & [= <-] & Hx).
  { apply traces_pure. exists [id], (Some e). rewrite app_nil_r. split; [done|by constructor]. }
  eapply traces_weaken; [apply (IH (ids0 ++ [id]))|]. intros seg2 r (ids & error & -> & Hp).
  exists (id :: ids), error. rewrite <- app_assoc. split; [done|]. by constructor.
Qed.

Lemma commit_tape ct parent ids timeout :
  tr (commit_sessions ct parent ids timeout) (fun seg r => r <> Panic /\ half_finished ct timeout parent ids seg /\
    (r = Ok tt -> finished ct timeout parent ids seg)).
Proof.
  unfold commit_sessions. apply (traces_bind _ _ _ _ _ (must_tape ct ([B "install-add-session"; parent] ++ ids) (B "install-add-session failed: "))).
  - intros e seg (_ & Hs & _). split_and!; [done|by left|done].
  - by intros seg [? _].
  - intros [] seg (_ & Hs & Ha). specialize (Ha eq_refl). eapply traces_weaken; [apply must_tape|]. intros seg2 r (Hr & Hs2 & Hc).
    split_and!; [done|right; by exists seg, seg2|]. intros E. exists seg, seg2. split_and!; [done|done|done|done|by apply Hc].
Qed.
End Runs.

(** The conversation of an installation that succeeds, and of one that fails. *)
Definition committed (contents : bytes -> bytes) (ct : CommandTransport) (options : InstallOptions) (timeout : option bytes)
    (packages : list (list MultiPackageApk)) (seg : list turn) : Prop :=
  let apex := existsb (existsb is_apex) packages in
  exists parent ids c es tail, seg = c ++ es ++ tail /\
    asked (service_string ct (parent_args options apex)) c /\ names_session (output c) parent /\
    progress contents ct options apex packages ids true es /\ finished ct timeout parent ids tail.

Definition abandoned (contents : bytes -> bytes) (ct : CommandTransport) (options : InstallOptions) (timeout : option bytes)
    (packages : list (list MultiPackageApk)) (seg : list turn) : Prop :=
  let apex := existsb (existsb is_apex) packages in
  sent seg = [] \/ asked (service_string ct (parent_args options apex)) seg \/
  exists parent ids ok c es tail ab, seg = c ++ es ++ tail ++ ab /\
    asked (service_string ct (parent_args options apex)) c /\ names_session (output c) parent /\
    progress contents ct options apex packages ids ok es /\
    (if ok then half_finished ct timeout parent ids tail else tail = []) /\
    sent ab = map (fun id => EOpen (abandon_dest ct id)) (parent :: ids).

Lemma sessions_tape {T : Type} `{TransportEnds T} {F : Type} `{ApkFiles F} contents packages options ct apex_ok timeout :
  files_total (F := F) -> files_hold (F := F) contents ->
  traces (stape (T := T) (F := F)) (install_multi_package_sessions packages options ct apex_ok timeout)
    (fun seg r => match r with
                  | Ok _ => committed contents ct options timeout packages seg
                  | Err _ => abandoned contents ct options timeout packages seg
                  | Panic => False
                  end).
Proof.
  intros Hf Hc. unfold install_multi_package_sessions, committed, abandoned. set (apex := existsb (existsb is_apex) packages).
  destruct (apex && negb apex_ok); [apply (traces_pure _ (Err _)); by left|].
  apply (traces_bind _ _ _ _ _ (create_tape ct (parent_args options apex) (B "Failed to create multi-package parent session: "))).
  { intros e seg (_ & Hs & _). by right; left. } { by intros seg [? _]. }
  intros parent c (_ & Hs & Hn). specialize (Hn parent eq_refl).
  apply (traces_bind _ _ _ _ _ (write_packages_tape contents Hf Hc ct options apex packages [])).
  { by intros e seg (ids & error & ? & _). } { by intros seg (ids & error & ? & _). }
  intros [ids error] es (ids' & error' & [= <- <-] & Hp).
  eapply (traces_bind _ _ _ (fun seg r => exists x, r = Ok x /\ match error, x with
    | Some _, inl _ => seg = []
    | None, inl _ => half_finished ct timeout parent ids seg
    | None, inr _ => finished ct timeout parent ids seg
    | Some _, inr _ => False
    end)).
  { destruct error as [e|]; [apply traces_pure; by exists (inl e)|].
    apply (traces_attempt _ _ _ _ (commit_tape ct parent ids timeout)).
    - by intros seg [? _].
    - intros seg [] (_ & _ & Ho). exists (inr tt). split; [done|by apply Ho].
    - intros seg e (_ & Hfin & _). by exists (inl e). }
  { by intros e seg (x & ? & _). } { by intros seg (x & ? & _). }
  intros [e|u] tail (x & [= <-] & Hx).
  - apply (traces_bind _ _ _ _ _ (abandon_tape ct (parent :: ids))); [by intros e' seg [? _]|by intros seg [? _]|].
    intros [] ab [_ Hab]. apply (traces_pure _ (Err e)). right. right. eexists parent, ids, _, c, es, tail, ab.
    split_and!; [by rewrite app_nil_r|done|done|exact Hp|by destruct error|done].
  - destruct error as [e|]; [done|]. apply traces_pure. exists parent, ids, c, es, tail. by rewrite app_nil_r.
Qed.

(** C13: installing several packages is a transaction, over any transport and any device behind it, as long as the
    local files keep their contents meanwhile. It never panics. When it succeeds, the conversation with the device
    is this: the parent session is created and the device names it; for each package in order a child session is
    created, which the device names, and every file of the package is sent to that session, whole and unchanged
    and under its announced size, each answered with success; the children named by the device are added to the
    parent, which is answered with success; and only then the parent is committed, with success. When it fails,
    either nothing or only the creation of the parent was said, or the conversation is a beginning of that one,
    where no step follows one the device refused, and ends by abandoning the parent and then every child session
    the device has named, none left out. *)
Theorem multi_package_transaction {T : Type} `{TransportEnds T} {F : Type} `{ApkFiles F} contents packages options ct apex_ok timeout
    (s : Session (Taped T) F) :
  files_total (F := F) -> files_hold (F := F) contents ->
  let '(s', r) := install_multi_package_sessions packages options ct apex_ok timeout s in
  exists seg, tape (net s') = tape (net s) ++ seg /\
    match r with
    | Ok _ => committed contents ct options timeout packages seg
    | Err _ => abandoned contents ct options timeout packages seg
    | Panic => False
    end.
Proof.
  intros Hf Hc. destruct (sessions_tape contents packages options ct apex_ok timeout Hf Hc s) as (seg & Hs & HP).
  destruct (install_multi_package_sessions packages options ct apex_ok timeout s) as [s' r]. by exists seg.
Qed.

(** ** Two devices *)
Module MultiSample.
Import InstallSample.

Definition table : gmap bytes bytes := {[ B "a.apk" := B "AAA"; B "b.apk" := B "BB" ]}.
(** A disk that does not change. *)
#[export] Instance fixed : ApkFiles unit := {|
  ap_len p d := (d, match table !! p with Some c => Ok (zlen c) | None => Err (mk_io Net.Other (B "no such file")) end);
  ap_is_file p d := (d, Ok (bool_decide (is_Some (table !! p))));
  ap_open p d := (d, match table !! p with Some c => Ok [inr c] | None => Err (mk_io Net.Other (B "no such file")) end) |}.
Definition contents (p : bytes) : bytes := default [] (table !! p).

Lemma fixed_total : files_total (F := unit).
Proof. intros d. split_and!; intros p; unfold ap_len, ap_open, ap_is_file, fixed, snd; by destruct (table !! p). Qed.
Lemma fixed_hold : files_hold (F := unit) contents.
Proof.
  intros p d reads. unfold contents, ap_open, fixed, snd. destruct (table !! p) as [[|b c]|]; cbn; intros [= <-]; cbn; [done|].
  exists []. by rewrite app_nil_r.
Qed.

Definition begin (script : bytes) : Session (Taped Conn) unit := mk_session (mk_taped (mk_conn [inl script] [] None) []) tt.
Definition packages : list (list MultiPackageApk) :=
  [[mk_multi (B "a.apk") (B "1_a.apk") 3 false]; [mk_multi (B "b.apk") (B "2_b.apk") 2 false]].
Definition created (id : bytes) : bytes := answer (B "Success: created [" ++ id ++ B "]").
(** The second write is refused. *)
Definition refusing : bytes :=
  created (B "10") ++ created (B "11") ++ takes (B "Success") ++ created (B "12") ++ takes (B "Failure")
  ++ answer (B "Success") ++ answer (B "Success") ++ answer (B "Success").
(** All is taken. *)
Definition taking : bytes :=
  created (B "10") ++ created (B "11") ++ takes (B "Success") ++ created (B "12") ++ takes (B "Success")
  ++ answer (B "Success") ++ answer (B "Success").
Definition run (script : bytes) := install_multi_package_sessions packages options ExecCmd false None (begin script).
End MultiSample.

Lemma multi_package_transaction_witness :
  committed MultiSample.contents ExecCmd InstallSample.options None MultiSample.packages (tape (net (MultiSample.run MultiSample.taking).1)) /\
  abandoned MultiSample.contents ExecCmd InstallSample.options None MultiSample.packages (tape (net (MultiSample.run MultiSample.refusing).1)).
Proof.
  split.
  - pose proof (multi_package_transaction MultiSample.contents MultiSample.packages InstallSample.options ExecCmd false None
      (MultiSample.begin MultiSample.taking) MultiSample.fixed_total MultiSample.fixed_hold) as H.
    fold (MultiSample.run MultiSample.taking) in H.
    assert (match (MultiSample.run MultiSample.taking).2 with Ok _ => True | _ => False end) as Hr by (vm_compute; exact I).
    destruct (MultiSample.run MultiSample.taking) as [s' [u|e|]]; try contradiction. destruct H as (seg & Hs & H). cbn in Hs |- *. by rewrite Hs.
  - pose proof (multi_package_transaction MultiSample.contents MultiSample.packages InstallSample.options ExecCmd false None
      (MultiSample.begin MultiSample.refusing) MultiSample.fixed_total MultiSample.fixed_hold) as H.
    fold (MultiSample.run MultiSample.refusing) in H.
    assert (match (MultiSample.run MultiSample.refusing).2 with Err _ => True | _ => False end) as Hr by (vm_compute; exact I).
    destruct (MultiSample.run MultiSample.refusing) as [s' [u|e|]]; try contradiction. destruct H as (seg & Hs & H). cbn in Hs |- *. by rewrite Hs.
Defined.

(** In the refused run the device is told to abandon the parent and both children. *)
Example refused_write_abandons :
  sent (tape (net (MultiSample.run MultiSample.refusing).1)) =
  map (fun s => EOpen (B "exec:cmd package " ++ s)) [B "install-create --multi-package -r"; B "install-create -r"; B "install-write -S 3 11 1_a.apk -"]
  ++ [EData (B "AAA")] ++ map (fun s => EOpen (B "exec:cmd package " ++ s)) [B "install-create -r"; B "install-write -S 2 12 2_b.apk -"]
  ++ [EData (B "BB")] ++ map (fun s => EOpen (B "exec:cmd package " ++ s)) [B "install-abandon 10"; B "install-abandon 11"; B "install-abandon 12"].
Proof. vm_compute. reflexivity. Qed.
