(* ===== verification/MdnsService.v ===== *)
(** * Services that announce themselves

    [mdns.rs] of adb-protocol: the service types of ADB, a discovered service with the serial it gives its device,
    and the attributes of a TXT record. Addresses are those of the standard library, with their texts. *)
From stdpp Require Import gmap.
From S2P Require Import Prelude Text.

(** ** Addresses *)
Inductive IpAddr := V4 (octets : Z) | V6 (octets : Z).

#[export] Instance ip_addr_eq : EqDecision IpAddr.
Proof. solve_decision. Defined.

(** [Display for Ipv4Addr]. *)
Definition ipv4_text (a : Z) : bytes := join (B ".") (map (fun b => fmt_dec (b2z b)) (be_bytes 4 a)).

(** [Display for Ipv6Addr]: a mapped IPv4 address as such, and otherwise the groups in hexadecimal with the first
    longest run of two or more zeros left out. *)
Definition segments (a : Z) : list Z := map be_val (chunks 2 (be_bytes 16 a)).
Fixpoint longest_zeros (i : nat) (l : list Z) (current longest : nat * nat) : nat * nat :=
  match l with
  | [] => longest
  | s :: l =>
      if s =? 0 then
        let current := if Nat.eqb current.2 0 then (i, 1%nat) else (current.1, S current.2) in
        longest_zeros (S i) l current (if Nat.ltb longest.2 current.2 then current else longest)
      else longest_zeros (S i) l (O, O) longest
  end.
Definition groups (l : list Z) : bytes := join (B ":") (map fmt_hex l).
Definition ipv6_text (a : Z) : bytes :=
  if a / 2 ^ 32 =? 0xffff then B "::ffff:" ++ ipv4_text (a mod 2 ^ 32) else
  let l := segments a in
  let '(start, len) := longest_zeros 0 l (O, O) (O, O) in
  if Nat.ltb 1 len then groups (take start l) ++ B "::" ++ groups (drop (start + len) l) else groups l.

Definition ip_text (a : IpAddr) : bytes := match a with V4 a => ipv4_text a | V6 a => ipv6_text a end.

Example ip_texts :
  map ip_text [V4 0xc0a80164; V6 1; V6 0; V6 0xfe800000000000000000000000000001; V6 0x20010db8000000000001000000000001;
               V6 0xffff0a000001; V6 0x00010000000200030004000500060007]
  = [B "192.168.1.100"; B "::1"; B "::"; B "fe80::1"; B "2001:db8::1:0:0:1"; B "::ffff:10.0.0.1"; B "1:0:2:3:4:5:6:7"].
Proof. vm_compute. reflexivity. Qed.

(** ** Service types *)
Inductive AdbMdnsServiceType := Classic | TlsConnect | TlsPairing.

#[export] Instance service_type_eq : EqDecision AdbMdnsServiceType.
Proof. solve_decision. Defined.

Definition service_name (t : AdbMdnsServiceType) : bytes :=
  match t with
  | Classic => B "_adb._tcp"
  | TlsConnect => B "_adb-tls-connect._tcp"
  | TlsPairing => B "_adb-tls-pairing._tcp"
  end.

Definition full_domain (t : AdbMdnsServiceType) : bytes :=
  match t with
  | Classic => B "_adb._tcp.local."
  | TlsConnect => B "_adb-tls-connect._tcp.local."
  | TlsPairing => B "_adb-tls-pairing._tcp.local."
  end.

Definition parse_type (s : bytes) : option AdbMdnsServiceType :=
  let trimmed := trim_end_byte "."%byte (trim s) in
  if bool_decide (trimmed ∈ [B "_adb._tcp"; B "_adb._tcp.local"]) then Some Classic
  else if bool_decide (trimmed ∈ [B "_adb-tls-connect._tcp"; B "_adb-tls-connect._tcp.local"]) then Some TlsConnect
  else if bool_decide (trimmed ∈ [B "_adb-tls-pairing._tcp"; B "_adb-tls-pairing._tcp.local"]) then Some TlsPairing
  else None.

Lemma parse_type_full t : parse_type (full_domain t) = Some t /\ parse_type (service_name t) = Some t.
Proof. destruct t; split; vm_compute; reflexivity. Qed.

(** ** Services *)
Record AdbMdnsService := mk_service {
  svc_type : AdbMdnsServiceType;
  svc_instance : bytes;
  svc_host : option bytes;
  svc_addresses : list IpAddr;
  svc_port : Z;
  svc_txt : gmap bytes bytes }.

#[export] Instance adb_service_eq : EqDecision AdbMdnsService.
Proof. solve_decision. Defined.

Definition service_new (t : AdbMdnsServiceType) (instance : bytes) (port : Z) : AdbMdnsService :=
  mk_service t instance None [] port ∅.

Definition device_serial (s : AdbMdnsService) : option bytes :=
  let by_name :=
    match strip_prefix (B "adb-") (svc_instance s) with
    | Some rest =>
        let stop := match find_str (B "-_") rest with
          | Some i => i
          | None => match find_str (B "._") rest with
            | Some i => i
            | None => default (length rest) (find_str (B ".") rest)
            end
          end in
        match take stop rest with [] => None | serial => Some serial end
    | None => None
    end in
  match svc_txt s !! B "serial" with
  | Some (_ :: _ as serial) => Some serial
  | _ => by_name
  end.

(** ** TXT records *)
Inductive MdnsError := UnknownServiceType (s : bytes) | InvalidTxtLength (expected got : Z) | MissingPort.

Definition txt_entry (kv : bytes) (m : gmap bytes bytes) : gmap bytes bytes :=
  if is_utf8 kv then
    match split_once "="%byte kv with
    | Some (k, v) => <[trim k := trim v]> m
    | None => <[trim kv := []]> m
    end
  else m.

Fixpoint parse_txt_go (fuel : nat) (raw : bytes) (m : gmap bytes bytes) : res MdnsError (gmap bytes bytes) :=
  match fuel, raw with
  | S fuel, len :: raw =>
      if b2z len =? 0 then parse_txt_go fuel raw m
      else if zlen raw <? b2z len then Err (InvalidTxtLength (b2z len) (zlen raw))
      else parse_txt_go fuel (drop (Z.to_nat (b2z len)) raw) (txt_entry (take (Z.to_nat (b2z len)) raw) m)
  | _, _ => Ok m
  end.
Definition parse_txt_record (raw : bytes) : res MdnsError (gmap bytes bytes) := parse_txt_go (length raw) raw ∅.

(** *** Encoding, for reference *)
Definition txt_bytes (kvs : list (bytes * bytes)) : bytes :=
  concat (map (fun kv => let e := kv.1 ++ B "=" ++ kv.2 in z2b (zlen e) :: e) kvs).

(** A key or a value that a TXT record carries unchanged. *)
Definition txt_word (s : bytes) : Prop := trim s = s /\ is_utf8 s = true.
Definition txt_pair (kv : bytes * bytes) : Prop :=
  txt_word kv.1 /\ txt_word kv.2 /\ "="%byte ∉ kv.1 /\ zlen kv.1 + zlen kv.2 < 255.

Lemma txt_entry_pair kv m : txt_pair kv -> txt_entry (kv.1 ++ B "=" ++ kv.2) m = <[kv.1 := kv.2]> m.
Proof.
  intros ([Hk Uk] & [Hv Uv] & Hn & _). unfold txt_entry.
  rewrite utf8_app; [|done|by apply (utf8_app (B "="))]. change (B "=" ++ kv.2) with ("="%byte :: kv.2).
  rewrite split_once_app by done. by rewrite Hk, Hv.
Qed.

Lemma parse_txt_fuel kvs : forall fuel m, Forall txt_pair kvs -> (length (txt_bytes kvs) <= fuel)%nat ->
  parse_txt_go fuel (txt_bytes kvs) m = Ok (fold_left (fun m kv => <[kv.1 := kv.2]> m) kvs m).
Proof.
  induction kvs as [|kv kvs IH]; intros fuel m Hk Hf; [by destruct fuel|].
  apply list.Forall_cons in Hk as [Hkv Hk]. pose proof Hkv as (_ & _ & _ & Hl).
  unfold txt_bytes in *. cbn [map concat] in *. set (e := kv.1 ++ B "=" ++ kv.2) in *.
  assert (zlen e = zlen kv.1 + 1 + zlen kv.2) as He by (unfold e; rewrite !zlen_app; change (zlen (B "=")) with 1; lia).
  pose proof (zlen_nonneg kv.1). pose proof (zlen_nonneg kv.2).
  rewrite <- app_comm_cons in *. destruct fuel as [|fuel]; [cbn in Hf; lia|]. cbn [parse_txt_go].
  rewrite b2z_z2b, Z.mod_small by lia. rewrite (proj2 (Z.eqb_neq _ _)) by lia.
  rewrite zlen_app. match goal with |- context [zlen e + zlen ?x] => pose proof (zlen_nonneg x) end.
  rewrite (proj2 (Z.ltb_ge _ _)) by lia.
  replace (Z.to_nat (zlen e)) with (length e) by (unfold zlen; lia).
  rewrite take_app_length, drop_app_length, IH; [|done|cbn [length] in Hf; rewrite length_app in Hf; lia].
  unfold e. by rewrite txt_entry_pair.
Qed.

Lemma txt_roundtrip kvs : Forall txt_pair kvs -> NoDup (map fst kvs) ->
  parse_txt_record (txt_bytes kvs) = Ok (list_to_map kvs).
Proof.
  intros Hk Hn. unfold parse_txt_record. rewrite parse_txt_fuel by done. f_equal.
  assert (forall m : gmap bytes bytes, fold_left (fun m kv => <[kv.1 := kv.2]> m) kvs m = list_to_map kvs ∪ m) as ->;
    [|by rewrite (right_id_L ∅ (∪))].
  clear Hk. induction kvs as [|[k v] kvs IH]; intros m; cbn [fold_left list_to_map foldr uncurry fst snd map] in *.
  { by rewrite (left_id_L ∅ (∪)). }
  apply list.NoDup_cons in Hn as [Hx Hn]. rewrite IH by done.
  rewrite <- insert_union_r, <- insert_union_l; [done|]. by apply not_elem_of_list_to_map_1.
Qed.
