(* ===== verification/MdnsBackend.v ===== *)
(** * Discovered devices in the registry

    [server/mdns_backend.rs], with the part of adb-mdns that hands it the events of the zero-config engine
    ([own_callback_event] of [lib.rs], the commands of [zero_config_driver.rs]): the services that are known, and
    the wireless devices of the registry that come from them.

    The services are a [HashMap]: the service that a device is made from does not depend on the order of its
    entries ([best_iff]). *)
From stdpp Require Import gmap sorting.
From S2P Require Import Prelude Text IndexPQ MdnsStore ZeroConfig Registry MdnsService.

(** ** Events of the engine *)
Inductive AdbMdnsUpdate := Create | Update | Delete.

Record DiscoveredService := mk_discovered {
  d_instance : bytes; d_type : bytes; d_host : bytes;
  d_ipv4 : list Ipv4Addr; d_ipv6 : list Ipv6Addr; d_port : Z; d_txt : TxtAttributes }.

(** [sort_unstable] of addresses that differ. *)
Definition sorted_addresses (s : gset Z) : list Z := merge_sort Z.le (elements s).

Definition own_callback_event (event : AdbMdnsUpdate) (instance service_type hostname : bytes) (ipv4s : gset Ipv4Addr)
    (ipv6s : gset Ipv6Addr) (port : Z) (txt : TxtAttributes) : AdbMdnsUpdate * DiscoveredService :=
  (event, mk_discovered instance service_type hostname (sorted_addresses ipv4s) (sorted_addresses ipv6s) port txt).

(** [ZeroConfigDriver] on the commands that are reports; the others are its own. *)
Definition reported `{Dns} (cmd : ZeroConfigCommand) : option (AdbMdnsUpdate * DiscoveredService) :=
  match cmd with
  | CreateService i t h v4 v6 p x => Some (own_callback_event Create i t h v4 v6 p x)
  | UpdateService i t h v4 v6 p x => Some (own_callback_event Update i t h v4 v6 p x)
  | DeleteService i t => Some (own_callback_event Delete i t [] ∅ ∅ 0 ∅)
  | DnsQueries _ | Restart => None
  end.

(** ** The server's view *)

(** The registry and its field [mdns_services]. *)
Record MdnsRegistry := mk_mdns_registry { transports : TransportRegistry; services : gmap bytes AdbMdnsService }.

Definition service_key (s : AdbMdnsService) : bytes := svc_instance s ++ [x00] ++ service_name (svc_type s).
Definition service_serial (s : AdbMdnsService) : bytes := default (svc_instance s) (device_serial s).

Definition transport_type (service_type : bytes) : option AdbMdnsServiceType :=
  if contains_str (B "_adb-tls-connect._tcp") service_type then Some TlsConnect
  else if contains_str (B "_adb._tcp") service_type then Some Classic
  else None.

Definition to_adb_service (info : DiscoveredService) : option AdbMdnsService :=
  match transport_type (d_type info) with
  | None => None
  | Some t => Some (mk_service t (d_instance info) (match d_host info with [] => None | h => Some h end)
                      (map V4 (d_ipv4 info) ++ map V6 (d_ipv6 info)) (d_port info) (d_txt info))
  end.

(** *** The service of a serial *)
Definition service_cmp (a b : AdbMdnsService) : comparison :=
  match bytes_cmp (service_name (svc_type a)) (service_name (svc_type b)) with
  | Eq => bytes_cmp (svc_instance a) (svc_instance b)
  | c => c
  end.
Fixpoint insert_service (x : AdbMdnsService) (l : list AdbMdnsService) : list AdbMdnsService :=
  match l with
  | [] => [x]
  | y :: l' => match service_cmp x y with Gt => y :: insert_service x l' | _ => x :: l end
  end.
Definition sort_services (l : list AdbMdnsService) : list AdbMdnsService := fold_right insert_service [] l.

Definition is_candidate (s : bytes) (v : AdbMdnsService) : bool :=
  bool_decide (service_serial v = s) && negb (Nat.eqb (length (svc_addresses v)) 0).
Definition candidates (svs : gmap bytes AdbMdnsService) (s : bytes) : list AdbMdnsService :=
  sort_services (List.filter (is_candidate s) (map snd (map_to_list svs))).
Definition best (svs : gmap bytes AdbMdnsService) (s : bytes) : option AdbMdnsService := head (candidates svs s).

(** [SocketAddr::new(service.addresses[0], service.port)]: a candidate has an address. *)
Definition socket_addr (a : IpAddr) (p : Z) : SocketAddr :=
  mk_addr (ip_text a) (match a with V6 _ => true | V4 _ => false end) p.
Definition service_addr (v : AdbMdnsService) : SocketAddr :=
  socket_addr (default (V4 0) (head (svc_addresses v))) (svc_port v).

Definition wireless_entry (v : AdbMdnsService) (d : DeviceEntry) : DeviceEntry :=
  mk_device (serial d) (transport_id d) Device (Tcp (service_addr v)) (svc_txt v !! B "product")
    (svc_txt v !! B "model") (svc_txt v !! B "device") (transport_features d).

Definition push_wireless (s : bytes) (v : AdbMdnsService) (r : TransportRegistry) : TransportRegistry :=
  mk_registry (devices r ++ [mk_device s (next_id r) Device (Tcp (service_addr v)) (svc_txt v !! B "product")
                               (svc_txt v !! B "model") (svc_txt v !! B "device") None])
    (forwards r) (reverses r) (next_id r + 1) (flags r).

Definition refresh_device_for_serial (svs : gmap bytes AdbMdnsService) (s : bytes) (r : TransportRegistry) : TransportRegistry :=
  match best svs s with
  | Some v =>
      match find_by_serial r s with
      | Some existing =>
          if is_usb (origin existing) then r
          else set_devices (update_first (has_serial s) (wireless_entry v) (devices r)) r
      | None => push_wireless s v r
      end
  | None => set_devices (List.filter (fun d => negb (has_serial s d) || is_usb (origin d)) (devices r)) r
  end.

Definition apply_discovery_event (m : MdnsRegistry) (event : AdbMdnsUpdate) (discovered : DiscoveredService) : MdnsRegistry :=
  match to_adb_service discovered with
  | None => m
  | Some service =>
      let key := service_key service in
      match event with
      | Create | Update =>
          let svs := <[key := service]> (services m) in
          let r := match services m !! key with
            | Some old =>
                if bool_decide (service_serial old = service_serial service) then transports m
                else refresh_device_for_serial svs (service_serial old) (transports m)
            | None => transports m
            end in
          mk_mdns_registry (refresh_device_for_serial svs (service_serial service) r) svs
      | Delete =>
          match services m !! key with
          | Some old =>
              let svs := delete key (services m) in
              mk_mdns_registry (refresh_device_for_serial svs (service_serial old) (transports m)) svs
          | None => m
          end
      end
  end.

(** ** The chosen service *)
Lemma sep_inj {A} (c : A) p q p' q' : c ∉ q -> c ∉ q' -> p ++ c :: q = p' ++ c :: q' -> p = p' /\ q = q'.
Proof.
  intros Hq Hq'. revert p'. induction p as [|x p IH]; intros [|x' p']; cbn [app]; intros E; simplify_eq.
  - done.
  - exfalso. apply Hq. apply elem_of_app. right. by left.
  - exfalso. apply Hq'. apply elem_of_app. right. by left.
  - by destruct (IH p' H0) as [-> ->].
Qed.

Lemma service_name_inj a b : service_name a = service_name b -> a = b.
Proof. by destruct a, b. Qed.

Lemma service_key_inj a b : service_key a = service_key b -> svc_instance a = svc_instance b /\ svc_type a = svc_type b.
Proof.
  assert (forall t, x00 ∉ service_name t) as Hn by (intros t; apply contains_false; by destruct t).
  intros [-> Ht]%sep_inj; [|apply Hn..]. split; [done|by apply service_name_inj].
Qed.

Lemma service_cmp_eq a b : service_cmp a b = Eq <-> svc_instance a = svc_instance b /\ svc_type a = svc_type b.
Proof.
  unfold service_cmp. pose proof (bytes_cmp_eq (service_name (svc_type a)) (service_name (svc_type b))) as Hs.
  destruct (bytes_cmp _ _).
  - rewrite bytes_cmp_eq. split; [intros ->; split; [done|by apply service_name_inj, Hs]|by intros [-> _]].
  - split; [done|]. intros [_ Ht]. rewrite Ht in Hs. by destruct (proj2 Hs eq_refl).
  - split; [done|]. intros [_ Ht]. rewrite Ht in Hs. by destruct (proj2 Hs eq_refl).
Qed.

Lemma service_cmp_antisym a b : service_cmp b a = CompOpp (service_cmp a b).
Proof.
  unfold service_cmp. rewrite (bytes_cmp_antisym (service_name (svc_type a))).
  destruct (bytes_cmp (service_name _) _); cbn [CompOpp]; [apply bytes_cmp_antisym|done..].
Qed.

Lemma service_cmp_trans a b c : service_cmp a b = Lt -> service_cmp b c = Lt -> service_cmp a c = Lt.
Proof.
  unfold service_cmp. set (na := service_name (svc_type a)). set (nb := service_name (svc_type b)). set (nc := service_name (svc_type c)).
  destruct (bytes_cmp na nb) eqn:E1; [apply bytes_cmp_eq in E1 as ->| |done].
  - destruct (bytes_cmp nb nc); [apply bytes_cmp_trans|done..].
  - destruct (bytes_cmp nb nc) eqn:E2; [apply bytes_cmp_eq in E2 as <-| |done]; [by rewrite E1|].
    by rewrite (bytes_cmp_trans _ _ _ E1 E2).
Qed.

(** The services of the table are under their keys. *)
Definition keyed (svs : gmap bytes AdbMdnsService) : Prop := forall k v, svs !! k = Some v -> k = service_key v.
Definition candidate (svs : gmap bytes AdbMdnsService) (s : bytes) (v : AdbMdnsService) : Prop :=
  (exists k, svs !! k = Some v) /\ service_serial v = s /\ svc_addresses v <> [].

(** Its elements, the first of which is not after any. *)
Lemma sort_head l x : head (sort_services l) = Some x -> x ∈ l /\ forall y, y ∈ l -> service_cmp x y <> Gt.
Proof.
  revert x. induction l as [|y l IH]; intros x; [done|]. cbn [sort_services fold_right].
  change (fold_right insert_service [] l) with (sort_services l). destruct (sort_services l) as [|z k] eqn:E.
  - cbn. intros [= ->]. destruct l as [|w l].
    + split; [by left|]. intros y Hy. apply list_elem_of_singleton in Hy as ->.
      by rewrite (proj2 (service_cmp_eq x x)).
    + exfalso. cbn in E. change (fold_right insert_service [] l) with (sort_services l) in E.
      destruct (sort_services l) as [|z k]; [done|]. cbn in E. by destruct (service_cmp w z).
  - destruct (IH z eq_refl) as [Hz Hmin]. cbn [insert_service].
    assert (service_cmp y y <> Gt) as Hyy by by rewrite (proj2 (service_cmp_eq y y)).
    destruct (service_cmp y z) eqn:Ec; cbn [head]; intros [= <-].
    + split; [by left|]. intros w [->|Hw]%elem_of_cons; [done|]. apply service_cmp_eq in Ec as [E1 E2].
      specialize (Hmin w Hw). unfold service_cmp in *. by rewrite E1, E2.
    + split; [by left|]. intros w [->|Hw]%elem_of_cons; [done|]. specialize (Hmin w Hw).
      destruct (service_cmp z w) eqn:Ezw; [|by rewrite (service_cmp_trans y z w)|done].
      apply service_cmp_eq in Ezw as [E1 E2]. unfold service_cmp in *. by rewrite <- E1, <- E2, Ec.
    + split; [by right|]. intros w [->|Hw]%elem_of_cons; [|by apply Hmin].
      by rewrite (service_cmp_antisym y z), Ec.
Qed.

Lemma elem_of_candidates svs s v :
  v ∈ List.filter (is_candidate s) (map snd (map_to_list svs)) <-> candidate svs s v.
Proof.
  rewrite list_elem_of_In, filter_In, in_map_iff. unfold is_candidate, candidate.
  rewrite andb_true_iff, bool_decide_eq_true, negb_true_iff, Nat.eqb_neq, List.length_zero_iff_nil.
  split.
  - intros [([k w] & <- & Hin) [Hs Ha]]. apply list_elem_of_In, elem_of_map_to_list in Hin. eauto.
  - intros [[k Hk] [Hs Ha]]. split; [|done]. exists (k, v). split; [done|].
    by apply list_elem_of_In, elem_of_map_to_list.
Qed.

Lemma candidate_unique svs s v w : keyed svs -> candidate svs s v -> candidate svs s w -> service_cmp v w = Eq -> v = w.
Proof.
  intros Hk [[k Hv] _] [[l Hw] _] [E1 E2]%service_cmp_eq.
  assert (k = l) as -> by (rewrite (Hk _ _ Hv), (Hk _ _ Hw); unfold service_key; by rewrite E1, E2). congruence.
Qed.

(** The chosen service is the one candidate that is before all others. *)
Lemma best_iff svs s v : keyed svs ->
  best svs s = Some v <-> candidate svs s v /\ forall w, candidate svs s w -> w <> v -> service_cmp v w = Lt.
Proof.
  intros Hk. unfold best, candidates. set (l := List.filter _ _).
  assert (forall x, x ∈ l <-> candidate svs s x) as Hl by apply elem_of_candidates.
  assert (forall x, head (sort_services l) = Some x -> candidate svs s x /\ forall w, candidate svs s w -> w <> x -> service_cmp x w = Lt) as Hx.
  { intros x [Hin Hmin]%sort_head. apply Hl in Hin. split; [done|]. intros w Hw Hne. specialize (Hmin w (proj2 (Hl w) Hw)).
    destruct (service_cmp x w) eqn:E; [|done..]. exfalso. apply Hne. symmetry. by apply (candidate_unique svs s). }
  split; [apply Hx|]. intros [Hv Hmin]. destruct (head (sort_services l)) as [x|] eqn:E.
  - destruct (Hx x eq_refl) as [Hcx Hxm]. destruct (decide (x = v)) as [->|Hne]; [done|].
    pose proof (Hmin x Hcx Hne) as H1. assert (v <> x) as Hne' by congruence. pose proof (Hxm v Hv Hne') as H2.
    by rewrite service_cmp_antisym, H1 in H2.
  - exfalso. apply Hl in Hv. destruct l as [|y l]; [by apply elem_of_nil in Hv|].
    cbn in E. change (fold_right insert_service [] l) with (sort_services l) in E.
    destruct (sort_services l) as [|z k]; [done|]. cbn in E. by destruct (service_cmp y z).
Qed.

Lemma best_none svs s : best svs s = None <-> forall v, ~ candidate svs s v.
Proof.
  unfold best, candidates. setoid_rewrite <- elem_of_candidates. destruct (List.filter _ _) as [|y l].
  - split; [|done]. intros _ v Hv. by apply elem_of_nil in Hv.
  - split; [|intros Hn; exfalso; apply (Hn y); by left].
    cbn. change (fold_right insert_service [] l) with (sort_services l). destruct (sort_services l) as [|z k]; [done|].
    cbn. by destruct (service_cmp y z).
Qed.

(** It depends on the candidates only. *)
Lemma best_ext svs svs' s : keyed svs -> keyed svs' ->
  (forall v, candidate svs s v <-> candidate svs' s v) -> best svs s = best svs' s.
Proof.
  intros H1 H2 Hc. destruct (best svs' s) as [v|] eqn:E.
  - apply best_iff in E as [Hv Hm]; [|done]. apply best_iff; [done|]. split; [by apply Hc|].
    intros w Hw. by apply Hm, Hc.
  - apply best_none. intros v Hv%Hc. by apply best_none with (v := v) in E.
Qed.

(** ** The devices *)

(** A device of the registry as a service describes it. *)
Definition wireless (v : AdbMdnsService) (d : DeviceEntry) : Prop :=
  state d = Device /\ origin d = Tcp (service_addr v) /\ product d = svc_txt v !! B "product" /\
  model d = svc_txt v !! B "model" /\ device_name d = svc_txt v !! B "device".

(** What the entries of one serial are to be. *)
Definition good_entries (chosen : option AdbMdnsService) (l : list DeviceEntry) : Prop :=
  match chosen with
  | Some v => exists d, l = [d] /\ (is_usb (origin d) = true \/ wireless v d)
  | None => Forall (fun d => is_usb (origin d) = true) l
  end.
Definition entries (s : bytes) (r : TransportRegistry) : list DeviceEntry := List.filter (has_serial s) (devices r).
Definition good_at (svs : gmap bytes AdbMdnsService) (r : TransportRegistry) (s : bytes) : Prop :=
  good_entries (best svs s) (entries s r).

Lemma has_serial_iff s d : has_serial s d = true <-> serial d = s.
Proof. apply bool_decide_eq_true. Qed.

Lemma entries_find s r : devices_wf r -> entries s r = match find_by_serial r s with Some d => [d] | None => [] end.
Proof.
  intros (Hn & _). unfold entries, find_by_serial. induction (devices r) as [|d l IH]; [done|].
  cbn [map] in Hn. apply list.NoDup_cons in Hn as [Hd Hn]. cbn [List.filter find].
  destruct (has_serial s d) eqn:E; [|by apply IH]. f_equal. apply has_serial_iff in E as <-.
  destruct (find _ l) as [e|] eqn:Ef; [|by apply IH]. exfalso. apply Hd.
  apply find_some in Ef as [Hin He%has_serial_iff]. rewrite <- He. by apply list_elem_of_In, in_map.
Qed.

Lemma filter_update_other (p q : DeviceEntry -> bool) f e l :
  find p l = Some e -> q e = false -> q (f e) = false -> List.filter q (update_first p f l) = List.filter q l.
Proof.
  intros Hf He Hfe. induction l as [|d l IH]; [done|]. cbn [find] in Hf. cbn [update_first]. destruct (p d); cbn [List.filter].
  - injection Hf as ->. by rewrite He, Hfe.
  - by rewrite IH.
Qed.

Lemma filter_filter_other {A} (p q : A -> bool) l :
  (forall d, q d = true -> p d = true) -> List.filter q (List.filter p l) = List.filter q l.
Proof.
  intros Hp. induction l as [|d l IH]; [done|]. cbn [List.filter]. destruct (p d) eqn:E; cbn [List.filter]; [by rewrite IH|].
  destruct (q d) eqn:Eq; [|done]. by rewrite (Hp d Eq) in E.
Qed.

Lemma refresh_other svs s r s' : s' <> s -> entries s' (refresh_device_for_serial svs s r) = entries s' r.
Proof.
  intros Hne. unfold entries, refresh_device_for_serial.
  assert (forall d, serial d = s -> has_serial s' d = false) as Hd.
  { intros d <-. apply bool_decide_eq_false. congruence. }
  destruct (best svs s) as [v|].
  - destruct (find_by_serial r s) as [e|] eqn:Ef; [destruct (is_usb (origin e)); [done|]|].
    + apply find_by_serial_some in Ef as Es. destruct Es as [_ Es]. cbn [devices set_devices].
      apply (filter_update_other _ _ _ e); [done|by apply Hd|by apply Hd].
    + cbn [devices push_wireless]. rewrite List.filter_app. cbn [List.filter]. rewrite Hd by done. apply app_nil_r.
  - cbn [devices set_devices]. apply filter_filter_other. intros d Hd'. destruct (has_serial s d) eqn:E; [|done].
    apply has_serial_iff in E. by rewrite (Hd d E) in Hd'.
Qed.

Lemma refresh_usb svs s r :
  List.filter (fun d => is_usb (origin d)) (devices (refresh_device_for_serial svs s r))
  = List.filter (fun d => is_usb (origin d)) (devices r).
Proof.
  unfold refresh_device_for_serial. destruct (best svs s) as [v|].
  - destruct (find_by_serial r s) as [e|] eqn:Ef; [destruct (is_usb (origin e)) eqn:Eu; [done|]|].
    + by apply (filter_update_other _ _ _ e).
    + cbn [devices push_wireless]. rewrite List.filter_app. apply app_nil_r.
  - cbn [devices set_devices]. apply filter_filter_other. intros d ->. apply orb_true_r.
Qed.

Lemma refresh_serial_wf svs s r : registry_wf r -> registry_wf (refresh_device_for_serial svs s r).
Proof.
  intros [Hd Hr]. split; [|unfold refresh_device_for_serial; repeat case_match; done].
  unfold refresh_device_for_serial. destruct (best svs s) as [v|].
  - destruct (find_by_serial r s) as [e|] eqn:Ef; [case_match; [done|]|].
    + apply devices_wf_update; [by intros d|done].
    + apply find_by_serial_none in Ef. destruct (devices_wf_push s (Tcp (service_addr v)) r Hd Ef) as (H1 & H2 & H3).
      unfold devices_wf, push_device, push_wireless in *. cbn [devices next_id] in *. rewrite !map_app in *. split_and!; [done|done|].
      apply Forall_app in H3 as [H3 _]. apply Forall_app. split; [done|]. constructor; [cbn; lia|constructor].
  - by apply devices_wf_filter.
Qed.

Lemma refresh_good svs s r : devices_wf r -> good_at svs (refresh_device_for_serial svs s r) s.
Proof.
  intros Hw. pose proof (entries_find s r Hw) as He. unfold good_at, entries, refresh_device_for_serial in *.
  destruct (best svs s) as [v|] eqn:Eb; cbn [good_entries].
  - destruct (find_by_serial r s) as [e|] eqn:Ef; [destruct (is_usb (origin e)) eqn:Eu|].
    + exists e. split; [done|by left].
    + cbn [devices set_devices]. exists (wireless_entry v e). split; [|by right].
      unfold find_by_serial in Ef. clear -He Ef. induction (devices r) as [|d l IH]; [done|]. cbn [find List.filter update_first] in *.
      destruct (has_serial s d) eqn:Ed.
      * injection Ef as ->. injection He as Hl. cbn [List.filter].
        change (has_serial s (wireless_entry v e)) with (has_serial s e). by rewrite Ed, Hl.
      * cbn [List.filter]. rewrite Ed. by apply IH.
    + cbn [devices push_wireless]. rewrite List.filter_app, He. cbn [List.filter app].
      rewrite (proj2 (has_serial_iff _ _)) by done. eexists. split; [done|by right].
  - cbn [devices set_devices]. apply Forall_forall. intros d. rewrite <- list_elem_of_In. intros Hd.
    apply list_elem_of_In, filter_In in Hd as [[_ Hd]%filter_In Hs]. by rewrite Hs in Hd.
Qed.

(** *** The invariant *)
Definition mdns_inv (m : MdnsRegistry) : Prop :=
  registry_wf (transports m) /\ keyed (services m) /\ forall s, good_at (services m) (transports m) s.

Lemma keyed_insert svs v : keyed svs -> keyed (<[service_key v := v]> svs).
Proof. intros Hk k w. rewrite lookup_insert_Some. intros [[<- <-]|[_ Hw]]; [done|by apply Hk]. Qed.
Lemma keyed_delete svs k : keyed svs -> keyed (delete k svs).
Proof. intros Hk l w. rewrite lookup_delete_Some. intros [_ Hw]. by apply Hk. Qed.

Lemma candidate_insert svs v s w : service_serial v <> s ->
  (forall old, svs !! service_key v = Some old -> service_serial old <> s) ->
  candidate (<[service_key v := v]> svs) s w <-> candidate svs s w.
Proof.
  intros Hv Hold. unfold candidate. split; intros [[k Hk] [Hs Ha]]; (split; [|done]); exists k.
  - apply lookup_insert_Some in Hk as [[_ <-]|[_ Hk]]; done.
  - rewrite lookup_insert_ne; [done|]. intros <-. by apply (Hold w).
Qed.
Lemma candidate_delete svs k s w : (forall old, svs !! k = Some old -> service_serial old <> s) ->
  candidate (delete k svs) s w <-> candidate svs s w.
Proof.
  intros Hold. unfold candidate. split; intros [[l Hl] [Hs Ha]]; (split; [|done]); exists l.
  - by apply lookup_delete_Some in Hl as [_ Hl].
  - rewrite lookup_delete_ne; [done|]. intros <-. by apply (Hold w).
Qed.

Lemma event_inv m event discovered : mdns_inv m -> mdns_inv (apply_discovery_event m event discovered).
Proof.
  intros (Hw & Hk & Hg). unfold apply_discovery_event. destruct (to_adb_service discovered) as [v|]; [|done].
  assert (mdns_inv (mk_mdns_registry
    (refresh_device_for_serial (<[service_key v := v]> (services m)) (service_serial v)
      match services m !! service_key v with
      | Some old => if bool_decide (service_serial old = service_serial v) then transports m
          else refresh_device_for_serial (<[service_key v := v]> (services m)) (service_serial old) (transports m)
      | None => transports m end) (<[service_key v := v]> (services m)))) as Hins.
  { pose proof (keyed_insert _ v Hk) as Hk'. set (r := match services m !! _ with Some _ => _ | None => _ end).
    assert (registry_wf r) as Hr by (unfold r; repeat case_match; [done|by apply refresh_serial_wf|done]).
    split_and!; [by apply refresh_serial_wf|done|]. cbn [services transports]. intros s.
    destruct (decide (s = service_serial v)) as [->|Hne]; [apply refresh_good, Hr|].
    unfold good_at. rewrite refresh_other by done. unfold r.
    assert ((forall old, services m !! service_key v = Some old -> service_serial old <> s) ->
      best (<[service_key v := v]> (services m)) s = best (services m) s) as Hb.
    { intros Ho. apply best_ext; [done..|]. intros w. by apply candidate_insert. }
    destruct (services m !! service_key v) as [old|] eqn:Eo; [case_bool_decide as Es|].
    - rewrite Hb; [apply Hg|]. intros o [= <-]. congruence.
    - destruct (decide (s = service_serial old)) as [->|Hno]; [apply refresh_good, Hw|].
      rewrite refresh_other, Hb by (done || by intros o [= <-]). apply Hg.
    - rewrite Hb by done. apply Hg. }
  destruct event; [exact Hins|exact Hins|].
  destruct (services m !! service_key v) as [old|] eqn:Eo; [|done]. pose proof (keyed_delete _ (service_key v) Hk) as Hk'.
  split_and!; [by apply refresh_serial_wf|done|]. cbn [services transports]. intros s.
  destruct (decide (s = service_serial old)) as [->|Hne]; [apply refresh_good, Hw|].
  unfold good_at. rewrite refresh_other by done. rewrite (best_ext _ (services m)); [apply Hg|done..|].
  intros w. apply candidate_delete. intros o Ho. congruence.
Qed.

Lemma event_usb m event discovered :
  List.filter (fun d => is_usb (origin d)) (devices (transports (apply_discovery_event m event discovered)))
  = List.filter (fun d => is_usb (origin d)) (devices (transports m)).
Proof.
  unfold apply_discovery_event. destruct (to_adb_service _) as [v|]; [|done].
  destruct event; cbn [transports]; repeat case_match; cbn [transports]; by rewrite ?refresh_usb.
Qed.

Lemma good_entry svs r s v : good_at svs r s -> best svs s = Some v ->
  exists d, In d (devices r) /\ serial d = s /\ (is_usb (origin d) = true \/ wireless v d).
Proof.
  unfold good_at. intros Hg E. rewrite E in Hg. destruct Hg as (d & Hd & Hu). exists d.
  assert (In d (entries s r)) as Hin by (rewrite Hd; by left). apply filter_In in Hin as [Hin Hs%has_serial_iff]. done.
Qed.

Lemma wireless_entry_known svs r d : good_at svs r (serial d) -> In d (devices r) -> is_usb (origin d) = false ->
  exists v, best svs (serial d) = Some v /\ wireless v d.
Proof.
  intros Hg Hin Hu. assert (In d (entries (serial d) r)) as He by (apply filter_In; split; [done|by apply has_serial_iff]).
  unfold good_at, good_entries in Hg. destruct (best svs (serial d)) as [v|].
  - destruct Hg as (e & El & He'). rewrite El in He. destruct He as [->|[]]. exists v. split; [done|].
    destruct He' as [Hu'|?]; [by rewrite Hu' in Hu|done].
  - rewrite Forall_forall in Hg. by rewrite (Hg d He) in Hu.
Qed.

Lemma add_candidates_usb cs : forall r, Forall (fun d => is_usb (origin d) = true) (devices r) ->
  Forall (fun d => is_usb (origin d) = true) (devices (fold_left add_candidate cs r)).
Proof.
  induction cs as [|c cs IH]; intros r Hr; [done|]. cbn [fold_left]. apply IH. unfold add_candidate. case_match; [done|].
  apply Forall_app. split; [done|by repeat constructor].
Qed.
Lemma registry_new_usb e : Forall (fun d => is_usb (origin d) = true) (devices (registry_new e)).
Proof.
  unfold registry_new, refresh_usb_devices. destruct e as [cs|]; [|constructor]. cbn [devices set_devices].
  eapply incl_Forall; [apply List.incl_filter|]. by apply add_candidates_usb.
Qed.

Lemma fresh_inv e : mdns_inv (mk_mdns_registry (registry_new e) ∅).
Proof.
  split_and!; [apply registry_new_wf|done|]. intros s. unfold good_at. cbn [services transports].
  rewrite (proj2 (best_none ∅ s)); [|intros v [[k Hk] _]; by rewrite lookup_empty in Hk].
  unfold good_entries, entries. eapply incl_Forall; [apply List.incl_filter|apply registry_new_usb].
Qed.

(** ** Claims *)

(** A service is announced: the last event about its instance and type was not its end. *)
Definition announced (events : list (AdbMdnsUpdate * DiscoveredService)) (v : AdbMdnsService) : Prop :=
  exists before e d rest, events = before ++ (e, d) :: rest /\ e <> Delete /\ to_adb_service d = Some v /\
    forall e' d' v', (e', d') ∈ rest -> to_adb_service d' = Some v' -> ~ (svc_instance v' = svc_instance v /\ svc_type v' = svc_type v).

Lemma announced_none events e d v : to_adb_service d = None -> announced (events ++ [(e, d)]) v <-> announced events v.
Proof.
  intros Hd. split.
  - intros (before & e1 & d1 & rest & E & He & Hv & Hr). destruct rest as [|x rest _] using rev_ind.
    + apply app_inj_tail in E as [_ [= <- <-]]. congruence.
    + rewrite app_comm_cons, app_assoc in E. apply app_inj_tail in E as [-> _]. exists before, e1, d1, rest. split_and!; [done|done|done|].
      intros e' d' v' Hin. apply (Hr e'). apply elem_of_app. by left.
  - intros (before & e1 & d1 & rest & -> & He & Hv & Hr). exists before, e1, d1, (rest ++ [(e, d)]).
    split_and!; [by rewrite <- app_assoc|done|done|]. intros e' d' v' [Hin|Hin]%elem_of_app; [by apply (Hr e')|].
    apply list_elem_of_singleton in Hin as [= -> ->]. congruence.
Qed.

Lemma announced_some events e d w v : to_adb_service d = Some w ->
  announced (events ++ [(e, d)]) v <->
  (v = w /\ e <> Delete) \/ (~ (svc_instance w = svc_instance v /\ svc_type w = svc_type v) /\ announced events v).
Proof.
  intros Hd. split.
  - intros (before & e1 & d1 & rest & E & He & Hv & Hr). destruct rest as [|x rest _] using rev_ind.
    + apply app_inj_tail in E as [_ [= <- <-]]. left. split; [congruence|done].
    + rewrite app_comm_cons, app_assoc in E. apply app_inj_tail in E as [-> <-]. right. split.
      * apply (Hr e d); [|done]. apply elem_of_app. right. by apply list_elem_of_singleton.
      * exists before, e1, d1, rest. split_and!; [done|done|done|]. intros e' d' v' Hin. apply (Hr e'). apply elem_of_app. by left.
  - intros [[-> He]|[Hn (before & e1 & d1 & rest & -> & He & Hv & Hr)]].
    + exists events, e, d, []. split_and!; [done|done|done|]. by intros e' d' v' Hin%elem_of_nil.
    + exists before, e1, d1, (rest ++ [(e, d)]). split_and!; [by rewrite <- app_assoc|done|done|].
      intros e' d' v' [Hin|Hin]%elem_of_app Hv'; [by apply (Hr e' d')|]. apply list_elem_of_singleton in Hin as [= -> ->]. by simplify_eq.
Qed.

Lemma services_announced r events k v :
  services (fold_left (fun m e => apply_discovery_event m e.1 e.2) events (mk_mdns_registry r ∅)) !! k = Some v <->
  announced events v /\ k = service_key v.
Proof.
  revert k v. induction events as [|[e d] events IH] using rev_ind; intros k v.
  - cbn. rewrite lookup_empty. split; [done|]. intros [(before & e & d & rest & E & _) _]. by destruct before.
  - rewrite fold_left_app. cbn [fold_left fst snd]. set (m := fold_left _ events _) in *. unfold apply_discovery_event.
    destruct (to_adb_service d) as [w|] eqn:Hd; [|by rewrite announced_none]. rewrite (announced_some _ _ _ w) by done.
    assert (forall x, service_key w = service_key x <-> svc_instance w = svc_instance x /\ svc_type w = svc_type x) as Hkey.
    { intros x. split; [apply service_key_inj|]. unfold service_key. by intros [-> ->]. }
    assert (services m !! k = Some v /\ k <> service_key w <-> ~ (svc_instance w = svc_instance v /\ svc_type w = svc_type v) /\ announced events v /\ k = service_key v) as Hold.
    { rewrite IH, <- Hkey. naive_solver. }
    assert (forall svs : gmap bytes AdbMdnsService, (svs !! k = Some v <-> (k = service_key w /\ v = w /\ e <> Delete) \/ (services m !! k = Some v /\ k <> service_key w)) ->
      svs !! k = Some v <-> (v = w /\ e <> Delete \/ ~ (svc_instance w = svc_instance v /\ svc_type w = svc_type v) /\ announced events v) /\ k = service_key v) as Hgoal.
    { intros svs ->. rewrite Hold. split; [intros [(-> & -> & ?)|(? & ? & ->)]|intros [[[-> ?]|[? ?]] ->]]; tauto. }
    destruct e; cbn [services]; [..|destruct (services m !! service_key w) as [old|] eqn:Eo; cbn [services]]; apply Hgoal.
    1,2: destruct (decide (service_key w = k)) as [<-|Hne]; [rewrite lookup_insert_eq|rewrite lookup_insert_ne by done]; naive_solver.
    + rewrite lookup_delete_Some. naive_solver.
    + destruct (decide (service_key w = k)) as [<-|Hne]; [rewrite Eo|]; naive_solver.
Qed.

(** C33: the wireless devices of the server are exactly those the network announces. After any events, from the
    start of the server: the services that are known are those whose last event, by instance and type, was not
    their end, as that event told them; serials, transport ids and rules are well-formed; the USB devices are
    untouched; each serial for which a service with an address is known has a device, which is the USB device of
    that serial or has the address and the properties of the chosen service; every device that is not USB is such a
    one; and the chosen service is the first by type and instance name, whatever the order of the table. *)
Theorem mdns_devices_reflect enumerated (events : list (AdbMdnsUpdate * DiscoveredService)) :
  let m := fold_left (fun m e => apply_discovery_event m e.1 e.2) events (mk_mdns_registry (registry_new enumerated) ∅) in
  (forall k v, services m !! k = Some v <-> announced events v /\ k = service_key v) /\
  registry_wf (transports m) /\
  List.filter (fun d => is_usb (origin d)) (devices (transports m)) = devices (registry_new enumerated) /\
  (forall s v, best (services m) s = Some v ->
     exists d, In d (devices (transports m)) /\ serial d = s /\ (is_usb (origin d) = true \/ wireless v d)) /\
  (forall d, In d (devices (transports m)) -> is_usb (origin d) = false ->
     exists v, best (services m) (serial d) = Some v /\ wireless v d) /\
  (forall s v, best (services m) s = Some v <->
     candidate (services m) s v /\ forall w, candidate (services m) s w -> w <> v -> service_cmp v w = Lt).
Proof.
  set (m0 := mk_mdns_registry _ _). intros m.
  assert (mdns_inv m /\ List.filter (fun d => is_usb (origin d)) (devices (transports m)) = devices (registry_new enumerated))
    as [(Hw & Hk & Hg) Hu].
  { subst m. assert (List.filter (fun d => is_usb (origin d)) (devices (transports m0)) = devices (registry_new enumerated)) as H0
      by apply filter_all, registry_new_usb.
    generalize (fresh_inv enumerated : mdns_inv m0). revert H0. generalize m0. clear m0.
    induction events as [|[e d] events IH]; intros m H0 Hi; [done|]. cbn [fold_left fst snd].
    apply IH; [by rewrite event_usb|by apply event_inv]. }
  split_and!; [intros k v; apply services_announced|done|done| | |].
  - intros s v. apply good_entry, Hg.
  - intros d. apply wireless_entry_known, Hg.
  - intros s v. by apply best_iff.
Qed.

(** ** From the network to the devices *)
Section Network.
Context `{Dns}.
Abbreviation Listener := (gmap (bytes * bytes) InstanceDetails).

Definition server_hears (m : MdnsRegistry) (cmd : ZeroConfigCommand) : MdnsRegistry :=
  match reported cmd with Some (event, info) => apply_discovery_event m event info | None => m end.

(** The service the server makes of what the engine knows. *)
Definition service_of (i t : bytes) (d : InstanceDetails) : option AdbMdnsService :=
  to_adb_service (own_callback_event Create i t (hostname d) (det_ipv4s d) (det_ipv6s d) (MdnsStore.port d) (txt d)).2.

Definition ADB_TYPES : list bytes := [B "_adb._tcp"; B "_adb-tls-connect._tcp"; B "_adb-tls-pairing._tcp"].

Definition typed (c : Listener) : Prop := forall i t d, c !! (i, t) = Some d -> t ∈ ADB_TYPES.
Definition cmd_typed (cmd : ZeroConfigCommand) : Prop :=
  match cmd with
  | CreateService _ t _ _ _ _ _ | UpdateService _ t _ _ _ _ _ | DeleteService _ t => t ∈ ADB_TYPES
  | _ => True
  end.

(** The server knows the services of a listener. *)
Definition knows (m : MdnsRegistry) (c : Listener) : Prop :=
  forall k v, services m !! k = Some v <-> exists i t d, c !! (i, t) = Some d /\ service_of i t d = Some v /\ k = service_key v.

Lemma transport_type_inj t t' x : t ∈ ADB_TYPES -> t' ∈ ADB_TYPES ->
  transport_type t = Some x -> transport_type t' = Some x -> t = t'.
Proof.
  intros Ht Ht'. unfold ADB_TYPES in *. rewrite !elem_of_cons in Ht, Ht'.
  destruct Ht as [->|[->|[->|[]%elem_of_nil]]], Ht' as [->|[->|[->|[]%elem_of_nil]]]; vm_compute; congruence.
Qed.

Lemma service_of_key i t d v : service_of i t d = Some v -> svc_instance v = i /\ transport_type t = Some (svc_type v).
Proof. unfold service_of, to_adb_service. cbn [own_callback_event snd d_type d_instance]. destruct (transport_type t); [|done]. by intros [= <-]. Qed.

(** Two services of a listener with one key are one. *)
Lemma service_of_inj i t d v i' t' d' v' : t ∈ ADB_TYPES -> t' ∈ ADB_TYPES ->
  service_of i t d = Some v -> service_of i' t' d' = Some v' -> service_key v = service_key v' -> i = i' /\ t = t'.
Proof.
  intros Ht Ht' [<- E]%service_of_key [<- E']%service_of_key [Hi Hty]%service_key_inj. split; [done|].
  rewrite Hty in E. by apply (transport_type_inj t t' (svc_type v')).
Qed.

Lemma knows_insert m c i t d e : knows m c -> typed c -> t ∈ ADB_TYPES -> e <> Delete ->
  knows (apply_discovery_event m e (own_callback_event e i t (hostname d) (det_ipv4s d) (det_ipv6s d) (MdnsStore.port d) (txt d)).2)
    (<[(i, t) := d]> c).
Proof.
  intros Hk Hc Ht He.
  assert (apply_discovery_event m e (own_callback_event e i t (hostname d) (det_ipv4s d) (det_ipv6s d) (MdnsStore.port d) (txt d)).2
    = apply_discovery_event m Create (own_callback_event Create i t (hostname d) (det_ipv4s d) (det_ipv6s d) (MdnsStore.port d) (txt d)).2)
    as -> by by destruct e.
  unfold apply_discovery_event. fold (service_of i t d). intros k v. destruct (service_of i t d) as [w|] eqn:Ew.
  - cbn [services]. rewrite lookup_insert_Some. split.
    + intros [[<- <-]|[Hne Hv]]; [exists i, t, d; by rewrite lookup_insert_eq|].
      apply Hk in Hv as (i' & t' & d' & Hc' & Hs & ->). exists i', t', d'. split; [|done].
      rewrite lookup_insert_ne; [done|]. intros [= <- <-]. apply Hne.
      apply service_of_key in Hs as [E1 E2]. apply service_of_key in Ew as [E3 E4]. unfold service_key. congruence.
    + intros (i' & t' & d' & Hc' & Hs & ->). destruct (decide ((i, t) = (i', t'))) as [[= <- <-]|Hne].
      * rewrite lookup_insert_eq in Hc'. injection Hc' as <-. rewrite Hs in Ew. injection Ew as <-. by left.
      * rewrite lookup_insert_ne in Hc' by done. right. split; [|apply Hk; eauto 10].
        intros E. apply Hne. destruct (service_of_inj i t d w i' t' d' v) as [-> ->]; try done. by apply (Hc i' t' d').
  - rewrite (Hk k v). split; intros (i' & t' & d' & Hc' & Hs & ->); exists i', t', d'; (split; [|done]).
    + rewrite lookup_insert_ne; [done|]. intros [= <- <-].
      unfold service_of, to_adb_service in *. cbn [own_callback_event snd d_type] in *. by destruct (transport_type t).
    + rewrite lookup_insert_ne in Hc'; [done|]. intros [= <- <-]. rewrite lookup_insert_eq in Hc'. injection Hc' as <-. by rewrite Hs in Ew.
Qed.

Lemma knows_delete m c i t : knows m c -> typed c -> t ∈ ADB_TYPES ->
  knows (apply_discovery_event m Delete (own_callback_event Delete i t [] ∅ ∅ 0 ∅).2) (delete (i, t) c).
Proof.
  intros Hk Hc Ht k v. unfold apply_discovery_event, to_adb_service. cbn [own_callback_event snd d_type d_instance].
  assert (forall i' t' d', transport_type t = None -> service_of i' t' d' = Some v -> (i, t) <> (i', t')) as Hnone.
  { intros i' t' d' E [_ E']%service_of_key [= <- <-]. congruence. }
  destruct (transport_type t) as [x|] eqn:Ex.
  - set (w := mk_service x i _ _ _ _). assert (forall i' t' d', service_of i' t' d' = Some v -> t' ∈ ADB_TYPES ->
      service_key w = service_key v <-> (i, t) = (i', t')) as Hkey.
    { intros i' t' d' [Hi E']%service_of_key Ht'. split.
      - intros [Hi' Hx]%service_key_inj. cbn in Hi', Hx. rewrite <- Hx in E'. rewrite Hi', Hi.
        by rewrite (transport_type_inj t t' x).
      - intros [= -> ->]. unfold service_key. rewrite Ex in E'. injection E' as E'. cbn [w svc_instance svc_type]. by rewrite Hi, E'. }
    assert (services (match services m !! service_key w with
      | Some old => mk_mdns_registry (refresh_device_for_serial (delete (service_key w) (services m)) (service_serial old) (transports m)) (delete (service_key w) (services m))
      | None => m end) = delete (service_key w) (services m)) as ->.
    { destruct (services m !! service_key w) eqn:E; [done|]. symmetry. by apply delete_id. }
    rewrite lookup_delete_Some, (Hk k v). split.
    + intros [Hne (i' & t' & d' & Hc' & Hs & ->)]. exists i', t', d'. split; [|done]. rewrite lookup_delete_ne; [done|].
      intros E. apply Hne, (Hkey i' t' d'); [done|by apply (Hc i' t' d')|done].
    + intros (i' & t' & d' & Hc' & Hs & ->). apply lookup_delete_Some in Hc' as [Hne Hc']. split; [|eauto 10].
      intros E. apply Hne, (Hkey i' t' d'); [done|by apply (Hc i' t' d')|done].
  - rewrite (Hk k v). split; intros (i' & t' & d' & Hc' & Hs & ->); exists i', t', d'; (split; [|done]).
    + rewrite lookup_delete_ne; [done|]. by apply (Hnone i' t' d').
    + by apply lookup_delete_Some in Hc' as [_ Hc'].
Qed.

Lemma hears_step m c cmd : mdns_inv m -> knows m c -> typed c -> cmd_typed cmd ->
  mdns_inv (server_hears m cmd) /\ knows (server_hears m cmd) (hear c cmd) /\ typed (hear c cmd).
Proof.
  intros Hi Hk Hc Ht. unfold server_hears.
  assert (forall i t d, t ∈ ADB_TYPES -> typed (<[(i, t) := d]> c)) as Hins.
  { intros i t d Htt i' t' d'. rewrite lookup_insert_Some. intros [[[= <- <-] _]|[_ ?]]; [done|by eapply Hc]. }
  destruct cmd as [qs|i t h v4 v6 p x|i t h v4 v6 p x|i t|]; cbn [reported hear]; [done| | | |done].
  - split_and!; [by apply event_inv| |by apply Hins]. by apply (knows_insert m c i t (told h v4 v6 p x) Create).
  - split_and!; [by apply event_inv| |by apply Hins]. by apply (knows_insert m c i t (told h v4 v6 p x) Update).
  - split_and!; [by apply event_inv|by apply knows_delete|].
    intros i' t' d'. rewrite lookup_delete_Some. intros [_ ?]. by eapply Hc.
Qed.

Lemma hears_all cmds : forall m c, mdns_inv m -> knows m c -> typed c -> Forall cmd_typed cmds ->
  mdns_inv (fold_left server_hears cmds m) /\ knows (fold_left server_hears cmds m) (fold_left hear cmds c).
Proof.
  induction cmds as [|cmd cmds IH]; intros m c Hi Hk Hc Ht; [done|]. apply list.Forall_cons in Ht as [Ht Hts]. cbn [fold_left].
  destruct (hears_step m c cmd) as (? & ? & ?); [done..|]. by apply IH.
Qed.

Definition adb_services (s : Services) : Prop := forall f d, s !! f = Some d -> service_type f ∈ ADB_TYPES.

Lemma diff_typed last snap : adb_services last -> adb_services snap -> Forall cmd_typed (diff_commands last snap).
Proof.
  intros Hl Hs. unfold diff_commands. apply Forall_app. split; apply Forall_concat, Forall_map, Forall_forall.
  - intros [f d] Hin. apply list_elem_of_In, elem_of_map_to_list in Hin. specialize (Hs f d Hin). unfold diff_service.
    repeat case_match; first [apply List.Forall_nil | by apply list.Forall_singleton].
  - intros [f d] Hin. apply list_elem_of_In, elem_of_map_to_list in Hin. specialize (Hl f d Hin). unfold diff_deleted.
    repeat case_match; first [apply List.Forall_nil | by apply list.Forall_singleton].
Qed.

(** C34: what the network announces and the devices of the server, end to end. When the server's table mirrors the last
    snapshot of the engine, the commands of a tick make it mirror the new one: its services are those of the
    snapshot that are transports; each of them with an address has a device under its serial; and every device that
    is not USB has the address and properties of a service of the snapshot. *)
Theorem network_devices_listed (z : ZeroConfig) (dom : bytes) (c : Listener) (m : MdnsRegistry) :
  one_domain dom (last_snap_shot z) -> one_domain dom (snapshot (store z)) ->
  adb_services (last_snap_shot z) -> adb_services (snapshot (store z)) ->
  mirrors dom c (last_snap_shot z) -> commands z = [] -> mdns_inv m -> knows m c ->
  let m' := fold_left server_hears (commands (create_diff_commands z)) m in
  let snap := snapshot (store z) in
  mdns_inv m' /\
  (forall k v, services m' !! k = Some v <->
     exists f d, snap !! f = Some d /\ service_of (instance_name f) (service_type f) d = Some v /\ k = service_key v) /\
  (forall f d v, snap !! f = Some d -> service_of (instance_name f) (service_type f) d = Some v -> svc_addresses v <> [] ->
     exists dev, In dev (devices (transports m')) /\ serial dev = service_serial v) /\
  (forall dev, In dev (devices (transports m')) -> is_usb (origin dev) = false ->
     exists f d v, snap !! f = Some d /\ service_of (instance_name f) (service_type f) d = Some v /\
       serial dev = service_serial v /\ wireless v dev).
Proof.
  intros Hl Hs Tl Ts Hm Hn Hi Hk. cbn [create_diff_commands with_snapshot commands]. rewrite Hn. cbn [app].
  assert (typed c) as Hc.
  { intros i t d Hd. rewrite Hm in Hd. by apply Tl in Hd. }
  destruct (hears_all (diff_commands (last_snap_shot z) (snapshot (store z))) m c) as [Hi' Hk']; [done..|by apply diff_typed|].
  pose proof (diff_mirrors dom c _ _ Hl Hs Hm) as Hm'. set (m' := fold_left server_hears _ m) in *.
  set (c' := fold_left hear _ c) in *. set (snap := snapshot (store z)) in *.
  assert (forall k v, services m' !! k = Some v <->
     exists f d, snap !! f = Some d /\ service_of (instance_name f) (service_type f) d = Some v /\ k = service_key v) as Hsv.
  { intros k v. rewrite (Hk' k v). split.
    - intros (i & t & d & Hd & Ho & ->). rewrite Hm' in Hd. by exists (fq_new i t dom), d.
    - intros (f & d & Hd & Ho & ->). exists (instance_name f), (service_type f), d. split; [|done].
      rewrite Hm'. by rewrite <- (Hs f d Hd). }
  split_and!; [done|done| |].
  - intros f d v Hf Ho Ha. destruct Hi' as (_ & Hkey & Hg).
    destruct (best (services m') (service_serial v)) as [w|] eqn:Eb.
    + destruct (good_entry _ _ _ _ (Hg _) Eb) as (dev & Hin & Hser & _). by exists dev.
    + exfalso. apply best_none with (v := v) in Eb. apply Eb. split; [|done]. exists (service_key v). apply Hsv. eauto.
  - intros dev Hin Hu. destruct Hi' as (_ & Hkey & Hg).
    destruct (wireless_entry_known _ _ _ (Hg _) Hin Hu) as (v & Eb & Hwl).
    apply best_iff in Eb as [([k Hv] & Hser & _) _]; [|done]. apply Hsv in Hv as (f & d & Hf & Ho & _). exists f, d, v. done.
Qed.
End Network.

(** ** A phone that is found *)
Module BackendSample.
#[local] Existing Instance ZeroConfig.Sample.sample_dns.
Definition engine : ZeroConfig := ZeroConfig.Sample.z120.
Definition server : MdnsRegistry := mk_mdns_registry (registry_new None) ∅.
Definition server' : MdnsRegistry := fold_left server_hears (commands (create_diff_commands engine)) server.
Definition phone : FQServiceName := fq_new (B "phone") (B "_adb._tcp") (B "local").

Lemma adb_services_check (s : Services) :
  bool_decide (map_Forall (fun f _ => service_type f ∈ ADB_TYPES) s) = true -> adb_services s.
Proof. intros Hs%bool_decide_eq_true f d. apply Hs. Qed.

Lemma knows_nothing : knows server ∅.
Proof. intros k v. split; [cbn [services server]; by rewrite lookup_empty|]. intros (i & t & d & Hd & _). by rewrite lookup_empty in Hd. Qed.
End BackendSample.

Lemma network_devices_listed_witness :
  exists dev, In dev (devices (transports BackendSample.server')) /\ serial dev = B "phone".
Proof.
  assert (last_snap_shot BackendSample.engine = ∅) as El by (apply (bool_decide_unpack _); vm_compute; exact I).
  assert (one_domain (B "local") (last_snap_shot BackendSample.engine)) as H1
    by (rewrite El; intros f d Hf; rewrite lookup_empty in Hf; discriminate).
  assert (adb_services (last_snap_shot BackendSample.engine)) as H2
    by (rewrite El; intros f d Hf; rewrite lookup_empty in Hf; discriminate).
  assert (mirrors (B "local") ∅ (last_snap_shot BackendSample.engine)) as H3 by (rewrite El; intros i t; reflexivity).
  assert (one_domain (B "local") (snapshot (store BackendSample.engine))) as H4
    by (apply ZeroConfig.Sample.one_domain_check; vm_compute; reflexivity).
  assert (adb_services (snapshot (store BackendSample.engine))) as H5
    by (apply BackendSample.adb_services_check; vm_compute; reflexivity).
  assert (commands BackendSample.engine = []) as H6 by (vm_compute; reflexivity).
  pose proof (network_devices_listed BackendSample.engine (B "local") ∅ BackendSample.server H1 H4 H2 H5 H3 H6
    (fresh_inv None) BackendSample.knows_nothing) as (_ & _ & H7 & _).
  destruct (snapshot (store BackendSample.engine) !! BackendSample.phone) as [d|] eqn:Ed; [|vm_compute in Ed; discriminate].
  destruct (service_of (B "phone") (B "_adb._tcp") d) as [v|] eqn:Ev; [|vm_compute in Ev; discriminate].
  specialize (H7 BackendSample.phone d v Ed Ev).
  vm_compute in Ed. injection Ed as <-. vm_compute in Ev. injection Ev as <-. apply H7. discriminate.
Defined.

(** The phone as it is listed, and after it is gone. *)
Example phone_listed :
  list_devices (transports BackendSample.server') false = B "phone	device" ++ [x0a] /\
  map origin (devices (transports BackendSample.server')) = [Tcp (mk_addr (B "0.0.0.1") false 5555)] /\
  devices (transports (apply_discovery_event BackendSample.server' Delete
    (own_callback_event Delete (B "phone") (B "_adb._tcp") [] ∅ ∅ 0 ∅).2)) = [].
Proof. split_and!; vm_compute; reflexivity. Qed.
