(* ===== verification/DnsName.v ===== *)
(** * Names in DNS messages

    The name functions of [server/adb_mdns.rs] and [client/mdns.rs], which are the same but for a final dot, and
    the queries they send. Decoding follows compression pointers without a bound: a run that takes more steps than
    the message has bytes never ends ([decode_ends_iff]), and is [None] here.

    [name_at] is the reading of a name that the format gives; decoding computes exactly it ([decode_name_iff]). *)
From S2P Require Import Prelude Text.

(** ** Encoding *)
Definition dns_label (label : bytes) : bytes := z2b (Z.min (zlen label) 63) :: label.

Definition encode_dns_name (name : bytes) : bytes :=
  let trimmed := trim_end_byte "."%byte name in
  concat (map dns_label (List.filter (fun l => negb (zlen l =? 0)) (split_on "."%byte trimmed))) ++ [x00].

(** The header of a query with one question. *)
Definition query_header : bytes := [x00; x00; x00; x00; x00; x01; x00; x00; x00; x00; x00; x00].
Definition dns_query (name : bytes) (qtype : Z) : bytes :=
  query_header ++ encode_dns_name name ++ be_bytes 2 qtype ++ [x80; x01].

Definition build_ptr_query (service_domain : bytes) : bytes := dns_query service_domain 0x0c.
Definition build_srv_query (fqdn : bytes) : bytes := dns_query fqdn 0x21.
Definition build_txt_query (fqdn : bytes) : bytes := dns_query fqdn 0x10.
Definition build_address_query (hostname : bytes) (qtype : Z) : bytes := dns_query hostname qtype.

(** ** Decoding *)
Definition is_pointer (len : Z) : bool := Z.land len 0xc0 =? 0xc0.

Definition past_end : bytes := B "offset past end of DNS name".
Definition label_past_end : bytes := B "label extends past end of DNS name".

Fixpoint skip_go (fuel : nat) (data : bytes) (offset : Z) : res bytes Z :=
  match fuel with
  | O => Panic
  | S fuel =>
      if zlen data <=? offset then Err past_end else
      let! len := get_index data offset in
      let len := b2z len in
      if is_pointer len then Ok (offset + 2)
      else if len =? 0 then Ok (offset + 1)
      else if zlen data <? offset + 1 + len then Err label_past_end
      else skip_go fuel data (offset + 1 + len)
  end.
Definition skip_dns_name (data : bytes) (offset : Z) : res bytes Z := skip_go (S (length data)) data offset.

(** [std::str::from_utf8(l).unwrap_or("")]. *)
Definition label_text (l : bytes) : bytes := if is_utf8 l then l else [].

(** One round of the loop: the end of the name, an error, or the next offset with the label that was read. *)
Inductive step := Stop (r : res bytes unit) | Next (offset : Z) (label : option bytes).

Definition decode_step (data : bytes) (offset : Z) : step :=
  if zlen data <=? offset then Stop (Err past_end) else
  match get_index data offset with
  | Ok len =>
      let len := b2z len in
      if is_pointer len then
        match get_index data (offset + 1) with
        | Ok low => Next (Z.lor (Z.shiftl (Z.land len 0x3f) 8) (b2z low)) None
        | Err e => Stop (Err e)
        | Panic => Stop Panic
        end
      else if len =? 0 then Stop (Ok tt)
      else if zlen data <? offset + 1 + len then Stop (Err label_past_end)
      else Next (offset + 1 + len) (Some (slice (offset + 1) (offset + 1 + len) data))
  | Err e => Stop (Err e)
  | Panic => Stop Panic
  end.

Fixpoint decode_go (fuel : nat) (data : bytes) (offset : Z) : option (res bytes (list bytes)) :=
  match fuel with
  | O => None
  | S fuel =>
      match decode_step data offset with
      | Stop r => Some (let! _ := r in Ok [])
      | Next offset label =>
          match decode_go fuel data offset with
          | Some r => Some (let! labels := r in Ok (match label with Some l => l :: labels | None => labels end))
          | None => None
          end
      end
  end.

(** [None]: the call does not return. *)
Definition decode_labels (data : bytes) (offset : Z) : option (res bytes (list bytes)) :=
  decode_go (S (length data)) data offset.

Definition name_text (labels : list bytes) : bytes := join (B ".") (map label_text labels).
Definition decode_dns_name (data : bytes) (offset : Z) : option (res bytes bytes) :=
  match decode_labels data offset with Some r => Some (let! l := r in Ok (name_text l)) | None => None end.

(** ** Decoding ends, or never does *)
Definition halts (data : bytes) (k : nat) (offset : Z) : Prop :=
  exists r, decode_go (S k) data offset = Some r /\ decode_go k data offset = None.

Lemma decode_go_mono fuel : forall fuel' data offset r, (fuel <= fuel')%nat ->
  decode_go fuel data offset = Some r -> decode_go fuel' data offset = Some r.
Proof.
  induction fuel as [|fuel IH]; intros [|fuel'] data offset r Hle E; [done|done|lia|]. cbn [decode_go] in *.
  destruct (decode_step data offset) as [s|o l]; [done|].
  destruct (decode_go fuel data o) as [x|] eqn:Ex; [|done]. rewrite (IH fuel' data o x); [done|lia|done].
Qed.

(** The offsets of a run, each of which is within the data. *)
Fixpoint visited (k : nat) (data : bytes) (offset : Z) : list Z :=
  match k with
  | O => []
  | S k => offset :: match decode_step data offset with Next o _ => visited k data o | Stop _ => [] end
  end.

Lemma step_inside data offset o l : 0 <= offset -> decode_step data offset = Next o l -> offset < zlen data /\ 0 <= o.
Proof.
  intros Ho. unfold decode_step. destruct (Z.leb_spec (zlen data) offset); [done|].
  destruct (get_index data offset) as [b| |]; [|done..]. pose proof (b2z_range b). destruct (is_pointer (b2z b)).
  - destruct (get_index data (offset + 1)) as [c| |]; [|done..]. intros [= <- _]. split; [done|].
    apply Z.lor_nonneg. split; [|apply b2z_range]. apply Z.shiftl_nonneg, Z.land_nonneg. lia.
  - destruct (_ =? 0); [done|]. destruct (_ <? _); [done|]. intros [= <- _]. lia.
Qed.

Lemma halts_step data k offset : halts data (S k) offset ->
  exists o l, decode_step data offset = Next o l /\ halts data k o.
Proof.
  intros (r & E1 & E2). cbn [decode_go] in E1, E2. destruct (decode_step data offset) as [s|o l]; [done|].
  exists o, l. split; [done|]. change (decode_go (S k) data o) with
    (match decode_step data o with Stop r => Some (let! _ := r in Ok []) | Next o l => match decode_go k data o with
      | Some r => Some (let! labels := r in Ok (match l with Some l => l :: labels | None => labels end)) | None => None end end) in E1.
  unfold halts. cbn [decode_go]. destruct (decode_step data o) as [s|o' l'].
  - eexists. split; [done|]. destruct k; [done|]. by destruct (decode_go (S k) data o).
  - destruct (decode_go k data o') as [x|] eqn:Ex; [|done]. eexists. split; [done|]. by destruct (decode_go k data o).
Qed.

Lemma halts_unique data k k' offset : halts data k offset -> halts data k' offset -> k = k'.
Proof.
  assert (forall a b, halts data a offset -> halts data b offset -> (b <= a)%nat) as Hle.
  { intros a b (r & E & _) (_ & _ & E'). destruct (Nat.le_gt_cases b a); [done|].
    rewrite (decode_go_mono (S a) b data offset r) in E'; [done|lia|done]. }
  intros H1 H2. pose proof (Hle k k' H1 H2). pose proof (Hle k' k H2 H1). lia.
Qed.

Lemma visited_spec k : forall data offset, 0 <= offset -> halts data k offset ->
  length (visited k data offset) = k /\ NoDup (visited k data offset) /\
  forall x, x ∈ visited k data offset -> 0 <= x < zlen data /\ exists j, (0 < j <= k)%nat /\ halts data j x.
Proof.
  induction k as [|k IH]; intros data offset Ho Hh.
  { split; [done|]. split; [constructor|]. intros x []%elem_of_nil. }
  destruct (halts_step _ _ _ Hh) as (o & l & Es & Hk). cbn [visited]. rewrite Es.
  destruct (step_inside _ _ _ _ Ho Es) as [Hin Ho']. destruct (IH data o Ho' Hk) as (Hl & Hn & Hx). split_and!.
  - cbn. by rewrite Hl.
  - apply list.NoDup_cons. split; [|done]. intros (_ & j & Hj & Hjo)%Hx. pose proof (halts_unique _ _ _ _ Hh Hjo). lia.
  - intros x [->|(Hr & j & Hj & Hjo)%Hx]%elem_of_cons; [|split; [done|]; exists j; split; [lia|done]].
    split; [lia|]. exists (S k). split; [lia|done].
Qed.

Lemma halts_bound data k offset : 0 <= offset -> halts data k offset -> (k <= length data)%nat.
Proof.
  intros Ho Hh. destruct (visited_spec k data offset Ho Hh) as (Hl & Hn & Hx). rewrite <- Hl.
  transitivity (length (map Z.of_nat (seq 0 (length data)))); [|by rewrite length_map, length_seq]. apply NoDup_incl_length; [by apply NoDup_ListNoDup|].
  intros x Hin. apply list_elem_of_In, Hx in Hin as [Hr _]. apply in_map_iff. exists (Z.to_nat x).
  unfold zlen in Hr. split; [lia|]. apply in_seq. lia.
Qed.

Lemma decode_go_halts fuel data offset r : decode_go fuel data offset = Some r -> exists k, halts data k offset.
Proof.
  revert r. induction fuel as [|fuel IH]; intros r; [done|]. intros E. destruct (decode_go fuel data offset) as [x|] eqn:Ex; [by apply (IH x)|].
  by exists fuel, r.
Qed.

(** A name is decoded within as many rounds as the message has bytes and one more, or never. *)
Lemma decode_fuel fuel data offset r : 0 <= offset -> decode_go fuel data offset = Some r -> decode_labels data offset = Some r.
Proof.
  intros Ho E. destruct (decode_go_halts _ _ _ _ E) as [k Hk]. pose proof (halts_bound _ _ _ Ho Hk) as Hb.
  destruct Hk as (r' & E1 & E2). unfold decode_labels. rewrite (decode_go_mono (S k) _ _ _ r'); [|lia|done].
  destruct (Nat.le_gt_cases fuel k) as [Hle|Hgt].
  - by rewrite (decode_go_mono fuel k data offset r) in E2.
  - by rewrite (decode_go_mono (S k) fuel data offset r') in E by (done || lia).
Qed.

(** ** The name at an offset *)
Inductive name_at (data : bytes) : Z -> list bytes -> Prop :=
| name_end offset : get_index (E := bytes) data offset = Ok x00 -> name_at data offset []
| name_label offset len rest :
    get_index (E := bytes) data offset = Ok len -> 0 < b2z len < 192 -> offset + 1 + b2z len <= zlen data ->
    name_at data (offset + 1 + b2z len) rest ->
    name_at data offset (slice (offset + 1) (offset + 1 + b2z len) data :: rest)
| name_pointer offset high low rest :
    get_index (E := bytes) data offset = Ok high -> 192 <= b2z high -> get_index (E := bytes) data (offset + 1) = Ok low ->
    name_at data ((b2z high - 192) * 256 + b2z low) rest ->
    name_at data offset rest.

Lemma get_index_inside {E} (data : bytes) i b : get_index (E := E) data i = Ok b -> 0 <= i < zlen data.
Proof.
  unfold get_index. destruct (Z.leb_spec 0 i); [|done]. destruct (data !! Z.to_nat i) eqn:El; [|done]. intros _.
  apply lookup_lt_Some in El. unfold zlen. lia.
Qed.

(** The highest bits of a pointer, and its target. *)
Lemma pointer_bits b : is_pointer (b2z b) = (192 <=? b2z b).
Proof. by destruct b. Qed.
Lemma pointer_target b c : 192 <= b2z b -> Z.lor (Z.shiftl (Z.land (b2z b) 0x3f) 8) (b2z c) = (b2z b - 192) * 256 + b2z c.
Proof.
  intros Hb. assert (Z.land (b2z b) 0x3f = b2z b - 192) as -> by (destruct b; vm_compute in Hb |- *; congruence).
  pose proof (b2z_range c). rewrite <- Z.add_lor_land. rewrite Z.shiftl_mul_pow2 by lia. change (2 ^ 8) with 256.
  assert (Z.land ((b2z b - 192) * 256) (b2z c) = 0) as ->; [|lia].
  apply Z.bits_inj'. intros i Hi. rewrite Z.bits_0, Z.land_spec. change 256 with (2 ^ 8). destruct (Z.lt_ge_cases i 8).
  - by rewrite Z.mul_pow2_bits_low.
  - rewrite (Z.bits_above_log2 (b2z c)); [apply andb_false_r|lia|].
    destruct (Z.eq_dec (b2z c) 0) as [->|]; [cbn; lia|]. apply Z.log2_lt_pow2; [lia|].
    apply Z.lt_le_trans with (2 ^ 8); [lia|]. by apply Z.pow_le_mono_r.
Qed.

Lemma decode_step_cases data offset : 0 <= offset ->
  match decode_step data offset with
  | Stop (Ok _) => get_index (E := bytes) data offset = Ok x00
  | Stop (Err _) => zlen data <= offset \/ exists b, get_index (E := bytes) data offset = Ok b /\ 0 < b2z b < 192 /\ zlen data < offset + 1 + b2z b
  | Stop Panic => exists b, get_index (E := bytes) data offset = Ok b /\ 192 <= b2z b /\ offset + 1 = zlen data
  | Next o (Some l) => exists b, get_index (E := bytes) data offset = Ok b /\ 0 < b2z b < 192 /\ offset + 1 + b2z b <= zlen data /\
      o = offset + 1 + b2z b /\ l = slice (offset + 1) (offset + 1 + b2z b) data
  | Next o None => exists b c, get_index (E := bytes) data offset = Ok b /\ 192 <= b2z b /\ get_index (E := bytes) data (offset + 1) = Ok c /\
      o = (b2z b - 192) * 256 + b2z c
  end.
Proof.
  intros Ho. unfold decode_step. destruct (Z.leb_spec (zlen data) offset); [by left|].
  assert (exists b, get_index (E := bytes) data offset = Ok b) as [b Eb].
  { unfold get_index. rewrite (proj2 (Z.leb_le _ _)) by done. destruct (data !! Z.to_nat offset) eqn:E; [by eexists|].
    apply lookup_ge_None in E. unfold zlen in *. lia. }
  rewrite Eb, pointer_bits. pose proof (b2z_range b). destruct (Z.leb_spec 192 (b2z b)) as [Hp|Hp].
  - destruct (get_index data (offset + 1)) as [c|e|] eqn:Ec.
    + exists b, c. by rewrite pointer_target.
    + exfalso. unfold get_index in Ec. repeat case_match; done.
    + exists b. split_and!; [done|done|]. unfold get_index in Ec. rewrite (proj2 (Z.leb_le _ _)) in Ec by lia.
      destruct (data !! Z.to_nat (offset + 1)) eqn:E; [done|]. apply lookup_ge_None in E. unfold zlen in *. lia.
  - destruct (Z.eqb_spec (b2z b) 0) as [E0|]; [f_equal; by apply b2z_inj|].
    destruct (Z.ltb_spec (zlen data) (offset + 1 + b2z b)).
    + right. exists b. split_and!; [done|lia..].
    + exists b. split_and!; [done|lia..|done|done].
Qed.

Lemma decode_labels_iff data offset labels : 0 <= offset ->
  decode_labels data offset = Some (Ok labels) <-> name_at data offset labels.
Proof.
  intros Ho. split.
  - unfold decode_labels. generalize (S (length data)) as fuel. intros fuel. revert offset Ho labels.
    induction fuel as [|fuel IH]; intros offset Ho labels; [done|]. cbn [decode_go]. pose proof (decode_step_cases data offset Ho) as Hc.
    destruct (decode_step data offset) as [[u|e|]|o l] eqn:Es; cbn [res_bind]; [|done..|].
    + intros [= <-]. by apply name_end.
    + destruct (step_inside _ _ _ _ Ho Es) as [_ Ho']. destruct (decode_go fuel data o) as [[ls|e|]|] eqn:Eg; cbn [res_bind]; [|done..].
      specialize (IH o Ho' ls Eg). destruct l as [l|]; intros [= <-].
      * destruct Hc as (b & Hb & Hr & Hl & -> & ->). by apply name_label.
      * destruct Hc as (b & c & Hb & Hr & Hcc & ->). by apply (name_pointer data offset b c).
  - intros Hn. assert (exists fuel, decode_go fuel data offset = Some (Ok labels)) as [fuel E]; [|by apply (decode_fuel fuel)].
    clear Ho. induction Hn as [offset Hb|offset b rest Hb Hr Hl Hn [fuel IH]|offset b c rest Hb Hp Hc Hn [fuel IH]];
      pose proof (get_index_inside _ _ _ Hb) as Hin.
    + exists 1%nat. cbn [decode_go]. unfold decode_step. rewrite (proj2 (Z.leb_gt _ _)) by lia. by rewrite Hb.
    + exists (S fuel). cbn [decode_go]. unfold decode_step. rewrite (proj2 (Z.leb_gt _ _)) by lia. rewrite Hb, pointer_bits.
      rewrite (proj2 (Z.leb_gt _ _)), (proj2 (Z.eqb_neq _ _)), (proj2 (Z.ltb_ge _ _)) by lia. by rewrite IH.
    + exists (S fuel). cbn [decode_go]. unfold decode_step. rewrite (proj2 (Z.leb_gt _ _)) by lia. rewrite Hb, pointer_bits.
      rewrite (proj2 (Z.leb_le _ _)) by lia. rewrite Hc, pointer_target by done. by rewrite IH.
Qed.

(** Reading a name to its end, whatever the end is: the labels on the way, and the end. *)
Inductive reading (data : bytes) : Z -> list bytes -> res bytes unit -> Prop :=
| reading_root offset : get_index (E := bytes) data offset = Ok x00 -> reading data offset [] (Ok tt)
| reading_outside offset : zlen data <= offset -> reading data offset [] (Err (B "offset past end of DNS name"))
| reading_long_label offset len :
    get_index (E := bytes) data offset = Ok len -> 0 < b2z len < 192 -> zlen data < offset + 1 + b2z len ->
    reading data offset [] (Err (B "label extends past end of DNS name"))
| reading_cut_pointer offset high :
    get_index (E := bytes) data offset = Ok high -> 192 <= b2z high -> offset + 1 = zlen data -> reading data offset [] Panic
| reading_label offset len rest e :
    get_index (E := bytes) data offset = Ok len -> 0 < b2z len < 192 -> offset + 1 + b2z len <= zlen data ->
    reading data (offset + 1 + b2z len) rest e ->
    reading data offset (slice (offset + 1) (offset + 1 + b2z len) data :: rest) e
| reading_pointer offset high low rest e :
    get_index (E := bytes) data offset = Ok high -> 192 <= b2z high -> get_index (E := bytes) data (offset + 1) = Ok low ->
    reading data ((b2z high - 192) * 256 + b2z low) rest e -> reading data offset rest e.

(** One round is one step of the reading. *)
Lemma decode_step_reading data offset : 0 <= offset ->
  match decode_step data offset with
  | Stop r => reading data offset [] r
  | Next o l => forall rest e, reading data o rest e ->
      reading data offset (match l with Some l => l :: rest | None => rest end) e
  end.
Proof.
  intros Ho. pose proof (decode_step_cases data offset Ho) as Hc. unfold decode_step in *.
  destruct (Z.leb_spec (zlen data) offset); [by apply reading_outside|].
  destruct (get_index data offset) as [b|e|] eqn:Eb; [| |by destruct Hc as (? & ? & _)].
  2:{ exfalso. unfold get_index in Eb. repeat case_match; done. }
  destruct (is_pointer (b2z b)) eqn:Ep.
  - destruct (get_index data (offset + 1)) as [c|e|] eqn:Ec.
    + destruct Hc as (b' & c' & [= <-] & Hp & [= <-] & ->). intros rest e. by apply (reading_pointer data offset b c).
    + exfalso. unfold get_index in Ec. repeat case_match; done.
    + destruct Hc as (b' & [= <-] & Hp & He). by apply (reading_cut_pointer data offset b).
  - destruct (Z.eqb_spec (b2z b) 0); [apply reading_root; by rewrite Eb|]. destruct (Z.ltb_spec (zlen data) (offset + 1 + b2z b)).
    + destruct Hc as [?|(b' & [= <-] & Hr & Hl)]; [lia|]. by apply (reading_long_label data offset b).
    + destruct Hc as (b' & [= <-] & Hr & Hl & _). intros rest e. by apply reading_label.
Qed.

Lemma reading_decode data offset labels e : reading data offset labels e ->
  0 <= offset -> exists fuel, decode_go fuel data offset = Some (let! _ := e in Ok labels).
Proof.
  induction 1 as [o Hb|o Ho|o b Hb Hr Hl|o b Hb Hp He|o b rest e Hb Hr Hl Hn IH|o b c rest e Hb Hp Hc Hn IH]; intros H0.
  - exists 1%nat. pose proof (get_index_inside _ _ _ Hb). cbn [decode_go]. unfold decode_step. rewrite (proj2 (Z.leb_gt _ _)) by lia. by rewrite Hb.
  - exists 1%nat. cbn [decode_go]. unfold decode_step. by rewrite (proj2 (Z.leb_le _ _)) by lia.
  - exists 1%nat. pose proof (get_index_inside _ _ _ Hb). cbn [decode_go]. unfold decode_step. rewrite (proj2 (Z.leb_gt _ _)) by lia.
    rewrite Hb, pointer_bits, (proj2 (Z.leb_gt _ _)), (proj2 (Z.eqb_neq _ _)), (proj2 (Z.ltb_lt _ _)) by lia. done.
  - exists 1%nat. pose proof (get_index_inside _ _ _ Hb). cbn [decode_go]. unfold decode_step. rewrite (proj2 (Z.leb_gt _ _)) by lia.
    rewrite Hb, pointer_bits, (proj2 (Z.leb_le _ _)) by lia.
    assert (get_index (E := bytes) data (o + 1) = Panic) as ->; [|done].
    unfold get_index. rewrite (proj2 (Z.leb_le _ _)) by lia. rewrite lookup_ge_None_2; [done|]. unfold zlen in *. lia.
  - destruct (IH ltac:(lia)) as [fuel E]. exists (S fuel). pose proof (get_index_inside _ _ _ Hb). cbn [decode_go]. unfold decode_step.
    rewrite (proj2 (Z.leb_gt _ _)) by lia. rewrite Hb, pointer_bits, (proj2 (Z.leb_gt _ _)), (proj2 (Z.eqb_neq _ _)), (proj2 (Z.ltb_ge _ _)) by lia.
    rewrite E. by destruct e.
  - pose proof (b2z_range c). destruct (IH ltac:(lia)) as [fuel E]. exists (S fuel). pose proof (get_index_inside _ _ _ Hb). cbn [decode_go].
    unfold decode_step. rewrite (proj2 (Z.leb_gt _ _)) by lia. rewrite Hb, pointer_bits, (proj2 (Z.leb_le _ _)) by lia.
    rewrite Hc, pointer_target by done. rewrite E. by destruct e.
Qed.

Lemma decode_reading fuel : forall data offset r, 0 <= offset -> decode_go fuel data offset = Some r ->
  exists labels e, reading data offset labels e /\ r = (let! _ := e in Ok labels).
Proof.
  induction fuel as [|fuel IH]; intros data offset r Ho; [done|]. cbn [decode_go]. pose proof (decode_step_reading data offset Ho) as Hs.
  destruct (decode_step data offset) as [x|o l] eqn:Es; [intros [= <-]; by exists [], x|].
  destruct (step_inside _ _ _ _ Ho Es) as [_ Ho']. destruct (decode_go fuel data o) as [y|] eqn:Ey; [|done]. intros [= <-].
  destruct (IH data o y Ho' Ey) as (labels & e & Hr & ->). exists (match l with Some l => l :: labels | None => labels end), e.
  split; [by apply Hs|]. by destruct e.
Qed.

(** C35: decoding a name of a message gives exactly what reading it by the format comes to (labels, and pointers to earlier or
    later parts): the labels joined by dots, those that are not UTF-8 left empty; or the error of a place outside of the message or
    of a label that is longer than what is left of it; or a panic, at a pointer whose second byte is missing. It does not
    return exactly when the reading has no end. *)
Theorem decode_name_iff data offset : 0 <= offset ->
  (forall r, decode_dns_name data offset = Some r <->
     exists labels e, reading data offset labels e /\
       r = match e with
           | Ok _ => Ok (join (B ".") (map (fun l => if is_utf8 l then l else []) labels))
           | Err text => Err text
           | Panic => Panic
           end) /\
  (decode_dns_name data offset = None <-> ~ exists labels e, reading data offset labels e) /\
  (decode_dns_name data offset = None <-> forall fuel, decode_go fuel data offset = None).
Proof.
  intros Ho.
  assert (forall x, decode_labels data offset = Some x <-> exists labels e, reading data offset labels e /\ x = (let! _ := e in Ok labels)) as Hl.
  { intros x. split; [by apply decode_reading|]. intros (labels & e & Hr & ->).
    destruct (reading_decode _ _ _ _ Hr Ho) as [fuel E]. by apply (decode_fuel fuel). }
  assert (decode_dns_name data offset = None <-> decode_labels data offset = None) as Hn.
  { unfold decode_dns_name. by destruct (decode_labels data offset). }
  split_and!.
  - intros r. unfold decode_dns_name. split.
    + destruct (decode_labels data offset) as [x|] eqn:E; [|done]. intros [= <-].
      destruct (proj1 (Hl x) eq_refl) as (labels & e & Hr & ->). exists labels, e. split; [done|]. by destruct e.
    + intros (labels & e & Hr & ->). rewrite (proj2 (Hl _) (ex_intro _ labels (ex_intro _ e (conj Hr eq_refl)))). by destruct e.
  - rewrite Hn. split.
    + intros E (labels & e & Hr). by rewrite (proj2 (Hl _) (ex_intro _ labels (ex_intro _ e (conj Hr eq_refl)))) in E.
    + intros Hne. destruct (decode_labels data offset) as [x|] eqn:E; [|done].
      destruct (proj1 (Hl x) eq_refl) as (labels & e & Hr & _). destruct Hne. by exists labels, e.
  - rewrite Hn. split; [|intros H; apply H]. intros E fuel. destruct (decode_go fuel data offset) as [r|] eqn:Ef; [|done].
    by rewrite (decode_fuel fuel data offset r Ho Ef) in E.
Qed.

Lemma decode_name_iff_witness :
  let data := query_header ++ encode_dns_name (B "_adb._tcp.local.") ++ encode_dns_name (B "phone") in
  decode_dns_name data 12 = Some (Ok (B "_adb._tcp.local")) /\
  exists labels e, reading data 12 labels e /\ e = Ok tt.
Proof.
  intros data. assert (decode_dns_name data 12 = Some (Ok (B "_adb._tcp.local"))) as E by (vm_compute; reflexivity).
  assert (0 <= 12) as Ho by lia. pose proof (decode_name_iff data 12 Ho) as [H _]. split; [exact E|].
  destruct (proj1 (H _) E) as (labels & e & Hr & He). exists labels, e. split; [exact Hr|]. destruct e as [[]| |]; [reflexivity|discriminate He|discriminate He].
Defined.

(** A pointer to itself: the loop does not end. *)
Example pointer_loop_hangs : forall fuel, decode_go fuel (query_header ++ [xc0; x0c]) 12 = None.
Proof.
  set (data := query_header ++ _). assert (decode_step data 12 = Next 12 None) as E by reflexivity.
  induction fuel as [|fuel IH]; [done|]. cbn [decode_go]. by rewrite E, IH.
Qed.

(** A pointer cut off by the end of the message is an index out of range. *)
Example cut_pointer_panics : decode_dns_name (query_header ++ [xc0]) 12 = Some Panic.
Proof. reflexivity. Qed.

(** ** Encoded names are read back *)
Definition wire (labels : list bytes) : bytes := concat (map dns_label labels) ++ [x00].
Definition good_label (l : bytes) : Prop := l <> [] /\ zlen l <= 63 /\ "."%byte ∉ l /\ is_utf8 l = true.

Lemma trim_end_dots c n s : s = [] \/ (exists p x, s = p ++ [x] /\ x <> c) -> trim_end_byte c (s ++ replicate n c) = s.
Proof.
  intros Hs. unfold trim_end_byte. rewrite reverse_app, reverse_replicate.
  assert (trim_start_byte c (replicate n c ++ reverse s) = reverse s) as ->; [|apply reverse_involutive].
  induction n as [|n IH]; [|cbn [replicate app trim_start_byte]; by rewrite beqb_refl].
  destruct Hs as [->|(p & x & -> & Hx)]; [done|]. rewrite reverse_app. cbn. by rewrite (proj2 (beqb_false x c)) by congruence.
Qed.

Lemma join_last c ls : Forall good_label ls -> c = "."%byte -> join [c] ls = [] \/ exists p x, join [c] ls = p ++ [x] /\ x <> c.
Proof.
  intros Hg ->. destruct (list.last ls) as [l|] eqn:El; [|apply last_None in El as ->; by left]. right.
  apply last_Some in El as [k ->]. apply Forall_app in Hg as [_ Hg]. apply list.Forall_singleton in Hg as (Hne & _ & Hd & _).
  destruct (exists_last Hne) as (p & x & ->). exists (concat (map (fun l => l ++ ["."%byte]) k) ++ p), x. split.
  - clear. induction k as [|a k IH]; [done|]. cbn [app map concat].
    assert (join ["."%byte] (a :: k ++ [p ++ [x]]) = a ++ ["."%byte] ++ join ["."%byte] (k ++ [p ++ [x]])) as -> by by destruct k.
    rewrite IH. by rewrite <- !app_assoc.
  - intros ->. apply Hd. apply elem_of_app. right. by left.
Qed.

Lemma encode_name ls n : Forall good_label ls -> encode_dns_name (join (B ".") ls ++ replicate n "."%byte) = wire ls.
Proof.
  intros Hg. unfold encode_dns_name. rewrite trim_end_dots by by apply join_last. unfold wire. f_equal. f_equal. f_equal.
  destruct ls as [|l ls]; [done|]. change (B ".") with ["."%byte]. rewrite split_on_join; [|done|].
  - apply filter_all. eapply list.Forall_impl; [exact Hg|]. intros x [Hne _]. destruct x; [done|]. rewrite zlen_cons. pose proof (zlen_nonneg x). by rewrite (proj2 (Z.eqb_neq _ _)) by lia.
  - eapply list.Forall_impl; [exact Hg|]. by intros x (_ & _ & ? & _).
Qed.

Lemma wire_cons l ls : wire (l :: ls) = dns_label l ++ wire ls.
Proof. unfold wire. cbn [map concat]. by rewrite app_assoc. Qed.
Lemma zlen_label l : zlen (dns_label l) = 1 + zlen l.
Proof. unfold dns_label. apply zlen_cons. Qed.

Lemma get_index_app {E} (pre : bytes) b post : get_index (E := E) (pre ++ b :: post) (zlen pre) = Ok b.
Proof.
  unfold get_index. rewrite (proj2 (Z.leb_le _ _)) by apply zlen_nonneg. unfold zlen. rewrite Nat2Z.id.
  by rewrite lookup_app_r, Nat.sub_diag by done.
Qed.

Lemma label_byte (l : bytes) : l <> [] -> zlen l <= 63 -> b2z (z2b (Z.min (zlen l) 63)) = zlen l /\ 0 < zlen l.
Proof.
  intros Hne Hl. destruct l as [|x l]; [done|]. rewrite b2z_z2b, zlen_cons in *. pose proof (zlen_nonneg l).
  split; [rewrite Z.mod_small; lia|lia].
Qed.

Lemma name_at_wire ls : Forall good_label ls -> forall pre post, name_at (pre ++ wire ls ++ post) (zlen pre) ls.
Proof.
  induction ls as [|l ls IH]; intros Hg pre post.
  - apply name_end. apply get_index_app.
  - apply list.Forall_cons in Hg as [(Hne & Hl & _ & _) Hg]. destruct (label_byte l Hne Hl) as [Hb Hp].
    rewrite wire_cons. unfold dns_label. rewrite <- app_assoc. cbn [app]. set (b := z2b _) in *.
    set (data := pre ++ b :: l ++ wire ls ++ post).
    assert (slice (zlen pre + 1) (zlen pre + 1 + b2z b) data = l) as Hs.
    { unfold data. rewrite Hb. change (b :: l ++ wire ls ++ post) with ([b] ++ l ++ wire ls ++ post). rewrite app_assoc.
      apply slice_app_here; [by rewrite zlen_app|done]. }
    rewrite <- Hs at 1. apply name_label; [apply get_index_app|lia| |].
    + unfold data. rewrite zlen_app, zlen_cons, !zlen_app. pose proof (zlen_nonneg (wire ls)). pose proof (zlen_nonneg post). lia.
    + specialize (IH Hg (pre ++ b :: l) post). rewrite <- app_assoc in IH. cbn [app] in IH. rewrite zlen_app, zlen_cons in IH.
      rewrite Hb. replace (zlen pre + 1 + zlen l) with (zlen pre + (1 + zlen l)) by lia. exact IH.
Qed.

Lemma skip_mono fuel : forall fuel' data o n, (fuel <= fuel')%nat -> skip_go fuel data o = Ok n -> skip_go fuel' data o = Ok n.
Proof.
  induction fuel as [|fuel IH]; intros [|fuel'] data o n Hle; [done|done|lia|]. cbn [skip_go].
  destruct (_ <=? _); [done|]. destruct (get_index data o) as [b| |]; [|done..]. cbn [res_bind].
  repeat (case_match; [done|]). apply IH. lia.
Qed.

Lemma skip_go_wire ls : Forall good_label ls -> forall pre post,
  skip_go (S (length ls)) (pre ++ wire ls ++ post) (zlen pre) = Ok (zlen pre + zlen (wire ls)).
Proof.
  induction ls as [|l ls IH]; intros Hg pre post; cbn [length]; [|set (fuel := S (length ls)) in *]; cbn [skip_go].
  - rewrite zlen_app, zlen_app. change (zlen (wire [])) with 1. pose proof (zlen_nonneg post).
    rewrite (proj2 (Z.leb_gt _ _)) by lia. change (wire [] ++ post) with (x00 :: post). by rewrite get_index_app.
  - apply list.Forall_cons in Hg as [(Hne & Hl & _ & _) Hg]. destruct (label_byte l Hne Hl) as [Hb Hp].
    rewrite wire_cons. unfold dns_label. rewrite <- app_assoc. cbn [app]. set (b := z2b _) in *.
    pose proof (zlen_nonneg (wire ls)). pose proof (zlen_nonneg post).
    rewrite zlen_app, zlen_cons, !zlen_app. rewrite (proj2 (Z.leb_gt _ _)) by lia. rewrite get_index_app. cbn [res_bind].
    rewrite pointer_bits, (proj2 (Z.leb_gt _ _)) by lia. rewrite (proj2 (Z.eqb_neq _ _)), (proj2 (Z.ltb_ge _ _)) by lia.
    specialize (IH Hg (pre ++ b :: l) post). rewrite <- app_assoc in IH. cbn [app] in IH. rewrite zlen_app, zlen_cons in IH.
    rewrite Hb. replace (zlen pre + 1 + zlen l) with (zlen pre + (1 + zlen l)) by lia. rewrite IH.
    f_equal. rewrite ?zlen_app, ?zlen_cons, ?zlen_app. lia.
Qed.

Lemma length_wire ls : (length ls <= length (wire ls))%nat.
Proof.
  unfold wire. rewrite length_app. cbn [length]. induction ls as [|l ls IH]; cbn [map concat length]; [lia|].
  unfold dns_label at 1. cbn [app length]. rewrite length_app. lia.
Qed.

Lemma skip_wire ls pre post : Forall good_label ls ->
  skip_dns_name (pre ++ wire ls ++ post) (zlen pre) = Ok (zlen pre + zlen (wire ls)).
Proof.
  intros Hg. unfold skip_dns_name. apply (skip_mono (S (length ls))); [|by apply skip_go_wire].
  rewrite !length_app. pose proof (length_wire ls). lia.
Qed.

Lemma name_text_good ls : Forall good_label ls -> name_text ls = join (B ".") ls.
Proof.
  intros Hg. unfold name_text. f_equal. induction Hg as [|l ls (_ & _ & _ & Hu) _ IH]; [done|]. cbn [map].
  unfold label_text at 1. by rewrite Hu, IH.
Qed.

Lemma decode_wire ls pre post : Forall good_label ls ->
  decode_dns_name (pre ++ wire ls ++ post) (zlen pre) = Some (Ok (join (B ".") ls)).
Proof.
  intros Hg. unfold decode_dns_name.
  rewrite (proj2 (decode_labels_iff _ _ ls (zlen_nonneg pre)) (name_at_wire ls Hg pre post)). cbn [res_bind].
  by rewrite name_text_good.
Qed.
