(* ===== verification/DnsResponse.v ===== *)
(** * Responses of mDNS

    [parse_mdns_response] of [server/adb_mdns.rs], and [peek_dns_record], [parse_mdns_response] and
    [parse_srv_response] of [client/mdns.rs]. A parser gives [None] where decoding a name does not return. The
    server's parser walks a [HashMap] in an order that is not specified: [iter] is any such order.

    A message written by the format is read back ([mdns_response_roundtrip]); a service that is pointed to is
    left without its port and its addresses ([pointed_services_bare]); the client's parsers panic on the plainest answers
    ([client_answer_panics]). *)
From stdpp Require Import gmap.
From S2P Require Import Prelude Text MdnsService DnsName.

(** ** Parsers *)
Definition parser (A : Type) : Type := option (res bytes A).
Definition p_ret {A} (a : A) : parser A := Some (Ok a).
Definition p_fail {A} (e : bytes) : parser A := Some (Err e).
Definition p_bind {A C} (m : parser A) (k : A -> parser C) : parser C :=
  match m with
  | Some (Ok a) => k a
  | Some (Err e) => Some (Err e)
  | Some Panic => Some Panic
  | None => None
  end.
#[local] Notation "'let?' x := m 'in' k" := (p_bind m (fun x => k))
  (at level 10, x binder, m at level 200, k at level 200).

Definition u16_at (data : bytes) (off : Z) : parser Z :=
  Some (let! s := get_slice data off (off + 2) in Ok (be_val s)).
Definition u32_at (data : bytes) (off : Z) : parser Z :=
  Some (let! s := get_slice data off (off + 4) in Ok (be_val s)).

Definition TYPE_A : Z := 0x0001.
Definition TYPE_PTR : Z := 0x000c.
Definition TYPE_TXT : Z := 0x0010.
Definition TYPE_AAAA : Z := 0x001c.
Definition TYPE_SRV : Z := 0x0021.

Definition trim_dots (s : bytes) : bytes := trim_end_byte "."%byte s.

(** The questions are skipped. *)
Fixpoint skip_questions (n : nat) (data : bytes) (offset : Z) : parser Z :=
  match n with
  | O => p_ret offset
  | S n => let? offset := Some (skip_dns_name data offset) in skip_questions n data (offset + 4)
  end.

(** The name of an instance, without the domain of its service. *)
Definition instance_of (t : AdbMdnsServiceType) (fqdn : bytes) : bytes :=
  trim_dots (trim_end_str (trim_dots (full_domain t)) (trim_dots fqdn)).

(** An address record's data, if it has the length of its type. *)
Definition address_of (data : bytes) (rtype rr rdlen : Z) : parser (option IpAddr) :=
  if (rtype =? TYPE_A) && (rdlen =? 4) then
    let? s := Some (get_slice data rr (rr + 4)) in p_ret (Some (V4 (be_val s)))
  else if (rtype =? TYPE_AAAA) && (rdlen =? 16) then
    let? s := Some (get_slice data rr (rr + 16)) in p_ret (Some (V6 (be_val s)))
  else p_ret None.

(** ** The server's parser *)
Record Found := mk_found {
  instance_names : list bytes;
  srv_records : gmap bytes (Z * bytes);
  address_records : gmap bytes (list IpAddr);
  txt_records : gmap bytes (gmap bytes bytes) }.

Definition add_instance (i : bytes) (f : Found) : Found :=
  mk_found (instance_names f ++ [i]) (srv_records f) (address_records f) (txt_records f).
Definition add_srv (i : bytes) (port : Z) (host : bytes) (f : Found) : Found :=
  mk_found (instance_names f) (<[i := (port, host)]> (srv_records f)) (address_records f) (txt_records f).
Definition add_address (host : bytes) (a : IpAddr) (f : Found) : Found :=
  mk_found (instance_names f) (srv_records f)
    (<[host := default [] (address_records f !! host) ++ [a]]> (address_records f)) (txt_records f).
Definition add_txt (i : bytes) (m : gmap bytes bytes) (f : Found) : Found :=
  mk_found (instance_names f) (srv_records f) (address_records f) (<[i := m]> (txt_records f)).

Definition found_nothing : Found := mk_found [] ∅ ∅ ∅.

Definition take_record (t : AdbMdnsServiceType) (data : bytes) (off : Z) (name : bytes) (rtype rr rdlen : Z) (f : Found) : parser Found :=
  if rtype =? TYPE_PTR then
    let? fqdn := decode_dns_name data rr in
    let i := instance_of t fqdn in
    p_ret (if zlen i =? 0 then f else add_instance i f)
  else if rtype =? TYPE_SRV then
    if rdlen <? 6 then p_ret f else
    let? port := u16_at data (rr + 4) in
    let? host := decode_dns_name data (rr + 6) in
    let? fqdn := decode_dns_name data off in
    p_ret (add_srv (trim_dots fqdn) port (trim_dots host) f)
  else if (rtype =? TYPE_A) || (rtype =? TYPE_AAAA) then
    let? a := address_of data rtype rr rdlen in
    p_ret (match a with Some a => add_address (trim_dots name) a f | None => f end)
  else if rtype =? TYPE_TXT then
    let? raw := Some (get_slice data rr (rr + rdlen)) in
    match parse_txt_record raw with
    | Ok m => let? fqdn := decode_dns_name data off in p_ret (add_txt (trim_dots fqdn) m f)
    | Err _ => p_ret f
    | Panic => Some Panic
    end
  else p_ret f.

Fixpoint take_records (n : nat) (t : AdbMdnsServiceType) (data : bytes) (off : Z) (f : Found) : parser Found :=
  match n with
  | O => p_ret f
  | S n =>
      if zlen data <=? off then p_ret f else
      let? name := decode_dns_name data off in
      let? _ := Some (skip_dns_name data off) in
      if zlen data <? off + 12 then p_ret f else
      let? rr := Some (skip_dns_name data off) in
      if zlen data <? rr + 10 then p_ret f else
      let? rtype := u16_at data rr in
      let? _ := u16_at data (rr + 2) in
      let? _ := u32_at data (rr + 4) in
      let? rdlen := u16_at data (rr + 8) in
      let rr := rr + 10 in
      if zlen data <? rr + rdlen then p_ret f else
      let? f := take_record t data off name rtype rr rdlen f in
      let? next := Some (skip_dns_name data off) in
      take_records n t data (next + 10 + rdlen) f
  end.

Definition collect_records (t : AdbMdnsServiceType) (data : bytes) : parser Found :=
  if zlen data <? 12 then p_fail (B "packet too short") else
  let? qdcount := u16_at data 4 in
  let? ancount := u16_at data 6 in
  let? offset := skip_questions (Z.to_nat qdcount) data 12 in
  take_records (Z.to_nat ancount) t data offset found_nothing.

(** A service with its host, the host's addresses, and its attributes. *)
Definition with_srv (f : Found) (port : Z) (host : bytes) (s : AdbMdnsService) : AdbMdnsService :=
  mk_service (svc_type s) (svc_instance s) (Some host) (default (svc_addresses s) (address_records f !! host)) port (svc_txt s).
Definition with_txt (m : gmap bytes bytes) (s : AdbMdnsService) : AdbMdnsService :=
  mk_service (svc_type s) (svc_instance s) (svc_host s) (svc_addresses s) (svc_port s) m.

Definition pointed_service (t : AdbMdnsServiceType) (f : Found) (instance : bytes) : AdbMdnsService :=
  let svc := service_new t instance 0 in
  let fqdn := instance ++ B "." ++ full_domain t in
  let svc := match srv_records f !! fqdn with Some (port, host) => with_srv f port host svc | None => svc end in
  match txt_records f !! fqdn with
  | Some m => with_txt m svc
  | None => match txt_records f !! trim_dots (full_domain t) with Some m => with_txt m svc | None => svc end
  end.

Definition unpointed_service (t : AdbMdnsServiceType) (f : Found) (e : bytes * (Z * bytes)) : option AdbMdnsService :=
  let '(fqdn, (port, host)) := e in
  match instance_of t fqdn with
  | [] => None
  | instance =>
      let svc := with_srv f port host (service_new t instance port) in
      Some (match txt_records f !! fqdn with Some m => with_txt m svc | None => svc end)
  end.

Section Order.
(** The order in which a [HashMap] gives its entries. *)
Context (iter : gmap bytes (Z * bytes) -> list (bytes * (Z * bytes))).

Definition build_services (t : AdbMdnsServiceType) (f : Found) : list AdbMdnsService :=
  map (pointed_service t f) (instance_names f)
  ++ match instance_names f with [] => omap (unpointed_service t f) (iter (srv_records f)) | _ => [] end.

Definition parse_mdns_response (data : bytes) (t : AdbMdnsServiceType) : parser (list AdbMdnsService) :=
  let? f := collect_records t data in p_ret (build_services t f).
End Order.

(** ** The client's parsers *)
Fixpoint peek_go (fuel : nat) (data : bytes) (pos name_consumed : Z) : parser (Z * Z) :=
  match fuel with
  | O => Some Panic
  | S fuel =>
      if zlen data <=? pos then p_fail (B "offset past end in DNS name") else
      let? len := Some (get_index data pos) in
      let len := b2z len in
      if is_pointer len then p_ret (pos + 2, name_consumed + 2)
      else if len =? 0 then p_ret (pos + 1, name_consumed + 1)
      else peek_go fuel data (pos + 1 + len) (name_consumed + 1 + len)
  end.

(** [consumed], [len_diff] and the length of the record's data. *)
Definition peek_dns_record (data : bytes) (offset : Z) : parser (Z * Z * Z) :=
  if zlen data <=? offset then p_fail (B "offset past end") else
  let? '(pos, len_diff) := peek_go (S (length data)) data offset 0 in
  if zlen data <? pos + 10 then p_fail (B "not enough data for record header") else
  let? rdlength := u16_at data (pos + 8) in
  let consumed := pos + 10 + rdlength - offset in
  if zlen data - offset <? consumed then p_fail (B "record extends past end of packet") else
  p_ret (consumed, len_diff, rdlength).

(** [decode_dns_name] of the client ends the name with a dot. *)
Definition decode_name_dot (data : bytes) (offset : Z) : parser bytes :=
  let? name := decode_dns_name data offset in p_ret (name ++ B ".").

Fixpoint client_instances (n : nat) (t : AdbMdnsServiceType) (data : bytes) (off : Z) (names : list bytes) : parser (list bytes) :=
  match n with
  | O => p_ret names
  | S n =>
      let? '(consumed, len_diff, rdlength) := peek_dns_record data off in
      let? names :=
        if (off + 12 <=? zlen data) && bool_decide (slice (off + len_diff) (off + len_diff + 2) data = [x00; x0c]) then
          let rr := off + consumed in
          let? _ := u16_at data rr in
          let? _ := u16_at data (rr + 2) in
          let? _ := u32_at data (rr + 4) in
          let? rdlength := u16_at data (rr + 8) in
          let rr := rr + 10 in
          if zlen data <? rr + rdlength then p_ret names else
          let? fqdn := decode_name_dot data rr in
          let i := instance_of t fqdn in
          p_ret (if zlen i =? 0 then names else names ++ [i])
        else p_ret names in
      client_instances n t data (consumed + 10 + rdlength) names
  end.

Definition client_parse_response (data : bytes) (t : AdbMdnsServiceType) : parser (list AdbMdnsService) :=
  if zlen data <? 12 then p_fail (B "packet too short") else
  let? qdcount := u16_at data 4 in
  let? ancount := u16_at data 6 in
  let? offset := skip_questions (Z.to_nat qdcount) data 12 in
  let? names := client_instances (Z.to_nat ancount) t data offset [] in
  p_ret (map (fun i => service_new t i 0) names).

(** What the client has of the service it resolves: name, port, host, addresses, attributes. *)
Record Resolved := mk_resolved { r_name : bytes; r_port : Z; r_host : bytes; r_addresses : list IpAddr; r_txt : gmap bytes bytes }.

Definition client_record (data : bytes) (off rtype rr : Z) (v : Resolved) : parser (Z * Resolved) :=
  let? rdlen := u16_at data (rr + 8) in
  let rr := rr + 10 in
  if rtype =? TYPE_SRV then
    if (rr + rdlen <=? zlen data) && (6 <=? rdlen) then
      let? port := u16_at data (rr + 4) in
      let? host := decode_name_dot data (rr + 6) in
      let? fqdn := decode_name_dot data off in
      p_ret (rr, mk_resolved (trim_dots fqdn) port host (r_addresses v) (r_txt v))
    else p_ret (rr, v)
  else if (rtype =? TYPE_A) || (rtype =? TYPE_AAAA) then
    if rr + rdlen <=? zlen data then
      let? a := address_of data rtype rr rdlen in
      p_ret (rr, match a with
        | Some a => mk_resolved (r_name v) (r_port v) (r_host v) (r_addresses v ++ [a]) (r_txt v)
        | None => v end)
    else p_ret (rr, v)
  else if rtype =? TYPE_TXT then
    if rr + rdlen <=? zlen data then
      let? raw := Some (get_slice data rr (rr + rdlen)) in
      p_ret (rr, match parse_txt_record raw with
        | Ok m => mk_resolved (r_name v) (r_port v) (r_host v) (r_addresses v) m
        | _ => v end)
    else p_ret (rr, v)
  else p_ret (rr + rdlen, v).

Fixpoint client_records (n : nat) (data : bytes) (off : Z) (v : Resolved) : parser Resolved :=
  match n with
  | O => p_ret v
  | S n =>
      let? '(consumed, len_diff, _) := peek_dns_record data off in
      if zlen data <? off + 12 then p_ret v else
      let? rtype := u16_at data (off + len_diff) in
      let? '(off, v) := client_record data off rtype (off + consumed) v in
      client_records n data off v
  end.

Definition client_parse_srv (data : bytes) (t : AdbMdnsServiceType) : parser AdbMdnsService :=
  if zlen data <? 12 then p_fail (B "packet too short") else
  let? qdcount := u16_at data 4 in
  let? ancount := u16_at data 6 in
  let? offset := skip_questions (Z.to_nat qdcount) data 12 in
  let? v := client_records (Z.to_nat ancount) data offset (mk_resolved [] 0 [] [] ∅) in
  if r_port v =? 0 then p_fail (B "no SRV record found") else
  p_ret (mk_service t (r_name v) (match r_host v with [] => None | h => Some h end) (r_addresses v) (r_port v) (r_txt v)).

(** ** Messages by the format *)
Inductive record :=
| RPtr (name target : list bytes)
| RSrv (name : list bytes) (port : Z) (host : list bytes)
| RAddr (name : list bytes) (a : IpAddr)
| RTxt (name : list bytes) (kvs : list (bytes * bytes)).

Definition rec_name (r : record) : list bytes :=
  match r with RPtr n _ | RSrv n _ _ | RAddr n _ | RTxt n _ => n end.
Definition rec_type (r : record) : Z :=
  match r with RPtr _ _ => TYPE_PTR | RSrv _ _ _ => TYPE_SRV | RAddr _ (V4 _) => TYPE_A | RAddr _ (V6 _) => TYPE_AAAA | RTxt _ _ => TYPE_TXT end.
Definition rec_data (r : record) : bytes :=
  match r with
  | RPtr _ target => wire target
  | RSrv _ port host => be_bytes 2 0 ++ be_bytes 2 0 ++ be_bytes 2 port ++ wire host
  | RAddr _ (V4 a) => be_bytes 4 a
  | RAddr _ (V6 a) => be_bytes 16 a
  | RTxt _ kvs => txt_bytes kvs
  end.
Definition rec_head (r : record) : bytes := be_bytes 2 (rec_type r) ++ be_bytes 2 1 ++ be_bytes 4 120 ++ be_bytes 2 (zlen (rec_data r)).
Definition rec_bytes (r : record) : bytes := wire (rec_name r) ++ rec_head r ++ rec_data r.
Definition response (rs : list record) : bytes :=
  be_bytes 2 0 ++ be_bytes 2 0x8400 ++ be_bytes 2 0 ++ be_bytes 2 (zlen rs) ++ be_bytes 2 0 ++ be_bytes 2 0 ++ concat (map rec_bytes rs).

Definition good_record (r : record) : Prop :=
  rec_name r <> [] /\ Forall good_label (rec_name r) /\ zlen (rec_data r) < 65536 /\
  match r with
  | RPtr _ target => Forall good_label target
  | RSrv _ port host => u16 port /\ Forall good_label host
  | RAddr _ (V4 a) => uint 32 a
  | RAddr _ (V6 a) => uint 128 a
  | RTxt _ kvs => Forall txt_pair kvs /\ NoDup (map fst kvs)
  end.

(** What a record says, without its bytes. *)
Definition dotted (labels : list bytes) : bytes := join (B ".") labels.
Definition said_by (t : AdbMdnsServiceType) (f : Found) (r : record) : Found :=
  match r with
  | RPtr _ target => let i := instance_of t (dotted target) in if zlen i =? 0 then f else add_instance i f
  | RSrv name port host => add_srv (dotted name) port (dotted host) f
  | RAddr name a => add_address (dotted name) a f
  | RTxt name kvs => add_txt (dotted name) (list_to_map kvs) f
  end.

Lemma trim_dotted ls : Forall good_label ls -> trim_dots (dotted ls) = dotted ls.
Proof.
  intros Hg. unfold trim_dots. rewrite <- (app_nil_r (dotted ls)) at 1. apply (trim_end_dots _ 0). by apply join_last.
Qed.

Lemma get_slice_here {E} (p m q : bytes) a b : a = zlen p -> b = zlen p + zlen m -> get_slice (E := E) (p ++ m ++ q) a b = Ok m.
Proof.
  intros -> ->. pose proof (zlen_nonneg p). pose proof (zlen_nonneg m). pose proof (zlen_nonneg q).
  rewrite get_slice_ok; [|rewrite ?zlen_app; lia..]. f_equal. by apply slice_app_here.
Qed.

Lemma u16_here p v q off : off = zlen p -> u16 v -> u16_at (p ++ be_bytes 2 v ++ q) off = p_ret v.
Proof.
  intros -> Hv. unfold u16_at. rewrite (get_slice_here p (be_bytes 2 v) q) by (rewrite ?zlen_be_bytes; done).
  cbn [res_bind]. by rewrite (be_val_bytes_id 2).
Qed.
Lemma u32_here p v q off : off = zlen p -> u32 v -> u32_at (p ++ be_bytes 4 v ++ q) off = p_ret v.
Proof.
  intros -> Hv. unfold u32_at. rewrite (get_slice_here p (be_bytes 4 v) q) by (rewrite ?zlen_be_bytes; done).
  cbn [res_bind]. by rewrite (be_val_bytes_id 4).
Qed.

Lemma zlen_rec_head r : zlen (rec_head r) = 10.
Proof. unfold rec_head. by rewrite !zlen_app, !zlen_be_bytes. Qed.

(** The parts of a message around a record. *)
Lemma rec_split pre r post :
  pre ++ rec_bytes r ++ post = pre ++ wire (rec_name r) ++ (rec_head r ++ rec_data r ++ post) /\
  pre ++ rec_bytes r ++ post = (pre ++ wire (rec_name r) ++ rec_head r) ++ rec_data r ++ post.
Proof. unfold rec_bytes. by rewrite <- !app_assoc. Qed.

(** Comparisons of numbers that are known. *)
Ltac known_types :=
  repeat match goal with
  | |- context [Z.eqb ?a ?b] =>
      let x := eval vm_compute in (Z.eqb a b) in
      match x with true => change (Z.eqb a b) with true | false => change (Z.eqb a b) with false end
  end; cbn match; cbn [andb orb].

Lemma take_record_good t pre r post f : good_record r ->
  take_record t (pre ++ rec_bytes r ++ post) (zlen pre) (dotted (rec_name r)) (rec_type r)
    (zlen pre + zlen (wire (rec_name r)) + 10) (zlen (rec_data r)) f = p_ret (said_by t f r).
Proof.
  intros (_ & Hn & Hl & Hr). destruct (rec_split pre r post) as [E1 E2].
  pose proof (decode_wire (rec_name r) pre (rec_head r ++ rec_data r ++ post) Hn) as Hname. rewrite <- E1 in Hname.
  set (P := pre ++ wire (rec_name r) ++ rec_head r) in *.
  assert (zlen pre + zlen (wire (rec_name r)) + 10 = zlen P) as -> by (unfold P; rewrite !zlen_app, zlen_rec_head; lia).
  unfold take_record. destruct r as [name target|name port host|name [a|a]|name kvs]; cbn [rec_type rec_name rec_data said_by] in *.
  - known_types. rewrite E2, decode_wire by done. done.
  - rewrite !zlen_app, !zlen_be_bytes in *. pose proof (zlen_nonneg (wire host)). destruct Hr as [Hp Hh]. known_types.
    rewrite (proj2 (Z.ltb_ge _ _)) by lia.
    assert (pre ++ rec_bytes (RSrv name port host) ++ post = (P ++ be_bytes 2 0 ++ be_bytes 2 0) ++ be_bytes 2 port ++ wire host ++ post) as E3
      by by rewrite E2, <- !app_assoc.
    assert (pre ++ rec_bytes (RSrv name port host) ++ post = (P ++ be_bytes 2 0 ++ be_bytes 2 0 ++ be_bytes 2 port) ++ wire host ++ post) as E4
      by by rewrite E2, <- !app_assoc.
    rewrite E3 at 1. rewrite u16_here by (rewrite ?zlen_app, ?zlen_be_bytes; done || lia). cbn [p_bind p_ret].
    replace (zlen P + 6) with (zlen (P ++ be_bytes 2 0 ++ be_bytes 2 0 ++ be_bytes 2 port)) by (rewrite !zlen_app, !zlen_be_bytes; lia).
    rewrite E4 at 1. rewrite decode_wire by done. cbn [p_bind]. rewrite Hname. cbn [p_bind]. fold (dotted name). fold (dotted host).
    by rewrite !trim_dotted.
  - unfold address_of. rewrite zlen_be_bytes. known_types. rewrite E2, get_slice_here by (rewrite ?zlen_be_bytes; done).
    cbn [p_bind p_ret]. rewrite (be_val_bytes_id 4) by done. by rewrite trim_dotted.
  - unfold address_of. rewrite zlen_be_bytes. known_types. rewrite E2, get_slice_here by (rewrite ?zlen_be_bytes; done).
    cbn [p_bind p_ret]. rewrite (be_val_bytes_id 16) by done. by rewrite trim_dotted.
  - destruct Hr as [Hk Hd]. known_types.
    rewrite E2 at 1. rewrite get_slice_here by done. cbn [p_bind]. rewrite txt_roundtrip by done. rewrite Hname. cbn [p_bind].
    fold (dotted name). by rewrite trim_dotted.
Qed.

Lemma zlen_wire ls : ls <> [] -> Forall good_label ls -> 3 <= zlen (wire ls).
Proof.
  intros Hne Hg. destruct Hg as [|l ls (Hl & _) _]; [done|]. rewrite wire_cons, zlen_app, zlen_label. unfold wire.
  rewrite zlen_app. change (zlen [x00]) with 1. pose proof (zlen_nonneg (concat (map dns_label ls))).
  destruct l as [|x l]; [done|]. rewrite zlen_cons. pose proof (zlen_nonneg l). lia.
Qed.

Lemma rec_type_u16 r : u16 (rec_type r).
Proof. destruct r as [| |? []|]; split; vm_compute; congruence. Qed.

(** The fields of a record after its name. *)
Lemma rec_fields pre r post : good_record r -> let h := zlen pre + zlen (wire (rec_name r)) in
  u16_at (pre ++ rec_bytes r ++ post) h = p_ret (rec_type r) /\
  u16_at (pre ++ rec_bytes r ++ post) (h + 2) = p_ret 1 /\
  u32_at (pre ++ rec_bytes r ++ post) (h + 4) = p_ret 120 /\
  u16_at (pre ++ rec_bytes r ++ post) (h + 8) = p_ret (zlen (rec_data r)).
Proof.
  intros (_ & _ & Hl & _) h. pose proof (zlen_nonneg (rec_data r)). rewrite (proj1 (rec_split pre r post)). unfold rec_head.
  set (tail := rec_data r ++ post). set (name := wire (rec_name r)) in *.
  set (X := be_bytes 2 (rec_type r)). set (Y := be_bytes 2 1). set (Z4 := be_bytes 4 120). set (W := be_bytes 2 (zlen (rec_data r))).
  split_and!.
  - replace (pre ++ name ++ (X ++ Y ++ Z4 ++ W) ++ tail) with ((pre ++ name) ++ X ++ (Y ++ Z4 ++ W ++ tail)) by by rewrite <- !app_assoc.
    apply u16_here; [unfold h; by rewrite zlen_app|apply rec_type_u16].
  - replace (pre ++ name ++ (X ++ Y ++ Z4 ++ W) ++ tail) with ((pre ++ name ++ X) ++ Y ++ (Z4 ++ W ++ tail)) by by rewrite <- !app_assoc.
    apply u16_here; [unfold h, X; rewrite !zlen_app, !zlen_be_bytes; lia|split; vm_compute; congruence].
  - replace (pre ++ name ++ (X ++ Y ++ Z4 ++ W) ++ tail) with ((pre ++ name ++ X ++ Y) ++ Z4 ++ (W ++ tail)) by by rewrite <- !app_assoc.
    apply u32_here; [unfold h, X, Y; rewrite !zlen_app, !zlen_be_bytes; lia|split; vm_compute; congruence].
  - replace (pre ++ name ++ (X ++ Y ++ Z4 ++ W) ++ tail) with ((pre ++ name ++ X ++ Y ++ Z4) ++ W ++ tail) by by rewrite <- !app_assoc.
    apply u16_here; [unfold h, X, Y, Z4; rewrite !zlen_app, !zlen_be_bytes; lia|split; [lia|change (2 ^ 16) with 65536; lia]].
Qed.

Lemma take_records_good t rs : Forall good_record rs -> forall pre post f,
  take_records (length rs) t (pre ++ concat (map rec_bytes rs) ++ post) (zlen pre) f = p_ret (fold_left (said_by t) rs f).
Proof.
  induction rs as [|r rs IH]; intros Hg pre post f; [done|]. apply list.Forall_cons in Hg as [Hr Hg].
  cbn [map concat length take_records fold_left]. rewrite <- (app_assoc (rec_bytes r)). set (rest := concat (map rec_bytes rs) ++ post).
  destruct (rec_split pre r rest) as [E1 E2]. pose proof Hr as (Hne & Hn & Hl & _).
  pose proof (zlen_nonneg (rec_data r)). pose proof (zlen_nonneg rest). pose proof (zlen_nonneg pre).
  pose proof (zlen_wire _ Hne Hn) as Hw.
  assert (zlen (pre ++ rec_bytes r ++ rest) = zlen pre + zlen (wire (rec_name r)) + 10 + zlen (rec_data r) + zlen rest) as Hz
    by (rewrite E1, !zlen_app, zlen_rec_head; lia).
  pose proof (take_record_good t pre r rest f Hr) as Htake.
  pose proof (decode_wire (rec_name r) pre (rec_head r ++ rec_data r ++ rest) Hn) as Hname.
  pose proof (skip_wire (rec_name r) pre (rec_head r ++ rec_data r ++ rest) Hn) as Hskip. rewrite <- E1 in Hname, Hskip.
  set (data := pre ++ rec_bytes r ++ rest) in *. set (h := zlen pre + zlen (wire (rec_name r))) in *.
  destruct (rec_fields pre r rest Hr) as (U1 & U2 & U3 & U4). fold data h in U1, U2, U3, U4.
  rewrite (proj2 (Z.leb_gt _ _)) by lia. rewrite Hname. cbn [p_bind]. rewrite Hskip. cbn [p_bind].
  rewrite (proj2 (Z.ltb_ge _ _)) by lia.
  rewrite (proj2 (Z.ltb_ge _ _)) by lia. rewrite U1, U2, U3, U4. cbn [p_bind p_ret].
  rewrite (proj2 (Z.ltb_ge _ _)) by lia. unfold dotted in Htake. rewrite Htake. cbn [p_bind p_ret].
  specialize (IH Hg (pre ++ rec_bytes r) post (said_by t f r)). rewrite <- app_assoc in IH. fold rest data in IH.
  rewrite <- IH. f_equal. unfold rec_bytes. rewrite !zlen_app, zlen_rec_head. lia.
Qed.

(** The header of a message, and what is read of it. *)
Lemma response_head rs : zlen rs < 65536 -> exists head, response rs = head ++ concat (map rec_bytes rs) /\ zlen head = 12 /\
  u16_at (response rs) 4 = p_ret 0 /\ u16_at (response rs) 6 = p_ret (zlen rs).
Proof.
  intros Hn. unfold response. set (body := concat (map rec_bytes rs)). pose proof (zlen_nonneg rs).
  set (O2 := be_bytes 2 0). set (W := be_bytes 2 0x8400). set (N := be_bytes 2 (zlen rs)).
  exists (O2 ++ W ++ O2 ++ N ++ O2 ++ O2). split_and!.
  - by rewrite <- !app_assoc.
  - unfold O2, W, N. by rewrite !zlen_app, !zlen_be_bytes.
  - replace (O2 ++ W ++ O2 ++ N ++ O2 ++ O2 ++ body) with ((O2 ++ W) ++ O2 ++ (N ++ O2 ++ O2 ++ body)) by by rewrite <- !app_assoc.
    apply u16_here; [done|split; vm_compute; congruence].
  - replace (O2 ++ W ++ O2 ++ N ++ O2 ++ O2 ++ body) with ((O2 ++ W ++ O2) ++ N ++ (O2 ++ O2 ++ body)) by by rewrite <- !app_assoc.
    apply u16_here; [done|split; [lia|change (2 ^ 16) with 65536; lia]].
Qed.

Lemma collect_response t rs : Forall good_record rs -> zlen rs < 65536 ->
  collect_records t (response rs) = p_ret (fold_left (said_by t) rs found_nothing).
Proof.
  intros Hg Hn. destruct (response_head rs Hn) as (head & E & Hh & H4 & H6). unfold collect_records. rewrite H4, H6, E, zlen_app.
  pose proof (zlen_nonneg (concat (map rec_bytes rs))). rewrite (proj2 (Z.ltb_ge _ _)) by lia.
  cbn [p_bind p_ret Z.to_nat skip_questions]. unfold zlen at 1. rewrite Nat2Z.id, <- Hh.
  rewrite <- (app_nil_r (concat (map rec_bytes rs))). by apply take_records_good.
Qed.

(** ** The name of an instance *)
Definition domain_labels (t : AdbMdnsServiceType) : list bytes :=
  match t with
  | Classic => [B "_adb"; B "_tcp"; B "local"]
  | TlsConnect => [B "_adb-tls-connect"; B "_tcp"; B "local"]
  | TlsPairing => [B "_adb-tls-pairing"; B "_tcp"; B "local"]
  end.

Lemma domain_good t : Forall good_label (domain_labels t).
Proof.
  destruct t; repeat constructor; try (vm_compute; congruence); apply contains_false; reflexivity.
Qed.
Lemma domain_text t : trim_dots (full_domain t) = dotted (domain_labels t) /\ full_domain t = dotted (domain_labels t) ++ B ".".
Proof. destruct t; split; vm_compute; reflexivity. Qed.

Lemma strip_suffix_app p s : strip_suffix p (s ++ p) = Some s.
Proof.
  unfold strip_suffix. rewrite ends_with_app. f_equal. rewrite length_app, Nat.add_sub. apply take_app_length.
Qed.
Lemma strip_suffix_none p s : (forall t, s <> t ++ p) -> strip_suffix p s = None.
Proof.
  intros Hs. unfold strip_suffix. destruct (ends_with p s) eqn:E; [|done]. apply ends_with_inv in E as [t ->]. by destruct (Hs t).
Qed.

Lemma dotted_cons l ls : ls <> [] -> dotted (l :: ls) = (l ++ B ".") ++ dotted ls.
Proof. intros Hne. unfold dotted. destruct ls; [done|]. cbn [join]. by rewrite <- app_assoc. Qed.

Lemma instance_of_service t i : good_label i -> instance_of t (dotted (i :: domain_labels t)) = i.
Proof.
  intros Hi. pose proof Hi as (Hne & _ & Hd & _). unfold instance_of.
  rewrite (proj1 (domain_text t)), trim_dotted by (constructor; [done|apply domain_good]).
  rewrite dotted_cons by by destruct t. unfold trim_end_str.
  assert (exists n, length ((i ++ B ".") ++ dotted (domain_labels t)) = S n) as [n ->].
  { rewrite !length_app. exists (length i + length (dotted (domain_labels t)))%nat. cbn. lia. }
  cbn [trim_end_go_str]. rewrite strip_suffix_app.
  assert (trim_end_go_str n (dotted (domain_labels t)) (i ++ B ".") = i ++ B ".") as ->.
  { destruct n; [done|]. cbn [trim_end_go_str]. rewrite strip_suffix_none; [done|]. intros x E.
    apply (f_equal list.last) in E. rewrite !last_app in E. destruct t; discriminate E. }
  unfold trim_dots. apply (trim_end_dots "."%byte 1). right. destruct (exists_last Hne) as (p & x & ->). exists p, x. split; [done|].
  intros ->. apply Hd, elem_of_app. right. by left.
Qed.

(** ** Claims *)

(** A message written by the format is read record by record: [build_services] is given exactly the
    pointers, services, addresses and attributes that were written, whatever their number and order; and the
    answer to a query for a service, with its SRV, address and TXT records and no pointer, gives that service with
    its port, host, address and attributes, whatever the order of the tables. *)
Lemma mdns_response_roundtrip iter t rs :
  (forall m, iter m ≡ₚ map_to_list m) -> Forall good_record rs -> zlen rs < 65536 ->
  parse_mdns_response iter (response rs) t = p_ret (build_services iter t (fold_left (said_by t) rs found_nothing)) /\
  forall i port host a kvs, rs = [RSrv (i :: domain_labels t) port host; RAddr host a; RTxt (i :: domain_labels t) kvs] ->
    parse_mdns_response iter (response rs) t = p_ret [mk_service t i (Some (dotted host)) [a] port (list_to_map kvs)].
Proof.
  intros Hi Hg Hn. unfold parse_mdns_response. rewrite collect_response by done. cbn [p_bind p_ret]. split; [done|].
  intros i port host a kvs ->. f_equal. f_equal. unfold build_services. cbn [fold_left said_by].
  apply list.Forall_cons in Hg as [(_ & Hl & _) _]. cbn [rec_name] in Hl. apply list.Forall_cons in Hl as [Hl _].
  set (n := dotted (i :: domain_labels t)). cbn [add_srv add_address add_txt found_nothing instance_names srv_records map app].
  assert (iter (<[n := (port, dotted host)]> ∅) = [(n, (port, dotted host))]) as ->.
  { apply Permutation_singleton_r. rewrite Hi. by rewrite insert_empty, map_to_list_singleton. }
  cbn [omap list_omap unpointed_service]. unfold n. rewrite instance_of_service by done. destruct i as [|x i]; [by destruct Hl|].
  cbn [txt_records add_txt add_address add_srv]. rewrite lookup_insert_eq. unfold with_srv, with_txt, service_new.
  cbn [svc_type svc_instance svc_host svc_addresses svc_port svc_txt address_records add_address add_srv add_txt found_nothing].
  by rewrite lookup_insert_eq, lookup_empty.
Qed.

Lemma mdns_response_roundtrip_witness :
  let rs := [RSrv (B "phone" :: domain_labels TlsConnect) 37215 [B "host"; B "local"]; RAddr [B "host"; B "local"] (V4 0xc0a80164);
             RTxt (B "phone" :: domain_labels TlsConnect) [(B "v", B "1")]] in
  parse_mdns_response map_to_list (response rs) TlsConnect =
    p_ret [mk_service TlsConnect (B "phone") (Some (B "host.local")) [V4 0xc0a80164] 37215 {[ B "v" := B "1" ]}].
Proof.
  intros rs. assert (forall m : gmap bytes (Z * bytes), map_to_list m ≡ₚ map_to_list m) as H1 by reflexivity.
  assert (forall l : bytes, l <> [] -> zlen l <= 63 -> contains "."%byte l = false -> is_utf8 l = true -> good_label l) as Hl.
  { intros l ? ? ?%contains_false ?. repeat split; assumption. }
  assert (good_label (B "phone")) as Hp by (apply Hl; vm_compute; congruence).
  assert (Forall good_label [B "host"; B "local"]) as Hh by (repeat constructor; apply Hl; vm_compute; congruence).
  assert (Forall good_label (B "phone" :: domain_labels TlsConnect)) as Hn by (constructor; [exact Hp|apply domain_good]).
  assert (Forall txt_pair [(B "v", B "1")]) as Ht.
  { constructor; [|constructor]. split; [split; vm_compute; reflexivity|]. split; [split; vm_compute; reflexivity|].
    split; [apply contains_false; reflexivity|vm_compute; reflexivity]. }
  assert (Forall good_record rs) as H2.
  { constructor; [|constructor; [|constructor; [|constructor]]]; (split; [discriminate|]); (split; [assumption|]); (split; [vm_compute; reflexivity|]).
    - split; [split; vm_compute; congruence|exact Hh].
    - split; vm_compute; congruence.
    - split; [exact Ht|apply NoDup_singleton]. }
  assert (zlen rs < 65536) as H3 by (vm_compute; reflexivity).
  exact (proj2 (mdns_response_roundtrip map_to_list TlsConnect rs H1 H2 H3) _ _ _ _ _ eq_refl).
Defined.

(** *** Services that are pointed to *)
Definition srv_trimmed (f : Found) : Prop := forall k v, srv_records f !! k = Some v -> exists x, k = trim_dots x.

Lemma p_bind_ok {A C} (m : parser A) (k : A -> parser C) c : p_bind m k = Some (Ok c) -> exists a, m = Some (Ok a) /\ k a = Some (Ok c).
Proof. destruct m as [[a|e|]|]; cbn; try done. eauto. Qed.

Lemma take_record_srv t data off name rtype rr rdlen f f' :
  srv_trimmed f -> take_record t data off name rtype rr rdlen f = Some (Ok f') -> srv_trimmed f'.
Proof.
  intros Hf. unfold take_record. destruct (rtype =? TYPE_PTR).
  { intros (fqdn & _ & [= <-])%p_bind_ok. by case_match. }
  destruct (rtype =? TYPE_SRV).
  { destruct (rdlen <? 6); [by intros [= <-]|].
    intros (port & _ & (host & _ & (fqdn & _ & [= <-])%p_bind_ok)%p_bind_ok)%p_bind_ok k v. cbn [add_srv srv_records].
    rewrite lookup_insert_Some. intros [[<- _]|[_ Hk]]; [by eexists|by apply (Hf k v)]. }
  destruct (_ || _).
  { intros (a & _ & [= <-])%p_bind_ok. by destruct a. }
  destruct (rtype =? TYPE_TXT); [|by intros [= <-]].
  intros (raw & _ & E)%p_bind_ok. destruct (parse_txt_record raw) as [m|e|]; [|by injection E as <-|done].
  by apply p_bind_ok in E as (fqdn & _ & [= <-]).
Qed.

Lemma take_records_srv n : forall t data off f f',
  srv_trimmed f -> take_records n t data off f = Some (Ok f') -> srv_trimmed f'.
Proof.
  induction n as [|n IH]; intros t data off f f' Hf; cbn [take_records]; [by intros [= <-]|].
  destruct (zlen data <=? off); [by intros [= <-]|]. intros (name & _ & (a & _ & E)%p_bind_ok)%p_bind_ok.
  destruct (zlen data <? off + 12); [by injection E as <-|]. apply p_bind_ok in E as (rr & _ & E).
  destruct (zlen data <? rr + 10); [by injection E as <-|].
  apply p_bind_ok in E as (rtype & _ & (x1 & _ & (x2 & _ & (rdlen & _ & E)%p_bind_ok)%p_bind_ok)%p_bind_ok).
  destruct (zlen data <? rr + 10 + rdlen); [by injection E as <-|].
  apply p_bind_ok in E as (f1 & E1 & (next & _ & E)%p_bind_ok). apply (IH _ _ _ _ _ (take_record_srv _ _ _ _ _ _ _ _ _ Hf E1) E).
Qed.

Lemma trim_dots_last s y : trim_dots s <> y ++ B ".".
Proof.
  unfold trim_dots, trim_end_byte. intros E. apply (f_equal reverse) in E. rewrite reverse_involutive, reverse_app in E. cbn in E.
  induction (reverse s) as [|b r IH]; [done|]. cbn [trim_start_byte] in E. destruct (beqb b "."%byte) eqn:Eb; [by apply IH|].
  injection E as -> _. done.
Qed.

(** Whatever a message says, a service that a PTR record of it points to is given without its port, its host and its
    addresses, also when the message has them: they are looked up under a name with a final dot, and stored under
    the name without it. *)
Theorem pointed_services_bare iter t data f :
  collect_records t data = Some (Ok f) -> instance_names f <> [] ->
  exists svcs, parse_mdns_response iter data t = Some (Ok svcs) /\ map svc_instance svcs = instance_names f /\
    Forall (fun s => svc_port s = 0 /\ svc_host s = None /\ svc_addresses s = []) svcs.
Proof.
  intros E Hne. unfold parse_mdns_response. rewrite E. cbn [p_bind]. eexists. split; [done|]. unfold build_services.
  destruct (instance_names f) as [|i0 il] eqn:Ei; [done|]. rewrite <- Ei, app_nil_r. clear i0 il Ei Hne.
  assert (srv_trimmed f) as Hs.
  { unfold collect_records in E. destruct (zlen data <? 12); [done|].
    apply p_bind_ok in E as (qd & _ & (an & _ & (o & _ & E)%p_bind_ok)%p_bind_ok). by eapply (take_records_srv _ _ _ _ found_nothing), E. }
  assert (forall i, svc_instance (pointed_service t f i) = i /\ svc_port (pointed_service t f i) = 0 /\
    svc_host (pointed_service t f i) = None /\ svc_addresses (pointed_service t f i) = []) as Hp.
  { intros i. unfold pointed_service. destruct (srv_records f !! _) as [v|] eqn:Ev.
    - exfalso. destruct (Hs _ _ Ev) as [x Hx]. rewrite (proj2 (domain_text t)), !app_assoc in Hx. by apply (trim_dots_last x _ (eq_sym Hx)).
    - by repeat case_match. }
  split.
  - rewrite map_map. induction (instance_names f) as [|i il IH]; [done|]. cbn [map]. rewrite IH. by destruct (Hp i) as [-> _].
  - apply Forall_map, Forall_forall. intros i _. apply Hp.
Qed.

Lemma pointed_services_bare_witness :
  let i := B "phone" :: domain_labels Classic in
  let data := response [RPtr (domain_labels Classic) i; RSrv i 5555 [B "host"]; RAddr [B "host"] (V4 1)] in
  exists svcs, parse_mdns_response map_to_list data Classic = Some (Ok svcs) /\
    map svc_instance svcs = [B "phone"] /\ Forall (fun s => svc_port s = 0 /\ svc_host s = None /\ svc_addresses s = []) svcs.
Proof.
  intros i data.
  assert (match collect_records Classic data with Some (Ok f) => instance_names f | _ => [] end = [B "phone"]) as Hi by (vm_compute; reflexivity).
  destruct (collect_records Classic data) as [[f|e|]|] eqn:E; [|discriminate Hi..].
  assert (instance_names f <> []) as Hne by (rewrite Hi; discriminate).
  pose proof (pointed_services_bare map_to_list Classic data f E Hne) as H. rewrite Hi in H. exact H.
Defined.

(** *** The client *)
Lemma peek_go_wire ls : Forall good_label ls -> forall fuel pre post n, (length ls < fuel)%nat ->
  peek_go fuel (pre ++ wire ls ++ post) (zlen pre) n = p_ret (zlen pre + zlen (wire ls), n + zlen (wire ls)).
Proof.
  induction ls as [|l ls IH]; intros Hg [|fuel] pre post n Hf; cbn [length] in Hf; [lia| |lia|]; cbn [peek_go].
  - rewrite !zlen_app. change (zlen (wire [])) with 1. pose proof (zlen_nonneg post).
    rewrite (proj2 (Z.leb_gt _ _)) by lia. change (wire [] ++ post) with (x00 :: post). by rewrite get_index_app.
  - apply list.Forall_cons in Hg as [(Hne & Hl & _ & _) Hg]. destruct (label_byte l Hne Hl) as [Hb Hp].
    rewrite wire_cons. unfold dns_label. rewrite <- app_assoc. cbn [app]. set (b := z2b _) in *.
    pose proof (zlen_nonneg (wire ls)). pose proof (zlen_nonneg post).
    rewrite zlen_app, zlen_cons, !zlen_app. rewrite (proj2 (Z.leb_gt _ _)) by lia. rewrite get_index_app. cbn [p_bind].
    rewrite pointer_bits, (proj2 (Z.leb_gt _ _)) by lia. rewrite (proj2 (Z.eqb_neq _ _)) by lia.
    specialize (IH Hg fuel (pre ++ b :: l) post (n + 1 + b2z b) ltac:(lia)). rewrite <- app_assoc in IH. cbn [app] in IH.
    rewrite zlen_app, zlen_cons in IH. rewrite Hb in *. replace (zlen pre + 1 + zlen l) with (zlen pre + (1 + zlen l)) by lia. rewrite IH.
    rewrite zlen_cons, zlen_app. unfold p_ret. do 3 f_equal; lia.
Qed.

Lemma peek_record pre r : good_record r ->
  peek_dns_record (pre ++ rec_bytes r) (zlen pre) = p_ret (zlen (rec_bytes r), zlen (wire (rec_name r)), zlen (rec_data r)).
Proof.
  intros Hr. pose proof Hr as (Hne & Hn & _ & _). destruct (rec_split pre r []) as [E _]. rewrite app_nil_r in E.
  destruct (rec_fields pre r [] Hr) as (_ & _ & _ & U4). rewrite app_nil_r in U4.
  pose proof (zlen_nonneg pre). pose proof (zlen_nonneg (rec_data r)). pose proof (zlen_wire _ Hne Hn).
  assert (zlen (rec_bytes r) = zlen (wire (rec_name r)) + 10 + zlen (rec_data r)) as Hz
    by (unfold rec_bytes; rewrite !zlen_app, zlen_rec_head; lia).
  unfold peek_dns_record. rewrite zlen_app, (proj2 (Z.leb_gt _ _)) by lia.
  assert (peek_go (S (length (pre ++ rec_bytes r))) (pre ++ rec_bytes r) (zlen pre) 0
    = p_ret (zlen pre + zlen (wire (rec_name r)), zlen (wire (rec_name r)))) as ->.
  { rewrite E at 2. rewrite peek_go_wire; [done|done|]. rewrite E, !length_app. pose proof (length_wire (rec_name r)). lia. }
  cbn [p_bind p_ret]. rewrite (proj2 (Z.ltb_ge _ _)) by lia. rewrite U4. cbn [p_bind p_ret].
  rewrite (proj2 (Z.ltb_ge _ _)) by lia. unfold p_ret. do 4 f_equal. lia.
Qed.

Lemma u16_past data off : zlen data < off + 2 -> u16_at data off = Some Panic.
Proof.
  intros Ho. unfold u16_at, get_slice. rewrite (proj2 (Z.leb_gt (off + 2) _)) by lia. by rewrite !andb_false_r.
Qed.

(** The client's parsers panic on the plainest answers. For any record, a message with that record alone makes the
    parser of SRV answers read past the end of the message, and a message with a PTR record alone makes the parser of
    PTR answers do so: both look for a record's fields after the record. *)
Theorem client_answer_panics t r : good_record r ->
  client_parse_srv (response [r]) t = Some Panic /\
  (rec_type r = TYPE_PTR -> client_parse_response (response [r]) t = Some Panic).
Proof.
  intros Hr. pose proof Hr as (Hne & Hn & _ & _). destruct (response_head [r]) as (head & E & Hh & H4 & H6); [done|].
  cbn [map concat] in E. rewrite app_nil_r in E. change (zlen [r]) with 1 in H6. rewrite E in *.
  pose proof (zlen_wire _ Hne Hn). pose proof (zlen_nonneg (rec_data r)).
  assert (zlen (head ++ rec_bytes r) = 12 + zlen (rec_bytes r) /\ 13 <= zlen (rec_bytes r)) as [Hz Hb]
    by (unfold rec_bytes; rewrite !zlen_app, zlen_rec_head; lia).
  pose proof (peek_record head r Hr) as Hpeek. destruct (rec_fields head r [] Hr) as (U1 & _). rewrite app_nil_r, Hh in U1.
  rewrite Hh in Hpeek. split.
  - unfold client_parse_srv. rewrite Hz, (proj2 (Z.ltb_ge _ _)) by lia. rewrite H4, H6.
    cbn [p_bind p_ret]. change (Z.to_nat 0) with 0%nat. change (Z.to_nat 1) with 1%nat. cbn [p_bind p_ret skip_questions client_records]. rewrite Hpeek. cbn [p_bind p_ret].
    rewrite Hz, (proj2 (Z.ltb_ge _ _)) by lia. rewrite U1. cbn [p_bind p_ret]. unfold client_record.
    by rewrite u16_past by lia.
  - intros Ht. unfold client_parse_response. rewrite Hz, (proj2 (Z.ltb_ge _ _)) by lia. rewrite H4, H6.
    cbn [p_bind p_ret]. change (Z.to_nat 0) with 0%nat. change (Z.to_nat 1) with 1%nat. cbn [p_bind p_ret skip_questions client_instances]. rewrite Hpeek. cbn [p_bind p_ret].
    rewrite Hz, (proj2 (Z.leb_le _ _)) by lia. rewrite bool_decide_eq_true_2.
    + cbn [andb]. by rewrite u16_past by lia.
    + unfold rec_bytes, rec_head. rewrite Ht, <- app_assoc. rewrite (app_assoc head). apply slice_app_here; [by rewrite zlen_app, Hh|done].
Qed.

Lemma client_answer_panics_witness :
  let r := RPtr (domain_labels Classic) (B "phone" :: domain_labels Classic) in
  client_parse_srv (response [r]) Classic = Some Panic /\ client_parse_response (response [r]) Classic = Some Panic.
Proof.
  intros r. assert (good_label (B "phone")) as Hp.
  { split; [discriminate|]. split; [vm_compute; discriminate|]. split; [apply contains_false; reflexivity|reflexivity]. }
  assert (good_record r) as Hr.
  { split; [discriminate|]. split; [apply domain_good|]. split; [vm_compute; reflexivity|]. constructor; [exact Hp|apply domain_good]. }
  pose proof (client_answer_panics Classic r Hr) as [H1 H2]. split; [exact H1|apply H2; reflexivity].
Defined.
