(* ===== verification/Discovery.v ===== *)
(** * Discovery by queries

    [server/adb_mdns.rs]: the services that were found, with the callbacks and the registry, over the answers that
    arrive; and [client/mdns.rs]: discovering and resolving services, and the names of service types.

    What [recv_from] gives until a deadline is a list of datagrams and errors. The order in which a [HashMap]
    gives its entries is any order. The thread of the discovery, its pauses and its messages are left out. *)
From stdpp Require Import gmap.
From S2P Require Import Prelude Text Net MdnsStore Registry MdnsService MdnsBackend DnsName DnsResponse.

(** ** Advertisements *)
Record AdbMdnsRegistration := mk_registration {
  reg_type : AdbMdnsServiceType; reg_instance : bytes; reg_port : Z; reg_txt : gmap bytes bytes; reg_active : bool }.

Definition register_service (r : AdbMdnsRegistration) (regs : list AdbMdnsRegistration) : list AdbMdnsRegistration := regs ++ [r].
Definition unregister_service (name : bytes) (regs : list AdbMdnsRegistration) : list AdbMdnsRegistration * bool :=
  let kept := List.filter (fun r => negb (bool_decide (reg_instance r = name))) regs in
  (kept, negb (Nat.eqb (length regs) (length kept))).

(** ** The cache of the server *)
Record DiscoveredDeviceEntry := mk_discovered_entry { e_service : AdbMdnsService; first_seen : Z; last_seen : Z }.

(** The callbacks that are fired. *)
Inductive callback :=
| OnDiscovered (s : AdbMdnsService)
| OnLost (name : bytes) (t : AdbMdnsServiceType)
| OnUpdated (old new : AdbMdnsService).

Definition service_has_changed (old new : AdbMdnsService) : bool :=
  negb (svc_port old =? svc_port new) || negb (bool_decide (svc_addresses old = svc_addresses new))
  || negb (bool_decide (svc_txt old = svc_txt new)) || negb (bool_decide (svc_host old = svc_host new)).

Definition update_registry_device (s : AdbMdnsService) (r : TransportRegistry) : TransportRegistry :=
  match svc_addresses s with
  | [] => r
  | a :: _ =>
      let name := match device_serial s with Some n => n | None => ip_text a ++ B ":" ++ fmt_dec (svc_port s) end in
      match find_by_serial r name with
      | Some _ => set_devices (update_first (has_serial name)
                    (fun d => set_origin (Tcp (socket_addr a (svc_port s))) (set_state Device d)) (devices r)) r
      | None => push_device name (Tcp (socket_addr a (svc_port s))) r
      end
  end.

Record Known := mk_known { cache : gmap bytes DiscoveredDeviceEntry; known_devices : TransportRegistry; fired : list callback }.

Definition sync_service (now : Z) (k : Known) (s : AdbMdnsService) : Known :=
  let key := svc_instance s in
  match cache k !! key with
  | Some existing =>
      if service_has_changed (e_service existing) s then
        mk_known (<[key := mk_discovered_entry s (first_seen existing) now]> (cache k))
          (update_registry_device s (known_devices k)) (fired k ++ [OnUpdated (e_service existing) s])
      else mk_known (<[key := mk_discovered_entry (e_service existing) (first_seen existing) now]> (cache k)) (known_devices k) (fired k)
  | None =>
      mk_known (<[key := mk_discovered_entry s now now]> (cache k)) (update_registry_device s (known_devices k))
        (fired k ++ [OnDiscovered s])
  end.

Definition drop_stale (k : Known) (key : bytes) : Known :=
  match cache k !! key with
  | None => k
  | Some e =>
      mk_known (delete key (cache k)) (remove_device (service_serial (e_service e)) (known_devices k)).1
        (fired k ++ [OnLost (svc_instance (e_service e)) (svc_type (e_service e))])
  end.

Section Server.
Context (iter : forall A : Type, gmap bytes A -> list (bytes * A)).

Definition sync_discovered_services (now : Z) (new : list AdbMdnsService) (k : Known) : Known :=
  let k := fold_left (sync_service now) new k in
  let stale := List.filter (fun key => negb (bool_decide (key ∈ map svc_instance new))) (map fst (iter _ (cache k))) in
  fold_left drop_stale stale k.

(** ** What is known *)
Definition discovered_services (k : Known) : list AdbMdnsService := map (fun e => e_service e.2) (iter _ (cache k)).
Definition find_service_by_instance (name : bytes) (k : Known) : option AdbMdnsService := e_service <$> cache k !! name.
Definition find_service_by_serial (n : bytes) (k : Known) : option AdbMdnsService :=
  find (fun s => bool_decide (device_serial s = Some n)) (discovered_services k).

(** ** A round *)
Definition arrivals : Type := list (bytes + io_error).

Definition add_new (found : list AdbMdnsService) (s : AdbMdnsService) : list AdbMdnsService :=
  if existsb (fun f => bool_decide (svc_instance f = svc_instance s)) found then found else found ++ [s].

(** The services of the answers to a query: messages that cannot be parsed are left out. *)
Fixpoint collect_round (t : AdbMdnsServiceType) (received : arrivals) (found : list AdbMdnsService) : parser (list AdbMdnsService) :=
  match received with
  | [] | inr _ :: _ => p_ret found
  | inl data :: received =>
      match parse_mdns_response (iter _) data t with
      | Some (Ok svcs) => collect_round t received (fold_left add_new svcs found)
      | Some (Err _) => collect_round t received found
      | Some Panic => Some Panic
      | None => None
      end
  end.

Definition timed_out (e : io_error) : bool :=
  match io_kind e with WouldBlock | TimedOut => true | _ => false end.

(** What the answers say about one service. *)
Record Answers := mk_answers { a_port : Z; a_host : option bytes; a_addresses : list IpAddr; a_txt : gmap bytes bytes }.

(** [HashMap::extend] keeps the later value. *)
Definition merge_service (service : AdbMdnsService) (v : Answers) (s : AdbMdnsService) : Answers :=
  if negb (bool_decide (svc_instance s = svc_instance service))
     && negb (ends_with (B "." ++ trim_dots (full_domain (svc_type service))) (svc_instance s)) then v else
  mk_answers (if 0 <? svc_port s then svc_port s else a_port v)
    (match svc_host s with Some h => Some h | None => a_host v end)
    (a_addresses v ++ svc_addresses s) (svc_txt s ∪ a_txt v).

Fixpoint resolve_srv (service : AdbMdnsService) (received : arrivals) (v : Answers) : parser Answers :=
  match received with
  | [] => p_ret v
  | inr e :: _ => if timed_out e then p_ret v else p_fail (io_msg e)
  | inl data :: received =>
      match parse_mdns_response (iter _) data (svc_type service) with
      | Some (Ok svcs) => resolve_srv service received (fold_left (merge_service service) svcs v)
      | Some (Err _) => resolve_srv service received v
      | Some Panic => Some Panic
      | None => None
      end
  end.

Definition merge_addresses (v : Answers) (s : AdbMdnsService) : Answers :=
  mk_answers (a_port v) (a_host v)
    (a_addresses v ++ List.filter (fun a => negb (bool_decide (a ∈ a_addresses v))) (svc_addresses s)) (svc_txt s ∪ a_txt v).

Fixpoint resolve_addresses (t : AdbMdnsServiceType) (received : arrivals) (v : Answers) : parser Answers :=
  match received with
  | [] | inr _ :: _ => p_ret v
  | inl data :: received =>
      if negb (Nat.eqb (length (a_addresses v)) 0) then p_ret v else
      match parse_mdns_response (iter _) data t with
      | Some (Ok svcs) => resolve_addresses t received (fold_left merge_addresses svcs v)
      | Some (Err _) => resolve_addresses t received v
      | Some Panic => Some Panic
      | None => None
      end
  end.

(** [sent]: the error of the first query, if sending it fails; what arrives after it, and after the address queries. *)
Definition resolve_service_on_socket (service : AdbMdnsService) (sent : option io_error) (received received2 : arrivals)
    : parser AdbMdnsService :=
  match sent with
  | Some e => p_fail (io_msg e)
  | None =>
      p_bind (resolve_srv service received (mk_answers 0 None [] ∅)) (fun v =>
      p_bind (match a_host v with Some _ => resolve_addresses (svc_type service) received2 v | None => p_ret v end) (fun v =>
      p_ret (mk_service (svc_type service) (svc_instance service) (a_host v) (a_addresses v)
               (if 0 <? a_port v then a_port v else svc_port service) (a_txt v))))
  end.

(** The services of a round, resolved as far as possible; [answers] is what happens while one is resolved. *)
Fixpoint resolve_round (answers : AdbMdnsService -> option io_error * arrivals * arrivals) (found : list AdbMdnsService)
    : parser (list AdbMdnsService) :=
  match found with
  | [] => p_ret []
  | s :: found =>
      if bool_decide (svc_type s = TlsPairing) then resolve_round answers found else
      let '(sent, received, received2) := answers s in
      match resolve_service_on_socket s sent received received2 with
      | None => None
      | Some Panic => Some Panic
      | Some (Ok r) => p_bind (resolve_round answers found) (fun rest => p_ret ((match svc_addresses r with [] => s | _ => r end) :: rest))
      | Some (Err _) => p_bind (resolve_round answers found) (fun rest => p_ret (s :: rest))
      end
  end.

(** One service type of a round: the query, its answers, and the cache. *)
Definition discovery_query (t : AdbMdnsServiceType) : bytes := build_ptr_query (full_domain t).
Definition discovery_step (now : Z) (t : AdbMdnsServiceType) (received : arrivals)
    (answers : AdbMdnsService -> option io_error * arrivals * arrivals) (k : Known) : parser Known :=
  p_bind (collect_round t received []) (fun found =>
  p_bind (resolve_round answers found) (fun svcs => p_ret (sync_discovered_services now svcs k))).
End Server.

(** ** The client *)
Section Client.
Context (iter : forall A : Type, gmap bytes A -> list (bytes * A)).

Fixpoint discover_go (t : AdbMdnsServiceType) (received : arrivals) (services : gmap bytes AdbMdnsService)
    : parser (gmap bytes AdbMdnsService) :=
  match received with
  | [] => p_ret services
  | inr e :: _ => if timed_out e then p_ret services else p_fail (io_msg e)
  | inl data :: received =>
      match client_parse_response data t with
      | Some (Ok svcs) =>
          discover_go t received (fold_left (fun m s => match m !! svc_instance s with Some _ => m | None => <[svc_instance s := s]> m end) svcs services)
      | Some (Err _) => discover_go t received services
      | Some Panic => Some Panic
      | None => None
      end
  end.

(** [sent]: the error of binding the socket or of sending the query. *)
Definition discover_services (t : AdbMdnsServiceType) (sent : option bytes) (received : arrivals) : parser (list AdbMdnsService) :=
  match sent with
  | Some e => p_fail e
  | None => p_bind (discover_go t received ∅) (fun m => p_ret (map snd (iter _ m)))
  end.

Fixpoint resolve_go (t : AdbMdnsServiceType) (name : bytes) (received : arrivals) : parser AdbMdnsService :=
  match received with
  | [] => p_fail (B "mDNS timeout")
  | inr e :: _ => p_fail (if timed_out e then B "mDNS timeout" else io_msg e)
  | inl data :: received =>
      match client_parse_srv data t with
      | Some (Ok s) => if bool_decide (svc_instance s = trim_dots name) then p_ret s else resolve_go t name received
      | Some (Err _) => resolve_go t name received
      | Some Panic => Some Panic
      | None => None
      end
  end.
Definition resolve_query (t : AdbMdnsServiceType) (name : bytes) : bytes := build_srv_query (trim_dots name ++ B "." ++ full_domain t).
Definition resolve_service (t : AdbMdnsServiceType) (name : bytes) (sent : option bytes) (received : arrivals) : parser AdbMdnsService :=
  match sent with Some e => p_fail e | None => resolve_go t name received end.

(** Types for which the discovery fails are left out. *)
Definition discover_all_adb_services (sent : AdbMdnsServiceType -> option bytes) (received : AdbMdnsServiceType -> arrivals)
    : parser (list (AdbMdnsServiceType * list AdbMdnsService)) :=
  fold_right (fun t rest =>
    match discover_services t (sent t) (received t) with
    | Some (Ok svcs) => p_bind rest (fun l => p_ret ((t, svcs) :: l))
    | Some (Err _) => rest
    | Some Panic => Some Panic
    | None => None
    end) (p_ret []) [Classic; TlsConnect; TlsPairing].
End Client.

(** ** Names of service types *)
Definition is_letter (b : byte) : bool := in_rng 97 122 b || in_rng 65 90 b.
Definition is_digit_byte (b : byte) : bool := in_rng 48 57 b.

(** The loop, with the bytes after this one, whether it is the first, and what was seen. *)
Fixpoint valid_go (first : bool) (name : bytes) (has_letter saw_hyphen : bool) : bool :=
  match name with
  | [] => has_letter
  | b :: name =>
      if beqb b "-"%byte then
        if first || Nat.eqb (length name) 0 then false else if saw_hyphen then false else valid_go false name has_letter true
      else if is_letter b then valid_go false name true false
      else if is_digit_byte b then valid_go false name has_letter false
      else false
  end.
Definition is_valid_mdns_service_name (name : bytes) : bool :=
  if (zlen name =? 0) || (15 <? zlen name) then false else valid_go true name false false.

(** ** What a round does *)
Definition service_view (s : AdbMdnsService) := (svc_port s, svc_addresses s, svc_txt s, svc_host s).

Lemma has_changed_iff a b : service_has_changed a b = false <-> service_view a = service_view b.
Proof.
  unfold service_has_changed, service_view. rewrite !orb_false_iff, !negb_false_iff, Z.eqb_eq, !bool_decide_eq_true.
  split; [by intros [[[-> ->] ->] ->]|by intros [= -> -> -> ->]].
Qed.

Definition entry_after (now : Z) (s : AdbMdnsService) (old : option DiscoveredDeviceEntry) : DiscoveredDeviceEntry :=
  match old with
  | Some e => mk_discovered_entry (if service_has_changed (e_service e) s then s else e_service e) (first_seen e) now
  | None => mk_discovered_entry s now now
  end.

Lemma entry_view now s old : service_view (e_service (entry_after now s old)) = service_view s.
Proof. destruct old as [e|]; [|done]. cbn. destruct (service_has_changed _ _) eqn:E; [done|]. by apply has_changed_iff. Qed.

Definition fires (c : gmap bytes DiscoveredDeviceEntry) (s : AdbMdnsService) : list callback :=
  match c !! svc_instance s with
  | Some e => if service_has_changed (e_service e) s then [OnUpdated (e_service e) s] else []
  | None => [OnDiscovered s]
  end.
Definition lost (ke : bytes * DiscoveredDeviceEntry) : callback := OnLost (svc_instance (e_service ke.2)) (svc_type (e_service ke.2)).
Definition named (key : bytes) (s : AdbMdnsService) : bool := bool_decide (svc_instance s = key).

Lemma sync_service_cache now k s : cache (sync_service now k s) = <[svc_instance s := entry_after now s (cache k !! svc_instance s)]> (cache k).
Proof. unfold sync_service, entry_after. destruct (cache k !! _) as [e|]; [|done]. by destruct (service_has_changed _ _). Qed.
Lemma sync_service_fired now k s : fired (sync_service now k s) = fired k ++ fires (cache k) s.
Proof. unfold sync_service, fires. destruct (cache k !! _) as [e|]; [|done]. destruct (service_has_changed _ _); [done|]. by rewrite app_nil_r. Qed.

Lemma update_device_wf s r : registry_wf r -> registry_wf (update_registry_device s r).
Proof.
  intros [Hd Hr]. unfold update_registry_device. destruct (svc_addresses s) as [|a l]; [done|].
  set (n := match device_serial s with Some n => n | None => _ end). destruct (find_by_serial r n) as [d|] eqn:E.
  - split; [|done]. by apply devices_wf_update; [intros x|].
  - split; [|done]. apply devices_wf_push; [done|by apply find_by_serial_none].
Qed.

Lemma sync_service_wf now k s : registry_wf (known_devices k) -> registry_wf (known_devices (sync_service now k s)).
Proof. intros Hw. unfold sync_service. repeat case_match; cbn [known_devices]; try done; by apply update_device_wf. Qed.

Lemma find_named_none key new : key ∉ map svc_instance new -> find (named key) new = None.
Proof.
  intros Hk. destruct (find _ _) as [s|] eqn:E; [|done]. apply find_some in E as [Hin Hs%bool_decide_eq_true]. exfalso. apply Hk.
  rewrite <- Hs. by apply list_elem_of_In, in_map.
Qed.

Lemma sync_all now new : forall k, NoDup (map svc_instance new) ->
  (forall key, cache (fold_left (sync_service now) new k) !! key =
     match find (named key) new with Some s => Some (entry_after now s (cache k !! key)) | None => cache k !! key end) /\
  fired (fold_left (sync_service now) new k) = fired k ++ concat (map (fires (cache k)) new) /\
  (registry_wf (known_devices k) -> registry_wf (known_devices (fold_left (sync_service now) new k))).
Proof.
  induction new as [|s new IH]; intros k Hn; cbn [map] in Hn; [split; [done|split; [by rewrite app_nil_r|done]]|].
  apply list.NoDup_cons in Hn as [Hs Hn]. cbn [fold_left map concat find].
  destruct (IH (sync_service now k s) Hn) as (Hc & Hf & Hw). split_and!.
  - intros key. rewrite Hc. unfold named at 2. case_bool_decide as E.
    + subst key. rewrite find_named_none by done. by rewrite sync_service_cache, lookup_insert_eq.
    + destruct (find (named key) new); by rewrite sync_service_cache, lookup_insert_ne by done.
  - rewrite Hf, sync_service_fired, <- app_assoc. f_equal. f_equal. f_equal. apply map_ext_in. intros s' Hin. unfold fires.
    rewrite sync_service_cache, lookup_insert_ne; [done|]. intros E. apply Hs. rewrite E. by apply list_elem_of_In, in_map.
  - intros Hr. by apply Hw, sync_service_wf.
Qed.

Lemma drop_all keys : forall k, NoDup keys -> (forall key, key ∈ keys -> is_Some (cache k !! key)) ->
  (forall key, cache (fold_left drop_stale keys k) !! key = if decide (key ∈ keys) then None else cache k !! key) /\
  fired (fold_left drop_stale keys k) = fired k ++ omap (fun key => (fun e => lost (key, e)) <$> cache k !! key) keys /\
  (registry_wf (known_devices k) -> registry_wf (known_devices (fold_left drop_stale keys k))).
Proof.
  induction keys as [|x keys IH]; intros k Hn Hin.
  { split; [|split; [by rewrite app_nil_r|done]]. intros key. rewrite decide_False; [done|]. apply not_elem_of_nil. }
  apply list.NoDup_cons in Hn as [Hx Hn]. cbn [fold_left]. destruct (Hin x (list_elem_of_here _ _)) as [e He].
  assert (drop_stale k x = mk_known (delete x (cache k)) (remove_device (service_serial (e_service e)) (known_devices k)).1
    (fired k ++ [lost (x, e)])) as E by (unfold drop_stale; by rewrite He).
  rewrite E. destruct (IH (mk_known (delete x (cache k)) (remove_device (service_serial (e_service e)) (known_devices k)).1
    (fired k ++ [lost (x, e)])) Hn) as (Hc & Hf & Hw).
  { intros key Hk. cbn [cache]. rewrite lookup_delete_ne; [apply Hin; by right|]. by intros <-. }
  cbn [cache fired known_devices] in *. split_and!.
  - intros key. rewrite Hc. destruct (decide (key = x)) as [->|Hne].
    + rewrite (decide_True (P := x ∈ x :: keys)) by by left. rewrite lookup_delete_eq. by case_decide.
    + rewrite lookup_delete_ne by done. destruct (decide (key ∈ keys)), (decide (key ∈ x :: keys)) as [?|Hno]; try done.
      * exfalso. apply Hno. by right.
      * exfalso. set_solver.
  - rewrite Hf. cbn [omap list_omap]. rewrite He. cbn [fmap option_fmap option_map]. rewrite <- app_assoc. f_equal.
    change ([lost (x, e)] ++ ?l) with (lost (x, e) :: l). cbn [app]. f_equal. clear -Hx.
    induction keys as [|y keys IH]; [done|]. apply not_elem_of_cons in Hx as [Hxy Hx]. cbn [omap list_omap].
    rewrite lookup_delete_ne by done. by rewrite IH.
  - intros [Hd Hr]. apply Hw. split; [by apply devices_wf_filter|done].
Qed.

Definition stale (names : list bytes) (ke : bytes * DiscoveredDeviceEntry) : bool := negb (bool_decide (ke.1 ∈ names)).

Lemma stale_iff names ke : stale names ke = true <-> ke.1 ∉ names.
Proof. unfold stale. by rewrite negb_true_iff, bool_decide_eq_false. Qed.

Lemma stale_keys (names : list bytes) (l : list (bytes * DiscoveredDeviceEntry)) :
  List.filter (fun key => negb (bool_decide (key ∈ names))) (map fst l) = map fst (List.filter (stale names) l).
Proof. induction l as [|[a e] l IH]; [done|]. cbn [map List.filter fst]. unfold stale at 1. cbn [fst]. case_match; cbn [map]; by rewrite IH. Qed.

(** The entries that a round drops, among entries that agree with the cache on the names it does not have. *)
Lemma stale_entries (names : list bytes) (l : list (bytes * DiscoveredDeviceEntry)) (m m1 : gmap bytes DiscoveredDeviceEntry) :
  l ≡ₚ map_to_list m1 -> (forall key, key ∉ names -> m1 !! key = m !! key) ->
  (List.filter (stale names) l ≡ₚ List.filter (stale names) (map_to_list m)) /\ NoDup (map fst (List.filter (stale names) l)) /\
  (forall key e, (key, e) ∈ List.filter (stale names) l <-> m !! key = Some e /\ key ∉ names).
Proof.
  intros Hl Hsame.
  assert (forall key e, (key, e) ∈ List.filter (stale names) l <-> m !! key = Some e /\ key ∉ names) as Hin.
  { intros key e. rewrite (filter_perm _ _ _ Hl), list_elem_of_In, filter_In, <- list_elem_of_In, elem_of_map_to_list, stale_iff.
    split; intros [H1 H2]; (split; [|done]); cbn [fst] in *; specialize (Hsame _ H2); congruence. }
  split_and!; [|rewrite (filter_perm _ _ _ Hl); apply NoDup_map_filter, NoDup_fst_map_to_list|done].
  apply NoDup_Permutation; [rewrite (filter_perm _ _ _ Hl)| |]; try apply NoDup_ListNoDup, List.NoDup_filter, NoDup_ListNoDup, NoDup_map_to_list.
  intros [key e]. rewrite Hin, <- (elem_of_map_to_list m), !list_elem_of_In, filter_In. by rewrite stale_iff, list_elem_of_In.
Qed.

Lemma lost_all (m : gmap bytes DiscoveredDeviceEntry) (l : list (bytes * DiscoveredDeviceEntry)) : (forall key e, (key, e) ∈ l -> m !! key = Some e) ->
  omap (fun key => (fun e => lost (key, e)) <$> m !! key) (map fst l) = map lost l.
Proof.
  induction l as [|[a e] l IH]; intros Hin; [done|]. cbn [map omap list_omap fst].
  rewrite (Hin a e (list_elem_of_here _ _)). cbn [fmap option_fmap option_map]. f_equal. apply IH. intros key e' Hk. apply Hin. by right.
Qed.

(** A round of the discovery makes the cache, whose key is the instance alone, mirror the round: it has exactly the services of the round, a service
    that is as it was keeping its entry and the time it was first seen; looking a name up gives the port, the
    addresses, the TXT records and the host of the round; the callbacks are, in order, one for each service that is
    new or has changed, and then one for each cached service that the round does not have; and the registry
    stays well-formed. *)
Lemma discovery_round_mirrored (iter : forall A : Type, gmap bytes A -> list (bytes * A)) now new k :
  (forall A (m : gmap bytes A), iter A m ≡ₚ map_to_list m) ->
  NoDup (map svc_instance new) -> registry_wf (known_devices k) ->
  let k' := sync_discovered_services iter now new k in
  (forall key, cache k' !! key = (fun s => entry_after now s (cache k !! key)) <$> find (named key) new) /\
  (forall key, service_view <$> find_service_by_instance key k' = service_view <$> find (named key) new) /\
  (exists gone, fired k' = fired k ++ concat (map (fires (cache k)) new) ++ gone /\
     gone ≡ₚ map lost (List.filter (stale (map svc_instance new)) (map_to_list (cache k)))) /\
  registry_wf (known_devices k').
Proof.
  intros Hi Hn Hw. unfold sync_discovered_services. rewrite stale_keys. destruct (sync_all now new k Hn) as (Hc & Hf & Hw').
  set (k1 := fold_left (sync_service now) new k) in *.
  assert (forall key, key ∉ map svc_instance new -> cache k1 !! key = cache k !! key) as Hsame.
  { intros key Hk. by rewrite Hc, find_named_none. }
  destruct (stale_entries _ _ _ _ (Hi _ (cache k1)) Hsame) as (Hst & Hnd & Hin). set (gone := List.filter _ (iter _ _)) in *.
  assert (forall key e, (key, e) ∈ gone -> cache k1 !! key = Some e) as Hk1 by (intros key e [He Hk]%Hin; by rewrite Hsame).
  destruct (drop_all (map fst gone) k1 Hnd) as (Dc & Df & Dw).
  { intros key Hk. apply list_elem_of_fmap in Hk as ([a e] & -> & Hk). by exists e; apply Hk1. }
  enough (forall key, cache (fold_left drop_stale (map fst gone) k1) !! key = (fun s => entry_after now s (cache k !! key)) <$> find (named key) new) as H.
  { split_and!; [done| | |by apply Dw, Hw'].
    - intros key. unfold find_service_by_instance. rewrite H. destruct (find (named key) new) as [s|]; [|done]. cbn. f_equal. apply entry_view.
    - exists (map lost gone). split; [|by rewrite Hst]. by rewrite Df, Hf, <- app_assoc, lost_all. }
  - intros key. rewrite Dc, Hc. destruct (find (named key) new) as [s|] eqn:Ef.
    + rewrite decide_False; [done|]. intros Hk. apply list_elem_of_fmap in Hk as ([a e] & -> & [_ Hk]%Hin). apply Hk.
      apply find_some in Ef as [Hs Ha%bool_decide_eq_true]. cbn [fst] in Ha. rewrite <- Ha. by apply list_elem_of_In, in_map.
    + case_decide as Hd; [done|]. destruct (cache k !! key) as [e|] eqn:Ek; [|done]. exfalso. apply Hd.
      apply list_elem_of_fmap. exists (key, e). split; [done|]. apply Hin. split; [done|].
      intros Hk. apply list_elem_of_In, in_map_iff in Hk as (s & Hs & Hk).
      pose proof (find_none _ _ Ef s Hk) as Hno. unfold named in Hno. by rewrite Hs, bool_decide_eq_true_2 in Hno.
Qed.

(** ** Names of service types, as RFC 6335 has them *)
Definition service_byte (b : byte) : Prop := b = "-"%byte \/ is_letter b = true \/ is_digit_byte b = true.

Lemma valid_go_iff name : forall first has_letter saw_hyphen, valid_go first name has_letter saw_hyphen = true <->
  Forall service_byte name /\ (has_letter = true \/ Exists (fun b => is_letter b = true) name) /\
  (forall a b, name = a ++ "-"%byte :: b -> (a = [] -> first = false /\ saw_hyphen = false) /\ b <> [] /\ head b <> Some "-"%byte).
Proof.
  assert (forall x l first saw, beqb x "-"%byte = false ->
    (forall a b, x :: l = a ++ "-"%byte :: b -> (a = [] -> first = false /\ saw = false) /\ b <> [] /\ head b <> Some "-"%byte) <->
    (forall a b, l = a ++ "-"%byte :: b -> (a = [] -> false = false /\ false = false) /\ b <> [] /\ head b <> Some "-"%byte)) as Hskip.
  { intros x l first saw Hx. split.
    - intros H a b ->. destruct (H (x :: a) b eq_refl) as (_ & Hb). done.
    - intros H [|y a] b E; simplify_eq/=. destruct (H a b eq_refl) as (_ & Hb). done. }
  induction name as [|x name IH]; intros first hl saw; cbn [valid_go].
  { split; [intros ->; split; [constructor|split; [by left|by intros [|]]]|]. intros (_ & [->|H] & _); [done|]. by apply Exists_nil in H. }
  rewrite list.Forall_cons, Exists_cons. destruct (beqb x "-"%byte) eqn:Ex.
  - apply beqb_true in Ex as ->. destruct (first || Nat.eqb (length name) 0) eqn:E1.
    { split; [done|]. intros (_ & _ & H). destruct (H [] name eq_refl) as (H1 & H2 & _). destruct (H1 eq_refl) as [-> _].
      apply Nat.eqb_eq in E1. by destruct name. }
    apply orb_false_iff in E1 as [-> E1]. destruct saw.
    { split; [done|]. intros (_ & _ & H). by destruct (proj1 (H [] name eq_refl) eq_refl). }
    rewrite IH. split; intros (HF & Hl & H).
    + split_and!; [by left|done|destruct Hl as [|]; [by left|by right; right]|].
      intros [|y a] b E; simplify_eq/=.
      * split_and!; [done|by intros ->|]. destruct b as [|c b]; [done|]. cbn [head]. intros [= ->]. by destruct (proj1 (H [] b eq_refl) eq_refl).
      * destruct (H a b eq_refl) as (_ & Hb). done.
    + destruct HF as [_ HF]. split_and!; [done|destruct Hl as [|[|]]; [by left|done|by right]|].
      intros a b ->. destruct (H ("-"%byte :: a) b eq_refl) as (_ & Hb). split; [|done]. intros ->.
      destruct (H [] ("-"%byte :: b) eq_refl) as (_ & _ & Hh). by cbn in Hh.
  - assert (is_letter x = true \/ is_digit_byte x = true <-> service_byte x) as Hsb.
    { unfold service_byte. split; [by right|]. intros [->|]; [by rewrite beqb_refl in Ex|done]. }
    destruct (is_letter x) eqn:E2; [rewrite IH, Hskip by done; naive_solver|].
    destruct (is_digit_byte x) eqn:E3; [rewrite IH, Hskip by done; naive_solver|]. split; [done|]. naive_solver.
Qed.

(** The names that are accepted are those of RFC 6335: one to fifteen letters, digits and hyphens, with a letter, and no
    hyphen first, last or next to another. *)
Lemma valid_service_name_iff name : is_valid_mdns_service_name name = true <->
  (1 <= length name <= 15)%nat /\ Forall service_byte name /\ Exists (fun b => is_letter b = true) name /\
  (forall a b, name = a ++ "-"%byte :: b -> a <> [] /\ b <> [] /\ head b <> Some "-"%byte).
Proof.
  unfold is_valid_mdns_service_name. destruct ((zlen name =? 0) || (15 <? zlen name)) eqn:E.
  - split; [done|]. intros [H _]. unfold zlen in E. lia.
  - rewrite valid_go_iff. unfold zlen in E. split; [intros (HF & [?|Hl] & Hh)|intros (_ & HF & Hl & Hh)]; [done| |].
    + split_and!; [lia|lia|done|done|]. intros a b Hab. destruct (Hh a b Hab) as (Ha & Hb). split; [|done]. intros E0. by destruct (Ha E0).
    + split_and!; [done|by right|]. intros a b Hab. destruct (Hh a b Hab) as (Ha & Hb). split; [|done]. by intros E0.
Qed.

(** ** Samples *)
Module DiscoverySample.
Definition entries (A : Type) (m : gmap bytes A) : list (bytes * A) := map_to_list m.
Definition phone (port : Z) : AdbMdnsService := mk_service Classic (B "phone") None [V4 0xc0a80107] port ∅.
Definition tablet : AdbMdnsService := mk_service TlsConnect (B "tablet") None [V4 0xc0a80108] 37001 ∅.
Definition empty : Known := mk_known ∅ (registry_new None) [].
Definition one : Known := sync_discovered_services entries 10 [phone 5555] empty.
Definition serials (k : Known) : list bytes := map serial (devices (known_devices k)).
End DiscoverySample.

Section Samples.
Import DiscoverySample.

Lemma discovery_round_mirrored_witness :
  let k' := sync_discovered_services entries 20 [phone 5556; tablet] one in
  (forall key, cache k' !! key = (fun s => entry_after 20 s (cache one !! key)) <$> find (named key) [phone 5556; tablet]) /\
  (forall key, service_view <$> find_service_by_instance key k' = service_view <$> find (named key) [phone 5556; tablet]) /\
  (exists gone, fired k' = fired one ++ concat (map (fires (cache one)) [phone 5556; tablet]) ++ gone /\
     gone ≡ₚ map lost (List.filter (stale (map svc_instance [phone 5556; tablet])) (map_to_list (cache one)))) /\
  registry_wf (known_devices k').
Proof.
  apply (discovery_round_mirrored entries 20 [phone 5556; tablet] one).
  - done.
  - apply (bool_decide_unpack _). vm_compute. exact I.
  - apply update_device_wf, registry_new_wf.
Defined.

(** The two service types share one cache: the round of one drops the devices of the other, and reports them as lost. *)
Example types_drop_each_other :
  let k := sync_discovered_services entries 20 [tablet] one in
  fired one = [OnDiscovered (phone 5555)] /\
  fired k = [OnDiscovered (phone 5555); OnDiscovered tablet; OnLost (B "phone") Classic] /\
  map fst (map_to_list (cache k)) = [B "tablet"].
Proof. split_and!; reflexivity. Qed.

(** A device without a serial in its records is registered by its address and removed by its name: it stays. *)
Example lost_device_stays :
  let k := sync_discovered_services entries 20 [] one in
  fired k = [OnDiscovered (phone 5555); OnLost (B "phone") Classic] /\ serials k = [B "192.168.1.7:5555"].
Proof. split; vm_compute; reflexivity. Qed.
End Samples.
