(* ===== verification/Incremental.v ===== *)
(** * Incremental installs: the launcher

    [client/incremental.rs]: the database of files, the service that is opened with it, the unsigned files that are
    sent first, the processes that serve the rest, and the verdict of the package manager; with the calls of
    [server/sysdeps_unix.rs] it makes and [run_incremental_attempt] of [main_adb.rs].

    The process has a table of descriptors with their close-on-exec flags, and a list of the processes it has
    started, with the descriptors each got. A new descriptor has the lowest free number, as POSIX says. Whether a
    call succeeds, the process numbers and what the child prints come from scripts. What is printed is left out. *)
From stdpp Require Import gmap sorting.
From S2P Require Import Prelude Text AdbHeader Net AdbTransport Effects SyncClient AuthKey Verity IncServer IncServe Pump Install.

(** ** Processes and descriptors *)
Inductive program :=
| Exec (executable : bytes) (args : list bytes)
| ServeForked (files : list (ServerFile LocalFileSource)) (local_id remote_id output_fd : Z).
Record Proc := mk_proc { p_pid : Z; p_program : program; p_fds : gset Z }.

Record Os := mk_os {
  fd_table : gmap Z bool;  (** with the flag [FD_CLOEXEC] *)
  procs : list Proc;
  signals : list Z;  (** processes that were sent [SIGTERM] *)
  waited : list Z;
  pairs : list bool;  (** whether the next pairs of sockets can be made; they can when the script ends *)
  forks : list (io_error + Z);
  printed : list event }.

Definition set_table (t : gmap Z bool) (o : Os) : Os := mk_os t (procs o) (signals o) (waited o) (pairs o) (forks o) (printed o).
Definition set_printed (q : list event) (o : Os) : Os := mk_os (fd_table o) (procs o) (signals o) (waited o) (pairs o) (forks o) q.

Definition low_fd (t : gmap Z bool) : Z :=
  default 0 (find (fun n => negb (bool_decide (is_Some (t !! n)))) (seqZ 0 (Z.of_nat (S (base.size t))))).

Definition adb_close (fd : Z) : M Os bytes unit := fun o => (set_table (delete fd (fd_table o)) o, Ok tt).
Definition close_on_exec (fd : Z) : M Os bytes unit := fun o =>
  (match fd_table o !! fd with Some _ => set_table (<[fd := true]> (fd_table o)) o | None => o end, Ok tt).

Definition adb_socketpair (err : bytes) : M Os bytes (Z * Z) := fun o =>
  let ok := default true (head (pairs o)) in
  let o := mk_os (fd_table o) (procs o) (signals o) (waited o) (tail (pairs o)) (forks o) (printed o) in
  if negb ok then (o, Err err) else
  let a := low_fd (fd_table o) in
  let t := <[a := false]> (fd_table o) in
  let b := low_fd t in
  (set_table (<[b := false]> t) o, Ok (a, b)).

(** The descriptors a program keeps: those without the flag, and those whose flag the child clears before [execv]. *)
Definition kept_fds (t : gmap Z bool) (inherit : list Z) : gset Z :=
  dom (filter (fun e => e.2 = false \/ e.1 ∈ inherit) t).

Definition fork (child : gset Z -> gset Z) (p : program) : M Os bytes Z := fun o =>
  match forks o with
  | inr pid :: fs =>
      (mk_os (fd_table o) (procs o ++ [mk_proc pid p (child (dom (fd_table o)))]) (signals o) (waited o) (pairs o) fs (printed o), Ok pid)
  | inl e :: fs => (mk_os (fd_table o) (procs o) (signals o) (waited o) (pairs o) fs (printed o), Err (io_msg e))
  | [] => (o, Err (B "Resource temporarily unavailable (os error 11)"))
  end.

(** [CString::new] fails for a text with a NUL. *)
Definition adb_launch_process (executable : bytes) (args : list bytes) (inherit : list Z) : M Os bytes Z :=
  if existsb (contains x00) (executable :: args) then fail (B "nul byte found in provided data") else
  fun o => fork (fun _ => kept_fds (fd_table o) inherit) (Exec executable args) o.

Definition kill_term (pid : Z) : M Os bytes unit := fun o =>
  (mk_os (fd_table o) (procs o) (signals o ++ [pid]) (waited o) (pairs o) (forks o) (printed o), Ok tt).
Definition wait_for_incremental_server (pid : Z) : M Os bytes unit := fun o =>
  (mk_os (fd_table o) (procs o) (signals o) (waited o ++ [pid]) (pairs o) (forks o) (printed o), Ok tt).

(** ** The verdict *)
Definition MAX_MESSAGE_SIZE : Z := 256.

(** [s.rfind(c)]. *)
Fixpoint rfind_byte (c : byte) (s : bytes) : option nat :=
  match s with
  | [] => None
  | b :: s => match rfind_byte c s with Some n => Some (S n) | None => if beqb b c then Some O else None end
  end.
Definition failure_in (text : bytes) : bool :=
  match find_str (B "Failure [") text, rfind_byte "]"%byte text with Some begin, Some e => (begin <=? e)%nat | _, _ => false end.

(** Reading until the buffer is full or the stream ends. *)
Fixpoint read_child (fuel : nat) (q : list event) (buf : bytes) : list event * res bytes bytes :=
  match fuel with
  | O => (q, Panic)
  | S fuel =>
      if MAX_MESSAGE_SIZE <=? zlen buf then (q, Ok buf) else
      match adb_read (MAX_MESSAGE_SIZE - zlen buf) q with
      | (q, inr e) => (q, Err (B "Failed to read output: " ++ io_msg e))
      | (q, inl []) => (q, Ok buf)
      | (q, inl bs) => read_child fuel q (buf ++ bs)
      end
  end.

(** The bytes before the first NUL of a buffer. *)
Fixpoint before_nul (s : bytes) : bytes := match s with b :: s => if beqb b x00 then [] else b :: before_nul s | [] => [] end.

Definition installation_verdict (child_stdout : bytes) : res bytes unit :=
  let text := from_utf8_lossy (before_nul child_stdout) in
  if contains_str (B "Success") text then Ok tt
  else if failure_in text then Err (B "Install failed")
  else if zlen (before_nul child_stdout) =? MAX_MESSAGE_SIZE then Err (B "Output too long")
  else Err (B "Failed to parse output").

Definition wait_for_installation_fd : M Os bytes unit := fun o =>
  let '(q, r) := read_child (S (Z.to_nat MAX_MESSAGE_SIZE)) (printed o) [] in
  (set_printed q o, let! buf := r in installation_verdict buf).

(** [chars().take(n)] and [chars().count()] of a text. *)
Definition is_cont (b : byte) : bool := (128 <=? b2z b) && (b2z b <=? 191).
Fixpoint take_chars (n : nat) (s : bytes) : bytes :=
  match s with
  | [] => []
  | b :: s => if is_cont b then b :: take_chars n s else match n with O => [] | S n => b :: take_chars n s end
  end.
Definition count_chars (s : bytes) : Z := zlen (List.filter (fun b => negb (is_cont b)) s).

(** ** The database *)
Inductive IsDatabaseEntry :=
| Signed (filename : bytes) (size file_id : Z) (signature path : bytes)
| Unsigned (filename : bytes) (size file_id : Z) (local_path : bytes).
Inductive CheckPolicy := Normal | AllowMissingSignatures.

#[export] Instance check_policy_eq : EqDecision CheckPolicy.
Proof. solve_decision. Defined.

Definition is_v4_signed (e : IsDatabaseEntry) : bool := match e with Signed _ _ _ _ _ => true | Unsigned _ _ _ _ => false end.
Definition file_id (e : IsDatabaseEntry) : Z := match e with Signed _ _ i _ _ | Unsigned _ _ i _ => i end.
Definition PROTOCOL_VERSION : Z := 1.
Definition serialize (e : IsDatabaseEntry) : bytes :=
  match e with
  | Signed filename size file_id signature _ =>
      join (B ":") [filename; fmt_dec size; fmt_int file_id; signature; fmt_int PROTOCOL_VERSION]
  | Unsigned filename size file_id _ => join (B ":") [filename; fmt_dec size; fmt_int file_id]
  end.

Definition incremental_service_string (database : list IsDatabaseEntry) (passthrough_args : list bytes) : bytes :=
  B "abb_exec:" ++ join [x00] ([B "package"; B "install-incremental"] ++ passthrough_args ++ map serialize database).

Definition idsig_path_for (file : bytes) : bytes := file ++ IDSIG_EXTENSION.

(** [encode_signature]. *)
Definition encode_signature `{Base64} (signature : bytes) : bytes := b64_encode signature.

(** The files of the host: the content of a file that can be opened, the size that [metadata] gives, what the reads of
    a file give one after the other, and the zip library. *)
Class HostFiles := {
  fs : bytes -> bytes + io_error;
  meta : bytes -> Z + io_error;
  reads : bytes -> list (io_error + bytes) + io_error;
  zip : bytes -> option (list (option ZipEntry)) }.
(** The size of a file is that of its content; reading it to the end gives its content. *)
Class HostFilesLaws `{HostFiles} := {
  meta_size : forall p f, fs p = inl f -> meta p = inl (zlen f) }.

Section Database.
Context `{HostFiles} `{Base64}.

Definition path_exists (p : bytes) : bool := match meta p with inl _ => true | inr _ => false end.

Definition read_signature (signature_file : bytes) : res bytes IdSigHeaders :=
  if negb (path_exists signature_file) then Ok (mk_idsig [] 0) else
  match fs signature_file with
  | inr e => Err (B "Failed to open signature file '" ++ from_utf8_lossy signature_file ++ B "': " ++ io_msg e)
  | inl content => read_id_sig_headers content
  end.

Fixpoint should_use_incremental_by_default (files : list bytes) : bool :=
  match files with
  | [] => true
  | file :: files =>
      match meta file with
      | inr _ => false
      | inl len =>
          if requires_v4_signature (from_utf8_lossy file) then
            match read_signature (idsig_path_for file) with
            | Ok s =>
                match validate_signature (sig_bytes s) (sig_tree_size s) (swrap 64 len) with
                | Ok _ => should_use_incremental_by_default files
                | _ => false
                end
            | _ => false
            end
          else should_use_incremental_by_default files
      end
  end.

(** Each file with its signature and the size of its tree. *)
Fixpoint read_signatures (files : list bytes) (check_policy : CheckPolicy) : res bytes (list (bytes * bytes * Z)) :=
  match files with
  | [] => Ok []
  | file :: files =>
      let! s := read_signature (idsig_path_for file) in
      if requires_v4_signature (from_utf8_lossy file) && (zlen (sig_bytes s) =? 0) && bool_decide (check_policy = Normal)
      then Err (B "V4 signature missing for '" ++ from_utf8_lossy file ++ B "'") else
      let! rest := read_signatures files check_policy in
      Ok ((file, sig_bytes s, sig_tree_size s) :: rest)
  end.

Definition input_size (file : bytes) : res bytes Z :=
  match meta file with
  | inl n => Ok n
  | inr e => Err (B "Failed to open input file '" ++ from_utf8_lossy file ++ B "': " ++ io_msg e)
  end.
Definition input_name (file : bytes) : res bytes bytes :=
  match file_name file with
  | Some n => if is_utf8 n then Ok n else Err (B "Invalid filename: " ++ from_utf8_lossy file)
  | None => Err (B "Invalid filename: " ++ from_utf8_lossy file)
  end.

(** The counter of the identifiers is an [i32]: its overflow panics. *)
Definition next_id (id : Z) : res bytes Z := if id =? 2 ^ 31 - 1 then Panic else Ok (id + 1).

Fixpoint signed_entries (l : list (bytes * bytes * Z)) (id : Z) : res bytes (list IsDatabaseEntry * Z) :=
  match l with
  | [] => Ok ([], id)
  | (file, signature, tree_size) :: l =>
      if zlen signature =? 0 then signed_entries l id else
      let! size := input_size file in
      let! _ := validate_signature signature tree_size (swrap 64 size) in
      let! name := input_name file in
      let! id' := next_id id in
      let! '(rest, last) := signed_entries l id' in
      Ok (Signed name size id (encode_signature signature) file :: rest, last)
  end.
Fixpoint unsigned_entries (l : list (bytes * bytes * Z)) (id : Z) : res bytes (list IsDatabaseEntry) :=
  match l with
  | [] => Ok []
  | (file, signature, _) :: l =>
      if negb (zlen signature =? 0) then unsigned_entries l id else
      let! size := input_size file in
      let! name := input_name file in
      let! id' := next_id id in
      let! rest := unsigned_entries l id' in
      Ok (Unsigned name size id file :: rest)
  end.

Definition build_database (files : list bytes) (check_policy : CheckPolicy) : res bytes (list IsDatabaseEntry) :=
  let! signatures_by_file := read_signatures files check_policy in
  let! '(signed, id) := signed_entries signatures_by_file 0 in
  let! unsigned := unsigned_entries signatures_by_file id in
  Ok (signed ++ unsigned).
End Database.

(** ** Launching *)

(** [process_thread_count]: from the text of [/proc/self/status], if it can be read. *)
Definition process_thread_count (status : option bytes) : Z :=
  match status with
  | None => 1
  | Some text =>
      default 1 (head (omap (fun line => s ← strip_prefix (B "Threads:") line; parse_uint 10 (2 ^ 64 - 1) (trim s)) (lines text)))
  end.

Record IncServerProcesses := mk_processes { pump : option Z; server : Z }.

(** What the launcher knows of its surroundings. *)
Record Surroundings := mk_surroundings {
  executor : bytes;
  raw_fd : option Z;  (** the socket of the transport, if it has one *)
  transport_serve : option bytes;  (** [ADB_INCREMENTAL_TRANSPORT_SERVE] *)
  status : option bytes }.

Definition socketpair_error : bytes := B "adb: failed to create socket pair for child to print to parent".

(** The arguments of [inc-server]: the position of a file among them is its identifier. *)
Definition signed_paths (database : list IsDatabaseEntry) : list bytes :=
  omap (fun e => match e with Signed _ _ _ _ path => Some (from_utf8_lossy path) | Unsigned _ _ _ _ => None end) database.
Definition server_args (connection_fd output_fd : Z) (database : list IsDatabaseEntry) : list bytes :=
  [B "inc-server"; fmt_int connection_fd; fmt_int output_fd] ++ signed_paths database.

(** The parent waits for the verdict, with the child that is killed if it is bad. *)
Definition await_verdict (child pipe_read_fd : Z) : M Os bytes unit :=
  do! r := attempt wait_for_installation_fd in
  match r with
  | inr _ => adb_close pipe_read_fd
  | inl error => do! _ := kill_term child in do! _ := adb_close pipe_read_fd in fail error
  end.

Definition start_inc_server_and_stream_signed_files (inc_server_exe : bytes) (connection_fd : Z) (database : list IsDatabaseEntry)
    : M Os bytes Z :=
  do! '(pipe_read_fd, pipe_write_fd) := adb_socketpair socketpair_error in
  do! _ := close_on_exec pipe_read_fd in
  do! launched := attempt (adb_launch_process inc_server_exe (server_args connection_fd pipe_write_fd database) [connection_fd; pipe_write_fd]) in
  match launched with
  | inl _ => do! _ := adb_close pipe_read_fd in do! _ := adb_close pipe_write_fd in fail (B "adb: failed to fork")
  | inr child => do! _ := adb_close pipe_write_fd in do! _ := await_verdict child pipe_read_fd in ret child
  end.

Section Start.
Context `{HostFiles}.

Definition start_forked_server (threads : Z) (local_id remote_id : Z) (database : list IsDatabaseEntry) : M Os bytes IncServerProcesses :=
  if 1 <? threads
  then fail (B "incremental install: cannot fork the serving process from a multithreaded caller") else
  do! files := lift (open_all fs zip (signed_paths database)) in
  do! '(pipe_read_fd, pipe_write_fd) := adb_socketpair socketpair_error in
  do! _ := close_on_exec pipe_read_fd in
  do! launched := attempt (fork (fun fds => fds ∖ {[pipe_read_fd; 0; 1]}) (ServeForked files local_id remote_id pipe_write_fd)) in
  match launched with
  | inl _ => do! _ := adb_close pipe_read_fd in do! _ := adb_close pipe_write_fd in fail (B "adb: failed to fork")
  | inr pid => do! _ := adb_close pipe_write_fd in do! _ := await_verdict pid pipe_read_fd in ret (mk_processes None pid)
  end.

Definition pump_args (transport_fd channel_fd local_id remote_id : Z) : list bytes :=
  [B "inc-pump"; fmt_int transport_fd; fmt_int channel_fd; fmt_dec local_id; fmt_dec remote_id].

Definition start_inc_server (c : Surroundings) (local_id remote_id : Z) (database : list IsDatabaseEntry) : M Os bytes IncServerProcesses :=
  let force_transport_serve := match transport_serve c with Some v => negb (bool_decide (v = B "0")) | None => false end in
  match (if force_transport_serve then None else raw_fd c) with
  | None => start_forked_server (process_thread_count (status c)) local_id remote_id database
  | Some transport_fd =>
      do! '(channel_server_fd, channel_pump_fd) := adb_socketpair (B "adb: failed to create socket pair for inc-pump") in
      do! _ := close_on_exec channel_server_fd in
      do! _ := close_on_exec channel_pump_fd in
      do! launched := attempt (adb_launch_process (executor c) (pump_args transport_fd channel_pump_fd local_id remote_id)
                                 [transport_fd; channel_pump_fd]) in
      match launched with
      | inl _ => do! _ := adb_close channel_server_fd in do! _ := adb_close channel_pump_fd in fail (B "adb: failed to fork")
      | inr pump =>
          do! _ := adb_close channel_pump_fd in
          do! result := attempt (start_inc_server_and_stream_signed_files (executor c) channel_server_fd database) in
          do! _ := adb_close channel_server_fd in
          match result with
          | inr server => ret (mk_processes (Some pump) server)
          | inl error => do! _ := kill_term pump in fail error
          end
      end
  end.
End Start.

(** ** The whole install *)
Record Launch (T : Type) := mk_launch { conn : T; os : Os }.
Arguments mk_launch {T}. Arguments conn {T}. Arguments os {T}.

Section Install.
Context {T : Type} `{TransportEnds T} `{HostFiles} `{Base64}.

Definition on_transport {A} (m : M T bytes A) : M (Launch T) bytes A := fun l =>
  let '(t, r) := m (conn l) in (mk_launch t (os l), r).
Definition on_os {A} (m : M Os bytes A) : M (Launch T) bytes A := fun l =>
  let '(o, r) := m (os l) in (mk_launch (conn l) o, r).

(** [incfs_mountpoint_visible]: a failure to open or to receive ends it. *)
Fixpoint incfs_go (fuel : nat) (local_id : Z) (output : bytes) : M T bytes bytes :=
  match fuel with
  | O => lift Panic
  | S fuel =>
      do! m := attempt trecv in
      match m with
      | inl _ => ret output
      | inr (hdr, payload) =>
          if command hdr =? A_CLSE then do! _ := tsend_ignored (Header.new A_CLSE local_id (arg0 hdr) []) in ret output
          else if command hdr =? A_WRTE then
            do! _ := tsend_ignored (Header.new A_OKAY local_id (arg0 hdr) []) in incfs_go fuel local_id (output ++ payload)
          else incfs_go fuel local_id output
      end
  end.
Definition incfs_mountpoint_visible : M T bytes bool :=
  do! r := attempt (open_service (B "shell,v2,raw:ls /proc/fs/incfs 2>/dev/null") 1) in
  match r with
  | inl _ => ret false
  | inr (local_id, _) =>
      do! output := fun t => incfs_go (S (t_left t)) local_id [] t in
      let stdout := from_utf8_lossy output in
      ret (contains_str (B "incfs") stdout || contains_str (B "incremental") stdout)
  end.

Definition connect_incremental (database : list IsDatabaseEntry) (passthrough_args : list bytes) : M T bytes (Z * Z) :=
  open_service (incremental_service_string database passthrough_args) 1.

(** What the device says while a piece is sent is dropped. *)
Fixpoint send_reads (local_id remote_id : Z) (rs : list (io_error + bytes)) : M T bytes unit :=
  match rs with
  | [] | inr [] :: _ => ret tt
  | inl e :: _ => fail (io_msg e)
  | inr chunk :: rs => do! _ := write_exec_payload local_id remote_id chunk [] in send_reads local_id remote_id rs
  end.
Definition send_unsigned_files (local_id remote_id : Z) (database : list IsDatabaseEntry) : M T bytes unit :=
  for_each (fun e =>
    match e with
    | Signed _ _ _ _ _ => ret tt
    | Unsigned _ _ _ local_path =>
        match reads local_path with inr e => fail (io_msg e) | inl rs => send_reads local_id remote_id rs end
    end) database.

Definition wait_for_installation (local_id remote_id : Z) : M T bytes bytes :=
  do! output := read_exec_output local_id remote_id [] in
  let truncated := take_chars (Z.to_nat MAX_MESSAGE_SIZE) output in
  if contains_str (B "Success") truncated then ret truncated
  else if failure_in truncated then fail (B "Install failed: " ++ trim truncated)
  else if count_chars truncated =? MAX_MESSAGE_SIZE then fail (B "Output too long")
  else fail (B "Failed to parse output: " ++ trim truncated).

Definition install (c : Surroundings) (files passthrough_args : list bytes) (silent : bool) : M (Launch T) bytes IncServerProcesses :=
  do! database := lift (build_database files (if silent then Normal else AllowMissingSignatures)) in
  do! '(local_id, remote_id) := on_transport (connect_incremental database passthrough_args) in
  do! _ := on_transport (send_unsigned_files local_id remote_id database) in
  on_os (start_inc_server c local_id remote_id database).

(** [run_incremental_attempt]: [None] is the silent failure. *)
Definition run_incremental_attempt (executable : bytes + io_error) (c : Surroundings) (files : list bytes) (silent wait : bool)
    : M (Launch T) (option bytes) unit :=
  if silent && negb (should_use_incremental_by_default files) then fail None else
  match executable with
  | inr e => fail (Some (B "Cannot resolve the adb executable path: " ++ io_msg e))
  | inl exe =>
      do! processes := on_err (fun error => if silent then None else Some error)
        (install (mk_surroundings (from_utf8_lossy exe) (raw_fd c) (transport_serve c) (status c)) files [] silent) in
      if wait then on_err Some (on_os (wait_for_incremental_server (server processes))) else ret tt
  end.
End Install.

(** ** Descriptors and processes *)
Lemma low_fd_free t : t !! low_fd t = None.
Proof.
  unfold low_fd. destruct (find _ _) as [n|] eqn:E; cbn [default].
  - apply find_some in E as [_ E]. apply negb_true_iff, bool_decide_eq_false in E. by apply eq_None_not_Some.
  - exfalso. assert ((list_to_set (seqZ 0 (Z.of_nat (S (base.size t)))) : gset Z) ⊆ dom t) as Hs.
    { intros n. rewrite elem_of_list_to_set, list_elem_of_In. intros Hn. apply (find_none _ _ E) in Hn.
      apply negb_false_iff, bool_decide_eq_true in Hn. by apply elem_of_dom. }
    apply subseteq_size in Hs. rewrite size_list_to_set, length_seqZ, size_dom in Hs by apply NoDup_seqZ. lia.
Qed.

Lemma elem_of_kept t l x : x ∈ kept_fds t l <-> exists b, t !! x = Some b /\ (b = false \/ x ∈ l).
Proof.
  unfold kept_fds. rewrite elem_of_dom. split.
  - intros [b Hb]. apply map_lookup_filter_Some in Hb as [Hb Hp]. by exists b.
  - intros (b & Hb & Hp). exists b. by apply map_lookup_filter_Some.
Qed.

(** The table while the two new descriptors of a pair are open, the first of them with the flag. *)
Definition with_pair (a b : Z) (t : gmap Z bool) : gmap Z bool := <[a := true]> (<[b := false]> (<[a := false]> t)).

Lemma pair_closed a b t : t !! a = None -> t !! b = None -> delete a (delete b (with_pair a b t)) = t.
Proof.
  intros Ha Hb. apply map_eq. intros x. unfold with_pair. destruct (decide (x = a)) as [->|Hxa]; [by rewrite lookup_delete_eq|].
  rewrite lookup_delete_ne by done. destruct (decide (x = b)) as [->|Hxb]; [by rewrite lookup_delete_eq|].
  by rewrite lookup_delete_ne, !lookup_insert_ne by done.
Qed.

Lemma pair_closed' a b t : t !! a = None -> t !! b = None -> delete b (delete a (with_pair a b t)) = t.
Proof. intros Ha Hb. rewrite delete_delete. by apply pair_closed. Qed.

Lemma pair_kept a b t l : t !! a = None -> t !! b = None -> a <> b -> a ∉ l ->
  kept_fds (with_pair a b t) (l ++ [b]) = kept_fds t l ∪ {[b]}.
Proof.
  intros Ha Hb Hab Hl. apply set_eq. intros x. rewrite elem_of_union, elem_of_singleton, !elem_of_kept. unfold with_pair.
  destruct (decide (x = b)) as [->|Hxb].
  { split; [by right|]. intros _. exists false. rewrite lookup_insert_ne, lookup_insert_eq by done. split; [done|by left]. }
  destruct (decide (x = a)) as [->|Hxa].
  - rewrite lookup_insert_eq. split; [|by intros [(? & ? & ?)|]; congruence]. intros (c & [= <-] & [?|Hin]); [done|].
    apply elem_of_app in Hin as [?|?%list_elem_of_singleton]; congruence.
  - rewrite !lookup_insert_ne by done. split.
    + intros (c & Hc & Hin). left. exists c. split; [done|]. destruct Hin as [?|Hin]; [by left|]. right.
      apply elem_of_app in Hin as [?|?%list_elem_of_singleton]; congruence.
    + intros [(c & Hc & Hin)|]; [|done]. exists c. split; [done|]. destruct Hin as [?|Hin]; [by left|]. right. set_solver.
Qed.

Lemma pair_kept_flagged a b t l : t !! a = None -> t !! b = None -> a <> b -> a ∉ l ->
  kept_fds (<[b := true]> (with_pair a b t)) (l ++ [b]) = kept_fds t l ∪ {[b]}.
Proof.
  intros Ha Hb Hab Hl. rewrite <- (pair_kept a) by done. apply set_eq. intros x. rewrite !elem_of_kept.
  destruct (decide (x = b)) as [->|Hx]; [|by rewrite lookup_insert_ne].
  split; intros _; [exists false|exists true]; unfold with_pair.
  - rewrite lookup_insert_ne, lookup_insert_eq by done. split; [done|by left].
  - rewrite lookup_insert_eq. split; [done|]. right. set_solver.
Qed.

Lemma kept_first a t : t !! a = None -> kept_fds (<[a := true]> t) [a] = kept_fds t [] ∪ {[a]}.
Proof.
  intros Ha. apply set_eq. intros x. rewrite elem_of_union, elem_of_singleton, !elem_of_kept. destruct (decide (x = a)) as [->|Hx].
  - split; [by right|]. intros _. exists true. rewrite lookup_insert_eq. split; [done|right; set_solver].
  - rewrite lookup_insert_ne by done. split.
    + intros (c & Hc & Hin). left. exists c. split; [done|]. destruct Hin as [?|Hin]; [by left|]. set_solver.
    + intros [(c & Hc & Hin)|]; [|done]. exists c. split; [done|]. destruct Hin as [?|Hin]; [by left|]. set_solver.
Qed.

(** *** The calls *)
Definition unmoved (o o' : Os) : Prop := procs o' = procs o /\ signals o' = signals o /\ waited o' = waited o.

Lemma socketpair_spec err o : exists o',
  unmoved o o' /\
  ((adb_socketpair err o = (o', Err err) /\ fd_table o' = fd_table o) \/
   exists a b, adb_socketpair err o = (o', Ok (a, b)) /\ fd_table o !! a = None /\ fd_table o !! b = None /\ a <> b /\
     fd_table o' = <[b := false]> (<[a := false]> (fd_table o))).
Proof.
  unfold adb_socketpair. destruct (default true (head (pairs o))); cbn [negb]; [|eexists; split; [|left; split; reflexivity]; done].
  eexists. split; [|right; exists (low_fd (fd_table o)), (low_fd (<[low_fd (fd_table o) := false]> (fd_table o))); split; [reflexivity|]]; [done|].
  pose proof (low_fd_free (<[low_fd (fd_table o) := false]> (fd_table o))) as H. apply lookup_insert_None in H as [H1 H2].
  split_and!; [apply low_fd_free|done|done|done].
Qed.

Lemma read_child_ends fuel : forall q buf, (Z.to_nat (MAX_MESSAGE_SIZE - zlen buf) < fuel)%nat -> (read_child fuel q buf).2 <> Panic.
Proof.
  induction fuel as [|fuel IH]; intros q buf Hf; [lia|]. cbn [read_child]. destruct (MAX_MESSAGE_SIZE <=? zlen buf) eqn:E; [done|].
  destruct (adb_read _ q) as [q' [bs|e]]; [|done]. destruct bs as [|x bs]; [done|]. apply IH. rewrite zlen_app.
  assert (0 < zlen (x :: bs)) by (unfold zlen; cbn; lia). lia.
Qed.

Lemma await_verdict_spec child fd o : exists o' r, await_verdict child fd o = (o', r) /\
  fd_table o' = delete fd (fd_table o) /\ procs o' = procs o /\ waited o' = waited o /\
  match r with Ok _ => signals o' = signals o | Err _ => signals o' = signals o ++ [child] | Panic => False end.
Proof.
  unfold await_verdict, bind, attempt, wait_for_installation_fd.
  pose proof (read_child_ends (S (Z.to_nat MAX_MESSAGE_SIZE)) (printed o) []) as H. specialize (H ltac:(unfold MAX_MESSAGE_SIZE, zlen; cbn [length]; lia)).
  destruct (read_child _ _ _) as [q r]. cbn [snd] in H.
  assert ((let! buf := r in installation_verdict buf) <> Panic) as Hp.
  { destruct r; [|done|done]. cbn. unfold installation_verdict. by repeat case_match. }
  destruct (let! buf := r in installation_verdict buf) as [[]| e|]; [| |done].
  - eexists _, _. split; [done|]. by split_and!.
  - eexists _, _. split; [done|]. by split_and!.
Qed.

Lemma fork_spec f p o : exists o', fd_table o' = fd_table o /\ signals o' = signals o /\ waited o' = waited o /\
  ((exists e, fork f p o = (o', Err e) /\ procs o' = procs o) \/
   exists pid, fork f p o = (o', Ok pid) /\ procs o' = procs o ++ [mk_proc pid p (f (dom (fd_table o)))]).
Proof.
  unfold fork. destruct (forks o) as [|[e|pid] l]; eexists; (split_and!; [..|first [left; eexists; split; reflexivity|right; eexists; split; reflexivity]]); done.
Qed.

Lemma launch_spec exe args inh o : exists o', fd_table o' = fd_table o /\ signals o' = signals o /\ waited o' = waited o /\
  ((exists e, adb_launch_process exe args inh o = (o', Err e) /\ procs o' = procs o) \/
   exists pid, adb_launch_process exe args inh o = (o', Ok pid) /\ procs o' = procs o ++ [mk_proc pid (Exec exe args) (kept_fds (fd_table o) inh)]).
Proof.
  unfold adb_launch_process. destruct (existsb _ _); [|apply fork_spec].
  exists o. split_and!; [done..|]. left. by eexists.
Qed.

Lemma close_on_exec_open fd o b : fd_table o !! fd = Some b -> close_on_exec fd o = (set_table (<[fd := true]> (fd_table o)) o, Ok tt).
Proof. unfold close_on_exec. by intros ->. Qed.

(** A pair is made, its first end gets the flag, and [k] goes on with it: whatever holds of both outcomes holds. *)
Lemma pair_then {A} err (k : Z -> Z -> M Os bytes A) o (P : Os * res bytes A -> Prop) :
  (forall o', unmoved o o' -> fd_table o' = fd_table o -> P (o', Err err)) ->
  (forall a b o', unmoved o o' -> fd_table o !! a = None -> fd_table o !! b = None -> a <> b ->
     fd_table o' = with_pair a b (fd_table o) -> P (k a b o')) ->
  P (bind (adb_socketpair err) (fun '(a, b) => bind (close_on_exec a) (fun _ => k a b)) o).
Proof.
  intros Herr Hok. destruct (socketpair_spec err o) as (o1 & Hu & [[E Ht]|(a & b & E & Ha & Hb & Hab & Ht)]).
  - rewrite (bind_err _ _ _ _ _ E). by apply Herr.
  - rewrite (bind_ok _ _ _ _ _ E). erewrite bind_ok; [|eapply close_on_exec_open; rewrite Ht, lookup_insert_ne, lookup_insert_eq by done; done].
    apply Hok; [by destruct Hu|done..|]. cbn [fd_table set_table]. by rewrite Ht.
Qed.

Definition server_proc (exe : bytes) (database : list IsDatabaseEntry) (pid cfd w : Z) (fds : gset Z) : Proc :=
  mk_proc pid (Exec exe (server_args cfd w database)) fds.

Lemma stream_spec exe cfd database o : is_Some (fd_table o !! cfd) ->
  let '(o', r) := start_inc_server_and_stream_signed_files exe cfd database o in
  fd_table o' = fd_table o /\ waited o' = waited o /\
  ((procs o' = procs o /\ signals o' = signals o /\ exists e, r = Err e) \/
   exists pid w, fd_table o !! w = None /\
     procs o' = procs o ++ [server_proc exe database pid cfd w (kept_fds (fd_table o) [cfd] ∪ {[w]})] /\
     match r with Ok p => p = pid /\ signals o' = signals o | Err _ => signals o' = signals o ++ [pid] | Panic => False end).
Proof.
  intros Hc. unfold start_inc_server_and_stream_signed_files. apply pair_then.
  { intros o' (Hp & Hs & Hw) Ht. split_and!; [done|done|]. left. split_and!; [done|done|by eexists]. }
  intros a b o1 (Hp & Hs & Hw) Ha Hb Hab Ht.
  assert (a ∉ [cfd]) as Hac. { rewrite list_elem_of_singleton. intros ->. destruct Hc. congruence. }
  destruct (launch_spec exe (server_args cfd b database) [cfd; b] o1) as (o2 & Ht2 & Hs2 & Hw2 & [(e & E & Hp2)|(pid & E & Hp2)]).
  - rewrite (bind_ok _ _ _ _ _ (attempt_err _ _ _ _ E)). cbn -[with_pair]. rewrite Ht2, Ht, pair_closed' by done.
    split_and!; [done|congruence|]. left. split_and!; [congruence|congruence|by eexists].
  - rewrite (bind_ok _ _ _ _ _ (attempt_ok _ _ _ _ E)). unfold bind at 1. cbn [adb_close].
    match goal with |- context[bind (await_verdict pid a) _ ?s] => set (o3 := s) end.
    destruct (await_verdict_spec pid a o3) as (o4 & r & Ev & Ht4 & Hp4 & Hw4 & Hr).
    assert (fd_table o4 = fd_table o) as Ht4'. { rewrite Ht4. cbn [o3 set_table fd_table]. by rewrite Ht2, Ht, pair_closed. }
    assert (procs o4 = procs o ++ [server_proc exe database pid cfd b (kept_fds (fd_table o) [cfd] ∪ {[b]})]) as Hp4'.
    { rewrite Hp4. cbn [o3 set_table procs]. rewrite Hp2, Hp, Ht. unfold server_proc. rewrite <- (pair_kept a) by done. done. }
    cbn [o3 set_table signals waited] in Hr, Hw4.
    destruct r as [[]|e|]; [rewrite (bind_ok _ _ _ _ _ Ev)|rewrite (bind_err _ _ _ _ _ Ev)|done]; cbn [ret];
      (split; [done|split; [congruence|right]]); exists pid, b; (split; [done|split; [done|]]); [split; [done|]|]; congruence.
Qed.

(** *** The processes of an install *)

(** The socket that is handed over, if one is. *)
Definition handed_fd (c : Surroundings) : option Z :=
  if match transport_serve c with Some v => negb (bool_decide (v = B "0")) | None => false end then None else raw_fd c.

Section Clean.
Context `{HostFiles} (c : Surroundings) (local_id remote_id : Z) (database : list IsDatabaseEntry) (t : gmap Z bool).

(** The pump has the device's socket and one end of the channel, the server the other end and the writing end of the
    pipe; besides, each has what any program gets. A server that is forked has everything but the reading end of the
    pipe, the standard input and the standard output. *)
Definition pump_proc (pid fd b : Z) : Proc :=
  mk_proc pid (Exec (executor c) (pump_args fd b local_id remote_id)) (kept_fds t [fd] ∪ {[b]}).
Definition forked_proc (files : list (ServerFile LocalFileSource)) (pid w : Z) : Proc :=
  mk_proc pid (ServeForked files local_id remote_id w) ((dom t ∪ {[w]}) ∖ {[0; 1]}).

Inductive started : option IncServerProcesses -> list Proc -> Prop :=
| started_none : started None []
| started_pump fd b p : handed_fd c = Some fd -> t !! b = None -> started None [pump_proc p fd b]
| started_both fd a b w p s : handed_fd c = Some fd -> t !! a = None -> t !! b = None -> a <> b -> t !! w = None -> w <> a ->
    started (Some (mk_processes (Some p) s))
      [pump_proc p fd b; server_proc (executor c) database s a w (kept_fds t [] ∪ {[a]} ∪ {[w]})]
| started_fork files w s : handed_fd c = None -> open_all fs zip (signed_paths database) = Ok files -> t !! w = None ->
    started (Some (mk_processes None s)) [forked_proc files s w].

(** What is left behind, for each outcome. *)
Definition left_clean (o o' : Os) (r : res bytes IncServerProcesses) : Prop :=
  fd_table o' = fd_table o /\ waited o' = waited o /\
  exists new, procs o' = procs o ++ new /\
    match r with
    | Ok ps => started (Some ps) new /\ signals o' = signals o
    | Err _ => exists ps, started ps new /\ signals o' = signals o ++ rev (map p_pid new)
    | Panic => False
    end.

Lemma clean_err o o' e : unmoved o o' -> fd_table o' = fd_table o -> left_clean o o' (Err e).
Proof.
  intros (Hp & Hs & Hw) Ht. split_and!; [done|done|]. exists []. rewrite app_nil_r. split; [done|]. exists None.
  split; [constructor|by rewrite app_nil_r].
Qed.
End Clean.

Lemma open_all_total `{HostFiles} paths : open_all fs zip paths <> Panic.
Proof.
  induction paths as [|p paths IH]; [done|]. cbn [open_all]. destruct (open_local fs zip p) eqn:E; cbn [res_bind]; [|done|].
  - by destruct (open_all fs zip paths).
  - unfold open_local in E. repeat case_match; try done; simplify_eq/=; repeat case_match; done.
Qed.

Lemma forked_clean `{HostFiles} c local_id remote_id database o threads : handed_fd c = None ->
  let '(o', r) := start_forked_server threads local_id remote_id database o in
  left_clean c local_id remote_id database (fd_table o) o o' r.
Proof.
  intros Hh. unfold start_forked_server. destruct (1 <? threads); [by apply clean_err|].
  destruct (open_all fs zip (signed_paths database)) as [files|e|] eqn:Ef; [|by apply clean_err|by apply open_all_total in Ef].
  rewrite bind_lift. apply pair_then; [by intros o'; apply clean_err|].
  intros a b o1 Hu Ha Hb Hab Ht. pose proof Hu as (Hp & Hs & Hw).
  destruct (fork_spec (fun fds => fds ∖ {[a; 0; 1]}) (ServeForked files local_id remote_id b) o1)
    as (o2 & Ht2 & Hs2 & Hw2 & [(e & E & Hp2)|(pid & E & Hp2)]).
  - rewrite (bind_ok _ _ _ _ _ (attempt_err _ _ _ _ E)). cbn -[with_pair].
    apply clean_err; [split_and!; cbn; congruence|]. cbn. rewrite Ht2, Ht. by apply pair_closed'.
  - rewrite (bind_ok _ _ _ _ _ (attempt_ok _ _ _ _ E)). unfold bind at 1. cbn [adb_close].
    match goal with |- context[bind (await_verdict pid a) _ ?s] => set (o3 := s) end.
    destruct (await_verdict_spec pid a o3) as (o4 & r & Ev & Ht4 & Hp4 & Hw4 & Hr). cbn [o3 set_table fd_table procs signals waited] in *.
    assert (fd_table o4 = fd_table o) as Ht4' by (rewrite Ht4, Ht2, Ht; by apply pair_closed).
    assert (procs o4 = procs o ++ [forked_proc local_id remote_id (fd_table o) files pid b]) as Hp4'.
    { rewrite Hp4, Hp2, Hp, Ht. unfold forked_proc. do 3 f_equal. unfold with_pair. rewrite !dom_insert_L. apply not_elem_of_dom in Ha.
      apply set_eq. intros x. destruct (decide (x = a)); set_solver. }
    assert (started c local_id remote_id database (fd_table o) (Some (mk_processes None pid)) [forked_proc local_id remote_id (fd_table o) files pid b])
      as Hst by by constructor.
    destruct r as [[]|e|]; [rewrite (bind_ok _ _ _ _ _ Ev)|rewrite (bind_err _ _ _ _ _ Ev)|done]; cbn [ret];
      (split; [done|split; [congruence|]]); eexists; (split; [done|]); [split|eexists; split]; [done|congruence|done|cbn; congruence].
Qed.

(** The second half of the launch, once the pump runs. *)
Lemma pumped_clean `{HostFiles} c local_id remote_id database o o1 fd a b p :
  handed_fd c = Some fd -> fd_table o !! a = None -> fd_table o !! b = None -> a <> b ->
  fd_table o1 = <[a := true]> (fd_table o) -> procs o1 = procs o ++ [pump_proc c local_id remote_id (fd_table o) p fd b] ->
  signals o1 = signals o -> waited o1 = waited o ->
  let '(o', r) := bind (attempt (start_inc_server_and_stream_signed_files (executor c) a database)) (fun result =>
    bind (adb_close a) (fun _ =>
    match result with inr server => ret (mk_processes (Some p) server) | inl error => bind (kill_term p) (fun _ => fail error) end)) o1 in
  left_clean c local_id remote_id database (fd_table o) o o' r.
Proof.
  intros Hh Ha Hb Hab Ht Hp Hs Hw. pose proof (stream_spec (executor c) a database o1) as Hst.
  destruct (start_inc_server_and_stream_signed_files (executor c) a database o1) as [o2 r] eqn:E.
  destruct Hst as (Ht2 & Hw2 & Hst); [rewrite Ht, lookup_insert_eq; by eexists|].
  assert (delete a (fd_table o2) = fd_table o) as Ht3 by (rewrite Ht2, Ht; by apply delete_insert_id).
  destruct Hst as [(Hp2 & Hs2 & e & ->)|(s & w & Hfw & Hp2 & Hr)].
  - rewrite (bind_ok _ _ _ _ _ (attempt_err _ _ _ _ E)). cbn -[app]. split; [done|split; [cbn; congruence|]].
    exists [pump_proc c local_id remote_id (fd_table o) p fd b]. split; [cbn; congruence|]. exists None. split; [by constructor|]. cbn. congruence.
  - rewrite Ht in Hfw, Hp2. apply lookup_insert_None in Hfw as [Hfw Haw]. rewrite kept_first in Hp2 by done. rewrite Hp, <- app_assoc in Hp2.
    pose proof (started_both c local_id remote_id database (fd_table o) fd a b w p s Hh Ha Hb Hab Hfw (not_eq_sym Haw)) as Hst.
    destruct r as [s'|e|]; [destruct Hr as [-> Hr]; rewrite (bind_ok _ _ _ _ _ (attempt_ok _ _ _ _ E))|
      rewrite (bind_ok _ _ _ _ _ (attempt_err _ _ _ _ E))|done]; cbn -[app];
      (split; [done|split; [cbn; congruence|]]); eexists; (split; [exact Hp2|]); [split; [done|cbn; congruence]|].
    exists (Some (mk_processes (Some p) s)). split; [done|]. cbn. rewrite Hr, Hs, <- app_assoc. done.
Qed.

(** C16: launching the processes of an incremental install leaves nothing behind. Whatever fails, the descriptors of the
    launcher are as they were. When it succeeds, exactly the processes it returns were started, none was killed,
    and each has the descriptors of its task and not those of the other; when it fails, every process it has
    started was told to stop. *)
Theorem inc_launch_clean `{HostFiles} c local_id remote_id database o :
  (forall fd, handed_fd c = Some fd -> is_Some (fd_table o !! fd)) ->
  let '(o', r) := start_inc_server c local_id remote_id database o in
  left_clean c local_id remote_id database (fd_table o) o o' r.
Proof.
  intros Hfd. unfold start_inc_server. fold (handed_fd c). destruct (handed_fd c) as [fd|] eqn:Hh; [|by apply forked_clean].
  specialize (Hfd fd eq_refl). apply pair_then; [by intros o'; apply clean_err|].
  intros a b o1 (Hp & Hs & Hw) Ha Hb Hab Ht. erewrite bind_ok; [|eapply close_on_exec_open; rewrite Ht; unfold with_pair; rewrite lookup_insert_ne, lookup_insert_eq by done; done].
  set (o2 := set_table (<[b := true]> (fd_table o1)) o1).
  assert (a ∉ [fd]) as Hafd. { rewrite list_elem_of_singleton. intros ->. destruct Hfd. congruence. }
  destruct (launch_spec (executor c) (pump_args fd b local_id remote_id) [fd; b] o2) as (o3 & Ht3 & Hs3 & Hw3 & [(e & E & Hp3)|(p & E & Hp3)]).
  - cbn [o2 set_table fd_table procs signals waited] in *. rewrite (bind_ok _ _ _ _ _ (attempt_err _ _ _ _ E)). cbn -[with_pair].
    apply clean_err; [split_and!; cbn; congruence|]. cbn. rewrite Ht3, Ht, delete_delete, delete_insert_eq, pair_closed; done.
  - rewrite (bind_ok _ _ _ _ _ (attempt_ok _ _ _ _ E)). unfold bind at 1. cbn [adb_close].
    match goal with |- context[bind (attempt _) _ ?s] => set (o4 := s) end.
    assert (fd_table o4 = <[a := true]> (fd_table o)) as Ht4.
    { cbn [o4 set_table fd_table]. rewrite Ht3. cbn [o2 set_table fd_table]. rewrite Ht. apply map_eq. intros x. unfold with_pair.
      destruct (decide (x = b)) as [->|Hx]; [by rewrite lookup_delete_eq, lookup_insert_ne|].
      rewrite lookup_delete_ne, lookup_insert_ne by done. destruct (decide (x = a)) as [->|]; [by rewrite !lookup_insert_eq|by rewrite !lookup_insert_ne]. }
    cbn [o2 set_table fd_table procs signals waited] in *.
    apply (pumped_clean c local_id remote_id database o o4 fd a b p); [done|done|done|done|done| | |]; cbn [o4 set_table procs signals waited]; [|congruence..].
    rewrite Hp3, Hp, Ht. unfold pump_proc. rewrite <- (pair_kept_flagged a) by done. done.
Qed.

(** ** The database and the server

    The header that the launcher reads is the header that the server skips. *)
Lemma read_file_any {E F} n (e : E) (f : F) rest x : read_file n e rest = Ok x -> read_file n f rest = Ok x.
Proof. unfold read_file. case_match; [by intros [= <-]|done]. Qed.

Lemma append_skips rest s left rest' s' left' : append_bytes_with_size rest s left = Ok (rest', s', left') ->
  skip_bytes_with_size rest = Ok rest' /\ prefix s s'.
Proof.
  unfold append_bytes_with_size, skip_bytes_with_size, read_i32.
  destruct (read_file 4 _ rest) as [[b r]| |] eqn:E; [|done|done]. cbn [res_bind]. rewrite (read_file_any _ _ fail_int _ _ E). cbn [res_bind].
  destruct (i32_of b <? 0); [done|]. cbn [orb]. destruct (left <? i32_of b); [done|]. destruct (i32_of b =? 0); [by intros [= <- <- <-]|].
  destruct (read_file (i32_of b) _ r) as [[d r']| |] eqn:E'; [|done|done]. rewrite (read_file_any _ _ fail_seek _ _ E'). cbn [res_bind].
  intros [= <- <- <-]. split; [done|]. by eexists.
Qed.

Lemma read_header_skipped f h : read_id_sig_headers f = Ok h ->
  sig_bytes h <> [] /\ exists off, skip_id_sig_headers f = Ok (off, sig_tree_size h).
Proof.
  unfold read_id_sig_headers, skip_id_sig_headers, read_i32.
  destruct (read_file 4 _ f) as [[v r]| |] eqn:E; [|done|done]. rewrite (read_file_any _ _ fail_seek _ _ E). cbn [res_bind].
  destruct (append_bytes_with_size r _ _) as [[[r1 s1] l1]| |] eqn:E1; [|done|done]. cbn [res_bind].
  destruct (append_bytes_with_size r1 _ _) as [[[r2 s2] l2]| |] eqn:E2; [|done|done]. cbn [res_bind].
  apply append_skips in E1 as [-> [x1 ->]]. apply append_skips in E2 as [E2 [x2 ->]]. cbn [res_bind]. rewrite E2. cbn [res_bind].
  destruct (read_file 4 _ r2) as [[b r3]| |] eqn:E3; [|done|done]. rewrite (read_file_any _ _ fail_int _ _ E3). cbn [res_bind].
  intros [= <-]. split; [|by eexists]. done.
Qed.

Lemma tree_go_nonneg fuel : forall n t, 0 <= t -> 0 <= tree_go fuel n t.
Proof.
  induction fuel as [|fuel IH]; intros n t Ht; cbn [tree_go]; [done|]. destruct (1 <? n) eqn:E; [|done]. apply IH.
  pose proof (Z.quot_pos (n + HASHES_PER_BLOCK - 1) HASHES_PER_BLOCK). change HASHES_PER_BLOCK with 128 in *. lia.
Qed.

Lemma tree_size_nonneg n : 0 <= verity_tree_size_for_file n.
Proof.
  unfold verity_tree_size_for_file, verity_tree_blocks_for_file, BLOCK_SIZE. destruct (n =? 0); [done|].
  pose proof (tree_go_nonneg 63 (1 + (n - 1) ÷ 4096) 0). lia.
Qed.

Section DatabaseSpec.
Context `{HostFilesLaws} `{Base64}.

Definition has_signature (file : bytes) : bool := path_exists (idsig_path_for file).

(** What a file's entry says of it. *)
Definition describes (file : bytes) (e : IsDatabaseEntry) : Prop :=
  exists name size, file_name file = Some name /\ meta file = inl size /\
    ((has_signature file = true /\ exists h content, fs (idsig_path_for file) = inl content /\ read_id_sig_headers content = Ok h /\
       validate_signature (sig_bytes h) (sig_tree_size h) (swrap 64 size) = Ok tt /\
       e = Signed name size (file_id e) (encode_signature (sig_bytes h)) file) \/
     (has_signature file = false /\ e = Unsigned name size (file_id e) file)).

(** The signature of each file, as it was read. *)
Definition sig_of (file : bytes) (x : bytes * bytes * Z) : Prop :=
  exists s ts, x = (file, s, ts) /\
    ((has_signature file = false /\ s = []) \/
     (has_signature file = true /\ exists content h, fs (idsig_path_for file) = inl content /\ read_id_sig_headers content = Ok h /\
        s = sig_bytes h /\ ts = sig_tree_size h /\ s <> [])).

Lemma read_signatures_spec files policy l : read_signatures files policy = Ok l ->
  Forall2 sig_of files l /\ (policy = Normal -> Forall (fun f => requires_v4_signature (from_utf8_lossy f) = true -> has_signature f = true) files).
Proof.
  revert l. induction files as [|f files IH]; intros l; cbn [read_signatures]; [intros [= <-]; by split|].
  assert (forall h, read_signature (idsig_path_for f) = Ok h -> sig_of f (f, sig_bytes h, sig_tree_size h)) as Hs.
  { intros h. unfold read_signature. intros E. exists (sig_bytes h), (sig_tree_size h). split; [done|]. unfold has_signature.
    destruct (path_exists _); cbn [negb] in E; [right|left; by injection E as <-]. split; [done|].
    destruct (fs _) as [content|] eqn:Ef; [|done]. exists content, h. split_and!; [done..|]. by apply read_header_skipped in E as [? _]. }
  destruct (read_signature _) as [h| |] eqn:Eh; [|done|done]. cbn [res_bind]. specialize (Hs h eq_refl).
  destruct (requires_v4_signature _ && _ && _) eqn:Ep; [done|]. destruct (read_signatures files policy) as [rest| |]; [|done|done].
  intros [= <-]. destruct (IH rest eq_refl) as [Hl Hn]. split; [by constructor|]. intros ->. constructor; [|by apply Hn].
  intros Hr. rewrite Hr in Ep. cbn in Ep. destruct Hs as (s & ts & [= <- <-] & [[_ E]|[? _]]); [|done]. by rewrite E in Ep.
Qed.

Lemma input_name_ok file n : input_name file = Ok n -> file_name file = Some n.
Proof. unfold input_name. destruct (file_name file) as [x|]; [|done]. case_match; [by intros [= ->]|done]. Qed.
Lemma input_size_ok file n : input_size file = Ok n -> meta file = inl n.
Proof. unfold input_size. case_match; [by intros [= ->]|done]. Qed.
Lemma next_id_ok i j : next_id i = Ok j -> j = i + 1.
Proof. unfold next_id. case_match; [done|by intros [= <-]]. Qed.

Lemma zlen_nil_iff (s : bytes) : (zlen s =? 0) = bool_decide (s = []).
Proof. destruct s; [done|]. unfold zlen. rewrite bool_decide_eq_false_2 by done. apply Z.eqb_neq. cbn [length]. lia. Qed.

Lemma signed_spec files l : Forall2 sig_of files l -> forall id db last, signed_entries l id = Ok (db, last) ->
  last = id + zlen db /\ map file_id db = seqZ id (zlen db) /\ Forall2 describes (List.filter has_signature files) db.
Proof.
  induction 1 as [|f x files l Hx _ IH]; intros id db last; cbn [signed_entries List.filter].
  { intros [= <- <-]. unfold zlen. cbn. split_and!; [lia|done|constructor]. }
  destruct Hx as (s & ts & -> & Hx). rewrite zlen_nil_iff. case_bool_decide as Es.
  { destruct Hx as [[-> _]|(_ & _ & _ & _ & _ & _ & _ & ?)]; [apply IH|done]. }
  destruct Hx as [[_ ?]|(Hs & content & h & Hc & Hh & -> & -> & _)]; [done|]. rewrite Hs.
  destruct (input_size f) as [n| |] eqn:En; [|done|done]. cbn [res_bind]. destruct (validate_signature _ _ _) as [[]| |] eqn:Ev; [|done|done].
  cbn [res_bind]. destruct (input_name f) as [name| |] eqn:Ename; [|done|done]. cbn [res_bind].
  destruct (next_id id) as [id'| |] eqn:Eid; [|done|done]. apply next_id_ok in Eid as ->. cbn [res_bind].
  destruct (signed_entries l (id + 1)) as [[rest last']| |] eqn:Er; [|done|done]. cbn [res_bind]. intros [= <- <-].
  destruct (IH _ _ _ Er) as (-> & Hids & Hd). apply input_size_ok in En. apply input_name_ok in Ename. unfold zlen. cbn [length map file_id].
  split_and!; [lia| |].
  - rewrite seqZ_cons by lia. f_equal. rewrite Hids. f_equal; unfold zlen; lia.
  - constructor; [|done]. exists name, n. split_and!; [done|done|]. left. split; [done|]. by exists h, content.
Qed.

Lemma unsigned_spec files l : Forall2 sig_of files l -> forall id db, unsigned_entries l id = Ok db ->
  map file_id db = seqZ id (zlen db) /\ Forall2 describes (List.filter (fun f => negb (has_signature f)) files) db.
Proof.
  induction 1 as [|f x files l Hx _ IH]; intros id db; cbn [unsigned_entries List.filter]; [intros [= <-]; by split|].
  destruct Hx as (s & ts & -> & Hx). rewrite zlen_nil_iff. case_bool_decide as Es; cbn [negb].
  2: { destruct Hx as [[_ ?]|(-> & _)]; [done|apply IH]. }
  destruct Hx as [[Hno _]|(_ & _ & _ & _ & _ & _ & _ & ?)]; [|done]. rewrite Hno. cbn [negb].
  destruct (input_size f) as [n| |] eqn:En; [|done|done]. cbn [res_bind]. destruct (input_name f) as [name| |] eqn:Ename; [|done|done]. cbn [res_bind].
  destruct (next_id id) as [id'| |] eqn:Eid; [|done|done]. apply next_id_ok in Eid as ->. cbn [res_bind].
  destruct (unsigned_entries l (id + 1)) as [rest| |] eqn:Er; [|done|done]. cbn [res_bind]. intros [= <-].
  destruct (IH _ _ Er) as (Hids & Hd). apply input_size_ok in En. apply input_name_ok in Ename. unfold zlen. cbn [length map file_id]. split.
  - rewrite seqZ_cons by lia. f_equal. rewrite Hids. f_equal; unfold zlen; lia.
  - constructor; [|done]. exists name, n. split_and!; [done|done|]. by right.
Qed.

(** A file that the launcher has accepted as signed is opened by the server, with the size of its entry. *)
Lemma described_opens file e f : describes file e -> is_v4_signed e = true -> fs file = inl f ->
  zlen f < 2 ^ 63 -> verity_tree_size_for_file (zlen f) < 2 ^ 31 ->
  exists sf, open_local fs zip file = Ok sf /\ filepath sf = file /\ lf_file (source sf) = f /\ IncServer.size sf = zlen f.
Proof.
  intros (name & n & _ & Hm & Hd) Hs Hf Hn Ht. destruct Hd as [(_ & h & content & Hc & Hh & Hv & _)|[_ He]]; [|by rewrite He in Hs].
  rewrite (meta_size _ _ Hf) in Hm. injection Hm as <-. rewrite swrap_small in Hv by (try done; unfold sint; change (64 - 1) with 63; unfold zlen in *; lia).
  unfold open_local. rewrite Hf. unfold idsig_path_for in Hc. rewrite Hc. apply read_header_skipped in Hh as [_ [off ->]].
  unfold validate_signature in Hv. destruct (MAX_SIGNATURE_SIZE <? _); [done|]. pose proof (tree_size_nonneg (zlen f)).
  rewrite swrap_small in Hv by (try done; unfold sint; change (32 - 1) with 31; lia). destruct (negb _); [done|]. cbn [res_bind]. by eexists.
Qed.

Definition servable (p : bytes) : Prop :=
  is_utf8 p = true /\ exists f, fs p = inl f /\ zlen f < 2 ^ 63 /\ verity_tree_size_for_file (zlen f) < 2 ^ 31.
Definition serves (p : bytes) (sf : ServerFile LocalFileSource) : Prop :=
  filepath sf = p /\ fs p = inl (lf_file (source sf)) /\ IncServer.size sf = zlen (lf_file (source sf)).

Lemma described_all files db : Forall2 describes files db -> Forall (fun f => has_signature f = true) files -> Forall servable files ->
  exists opened, open_all fs zip files = Ok opened /\ Forall2 serves files opened.
Proof.
  induction 1 as [|p e files db Hd _ IH]; intros HS HF; [by exists []|].
  apply list.Forall_cons in HS as [Hs HS]. apply list.Forall_cons in HF as [(_ & f & Hf & Hn & Ht) HF].
  assert (is_v4_signed e = true) as He.
  { destruct Hd as (? & ? & _ & _ & [(_ & ? & ? & _ & _ & _ & ->)|(Hno & _)]); [done|congruence]. }
  destruct (described_opens _ _ _ Hd He Hf Hn Ht) as (sf & E & Hp & Hfile & Hsize). destruct (IH HS HF) as (opened & Eo & Ho).
  exists (sf :: opened). cbn [open_all]. rewrite E. cbn [res_bind]. rewrite Eo. split; [done|]. constructor; [|done]. rewrite <- Hfile in Hf, Hsize. done.
Qed.

Lemma signed_paths_app a b : signed_paths (a ++ b) = signed_paths a ++ signed_paths b.
Proof. apply omap_app. Qed.

Lemma signed_paths_spec (b : bool) files db : Forall2 describes files db -> Forall (fun f => has_signature f = b /\ is_utf8 f = true) files ->
  signed_paths db = if b then files else [].
Proof.
  induction 1 as [|f e files db Hd _ IH]; intros HF; [by destruct b|]. apply list.Forall_cons in HF as [[Hb Hu] HF].
  specialize (IH HF). unfold signed_paths in *. cbn [omap list_omap].
  destruct Hd as (? & ? & _ & _ & [(Hs & ? & ? & _ & _ & _ & ->)|(Hs & ->)]); rewrite Hs in Hb; subst b; rewrite IH; [|done].
  by rewrite lossy_utf8.
Qed.
End DatabaseSpec.

(** C17: the identifiers of the database are the positions of its files in what the server serves. The signed files come
    first, those that have a signature file, in the order they were given, then the others; every entry has the
    size and the name of its file and its position as identifier; with the strict policy no file that needs a
    signature is without one. And the server, started with the arguments that the launcher makes of the database,
    opens all signed files: its file of a number is the file whose entry has this identifier. *)
Theorem inc_database_served `{HostFilesLaws} `{Base64} files policy database cfd out :
  build_database files policy = Ok database ->
  Forall servable files ->
  let signed := List.filter has_signature files in
  Forall2 describes (signed ++ List.filter (fun f => negb (has_signature f)) files) database /\
  map file_id database = seqZ 0 (zlen database) /\
  (policy = Normal -> Forall (fun f => requires_v4_signature f = true -> has_signature f = true) files) /\
  drop 3 (server_args cfd out database) = signed /\
  exists opened, open_all fs zip (drop 3 (server_args cfd out database)) = Ok opened /\ Forall2 serves signed opened.
Proof.
  intros Hb HF signed. unfold build_database in Hb. destruct (read_signatures files policy) as [l| |] eqn:El; [|done|done]. cbn [res_bind] in Hb.
  apply read_signatures_spec in El as [Hl Hpol].
  destruct (signed_entries l 0) as [[db1 last]| |] eqn:E1; [|done|done]. cbn [res_bind] in Hb. apply (signed_spec _ _ Hl) in E1 as (-> & Hid1 & Hd1).
  destruct (unsigned_entries l (0 + zlen db1)) as [db2| |] eqn:E2; [|done|done]. injection Hb as <-. apply (unsigned_spec _ _ Hl) in E2 as (Hid2 & Hd2).
  assert (drop 3 (server_args cfd out (db1 ++ db2)) = signed) as Hargs.
  { unfold server_args. cbn [drop app]. rewrite signed_paths_app, (signed_paths_spec true _ _ Hd1), (signed_paths_spec false _ _ Hd2); [by rewrite app_nil_r|..].
    all: apply list.Forall_forall; intros f Hf%list_elem_of_In; apply filter_In in Hf as [Hin Hs]; rewrite list.Forall_forall in HF;
      apply list_elem_of_In in Hin; (split; [|by apply HF]); destruct (has_signature f); done. }
  split_and!; [by apply Forall2_app| | |done|].
  - rewrite map_app, Hid1, Hid2, zlen_app, <- seqZ_app by (unfold zlen; lia). done.
  - intros Hn. eapply list.Forall_impl; [apply list.Forall_and; split; [exact HF|by apply Hpol]|]. intros f [[Hu _] Hr]. by rewrite lossy_utf8 in Hr.
  - rewrite Hargs. apply (described_all _ _ Hd1); apply list.Forall_forall; intros f Hf%list_elem_of_In; apply filter_In in Hf as [Hin Hs]; [done|].
    rewrite list.Forall_forall in HF. by apply HF, list_elem_of_In.
Qed.

(** ** The verdict *)

(** The verdict is that of the first 256 bytes that the server prints, however they arrive. *)
Lemma read_child_all fuel : forall q buf, zlen buf <= MAX_MESSAGE_SIZE ->
  Forall (fun e => match e with inl seg => seg <> [] | inr e => io_kind e = Interrupted end) q ->
  (Z.to_nat (MAX_MESSAGE_SIZE - zlen buf) < fuel)%nat ->
  (read_child fuel q buf).2 = Ok (take (Z.to_nat MAX_MESSAGE_SIZE) (buf ++ script_data q)).
Proof.
  induction fuel as [|fuel IH]; intros q buf Hb HF Hfuel; [lia|]. cbn [read_child].
  destruct (MAX_MESSAGE_SIZE <=? zlen buf) eqn:E.
  { rewrite take_app_le by (unfold zlen in *; lia). rewrite take_ge by (unfold zlen in *; lia). done. }
  induction HF as [|e q He HF IHq]; [cbn; by rewrite app_nil_r, take_ge by (unfold zlen in *; lia)|]. destruct e as [seg|e]; cbn [adb_read].
  - unfold read. destruct (zlen seg <=? MAX_MESSAGE_SIZE - zlen buf) eqn:Es.
    + destruct seg as [|x seg]; [done|]. rewrite IH; [by rewrite <- app_assoc|rewrite zlen_app; lia|done|].
      rewrite zlen_app. unfold zlen in *. cbn [length] in *. lia.
    + assert (0 < zlen (take (Z.to_nat (MAX_MESSAGE_SIZE - zlen buf)) seg)) as Hl by (unfold zlen in *; rewrite length_take; lia).
      destruct (take _ seg) as [|x s] eqn:Et; [done|]. rewrite <- Et in *.
      assert (zlen (take (Z.to_nat (MAX_MESSAGE_SIZE - zlen buf)) seg) = MAX_MESSAGE_SIZE - zlen buf) as Hlen.
      { unfold zlen in *. rewrite length_take. lia. }
      rewrite IH; [|rewrite zlen_app; lia| |rewrite zlen_app; lia].
      * change (script_data (inl ?s :: q)) with (s ++ script_data q). by rewrite <- app_assoc, (app_assoc (take _ seg)), take_drop.
      * constructor; [|done]. intros Hd. apply (f_equal zlen) in Hd. unfold zlen in *. rewrite length_drop in Hd. cbn in Hd. lia.
  - rewrite bool_decide_eq_true_2 by done. done.
Qed.

Lemma verdict_output o : Forall (fun e => match e with inl seg => seg <> [] | inr e => io_kind e = Interrupted end) (printed o) ->
  (wait_for_installation_fd o).2 = installation_verdict (take (Z.to_nat MAX_MESSAGE_SIZE) (script_data (printed o))).
Proof.
  intros HF. unfold wait_for_installation_fd. pose proof (read_child_all (S (Z.to_nat MAX_MESSAGE_SIZE)) (printed o) []) as H.
  destruct (read_child _ _ _) as [q r]. cbn [snd] in H. rewrite H; [done|done|done|]. unfold MAX_MESSAGE_SIZE, zlen. cbn [length]. lia.
Qed.

(** ** Samples *)
Module LaunchSample.
#[local] Existing Instance KeySample.sample_base64.
Definition idsig : bytes := le_bytes 4 2 ++ le_bytes 4 0 ++ le_bytes 4 3 ++ B "key" ++ le_bytes 4 0.
Definition no_file : io_error := mk_io Other (B "No such file or directory (os error 2)").
Definition disk : list (bytes * bytes) := [(B "notes.txt", B "hello"); (B "dir/a.apk", B "PK"); (B "dir/a.apk.idsig", idsig)].
Definition content (p : bytes) : option bytes := snd <$> find (fun e => bool_decide (e.1 = p)) disk.
#[export] Instance host : HostFiles := {|
  fs p := match content p with Some f => inl f | None => inr no_file end;
  meta p := match content p with Some f => inl (zlen f) | None => inr no_file end;
  reads p := match content p with Some f => inl [inr f] | None => inr no_file end;
  zip _ := None |}.
#[export] Instance host_laws : HostFilesLaws.
Proof. constructor. intros p f. unfold fs, meta, host. by destruct (content p); intros [= ->]. Qed.

Definition files : list bytes := [B "notes.txt"; B "dir/a.apk"].
Definition database : list IsDatabaseEntry :=
  match build_database files Normal with Ok db => db | _ => [] end.
Definition around (fd : option Z) : Surroundings := mk_surroundings (B "/usr/bin/adb") fd None (Some (B "Threads:	1")).
Definition stdio : gmap Z bool := <[0 := false]> (<[1 := false]> (<[2 := false]> (<[5 := true]> ∅))).
Definition os_with (said : bytes) : Os := mk_os stdio [] [] [] [] [inr 101; inr 102] [inl said].
End LaunchSample.

Section LaunchSamples.
Import KeySample LaunchSample.

Lemma inc_launch_clean_witness :
  let '(o', r) := start_inc_server (around (Some 5)) 1 7 database (os_with (B "Success")) in
  left_clean (around (Some 5)) 1 7 database stdio (os_with (B "Success")) o' r.
Proof.
  apply (inc_launch_clean (around (Some 5)) 1 7 database (os_with (B "Success"))).
  intros fd E. vm_compute in E. injection E as <-. exists true. reflexivity.
Defined.

Lemma inc_database_served_witness : database = [Signed (B "a.apk") 2 0 (encode_signature (le_bytes 4 2 ++ le_bytes 4 3 ++ B "key")) (B "dir/a.apk");
    Unsigned (B "notes.txt") 5 1 (B "notes.txt")] /\
  exists opened, open_all fs zip (drop 3 (server_args 3 4 database)) = Ok opened /\ Forall2 serves [B "dir/a.apk"] opened.
Proof.
  split; [vm_compute; reflexivity|].
  destruct (inc_database_served files Normal database 3 4) as (_ & _ & _ & _ & Hopened); [vm_compute; reflexivity| |exact Hopened].
  repeat apply list.Forall_cons_2; [..|constructor]; (split; [reflexivity|]); eexists; (split; [reflexivity|]); split; vm_compute; reflexivity.
Defined.

(** The descriptors of the pump and of the server: the standard ones, and those of their task. *)
Example launched_descriptors :
  map (fun p => merge_sort Z.le (elements (p_fds p))) (procs (start_inc_server (around (Some 5)) 1 7 database (os_with (B "Success"))).1)
  = [[0; 1; 2; 4; 5]; [0; 1; 2; 3; 6]].
Proof. vm_compute. reflexivity. Qed.

(** An install that fails: both processes are stopped, the server first. *)
Example failed_stops_both :
  let x := start_inc_server (around (Some 5)) 1 7 database (os_with (B "Failure [INSTALL_FAILED]")) in
  (x.2, signals x.1) = (Err (B "Install failed"), [102; 101]).
Proof. vm_compute. reflexivity. Qed.

(** The arguments of the processes. *)
Example launched_arguments :
  map p_program (procs (start_inc_server (around (Some 5)) 1 7 database (os_with (B "Success"))).1)
  = [Exec (B "/usr/bin/adb") [B "inc-pump"; B "5"; B "4"; B "1"; B "7"];
     Exec (B "/usr/bin/adb") [B "inc-server"; B "3"; B "6"; B "dir/a.apk"]].
Proof. vm_compute. reflexivity. Qed.
End LaunchSamples.
