(* ===== verification/SocketSpec.v ===== *)
(** * Socket specifications

    [server/socket_spec.rs]: what a specification names, its parts, and connecting to and listening on it, on Linux.
    The name resolver and the sockets are a class; a connection or a listener is what it was made for. *)
From S2P Require Import Prelude Text Net Registry.

(** ** Kinds *)
Inductive LocalSocketType := Local_ | LocalReserved | LocalAbstract | LocalFilesystem.

#[export] Instance local_socket_type_eq : EqDecision LocalSocketType.
Proof. solve_decision. Defined.

Definition prefix_of (t : LocalSocketType) : bytes :=
  match t with
  | Local_ => B "local:" | LocalReserved => B "localreserved:" | LocalAbstract => B "localabstract:" | LocalFilesystem => B "localfilesystem:"
  end.
Definition ALL_PREFIXES : list bytes := [B "local:"; B "localreserved:"; B "localabstract:"; B "localfilesystem:"].

(** On Linux all of them are available. *)
Definition is_available (t : LocalSocketType) : bool := match t with LocalAbstract => true | _ => true end.

Definition detect_local_socket_type (spec : bytes) : option LocalSocketType :=
  if starts_with (B "local:") spec then Some Local_
  else if starts_with (B "localreserved:") spec then Some LocalReserved
  else if starts_with (B "localabstract:") spec then Some LocalAbstract
  else if starts_with (B "localfilesystem:") spec then Some LocalFilesystem
  else None.

Definition is_socket_spec (spec : bytes) : bool :=
  if starts_with (B "tcp:") spec || starts_with (B "acceptfd:") spec || starts_with (B "vsock:") spec then true
  else match detect_local_socket_type spec with Some _ => true | None => false end.

(** ** TCP *)
Definition parse_port (s : bytes) : option Z := parse_uint 10 (2 ^ 16 - 1) s.

Definition parse_tcp_socket_spec (spec : bytes) : res bytes (bytes * Z) :=
  match strip_prefix (B "tcp:") spec with
  | None => Err (B "specification is not tcp: " ++ spec)
  | Some rest =>
      match parse_port rest with
      | Some port => Ok ([], port)
      | None =>
          match rsplit_once ":"%byte rest with
          | None => Err (B "invalid tcp spec (no port): " ++ spec)
          | Some (host, port_str) =>
              if zlen host =? 0 then Err (B "invalid tcp spec (empty host): " ++ spec) else
              match parse_port port_str with
              | Some port => Ok (host, port)
              | None => Err (B "invalid port in tcp spec: '" ++ port_str ++ B "'")
              end
          end
      end
  end.

Definition tcp_host_is_local (hostname : bytes) : bool :=
  bool_decide (hostname ∈ [[]; B "localhost"; B "127.0.0.1"; B "::1"]).

Definition is_local_socket_spec (spec : bytes) : bool :=
  match detect_local_socket_type spec with
  | Some _ => true
  | None => match parse_tcp_socket_spec spec with Ok (host, _) => tcp_host_is_local host | _ => false end
  end.

Definition get_host_socket_spec_port (spec : bytes) : res bytes Z :=
  match strip_prefix (B "tcp:") spec with
  | Some rest =>
      match parse_port rest with
      | Some port => if port =? 0 then Err (B "port 0 is not valid") else Ok port
      | None => let! '(_, port) := parse_tcp_socket_spec spec in Ok port
      end
  | None =>
      if starts_with (B "vsock:") spec then
        let! port_str :=
          match split_on ":"%byte spec with
          | [_; p] | [_; _; p] => Ok p
          | _ => Err (B "given vsock server socket string was invalid")
          end in
        match parse_port port_str with
        | None => Err (B "could not parse vsock port: '" ++ port_str ++ B "'")
        | Some port => if port =? 0 then Err (B "vsock port was 0") else Ok port
        end
      else Err (B "given socket spec string was invalid: not tcp: or vsock:")
  end.

(** ** Sockets *)

(** [listen_port]: the port that [local_addr] gives for a bound listener; [unix_socket]: whether [socket] succeeds. *)
Class Sockets := {
  to_socket_addrs : bytes -> list SocketAddr + io_error;
  connect_timeout : SocketAddr -> option io_error;
  tcp_bind : bytes -> option Z + io_error;
  unix_connect : bytes -> option io_error;
  unix_bind : bytes -> option io_error;
  unix_socket : bool;
  connect_addr : bytes -> bool;
  bind_addr : bytes -> bool;
  listen_addr : bytes -> bool }.

Inductive ConnectedStream := CTcp (addr : SocketAddr) | CUnix (path : bytes).
Inductive ListenerStream := LTcp (addr : bytes) | LUnix (path : bytes).

(** The path of an abstract address: a NUL and at most 107 bytes of the name; the length that is passed with it ends there. *)
Definition abstract_path (path : bytes) : bytes := x00 :: take (Z.to_nat (Z.min (zlen path) 107)) path.
Definition addr_len (path : bytes) : Z := 2 + 1 + Z.min (zlen path) 107.

Section Connect.
Context `{Sockets}.

Definition connect_abstract_unix (path : bytes) : res bytes bytes :=
  if negb unix_socket then Err (B "failed to create abstract Unix socket")
  else if negb (connect_addr (abstract_path path)) then Err (B "connect to abstract '" ++ path ++ B "' failed")
  else Ok (abstract_path path).

Definition listen_abstract_unix (path : bytes) : res bytes bytes :=
  if negb unix_socket then Err (B "failed to create abstract Unix socket for listening")
  else if negb (bind_addr (abstract_path path)) then Err (B "bind abstract '" ++ path ++ B "' failed")
  else if negb (listen_addr (abstract_path path)) then Err (B "listen on abstract '" ++ path ++ B "' failed")
  else Ok (abstract_path path).

Definition connect_addr_str (hostname : bytes) (port : Z) : bytes :=
  if (zlen hostname =? 0) || tcp_host_is_local hostname then B "127.0.0.1:" ++ fmt_dec port
  else if contains ":"%byte hostname then B "[" ++ hostname ++ B "]:" ++ fmt_dec port
  else hostname ++ B ":" ++ fmt_dec port.

Definition connect_tcp (spec : bytes) : res bytes (ConnectedStream * option Z * option bytes) :=
  let! '(hostname, port_value) := parse_tcp_socket_spec spec in
  let addr_str := connect_addr_str hostname port_value in
  let serial := if zlen hostname =? 0 then B "127.0.0.1:" ++ fmt_dec port_value else addr_str in
  match to_socket_addrs addr_str with
  | inr e => Err (B "resolve failed for '" ++ addr_str ++ B "': " ++ io_msg e)
  | inl [] => Err (B "no address resolved for '" ++ addr_str ++ B "'")
  | inl (addr :: _) =>
      match connect_timeout addr with
      | Some e => Err (B "connect to " ++ addr_string addr ++ B " failed: " ++ io_msg e)
      | None => Ok (CTcp addr, Some port_value, Some serial)
      end
  end.

Definition local_path (spec : bytes) (t : LocalSocketType) : res bytes bytes :=
  match drop (length (prefix_of t)) spec with
  | [] => Err (B "empty path in local socket spec: " ++ spec)
  | path => Ok path
  end.

Definition connect_local (spec : bytes) (t : LocalSocketType) : res bytes (ConnectedStream * option Z * option bytes) :=
  if negb (is_available t)
  then Err (B "socket type " ++ trim_end_byte ":"%byte (prefix_of t) ++ B " is unavailable on this platform") else
  let! path := local_path spec t in
  let! stream :=
    if bool_decide (t = LocalAbstract) then connect_abstract_unix path
    else match unix_connect path with Some e => Err (B "connect to '" ++ path ++ B "' failed: " ++ io_msg e) | None => Ok path end in
  Ok (CUnix stream, None, Some spec).

Definition socket_spec_connect (spec : bytes) : res bytes (ConnectedStream * option Z * option bytes) :=
  if starts_with (B "tcp:") spec then connect_tcp spec
  else if starts_with (B "vsock:") spec then Err (B "vsock is not yet supported")
  else if starts_with (B "acceptfd:") spec then Err (B "cannot connect to acceptfd")
  else match detect_local_socket_type spec with
       | Some t => connect_local spec t
       | None => Err (B "unknown socket specification: " ++ spec)
       end.

(** [listen_all]: [G_LISTEN_ALL]. *)
Definition listen_addr_str (listen_all : bool) (hostname : bytes) (port : Z) : res bytes bytes :=
  if (zlen hostname =? 0) && listen_all then Ok (B "0.0.0.0:" ++ fmt_dec port)
  else if (zlen hostname =? 0) || tcp_host_is_local hostname then Ok (B "127.0.0.1:" ++ fmt_dec port)
  else if bool_decide (hostname = B "::1") then Ok (B "[::1]:" ++ fmt_dec port)
  else Err (B "listening on specified hostname currently unsupported").

Definition listen_tcp (listen_all : bool) (spec : bytes) : res bytes (ListenerStream * option Z) :=
  let! '(hostname, port) := parse_tcp_socket_spec spec in
  let! addr_str := listen_addr_str listen_all hostname port in
  match tcp_bind addr_str with
  | inr e => Err (B "cannot bind listener for '" ++ addr_str ++ B "': " ++ io_msg e)
  | inl resolved_port => Ok (LTcp addr_str, resolved_port)
  end.

(** With the files that are removed before a socket is bound to their path. *)
Definition listen_local (spec : bytes) (t : LocalSocketType) : list bytes * res bytes (ListenerStream * option Z) :=
  if negb (is_available t) then ([], Err (B "attempted to listen on unavailable socket type: " ++ spec)) else
  match local_path spec t with
  | Ok path =>
      if bool_decide (t = LocalAbstract) then ([], let! l := listen_abstract_unix path in Ok (LUnix l, None))
      else ([path], match unix_bind path with
                    | Some e => Err (B "cannot bind Unix socket '" ++ path ++ B "': " ++ io_msg e)
                    | None => Ok (LUnix path, None)
                    end)
  | Err e => ([], Err e)
  | Panic => ([], Panic)
  end.

Definition socket_spec_listen (listen_all : bool) (spec : bytes) : list bytes * res bytes (ListenerStream * option Z) :=
  if starts_with (B "tcp:") spec then ([], listen_tcp listen_all spec)
  else if starts_with (B "vsock:") spec then ([], Err (B "vsock listening is not yet supported"))
  else if starts_with (B "acceptfd:") spec then ([], Err (B "acceptfd listening is not yet supported"))
  else match detect_local_socket_type spec with
       | Some t => listen_local spec t
       | None => ([], Err (B "unknown socket specification: " ++ spec))
       end.
End Connect.

(** ** Parsing *)
Lemma parse_digits_colon acc s v : parse_digits 10 acc s = Some v -> ":"%byte ∉ s.
Proof.
  revert acc. induction s as [|b s IH]; intros acc; cbn [parse_digits]; [intros _; apply not_elem_of_nil|].
  destruct (digit_val 10 b) as [d|] eqn:E; [|done]. intros Hs. apply not_elem_of_cons. split; [|by eapply IH].
  intros <-. vm_compute in E. done.
Qed.

Lemma port_colon s p : parse_port s = Some p -> ":"%byte ∉ s /\ s <> [].
Proof.
  unfold parse_port, parse_uint. destruct s as [|b s]; [done|]. intros H. split; [|done].
  destruct (beqb b "+"%byte) eqn:Eb; [apply beqb_true in Eb as ->; destruct s as [|c s]; [done|]|]; destruct (parse_digits _ _ _) eqn:E; try done;
    apply parse_digits_colon in E; [by apply not_elem_of_cons|done].
Qed.

(** A specification of a TCP endpoint is a port, or a host that is not empty and a port. *)
Lemma parse_tcp_iff spec host port : parse_tcp_socket_spec spec = Ok (host, port) <->
  exists d, parse_port d = Some port /\ ((host = [] /\ spec = B "tcp:" ++ d) \/ (host <> [] /\ spec = B "tcp:" ++ host ++ B ":" ++ d)).
Proof.
  unfold parse_tcp_socket_spec. split.
  - destruct (strip_prefix (B "tcp:") spec) as [rest|] eqn:E; [|done]. apply strip_prefix_inv in E as ->.
    destruct (parse_port rest) as [q|] eqn:Eq; [intros [= <- <-]; exists rest; split; [done|by left]|].
    destruct (rsplit_once ":"%byte rest) as [[h d]|] eqn:Er; [|done]. apply rsplit_once_inv in Er as ->.
    destruct h as [|x h]; [done|]. cbn [zlen]. destruct (zlen (x :: h) =? 0); [done|]. destruct (parse_port d) as [q|] eqn:Ed; [|done].
    intros [= <- <-]. exists d. split; [done|]. by right.
  - intros (d & Hd & [[-> ->]|[Hh ->]]); rewrite strip_prefix_app; [by rewrite Hd|].
    destruct (port_colon _ _ Hd) as [Hc _].
    destruct (parse_port (host ++ B ":" ++ d)) as [q|] eqn:Eq; [apply port_colon in Eq as [Eq _]; exfalso; apply Eq; set_solver|].
    change (B ":" ++ d) with (":"%byte :: d). rewrite rsplit_once_app by done. destruct host as [|x h]; [done|].
    replace (zlen (x :: h) =? 0) with false by (symmetry; apply Z.eqb_neq; unfold zlen; cbn [length]; lia). by rewrite Hd.
Qed.

(** ** What a specification reaches *)
Section Meaning.
Context `{Sockets}.

(** The address that is looked up for a host. *)
Definition endpoint (host : bytes) (port : Z) : bytes :=
  if tcp_host_is_local host then B "127.0.0.1:" ++ fmt_dec port
  else if contains ":"%byte host then B "[" ++ host ++ B "]:" ++ fmt_dec port
  else host ++ B ":" ++ fmt_dec port.

Inductive names_tcp (host : bytes) (port : Z) : bytes -> Prop :=
| names_port d : host = [] -> parse_port d = Some port -> names_tcp host port (B "tcp:" ++ d)
| names_host d : host <> [] -> parse_port d = Some port -> names_tcp host port (B "tcp:" ++ host ++ B ":" ++ d).

Inductive reaches (spec : bytes) : ConnectedStream * option Z * option bytes -> Prop :=
| reaches_tcp host port addr more : names_tcp host port spec ->
    to_socket_addrs (endpoint host port) = inl (addr :: more) -> connect_timeout addr = None ->
    reaches spec (CTcp addr, Some port, Some (endpoint host port))
| reaches_file t path : spec = prefix_of t ++ path -> t <> LocalAbstract -> path <> [] -> unix_connect path = None ->
    reaches spec (CUnix path, None, Some spec)
| reaches_abstract path : spec = prefix_of LocalAbstract ++ path -> path <> [] -> unix_socket = true ->
    connect_addr (abstract_path path) = true -> reaches spec (CUnix (abstract_path path), None, Some spec).

(** A listener, and the files that are removed for it. *)
Inductive listens (all : bool) (spec : bytes) : list bytes -> ListenerStream * option Z -> Prop :=
| listens_tcp host port addr bound : names_tcp host port spec -> tcp_host_is_local host = true ->
    addr = (if bool_decide (host = []) && all then B "0.0.0.0:" else B "127.0.0.1:") ++ fmt_dec port -> tcp_bind addr = inl bound ->
    listens all spec [] (LTcp addr, bound)
| listens_file t path : spec = prefix_of t ++ path -> t <> LocalAbstract -> path <> [] -> unix_bind path = None ->
    listens all spec [path] (LUnix path, None)
| listens_abstract path : spec = prefix_of LocalAbstract ++ path -> path <> [] -> unix_socket = true ->
    bind_addr (abstract_path path) = true -> listen_addr (abstract_path path) = true ->
    listens all spec [] (LUnix (abstract_path path), None).

Lemma names_tcp_iff host port spec : names_tcp host port spec <-> parse_tcp_socket_spec spec = Ok (host, port).
Proof.
  rewrite parse_tcp_iff. split.
  - intros [d Hh Hd|d Hh Hd]; exists d; (split; [done|]); [by left|by right].
  - intros (d & Hd & [[Hh ->]|[Hh ->]]); by constructor.
Qed.

(** The kinds of specifications exclude each other. *)
Lemma detect_iff spec t : detect_local_socket_type spec = Some t <-> exists path, spec = prefix_of t ++ path.
Proof.
  unfold detect_local_socket_type. split.
  - intros E. destruct (starts_with (B "local:") spec) eqn:E1; [|destruct (starts_with (B "localreserved:") spec) eqn:E2;
      [|destruct (starts_with (B "localabstract:") spec) eqn:E3; [|destruct (starts_with (B "localfilesystem:") spec) eqn:E4; [|done]]]];
      simplify_eq; by apply starts_with_inv.
  - intros [path ->]. destruct t; by rewrite ?starts_with_app.
Qed.

Lemma local_only t path : starts_with (B "tcp:") (prefix_of t ++ path) = false /\ starts_with (B "vsock:") (prefix_of t ++ path) = false /\
  starts_with (B "acceptfd:") (prefix_of t ++ path) = false.
Proof. by destruct t. Qed.

Lemma tcp_only host port spec : names_tcp host port spec -> starts_with (B "tcp:") spec = true.
Proof. intros []; apply starts_with_app. Qed.

Lemma host_empty (h : bytes) : (zlen h =? 0) = bool_decide (h = []).
Proof. destruct h; [done|]. rewrite bool_decide_eq_false_2 by done. apply Z.eqb_neq. unfold zlen. cbn [length]. lia. Qed.

Lemma connect_addr_endpoint h p : connect_addr_str h p = endpoint h p.
Proof. unfold connect_addr_str, endpoint. destruct h; [done|]. rewrite host_empty, bool_decide_eq_false_2 by done. done. Qed.

Lemma local_path_spec t path : local_path (prefix_of t ++ path) t = match path with [] => Err (B "empty path in local socket spec: " ++ prefix_of t ++ path) | _ => Ok path end.
Proof. unfold local_path. rewrite drop_app_length. by destruct path. Qed.

Lemma connect_tcp_iff spec x : connect_tcp spec = Ok x <->
  exists host port addr more, names_tcp host port spec /\ to_socket_addrs (endpoint host port) = inl (addr :: more) /\
    connect_timeout addr = None /\ x = (CTcp addr, Some port, Some (endpoint host port)).
Proof.
  unfold connect_tcp. split.
  - destruct (parse_tcp_socket_spec spec) as [[h p]| |] eqn:E; [|done|done]. cbn [res_bind]. rewrite connect_addr_endpoint.
    destruct (to_socket_addrs _) as [[|a more]|] eqn:Ea; [done| |done]. destruct (connect_timeout a) eqn:Ec; [done|]. intros [= <-].
    exists h, p, a, more. split_and!; [by apply names_tcp_iff|done|done|]. rewrite host_empty. case_bool_decide; [by subst|done].
  - intros (h & p & a & more & Hn & Ha & Hc & ->). apply names_tcp_iff in Hn. rewrite Hn. cbn [res_bind]. rewrite connect_addr_endpoint, Ha, Hc.
    rewrite host_empty. case_bool_decide; [by subst|done].
Qed.

Lemma connect_local_iff t path x : connect_local (prefix_of t ++ path) t = Ok x <->
  path <> [] /\ ((t <> LocalAbstract /\ unix_connect path = None /\ x = (CUnix path, None, Some (prefix_of t ++ path))) \/
    (t = LocalAbstract /\ unix_socket = true /\ connect_addr (abstract_path path) = true /\ x = (CUnix (abstract_path path), None, Some (prefix_of t ++ path)))).
Proof.
  unfold connect_local. replace (is_available t) with true by by destruct t. cbn [negb]. rewrite local_path_spec.
  destruct path as [|b path]; [split; [done|by intros []]|]. cbn [res_bind]. set (p := b :: path). case_bool_decide as Et.
  - unfold connect_abstract_unix. destruct unix_socket, (connect_addr (abstract_path p)); cbn [negb res_bind]; split; naive_solver.
  - destruct (unix_connect p); cbn [res_bind]; split; naive_solver.
Qed.

Lemma connect_iff spec x : socket_spec_connect spec = Ok x <-> reaches spec x.
Proof.
  unfold socket_spec_connect. split.
  - destruct (starts_with (B "tcp:") spec); [intros (h & p & a & more & ? & ? & ? & ->)%connect_tcp_iff; by econstructor|].
    destruct (starts_with (B "vsock:") spec); [done|]. destruct (starts_with (B "acceptfd:") spec); [done|].
    destruct (detect_local_socket_type spec) as [t|] eqn:E; [|done]. apply detect_iff in E as [path ->].
    intros (Hp & [(? & ? & ->)|(-> & ? & ? & ->)])%connect_local_iff; [by eapply reaches_file|by eapply reaches_abstract].
  - intros [h p a more Hn Ha Hc|t path -> Ht Hp Hu|path -> Hp Hs Hu].
    + rewrite (tcp_only _ _ _ Hn). apply connect_tcp_iff. eauto 10.
    + destruct (local_only t path) as (-> & -> & ->). rewrite (proj2 (detect_iff _ t)) by eauto. apply connect_local_iff. eauto 10.
    + destruct (local_only LocalAbstract path) as (-> & -> & ->). rewrite (proj2 (detect_iff _ LocalAbstract)) by eauto. apply connect_local_iff. eauto 10.
Qed.

Lemma listen_tcp_iff all spec x : listen_tcp all spec = Ok x <->
  exists host port addr bound, names_tcp host port spec /\ tcp_host_is_local host = true /\
    addr = (if bool_decide (host = []) && all then B "0.0.0.0:" else B "127.0.0.1:") ++ fmt_dec port /\ tcp_bind addr = inl bound /\ x = (LTcp addr, bound).
Proof.
  unfold listen_tcp.
  assert (forall h p, listen_addr_str all h p = if tcp_host_is_local h
    then Ok ((if bool_decide (h = []) && all then B "0.0.0.0:" else B "127.0.0.1:") ++ fmt_dec p)
    else Err (B "listening on specified hostname currently unsupported")) as Ha.
  { intros h p. unfold listen_addr_str. rewrite host_empty. case_bool_decide as E; [subst h; by destruct all|]. cbn [andb orb].
    destruct (tcp_host_is_local h) eqn:El; [done|]. case_bool_decide as E'; [by subst h|done]. }
  split.
  - destruct (parse_tcp_socket_spec spec) as [[h p]| |] eqn:E; [|done|done]. cbn [res_bind]. rewrite Ha.
    destruct (tcp_host_is_local h) eqn:El; [|done]. cbn [res_bind]. destruct (tcp_bind _) as [bound|] eqn:Eb; [|done]. intros [= <-].
    exists h, p. eexists _, _. split_and!; [by apply names_tcp_iff|done|done|done|done].
  - intros (h & p & a & bound & Hn & Hl & -> & Hb & ->). apply names_tcp_iff in Hn. rewrite Hn. cbn [res_bind]. rewrite Ha, Hl. cbn [res_bind]. by rewrite Hb.
Qed.

Lemma listen_local_iff t path removed x : listen_local (prefix_of t ++ path) t = (removed, Ok x) <->
  path <> [] /\ ((t <> LocalAbstract /\ unix_bind path = None /\ removed = [path] /\ x = (LUnix path, None)) \/
    (t = LocalAbstract /\ unix_socket = true /\ bind_addr (abstract_path path) = true /\ listen_addr (abstract_path path) = true /\
     removed = [] /\ x = (LUnix (abstract_path path), None))).
Proof.
  unfold listen_local. replace (is_available t) with true by by destruct t. cbn [negb]. rewrite local_path_spec.
  destruct path as [|b path]; [split; [done|by intros []]|]. set (p := b :: path). case_bool_decide as Et.
  - unfold listen_abstract_unix. destruct unix_socket, (bind_addr (abstract_path p)), (listen_addr (abstract_path p)); cbn [negb res_bind]; split; naive_solver.
  - destruct (unix_bind p); cbn [res_bind]; split; naive_solver.
Qed.

Lemma listen_iff all spec removed x : socket_spec_listen all spec = (removed, Ok x) <-> listens all spec removed x.
Proof.
  unfold socket_spec_listen. split.
  - destruct (starts_with (B "tcp:") spec).
    { intros [= <- E]. apply listen_tcp_iff in E as (h & p & a & bound & ? & ? & ? & ? & ->). by econstructor. }
    destruct (starts_with (B "vsock:") spec); [done|]. destruct (starts_with (B "acceptfd:") spec); [done|].
    destruct (detect_local_socket_type spec) as [t|] eqn:E; [|done]. apply detect_iff in E as [path ->].
    intros (Hp & [(? & ? & -> & ->)|(-> & ? & ? & ? & -> & ->)])%listen_local_iff; [by eapply listens_file|by eapply listens_abstract].
  - intros [h p a bound Hn Hl Ha Hb|t path -> Ht Hp Hu|path -> Hp Hs Hu Hl].
    + rewrite (tcp_only _ _ _ Hn). f_equal. apply listen_tcp_iff. eauto 10.
    + destruct (local_only t path) as (-> & -> & ->). rewrite (proj2 (detect_iff _ t)) by eauto. apply listen_local_iff. eauto 10.
    + destruct (local_only LocalAbstract path) as (-> & -> & ->). rewrite (proj2 (detect_iff _ LocalAbstract)) by eauto. apply listen_local_iff. eauto 10.
Qed.
End Meaning.

Lemma abstract_fits path : addr_len path = 2 + zlen (abstract_path path) /\ zlen (abstract_path path) <= 108.
Proof. unfold addr_len, abstract_path, zlen. cbn [length]. rewrite length_take. lia. Qed.

Lemma abstract_inj p q : abstract_path p = abstract_path q <-> take 107 p = take 107 q.
Proof.
  assert (forall p : bytes, take (Z.to_nat (Z.min (zlen p) 107)) p = take 107 p) as E.
  { intros s. unfold zlen. destruct (Z.le_gt_cases (Z.of_nat (length s)) 107).
    - rewrite Z.min_l, Nat2Z.id by done. by rewrite !take_ge by lia.
    - by rewrite Z.min_r by lia. }
  unfold abstract_path. rewrite !E. split; [by intros [=]|by intros ->].
Qed.

Lemma connect_total `{Sockets} spec : socket_spec_connect spec <> Panic.
Proof.
  assert (forall s, parse_tcp_socket_spec s <> Panic) as Hp by (intros s; unfold parse_tcp_socket_spec; repeat case_match; done).
  unfold socket_spec_connect. destruct (starts_with (B "tcp:") spec).
  { unfold connect_tcp. specialize (Hp spec). destruct (parse_tcp_socket_spec spec) as [[]| |]; [|done|done]. cbn [res_bind]. by repeat case_match. }
  destruct (starts_with _ _); [done|]. destruct (starts_with _ _); [done|]. destruct (detect_local_socket_type spec); [|done].
  unfold connect_local, local_path, connect_abstract_unix. destruct (is_available l); [|done]. destruct (drop _ spec); [done|]. cbn [negb res_bind].
  case_bool_decide; [destruct unix_socket; [destruct (connect_addr _)|]|destruct (unix_connect _)]; done.
Qed.

(** A bracketed IPv6 address gets a second pair of brackets, and the loopback address of IPv6 is that of IPv4. *)
Example bracketed_twice :
  parse_tcp_socket_spec (B "tcp:[fe80::1]:5555") = Ok (B "[fe80::1]", 5555) /\
  endpoint (B "[fe80::1]") 5555 = B "[[fe80::1]]:5555" /\ endpoint (B "::1") 5555 = B "127.0.0.1:5555".
Proof. split_and!; vm_compute; reflexivity. Qed.

(** Port 0 is refused, but not after a host. *)
Example port_zero_with_host :
  get_host_socket_spec_port (B "tcp:0") = Err (B "port 0 is not valid") /\ get_host_socket_spec_port (B "tcp:host:0") = Ok 0.
Proof. split; vm_compute; reflexivity. Qed.

Example specs :
  map is_socket_spec [B "tcp:5555"; B "localabstract:x"; B "vsock:3:5555"; B "udp:1"] = [true; true; true; false] /\
  map is_local_socket_spec [B "tcp:5555"; B "tcp:localhost:1"; B "tcp:10.0.0.1:5555"; B "local:/tmp/x"] = [true; true; false; true].
Proof. split; vm_compute; reflexivity. Qed.
