(* ===== verification/AdbCli.v ===== *)
(** * The adb program: commands to the server

    [main_adb.rs]: the options that choose the server and the device, and the commands that are requests to the
    server; with [client/host_command.rs], [client/abb.rs], [client/detach.rs] and [resolve_target_addr] of
    [client/transport.rs].

    A connection to the server is what connecting to an address gives. What a command does in the end is an
    [outcome]: what it printed on the standard output, and how the program ends. Progress and error texts that
    do not end the program are left out. *)
From S2P Require Import Prelude Text AdbHeader Features Net AdbTransport AuthKey Registry Handshake HostService SmartSocket.

(** ** Options *)
Definition ADBD_PORT : Z := 5555.
Definition ADB_SERVER_PORT : Z := 5037.

Record Cli := mk_cli { cli_serial : option bytes; cli_d : bool; cli_transport : option bytes; cli_port : option Z }.
(** [ADB_SERVER_SOCKET] and [ANDROID_ADB_SERVER_PORT]. *)
Record Vars := mk_vars { server_socket : option bytes; server_port_var : option bytes }.

Definition parse_u16 (s : bytes) : option Z := parse_uint 10 (2 ^ 16 - 1) s.

Definition parse_server_addr (addr : bytes) : option Z :=
  let rest := default addr (strip_prefix (B "tcp:") addr) in
  match rsplit_once ":"%byte rest with Some (_, port_str) => parse_u16 port_str | None => parse_u16 rest end.

Definition resolve_server_port (vars : Vars) (port_flag : option Z) (listen_flag : option bytes) : Z :=
  match port_flag with
  | Some p => p
  | None =>
      match l ← listen_flag; parse_server_addr l with
      | Some p => p
      | None =>
          match spec ← server_socket vars; parse_server_addr spec with
          | Some p => p
          | None => default ADB_SERVER_PORT (s ← server_port_var vars; parse_u16 s)
          end
      end
  end.

Definition validate_sync_server_scope (vars : Vars) (port : option Z) (listen : option bytes) : res bytes unit :=
  let spec := match port with Some _ => None | None => match listen with Some l => Some l | None => server_socket vars end end in
  match spec with
  | None => Ok tt
  | Some spec =>
      let! rest := ok_or (strip_prefix (B "tcp:") spec) (B "unsupported ADB server socket: " ++ spec) in
      let '(host, port_str) := match rsplit_once ":"%byte rest with Some hp => hp | None => ([], rest) end in
      if negb (bool_decide (host ∈ [[]; B "localhost"; B "127.0.0.1"])) || bool_decide (parse_u16 port_str = None)
      then Err (B "SYNC does not support this ADB server socket: " ++ spec) else Ok tt
  end.

Definition reconnect_service (target : option bytes) : res bytes bytes :=
  match target with
  | None => Ok (B "host:reconnect")
  | Some t =>
      if bool_decide (t = B "device") then Ok (B "reconnect")
      else if bool_decide (t = B "offline") then Ok (B "host:reconnect-offline")
      else Err (B "unknown reconnect target '" ++ t ++ B "'. Use 'device' or 'offline'.")
  end.

Definition sync_compression_option (algorithm : option bytes) (no_compress : bool) : res bytes unit :=
  match algorithm with
  | Some _ => if no_compress then Err (B "-z and -Z cannot be used together") else
      match algorithm with
      | None => Ok tt
      | Some a =>
          if bool_decide (a = B "none") then Ok tt
          else if bool_decide (a ∈ [B "any"; B "brotli"; B "lz4"; B "zstd"])
          then Err (B "compression requires sendrecv_v2 feature negotiation, which is unavailable in this client")
          else Err (B "unexpected compression type '" ++ a ++ B "'")
      end
  | None => Ok tt
  end.

Definition resolve_target_addr (serial : option bytes) (default_port : Z) : bytes :=
  match serial with
  | Some s => if contains ":"%byte s then s else B "127.0.0.1:" ++ fmt_dec default_port
  | None => B "127.0.0.1:" ++ fmt_dec default_port
  end.

Definition direct_tcp_only_target (serial : option bytes) (use_usb : bool) : res bytes bytes :=
  if use_usb then Err (B "this command does not support direct USB; refusing TCP fallback") else
  match serial with
  | Some value =>
      if negb (contains ":"%byte value)
      then Err (B "ADB device '" ++ value ++ B "' is not a TCP endpoint; refusing fallback to a different device")
      else Ok (resolve_target_addr serial ADBD_PORT)
  | None => Ok (resolve_target_addr serial ADBD_PORT)
  end.

(** ** Requests to the server ([host_command.rs]) *)
Definition actual_request (serial : option bytes) (request : bytes) : bytes :=
  if bool_decide (request ∈ [B "host:get-state"; B "host:get-serialno"; B "host:get-devpath"]) then
    match serial with
    | Some s => B "host-serial:" ++ s ++ B ":" ++ drop (length (B "host:")) request
    | None => request
    end
  else request.

Definition UNBOUND : list bytes :=
  [B "host:connect"; B "host:disconnect"; B "host:forward"; B "host:reverse"; B "host:devices"; B "host:mdns:";
   B "host:host-features"; B "host:version"; B "host-serial:"; B "host:get-"].
Definition needs_transport (request : bytes) : bool := negb (existsb (fun p => starts_with p request) UNBOUND).

(** On an open connection. *)
Definition host_command_on (serial : option bytes) (request : bytes) (c : Conn) : Conn * res TransportError bytes :=
  let actual := actual_request serial request in
  let '(c, selected) := if needs_transport actual then switch_transport serial c else (c, Ok tt) in
  match selected with
  | Ok _ => execute_host_command actual c
  | Err e => (c, Err e)
  | Panic => (c, Panic)
  end.

(** Connecting to the server: the first of the two addresses that answers, and once more after starting the server. *)
Record Dial := mk_dial { dial : bytes -> option Conn; dial_again : bytes -> option Conn; ensure_server_running_at : Z -> res bytes unit }.

Definition candidate_addrs (server_port : Z) : list bytes := [B "127.0.0.1:" ++ fmt_dec server_port; B "[::1]:" ++ fmt_dec server_port].
Definition first_answer (f : bytes -> option Conn) (addrs : list bytes) : option Conn := head (omap f addrs).

Definition connect_server (net : Dial) (server_port : Z) : res bytes Conn :=
  match first_answer (dial net) (candidate_addrs server_port) with
  | Some c => Ok c
  | None =>
      let! _ := ensure_server_running_at net server_port in
      ok_or (first_answer (dial_again net) (candidate_addrs server_port))
        (B "Cannot connect to ADB server at port " ++ fmt_dec server_port)
  end.

Definition host_command_at (net : Dial) (server_port : Z) (serial : option bytes) (request : bytes) : res bytes bytes :=
  let! c := connect_server net server_port in
  map_err transport_error_text (snd (host_command_on serial request c)).

(** ** Commands *)
Inductive outcome :=
| Printed (out : bytes)  (** the program ends well *)
| Exited (err : bytes)  (** an error was printed and the program exits with 1 *)
| Failed (err : bytes)  (** [main] returns the error *)
| Crashed.

Definition println (s : bytes) : bytes := s ++ [x0a].

Definition with_answer (prefix : bytes) (r : res bytes bytes) (f : bytes -> bytes) : outcome :=
  match r with Ok resp => Printed (f resp) | Err e => Exited (prefix ++ e) | Panic => Crashed end.

Record ForwardArgs := mk_rule_args {
  a_list : bool; a_remove : option bytes; a_remove_all : bool; a_no_rebind : bool; a_first : option bytes; a_second : option bytes }.

(** [kind] is [forward] or [reverse]. *)
Definition rule_request (kind kill : bytes) (a : ForwardArgs) : option bytes :=
  if a_list a then Some (B "host:" ++ kind ++ B ":list")
  else match a_remove a with
       | Some rm => Some (B "host:" ++ kind ++ B ":" ++ kill ++ B ":" ++ rm)
       | None =>
           if a_remove_all a then Some (B "host:" ++ kind ++ B ":" ++ kill ++ B "-all")
           else match a_first a, a_second a with
                | Some x, Some y =>
                    Some (if a_no_rebind a then B "host:" ++ kind ++ B ":norebind:" ++ x ++ B ";" ++ y
                          else B "host:" ++ kind ++ B ":" ++ x ++ B ";" ++ y)
                | _, _ => None
                end
       end.
Definition forward_request : ForwardArgs -> option bytes := rule_request (B "forward") (B "killforward").
Definition reverse_request : ForwardArgs -> option bytes := rule_request (B "reverse") (B "killreverse").

Definition rule_command (missing : bytes) (request : option bytes) (host_cmd : bytes -> res bytes bytes) : outcome :=
  match request with
  | None => Exited missing
  | Some request => with_answer (B "Error: ") (host_cmd request) (fun resp => match resp with [] => [] | _ => println resp end)
  end.
Definition run_forward (a : ForwardArgs) : (bytes -> res bytes bytes) -> outcome :=
  rule_command (B "error: specify --list, --remove, --remove-all, or LOCAL REMOTE") (forward_request a).
Definition run_reverse (a : ForwardArgs) : (bytes -> res bytes bytes) -> outcome :=
  rule_command (B "error: specify --list, --remove, --remove-all, or REMOTE LOCAL") (reverse_request a).

Definition DEVICES_TITLE : bytes := println (B "List of devices attached (adb-rs pure rust transport)").
(** [direct]: the banner of the device, if it is reached without the server. *)
Definition run_devices (long : bool) (serial : option bytes) (direct : option bytes) (host_cmd : bytes -> res bytes bytes) : outcome :=
  match host_cmd (if long then B "host:devices-l" else B "host:devices") with
  | Ok resp => Printed (DEVICES_TITLE ++ resp)
  | Panic => Crashed
  | Err e =>
      match long, direct with
      | true, Some banner => Printed (DEVICES_TITLE ++ println (resolve_target_addr serial ADBD_PORT ++ B "	device (" ++ trim banner ++ B ")"))
      | _, _ => Exited (B "Error: " ++ e)
      end
  end.

Definition run_jdwp (host_cmd : bytes -> res bytes bytes) : outcome :=
  with_answer (B "Error: ") (host_cmd (B "host:jdwp")) (fun resp =>
    match trim resp with
    | [] => println (B "[adb-rs] No JDWP processes found")
    | t => println (B "[adb-rs] JDWP PIDs:") ++ concat (map (fun line => println (B "  " ++ line)) (lines t))
    end).
Definition run_mdns_check (host_cmd : bytes -> res bytes bytes) : outcome :=
  with_answer (B "Error: ") (host_cmd (B "host:mdns:check")) (fun resp => println (trim resp)).
Definition run_mdns_services (host_cmd : bytes -> res bytes bytes) : outcome :=
  with_answer (B "Error: ") (host_cmd (B "host:mdns:services")) (fun resp => println (B "List of discovered mdns services") ++ resp).
Definition run_get (request : bytes) (host_cmd : bytes -> res bytes bytes) : outcome :=
  with_answer (B "error: ") (host_cmd request) (fun resp => println (trim resp)).
Definition run_connect (target : bytes) (host_cmd : bytes -> res bytes bytes) : outcome :=
  with_answer (B "error: ") (host_cmd (B "host:connect:" ++ target)) (fun resp =>
    match trim resp with [] => println (B "connected to " ++ target) | t => println t end).
Definition run_disconnect (target : option bytes) (host_cmd : bytes -> res bytes bytes) : outcome :=
  with_answer (B "Error: ") (host_cmd (match target with Some t => B "host:disconnect:" ++ t | None => B "host:disconnect" end)) (fun resp =>
    match trim resp with
    | [] => match target with Some t => println (B "disconnected " ++ t) | None => println (B "disconnected everything") end
    | t => println t
    end).

(** ** Services of the device, through the server *)

(** What comes until the end of the stream, or an error that is not a pause. *)
Fixpoint copy_out (q : list event) : bytes :=
  match q with
  | [] | inl [] :: _ => []
  | inl seg :: q => seg ++ copy_out q
  | inr e :: q => if bool_decide (io_kind e = WouldBlock) then copy_out q else []
  end.

Definition NOT_RUNNING : bytes := B "Error: ADB server not running. Start it with `adb-rs start-server`.".

(** Sending the request, its status, and copying the answer; after [c] was selected. *)
Definition service_on (service : bytes) (r : Conn * res TransportError unit) : outcome :=
  match r with
  | (c, Ok _) =>
      match switch_service service c with
      | (c, Ok _) => Printed (copy_out (incoming c))
      | (_, Err e) => Failed (transport_error_text e)
      | (_, Panic) => Crashed
      end
  | (_, Err e) => Failed (B "Failed to switch transport: " ++ transport_error_text e)
  | (_, Panic) => Crashed
  end.
Definition device_service (server : option Conn) (serial : option bytes) (service : bytes) : outcome :=
  match server with
  | None => Exited NOT_RUNNING
  | Some c => service_on service (switch_transport serial c)
  end.

Definition run_root (server : option Conn) (serial : option bytes) : outcome := device_service server serial (B "root:").
Definition run_unroot (server : option Conn) (serial : option bytes) : outcome := device_service server serial (B "unroot:").
Definition run_usb (server : option Conn) (serial : option bytes) : outcome := device_service server serial (B "usb:").
Definition run_attach (server : option Conn) (serial : option bytes) : outcome := device_service server serial (B "attach:").
Definition run_disable_verity (server : option Conn) (serial : option bytes) : outcome := device_service server serial (B "disable-verity:").
Definition run_enable_verity (server : option Conn) (serial : option bytes) : outcome := device_service server serial (B "enable-verity:").
Definition run_remount (reboot : bool) (server : option Conn) (serial : option bytes) : outcome :=
  device_service server serial (if reboot then B "remount,-R" else B "remount:").
Definition run_tcpip (args : list bytes) (server : option Conn) (serial : option bytes) : outcome :=
  match args with
  | [] => Exited (B "adb: tcpip requires an argument")
  | a :: _ =>
      match parse_u16 a with
      | Some p => if 0 <? p then device_service server serial (B "tcpip:" ++ fmt_dec p) else Exited (B "adb: tcpip: invalid port: " ++ a)
      | None => Exited (B "adb: tcpip: invalid port: " ++ a)
      end
  end.
Definition run_reconnect (target : option bytes) (server : option Conn) (serial : option bytes) : outcome :=
  match server with
  | None => Exited NOT_RUNNING
  | Some c =>
      match reconnect_service target with
      | Ok request => service_on request (if bool_decide (target = Some (B "device")) then switch_transport serial c else (c, Ok tt))
      | Err e => Failed e
      | Panic => Crashed
      end
  end.

(** ** Waiting *)
Definition MAX_ATTEMPTS : nat := 60.

(** [answers n] is the answer to the [n]-th question for the state. *)
Fixpoint wait_go (n : nat) (attempts : nat) (good : res bytes bytes -> bool) (timeout : bytes) (answers : nat -> res bytes bytes) : outcome :=
  match n with
  | O => Exited timeout
  | S n => if good (answers attempts) then Printed [] else wait_go n (S attempts) good timeout answers
  end.
Definition state_is (state : bytes) (r : res bytes bytes) : bool := match r with Ok resp => bool_decide (trim resp = state) | _ => false end.
Definition run_wait_for_device : (nat -> res bytes bytes) -> outcome :=
  wait_go MAX_ATTEMPTS 0 (state_is (B "device")) (B "error: timeout waiting for device").
Definition run_wait_for_recovery : (nat -> res bytes bytes) -> outcome :=
  wait_go MAX_ATTEMPTS 0 (state_is (B "recovery")) (B "error: timeout waiting for recovery").
Definition run_wait_for_bootloader : (nat -> res bytes bytes) -> outcome :=
  wait_go MAX_ATTEMPTS 0 (state_is (B "bootloader")) (B "error: timeout waiting for bootloader").
Definition run_wait_for_disconnect : (nat -> res bytes bytes) -> outcome :=
  wait_go MAX_ATTEMPTS 0 (fun r => match r with Err _ => true | _ => false end) (B "error: timeout waiting for disconnect").

(** [TRANSPORT-STATE] or [STATE]. *)
Definition VALID_STATES : list bytes := [B "device"; B "recovery"; B "rescue"; B "sideload"; B "bootloader"; B "disconnect"].
Definition parse_wait_spec (spec : list bytes) : bytes * option bytes * bytes :=
  let s := trim (join (B " ") spec) in
  match rsplit_once "-"%byte s with Some (prefix, st) => (s, Some prefix, st) | None => (s, None, s) end.

Definition current_state (state : bytes) (r : res bytes bytes) : bytes :=
  match r with
  | Ok resp => trim resp
  | Err e => if bool_decide (state = B "disconnect") then B "disconnect" else B "error: " ++ e
  | Panic => []
  end.
Fixpoint wait_for_go (n attempts : nat) (state : bytes) (answers : nat -> res bytes bytes) (out : bytes) : outcome :=
  match n with
  | O => Crashed
  | S n =>
      let current := current_state state (answers attempts) in
      if bool_decide (current = state) then Printed (out ++ println (B "[adb-rs] Device reached state '" ++ state ++ B "'")) else
      let attempts := S attempts in
      match n with
      | O => Exited (B "Error: timeout waiting for device state '" ++ state ++ B "'. Last state: " ++ current)
      | _ =>
          let progress := if Nat.eqb (attempts mod 10) 0
            then println (B "[adb-rs] Still waiting for '" ++ state ++ B "' (current: " ++ current ++ B ", attempt " ++ fmt_dec (Z.of_nat attempts)
                          ++ B "/60) ...") else [] in
          wait_for_go n attempts state answers (out ++ progress)
      end
  end.
Definition run_wait_for (spec : list bytes) (answers : nat -> res bytes bytes) : outcome :=
  let '(spec_str, prefix, state) := parse_wait_spec spec in
  if negb (bool_decide (state ∈ VALID_STATES))
  then Exited (B "Error: unknown state '" ++ state ++ B "'. Valid states: device, recovery, rescue, sideload, bootloader, disconnect") else
  match prefix with
  | Some t =>
      if negb (bool_decide (t ∈ [B "usb"; B "local"; B "any"]))
      then Exited (B "Error: unknown transport '" ++ t ++ B "'. Valid transports: usb, local, any")
      else wait_for_go MAX_ATTEMPTS 0 state answers (println (B "[adb-rs] Waiting for device state '" ++ spec_str ++ B "' ..."))
  | None => wait_for_go MAX_ATTEMPTS 0 state answers (println (B "[adb-rs] Waiting for device state '" ++ spec_str ++ B "' ..."))
  end.

(** ** Detaching ([detach.rs]) *)
Definition validate_serial (serial : bytes) : res bytes unit :=
  match serial with
  | [] => Err (B "Serial number cannot be empty")
  | _ =>
      if contains " "%byte serial then Err (B "Serial number cannot contain spaces")
      else if 64 <? zlen serial then Err (B "Serial number too long (max 64 characters)")
      else Ok tt
  end.

Definition detach_on (serial : bytes) (c : Conn) : res bytes unit :=
  match execute_host_command (B "host:disconnect:" ++ serial) c with
  | (_, Ok response) =>
      if contains_str (B "disconnected") response || contains_str (B "error") response
      then Err (B "Detach: " ++ response) else Ok tt
  | (_, Err e) => Err (transport_error_text e)
  | (_, Panic) => Panic
  end.
(** [connected]: what connecting to the server gives. *)
Definition detach_device (serial addr : bytes) (connected : res bytes Conn) : res bytes unit :=
  let! _ := validate_serial serial in
  let! c := map_err (fun e => B "Cannot connect to ADB server at " ++ addr ++ B ": " ++ e) connected in
  detach_on serial c.
Definition run_detach (serial : option bytes) (connected : res bytes Conn) : outcome :=
  let serial := default [] serial in
  match detach_device serial (B "127.0.0.1:5037") connected with
  | Ok _ => Printed (println (B "disconnected " ++ serial))
  | Err _ => Printed []
  | Panic => Crashed
  end.

(** All devices; with what is printed. *)
Definition detach_all (addr : bytes) (connected : res bytes Conn) : res bytes bytes :=
  let! c := map_err (fun e => B "Cannot connect to ADB server at " ++ addr ++ B ": " ++ e) connected in
  let! response := map_err transport_error_text (snd (execute_host_command (B "host:disconnect") c)) in
  Ok (println response).
Definition detach_network_device (host : bytes) (port : Z) (addr : bytes) (connected : res bytes Conn) : res bytes unit :=
  detach_device (host ++ B ":" ++ fmt_dec port) addr connected.

(** ** The binder bridge ([abb.rs]) *)
Definition FEATURE_ABB : bytes := B "abb".
Definition abb_service_string (args : list bytes) : bytes := B "abb:" ++ join [x00] args.
Definition device_supports_abb (features : list bytes) : bool := existsb (fun f => bool_decide (f = FEATURE_ABB)) features.
Definition trim_nuls (s : bytes) : bytes := trim_end_byte x00 (trim_start_byte x00 s).
Definition parse_feature_set (text : bytes) : list bytes :=
  List.filter (fun f => negb (bool_decide (f = []))) (map (fun f => trim_nuls (trim f)) (split_on ","%byte text)).
Definition features_request (serial : option bytes) : bytes :=
  match serial with Some s => B "host-serial:" ++ s ++ B ":features" | None => B "host:features" end.
Definition query_server_features (serial : option bytes) (server_addr : bytes) (connected : res bytes Conn) : res bytes (list bytes) :=
  let! c := map_err (fun e => B "cannot connect to ADB server at " ++ server_addr ++ B ": " ++ e) connected in
  let! payload := map_err (fun e => features_request serial ++ B ": " ++ transport_error_text e) (snd (execute_host_command (features_request serial) c)) in
  Ok (parse_feature_set payload).

(** ** From the command line to the server *)
Section EndToEnd.
Context `{Rsa} `{Base64}.

(** A client asks and the server answers: the request as the client writes it is read and dispatched by the server, and
    what the client makes of the answer is [r]. *)
Definition answered (env : Env) (s : Server) (request : bytes) (s' : Server) (r : res TransportError bytes) : Prop :=
  forall future cl sc, wfail cl = None -> outgoing cl = [] -> wfail sc = None -> outgoing sc = [] ->
  arrives (incoming sc) (outgoing (fst (send_host_request request cl))) ->
  exists q sc', read_command (incoming sc) = (q, Ok (Some request)) /\
    dispatch_host_service env request s future (set_incoming q sc) = (s', sc', Some (Ok tt)) /\
    (arrives (incoming cl) (outgoing sc') -> snd (execute_host_command request cl) = r).

(** What the client makes of an answer with data, or with a message of failure. *)
Definition says (x : res bytes bytes) : Conn -> Conn * res bytes unit := match x with Ok d => HostService.ok d | Err m => HostService.fail m | Panic => fun c => (c, Panic) end.
Definition heard (x : res bytes bytes) : res TransportError bytes :=
  match x with Ok d => Ok (from_utf8_lossy d) | Err m => Err (TServerError (from_utf8_lossy m)) | Panic => Panic end.
Definition sayable (x : res bytes bytes) : Prop := match x with Ok d => zlen d < 65536 | Err m => zlen m < 65536 | Panic => False end.

Lemma read_status_failed q msg rest : zlen msg < 65536 -> arrives q (B "FAIL" ++ hex4 (zlen msg) ++ msg ++ rest) ->
  exists q', read_status q = (q', Err (TServerError (from_utf8_lossy msg))) /\ arrives q' rest.
Proof.
  intros Hl Ha. destruct (arrives_read_exact_app _ _ _ Ha) as (q1 & H1 & Ha1). change (zlen (B "FAIL")) with 4 in H1.
  destruct (read_hex_block_arrives (B " in FAIL response") _ _ _ Hl Ha1) as (q2 & H2 & Ha2). exists q2.
  unfold read_status. rewrite H1. change (bool_decide (B "FAIL" = B "OKAY")) with false. change (bool_decide (B "FAIL" = B "FAIL")) with true.
  cbv iota. by rewrite H2.
Qed.

Lemma heard_answer cl request x : wfail cl = None -> outgoing cl = [] -> sayable x ->
  arrives (incoming cl) (match x with Ok d => B "OKAY" ++ hex4 (zlen d) ++ d | Err m => B "FAIL" ++ hex4 (zlen m) ++ m | Panic => [] end) ->
  snd (execute_host_command request cl) = heard x.
Proof.
  intros Hw Ho Hs Ha. unfold execute_host_command, switch_service. rewrite send_host_request_out by done. unfold on_conn. cbn [incoming set_incoming].
  destruct x as [d|m|]; [| |done]; cbn [sayable heard] in *.
  - destruct (read_status_okay _ _ Ha) as (q & -> & Ha'). cbn [incoming set_incoming]. rewrite <- (app_nil_r d) in Ha' at 2.
    destruct (read_hex_block_arrives [] _ _ _ Hs Ha') as (q' & E & _). unfold read_payload. by rewrite E.
  - rewrite <- (app_nil_r m) in Ha at 2. by destruct (read_status_failed _ _ _ Hs Ha) as (q & -> & _).
Qed.

Lemma answered_says env s request s' x :
  is_utf8 request = true -> 0 < zlen request <= MAX_CMD_LEN -> sayable x ->
  (forall future c, dispatch_host_service env request s future c = reply s' (says x c)) ->
  answered env s request s' (heard x).
Proof.
  intros Hu Hl Hs Hd future cl sc Hwc Hoc Hws Hos Ha. rewrite send_host_request_out, Hoc in Ha by done. cbn [fst outgoing app] in Ha.
  rewrite <- (app_nil_r request) in Ha at 2. destruct (read_command_arrives _ _ _ Hu Hl Ha) as (q & Hq & _).
  exists q. rewrite Hd. unfold reply. destruct x as [d|m|]; [| |done]; cbn [says];
    [rewrite ok_out by done|rewrite fail_out by done]; cbn [fst snd outgoing set_incoming incoming]; rewrite Hos; eexists; (split; [done|split; [done|]]);
    intros Hc; cbn [outgoing app] in Hc; [by apply (heard_answer cl request (Ok d))|by apply (heard_answer cl request (Err m))].
Qed.

(** *** Rules *)
Inductive RuleOp := OpList | OpRemove (x : bytes) | OpRemoveAll | OpAdd (no_rebind : bool) (x y : bytes).

Definition args_of (op : RuleOp) : ForwardArgs :=
  match op with
  | OpList => mk_rule_args true None false false None None
  | OpRemove x => mk_rule_args false (Some x) false false None None
  | OpRemoveAll => mk_rule_args false None true false None None
  | OpAdd nb x y => mk_rule_args false None false nb (Some x) (Some y)
  end.

(** What the operations are on the tables of the server. *)
Definition forward_effect (env : Env) (op : RuleOp) (r : TransportRegistry) : TransportRegistry * res bytes bytes :=
  match op with
  | OpList => (r, Ok (list_forwards r))
  | OpRemove x => let '(r, removed) := remove_forward x r in (r, if removed then Ok [] else Err (B "forward '" ++ x ++ B "' not found"))
  | OpRemoveAll => (remove_all_forwards r, Ok [])
  | OpAdd nb x y => add_forward (bind env) x y nb r
  end.
Definition reverse_effect (op : RuleOp) (r : TransportRegistry) : TransportRegistry * res bytes bytes :=
  match op with
  | OpList => (r, Ok (list_reverses r))
  | OpRemove x => let '(r, removed) := remove_reverse x r in (r, if removed then Ok [] else Err (B "reverse forward '" ++ x ++ B "' not found"))
  | OpRemoveAll => (remove_all_reverses r, Ok [])
  | OpAdd nb x y => let '(r, res) := add_reverse x y nb r in (r, let! _ := res in Ok [])
  end.

(** The first part of a pair is not a word of the protocol and has no separator. *)
Definition plain_spec (words : list bytes) (x : bytes) : Prop := ";"%byte ∉ x /\ Forall (fun w => starts_with w x = false) words.
Definition plain_op (words : list bytes) (op : RuleOp) : Prop := match op with OpAdd _ x _ => plain_spec words x | _ => True end.
Definition FORWARD_WORDS : list bytes := [B "killforward:"; B "remove:"; B "norebind:"].
Definition REVERSE_WORDS : list bytes := [B "killreverse:"; B "killforward:"; B "remove:"; B "norebind:"; B "forward:"].

Lemma starts_with_pair w x y : ";"%byte ∉ w -> starts_with w (x ++ B ";" ++ y) = starts_with w x.
Proof.
  intros Hw. destruct (starts_with w x) eqn:E.
  - apply starts_with_inv in E as [t ->]. rewrite <- app_assoc. apply starts_with_app.
  - destruct (starts_with w (x ++ B ";" ++ y)) eqn:E'; [|done]. apply starts_with_inv in E' as [t E'].
    apply app_eq_inv in E' as [(k & Hx & Hk)|(k & Hwk & Hk)].
    + rewrite Hx, starts_with_app in E. done.
    + destruct k as [|b k]; [rewrite app_nil_r in Hwk; subst w; pose proof (starts_with_app x []) as E2; rewrite app_nil_r in E2; congruence|].
      injection Hk as <- Hk. exfalso. apply Hw. rewrite Hwk. set_solver.
Qed.

Lemma pair_parsed x y : ";"%byte ∉ x -> parse_spec_pair (x ++ B ";" ++ y) = Some (x, y).
Proof. intros Hx. unfold parse_spec_pair. change (B ";" ++ y) with (";"%byte :: y). by rewrite split_once_app. Qed.

Lemma pair_not w x y : ";"%byte ∉ w -> bool_decide (x ++ B ";" ++ y = w) = false.
Proof. intros Hw. apply bool_decide_eq_false_2. intros <-. apply Hw. set_solver. Qed.

Lemma set_registry_same s : set_registry (registry s) s = s.
Proof. by destruct s. Qed.

Ltac no_semicolon := apply (bool_decide_unpack _); vm_compute; exact I.

Lemma forward_dispatched env s op request : plain_op FORWARD_WORDS op -> forward_request (args_of op) = Some request ->
  sayable (forward_effect env op (registry s)).2 ->
  forall future c, dispatch_host_service env request s future c
    = reply (set_registry (forward_effect env op (registry s)).1 s) (says (forward_effect env op (registry s)).2 c).
Proof.
  intros Hp Hr Hs future c. destruct op as [|x| |nb x y]; cbn [forward_effect plain_op] in *.
  - injection Hr as <-. change (dispatch_host_service _ _ _ _ _) with (reply s (HostService.ok (list_forwards (registry s)) c)). cbn [fst snd says]. by rewrite set_registry_same.
  - injection Hr as <-. change (dispatch_host_service _ _ _ _ _) with (handle_forward env (B "killforward:" ++ x) s c). unfold handle_forward.
    rewrite starts_with_app, strip_prefix_app. change (bool_decide (B "killforward:" ++ x = B "list")) with false.
    change (bool_decide (B "killforward:" ++ x = B "killforward-all")) with false. change (bool_decide (B "killforward:" ++ x = B "remove-all")) with false. cbn [orb].
    destruct (remove_forward x (registry s)) as [r removed]. by destruct removed.
  - by injection Hr as <-.
  - destruct Hp as [Hx HF]. apply list.Forall_cons in HF as [H1 HF]. apply list.Forall_cons in HF as [H2 HF]. apply list.Forall_cons in HF as [H3 _].
    destruct nb; injection Hr as <-.
    + change (dispatch_host_service _ _ _ _ _) with (handle_forward env (B "norebind:" ++ x ++ B ";" ++ y) s c). unfold handle_forward.
      rewrite starts_with_app, drop_app_length, pair_parsed by done.
      change (bool_decide (B "norebind:" ++ ?z = B "list")) with false. change (bool_decide (B "norebind:" ++ ?z = B "killforward-all")) with false.
      change (bool_decide (B "norebind:" ++ ?z = B "remove-all")) with false. change (starts_with (B "killforward:") (B "norebind:" ++ ?z)) with false.
      change (starts_with (B "remove:") (B "norebind:" ++ ?z)) with false. cbn [orb].
      destruct (add_forward _ _ _ _ _) as [r [d|m|]]; done.
    + change (dispatch_host_service _ _ _ _ _) with (handle_forward env (x ++ B ";" ++ y) s c). unfold handle_forward.
      rewrite !pair_not by no_semicolon. rewrite !starts_with_pair by no_semicolon. rewrite H1, H2, H3, pair_parsed by done. cbn [orb].
      destruct (add_forward _ _ _ _ _) as [r [d|m|]]; done.
Qed.

Lemma reverse_dispatched env s op request : plain_op REVERSE_WORDS op -> reverse_request (args_of op) = Some request ->
  sayable (reverse_effect op (registry s)).2 ->
  forall future c, dispatch_host_service env request s future c
    = reply (set_registry (reverse_effect op (registry s)).1 s) (says (reverse_effect op (registry s)).2 c).
Proof.
  intros Hp Hr Hs future c. destruct op as [|x| |nb x y]; cbn [reverse_effect plain_op] in *.
  - injection Hr as <-. change (dispatch_host_service _ _ _ _ _) with (reply s (HostService.ok (list_reverses (registry s)) c)). cbn [fst snd says]. by rewrite set_registry_same.
  - injection Hr as <-. change (dispatch_host_service _ _ _ _ _) with (handle_reverse (B "killreverse:" ++ x) s c). unfold handle_reverse.
    rewrite starts_with_app, strip_prefix_app. change (bool_decide (B "killreverse:" ++ x = B "list")) with false.
    change (bool_decide (B "killreverse:" ++ x = B "killforward-all")) with false. change (bool_decide (B "killreverse:" ++ x = B "killreverse-all")) with false.
    change (bool_decide (B "killreverse:" ++ x = B "remove-all")) with false. cbn [orb].
    destruct (remove_reverse x (registry s)) as [r removed]. by destruct removed.
  - by injection Hr as <-.
  - destruct Hp as [Hx HF]. unfold REVERSE_WORDS in HF. rewrite !list.Forall_cons in HF. destruct HF as (H1 & H2 & H3 & H4 & H5 & _).
    destruct nb; injection Hr as <-.
    + change (dispatch_host_service _ _ _ _ _) with (handle_reverse (B "norebind:" ++ x ++ B ";" ++ y) s c). unfold handle_reverse.
      rewrite starts_with_app, drop_app_length, pair_parsed by done.
      change (bool_decide (B "norebind:" ++ ?z = B "list")) with false. change (bool_decide (B "norebind:" ++ ?z = B "killforward-all")) with false.
      change (bool_decide (B "norebind:" ++ ?z = B "killreverse-all")) with false. change (bool_decide (B "norebind:" ++ ?z = B "remove-all")) with false.
      change (starts_with (B "killreverse:") (B "norebind:" ++ ?z)) with false. change (starts_with (B "killforward:") (B "norebind:" ++ ?z)) with false.
      change (starts_with (B "remove:") (B "norebind:" ++ ?z)) with false. cbn [orb].
      destruct (add_reverse _ _ _ _) as [r [d|m|]]; done.
    + change (dispatch_host_service _ _ _ _ _) with (handle_reverse (x ++ B ";" ++ y) s c). unfold handle_reverse.
      rewrite !pair_not by no_semicolon. rewrite !starts_with_pair by no_semicolon. rewrite H1, H2, H3, H4, H5, pair_parsed by done. cbn [orb].
      destruct (add_reverse _ _ _ _) as [r [d|m|]]; done.
Qed.
End EndToEnd.

(** The request of an operation is read and dispatched by the server, which performs it and answers. *)
Lemma rules_answered `{Rsa} `{Base64} (reverse : bool) env s op :
  let effect := if reverse then reverse_effect op (registry s) else forward_effect env op (registry s) in
  plain_op (if reverse then REVERSE_WORDS else FORWARD_WORDS) op -> sayable effect.2 ->
  exists request, (if reverse then reverse_request else forward_request) (args_of op) = Some request /\
    (is_utf8 request = true -> zlen request <= MAX_CMD_LEN -> answered env s request (set_registry effect.1 s) (heard effect.2)).
Proof.
  intros effect Hp Hs. destruct reverse.
  - destruct (reverse_request (args_of op)) as [request|] eqn:E; [|by destruct op]. exists request. split; [done|]. intros Hu Hl.
    apply answered_says; [done| |done|by apply reverse_dispatched]. split; [|done]. destruct op as [| | |nb]; [..|destruct nb]; injection E as <-; unfold zlen; cbn; lia.
  - destruct (forward_request (args_of op)) as [request|] eqn:E; [|by destruct op]. exists request. split; [done|]. intros Hu Hl.
    apply answered_says; [done| |done|by apply forward_dispatched]. split; [|done]. destruct op as [| | |nb]; [..|destruct nb]; injection E as <-; unfold zlen; cbn; lia.
Qed.

(** *** Tables of rules

    A rule leads from one end to another for a device. A local end is a port, written with or without its scheme,
    or a name. *)
Definition Table : Type := list (bytes * bytes * bytes).
Inductive End := AtPort (bare : bool) (n : Z) | Named (name : bytes).
Inductive Ask := AskList | AskRemove (e : End) | AskRemoveAll | AskAdd (no_rebind : bool) (e : End) (to : bytes).

Definition end_text (e : End) : bytes := match e with AtPort bare n => (if bare then [] else B "tcp:") ++ fmt_dec n | Named name => name end.
(** A forward to a port is listed with its scheme, a reverse as it was given. *)
Definition end_name (reverse : bool) (e : End) : bytes :=
  match e with AtPort _ n => if reverse then end_text e else B "tcp:" ++ fmt_dec n | Named name => name end.

Definition from_end (rule : bytes * bytes * bytes) : bytes := rule.1.2.
Definition rule_line (rule : bytes * bytes * bytes) : bytes := rule.1.1 ++ B " " ++ rule.1.2 ++ B " " ++ rule.2 ++ [x0a].

(** Where a rule starts, and what is answered: the port that was bound, when any port would do. *)
Definition start_of (reverse : bool) (bind : Z -> res bytes Z) (e : End) : res bytes (bytes * bytes) :=
  match reverse, e with
  | false, AtPort _ n =>
      match bind n with
      | Ok p => Ok (B "tcp:" ++ fmt_dec p, if n =? 0 then fmt_dec p else [])
      | Err m => Err (B "cannot bind listener for " ++ end_text e ++ B ": " ++ m)
      | Panic => Panic
      end
  | _, _ => Ok (end_text e, [])
  end.

(** The operations on a table, with the answer or the reason of a refusal; a new rule is for the device [dev]. *)
Definition table_spec (reverse : bool) (bind : Z -> res bytes Z) (dev : bytes) (ask : Ask) (t : Table) : Table * res bytes bytes :=
  let what := if reverse then B "reverse forward '" else B "forward '" in
  match ask with
  | AskList => (t, Ok (concat (map rule_line t)))
  | AskRemoveAll => ([], Ok [])
  | AskRemove e =>
      let hit rule := bool_decide (from_end rule = end_name reverse e \/ from_end rule = end_text e) in
      if existsb hit t then (List.filter (fun rule => negb (hit rule)) t, Ok [])
      else (t, Err (what ++ end_text e ++ B "' not found"))
  | AskAdd no_rebind e to =>
      match start_of reverse bind e with
      | Ok (from, said) =>
          let hit rule := bool_decide (from_end rule = from) in
          if no_rebind && existsb hit t then (t, Err (what ++ from ++ B "' already exists"))
          else (List.filter (fun rule => negb (hit rule)) t ++ [(dev, from, to)], Ok said)
      | Err m => (t, Err m)
      | Panic => (t, Panic)
      end
  end.

(** The table of the server. *)
Definition rule_table (reverse : bool) (r : TransportRegistry) : Table :=
  if reverse then map (fun x => (r_serial x, r_remote x, r_local x)) (reverses r)
  else map (fun f => (f_serial f, f_local f, f_remote f)) (forwards r).

Definition op_of (ask : Ask) : RuleOp :=
  match ask with
  | AskList => OpList | AskRemove e => OpRemove (end_text e) | AskRemoveAll => OpRemoveAll
  | AskAdd nb e to => OpAdd nb (end_text e) to
  end.

(** Ports are of 16 bits; a name is not taken for a port, nor a name of a new rule for a word of the protocol. *)
Definition good_end (reverse : bool) (e : End) : Prop :=
  match e with
  | AtPort _ n => 0 <= n <= 65535
  | Named name => reverse = true \/ starts_with (B "tcp:") name = false /\ all_digits name = false
  end.
Definition good_ask (reverse : bool) (ask : Ask) : Prop :=
  match ask with
  | AskRemove e => good_end reverse e
  | AskAdd _ (Named name as e) _ => good_end reverse e /\ plain_spec (if reverse then REVERSE_WORDS else FORWARD_WORDS) name
  | AskAdd _ e _ => good_end reverse e
  | _ => True
  end.

Lemma filter_map_comm {A C} (f : A -> C) (p : C -> bool) l : map f (List.filter (fun x => p (f x)) l) = List.filter p (map f l).
Proof. induction l as [|x l IH]; cbn; [done|]. destruct (p (f x)); cbn; by rewrite IH. Qed.
Lemma existsb_map {A C} (f : A -> C) (p : C -> bool) l : existsb p (map f l) = existsb (fun x => p (f x)) l.
Proof. induction l as [|x l IH]; cbn; [done|]. by rewrite IH. Qed.
Lemma existsb_ext {A} (p q : A -> bool) l : (forall x, p x = q x) -> existsb p l = existsb q l.
Proof. intros Hpq. induction l as [|x l IH]; cbn; [done|]. by rewrite Hpq, IH. Qed.
Lemma filter_none {A} (p : A -> bool) l : match List.filter p l with [] => false | _ => true end = existsb p l.
Proof. induction l as [|x l IH]; cbn; [done|]. by destruct (p x). Qed.
Lemma filter_keeps_all {A} (p : A -> bool) l : existsb p l = false -> List.filter (fun x => negb (p x)) l = l.
Proof.
  induction l as [|x l IH]; cbn; [done|]. intros [Hx Hl]%orb_false_iff. rewrite Hx. cbn. by rewrite IH.
Qed.
Lemma filter_shorter {A} (p : A -> bool) l :
  negb (Nat.eqb (length l) (length (List.filter (fun x => negb (p x)) l))) = existsb p l.
Proof.
  destruct (existsb p l) eqn:E; [|by rewrite filter_keeps_all, Nat.eqb_refl]. apply negb_true_iff, Nat.eqb_neq.
  induction l as [|x l IH]; cbn in *; [done|]. pose proof (filter_length_le (fun x => negb (p x)) l) as Hl.
  destruct (p x); cbn in *; [lia|]. specialize (IH E). lia.
Qed.
Lemma port_digits n : all_digits (fmt_dec n) = true.
Proof.
  apply forallb_forall, List.Forall_forall. apply digits_go_Forall; [lia| |constructor]. intros d Hd. unfold digit_char, is_digit, in_rng.
  replace (d <? 10) with true by (symmetry; apply Z.ltb_lt; lia). rewrite b2z_z2b, Z.mod_small by lia. apply andb_true_iff. split; apply Z.leb_le; lia.
Qed.
Lemma not_port w n : all_digits w = false -> starts_with w (fmt_dec n) = false.
Proof.
  intros Hw. destruct (starts_with w (fmt_dec n)) eqn:E; [|done]. apply starts_with_inv in E as [t E]. pose proof (port_digits n) as Hd.
  unfold all_digits in *. rewrite E, forallb_app, Hw in Hd. done.
Qed.
Lemma fmt_dec_zero n : 0 <= n <= 65535 -> fmt_dec n = B "0" -> n = 0.
Proof. intros Hn E. pose proof (parse_fmt_dec 65535 n Hn ltac:(lia)) as Hp. rewrite E in Hp. by injection Hp. Qed.

(** Binding a good end. *)
Lemma bind_good bind e : good_end false e ->
  bind_local bind (end_text e) = match e with
    | AtPort _ n => match bind n with
                    | Ok p => Ok (p, B "tcp:" ++ fmt_dec p, true)
                    | Err m => Err (B "cannot bind listener for " ++ end_text e ++ B ": " ++ m)
                    | Panic => Panic
                    end
    | Named name => Ok (0, name, false)
    end.
Proof.
  unfold bind_local. destruct e as [bare n|name]; cbn [good_end end_text].
  - intros Hn. destruct bare; cbn [app].
    + rewrite port_digits, orb_true_r. unfold strip_prefix. rewrite not_port, parse_fmt_dec by (done || lia). cbn. by destruct (bind n).
    + rewrite starts_with_app, strip_prefix_app, parse_fmt_dec by lia. cbn [orb ok_or res_bind]. by destruct (bind n).
  - intros [?|[Ht Hd]]; [done|]. by rewrite Ht, Hd.
Qed.

(** The answer of adding: the port only for port 0. *)
Lemma any_port e : good_end false e ->
  bool_decide (end_text e = B "tcp:0") || bool_decide (end_text e = B "0") = match e with AtPort _ n => n =? 0 | Named _ => false end.
Proof.
  intros He. destruct e as [bare n|name]; cbn [good_end end_text] in *.
  - destruct (Z.eqb_spec n 0) as [->|Hn]; [by destruct bare|]. apply orb_false_iff.
    split; apply bool_decide_eq_false_2; intros E; apply Hn; destruct bare; cbn [app] in E.
    + pose proof (not_port (B "tcp:") n eq_refl) as Hp. rewrite E in Hp. done.
    + apply app_inv_head with (l := B "tcp:") (l2 := B "0") in E. by apply fmt_dec_zero.
    + by apply fmt_dec_zero.
    + pose proof (starts_with_app (B "tcp:") (fmt_dec n)) as Hp. rewrite E in Hp. done.
  - destruct He as [?|[Ht Hd]]; [done|]. apply orb_false_iff. split; apply bool_decide_eq_false_2; intros ->; done.
Qed.

Lemma matches_good e f : good_end false e ->
  forward_matches (end_text e) f = bool_decide (f_local f = end_name false e \/ f_local f = end_text e).
Proof.
  intros He. unfold forward_matches. rewrite <- bool_decide_or. f_equal.
  destruct e as [[|] n|name]; cbn [end_text end_name good_end app] in *.
  - by rewrite not_port, port_digits.
  - by rewrite starts_with_app.
  - destruct He as [?|[Ht Hd]]; [done|]. by rewrite Hd, andb_false_r.
Qed.

Lemma matches_from bind e from said f : good_end false e -> start_of false bind e = Ok (from, said) ->
  forward_matches from f = bool_decide (f_local f = from).
Proof.
  intros He Hs. unfold forward_matches. destruct e as [bare n|name]; cbn [start_of good_end end_text] in *.
  - destruct (bind n) as [p|m|]; [|done|done]. assert (from = B "tcp:" ++ fmt_dec p) as -> by congruence. rewrite starts_with_app. cbn [negb andb]. apply orb_diag.
  - injection Hs as <- _. destruct He as [?|[Ht Hd]]; [done|]. rewrite Hd, andb_false_r. apply orb_diag.
Qed.

(** What the operations of the server leave alone. *)
Definition other_same (reverse : bool) (r r' : TransportRegistry) : Prop :=
  devices r' = devices r /\ next_id r' = next_id r /\ rule_table (negb reverse) r' = rule_table (negb reverse) r.

Lemma forward_refines `{Rsa} `{Base64} env ask r : good_ask false ask ->
  let '(r', x) := forward_effect env (op_of ask) r in
  table_spec false (bind env) (any_serial r) ask (rule_table false r) = (rule_table false r', x) /\ other_same false r r'.
Proof.
  intros Hg. destruct ask as [|e| |nb e to]; cbn [op_of forward_effect table_spec good_ask] in *.
  - split; [|done]. unfold rule_table, list_forwards. by rewrite map_map.
  - unfold remove_forward. rewrite filter_none. unfold rule_table. rewrite existsb_map.
    rewrite (existsb_ext _ (forward_matches (end_text e))) by (intros f; symmetry; by apply matches_good).
    destruct (existsb (forward_matches _) _) eqn:E; (split; [|done]); cbn [forwards set_forwards].
    + f_equal. rewrite <- filter_map_comm. f_equal. apply List.filter_ext. intros f. f_equal. by rewrite matches_good.
    + by rewrite filter_keeps_all.
  - done.
  - assert (good_end false e) as He by (destruct e; [done|by destruct Hg]). unfold add_forward. rewrite bind_good, any_port by done.
    assert (forall from said, start_of false (bind env) e = Ok (from, said) ->
      let '(r', x) := if nb && existsb (fun f => bool_decide (f_local f = from)) (forwards r)
        then (r, Err (B "forward '" ++ from ++ B "' already exists"))
        else let '(r, _) := remove_forward from r in
          (set_forwards (forwards r ++ [mk_forward (any_serial r) from to (length (flags r))]) (flags r ++ [true]) r, Ok said) in
      table_spec false (bind env) (any_serial r) (AskAdd nb e to) (rule_table false r) = (rule_table false r', x) /\ other_same false r r') as Hadd.
    { intros from said Hs. cbn [table_spec]. rewrite Hs. unfold rule_table at 1. rewrite existsb_map. cbn [from_end fst snd].
      destruct (nb && existsb _ _); [by split|]. cbn [remove_forward]. split; [|done]. unfold rule_table. cbn [forwards set_forwards].
      rewrite map_app. cbn [map]. do 2 f_equal. rewrite <- filter_map_comm. f_equal. apply List.filter_ext. intros f. f_equal.
      by rewrite (matches_from _ _ _ _ f He Hs). }
    destruct e as [bare n|name]; cbn [start_of table_spec] in *; [|by apply (Hadd name [])].
    destruct (bind env n) as [p|m|]; [|done|done]. by apply (Hadd _ _ eq_refl).
Qed.

Lemma reverse_refines b ask r : good_ask true ask ->
  let '(r', x) := reverse_effect (op_of ask) r in
  table_spec true b (any_serial r) ask (rule_table true r) = (rule_table true r', x) /\ other_same true r r'.
Proof.
  intros Hg. destruct ask as [|e| |nb e to]; cbn [op_of reverse_effect table_spec] in *.
  - split; [|done]. unfold rule_table, list_reverses. by rewrite map_map.
  - assert (end_name true e = end_text e) as -> by by destruct e. unfold remove_reverse, without_reverse. rewrite filter_shorter. unfold rule_table.
    rewrite existsb_map. rewrite (existsb_ext _ (fun x => bool_decide (r_remote x = end_text e))).
    2: { intros x. cbn. apply bool_decide_ext. tauto. }
    destruct (existsb _ _) eqn:E; (split; [|done]); cbn [reverses set_reverses].
    + f_equal. rewrite <- filter_map_comm. f_equal. apply List.filter_ext. intros x. f_equal. apply bool_decide_ext. cbn. tauto.
    + by rewrite filter_keeps_all.
  - done.
  - cbn [start_of]. unfold add_reverse, without_reverse, rule_table. rewrite existsb_map. cbn [from_end fst snd].
    destruct (nb && existsb _ _); cbn [res_bind]; [by split|]. split; [|done]. cbn [reverses set_reverses]. rewrite map_app. cbn [map].
    do 2 f_equal. by rewrite <- filter_map_comm.
Qed.

(** Good ends are plain, and a request about rules goes to the server as it is. *)
Lemma good_plain reverse ask : good_ask reverse ask -> plain_op (if reverse then REVERSE_WORDS else FORWARD_WORDS) (op_of ask).
Proof.
  destruct ask as [| | |nb [bare n|name] to]; cbn [op_of plain_op good_ask end_text]; [done..| |by intros [_ ?]].
  intros _. split.
  - apply not_elem_of_app. split; [destruct bare; apply (bool_decide_unpack _); vm_compute; exact I|apply fmt_dec_not_z; change (b2z ";"%byte) with 59; lia].
  - apply List.Forall_forall. intros w Hw. destruct bare; cbn [app].
    + apply not_port. destruct reverse; repeat (destruct Hw as [<-|Hw]; [reflexivity|]); done.
    + destruct reverse; repeat (destruct Hw as [<-|Hw]; [reflexivity|]); done.
Qed.

Lemma rule_unbound (reverse : bool) a request target cl : (if reverse then reverse_request else forward_request) a = Some request ->
  host_command_on target request cl = execute_host_command request cl.
Proof.
  intros Hr. assert (exists rest, request = (if reverse then B "host:reverse:" else B "host:forward:") ++ rest) as [rest ->].
  { destruct reverse; unfold reverse_request, forward_request, rule_request in Hr; repeat case_match; try discriminate; injection Hr as <-; by eexists. }
  unfold host_command_on, actual_request. rewrite bool_decide_eq_false_2.
  - by destruct reverse.
  - intros Hin. repeat (apply elem_of_cons in Hin as [E|Hin]); [destruct reverse; discriminate E..|by apply elem_of_nil in Hin].
Qed.

Lemma execute_out request cl : outgoing (fst (execute_host_command request cl)) = outgoing (fst (send_host_request request cl)).
Proof.
  unfold execute_host_command, switch_service, on_conn. destruct (send_host_request request cl) as [c [u|e|]]; [|done|done].
  repeat (case_match; simplify_eq; try done).
Qed.

(** What the program shows of a result: an answer with its own line, nothing for an empty one, or the error. *)
Definition shown (x : res bytes bytes) : outcome :=
  match x with
  | Ok d => Printed (match from_utf8_lossy d with [] => [] | text => text ++ [x0a] end)
  | Err m => Exited (B "Error: " ++ from_utf8_lossy m)
  | Panic => Crashed
  end.

(** C15: [adb forward] and [adb reverse] are the operations on a table of rules, from the command line through the
    server and back to what is printed. Listing, removing the rule of an end, removing all and adding one (with or
    without replacing) are asked as the program makes and writes them; the server reads that request and ends
    well, its table of the rules of this kind is the one the operation gives, devices and the other table stay as
    they were; and the program, once the answer has come, prints the answer or exits with the reason of the
    refusal. Local ends are ports, with or without a scheme, or names that are not words of the protocol. *)
Theorem cli_rules_end_to_end `{Rsa} `{Base64} (reverse : bool) env s ask net port target future cl sc request :
  let spec := table_spec reverse (bind env) (any_serial (registry s)) ask (rule_table reverse (registry s)) in
  let args := args_of (op_of ask) in
  good_ask reverse ask -> sayable spec.2 ->
  connect_server net port = Ok cl -> wfail cl = None -> outgoing cl = [] -> wfail sc = None -> outgoing sc = [] ->
  (if reverse then reverse_request else forward_request) args = Some request -> is_utf8 request = true -> zlen request <= MAX_CMD_LEN ->
  arrives (incoming sc) (outgoing (fst (host_command_on target request cl))) ->
  exists q sc' s', read_command (incoming sc) = (q, Ok (Some request)) /\
    dispatch_host_service env request s future (set_incoming q sc) = (s', sc', Some (Ok tt)) /\
    rule_table reverse (registry s') = spec.1 /\ other_same reverse (registry s) (registry s') /\
    (arrives (incoming cl) (outgoing sc') ->
     (if reverse then run_reverse else run_forward) args (host_command_at net port target) = shown spec.2).
Proof.
  intros spec args Hg Hs Hnet Hwc Hoc Hws Hos Hreq Hu Hl Ha.
  set (effect := if reverse then reverse_effect (op_of ask) (registry s) else forward_effect env (op_of ask) (registry s)).
  assert (spec = (rule_table reverse effect.1, effect.2) /\ other_same reverse (registry s) effect.1) as [Hspec Hother].
  { unfold spec, effect. destruct reverse.
    - pose proof (reverse_refines (bind env) ask (registry s) Hg) as Hr. by destruct (reverse_effect (op_of ask) (registry s)).
    - pose proof (forward_refines env ask (registry s) Hg) as Hr. by destruct (forward_effect env (op_of ask) (registry s)). }
  rewrite Hspec in Hs |- *. cbn [fst snd] in *.
  destruct (rules_answered reverse env s (op_of ask) (good_plain _ _ Hg) Hs) as (request' & Hreq' & Hans).
  assert (request' = request) as -> by (unfold args in *; congruence). specialize (Hans Hu Hl).
  pose proof (rule_unbound reverse args request target cl Hreq) as Hon. rewrite Hon, execute_out in Ha.
  destruct (Hans future cl sc Hwc Hoc Hws Hos Ha) as (q & sc' & H1 & H2 & H3). fold effect in H2, H3.
  exists q, sc', (set_registry effect.1 s). split_and!; [done|done|done|done|]. intros Hc. specialize (H3 Hc).
  assert (host_command_at net port target request = map_err transport_error_text (heard effect.2)) as Hcmd.
  { unfold host_command_at. rewrite Hnet. cbn [res_bind]. by rewrite Hon, H3. }
  destruct reverse; [unfold run_reverse|unfold run_forward]; unfold rule_command; rewrite Hreq, Hcmd;
    destruct effect.2 as [d|m|]; cbn [heard map_err with_answer shown transport_error_text]; try done; by destruct (from_utf8_lossy d).
Qed.

(** *** Requests that the server does not have *)
Definition refused (request : bytes) : res TransportError bytes := Err (TServerError (B "unknown host service: " ++ request)).

Lemma unserved `{Rsa} `{Base64} env s request : is_utf8 request = true -> 0 < zlen request <= 4000 ->
  (forall future c, dispatch_host_service env request s future c = reply s (HostService.fail (B "unknown host service: " ++ request) c)) ->
  answered env s request s (refused request).
Proof.
  intros Hu Hl Hd. unfold refused. rewrite <- (lossy_utf8 (B "unknown host service: " ++ request)) by by apply utf8_app.
  apply (answered_says env s request s (Err (B "unknown host service: " ++ request))); [done|unfold MAX_CMD_LEN; lia| |done].
  cbn [sayable]. rewrite zlen_app. change (zlen (B "unknown host service: ")) with 22. lia.
Qed.

(** Requests of the program that its server refuses. Reconnecting, reconnecting offline devices, selecting the only
    USB device and asking for the features of the only device are answered as unknown services, in every state
    of the server. The processes that can be debugged are asked for after a device was selected: there the server
    refuses the request, which it answers only when no device is selected. *)
Lemma cli_unserved_requests `{Rsa} `{Base64} env s :
  (forall request, request ∈ [B "host:reconnect"; B "host:reconnect-offline"; B "host:transport-usb"; features_request None] ->
     answered env s request s (refused request)) /\
  reconnect_service None = Ok (B "host:reconnect") /\ reconnect_service (Some (B "offline")) = Ok (B "host:reconnect-offline") /\
  needs_transport (B "host:jdwp") = true /\
  (forall {U} `{Transport U} fuel name (st : Sess) (t : AnyTransport U) c q, wfail c = None -> read_command (incoming c) = (q, Ok (Some (B "host:jdwp"))) ->
     device_loop (S fuel) name st t c
     = device_loop fuel name st t (mk_conn q (outgoing c ++ B "FAIL" ++ hex4 31 ++ B "unknown host service: host:jdwp") None)).
Proof.
  split_and!; [|done|done|done|].
  - intros request Hin. repeat (apply elem_of_cons in Hin as [->|Hin]); [..|by apply elem_of_nil in Hin];
      (apply unserved; [reflexivity|split; [reflexivity|vm_compute; discriminate]|intros; reflexivity]).
  - intros U HU fuel name st t c q Hw Hr. cbn [device_loop]. rewrite Hr. unfold send_fail. change (starts_with (B "host:") (B "host:jdwp")) with true.
    change (starts_with (B "host:get-serialno") (B "host:jdwp")) with false. cbv iota. rewrite fail_out by done. reflexivity.
Qed.

(** *** Detaching *)
Lemma disconnect_answered `{Rsa} `{Base64} env s name : is_utf8 name = true -> 0 < zlen name <= 64 ->
  let '(r, removed) := remove_device name (registry s) in
  answered env s (B "host:disconnect:" ++ name) (set_registry r s)
    (if removed then Ok (B "disconnected " ++ name) else Err (TServerError (B "device '" ++ name ++ B "' not found"))).
Proof.
  intros Hu Hl. destruct (remove_device name (registry s)) as [r removed] eqn:E.
  set (x := if removed then Ok (B "disconnected " ++ name) else Err (B "device '" ++ name ++ B "' not found") : res bytes bytes).
  assert (heard x = if removed then Ok (B "disconnected " ++ name) else Err (TServerError (B "device '" ++ name ++ B "' not found"))) as <-.
  { unfold x. destruct removed; cbn [heard]; rewrite lossy_utf8; [done|by apply utf8_app|done|by repeat apply utf8_app]. }
  apply answered_says; [by apply utf8_app| | |].
  - rewrite zlen_app. change (zlen (B "host:disconnect:")) with 16. unfold MAX_CMD_LEN. lia.
  - unfold x, sayable. destruct removed; rewrite !zlen_app; [change (zlen (B "disconnected ")) with 13; lia|].
    change (zlen (B "device '")) with 8. change (zlen (B "' not found")) with 11. lia.
  - intros future c. change (dispatch_host_service _ _ _ _ _) with (disconnect_service (B "host:disconnect:" ++ name) s c). unfold disconnect_service.
    change (bool_decide (B "host:disconnect:" ++ name = B "host:disconnect")) with false. cbv iota. rewrite drop_app_length, E. unfold x. by destruct removed.
Qed.

(** Detaching a device that the server has removes it, and reports this as a failure. *)
Lemma detach_reports_error `{Rsa} `{Base64} env s name future cl sc r :
  is_utf8 name = true -> 0 < zlen name <= 64 -> remove_device name (registry s) = (r, true) ->
  wfail cl = None -> outgoing cl = [] -> wfail sc = None -> outgoing sc = [] ->
  arrives (incoming sc) (outgoing (fst (send_host_request (B "host:disconnect:" ++ name) cl))) ->
  exists q sc', read_command (incoming sc) = (q, Ok (Some (B "host:disconnect:" ++ name))) /\
    dispatch_host_service env (B "host:disconnect:" ++ name) s future (set_incoming q sc) = (set_registry r s, sc', Some (Ok tt)) /\
    (arrives (incoming cl) (outgoing sc') -> detach_on name cl = Err (B "Detach: disconnected " ++ name)).
Proof.
  intros Hu Hl Hr Hwc Hoc Hws Hos Ha. pose proof (disconnect_answered env s name Hu Hl) as Hd. rewrite Hr in Hd.
  destruct (Hd future cl sc Hwc Hoc Hws Hos Ha) as (q & sc' & H1 & H2 & H3). exists q, sc'. split_and!; [done|done|]. intros Hc.
  specialize (H3 Hc). unfold detach_on. destruct (execute_host_command _ cl) as [c x]. cbn [snd] in H3. subst x.
  replace (contains_str (B "disconnected") (B "disconnected " ++ name)) with true; [done|]. symmetry. reflexivity.
Qed.

(** ** Choosing the server *)

(** The port is that of [-P], else of [-L], else of the environment, else the standard one; a socket that cannot be read is passed over. *)
Lemma server_port_default vars listen : (l ← listen; parse_server_addr l) = None -> (x ← server_socket vars; parse_server_addr x) = None ->
  server_port_var vars = None -> resolve_server_port vars None listen = ADB_SERVER_PORT.
Proof. intros H1 H2 H3. unfold resolve_server_port. by rewrite H1, H2, H3. Qed.

(** A remote server is taken for a local one, except by push and pull. *)
Example remote_server_ignored :
  resolve_server_port (mk_vars None None) None (Some (B "tcp:10.0.0.9:6000")) = 6000 /\
  candidate_addrs 6000 = [B "127.0.0.1:6000"; B "[::1]:6000"] /\
  validate_sync_server_scope (mk_vars None None) None (Some (B "tcp:10.0.0.9:6000")) = Err (B "SYNC does not support this ADB server socket: tcp:10.0.0.9:6000").
Proof. split_and!; vm_compute; reflexivity. Qed.

(** ** Waiting ends *)
Lemma wait_go_spec good timeout answers n : forall k,
  wait_go n k good timeout answers
  = if existsb (fun i => good (answers i)) (seq k n) then Printed [] else Exited timeout.
Proof.
  induction n as [|n IH]; intros k; [done|]. cbn [wait_go seq existsb]. destruct (good (answers k)); [done|]. apply IH.
Qed.

(** Waiting for a state asks at most 60 times, and ends well exactly if one of the answers is the state. *)
Lemma wait_for_device_iff answers : run_wait_for_device answers = Printed [] <-> exists i, (i < 60)%nat /\ state_is (B "device") (answers i) = true.
Proof.
  unfold run_wait_for_device. rewrite wait_go_spec. split.
  - destruct (existsb _ _) eqn:E; [|done]. intros _. apply existsb_exists in E as (i & Hi & E). apply in_seq in Hi. exists i. unfold MAX_ATTEMPTS in Hi. split; [lia|done].
  - intros (i & Hi & E). replace (existsb _ _) with true; [done|]. symmetry. apply existsb_exists. exists i. split; [|done]. apply in_seq. unfold MAX_ATTEMPTS. lia.
Qed.

(** ** Samples *)
Module CliSample.
Import KeySample HandshakeSample HostSample.
(** A server with one rule; port 6100 is asked for, without its scheme, and the rule of that port is replaced. *)
Definition state0 : Server :=
  HostSample.server (registry_step (registry_new None) (AddForward Ok (B "tcp:6100") (B "tcp:1") false)).
Definition ask0 : Ask := AskAdd false (AtPort true 6100) (B "tcp:7100").
Definition request0 : bytes := B "host:forward:6100;tcp:7100".
Definition cl0 : Conn := mk_conn [inl (B "OKAY0000")] [] None.
Definition sc0 : Conn := mk_conn [inl (B "001a" ++ request0)] [] None.
Definition net0 : Dial := mk_dial (fun _ => Some cl0) (fun _ => None) (fun _ => Ok tt).

Lemma cli_rules_end_to_end_witness :
  exists q sc' s', read_command (incoming sc0) = (q, Ok (Some request0)) /\
    dispatch_host_service env request0 state0 [] (set_incoming q sc0) = (s', sc', Some (Ok tt)) /\
    rule_table false (registry s') = [(B "127.0.0.1:5555", B "tcp:6100", B "tcp:7100")] /\
    (arrives (incoming cl0) (outgoing sc') -> run_forward (args_of (op_of ask0)) (host_command_at net0 5037 None) = Printed []).
Proof.
  destruct (cli_rules_end_to_end false env state0 ask0 net0 5037 None [] cl0 sc0 request0)
    as (q & sc' & s' & H1 & H2 & H3 & _ & H4); [vm_compute; split; discriminate|vm_compute; reflexivity|reflexivity|reflexivity|reflexivity|
    reflexivity|reflexivity|vm_compute; reflexivity|vm_compute; reflexivity|vm_compute; discriminate| |].
  - change (outgoing (host_command_on None request0 cl0).1) with (B "001a" ++ request0). apply arrives_one. discriminate.
  - exists q, sc', s'. split; [exact H1|]. split; [exact H2|]. split; [exact H3|exact H4].
Defined.
End CliSample.

(** The requests of a few commands. *)
Example cli_requests :
  map forward_request [mk_rule_args true None false false None None; mk_rule_args false None false true (Some (B "tcp:1")) (Some (B "tcp:2"));
    mk_rule_args false None false false (Some (B "tcp:1")) None]
  = [Some (B "host:forward:list"); Some (B "host:forward:norebind:tcp:1;tcp:2"); None] /\
  actual_request (Some (B "S1")) (B "host:get-state") = B "host-serial:S1:get-state".
Proof. split; vm_compute; reflexivity. Qed.

(** The transport before the state is checked and then not used. *)
Example wait_prefix_unused (answers : nat -> res bytes bytes) :
  parse_wait_spec [B "usb-device"] = (B "usb-device", Some (B "usb"), B "device") /\
  run_wait_for [B "usb-device"] (fun _ => Ok (B "device")) =
    Printed (println (B "[adb-rs] Waiting for device state 'usb-device' ...") ++ println (B "[adb-rs] Device reached state 'device'")).
Proof. split; vm_compute; reflexivity. Qed.
