(* ===== verification/Float64.v ===== *)
(** * Binary64 numbers

    The standard library's [f64] where the interface compiler uses it: [str::parse] of a decimal text and [Display].
    A number is a [spec_float] of precision 53; a text is rounded once, exactly; the text of a number is the
    shortest decimal that is read back as the number, the closest one if there are several. *)
From Stdlib Require Import SpecFloat.
From S2P Require Import Prelude Text.

Definition f64 : Type := spec_float.

#[export] Instance f64_eq : EqDecision f64.
Proof. solve_decision. Defined.

Definition prec : Z := 53.
Definition emax : Z := 1024.

(** [m * 10 ^ e], rounded to nearest, ties to even. The bounds on the exponent are beyond the largest and the smallest number. *)
Definition of_decimal (m e : Z) : f64 :=
  match m with
  | Zpos p =>
      let digits := zlen (digits_go (Z.to_nat (Z.log2 m + 1)) 10 m []) in
      if 400 <? digits + e then S754_infinity false
      else if digits + e <? -400 then S754_zero false
      else if 0 <=? e then binary_normalize prec emax (m * 10 ^ e) 0 false
      else match 10 ^ (- e) with
           | Zpos q => SFdiv prec emax (S754_finite false p 0) (S754_finite false q 0)
           | _ => S754_nan
           end
  | _ => S754_zero false
  end.

(** ** Reading *)
Fixpoint span_digits (s : bytes) : bytes * bytes :=
  match s with
  | b :: t => if in_rng 48 57 b then let '(d, r) := span_digits t in (b :: d, r) else ([], s)
  | [] => ([], [])
  end.

Definition dec_value (s : bytes) : Z := default 0 (parse_digits 10 0 s).

(** What follows the mantissa: nothing, or an exponent. *)
Definition parse_exponent (s : bytes) : option Z :=
  match s with
  | [] => Some 0
  | b :: t =>
      if beqb b "e"%byte || beqb b "E"%byte then
        let '(neg, t) := match t with
                         | c :: u => if beqb c "-"%byte then (true, u) else if beqb c "+"%byte then (false, u) else (false, t)
                         | [] => (false, t)
                         end in
        match span_digits t with
        | ((_ :: _) as d, []) => Some (if neg : bool then - dec_value d else dec_value d)
        | _ => None
        end
      else None
  end.

(** [s.parse::<f64>()] for a text without a sign that is not one of the words for infinities and NaN. *)
Definition parse_f64 (s : bytes) : option f64 :=
  let '(whole, t) := span_digits s in
  let '(frac, t) := match t with
                    | b :: u => if beqb b "."%byte then span_digits u else ([], t)
                    | [] => ([], [])
                    end in
  match whole ++ frac with
  | [] => None
  | digits => e ← parse_exponent t; Some (of_decimal (dec_value digits) (e - zlen frac))
  end.

(** ** Printing *)

(** [m * 2 ^ e] as a fraction. *)
Definition fraction (m e : Z) : Z * Z := if 0 <=? e then (m * 2 ^ e, 1) else (m, 2 ^ (- e)).

(** The exponent [k] with [10 ^ (k - 1) <= v < 10 ^ k], from a start that is not above it. *)
Fixpoint scale_go (fuel : nat) (num den k : Z) : Z :=
  match fuel with
  | O => k
  | S fuel =>
      let below := if 0 <=? k then num <? den * 10 ^ k else num * 10 ^ (- k) <? den in
      if below then k else scale_go fuel num den (k + 1)
  end.
Definition decimal_scale (m e num den : Z) : Z :=
  scale_go 8 num den (((Z.log2 m + e) * 30103) / 100000 - 2).

(** The best decimal of [n] digits that is read back as [v]. *)
Definition candidate (v : f64) (num den k : Z) (n : Z) : option Z :=
  let '(a, b) := if 0 <=? n - k then (num * 10 ^ (n - k), den) else (num, den * 10 ^ (k - n)) in
  let lo := a / b in
  let good d := bool_decide (of_decimal d (k - n) = v) in
  if good lo && (negb (good (lo + 1)) || (2 * (a - lo * b) <=? b)) then Some lo
  else if good (lo + 1) then Some (lo + 1) else None.

Fixpoint shortest_go (fuel : nat) (v : f64) (num den k n : Z) : option (Z * Z) :=
  match fuel with
  | O => None
  | S fuel => match candidate v num den k n with Some d => Some (d, n) | None => shortest_go fuel v num den k (n + 1) end
  end.

(** [digits] as a fraction [0.digits], times [10 ^ k]. *)
Definition place_point (digits : bytes) (k : Z) : bytes :=
  if k <=? 0 then B "0." ++ zrep (- k) "0"%byte ++ digits
  else if zlen digits <=? k then digits ++ zrep (k - zlen digits) "0"%byte
  else slice 0 k digits ++ B "." ++ slice k (zlen digits) digits.

(** [v.to_string()]. Seventeen digits are enough for every number. *)
Definition f64_to_string (v : f64) : bytes :=
  match v with
  | S754_zero s => if s then B "-0" else B "0"
  | S754_infinity s => if s then B "-inf" else B "inf"
  | S754_nan => B "NaN"
  | S754_finite s m e =>
      let '(num, den) := fraction (Zpos m) e in
      let k := decimal_scale (Zpos m) e num den in
      let text := match shortest_go 17 (S754_finite false m e) num den k 1 with
                  | Some (d, n) => let ds := fmt_dec d in place_point (slice 0 n ds) (k + (zlen ds - n))
                  | None => []
                  end in
      if s then B "-" ++ text else text
  end.

(** Among them the largest number, a number just below a power of ten, and one half way between two numbers. *)
Example f64_texts :
  Forall (fun '(s, t) => f64_to_string <$> parse_f64 (B s) = B <$> t)
    [("1.5", Some "1.5"); ("1.0", Some "1"); ("0.1", Some "0.1"); ("3.14159", Some "3.14159"); ("1e21", Some "1000000000000000000000");
     ("123.456e5", Some "12345600"); ("1e400", Some "inf"); ("2.", Some "2"); ("1e", None); ("0.30000000000000004", Some "0.30000000000000004");
     ("0.000001", Some "0.000001"); ("9007199254740993.0", Some "9007199254740992"); ("123456789.123456789", Some "123456789.12345679"); (".", None)].
Proof. apply (bool_decide_unpack _). vm_compute. exact I. Qed.
