(* ===== verification/AidlLexer.v ===== *)
(** * The interface compiler: characters to tokens

    [Token], [ParseError] and [Lexer] of [aidl-rs/src/parser.rs]. The lexer's iterator is the list of the characters that are
    left, each with its byte offset; a character is the list of its UTF-8 bytes. *)
From S2P Require Import Prelude Text Float64.

Inductive ParseError :=
| UnexpectedEof
| UnexpectedChar (c : bytes) (idx : Z)
| UnterminatedComment (idx : Z)
| UnterminatedString (idx : Z)
| InvalidNumber (s : bytes) (idx : Z)
| ExpectedToken (expected found : bytes) (location : Z)
| Custom (message : bytes) (location : Z).

Inductive Token :=
| Ident (s : bytes) | StringLit (s : bytes) | CharLit (s : bytes) | IntLit (n : Z) | FloatLit (f : f64)
| At | Semi | Comma | Dot | Colon | Equals | LBrace | RBrace | LParen | RParen | LBracket | RBracket | LAngle | RAngle
| Plus | Minus | Star | Slash | Percent | Amp | Pipe | Caret | Tilde | Bang | AndAnd | OrOr | EqEq | NotEq
| LAngleAngle | RAngleAngle | LessEqual | GreaterEqual | Eof.

#[export] Instance token_eq : EqDecision Token.
Proof. solve_decision. Defined.

Definition DQ : bytes := [x22].
Definition SQ : bytes := [x27].
Definition BS : bytes := [x5c].
Definition quoted (s : bytes) : bytes := SQ ++ s ++ SQ.

(** The characters of a token that has no value. *)
Definition symbol (t : Token) : bytes :=
  match t with
  | At => B "@" | Semi => B ";" | Comma => B "," | Dot => B "." | Colon => B ":" | Equals => B "=" | LBrace => B "{" | RBrace => B "}"
  | LParen => B "(" | RParen => B ")" | LBracket => B "[" | RBracket => B "]" | LAngle => B "<" | RAngle => B ">"
  | Plus => B "+" | Minus => B "-" | Star => B "*" | Slash => B "/" | Percent => B "%" | Amp => B "&" | Pipe => B "|" | Caret => B "^"
  | Tilde => B "~" | Bang => B "!" | AndAnd => B "&&" | OrOr => B "||" | EqEq => B "==" | NotEq => B "!="
  | LAngleAngle => B "<<" | RAngleAngle => B ">>" | LessEqual => B "<=" | GreaterEqual => B ">="
  | _ => []
  end.

Definition description (t : Token) : bytes :=
  match t with
  | Ident s => B "identifier " ++ quoted s
  | StringLit s => B "string " ++ DQ ++ s ++ DQ
  | CharLit s => B "character " ++ s
  | IntLit n => B "integer " ++ quoted (fmt_int n)
  | FloatLit f => B "float " ++ quoted (f64_to_string f)
  | Eof => B "EOF"
  | t => quoted (symbol t)
  end.

(** ** Characters *)
Definition Chars : Type := list (Z * bytes).

Fixpoint char_indices_go (fuel : nat) (off : Z) (s : bytes) : Chars :=
  match fuel, s with
  | S fuel, b :: t => let '(_, n) := utf8_head b t in (off, take n s) :: char_indices_go fuel (off + Z.of_nat n) (drop n s)
  | _, _ => []
  end.
Definition char_indices (s : bytes) : Chars := char_indices_go (length s) 0 s.

Definition is_char (c : string) (ch : bytes) : bool := bool_decide (ch = B c).
Definition next_is (c : string) (cs : Chars) : bool := match cs with (_, ch) :: _ => is_char c ch | [] => false end.

Definition is_whitespace (ch : bytes) : bool := Nat.eqb (ws_front ch) (length ch).
Definition ascii_class (f : byte -> bool) (ch : bytes) : bool := match ch with [b] => f b | _ => false end.
Definition digit_byte (b : byte) : bool := in_rng 48 57 b.
Definition alpha_byte (b : byte) : bool := in_rng 65 90 b || in_rng 97 122 b.
Definition ident_start (b : byte) : bool := alpha_byte b || beqb b "_"%byte.
Definition ident_byte (b : byte) : bool := alpha_byte b || digit_byte b || beqb b "_"%byte.
Definition number_byte (b : byte) : bool := ident_byte b || beqb b "."%byte.

(** ** Comments *)
Fixpoint skip_line (cs : Chars) : Chars :=
  match cs with
  | [] => []
  | (_, c) :: cs => if bool_decide (c = [x0a]) then cs else skip_line cs
  end.
(** Past the end of the comment, if it has one. *)
Fixpoint skip_block (cs : Chars) : option Chars :=
  match cs with
  | [] => None
  | (_, c) :: cs => if is_char "*" c && next_is "/" cs then Some (tail cs) else skip_block cs
  end.

(** ** Literals *)
Definition string_escape (ch : bytes) : bytes :=
  if is_char "n" ch then [x0a] else if is_char "r" ch then [x0d] else if is_char "t" ch then [x09] else if is_char "0" ch then [x00] else ch.
Fixpoint read_string (start : Z) (s : bytes) (cs : Chars) : res ParseError (bytes * Chars) :=
  match cs with
  | [] => Err (UnterminatedString start)
  | (_, ch) :: cs =>
      if bool_decide (ch = DQ) then Ok (s, cs)
      else if bool_decide (ch = BS) then
        match cs with
        | [] => Err (UnterminatedString start)
        | (_, escaped) :: cs => read_string start (s ++ string_escape escaped) cs
        end
      else read_string start (s ++ ch) cs
  end.

Definition char_escape (ch : bytes) : bytes :=
  if is_char "n" ch then [x0a] else if is_char "r" ch then [x0d] else if is_char "t" ch then [x09] else ch.
Definition read_char (start : Z) (cs : Chars) : res ParseError (bytes * Chars) :=
  let! '(value, cs) :=
    match cs with
    | [] => Err (UnterminatedString start)
    | (_, ch) :: cs =>
        if bool_decide (ch = BS) then
          match cs with
          | (_, escaped) :: cs => Ok (char_escape escaped, cs)
          | [] => Err (UnterminatedString start)
          end
        else Ok (ch, cs)
    end in
  match cs with
  | (_, c) :: cs => if bool_decide (c = SQ) then Ok (SQ ++ value ++ SQ, cs) else Err (UnterminatedString start)
  | [] => Err (UnterminatedString start)
  end.

(** The longest prefix of characters of a class. *)
Fixpoint read_class (f : byte -> bool) (cs : Chars) : bytes * Chars :=
  match cs with
  | (_, ch) :: rest => if ascii_class f ch then let '(s, rest) := read_class f rest in (ch ++ s, rest) else ([], cs)
  | [] => ([], [])
  end.
Definition read_ident (cs : Chars) : bytes * Chars := read_class ident_byte cs.

Definition SUFFIXES : list bytes :=
  [B "u8"; B "u32"; B "u64"; B "U8"; B "U32"; B "U64"; B "u"; B "U"; B "l"; B "L"; B "f"].
(** Without the first of the suffixes that fits, and without underscores. *)
Definition normalize (s : bytes) : bytes :=
  List.filter (fun b => negb (beqb b "_"%byte)) (default s (head (omap (fun suffix => strip_suffix suffix s) SUFFIXES))).
Definition number_token (s : bytes) : option Token :=
  let normalized := normalize s in
  if starts_with (B "0x") normalized || starts_with (B "0X") normalized
  then IntLit <$> parse_uint 16 (2 ^ 63 - 1) (drop 2 normalized)
  else if contains "."%byte normalized || contains "e"%byte normalized || contains "E"%byte normalized
  then FloatLit <$> parse_f64 normalized
  else IntLit <$> parse_uint 10 (2 ^ 63 - 1) normalized.
Definition read_number (start : Z) (cs : Chars) : res ParseError (Token * Chars) :=
  let '(s, rest) := read_class number_byte cs in
  let! t := ok_or (number_token s) (InvalidNumber s start) in Ok (t, rest).

(** ** Tokens *)

(** Characters that are a token whatever follows. *)
Definition SINGLES : list Token :=
  [At; Semi; Comma; Dot; Colon; LBrace; RBrace; LParen; RParen; LBracket; RBracket; Plus; Minus; Star; Percent; Caret; Tilde].
(** Characters that are a token, with the longer tokens that are tried first: the next character, and the token. *)
Definition DOUBLES : list (Token * list (string * Token)) :=
  [(Equals, [("=", EqEq)]); (LAngle, [("<", LAngleAngle); ("=", LessEqual)]); (RAngle, [(">", RAngleAngle); ("=", GreaterEqual)]);
   (Amp, [("&", AndAnd)]); (Pipe, [("|", OrOr)]); (Bang, [("=", NotEq)])]%string.

Definition longer (short : Token) (alts : list (string * Token)) (rest : Chars) : Token * Chars :=
  match find (fun '(c, _) => next_is c rest) alts with
  | Some (_, t) => (t, tail rest)
  | None => (short, rest)
  end.

Definition punctuation (ch : bytes) (rest : Chars) : option (Token * Chars) :=
  match find (fun t => bool_decide (symbol t = ch)) SINGLES with
  | Some t => Some (t, rest)
  | None =>
      match find (fun '(t, _) => bool_decide (symbol t = ch)) DOUBLES with
      | Some (t, alts) => Some (longer t alts rest)
      | None => None
      end
  end.

(** The token that starts with [ch] at [idx], which is neither white space nor a slash. *)
Definition next_token (idx : Z) (ch : bytes) (rest : Chars) : res ParseError (Token * Chars) :=
  match punctuation ch rest with
  | Some r => Ok r
  | None =>
      if bool_decide (ch = DQ) then let! '(s, rest) := read_string idx [] rest in Ok (StringLit s, rest)
      else if bool_decide (ch = SQ) then let! '(s, rest) := read_char idx rest in Ok (CharLit s, rest)
      else if ascii_class digit_byte ch then read_number idx ((idx, ch) :: rest)
      else if ascii_class ident_start ch then let '(s, rest) := read_ident ((idx, ch) :: rest) in Ok (Ident s, rest)
      else Err (UnexpectedChar ch idx)
  end.

(** A slash starts a comment; at the end of the input it is the operator, as the branch for operators comes after. *)
Fixpoint tokenize_go (fuel : nat) (input_len : Z) (cs : Chars) : res ParseError (list (Token * Z)) :=
  match cs, fuel with
  | [], _ => Ok [(Eof, input_len)]
  | _, O => Panic
  | (idx, ch) :: rest, S fuel =>
      if is_whitespace ch then tokenize_go fuel input_len rest
      else if is_char "/" ch then
        match rest with
        | [] => let! ts := tokenize_go fuel input_len [] in Ok ((Slash, idx) :: ts)
        | (_, next_ch) :: rest =>
            if is_char "/" next_ch then tokenize_go fuel input_len (skip_line rest)
            else if is_char "*" next_ch then
              match skip_block rest with
              | Some rest => tokenize_go fuel input_len rest
              | None => Err (UnterminatedComment idx)
              end
            else Err (UnexpectedChar ch idx)
        end
      else
        let! '(t, rest) := next_token idx ch rest in
        let! ts := tokenize_go fuel input_len rest in Ok ((t, idx) :: ts)
  end.
(** Every step takes a character. *)
Definition tokenize (input : bytes) : res ParseError (list (Token * Z)) :=
  tokenize_go (length (char_indices input)) (zlen input) (char_indices input).

Definition tokens_of (s : string) : res ParseError (list Token) := let! ts := tokenize (B s) in Ok (map fst ts).

Example lexed : tokens_of "interface IFoo { const int A = (1 << 4) | 0x1F; // x" =
  Ok [Ident (B "interface"); Ident (B "IFoo"); LBrace; Ident (B "const"); Ident (B "int"); Ident (B "A"); Equals; LParen; IntLit 1; LAngleAngle; IntLit 4;
      RParen; Pipe; IntLit 31; Semi; Eof].
Proof. vm_compute. reflexivity. Qed.

(** The suffix [f] is taken from a hexadecimal number too; a division is not lexed; a negative exponent is not part of a number. *)
Example lexed_badly :
  tokens_of "0xff" = Ok [IntLit 15; Eof] /\ tokens_of "0xf" = Err (InvalidNumber (B "0xf") 0) /\
  tokens_of "8 / 2" = Err (UnexpectedChar (B "/") 2) /\ tokens_of "1e-5" = Err (InvalidNumber (B "1e") 0) /\
  tokens_of "'\0'" = Ok [CharLit (B "'0'"); Eof].
Proof. vm_compute. done. Qed.
