(* ===== verification/AidlParser.v ===== *)
(** * The interface compiler: tokens to declarations

    [aidl-rs/src/ast.rs] and [Parser] of [aidl-rs/src/parser.rs]: the vector of tokens with a position, and every method as a
    function of that state ([M Parser ParseError]). A loop is bounded by a fuel, which [parse_file] takes from the
    number of tokens; running out of it is a panic, and AidlTotal shows that there is none. *)
From S2P Require Import Prelude Text Float64 AidlLexer Effects.

(** ** Declarations ([ast.rs]) *)
Record Annotation := mk_annotation { an_name : bytes; an_args : list (option bytes * bytes) }.

Inductive AidlType := mk_type { ty_name : bytes; generic_args : list AidlType; array_dimensions : nat; is_nullable : bool }.

Inductive Direction := DIn | DOut | DInOut.

Record AidlArg := mk_arg { arg_annotations : list Annotation; direction : option Direction; arg_ty : AidlType; arg_name : bytes }.
Record AidlMethod := mk_method {
  m_annotations : list Annotation; m_oneway : bool; return_type : AidlType; m_name : bytes; m_args : list AidlArg; m_id : option Z }.
Record AidlConstant := mk_constant { c_ty : AidlType; c_name : bytes; c_value : bytes }.
Record AidlInterface := mk_interface {
  i_annotations : list Annotation; i_oneway : bool; i_name : bytes; extends : option bytes; methods : list AidlMethod; constants : list AidlConstant }.
Record AidlField := mk_field { f_annotations : list Annotation; f_ty : AidlType; f_name : bytes; default_value : option bytes }.
Record AidlParcelable := mk_parcelable { p_annotations : list Annotation; p_name : bytes; cpp_header : option bytes; p_fields : list AidlField }.
Record EnumVariant := mk_variant { v_name : bytes; v_value : option bytes }.
Record AidlEnum := mk_enum { e_annotations : list Annotation; e_name : bytes; backing_type : option AidlType; variants : list EnumVariant }.
Record AidlUnion := mk_union { u_annotations : list Annotation; u_name : bytes; u_fields : list AidlField }.
Inductive AidlDecl := Interface (i : AidlInterface) | Parcelable (p : AidlParcelable) | Enum (e : AidlEnum) | Union (u : AidlUnion).
Record AidlFile := mk_file { package : option bytes; imports : list bytes; decls : list AidlDecl }.

Definition set_nullable (b : bool) (t : AidlType) : AidlType := mk_type (ty_name t) (generic_args t) (array_dimensions t) b.

(** ** The parser's state *)
Record Parser := mk_parser { tokens : list (Token * Z); pos : Z }.
Definition P (A : Type) : Type := M Parser ParseError A.

Definition panic {A} : P A := fun p => (p, Panic).
Definition set_pos (n : Z) (p : Parser) : Parser := mk_parser (tokens p) n.

Definition peek : P (Token * Z) := fun p =>
  (p, if pos p <? zlen (tokens p) then get_index (tokens p) (pos p) else get_index (tokens p) (zlen (tokens p) - 1)).
Definition step_pos : P unit := fun p => (if pos p <? zlen (tokens p) then set_pos (pos p + 1) p else p, Ok tt).
Definition advance : P (Token * Z) := do! tok := peek in do! _ := step_pos in ret tok.

Definition expected {A} (what : bytes) (found : Token * Z) : P A := fail (ExpectedToken what (description (fst found)) (snd found)).

Definition match_ident (word : bytes) : P bool :=
  do! t := peek in
  match fst t with
  | Ident s => if bool_decide (s = word) then do! _ := advance in ret true else ret false
  | _ => ret false
  end.
Definition expect_ident : P (bytes * Z) :=
  do! t := advance in
  match fst t with
  | Ident s => ret (s, snd t)
  | _ => expected (B "identifier") t
  end.
Definition expect_token (tok : Token) : P Z :=
  do! t := advance in if bool_decide (fst t = tok) then ret (snd t) else expected (description tok) t.

(** ** Loops *)

(** [while cond(peek) { item }]. *)
Fixpoint while_ {A} (fuel : nat) (cond : Token -> bool) (item : P A) : P (list A) :=
  match fuel with
  | O => panic
  | S fuel =>
      do! t := peek in
      if cond (fst t) then do! x := item in do! xs := while_ fuel cond item in ret (x :: xs) else ret []
  end.
(** [while peek != close { item; if peek is a comma { advance } else { break } }]. *)
Fixpoint comma_list {A} (fuel : nat) (close : Token) (item : P A) : P (list A) :=
  match fuel with
  | O => panic
  | S fuel =>
      do! t := peek in
      if bool_decide (fst t = close) then ret [] else
      do! x := item in
      do! t := peek in
      if bool_decide (fst t = Comma) then do! _ := advance in do! xs := comma_list fuel close item in ret (x :: xs)
      else ret [x]
  end.

Definition is_tok (t : Token) (x : Token) : bool := bool_decide (x = t).

(** ** Names and expressions *)
Definition parse_qualified_ident (fuel : nat) : P bytes :=
  do! '(name, _) := expect_ident in
  do! parts := while_ fuel (is_tok Dot) (do! _ := advance in do! '(part, _) := expect_ident in ret (B "." ++ part)) in
  ret (name ++ concat parts).

Definition operator_of (t : Token) : option (bytes * Z) :=
  match t with
  | OrOr => Some (B "||", 1) | AndAnd => Some (B "&&", 2) | Pipe => Some (B "|", 3) | Caret => Some (B "^", 4) | Amp => Some (B "&", 5)
  | EqEq => Some (B "==", 6) | NotEq => Some (B "!=", 6)
  | LAngle => Some (B "<", 7) | RAngle => Some (B ">", 7) | LessEqual => Some (B "<=", 7) | GreaterEqual => Some (B ">=", 7)
  | LAngleAngle => Some (B "<<", 8) | RAngleAngle => Some (B ">>", 8)
  | Plus => Some (B "+", 9) | Minus => Some (B "-", 9)
  | Star => Some (B "*", 10) | Slash => Some (B "/", 10) | Percent => Some (B "%", 10)
  | _ => None
  end.
Definition binary_operator : P (option (bytes * Z)) := do! t := peek in ret (operator_of (fst t)).

Definition parenthesized (value : bytes) : bytes :=
  if starts_with (B "(") value && ends_with (B ")") value then value else B "(" ++ value ++ B ")".

Fixpoint parse_expression_bp (fuel : nat) (min_precedence : Z) : P bytes :=
  match fuel with
  | O => panic
  | S fuel =>
      do! tok := advance in
      do! lhs :=
        match fst tok with
        | StringLit s => ret (DQ ++ s ++ DQ)
        | CharLit s => ret s
        | IntLit n => ret (fmt_int n)
        | FloatLit f => ret (f64_to_string f)
        | Ident s => ret s
        | Minus => do! v := parse_expression_bp fuel 10 in ret (B "-" ++ v)
        | Plus => do! v := parse_expression_bp fuel 10 in ret (B "+" ++ v)
        | Tilde => do! v := parse_expression_bp fuel 10 in ret (B "~" ++ v)
        | Bang => do! v := parse_expression_bp fuel 10 in ret (B "!" ++ v)
        | LParen => do! v := parse_expression_bp fuel 0 in do! _ := expect_token RParen in ret (parenthesized v)
        | _ => expected (B "constant expression operand") tok
        end in
      binary_loop fuel min_precedence lhs
  end
with binary_loop (fuel : nat) (min_precedence : Z) (lhs : bytes) : P bytes :=
  match fuel with
  | O => panic
  | S fuel =>
      do! op := binary_operator in
      match op with
      | None => ret lhs
      | Some (operator, precedence) =>
          if precedence <? min_precedence then ret lhs else
          do! _ := advance in
          do! rhs := parse_expression_bp fuel (precedence + 1) in
          binary_loop fuel min_precedence (B "(" ++ lhs ++ operator ++ rhs ++ B ")")
      end
  end.
Definition parse_expression_as_string (fuel : nat) : P bytes := parse_expression_bp fuel 0.

(** ** Annotations and types *)
Definition second_is_equals (p : Parser) : bool :=
  match tokens p !! Z.to_nat (pos p + 1) with Some (Equals, _) => true | _ => false end.

Definition annotation_key : P (option bytes) :=
  do! t := peek in
  match fst t with
  | Ident k => do! more := (fun p => (p, Ok (second_is_equals p))) in
               if more : bool then do! _ := advance in do! _ := advance in ret (Some k) else ret None
  | _ => ret None
  end.
Definition annotation_arg (fuel : nat) : P (option bytes * bytes) :=
  do! key := annotation_key in do! val := parse_expression_as_string fuel in ret (key, val).
Definition parse_annotation (fuel : nat) : P Annotation :=
  do! _ := advance in
  do! '(name, _) := expect_ident in
  do! t := peek in
  if bool_decide (fst t = LParen) then
    do! _ := advance in
    do! args := comma_list fuel RParen (annotation_arg fuel) in
    do! _ := expect_token RParen in
    ret (mk_annotation name args)
  else ret (mk_annotation name []).
Definition parse_annotations (fuel : nat) : P (list Annotation) := while_ fuel (is_tok At) (parse_annotation fuel).

Definition has_nullable (annos : list Annotation) : bool := existsb (fun a => bool_decide (an_name a = B "nullable")) annos.

Definition BUILTIN : list bytes :=
  B <$> ["void"; "boolean"; "byte"; "char"; "int"; "long"; "float"; "double"; "String"; "IBinder"]%string.

Fixpoint validate_type_shape (ty : AidlType) : res ParseError unit :=
  let '(mk_type name args dims _) := ty in
  let named w := bool_decide (name = B w) in
  let plain := Nat.eqb (length args) 0 in
  if named "void" && (negb (Nat.eqb dims 0) || negb plain) then Err (Custom (B "void cannot be an array or generic type") 0)
  else if bool_decide (name ∈ BUILTIN) && negb plain then Err (Custom (name ++ B " cannot have type arguments") 0)
  else if (named "List" || named "Map") && negb (if named "List" then Nat.eqb (length args) 1 else plain || Nat.eqb (length args) 2)
  then Err (Custom (name ++ B " requires " ++ (if named "List" then B "exactly 1" else B "0 or 2") ++ B " type arguments") 0)
  else if negb (named "List" || named "Map") && negb plain then Err (Custom (name ++ B " is not a generic AIDL type") 0)
  else (fix all (l : list AidlType) : res ParseError unit :=
          match l with [] => Ok tt | a :: l => let! _ := validate_type_shape a in all l end) args.

(** [>>] closes two lists: its second half is put back. *)
Definition expect_generic_close : P Z :=
  do! t := peek in
  match t with
  | (RAngleAngle, idx) =>
      do! _ := advance in
      do! _ := (fun p => if pos p <=? zlen (tokens p)
                         then (mk_parser (take (Z.to_nat (pos p)) (tokens p) ++ (RAngle, idx + 1) :: drop (Z.to_nat (pos p)) (tokens p)) (pos p), Ok tt)
                         else (p, Panic)) in
      ret idx
  | _ => expect_token RAngle
  end.

Fixpoint parse_type (fuel : nat) : P AidlType :=
  match fuel with
  | O => panic
  | S n =>
      do! annos := parse_annotations fuel in
      do! name := parse_qualified_ident fuel in
      do! t := peek in
      do! args :=
        (if bool_decide (fst t = LAngle) then
           do! _ := advance in
           do! args := comma_list n RAngle (parse_type n) in
           do! _ := expect_generic_close in
           ret args
         else ret []) in
      do! dims := while_ fuel (is_tok LBracket) (do! _ := advance in do! _ := expect_token RBracket in ret tt) in
      let ty := mk_type name args (length dims) (has_nullable annos) in
      do! _ := lift (validate_type_shape ty) in
      ret ty
  end.

(** ** Declarations *)
Definition parse_direction : P (option Direction) :=
  do! t := peek in
  match fst t with
  | Ident d =>
      if bool_decide (d = B "in") then do! _ := advance in ret (Some DIn)
      else if bool_decide (d = B "out") then do! _ := advance in ret (Some DOut)
      else if bool_decide (d = B "inout") then do! _ := advance in ret (Some DInOut)
      else ret None
  | _ => ret None
  end.
Definition parse_arg (fuel : nat) : P AidlArg :=
  do! annos := parse_annotations fuel in
  do! dir := parse_direction in
  do! ty := parse_type fuel in
  do! '(name, _) := expect_ident in
  ret (mk_arg annos dir ty name).

Definition parse_method_id : P (option Z) :=
  do! t := peek in
  if bool_decide (fst t = Equals) then
    do! _ := advance in
    do! t := advance in
    match fst t with
    | IntLit n => ret (Some (wrap 32 n))
    | _ => expected (B "integer transaction ID") t
    end
  else ret None.
Definition with_nullable (annos : list Annotation) (ty : AidlType) : AidlType := if has_nullable annos then set_nullable true ty else ty.

Definition parse_constant (fuel : nat) : P AidlConstant :=
  do! ty := parse_type fuel in
  do! '(name, _) := expect_ident in
  do! _ := expect_token Equals in
  do! val := parse_expression_as_string fuel in
  do! _ := expect_token Semi in
  ret (mk_constant ty name val).
Definition parse_method (fuel : nat) (oneway : bool) (annos : list Annotation) : P AidlMethod :=
  do! m := match_ident (B "oneway") in
  do! ty := parse_type fuel in
  do! '(name, _) := expect_ident in
  do! _ := expect_token LParen in
  do! args := comma_list fuel RParen (parse_arg fuel) in
  do! _ := expect_token RParen in
  do! id := parse_method_id in
  do! _ := expect_token Semi in
  ret (mk_method annos (oneway || m) (with_nullable annos ty) name args id).
(** A constant drops its annotations. *)
Definition parse_member (fuel : nat) (oneway : bool) : P (AidlConstant + AidlMethod) :=
  do! annos := parse_annotations fuel in
  do! is_const := match_ident (B "const") in
  if is_const : bool then do! c := parse_constant fuel in ret (inl c) else do! m := parse_method fuel oneway annos in ret (inr m).

Definition lefts {A C} (l : list (A + C)) : list A := omap (fun x => match x with inl a => Some a | inr _ => None end) l.
Definition rights {A C} (l : list (A + C)) : list C := omap (fun x => match x with inr c => Some c | inl _ => None end) l.
Definition not_tok (t : Token) (x : Token) : bool := negb (is_tok t x).

Definition parse_interface (fuel : nat) (annos : list Annotation) (oneway : bool) : P AidlInterface :=
  do! '(name, _) := expect_ident in
  do! ext := match_ident (B "extends") in
  do! parent := (if ext : bool then do! q := parse_qualified_ident fuel in ret (Some q) else ret None) in
  do! _ := expect_token LBrace in
  do! members := while_ fuel (not_tok RBrace) (parse_member fuel oneway) in
  do! _ := expect_token RBrace in
  ret (mk_interface annos oneway name parent (rights members) (lefts members)).

Definition parse_default (fuel : nat) : P (option bytes) :=
  do! t := peek in
  if bool_decide (fst t = Equals) then do! _ := advance in do! v := parse_expression_as_string fuel in ret (Some v) else ret None.
Definition parse_field (fuel : nat) : P AidlField :=
  do! annos := parse_annotations fuel in
  do! ty := parse_type fuel in
  do! '(name, _) := expect_ident in
  do! value := parse_default fuel in
  do! _ := expect_token Semi in
  ret (mk_field annos (with_nullable annos ty) name value).
Definition parse_cpp_header : P (option bytes) :=
  do! header := match_ident (B "cpp_header") in
  if header : bool then
    do! t := advance in
    match fst t with
    | StringLit h => ret (Some h)
    | _ => expected (B "string header path") t
    end
  else ret None.
Definition parse_parcelable (fuel : nat) (annos : list Annotation) : P AidlParcelable :=
  do! '(name, _) := expect_ident in
  do! header := parse_cpp_header in
  do! t := peek in
  if bool_decide (fst t = Semi) then do! _ := advance in ret (mk_parcelable annos name header [])
  else
    do! _ := expect_token LBrace in
    do! fields := while_ fuel (not_tok RBrace) (parse_field fuel) in
    do! _ := expect_token RBrace in
    ret (mk_parcelable annos name header fields).

Definition parse_variant (fuel : nat) : P EnumVariant :=
  do! '(name, _) := expect_ident in
  do! value := parse_default fuel in
  ret (mk_variant name value).
Definition parse_enum (fuel : nat) (annos : list Annotation) : P AidlEnum :=
  do! '(name, _) := expect_ident in
  do! _ := expect_token LBrace in
  do! vs := comma_list fuel RBrace (parse_variant fuel) in
  do! _ := expect_token RBrace in
  ret (mk_enum annos name None vs).

Definition parse_union_field (fuel : nat) : P AidlField :=
  do! annos := parse_annotations fuel in
  do! ty := parse_type fuel in
  do! '(name, _) := expect_ident in
  do! _ := expect_token Semi in
  ret (mk_field annos ty name None).
Definition parse_union (fuel : nat) (annos : list Annotation) : P AidlUnion :=
  do! '(name, _) := expect_ident in
  do! _ := expect_token LBrace in
  do! fields := while_ fuel (not_tok RBrace) (parse_union_field fuel) in
  do! _ := expect_token RBrace in
  ret (mk_union annos name fields).

Definition parse_decl (fuel : nat) : P AidlDecl :=
  do! annos := parse_annotations fuel in
  do! oneway := match_ident (B "oneway") in
  do! '(kind, idx) := expect_ident in
  if bool_decide (kind = B "interface") then do! i := parse_interface fuel annos oneway in ret (Interface i)
  else if bool_decide (kind = B "parcelable") then do! x := parse_parcelable fuel annos in ret (Parcelable x)
  else if bool_decide (kind = B "enum") then do! e := parse_enum fuel annos in ret (Enum e)
  else if bool_decide (kind = B "union") then do! u := parse_union fuel annos in ret (Union u)
  else fail (Custom (B "Unknown declaration type " ++ quoted kind) idx).

(** ** Files *)
Inductive Item := IPackage (name : bytes) | IImport (name : bytes) | IDecl (d : AidlDecl).

Definition parse_item (fuel : nat) : P Item :=
  do! pkg := match_ident (B "package") in
  if pkg : bool then do! q := parse_qualified_ident fuel in do! _ := expect_token Semi in ret (IPackage q) else
  do! imp := match_ident (B "import") in
  if imp : bool then do! q := parse_qualified_ident fuel in do! _ := expect_token Semi in ret (IImport q) else
  do! d := parse_decl fuel in ret (IDecl d).

(** A later package replaces an earlier one. *)
Definition add_item (f : AidlFile) (i : Item) : AidlFile :=
  match i with
  | IPackage n => mk_file (Some n) (imports f) (decls f)
  | IImport n => mk_file (package f) (imports f ++ [n]) (decls f)
  | IDecl d => mk_file (package f) (imports f) (decls f ++ [d])
  end.
Definition parse_file : P AidlFile := fun p =>
  let fuel := S (2 * length (tokens p)) in
  (do! items := while_ fuel (not_tok Eof) (parse_item fuel) in
   ret (fold_left add_item items (mk_file None [] []))) p.

Definition parse_str (input : bytes) : res ParseError AidlFile :=
  let! ts := tokenize input in snd (parse_file (mk_parser ts 0)).
(** [parse_aidl] of [lib.rs]. *)
Definition parse_aidl : bytes -> res ParseError AidlFile := parse_str.
