(* ===== verification/AidlTotal.v ===== *)
(** * The interface compiler: every input is decided

    Neither the lexer nor the parser of AidlLexer and AidlParser runs out of fuel or indexes out of range: for every text there is
    a declaration file or an error. The measure is the number of tokens that are left, where [>>] counts twice, since
    closing a list by it puts a token back. *)
From S2P Require Import Prelude Text Float64 AidlLexer AidlParser Effects.

(** ** The lexer *)
Lemma skip_line_length cs : (length (skip_line cs) <= length cs)%nat.
Proof. induction cs as [|[i c] cs IH]; [done|]. cbn [skip_line]. case_bool_decide; cbn [length]; lia. Qed.

Lemma skip_block_length cs cs' : skip_block cs = Some cs' -> (length cs' <= length cs)%nat.
Proof.
  induction cs as [|[i c] cs IH]; [done|]. cbn [skip_block]. destruct (_ && _); [intros [= <-]; destruct cs; cbn [tail length]; lia|].
  intros H%IH. cbn [length]. lia.
Qed.

Lemma read_string_length start s cs : match read_string start s cs with Ok (_, cs') => (length cs' <= length cs)%nat | Err _ => True | Panic => False end.
Proof.
  remember (length cs) as n eqn:En. revert s cs En. induction n as [n IH] using lt_wf_ind. intros s [|[i c] cs] ->; [done|]. cbn [read_string length].
  case_bool_decide; [lia|]. case_bool_decide.
  - destruct cs as [|[j e] cs]; [done|]. cbn [length]. specialize (IH (length cs) ltac:(cbn [length]; lia) (s ++ string_escape e) cs eq_refl).
    destruct (read_string _ _ _) as [[? ?]| |]; [lia|done|done].
  - specialize (IH (length cs) ltac:(cbn [length]; lia) (s ++ c) cs eq_refl). destruct (read_string _ _ _) as [[? ?]| |]; [lia|done|done].
Qed.

Lemma read_char_length start cs : match read_char start cs with Ok (_, cs') => (length cs' <= length cs)%nat | Err _ => True | Panic => False end.
Proof.
  unfold read_char. destruct cs as [|[i c] cs]; [done|]. case_bool_decide.
  - destruct cs as [|[j e] cs]; [done|]. cbn [res_bind]. destruct cs as [|[k q] cs]; [done|]. case_bool_decide; cbn [length]; [lia|done].
  - cbn [res_bind]. destruct cs as [|[k q] cs]; [done|]. case_bool_decide; cbn [length]; [lia|done].
Qed.

Lemma read_class_length f cs : (length (snd (read_class f cs)) <= length cs)%nat.
Proof.
  induction cs as [|[i c] cs IH]; [done|]. cbn [read_class]. destruct (ascii_class f c); [|done]. destruct (read_class f cs). cbn [snd length] in *. lia.
Qed.

Lemma read_class_first f i c cs : ascii_class f c = true -> (length (snd (read_class f ((i, c) :: cs))) <= length cs)%nat.
Proof. intros E. cbn [read_class]. rewrite E. pose proof (read_class_length f cs). by destruct (read_class f cs). Qed.

Lemma class_weaken (f g : byte -> bool) c : (forall b, f b = true -> g b = true) -> ascii_class f c = true -> ascii_class g c = true.
Proof. intros H. destruct c as [|b [|]]; cbn [ascii_class]; auto. Qed.

Lemma next_token_length idx ch rest : match next_token idx ch rest with Ok (_, cs) => (length cs <= length rest)%nat | Err _ => True | Panic => False end.
Proof.
  unfold next_token. destruct (punctuation ch rest) as [[t cs]|] eqn:E.
  - unfold punctuation, longer in E. destruct (find _ SINGLES); [by simplify_eq|]. destruct (find _ DOUBLES) as [[t' alts]|]; [|done].
    destruct (find _ alts) as [[? ?]|]; simplify_eq; [destruct rest; cbn [tail length]; lia|done].
  - case_bool_decide; [pose proof (read_string_length idx [] rest) as Hs; by destruct (read_string _ _ _) as [[? ?]| |]|].
    case_bool_decide; [pose proof (read_char_length idx rest) as Hs; by destruct (read_char _ _) as [[? ?]| |]|].
    destruct (ascii_class digit_byte ch) eqn:Ed.
    + unfold read_number. pose proof (read_class_first number_byte idx ch rest) as Hc. destruct (read_class _ _) as [s cs].
      destruct (number_token s); cbn [ok_or res_bind]; [|done]. apply Hc. revert Ed. apply class_weaken. intros b Hb. unfold number_byte, ident_byte. rewrite Hb.
      by destruct (alpha_byte b).
    + destruct (ascii_class ident_start ch) eqn:Ei; [|done]. unfold read_ident. pose proof (read_class_first ident_byte idx ch rest) as Hc.
      destruct (read_class _ _) as [s cs]. apply Hc. revert Ei. apply class_weaken. intros b. unfold ident_start, ident_byte. by destruct (alpha_byte b), (digit_byte b).
Qed.

Definition ends_eof (ts : list (Token * Z)) : Prop := exists i, list.last ts = Some (Eof, i).

Lemma tokenize_go_total fuel len cs : (length cs <= fuel)%nat ->
  match tokenize_go fuel len cs with Ok ts => ends_eof ts | Err _ => True | Panic => False end.
Proof.
  revert cs. induction fuel as [|fuel IH]; intros [|[i c] rest] Hl; cbn [length] in Hl; [by exists len|lia|by exists len|]. cbn [tokenize_go].
  assert (forall t cs, (length cs <= length rest)%nat ->
    match (let! ts := tokenize_go fuel len cs in Ok ((t, i) :: ts)) with Ok ts => ends_eof ts | Err _ => True | Panic => False end) as Hcons.
  { intros t cs Hc. specialize (IH cs ltac:(lia)). destruct (tokenize_go fuel len cs) as [ts| |]; [|done|done]. cbn [res_bind]. destruct IH as [j Hj].
    exists j. destruct ts; [done|]. by rewrite last_cons_cons. }
  destruct (is_whitespace c); [apply IH; lia|]. destruct (is_char "/" c).
  - destruct rest as [|[j d] rest]; [by apply Hcons|]. cbn [length] in Hl. destruct (is_char "/" d); [apply IH; pose proof (skip_line_length rest); lia|].
    destruct (is_char "*" d); [|done]. destruct (skip_block rest) as [cs|] eqn:E; [apply IH; apply skip_block_length in E; lia|done].
  - pose proof (next_token_length i c rest) as H. destruct (next_token i c rest) as [[t cs]| |]; [|done|done]. by apply Hcons.
Qed.

Lemma tokenize_total input : match tokenize input with Ok ts => ends_eof ts | Err _ => True | Panic => False end.
Proof. by apply tokenize_go_total. Qed.

(** ** What is left *)
Definition token_weight (t : Token * Z) : nat := if bool_decide (fst t = RAngleAngle) then 2 else 1.
Definition weight (ts : list (Token * Z)) : nat := sum_list (map token_weight ts).
Definition rest_of (p : Parser) : list (Token * Z) := drop (Z.to_nat (pos p)) (tokens p).
Definition left_of (p : Parser) : nat := weight (rest_of p).
Definition wfp (p : Parser) : Prop := 0 <= pos p <= zlen (tokens p) /\ ends_eof (tokens p).

(** From a state with at most [n] left, [m] gives a value or an error, and takes at least [d]. *)
Definition ends {A} (n d : nat) (m : P A) : Prop :=
  forall p, wfp p -> (left_of p <= n)%nat ->
  match m p with (p', Ok _) => wfp p' /\ (left_of p' + d <= n)%nat | (_, Err _) => True | (_, Panic) => False end.

Create HintDb ends_db.

Lemma decides_ret {A} n (a : A) : ends n 0 (ret a).
Proof. intros p Hp Hl. split; [done|lia]. Qed.

Lemma decides_fail {A} n d e : ends n d (@fail Parser ParseError A e).
Proof. done. Qed.

Lemma ends_weaken {A} n (m : P A) : ends n 1 m -> ends n 0 m.
Proof. intros H p Hp Hl. specialize (H p Hp Hl). destruct (m p) as [p' [| |]]; [|done|done]. split; [apply H|lia]. Qed.

Lemma decides_bind {A C} n d (m : P A) (k : A -> P C) : ends n 0 m -> (forall a, ends n d (k a)) -> ends n d (bind m k).
Proof.
  intros Hm Hk p Hp Hl. specialize (Hm p Hp Hl). unfold bind. destruct (m p) as [p' [a| |]]; [|done|done]. apply Hk; [apply Hm|lia].
Qed.

Lemma ends_take {A C} n (m : P A) (k : A -> P C) : ends n 1 m -> (forall a n', n = S n' -> ends n' 0 (k a)) -> ends n 1 (bind m k).
Proof.
  intros Hm Hk p Hp Hl. specialize (Hm p Hp Hl). unfold bind. destruct (m p) as [p' [a| |]]; [|done|done]. destruct n as [|n']; [lia|].
  specialize (Hk a n' eq_refl p' (proj1 Hm) ltac:(lia)). destruct (k a p') as [p'' [c| |]]; [|done|done]. split; [apply Hk|lia].
Qed.

Lemma ends_take0 {A C} n (m : P A) (k : A -> P C) : ends n 1 m -> (forall a n', n = S n' -> ends n' 0 (k a)) -> ends n 0 (bind m k).
Proof. intros Hm Hk. apply ends_weaken. by apply ends_take. Qed.

(** *** The state's operations *)
Lemma zlen_tokens p : wfp p -> 0 < zlen (tokens p).
Proof. intros [_ [i Hi]]. destruct (tokens p); [done|]. unfold zlen. cbn [length]. lia. Qed.

Lemma rest_cons p t : wfp p -> pos p < zlen (tokens p) -> tokens p !! Z.to_nat (pos p) = Some t ->
  rest_of p = t :: rest_of (set_pos (pos p + 1) p).
Proof.
  intros [Hr _] Hlt Ht. unfold rest_of, set_pos. cbn [tokens pos]. rewrite (drop_S _ _ _ Ht). by replace (Z.to_nat (pos p + 1)) with (S (Z.to_nat (pos p))) by lia.
Qed.

(** The token at the front, and whether it is followed by others. *)
Lemma peek_cases p : wfp p -> exists t, peek p = (p, Ok t) /\
  ((pos p < zlen (tokens p) /\ step_pos p = (set_pos (pos p + 1) p, Ok tt) /\ rest_of p = t :: rest_of (set_pos (pos p + 1) p)) \/
   (pos p = zlen (tokens p) /\ fst t = Eof /\ step_pos p = (p, Ok tt))).
Proof.
  intros Hp. pose proof (zlen_tokens p Hp) as Hz. pose proof Hp as [Hr [i Hi]]. unfold peek, step_pos. destruct (Z.ltb_spec (pos p) (zlen (tokens p))) as [H|H].
  - destruct (lookup_lt_is_Some_2 (tokens p) (Z.to_nat (pos p))) as [t Ht]; [unfold zlen in *; lia|].
    exists t. split.
    + unfold get_index. replace (0 <=? pos p) with true by (symmetry; apply Z.leb_le; lia). replace (pos p <? zlen (tokens p)) with true by (symmetry; apply Z.ltb_lt; lia).
      cbn [andb]. by rewrite Ht.
    + left. split_and!; [done|done|]. by apply rest_cons.
  - exists (Eof, i). split; [|right; split_and!; [lia|done|done]]. f_equal. rewrite last_lookup in Hi. unfold get_index.
    replace (0 <=? zlen (tokens p) - 1) with true by (symmetry; apply Z.leb_le; lia). replace (zlen (tokens p) - 1 <? zlen (tokens p)) with true by (symmetry; apply Z.ltb_lt; lia).
    cbn [andb]. replace (Z.to_nat (zlen (tokens p) - 1)) with (Nat.pred (length (tokens p))) by (unfold zlen; lia). by rewrite Hi.
Qed.

Lemma wfp_step p : wfp p -> pos p < zlen (tokens p) -> wfp (set_pos (pos p + 1) p).
Proof. intros [Hr He] H. split; [cbn; lia|done]. Qed.

Lemma weight_cons t ts : weight (t :: ts) = (token_weight t + weight ts)%nat.
Proof. done. Qed.

Lemma token_weight_pos t : (1 <= token_weight t)%nat.
Proof. unfold token_weight. case_bool_decide; lia. Qed.

Lemma ends_peek n : ends n 0 peek.
Proof. intros p Hp Hl. destruct (peek_cases p Hp) as (t & -> & _). split; [done|lia]. Qed.

(** Taking a token: it is the last one, or there is less left. *)
Lemma advance_cases p : wfp p -> exists t p', advance p = (p', Ok t) /\ wfp p' /\
  ((fst t = Eof /\ (left_of p' <= left_of p)%nat) \/ (left_of p = token_weight t + left_of p')%nat).
Proof.
  intros Hp. destruct (peek_cases p Hp) as (t & Hpk & [(Hlt & Hs & Hrest)|(Hpos & Ht & Hs)]).
  - exists t, (set_pos (pos p + 1) p). unfold advance, bind. rewrite Hpk, Hs. split_and!; [done|by apply wfp_step|]. right. unfold left_of. by rewrite Hrest.
  - exists t, p. unfold advance, bind. rewrite Hpk, Hs. split_and!; [done|done|]. left. by split.
Qed.

Lemma ends_advance n : ends n 0 advance.
Proof.
  intros p Hp Hl. destruct (advance_cases p Hp) as (t & p' & -> & Hp' & [[_ H]|H]); (split; [done|]); [lia|]. pose proof (token_weight_pos t). lia.
Qed.

Lemma ends_taken {A} n (k : Token * Z -> P A) :
  (forall t, fst t = Eof -> exists e, k t = fail e) -> (forall t n', fst t <> Eof -> n = S n' -> ends n' 0 (k t)) -> ends n 1 (bind advance k).
Proof.
  intros Hf Hk p Hp Hl. unfold bind. destruct (advance_cases p Hp) as (t & p' & -> & Hp' & H).
  destruct (decide (fst t = Eof)) as [He|He]; [by destruct (Hf t He) as [e ->]|]. destruct H as [[? _]|H]; [done|]. pose proof (token_weight_pos t).
  destruct n as [|n']; [lia|]. specialize (Hk t n' He eq_refl p' Hp' ltac:(lia)). destruct (k t p') as [p'' [a| |]]; [|done|done]. split; [apply Hk|lia].
Qed.

Lemma ends_expect_ident n : ends n 1 expect_ident.
Proof.
  apply ends_taken; [intros t E; rewrite E; by eexists|]. intros t n' Ht ->. destruct (fst t); try apply decides_fail. apply decides_ret.
Qed.

Lemma ends_expect_token n tok : tok <> Eof -> ends n 1 (expect_token tok).
Proof.
  intros Htok. apply ends_taken; [intros t E; rewrite E, bool_decide_eq_false_2 by congruence; by eexists|]. intros t n' _ ->.
  case_bool_decide; [apply decides_ret|apply decides_fail].
Qed.

Lemma decides_lift {A} n (r : res ParseError A) : r <> Panic -> ends n 0 (lift r).
Proof. intros H p Hp Hl. unfold lift. destruct r; [split; [done|lia]|done|done]. Qed.

Lemma ends_look {A} n (f : Parser -> A) : ends n 0 (fun p => (p, Ok (f p))).
Proof. intros p Hp Hl. split; [done|lia]. Qed.

#[export] Hint Resolve decides_ret decides_fail ends_peek ends_advance ends_expect_ident ends_look : ends_db.
#[export] Hint Extern 1 (ends _ 1 (expect_token _)) => (apply ends_expect_token; discriminate) : ends_db.
#[export] Hint Extern 3 (ends _ 0 _) => (apply ends_weaken; solve [eauto with ends_db]) : ends_db.

(** ** The parser *)
Lemma ends_while {A} fuel n cond (item : P A) :
  (n < fuel)%nat -> (forall n', (n' <= n)%nat -> ends n' 1 item) -> ends n 0 (while_ fuel cond item).
Proof.
  revert n. induction fuel as [|fuel IH]; intros n Hn Hi; [lia|]. cbn [while_]. apply decides_bind; [apply ends_peek|]. intros t.
  destruct (cond (fst t)); [|apply decides_ret]. eapply ends_take0; [by apply Hi|]. intros x n' ->. apply decides_bind; [|intros; apply decides_ret].
  apply IH; [lia|]. intros n'' Hn''. apply Hi. lia.
Qed.

Lemma ends_comma {A} fuel n close (item : P A) :
  (n < fuel)%nat -> (forall n', (n' <= n)%nat -> ends n' 1 item) -> ends n 0 (comma_list fuel close item).
Proof.
  revert n. induction fuel as [|fuel IH]; intros n Hn Hi; [lia|]. cbn [comma_list]. apply decides_bind; [apply ends_peek|]. intros t.
  case_bool_decide; [apply decides_ret|]. eapply ends_take0; [by apply Hi|]. intros x n' ->. apply decides_bind; [apply ends_peek|]. intros u.
  case_bool_decide; [|apply decides_ret]. apply decides_bind; [apply ends_advance|]. intros _. apply decides_bind; [|intros; apply decides_ret].
  apply IH; [lia|]. intros n'' Hn''. apply Hi. lia.
Qed.

(** Steps that take a token are used as such; after the first one the others need not. *)
Ltac ends_auto :=
  repeat match goal with
  | |- forall _, _ => intro
  | |- ends _ _ (let '(_, _) := ?x in _) => destruct x
  | |- ends _ _ (match ?x with _ => _ end) => destruct x
  | |- ends _ 1 (bind _ _) => first [eapply ends_take; [ends_leaf|] | eapply decides_bind; [ends_leaf|]]
  | |- ends _ 0 (bind _ _) => first [eapply ends_take0; [ends_leaf|] | eapply decides_bind; [ends_leaf|]]
  | |- ends _ _ _ => ends_leaf
  end
with ends_leaf :=
  first
    [ solve [eauto with ends_db]
    | apply ends_while; [lia|solve [ends_auto]]
    | apply ends_comma; [lia|solve [ends_auto]]
    | match goal with
      | |- ends _ _ (bind _ _) => solve [ends_auto]
      | |- ends _ _ (match _ with _ => _ end) => solve [ends_auto]
      end ].

Lemma ends_match_ident n w : ends n 0 (match_ident w).
Proof. unfold match_ident. ends_auto. Qed.

#[export] Hint Resolve ends_match_ident : ends_db.
#[export] Hint Extern 1 (_ < _)%nat => lia : ends_db.
#[export] Hint Extern 1 (_ <= _)%nat => lia : ends_db.

Lemma ends_qualified fuel n : (n < fuel)%nat -> ends n 1 (parse_qualified_ident fuel).
Proof. intros Hn. unfold parse_qualified_ident. ends_auto. Qed.

(** A token that is not the last one is taken, and there is less left after it. *)
Lemma peek_taken p t : wfp p -> peek p = (p, Ok t) -> fst t <> Eof ->
  exists p', advance p = (p', Ok t) /\ wfp p' /\ (left_of p' < left_of p)%nat.
Proof.
  intros Hp Hpk Ht. destruct (peek_cases p Hp) as (u & Hpu & [(Hlt & Hs & Hrest)|(_ & He & _)]); rewrite Hpk in Hpu; simplify_eq.
  exists (set_pos (pos p + 1) p). unfold advance, bind. rewrite Hpk, Hs. split_and!; [done|by apply wfp_step|].
  unfold left_of. rewrite Hrest, weight_cons. pose proof (token_weight_pos u). lia.
Qed.

Lemma ends_expression fuel : forall n, (n < fuel)%nat ->
  (forall q, ends n 1 (parse_expression_bp fuel q)) /\ (forall q lhs, ends n 0 (binary_loop fuel q lhs)).
Proof.
  induction fuel as [|fuel IH]; intros n Hn; [lia|]. split.
  - intros q. cbn [parse_expression_bp]. apply ends_taken; [intros t ->; by eexists|]. intros t n' _ ->. destruct (IH n' ltac:(lia)) as [Hb Hl].
    apply decides_bind; [|intros; apply Hl]. destruct (fst t); ends_auto.
  - intros q lhs p Hp Hl. cbn [binary_loop]. unfold binary_operator. destruct (peek_cases p Hp) as (t & Hpk & _).
    erewrite bind_ok; [|by erewrite bind_ok by exact Hpk]. cbn beta.
    destruct (operator_of (fst t)) as [[o r]|] eqn:Eo; [|by apply decides_ret]. destruct (r <? q); [by apply decides_ret|].
    destruct (peek_taken p t Hp Hpk) as (p' & Ha & Hp' & Hlt); [by intros He; rewrite He in Eo|]. erewrite bind_ok by exact Ha.
    destruct (IH (Nat.pred n) ltac:(lia)) as [Hb Hlp].
    assert (ends (Nat.pred n) 0 (do! rhs := parse_expression_bp fuel (r + 1) in binary_loop fuel q (B "(" ++ lhs ++ o ++ rhs ++ B ")"))) as Hx.
    { apply decides_bind; [apply ends_weaken, Hb|]. intros rhs. apply Hlp. }
    specialize (Hx p' Hp' ltac:(lia)). destruct (bind _ _ p') as [p'' [v| |]]; [|done|done]. split; [apply Hx|lia].
Qed.

Lemma ends_expr fuel n : (n < fuel)%nat -> ends n 1 (parse_expression_as_string fuel).
Proof. intros H. by apply (ends_expression fuel n H). Qed.
#[export] Hint Resolve ends_qualified ends_expr : ends_db.

Lemma ends_annotation_arg fuel n : (n < fuel)%nat -> ends n 1 (annotation_arg fuel).
Proof. intros H. unfold annotation_arg, annotation_key. ends_auto. Qed.
#[export] Hint Resolve ends_annotation_arg : ends_db.

Lemma ends_annotations fuel n : (n < fuel)%nat -> ends n 0 (parse_annotations fuel).
Proof. intros H. unfold parse_annotations, parse_annotation. ends_auto. Qed.
#[export] Hint Resolve ends_annotations : ends_db.

(** *** Types *)
Lemma type_ind_strong (Q : AidlType -> Prop) :
  (forall name args dims nullable, Forall Q args -> Q (mk_type name args dims nullable)) -> forall t, Q t.
Proof.
  intros H. fix IH 1. intros [name args dims nullable]. apply H. induction args as [|a args IHa]; constructor; [apply IH|apply IHa].
Qed.

Lemma validate_total t : validate_type_shape t <> Panic.
Proof.
  induction t as [name args dims nullable H] using type_ind_strong. cbn [validate_type_shape].
  repeat match goal with |- context [if ?b then Err _ else _] => destruct b; [done|] end.
  induction H as [|a args Ha Hargs IHa]; [done|]. destruct (validate_type_shape a); [apply IHa|done|done].
Qed.

(** The second half of [>>] is put back before the last token. *)
Lemma ends_generic_close n : ends n 1 expect_generic_close.
Proof.
  intros p Hp Hl. unfold expect_generic_close. destruct (peek_cases p Hp) as (t & Hpk & Hc). erewrite bind_ok by exact Hpk.
  destruct (decide (fst t = RAngleAngle)) as [Ht|Ht].
  - destruct t as [tk idx]. cbn [fst] in Ht. subst tk. destruct Hc as [(Hlt & Hs & Hrest)|(_ & He & _)]; [|done].
    assert (advance p = (set_pos (pos p + 1) p, Ok (RAngleAngle, idx))) as Ha by (unfold advance, bind; by rewrite Hpk, Hs).
    erewrite bind_ok by exact Ha. pose proof (wfp_step p Hp Hlt) as [Hr [i Hi]]. unfold bind, ret. cbn [pos set_pos tokens] in *.
    replace (pos p + 1 <=? zlen (tokens p)) with true by (symmetry; apply Z.leb_le; lia).
    set (q := Z.to_nat (pos p + 1)).
    assert (length (take q (tokens p)) = q) as Hq by (rewrite length_take; unfold zlen in Hr; lia).
    assert (weight (drop q (tokens p)) + 2 = left_of p)%nat as Hw by (unfold left_of; rewrite Hrest, weight_cons; change (token_weight (RAngleAngle, idx)) with 2%nat; unfold rest_of, q; cbn [pos tokens set_pos]; lia).
    split.
    + split; [cbn [pos tokens]; unfold zlen in *; rewrite length_app, length_take; cbn [length]; rewrite length_drop; lia|]. exists i. cbn [tokens]. rewrite last_app, last_cons.
      destruct (drop q (tokens p)) as [|x d] eqn:Ed.
      * exfalso. rewrite <- (take_drop q (tokens p)), Ed, app_nil_r in Hi.
        assert (q = S (Z.to_nat (pos p))) as Eq by (unfold q; destruct Hp as [[? ?] _]; lia).
        rewrite Eq in Hi. rewrite (take_S_r _ _ (RAngleAngle, idx)) in Hi; [by rewrite last_snoc in Hi|].
        unfold rest_of in Hrest. apply (f_equal (.!! 0%nat)) in Hrest. by rewrite lookup_drop, Nat.add_0_r in Hrest.
      * rewrite <- (take_drop q (tokens p)), Ed, last_app in Hi.
        destruct (list.last (x :: d)) eqn:El; [done|]. by apply last_None in El.
    + unfold left_of, rest_of. cbn [pos tokens]. fold q. rewrite drop_app_length' by done. rewrite weight_cons. change (token_weight (RAngle, idx + 1)) with 1%nat. lia.
  - assert (forall k, (match t with (RAngleAngle, idx) => k idx | _ => expect_token RAngle end) = expect_token RAngle) as -> by (destruct t as [[]]; done).
    by apply ends_expect_token.
Qed.
#[export] Hint Resolve ends_generic_close : ends_db.

Lemma ends_type fuel : forall n, (n < fuel)%nat -> ends n 1 (parse_type fuel).
Proof.
  induction fuel as [|fuel IH]; intros n Hn; [lia|]. cbn [parse_type]. apply decides_bind; [by apply ends_annotations|]. intros annos.
  eapply ends_take; [by apply ends_qualified|]. intros name n' ->. apply decides_bind; [apply ends_peek|]. intros t.
  apply decides_bind; [case_bool_decide; [|apply decides_ret]|].
  - apply decides_bind; [apply ends_advance|]. intros _. apply decides_bind; [|intros; ends_auto]. apply ends_comma; [lia|]. intros n'' Hn''. apply IH. lia.
  - intros args. apply decides_bind; [ends_auto|]. intros dims. apply decides_bind; [apply decides_lift, validate_total|intros; apply decides_ret].
Qed.
#[export] Hint Resolve ends_type : ends_db.

(** *** Declarations *)
Lemma ends_arg fuel n : (n < fuel)%nat -> ends n 1 (parse_arg fuel).
Proof. intros H. unfold parse_arg, parse_direction. ends_auto. Qed.
#[export] Hint Resolve ends_arg : ends_db.

Lemma ends_member fuel oneway n : (n < fuel)%nat -> ends n 1 (parse_member fuel oneway).
Proof. intros H. unfold parse_member, parse_constant, parse_method, parse_method_id. ends_auto. Qed.

Lemma ends_default fuel n : (n < fuel)%nat -> ends n 0 (parse_default fuel).
Proof. intros H. unfold parse_default. ends_auto. Qed.
#[export] Hint Resolve ends_member ends_default : ends_db.

Lemma ends_interface fuel annos oneway n : (n < fuel)%nat -> ends n 1 (parse_interface fuel annos oneway).
Proof. intros H. unfold parse_interface. ends_auto. Qed.

Lemma ends_parcelable fuel annos n : (n < fuel)%nat -> ends n 1 (parse_parcelable fuel annos).
Proof. intros H. unfold parse_parcelable, parse_cpp_header, parse_field. ends_auto. Qed.

Lemma ends_enum fuel annos n : (n < fuel)%nat -> ends n 1 (parse_enum fuel annos).
Proof. intros H. unfold parse_enum, parse_variant. ends_auto. Qed.

Lemma ends_union fuel annos n : (n < fuel)%nat -> ends n 1 (parse_union fuel annos).
Proof. intros H. unfold parse_union, parse_union_field. ends_auto. Qed.
#[export] Hint Resolve ends_interface ends_parcelable ends_enum ends_union : ends_db.

Lemma ends_item fuel n : (n < fuel)%nat -> ends n 1 (parse_item fuel).
Proof. intros H. unfold parse_item, parse_decl. ends_auto. Qed.

Lemma weight_length ts : (weight ts <= 2 * length ts)%nat.
Proof. induction ts as [|t ts IH]; [done|]. rewrite weight_cons. cbn [length]. unfold token_weight. case_bool_decide; lia. Qed.

(** Any tokens with an end are decided, from any position. *)
Lemma parse_file_total p : wfp p -> snd (parse_file p) <> Panic.
Proof.
  intros Hp. set (fuel := S (2 * length (tokens p))).
  assert (left_of p < fuel)%nat as Hl.
  { unfold left_of, fuel. pose proof (weight_length (rest_of p)). unfold rest_of in *. rewrite length_drop in *. lia. }
  assert (ends (left_of p) 0 (do! items := while_ fuel (not_tok Eof) (parse_item fuel) in ret (fold_left add_item items (mk_file None [] [])))) as H.
  { apply decides_bind; [|intros; apply decides_ret]. apply ends_while; [done|]. intros n' Hn'. apply ends_item. lia. }
  specialize (H p Hp ltac:(lia)). unfold parse_file. fold fuel. destruct (bind _ _ p) as [p' [f| |]]; done.
Qed.

(** C31: the interface compiler decides every text. For any bytes the lexer and the parser end, within the fuel that [parse_file]
    computes, without an index out of range, and give a file of declarations or an error. *)
Theorem aidl_parse_total input : (exists f, parse_aidl input = Ok f) \/ (exists e, parse_aidl input = Err e).
Proof.
  unfold parse_aidl, parse_str. pose proof (tokenize_total input) as H. destruct (tokenize input) as [ts| |]; [|right; by eexists|done]. cbn [res_bind].
  pose proof (parse_file_total (mk_parser ts 0)) as Hf. destruct (snd (parse_file _)) as [f| |]; [left; by eexists|right; by eexists|].
  exfalso. apply Hf; [|done]. split; [cbn [pos tokens]; unfold zlen; lia|done].
Qed.
