(* ===== verification/AidlText.v ===== *)
(** * The interface compiler: texts and their tokens

    Printing tokens, and that the lexer reads them back: a text is a list of words with a space between them, a word is a token or
    a constant expression without spaces. *)
From S2P Require Import Prelude Text Float64 AidlLexer AidlParser.

(** ** Expressions *)

(** A constant expression, as the parser groups it: [EPar] are parentheses of the source. *)
Inductive expr :=
| EInt (n : Z) | EFloat (f : f64) | EName (s : bytes) | EString (s : bytes) | EChar (s : bytes)
| EUn (o : Token) (e : expr) | EBin (o : Token) (l r : expr) | EPar (e : expr).

(** The text that the parser keeps: every binary operation in parentheses. *)
Fixpoint show (e : expr) : bytes :=
  match e with
  | EInt n => fmt_int n
  | EFloat f => f64_to_string f
  | EName s => s
  | EString s => DQ ++ s ++ DQ
  | EChar s => s
  | EUn o e => symbol o ++ show e
  | EBin o l r => B "(" ++ show l ++ symbol o ++ show r ++ B ")"
  | EPar e => parenthesized (show e)
  end.

Definition grouped (e : expr) : bool := match e with EBin _ _ _ | EPar _ => true | _ => false end.

(** The tokens of [show e]. *)
Fixpoint expr_tokens (e : expr) : list Token :=
  match e with
  | EInt n => [IntLit n]
  | EFloat f => [FloatLit f]
  | EName s => [Ident s]
  | EString s => [StringLit s]
  | EChar s => [CharLit s]
  | EUn o e => o :: expr_tokens e
  | EBin o l r => LParen :: expr_tokens l ++ o :: expr_tokens r ++ [RParen]
  | EPar e => if grouped e then expr_tokens e else LParen :: expr_tokens e ++ [RParen]
  end.

Definition is_ident (s : bytes) : bool := match s with b :: t => ident_start b && forallb ident_byte t | [] => false end.
Definition ascii_byte (b : byte) : bool := b2z b <? 128.
Definition raw_byte (b : byte) : bool := ascii_byte b && negb (beqb b x22) && negb (beqb b x5c).
(** A character in quotes. *)
Definition is_char_text (s : bytes) : bool :=
  match s with [q; b; r] => beqb q x27 && beqb r x27 && ascii_byte b && negb (beqb b x5c) | _ => false end.
Definition is_unary (o : Token) : bool := match o with Minus | Plus | Tilde | Bang => true | _ => false end.
Definition is_binary (o : Token) : bool := match operator_of o with Some _ => true | None => false end.
Definition multiplicative (o : Token) : bool := match o with Star | Slash | Percent => true | _ => false end.

(** A number that the lexer reads back. *)
Definition number_text (s : bytes) (t : Token) : bool :=
  match s with b :: _ => digit_byte b && forallb number_byte s && bool_decide (number_token s = Some t) | [] => false end.

(** Expressions whose text is read back: the first operand of a multiplication is not a sign, which would take the whole
    product, and there is no division, which is not lexed. *)
Fixpoint wf_expr (e : expr) : bool :=
  match e with
  | EInt n => (0 <=? n) && (n <? 2 ^ 63)
  | EFloat f => number_text (f64_to_string f) (FloatLit f)
  | EName s => is_ident s
  | EString s => forallb raw_byte s
  | EChar s => is_char_text s
  | EUn o e => is_unary o && wf_expr e
  | EBin o l r => is_binary o && negb (bool_decide (o = Slash)) && negb (multiplicative o && match l with EUn _ _ => true | _ => false end) && wf_expr l && wf_expr r
  | EPar e => wf_expr e
  end.

(** ** Words *)
Inductive word := W (t : Token) | V (v : bytes).

(** The text of an expression, and its tokens. *)
Definition is_value (v : bytes) : Prop := exists e, wf_expr e = true /\ v = show e.
Definition value_tokens (v : bytes) : list Token := match tokenize v with Ok ts => removelast (map fst ts) | _ => [] end.

Definition escape_byte (b : byte) : bytes := if beqb b x22 || beqb b x5c then [x5c; b] else [b].
Definition token_text (t : Token) : bytes :=
  match t with
  | Ident s => s
  | StringLit s => DQ ++ concat (map escape_byte s) ++ DQ
  | IntLit n => fmt_int n
  | t => symbol t
  end.
Definition word_text (w : word) : bytes := match w with W t => token_text t | V v => v end.
Definition word_tokens (w : word) : list Token := match w with W t => [t] | V v => value_tokens v end.

Definition wf_token (t : Token) : bool :=
  match t with
  | Ident s => is_ident s
  | StringLit s => forallb ascii_byte s
  | IntLit n => (0 <=? n) && (n <? 2 ^ 63)
  | CharLit _ | FloatLit _ | Slash | Eof => false
  | _ => true
  end.
Definition wf_word (w : word) : Prop := match w with W t => wf_token t = true | V v => is_value v end.

Definition text (ws : list word) : bytes := join (B " ") (map word_text ws).
Definition word_toks (ws : list word) : list Token := concat (map word_tokens ws).

(** ** Characters *)
Fixpoint chars_from (off : Z) (s : bytes) : Chars :=
  match s with [] => [] | b :: t => (off, [b]) :: chars_from (off + 1) t end.

Lemma chars_from_app off s t : chars_from off (s ++ t) = chars_from off s ++ chars_from (off + zlen s) t.
Proof.
  revert off. induction s as [|b s IH]; intros off; cbn [app chars_from]; [by rewrite Z.add_0_r|]. rewrite IH. unfold zlen. cbn [length].
  by replace (off + 1 + Z.of_nat (length s)) with (off + Z.of_nat (S (length s))) by lia.
Qed.

Lemma char_indices_ascii fuel off s : (length s <= fuel)%nat -> ascii s -> char_indices_go fuel off s = chars_from off s.
Proof.
  revert off s. induction fuel as [|fuel IH]; intros off [|b s] Hl Ha; cbn [length] in Hl; [done|lia|done|]. inversion Ha as [|? ? Hb Hs]. subst.
  cbn [char_indices_go chars_from]. unfold utf8_head, in_rng. pose proof (b2z_range b).
  replace ((0 <=? b2z b) && (b2z b <=? 127)) with true by (symmetry; apply andb_true_iff; split; apply Z.leb_le; lia).
  change (drop 1 (b :: s)) with s. rewrite IH; [done|lia|done].
Qed.

(** ** Lexing *)
Definition lexes (cs : Chars) (ks : list Token) : Prop :=
  forall fuel len, (length cs <= fuel)%nat -> exists ts, tokenize_go fuel len cs = Ok ts /\ map fst ts = ks ++ [Eof].

Lemma lexes_nil : lexes [] [].
Proof. intros [|fuel] len _; by eexists. Qed.

Lemma lexes_space off cs ks : lexes cs ks -> lexes ((off, B " ") :: cs) ks.
Proof. intros H [|fuel] len Hl; cbn [length] in Hl; [lia|]. cbn [tokenize_go]. change (is_whitespace (B " ")) with true. apply H. lia. Qed.

Lemma lexes_cons off b rest t rest' ks :
  is_whitespace [b] = false -> is_char "/" [b] = false -> next_token off [b] rest = Ok (t, rest') -> (length rest' <= length rest)%nat ->
  lexes rest' ks -> lexes ((off, [b]) :: rest) (t :: ks).
Proof.
  intros Hw Hs Hn Hl H [|fuel] len Hf; cbn [length] in Hf; [lia|]. cbn [tokenize_go]. rewrite Hw, Hs, Hn. cbn [res_bind].
  destruct (H fuel len ltac:(lia)) as (ts & -> & Hts). eexists. split; [done|]. cbn [map fst app]. by rewrite Hts.
Qed.

(** The text [s] is lexed as [ks] before what [C] allows. *)
Definition piece (C : Chars -> Prop) (s : bytes) (ks : list Token) : Prop :=
  forall off rest ks', C rest -> lexes rest ks' -> lexes (chars_from off s ++ rest) (ks ++ ks').

Lemma piece_app (C1 C : Chars -> Prop) s1 s2 k1 k2 :
  piece C1 s1 k1 -> piece C s2 k2 -> (forall off rest, C rest -> C1 (chars_from off s2 ++ rest)) -> piece C (s1 ++ s2) (k1 ++ k2).
Proof.
  intros H1 H2 Hc off rest ks' Hr Hl. rewrite chars_from_app, <- !app_assoc. apply H1; [by apply Hc|]. by apply H2.
Qed.

Lemma piece_weaken (C C' : Chars -> Prop) s ks : (forall rest, C' rest -> C rest) -> piece C s ks -> piece C' s ks.
Proof. intros H Hp off rest ks' Hr. apply Hp. by apply H. Qed.

(** The next character, if there is one, is not of a class. *)
Definition stops (f : byte -> bool) (cs : Chars) : Prop := match cs with (_, ch) :: _ => ascii_class f ch = false | [] => True end.
(** What may follow a name or a number, and what may follow an operator. *)
Definition atom_end : Chars -> Prop := stops number_byte.
Definition op_byte (b : byte) : bool := bool_decide (b ∈ B "=<>&|").
Definition op_end : Chars -> Prop := stops op_byte.

Lemma next_is_stop c b cs : B c = [b] -> op_byte b = true -> op_end cs -> next_is c cs = false.
Proof.
  intros Hc Hb. destruct cs as [|[i ch] cs]; [done|]. cbn [next_is op_end stops]. unfold is_char. rewrite Hc. intros Hs. apply bool_decide_eq_false_2.
  intros ->. cbn [ascii_class] in Hs. congruence.
Qed.

(** *** Symbols *)
Definition is_symbol (t : Token) : bool := match t with Ident _ | StringLit _ | CharLit _ | IntLit _ | FloatLit _ | Slash | Eof => false | _ => true end.

Lemma piece_symbol t : is_symbol t = true -> piece op_end (symbol t) [t].
Proof.
  intros Ht off rest ks' Hr Hl.
  assert (next_is "=" rest = false /\ next_is "<" rest = false /\ next_is ">" rest = false /\ next_is "&" rest = false /\ next_is "|" rest = false)
    as (E1 & E2 & E3 & E4 & E5).
  { split_and!; by eapply next_is_stop. }
  destruct t; try discriminate Ht; cbn [symbol app]; (eapply lexes_cons; [reflexivity|reflexivity| | |exact Hl]);
    first [lia | lazy -[next_is]; rewrite ?E1, ?E2, ?E3, ?E4, ?E5; reflexivity | cbn [chars_from app length]; lia].
Qed.

(** *** Names and numbers *)
Lemma read_class_all f off s rest : forallb f s = true -> stops f rest -> read_class f (chars_from off s ++ rest) = (s, rest).
Proof.
  revert off. induction s as [|b s IH]; intros off Hs Hr; cbn [chars_from app read_class].
  - destruct rest as [|[i ch] rest]; [done|]. cbn [stops] in Hr. by cbn [read_class]; rewrite Hr.
  - cbn [forallb] in Hs. apply andb_true_iff in Hs as [Hb Hs]. cbn [ascii_class]. rewrite Hb, (IH _ Hs Hr). done.
Qed.

Lemma stops_weaken f g cs : (forall b, f b = true -> g b = true) -> stops g cs -> stops f cs.
Proof.
  intros H. destruct cs as [|[i ch] cs]; [done|]. cbn [stops]. destruct ch as [|b [|]]; [done| |done]. cbn [ascii_class]. destruct (f b) eqn:E; [|done].
  by rewrite (H _ E).
Qed.

Lemma ident_number b : ident_byte b = true -> number_byte b = true.
Proof. unfold number_byte. by intros ->. Qed.

(** What is known of the first byte of a name or a number. *)
Lemma byte_cases (Q : byte -> bool) : forallb Q (map (fun n => z2b (Z.of_nat n)) (seq 0 256)) = true -> forall b, Q b = true.
Proof.
  intros H b. rewrite forallb_forall in H. apply H. apply in_map_iff. exists (Z.to_nat (b2z b)). pose proof (b2z_range b). split.
  - rewrite Z2Nat.id by lia. apply z2b_b2z.
  - apply in_seq. lia.
Qed.

(** A byte that starts neither white space, nor a comment, nor a symbol, nor a literal in quotes. *)
Definition opens_word (b : byte) : bool :=
  negb (is_whitespace [b]) && negb (is_char "/" [b])
  && match find (fun t => bool_decide (symbol t = [b])) SINGLES with None => true | _ => false end
  && match find (fun '(t, _) => bool_decide (symbol t = [b])) DOUBLES with None => true | _ => false end
  && negb (bool_decide ([b] = DQ)) && negb (bool_decide ([b] = SQ)).

Lemma opens_word_spec b : opens_word b = true ->
  is_whitespace [b] = false /\ is_char "/" [b] = false /\ (forall rest, punctuation [b] rest = None) /\ [b] <> DQ /\ [b] <> SQ.
Proof.
  unfold opens_word. rewrite !andb_true_iff, !negb_true_iff, !bool_decide_eq_false. intros Hb. destruct_and!.
  split_and!; try done. intros rest. unfold punctuation. destruct (find _ SINGLES); [done|]. by destruct (find _ DOUBLES).
Qed.

Definition ident_front_ok (b : byte) : bool := negb (ident_start b) || (opens_word b && negb (digit_byte b) && ident_byte b).
Definition digit_front_ok (b : byte) : bool := negb (digit_byte b) || opens_word b.

Lemma ident_front b : ident_start b = true -> opens_word b = true /\ digit_byte b = false /\ ident_byte b = true.
Proof.
  intros H. pose proof (byte_cases ident_front_ok ltac:(vm_compute; reflexivity) b) as Hb. unfold ident_front_ok in Hb. rewrite H in Hb. cbn [negb orb] in Hb.
  rewrite !andb_true_iff, negb_true_iff in Hb. tauto.
Qed.

Lemma digit_front b : digit_byte b = true -> opens_word b = true.
Proof. intros H. pose proof (byte_cases digit_front_ok ltac:(vm_compute; reflexivity) b) as Hb. unfold digit_front_ok in Hb. by rewrite H in Hb. Qed.

Lemma piece_ident s : is_ident s = true -> piece atom_end s [Ident s].
Proof.
  intros Hs off rest ks' Hr Hl. destruct s as [|b s]; [done|]. apply andb_true_iff in Hs as [Hb Hs]. destruct (ident_front b Hb) as ((Hw & Hc & Hp & Hd & Hq)%opens_word_spec & Hn & Hi).
  cbn [chars_from app]. eapply lexes_cons; [done|done| | |exact Hl]; [|rewrite length_app; lia].
  unfold next_token. rewrite Hp, !bool_decide_eq_false_2 by done. cbn [ascii_class]. rewrite Hn, Hb. unfold read_ident.
  change ((off, [b]) :: chars_from (off + 1) s ++ rest) with (chars_from off (b :: s) ++ rest).
  rewrite read_class_all; [done|by cbn [forallb]; rewrite Hi, Hs|]. revert Hr. apply stops_weaken, ident_number.
Qed.

Lemma piece_number s t : number_text s t = true -> piece atom_end s [t].
Proof.
  intros Hs off rest ks' Hr Hl. destruct s as [|b s]; [done|]. cbn [number_text] in Hs. rewrite !andb_true_iff, bool_decide_eq_true in Hs. destruct Hs as [[Hb Hs] Ht].
  destruct (opens_word_spec b (digit_front b Hb)) as (Hw & Hc & Hp & Hd & Hq).
  cbn [chars_from app]. eapply lexes_cons; [done|done| | |exact Hl]; [|rewrite length_app; lia].
  unfold next_token. rewrite Hp, !bool_decide_eq_false_2 by done. cbn [ascii_class]. rewrite Hb. unfold read_number.
  change ((off, [b]) :: chars_from (off + 1) s ++ rest) with (chars_from off (b :: s) ++ rest). rewrite read_class_all by done. by rewrite Ht.
Qed.

Lemma digits_no_suffix s p : forallb digit_byte s = true -> forallb digit_byte p = false -> strip_suffix p s = None.
Proof.
  intros Hs Hp. unfold strip_suffix. destruct (ends_with p s) eqn:E; [|done]. apply ends_with_inv in E as [t ->]. rewrite forallb_app, Hp, andb_false_r in Hs. done.
Qed.

Lemma fmt_dec_digits n : forallb digit_byte (fmt_dec n) = true.
Proof.
  apply forallb_forall, List.Forall_forall. apply digits_go_Forall; [lia| |constructor]. intros d Hd. unfold digit_char, digit_byte, in_rng.
  replace (d <? 10) with true by (symmetry; apply Z.ltb_lt; lia). rewrite b2z_z2b, Z.mod_small by lia. apply andb_true_iff. split; apply Z.leb_le; lia.
Qed.

Lemma int_text n : 0 <= n < 2 ^ 63 -> number_text (fmt_int n) (IntLit n) = true.
Proof.
  intros Hn. unfold fmt_int. replace (n <? 0) with false by (symmetry; apply Z.ltb_ge; lia). pose proof (fmt_dec_digits n) as Hd.
  destruct (fmt_dec n) as [|b s] eqn:E; [by apply digits_go_nonempty in E|]. rewrite <- E in *. unfold number_text. rewrite E. rewrite <- E.
  assert (digit_byte b = true) as -> by (rewrite E in Hd; by apply andb_true_iff in Hd as [? _]).
  assert (forall c, digit_byte c = false -> contains c (fmt_dec n) = false) as Hc.
  { intros c Hc. apply contains_false. intros Hin. rewrite forallb_forall in Hd. apply list_elem_of_In, Hd in Hin. congruence. }
  assert (normalize (fmt_dec n) = fmt_dec n) as Hnorm.
  { unfold normalize. assert (omap (fun suffix => strip_suffix suffix (fmt_dec n)) SUFFIXES = []) as ->.
    { unfold SUFFIXES. cbn [omap list_omap]. by rewrite !digits_no_suffix by done. }
    cbn [head default]. rewrite forallb_forall in Hd. clear -Hd. induction (fmt_dec n) as [|c l IH]; [done|]. cbn [List.filter].
    destruct (beqb c "_"%byte) eqn:Ec; [apply beqb_true in Ec as ->; by specialize (Hd "_"%byte (or_introl eq_refl))|]. cbn [negb]. rewrite IH; [done|].
    intros x Hx. apply Hd. by right. }
  apply andb_true_iff. split.
  - cbn [andb]. rewrite forallb_forall in Hd. apply forallb_forall. intros c Hin. apply Hd in Hin. unfold number_byte, ident_byte. rewrite Hin. by destruct (alpha_byte c).
  - apply bool_decide_eq_true. unfold number_token. rewrite Hnorm.
    assert (forall c, digit_byte c = false -> starts_with ["0"%byte; c] (fmt_dec n) = false) as Hx.
    { intros c Hcd. destruct (starts_with _ _) eqn:Es; [|done]. apply starts_with_inv in Es as [t Et]. specialize (Hc c Hcd). apply contains_false in Hc.
      exfalso. apply Hc. rewrite Et. set_solver. }
    change (B "0x") with ["0"%byte; "x"%byte]. change (B "0X") with ["0"%byte; "X"%byte]. rewrite (Hx "x"%byte), (Hx "X"%byte), !Hc by done. cbn [orb]. by rewrite parse_fmt_dec by lia.
Qed.

(** *** Quoted texts *)
Lemma read_string_raw start acc off s rest : forallb raw_byte s = true ->
  read_string start acc (chars_from off (s ++ DQ) ++ rest) = Ok (acc ++ s, rest).
Proof.
  revert acc off. induction s as [|b s IH]; intros acc off Hs; cbn [app chars_from read_string]; [by rewrite app_nil_r|].
  cbn [forallb] in Hs. apply andb_true_iff in Hs as [Hb Hs]. unfold raw_byte in Hb. rewrite !andb_true_iff, !negb_true_iff, !beqb_false in Hb. destruct Hb as [[_ H1] H2].
  unfold DQ, BS. rewrite !bool_decide_eq_false_2 by congruence. fold DQ. rewrite IH by done. by rewrite <- app_assoc.
Qed.

Lemma read_string_escaped start acc off s rest :
  read_string start acc (chars_from off (concat (map escape_byte s) ++ DQ) ++ rest) = Ok (acc ++ s, rest).
Proof.
  revert acc off. induction s as [|b s IH]; intros acc off; cbn [map concat app chars_from]; [by rewrite app_nil_r|].
  unfold escape_byte at 1. destruct (beqb b x22 || beqb b x5c) eqn:E; cbn [app chars_from read_string].
  - change (bool_decide ([x5c] = DQ)) with false. change (bool_decide ([x5c] = BS)) with true. cbv iota. rewrite IH.
    apply orb_true_iff in E as [E|E]; apply beqb_true in E as ->; by rewrite <- app_assoc.
  - apply orb_false_iff in E as [H1 H2]. rewrite beqb_false in H1, H2. unfold DQ, BS. rewrite !bool_decide_eq_false_2 by congruence. fold DQ. rewrite IH. by rewrite <- app_assoc.
Qed.

Lemma piece_quoted C inner s : (forall start off rest, read_string start [] (chars_from off (inner ++ DQ) ++ rest) = Ok (s, rest)) ->
  piece C (DQ ++ inner ++ DQ) [StringLit s].
Proof.
  intros H off rest ks' _ Hl. cbn [app DQ chars_from]. eapply lexes_cons; [reflexivity|reflexivity| | |exact Hl].
  - unfold next_token. change (punctuation [x22] _) with (@None (Token * Chars)). change (bool_decide ([x22] = DQ)) with true. cbv iota. by rewrite H.
  - rewrite length_app. lia.
Qed.

Lemma char_text s : is_char_text s = true -> exists b, s = SQ ++ [b] ++ SQ /\ b2z b < 128 /\ b <> x5c.
Proof.
  destruct s as [|q [|b [|r []]]]; try done. cbn [is_char_text]. rewrite !andb_true_iff, !beqb_true, negb_true_iff, beqb_false. intros [[[-> ->] Ha] Hb].
  exists b. split_and!; [done|by apply Z.ltb_lt|done].
Qed.

Lemma piece_char C s : is_char_text s = true -> piece C s [CharLit s].
Proof.
  intros (b & -> & _ & Hb)%char_text off rest ks' _ Hl. cbn [app SQ chars_from]. eapply lexes_cons; [reflexivity|reflexivity| | |exact Hl].
  - unfold next_token. change (punctuation [x27] _) with (@None (Token * Chars)). change (bool_decide ([x27] = DQ)) with false. change (bool_decide ([x27] = SQ)) with true. cbv iota.
    unfold read_char, BS. rewrite bool_decide_eq_false_2 by congruence. reflexivity.
  - cbn [length]. lia.
Qed.

(** *** Expressions *)
Definition paren : byte := "("%byte.
Lemma parenthesized_in m : parenthesized (B "(" ++ m ++ B ")") = B "(" ++ m ++ B ")".
Proof. unfold parenthesized. rewrite starts_with_app, app_assoc, ends_with_app. done. Qed.

Lemma parenthesized_out s : match s with b :: _ => b <> paren | [] => True end -> parenthesized s = B "(" ++ s ++ B ")".
Proof.
  intros H. unfold parenthesized. destruct (starts_with (B "(") s) eqn:E; [|done]. apply starts_with_inv in E as [t ->]. by destruct H.
Qed.

Lemma show_grouped e : grouped e = true -> exists m, show e = B "(" ++ m ++ B ")".
Proof.
  induction e as [| | | | | |o l IHl r IHr|e IH]; intros H; try discriminate H; cbn [show].
  - exists (show l ++ symbol o ++ show r). by rewrite <- !app_assoc.
  - destruct (grouped e) eqn:Eg.
    + destruct (IH eq_refl) as [m ->]. exists m. apply parenthesized_in.
    + unfold parenthesized. destruct (starts_with _ _ && ends_with _ _) eqn:E; [|by eexists]. apply andb_true_iff in E as [Es Ee].
      apply starts_with_inv in Es as [t Et]. apply ends_with_inv in Ee as [u Eu]. rewrite Et in Eu |- *. destruct u as [|c u]; [by destruct t|].
      exists u. injection Eu as <- ->. done.
Qed.

(** The first byte of an operand. *)
Definition operand_front (g : bool) (b : byte) : Prop := op_byte b = false /\ (b = paren <-> g = true).

Definition front_word_ok (b : byte) : bool := negb (ident_start b || digit_byte b) || (negb (op_byte b) && negb (beqb b paren)).
Lemma front_word b : ident_start b || digit_byte b = true -> operand_front false b.
Proof.
  intros H. pose proof (byte_cases front_word_ok ltac:(vm_compute; reflexivity) b) as Hb. unfold front_word_ok in Hb. rewrite H in Hb. cbn [negb orb] in Hb.
  rewrite andb_true_iff, !negb_true_iff, beqb_false in Hb. destruct Hb as [H1 H2]. split; [done|]. split; [done|discriminate].
Qed.

Lemma number_front s t : number_text s t = true -> exists b u, s = b :: u /\ digit_byte b = true.
Proof. destruct s as [|b u]; [done|]. cbn [number_text]. rewrite !andb_true_iff. intros [[Hb _] _]. eauto. Qed.

Lemma int_front n : 0 <= n < 2 ^ 63 -> exists b u, fmt_int n = b :: u /\ digit_byte b = true.
Proof. intros Hn. apply (number_front _ (IntLit n)), int_text, Hn. Qed.

Lemma show_front e : wf_expr e = true -> exists b t, show e = b :: t /\ operand_front (grouped e) b.
Proof.
  intros He. destruct (grouped e) eqn:Eg; [destruct (show_grouped e Eg) as [m ->]; by exists paren, (m ++ B ")")|].
  destruct e as [n|f|s|s|s|o e|o l r|e]; try discriminate Eg; cbn [wf_expr show] in *.
  - destruct (int_front n ltac:(lia)) as (b & t & -> & Hb). exists b, t. split; [done|]. apply front_word. by rewrite Hb, orb_true_r.
  - destruct (number_front _ _ He) as (b & t & -> & Hb). exists b, t. split; [done|]. apply front_word. by rewrite Hb, orb_true_r.
  - destruct s as [|b s]; [done|]. apply andb_true_iff in He as [Hb _]. exists b, s. split; [done|]. apply front_word. by rewrite Hb.
  - by exists x22, (s ++ DQ).
  - destruct (char_text s He) as (b & -> & _). by exists x27, ([b] ++ SQ).
  - apply andb_true_iff in He as [Ho _]. destruct o; try discriminate Ho; by eexists _, (show e).
Qed.

Lemma show_par e : wf_expr e = true -> show (EPar e) = if grouped e then show e else B "(" ++ show e ++ B ")".
Proof.
  intros He. cbn [show]. destruct (grouped e) eqn:Eg; [destruct (show_grouped e Eg) as [m ->]; apply parenthesized_in|].
  apply parenthesized_out. destruct (show_front e He) as (b & t & -> & _ & Hb). rewrite Eg in Hb. intros E. apply Hb in E. discriminate E.
Qed.

Lemma op_end_front s off rest b t g : s = b :: t -> operand_front g b -> op_end (chars_from off s ++ rest).
Proof. intros -> [H _]. done. Qed.

Lemma op_atom_end o s off rest : is_binary o = true -> atom_end (chars_from off (symbol o ++ s) ++ rest).
Proof. intros Ho. destruct o; try discriminate Ho; reflexivity. Qed.

Lemma binary_symbol o : is_binary o = true -> o <> Slash -> is_symbol o = true.
Proof. destruct o; (done || discriminate). Qed.

Lemma piece_close C : piece C (B ")") [RParen].
Proof. intros off rest ks' _ Hl. cbn. by eapply lexes_cons; [reflexivity|reflexivity|reflexivity|lia|]. Qed.

Lemma piece_open C : piece C (B "(") [LParen].
Proof. intros off rest ks' _ Hl. cbn. by eapply lexes_cons; [reflexivity|reflexivity|reflexivity|lia|]. Qed.

Lemma piece_show e : wf_expr e = true -> piece atom_end (show e) (expr_tokens e).
Proof.
  induction e as [n|f|s|s|s|o e IH|o l IHl r IHr|e IH]; intros He; pose proof He as He'; cbn [wf_expr] in He; [cbn [show expr_tokens]..|].
  - apply piece_number, int_text. lia.
  - by apply piece_number.
  - by apply piece_ident.
  - apply piece_quoted. intros. by apply read_string_raw.
  - by apply piece_char.
  - apply andb_true_iff in He as [Ho He]. change (o :: expr_tokens e) with ([o] ++ expr_tokens e). eapply piece_app; [apply piece_symbol; by destruct o|by apply IH|].
    intros off rest _. destruct (show_front e He) as (b & t & E & Hb). by eapply op_end_front.
  - rewrite !andb_true_iff in He. destruct He as [[[[Ho Hs] _] Hl] Hr]. apply negb_true_iff, bool_decide_eq_false in Hs.
    change (LParen :: ?x) with ([LParen] ++ x). change (o :: ?x) with ([o] ++ x).
    eapply piece_app; [apply (piece_open (fun _ => True))| |done]. eapply piece_app; [by apply IHl| |intros; by apply op_atom_end].
    eapply piece_app; [by apply piece_symbol, binary_symbol| |].
    + eapply piece_app; [by apply IHr|apply piece_close|done].
    + intros off rest _. destruct (show_front r Hr) as (b & t & E & Hb). rewrite E. cbn [app]. by eapply op_end_front.
  - rewrite show_par by done. cbn [expr_tokens]. destruct (grouped e); [by apply IH|]. change (LParen :: ?x) with ([LParen] ++ x).
    eapply piece_app; [apply (piece_open (fun _ => True))| |done]. eapply piece_app; [by apply IH|apply piece_close|done].
Qed.

(** *** Texts *)
Definition spaced (cs : Chars) : Prop := match cs with (_, ch) :: _ => ch = B " " | [] => True end.

Lemma spaced_ends cs : spaced cs -> atom_end cs /\ op_end cs.
Proof. destruct cs as [|[i ch] cs]; [done|]. cbn [spaced]. by intros ->. Qed.

(** The texts are ASCII. *)
Definition ascii_ok (b : byte) : bool := negb (number_byte b) || ascii_byte b.
Lemma number_ascii b : number_byte b = true -> b2z b < 128.
Proof. intros H. pose proof (byte_cases ascii_ok ltac:(vm_compute; reflexivity) b) as Hb. unfold ascii_ok in Hb. rewrite H in Hb. by apply Z.ltb_lt. Qed.

Lemma forallb_ascii (f : byte -> bool) s : (forall b, f b = true -> b2z b < 128) -> forallb f s = true -> ascii s.
Proof. intros H Hs. apply List.Forall_forall. intros b Hb. rewrite forallb_forall in Hs. apply H. by apply Hs. Qed.

Lemma ident_ascii s : is_ident s = true -> ascii s.
Proof.
  destruct s as [|b s]; [done|]. intros [Hb Hs]%andb_true_iff. constructor; [|by eapply forallb_ascii; [|exact Hs]; intros c Hc; apply number_ascii, ident_number].
  apply number_ascii, ident_number. by apply ident_front.
Qed.

Lemma number_text_ascii s t : number_text s t = true -> ascii s.
Proof. destruct s as [|b s]; [done|]. cbn [number_text]. rewrite !andb_true_iff. intros [[_ H] _]. by eapply forallb_ascii; [apply number_ascii|]. Qed.

Lemma int_ascii n : 0 <= n < 2 ^ 63 -> ascii (fmt_int n).
Proof. intros Hn. by eapply number_text_ascii, int_text. Qed.

Lemma symbol_ascii t : ascii (symbol t).
Proof. destruct t; repeat constructor. Qed.

Lemma show_ascii e : wf_expr e = true -> ascii (show e).
Proof.
  assert (forall b, ascii_byte b = true -> b2z b < 128) as Hab by (intros b; apply Z.ltb_lt).
  induction e as [n|f|s|s|s|o e IH|o l IHl r IHr|e IH]; intros He; pose proof He as He'; cbn [wf_expr] in He; [cbn [show]..|].
  - apply int_ascii. lia.
  - by eapply number_text_ascii.
  - by apply ident_ascii.
  - apply Forall_app. split; [repeat constructor|]. apply Forall_app. split; [|repeat constructor]. eapply forallb_ascii; [|exact He].
    intros b. unfold raw_byte. rewrite !andb_true_iff. intros [[H _] _]. by apply Hab.
  - destruct (char_text s He) as (b & -> & Hb & _). by repeat constructor.
  - apply andb_true_iff in He as [_ He]. apply Forall_app. split; [apply symbol_ascii|by apply IH].
  - rewrite !andb_true_iff in He. destruct He as [[_ Hl] Hr]. repeat (apply Forall_app; split); [repeat constructor|by apply IHl|apply symbol_ascii|by apply IHr|repeat constructor].
  - rewrite show_par by done. destruct (grouped e); [by apply IH|]. repeat (apply Forall_app; split); [repeat constructor|by apply IH|repeat constructor].
Qed.

Lemma value_tokens_show e : wf_expr e = true -> value_tokens (show e) = expr_tokens e.
Proof.
  intros He. unfold value_tokens, tokenize, char_indices. rewrite (char_indices_ascii _ _ _ (Nat.le_refl _)) by by apply show_ascii.
  destruct (piece_show e He 0 [] [] I lexes_nil (length (chars_from 0 (show e))) (zlen (show e))) as (ts & Hts & Hk); [by rewrite app_nil_r|].
  rewrite app_nil_r in Hts. rewrite Hts, Hk, app_nil_r. apply removelast_last.
Qed.

Lemma piece_word w : wf_word w -> piece spaced (word_text w) (word_tokens w).
Proof.
  intros Hw. destruct w as [t|v]; cbn [wf_word word_text word_tokens] in *.
  - destruct t; try discriminate Hw;
      try (eapply piece_weaken; [|by apply piece_symbol]; intros rest [_ H]%spaced_ends; exact H).
    + eapply piece_weaken; [|by apply piece_ident]. by intros rest [H _]%spaced_ends.
    + apply piece_quoted. intros. apply read_string_escaped.
    + cbn [wf_token] in Hw. eapply piece_weaken; [|apply piece_number, int_text; lia]. by intros rest [H _]%spaced_ends.
  - destruct Hw as (e & He & ->). rewrite value_tokens_show by done. eapply piece_weaken; [|by apply piece_show]. by intros rest [H _]%spaced_ends.
Qed.

Lemma lexes_text ws off : Forall wf_word ws -> lexes (chars_from off (text ws)) (word_toks ws).
Proof.
  intros Hws. revert off. induction Hws as [|w ws Hw Hws IH]; intros off; [apply lexes_nil|].
  unfold text, word_toks in *. cbn [map concat]. destruct ws as [|w' ws].
  - cbn [map concat join]. rewrite <- (app_nil_r (chars_from _ _)). by apply piece_word; [|done|apply lexes_nil].
  - cbn [map]. cbn [join]. rewrite chars_from_app. apply piece_word; [done|done|]. cbn [B app]. change (String.list_byte_of_string " " ++ ?x) with (" "%byte :: x).
    cbn [chars_from]. apply lexes_space. by apply IH.
Qed.

Lemma word_ascii w : wf_word w -> ascii (word_text w).
Proof.
  destruct w as [t|v]; [|intros (e & He & ->); by apply show_ascii]. cbn [wf_word word_text]. intros Hw.
  destruct t; try discriminate Hw; try (repeat constructor; fail); cbn [wf_token token_text] in *.
  - by apply ident_ascii.
  - apply Forall_app. split; [repeat constructor|]. apply Forall_app. split; [|repeat constructor].
    induction s as [|b s IH]; [constructor|]. cbn [forallb] in Hw. apply andb_true_iff in Hw as [Hb Hs]. cbn [map concat]. apply Forall_app. split; [|by apply IH].
    apply Z.ltb_lt in Hb. unfold escape_byte. destruct (_ || _); repeat constructor; try done; lia.
  - apply int_ascii. lia.
Qed.

Lemma text_ascii ws : Forall wf_word ws -> ascii (text ws).
Proof.
  unfold text. induction 1 as [|w ws Hw Hws IH]; [constructor|]. cbn [map].
  destruct ws as [|w' ws]; cbn [map join] in *; [by apply word_ascii|]. apply Forall_app. split; [by apply word_ascii|].
  apply Forall_app. split; [repeat constructor|done].
Qed.

(** Printed tokens are read back. *)
Lemma tokenize_text ws : Forall wf_word ws -> exists ts, tokenize (text ws) = Ok ts /\ map fst ts = word_toks ws ++ [Eof].
Proof.
  intros Hw. unfold tokenize, char_indices. rewrite (char_indices_ascii _ _ _ (Nat.le_refl _)) by by apply text_ascii. by apply lexes_text.
Qed.
