(* ===== verification/AidlSpec.v ===== *)
(** * The interface compiler: what the parser reads

    The grouping that the precedence climbing of AidlParser implements, and the grammar of AIDL with its levels of operators,
    against which it is judged; a printer of declarations; and the theorem that a printed file is read back. *)
From Stdlib Require Import SpecFloat.
From S2P Require Import Prelude Text Float64 AidlLexer AidlParser AidlTotal AidlText Effects.

(** ** Reading a prefix *)
Definition front (p : Parser) (ks : list Token) : Prop := 0 <= pos p /\ map fst (rest_of p) = ks.
Definition follow (F : Token -> bool) (rest : list Token) : Prop := match rest with t :: _ => F t = true | [] => False end.

(** [m] reads the tokens [ks] as [x] before a token that [F] allows. *)
Definition reads {A} (F : Token -> bool) (m : P A) (ks : list Token) (x : A) : Prop :=
  forall p rest, front p (ks ++ rest) -> follow F rest -> exists p', m p = (p', Ok x) /\ front p' rest.

(** The token in front, which is the one that follows if nothing is read. *)
Definition starts (F : Token -> bool) (ks : list Token) (Q : Token -> Prop) : Prop :=
  match ks with t :: _ => Q t | [] => forall t, F t = true -> Q t end.

Lemma front_lookup p t ks : front p (t :: ks) -> exists i, tokens p !! Z.to_nat (pos p) = Some (t, i) /\ pos p < zlen (tokens p).
Proof.
  intros [Hp Hf]. unfold rest_of in Hf. destruct (drop (Z.to_nat (pos p)) (tokens p)) as [|[u i] l] eqn:E; [done|]. injection Hf as -> Hf. exists i.
  assert (tokens p !! Z.to_nat (pos p) = Some (t, i)) as Hl by (rewrite <- (Nat.add_0_r (Z.to_nat (pos p))), <- lookup_drop, E; done).
  split; [done|]. apply lookup_lt_Some in Hl. unfold zlen. lia.
Qed.

Lemma front_peek p t ks : front p (t :: ks) -> exists i, peek p = (p, Ok (t, i)) /\ advance p = (set_pos (pos p + 1) p, Ok (t, i)) /\ front (set_pos (pos p + 1) p) ks.
Proof.
  intros Hf. destruct (front_lookup p t ks Hf) as (i & Hl & Hlt). destruct Hf as [Hp Hf]. exists i.
  assert (peek p = (p, Ok (t, i))) as Hpk.
  { unfold peek, get_index. replace (pos p <? zlen (tokens p)) with true by (symmetry; apply Z.ltb_lt; lia).
    replace (0 <=? pos p) with true by (symmetry; apply Z.leb_le; lia). cbn [andb]. by rewrite Hl. }
  split; [done|]. split.
  - unfold advance, bind. rewrite Hpk. unfold step_pos. replace (pos p <? zlen (tokens p)) with true by (symmetry; apply Z.ltb_lt; lia). done.
  - split; [cbn [pos set_pos]; lia|]. unfold rest_of in *. rewrite (drop_S _ _ _ Hl) in Hf. cbn [map] in Hf. injection Hf as <-. cbn [pos tokens set_pos].
    by replace (Z.to_nat (pos p + 1)) with (S (Z.to_nat (pos p))) by lia.
Qed.

Lemma reads_end {A} F (x : A) : reads F (ret x) [] x.
Proof. intros p rest Hf _. by exists p. Qed.

Lemma reads_then {A C} F1 F (m : P A) (k : A -> P C) k1 k2 x y :
  reads F1 m k1 x -> starts F k2 (fun t => F1 t = true) -> reads F (k x) k2 y -> reads F (bind m k) (k1 ++ k2) y.
Proof.
  intros Hm Hs Hk p rest Hf Hfo. rewrite <- app_assoc in Hf. destruct (Hm p (k2 ++ rest) Hf) as (p1 & E1 & Hf1).
  { destruct k2; [destruct rest; [done|by apply Hs]|exact Hs]. }
  destruct (Hk p1 rest Hf1 Hfo) as (p2 & E2 & Hf2). exists p2. by rewrite (bind_ok _ _ _ _ _ E1).
Qed.

Lemma reads_advance {A} F (k : Token * Z -> P A) t ks y : (forall i, reads F (k (t, i)) ks y) -> reads F (bind advance k) (t :: ks) y.
Proof.
  intros Hk p rest Hf Hfo. destruct (front_peek p t (ks ++ rest) Hf) as (i & _ & Ea & Hf1). rewrite (bind_ok _ _ _ _ _ Ea). by apply Hk.
Qed.

Lemma reads_ident {A} F (k : bytes * Z -> P A) s ks y : (forall i, reads F (k (s, i)) ks y) -> reads F (bind expect_ident k) (Ident s :: ks) y.
Proof.
  intros Hk p rest Hf Hfo. destruct (front_peek p (Ident s) (ks ++ rest) Hf) as (i & _ & Ea & Hf1).
  assert (expect_ident p = (set_pos (pos p + 1) p, Ok (s, i))) as E by (unfold expect_ident; by rewrite (bind_ok _ _ _ _ _ Ea)).
  rewrite (bind_ok _ _ _ _ _ E). by apply Hk.
Qed.

Lemma reads_token {A} F (k : Z -> P A) t ks y : (forall i, reads F (k i) ks y) -> reads F (bind (expect_token t) k) (t :: ks) y.
Proof.
  intros Hk p rest Hf Hfo. destruct (front_peek p t (ks ++ rest) Hf) as (i & _ & Ea & Hf1).
  assert (expect_token t p = (set_pos (pos p + 1) p, Ok i)) as E.
  { unfold expect_token. rewrite (bind_ok _ _ _ _ _ Ea). cbn [fst snd]. by rewrite bool_decide_eq_true_2. }
  rewrite (bind_ok _ _ _ _ _ E). by apply Hk.
Qed.

Lemma starts_front F ks Q p rest : starts F ks Q -> front p (ks ++ rest) -> follow F rest -> exists t ks', front p (t :: ks') /\ Q t.
Proof.
  intros Hs Hf Hfo. destruct ks as [|t ks]; [|by exists t, (ks ++ rest)]. destruct rest as [|t rest]; [done|]. exists t, rest. split; [done|by apply Hs].
Qed.

Lemma reads_peek {A} F (Q : Token -> Prop) (k : Token * Z -> P A) ks y :
  starts F ks Q -> (forall t i, Q t -> reads F (k (t, i)) ks y) -> reads F (bind peek k) ks y.
Proof.
  intros Hs Hk p rest Hf Hfo. destruct (starts_front F ks Q p rest Hs Hf Hfo) as (t & ks' & Hf' & Ht). destruct (front_peek p t ks' Hf') as (i & Ep & _).
  rewrite (bind_ok _ _ _ _ _ Ep). by apply Hk.
Qed.

Lemma reads_match_yes {A} F w (k : bool -> P A) ks y : reads F (k true) ks y -> reads F (bind (match_ident w) k) (Ident w :: ks) y.
Proof.
  intros Hk p rest Hf Hfo. destruct (front_peek p (Ident w) (ks ++ rest) Hf) as (i & Ep & Ea & Hf1).
  assert (match_ident w p = (set_pos (pos p + 1) p, Ok true)) as E.
  { unfold match_ident. rewrite (bind_ok _ _ _ _ _ Ep). cbn [fst]. rewrite bool_decide_eq_true_2 by done. by rewrite (bind_ok _ _ _ _ _ Ea). }
  rewrite (bind_ok _ _ _ _ _ E). by apply Hk.
Qed.

Lemma reads_match_no {A} F w (k : bool -> P A) ks y :
  starts F ks (fun t => t <> Ident w) -> reads F (k false) ks y -> reads F (bind (match_ident w) k) ks y.
Proof.
  intros Hs Hk p rest Hf Hfo. destruct (starts_front F ks _ p rest Hs Hf Hfo) as (t & ks' & Hf' & Ht). destruct (front_peek p t ks' Hf') as (i & Ep & _).
  assert (match_ident w p = (p, Ok false)) as E.
  { unfold match_ident. rewrite (bind_ok _ _ _ _ _ Ep). cbn [fst]. destruct t; try done. rewrite bool_decide_eq_false_2 by congruence. done. }
  rewrite (bind_ok _ _ _ _ _ E). by apply Hk.
Qed.

(** ** Expressions *)
Definition precedence (o : Token) : Z := match operator_of o with Some (_, q) => q | None => 0 end.
Definition no_operator (t : Token) : bool := match operator_of t with None => true | Some _ => false end.

Inductive atom : Token -> expr -> Prop :=
| atom_int n : atom (IntLit n) (EInt n)
| atom_float f : atom (FloatLit f) (EFloat f)
| atom_name s : atom (Ident s) (EName s)
| atom_string s : atom (StringLit s) (EString s)
| atom_char s : atom (CharLit s) (EChar s).

(** The grammar: [groups q tail ks e] says that [ks] is the expression [e] whose outermost binary operators have at least
    precedence [q]; with [tail], a multiplicative operator may follow. Binary operators group to the left; a sign takes
    all factors after it, so none may follow it outside of parentheses. *)
Inductive groups : Z -> bool -> list Token -> expr -> Prop :=
| g_atom q tail t e : atom t e -> groups q tail [t] e
| g_sign q o ks e : is_unary o = true -> groups 10 false ks e -> groups q false (o :: ks) (EUn o e)
| g_paren q tail ks e : groups 0 false ks e -> groups q tail (LParen :: ks ++ [RParen]) (EPar e)
| g_binary q tail o k1 k2 l r : is_binary o = true -> q <= precedence o ->
    groups (precedence o) (precedence o =? 10) k1 l -> groups (precedence o + 1) tail k2 r ->
    groups q tail (k1 ++ o :: k2) (EBin o l r).

(** What may follow: no operator that binds tighter. *)
Definition bounded_by (q : Z) (tail : bool) (t : Token) : Prop :=
  is_binary t = true -> precedence t <= q /\ (precedence t = 10 -> tail = true).

Lemma operator_symbol o : is_binary o = true -> operator_of o = Some (symbol o, precedence o) /\ 0 < precedence o <= 10.
Proof. destruct o; intros H; try discriminate H; (split; [reflexivity|vm_compute; split; [reflexivity|discriminate]]). Qed.

Lemma loop_stops fuel q lhs p t ks : (0 < fuel)%nat -> front p (t :: ks) -> (is_binary t = true -> precedence t < q) ->
  binary_loop fuel q lhs p = (p, Ok lhs).
Proof.
  intros Hf Hp Ht. destruct fuel as [|fuel]; [lia|]. cbn [binary_loop]. destruct (front_peek p t ks Hp) as (i & Ep & _). unfold binary_operator.
  erewrite bind_ok; [|by erewrite bind_ok by exact Ep]. cbn beta. cbn [fst]. unfold is_binary in Ht. destruct (operator_of t) as [[o r]|] eqn:E; [|done].
  unfold precedence in Ht. rewrite E in Ht. replace (r <? q) with true by (symmetry; apply Z.ltb_lt; by apply Ht). done.
Qed.

(** The parser gets to the end of the expression in its loop. *)
Lemma groups_loop q tail ks e : groups q tail ks e -> forall m fuel p t rest, m <= q -> (length ks < fuel)%nat -> bounded_by q tail t ->
  front p (ks ++ t :: rest) ->
  exists fuel' p', parse_expression_bp fuel m p = binary_loop fuel' m (show e) p' /\ front p' (t :: rest) /\ (fuel <= fuel' + length ks)%nat.
Proof.
  induction 1 as [q tail u e Ha|q o ks e Ho Hg IH|q tail ks e Hg IH|q tail o k1 k2 l r Ho Hq Hl IHl Hr IHr]; intros m fuel p t rest Hm Hf Hb Hp.
  - destruct fuel as [|fuel]; [cbn [length] in Hf; lia|]. destruct (front_peek p u (t :: rest) Hp) as (i & _ & Ea & Hp1). exists fuel, (set_pos (pos p + 1) p).
    split_and!; [|done|cbn [length]; lia]. cbn [parse_expression_bp]. rewrite (bind_ok _ _ _ _ _ Ea). cbn [fst].
    destruct Ha; by erewrite bind_ok by reflexivity.
  - destruct fuel as [|fuel]; [cbn [length] in Hf; lia|]. cbn [length app] in *. destruct (front_peek p o (ks ++ t :: rest) Hp) as (i & _ & Ea & Hp1).
    edestruct (IH 10 fuel) as (f1 & p1 & E1 & Hp2 & Hf1); [lia|lia| |exact Hp1|].
    { intros Ht. destruct (Hb Ht) as [_ H10]. destruct (operator_symbol t Ht) as [_ ?]. split; [lia|done]. }
    rewrite (loop_stops f1 10 (show e) p1 t rest) in E1; [|lia|done|].
    2:{ intros Ht. destruct (Hb Ht) as [_ H10]. destruct (operator_symbol t Ht) as [_ ?]. destruct (Z.eq_dec (precedence t) 10) as [Et|]; [|lia]. by apply H10 in Et. }
    exists fuel, p1. split_and!; [|done|lia]. cbn [parse_expression_bp]. rewrite (bind_ok _ _ _ _ _ Ea). cbn [fst].
    destruct o; try discriminate Ho; (erewrite bind_ok; [reflexivity|]); by erewrite bind_ok by exact E1.
  - destruct fuel as [|fuel]; [cbn [length] in Hf; lia|]. cbn [length app] in *. rewrite length_app in *. cbn [length] in *. rewrite <- app_assoc in Hp. cbn [app] in Hp.
    destruct (front_peek p LParen _ Hp) as (i & _ & Ea & Hp1).
    edestruct (IH 0 fuel) as (f1 & p1 & E1 & Hp2 & Hf1); [lia|lia| |exact Hp1|]; [discriminate|].
    rewrite (loop_stops f1 0 (show e) p1 RParen (t :: rest)) in E1; [|lia|done|discriminate].
    destruct (front_peek p1 RParen _ Hp2) as (j & _ & Eb & Hp3). exists fuel, (set_pos (pos p1 + 1) p1). split_and!; [|done|lia].
    cbn [parse_expression_bp]. rewrite (bind_ok _ _ _ _ _ Ea). cbn [fst]. erewrite bind_ok; [reflexivity|]. erewrite bind_ok by exact E1. cbn beta.
    erewrite bind_ok; [reflexivity|]. unfold expect_token. rewrite (bind_ok _ _ _ _ _ Eb). cbn [fst snd]. by rewrite bool_decide_eq_true_2.
  - rewrite length_app in Hf. cbn [length] in Hf. rewrite <- app_assoc in Hp. cbn [app] in Hp. destruct (operator_symbol o Ho) as [Eo Hprec].
    edestruct (IHl m fuel) as (f1 & p1 & E1 & Hp1 & Hf1); [lia|lia| |exact Hp|].
    { intros _. split; [lia|]. intros E. apply Z.eqb_eq, E. }
    destruct f1 as [|f1]; [lia|]. destruct (front_peek p1 o _ Hp1) as (i & Ep & Ea & Hp2).
    edestruct (IHr (precedence o + 1) f1) as (f2 & p2 & E2 & Hp3 & Hf2); [lia|lia| |exact Hp2|].
    { intros Ht. destruct (Hb Ht) as [H1 H2]. split; [lia|done]. }
    rewrite (loop_stops f2 _ (show r) p2 t rest) in E2; [|lia|done|intros Ht; destruct (Hb Ht); lia].
    exists f1, p2. split_and!; [|done|rewrite length_app; cbn [length]; lia]. rewrite E1. cbn [binary_loop]. unfold binary_operator.
    erewrite bind_ok; [|by erewrite bind_ok by exact Ep]. cbn beta. cbn [fst]. rewrite Eo. replace (precedence o <? m) with false by (symmetry; apply Z.ltb_ge; lia).
    erewrite bind_ok by exact Ea. by erewrite bind_ok by exact E2.
Qed.

Lemma groups_reads fuel ks e : groups 0 false ks e -> (length ks < fuel)%nat -> reads no_operator (parse_expression_as_string fuel) ks (show e).
Proof.
  intros Hg Hl p rest Hp Hfo. destruct rest as [|t rest]; [done|]. cbn [follow] in Hfo. unfold no_operator in Hfo.
  assert (is_binary t = false) as Ht by (unfold is_binary; by destruct (operator_of t)).
  destruct (groups_loop _ _ _ _ Hg 0 fuel p t rest) as (f & p' & E & Hp' & Hf); [lia|done|intros E; congruence|done|].
  exists p'. split; [|done]. unfold parse_expression_as_string. rewrite E. apply (loop_stops f 0 (show e) p' t rest); [lia|done|congruence].
Qed.

(** The texts the parser keeps are read as themselves: with the parentheses that it has added. *)
Fixpoint canon (e : expr) : expr :=
  match e with
  | EUn o e => EUn o (canon e)
  | EBin o l r => EPar (EBin o (canon l) (canon r))
  | EPar e => if grouped e then canon e else EPar (canon e)
  | e => e
  end.

Lemma show_canon e : wf_expr e = true -> show (canon e) = show e.
Proof.
  induction e as [| | | | |o e IH|o l IHl r IHr|e IH]; intros He; try done; cbn [wf_expr] in He.
  - apply andb_true_iff in He as [_ He]. cbn [canon show]. by rewrite IH.
  - rewrite !andb_true_iff in He. destruct He as [[_ Hl] Hr]. cbn [canon show]. rewrite IHl, IHr by done.
    assert (B "(" ++ show l ++ symbol o ++ show r ++ B ")" = B "(" ++ (show l ++ symbol o ++ show r) ++ B ")") as -> by by rewrite <- !app_assoc.
    apply parenthesized_in.
  - cbn [canon]. destruct (grouped e) eqn:Eg; [rewrite (show_par e He), Eg; by apply IH|]. cbn [show]. by rewrite IH.
Qed.

Definition is_sign (e : expr) : bool := match e with EUn _ _ => true | _ => false end.

Lemma groups_canon e : wf_expr e = true -> forall q tail, (is_sign e = true -> tail = false) -> groups q tail (expr_tokens e) (canon e).
Proof.
  induction e as [n|f|s|s|s|o e IH|o l IHl r IHr|e IH]; intros He q tail Ht; cbn [expr_tokens canon]; try (apply g_atom; constructor); cbn [wf_expr] in He.
  - apply andb_true_iff in He as [Ho He]. rewrite (Ht eq_refl). apply g_sign; [done|]. by apply IH.
  - rewrite !andb_true_iff in He. destruct He as [[[[Ho _] Hs] Hl] Hr].
    assert (LParen :: expr_tokens l ++ o :: expr_tokens r ++ [RParen] = LParen :: (expr_tokens l ++ o :: expr_tokens r) ++ [RParen]) as -> by by rewrite <- app_assoc.
    apply g_paren, g_binary; [done|pose proof (operator_symbol o Ho); lia| |].
    + apply IHl; [done|]. intros Hn. apply negb_true_iff, andb_false_iff in Hs as [Hm|Hm]; [|destruct l; done]. destruct o; (discriminate Ho || discriminate Hm || reflexivity).
    + by apply IHr.
  - destruct (grouped e) eqn:Eg; [apply IH; [done|]; by destruct e|]. apply g_paren. by apply IH.
Qed.

Lemma reads_value fuel v : is_value v -> (length (value_tokens v) < fuel)%nat -> reads no_operator (parse_expression_as_string fuel) (value_tokens v) v.
Proof.
  intros (e & He & ->) Hl. rewrite value_tokens_show in * by done. rewrite <- (show_canon e He). apply groups_reads; [|done]. by apply groups_canon.
Qed.

(** ** Loops *)
Definition weaker (F G : Token -> bool) : Prop := forall t, F t = true -> G t = true.

Lemma reads_weaken {A} F G (m : P A) ks x : weaker F G -> reads G m ks x -> reads F m ks x.
Proof. intros H Hm p rest Hp Hf. apply Hm; [done|]. destruct rest; [done|by apply H]. Qed.

Lemma reads_while {A X} F G cond (item : P A) (toks : X -> list Token) (val : X -> A) fuel xs :
  (length xs < fuel)%nat -> (forall t, F t = true -> cond t = false) -> weaker F G ->
  Forall (fun x => reads G item (toks x) (val x) /\ exists t ts, toks x = t :: ts /\ cond t = true /\ G t = true) xs ->
  reads F (while_ fuel cond item) (concat (map toks xs)) (map val xs).
Proof.
  revert fuel. induction xs as [|x xs IH]; intros fuel Hf HF HG Hxs; (destruct fuel as [|fuel]; [cbn [length] in Hf; lia|]); cbn [while_ map concat length] in *.
  - apply (reads_peek F (fun t => cond t = false)); [done|]. intros t i Ht. cbn [fst]. rewrite Ht. apply reads_end.
  - inversion Hxs as [|? ? [Hr (t & ts & Et & Hc & Hg)] Hxs']. subst.
    apply (reads_peek F (fun t => cond t = true)); [by rewrite Et|]. intros u i Hu. cbn [fst]. rewrite Hu.
    eapply reads_then; [exact Hr| |].
    + destruct xs as [|y ys]; [exact HG|]. inversion Hxs' as [|? ? [_ (t' & ts' & Et' & _ & Hg')] _]. subst. cbn [map concat]. by rewrite Et'.
    + rewrite <- (app_nil_r (concat _)). eapply reads_then; [apply IH; [lia|done|done|done]|by intros ? ?|apply reads_end].
Qed.

Definition commas (l : list (list word)) : list word := 
  (fix go (l : list (list word)) : list word := match l with [] => [] | x :: l => match l with [] => x | _ => x ++ W Comma :: go l end end) l.
Definition comma_toks (l : list (list Token)) : list Token :=
  (fix go (l : list (list Token)) : list Token := match l with [] => [] | x :: l => match l with [] => x | _ => x ++ Comma :: go l end end) l.

Lemma reads_commas {A X} F G close (item : P A) (toks : X -> list Token) (val : X -> A) fuel xs :
  (length xs < fuel)%nat -> (forall t, F t = true -> t = close) -> close <> Comma -> weaker F G -> G Comma = true ->
  Forall (fun x => reads G item (toks x) (val x) /\ exists t ts, toks x = t :: ts /\ t <> close) xs ->
  reads F (comma_list fuel close item) (comma_toks (map toks xs)) (map val xs).
Proof.
  intros Hf HF Hcl HG HGc Hxs. revert fuel Hf. induction Hxs as [|x xs [Hr (t & ts & Et & Hc)] Hxs IH]; intros fuel Hf;
    (destruct fuel as [|fuel]; [cbn [length] in Hf; lia|]); cbn [comma_list length] in *.
  - apply (reads_peek F (fun t => t = close)); [exact HF|]. intros t i ->. cbn [fst]. rewrite bool_decide_eq_true_2 by done. apply reads_end.
  - apply (reads_peek F (fun t => t <> close)); [cbn [map comma_toks]; by rewrite Et; destruct (map toks xs)|]. intros u i Hu. cbn [fst]. rewrite bool_decide_eq_false_2 by done.
    destruct xs as [|y ys].
    + cbn [map]. change (comma_toks [toks x]) with (toks x). rewrite <- (app_nil_r (toks x)). eapply reads_then; [exact Hr|exact HG|].
      apply (reads_peek F (fun t => t = close)); [exact HF|]. intros w j ->. cbn [fst]. rewrite bool_decide_eq_false_2 by done. apply reads_end.
    + cbn [map] in *. change (comma_toks (toks x :: toks y :: ?l)) with (toks x ++ Comma :: comma_toks (toks y :: l)).
      eapply reads_then; [exact Hr|exact HGc|]. apply (reads_peek F (fun t => t = Comma)); [done|]. intros w j ->. cbn [fst]. rewrite bool_decide_eq_true_2 by done.
      apply reads_advance. intros _. rewrite <- (app_nil_r (comma_toks _)). eapply reads_then; [apply IH; lia|by intros ? ?|apply reads_end].
Qed.

Lemma concat_bound {X} (toks : X -> list Token) xs :
  (forall x, x ∈ xs -> toks x <> []) -> (length xs <= length (concat (map toks xs)))%nat /\ forall x, x ∈ xs -> (length (toks x) <= length (concat (map toks xs)))%nat.
Proof.
  induction xs as [|x xs IH]; intros H; [split; [done|by intros x Hx%elem_of_nil]|]. destruct IH as [H1 H2]; [intros y Hy; apply H; by right|].
  assert (toks x <> []) as Hx by (apply H; by left). destruct (toks x) as [|t ts] eqn:Et; [done|]. cbn [map concat length]. rewrite length_app, Et. cbn [length]. split; [lia|].
  intros y [->|Hy]%elem_of_cons; [rewrite Et; cbn [length]; lia|]. specialize (H2 y Hy). lia.
Qed.

Lemma comma_bound (l : list (list Token)) : (length (concat l) <= length (comma_toks l))%nat.
Proof.
  induction l as [|x [|y l] IH]; [done|cbn; by rewrite app_nil_r|]. change (comma_toks (x :: y :: l)) with (x ++ Comma :: comma_toks (y :: l)).
  change (concat (x :: y :: l)) with (x ++ concat (y :: l)). rewrite !length_app. cbn [length] in *. lia.
Qed.

(** The same, with a fuel for all of the tokens. *)
Lemma reads_many {A X} F G cond (item : P A) (toks : X -> list Token) (val : X -> A) fuel xs :
  (length (concat (map toks xs)) < fuel)%nat -> (forall t, F t = true -> cond t = false) -> weaker F G ->
  (forall x, x ∈ xs -> exists t ts, toks x = t :: ts /\ cond t = true /\ G t = true) ->
  (forall x, x ∈ xs -> (length (toks x) < fuel)%nat -> reads G item (toks x) (val x)) ->
  reads F (while_ fuel cond item) (concat (map toks xs)) (map val xs).
Proof.
  intros Hl HF HG Hh Hr. destruct (concat_bound toks xs) as [H1 H2]; [intros x Hx; destruct (Hh x Hx) as (t & ts & -> & _); done|].
  apply (reads_while F G); [lia|done|done|]. apply Forall_forall. intros x Hx%list_elem_of_In. split; [|by apply Hh]. apply Hr; [done|]. specialize (H2 x Hx). lia.
Qed.

Lemma reads_comma_list {A X} F G close (item : P A) (toks : X -> list Token) (val : X -> A) fuel xs :
  (length (comma_toks (map toks xs)) < fuel)%nat -> (forall t, F t = true -> t = close) -> close <> Comma -> weaker F G -> G Comma = true ->
  (forall x, x ∈ xs -> exists t ts, toks x = t :: ts /\ t <> close) ->
  (forall x, x ∈ xs -> (length (toks x) < fuel)%nat -> reads G item (toks x) (val x)) ->
  reads F (comma_list fuel close item) (comma_toks (map toks xs)) (map val xs).
Proof.
  intros Hl HF Hc HG HGc Hh Hr. pose proof (comma_bound (map toks xs)). destruct (concat_bound toks xs) as [H1 H2]; [intros x Hx; destruct (Hh x Hx) as (t & ts & -> & _); done|].
  apply (reads_commas F G); [lia|done..|]. apply Forall_forall. intros x Hx%list_elem_of_In. split; [|by apply Hh]. apply Hr; [done|]. specialize (H2 x Hx). lia.
Qed.

(** ** Printing *)
Definition word_ident (s : bytes) : word := W (Ident s).
Definition kw (s : string) : word := W (Ident (B s)).
Definition opt_words {A} (f : A -> list word) (o : option A) : list word := match o with Some a => f a | None => [] end.
Definition if_words (b : bool) (l : list word) : list word := if b then l else [].

Definition name_words (q : bytes) : list word :=
  match split_on "."%byte q with
  | [] => []
  | x :: l => word_ident x :: concat (map (fun y => [W Dot; word_ident y]) l)
  end.
Definition list_words (open close : Token) (l : list (list word)) : list word :=
  match l with [] => [] | _ => W open :: commas l ++ [W close] end.

Definition annotation_arg_words (a : option bytes * bytes) : list word := opt_words (fun k => [word_ident k; W Equals]) (fst a) ++ [V (snd a)].
Definition annotation_words (a : Annotation) : list word :=
  W At :: word_ident (an_name a) :: list_words LParen RParen (map annotation_arg_words (an_args a)).
Definition annotations_words (l : list Annotation) : list word := concat (map annotation_words l).

Fixpoint type_words (t : AidlType) : list word :=
  let '(mk_type name args dims nullable) := t in
  if_words nullable [W At; kw "nullable"] ++ name_words name ++ list_words LAngle RAngle (map type_words args)
  ++ concat (replicate dims [W LBracket; W RBracket]).

Definition direction_word (d : Direction) : list word := match d with DIn => [kw "in"] | DOut => [kw "out"] | DInOut => [kw "inout"] end.
Definition arg_words (a : AidlArg) : list word :=
  annotations_words (arg_annotations a) ++ opt_words direction_word (direction a) ++ type_words (arg_ty a) ++ [word_ident (arg_name a)].
Definition constant_words (c : AidlConstant) : list word :=
  kw "const" :: type_words (c_ty c) ++ [word_ident (c_name c); W Equals; V (c_value c); W Semi].
(** The type of a method or a field is nullable by the annotations before it. *)
Definition method_words (oneway : bool) (m : AidlMethod) : list word :=
  annotations_words (m_annotations m) ++ if_words (m_oneway m && negb oneway) [kw "oneway"] ++ type_words (set_nullable false (return_type m))
  ++ word_ident (m_name m) :: W LParen :: commas (map arg_words (m_args m)) ++ W RParen :: opt_words (fun n => [W Equals; W (IntLit n)]) (m_id m) ++ [W Semi].
Definition member_words (oneway : bool) (x : AidlConstant + AidlMethod) : list word :=
  match x with inl c => constant_words c | inr m => method_words oneway m end.
Definition members (i : AidlInterface) : list (AidlConstant + AidlMethod) := map inl (constants i) ++ map inr (methods i).
Definition interface_words (i : AidlInterface) : list word :=
  word_ident (i_name i) :: opt_words (fun q => kw "extends" :: name_words q) (extends i)
  ++ W LBrace :: concat (map (member_words (i_oneway i)) (members i)) ++ [W RBrace].

Definition default_words (v : option bytes) : list word := opt_words (fun v => [W Equals; V v]) v.
Definition field_words (f : AidlField) : list word :=
  annotations_words (f_annotations f) ++ type_words (set_nullable false (f_ty f)) ++ word_ident (f_name f) :: default_words (default_value f) ++ [W Semi].
Definition parcelable_words (p : AidlParcelable) : list word :=
  word_ident (p_name p) :: opt_words (fun h => [kw "cpp_header"; W (StringLit h)]) (cpp_header p)
  ++ match p_fields p with [] => [W Semi] | l => W LBrace :: concat (map field_words l) ++ [W RBrace] end.
Definition variant_words (v : EnumVariant) : list word := word_ident (v_name v) :: default_words (v_value v).
Definition enum_words (e : AidlEnum) : list word := word_ident (e_name e) :: W LBrace :: commas (map variant_words (variants e)) ++ [W RBrace].
Definition union_field_words (f : AidlField) : list word :=
  annotations_words (f_annotations f) ++ type_words (f_ty f) ++ [word_ident (f_name f); W Semi].
Definition union_words (u : AidlUnion) : list word := word_ident (u_name u) :: W LBrace :: concat (map union_field_words (u_fields u)) ++ [W RBrace].
Definition decl_words (d : AidlDecl) : list word :=
  match d with
  | Interface i => annotations_words (i_annotations i) ++ if_words (i_oneway i) [kw "oneway"] ++ kw "interface" :: interface_words i
  | Parcelable p => annotations_words (p_annotations p) ++ kw "parcelable" :: parcelable_words p
  | Enum e => annotations_words (e_annotations e) ++ kw "enum" :: enum_words e
  | Union u => annotations_words (u_annotations u) ++ kw "union" :: union_words u
  end.
Definition item_words (i : Item) : list word :=
  match i with
  | IPackage q => kw "package" :: name_words q ++ [W Semi]
  | IImport q => kw "import" :: name_words q ++ [W Semi]
  | IDecl d => decl_words d
  end.
Definition items (f : AidlFile) : list Item := option_list (IPackage <$> package f) ++ map IImport (imports f) ++ map IDecl (decls f).
Definition print_file (f : AidlFile) : bytes := text (concat (map item_words (items f))).

(** ** Files that can be printed *)
Definition wf_name (q : bytes) : bool := forallb is_ident (split_on "."%byte q).
(** Words that are not taken for a type where one is expected. *)
Definition RESERVED : list bytes := B <$> ["const"; "oneway"; "in"; "out"; "inout"]%string.
Definition first_part (q : bytes) : bytes := default [] (head (split_on "."%byte q)).

Fixpoint wf_type (t : AidlType) : bool :=
  wf_name (ty_name t) && negb (bool_decide (first_part (ty_name t) ∈ RESERVED)) && is_ok (validate_type_shape t)
  && let '(mk_type _ args _ _) := t in forallb wf_type args.

Definition wf_annotation (a : Annotation) : Prop :=
  is_ident (an_name a) = true /\ Forall (fun kv => (forall k, fst kv = Some k -> is_ident k = true) /\ is_value (snd kv)) (an_args a).
Definition wf_annotations : list Annotation -> Prop := Forall wf_annotation.
(** An argument without a direction is not nullable: what is before its type are annotations of the argument. *)
Definition wf_arg (a : AidlArg) : Prop :=
  wf_annotations (arg_annotations a) /\ wf_type (arg_ty a) = true /\ is_ident (arg_name a) = true /\ (direction a = None -> is_nullable (arg_ty a) = false).
Definition wf_constant (c : AidlConstant) : Prop := wf_type (c_ty c) = true /\ is_ident (c_name c) = true /\ is_value (c_value c).
Definition wf_method (oneway : bool) (m : AidlMethod) : Prop :=
  wf_annotations (m_annotations m) /\ wf_type (return_type m) = true /\ is_nullable (return_type m) = has_nullable (m_annotations m) /\
  is_ident (m_name m) = true /\ Forall wf_arg (m_args m) /\ (forall n, m_id m = Some n -> 0 <= n < 2 ^ 32) /\ (oneway = true -> m_oneway m = true).
Definition wf_default (v : option bytes) : Prop := forall x, v = Some x -> is_value x.
Definition wf_field (f : AidlField) : Prop :=
  wf_annotations (f_annotations f) /\ wf_type (f_ty f) = true /\ is_nullable (f_ty f) = has_nullable (f_annotations f) /\
  is_ident (f_name f) = true /\ wf_default (default_value f).
Definition wf_union_field (f : AidlField) : Prop :=
  wf_annotations (f_annotations f) /\ wf_type (f_ty f) = true /\ is_nullable (f_ty f) = false /\ is_ident (f_name f) = true /\ default_value f = None.
Definition wf_decl (d : AidlDecl) : Prop :=
  match d with
  | Interface i => wf_annotations (i_annotations i) /\ is_ident (i_name i) = true /\ (forall q, extends i = Some q -> wf_name q = true) /\
      Forall wf_constant (constants i) /\ Forall (wf_method (i_oneway i)) (methods i)
  | Parcelable p => wf_annotations (p_annotations p) /\ is_ident (p_name p) = true /\ (forall h, cpp_header p = Some h -> forallb ascii_byte h = true) /\
      Forall wf_field (p_fields p)
  | Enum e => wf_annotations (e_annotations e) /\ is_ident (e_name e) = true /\ backing_type e = None /\
      Forall (fun v => is_ident (v_name v) = true /\ wf_default (v_value v)) (variants e)
  | Union u => wf_annotations (u_annotations u) /\ is_ident (u_name u) = true /\ Forall wf_union_field (u_fields u)
  end.
Definition wf_item (i : Item) : Prop := match i with IPackage q | IImport q => wf_name q = true | IDecl d => wf_decl d end.
Definition wf_file (f : AidlFile) : Prop := Forall wf_item (items f).

(** ** Reading what was printed *)
Lemma wt_app a b : word_toks (a ++ b) = word_toks a ++ word_toks b.
Proof. unfold word_toks. by rewrite map_app, concat_app. Qed.
Lemma wt_W t ws : word_toks (W t :: ws) = t :: word_toks ws.
Proof. done. Qed.
Lemma wt_ident s ws : word_toks (word_ident s :: ws) = Ident s :: word_toks ws.
Proof. done. Qed.
Lemma wt_kw s ws : word_toks (kw s :: ws) = Ident (B s) :: word_toks ws.
Proof. done. Qed.
Lemma wt_V v ws : word_toks (V v :: ws) = value_tokens v ++ word_toks ws.
Proof. done. Qed.
Lemma wt_nil : word_toks [] = [].
Proof. done. Qed.
Lemma wt_concat {X} (f : X -> list word) xs : word_toks (concat (map f xs)) = concat (map (fun x => word_toks (f x)) xs).
Proof. induction xs as [|x xs IH]; [done|]. cbn [map concat]. by rewrite wt_app, IH. Qed.
Lemma wt_commas {X} (f : X -> list word) xs : word_toks (commas (map f xs)) = comma_toks (map (fun x => word_toks (f x)) xs).
Proof.
  induction xs as [|x [|y xs] IH]; [done|done|]. cbn [map] in *. change (commas (?a :: ?b :: ?l)) with (a ++ W Comma :: commas (b :: l)).
  by rewrite wt_app, wt_W, IH.
Qed.

Create HintDb wt_db.
#[local] Hint Rewrite @wt_app wt_W wt_ident wt_kw wt_V wt_nil @wt_concat @wt_commas @app_nil_r : wt_db.
Ltac wt := autorewrite with wt_db in *.
Ltac len := repeat first [progress (cbn [length] in * ) | progress (rewrite ?length_app in * )]; lia.

Lemma join_split c (q x : bytes) l : split_on c q = x :: l -> x ++ concat (map (fun y => [c] ++ y) l) = q.
Proof.
  revert x l. induction q as [|b q IH]; intros x l; cbn [split_on]; [by intros [= <- <-]|].
  destruct (beqb b c) eqn:E.
  - apply beqb_true in E as ->. intros [= <- <-]. destruct (split_on c q) as [|y l] eqn:Es; [by destruct q; cbn [split_on] in Es; [|destruct (beqb _ _); [|destruct (split_on _ _)]]|].
    cbn [map concat app]. f_equal. by apply IH.
  - destruct (split_on c q) as [|y l'] eqn:Es; [by destruct q; cbn [split_on] in Es; [|destruct (beqb _ _); [|destruct (split_on _ _)]]|].
    intros [= <- <-]. cbn [app]. f_equal. by apply IH.
Qed.

Definition not_dot (t : Token) : bool := not_tok Dot t.

Lemma reads_name fuel q : wf_name q = true -> (length (word_toks (name_words q)) < fuel)%nat ->
  reads not_dot (parse_qualified_ident fuel) (word_toks (name_words q)) q.
Proof.
  intros Hq. unfold name_words, wf_name in *. destruct (split_on "."%byte q) as [|x l] eqn:E; [by destruct q; cbn [split_on] in E; [|destruct (beqb _ _); [|destruct (split_on _ _)]]|].
  rewrite wt_ident, wt_concat. intros Hf. unfold parse_qualified_ident. apply reads_ident. intros i. rewrite <- (app_nil_r (concat _)).
  eapply (reads_then not_dot); [|by intros ? ?|]; [|rewrite <- (join_split _ _ _ _ E); apply reads_end].
  apply (reads_many not_dot (fun _ => true)); [len| |done| |].
  - intros t Ht. unfold not_dot, not_tok in Ht. by apply negb_true_iff in Ht.
  - intros y _. by eexists _, _.
  - intros y _ _. wt. apply reads_advance. intros _. apply reads_ident. intros _. apply reads_end.
Qed.

(** *** Annotations *)
Lemma second_front p t1 t2 ks : front p (t1 :: t2 :: ks) -> second_is_equals p = bool_decide (t2 = Equals).
Proof.
  intros Hf. destruct (front_peek p t1 _ Hf) as (_ & _ & _ & Hf1). destruct (front_lookup _ t2 ks Hf1) as (i & Hl & _). cbn [tokens set_pos pos] in Hl.
  unfold second_is_equals. rewrite Hl. by destruct t2.
Qed.

Lemma value_front v : is_value v -> exists t ts, value_tokens v = t :: ts /\ (forall s, t = Ident s -> ts = []) /\ t <> RParen.
Proof.
  intros (e & He & ->). rewrite value_tokens_show by done. induction e as [| | | | |o e IH|o l IHl r IHr|e IH]; cbn [expr_tokens wf_expr] in *; try by eexists _, [].
  - apply andb_true_iff in He as [Ho _]. eexists _, _. split; [done|]. by destruct o.
  - by eexists _, _.
  - destruct (grouped e); [by apply IH|by eexists _, _].
Qed.

Definition arg_follow (t : Token) : bool := bool_decide (t = Comma) || bool_decide (t = RParen).

Lemma arg_follow_cases t : arg_follow t = true -> t = Comma \/ t = RParen.
Proof. unfold arg_follow. intros [H|H]%orb_true_iff; apply bool_decide_eq_true in H; auto. Qed.

Lemma reads_annotation_arg fuel kv : (forall k, fst kv = Some k -> is_ident k = true) -> is_value (snd kv) ->
  (length (word_toks (annotation_arg_words kv)) < fuel)%nat -> reads arg_follow (annotation_arg fuel) (word_toks (annotation_arg_words kv)) kv.
Proof.
  destruct kv as [k v]. cbn [fst snd]. intros _ Hv. unfold annotation_arg_words. wt. cbn [fst snd]. intros Hf p rest Hp Hfo.
  assert (exists p', annotation_key p = (p', Ok k) /\ front p' (value_tokens v ++ rest)) as (p1 & E1 & Hp1).
  { unfold annotation_key. destruct k as [k|]; cbn [opt_words] in *; wt; cbn [app] in *.
    - destruct (front_peek p _ _ Hp) as (i & Ep & Ea & Hp1). destruct (front_peek _ _ _ Hp1) as (j & _ & Eb & Hp2). eexists. split; [|exact Hp2].
      erewrite bind_ok by exact Ep. cbn [fst]. unfold bind at 1. rewrite (second_front p _ _ _ Hp), bool_decide_eq_true_2 by done.
      erewrite bind_ok by exact Ea. erewrite bind_ok by exact Eb. done.
    - exists p. split; [|done]. destruct (value_front v Hv) as (t & ts & Et & Hs & _). rewrite Et in Hp. cbn [app] in Hp.
      destruct (front_peek p t _ Hp) as (i & Ep & _). erewrite bind_ok by exact Ep. cbn [fst]. destruct t; try done.
      rewrite (Hs _ eq_refl) in Hp. destruct rest as [|u rest]; [done|]. unfold bind. rewrite (second_front p _ _ _ Hp), bool_decide_eq_false_2; [done|].
      apply arg_follow_cases in Hfo as [->| ->]; done. }
  unfold annotation_arg. rewrite (bind_ok _ _ _ _ _ E1).
  destruct (reads_value fuel v Hv ltac:(len) p1 rest Hp1) as (p2 & E2 & Hp2).
  { destruct rest as [|u rest]; [done|]. by apply arg_follow_cases in Hfo as [->| ->]. }
  exists p2. by rewrite (bind_ok _ _ _ _ _ E2).
Qed.

Definition not_paren (t : Token) : bool := not_tok LParen t.
Definition anno_follow (t : Token) : bool := not_tok LParen t && not_tok At t.
Definition only (u t : Token) : bool := is_tok u t.

Lemma only_iff u t : only u t = true -> t = u.
Proof. unfold only, is_tok. by intros ->%bool_decide_eq_true. Qed.
Lemma not_tok_iff u t : not_tok u t = true <-> t <> u.
Proof. unfold not_tok, is_tok. by rewrite negb_true_iff, bool_decide_eq_false. Qed.

Lemma map_id' {X} (l : list X) : map (fun x => x) l = l.
Proof. apply map_id. Qed.

Lemma reads_annotation fuel a : wf_annotation a -> (length (word_toks (annotation_words a)) < fuel)%nat ->
  reads not_paren (parse_annotation fuel) (word_toks (annotation_words a)) a.
Proof.
  destruct a as [name args]. intros [Hn Ha]. cbn [an_name an_args] in *. unfold annotation_words, parse_annotation. cbn [an_name an_args]. wt. intros Hf.
  apply reads_advance. intros _. apply reads_ident. intros _. destruct args as [|a0 args].
  - cbn [map list_words]. apply (reads_peek not_paren (fun t => t <> LParen)); [intros t; apply not_tok_iff|]. intros t i Ht. cbn [fst]. rewrite bool_decide_eq_false_2 by done. apply reads_end.
  - set (l := a0 :: args) in *. assert (list_words LParen RParen (map annotation_arg_words l) = W LParen :: commas (map annotation_arg_words l) ++ [W RParen]) as E by done.
    rewrite E in *. wt. apply (reads_peek not_paren (fun t => t = LParen)); [done|]. intros t i ->. cbn [fst]. rewrite bool_decide_eq_true_2 by done. apply reads_advance. intros _.
    rewrite <- (map_id' l) at 2. eapply (reads_then (only RParen)); [|done|].
    + apply (reads_comma_list (only RParen) arg_follow); [len|intros u; apply only_iff|done|intros u ->%only_iff; done|done| |].
      * intros x Hx. rewrite List.Forall_forall in Ha. apply list_elem_of_In, Ha in Hx as [_ Hv]. unfold annotation_arg_words. destruct (fst x); cbn [opt_words]; wt; [by eexists _, _|].
        destruct (value_front _ Hv) as (t & ts & -> & _ & Ht). by exists t, ts.
      * intros x Hx Hl. rewrite List.Forall_forall in Ha. apply list_elem_of_In, Ha in Hx as [Hk Hv]. by apply reads_annotation_arg.
    + apply reads_token. intros _. rewrite map_id'. apply reads_end.
Qed.

Lemma reads_annotations fuel l : wf_annotations l -> (length (word_toks (annotations_words l)) < fuel)%nat ->
  reads anno_follow (parse_annotations fuel) (word_toks (annotations_words l)) l.
Proof.
  intros Hl. unfold annotations_words, parse_annotations. rewrite wt_concat. intros Hf. rewrite <- (map_id' l) at 2.
  apply (reads_many anno_follow not_paren); [done| | | |].
  - intros t [_ Ht]%andb_true_iff. apply not_tok_iff in Ht. by apply bool_decide_eq_false_2.
  - by intros t [Ht _]%andb_true_iff.
  - intros x _. eexists _, _. split; [by unfold annotation_words; wt|done].
  - intros x Hx Hx2. unfold wf_annotations in Hl. rewrite List.Forall_forall in Hl. apply reads_annotation; [|done]. by apply Hl, list_elem_of_In.
Qed.

(** *** Types *)
Definition type_follow (t : Token) : bool := not_tok Dot t && not_tok LAngle t && not_tok LBracket t.

Lemma reads_close {A} F (k : Z -> P A) ks y : (forall i, reads F (k i) ks y) -> reads F (bind expect_generic_close k) (RAngle :: ks) y.
Proof.
  intros Hk p rest Hf Hfo. destruct (front_peek p RAngle (ks ++ rest) Hf) as (i & Ep & Ea & Hf1).
  assert (expect_generic_close p = (set_pos (pos p + 1) p, Ok i)) as E.
  { unfold expect_generic_close. rewrite (bind_ok _ _ _ _ _ Ep). unfold expect_token. rewrite (bind_ok _ _ _ _ _ Ea). done. }
  rewrite (bind_ok _ _ _ _ _ E). by apply Hk.
Qed.

Lemma reads_dims {A} F fuel dims (k : list unit -> P A) ks y : (length (word_toks (concat (replicate dims [W LBracket; W RBracket]))) < fuel)%nat ->
  starts F ks (fun t => t <> LBracket) -> reads F (k (replicate dims tt)) ks y ->
  reads F (bind (while_ fuel (is_tok LBracket) (do! _ := advance in do! _ := expect_token RBracket in ret tt)) k)
    (word_toks (concat (replicate dims [W LBracket; W RBracket])) ++ ks) y.
Proof.
  intros Hf Hs Hk. assert (replicate dims [W LBracket; W RBracket] = map (fun _ => [W LBracket; W RBracket]) (replicate dims tt)) as E by (clear; induction dims as [|d IH]; [done|]; cbn [replicate map]; by rewrite IH).
  rewrite E in *. rewrite wt_concat in *. eapply (reads_then (not_tok LBracket)); [|by destruct ks; [intros t Ht; apply not_tok_iff, Hs|apply not_tok_iff]|].
  - apply (reads_many (not_tok LBracket) (fun _ => true) _ _ _ (fun x => x)); [done|by intros t Ht%not_tok_iff; apply bool_decide_eq_false_2|done|by intros; eexists _, _|].
    intros [] _ _. wt. apply reads_advance. intros _. apply reads_token. intros _. apply reads_end.
  - by rewrite map_id'.
Qed.

Lemma name_front q : wf_name q = true -> exists ts, word_toks (name_words q) = Ident (first_part q) :: ts.
Proof. unfold wf_name, name_words, first_part. destruct (split_on "."%byte q) as [|x l] eqn:E; [|by eexists]. by destruct q; cbn [split_on] in E; [|destruct (beqb _ _); [|destruct (split_on _ _)]]. Qed.

Definition nullable_annotation : Annotation := mk_annotation (B "nullable") [].
Lemma nullable_words b : if_words b [W At; kw "nullable"] = annotations_words (if b then [nullable_annotation] else []).
Proof. by destruct b. Qed.

(** The front of a type. *)
Lemma type_front t : wf_type t = true -> exists k ts, word_toks (type_words t) = k :: ts /\
  (k = At /\ is_nullable t = true \/ k = Ident (first_part (ty_name t)) /\ is_nullable t = false /\ first_part (ty_name t) ∉ RESERVED).
Proof.
  destruct t as [name args dims nullable]. intros Ht. cbn [wf_type ty_name is_nullable] in *. rewrite !andb_true_iff, negb_true_iff, bool_decide_eq_false in Ht. destruct Ht as [[[Hn Hr] _] _].
  destruct (name_front name Hn) as [ts E]. cbn [type_words]. destruct nullable; cbn [if_words app]; wt; [|rewrite E; cbn [app]]; eexists _, _; (split; [done|]); [by left|by right].
Qed.

Lemma reads_type t : wf_type t = true -> forall fuel, (length (word_toks (type_words t)) < fuel)%nat ->
  reads type_follow (parse_type fuel) (word_toks (type_words t)) t.
Proof.
  induction t as [name args dims nullable IH] using type_ind_strong. intros Ht [|fuel] Hf; [lia|].
  pose proof Ht as Ht'. cbn [wf_type ty_name] in Ht. rewrite !andb_true_iff in Ht. destruct Ht as [[[Hn _] Hv] Ha].
  destruct (name_front name Hn) as [nts Hnf]. cbn [parse_type type_words] in *. rewrite nullable_words in *. wt.
  assert (weaker type_follow not_dot /\ weaker type_follow (not_tok LAngle) /\ weaker type_follow (not_tok LBracket)) as (W1 & W2 & W3).
  { unfold type_follow. split_and!; intros u; rewrite !andb_true_iff; unfold not_dot; tauto. }
  eapply (reads_then anno_follow); [apply reads_annotations; [destruct nullable; repeat constructor|len]|by rewrite Hnf|].
  eapply (reads_then not_dot); [apply reads_name; [done|len]| |].
  { destruct args; cbn [map list_words]; wt; [|done]. cbn [app]. destruct dims; [exact W1|done]. }
  destruct args as [|a0 args].
  - cbn [map list_words] in *. rewrite wt_nil in *. cbn [app]. apply (reads_peek _ (fun u => u <> LAngle)); [destruct dims; [intros u Hu; apply not_tok_iff; by apply W2|done]|].
    intros u i Hu. cbn [fst]. rewrite bool_decide_eq_false_2 by done. change (word_toks ?x) with ([] ++ word_toks x).
    eapply (reads_then (fun _ => true)); [apply reads_end|by destruct dims|]. rewrite <- (app_nil_r (word_toks _)).
    apply reads_dims; [len|intros u' Hu'; apply not_tok_iff; by apply W3|]. rewrite length_replicate.
    assert (has_nullable (if nullable then [nullable_annotation] else []) = nullable) as -> by by destruct nullable.
    destruct (validate_type_shape (mk_type name [] dims nullable)) as [[]| |]; [|done|done]. intros p rest Hp Hfo. by exists p.
  - set (l := a0 :: args) in *. assert (list_words LAngle RAngle (map type_words l) = W LAngle :: commas (map type_words l) ++ [W RAngle]) as E by done.
    rewrite E in *. wt. apply (reads_peek _ (fun u => u = LAngle)); [done|]. intros u i ->. cbn [fst]. rewrite bool_decide_eq_true_2 by done.
    apply (reads_then (fun _ => true)) with (x := l); [|by destruct dims|].
    + apply reads_advance. intros _. rewrite <- (map_id' l) at 2. eapply (reads_then (only RAngle)); [|done|].
      * apply (reads_comma_list (only RAngle) type_follow); [len|intros w; apply only_iff|done|intros w ->%only_iff; done|done| |].
        -- intros x Hx. rewrite forallb_forall in Ha. apply list_elem_of_In, Ha in Hx. destruct (type_front x Hx) as (k & ts & -> & Hk). exists k, ts. split; [done|].
           by destruct Hk as [[-> _]|[-> _]].
        -- intros x Hx Hlx. rewrite forallb_forall in Ha. rewrite List.Forall_forall in IH. apply list_elem_of_In in Hx. by apply IH; [|apply Ha|].
      * apply reads_close. intros _. rewrite map_id'. apply reads_end.
    + rewrite <- (app_nil_r (word_toks _)). apply reads_dims; [len|intros u' Hu'; apply not_tok_iff; by apply W3|]. rewrite length_replicate.
      assert (has_nullable (if nullable then [nullable_annotation] else []) = nullable) as -> by by destruct nullable.
      destruct (validate_type_shape (mk_type name l dims nullable)) as [[]| |]; [|done|done]. intros p rest Hp Hfo. by exists p.
Qed.

(** *** Members *)
Definition anything (t : Token) : bool := true.

Lemma annos_start F l ks Q : Q At -> starts F ks Q -> starts F (word_toks (annotations_words l) ++ ks) Q.
Proof. intros HA Hk. destruct l as [|a l]; [done|]. unfold annotations_words. cbn [map concat]. by unfold annotation_words; wt. Qed.

Lemma starts_weaken F ks (Q R : Token -> Prop) : starts F ks Q -> (forall t, Q t -> R t) -> starts F ks R.
Proof. destruct ks; cbn [starts]; auto. Qed.

Lemma set_nullable_wf b t : wf_type (set_nullable b t) = wf_type t.
Proof. by destruct t. Qed.

Lemma set_nullable_front t : wf_type t = true -> exists ts, word_toks (type_words (set_nullable false t)) = Ident (first_part (ty_name t)) :: ts /\
  first_part (ty_name t) ∉ RESERVED.
Proof.
  intros Ht. destruct (type_front (set_nullable false t)) as (k & ts & E & [[_ H]|(-> & _ & H)]); [by rewrite set_nullable_wf|done|]. by exists ts.
Qed.

Lemma with_nullable_of annos t : is_nullable t = has_nullable annos -> with_nullable annos (set_nullable false t) = t.
Proof. unfold with_nullable. intros <-. destruct t as [n a d b]. by destruct b. Qed.

(** Annotations, and what comes after them. *)
Lemma reads_annos {A} F fuel l (k : list Annotation -> P A) ks y : wf_annotations l -> (length (word_toks (annotations_words l)) < fuel)%nat ->
  starts F ks (fun t => anno_follow t = true) -> reads F (k l) ks y -> reads F (bind (parse_annotations fuel) k) (word_toks (annotations_words l) ++ ks) y.
Proof. intros Hl Hf Hs Hk. eapply (reads_then anno_follow); [by apply reads_annotations|done|done]. Qed.

Lemma reads_ty {A} F fuel t (k : AidlType -> P A) ks y : wf_type t = true -> (length (word_toks (type_words t)) < fuel)%nat ->
  starts F ks (fun t => type_follow t = true) -> reads F (k t) ks y -> reads F (bind (parse_type fuel) k) (word_toks (type_words t) ++ ks) y.
Proof. intros Ht Hf Hs Hk. eapply (reads_then type_follow); [by apply reads_type|done|done]. Qed.

Lemma reads_val {A} F fuel v (k : bytes -> P A) ks y : is_value v -> (length (value_tokens v) < fuel)%nat ->
  starts F ks (fun t => no_operator t = true) -> reads F (k v) ks y -> reads F (bind (parse_expression_as_string fuel) k) (value_tokens v ++ ks) y.
Proof. intros Hv Hf Hs Hk. eapply (reads_then no_operator); [by apply reads_value|done|done]. Qed.

Lemma reads_qualified {A} F fuel q (k : bytes -> P A) ks y : wf_name q = true -> (length (word_toks (name_words q)) < fuel)%nat ->
  starts F ks (fun t => not_dot t = true) -> reads F (k q) ks y -> reads F (bind (parse_qualified_ident fuel) k) (word_toks (name_words q) ++ ks) y.
Proof. intros Hq Hf Hs Hk. eapply (reads_then not_dot); [by apply reads_name|done|done]. Qed.

(** Comparing words that are known. *)
Ltac decide_words :=
  repeat match goal with
  | |- context [bool_decide (B ?a = B ?b)] =>
      let v := eval vm_compute in (bool_decide (B a = B b)) in change (bool_decide (B a = B b)) with v; cbv iota
  end.

Lemma reads_direction {A} F d (k : option Direction -> P A) ks y :
  (d = None -> starts F ks (fun t => forall s, t = Ident s -> s ∉ RESERVED)) -> reads F (k d) ks y ->
  reads F (bind parse_direction k) (word_toks (opt_words direction_word d) ++ ks) y.
Proof.
  intros Hd Hk p rest Hp Hfo.
  assert (exists p', parse_direction p = (p', Ok d) /\ front p' (ks ++ rest)) as (p1 & E1 & Hp1).
  { unfold parse_direction. destruct d as [d|]; cbn [opt_words] in *.
    - destruct d; cbn [direction_word app] in *; wt; cbn [app] in Hp; destruct (front_peek p _ _ Hp) as (i & Ep & Ea & Hp1); (eexists; split; [|exact Hp1]);
        erewrite bind_ok by exact Ep; cbn [fst]; decide_words; (erewrite bind_ok; [reflexivity|exact Ea]).
    - wt. cbn [app] in Hp. exists p. split; [|done]. destruct (starts_front F ks _ p rest (Hd eq_refl) Hp Hfo) as (t & ks' & Hf' & Ht).
      destruct (front_peek p t ks' Hf') as (i & Ep & _). erewrite bind_ok by exact Ep. cbn [fst]. destruct t; try done. specialize (Ht s eq_refl). unfold RESERVED in Ht.
      cbn in Ht. rewrite !not_elem_of_cons in Ht. destruct_and!. by rewrite !bool_decide_eq_false_2 by done. }
  rewrite (bind_ok _ _ _ _ _ E1). by apply Hk.
Qed.

Ltac rd := repeat first
  [ apply reads_end | apply reads_ident; intros _ | apply reads_token; intros _ | apply reads_advance; intros _ ].

Lemma reads_arg fuel a : wf_arg a -> (length (word_toks (arg_words a)) < fuel)%nat -> reads anything (parse_arg fuel) (word_toks (arg_words a)) a.
Proof.
  destruct a as [annos d ty name]. intros (Ha & Ht & Hn & Hd). cbn [arg_annotations direction arg_ty arg_name] in *. unfold arg_words, parse_arg.
  cbn [arg_annotations direction arg_ty arg_name]. wt. intros Hf. destruct (type_front ty Ht) as (k & ts & Ek & Hk).
  apply reads_annos; [done|len| |].
  { destruct d as [[]|]; cbn [opt_words direction_word]; wt; try done. cbn [app]. rewrite Ek. destruct Hk as [[-> Hk]|[-> _]]; [by rewrite Hd in Hk|done]. }
  apply reads_direction.
  { intros ->. rewrite Ek. intros s ->. destruct Hk as [[Hk _]|(Hk & _ & H)]; [done|]. by injection Hk as ->. }
  apply reads_ty; [done|len|done|]. rd.
Qed.

Lemma reads_constant fuel c : wf_constant c -> (length (word_toks (constant_words c)) < fuel)%nat ->
  reads anything (parse_constant fuel) (tail (word_toks (constant_words c))) c.
Proof.
  destruct c as [ty name v]. intros (Ht & Hn & Hv). cbn [c_ty c_name c_value] in *. unfold constant_words, parse_constant. cbn [c_ty c_name c_value]. wt. cbn [tail]. intros Hf.
  apply reads_ty; [done|len|done|]. rd. apply reads_val; [done|len|done|]. rd.
Qed.

Lemma reads_method_id {A} F id (k : option Z -> P A) ks y : (forall n, id = Some n -> 0 <= n < 2 ^ 32) -> starts F ks (fun t => t <> Equals) ->
  reads F (k id) ks y -> reads F (bind parse_method_id k) (word_toks (opt_words (fun n => [W Equals; W (IntLit n)]) id) ++ ks) y.
Proof.
  intros Hid Hs Hk p rest Hp Hfo.
  assert (exists p', parse_method_id p = (p', Ok id) /\ front p' (ks ++ rest)) as (p1 & E1 & Hp1).
  { unfold parse_method_id. destruct id as [n|]; cbn [opt_words] in *; wt; cbn [app] in *.
    - destruct (front_peek p _ _ Hp) as (i & Ep & Ea & Hp1). destruct (front_peek _ _ _ Hp1) as (j & _ & Eb & Hp2). eexists. split; [|exact Hp2].
      erewrite bind_ok by exact Ep. cbn [fst]. rewrite bool_decide_eq_true_2 by done. erewrite bind_ok by exact Ea. erewrite bind_ok by exact Eb. cbn [fst].
      unfold ret, wrap. rewrite Z.mod_small; [done|]. by apply Hid.
    - exists p. split; [|done]. destruct (starts_front F ks _ p rest Hs Hp Hfo) as (t & ks' & Hf' & Ht). destruct (front_peek p t ks' Hf') as (i & Ep & _).
      erewrite bind_ok by exact Ep. cbn [fst]. by rewrite bool_decide_eq_false_2. }
  rewrite (bind_ok _ _ _ _ _ E1). by apply Hk.
Qed.

Lemma method_front oneway m : wf_method oneway m -> exists t ts, word_toks (method_words oneway m) = t :: ts /\ t <> RBrace /\
  starts anything (word_toks (if_words (m_oneway m && negb oneway) [kw "oneway"] ++ type_words (set_nullable false (return_type m))))
    (fun t => anno_follow t = true /\ t <> Ident (B "const")).
Proof.
  intros (_ & Ht & _). destruct (set_nullable_front (return_type m) Ht) as (ts & Et & Hr). unfold method_words. wt.
  assert (Ident (first_part (ty_name (return_type m))) <> Ident (B "const")) as Hc by (intros [= E]; apply Hr; rewrite E; vm_compute; constructor).
  destruct (m_annotations m) as [|a l]; [destruct (m_oneway m && negb oneway)|]; cbn [if_words annotations_words map concat]; wt; cbn [app]; rewrite ?Et; (eexists _, _; split; [done|split; [done|]]); try done.
  destruct (m_oneway m && negb oneway); cbn [if_words]; wt; cbn [app]; rewrite ?Et; done.
Qed.

Lemma reads_method fuel oneway m : wf_method oneway m -> (length (word_toks (method_words oneway m)) < fuel)%nat ->
  reads anything (parse_method fuel oneway (m_annotations m))
    (word_toks (if_words (m_oneway m && negb oneway) [kw "oneway"] ++ type_words (set_nullable false (return_type m))
      ++ word_ident (m_name m) :: W LParen :: commas (map arg_words (m_args m)) ++ W RParen :: opt_words (fun n => [W Equals; W (IntLit n)]) (m_id m) ++ [W Semi])) m.
Proof.
  destruct m as [annos ow rt name args id]. intros (_ & Ht & Hnull & Hn & Hargs & Hid & How). unfold method_words. cbn [m_annotations m_oneway return_type m_name m_args m_id] in *.
  destruct (set_nullable_front rt Ht) as (ts & Et & Hr). wt. intros Hf. unfold parse_method.
  assert (forall (k : bool -> P AidlMethod) ks, (forall b, oneway || b = ow -> reads anything (k b) (word_toks (type_words (set_nullable false rt)) ++ ks) (mk_method annos ow rt name args id)) ->
    reads anything (bind (match_ident (B "oneway")) k) (word_toks (if_words (ow && negb oneway) [kw "oneway"]) ++ word_toks (type_words (set_nullable false rt)) ++ ks)
      (mk_method annos ow rt name args id)) as Hone.
  { intros k ks Hk. destruct ow, oneway; cbn [andb negb if_words]; wt; cbn [app].
    - apply reads_match_no; [rewrite Et; intros [= E]; apply Hr; rewrite E; vm_compute; by do 2 constructor|]. by apply Hk.
    - apply reads_match_yes. by apply Hk.
    - by specialize (How eq_refl).
    - apply reads_match_no; [rewrite Et; intros [= E]; apply Hr; rewrite E; vm_compute; by do 2 constructor|]. by apply Hk. }
  apply Hone. clear Hone. intros b Hb. apply reads_ty; [by rewrite set_nullable_wf|len|done|]. rd.
  apply (reads_then (only RParen)) with (x := args); [|done|].
  - rewrite <- (map_id' args) at 2. apply (reads_comma_list (only RParen) anything); [len|intros w; apply only_iff|done|done|done| |].
    + intros x Hx. rewrite List.Forall_forall in Hargs. apply list_elem_of_In, Hargs in Hx as (_ & Hx & _ & Hd). destruct (type_front _ Hx) as (k & ks & Ek & Hk).
      unfold arg_words. wt. destruct (arg_annotations x) as [|a l]; cbn [annotations_words map concat]; wt; cbn [app]; [|by eexists _, _].
      destruct (direction x) as [[]|]; cbn [opt_words direction_word]; wt; cbn [app]; [by eexists _, _..|]. rewrite Ek. eexists _, _. split; [done|]. by destruct Hk as [[-> _]|[-> _]].
    + intros x Hx Hlx. rewrite List.Forall_forall in Hargs. apply list_elem_of_In, Hargs in Hx. by apply reads_arg.
  - rd. apply reads_method_id; [done|done|]. rd. rewrite Hb, with_nullable_of by done. apply reads_end.
Qed.

Lemma reads_member fuel oneway x : match x with inl c => wf_constant c | inr m => wf_method oneway m end ->
  (length (word_toks (member_words oneway x)) < fuel)%nat -> reads anything (parse_member fuel oneway) (word_toks (member_words oneway x)) x.
Proof.
  unfold parse_member. destruct x as [c|m]; cbn [member_words]; intros Hw Hf.
  - change (word_toks (constant_words c)) with (word_toks (annotations_words []) ++ word_toks (constant_words c)).
    apply reads_annos; [constructor|cbn; len|done|]. pose proof (reads_constant fuel c Hw Hf) as Hc. unfold constant_words in *. rewrite wt_kw in *. cbn [tail] in Hc.
    apply reads_match_yes. rewrite <- (app_nil_r (word_toks _)). eapply (reads_then anything); [exact Hc|done|apply reads_end].
  - destruct (method_front oneway m Hw) as (_ & _ & _ & _ & Hs). pose proof (reads_method fuel oneway m Hw Hf) as Hm. unfold method_words in *. rewrite wt_app in Hf |- *.
    assert (starts anything (word_toks (if_words (m_oneway m && negb oneway) [kw "oneway"] ++ type_words (set_nullable false (return_type m))
      ++ word_ident (m_name m) :: W LParen :: commas (map arg_words (m_args m)) ++ W RParen :: opt_words (fun n => [W Equals; W (IntLit n)]) (m_id m) ++ [W Semi]))
      (fun t => anno_follow t = true /\ t <> Ident (B "const"))) as Hs'.
    { destruct Hw as (_ & Ht & _). destruct (set_nullable_front (return_type m) Ht) as (ts & Et & _). clear -Hs Et. wt. rewrite Et in *. by destruct (m_oneway m && negb oneway). }
    destruct Hw as (Ha & _).
    apply reads_annos; [done|len|by eapply starts_weaken; [exact Hs'|intros t [? _]]|].
    apply reads_match_no; [by eapply starts_weaken; [exact Hs'|intros t [_ ?]]|].
    rewrite <- (app_nil_r (word_toks _)). eapply (reads_then anything); [exact Hm|done|apply reads_end].
Qed.

(** *** Declarations *)
Lemma reads_default {A} F fuel v (k : option bytes -> P A) ks y : wf_default v -> (length (word_toks (default_words v)) < fuel)%nat ->
  starts F ks (fun t => no_operator t = true /\ t <> Equals) -> reads F (k v) ks y -> reads F (bind (parse_default fuel) k) (word_toks (default_words v) ++ ks) y.
Proof.
  intros Hv Hf Hs Hk. eapply (reads_then (fun t => no_operator t && not_tok Equals t)).
  - unfold parse_default. destruct v as [v|]; cbn [default_words opt_words] in *; wt.
    + apply (reads_peek _ (fun t => t = Equals)); [done|]. intros t i ->. cbn [fst]. rewrite bool_decide_eq_true_2 by done. apply reads_advance. intros _.
      rewrite <- (app_nil_r (value_tokens v)). apply reads_val; [by apply Hv|len|by intros t [? _]%andb_true_iff|apply reads_end].
    + apply (reads_peek _ (fun t => t <> Equals)); [intros t [_ Ht]%andb_true_iff; by apply not_tok_iff|]. intros t i Ht. cbn [fst]. rewrite bool_decide_eq_false_2 by done. apply reads_end.
  - eapply starts_weaken; [exact Hs|]. intros t [H1 H2]. by rewrite H1, (proj2 (not_tok_iff _ _) H2).
  - done.
Qed.

(** What starts with annotations or a type is not the end of the list. *)
Lemma annotated_front l t ws : wf_type t = true -> exists k ts, word_toks (annotations_words l ++ type_words t ++ ws) = k :: ts /\ not_tok RBrace k = true.
Proof.
  intros Ht. destruct (type_front t Ht) as (k & ts & Ek & Hk). destruct l as [|a l]; cbn [annotations_words map concat]; wt; cbn [app]; [|by eexists _, _].
  rewrite Ek. eexists _, _. split; [done|]. by destruct Hk as [[-> _]|[-> _]].
Qed.

Lemma reads_field fuel f : wf_field f -> (length (word_toks (field_words f)) < fuel)%nat -> reads anything (parse_field fuel) (word_toks (field_words f)) f.
Proof.
  destruct f as [annos ty name v]. intros (Ha & Ht & Hnull & Hn & Hv). unfold field_words, parse_field. cbn [f_annotations f_ty f_name default_value] in *. wt. intros Hf.
  destruct (set_nullable_front ty Ht) as (ts & Et & _). apply reads_annos; [done|len|by rewrite Et|]. apply reads_ty; [by rewrite set_nullable_wf|len|done|]. rd.
  apply reads_default; [done|len|done|]. rd. rewrite with_nullable_of by done. apply reads_end.
Qed.

Lemma reads_union_field fuel f : wf_union_field f -> (length (word_toks (union_field_words f)) < fuel)%nat ->
  reads anything (parse_union_field fuel) (word_toks (union_field_words f)) f.
Proof.
  destruct f as [annos ty name v]. intros (Ha & Ht & Hnull & Hn & Hv). unfold union_field_words, parse_union_field. cbn [f_annotations f_ty f_name default_value] in *. subst v. wt. intros Hf.
  destruct (type_front ty Ht) as (k & ts & Ek & Hk). apply reads_annos; [done|len|rewrite Ek; by destruct Hk as [[_ Hk]|[-> _]]; [rewrite Hnull in Hk|]|].
  apply reads_ty; [done|len|done|]. rd.
Qed.

(** Members between braces. *)
Lemma reads_block {A C} F fuel (item : P A) (words : A -> list word) xs (k : list A -> P C) y : (length (word_toks (concat (map words xs))) < fuel)%nat ->
  (forall x, x ∈ xs -> exists t ts, word_toks (words x) = t :: ts /\ not_tok RBrace t = true) ->
  (forall x, x ∈ xs -> (length (word_toks (words x)) < fuel)%nat -> reads anything item (word_toks (words x)) x) ->
  reads F (k xs) [] y ->
  reads F (do! l := while_ fuel (not_tok RBrace) item in do! _ := expect_token RBrace in k l) (word_toks (concat (map words xs)) ++ [RBrace]) y.
Proof.
  intros Hf Hh Hr Hk. rewrite wt_concat in *. apply (reads_then (only RBrace)) with (x := xs); [|done|by apply reads_token].
  rewrite <- (map_id' xs) at 2. apply (reads_many (only RBrace) anything); [done|by intros t ->%only_iff|done| |done].
  intros x Hx. destruct (Hh x Hx) as (t & ts & E & Ht). by exists t, ts.
Qed.

Lemma lefts_mixed {X Y} (a : list X) (b : list Y) : lefts (map inl a ++ map inr b) = a.
Proof. induction a as [|x a IH]; [by induction b|]. unfold lefts in *. cbn [map app]. cbn. by rewrite IH. Qed.

Lemma rights_mixed {X Y} (a : list X) (b : list Y) : rights (map inl a ++ map inr b) = b.
Proof. induction a as [|x a IH]; [|exact IH]. induction b as [|y b IH]; [done|]. unfold rights in *. cbn [map app] in *. cbn. by rewrite IH. Qed.

Lemma reads_interface fuel i : wf_decl (Interface i) -> (length (word_toks (interface_words i)) < fuel)%nat ->
  reads anything (parse_interface fuel (i_annotations i) (i_oneway i)) (word_toks (interface_words i)) i.
Proof.
  intros (_ & Hn & He & Hc & Hm). unfold interface_words. rewrite wt_ident, wt_app. intros Hf. unfold parse_interface. apply reads_ident. intros _.
  assert (forall (k : option bytes -> P AidlInterface) ks, reads anything (k (extends i)) (LBrace :: ks) i -> reads anything
    (do! ext := match_ident (B "extends") in do! parent := (if ext : bool then do! q := parse_qualified_ident fuel in ret (Some q) else ret None) in k parent)
    (word_toks (opt_words (fun q => kw "extends" :: name_words q) (extends i)) ++ LBrace :: ks) i) as Hext.
  { intros k ks Hk. destruct (extends i) as [q|]; cbn [opt_words]; wt; cbn [app].
    - apply reads_match_yes. eapply (reads_then not_dot); [|done|exact Hk]. rewrite <- (app_nil_r (word_toks _)).
      apply reads_qualified; [by apply He|cbn [opt_words] in Hf; rewrite wt_kw in Hf; len|by intros ? ?|apply reads_end].
    - apply reads_match_no; [done|]. change (LBrace :: ks) with ([] ++ LBrace :: ks). eapply (reads_then anything); [apply reads_end|done|exact Hk]. }
  rewrite wt_W in *. apply Hext. rd. rewrite wt_app in *. apply reads_block; [len| | |].
  - intros x Hx. unfold members in Hx. apply elem_of_app in Hx as [Hx|Hx]; apply list_elem_of_In, in_map_iff in Hx as (z & <- & Hz); [by eexists _, _|].
    rewrite List.Forall_forall in Hm. destruct (method_front _ _ (Hm z Hz)) as (t & ts & E & Ht & _). exists t, ts. split; [done|by apply not_tok_iff].
  - intros x Hx Hlx. apply reads_member; [|done]. unfold members in Hx. apply elem_of_app in Hx as [Hx|Hx]; apply list_elem_of_In, in_map_iff in Hx as (z & <- & Hz).
    + rewrite List.Forall_forall in Hc. by apply Hc.
    + rewrite List.Forall_forall in Hm. by apply Hm.
  - unfold members. rewrite lefts_mixed, rights_mixed. destruct i. apply reads_end.
Qed.

Lemma reads_cpp_header {A} F h (k : option bytes -> P A) ks y : starts F ks (fun t => t <> Ident (B "cpp_header")) -> reads F (k h) ks y ->
  reads F (bind parse_cpp_header k) (word_toks (opt_words (fun h => [kw "cpp_header"; W (StringLit h)]) h) ++ ks) y.
Proof.
  intros Hs Hk. apply (reads_then (not_tok (Ident (B "cpp_header")))) with (x := h); [|by eapply starts_weaken; [exact Hs|]; intros t; apply not_tok_iff|done].
  unfold parse_cpp_header. destruct h as [h|]; cbn [opt_words]; wt.
  - apply reads_match_yes, reads_advance. intros i. apply reads_end.
  - apply reads_match_no; [intros t; apply not_tok_iff|apply reads_end].
Qed.

Lemma reads_parcelable fuel x : wf_decl (Parcelable x) -> (length (word_toks (parcelable_words x)) < fuel)%nat ->
  reads anything (parse_parcelable fuel (p_annotations x)) (word_toks (parcelable_words x)) x.
Proof.
  destruct x as [annos name h fields]. intros (_ & Hn & _ & Hfs). unfold parcelable_words. cbn [p_annotations p_name cpp_header p_fields] in *. rewrite wt_ident, wt_app. intros Hf.
  unfold parse_parcelable. apply reads_ident. intros _. apply reads_cpp_header; [by destruct fields|]. destruct fields as [|f0 fs].
  - apply (reads_peek _ (fun t => t = Semi)); [done|]. intros t i ->. cbn [fst]. rewrite bool_decide_eq_true_2 by done. rewrite wt_W. rd.
  - set (l := f0 :: fs) in *. apply (reads_peek _ (fun t => t = LBrace)); [done|]. intros t i ->. cbn [fst]. rewrite bool_decide_eq_false_2 by done. rewrite wt_W, wt_app in *. rd.
    apply reads_block; [len| | |apply reads_end].
    + intros x Hx. rewrite List.Forall_forall in Hfs. apply list_elem_of_In, Hfs in Hx as (_ & Ht & _). unfold field_words. apply annotated_front. by rewrite set_nullable_wf.
    + intros x Hx Hlx. rewrite List.Forall_forall in Hfs. apply list_elem_of_In, Hfs in Hx. by apply reads_field.
Qed.

Lemma reads_enum fuel x : wf_decl (Enum x) -> (length (word_toks (enum_words x)) < fuel)%nat ->
  reads anything (parse_enum fuel (e_annotations x)) (word_toks (enum_words x)) x.
Proof.
  destruct x as [annos name bt vs]. intros (_ & Hn & Hbt & Hvs). unfold enum_words, parse_enum. cbn [e_annotations e_name backing_type variants] in *. subst bt. wt. intros Hf. rd.
  apply (reads_then (only RBrace)) with (x := vs); [|done|rd]. rewrite <- (map_id' vs) at 2.
  apply (reads_comma_list (only RBrace) (fun t => only RBrace t || only Comma t)); [len|intros w; apply only_iff|done|by intros w ->|done|by intros; eexists _, _|].
  intros v Hv Hlv. rewrite List.Forall_forall in Hvs. apply list_elem_of_In, Hvs in Hv as [Hi Hd]. destruct v as [n d]. unfold variant_words, parse_variant in *.
  cbn [v_name v_value] in *. rewrite wt_ident in *. rd. rewrite <- (app_nil_r (word_toks _)). apply reads_default; [done|len| |apply reads_end].
  intros t [->%only_iff| ->%only_iff]%orb_true_iff; done.
Qed.

Lemma reads_union fuel x : wf_decl (Union x) -> (length (word_toks (union_words x)) < fuel)%nat ->
  reads anything (parse_union fuel (u_annotations x)) (word_toks (union_words x)) x.
Proof.
  destruct x as [annos name fields]. intros (_ & Hn & Hfs). unfold union_words, parse_union. cbn [u_annotations u_name u_fields] in *. rewrite wt_ident, wt_W, wt_app. intros Hf. rd.
  apply reads_block; [len| | |apply reads_end].
  - intros x Hx. rewrite List.Forall_forall in Hfs. apply list_elem_of_In, Hfs in Hx as (_ & Ht & _). unfold union_field_words. by apply annotated_front.
  - intros x Hx Hlx. rewrite List.Forall_forall in Hfs. apply list_elem_of_In, Hfs in Hx. by apply reads_union_field.
Qed.

Lemma reads_decl fuel d : wf_decl d -> (length (word_toks (decl_words d)) < fuel)%nat -> reads anything (parse_decl fuel) (word_toks (decl_words d)) d.
Proof.
  intros Hd Hf. unfold parse_decl. destruct d as [i|x|e|u]; cbn [decl_words] in *; rewrite wt_app in *.
  - apply reads_annos; [apply Hd|len|by rewrite wt_app; destruct (i_oneway i)|]. rewrite wt_app, wt_kw in *.
    assert (forall (k : bool -> P AidlDecl) ks, reads anything (k (i_oneway i)) (Ident (B "interface") :: ks) (Interface i) ->
      reads anything (bind (match_ident (B "oneway")) k) (word_toks (if_words (i_oneway i) [kw "oneway"]) ++ Ident (B "interface") :: ks) (Interface i)) as Hone.
    { intros k ks Hk. destruct (i_oneway i); cbn [if_words]; wt; cbn [app]; [by apply reads_match_yes|by apply reads_match_no]. }
    apply Hone. apply reads_ident. intros idx. decide_words. rewrite <- (app_nil_r (word_toks _)). eapply (reads_then anything); [apply reads_interface; [done|len]|done|apply reads_end].
  - apply reads_annos; [apply Hd|len|done|]. rewrite wt_kw in *. apply reads_match_no; [done|]. apply reads_ident. intros idx. decide_words.
    rewrite <- (app_nil_r (word_toks _)). eapply (reads_then anything); [apply reads_parcelable; [done|len]|done|apply reads_end].
  - apply reads_annos; [apply Hd|len|done|]. rewrite wt_kw in *. apply reads_match_no; [done|]. apply reads_ident. intros idx. decide_words.
    rewrite <- (app_nil_r (word_toks _)). eapply (reads_then anything); [apply reads_enum; [done|len]|done|apply reads_end].
  - apply reads_annos; [apply Hd|len|done|]. rewrite wt_kw in *. apply reads_match_no; [done|]. apply reads_ident. intros idx. decide_words.
    rewrite <- (app_nil_r (word_toks _)). eapply (reads_then anything); [apply reads_union; [done|len]|done|apply reads_end].
Qed.

(** *** Files *)
Lemma reads_item fuel i : wf_item i -> (length (word_toks (item_words i)) < fuel)%nat -> reads anything (parse_item fuel) (word_toks (item_words i)) i.
Proof.
  intros Hi Hf. unfold parse_item. destruct i as [q|q|d]; cbn [item_words wf_item] in *.
  - rewrite wt_kw, wt_app in *. apply reads_match_yes. apply reads_qualified; [done|len|done|]. rewrite wt_W. rd.
  - rewrite wt_kw, wt_app in *. apply reads_match_no; [done|]. apply reads_match_yes. apply reads_qualified; [done|len|done|]. rewrite wt_W. rd.
  - assert (exists t ts, word_toks (decl_words d) = t :: ts /\ t <> Ident (B "package") /\ t <> Ident (B "import")) as (t & ts & E & H1 & H2).
    { destruct d as [i|x|e|u]; cbn [decl_words]; wt; cbn [app];
        [destruct (i_annotations i); [destruct (i_oneway i)|]|destruct (p_annotations x)|destruct (e_annotations e)|destruct (u_annotations u)];
        cbn [annotations_words map concat if_words]; unfold annotation_words; wt; cbn [app]; by eexists _, _. }
    apply reads_match_no; [by rewrite E|]. apply reads_match_no; [by rewrite E|]. rewrite <- (app_nil_r (word_toks _)).
    eapply (reads_then anything); [by apply reads_decl|done|apply reads_end].
Qed.

Lemma item_front i : wf_item i -> exists t ts, word_toks (item_words i) = t :: ts /\ t <> Eof.
Proof.
  destruct i as [q|q|d]; [by eexists _, _..|]. intros _. destruct d as [i|x|e|u]; cbn [item_words decl_words]; wt; cbn [app];
    [destruct (i_annotations i); [destruct (i_oneway i)|]|destruct (p_annotations x)|destruct (e_annotations e)|destruct (u_annotations u)];
    cbn [annotations_words map concat if_words]; unfold annotation_words; wt; cbn [app]; by eexists _, _.
Qed.

Lemma items_file f : fold_left add_item (items f) (mk_file None [] []) = f.
Proof.
  destruct f as [pkg imps ds]. unfold items. cbn [package imports decls]. rewrite !fold_left_app.
  assert (fold_left add_item (option_list (IPackage <$> pkg)) (mk_file None [] []) = mk_file pkg [] []) as -> by by destruct pkg.
  assert (forall done, fold_left add_item (map IImport imps) (mk_file pkg done []) = mk_file pkg (done ++ imps) []) as ->.
  { induction imps as [|i l IH]; intros dn; cbn [map fold_left]; [by rewrite app_nil_r|]. cbn [add_item package imports decls]. rewrite IH. by rewrite <- app_assoc. }
  assert (forall done, fold_left add_item (map IDecl ds) (mk_file pkg imps done) = mk_file pkg imps (done ++ ds)) as H.
  { induction ds as [|i l IH]; intros dn; cbn [map fold_left]; [by rewrite app_nil_r|]. cbn [add_item package imports decls]. rewrite IH. by rewrite <- app_assoc. }
  apply (H []).
Qed.

Lemma parse_printed f ts : wf_file f -> map fst ts = word_toks (concat (map item_words (items f))) ++ [Eof] -> snd (parse_file (mk_parser ts 0)) = Ok f.
Proof.
  intros Hf Hts. unfold parse_file. cbn [tokens]. set (fuel := S (2 * length ts)). rewrite wt_concat in Hts.
  assert (length (concat (map (fun i => word_toks (item_words i)) (items f))) < fuel)%nat as Hl.
  { apply (f_equal length) in Hts. rewrite length_map, length_app in Hts. unfold fuel. lia. }
  unfold wf_file in Hf. rewrite List.Forall_forall in Hf.
  assert (reads (only Eof) (while_ fuel (not_tok Eof) (parse_item fuel)) (concat (map (fun i => word_toks (item_words i)) (items f))) (items f)) as Hr.
  { rewrite <- (map_id' (items f)) at 2. apply (reads_many (only Eof) anything); [done|by intros t ->%only_iff|done| |].
    - intros i Hi. apply list_elem_of_In, Hf, item_front in Hi as (t & tl & E & Ht). exists t, tl. split_and!; [done|by apply not_tok_iff|done].
    - intros i Hi Hli. apply reads_item; [|done]. by apply Hf, list_elem_of_In. }
  destruct (Hr (mk_parser ts 0) [Eof]) as (p' & E & _); [split; [done|exact Hts]|done|]. rewrite (bind_ok _ _ _ _ _ E). unfold ret. cbn [snd]. by rewrite items_file.
Qed.

(** *** The words are printable *)
Lemma wfw_concat {X} (f : X -> list word) xs : Forall (fun x => Forall wf_word (f x)) xs -> Forall wf_word (concat (map f xs)).
Proof. induction 1 as [|x xs Hx Hxs IH]; [constructor|]. cbn [map concat]. by apply Forall_app. Qed.

Lemma wfw_commas {X} (f : X -> list word) xs : Forall (fun x => Forall wf_word (f x)) xs -> Forall wf_word (commas (map f xs)).
Proof.
  induction 1 as [|x xs Hx Hxs IH]; [constructor|]. destruct xs as [|y ys]; [exact Hx|]. cbn [map] in *. change (commas (?a :: ?b :: ?l)) with (a ++ W Comma :: commas (b :: l)).
  apply Forall_app. split; [done|]. by constructor.
Qed.

Lemma wfw_list {X} open close (f : X -> list word) xs : wf_token open = true -> wf_token close = true -> Forall (fun x => Forall wf_word (f x)) xs ->
  Forall wf_word (list_words open close (map f xs)).
Proof.
  intros Ho Hc H. destruct xs as [|x xs]; [constructor|]. cbn [map list_words]. constructor; [done|]. apply Forall_app. split; [by apply (wfw_commas f (x :: xs))|by constructor].
Qed.

Lemma wfw_opt {X} (f : X -> list word) o : (forall x, o = Some x -> Forall wf_word (f x)) -> Forall wf_word (opt_words f o).
Proof. intros H. destruct o; [by apply H|constructor]. Qed.

Lemma wfw_if b l : Forall wf_word l -> Forall wf_word (if_words b l).
Proof. intros H. destruct b; [done|constructor]. Qed.

Lemma wfw_name q : wf_name q = true -> Forall wf_word (name_words q).
Proof.
  unfold wf_name, name_words. destruct (split_on "."%byte q) as [|x l]; [constructor|]. cbn [forallb]. intros [Hx Hl]%andb_true_iff. constructor; [done|].
  apply wfw_concat. apply List.Forall_forall. intros y Hy. rewrite forallb_forall in Hl. constructor; [done|]. constructor; [by apply Hl|constructor].
Qed.

Lemma wfw_annotations l : wf_annotations l -> Forall wf_word (annotations_words l).
Proof.
  intros H. apply wfw_concat. eapply List.Forall_impl; [|exact H]. intros a [Hn Ha]. constructor; [done|]. constructor; [done|]. apply wfw_list; [done|done|].
  eapply List.Forall_impl; [|exact Ha]. intros [k v] [Hk Hv]. apply Forall_app. split; [apply wfw_opt; intros x E; by repeat constructor; apply Hk|by constructor].
Qed.

Lemma wfw_type t : wf_type t = true -> Forall wf_word (type_words t).
Proof.
  induction t as [name args dims nullable IH] using type_ind_strong. intros Ht. cbn [wf_type ty_name] in Ht. rewrite !andb_true_iff in Ht. destruct Ht as [[[Hn _] _] Ha].
  cbn [type_words]. repeat (apply Forall_app; split).
  - apply wfw_if. by repeat constructor.
  - by apply wfw_name.
  - apply wfw_list; [done|done|]. apply List.Forall_forall. intros x Hx. rewrite List.Forall_forall in IH. rewrite forallb_forall in Ha. by apply IH, Ha.
  - induction dims as [|d IHd]; [constructor|]. cbn [replicate concat]. by repeat constructor.
Qed.

Lemma wfw_args l : Forall wf_arg l -> Forall wf_word (commas (map arg_words l)).
Proof.
  intros H. apply wfw_commas. eapply List.Forall_impl; [|exact H]. intros [annos d ty name] (Ha & Ht & Hn & _). unfold arg_words. cbn in *.
  repeat (apply Forall_app; split); [by apply wfw_annotations|apply wfw_opt; intros x _; destruct x; by repeat constructor|by apply wfw_type|by repeat constructor].
Qed.

Lemma wfw_default v : wf_default v -> Forall wf_word (default_words v).
Proof. intros H. apply wfw_opt. intros x E. constructor; [done|]. constructor; [by apply H|constructor]. Qed.

Lemma wfw_method oneway m : wf_method oneway m -> Forall wf_word (method_words oneway m).
Proof.
  intros (Ha & Ht & _ & Hn & Hargs & Hid & _). unfold method_words. apply Forall_app. split; [by apply wfw_annotations|].
  apply Forall_app. split; [apply wfw_if; by repeat constructor|]. apply Forall_app. split; [apply wfw_type; by rewrite set_nullable_wf|].
  constructor; [done|]. constructor; [done|]. apply Forall_app. split; [by apply wfw_args|]. constructor; [done|]. apply Forall_app. split; [|by repeat constructor].
  apply wfw_opt. intros n E. specialize (Hid n E). constructor; [done|]. constructor; [|constructor]. cbn. lia.
Qed.

Lemma wfw_constant c : wf_constant c -> Forall wf_word (constant_words c).
Proof. intros (Ht & Hn & Hv). constructor; [done|]. apply Forall_app. split; [by apply wfw_type|]. by repeat constructor. Qed.

Lemma wfw_field f : wf_field f -> Forall wf_word (field_words f).
Proof.
  intros (Ha & Ht & _ & Hn & Hv). unfold field_words. apply Forall_app. split; [by apply wfw_annotations|]. apply Forall_app. split; [apply wfw_type; by rewrite set_nullable_wf|].
  constructor; [done|]. apply Forall_app. split; [by apply wfw_default|by repeat constructor].
Qed.

Lemma wfw_union_field f : wf_union_field f -> Forall wf_word (union_field_words f).
Proof.
  intros (Ha & Ht & _ & Hn & _). unfold union_field_words. apply Forall_app. split; [by apply wfw_annotations|]. apply Forall_app. split; [by apply wfw_type|]. by repeat constructor.
Qed.

Lemma wfw_item i : wf_item i -> Forall wf_word (item_words i).
Proof.
  destruct i as [q|q|d]; cbn [wf_item item_words]; [intros Hq; constructor; [done|]; apply Forall_app; split; [by apply wfw_name|by repeat constructor]..|].
  destruct d as [i|x|e|u]; cbn [wf_decl decl_words].
  - intros (Ha & Hn & He & Hc & Hm). apply Forall_app. split; [by apply wfw_annotations|]. apply Forall_app. split; [apply wfw_if; by repeat constructor|]. constructor; [done|].
    unfold interface_words. constructor; [done|]. apply Forall_app. split; [apply wfw_opt; intros q E; constructor; [done|apply wfw_name; by apply He]|]. constructor; [done|].
    apply Forall_app. split; [|by repeat constructor]. apply wfw_concat. unfold members. apply Forall_app.
    split; apply List.Forall_map; (eapply List.Forall_impl; [|eassumption]); [apply wfw_constant|apply wfw_method].
  - intros (Ha & Hn & Hh & Hf). apply Forall_app. split; [by apply wfw_annotations|]. constructor; [done|]. constructor; [done|]. apply Forall_app.
    split; [apply wfw_opt; intros h E; constructor; [done|]; constructor; [by apply Hh|constructor]|]. destruct (p_fields x) as [|f0 l]; [by repeat constructor|]. constructor; [done|].
    apply Forall_app. split; [|by repeat constructor]. apply (wfw_concat field_words (f0 :: l)). eapply List.Forall_impl; [apply wfw_field|exact Hf].
  - intros (Ha & Hn & _ & Hv). apply Forall_app. split; [by apply wfw_annotations|]. constructor; [done|]. constructor; [done|]. constructor; [done|]. apply Forall_app.
    split; [|by repeat constructor]. apply wfw_commas. eapply List.Forall_impl; [|exact Hv]. intros v [Hi Hd]. constructor; [done|by apply wfw_default].
  - intros (Ha & Hn & Hf). apply Forall_app. split; [by apply wfw_annotations|]. constructor; [done|]. constructor; [done|]. constructor; [done|]. apply Forall_app.
    split; [|by repeat constructor]. apply wfw_concat. eapply List.Forall_impl; [apply wfw_union_field|exact Hf].
Qed.

(** C29: printing and parsing declarations. A file of interfaces, parcelables, enums and unions, with their annotations, types,
    constants and defaults, that is printed with a space between the tokens is read back as the same file. *)
Theorem aidl_roundtrip f : wf_file f -> parse_aidl (print_file f) = Ok f.
Proof.
  intros Hf. unfold parse_aidl, parse_str, print_file. destruct (tokenize_text (concat (map item_words (items f)))) as (ts & -> & Hts).
  { apply wfw_concat. eapply List.Forall_impl; [apply wfw_item|exact Hf]. }
  cbn [res_bind]. by apply parse_printed.
Qed.

(** *** What the parser accepts *)
Definition next_of (p : Parser) : Token := match rest_of p with t :: _ => fst t | [] => Eof end.

Lemma peek_next p : wfp p -> exists t, peek p = (p, Ok t) /\ fst t = next_of p.
Proof.
  intros Hp. destruct (peek_cases p Hp) as (t & E & [(_ & _ & Hr)|(Hpos & Ht & _)]); exists t; (split; [done|]); unfold next_of; [by rewrite Hr|].
  unfold rest_of. rewrite drop_ge; [done|]. unfold zlen in Hpos. lia.
Qed.

Lemma advance_taken p p' t : wfp p -> advance p = (p', Ok t) -> fst t <> Eof -> wfp p' /\ map fst (rest_of p) = fst t :: map fst (rest_of p').
Proof.
  intros Hp Ha Ht. destruct (peek_cases p Hp) as (u & Hpk & [(Hlt & Hs & Hr)|(_ & He & Hs)]); unfold advance, bind in Ha; rewrite Hpk, Hs in Ha; injection Ha as <- <-; [|done].
  split; [by apply wfp_step|]. by rewrite Hr.
Qed.

Lemma bind_inv {S E A C} (m : M S E A) (k : A -> M S E C) s s' c : bind m k s = (s', Ok c) -> exists s1 a, m s = (s1, Ok a) /\ k a s1 = (s', Ok c).
Proof. unfold bind. destruct (m s) as [s1 [a| |]]; [eauto|done|done]. Qed.

(** Read so far: at the level of the loop, and at that of the operator that comes next. *)
Definition sofar (m : Z) (ks : list Token) (e : expr) (t : Token) : Prop :=
  groups m (multiplicative t) ks e /\ (is_binary t = true -> m <= precedence t -> groups (precedence t) (multiplicative t) ks e).

Lemma sofar_any m ks e t : (forall q, groups q (multiplicative t) ks e) -> sofar m ks e t.
Proof. intros H. by split. Qed.

Lemma multiplicative_iff o : is_binary o = true -> multiplicative o = (precedence o =? 10).
Proof. by destruct o. Qed.

(** What an expression of the parser has read. *)
Definition has_read (m : Z) (p p' : Parser) (v : bytes) : Prop :=
  wfp p' /\ exists ks e, groups m (multiplicative (next_of p')) ks e /\ v = show e /\ map fst (rest_of p) = ks ++ map fst (rest_of p') /\
    (is_binary (next_of p') = true -> precedence (next_of p') < m).

Lemma expression_inv fuel : (forall m p p' v, wfp p -> m <= 11 -> parse_expression_bp fuel m p = (p', Ok v) -> has_read m p p' v) /\
  (forall m p p' lhs v ks e p0, wfp p -> m <= 11 -> lhs = show e -> sofar m ks e (next_of p) -> map fst (rest_of p0) = ks ++ map fst (rest_of p) ->
     binary_loop fuel m lhs p = (p', Ok v) -> has_read m p0 p' v).
Proof.
  induction fuel as [|fuel [IHb IHl]]; [done|]. split.
  - intros m p p' v Hp Hm H. cbn [parse_expression_bp] in H. apply bind_inv in H as (p1 & t & Ha & H). apply bind_inv in H as (p2 & lhs & Hop & H).
    assert (fst t <> Eof) as Ht by (intros E; rewrite E in Hop; done). destruct (advance_taken p p1 t Hp Ha Ht) as [Hp1 Hr].
    assert (wfp p2 /\ exists ks e, lhs = show e /\ (forall q, groups q (multiplicative (next_of p2)) ks e) /\ map fst (rest_of p) = ks ++ map fst (rest_of p2))
      as (Hp2 & ks & e & -> & Hg & Hk); [|by eapply IHl; [| | |apply sofar_any, Hg|exact Hk|exact H]].
    assert (forall o, is_unary o = true -> fst t = o -> forall w, parse_expression_bp fuel 10 p1 = (p2, Ok w) -> lhs = symbol o ++ w ->
      wfp p2 /\ exists ks e, lhs = show e /\ (forall q, groups q (multiplicative (next_of p2)) ks e) /\ map fst (rest_of p) = ks ++ map fst (rest_of p2)) as Hsign.
    { intros o Ho Eo w Hw ->. destruct (IHb 10 p1 p2 w Hp1 ltac:(lia) Hw) as (Hp2 & ks & e & Hg & -> & Hk & Hn). split; [done|].
      assert (multiplicative (next_of p2) = false) as Hmul.
      { destruct (multiplicative (next_of p2)) eqn:E; [|done]. exfalso. destruct (next_of p2); try discriminate E; specialize (Hn eq_refl); vm_compute in Hn; done. }
      rewrite Hmul in *. exists (o :: ks), (EUn o e). split_and!; [done| |by rewrite Hr, Hk, Eo]. intros q. by apply g_sign. }
    destruct (fst t) eqn:Et; try done;
      try (unfold ret in Hop; injection Hop as <- <-; split; [done|]; eexists [_], _; split_and!; [| |rewrite Hr; reflexivity]; [|intros q; apply g_atom; constructor]; done);
      try (apply bind_inv in Hop as (p3 & w & Hw & Hop); unfold ret in Hop; injection Hop as <- <-; eapply Hsign; [|reflexivity|exact Hw|reflexivity]; reflexivity).
    apply bind_inv in Hop as (p3 & w & Hw & Hop). apply bind_inv in Hop as (p4 & i & Hc & Hop). unfold ret in Hop. injection Hop as <- <-.
    destruct (IHb 0 p1 p3 w Hp1 ltac:(lia) Hw) as (Hp3 & ks & e & Hg & -> & Hk & Hn). unfold expect_token in Hc. apply bind_inv in Hc as (p5 & u & Hu & Hc).
    case_bool_decide as Eu; [|done]. unfold ret in Hc. injection Hc as <- <-. destruct (advance_taken p3 p5 u Hp3 Hu) as [Hp5 Hr3]; [by rewrite Eu|]. split; [done|].
    assert (next_of p3 = RParen) as En by (unfold next_of; destruct (rest_of p3); [done|]; cbn [map] in Hr3; injection Hr3 as -> _; done). rewrite En in Hg.
    exists (LParen :: ks ++ [RParen]), (EPar e). split_and!; [done|intros q; by apply g_paren|]. rewrite Hr, Hk, Hr3, Eu. cbn [app]. by rewrite <- app_assoc.
  - intros m p p' lhs v ks e p0 Hp Hm -> Hs Hk H. cbn [binary_loop] in H. destruct (peek_next p Hp) as (t & Hpk & Ht). unfold binary_operator in H.
    erewrite bind_ok in H; [|by erewrite bind_ok by exact Hpk]. cbn beta in H. rewrite Ht in H. destruct Hs as [Hs1 Hs2].
    destruct (operator_of (next_of p)) as [[o r]|] eqn:Eo.
    + assert (is_binary (next_of p) = true) as Hb by (unfold is_binary; by rewrite Eo). destruct (operator_symbol _ Hb) as [Eo' Hrange]. rewrite Eo in Eo'. injection Eo' as -> ->.
      destruct (Z.ltb_spec (precedence (next_of p)) m) as [Hlt|Hge].
      { unfold ret in H. injection H as <- <-. split; [done|]. exists ks, e. by split_and!. }
      apply bind_inv in H as (p1 & u & Ha & H). apply bind_inv in H as (p2 & w & Hw & H).
      assert (fst u = next_of p) as Eu by (unfold advance in Ha; apply bind_inv in Ha as (? & ? & Hx & Ha); rewrite Hpk in Hx; injection Hx as <- <-; apply bind_inv in Ha as (? & ? & _ & Ha);
        unfold ret in Ha; by injection Ha as _ <-).
      destruct (advance_taken p p1 u Hp Ha) as [Hp1 Hr]; [intros E; by rewrite <- Eu, E in Hb|].
      destruct (IHb (precedence (next_of p) + 1) p1 p2 w Hp1 ltac:(lia) Hw) as (Hp2 & k2 & e2 & Hg2 & -> & Hk2 & Hn2). specialize (Hs2 Hb Hge). rewrite (multiplicative_iff _ Hb) in Hs2.
      eapply IHl with (ks := ks ++ next_of p :: k2) (e := EBin (next_of p) e e2); [done|done|done| | |exact H].
      * split; [by apply g_binary|]. intros Hb2 _. apply g_binary; [done|specialize (Hn2 Hb2); lia|done|done].
      * rewrite Hk, Hr, Hk2, Eu. by rewrite <- app_assoc.
    + unfold ret in H. injection H as <- <-. split; [done|]. exists ks, e. split_and!; [done|done|done|]. unfold is_binary. by rewrite Eo.
Qed.

Lemma groups_no_eof q tail ks e : groups q tail ks e -> Eof ∉ ks.
Proof.
  induction 1 as [q tail t e Ha|q o ks e Ho _ IH|q tail ks e _ IH|q tail o k1 k2 l r Ho _ _ IH1 _ IH2]; rewrite ?not_elem_of_cons, ?not_elem_of_app, ?not_elem_of_cons.
  - split; [|apply not_elem_of_nil]. by destruct Ha.
  - split; [by destruct o|done].
  - split; [done|]. split; [done|]. split; [done|apply not_elem_of_nil].
  - split; [done|]. split; [by destruct o|done].
Qed.

Lemma left_length p : (length (rest_of p) <= left_of p)%nat.
Proof. unfold left_of. induction (rest_of p) as [|t ts IH]; [done|]. rewrite weight_cons. pose proof (token_weight_pos t). cbn [length]. lia. Qed.

Lemma rest_eof p rest ks : wfp p -> map fst (rest_of p) = ks ++ rest -> Eof ∉ ks -> pos p < zlen (tokens p) -> rest <> [].
Proof.
  intros [Hr [i Hi]] Hk Hks Hlt ->. rewrite app_nil_r in Hk. apply Hks. rewrite <- Hk. apply list_elem_of_In, in_map_iff. exists (Eof, i). split; [done|].
  apply list_elem_of_In. unfold rest_of. assert (list.last (drop (Z.to_nat (pos p)) (tokens p)) = Some (Eof, i)) as Hl.
  { rewrite <- Hi. rewrite <- (take_drop (Z.to_nat (pos p)) (tokens p)) at 2. rewrite last_app. destruct (drop (Z.to_nat (pos p)) (tokens p)) as [|x d] eqn:E.
    - apply (f_equal length) in E. rewrite length_drop in E. cbn [length] in E. unfold zlen in *. lia.
    - destruct (list.last (x :: d)) eqn:El; [done|]. by apply last_None in El. }
  rewrite last_lookup in Hl. by eapply list_elem_of_lookup_2.
Qed.

(** What is read is what the grammar groups. *)
Lemma expression_groups fuel p v rest : wfp p -> (left_of p < fuel)%nat ->
  (exists p', parse_expression_as_string fuel p = (p', Ok v) /\ 0 <= pos p' /\ map fst (rest_of p') = rest) <->
  (exists ks e, groups 0 false ks e /\ v = show e /\ map fst (rest_of p) = ks ++ rest /\ no_operator (default Eof (head rest)) = true).
Proof.
  intros Hp Hf. split.
  - intros (p' & H & _ & <-). destruct (proj1 (expression_inv fuel) 0 p p' v Hp ltac:(lia) H) as (_ & ks & e & Hg & -> & Hk & Hn).
    assert (is_binary (next_of p') = false) as Hb by (destruct (is_binary (next_of p')) eqn:E; [specialize (Hn eq_refl); destruct (operator_symbol _ E); lia|done]).
    assert (multiplicative (next_of p') = false) as Hm by (by destruct (next_of p')).
    exists ks, e. split_and!; [by rewrite <- Hm|done|done|]. unfold next_of, is_binary in Hb. unfold no_operator. destruct (rest_of p'); [done|]. cbn. by destruct (operator_of _).
  - intros (ks & e & Hg & -> & Hk & Hn). assert (length ks < fuel)%nat as Hl.
    { pose proof (left_length p). apply (f_equal length) in Hk. rewrite length_map, length_app in Hk. lia. }
    destruct rest as [|t rest].
    + exfalso. eapply (rest_eof p [] ks); [done|done|by eapply groups_no_eof| |done].
      destruct (Z.lt_ge_cases (pos p) (zlen (tokens p))) as [|Hge]; [done|]. exfalso. unfold rest_of in Hk. rewrite drop_ge in Hk by (unfold zlen in Hge; lia).
      symmetry in Hk. apply app_nil in Hk as [-> _]. inversion Hg as [| | |? ? ? k1 ? ? ? ? ? ? ?]. destruct k1; discriminate.
    + destruct (groups_reads fuel ks e Hg Hl p (t :: rest)) as (p' & H & Hp'); [split; [apply Hp|done]|done|]. by exists p'.
Qed.

(** *** The grammar of AIDL

    The levels of the binary operators, from the loosest to the tightest; a sign binds tighter than all of them. The
    grammar does not depend on the tables of the parser. *)
Definition LEVELS : list (list Token) :=
  [[OrOr]; [AndAnd]; [Pipe]; [Caret]; [Amp]; [EqEq; NotEq]; [LAngle; RAngle; LessEqual; GreaterEqual];
   [LAngleAngle; RAngleAngle]; [Plus; Minus]; [Star; Slash; Percent]].
Definition at_level (n : nat) (o : Token) : Prop := exists ops, LEVELS !! n = Some ops /\ o ∈ ops.

Inductive parses : nat -> list Token -> expr -> Prop :=
| ps_atom n t e : atom t e -> parses n [t] e
| ps_sign n o ks e : is_unary o = true -> parses 10 ks e -> parses n (o :: ks) (EUn o e)
| ps_paren n ks e : parses 0 ks e -> parses n (LParen :: ks ++ [RParen]) (EPar e)
| ps_binary n m o k1 k2 l r : at_level m o -> (n <= m)%nat -> parses m k1 l -> parses (S m) k2 r -> parses n (k1 ++ o :: k2) (EBin o l r).

(** No factor comes directly after a signed operand. *)
Fixpoint ends_signed (e : expr) : bool := match e with EUn _ _ => true | EBin _ _ r => ends_signed r | _ => false end.
Fixpoint no_signed_factor (e : expr) : bool :=
  match e with
  | EBin o l r => negb (multiplicative o && ends_signed l) && no_signed_factor l && no_signed_factor r
  | EUn _ e | EPar e => no_signed_factor e
  | _ => true
  end.

Lemma level_precedence m o : at_level m o -> is_binary o = true /\ precedence o = Z.of_nat m + 1.
Proof.
  intros (ops & Hl & Ho). do 10 (destruct m as [|m]; [injection Hl as <-; repeat (apply elem_of_cons in Ho as [->|Ho]; [by split|]); by apply elem_of_nil in Ho|]).
  done.
Qed.
Lemma precedence_level o : is_binary o = true -> at_level (Z.to_nat (precedence o - 1)) o /\ 1 <= precedence o <= 10.
Proof. destruct o; intros H; try discriminate H; (split; [eexists; split; [reflexivity|set_solver]|vm_compute; split; discriminate]). Qed.

Lemma parses_groups n ks e : parses n ks e -> no_signed_factor e = true -> forall q tail, q <= Z.of_nat n + 1 -> (tail = true -> ends_signed e = false) ->
  groups q tail ks e.
Proof.
  induction 1 as [n t e Ha|n o ks e Ho _ IH|n ks e _ IH|n m o k1 k2 l r Ho Hm _ IHl _ IHr]; cbn [no_signed_factor ends_signed]; intros Hc q tail Hq Ht.
  - by constructor.
  - assert (tail = false) as -> by (destruct tail; [by specialize (Ht eq_refl)|done]). constructor; [done|]. apply IH; [done|lia|done].
  - constructor. apply IH; [done|lia|done].
  - apply andb_true_iff in Hc as [[Hs Hl]%andb_true_iff Hr]. destruct (level_precedence m o Ho) as [Hb Hp]. constructor; [done|lia| |].
    + apply IHl; [done|lia|]. intros E. rewrite <- multiplicative_iff in E by done. rewrite E in Hs. by apply negb_true_iff in Hs.
    + apply IHr; [done|lia|done].
Qed.

Lemma parses_weaken n n' ks e : parses n ks e -> (n' <= n)%nat -> parses n' ks e.
Proof. intros [] Hn; econstructor; try done; lia. Qed.

(** Expressions of a level with an operator of that level between them. *)
Lemma parses_chain m o k2 r : at_level m o -> parses m k2 r -> forall k1 l, parses m k1 l -> exists e, parses m (k1 ++ o :: k2) e.
Proof.
  intros Ho H. remember m as n eqn:En in H. revert En.
  induction H as [n t e Ha|n o' ks e Ho' H IH|n ks e H IH|n m' o' a b l' r' Ho' Hm Ha IHa Hb IHb]; intros -> k1 l Hl.
  { exists (EBin o l e). apply (ps_binary m m); [done|done|done|by constructor]. }
  { exists (EBin o l (EUn o' e)). apply (ps_binary m m); [done|done|done|by constructor]. }
  { exists (EBin o l (EPar e)). apply (ps_binary m m); [done|done|done|by constructor]. }
  destruct (decide (m' = m)) as [->|Hne].
  - destruct (IHa eq_refl k1 l Hl) as [e He]. exists (EBin o' e r'). change (k1 ++ o :: a ++ o' :: b) with (k1 ++ (o :: a) ++ o' :: b).
    rewrite app_assoc. by apply (ps_binary m m).
  - eexists. eapply ps_binary; [exact Ho|done|exact Hl|]. eapply ps_binary; [exact Ho'|lia|done|done].
Qed.

(** A sign before an expression of factors is one. *)
Lemma parses_signed o ks e : is_unary o = true -> parses 9 ks e -> exists e', parses 9 (o :: ks) e'.
Proof.
  intros Ho H. remember 9%nat as n eqn:En in H. revert En.
  induction H as [n t e Ha|n o' ks e Ho' H IH|n ks e H IH|n m' o' a b l' r' Ho' Hm Ha IHa Hb IHb]; intros ->.
  { exists (EUn o e). apply ps_sign; [done|by constructor]. }
  { exists (EUn o (EUn o' e)). apply ps_sign; [done|by constructor]. }
  { exists (EUn o (EPar e)). apply ps_sign; [done|by constructor]. }
  assert (m' = 9%nat) as ->. { destruct Ho' as (ops & Hl & _). apply lookup_lt_Some in Hl. cbn in Hl. lia. }
  destruct (IHa eq_refl) as [e He]. exists (EBin o' e r'). change (o :: a ++ o' :: b) with ((o :: a) ++ o' :: b). by apply (ps_binary 9 9).
Qed.

(** Whatever the parser groups is an expression of the grammar. *)
Lemma groups_parse q tail ks e : groups q tail ks e -> exists e', parses (Z.to_nat (Z.min (q - 1) 9)) ks e'.
Proof.
  induction 1 as [q tail t e Ha|q o ks e Ho _ [e' IH]|q tail ks e _ [e' IH]|q tail o k1 k2 l r Ho Hq _ [l' IHl] _ [r' IHr]].
  - exists e. by constructor.
  - destruct (parses_signed o ks e' Ho IH) as [e2 H2]. exists e2. eapply parses_weaken; [exact H2|lia].
  - exists (EPar e'). by constructor.
  - destruct (precedence_level o Ho) as [Hl Hr]. set (m := Z.to_nat (precedence o - 1)) in *.
    assert (exists x, parses m (k1 ++ o :: k2) x) as [x Hx]; [|exists x; eapply parses_weaken; [exact Hx|lia]].
    replace (Z.to_nat (Z.min (precedence o - 1) 9)) with m in IHl by lia. eapply parses_chain; [exact Hl| |exact IHl].
    eapply parses_weaken; [exact IHr|lia].
Qed.

(** C30: constant expressions are read by the grammar of AIDL: ten levels of left-associative binary operators, from
    [||] to the factors, and signs that bind tighter than any of them. Whatever the parser accepts is an expression
    of the grammar that no binary operator follows, and what it leaves is the rest; its value is the text of the
    expression with every binary operation in parentheses, unless a factor comes directly after a signed operand,
    where the code groups otherwise. And every expression without such a factor that no operator follows is
    accepted, with that value and that rest. *)
Theorem expression_grammar fuel p : wfp p -> (left_of p < fuel)%nat ->
  (forall p' v, parse_expression_as_string fuel p = (p', Ok v) -> 0 <= pos p' ->
     exists ks e, parses 0 ks e /\ map fst (rest_of p) = ks ++ map fst (rest_of p') /\
       (forall m, ~ at_level m (default Eof (head (map fst (rest_of p'))))) /\ (no_signed_factor e = true -> v = show e)) /\
  (forall ks e rest, parses 0 ks e -> no_signed_factor e = true -> map fst (rest_of p) = ks ++ rest ->
     (forall m, ~ at_level m (default Eof (head rest))) ->
     exists p', parse_expression_as_string fuel p = (p', Ok (show e)) /\ 0 <= pos p' /\ map fst (rest_of p') = rest).
Proof.
  intros Hp Hf. assert (forall ks e rest, parses 0 ks e -> no_signed_factor e = true -> map fst (rest_of p) = ks ++ rest ->
     (forall m, ~ at_level m (default Eof (head rest))) ->
     exists p', parse_expression_as_string fuel p = (p', Ok (show e)) /\ 0 <= pos p' /\ map fst (rest_of p') = rest) as Hread.
  { intros ks e rest Hg Hc Hk Hn. apply (expression_groups fuel p (show e) rest Hp Hf). exists ks, e. split_and!; [|done|done|].
    - eapply parses_groups; [exact Hg|done|lia|done].
    - unfold no_operator. destruct (operator_of (default Eof (head rest))) as [[x y]|] eqn:E; [|done]. exfalso.
      destruct (precedence_level (default Eof (head rest))) as [Hl _]; [unfold is_binary; by rewrite E|]. by eapply Hn. }
  split; [|done]. intros p' v H Hpos.
  destruct (proj1 (expression_groups fuel p v (map fst (rest_of p')) Hp Hf)) as (ks & e & Hg & -> & Hk & Hn); [by exists p'|].
  assert (forall m, ~ at_level m (default Eof (head (map fst (rest_of p'))))) as Hno.
  { intros m Hm. destruct (level_precedence _ _ Hm) as [Hb _]. unfold is_binary in Hb. unfold no_operator in Hn. by destruct (operator_of _). }
  destruct (groups_parse _ _ _ _ Hg) as [e' He]. exists ks, e'. split_and!; [done|done|done|]. intros Hc.
  destruct (Hread ks e' (map fst (rest_of p')) He Hc Hk Hno) as (p2 & H2 & _). rewrite H in H2. by injection H2.
Qed.

Module AidlSample.
(** [package a.b; import c.D; @A(x = "s", 2) oneway interface I extends a.J { ... } ...] *)
Definition int : AidlType := mk_type (B "int") [] 0 false.
Definition nested : AidlType := mk_type (B "Map") [mk_type (B "String") [] 0 true; mk_type (B "List") [mk_type (B "a.X") [] 2 false] 0 false] 1 false.
Definition nullable : list Annotation := [mk_annotation (B "nullable") []].
Definition sum : expr := EBin Plus (EInt 1) (EBin Star (EName (B "N")) (EUn Minus (EFloat (default S754_nan (parse_f64 (B "2.5")))))).
Definition sample : AidlFile := mk_file (Some (B "a.b")) [B "c.D"]
  [Interface (mk_interface [mk_annotation (B "A") [(Some (B "x"), show (EString (B "s"))); (None, show (EPar (EInt 2)))]] true (B "I") (Some (B "a.J"))
     [mk_method nullable true (mk_type (B "String") [] 0 true) (B "f") [mk_arg [] (Some DIn) nested (B "x"); mk_arg nullable None int (B "y")] (Some 7)]
     [mk_constant int (B "C") (show sum)]);
   Parcelable (mk_parcelable [] (B "P") (Some (B "p.h")) [mk_field nullable (mk_type (B "Q") [] 0 true) (B "q") (Some (show (EChar (B "'c'"))))]);
   Enum (mk_enum [] (B "E") None [mk_variant (B "V") None; mk_variant (B "W") (Some (show (EUn Tilde (EInt 3))))]);
   Union (mk_union [] (B "U") [mk_field nullable int (B "n") None])].

Lemma a_value e v : wf_expr e = true -> v = show e -> is_value v.
Proof. intros He ->. by exists e. Qed.

Lemma sample_wf : wf_file sample.
Proof.
  assert (wf_annotations nullable) as Hn by (constructor; [split; [reflexivity|constructor]|constructor]).
  unfold wf_file. cbn. repeat (apply List.Forall_cons || apply List.Forall_nil); cbn.
  - reflexivity.
  - reflexivity.
  - split_and!; [|reflexivity|by intros q [= <-]| |].
    + constructor; [|constructor]. split; [reflexivity|]. constructor; [|constructor; [|constructor]]; cbn; (split; [by intros k [= <-]|]);
        [by apply (a_value (EString (B "s")))|by apply (a_value (EPar (EInt 2)))].
    + constructor; [|constructor]. split_and!; [reflexivity|reflexivity|]. apply (a_value sum); [vm_compute; reflexivity|reflexivity].
    + constructor; [|constructor]. unfold wf_method. cbn. split_and!; [done|reflexivity|reflexivity|reflexivity| |intros n [= <-]; lia|done].
      constructor; [|constructor; [|constructor]]; unfold wf_arg; cbn; split_and!; (done || reflexivity || constructor).
  - split_and!; [constructor|reflexivity|by intros h [= <-]|]. constructor; [|constructor]. unfold wf_field. cbn. split_and!; [done|reflexivity|reflexivity|reflexivity|].
    intros v [= <-]. by apply (a_value (EChar (B "'c'"))).
  - split_and!; [constructor|reflexivity|reflexivity|]. constructor; [|constructor; [|constructor]]; cbn; (split; [reflexivity|]); intros v [= <-]. by apply (a_value (EUn Tilde (EInt 3))).
  - split_and!; [constructor|reflexivity|]. constructor; [|constructor]. unfold wf_union_field. cbn. by split_and!.
Qed.

Lemma aidl_roundtrip_witness : wf_file sample /\ parse_aidl (print_file sample) = Ok sample.
Proof. split; [exact sample_wf|apply (aidl_roundtrip sample); exact sample_wf]. Defined.

(** [a + 2 * 3 ;] *)
Definition sum_parser : Parser := mk_parser [(Ident (B "a"), 0); (Plus, 2); (IntLit 2, 4); (Star, 6); (IntLit 3, 8); (Semi, 10); (Eof, 11)] 0.

Lemma sum_wf : wfp sum_parser.
Proof. split; [by vm_compute|]. by exists 11. Qed.

Lemma expression_grammar_witness : wfp sum_parser /\ (left_of sum_parser < 10)%nat /\
  exists p', parse_expression_as_string 10 sum_parser = (p', Ok (B "(a+(2*3))")) /\ 0 <= pos p' /\ map fst (rest_of p') = [Semi; Eof].
Proof.
  split; [exact sum_wf|]. split; [vm_compute; lia|].
  apply (proj2 (expression_grammar 10 sum_parser sum_wf ltac:(vm_compute; lia)) [Ident (B "a"); Plus; IntLit 2; Star; IntLit 3]
    (EBin Plus (EName (B "a")) (EBin Star (EInt 2) (EInt 3))) [Semi; Eof]); [|reflexivity|reflexivity|].
  - apply (ps_binary 0 8 Plus [Ident (B "a")] [IntLit 2; Star; IntLit 3]); [eexists; split; [reflexivity|set_solver]|lia|repeat constructor|].
    apply (ps_binary _ 9 Star [IntLit 2] [IntLit 3]); [eexists; split; [reflexivity|set_solver]|lia|repeat constructor|repeat constructor].
  - intros m Hm. destruct (level_precedence _ _ Hm) as [Hb _]. discriminate Hb.
Defined.

Definition constant_of (s : string) : option bytes :=
  match parse_aidl (B "interface I { const int C = " ++ B s ++ B "; }") with
  | Ok (mk_file _ _ [Interface i]) => c_value <$> head (constants i)
  | _ => None
  end.

(** A complement takes the whole product. *)
Example sign_takes_factors : constant_of "~1 * 2" = Some (B "~(1*2)") /\ constant_of "(1 << 4) | 3" = Some (B "((1<<4)|3)") /\ constant_of "8 / 2" = None /\ constant_of "0xff" = Some (B "15").
Proof. vm_compute. done. Qed.

Definition first_interface (s : string) : option AidlInterface := match parse_aidl (B s) with Ok (mk_file _ _ [Interface i]) => Some i | _ => None end.

(** An argument that is annotated as nullable has a type that is not; [>>] closes two lists. *)
Example nullable_argument :
  (fun i => map (fun m => (is_nullable (return_type m), map (fun a => is_nullable (arg_ty a)) (m_args m))) (methods i)) <$>
    first_interface "interface I { @nullable String f(@nullable String a, in @nullable String b, in List<List<String>> c); }" = Some [(true, [false; true; false])].
Proof. vm_compute. reflexivity. Qed.
End AidlSample.
