(* ===== verification/AidlGen.v ===== *)
(** * The interface compiler: declarations to Rust

    [aidl-rs/src/generator.rs] and [generate_rust] of [lib.rs]: the text that is generated for a file of declarations, and the
    numbers that the methods of an interface and the variants of an enum get. Upper case of characters outside of ASCII is
    a class. *)
From S2P Require Import Prelude Text Float64 AidlLexer AidlParser.

Class CaseMap := { to_uppercase : bytes -> bytes }.

Definition nl : bytes := [x0a].
Definition line (s : bytes) : bytes := s ++ nl.
Definition last_rust_ident (name : bytes) : bytes := default name (list.last (split_on "."%byte name)).

(** ** Types *)
Definition PRIMITIVES : list (bytes * bytes) :=
  [(B "void", B "()"); (B "boolean", B "bool"); (B "byte", B "i8"); (B "char", B "u16"); (B "int", B "i32"); (B "long", B "i64"); (B "float", B "f32");
   (B "double", B "f64"); (B "String", B "String"); (B "Utf8String", B "String"); (B "IBinder", B "String"); (B "ParcelFileDescriptor", B "std::fs::File")].

Fixpoint aidl_type_to_rust (ty : AidlType) : bytes :=
  let '(mk_type name args dims nullable) := ty in
  let base :=
    match find (fun '(n, _) => bool_decide (n = name)) PRIMITIVES with
    | Some (_, r) => r
    | None =>
        if bool_decide (name = B "List") then
          match args with a :: _ => B "Vec<" ++ aidl_type_to_rust a ++ B ">" | [] => B "Vec<String>" end
        else if bool_decide (name = B "Map") then
          let k := match args with a :: _ => aidl_type_to_rust a | [] => B "String" end in
          let v := match args with _ :: a :: _ => aidl_type_to_rust a | _ => B "String" end in
          B "std::collections::HashMap<" ++ k ++ B ", " ++ v ++ B ">"
        else match args with [] => name | _ => name ++ B "<" ++ join (B ", ") (map aidl_type_to_rust args) ++ B ">" end
    end in
  let res := Nat.iter dims (fun r => B "Vec<" ++ r ++ B ">") base in
  if nullable then B "Option<" ++ res ++ B ">" else res.

Definition capitalize_first `{CaseMap} (s : bytes) : bytes :=
  match s with
  | [] => []
  | b :: t =>
      let '(_, n) := utf8_head b t in
      (if in_rng 0 0x7F b then [if in_rng 97 122 b then z2b (b2z b - 32) else b] else to_uppercase (take n s)) ++ drop n s
  end.

(** ** Interfaces *)
Definition typed (name : bytes) (ty : AidlType) : bytes := name ++ B ": " ++ aidl_type_to_rust ty.

Definition method_line (m : AidlMethod) : bytes :=
  let args_str := join (B ", ") (map (fun a => typed (arg_name a) (arg_ty a)) (m_args m)) in
  let ret_str := B "Result<" ++ aidl_type_to_rust (return_type m) ++ B ", String>" in
  line (B "    fn " ++ m_name m ++ B "(&self" ++ (match args_str with [] => [] | _ => B ", " ++ args_str end) ++ B ") -> " ++ ret_str ++ B ";").

(** The number of each method: its own, or the next one that is not taken by an earlier method without one. *)
Fixpoint transaction_ids (auto_id : Z) (ms : list AidlMethod) : list (bytes * Z) :=
  match ms with
  | [] => []
  | m :: ms =>
      match m_id m with
      | Some id => (m_name m, id) :: transaction_ids auto_id ms
      | None => (m_name m, auto_id) :: transaction_ids (auto_id + 1) ms
      end
  end.

Definition generate_interface (generate_binder_stubs : bool) (i : AidlInterface) : bytes :=
  let trait_super := match extends i with Some q => last_rust_ident q ++ B " + " | None => [] end in
  line (B "pub trait " ++ i_name i ++ B ": " ++ trait_super ++ B "Send + Sync {")
  ++ concat (map (fun c => line (B "    pub const " ++ typed (c_name c) (c_ty c) ++ B " = " ++ c_value c ++ B ";")) (constants i))
  ++ (match constants i with [] => [] | _ => nl end)
  ++ concat (map method_line (methods i))
  ++ line (B "}") ++ nl
  ++ line (B "pub mod " ++ i_name i ++ B "_transactions {")
  ++ concat (map (fun '(name, id) => line (B "    pub const TRANSACTION_" ++ name ++ B ": u32 = FIRST_CALL_TRANSACTION + " ++ fmt_dec id ++ B ";")) (transaction_ids 0 (methods i)))
  ++ line (B "    pub const FIRST_CALL_TRANSACTION: u32 = 1;") ++ line (B "}") ++ nl
  ++ (if generate_binder_stubs then
        line (B "pub struct " ++ i_name i ++ B "Proxy<B> {") ++ line (B "    pub binder: B,") ++ line (B "}") ++ nl
        ++ line (B "impl<B> " ++ i_name i ++ B "Proxy<B> {") ++ line (B "    pub fn new(binder: B) -> Self {") ++ line (B "        Self { binder }")
        ++ line (B "    }") ++ line (B "}")
      else []).

(** ** The other declarations *)
Definition generate_parcelable (p : AidlParcelable) : bytes :=
  match p_fields p with
  | [] => line (B "#[derive(Debug, Clone, PartialEq, Eq, Default)]") ++ line (B "pub struct " ++ p_name p ++ B ";")
  | fields =>
      line (B "#[derive(Debug, Clone, PartialEq, Default)]") ++ line (B "pub struct " ++ p_name p ++ B " {")
      ++ concat (map (fun f => line (B "    pub " ++ typed (f_name f) (f_ty f) ++ B ",")) fields) ++ line (B "}") ++ nl
      ++ line (B "impl " ++ p_name p ++ B " {")
      ++ line (B "    pub fn new(" ++ join (B ", ") (map (fun f => typed (f_name f) (f_ty f)) fields) ++ B ") -> Self {")
      ++ line (B "        Self {") ++ concat (map (fun f => line (B "            " ++ f_name f ++ B ",")) fields)
      ++ line (B "        }") ++ line (B "    }") ++ line (B "}")
  end.

(** The value of each variant: its own, or its place. *)
Definition variant_values (vs : list EnumVariant) : list (bytes * bytes) :=
  imap (fun idx v => (v_name v, match v_value v with Some x => x | None => fmt_dec (Z.of_nat idx) end)) vs.
Definition generate_enum (e : AidlEnum) : bytes :=
  line (B "#[derive(Debug, Clone, Copy, PartialEq, Eq, Hash)]") ++ line (B "#[repr(i32)]") ++ line (B "pub enum " ++ e_name e ++ B " {")
  ++ concat (map (fun '(name, value) => line (B "    " ++ name ++ B " = " ++ value ++ B ",")) (variant_values (variants e))) ++ line (B "}").

Section Generate.
Context `{CaseMap}.

Definition generate_union (u : AidlUnion) : bytes :=
  line (B "#[derive(Debug, Clone, PartialEq)]") ++ line (B "pub enum " ++ u_name u ++ B " {")
  ++ concat (map (fun f => line (B "    " ++ capitalize_first (f_name f) ++ B "(" ++ aidl_type_to_rust (f_ty f) ++ B "),")) (u_fields u)) ++ line (B "}").

Definition generate_decl (stubs : bool) (d : AidlDecl) : bytes :=
  match d with
  | Interface i => generate_interface stubs i
  | Parcelable p => generate_parcelable p
  | Enum e => generate_enum e
  | Union u => generate_union u
  end ++ nl.
Definition generate_file (stubs : bool) (f : AidlFile) : bytes :=
  line (B "// Auto-generated by aidl-rs from AIDL definition.") ++ line (B "// DO NOT EDIT DIRECTLY.") ++ nl
  ++ line (B "#[allow(non_snake_case)]") ++ line (B "#[allow(unused_imports)]") ++ line (B "#[allow(unused_variables)]") ++ nl
  ++ (match package f with Some pkg => line (B "// Package: " ++ pkg) ++ nl | None => [] end)
  ++ concat (map (generate_decl stubs) (decls f)).
Definition generate_rust : AidlFile -> bytes := generate_file true.
End Generate.

(** ** Numbers of methods *)
Definition explicit_ids (ms : list AidlMethod) : list Z := omap m_id ms.
Definition implicit_count (ms : list AidlMethod) : nat := length (filter (fun m => m_id m = None) ms).

Lemma ids_permutation ms : forall a, map snd (transaction_ids a ms) ≡ₚ explicit_ids ms ++ map (fun i => a + Z.of_nat i) (seq 0 (implicit_count ms)).
Proof.
  unfold explicit_ids, implicit_count. induction ms as [|m ms IH]; intros a; [done|]. cbn [transaction_ids]. destruct (m_id m) as [id|] eqn:E; cbn [map snd].
  - cbn [omap list_omap]. rewrite E. rewrite filter_cons_False by by rewrite E. cbn [app]. by rewrite IH.
  - cbn [omap list_omap]. rewrite E. rewrite filter_cons_True by done. cbn [length seq map]. rewrite Z.add_0_r, <- seq_shift, map_map, IH.
    rewrite (map_ext (fun x => a + Z.of_nat (S x)) (fun x => a + 1 + Z.of_nat x)) by (intros; lia). by rewrite Permutation_middle.
Qed.

(** When the methods of an interface get different transaction codes: exactly when the given numbers are different and none
    of them is among the first as many as there are methods without a number, which get these, in order. *)
Theorem transaction_codes_distinct ms : NoDup (map snd (transaction_ids 0 ms)) <->
  NoDup (explicit_ids ms) /\ Forall (fun id => ~ 0 <= id < Z.of_nat (implicit_count ms)) (explicit_ids ms).
Proof.
  rewrite ids_permutation, list.NoDup_app. split.
  - intros (H1 & H2 & _). split; [done|]. apply Forall_forall. intros id Hid%list_elem_of_In Hr. apply (H2 id Hid). apply list_elem_of_In, in_map_iff.
    exists (Z.to_nat id). split; [lia|]. apply in_seq. lia.
  - intros [H1 H2]. split_and!; [done| |].
    + intros id Hid Hin. rewrite List.Forall_forall in H2. apply list_elem_of_In in Hid, Hin. apply in_map_iff in Hin as (i & <- & Hi%in_seq). apply (H2 _ Hid). lia.
    + apply NoDup_fmap_2; [intros x y; lia|]. apply NoDup_seq.
Qed.

#[local] Instance plain_case : CaseMap := {| to_uppercase s := s |}.

(** A method without a number can get the number that another one has; a variant without a value can get the value of an earlier one. *)
Example numbers_collide :
  (fun f => match f with Ok (mk_file _ _ [Interface i; Enum e]) => Some (transaction_ids 0 (methods i), variant_values (variants e)) | _ => None end)
    (parse_aidl (B "interface I { void a() = 0; void b(); } enum E { A = 1, B }"))
  = Some ([(B "a", 0); (B "b", 0)], [(B "A", B "1"); (B "B", B "1")]).
Proof. vm_compute. reflexivity. Qed.

(** A string's text is generated without the escapes that its literal had. *)
Example escapes_lost :
  (fun f => match f with Ok (mk_file _ _ [Parcelable p]) => map default_value (p_fields p) | _ => [] end)
    (parse_aidl (B "parcelable P { String s = " ++ DQ ++ B "a\" ++ DQ ++ B "b" ++ DQ ++ B "; }"))
  = [Some (DQ ++ B "a" ++ DQ ++ B "b" ++ DQ)].
Proof. vm_compute. reflexivity. Qed.

Example generated :
  (fun f => match f with Ok f => generate_rust f | _ => [] end) (parse_aidl (B "union U { int number; Map<String, byte[]> x; }"))
  = concat (map (fun s => line (B s))
      ["// Auto-generated by aidl-rs from AIDL definition."; "// DO NOT EDIT DIRECTLY."; ""; "#[allow(non_snake_case)]"; "#[allow(unused_imports)]";
       "#[allow(unused_variables)]"; ""; "#[derive(Debug, Clone, PartialEq)]"; "pub enum U {"; "    Number(i32),";
       "    X(std::collections::HashMap<String, Vec<i8>>),"; "}"; ""]%string).
Proof. vm_compute. reflexivity. Qed.
