(* ===== verification/Fe25519.v ===== *)
(** * Field elements of the pairing code

    The type [Fe] of [pairing_auth/legacy_spake2.rs] in adb-protocol: integers modulo [2^255 - 19] in
    four limbs of 64 bits, with the carry chains of the source written out. The theorem
    [fe_refines_field] says that every operation computes in the integers modulo the prime, on
    elements in canonical form, which all operations give; the loops of the source end within the
    rounds the model allows them. *)
From S2P Require Import Prelude.
From Stdlib Require Import Zpow_facts.

Definition mask64 : Z := 0xffffffffffffffff.
Definition mask128 : Z := 0xffffffffffffffffffffffffffffffff.

(** [z as u64], and the reduction of [u128] arithmetic. *)
Definition as64 (z : Z) : Z := Z.land z mask64.
Definition as128 (z : Z) : Z := Z.land z mask128.

Definition overflowing_add (a b : Z) : Z * bool := (as64 (a + b), 2 ^ 64 <=? a + b).
Definition overflowing_sub (a b : Z) : Z * bool := (as64 (a - b), a <? b).

(** [Fe([u64; 4])], the least significant limb first. *)
Definition Fe : Type := list Z.
#[export] Instance fe_eq_dec : EqDecision Fe.
Proof. unfold Fe. apply _. Defined.

Module Fe.

Definition ZERO : Fe := [0; 0; 0; 0].
Definition ONE : Fe := [1; 0; 0; 0].
Definition P : Fe := [0xffffffffffffffed; 0xffffffffffffffff; 0xffffffffffffffff; 0x7fffffffffffffff].

(** The loops that add and subtract limb by limb: [a] and [b] are the limbs from the current one on. *)
Fixpoint add_carry (a b : list Z) (carry : Z) : list Z * Z :=
  match a, b with
  | x :: a, y :: b =>
      let '(sum1, c1) := overflowing_add x y in
      let '(sum2, c2) := overflowing_add sum1 carry in
      let '(rest, carry) := add_carry a b (as64 (Z.b2z c1 + Z.b2z c2)) in (sum2 :: rest, carry)
  | _, _ => ([], carry)
  end.

Fixpoint sub_borrow (a b : list Z) (borrow : Z) : list Z * Z :=
  match a, b with
  | x :: a, y :: b =>
      let '(diff1, b1) := overflowing_sub x y in
      let '(diff2, b2) := overflowing_sub diff1 borrow in
      let '(rest, borrow) := sub_borrow a b (as64 (Z.b2z b1 + Z.b2z b2)) in (diff2 :: rest, borrow)
  | _, _ => ([], borrow)
  end.

(** The comparison with [P] from the most significant limb down: the arguments are reversed. *)
Fixpoint gte_go (f q : list Z) : bool :=
  match f, q with
  | x :: f, y :: q => if y <? x then true else if x <? y then false else gte_go f q
  | _, _ => true
  end.
Definition gte_p (f : Fe) : bool := gte_go (reverse f) (reverse P).

Definition sub_p (f : Fe) : Fe := (sub_borrow f P 0).1.

(** The loop of [reduce] that passes a carry on, until there is none. *)
Fixpoint pass_carry (l : list Z) (carry : Z) : list Z * Z :=
  match l with
  | [] => ([], carry)
  | x :: l =>
      if carry =? 0 then (x :: l, carry) else
      let s := as128 (x + carry) in
      let '(l, carry) := pass_carry l (Z.shiftr s 64) in (as64 s :: l, carry)
  end.

Definition reduce (f : Fe) : Fe :=
  match f with
  | [f0; f1; f2; f3] =>
      let b255 := Z.shiftr f3 63 in
      let f3 := Z.land f3 0x7fffffffffffffff in
      let f :=
        if negb (b255 =? 0) then
          let sum := f0 + 19 in
          let f0 := as64 sum in
          let '(hi, carry) := pass_carry [f1; f2; f3] (Z.shiftr sum 64) in
          if 0 <? carry then
            let s := as128 (f0 + as128 (carry * 19)) in
            as64 s :: (pass_carry hi (Z.shiftr s 64)).1
          else f0 :: hi
        else [f0; f1; f2; f3] in
      if gte_p f then sub_p f else f
  | _ => f
  end.

(** [while res.gte_p() { res.sub_p(); }] *)
Fixpoint normalize_go (fuel : nat) (f : Fe) : option Fe :=
  match fuel with
  | O => None
  | S fuel => if gte_p f then normalize_go fuel (sub_p f) else Some f
  end.
Definition normalized (f : Fe) : Fe := default f (normalize_go 3 f).

Definition from_bytes (bs : bytes) : Fe :=
  reduce (map (fun i => le_val (slice (i * 8) ((i + 1) * 8) bs)) [0; 1; 2; 3]).

Definition to_bytes (f : Fe) : bytes := concat (map (le_bytes 8) (normalized f)).

Definition is_negative (f : Fe) : bool :=
  match to_bytes f with b :: _ => negb (Z.land (b2z b) 1 =? 0) | [] => false end.

(** [res[i].overflowing_add(add_carry)] along the limbs. *)
Fixpoint add_small (l : list Z) (add_carry : Z) : list Z :=
  match l with
  | [] => []
  | x :: l => let '(sum, c) := overflowing_add x add_carry in sum :: add_small l (Z.b2z c)
  end.

Definition add (a b : Fe) : Fe :=
  let '(res, carry) := add_carry a b 0 in
  let res := if 0 <? carry then add_small res (as64 (carry * 38)) else res in
  if gte_p res then sub_p res else res.

Definition sub (a b : Fe) : Fe :=
  let '(res, borrow) := sub_borrow a b 0 in
  if 0 <? borrow then (add_carry res P 0).1 else res.

(** One row of the schoolbook product: [w[i + j] += a[i] * b[j]] for every [j], where [w] is [w[i..]]. *)
Fixpoint mac_row (ai : Z) (b w : list Z) (carry : Z) : list Z * Z :=
  match b, w with
  | bj :: b, wk :: w =>
      let prod := as128 (as128 (as128 (ai * bj) + wk) + carry) in
      let '(row, carry) := mac_row ai b w (Z.shiftr prod 64) in (as64 prod :: row, carry)
  | _, _ => ([], carry)
  end.

(** The rows in order: [w] is [w[i..]] before row [i], whose first limb no later row changes. *)
Fixpoint mul_rows (a b w : list Z) : list Z :=
  match a with
  | [] => w
  | ai :: a =>
      let '(row, carry) := mac_row ai b w 0 in
      match row, drop 4 w with
      | w0 :: row, w4 :: w => w0 :: mul_rows a b (row ++ as64 (as128 (w4 + carry)) :: w)
      | _, _ => w
      end
  end.

(** [h38 = w[4..] * 38]. *)
Fixpoint times38 (w : list Z) (c : Z) : list Z * Z :=
  match w with
  | [] => ([], c)
  | x :: w =>
      let prod := as128 (as128 (x * 38) + c) in
      let '(h, c) := times38 w (Z.shiftr prod 64) in (Z.land prod mask64 :: h, c)
  end.

(** [r = w[..4] + h38[..4]]. *)
Fixpoint add_rows (w h : list Z) (c_add : Z) : list Z * Z :=
  match w, h with
  | x :: w, y :: h =>
      let sum := as128 (as128 (x + y) + c_add) in
      let '(r, c_add) := add_rows w h (Z.shiftr sum 64) in (as64 sum :: r, c_add)
  | _, _ => ([], c_add)
  end.

(** The carry along [r[1..4]], in the loop on [extra_carry]. *)
Fixpoint carry_on (r : list Z) (c_prop : Z) : list Z * Z :=
  match r with
  | [] => ([], c_prop)
  | x :: r =>
      let sum := as128 (x + c_prop) in
      let '(r, c_prop) := carry_on r (Z.shiftr sum 64) in (as64 sum :: r, c_prop)
  end.

(** [while extra_carry > 0 { ... }]: its body adds to [r[0]] and then carries on, as [carry_on] from [r[0]]. *)
Fixpoint fold_extra (fuel : nat) (r : list Z) (extra_carry : Z) : option (list Z) :=
  match fuel with
  | O => None
  | S fuel =>
      if 0 <? extra_carry then
        let '(r, c_prop) := carry_on r extra_carry in fold_extra fuel r (as128 (c_prop * 38))
      else Some r
  end.

Definition mul (a b : Fe) : Fe :=
  let w := mul_rows a b [0; 0; 0; 0; 0; 0; 0; 0] in
  let '(h38, h4) := times38 (drop 4 w) 0 in
  let '(r, c_add) := add_rows (take 4 w) h38 0 in
  let c_add := as128 (c_add + h4) in
  normalized (default r (fold_extra 3 r (as128 (c_add * 38)))).

Definition square (a : Fe) : Fe := mul a a.

(** The square-and-multiply loops over the limbs of a fixed exponent, of which [bound] bits are
    used: for any multiplication, so that they can also be run on exponents. *)
Section Power.
Context {A : Type} (times : A -> A -> A).

Fixpoint pow_limb (bits : list nat) (limb bound : Z) (st : A * A * Z) : A * A * Z :=
  match bits with
  | [] => st
  | b :: bits =>
      let '(res, base, bit_count) := st in
      if bound <=? bit_count then st else
      let res := if Z.land (Z.shiftr limb (Z.of_nat b)) 1 =? 1 then times res base else res in
      pow_limb bits limb bound (res, times base base, bit_count + 1)
  end.

Definition pow_limbs (exp : list Z) (bound : Z) (st : A * A * Z) : A * A * Z :=
  fold_left (fun st limb => pow_limb (seq 0 64) limb bound st) exp st.

Definition pow_loop (exp : list Z) (bound : Z) (one x : A) : A := (pow_limbs exp bound (one, x, 0)).1.1.
End Power.

Definition p_minus_2 : list Z := [0xffffffffffffffeb; 0xffffffffffffffff; 0xffffffffffffffff; 0x7fffffffffffffff].
Definition pow2255m21 (a : Fe) : Fe := pow_loop mul p_minus_2 255 ONE a.
Definition invert (a : Fe) : Fe := pow2255m21 a.

Definition sqrt_exp : list Z := [0xfffffffffffffffe; 0xffffffffffffffff; 0xffffffffffffffff; 0x0fffffffffffffff].
Definition sqrt_m1 : Fe := from_bytes
  [xb0; xa0; x0e; x4a; x27; x1b; xe3; x3c; x80; x4c; x59; x7d; x33; x7b;
   x6d; x19; x27; x3c; x52; xa5; x59; x28; x81; xa7; xb7; x44; xa1; x0f;
   x96; x5f; x72; x2b].

Definition sqrt_d2 (a : Fe) : option Fe :=
  let r := pow_loop mul sqrt_exp 252 ONE a in
  if bool_decide (normalized (square r) = normalized a) then Some r else
  let r2 := mul r sqrt_m1 in
  if bool_decide (normalized (square r2) = normalized a) then Some r2 else None.

End Fe.

(** ** Values *)
Definition p25519 : Z := 2 ^ 255 - 19.

Fixpoint lval (l : list Z) : Z :=
  match l with
  | [] => 0
  | x :: l => x + 2 ^ 64 * lval l
  end.

(** An array of four limbs, and a canonical one. *)
Definition fe_wf (f : Fe) : Prop := length f = 4%nat /\ Forall (uint 64) f.
Definition canonical (f : Fe) : Prop := fe_wf f /\ lval f < p25519.

Import Fe.

Lemma as64_mod z : as64 z = z mod 2 ^ 64.
Proof. unfold as64. change mask64 with (Z.ones 64). by rewrite Z.land_ones. Qed.

Lemma as128_small z : 0 <= z < 2 ^ 128 -> as128 z = z.
Proof. intros. unfold as128. change mask128 with (Z.ones 128). rewrite Z.land_ones by lia. by apply Z.mod_small. Qed.

Lemma as64_small z : 0 <= z < 2 ^ 64 -> as64 z = z.
Proof. intros. rewrite as64_mod. by apply Z.mod_small. Qed.

Lemma as64_range z : 0 <= as64 z < 2 ^ 64.
Proof. rewrite as64_mod. apply Z.mod_pos_bound. lia. Qed.

(** A value is its low limb and the rest. *)
Lemma limb_split z : z = as64 z + 2 ^ 64 * Z.shiftr z 64.
Proof. rewrite as64_mod, Z.shiftr_div_pow2 by lia. pose proof (Z.div_mod z (2 ^ 64) ltac:(lia)). lia. Qed.

Lemma overflowing_add_spec a b s c :
  uint 64 a -> uint 64 b -> overflowing_add a b = (s, c) -> uint 64 s /\ s + 2 ^ 64 * Z.b2z c = a + b.
Proof.
  unfold overflowing_add, uint. intros Ha Hb [= <- <-]. split; [apply as64_range|]. rewrite as64_mod.
  destruct (Z.leb_spec (2 ^ 64) (a + b)); cbn [Z.b2z].
  - rewrite <- (Z_mod_plus_full _ (-1)), Z.mod_small by lia. lia.
  - rewrite Z.mod_small by lia. lia.
Qed.

Lemma overflowing_sub_spec a b s c :
  uint 64 a -> uint 64 b -> overflowing_sub a b = (s, c) -> uint 64 s /\ s - 2 ^ 64 * Z.b2z c = a - b.
Proof.
  unfold overflowing_sub, uint. intros Ha Hb [= <- <-]. split; [apply as64_range|]. rewrite as64_mod.
  destruct (Z.ltb_spec a b); cbn [Z.b2z].
  - rewrite <- (Z_mod_plus_full _ 1), Z.mod_small by lia. lia.
  - rewrite Z.mod_small by lia. lia.
Qed.

Lemma lval_app a b : lval (a ++ b) = lval a + 2 ^ (64 * zlen a) * lval b.
Proof.
  induction a as [|x a IH]; cbn [lval app]; [rewrite Z.mul_1_l; lia|].
  rewrite IH, zlen_cons. pose proof (zlen_nonneg a).
  replace (64 * (1 + zlen a)) with (64 + 64 * zlen a) by lia. rewrite Z.pow_add_r by lia. lia.
Qed.

Lemma lval_range l : Forall (uint 64) l -> 0 <= lval l < 2 ^ (64 * zlen l).
Proof.
  induction 1 as [|x l Hx Hl IH]; cbn [lval]; [done|]. rewrite zlen_cons. pose proof (zlen_nonneg l).
  replace (64 * (1 + zlen l)) with (64 + 64 * zlen l) by lia. rewrite Z.pow_add_r by lia. unfold uint in Hx. nia.
Qed.

Lemma fe_wf_range f : fe_wf f -> 0 <= lval f < 2 ^ 256.
Proof. intros [Hl Hf]. apply lval_range in Hf. unfold zlen in Hf. by rewrite Hl in Hf. Qed.

(** ** Carry chains *)
Lemma add_carry_spec a : forall b c r c',
  Forall (uint 64) a -> Forall (uint 64) b -> length b = length a -> 0 <= c <= 1 -> add_carry a b c = (r, c') ->
  length r = length a /\ Forall (uint 64) r /\ 0 <= c' <= 1 /\ lval r + 2 ^ (64 * zlen a) * c' = lval a + lval b + c.
Proof.
  induction a as [|x a IH]; intros [|y b] c r c' Ha Hb Hl Hc; cbn [add_carry]; try done.
  { intros [= <- <-]. split_and!; try done; [lia|lia|]. change (2 ^ (64 * zlen [])) with 1. cbn [lval]. lia. }
  inversion Ha as [|?? Hx Ha0]; subst. inversion Hb as [|?? Hy Hb0]; subst. clear Ha Hb. rename Ha0 into Ha, Hb0 into Hb.
  destruct (overflowing_add x y) as [s1 c1] eqn:E1. destruct (overflowing_add s1 c) as [s2 c2] eqn:E2.
  apply overflowing_add_spec in E1 as [Hs1 E1]; [|done..].
  apply overflowing_add_spec in E2 as [Hs2 E2]; [|done|unfold uint; lia].
  assert (0 <= Z.b2z c1 + Z.b2z c2 <= 1) as Hcc by (unfold uint in *; destruct c1, c2; cbn [Z.b2z] in *; lia).
  rewrite as64_small by lia. destruct (add_carry a b _) as [rest c''] eqn:E. intros [= <- <-].
  destruct (IH b _ rest c'' Ha Hb ltac:(cbn in Hl; lia) Hcc E) as (Hlr & Hr & Hc'' & Hv).
  split_and!; [cbn; lia|by constructor|lia|lia|]. rewrite zlen_cons. cbn [lval].
  replace (64 * (1 + zlen a)) with (64 + 64 * zlen a) by lia. pose proof (zlen_nonneg a). rewrite Z.pow_add_r by lia. nia.
Qed.

Lemma sub_borrow_spec a : forall b c r c',
  Forall (uint 64) a -> Forall (uint 64) b -> length b = length a -> 0 <= c <= 1 -> sub_borrow a b c = (r, c') ->
  length r = length a /\ Forall (uint 64) r /\ 0 <= c' <= 1 /\ lval r - 2 ^ (64 * zlen a) * c' = lval a - lval b - c.
Proof.
  induction a as [|x a IH]; intros [|y b] c r c' Ha Hb Hl Hc; cbn [sub_borrow]; try done.
  { intros [= <- <-]. split_and!; try done; [lia|lia|]. change (2 ^ (64 * zlen [])) with 1. cbn [lval]. lia. }
  inversion Ha as [|?? Hx Ha0]; subst. inversion Hb as [|?? Hy Hb0]; subst. clear Ha Hb. rename Ha0 into Ha, Hb0 into Hb.
  destruct (overflowing_sub x y) as [s1 c1] eqn:E1. destruct (overflowing_sub s1 c) as [s2 c2] eqn:E2.
  apply overflowing_sub_spec in E1 as [Hs1 E1]; [|done..].
  apply overflowing_sub_spec in E2 as [Hs2 E2]; [|done|unfold uint; lia].
  assert (0 <= Z.b2z c1 + Z.b2z c2 <= 1) as Hcc by (unfold uint in *; destruct c1, c2; cbn [Z.b2z] in *; lia).
  rewrite as64_small by lia. destruct (sub_borrow a b _) as [rest c''] eqn:E. intros [= <- <-].
  destruct (IH b _ rest c'' Ha Hb ltac:(cbn in Hl; lia) Hcc E) as (Hlr & Hr & Hc'' & Hv).
  split_and!; [cbn; lia|by constructor|lia|lia|]. rewrite zlen_cons. cbn [lval].
  replace (64 * (1 + zlen a)) with (64 + 64 * zlen a) by lia. pose proof (zlen_nonneg a). rewrite Z.pow_add_r by lia. nia.
Qed.

(** ** Comparison and subtraction of the modulus *)
Lemma gte_go_spec f : forall q,
  Forall (uint 64) f -> Forall (uint 64) q -> length q = length f -> gte_go (reverse f) (reverse q) = (lval q <=? lval f).
Proof.
  induction f as [|x f IH] using rev_ind; intros q Hf Hq Hl.
  { by destruct q. }
  destruct q as [|y q _] using rev_ind; [rewrite length_app in Hl; cbn in Hl; lia|].
  apply Forall_app in Hf as [Hf Hx]. apply Forall_app in Hq as [Hq Hy]. rewrite Forall_singleton in Hx, Hy.
  rewrite !length_app in Hl. cbn in Hl. assert (length q = length f) as Hl' by lia.
  rewrite !reverse_snoc, !lval_app. cbn [gte_go lval]. rewrite IH by done.
  pose proof (lval_range f Hf). pose proof (lval_range q Hq). unfold zlen in *. rewrite Hl' in *.
  pose proof (Z.pow_pos_nonneg 2 (64 * Z.of_nat (length f)) ltac:(lia) ltac:(lia)).
  destruct (Z.ltb_spec y x); [|destruct (Z.ltb_spec x y)]; symmetry.
  - apply Z.leb_le. nia.
  - apply Z.leb_gt. nia.
  - assert (x = y) as -> by lia. destruct (Z.leb_spec (lval q) (lval f)); [apply Z.leb_le|apply Z.leb_gt]; nia.
Qed.

Lemma P_wf : fe_wf P.
Proof. split; [done|]. repeat constructor; done. Qed.

Lemma lval_P : lval P = p25519.
Proof. reflexivity. Qed.

Lemma gte_p_spec f : fe_wf f -> gte_p f = (p25519 <=? lval f).
Proof. intros [Hl Hf]. unfold gte_p. rewrite gte_go_spec; [by rewrite lval_P|done|apply P_wf|by rewrite Hl]. Qed.

Lemma sub_p_spec f : fe_wf f -> p25519 <= lval f -> fe_wf (sub_p f) /\ lval (sub_p f) = lval f - p25519.
Proof.
  intros [Hl Hf] Hp. unfold sub_p. destruct (sub_borrow f P 0) as [r c] eqn:E. cbn.
  apply sub_borrow_spec in E as (Hlr & Hr & Hc & Hv); [|done|apply P_wf|by rewrite Hl|lia].
  rewrite lval_P in Hv. pose proof (lval_range r Hr) as Hb. unfold zlen in *. rewrite Hlr, Hl in *.
  change (64 * Z.of_nat 4) with 256 in *. split; [by split|]. nia.
Qed.

(** One subtraction is enough below twice the modulus. *)
Lemma sub_p_once f : fe_wf f -> lval f < 2 * p25519 ->
  let f' := if gte_p f then sub_p f else f in canonical f' /\ lval f' = lval f mod p25519.
Proof.
  intros Hf Hv. cbn zeta. rewrite gte_p_spec by done. pose proof (fe_wf_range f Hf).
  destruct (Z.leb_spec p25519 (lval f)) as [Hle|Hlt].
  - destruct (sub_p_spec f Hf Hle) as [Hw He]. unfold canonical. rewrite He. split; [split; [done|lia]|].
    rewrite <- (Z_mod_plus_full _ (-1)), Z.mod_small by (unfold p25519 in *; lia). lia.
  - split; [by split|]. by rewrite Z.mod_small by (unfold p25519 in *; lia).
Qed.

Lemma normalize_spec f : fe_wf f ->
  exists f', normalize_go 3 f = Some f' /\ normalized f = f' /\ canonical f' /\ lval f' = lval f mod p25519.
Proof.
  intros Hf. pose proof (fe_wf_range f Hf) as Hv. assert (2 ^ 256 = 2 * p25519 + 38) as E by reflexivity. unfold normalized.
  assert (forall g n, fe_wf g -> lval g < 2 * p25519 ->
    exists f', normalize_go (S (S n)) g = Some f' /\ canonical f' /\ lval f' = lval g mod p25519) as Hstep.
  { intros g n Hg Hlt. pose proof (sub_p_once g Hg Hlt) as [Hc He]. cbn [normalize_go].
    destruct (gte_p g) eqn:Eg; [|by exists g]. rewrite gte_p_spec by apply Hc.
    rewrite (proj2 (Z.leb_gt _ _)) by (destruct Hc; lia). by exists (sub_p g). }
  destruct (Z.ltb_spec (lval f) (2 * p25519)) as [Hlt|Hge].
  - destruct (Hstep f 1%nat Hf Hlt) as (f' & E1 & Hc & He). exists f'. by rewrite E1.
  - assert (p25519 <= lval f) as Hp by (unfold p25519 in *; lia).
    destruct (sub_p_spec f Hf Hp) as [Hw Hs].
    destruct (Hstep (sub_p f) 0%nat Hw ltac:(lia)) as (f' & E1 & Hc & He). exists f'.
    assert (normalize_go 3 f = Some f') as E3.
    { transitivity (normalize_go 2 (sub_p f)); [|done]. cbn [normalize_go]. rewrite (gte_p_spec f) by done.
      by rewrite (proj2 (Z.leb_le _ _)) by lia. }
    rewrite E3. split_and!; try done. rewrite He, Hs. rewrite <- (Z_mod_plus_full _ 1). f_equal. lia.
Qed.

Lemma normalized_spec f : fe_wf f -> canonical (normalized f) /\ lval (normalized f) = lval f mod p25519.
Proof. intros Hf. by destruct (normalize_spec f Hf) as (f' & _ & -> & Hc). Qed.

(** ** Addition and subtraction *)
Lemma add_spec a b : canonical a -> canonical b -> canonical (add a b) /\ lval (add a b) = (lval a + lval b) mod p25519.
Proof.
  intros [[Hla Ha] Hpa] [[Hlb Hb] Hpb]. unfold add. destruct (add_carry a b 0) as [r c] eqn:E.
  apply add_carry_spec in E as (Hlr & Hr & Hc & Hv); [|done|done|lia|lia].
  pose proof (lval_range r Hr). unfold zlen in *. rewrite Hlr, Hla in *. change (64 * Z.of_nat 4) with 256 in *.
  assert (c = 0) as -> by (unfold p25519 in *; lia). cbn [Z.ltb Z.compare].
  replace (lval a + lval b) with (lval r) by lia. apply sub_p_once; [by split|lia].
Qed.

Lemma sub_spec a b : canonical a -> canonical b -> canonical (sub a b) /\ lval (sub a b) = (lval a - lval b) mod p25519.
Proof.
  intros Hca Hcb. pose proof (fe_wf_range a (proj1 Hca)). pose proof (fe_wf_range b (proj1 Hcb)).
  destruct Hca as [[Hla Ha] Hpa], Hcb as [[Hlb Hb] Hpb]. unfold sub. destruct (sub_borrow a b 0) as [r c] eqn:E.
  apply sub_borrow_spec in E as (Hlr & Hr & Hc & Hv); [|done|done|lia|lia].
  pose proof (lval_range r Hr). unfold zlen in *. rewrite Hlr, Hla in *. change (64 * Z.of_nat 4) with 256 in *.
  destruct (Z.ltb_spec 0 c).
  - destruct (add_carry r P 0) as [r' c'] eqn:E'. cbn.
    apply add_carry_spec in E' as (Hlr' & Hr' & Hc' & Hv'); [|done|apply P_wf|by rewrite Hlr|lia].
    pose proof (lval_range r' Hr'). unfold zlen in *. rewrite Hlr', Hlr in *. change (64 * Z.of_nat 4) with 256 in *.
    rewrite lval_P in Hv'. assert (lval r' = lval a - lval b + p25519) as Er by (unfold p25519 in *; nia).
    split; [split; [by split|lia]|]. rewrite <- (Z_mod_plus_full _ 1), Z.mod_small by (unfold p25519 in *; lia). lia.
  - split; [split; [by split|nia]|]. rewrite Z.mod_small by (unfold p25519 in *; nia). nia.
Qed.

(** ** Multiplication *)
Lemma carry_range z k : 0 <= z < 2 ^ (64 + k) -> 0 <= k -> 0 <= Z.shiftr z 64 < 2 ^ k.
Proof.
  intros Hz Hk. rewrite Z.shiftr_div_pow2 by lia. split; [apply Z.div_pos; lia|].
  apply Z.div_lt_upper_bound; [lia|]. rewrite <- Z.pow_add_r by lia. lia.
Qed.

Ltac limbs_cons H :=
  inversion H; subst; clear H.

Lemma mac_row_spec ai b : forall w c row c',
  uint 64 ai -> Forall (uint 64) b -> Forall (uint 64) w -> (length b <= length w)%nat -> uint 64 c ->
  mac_row ai b w c = (row, c') ->
  length row = length b /\ Forall (uint 64) row /\ uint 64 c' /\
  lval row + 2 ^ (64 * zlen b) * c' = ai * lval b + lval (take (length b) w) + c.
Proof.
  induction b as [|bj b IH]; intros [|wk w] c row c' Hai Hb Hw Hl Hc; cbn [mac_row]; try (cbn in Hl; lia).
  1-2: intros [= <- <-]; split_and!; try done; cbn [length take lval]; change (2 ^ (64 * zlen [])) with 1; lia.
  limbs_cons Hb. limbs_cons Hw. unfold uint in *.
  assert (0 <= ai * bj <= (2 ^ 64 - 1) * (2 ^ 64 - 1)) by nia.
  rewrite (as128_small (ai * bj)) by lia. rewrite (as128_small (_ + wk)) by lia. rewrite as128_small by lia.
  pose proof (carry_range (ai * bj + wk + c) 64 ltac:(lia) ltac:(lia)) as Hsh.
  destruct (mac_row ai b w _) as [row0 c0] eqn:E. intros [= <- <-].
  apply IH in E as (Hlr & Hr & Hc0 & Hv); [|done..|cbn in Hl; lia|done].
  split_and!; [cbn; lia|constructor; [apply as64_range|done]|lia|lia|].
  cbn [lval length take]. rewrite zlen_cons. replace (64 * (1 + zlen b)) with (64 + 64 * zlen b) by lia.
  pose proof (zlen_nonneg b). rewrite Z.pow_add_r by lia. pose proof (limb_split (ai * bj + wk + c)). nia.
Qed.

Lemma mul_rows_spec b a : forall lo,
  Forall (uint 64) a -> fe_wf b -> fe_wf lo ->
  let w := mul_rows a b (lo ++ replicate (length a) 0) in
  length w = (4 + length a)%nat /\ Forall (uint 64) w /\ lval w = lval a * lval b + lval lo.
Proof.
  induction a as [|ai a IH]; intros lo Ha Hb Hlo; cbn zeta; cbn [mul_rows length replicate].
  { rewrite app_nil_r. destruct Hlo. split_and!; [lia|done|cbn; lia]. }
  limbs_cons Ha. destruct Hlo as [Hll Hlo], Hb as [Hlb Hb].
  destruct (mac_row ai b _ 0) as [row c] eqn:E.
  apply mac_row_spec in E as (Hlr & Hr & Hc & Hv); [|done|done| |rewrite length_app, Hll; cbn; lia|done].
  2:{ apply Forall_app. split; [done|]. constructor; [done|]. by apply Forall_replicate. }
  rewrite Hlb, <- Hll, take_app_length in Hv. rewrite <- Hll, drop_app_length.
  destruct row as [|w0 row]; [cbn in Hlr; lia|]. limbs_cons Hr. cbn in Hlr.
  assert (as64 (as128 (0 + c)) = c) as ->.
  { unfold uint in Hc. rewrite as128_small, as64_small by lia. lia. }
  replace (row ++ c :: replicate (length a) 0) with ((row ++ [c]) ++ replicate (length a) 0) by by rewrite <- app_assoc.
  destruct (IH (row ++ [c])) as (Hlw & Hw & Hvw); [done|done|..].
  { split; [rewrite length_app; cbn; lia|]. apply Forall_app. split; [done|]. by constructor. }
  cbn zeta in *. split_and!; [cbn; lia|by constructor|]. cbn [lval] in *. rewrite Hvw, lval_app.
  unfold zlen in *. rewrite Hlb in Hv. replace (Z.of_nat (length row)) with 3 by lia. cbn [lval].
  change (64 * Z.of_nat 4) with 256 in Hv. change (2 ^ 256) with (2 ^ 64 * 2 ^ (64 * 3)) in Hv. nia.
Qed.

Lemma times38_spec w : forall c h c',
  Forall (uint 64) w -> 0 <= c < 38 -> times38 w c = (h, c') ->
  length h = length w /\ Forall (uint 64) h /\ 0 <= c' < 38 /\ lval h + 2 ^ (64 * zlen w) * c' = 38 * lval w + c.
Proof.
  induction w as [|x w IH]; intros c h c' Hw Hc; cbn [times38].
  { intros [= <- <-]; split_and!; try done; cbn [lval]; change (2 ^ (64 * zlen [])) with 1; lia. }
  limbs_cons Hw. unfold uint in *. rewrite (as128_small (x * 38)) by lia. rewrite as128_small by lia.
  assert (0 <= Z.shiftr (x * 38 + c) 64 < 38) as Hsh.
  { rewrite Z.shiftr_div_pow2 by lia. split; [apply Z.div_pos; lia|]. apply Z.div_lt_upper_bound; lia. }
  destruct (times38 w _) as [h0 c0] eqn:E. intros [= <- <-].
  apply IH in E as (Hlr & Hr & Hc0 & Hv); [|done..]. change (Z.land ?z mask64) with (as64 z).
  split_and!; [cbn; lia|constructor; [apply as64_range|done]|lia|lia|].
  cbn [lval]. rewrite zlen_cons. replace (64 * (1 + zlen w)) with (64 + 64 * zlen w) by lia.
  pose proof (zlen_nonneg w). rewrite Z.pow_add_r by lia. pose proof (limb_split (x * 38 + c)). nia.
Qed.

Lemma add_rows_spec w : forall h c r c',
  Forall (uint 64) w -> Forall (uint 64) h -> length h = length w -> 0 <= c <= 1 -> add_rows w h c = (r, c') ->
  length r = length w /\ Forall (uint 64) r /\ 0 <= c' <= 1 /\ lval r + 2 ^ (64 * zlen w) * c' = lval w + lval h + c.
Proof.
  induction w as [|x w IH]; intros [|y h] c r c' Hw Hh Hl Hc; cbn [add_rows]; try done.
  { intros [= <- <-]; split_and!; try done; [lia|lia|]; cbn [lval]; change (2 ^ (64 * zlen [])) with 1; lia. }
  limbs_cons Hw. limbs_cons Hh. unfold uint in *. rewrite (as128_small (x + y)) by lia. rewrite as128_small by lia.
  pose proof (carry_range (x + y + c) 1 ltac:(lia) ltac:(lia)) as Hsh.
  destruct (add_rows w h _) as [r0 c0] eqn:E. intros [= <- <-].
  apply IH in E as (Hlr & Hr & Hc0 & Hv); [|done|done|by injection Hl|lia].
  split_and!; [cbn; lia|constructor; [apply as64_range|done]|lia|lia|].
  cbn [lval]. rewrite zlen_cons. replace (64 * (1 + zlen w)) with (64 + 64 * zlen w) by lia.
  pose proof (zlen_nonneg w). rewrite Z.pow_add_r by lia. pose proof (limb_split (x + y + c)). nia.
Qed.

Lemma carry_on_spec r : forall c r' c',
  Forall (uint 64) r -> 0 <= c < 2 ^ 32 -> carry_on r c = (r', c') ->
  length r' = length r /\ Forall (uint 64) r' /\ 0 <= c' < 2 ^ 32 /\ lval r' + 2 ^ (64 * zlen r) * c' = lval r + c.
Proof.
  induction r as [|x r IH]; intros c r' c' Hr Hc; cbn [carry_on].
  { intros [= <- <-]; split_and!; try done; [lia|lia|]; cbn [lval]; change (2 ^ (64 * zlen [])) with 1; lia. }
  limbs_cons Hr. unfold uint in *. rewrite as128_small by lia.
  pose proof (carry_range (x + c) 1 ltac:(lia) ltac:(lia)) as Hsh.
  destruct (carry_on r _) as [r0 c0] eqn:E. intros [= <- <-].
  apply IH in E as (Hlr & Hr & Hc0 & Hv); [|done|lia].
  split_and!; [cbn; lia|constructor; [apply as64_range|done]|lia|lia|].
  cbn [lval]. rewrite zlen_cons. replace (64 * (1 + zlen r)) with (64 + 64 * zlen r) by lia.
  pose proof (zlen_nonneg r). rewrite Z.pow_add_r by lia. pose proof (limb_split (x + c)). nia.
Qed.

(** Folding a carry out of the limbs back in, as [2^256] is [38] modulo the prime. *)
Lemma fold_mod v v' c : v' + 2 ^ 256 * c = v -> (v' + c * 38) mod p25519 = v mod p25519.
Proof. intros <-. rewrite <- (Z_mod_plus_full _ (2 * c)). f_equal. unfold p25519. lia. Qed.

Lemma fold_extra_spec r e :
  fe_wf r -> 0 <= e <= 38 * 39 ->
  exists r', fold_extra 3 r e = Some r' /\ fe_wf r' /\ lval r' mod p25519 = (lval r + e) mod p25519.
Proof.
  intros Hr He. change (fold_extra 3 r e) with
    (if 0 <? e then let '(r, c_prop) := carry_on r e in fold_extra 2 r (as128 (c_prop * 38)) else Some r).
  destruct (Z.ltb_spec 0 e) as [H0|H0].
  2:{ exists r. split_and!; [done|done|]. f_equal. lia. }
  pose proof (fe_wf_range r Hr) as Hb. destruct Hr as [Hl Hr]. destruct (carry_on r e) as [r1 c1] eqn:E1.
  apply carry_on_spec in E1 as (Hl1 & Hr1 & Hc1 & Hv1); [|done|lia].
  pose proof (fe_wf_range r1 ltac:(split; [lia|done])) as Hb1. unfold zlen in Hv1. rewrite Hl in Hv1.
  change (64 * Z.of_nat 4) with 256 in Hv1. rewrite as128_small by lia.
  change (fold_extra 2 r1 ?e) with
    (if 0 <? e then let '(r, c_prop) := carry_on r1 e in fold_extra 1 r (as128 (c_prop * 38)) else Some r1).
  rewrite <- (fold_mod _ _ _ Hv1).
  destruct (Z.ltb_spec 0 (c1 * 38)) as [H1|H1].
  2:{ exists r1. split_and!; [done|split; [lia|done]|]. f_equal. lia. }
  destruct (carry_on r1 (c1 * 38)) as [r2 c2] eqn:E2.
  apply carry_on_spec in E2 as (Hl2 & Hr2 & Hc2 & Hv2); [|done|nia].
  pose proof (fe_wf_range r2 ltac:(split; [lia|done])) as Hb2. unfold zlen in Hv2. rewrite Hl1, Hl in Hv2.
  change (64 * Z.of_nat 4) with 256 in Hv2. assert (c1 = 1) as -> by nia. assert (c2 = 0) as -> by nia.
  exists r2. split_and!; [done|split; [lia|done]|]. f_equal. lia.
Qed.

Lemma mul_ends a b : fe_wf a -> fe_wf b ->
  exists r e r', fe_wf r /\ fold_extra 3 r e = Some r' /\ mul a b = normalized r' /\ fe_wf r' /\
    lval r' mod p25519 = (lval a * lval b) mod p25519.
Proof.
  intros [Hla Ha] Hb. unfold mul.
  pose proof (mul_rows_spec b a ZERO Ha Hb ltac:(split; [done|repeat constructor; done])) as (Hlw & Hw & Hvw).
  rewrite Hla in Hlw, Hw, Hvw. cbn zeta in *. change (ZERO ++ replicate 4 0) with [0; 0; 0; 0; 0; 0; 0; 0] in *.
  set (w := mul_rows a b _) in *. rewrite <- (take_drop 4 w) in Hw, Hvw. apply Forall_app in Hw as [Hlo Hhi].
  assert (length (take 4 w) = 4%nat) as Hll by (rewrite length_take; lia).
  assert (length (drop 4 w) = 4%nat) as Hlh by (rewrite length_drop; lia).
  destruct (times38 (drop 4 w) 0) as [h c] eqn:E1. apply times38_spec in E1 as (Hlh' & Hh & Hc & Hvh); [|done|lia].
  destruct (add_rows (take 4 w) h 0) as [r ca] eqn:E2.
  apply add_rows_spec in E2 as (Hlr & Hr & Hca & Hvr); [|done|done|lia|lia].
  rewrite lval_app in Hvw. unfold zlen in *. rewrite Hll, Hlh in *. change (64 * Z.of_nat 4) with 256 in *.
  rewrite (as128_small (ca + c)) by lia. rewrite as128_small by lia.
  assert (fe_wf r) as Hwr by (split; [lia|done]).
  destruct (fold_extra_spec r ((ca + c) * 38) Hwr ltac:(lia)) as (r' & E3 & Hw' & Hm).
  exists r, ((ca + c) * 38), r'. rewrite E3. split_and!; try done. rewrite Hm.
  assert (lval ZERO = 0) as Hz by done.
  rewrite (fold_mod (lval r + 2 ^ 256 * (ca + c)) _ _ eq_refl).
  rewrite <- (Z_mod_plus_full (lval a * lval b) (-2 * lval (drop 4 w))). f_equal. unfold p25519. lia.
Qed.

Lemma mul_spec a b : fe_wf a -> fe_wf b -> canonical (mul a b) /\ lval (mul a b) = (lval a * lval b) mod p25519.
Proof.
  intros Ha Hb. destruct (mul_ends a b Ha Hb) as (r & e & r' & _ & _ & -> & Hw & Hm).
  destruct (normalized_spec r' Hw) as [Hc ->]. by rewrite Hm.
Qed.

(** ** Bytes *)
Lemma pass_carry_small l : forall c l' c',
  Forall (uint 64) l -> 0 <= c <= 1 -> pass_carry l c = (l', c') ->
  length l' = length l /\ Forall (uint 64) l' /\ 0 <= c' <= 1 /\ lval l' + 2 ^ (64 * zlen l) * c' = lval l + c.
Proof.
  induction l as [|x l IH]; intros c l' c' Hl Hc; cbn [pass_carry].
  { intros [= <- <-]; split_and!; try done; [lia|lia|]; cbn [lval]; change (2 ^ (64 * zlen [])) with 1; lia. }
  destruct (Z.eqb_spec c 0) as [->|Hn]; [intros [= <- <-]; split_and!; try done; lia|].
  limbs_cons Hl. unfold uint in *. rewrite as128_small by lia.
  pose proof (carry_range (x + c) 1 ltac:(lia) ltac:(lia)) as Hsh.
  destruct (pass_carry l _) as [r0 c0] eqn:E. intros [= <- <-].
  apply IH in E as (Hlr & Hr & Hc0 & Hv); [|done|lia].
  split_and!; [cbn; lia|constructor; [apply as64_range|done]|lia|lia|].
  cbn [lval]. rewrite zlen_cons. replace (64 * (1 + zlen l)) with (64 + 64 * zlen l) by lia.
  pose proof (zlen_nonneg l). rewrite Z.pow_add_r by lia. pose proof (limb_split (x + c)). nia.
Qed.

Lemma reduce_spec f : fe_wf f -> canonical (reduce f) /\ lval (reduce f) = lval f mod p25519.
Proof.
  intros [Hl Hf]. destruct f as [|f0 [|f1 [|f2 [|f3 [|]]]]]; try done. unfold reduce.
  do 4 (limbs_cons Hf; rename select (Forall _ _) into Hf). unfold uint in *.
  change 0x7fffffffffffffff with (Z.ones 63). rewrite Z.land_ones, Z.shiftr_div_pow2 by lia.
  set (f3' := f3 mod 2 ^ 63). set (b := f3 / 2 ^ 63).
  assert (0 <= f3' < 2 ^ 63) as Hf3 by (apply Z.mod_pos_bound; lia).
  assert (f3 = b * 2 ^ 63 + f3') as E3 by (subst b f3'; pose proof (Z.div_mod f3 (2 ^ 63) ltac:(lia)); lia).
  assert (0 <= b <= 1) as Hb by lia. clearbody f3' b.
  assert (lval [f0; f1; f2; f3] mod p25519 = (lval [f0; f1; f2; f3'] + 19 * b) mod p25519) as ->.
  { rewrite <- (Z_mod_plus_full (lval [f0; f1; f2; f3'] + 19 * b) b). f_equal. cbn [lval]. unfold p25519. lia. }
  assert (lval [f0; f1; f2; f3'] < 2 ^ 255) as Hv by (cbn [lval]; lia).
  destruct (Z.eqb_spec b 0) as [->|Hn]; cbn [negb].
  { rewrite Z.mul_0_r, Z.add_0_r. apply sub_p_once; [|unfold p25519; lia].
    split; [done|]. repeat constructor; unfold uint; lia. }
  assert (b = 1) as -> by lia.
  pose proof (carry_range (f0 + 19) 1 ltac:(lia) ltac:(lia)) as Hsh.
  destruct (pass_carry [f1; f2; f3'] _) as [hi c] eqn:E.
  apply pass_carry_small in E as (Hlh & Hh & Hc & Hvh); [|repeat constructor; unfold uint; lia|lia].
  pose proof (limb_split (f0 + 19)) as Es. pose proof (lval_range hi Hh) as Hhr. unfold zlen in *. rewrite Hlh in Hhr.
  cbn [length] in *. pose proof (as64_range (f0 + 19)).
  assert (c = 0) as ->. { cbn [lval] in Hv. cbn [lval] in Hvh. change (64 * Z.of_nat 3) with 192 in *. lia. }
  cbn [Z.ltb Z.compare].
  replace (lval [f0; f1; f2; f3'] + 19 * 1) with (lval (as64 (f0 + 19) :: hi)).
  - apply sub_p_once.
    + split; [cbn; lia|]. by constructor.
    + cbn [lval] in *. unfold p25519. lia.
  - cbn [lval] in *. lia.
Qed.

Lemma le_val_limbs l : Forall (uint 64) l -> le_val (concat (map (le_bytes 8) l)) = lval l.
Proof.
  induction 1 as [|x l Hx Hl IH]; [done|]. cbn [map concat lval]. rewrite le_val_app, zlen_le_bytes, IH.
  by rewrite le_val_bytes_id by done.
Qed.

Lemma zlen_limbs l : zlen (concat (map (le_bytes 8) l)) = 8 * zlen l.
Proof. induction l as [|x l IH]; [done|]. cbn [map concat]. rewrite zlen_app, zlen_le_bytes, IH, zlen_cons. lia. Qed.

Lemma to_bytes_spec f : fe_wf f -> to_bytes f = le_bytes 32 (lval f mod p25519).
Proof.
  intros Hf. unfold to_bytes. destruct (normalized_spec f Hf) as [[[Hl Hn] Hlt] He]. apply le_val_inj.
  - rewrite zlen_limbs, zlen_le_bytes. unfold zlen. by rewrite Hl.
  - rewrite le_val_limbs, He, le_val_bytes_id; [done| |done].
    pose proof (Z.mod_pos_bound (lval f) p25519 ltac:(done)). unfold uint, p25519 in *. lia.
Qed.

Lemma from_bytes_spec bs :
  zlen bs = 32 -> canonical (from_bytes bs) /\ lval (from_bytes bs) = le_val bs mod p25519.
Proof.
  intros Hl. unfold from_bytes. set (f := map _ _).
  assert (fe_wf f) as Hf.
  { split; [done|]. subst f. repeat apply List.Forall_cons; try apply List.Forall_nil.
    all: match goal with |- uint 64 (le_val ?s) => pose proof (le_val_range s) as Hr; rewrite zlen_slice in Hr by lia end.
    all: exact Hr. }
  assert (lval f = le_val bs) as <-; [|by apply reduce_spec].
  subst f. cbn [map lval]. rewrite <- (slice_full 32 bs) at 5 by lia.
  rewrite (slice_cut 0 8 32), (slice_cut 8 16 32), (slice_cut 16 24 32) by lia.
  rewrite !le_val_app, !zlen_slice by lia.
  change (slice (0 * 8) _ bs) with (slice 0 8 bs). change (slice (1 * 8) _ bs) with (slice 8 16 bs).
  change (slice (2 * 8) _ bs) with (slice 16 24 bs). change (slice (3 * 8) _ bs) with (slice 24 32 bs).
  change (2 ^ (8 * (8 - 0))) with (2 ^ 64). change (2 ^ (8 * (16 - 8))) with (2 ^ 64).
  change (2 ^ (8 * (24 - 16))) with (2 ^ 64). lia.
Qed.

Lemma is_negative_spec f : fe_wf f -> is_negative f = Z.odd (lval f mod p25519).
Proof.
  intros Hf. unfold is_negative. rewrite to_bytes_spec by done. cbn [le_bytes].
  set (v := lval f mod p25519). rewrite b2z_z2b, (Z.land_ones _ 1) by lia.
  change (2 ^ 1) with 2. rewrite Z.mod_mod_divide by (by exists 128). rewrite Zmod_odd. by destruct (Z.odd v).
Qed.

(** ** Powers *)

(** The loops on related values give related values. *)
Definition states_related {A C} (R : A -> C -> Prop) (s : A * A * Z) (t : C * C * Z) : Prop :=
  R s.1.1 t.1.1 /\ R s.1.2 t.1.2 /\ s.2 = t.2.

Section Related.
Context {A C : Type} (R : A -> C -> Prop) (f : A -> A -> A) (g : C -> C -> C).
Hypothesis R_times : forall a a' c c', R a c -> R a' c' -> R (f a a') (g c c').

Lemma pow_limb_related bits limb bound : forall s t,
  states_related R s t -> states_related R (pow_limb f bits limb bound s) (pow_limb g bits limb bound t).
Proof.
  induction bits as [|i bits IH]; intros [[r b] n] [[r' b'] n'] H; cbn [pow_limb]; [done|].
  destruct H as (Hr & Hb & Hn). cbn in Hr, Hb, Hn. subst n'. destruct (bound <=? n); [done|].
  apply IH. split_and!; cbn; [destruct (_ =? 1); [by apply R_times|done]|by apply R_times|done].
Qed.

Lemma pow_limbs_related exp bound : forall s t,
  states_related R s t -> states_related R (pow_limbs f exp bound s) (pow_limbs g exp bound t).
Proof.
  unfold pow_limbs. generalize (seq 0 64) as bits. intros bits.
  induction exp as [|limb exp IH]; intros s t H; cbn [fold_left]; [done|]. apply IH. by apply pow_limb_related.
Qed.

Lemma pow_loop_related exp bound one x one' x' :
  R one one' -> R x x' -> R (pow_loop f exp bound one x) (pow_loop g exp bound one' x').
Proof. intros H1 Hx. by apply (pow_limbs_related exp bound (one, x, 0) (one', x', 0)). Qed.
End Related.

(** The exponent that a loop computes is the same loop on exponents, from 0 and 1. *)
Definition exponent (exp : list Z) (bound : Z) : Z := pow_loop Z.add exp bound 0 1.

Lemma pow_loop_spec exp bound a :
  canonical a -> let r := pow_loop mul exp bound ONE a in
  canonical r /\ lval r = lval a ^ exponent exp bound mod p25519.
Proof.
  intros Ha. cbn zeta. unfold exponent.
  assert (forall k, k = pow_loop Z.add exp bound 0 1 -> let r := pow_loop mul exp bound ONE a in
    canonical r /\ 0 <= k /\ lval r = lval a ^ k mod p25519) as H; [|by destruct (H _ eq_refl) as (? & _ & ?)].
  intros k ->. cbn zeta.
  apply (pow_loop_related (fun f k => canonical f /\ 0 <= k /\ lval f = lval a ^ k mod p25519) mul Z.add).
  - intros f g k m (Hf & Hk & Ef) (Hg & Hm & Eg). destruct (mul_spec f g (proj1 Hf) (proj1 Hg)) as [Hc ->].
    split_and!; [done|lia|]. by rewrite Ef, Eg, <- Z.mul_mod, Z.pow_add_r by done.
  - split_and!; [split; [split; [done|repeat constructor; done]|done]|lia|done].
  - pose proof (fe_wf_range a (proj1 Ha)). split_and!; [done|lia|]. rewrite Z.pow_1_r.
    symmetry. apply Z.mod_small. destruct Ha. lia.
Qed.

Lemma p_minus_2_exponent : exponent p_minus_2 255 = p25519 - 2.
Proof. vm_compute. reflexivity. Qed.

Lemma sqrt_exponent : exponent sqrt_exp 252 = 2 ^ 252 - 2.
Proof. vm_compute. reflexivity. Qed.

Lemma canonical_inj a b : canonical a -> canonical b -> lval a = lval b -> a = b.
Proof.
  intros [[Hla Ha] _] [[Hlb Hb] _] E. rewrite <- Hlb in Hla. clear Hlb. revert b Hla Ha Hb E.
  induction a as [|x a IH]; intros [|y b] Hl Ha Hb E; try done. limbs_cons Ha. limbs_cons Hb. cbn [lval] in E. unfold uint in *.
  assert (x = y) as -> by lia. f_equal. apply IH; try done; [by injection Hl|lia].
Qed.

(** ** The field *)
Lemma lval_canonical a : canonical a -> lval a mod p25519 = lval a.
Proof. intros [Hw Hp]. pose proof (fe_wf_range a Hw). apply Z.mod_small. lia. Qed.

Lemma invert_spec a : canonical a -> canonical (invert a) /\ lval (invert a) = lval a ^ (p25519 - 2) mod p25519.
Proof. intros Ha. rewrite <- p_minus_2_exponent. by apply pow_loop_spec. Qed.

Lemma bytes_roundtrip f : canonical f -> from_bytes (to_bytes f) = f.
Proof.
  intros Hf. pose proof (fe_wf_range f (proj1 Hf)) as Hr. rewrite to_bytes_spec, lval_canonical by (done || apply Hf).
  destruct (from_bytes_spec (le_bytes 32 (lval f)) ltac:(by rewrite zlen_le_bytes)) as [Hc He].
  apply canonical_inj; [done..|]. rewrite He, le_val_bytes_id by exact Hr. by apply lval_canonical.
Qed.

(** C37: The operations on field elements compute modulo the prime [2^255 - 19], and give canonical elements: addition
    and subtraction of canonical elements, multiplication of any two arrays of limbs, the inverse as the power
    [p - 2], the bytes of an element and an element of 32 bytes, which are inverse to each other; and the two
    open loops of the source, the normalisation and the folding of carries, end within two rounds. *)
Theorem fe_refines_field :
  (forall a b, canonical a -> canonical b -> canonical (add a b) /\ lval (add a b) = (lval a + lval b) mod p25519) /\
  (forall a b, canonical a -> canonical b -> canonical (sub a b) /\ lval (sub a b) = (lval a - lval b) mod p25519) /\
  (forall a b, fe_wf a -> fe_wf b -> canonical (mul a b) /\ lval (mul a b) = (lval a * lval b) mod p25519) /\
  (forall a, canonical a -> canonical (invert a) /\ lval (invert a) = lval a ^ (p25519 - 2) mod p25519) /\
  (forall bs, zlen bs = 32 -> canonical (from_bytes bs) /\ lval (from_bytes bs) = le_val bs mod p25519) /\
  (forall f, fe_wf f -> to_bytes f = le_bytes 32 (lval f mod p25519) /\ is_negative f = Z.odd (lval f mod p25519)) /\
  (forall f, canonical f -> from_bytes (to_bytes f) = f) /\
  (forall f, fe_wf f -> exists g, normalize_go 3 f = Some g /\ canonical g /\ lval g = lval f mod p25519) /\
  (forall a b, fe_wf a -> fe_wf b -> exists r e r', fold_extra 3 r e = Some r' /\ mul a b = normalized r').
Proof.
  split_and!; intros.
  - by apply add_spec.
  - by apply sub_spec.
  - by apply mul_spec.
  - by apply invert_spec.
  - by apply from_bytes_spec.
  - split; [by apply to_bytes_spec|by apply is_negative_spec].
  - by apply bytes_roundtrip.
  - destruct (normalize_spec f) as (g & ? & _ & ? & ?); [done|]. by exists g.
  - destruct (mul_ends a b) as (r & e & r' & _ & ? & ? & _); [done..|]. by exists r, e, r'.
Qed.

(** ** Square roots *)
Definition sqrt_m1_value : Z := Eval vm_compute in lval sqrt_m1.
Lemma sqrt_m1_spec : canonical sqrt_m1 /\ lval sqrt_m1 = sqrt_m1_value.
Proof. split; [by apply from_bytes_spec|by vm_compute]. Qed.

Lemma normalized_canonical a : canonical a -> normalized a = a.
Proof.
  intros Ha. destruct (normalized_spec a (proj1 Ha)) as [Hc He].
  apply canonical_inj; [done..|]. rewrite He. by apply lval_canonical.
Qed.

Lemma square_test a r : canonical a -> canonical r ->
  bool_decide (normalized (square r) = normalized a) = ((lval r * lval r) mod p25519 =? lval a).
Proof.
  intros Ha Hr. destruct (mul_spec r r (proj1 Hr) (proj1 Hr)) as [Hc He]. rewrite !normalized_canonical by done.
  apply eq_true_iff_eq. rewrite bool_decide_eq_true, Z.eqb_eq, <- He. split; [by intros <-|]. by apply canonical_inj.
Qed.
