(* ===== verification/Prime25519.v ===== *)
(** * The prime 2^255 - 19

    Pocklington's criterion over the Standard Library's Fermat theorem, and a chain of certificates down to primes that trial
    division settles. The field of Fe25519 is thereby a field. *)
From S2P Require Import Prelude Fe25519.
From Stdlib Require Import Znumtheory Zpow_facts Zmod.

(** ** Prime divisors *)
Lemma small_prime_divisor n : 1 < n -> ~ Z.prime n -> exists r, Z.prime r /\ (r | n) /\ r * r <= n.
Proof.
  assert (forall m, 1 < m -> exists r, Z.prime r /\ (r | m)) as Hex.
  { intros m. induction (Z.lt_wf 0 m) as [m _ IH]. intros Hm.
    destruct (prime_dec m) as [Hp|Hp]; [exists m; split; [by apply prime_alt|done]|].
    destruct (not_prime_divide m Hm Hp) as (d & Hd & Hdm). destruct (IH d ltac:(lia) ltac:(lia)) as (r & Hr & Hrd).
    exists r. split; [done|]. by transitivity d. }
  intros Hn Hp. rewrite prime_alt in Hp. destruct (not_prime_divide n Hn Hp) as (d & Hd & [e He]).
  assert (1 < e < n) as Hee by nia.
  destruct (Z.le_ge_cases d e) as [Hle|Hle].
  - destruct (Hex d ltac:(lia)) as (r & Hr & Hrd). exists r. pose proof (Z.prime_ge_2 r Hr).
    pose proof (Z.divide_pos_le r d ltac:(lia) Hrd). split_and!; [done|transitivity d; [done|by exists e]|nia].
  - destruct (Hex e ltac:(lia)) as (r & Hr & Hre). exists r. pose proof (Z.prime_ge_2 r Hr).
    pose proof (Z.divide_pos_le r e ltac:(lia) Hre). split_and!; [done|transitivity e; [done|exists d; lia]|nia].
Qed.

(** ** Trial division *)
Fixpoint no_divisor (fuel : nat) (d n : Z) : bool :=
  match fuel with
  | O => false
  | S fuel => if n <? d * d then true else negb (n mod d =? 0) && no_divisor fuel (d + 1) n
  end.

Lemma no_divisor_spec fuel : forall d n, 0 < d -> no_divisor fuel d n = true -> forall r, d <= r -> r * r <= n -> ~ (r | n).
Proof.
  induction fuel as [|fuel IH]; intros d n Hd; cbn [no_divisor]; [done|].
  destruct (Z.ltb_spec n (d * d)); [intros _ r; nia|]. intros [Hm Hr]%andb_prop r Hdr Hrn Hdiv.
  destruct (decide (r = d)) as [->|Hne].
  - apply Z.mod_divide in Hdiv; [|lia]. by rewrite Hdiv in Hm.
  - by apply (IH (d + 1) n ltac:(lia) Hr r ltac:(lia) Hrn).
Qed.

Lemma trial_prime fuel n : 1 < n -> no_divisor fuel 2 n = true -> Z.prime n.
Proof.
  intros Hn Ht. apply prime_alt. destruct (prime_dec n) as [|Hp]; [done|]. exfalso. rewrite <- prime_alt in Hp.
  destruct (small_prime_divisor n Hn Hp) as (r & Hr & Hd & Hs).
  apply (no_divisor_spec fuel 2 n ltac:(lia) Ht r); [by apply Z.prime_ge_2|done|done].
Qed.

(** ** Pocklington's criterion *)
Lemma pow_mod_divide a b n r : 0 <= b -> (r | n) -> r <> 0 -> n <> 0 -> a ^ b mod n = 1 mod n -> a ^ b mod r = 1 mod r.
Proof.
  intros Hb Hd Hr Hn E. apply (f_equal (fun z => z mod r)) in E. by rewrite !Z.mod_mod_divide in E by done.
Qed.

(** A witness for one prime factor [q] of [n - 1]. *)
Definition pock_witness (n a q : Z) : Prop :=
  (q | n - 1) /\ a ^ (n - 1) mod n = 1 /\ Z.gcd (a ^ ((n - 1) / q) mod n - 1) n = 1.

Lemma pock_step n a q r : 1 < n -> Z.prime q -> pock_witness n a q -> Z.prime r -> (r | n) -> (q | r - 1).
Proof.
  intros Hn Hq (Hqn & Ha & Hg) Hr Hrn. pose proof (Z.prime_ge_2 q Hq). pose proof (Z.prime_ge_2 r Hr).
  set (k := (n - 1) / q) in *. assert (n - 1 = k * q) as Hk by (destruct Hqn as [c Hc]; subst k; rewrite Hc, Z.div_mul; lia).
  assert (0 < k) as Hk0 by nia. set (b := a ^ k).
  assert (b ^ q mod r = 1) as Hbq.
  { subst b. rewrite <- Z.pow_mul_r, <- Hk by lia.
    rewrite (pow_mod_divide a (n - 1) n r); [apply Z.mod_small|..]; try lia; [done|]. by rewrite Ha, Z.mod_small by lia. }
  assert (b mod r <> 1) as Hb1.
  { intros E. assert (r | 1) as H1; [|apply Z.divide_pos_le in H1; lia]. rewrite <- Hg. apply Z.gcd_greatest; [|done].
    apply Z.mod_divide; [lia|]. fold b. rewrite Zminus_mod, Z.mod_mod_divide by done. rewrite E, (Z.mod_small 1 r) by lia. done. }
  assert (b mod r <> 0) as Hb0.
  { intros E. rewrite <- Z.mod_pow_l, E, Z.pow_0_l in Hbq by lia. by rewrite Z.mod_0_l in Hbq by lia. }
  destruct (Z.BoolSpec_divide q (r - 1)) as [|Hnd]; [done|]. exfalso. apply Hb1.
  apply (Z.coprime_prime_l q (r - 1) Hq), Z.Bezout_coprime_iff in Hnd as (u & v & Huv).
  (* exponents without signs: [q * u' = 1 + (r - 1) * v'] *)
  set (t := Z.abs u + Z.abs v). assert (q * (u + t * (r - 1)) = 1 + (r - 1) * (t * q - v)) as Hx by lia.
  assert (0 <= u + t * (r - 1)) by nia. assert (0 <= t * q - v) by nia.
  assert (b ^ (q * (u + t * (r - 1))) mod r = 1) as E1.
  { rewrite Z.pow_mul_r by lia. rewrite <- Z.mod_pow_l, Hbq, Z.pow_1_l by lia. apply Z.mod_small. lia. }
  rewrite Hx, Z.pow_add_r, Z.pow_1_r, Z.pow_mul_r in E1 by nia.
  rewrite Z.mul_mod, <- (Z.mod_pow_l (b ^ (r - 1))), (Z.fermat_nz r b Hr Hb0), Z.pow_1_l in E1 by lia.
  rewrite (Z.mod_small 1 r), Z.mul_1_r, Z.mod_mod in E1 by lia. done.
Qed.

(** One factor, or the product of two, beyond the square root. *)
Lemma pocklington n F :
  1 < n -> n < F * F -> 0 < F -> (forall r, Z.prime r -> (r | n) -> (F | r - 1)) -> Z.prime n.
Proof.
  intros Hn Hsq HF HD. apply prime_alt. destruct (prime_dec n) as [|Hp]; [done|]. exfalso. rewrite <- prime_alt in Hp.
  destruct (small_prime_divisor n Hn Hp) as (r & Hr & Hd & Hs).
  pose proof (HD r Hr Hd) as D. pose proof (Z.prime_ge_2 r Hr). apply Z.divide_pos_le in D; [|lia]. nia.
Qed.

Lemma prime_mul_divide q1 q2 m : Z.prime q1 -> Z.prime q2 -> q1 <> q2 -> (q1 | m) -> (q2 | m) -> (q1 * q2 | m).
Proof.
  intros H1 H2 Hne [c ->] D2. apply Z.divide_prime_mul in D2 as [D2|D2]; [| |done].
  - destruct D2 as [e ->]. exists e. ring.
  - apply Z.divide_prime_prime in D2; [by symmetry in D2|done..].
Qed.

(** Witnesses by computation: the power [n - 1] is taken in two steps. *)
Definition pock_check (n a q : Z) : bool :=
  let k := (n - 1) / q in
  let b := Zpow_mod a k n in
  (k * q =? n - 1) && (Zpow_mod b q n =? 1) && (Z.gcd (b - 1) n =? 1).

Lemma pock_check_spec n a q : 1 < n -> 1 < q -> pock_check n a q = true -> pock_witness n a q.
Proof.
  unfold pock_check. cbn zeta. intros Hn Hq H. apply andb_prop in H as [H Hg]. apply andb_prop in H as [Hd Ha].
  rewrite !Zpow_mod_correct in Ha by lia. rewrite Zpow_mod_correct in Hg by lia. apply Z.eqb_eq in Hd, Ha, Hg. split_and!.
  - exists ((n - 1) / q). lia.
  - rewrite <- Hd, Z.pow_mul_r by nia. by rewrite <- Z.mod_pow_l.
  - done.
Qed.

Lemma prime_step1 n a q : Z.prime q -> (1 <? n) && (n <? q * q) && pock_check n a q = true -> Z.prime n.
Proof.
  intros Hq H. pose proof (Z.prime_ge_2 q Hq). apply andb_prop in H as [H W]. apply andb_prop in H as [Hn Hs].
  apply Z.ltb_lt in Hn, Hs. apply pock_check_spec in W; [|lia..].
  apply (pocklington n q); [lia..|]. intros r. by apply (pock_step n a).
Qed.

Lemma prime_step2 n a q1 q2 :
  Z.prime q1 -> Z.prime q2 ->
  (1 <? n) && negb (q1 =? q2) && (n <? q1 * q2 * (q1 * q2)) && pock_check n a q1 && pock_check n a q2 = true -> Z.prime n.
Proof.
  intros H1 H2 H. pose proof (Z.prime_ge_2 q1 H1). pose proof (Z.prime_ge_2 q2 H2).
  apply andb_prop in H as [H W2]. apply andb_prop in H as [H W1]. apply andb_prop in H as [H Hs].
  apply andb_prop in H as [Hn Hne]. apply Z.ltb_lt in Hn, Hs. apply negb_true_iff, Z.eqb_neq in Hne.
  apply pock_check_spec in W1, W2; [|lia..]. apply (pocklington n (q1 * q2)); [lia|lia|nia|].
  intros r Hr Hd. apply prime_mul_divide; [done..| |]; by eapply pock_step.
Qed.

Definition q51 : Z := 1919519569386763.
Definition q116 : Z := 75445702479781427272750846543864801.
Definition q235 : Z := 74058212732561358302231226437062788676166966415465897661863160754340907.

Lemma prime_q51 : Z.prime q51.
Proof.
  apply (prime_step2 q51 2 8574133 127); [apply (trial_prime 3000); [done|by vm_compute] ..|by vm_compute].
Qed.

Lemma prime_q116 : Z.prime q116.
Proof.
  apply (prime_step2 q116 2 q51 75707); [apply prime_q51|apply (trial_prime 300); [done|by vm_compute]|by vm_compute].
Qed.

Lemma prime_q235 : Z.prime q235.
Proof.
  apply (prime_step2 q235 2 q116 353); [apply prime_q116|apply (trial_prime 30); [done|by vm_compute]|by vm_compute].
Qed.

Lemma prime_p25519 : Z.prime p25519.
Proof.
  apply (prime_step1 p25519 2 q235); [apply prime_q235|by vm_compute].
Qed.
