(* ===== verification/PairingWire.v ===== *)
(** * Pairing: packets and peer information

    [pairing.rs] of adb-protocol: the packets of the pairing connection with their six-byte header, the information that the
    two sides exchange, and the pairing code. *)
From S2P Require Import Prelude Text Net Effects.

Definition PAIRING_HEADER_SIZE : Z := 6.
Definition PAIRING_VERSION : Z := 1.
Definition MAX_PAIRING_PAYLOAD : Z := 16 * 1024.
Definition MAX_PEER_INFO_SIZE : Z := 8192.
Definition ADB_RSA_PUB_KEY : Z := 0.
Definition ADB_DEVICE_GUID : Z := 1.

Inductive PairingError :=
| InvalidPairingCode
| InvalidHeader (text : bytes)
| InvalidPayload (text : bytes)
| Crypto (text : bytes)
| UnsupportedSpake2 (text : bytes)
| TlsRequired
| Io (text : bytes).

(** [From<std::io::Error>]. *)
Definition pairing_io (e : io_error) : PairingError := Io (io_msg e).

Inductive PairingPacketType := Spake2Msg | PeerInfoMsg.
#[export] Instance packet_type_eq : EqDecision PairingPacketType.
Proof. solve_decision. Defined.

Definition packet_type_byte (t : PairingPacketType) : Z := match t with Spake2Msg => 0 | PeerInfoMsg => 1 end.
Definition packet_type_debug (t : PairingPacketType) : bytes :=
  match t with Spake2Msg => B "Spake2Msg" | PeerInfoMsg => B "PeerInfo" end.

Definition packet_type_try_from (value : Z) : res PairingError PairingPacketType :=
  if value =? 0 then Ok Spake2Msg
  else if value =? 1 then Ok PeerInfoMsg
  else Err (InvalidHeader (B "unknown packet type " ++ fmt_dec value)).

Record PairingPacket := mk_packet { version : Z; packet_type : PairingPacketType; payload : bytes }.

Module Packet.

Definition new (packet_type : PairingPacketType) (payload : bytes) : res PairingError PairingPacket :=
  if (zlen payload =? 0) || (MAX_PAIRING_PAYLOAD <? zlen payload)
  then Err (InvalidPayload (B "payload length " ++ fmt_dec (zlen payload) ++ B " is outside 1..=" ++ fmt_dec MAX_PAIRING_PAYLOAD))
  else Ok (mk_packet PAIRING_VERSION packet_type payload).

Definition write_to (p : PairingPacket) : M Conn PairingError unit :=
  do! payload_len := lift (if zlen (payload p) <=? u32_max then Ok (zlen (payload p))
                           else Err (InvalidPayload (B "payload length exceeds u32"))) in
  let header := [z2b (version p); z2b (packet_type_byte (packet_type p))] ++ be_bytes 4 payload_len in
  do! _ := on_err pairing_io (write_all header) in
  on_err pairing_io (write_all (payload p)).

(** [read_exact] on the connection. *)
Definition receive (n : Z) : M Conn PairingError bytes := fun c =>
  let '(q, r) := read_exact n (incoming c) in (set_incoming q c, map_err pairing_io r).

Definition read_from : M Conn PairingError PairingPacket :=
  do! header := receive PAIRING_HEADER_SIZE in
  do! v := lift (get_index header 0) in
  let version := b2z v in
  if negb (version =? PAIRING_VERSION)
  then fail (InvalidHeader (B "unsupported pairing version " ++ fmt_dec version)) else
  do! t := lift (get_index header 1) in
  do! packet_type := lift (packet_type_try_from (b2z t)) in
  do! len := lift (get_slice header 2 6) in
  let payload_len := be_val len in
  if (payload_len =? 0) || (MAX_PAIRING_PAYLOAD <? payload_len)
  then fail (InvalidHeader (B "unsafe payload length " ++ fmt_dec payload_len)) else
  do! payload := receive payload_len in
  ret (mk_packet version packet_type payload).

End Packet.

Record PeerInfo := mk_peer { info_type : Z; data : bytes }.

Module Peer.

Definition from_rsa_pubkey (pubkey : bytes) : PeerInfo :=
  mk_peer ADB_RSA_PUB_KEY (if ends_with [x00] pubkey then pubkey else pubkey ++ [x00]).

Definition from_device_info (serial dev_name : bytes) : PeerInfo :=
  let d := serial ++ B ":" ++ dev_name in
  mk_peer ADB_DEVICE_GUID (if ends_with [x00] d then d else d ++ [x00]).

Definition serialize (i : PeerInfo) : res PairingError bytes :=
  if MAX_PEER_INFO_SIZE <=? zlen (data i) then Err (InvalidPayload (B "PeerInfo data exceeds buffer limit")) else
  let buf := zrep MAX_PEER_INFO_SIZE x00 in
  let buf := write_at 0 [z2b (info_type i)] buf in
  Ok (write_at 1 (data i) buf).

Definition deserialize (bs : bytes) : res PairingError PeerInfo :=
  if negb (zlen bs =? MAX_PEER_INFO_SIZE)
  then Err (InvalidPayload (B "PeerInfo length must be exactly " ++ fmt_dec MAX_PEER_INFO_SIZE ++ B ", got " ++ fmt_dec (zlen bs))) else
  let! info_type := get_index bs 0 in
  let! data_slice := get_slice bs 1 (zlen bs) in
  let len := match position (beqb x00) data_slice with Some n => Z.of_nat n | None => zlen data_slice end in
  let! data := get_slice data_slice 0 len in
  Ok (mk_peer (b2z info_type) data).

Section Text.
(** The text of a [Utf8Error]. *)
Variable utf8_error : bytes -> bytes.

Definition as_str (i : PeerInfo) : res PairingError bytes :=
  from_utf8 (data i) (InvalidPayload (B "PeerInfo data is invalid UTF-8: " ++ utf8_error (data i))).

Definition parse_device_info (i : PeerInfo) : bytes * bytes :=
  match as_str i with
  | Ok s =>
      let s := trim_byte x00 s in
      match split_once ":"%byte s with Some (serial, dev_name) => (serial, dev_name) | None => (s, []) end
  | _ => ([], [])
  end.
End Text.

End Peer.

Definition is_ascii_digit (b : byte) : bool := in_rng 48 57 b.

Definition validate_pairing_code (code : bytes) : res PairingError unit :=
  let code := trim code in
  if (zlen code =? 6) && forallb is_ascii_digit code then Ok tt else Err InvalidPairingCode.

(** ** Packets on the wire *)
Definition wire (p : PairingPacket) : bytes :=
  [z2b (version p); z2b (packet_type_byte (packet_type p))] ++ be_bytes 4 (zlen (payload p)) ++ payload p.

(** What [new] makes: the version and a payload within the limits. *)
Definition packet_ok (p : PairingPacket) : Prop := version p = PAIRING_VERSION /\ 1 <= zlen (payload p) <= MAX_PAIRING_PAYLOAD.

Lemma packet_new_ok t d p : Packet.new t d = Ok p <-> p = mk_packet PAIRING_VERSION t d /\ 1 <= zlen d <= MAX_PAIRING_PAYLOAD.
Proof.
  unfold Packet.new. pose proof (zlen_nonneg d).
  destruct (Z.eqb_spec (zlen d) 0); cbn [orb]; [split; [done|lia]|].
  destruct (Z.ltb_spec MAX_PAIRING_PAYLOAD (zlen d)); split; try done; try lia.
  - intros [= <-]. split; [done|lia].
  - by intros [-> _].
Qed.

Lemma write_to_ok p c : packet_ok p -> wfail c = None ->
  Packet.write_to p c = (mk_conn (incoming c) (outgoing c ++ wire p) None, Ok tt).
Proof.
  intros [Hv Hp] Hw. unfold Packet.write_to, bind, lift, on_err, write_all, write.
  rewrite (proj2 (Z.leb_le _ _)) by (unfold MAX_PAIRING_PAYLOAD, u32_max in *; lia). rewrite Hw. cbn [wfail incoming outgoing].
  cbn [res_bind map_err]. unfold wire. by rewrite <- !app_assoc.
Qed.

Lemma packet_type_roundtrip t : packet_type_try_from (packet_type_byte t) = Ok t.
Proof. by destruct t. Qed.

Lemma receive_arrives d bs c :
  arrives (incoming c) (bs ++ d) ->
  exists q, Packet.receive (zlen bs) c = (set_incoming q c, Ok bs) /\ arrives q d.
Proof.
  intros Ha. destruct (arrives_read_exact_app _ _ _ Ha) as (q & Hq & Ha'). exists q. unfold Packet.receive. by rewrite Hq.
Qed.

Lemma read_from_ok p d c :
  packet_ok p -> arrives (incoming c) (wire p ++ d) ->
  exists q, Packet.read_from c = (set_incoming q c, Ok p) /\ arrives q d.
Proof.
  intros [Hv Hp] Ha. destruct p as [v t bs]. cbn in Hv, Hp. subst v. unfold MAX_PAIRING_PAYLOAD in Hp.
  set (h := z2b 1 :: z2b (packet_type_byte t) :: be_bytes 4 (zlen bs)).
  assert (zlen h = 6) as Hh by (subst h; zg).
  change (wire _ ++ d) with (h ++ bs ++ d) in Ha.
  destruct (receive_arrives _ _ _ Ha) as (q & Hr & Ha'). rewrite Hh in Hr.
  destruct (receive_arrives d bs (set_incoming q c) Ha') as (q' & Hr' & Ha'').
  exists q'. split; [|done]. unfold Packet.read_from, PAIRING_HEADER_SIZE. erewrite bind_ok by exact Hr.
  assert (get_slice (E := PairingError) h 2 6 = Ok (be_bytes 4 (zlen bs))) as Es.
  { by rewrite get_slice_ok by lia. }
  change (get_index h 0) with (@Ok PairingError _ (z2b 1)). change (get_index h 1) with (@Ok PairingError _ (z2b (packet_type_byte t))).
  rewrite !bind_lift. change (negb _) with false. cbn iota.
  rewrite bind_lift, b2z_z2b, Z.mod_small by (by destruct t). rewrite packet_type_roundtrip, bind_lift, Es, bind_lift.
  rewrite be_val_bytes_id by (unfold uint; lia). rewrite (proj2 (Z.eqb_neq _ _)), (proj2 (Z.ltb_ge _ _)) by (unfold MAX_PAIRING_PAYLOAD; lia).
  cbn [orb]. by erewrite bind_ok by exact Hr'.
Qed.

Lemma receive_inv n c c' bs :
  Packet.receive n c = (c', Ok bs) -> exists q, c' = set_incoming q c /\ script_data (incoming c) = bs ++ script_data q /\ zlen bs = Z.max n 0.
Proof.
  unfold Packet.receive. destruct (read_exact n (incoming c)) as [q r] eqn:E. intros [= <- Hr].
  destruct r; try done. injection Hr as [= ->]. apply read_exact_data in E. by exists q.
Qed.

Lemma be_bytes_val bs n : zlen bs = Z.of_nat n -> be_bytes n (be_val bs) = bs.
Proof. intros Hl. unfold be_bytes, be_val. rewrite le_bytes_val by (by rewrite zlen_reverse). apply reverse_involutive. Qed.

(** A packet that was read is within the limits, and the stream began with its bytes. *)
Lemma read_from_inv c c' p :
  Packet.read_from c = (c', Ok p) ->
  packet_ok p /\ exists q, c' = set_incoming q c /\ script_data (incoming c) = wire p ++ script_data q.
Proof.
  unfold Packet.read_from, bind at 1. destruct (Packet.receive PAIRING_HEADER_SIZE c) as [c1 [h|e|]] eqn:Eh; [|done..].
  apply receive_inv in Eh as (q & -> & Hd & Hl). change (Z.max PAIRING_HEADER_SIZE 0) with 6 in Hl.
  destruct h as [|v [|t l]]; [rewrite zlen_nil in Hl; lia|rewrite zlen_cons, zlen_nil in Hl; lia|].
  rewrite !zlen_cons in Hl. change (get_index _ 0) with (@Ok PairingError _ v). change (get_index _ 1) with (@Ok PairingError _ t).
  rewrite bind_lift. destruct (Z.eqb_spec (b2z v) PAIRING_VERSION) as [Hv|]; cbn [negb]; [|done]. rewrite bind_lift.
  unfold bind at 1, lift at 1. destruct (packet_type_try_from (b2z t)) as [ty|e|] eqn:Et; [|done..].
  rewrite get_slice_ok by (rewrite ?zlen_cons; lia). change (slice 2 6 (v :: t :: l)) with (slice 0 4 l).
  rewrite bind_lift, slice_full by lia. pose proof (be_val_range l).
  destruct (Z.eqb_spec (be_val l) 0); cbn [orb]; [done|]. destruct (Z.ltb_spec MAX_PAIRING_PAYLOAD (be_val l)); [done|].
  unfold bind at 1. destruct (Packet.receive (be_val l) _) as [c2 [bs|e|]] eqn:Eb; [|done..]. intros [= <- <-].
  apply receive_inv in Eb as (q' & -> & Hd' & Hl'). rewrite Z.max_l in Hl' by lia.
  split; [split; cbn; [done|lia]|]. exists q'. split; [done|]. rewrite Hd. change (incoming (set_incoming q c)) with q in Hd'. rewrite Hd'. unfold wire. cbn [version packet_type payload].
  rewrite Hv, Hl', be_bytes_val by lia. rewrite <- Hv, z2b_b2z.
  assert (packet_type_byte ty = b2z t) as ->.
  { unfold packet_type_try_from in Et. destruct (Z.eqb_spec (b2z t) 0); [by injection Et as [= <-]|].
    destruct (Z.eqb_spec (b2z t) 1); [by injection Et as [= <-]|done]. }
  rewrite z2b_b2z. cbn [app]. by rewrite <- app_assoc.
Qed.

(** ** Peer information *)
Definition peer_image (i : PeerInfo) : bytes := z2b (info_type i) :: data i ++ zrep (MAX_PEER_INFO_SIZE - 1 - zlen (data i)) x00.

Lemma serialize_spec i :
  Peer.serialize i = if zlen (data i) <? MAX_PEER_INFO_SIZE then Ok (peer_image i)
                     else Err (InvalidPayload (B "PeerInfo data exceeds buffer limit")).
Proof.
  unfold Peer.serialize. rewrite Z.leb_antisym. destruct (Z.ltb_spec (zlen (data i)) MAX_PEER_INFO_SIZE); cbn [negb]; [|done].
  f_equal. unfold MAX_PEER_INFO_SIZE in *. pose proof (zlen_nonneg (data i)).
  rewrite (write_at_in 1) by zg. rewrite (write_at_in 0) by zg. change (Z.to_nat 0) with 0%nat. change (Z.to_nat 1) with 1%nat.
  cbn [take app Nat.add length]. unfold peer_image. cbn [app]. rewrite take_0. f_equal. f_equal.
  cbn [app drop]. unfold zrep, MAX_PEER_INFO_SIZE. rewrite !drop_replicate. f_equal. unfold zlen in *. lia.
Qed.

Lemma zlen_peer_image i : zlen (data i) < MAX_PEER_INFO_SIZE -> zlen (peer_image i) = MAX_PEER_INFO_SIZE.
Proof. unfold peer_image, MAX_PEER_INFO_SIZE. intros. zg. Qed.

Lemma until_nul_app s n : until_nul (s ++ zrep n x00) = until_nul s.
Proof.
  unfold until_nul. induction s as [|b s IH]; cbn [app position].
  - destruct (Z.to_nat n) as [|m] eqn:E; unfold zrep; rewrite E; [done|]. done.
  - destruct (beqb x00 b); [done|]. destruct (position _ (s ++ _)), (position _ s); cbn [option_map take] in *; congruence.
Qed.

Lemma deserialize_image i :
  uint 8 (info_type i) -> zlen (data i) < MAX_PEER_INFO_SIZE ->
  Peer.deserialize (peer_image i) = Ok (mk_peer (info_type i) (until_nul (data i))).
Proof.
  intros Ht Hd. unfold Peer.deserialize. rewrite zlen_peer_image by done. rewrite Z.eqb_refl. cbn [negb].
  change (get_index (peer_image i) 0) with (@Ok PairingError _ (z2b (info_type i))). cbn [res_bind].
  rewrite get_slice_ok by (rewrite ?zlen_peer_image by done; unfold MAX_PEER_INFO_SIZE; lia). cbn [res_bind].
  rewrite <- (until_nul_app (data i) (MAX_PEER_INFO_SIZE - 1 - zlen (data i))).
  set (s := data i ++ _). assert (slice 1 MAX_PEER_INFO_SIZE (peer_image i) = s) as ->.
  { unfold peer_image. fold s. change (z2b (info_type i) :: s) with ([z2b (info_type i)] ++ s).
    rewrite slice_app_r by zg. apply slice_full. subst s. unfold MAX_PEER_INFO_SIZE in *. zg. }
  rewrite b2z_z2b, Z.mod_small by done. unfold until_nul. destruct (position (beqb x00) s) as [n|] eqn:E.
  - assert (n <= length s)%nat as Hn.
    { clear -E. revert n E. induction s as [|b s IH]; intros n; cbn [position]; [done|]. destruct (beqb x00 b); [intros [= <-]; cbn; lia|].
      destruct (position _ s) as [m|]; [|done]. intros [= <-]. specialize (IH m eq_refl). cbn. lia. }
    rewrite get_slice_ok by (unfold zlen; lia). cbn. unfold slice. rewrite drop_0, Z.sub_0_r, Nat2Z.id. done.
  - rewrite get_slice_ok by (pose proof (zlen_nonneg s); lia). cbn. by rewrite slice_full by lia.
Qed.

(** A string without NUL is not changed by removing NULs at its ends. *)
Lemma trim_start_byte_none c s : c ∉ s -> trim_start_byte c s = s.
Proof.
  intros Hn. destruct s as [|b s]; [done|]. apply trim_start_byte_ne. intros ->. apply Hn. apply list_elem_of_here.
Qed.

Lemma trim_byte_none c s : c ∉ s -> trim_byte c s = s.
Proof.
  intros Hn. unfold trim_byte, trim_end_byte. rewrite (trim_start_byte_none c s) by done.
  rewrite trim_start_byte_none by (by rewrite elem_of_reverse). apply reverse_involutive.
Qed.

Lemma until_nul_none s : x00 ∉ s -> until_nul s = s.
Proof. intros Hn. unfold until_nul. by rewrite position_nul. Qed.

Lemma until_nul_snoc s t : x00 ∉ s -> until_nul (s ++ x00 :: t) = s.
Proof.
  intros Hn. unfold until_nul. rewrite position_app; [apply take_app_length| |by rewrite beqb_refl].
  apply position_none, position_nul, Hn.
Qed.

