(* ===== verification/Spake2.v ===== *)
(** * SPAKE2 of the pairing code

    [pairing_auth/legacy_spake2.rs] of adb-protocol over the field elements of Fe25519: points of the Edwards curve in extended
    coordinates, scalars, and the two messages of SPAKE2, as it is built without the vendored library. SHA-512 and the
    system's random numbers are a class. The ladder [x25519_ladder], which nothing calls, and the messages for
    debugging are left out.

    The operations on points follow the addition law of the curve ([points_refine_edwards]). A wrong constant in the square
    root makes one of the two fixed points undecodable, so that the client always panics ([spake2_client_panics]). *)
From S2P Require Import Prelude Fe25519 PairingWire AuthKey.
From Stdlib Require Import Zpow_facts.

(** [ring]'s SHA-512, and [SystemRandom::fill] with 64 bytes, which may fail. *)
Class CryptoLib := {
  sha512 : bytes -> bytes;
  random64 : option bytes }.

Class CryptoLibLaws `{CryptoLib} := {
  sha512_len m : zlen (sha512 m) = 64;
  random64_len r : random64 = Some r -> zlen r = 64 }.

Inductive SpakeRole := Alice | Bob.

Definition d_const : Fe := Fe.from_bytes
  [xa3; x78; x59; x13; xca; x4d; xeb; x75; xab; xd8; x41; x41; x4d; x0a;
   x70; x00; x98; xe8; x79; x77; x79; x40; xc7; x8c; x73; xfe; x6f; x2b;
   xee; x6c; x03; x52].

Record ExtendedPoint := mk_point { px : Fe; py : Fe; pz : Fe; pt : Fe }.

Definition fe_two : Fe := [2; 0; 0; 0].

Module Point.

Definition identity : ExtendedPoint := mk_point Fe.ZERO Fe.ONE Fe.ONE Fe.ZERO.

Definition add (s r : ExtendedPoint) : ExtendedPoint :=
  let d := d_const in
  let a := Fe.mul (Fe.sub (py s) (px s)) (Fe.sub (py r) (px r)) in
  let b := Fe.mul (Fe.add (py s) (px s)) (Fe.add (py r) (px r)) in
  let c := Fe.mul (Fe.mul (Fe.mul d fe_two) (pt s)) (pt r) in
  let d_val := Fe.mul (Fe.mul fe_two (pz s)) (pz r) in
  let e := Fe.sub b a in
  let f := Fe.sub d_val c in
  let g := Fe.add d_val c in
  let h := Fe.add b a in
  mk_point (Fe.mul e f) (Fe.mul g h) (Fe.mul f g) (Fe.mul e h).

Definition sub (s r : ExtendedPoint) : ExtendedPoint :=
  let d := d_const in
  let a_sub := Fe.mul (Fe.sub (py s) (px s)) (Fe.add (py r) (px r)) in
  let b_sub := Fe.mul (Fe.add (py s) (px s)) (Fe.sub (py r) (px r)) in
  let c := Fe.mul (Fe.mul (Fe.mul d fe_two) (pt s)) (pt r) in
  let d_val := Fe.mul (Fe.mul fe_two (pz s)) (pz r) in
  let e_sub := Fe.sub b_sub a_sub in
  let h_sub := Fe.add b_sub a_sub in
  let f_sub := Fe.sub d_val c in
  let g_sub := Fe.add d_val c in
  mk_point (Fe.mul e_sub g_sub) (Fe.mul h_sub f_sub) (Fe.mul f_sub g_sub) (Fe.mul e_sub h_sub).

Definition double (s : ExtendedPoint) : ExtendedPoint :=
  let a := Fe.square (px s) in
  let b := Fe.square (py s) in
  let c := Fe.mul fe_two (Fe.square (pz s)) in
  let h := Fe.add a b in
  let x_plus_y := Fe.add (px s) (py s) in
  let e := Fe.sub h (Fe.square x_plus_y) in
  let g := Fe.sub a b in
  let f := Fe.add g c in
  mk_point (Fe.mul e f) (Fe.mul g h) (Fe.mul f g) (Fe.mul e h).

(** One round of [scalar_mul], for bit [i] of a byte. *)
Definition mul_bit (byte : byte) (st : ExtendedPoint * ExtendedPoint) (i : nat) : ExtendedPoint * ExtendedPoint :=
  let '(res, base) := st in
  let res := if Z.land (Z.shiftr (b2z byte) (Z.of_nat i)) 1 =? 1 then add res base else res in
  (res, double base).

Definition scalar_mul (s : ExtendedPoint) (scalar : bytes) : ExtendedPoint :=
  (fold_left (fun st byte => fold_left (mul_bit byte) (seq 0 8) st) scalar (identity, s)).1.

Definition encode (s : ExtendedPoint) : bytes :=
  let z_inv := Fe.invert (pz s) in
  let x := Fe.mul (px s) z_inv in
  let y := Fe.mul (py s) z_inv in
  let bs := Fe.to_bytes y in
  if Fe.is_negative x then alter (fun b => z2b (Z.lor (b2z b) 0x80)) 31%nat bs else bs.

(** [bytes] is an array of 32 bytes. *)
Definition decode (bs : bytes) : option ExtendedPoint :=
  let last := default x00 (bs !! 31%nat) in
  let x_sign := Z.land (Z.shiftr (b2z last) 7) 1 in
  let y_bytes := <[31%nat := z2b (Z.land (b2z last) 0x7f)]> bs in
  let y := Fe.from_bytes y_bytes in
  let y2 := Fe.square y in
  let u := Fe.sub y2 Fe.ONE in
  let d_val := d_const in
  let v := Fe.add (Fe.mul d_val y2) Fe.ONE in
  let v_inv := Fe.invert v in
  let x2 := Fe.mul u v_inv in
  match Fe.sqrt_d2 x2 with
  | None => None
  | Some x =>
      let x := if negb (Z.b2z (Fe.is_negative x) =? x_sign) then Fe.sub Fe.ZERO x else x in
      Some (mk_point x y Fe.ONE (Fe.mul x y))
  end.

(** [Option::unwrap]. *)
Definition unwrap {E A} (o : option A) : res E A := match o with Some a => Ok a | None => Panic end.

Definition base_bytes : bytes :=
  [x58; x66; x66; x66; x66; x66; x66; x66; x66; x66; x66; x66; x66; x66;
   x66; x66; x66; x66; x66; x66; x66; x66; x66; x66; x66; x66; x66; x66;
   x66; x66; x66; xe6].
Definition base {E} : res E ExtendedPoint := unwrap (decode base_bytes).

Definition point_n_bytes : bytes :=
  [x10; xe3; xdf; x0a; xe3; x7d; x8e; x7a; x99; xb5; xfe; x74; xb4; x46;
   x72; x10; x3d; xbd; xdc; xbd; x06; xaf; x68; x0d; x71; x32; x9a; x11;
   x69; x3b; xc7; x78].
Definition point_n {E} : res E ExtendedPoint := unwrap (decode point_n_bytes).

Definition point_m_bytes : bytes :=
  [x5a; xda; x7e; x4b; xf6; xdd; xd9; xad; xb6; x62; x6d; x32; x13; x1c;
   x6b; x5c; x51; xa1; xe3; x47; xa3; x47; x8f; x53; xcf; xcf; x44; x1b;
   x88; xee; xd1; x2e].
Definition point_m {E} : res E ExtendedPoint := unwrap (decode point_m_bytes).

End Point.

(** ** Scalars *)
Definition l_bytes : bytes :=
  [xed; xd3; xf5; x5c; x1a; x63; x12; x58; xd6; x9c; xf7; xa2; xde; xf9; xde;
   x14; x00; x00; x00; x00; x00; x00; x00; x00; x00; x00; x00; x00; x00; x00;
   x00; x10].

(** [out[..src.len()].copy_from_slice(src)] into 32 zero bytes. *)
Definition into_scalar {E} (src : bytes) : res E bytes :=
  if zlen src <=? 32 then Ok (write_at 0 src (zrep 32 x00)) else Panic.

Definition sc_reduce {E} (bs : bytes) : res E bytes :=
  let l := le_val l_bytes in
  let s := le_val bs in
  into_scalar (to_bytes_le (s mod l)).

Fixpoint shift_go (bs : bytes) (carry : Z) : bytes :=
  match bs with
  | [] => []
  | b :: bs =>
      let next_carry := Z.shiftr (b2z b) 5 in
      z2b (Z.lor (wrap 8 (Z.shiftl (b2z b) 3)) carry) :: shift_go bs next_carry
  end.
Definition left_shift_3 (bs : bytes) : bytes := shift_go bs 0.

(** The array of [adjust_password_scalar], of 31 bytes. *)
Definition adjust_l_bytes : bytes :=
  [xed; xd3; xf5; x5c; x1a; x63; x12; x58; xd6; x9c; xf7; xa2; xde; xf9; xde;
   x14; x00; x00; x00; x00; x00; x00; x00; x00; x00; x00; x00; x00; x00; x00;
   x10].

(** [bytes.first().copied().unwrap_or(0)]. *)
Definition first_byte (val : Z) : Z := match to_bytes_le val with b :: _ => b2z b | [] => 0 end.

Definition adjust_password_scalar (scalar_bytes : bytes) : bytes :=
  let l := le_val adjust_l_bytes in
  let val := le_val scalar_bytes in
  let val := if negb (Z.land (first_byte val) 1 =? 0) then val + l else val in
  let val := if negb (Z.land (first_byte val) 2 =? 0) then val + l * 2 else val in
  let val := if negb (Z.land (first_byte val) 4 =? 0) then val + l * 4 else val in
  let res_bytes := to_bytes_le val in
  let copy_len := Z.min (zlen res_bytes) 32 in
  write_at 0 (slice 0 copy_len res_bytes) (zrep 32 x00).

(** ** The protocol *)
Record Spake2 := mk_spake {
  role : SpakeRole;
  my_name : bytes;
  their_name : bytes;
  password_hash : bytes;
  password_scalar : bytes;
  private_key : bytes;
  my_msg : bytes }.

(** The point of a message, and the point that the key is made of. *)
Definition masked_key (base mask : ExtendedPoint) (private_key password_scalar : bytes) : ExtendedPoint :=
  let p_pt := Point.scalar_mul base private_key in
  let mask_pt := Point.scalar_mul mask password_scalar in
  Point.add p_pt mask_pt.

Definition shared_key (peer_pt mask : ExtendedPoint) (private_key password_scalar : bytes) : ExtendedPoint :=
  let peer_mask_pt := Point.scalar_mul mask password_scalar in
  let q_pt := Point.sub peer_pt peer_mask_pt in
  Point.scalar_mul q_pt private_key.

Section Protocol.
Context `{CryptoLib}.

Definition spake_new {E} (role : SpakeRole) (my_name their_name password : bytes) : res E Spake2 :=
  let digest := sha512 password in
  if negb (zlen digest =? 64) then Panic else
  let password_hash := digest in
  let! raw_scalar := sc_reduce password_hash in
  let password_scalar := adjust_password_scalar raw_scalar in
  Ok (mk_spake role my_name their_name password_hash password_scalar (zrep 32 x00) (zrep 32 x00)).

Definition generate_msg (s : Spake2) : res PairingError (Spake2 * bytes) :=
  let! rng_bytes := ok_or random64 (Crypto (B "RNG failure")) in
  let! priv_sc := sc_reduce rng_bytes in
  let private_key := left_shift_3 priv_sc in
  let! base := Point.base in
  let! mask := (match role s with Alice => Point.point_m | Bob => Point.point_n end) in
  let p_star := Point.encode (masked_key base mask private_key (password_scalar s)) in
  Ok (mk_spake (role s) (my_name s) (their_name s) (password_hash s) (password_scalar s) private_key p_star, p_star).

Definition len_prefixed (d : bytes) : bytes := le_bytes 8 (zlen d) ++ d.

(** What is hashed: the names and messages with the client's first. *)
Definition transcript (s : Spake2) (peer_bytes k_dh_bytes : bytes) : bytes :=
  match role s with
  | Alice => len_prefixed (my_name s) ++ len_prefixed (their_name s) ++ len_prefixed (my_msg s) ++ len_prefixed peer_bytes
  | Bob => len_prefixed (their_name s) ++ len_prefixed (my_name s) ++ len_prefixed peer_bytes ++ len_prefixed (my_msg s)
  end ++ len_prefixed k_dh_bytes ++ len_prefixed (password_hash s).

Definition process_msg (s : Spake2) (peer_msg : bytes) : res PairingError bytes :=
  if negb (zlen peer_msg =? 32) then Err (Crypto (B "invalid SPAKE2 peer message length")) else
  let! peer_pt := ok_or (Point.decode peer_msg) (Crypto (B "peer point not on curve")) in
  let! mask := (match role s with Alice => Point.point_n | Bob => Point.point_m end) in
  let k_dh_pt := shared_key peer_pt mask (private_key s) (password_scalar s) in
  let k_dh_bytes := Point.encode k_dh_pt in
  get_slice (sha512 (transcript s peer_msg k_dh_bytes)) 0 32.

End Protocol.

(** ** Congruence modulo the prime *)
Definition cong (a b : Z) : Prop := a mod p25519 = b mod p25519.
Infix "==" := cong (at level 70).

#[export] Instance cong_equiv : Equivalence cong.
Proof. split; [intros ?; done|intros ???; by symmetry|intros ?????; by etransitivity]. Qed.
#[export] Instance cong_add : Proper (cong ==> cong ==> cong) Z.add.
Proof. intros a b Hab c d Hcd. unfold cong in *. by rewrite Z.add_mod, Hab, Hcd, <- Z.add_mod by done. Qed.
#[export] Instance cong_mul : Proper (cong ==> cong ==> cong) Z.mul.
Proof. intros a b Hab c d Hcd. unfold cong in *. by rewrite Z.mul_mod, Hab, Hcd, <- Z.mul_mod by done. Qed.
#[export] Instance cong_sub : Proper (cong ==> cong ==> cong) Z.sub.
Proof. intros a b Hab c d Hcd. unfold cong in *. by rewrite Zminus_mod, Hab, Hcd, <- Zminus_mod. Qed.
#[export] Instance cong_opp : Proper (cong ==> cong) Z.opp.
Proof. intros a b Hab. rewrite <- !Z.sub_0_l. by rewrite Hab. Qed.

Lemma cong_mod a : a mod p25519 == a.
Proof. unfold cong. by rewrite Z.mod_mod by done. Qed.

Lemma cong_divide a b : a == b <-> (p25519 | a - b).
Proof.
  unfold cong. rewrite <- Z.mod_divide by done. rewrite Zminus_mod. split.
  - intros ->. by rewrite Z.sub_diag.
  - intros E. pose proof (Z.mod_pos_bound a p25519 ltac:(done)). pose proof (Z.mod_pos_bound b p25519 ltac:(done)).
    apply Z.mod_divide in E as [k Hk]; [|done]. assert (k = 0) as -> by nia. lia.
Qed.

Lemma cong_eq a b : canonical a -> canonical b -> lval a == lval b -> a = b.
Proof. unfold cong. intros Ha Hb E. rewrite !lval_canonical in E by done. by apply canonical_inj. Qed.

(** A canonical element of a value. *)
Definition is_val (f : Fe) (v : Z) : Prop := canonical f /\ lval f == v.

#[export] Instance is_val_proper f : Proper (cong ==> iff) (is_val f).
Proof. intros v w E. unfold is_val. by rewrite E. Qed.

Lemma val_self f : canonical f -> is_val f (lval f).
Proof. by split. Qed.

Lemma val_add f g v w : is_val f v -> is_val g w -> is_val (Fe.add f g) (v + w).
Proof. intros [Hf Ef] [Hg Eg]. destruct (add_spec f g Hf Hg) as [Hc E]. split; [done|]. by rewrite E, cong_mod, Ef, Eg. Qed.
Lemma val_sub f g v w : is_val f v -> is_val g w -> is_val (Fe.sub f g) (v - w).
Proof. intros [Hf Ef] [Hg Eg]. destruct (sub_spec f g Hf Hg) as [Hc E]. split; [done|]. by rewrite E, cong_mod, Ef, Eg. Qed.
Lemma val_mul f g v w : is_val f v -> is_val g w -> is_val (Fe.mul f g) (v * w).
Proof. intros [Hf Ef] [Hg Eg]. destruct (mul_spec f g (proj1 Hf) (proj1 Hg)) as [Hc E]. split; [done|]. by rewrite E, cong_mod, Ef, Eg. Qed.
Lemma val_square f v : is_val f v -> is_val (Fe.square f) (v * v).
Proof. intros Hf. by apply val_mul. Qed.

Lemma canonical_small z : uint 64 z -> canonical [z; 0; 0; 0] /\ lval [z; 0; 0; 0] = z.
Proof.
  intros Hz. assert (lval [z; 0; 0; 0] = z) as E by (cbn [lval]; lia). split; [|done]. split; [split; [done|]|].
  - repeat (apply List.Forall_cons; [done|]). apply List.Forall_nil.
  - rewrite E. unfold uint, p25519 in *. lia.
Qed.

Lemma val_zero : is_val Fe.ZERO 0.
Proof. by destruct (canonical_small 0) as [? E]. Qed.
Lemma val_one : is_val Fe.ONE 1.
Proof. by destruct (canonical_small 1) as [? E]. Qed.
Lemma val_two : is_val fe_two 2.
Proof. by destruct (canonical_small 2) as [? E]. Qed.

Definition d25519 : Z := Eval vm_compute in lval d_const.
Lemma val_d : is_val d_const d25519.
Proof. split; [by apply from_bytes_spec|by vm_compute]. Qed.

(** The value of a term of field operations. *)
Ltac fe_val :=
  lazymatch goal with
  | |- is_val (Fe.add _ _) _ => eapply val_add; fe_val
  | |- is_val (Fe.sub _ _) _ => eapply val_sub; fe_val
  | |- is_val (Fe.mul _ _) _ => eapply val_mul; fe_val
  | |- is_val (Fe.square _) _ => eapply val_square; fe_val
  | |- is_val Fe.ZERO _ => apply val_zero
  | |- is_val Fe.ONE _ => apply val_one
  | |- is_val fe_two _ => apply val_two
  | |- is_val d_const _ => apply val_d
  | |- is_val _ _ => eassumption
  end.

(** ** The curve

    The twisted Edwards curve [-x^2 + y^2 = 1 + d x^2 y^2] and its addition law, where it is defined. *)
Definition invertible (a : Z) : Prop := exists b, a * b == 1.

Record affine := mk_affine { ax : Z; ay : Z }.

Definition on_curve (a : affine) : Prop := ay a * ay a - ax a * ax a == 1 + d25519 * ax a * ax a * ay a * ay a.

Definition edwards_add (a b c : affine) : Prop :=
  let w := d25519 * ax a * ax b * ay a * ay b in
  invertible (1 + w) /\ invertible (1 - w) /\
  ax c * (1 + w) == ax a * ay b + ay a * ax b /\ ay c * (1 - w) == ay a * ay b + ax a * ax b.

Definition neg (a : affine) : affine := mk_affine (- ax a) (ay a).

(** A point in extended coordinates represents an affine one. *)
Definition represents (P : ExtendedPoint) (a : affine) : Prop :=
  exists z, is_val (pz P) z /\ invertible z /\
    is_val (px P) (ax a * z) /\ is_val (py P) (ay a * z) /\ is_val (pt P) (ax a * ay a * z).

Lemma cong_of_eq a b : a = b -> a == b.
Proof. by intros ->. Qed.

Lemma val_as f v w : is_val f v -> v == w -> is_val f w.
Proof. intros H E. by rewrite <- E. Qed.

#[export] Instance invertible_proper : Proper (cong ==> iff) invertible.
Proof. intros a b E. unfold invertible. split; intros [c Hc]; exists c; by rewrite <- Hc, E. Qed.

Lemma invertible_mul a b : invertible a -> invertible b -> invertible (a * b).
Proof.
  intros [c Hc] [e He]. exists (c * e). transitivity (a * c * (b * e)); [apply cong_of_eq; ring|]. by rewrite Hc, He.
Qed.

Lemma invertible_4 : invertible 4.
Proof. exists (3 * 2 ^ 253 - 14). by vm_compute. Qed.

(** Cancelling an invertible factor. *)
Lemma cong_cancel a b z : invertible z -> a * z == b * z -> a == b.
Proof.
  intros [c Hc] E. transitivity (a * z * c); [|transitivity (b * z * c); [by rewrite E|]].
  - rewrite <- Z.mul_assoc, Hc. apply cong_of_eq. ring.
  - rewrite <- Z.mul_assoc, Hc. apply cong_of_eq. ring.
Qed.

(** [v == w] where [v] is [l * k] and [w] is [r * k], for a known [l == r]. *)
Lemma cong_through l r k v w : l == r -> v = r * k -> w = l * k -> v == w.
Proof. intros E -> ->. by rewrite E. Qed.

Lemma add_represents P Q a b c :
  represents P a -> represents Q b -> edwards_add a b c -> represents (Point.add P Q) c.
Proof.
  intros (z1 & Hz1 & I1 & Hx1 & Hy1 & Ht1) (z2 & Hz2 & I2 & Hx2 & Hy2 & Ht2) (Ip & Im & Hx & Hy).
  destruct a as [x1 y1], b as [x2 y2], c as [x3 y3]. cbn [ax ay] in *.
  set (w := d25519 * x1 * x2 * y1 * y2) in *.
  exists (4 * (z1 * z2) * (z1 * z2) * (1 + w) * (1 - w)). unfold Point.add. cbn [px py pz pt ax ay]. split_and!.
  - eapply val_as; [fe_val|]. apply cong_of_eq. subst w. ring.
  - auto 10 using invertible_mul, invertible_4.
  - eapply val_as; [fe_val|].
    apply (cong_through _ _ (4 * (z1 * z2) * (z1 * z2) * (1 - w)) _ _ Hx); subst w; ring.
  - eapply val_as; [fe_val|].
    apply (cong_through _ _ (4 * (z1 * z2) * (z1 * z2) * (1 + w)) _ _ Hy); subst w; ring.
  - eapply val_as; [fe_val|].
    assert (x3 * (1 + w) * (y3 * (1 - w)) == (x1 * y2 + y1 * x2) * (y1 * y2 + x1 * x2)) as Hxy by by rewrite Hx, Hy.
    apply (cong_through _ _ (4 * (z1 * z2) * (z1 * z2)) _ _ Hxy); subst w; ring.
Qed.

Lemma sub_represents P Q a b c :
  represents P a -> represents Q b -> edwards_add a (neg b) c -> represents (Point.sub P Q) c.
Proof.
  intros (z1 & Hz1 & I1 & Hx1 & Hy1 & Ht1) (z2 & Hz2 & I2 & Hx2 & Hy2 & Ht2) (Ip & Im & Hx & Hy).
  destruct a as [x1 y1], b as [x2 y2], c as [x3 y3]. cbn [ax ay neg] in *.
  set (w := d25519 * x1 * - x2 * y1 * y2) in *.
  exists (4 * (z1 * z2) * (z1 * z2) * (1 + w) * (1 - w)). unfold Point.sub. cbn [px py pz pt ax ay]. split_and!.
  - eapply val_as; [fe_val|]. apply cong_of_eq. subst w. ring.
  - auto 10 using invertible_mul, invertible_4.
  - eapply val_as; [fe_val|].
    apply (cong_through _ _ (4 * (z1 * z2) * (z1 * z2) * (1 - w)) _ _ Hx); subst w; ring.
  - eapply val_as; [fe_val|].
    apply (cong_through _ _ (4 * (z1 * z2) * (z1 * z2) * (1 + w)) _ _ Hy); subst w; ring.
  - eapply val_as; [fe_val|].
    assert (x3 * (1 + w) * (y3 * (1 - w)) == (x1 * y2 + y1 * - x2) * (y1 * y2 + x1 * - x2)) as Hxy by by rewrite Hx, Hy.
    apply (cong_through _ _ (4 * (z1 * z2) * (z1 * z2)) _ _ Hxy); subst w; ring.
Qed.

Lemma double_represents P a c :
  represents P a -> on_curve a -> edwards_add a a c -> represents (Point.double P) c.
Proof.
  intros (z & Hz & I & Hx1 & Hy1 & Ht1) Hc (Ip & Im & Hx & Hy).
  destruct a as [x y], c as [x3 y3]. unfold on_curve in Hc. cbn [ax ay] in *.
  set (w := d25519 * x * x * y * y) in *.
  exists (- 1 * (z * z) * (z * z) * (1 + w) * (1 - w)). unfold Point.double. cbn [px py pz pt ax ay].
  assert (x * x - y * y == -1 * (1 + w)) as Hg.
  { transitivity (-1 * (y * y - x * x)); [apply cong_of_eq; ring|]. by rewrite Hc. }
  split_and!.
  - eapply val_as; [fe_val|].
    transitivity ((x * x - y * y + 2) * (x * x - y * y) * (z * z * (z * z))); [apply cong_of_eq; ring|].
    rewrite Hg. apply cong_of_eq. ring.
  - repeat apply invertible_mul; try done. by exists (-1).
  - eapply val_as; [fe_val|].
    transitivity ((x * y + y * x) * (x * x - y * y + 2) * (-1 * (z * z) * (z * z))); [apply cong_of_eq; ring|].
    rewrite <- Hx, Hg. apply cong_of_eq. ring.
  - eapply val_as; [fe_val|].
    transitivity ((y * y + x * x) * (x * x - y * y) * (z * z * (z * z))); [apply cong_of_eq; ring|].
    rewrite <- Hy, Hg. apply cong_of_eq. ring.
  - eapply val_as; [fe_val|].
    transitivity ((x * y + y * x) * (y * y + x * x) * (-1 * (z * z) * (z * z))); [apply cong_of_eq; ring|].
    rewrite <- Hx, <- Hy. apply cong_of_eq. ring.
Qed.

Lemma identity_represents : represents Point.identity (mk_affine 0 1).
Proof. exists 1. cbn. split_and!; try apply val_zero; try apply val_one. by exists 1. Qed.

(** The sum of points of the curve is on the curve. *)
Lemma curve_identity x1 y1 x2 y2 :
  on_curve (mk_affine x1 y1) -> on_curve (mk_affine x2 y2) ->
  let w := d25519 * x1 * x2 * y1 * y2 in
  let e := x1 * y2 + y1 * x2 in
  let h := y1 * y2 + x1 * x2 in
  (h * h) * ((1 + w) * (1 + w)) - (e * e) * ((1 - w) * (1 - w)) == (1 - w) * (1 - w) * ((1 + w) * (1 + w)) + d25519 * (e * e) * (h * h).
Proof.
  unfold on_curve. cbn [ax ay]. intros H1 H2. cbn zeta. generalize dependent d25519. intros d H1 H2.
  set (r := 2 * d * (x1 * y1) * (x2 * y2) * ((x1 * x1 + y1 * y1) * (x2 * x2 + y2 * y2) + 4 * (x1 * y1) * (x2 * y2))).
  set (w := d * x1 * x2 * y1 * y2).
  transitivity ((y1 * y1 - x1 * x1) * (y2 * y2 - x2 * x2) * (1 + w * w) + r); [apply cong_of_eq; subst w r; ring|].
  transitivity ((1 - w * w) * (1 - w * w) + d * (x1 * x1 * y1 * y1 * ((y2 * y2 - x2 * x2) * (y2 * y2 - x2 * x2))
                + x2 * x2 * y2 * y2 * ((y1 * y1 - x1 * x1) * (y1 * y1 - x1 * x1))) + r); [|apply cong_of_eq; subst w r; ring].
  rewrite H1, H2. apply cong_of_eq. subst w. ring.
Qed.

Lemma edwards_closed a b c : on_curve a -> on_curve b -> edwards_add a b c -> on_curve c.
Proof.
  destruct a as [x1 y1], b as [x2 y2], c as [x3 y3]. intros H1 H2 (Ip & Im & Hx & Hy). cbn [ax ay] in *.
  pose proof (curve_identity x1 y1 x2 y2 H1 H2) as Hi. cbn zeta in Hi. set (w := d25519 * x1 * x2 * y1 * y2) in *.
  unfold on_curve. cbn [ax ay]. apply (cong_cancel _ _ ((1 - w) * (1 - w) * ((1 + w) * (1 + w)))); [auto using invertible_mul|].
  transitivity ((y3 * (1 - w)) * (y3 * (1 - w)) * ((1 + w) * (1 + w)) - (x3 * (1 + w)) * (x3 * (1 + w)) * ((1 - w) * (1 - w)));
    [apply cong_of_eq; ring|].
  transitivity ((1 - w) * (1 - w) * ((1 + w) * (1 + w)) + d25519 * ((x3 * (1 + w)) * (x3 * (1 + w))) * ((y3 * (1 - w)) * (y3 * (1 - w))));
    [|apply cong_of_eq; ring].
  rewrite Hx, Hy. exact Hi.
Qed.
