(* ===== verification/Edwards.v ===== *)
(** * The group of the curve

    The addition law of Spake2 is defined for all points of the curve, since [2^255 - 19] is prime and [d] is not a square:
    [edwards] computes it. The operations on extended coordinates implement it. *)
From S2P Require Import Prelude Fe25519 Prime25519 PairingWire AuthKey Spake2.
From Stdlib Require Import Zpow_facts Zmod.

(** ** The field *)
Lemma cong_0 a : a == 0 <-> (p25519 | a).
Proof. rewrite cong_divide. by rewrite Z.sub_0_r. Qed.

Lemma cong_dec a b : {a == b} + {~ a == b}.
Proof. unfold cong. apply Z.eq_dec. Qed.

Lemma mul_eq_0 a b : a * b == 0 -> a == 0 \/ b == 0.
Proof. rewrite !cong_0. intros H. by apply Z.divide_prime_mul in H; [|apply prime_p25519]. Qed.

Lemma square_eq_0 a : a * a == 0 -> a == 0.
Proof. by intros [|]%mul_eq_0. Qed.

Lemma fermat_cong a : ~ a == 0 -> a ^ (p25519 - 1) == 1.
Proof. intros H. apply (Z.fermat_nz p25519 a prime_p25519). intros E. by apply H. Qed.

Definition inv (a : Z) : Z := Zpow_mod a (p25519 - 2) p25519.

Lemma inv_pow a : inv a = a ^ (p25519 - 2) mod p25519.
Proof. unfold inv. by rewrite Zpow_mod_correct by done. Qed.

Lemma field_inv_spec a : ~ a == 0 -> a * inv a == 1.
Proof.
  intros H. rewrite inv_pow, cong_mod. rewrite <- (fermat_cong a H).
  apply cong_of_eq. rewrite <- Z.pow_succ_r by done. done.
Qed.

Lemma nonzero_invertible a : ~ a == 0 -> invertible a.
Proof. intros H. exists (inv a). by apply field_inv_spec. Qed.

Lemma invertible_nonzero a : invertible a -> ~ a == 0.
Proof. intros [b Hb] E. rewrite E in Hb. done. Qed.

Lemma cong_pow n a b : a == b -> a ^ n == b ^ n.
Proof. intros E. unfold cong in *. by rewrite <- Z.mod_pow_l, E, Z.mod_pow_l. Qed.

(** [-d] is not a square, not even up to squares. *)
Definition half : Z := (p25519 - 1) / 2.

Lemma minus_d_power : (- d25519) ^ half == -1.
Proof.
  assert (Zpow_mod (p25519 - d25519) half p25519 = p25519 - 1) as E by by vm_compute.
  rewrite Zpow_mod_correct in E by done. transitivity ((p25519 - d25519) ^ half).
  - apply (cong_pow half). apply cong_divide. exists (-1). lia.
  - unfold cong. rewrite E. clear E. vm_compute. reflexivity.
Qed.

Lemma nonsquare s t : s * s == - d25519 * (t * t) -> t == 0.
Proof.
  intros E. destruct (cong_dec t 0) as [|Ht]; [done|]. exfalso.
  assert (forall a, (a * a) ^ half = a ^ (p25519 - 1)) as Ep.
  { intros a. rewrite <- Z.pow_2_r, <- Z.pow_mul_r; [|lia|vm_compute; discriminate].
    change (2 * half) with (p25519 - 1). reflexivity. }
  pose proof (cong_pow half _ _ E) as Eh. rewrite (Z.pow_mul_l (- d25519)), !Ep in Eh. clear Ep.
  assert (s ^ (p25519 - 1) == 0 \/ s ^ (p25519 - 1) == 1) as Hs.
  { destruct (cong_dec s 0) as [Hs|Hs]; [left|right; by apply fermat_cong].
    apply (cong_pow (p25519 - 1)) in Hs. rewrite Z.pow_0_l in Hs by reflexivity. exact Hs. }
  pose proof (fermat_cong t Ht) as Hf. pose proof minus_d_power as Hd. revert Eh Hs Hf Hd.
  generalize (s ^ (p25519 - 1)) (t ^ (p25519 - 1)) ((- d25519) ^ half). intros a b c Eh Hs Hf Hd.
  rewrite Hf, Hd in Eh. destruct Hs as [Hs|Hs]; rewrite Hs in Eh; discriminate Eh.
Qed.

(** ** The law is defined everywhere on the curve *)
Definition sqrt_minus_1 : Z := 19681161376707505956807079304988542015446066515923890162744021073123829784752.
Lemma sqrt_minus_1_spec : sqrt_minus_1 * sqrt_minus_1 == -1.
Proof. by vm_compute. Qed.

(** The curve as [x^2 + y^2 = 1 + e x^2 y^2], where [e] is not a square. *)
Section Complete.
Context (e : Z) (He : forall s t, s * s == e * (t * t) -> t == 0).
Context (x1 y1 x2 y2 : Z).
Context (H1 : x1 * x1 + y1 * y1 == 1 + e * (x1 * x1) * (y1 * y1)).
Context (H2 : x2 * x2 + y2 * y2 == 1 + e * (x2 * x2) * (y2 * y2)).
Context (eps : Z) (Heps : eps * eps == 1) (Hw : e * x1 * x2 * y1 * y2 == eps).

Lemma complete_sum : e * (x1 * x1) * (y1 * y1) * (x2 * x2 + y2 * y2) == x1 * x1 + y1 * y1.
Proof.
  rewrite H2. transitivity (e * (x1 * x1) * (y1 * y1) + (e * x1 * x2 * y1 * y2) * (e * x1 * x2 * y1 * y2)); [apply cong_of_eq; ring|].
  rewrite Hw, Heps, H1. apply cong_of_eq. ring.
Qed.

Lemma complete_plus : x1 * y1 * (x2 + y2) == 0.
Proof.
  apply (He (x1 + eps * y1)). transitivity (x1 * x1 + (eps * eps) * (y1 * y1) + 2 * x1 * y1 * eps); [apply cong_of_eq; ring|].
  transitivity (e * (x1 * x1) * (y1 * y1) * (x2 * x2 + y2 * y2) + 2 * x1 * y1 * (e * x1 * x2 * y1 * y2)); [|apply cong_of_eq; ring].
  rewrite complete_sum, Hw, Heps. apply cong_of_eq. ring.
Qed.

Lemma complete_minus : x1 * y1 * (x2 - y2) == 0.
Proof.
  apply (He (x1 - eps * y1)). transitivity (x1 * x1 + (eps * eps) * (y1 * y1) - 2 * x1 * y1 * eps); [apply cong_of_eq; ring|].
  transitivity (e * (x1 * x1) * (y1 * y1) * (x2 * x2 + y2 * y2) - 2 * x1 * y1 * (e * x1 * x2 * y1 * y2)); [|apply cong_of_eq; ring].
  rewrite complete_sum, Hw, Heps. apply cong_of_eq. ring.
Qed.

Lemma complete_absurd : False.
Proof.
  assert (~ eps == 0) as Hn.
  { intros E. rewrite E in Heps. discriminate Heps. }
  destruct (mul_eq_0 _ _ complete_plus) as [E|Ep].
  { apply Hn. rewrite <- Hw. transitivity (x1 * y1 * (e * x2 * y2)); [apply cong_of_eq; ring|]. by rewrite E. }
  destruct (mul_eq_0 _ _ complete_minus) as [E|Em].
  { apply Hn. rewrite <- Hw. transitivity (x1 * y1 * (e * x2 * y2)); [apply cong_of_eq; ring|]. by rewrite E. }
  assert (2 * x2 == 0) as E2.
  { transitivity (x2 + y2 + (x2 - y2)); [apply cong_of_eq; ring|]. by rewrite Ep, Em. }
  destruct (mul_eq_0 _ _ E2) as [E|E]; [discriminate E|].
  apply Hn. rewrite <- Hw. transitivity (x2 * (e * x1 * y1 * y2)); [apply cong_of_eq; ring|]. by rewrite E.
Qed.
End Complete.

Lemma on_curve_rotated a : on_curve a ->
  let x := sqrt_minus_1 * ax a in x * x + ay a * ay a == 1 + - d25519 * (x * x) * (ay a * ay a).
Proof.
  unfold on_curve. intros H. cbn zeta. generalize sqrt_minus_1 sqrt_minus_1_spec. intros i Hi.
  transitivity ((i * i) * (ax a * ax a) + ay a * ay a); [apply cong_of_eq; ring|].
  transitivity (1 + - d25519 * ((i * i) * (ax a * ax a)) * (ay a * ay a)); [|apply cong_of_eq; ring]. rewrite Hi.
  transitivity (ay a * ay a - ax a * ax a); [apply cong_of_eq; ring|]. rewrite H. apply cong_of_eq. ring.
Qed.

Lemma denominators a b : on_curve a -> on_curve b ->
  let w := d25519 * ax a * ax b * ay a * ay b in ~ 1 + w == 0 /\ ~ 1 - w == 0.
Proof.
  intros Ha Hb. cbn zeta.
  assert (forall eps, eps * eps == 1 -> ~ d25519 * ax a * ax b * ay a * ay b == eps) as Hw.
  { intros eps Heps Hw. apply (complete_absurd (- d25519) nonsquare _ _ _ _ (on_curve_rotated a Ha) (on_curve_rotated b Hb) eps Heps).
    rewrite <- Hw. generalize sqrt_minus_1 sqrt_minus_1_spec. intros i Hi.
    transitivity (- d25519 * (i * i) * ax a * ax b * ay a * ay b); [apply cong_of_eq; ring|]. rewrite Hi. apply cong_of_eq. ring. }
  set (w := d25519 * ax a * ax b * ay a * ay b) in *. split; intros E.
  - apply (Hw (-1)); [done|]. transitivity (1 + w - 1); [apply cong_of_eq; ring|]. by rewrite E.
  - apply (Hw 1); [done|]. transitivity (1 - (1 - w)); [apply cong_of_eq; ring|]. by rewrite E.
Qed.

(** The sum of two points. *)
Definition edwards (a b : affine) : affine :=
  let w := d25519 * ax a * ax b * ay a * ay b in
  mk_affine ((ax a * ay b + ay a * ax b) * inv (1 + w) mod p25519) ((ay a * ay b + ax a * ax b) * inv (1 - w) mod p25519).

Lemma edwards_law a b : on_curve a -> on_curve b -> edwards_add a b (edwards a b) /\ on_curve (edwards a b).
Proof.
  intros Ha Hb. destruct (denominators a b Ha Hb) as [Hp Hm]. cbn zeta in *.
  assert (edwards_add a b (edwards a b)) as H; [|split; [done|by apply (edwards_closed a b)]].
  unfold edwards_add, edwards. cbn [ax ay]. set (w := d25519 * ax a * ax b * ay a * ay b) in *.
  pose proof (field_inv_spec _ Hp) as Ip. pose proof (field_inv_spec _ Hm) as Im. generalize dependent (inv (1 + w)). generalize dependent (inv (1 - w)).
  intros m Im p Ip. split_and!; [by apply nonzero_invertible..| |].
  - rewrite cong_mod. transitivity ((ax a * ay b + ay a * ax b) * ((1 + w) * p)); [apply cong_of_eq; ring|]. rewrite Ip. apply cong_of_eq. ring.
  - rewrite cong_mod. transitivity ((ay a * ay b + ax a * ax b) * ((1 - w) * m)); [apply cong_of_eq; ring|]. rewrite Im. apply cong_of_eq. ring.
Qed.

(** ** Associativity

    The two ways to add three points, with the denominators cleared, differ by a combination of the three curve equations.
    The factors of the combination are computed by dividing the difference by the equations. *)
Section Assoc.
Context (d x1 y1 x2 y2 x3 y3 : Z).

Definition num_e (x y x' y' : Z) : Z := x * y' + y * x'.
Definition num_h (x y x' y' : Z) : Z := y * y' + x * x'.
Definition den_f (x y x' y' : Z) : Z := 1 - d * x * x' * y * y'.
Definition den_g (x y x' y' : Z) : Z := 1 + d * x * x' * y * y'.
Definition curve_eq (x y : Z) : Z := y * y - x * x - (1 + d * x * x * y * y).

(** Coordinates of [(1 + 2) + 3] and [1 + (2 + 3)] as fractions. *)
Definition left_x : Z := num_e x1 y1 x2 y2 * den_f x1 y1 x2 y2 * y3 + num_h x1 y1 x2 y2 * den_g x1 y1 x2 y2 * x3.
Definition left_y : Z := num_h x1 y1 x2 y2 * den_g x1 y1 x2 y2 * y3 + num_e x1 y1 x2 y2 * den_f x1 y1 x2 y2 * x3.
Definition left_w : Z := d * num_e x1 y1 x2 y2 * num_h x1 y1 x2 y2 * x3 * y3.
Definition left_den : Z := den_f x1 y1 x2 y2 * den_g x1 y1 x2 y2.
Definition right_x : Z := x1 * num_h x2 y2 x3 y3 * den_g x2 y2 x3 y3 + y1 * num_e x2 y2 x3 y3 * den_f x2 y2 x3 y3.
Definition right_y : Z := y1 * num_h x2 y2 x3 y3 * den_g x2 y2 x3 y3 + x1 * num_e x2 y2 x3 y3 * den_f x2 y2 x3 y3.
Definition right_w : Z := d * num_e x2 y2 x3 y3 * num_h x2 y2 x3 y3 * x1 * y1.
Definition right_den : Z := den_f x2 y2 x3 y3 * den_g x2 y2 x3 y3.

Definition cof_x1 : Z :=
  - y1 * x2 * y2^2 * x3^2 * y3 * d - y1 * x2^2 * y2 * x3 * y3^2 * d + y1 * x2^2 * y2^3 * x3^3 * y3^2 * d^2
  + y1 * x2^3 * y2^2 * x3^2 * y3^3 * d^2 + x1 * x2 * y2^2 * x3 * d + x1 * x2 * y2^2 * x3^3 * d
  + x1 * x2 * y2^4 * x3^3 * y3^2 * d^2 - x1 * x2^2 * y2 * y3 * d + x1 * x2^2 * y2 * y3^3 * d
  - x1 * x2^3 * y2^4 * x3^3 * y3^2 * d^3 + x1 * x2^4 * y2 * x3^2 * y3^3 * d^2
  + x1 * x2^4 * y2^3 * x3^2 * y3^3 * d^3.
Definition cof_x2 : Z :=
  x1 * x2 * x3 * d - x1 * x2 * x3 * y3^2 * d + x1 * x2 * x3^3 * d + x1 * x2 * x3^3 * y3^2 * d^2
  + x1 * x2 * y2^2 * x3^3 * y3^2 * d^2 - x1 * x2^2 * y2 * x3^2 * y3^3 * d^2 - x1^2 * y1 * x2 * y3 * d
  + x1^2 * y1 * x2 * y3^3 * d - x1^2 * y1 * x2 * x3^2 * y3 * d - x1^2 * y1 * x2 * x3^2 * y3^3 * d^2
  - x1^2 * y1 * x2 * y2^2 * x3^2 * y3^3 * d^2 + x1^2 * y1 * x2^2 * y2 * x3^3 * y3^2 * d^2
  + x1^2 * y1^3 * x2 * y2^2 * x3^2 * y3 * d^2 + x1^2 * y1^3 * x2^2 * y2 * x3 * d^2
  + x1^2 * y1^3 * x2^2 * y2 * x3^3 * d^2 + x1^2 * y1^3 * x2^2 * y2 * x3^3 * y3^2 * d^3 + x1^3 * x2 * x3 * d
  - x1^3 * x2 * x3 * y3^2 * d + x1^3 * x2 * x3^3 * d + x1^3 * x2 * x3^3 * y3^2 * d^2
  + x1^3 * x2 * y2^2 * x3^3 * y3^2 * d^2 - x1^3 * x2^2 * y2 * x3^2 * y3^3 * d^2 + x1^3 * y1^2 * x2 * x3 * d^2
  - x1^3 * y1^2 * x2 * x3 * y3^2 * d^2 + x1^3 * y1^2 * x2 * x3^3 * d^2 + x1^3 * y1^2 * x2 * x3^3 * y3^2 * d^3
  - x1^3 * y1^2 * x2 * y2^2 * x3 * y3^2 * d^2 + x1^3 * y1^2 * x2 * y2^2 * x3^3 * y3^2 * d^3
  + x1^3 * y1^2 * x2^2 * y2 * y3 * d^2 - x1^3 * y1^2 * x2^2 * y2 * y3^3 * d^2.
Definition cof_x3 : Z :=
  - x1 * x2 * x3 * d + x1 * x2^2 * y2 * y3 * d - x1 * x2^3 * x3 * d - x1 * x2^3 * y2^2 * x3 * d^2
  + x1^2 * y1 * x2 * y3 * d - x1^2 * y1 * x2^2 * y2 * x3 * d + x1^2 * y1 * x2^3 * y3 * d
  + x1^2 * y1 * x2^3 * y2^2 * y3 * d^2 - x1^2 * y1^3 * x2^2 * y2 * x3 * d^2
  - x1^2 * y1^3 * x2^3 * y2^2 * y3 * d^2 - x1^2 * y1^3 * x2^4 * y2 * x3 * d^2
  - x1^2 * y1^3 * x2^4 * y2^3 * x3 * d^3 - x1^3 * x2 * x3 * d + x1^3 * x2^2 * y2 * y3 * d - x1^3 * x2^3 * x3 * d
  - x1^3 * x2^3 * y2^2 * x3 * d^2 - x1^3 * y1^2 * x2 * x3 * d^2 - x1^3 * y1^2 * x2^3 * x3 * d^2
  - x1^3 * y1^2 * x2^3 * y2^2 * x3 * d^2 - x1^3 * y1^2 * x2^3 * y2^2 * x3 * d^3
  - x1^3 * y1^2 * x2^4 * y2 * y3 * d^2 - x1^3 * y1^2 * x2^4 * y2^3 * y3 * d^3.
Definition cof_y1 : Z :=
  y1 * x2 * y2^2 * x3 * y3^2 * d + y1 * x2^2 * y2 * x3^2 * y3 * d + y1 * x2^2 * y2^3 * x3^2 * y3^3 * d^2
  + y1 * x2^3 * y2^2 * x3^3 * y3^2 * d^2 + x1 * x2 * y2^2 * y3 * d - x1 * x2 * y2^2 * y3^3 * d
  + x1 * x2 * y2^4 * x3^2 * y3^3 * d^2 - x1 * x2^2 * y2 * x3 * d - x1 * x2^2 * y2 * x3^3 * d
  - x1 * x2^3 * y2^4 * x3^2 * y3^3 * d^3 + x1 * x2^4 * y2 * x3^3 * y3^2 * d^2
  + x1 * x2^4 * y2^3 * x3^3 * y3^2 * d^3.
Definition cof_y2 : Z :=
  x1 * x2 * y3 * d - x1 * x2 * y3^3 * d + x1 * x2 * x3^2 * y3 * d + x1 * x2 * x3^2 * y3^3 * d^2
  + x1 * x2 * y2^2 * x3^2 * y3^3 * d^2 - x1 * x2^2 * y2 * x3^3 * y3^2 * d^2 - x1^2 * y1 * x2 * x3 * d
  + x1^2 * y1 * x2 * x3 * y3^2 * d - x1^2 * y1 * x2 * x3^3 * d - x1^2 * y1 * x2 * x3^3 * y3^2 * d^2
  - x1^2 * y1 * x2 * y2^2 * x3^3 * y3^2 * d^2 + x1^2 * y1 * x2^2 * y2 * x3^2 * y3^3 * d^2
  - x1^2 * y1^3 * x2 * y2^2 * x3 * y3^2 * d^2 + x1^2 * y1^3 * x2^2 * y2 * y3 * d^2
  - x1^2 * y1^3 * x2^2 * y2 * y3^3 * d^2 + x1^2 * y1^3 * x2^2 * y2 * x3^2 * y3^3 * d^3 + x1^3 * x2 * y3 * d
  - x1^3 * x2 * y3^3 * d + x1^3 * x2 * x3^2 * y3 * d + x1^3 * x2 * x3^2 * y3^3 * d^2
  + x1^3 * x2 * y2^2 * x3^2 * y3^3 * d^2 - x1^3 * x2^2 * y2 * x3^3 * y3^2 * d^2 + x1^3 * y1^2 * x2 * y3 * d^2
  - x1^3 * y1^2 * x2 * y3^3 * d^2 + x1^3 * y1^2 * x2 * x3^2 * y3 * d^2 + x1^3 * y1^2 * x2 * x3^2 * y3^3 * d^3
  + x1^3 * y1^2 * x2 * y2^2 * x3^2 * y3 * d^2 + x1^3 * y1^2 * x2 * y2^2 * x3^2 * y3^3 * d^3
  + x1^3 * y1^2 * x2^2 * y2 * x3 * d^2 + x1^3 * y1^2 * x2^2 * y2 * x3^3 * d^2.
Definition cof_y3 : Z :=
  - x1 * x2 * y3 * d + x1 * x2^2 * y2 * x3 * d - x1 * x2^3 * y3 * d - x1 * x2^3 * y2^2 * y3 * d^2
  + x1^2 * y1 * x2 * x3 * d - x1^2 * y1 * x2^2 * y2 * y3 * d + x1^2 * y1 * x2^3 * x3 * d
  + x1^2 * y1 * x2^3 * y2^2 * x3 * d^2 - x1^2 * y1^3 * x2^2 * y2 * y3 * d^2
  - x1^2 * y1^3 * x2^3 * y2^2 * x3 * d^2 - x1^2 * y1^3 * x2^4 * y2 * y3 * d^2
  - x1^2 * y1^3 * x2^4 * y2^3 * y3 * d^3 - x1^3 * x2 * y3 * d + x1^3 * x2^2 * y2 * x3 * d - x1^3 * x2^3 * y3 * d
  - x1^3 * x2^3 * y2^2 * y3 * d^2 - x1^3 * y1^2 * x2 * y3 * d^2 - x1^3 * y1^2 * x2^3 * y3 * d^2
  - x1^3 * y1^2 * x2^3 * y2^2 * y3 * d^2 - x1^3 * y1^2 * x2^3 * y2^2 * y3 * d^3
  - x1^3 * y1^2 * x2^4 * y2 * x3 * d^2 - x1^3 * y1^2 * x2^4 * y2^3 * x3 * d^3.

Lemma assoc_identity_x :
  left_x * (right_den + right_w) - right_x * (left_den + left_w) =
  cof_x1 * curve_eq x1 y1 + cof_x2 * curve_eq x2 y2 + cof_x3 * curve_eq x3 y3.
Proof.
  unfold left_x, left_w, left_den, right_x, right_w, right_den, num_e, num_h, den_f, den_g, curve_eq, cof_x1, cof_x2, cof_x3. ring.
Qed.

Lemma assoc_identity_y :
  left_y * (right_den - right_w) - right_y * (left_den - left_w) =
  cof_y1 * curve_eq x1 y1 + cof_y2 * curve_eq x2 y2 + cof_y3 * curve_eq x3 y3.
Proof.
  unfold left_y, left_w, left_den, right_y, right_w, right_den, num_e, num_h, den_f, den_g, curve_eq, cof_y1, cof_y2, cof_y3. ring.
Qed.
End Assoc.

(** Points with congruent coordinates. *)
Definition same_point (a b : affine) : Prop := ax a == ax b /\ ay a == ay b.
Infix "~~" := same_point (at level 70).

#[export] Instance same_point_equiv : Equivalence same_point.
Proof. split; [intros ?; done|intros ?? []; by split|intros ??? [] []; split; by etransitivity]. Qed.
#[export] Instance ax_proper : Proper (same_point ==> cong) ax.
Proof. by intros ?? []. Qed.
#[export] Instance ay_proper : Proper (same_point ==> cong) ay.
Proof. by intros ?? []. Qed.
#[export] Instance on_curve_proper : Proper (same_point ==> iff) on_curve.
Proof. intros a b [Ex Ey]. unfold on_curve. by rewrite Ex, Ey. Qed.
#[export] Instance edwards_add_proper : Proper (same_point ==> same_point ==> same_point ==> iff) edwards_add.
Proof. intros a a' [Ex Ey] b b' [Fx Fy] c c' [Gx Gy]. unfold edwards_add. cbn zeta. by rewrite Ex, Ey, Fx, Fy, Gx, Gy. Qed.

Lemma edwards_add_fun a b c c' : edwards_add a b c -> edwards_add a b c' -> c ~~ c'.
Proof.
  intros (Ip & Im & Hx & Hy) (_ & _ & Hx' & Hy'). split.
  - apply (cong_cancel _ _ _ Ip). by rewrite Hx, Hx'.
  - apply (cong_cancel _ _ _ Im). by rewrite Hy, Hy'.
Qed.

Lemma edwards_add_comm a b c : edwards_add a b c -> edwards_add b a c.
Proof.
  unfold edwards_add. cbn zeta. replace (d25519 * ax b * ax a * ay b * ay a) with (d25519 * ax a * ax b * ay a * ay b) by ring.
  replace (ax b * ay a + ay b * ax a) with (ax a * ay b + ay a * ax b) by ring.
  by replace (ay b * ay a + ax b * ax a) with (ay a * ay b + ax a * ax b) by ring.
Qed.

(** The sum of three points, from the left, as a fraction. *)
Lemma left_fraction a b c ab l : edwards_add a b ab -> edwards_add ab c l ->
  let den := left_den d25519 (ax a) (ay a) (ax b) (ay b) in
  let w := left_w d25519 (ax a) (ay a) (ax b) (ay b) (ax c) (ay c) in
  invertible (den + w) /\ invertible (den - w) /\
  ax l * (den + w) == left_x d25519 (ax a) (ay a) (ax b) (ay b) (ax c) (ay c) /\
  ay l * (den - w) == left_y d25519 (ax a) (ay a) (ax b) (ay b) (ax c) (ay c).
Proof.
  intros (Ig & If & He & Hh) (Jp & Jm & Hx & Hy). cbn zeta. unfold left_den, left_w, left_x, left_y, num_e, num_h, den_f, den_g.
  generalize dependent d25519. intros d. destruct a as [x1 y1], b as [x2 y2], c as [x3 y3], ab as [x y], l as [lx ly]. cbn [ax ay].
  set (g := 1 + d * x1 * x2 * y1 * y2). set (f := 1 - d * x1 * x2 * y1 * y2). intros Ig If He Hh.
  set (w' := d * x * x3 * y * y3). intros Jp Jm Hx Hy.
  assert (d * (x1 * y2 + y1 * x2) * (y1 * y2 + x1 * x2) * x3 * y3 == f * g * w') as Hw.
  { rewrite <- He, <- Hh. apply cong_of_eq. subst w'. ring. }
  assert (f * g + d * (x1 * y2 + y1 * x2) * (y1 * y2 + x1 * x2) * x3 * y3 == f * g * (1 + w')) as Ep.
  { rewrite Hw. apply cong_of_eq. ring. }
  assert (f * g - d * (x1 * y2 + y1 * x2) * (y1 * y2 + x1 * x2) * x3 * y3 == f * g * (1 - w')) as Em.
  { rewrite Hw. apply cong_of_eq. ring. }
  rewrite Ep, Em, <- He, <- Hh. split_and!; [auto using invertible_mul..| |].
  - transitivity (f * g * (lx * (1 + w'))); [apply cong_of_eq; ring|]. rewrite Hx. apply cong_of_eq. ring.
  - transitivity (f * g * (ly * (1 - w'))); [apply cong_of_eq; ring|]. rewrite Hy. apply cong_of_eq. ring.
Qed.

Lemma curve_eq_0 a : on_curve a -> curve_eq d25519 (ax a) (ay a) == 0.
Proof.
  unfold on_curve, curve_eq. intros ->. apply cong_of_eq. ring.
Qed.

(** Equal fractions have equal values. *)
Lemma fractions l r n m dl dr : invertible dl -> invertible dr -> l * dl == n -> r * dr == m -> n * dr - m * dl == 0 -> l == r.
Proof.
  intros Il Ir Hl Hr E. apply (cong_cancel _ _ (dl * dr)); [by apply invertible_mul|].
  transitivity (n * dr); [rewrite <- Hl; apply cong_of_eq; ring|].
  transitivity (m * dl + (n * dr - m * dl)); [apply cong_of_eq; ring|]. rewrite E, <- Hr. apply cong_of_eq. ring.
Qed.

Lemma edwards_add_assoc a b c ab bc l r :
  on_curve a -> on_curve b -> on_curve c ->
  edwards_add a b ab -> edwards_add ab c l -> edwards_add b c bc -> edwards_add a bc r -> l ~~ r.
Proof.
  intros Ha Hb Hc Hab Hl Hbc Hr. apply edwards_add_comm in Hr.
  destruct (left_fraction a b c ab l Hab Hl) as (I1 & I2 & Lx & Ly). destruct (left_fraction b c a bc r Hbc Hr) as (J1 & J2 & Rx & Ry).
  cbn zeta in *. apply curve_eq_0 in Ha, Hb, Hc. split.
  - apply (fractions _ _ _ _ _ _ I1 J1 Lx Rx).
    pose proof (assoc_identity_x d25519 (ax a) (ay a) (ax b) (ay b) (ax c) (ay c)) as E.
    transitivity (cof_x1 d25519 (ax a) (ay a) (ax b) (ay b) (ax c) (ay c) * curve_eq d25519 (ax a) (ay a) +
      cof_x2 d25519 (ax a) (ay a) (ax b) (ay b) (ax c) (ay c) * curve_eq d25519 (ax b) (ay b) +
      cof_x3 d25519 (ax a) (ay a) (ax b) (ay b) (ax c) (ay c) * curve_eq d25519 (ax c) (ay c)).
    + rewrite <- E. apply cong_of_eq. unfold left_x, right_x, left_den, right_den, left_w, right_w. ring.
    + by rewrite Ha, Hb, Hc, !Z.mul_0_r.
  - apply (fractions _ _ _ _ _ _ I2 J2 Ly Ry).
    pose proof (assoc_identity_y d25519 (ax a) (ay a) (ax b) (ay b) (ax c) (ay c)) as E.
    transitivity (cof_y1 d25519 (ax a) (ay a) (ax b) (ay b) (ax c) (ay c) * curve_eq d25519 (ax a) (ay a) +
      cof_y2 d25519 (ax a) (ay a) (ax b) (ay b) (ax c) (ay c) * curve_eq d25519 (ax b) (ay b) +
      cof_y3 d25519 (ax a) (ay a) (ax b) (ay b) (ax c) (ay c) * curve_eq d25519 (ax c) (ay c)).
    + rewrite <- E. apply cong_of_eq. unfold left_y, right_y, left_den, right_den, left_w, right_w. ring.
    + by rewrite Ha, Hb, Hc, !Z.mul_0_r.
Qed.

(** ** The group *)
Definition origin : affine := mk_affine 0 1.

Lemma origin_curve : on_curve origin.
Proof. done. Qed.

Section Group.

Lemma sum_curve a b : on_curve a -> on_curve b -> on_curve (edwards a b).
Proof. intros Ha Hb. by apply edwards_law. Qed.

Lemma sum_comm a b : on_curve a -> on_curve b -> edwards a b ~~ edwards b a.
Proof.
  intros Ha Hb. destruct (edwards_law a b Ha Hb) as [H _]. destruct (edwards_law b a Hb Ha) as [H' _].
  apply edwards_add_comm in H'. by apply (edwards_add_fun a b).
Qed.

Lemma sum_assoc a b c : on_curve a -> on_curve b -> on_curve c -> edwards (edwards a b) c ~~ edwards a (edwards b c).
Proof.
  intros Ha Hb Hc. destruct (edwards_law a b Ha Hb) as [H1 C1]. destruct (edwards_law b c Hb Hc) as [H2 C2].
  apply (edwards_add_assoc a b c (edwards a b) (edwards b c)); try done; by apply edwards_law.
Qed.

Lemma sum_proper a a' b b' : on_curve a -> on_curve b -> a ~~ a' -> b ~~ b' -> edwards a b ~~ edwards a' b'.
Proof.
  intros Ha Hb Ea Eb. assert (on_curve a') as Ha' by (by rewrite <- Ea). assert (on_curve b') as Hb' by (by rewrite <- Eb).
  destruct (edwards_law a b Ha Hb) as [H _]. destruct (edwards_law a' b' Ha' Hb') as [H' _].
  revert H'. generalize (edwards a' b'). intros c H'. rewrite <- Ea, <- Eb in H'. by apply (edwards_add_fun a b).
Qed.

Lemma sum_origin a : on_curve a -> edwards origin a ~~ a.
Proof.
  intros Ha. destruct (edwards_law origin a origin_curve Ha) as [H _]. apply (edwards_add_fun origin a); [done|].
  unfold edwards_add. cbn [ax ay origin]. split_and!; try (by exists 1); apply cong_of_eq; ring.
Qed.

Lemma neg_curve a : on_curve a -> on_curve (neg a).
Proof.
  unfold on_curve. cbn [neg ax ay]. replace (- ax a * - ax a) with (ax a * ax a) by ring.
  by replace (d25519 * - ax a * - ax a * ay a * ay a) with (d25519 * ax a * ax a * ay a * ay a) by ring.
Qed.

Lemma sum_neg a : on_curve a -> edwards a (neg a) ~~ origin.
Proof.
  intros Ha. destruct (edwards_law a (neg a) Ha (neg_curve a Ha)) as [H _]. apply (edwards_add_fun a (neg a)); [done|].
  destruct H as (Ip & Im & _). split_and!; [done|done|cbn [ax ay origin neg]; apply cong_of_eq; ring|].
  cbn [ax ay origin neg]. unfold on_curve in Ha. rewrite Z.mul_1_l.
  transitivity (1 + d25519 * ax a * ax a * ay a * ay a); [apply cong_of_eq; ring|]. rewrite <- Ha. apply cong_of_eq. ring.
Qed.

(** Multiples. *)
Fixpoint times (n : nat) (a : affine) : affine :=
  match n with
  | O => origin
  | S n => edwards a (times n a)
  end.

Lemma times_curve n a : on_curve a -> on_curve (times n a).
Proof. intros Ha. induction n as [|n IH]; [apply origin_curve|]. by apply sum_curve. Qed.

Lemma times_1 a : on_curve a -> times 1 a ~~ a.
Proof. intros Ha. cbn. etransitivity; [apply sum_comm; [done|apply origin_curve]|]. by apply sum_origin. Qed.

Lemma times_add n m a : on_curve a -> times (n + m) a ~~ edwards (times n a) (times m a).
Proof.
  intros Ha. induction n as [|n IH]; cbn [times Nat.add]; [symmetry; by apply sum_origin, times_curve|].
  etransitivity; [apply sum_proper; [done|by apply times_curve|reflexivity|exact IH]|].
  symmetry. apply sum_assoc; [done|by apply times_curve..].
Qed.

Lemma times_proper n a b : on_curve a -> a ~~ b -> times n a ~~ times n b.
Proof.
  intros Ha E. induction n as [|n IH]; cbn [times]; [done|]. apply sum_proper; [done|by apply times_curve|done|done].
Qed.

Lemma times_mul n m a : on_curve a -> times (n * m) a ~~ times n (times m a).
Proof.
  intros Ha. induction n as [|n IH]; cbn [times Nat.mul]; [done|].
  etransitivity; [by apply times_add|]. apply sum_proper; [by apply times_curve|by apply times_curve|done|done].
Qed.

(** Removing what was added. *)
Lemma sum_cancel a b : on_curve a -> on_curve b -> edwards (edwards a b) (neg b) ~~ a.
Proof.
  intros Ha Hb. pose proof (neg_curve b Hb) as Hn. etransitivity; [by apply sum_assoc|].
  etransitivity; [apply sum_proper; [done|by apply sum_curve|reflexivity|by apply sum_neg]|].
  etransitivity; [apply sum_comm; [done|apply origin_curve]|]. by apply sum_origin.
Qed.
End Group.
