(* ===== verification/SpakeSpec.v ===== *)
(** * SPAKE2: what the code computes

    The points of Spake2 against the group of Edwards: multiples, the bytes of a point, and the key that the two sides share. *)
From S2P Require Import Prelude Fe25519 Prime25519 PairingWire AuthKey Spake2 Edwards.
From Stdlib Require Import Zpow_facts.

(** ** Operations on representatives *)
Lemma represents_same P a b : represents P a -> a ~~ b -> represents P b.
Proof.
  intros (z & Hz & I & Hx & Hy & Ht) [Ex Ey]. exists z. split_and!; [done|done|..].
  - by rewrite <- Ex.
  - by rewrite <- Ey.
  - by rewrite <- Ex, <- Ey.
Qed.

Lemma add_sum P Q a b : represents P a -> represents Q b -> on_curve a -> on_curve b -> represents (Point.add P Q) (edwards a b).
Proof. intros HP HQ Ha Hb. apply (add_represents P Q a b); [done..|]. by apply edwards_law. Qed.

Lemma sub_sum P Q a b : represents P a -> represents Q b -> on_curve a -> on_curve b -> represents (Point.sub P Q) (edwards a (neg b)).
Proof. intros HP HQ Ha Hb. apply (sub_represents P Q a b); [done..|]. apply edwards_law; [done|by apply neg_curve]. Qed.

Lemma double_sum P a : represents P a -> on_curve a -> represents (Point.double P) (edwards a a).
Proof. intros HP Ha. apply (double_represents P a); [done..|]. by apply edwards_law. Qed.

(** ** Multiples *)
Definition bit_at (b : byte) (i : nat) : nat := if Z.land (Z.shiftr (b2z b) (Z.of_nat i)) 1 =? 1 then 1 else 0.

Fixpoint bits_val (b : byte) (l : list nat) : nat :=
  match l with
  | [] => 0
  | i :: l => bit_at b i + 2 * bits_val b l
  end.

Lemma byte_bits b : bits_val b (seq 0 8) = Z.to_nat (b2z b).
Proof. by destruct b. Qed.

Section Multiple.
Context (a : affine) (Ha : on_curve a).

Definition multiples (st : ExtendedPoint * ExtendedPoint) (r b : nat) : Prop :=
  represents st.1 (times r a) /\ represents st.2 (times b a).

Lemma mul_bit_multiples byte i st r b :
  multiples st r b -> multiples (Point.mul_bit byte st i) (r + b * bit_at byte i) (b + b).
Proof.
  destruct st as [res base]. intros [Hr Hb]. unfold Point.mul_bit, bit_at. cbn [fst snd] in *.
  pose proof (times_curve r a Ha) as Cr. pose proof (times_curve b a Ha) as Cb. split; cbn [fst snd].
  - destruct (_ =? 1).
    + rewrite Nat.mul_1_r. eapply represents_same; [by apply add_sum|]. symmetry. by apply times_add.
    + by rewrite Nat.mul_0_r, Nat.add_0_r.
  - eapply represents_same; [by apply double_sum|]. symmetry. by apply times_add.
Qed.

Lemma mul_bits_multiples byte l : forall st r b,
  multiples st r b -> multiples (fold_left (Point.mul_bit byte) l st) (r + b * bits_val byte l) (b * 2 ^ length l).
Proof.
  induction l as [|i l IH]; intros st r b H; cbn [fold_left bits_val length Nat.pow].
  - by rewrite Nat.mul_0_r, Nat.add_0_r, Nat.mul_1_r.
  - apply (mul_bit_multiples byte i) in H. apply IH in H.
    replace (r + b * (bit_at byte i + 2 * bits_val byte l))%nat with (r + b * bit_at byte i + (b + b) * bits_val byte l)%nat by lia.
    by replace (b * (2 * 2 ^ length l))%nat with ((b + b) * 2 ^ length l)%nat by lia.
Qed.

Lemma mul_bytes_multiples scalar : forall st r b,
  multiples st r b ->
  multiples (fold_left (fun st byte => fold_left (Point.mul_bit byte) (seq 0 8) st) scalar st)
    (r + b * Z.to_nat (le_val scalar)) (b * 256 ^ length scalar).
Proof.
  induction scalar as [|v scalar IH]; intros st r b H; cbn [fold_left le_val length Nat.pow].
  - by rewrite Nat.mul_0_r, Nat.add_0_r, Nat.mul_1_r.
  - apply (mul_bits_multiples v (seq 0 8)) in H. rewrite byte_bits in H. apply IH in H.
    change (2 ^ length (seq 0 8))%nat with 256%nat in H. pose proof (b2z_range v). pose proof (le_val_range scalar).
    replace (Z.to_nat (b2z v + 256 * le_val scalar)) with (Z.to_nat (b2z v) + 256 * Z.to_nat (le_val scalar))%nat by lia.
    replace (r + b * (Z.to_nat (b2z v) + 256 * Z.to_nat (le_val scalar)))%nat
      with (r + b * Z.to_nat (b2z v) + b * 256 * Z.to_nat (le_val scalar))%nat by lia.
    by replace (b * (256 * 256 ^ length scalar))%nat with (b * 256 * 256 ^ length scalar)%nat by lia.
Qed.

Lemma scalar_mul_times P scalar : represents P a -> represents (Point.scalar_mul P scalar) (times (Z.to_nat (le_val scalar)) a).
Proof.
  intros HP. unfold Point.scalar_mul.
  assert (multiples (Point.identity, P) 0 1) as H.
  { split; [apply identity_represents|]. eapply represents_same; [exact HP|]. symmetry. by apply times_1. }
  apply (mul_bytes_multiples scalar) in H as [H _]. by rewrite Nat.mul_1_l in H.
Qed.
End Multiple.

(** ** The bytes of a point *)
Lemma le_bytes_app n m v : le_bytes (n + m) v = le_bytes n v ++ le_bytes m (v / 2 ^ (8 * Z.of_nat n)).
Proof.
  revert v. induction n as [|n IH]; intros v; cbn [le_bytes Nat.add app]; [by rewrite Z.div_1_r|]. f_equal. rewrite IH. do 2 f_equal.
  rewrite Z.div_div by lia. f_equal. change 256 with (2 ^ 8). rewrite <- Z.pow_add_r by lia. f_equal. lia.
Qed.

(** Setting the top bit of a value of 255 bits. *)
Lemma set_top_bit y : 0 <= y < 2 ^ 255 ->
  alter (fun b => z2b (Z.lor (b2z b) 0x80)) 31%nat (le_bytes 32 y) = le_bytes 32 (y + 2 ^ 255).
Proof.
  intros Hy. rewrite !(le_bytes_app 31 1). change (8 * Z.of_nat 31) with 248.
  assert (le_bytes 31 (y + 2 ^ 255) = le_bytes 31 y) as ->.
  { apply le_val_inj; [by rewrite !zlen_le_bytes|]. rewrite !le_val_bytes. change (8 * Z.of_nat 31) with 248.
    change (2 ^ 255) with (2 ^ 7 * 2 ^ 248). by rewrite Z_mod_plus_full. }
  change 31%nat with (length (le_bytes 31 y) + 0)%nat at 1. rewrite alter_app_r. f_equal. cbn [le_bytes alter list_alter].
  assert (0 <= y / 2 ^ 248 < 128) as Hq.
  { split; [apply Z.div_pos; lia|]. apply Z.div_lt_upper_bound; lia. }
  rewrite b2z_z2b, (Z.mod_small (y / 2 ^ 248)) by lia.
  change (2 ^ 255) with (2 ^ 7 * 2 ^ 248). rewrite Z.div_add by lia. f_equal. f_equal.
  pose proof (Z.add_lor_land (y / 2 ^ 248) 0x80) as E.
  assert (Z.land (y / 2 ^ 248) 0x80 = 0) as E0; [|change (2 ^ 7) with 0x80; lia].
  rewrite <- (Z.mod_small (y / 2 ^ 248) (2 ^ 7)), <- Z.land_ones, <- Z.land_assoc by lia. apply Z.land_0_r.
Qed.

(** The bytes of an affine point: the second coordinate with the parity of the first. *)
Definition affine_bytes (a : affine) : bytes :=
  le_bytes 32 (ay a mod p25519 + (if Z.odd (ax a mod p25519) then 2 ^ 255 else 0)).

Lemma is_val_mod f v : is_val f v -> lval f = v mod p25519.
Proof. intros [Hc E]. unfold cong in E. by rewrite lval_canonical in E. Qed.

Lemma val_invert f z : is_val f z -> ~ z == 0 -> exists i, is_val (Fe.invert f) i /\ z * i == 1.
Proof.
  intros [Hc E] Hz. destruct (invert_spec f Hc) as [Hi Ei]. exists (lval (Fe.invert f)). split; [by apply val_self|].
  pose proof (field_inv_spec z Hz) as Hm. rewrite inv_pow in Hm.
  rewrite Ei. apply (cong_pow (p25519 - 2)) in E. unfold cong in E. rewrite E. exact Hm.
Qed.

Lemma encode_spec P a : represents P a -> Point.encode P = affine_bytes a.
Proof.
  intros (z & Hz & I & Hx & Hy & _). unfold Point.encode, affine_bytes.
  destruct (val_invert (pz P) z Hz (invertible_nonzero z I)) as (i & Hi & Ei).
  assert (is_val (Fe.mul (px P) (Fe.invert (pz P))) (ax a)) as Vx.
  { eapply val_as; [fe_val|]. rewrite <- Z.mul_assoc, Ei. apply cong_of_eq. ring. }
  assert (is_val (Fe.mul (py P) (Fe.invert (pz P))) (ay a)) as Vy.
  { eapply val_as; [fe_val|]. rewrite <- Z.mul_assoc, Ei. apply cong_of_eq. ring. }
  rewrite is_negative_spec, to_bytes_spec by apply Vx || apply Vy. rewrite (is_val_mod _ _ Vx), (is_val_mod _ _ Vy), !Z.mod_mod by done.
  destruct (Z.odd _); [|by rewrite Z.add_0_r]. apply set_top_bit.
  pose proof (Z.mod_pos_bound (ay a) p25519 ltac:(done)). unfold p25519 in *. lia.
Qed.


Lemma sqrt_sound f r v : is_val f v -> Fe.sqrt_d2 f = Some r -> canonical r /\ lval r * lval r == v.
Proof.
  intros [Hc E]. unfold Fe.sqrt_d2. destruct (pow_loop_spec Fe.sqrt_exp 252 f Hc) as [H1 _]. revert H1.
  generalize (Fe.pow_loop Fe.mul Fe.sqrt_exp 252 Fe.ONE f) as r1. intros r1 H1. cbn zeta.
  assert (forall r, canonical r -> bool_decide (Fe.normalized (Fe.square r) = Fe.normalized f) = true -> lval r * lval r == v) as Ht.
  { intros r' Hr' Hb. rewrite square_test, Z.eqb_eq in Hb by done. rewrite <- E, <- Hb. by rewrite cong_mod. }
  destruct (bool_decide _) eqn:E1.
  { intros [= <-]. split; [done|]. by apply Ht. }
  assert (canonical (Fe.mul r1 Fe.sqrt_m1)) as H2 by (apply mul_spec; [apply H1|apply sqrt_m1_spec]). revert H2.
  generalize (Fe.mul r1 Fe.sqrt_m1) as r2. intros r2 H2.
  destruct (bool_decide (Fe.normalized (Fe.square r2) = _)) eqn:E2; [|done].
  intros [= <-]. split; [done|]. by apply Ht.
Qed.

(** The value that the bytes hold, and the bit above it. *)
Definition y_of (bs : bytes) : Z := le_val bs mod 2 ^ 255.
Definition sign_of (bs : bytes) : Z := le_val bs / 2 ^ 255.

Lemma decode_parts bs : zlen bs = 32 ->
  let last := default x00 (bs !! 31%nat) in
  let y_bytes := <[31%nat := z2b (Z.land (b2z last) 0x7f)]> bs in
  zlen y_bytes = 32 /\ le_val y_bytes = y_of bs /\ Z.land (Z.shiftr (b2z last) 7) 1 = sign_of bs.
Proof.
  intros Hl. cbn zeta. unfold y_of, sign_of. rewrite <- (take_drop 31 bs).
  set (lo := take 31 bs). assert (length lo = 31%nat) as Hlo by (subst lo; rewrite length_take; unfold zlen in Hl; lia).
  assert (length (drop 31 bs) = 1%nat) as Hhi by (rewrite length_drop; unfold zlen in Hl; lia).
  destruct (drop 31 bs) as [|b [|]]; try done. rewrite <- Hlo.
  rewrite list_lookup_middle by done. cbn [default from_option]. unfold id.
  rewrite insert_app_r_alt, Nat.sub_diag by done. cbn [insert list_insert].
  rewrite !le_val_app, zlen_app. unfold zlen. rewrite Hlo. cbn [length le_val]. rewrite b2z_z2b.
  change (8 * Z.of_nat 31) with 248. pose proof (b2z_range b) as Hb. pose proof (le_val_range lo) as Hlr.
  unfold zlen in Hlr. rewrite Hlo in Hlr. change (8 * Z.of_nat 31) with 248 in Hlr.
  change 0x7f with (Z.ones 7). rewrite (Z.land_ones _ 7), (Z.land_ones _ 1), Z.shiftr_div_pow2 by lia.
  pose proof (Z.mod_pos_bound (b2z b) (2 ^ 7) ltac:(lia)) as Hm. pose proof (Z.div_mod (b2z b) (2 ^ 7) ltac:(lia)) as Hd.
  assert (0 <= b2z b / 2 ^ 7 <= 1) as Hq by lia.
  split_and!.
  - done.
  - rewrite (Z.mod_small (b2z b mod 2 ^ 7) 256) by lia.
    rewrite (Z.mod_unique_pos (le_val lo + 2 ^ 248 * (b2z b + 256 * 0)) (2 ^ 255) (b2z b / 2 ^ 7) (le_val lo + 2 ^ 248 * (b2z b mod 2 ^ 7 + 256 * 0))); lia.
  - rewrite (Z.mod_small (b2z b / 2 ^ 7)) by (change (2 ^ 1) with 2; lia).
    apply (Z.div_unique_pos _ _ _ (le_val lo + 2 ^ 248 * (b2z b mod 2 ^ 7))); lia.
Qed.

Lemma curve_denominator y : ~ d25519 * (y * y) + 1 == 0.
Proof.
  intros E. assert (y == 0) as Hy.
  { apply (nonsquare 1). transitivity (d25519 * (y * y) + 1 - d25519 * (y * y)); [apply cong_of_eq; ring|].
    rewrite E. apply cong_of_eq. ring. }
  rewrite Hy in E. discriminate E.
Qed.

(** The equation that the first coordinate solves. *)
Lemma on_curve_solve x y : on_curve (mk_affine x y) <-> x * x * (d25519 * (y * y) + 1) == y * y - 1.
Proof.
  unfold on_curve. cbn [ax ay]. split; intros E.
  - transitivity (1 + d25519 * x * x * y * y - (1 - x * x)); [apply cong_of_eq; ring|]. rewrite <- E. apply cong_of_eq. ring.
  - transitivity (1 + (y * y - 1) - x * x); [apply cong_of_eq; ring|]. rewrite <- E. apply cong_of_eq. ring.
Qed.

Lemma odd_neg x : ~ x == 0 -> Z.odd (- x mod p25519) = negb (Z.odd (x mod p25519)).
Proof.
  intros Hx. pose proof (Z.mod_pos_bound x p25519 ltac:(done)) as Hb.
  assert (x mod p25519 <> 0) as Hn by (intros E; by apply Hx).
  rewrite Z_mod_nz_opp_full by done. rewrite Z.odd_sub. by destruct (Z.odd (x mod p25519)).
Qed.

Lemma decode_spec bs Q : zlen bs = 32 -> Point.decode bs = Some Q ->
  exists a, on_curve a /\ represents Q a /\ ay a == y_of bs /\ (ax a == 0 \/ Z.b2z (Z.odd (ax a mod p25519)) = sign_of bs).
Proof.
  intros Hl. unfold Point.decode. destruct (decode_parts bs Hl) as (Hly & Ey & Es). cbn zeta in *. rewrite Es. revert Hly Ey.
  generalize (<[31%nat := z2b (Z.land (b2z (default x00 (bs !! 31%nat))) 0x7f)]> bs) as yb. intros yb Hly Ey.
  destruct (from_bytes_spec yb Hly) as [Hc Ev]. rewrite Ey in Ev.
  assert (is_val (Fe.from_bytes yb) (y_of bs)) as Vy by (split; [done|rewrite Ev; apply cong_mod]).
  revert Vy. generalize (Fe.from_bytes yb) as y, (y_of bs) as yv. intros y yv Vy.
  assert (is_val (Fe.add (Fe.mul d_const (Fe.square y)) Fe.ONE) (d25519 * (yv * yv) + 1)) as Vv by fe_val.
  destruct (val_invert _ _ Vv (curve_denominator yv)) as (i & Vi & Ei). revert Vi.
  generalize (Fe.invert (Fe.add (Fe.mul d_const (Fe.square y)) Fe.ONE)) as vi. intros vi Vi.
  assert (is_val (Fe.mul (Fe.sub (Fe.square y) Fe.ONE) vi) ((yv * yv - 1) * i)) as Vx2 by fe_val.
  destruct (Fe.sqrt_d2 _) as [x|] eqn:E; [|done]. destruct (sqrt_sound _ _ _ Vx2 E) as [Hx Ex]. intros [= <-].
  set (x' := if negb _ then _ else _).
  assert (exists xv, is_val x' xv /\ xv * xv == lval x * lval x /\ (xv == 0 \/ Z.b2z (Z.odd (xv mod p25519)) = sign_of bs)) as (xv & Vx & Exx & Hs).
  { subst x'. pose proof (val_self x Hx) as Vx. rewrite is_negative_spec by apply Hx.
    assert (0 <= sign_of bs <= 1) as Hsb.
    { pose proof (le_val_range bs) as Hr. rewrite Hl in Hr. unfold sign_of. split; [apply Z.div_pos; lia|].
      assert (le_val bs / 2 ^ 255 < 2); [|lia]. apply Z.div_lt_upper_bound; lia. }
    destruct (Z.eqb_spec (Z.b2z (Z.odd (lval x mod p25519))) (sign_of bs)) as [Hq|Hq]; cbn [negb].
    - exists (lval x). split_and!; [done|done|by right].
    - exists (0 - lval x). split_and!; [fe_val|apply cong_of_eq; ring|].
      destruct (cong_dec (lval x) 0) as [Hz|Hz]; [left; by rewrite Hz|right]. rewrite Z.sub_0_l, odd_neg by done.
      destruct (Z.odd (lval x mod p25519)); cbn [negb Z.b2z] in *; lia. }
  exists (mk_affine xv yv). split_and!; [|..|done|done].
  - apply on_curve_solve. rewrite Exx, Ex. transitivity ((yv * yv - 1) * ((d25519 * (yv * yv) + 1) * i)); [apply cong_of_eq; ring|].
    rewrite Ei. apply cong_of_eq. ring.
  - exists 1. cbn [px py pz pt ax ay]. rewrite !Z.mul_1_r. split_and!; [fe_val|by exists 1|done|done|fe_val].
Qed.

(** Points of the curve with one second coordinate. *)
Lemma same_y a b : on_curve a -> on_curve b -> ay a == ay b -> ax a == ax b \/ ax a == - ax b.
Proof.
  destruct a as [x1 y1], b as [x2 y2]. rewrite !on_curve_solve. cbn [ax ay]. intros H1 H2 E. rewrite <- E in H2.
  assert (x1 * x1 == x2 * x2) as Ex.
  { apply (cong_cancel _ _ (d25519 * (y1 * y1) + 1)); [apply nonzero_invertible, curve_denominator|]. by rewrite H1, H2. }
  assert ((x1 - x2) * (x1 + x2) == 0) as Ep.
  { transitivity (x1 * x1 - x2 * x2); [apply cong_of_eq; ring|]. rewrite Ex. apply cong_of_eq. ring. }
  destruct (mul_eq_0 _ _ Ep) as [E0|E0]; [left|right].
  - transitivity (x1 - x2 + x2); [apply cong_of_eq; ring|]. by rewrite E0.
  - transitivity (x1 + x2 - x2); [apply cong_of_eq; ring|]. rewrite E0. apply cong_of_eq. ring.
Qed.

(** A point that is decoded from the bytes of a point is that point. *)
Lemma decode_bytes a Q : on_curve a -> Point.decode (affine_bytes a) = Some Q -> represents Q a.
Proof.
  intros Ha E. pose proof (Z.mod_pos_bound (ay a) p25519 ltac:(done)) as Hy.
  assert (0 <= ay a mod p25519 < 2 ^ 255) as Hy' by (unfold p25519 in *; lia).
  set (o := Z.odd (ax a mod p25519)) in *.
  assert (le_val (affine_bytes a) = ay a mod p25519 + Z.b2z o * 2 ^ 255) as Ev.
  { unfold affine_bytes. fold o. rewrite le_val_bytes_id; [by destruct o|]. unfold uint. change (8 * Z.of_nat 32) with 256. destruct o; lia. }
  assert (zlen (affine_bytes a) = 32) as Hl by apply zlen_le_bytes.
  destruct (decode_spec (affine_bytes a) Q Hl E) as (b & Hb & HQ & Eby & Es). clear E.
  unfold y_of, sign_of in *. rewrite Ev in *. rewrite Z_mod_plus_full, Z.mod_small, cong_mod in Eby by lia.
  rewrite Z.div_add, Z.div_small, Z.add_0_l in Es by lia.
  apply (represents_same Q b); [done|]. split; [|done]. destruct (same_y b a Hb Ha Eby) as [|En]; [done|].
  destruct (cong_dec (ax a) 0) as [Hz|Hz]; [rewrite En, Hz; done|]. exfalso.
  destruct Es as [E0|Es].
  - apply Hz. rewrite E0 in En. transitivity (- - ax a); [apply cong_of_eq; ring|]. transitivity (0 - - ax a); [apply cong_of_eq; ring|].
    rewrite <- En. done.
  - unfold cong in En. rewrite En, odd_neg in Es by done. fold o in Es. by destruct o.
Qed.


(** ** The shared key *)
Section Shared.
Context (g m : affine) (Hg : on_curve g) (Hm : on_curve m).

Lemma masked_key_sum G M x w : represents G g -> represents M m ->
  represents (masked_key G M x w) (edwards (times (Z.to_nat (le_val x)) g) (times (Z.to_nat (le_val w)) m)).
Proof. intros HG HM. apply add_sum; [by apply scalar_mul_times..|by apply times_curve|by apply times_curve]. Qed.

(** The mask is removed, and the rest multiplied. *)
Lemma shared_key_times x G M Q w y :
  represents G g -> represents M m -> Point.decode (Point.encode (masked_key G M x w)) = Some Q ->
  represents (shared_key Q M y w) (times (Z.to_nat (le_val y) * Z.to_nat (le_val x)) g).
Proof.
  intros HG HM E. set (xg := times (Z.to_nat (le_val x)) g). set (wm := times (Z.to_nat (le_val w)) m).
  assert (on_curve xg) as Cx by by apply times_curve. assert (on_curve wm) as Cw by by apply times_curve.
  rewrite (encode_spec _ _ (masked_key_sum G M x w HG HM)) in E. apply decode_bytes in E; [|by apply sum_curve].
  unfold shared_key. eapply represents_same; [|symmetry; by apply times_mul].
  apply scalar_mul_times; [done|]. eapply represents_same; [|by apply (sum_cancel xg wm)].
  apply sub_sum; [done|by apply scalar_mul_times|by apply sum_curve|done].
Qed.
End Shared.


(** ** The fixed points *)
Lemma point_m_none : Point.decode Point.point_m_bytes = None.
Proof. vm_compute. reflexivity. Qed.

Lemma point_m_panics {C} (k : ExtendedPoint -> res PairingError C) : res_bind Point.point_m k = Panic.
Proof.
  unfold Point.point_m. pose proof point_m_none as E. revert E. generalize (Point.decode Point.point_m_bytes). by intros o ->.
Qed.

Lemma base_not_err e : @Point.base PairingError <> Err e.
Proof. unfold Point.base. generalize (Point.decode Point.base_bytes). by intros []. Qed.

Section Panics.
Context `{CryptoLib}.

(** The steps by rewriting: comparing two of them would evaluate the points. *)
Lemma bind_value {E A C} (a : A) (k : A -> res E C) : res_bind (Ok a) k = k a.
Proof. reflexivity. Qed.
Lemma bind_panic {E A C} (k : A -> res E C) : res_bind Panic k = Panic.
Proof. reflexivity. Qed.
Lemma bind_error {E A C} (e : E) (k : A -> res E C) : res_bind (Err e) k = Err e.
Proof. reflexivity. Qed.

Lemma client_panics s : role s = Alice ->
  generate_msg s = match random64 with Some _ => Panic | None => Err (Crypto (B "RNG failure")) end.
Proof.
  intros Hr. unfold generate_msg. rewrite Hr. destruct random64 as [r|]; unfold ok_or; [rewrite bind_value|by rewrite bind_error].
  destruct (sc_reduce r) as [p|e|] eqn:E; [rewrite bind_value|unfold sc_reduce, into_scalar in E; by destruct (_ <=? 32)|by rewrite bind_panic].
  clear E. pose proof base_not_err as Hb. destruct (@Point.base PairingError) as [b|e|]; [rewrite bind_value|by destruct (Hb e)|by rewrite bind_panic].
  by rewrite point_m_panics.
Qed.

Lemma server_panics s peer_msg : role s = Bob ->
  process_msg s peer_msg =
    if negb (zlen peer_msg =? 32) then Err (Crypto (B "invalid SPAKE2 peer message length"))
    else match Point.decode peer_msg with Some _ => Panic | None => Err (Crypto (B "peer point not on curve")) end.
Proof.
  intros Hr. unfold process_msg. rewrite Hr. destruct (negb _); [reflexivity|].
  destruct (Point.decode peer_msg) as [q|]; unfold ok_or; [rewrite bind_value|by rewrite bind_error]. by rewrite point_m_panics.
Qed.

(** One of the two fixed points cannot be decoded, since the constant for the square root of -1 is wrong: a client never
    sends its message but panics, and a server never makes a key, for any password, random numbers and messages. *)
Theorem spake2_never_completes (s : Spake2) (peer_msg : bytes) :
  (role s = Alice -> generate_msg s = match random64 with Some _ => Panic | None => Err (Crypto (B "RNG failure")) end) /\
  (role s = Bob -> process_msg s peer_msg =
     if negb (zlen peer_msg =? 32) then Err (Crypto (B "invalid SPAKE2 peer message length"))
     else match Point.decode peer_msg with Some _ => Panic | None => Err (Crypto (B "peer point not on curve")) end).
Proof. split; [apply client_panics|apply server_panics]. Qed.
End Panics.

(** The constant is not a square root of -1. *)
Example sqrt_m1_wrong : ~ lval Fe.sqrt_m1 * lval Fe.sqrt_m1 == -1.
Proof. by vm_compute. Qed.

(** ** Scalars *)
Definition group_order : Z := 2 ^ 252 + 27742317777372353535851937790883648493.

Lemma l_bytes_value : le_val l_bytes = group_order.
Proof. by vm_compute. Qed.

Lemma sc_reduce_spec {E} bs :
  exists out, @sc_reduce E bs = Ok out /\ zlen out = 32 /\ le_val out = le_val bs mod group_order.
Proof.
  unfold sc_reduce, into_scalar. rewrite l_bytes_value.
  pose proof (Z.mod_pos_bound (le_val bs) group_order ltac:(done)) as Hm.
  assert (zlen (to_bytes_le (le_val bs mod group_order)) <= 32) as Hl by (apply zlen_to_bytes_le; unfold group_order in *; lia).
  rewrite (proj2 (Z.leb_le _ _) Hl). eexists. split_and!; [done|by rewrite zlen_write_at, zlen_zrep by lia|].
  rewrite le_val_padded, le_val_to_bytes by lia. done.
Qed.

Lemma lor_carry b c : 0 <= c < 8 -> Z.lor (wrap 8 (Z.shiftl (b2z b) 3)) c = wrap 8 (8 * b2z b) + c.
Proof.
  intros Hc. rewrite Z.shiftl_mul_pow2, (Z.mul_comm (b2z b)) by lia. change (2 ^ 3) with 8.
  pose proof (Z.add_lor_land (wrap 8 (8 * b2z b)) c) as E. assert (Z.land (wrap 8 (8 * b2z b)) c = 0) as E0; [|lia].
  replace (wrap 8 (8 * b2z b)) with (Z.shiftl (b2z b mod 32) 3).
  - rewrite <- (Z.mod_small c (2 ^ 3)), <- Z.land_ones by lia. rewrite Z.land_comm, <- Z.land_assoc.
    replace (Z.land (Z.ones 3) (Z.shiftl (b2z b mod 32) 3)) with 0; [apply Z.land_0_r|].
    rewrite Z.land_comm, Z.land_ones, Z.shiftl_mul_pow2 by lia. symmetry. apply Z_mod_mult.
  - unfold wrap. rewrite Z.shiftl_mul_pow2 by lia. change (2 ^ 8) with (8 * 32). change (2 ^ 3) with 8. rewrite (Z.mul_mod_distr_l (b2z b) 32 8) by lia. lia.
Qed.

Lemma shift_go_spec bs : forall c, 0 <= c < 8 -> le_val (shift_go bs c) = (8 * le_val bs + c) mod 2 ^ (8 * zlen bs).
Proof.
  induction bs as [|b bs IH]; intros c Hc; cbn [shift_go le_val]; [change (2 ^ (8 * zlen [])) with 1; by rewrite Z.mod_1_r|].
  pose proof (b2z_range b) as Hb. rewrite Z.shiftr_div_pow2 by lia. change (2 ^ 5) with 32.
  assert (0 <= b2z b / 32 < 8) as Hn by (split; [apply Z.div_pos; lia|apply Z.div_lt_upper_bound; lia]).
  rewrite IH by done. rewrite lor_carry, b2z_z2b by done. unfold wrap. change (2 ^ 8) with 256.
  pose proof (Z.div_mod (b2z b) 32 ltac:(lia)) as Hd. pose proof (Z.mod_pos_bound (b2z b) 32 ltac:(lia)) as Hmb.
  assert (8 * b2z b mod 256 = 8 * (b2z b mod 32)) as -> by (change 256 with (8 * 32); by rewrite Z.mul_mod_distr_l by lia).
  rewrite (Z.mod_small (8 * (b2z b mod 32) + c)) by lia. rewrite zlen_cons.
  replace (8 * (1 + zlen bs)) with (8 + 8 * zlen bs) by lia. pose proof (zlen_nonneg bs). rewrite Z.pow_add_r by lia. change (2 ^ 8) with 256.
  rewrite Z.rem_mul_r by (try apply Z.pow_nonzero; lia).
  assert (8 * (b2z b + 256 * le_val bs) + c = 8 * (b2z b mod 32) + c + (8 * le_val bs + b2z b / 32) * 256) as -> by lia.
  set (q := 8 * (b2z b mod 32) + c). assert (0 <= q < 256) as Hq by (subst q; lia).
  rewrite Z_mod_plus_full, Z.div_add, (Z.mod_small q), (Z.div_small q) by lia. done.
Qed.

(** The number that [adjust_password_scalar] adds multiples of: its array is one byte short. *)
Definition short_order : Z := le_val adjust_l_bytes.

Lemma first_byte_land v m : 0 <= v -> 0 <= m < 256 -> Z.land (first_byte v) m = Z.land v m.
Proof.
  intros Hv Hm. unfold first_byte, to_bytes_le. destruct (byte_count v) as [|n] eqn:E.
  { unfold byte_count in E. pose proof (Z.div_pos (Z.log2 v) 8 (Z.log2_nonneg v) ltac:(lia)). lia. }
  cbn [le_bytes]. rewrite b2z_z2b. change 256 with (2 ^ 8). rewrite <- Z.land_ones, <- Z.land_assoc by lia. f_equal.
  rewrite Z.land_comm, Z.land_ones by lia. apply Z.mod_small. lia.
Qed.

Lemma land_mod8 v m : 0 <= m < 8 -> Z.land v m = Z.land (v mod 8) m.
Proof.
  intros Hm. change 8 with (2 ^ 3). rewrite <- Z.land_ones, <- Z.land_assoc by lia. f_equal.
  rewrite Z.land_comm, Z.land_ones by lia. symmetry. by apply Z.mod_small.
Qed.

(** One step: a multiple of an odd number clears the next bit. *)
Lemma adjust_step l v c : l mod 8 = 5 -> 0 <= v -> c = 1 \/ c = 2 \/ c = 4 -> (v mod 8) mod c = 0 ->
  exists k, 0 <= k < 2 /\ (if negb (Z.land (first_byte v) c =? 0) then v + l * c else v) = v + k * c * l /\
    ((v + k * c * l) mod 8) mod (2 * c) = 0.
Proof.
  intros Hl Hv Hc Hm. rewrite first_byte_land, land_mod8 by lia.
  assert (forall k, (v + k * c * l) mod 8 = (v mod 8 + k * c * 5) mod 8) as Hmod.
  { intros k. by rewrite Z.add_mod, Z.mul_mod, Hl, Z.mul_mod_idemp_l, <- Z.add_mod, <- Z.add_mod_idemp_l by done. }
  pose proof (Z.mod_pos_bound v 8 ltac:(lia)) as Hr. set (r := v mod 8) in *. clearbody r.
  assert (exists k, 0 <= k < 2 /\ (k = if negb (Z.land r c =? 0) then 1 else 0) /\ (r + k * c * 5) mod 8 mod (2 * c) = 0) as (k & Hk & Ek & E).
  { assert (r = 0 \/ r = 1 \/ r = 2 \/ r = 3 \/ r = 4 \/ r = 5 \/ r = 6 \/ r = 7) as Hcr by lia. exists (if negb (Z.land r c =? 0) then 1 else 0).
    destruct Hc as [->|[->| ->]], Hcr as [->|[->|[->|[->|[->|[->|[->| ->]]]]]]]; try discriminate Hm; by vm_compute. }
  exists k. split_and!; [lia|lia| |by rewrite Hmod]. destruct (negb _); subst k; lia.
Qed.

Lemma adjust_spec bs : le_val bs < 2 ^ 253 ->
  exists k, 0 <= k < 8 /\ le_val (adjust_password_scalar bs) = le_val bs + k * short_order /\
    (le_val bs + k * short_order) mod 8 = 0 /\ zlen (adjust_password_scalar bs) = 32.
Proof.
  intros Hv. unfold adjust_password_scalar. fold short_order. pose proof (le_val_range bs) as [H0 _].
  assert (short_order mod 8 = 5) as Hs by by vm_compute. assert (0 < short_order < 2 ^ 246) as Hsr by by vm_compute.
  set (v := le_val bs) in *. clearbody v. generalize dependent short_order. intros l Hs Hsr.
  destruct (adjust_step l v 1 Hs H0 ltac:(lia) (Z.mod_1_r _)) as (k1 & Hk1 & E1 & M1). rewrite Z.mul_1_r in E1. rewrite E1.
  destruct (adjust_step l (v + k1 * 1 * l) 2 Hs ltac:(nia) ltac:(lia) M1) as (k2 & Hk2 & E2 & M2). rewrite E2.
  destruct (adjust_step l (v + k1 * 1 * l + k2 * 2 * l) 4 Hs ltac:(nia) ltac:(lia) M2) as (k3 & Hk3 & E3 & M3). rewrite E3.
  exists (k1 + k2 * 2 + k3 * 4). replace (v + k1 * 1 * l + k2 * 2 * l + k3 * 4 * l) with (v + (k1 + k2 * 2 + k3 * 4) * l) in * by ring.
  set (k := k1 + k2 * 2 + k3 * 4) in *. assert (0 <= k < 8) as Hk by lia. clearbody k.
  assert (zlen (to_bytes_le (v + k * l)) <= 32) as Hl by (apply zlen_to_bytes_le; nia).
  rewrite Z.min_l, slice_full by lia. rewrite le_val_padded, le_val_to_bytes by nia. split_and!; [lia|lia|done| |].
  - change (2 * 4) with 8 in M3. by rewrite Z.mod_mod in M3.
  - by rewrite zlen_write_at, zlen_zrep by lia.
Qed.

(** The scalars of SPAKE2. A private scalar is eight times the random number modulo the order of the group. A
    password scalar is the hash modulo the order plus a multiple of another number, the order less one byte, which makes it
    a multiple of eight; so it is not, as it is meant to be, congruent to the hash modulo the order. *)
Theorem spake2_scalars :
  (forall (E : Type) (r : bytes), exists out, @sc_reduce E r = Ok out /\ zlen out = 32 /\
     le_val (left_shift_3 out) = 8 * (le_val r mod group_order)) /\
  (forall (E : Type) (h : bytes), exists out k, @sc_reduce E h = Ok out /\ 0 <= k < 8 /\
     le_val (adjust_password_scalar out) = le_val h mod group_order + k * short_order /\
     le_val (adjust_password_scalar out) mod 8 = 0) /\
  short_order <> group_order /\
  le_val (adjust_password_scalar (le_bytes 32 1)) mod group_order <> 1.
Proof.
  split_and!.
  - intros E r. destruct (@sc_reduce_spec E r) as (out & Eo & Hl & Ev). exists out. split_and!; [done|done|].
    unfold left_shift_3. rewrite shift_go_spec, Hl, Ev, Z.add_0_r by lia. apply Z.mod_small.
    pose proof (Z.mod_pos_bound (le_val r) group_order ltac:(done)). unfold group_order in *. lia.
  - intros E h. destruct (@sc_reduce_spec E h) as (out & Eo & Hl & Ev).
    pose proof (Z.mod_pos_bound (le_val h) group_order ltac:(done)) as Hm.
    destruct (adjust_spec out) as (k & Hk & Ek & Em & _); [rewrite Ev; unfold group_order in *; lia|].
    exists out, k. rewrite Ev in Ek, Em. rewrite Ek. split_and!; done || lia.
  - by vm_compute.
  - by vm_compute.
Qed.

(** ** Samples: points of small order *)
Module SpakeSample.

(** The points [(0, -1)] and [(i, 0)], of order 2 and 4. *)
Definition point2 : ExtendedPoint :=
  mk_point Fe.ZERO [0xffffffffffffffec; 0xffffffffffffffff; 0xffffffffffffffff; 0x7fffffffffffffff] Fe.ONE Fe.ZERO.
Definition affine2 : affine := mk_affine 0 (-1).
Definition point4 : ExtendedPoint :=
  mk_point [as64 sqrt_minus_1; as64 (Z.shiftr sqrt_minus_1 64); as64 (Z.shiftr sqrt_minus_1 128); as64 (Z.shiftr sqrt_minus_1 192)]
    Fe.ZERO Fe.ONE Fe.ZERO.
Definition affine4 : affine := mk_affine sqrt_minus_1 0.

Lemma is_val_check f v :
  bool_decide (length f = 4%nat) && forallb (fun x => (0 <=? x) && (x <? 2 ^ 64)) f && (lval f <? p25519) &&
    (lval f mod p25519 =? v mod p25519) = true -> is_val f v.
Proof.
  intros H. apply andb_prop in H as [H Ev]. apply andb_prop in H as [H Ep]. apply andb_prop in H as [Hl Hf].
  apply bool_decide_eq_true in Hl. apply Z.ltb_lt in Ep. apply Z.eqb_eq in Ev. split; [split; [split; [done|]|done]|done].
  rewrite forallb_forall in Hf. apply Forall_forall. intros x Hx. apply Hf in Hx.
  apply andb_prop in Hx as [?%Z.leb_le ?%Z.ltb_lt]. done.
Qed.

Lemma represents2 : represents point2 affine2.
Proof. exists 1. split_and!; try (apply is_val_check; by vm_compute). by exists 1. Qed.
Lemma represents4 : represents point4 affine4.
Proof. exists 1. split_and!; try (apply is_val_check; by vm_compute). by exists 1. Qed.
Lemma curve2 : on_curve affine2.
Proof. by vm_compute. Qed.
Lemma curve4 : on_curve affine4.
Proof. by vm_compute. Qed.


(** With these scalars, both messages are the origin. *)
Definition one : bytes := [x01].
Definition three : bytes := [x03].
Definition message : bytes := Eval vm_compute in Point.encode (masked_key point2 point2 one one).
Definition received : ExtendedPoint := Eval vm_compute in default Point.identity (Point.decode message).

Lemma message_decoded : Point.decode message = Some received.
Proof. vm_compute. reflexivity. Qed.
Lemma message_one : Point.encode (masked_key point2 point2 one one) = message.
Proof. vm_compute. reflexivity. Qed.
Lemma message_three : Point.encode (masked_key point2 point2 three one) = message.
Proof. vm_compute. reflexivity. Qed.

Lemma decoded_one : Point.decode (Point.encode (masked_key point2 point2 one one)) = Some received.
Proof. rewrite message_one. exact message_decoded. Qed.
Lemma decoded_three : Point.decode (Point.encode (masked_key point2 point2 three one)) = Some received.
Proof. rewrite message_three. exact message_decoded. Qed.


End SpakeSample.
